(* ===== verification/_CoqProject ===== *)
-Q . S2P
Prelude.v
Alloc.v
CStr.v
DataBuf.v
DeltaSig.v
DeltaIndex.v
DeltaInstr.v
DeltaCompute.v
Queue.v
ArrayList.v
Hardlink.v
Chmod.v
Glob.v
PathIndex.v
Paths.v
FilterParse.v
FilterRules.v
FileList.v
Transport.v
Session.v
Wp.v
Metadata.v
Charset.v
Chunk.v
Names.v
Libc.v
Basis.v
ConfigWire.v
ConfigTrip.v
ConfigTyped.v
ConfigCheck.v
Identity.v
DaemonConf.v
DaemonLimits.v
DaemonLoop.v
DeleteTree.v
DeleteWalk.v
DeleteSafe.v
DeleteExact.v
SecureFs.v
SecureSafe.v
Symlink.v
DeleteManifest.v
DeleteCommit.v
DeleteCommitSafe.v
DeletePlan.v
DeletePlanSafe.v
DeletePlanRun.v
DeletePlanSend.v
DeletePlanTable.v
DeletePlanKeep.v
DeletePlanWire.v
Disk.v
Save.v
SaveSafe.v
SaveDone.v
Xattr.v
XattrSafe.v
Credentials.v
CredentialsSafe.v
Base64.v
CredentialsTrip.v
Auth.v
AuthSafe.v
AuthTrip.v
Gate.v
GateSafe.v
Prepare.v
DummyKey.v
StopCondition.v
Compression.v
CompressionSafe.v
Checksum.v
ChecksumExact.v
Fuzzy.v
FuzzyExact.v
