(* ===== verification/Prelude.v ===== *)
(** * FastSync: verification of the shared core

    FastSync copies directory trees between a client and a server in the manner
    of rsync.  The client scans a tree, decides with filter rules and an
    optional list of paths what to send, and streams files, metadata and deltas
    over a framed protocol; the server receives them through a pipeline of
    worker threads joined by bounded queues, stores them below a root and
    deletes what the sender no longer has.  This library models the parts of
    src/shared/ (and of the client and server where named) that carry this
    logic, as functions on explicit values, and proves what the rest of the
    program relies on.

    ** Conventions.  A C function becomes a function with the same name that
    returns an [outcome]: [Ret] with its result, [Fail] for its failure value
    ([NULL], [false]), and [Stuck] for an access outside an object, a signed
    overflow, or exhausted fuel.  A theorem that a function returns therefore
    also excludes undefined behaviour and non-termination.  Integers are [Z]
    with the conversions of their C type written out ([u32], [u64], [i32]);
    strings and buffers are lists of bytes; structs are records.  [malloc] is
    outside the program: whether a request succeeds and what a fresh block
    holds are fields of the class [Heap] (file Alloc), over which everything is
    quantified; a theorem that needs memory says so with [heap_serves].  xxHash,
    the kernel, OpenSSL and the file system are parameters too.  Loops that are
    not structural carry fuel computed from their input (the number of bytes,
    slots or schedule entries left); the theorems show it is enough.  Only the
    search of --stop-at for the next matching date, whose length depends on the
    C library's calendar, takes its fuel as an argument.

    ** Files and the sources they model (under src/shared/)
    - Prelude (this file): outcomes, machine integers, reads and writes of
      buffers and arrays, tactics and hint databases.
    - Alloc: the allocation limit of protocol.c and the [Heap] class.
    - CStr: the C string functions the sources call.
    - DataBuf: data.c, the constructors of [Data].
    - DeltaSig, DeltaIndex, DeltaInstr, DeltaCompute: delta.c.  Block signatures
      and their codec; the bucket index and the match search; the instruction
      codec and the application of a delta; the matching loop with its rolling
      checksum, and the exchange of all of these between two peers.
    - Queue: queue.c.  The circular buffer, and in [Module Monitor] the blocking
      operations as a step relation over threads, mutex and wake-ups.
    - ArrayList: array_list.c.   - Hardlink: hardlink.c.   - Chmod: chmod.c.
    - Glob: [glob_match] of utils.c, the dynamic program on four rotating rows.
    - PathIndex: the string hash set, sorted array and path index of utils.c;
      the class [IndexOf] is what the index promises its clients.
    - Paths: path joining and checks, output escaping, bounded lines (utils.c).
    - FilterParse, FilterRules: filter.c.  The rule parser; rule lists, merge
      files, per-directory files, CVS defaults and the decision for a path.
    - FileList: file_list.c, the [--files-from] set, a client of PathIndex.
    - Transport: the plain and TLS operations and the exact read and write loops
      of protocol.c, over a schedule of what the environment answers.
    - Session: frames, rejection detail, keepalive wait and memory budget of
      protocol.c, and [data_destroy] of data.c; [Module Concurrent] is the
      budget under compare-and-swap by many threads.
    - Metadata: metadata.c, the wire record, the modification window, the mode
      rule and the time slots.
    - Wp: weakest preconditions of outcomes and of the protocol monad, with the
      tactics the later files use.
    - Charset: charset.c, the conversion loop with its growing buffer, the
      specification and its probes; iconv is a parameter.
    - Chunk: chunk.c and the chunk part of file.c, batches of small files, their
      records and the frames that carry them.
    - Names: the syntax checks and algorithm ids other components rely on.
    - Basis, ConfigWire, ConfigTrip, ConfigTyped, ConfigCheck: config.c and
      config.h.  Basis paths; the wire table with the sender and receiver of
      every member; the round trip; what a received frame can hold; the
      cross-field rules and the acceptance of a configuration.
    - Identity: identity.c, id maps, --chown and --copy-as, and the ownership
      policy the receiver applies.
    - Libc: [strtol], [strtoul], [strtok_r], [strchr], [fgets] and unsigned
      [printf] as the parsers use them.
    - DaemonConf: daemon_conf.c, the daemon's configuration file, its
      overrides and the host access rules.
    - DaemonLimits: daemon_limits.c, the registry of connections and sources
      the forked children share, with its lockout.
    - DaemonLoop: the accept loop and the SIGCHLD handler of transport_tcp.c
      with the children's registration, one atomic operation at a time.
    - DeleteTree, DeleteWalk, DeleteSafe, DeleteExact: the deletion walk of
      delete.c.  A directory tree whose system calls may fail; the walk in its
      deleting and listing modes; its safety under every fault; the removals it
      performs without faults.
    - SecureFs, SecureSafe: the walk to a path's parent below the authorized
      root and the operations on directories, links and trees of file.c.
    - Symlink: the lexical tests of link targets (file.c).
    - DeleteManifest: the delete manifest, sent by client_manifest.c of
      src/client/ and received by delete_commit.c.
    - DeleteCommit, DeleteCommitSafe: the skip set of delete.c and the commit of
      delete_commit.c, with the removals of --delete-missing-args.
    - DeletePlan, DeletePlanSafe, DeletePlanRun: the receiver of the
      per-directory plans of delete_plan.c.  The walk of one directory and the
      session; what a plan may remove and when; whole sessions, read from the
      bytes of a peer, with their commit.
    - DeletePlanSend, DeletePlanTable, DeletePlanKeep, DeletePlanWire: their
      sender, with the part of client_scan.c of src/client/ that feeds it.  The
      hash table of directories; that it lists exactly the scan; that a session
      with these plans keeps the scan; the frames on the wire.
    - Disk, Save, SaveSafe, SaveDone: the store of a file, of file.c and
      file_store.c.  A disk with names and contents and a schedule of kernel
      answers; the store under a temporary name or in place; its atomicity; its
      completeness and the exactness of the in-place branch.
    - Xattr, XattrSafe: xattr.c.  Extended attributes, captured, sent, received
      and applied, and the fake-super record.
    - Credentials, CredentialsSafe, CredentialsTrip: credentials.c.  Keys and
      proofs, the credential store and its loader; the invariant of the store;
      that a hashed store loads back.  Base64 states what OpenSSL promises, as
      the classes [Base64] and [Digests], and implements the encoding.
    - Auth, AuthSafe, AuthTrip: both halves of the login, of server.c in
      src/server/ and of config.c; the daemon against any peer; the two halves
      against each other.
    - Gate, GateSafe: the gate of server.c in src/server/ on a configuration and
      on the destination of a session, which joins DaemonConf, Identity, Charset
      and Auth; the class [Limits] is what it asks of the registry.
    - Prepare: the preparation of a session in server.c, after the gates, with
      the message of the day of motd.c.
    - DummyKey: the sidecar file of the dummy key of credentials.c, with any
      number of daemons that start together.
    - StopCondition: stop_condition.c, the options --stop-after and --stop-at.
    - Compression, CompressionSafe: compression.c.  Frames of every codec; that
      they come back, and that any bytes are decompressed within their limit.
      zstd, lz4 and zlib are classes of parameters.
    - Checksum, ChecksumExact: checksum.c.  MD4 in full, the choice of an
      algorithm, digests of memory and of descriptors; RFC 1320 written out as a
      specification ([Module RFC1320]), and that the digests agree with it.
    - Fuzzy, FuzzyExact: the --fuzzy search of incremental_check.c.  Distances,
      suffixes and candidates; that the choice is the least one.

    ** What is shown
    - Delta transfer: the receiver rebuilds the sender's file from its old file
      and the delta unless two different blocks collide in both checksums; the
      rolling checksum and the bucket index agree with their plain definitions;
      signatures and deltas survive their codec; parsing and applying hostile
      bytes stays inside its buffers and yields the announced size or a refusal.
    - Queues and budget: the queue refines a list; under every interleaving it
      is a bounded FIFO with mutual exclusion, and the budget counter is the sum
      of the charges held and stays below its limit; a received buffer is
      charged exactly and given back.
    - Protocol: reads and writes are exact under any splitting, retry or
      interruption; strings, buffers, status words and details arrive as sent
      and leave the stream at the next frame; the keepalive wait ends and leaves
      the stream in step.
    - Selection: glob patterns mean their recursive definition; the first rule
      that applies decides, within its owner directory; rule files always
      terminate; the path index and the files-from set are exact; rules survive
      being printed and parsed.
    - Configuration: what is sent is what the receiver holds, field by field; a
      frame of any bytes is read safely into typed members whose strings together
      take at most 1 MiB; a server goes on only with a configuration that satisfies
      every rule, the rules being spelled out apart from the checks of the code.
    - Identity: a wildcard of an id map covers exactly the accounts it names;
      maps the client builds are maps the receiver accepts; ownership changes
      only as the policy asks.
    - Daemon: a configuration that loads is servable, a host is admitted
      exactly when the bits of its address say so, the shared registry fits its
      mapping, repeated failures lock a source out for exactly the configured
      time, the table of sources never stays full, and under every
      interleaving no slot leaks and, as long as no run of the SIGCHLD handler
      overlaps a registration, no module has more connections than its cap.  Of the
      cap per source only the bound of a bucket is shown: it fails open when the
      table is full or a bucket is evicted.
    - Deletion: whatever fails, only extraneous entries are removed, within the
      budget; without faults exactly the planned ones, with the others counted
      exactly, and a dry run lists the same; a manifest is bounded; a commit keeps
      what was transmitted.  The per-directory plans arrive, each once and all of
      them; a session fed any bytes removes only what the frames in them leave
      unprotected; with the sender's plans it keeps everything the sender scanned.
      The theorems about commits and plans are without --keep-dirlinks, with which a
      path may lead through a directory link, and for a receive root within the
      authorized root.
    - Storing: no path, link or failure leads out of the authorized root; after
      every system call the destination of a store under a temporary name is the
      old or the complete new file, or with --partial what was written of it; a
      store that nothing hinders succeeds; a store in place leaves exactly the new
      bytes.  The theorems about stores are without --keep-dirlinks, and the one
      that a store succeeds also without --temp-dir.
    - Access: a login succeeds only with a proof for the key stored for that user
      under this connection's nonce, a user with the password always gets in, a
      store is unambiguous and its challenges tell nothing of its users; the gate
      accepts only what modules, host lists, limits, ownership policy and login
      allow; a session stays at or below its root and has none of the three delete
      authorities without --allow-delete.
    - The dummy key: daemons that start together agree on one key.  Stopping:
      --stop-after takes exactly the positive numbers of an [int], a deadline is
      reached exactly from its instant on, and a date with a field left out is
      in the future.
    - Content: compressed data comes back with every codec, and hostile frames
      stay within their limit; MD4 is that of RFC 1320 in whatever pieces it is
      fed; the --fuzzy basis is the least candidate by the weighted edit distance
      among the first 4096 entries of the directory, whatever their order.
    - Extended attributes: a peer can set only allowed names, within the limits;
      what was captured arrives; the fake-super record is replayed as written.
    - Batches and names: chunks survive their codec within their limits, and
      converted names are what the converter produces, however it is fed.
    - Paths and attributes: validated paths stay below the root; escaped output
      is printable; lines are bounded; metadata records decode to themselves or
      are refused; the mode rule, the time window, [--chmod] clauses and the
      hard-link groups are exact, and an assignment to a group fails exactly when
      the lock or an allocation it needs does.

    ** Bounds.  Merge files nest 17 levels (the limit of the source is 16).
    Theorems about filters assume patterns within the work limit of
    [glob_match] (64 Mi cells, beyond which it refuses to match) and, for the
    names of per-directory files, blocks below 8 GiB, since their capacity is
    doubled without an overflow check.  Schedules of the transport are finite:
    past their end the environment reports a timeout; past the end of a schedule
    of the disk every call succeeds.

    ** Not modelled.  The heuristics on [double] (whether to attempt a delta,
    bandwidth throttling), log and diagnostic texts, release of memory except
    where it returns a charge, permission bits and ownership of stored files,
    and the parts that are system calls around this core: sockets and TLS
    set-up, processes, the command line, the scan of the sender's tree.  Left
    too are the incremental check and the receiver's pipeline with installs from
    a basis, whose work is a long sequence of system calls and messages between
    the components above, and the staging directory of --delay-updates. *)

From Stdlib.Strings Require Import String.
From Stdlib Require Export ZArith Lia.
From coqutil Require Export Byte Word.LittleEndianList.
From stdpp Require Export base numbers sets relations sorting decidable list.
Export String.StringSyntax.
Export Corelib.Init.Byte.

(** * Results of C functions

    [Ret a]: the function returned the value [a]; [Fail]: it returned its
    failure value ([NULL] or [false]); [Stuck]: it performed an access outside
    the object it holds, which is undefined behaviour in C. *)
Inductive outcome (A : Type) : Type :=
| Ret (a : A)
| Fail
| Stuck.
Arguments Ret {A} _.
Arguments Fail {A}.
Arguments Stuck {A}.

#[global] Instance outcome_ret : MRet outcome := fun A a => Ret a.
#[global] Instance outcome_bind : MBind outcome := fun A B f m =>
  match m with
  | Ret a => f a
  | Fail => Fail
  | Stuck => Stuck
  end.
#[global] Arguments outcome_ret _ _ / : assert.
#[global] Arguments outcome_bind _ _ _ !_ / : assert.

(** [check b]: the guard of an early [return NULL] or [return false]. *)
Definition check (b : bool) : outcome unit := if b then Ret tt else Fail.

Definition is_ret {A} (o : outcome A) : bool :=
  match o with Ret _ => true | _ => false end.

Definition of_option {A} (o : option A) : outcome A :=
  match o with Some a => Ret a | None => Fail end.

Declare Scope c_scope.
Delimit Scope c_scope with C.
#[global] Open Scope c_scope.
#[global] Open Scope Z_scope.

Lemma bind_ret_inv {A B} (f : A -> outcome B) (m : outcome A) (b : B) :
  mbind f m = Ret b -> exists a, m = Ret a /\ f a = Ret b.
Proof. destruct m; simpl; naive_solver. Qed.

Lemma bind_not_stuck {A B} (f : A -> outcome B) (m : outcome A) :
  m <> Stuck -> (forall a, m = Ret a -> f a <> Stuck) -> mbind f m <> Stuck.
Proof. destruct m; simpl; naive_solver. Qed.

Lemma check_not_stuck b : check b <> Stuck.
Proof. by destruct b. Qed.

Lemma check_ret_inv b u : check b = Ret u -> b = true.
Proof. by destruct b. Qed.

(** * Machine integers (LP64: [int] 32 bits, [long], [size_t] and pointers 64) *)

Definition UINT32_MAX : Z := 2 ^ 32 - 1.
Definition UINT64_MAX : Z := 2 ^ 64 - 1.
Definition SIZE_MAX : Z := 2 ^ 64 - 1.
Definition INT_MAX : Z := 2 ^ 31 - 1.

(** Conversion to an unsigned or a two's-complement signed type. *)
Definition u8 (z : Z) : Z := z mod 2 ^ 8.
Definition u32 (z : Z) : Z := z mod 2 ^ 32.
Definition u64 (z : Z) : Z := z mod 2 ^ 64.
Definition i32 (z : Z) : Z := (z + 2 ^ 31) mod 2 ^ 32 - 2 ^ 31.
Definition i64 (z : Z) : Z := (z + 2 ^ 63) mod 2 ^ 64 - 2 ^ 63.

Lemma u32_small z : 0 <= z < 2 ^ 32 -> u32 z = z.
Proof. apply Z.mod_small. Qed.
Lemma u64_small z : 0 <= z < 2 ^ 64 -> u64 z = z.
Proof. apply Z.mod_small. Qed.
Lemma u32_range z : 0 <= u32 z < 2 ^ 32.
Proof. apply Z.mod_pos_bound. lia. Qed.
Lemma u64_range z : 0 <= u64 z < 2 ^ 64.
Proof. apply Z.mod_pos_bound. lia. Qed.
Lemma i32_small z : - 2 ^ 31 <= z < 2 ^ 31 -> i32 z = z.
Proof. intros. unfold i32. rewrite Z.mod_small; lia. Qed.
Lemma i64_small z : - 2 ^ 63 <= z < 2 ^ 63 -> i64 z = z.
Proof. intros. unfold i64. rewrite Z.mod_small; lia. Qed.
Lemma i32_mod z : i32 (z mod 2 ^ 32) = i32 z.
Proof. unfold i32. by rewrite Zplus_mod_idemp_l. Qed.
Lemma i64_mod z : i64 (z mod 2 ^ 64) = i64 z.
Proof. unfold i64. by rewrite Zplus_mod_idemp_l. Qed.

(** Signed [int] arithmetic: [Stuck] on overflow. *)
Definition int_ok (z : Z) : outcome Z :=
  if (- 2 ^ 31 <=? z) && (z <? 2 ^ 31) then Ret z else Stuck.

Lemma int_ok_ret z : - 2 ^ 31 <= z < 2 ^ 31 -> int_ok z = Ret z.
Proof.
  intros. unfold int_ok. destruct (Z.leb_spec (- 2 ^ 31) z), (Z.ltb_spec z (2 ^ 31)); simpl; done || lia.
Qed.

(** * Bytes, C strings and buffers *)

Abbreviation bZ := byte.unsigned.

#[global] Instance byte_eq_dec : EqDecision byte := Byte.byte_eq_dec.

Lemma bZ_range b : 0 <= bZ b < 256.
Proof. apply byte.unsigned_range. Qed.

(** A literal C string, without its terminating NUL. *)
Definition cs (s : string) : list byte := list_byte_of_string s.
#[global] Arguments cs s%_string_scope.

Definition zlen {A} (l : list A) : Z := Z.of_nat (length l).

Lemma zlen_nonneg {A} (l : list A) : 0 <= zlen l.
Proof. unfold zlen. lia. Qed.
Lemma Z2Nat_zlen {A} (l : list A) : Z.to_nat (zlen l) = length l.
Proof. unfold zlen. lia. Qed.
Lemma zlen_cons {A} (x : A) l : zlen (x :: l) = 1 + zlen l.
Proof. unfold zlen. simpl. lia. Qed.
Lemma zlen_app {A} (l k : list A) : zlen (l ++ k) = zlen l + zlen k.
Proof. unfold zlen. rewrite length_app. lia. Qed.

(** Reading [n] bytes at offset [pos] of an object: [Stuck] past its end. *)
Definition rd {A} (buf : list A) (pos n : Z) : outcome (list A) :=
  if bool_decide (0 <= pos /\ 0 <= n /\ pos + n <= zlen buf)
  then Ret (take (Z.to_nat n) (drop (Z.to_nat pos) buf))
  else Stuck.


Lemma rd_ret {A} (buf : list A) pos n :
  0 <= pos -> 0 <= n -> pos + n <= zlen buf ->
  rd buf pos n = Ret (take (Z.to_nat n) (drop (Z.to_nat pos) buf)).
Proof. intros. unfold rd. by rewrite bool_decide_eq_true_2. Qed.

Lemma rd_ret_inv {A} (buf : list A) pos n x :
  rd buf pos n = Ret x ->
  0 <= pos /\ 0 <= n /\ pos + n <= zlen buf /\
  x = take (Z.to_nat n) (drop (Z.to_nat pos) buf).
Proof. unfold rd. case_bool_decide; naive_solver. Qed.

Lemma rd_not_stuck {A} (buf : list A) pos n :
  0 <= pos -> 0 <= n -> pos + n <= zlen buf -> rd buf pos n <> Stuck.
Proof. intros. by rewrite rd_ret. Qed.

Lemma rd_zlen {A} (buf : list A) pos n x : rd buf pos n = Ret x -> zlen x = n.
Proof.
  intros (?&?&?&->)%rd_ret_inv. unfold zlen in *.
  rewrite length_take, length_drop. lia.
Qed.

Lemma zlen_take_drop {A} (buf : list A) pos n :
  0 <= pos -> 0 <= n -> pos + n <= zlen buf ->
  zlen (take (Z.to_nat n) (drop (Z.to_nat pos) buf)) = n.
Proof. intros. unfold zlen in *. rewrite length_take, length_drop. lia. Qed.

(** The segment [x] of [pre ++ x ++ post] is what a read at its offset gives. *)
Lemma rd_segment {A} (pre x post : list A) pos n :
  pos = zlen pre -> n = zlen x -> rd (pre ++ x ++ post) pos n = Ret x.
Proof.
  intros -> ->. rewrite rd_ret; [|pose proof (zlen_nonneg pre); pose proof (zlen_nonneg x);
    pose proof (zlen_nonneg post); rewrite ?zlen_app; lia ..].
  unfold zlen. rewrite !Nat2Z.id. by rewrite drop_app_length, take_app_length.
Qed.

(** * Fixed-width integers in memory

    The sources move integers with [memcpy]; both peers are little-endian. *)
Definition put_le (w : nat) (z : Z) : list byte := le_split w z.
Definition get_le (w : nat) (buf : list byte) (pos : Z) : outcome Z :=
  bs ← rd buf pos (Z.of_nat w); Ret (le_combine bs).

Lemma zlen_put_le w z : zlen (put_le w z) = Z.of_nat w.
Proof. unfold zlen, put_le. by rewrite length_le_split. Qed.

Lemma get_le_not_stuck w buf pos :
  0 <= pos -> pos + Z.of_nat w <= zlen buf -> get_le w buf pos <> Stuck.
Proof. intros. unfold get_le. rewrite rd_ret by lia. done. Qed.

Lemma get_le_ret_inv w buf pos z :
  get_le w buf pos = Ret z ->
  0 <= pos /\ pos + Z.of_nat w <= zlen buf /\ 0 <= z < 2 ^ (8 * Z.of_nat w).
Proof.
  unfold get_le. intros (bs&Hr&[= <-])%bind_ret_inv.
  pose proof (rd_zlen _ _ _ _ Hr) as Hl. apply rd_ret_inv in Hr as (?&?&?&_).
  pose proof (le_combine_bound bs) as Hb. unfold zlen in Hl. rewrite Hl in Hb. lia.
Qed.

Lemma get_put_le w z pre post pos :
  pos = zlen pre ->
  get_le w (pre ++ put_le w z ++ post) pos = Ret (z mod 2 ^ (8 * Z.of_nat w)).
Proof.
  intros Hp. unfold get_le. rewrite rd_segment by (done || by rewrite zlen_put_le).
  simpl. unfold put_le. rewrite le_combine_split. by rewrite Z.mul_comm.
Qed.

Lemma get_put_le_exact w z pre post pos :
  pos = zlen pre -> 0 <= z < 2 ^ (8 * Z.of_nat w) ->
  get_le w (pre ++ put_le w z ++ post) pos = Ret z.
Proof. intros. rewrite get_put_le by done. by rewrite Z.mod_small. Qed.

(** The three widths the sources use. *)
Lemma get_put_4 z pre post pos :
  pos = zlen pre -> 0 <= z < 2 ^ 32 -> get_le 4 (pre ++ put_le 4 z ++ post) pos = Ret z.
Proof. intros. by apply get_put_le_exact. Qed.
Lemma get_put_8 z pre post pos :
  pos = zlen pre -> 0 <= z < 2 ^ 64 -> get_le 8 (pre ++ put_le 8 z ++ post) pos = Ret z.
Proof. intros. by apply get_put_le_exact. Qed.
Lemma get_put_8_front z post :
  0 <= z < 2 ^ 64 -> get_le 8 (put_le 8 z ++ post) 0 = Ret z.
Proof. intros. by apply (get_put_8 z []). Qed.
Lemma get_put_4_front z post :
  0 <= z < 2 ^ 32 -> get_le 4 (put_le 4 z ++ post) 0 = Ret z.
Proof. intros. by apply (get_put_4 z []). Qed.
Lemma get_4_inv buf pos z :
  get_le 4 buf pos = Ret z -> 0 <= pos /\ pos + 4 <= zlen buf /\ 0 <= z < 2 ^ 32.
Proof. apply get_le_ret_inv. Qed.
Lemma get_8_inv buf pos z :
  get_le 8 buf pos = Ret z -> 0 <= pos /\ pos + 8 <= zlen buf /\ 0 <= z < 2 ^ 64.
Proof. apply get_le_ret_inv. Qed.

(** In range, a read of an integer returns. *)
Lemma get_le_total w buf pos :
  0 <= pos -> pos + Z.of_nat w <= zlen buf -> exists z, get_le w buf pos = Ret z.
Proof. intros. unfold get_le. rewrite rd_ret by lia. simpl. eauto. Qed.

(** What follows an object does not change a read inside it. *)
Lemma get_le_app w buf post pos z : get_le w buf pos = Ret z -> get_le w (buf ++ post) pos = Ret z.
Proof.
  unfold get_le. intros (bs&Hr&[= <-])%bind_ret_inv. apply rd_ret_inv in Hr as (Ha&Hc&Hd&->).
  rewrite rd_ret by (rewrite ?zlen_app; pose proof (zlen_nonneg post); lia). simpl. f_equal. f_equal.
  unfold zlen in Hd. rewrite drop_app_le by lia. rewrite take_app_le by (rewrite length_drop; lia). done.
Qed.

(** * Loops over an array: [for (i = 0; i < n; i++)] *)

Fixpoint for_each {A S} (f : A -> S -> outcome S) (n : nat) (arr : list A) (i : nat) (s : S)
  : outcome S :=
  match n with
  | O => Ret s
  | S n => match arr !! i with
           | None => Stuck
           | Some a => s' ← f a s; for_each f n arr (i + 1) s'
           end
  end.

Fixpoint foldM {A S} (f : A -> S -> outcome S) (l : list A) (s : S) : outcome S :=
  match l with
  | [] => Ret s
  | a :: l => s' ← f a s; foldM f l s'
  end.

Lemma for_each_foldM_aux {A S} (f : A -> S -> outcome S) pre l s :
  for_each f (length l) (pre ++ l) (length pre) s = foldM f l s.
Proof.
  revert pre s. induction l as [|a l IH]; intros pre s; simpl; [done|].
  rewrite list_lookup_middle by done. destruct (f a s) as [s'| |]; simpl; [|done..].
  specialize (IH (pre ++ [a]) s'). rewrite <- IH.
  by rewrite <- app_assoc, length_app.
Qed.

Lemma for_each_foldM {A S} (f : A -> S -> outcome S) l n s :
  n = length l -> for_each f n l 0 s = foldM f l s.
Proof. intros ->. apply (for_each_foldM_aux f []). Qed.

Lemma foldM_inv {A S} (P : S -> Prop) (f : A -> S -> outcome S) l s :
  (forall x s, x ∈ l -> P s -> exists s', f x s = Ret s' /\ P s') -> P s -> exists s', foldM f l s = Ret s' /\ P s'.
Proof.
  revert s. induction l as [|x l IH]; intros s Hf Hs; simpl; [by exists s|].
  destruct (Hf x s) as (s1&->&Hs1); [by left|done|]. simpl. apply IH; [|done]. intros y s2 Hy. apply Hf. by right.
Qed.

Lemma foldM_app {A S} (f : A -> S -> outcome S) l k s :
  foldM f (l ++ k) s = (s' ← foldM f l s; foldM f k s').
Proof.
  revert s. induction l as [|a l IH]; intros s; simpl; [done|].
  destruct (f a s); simpl; [apply IH|done..].
Qed.

(** * Array elements: [arr[i]] read and assigned, [Stuck] out of range *)
Definition ld {A} (arr : list A) (i : Z) : outcome A :=
  if 0 <=? i then match arr !! Z.to_nat i with Some a => Ret a | None => Stuck end else Stuck.
Definition st {A} (arr : list A) (i : Z) (a : A) : outcome (list A) :=
  if (0 <=? i) && (i <? zlen arr) then Ret (<[Z.to_nat i := a]> arr) else Stuck.

Lemma ld_ret_inv {A} (arr : list A) i a :
  ld arr i = Ret a -> 0 <= i < zlen arr /\ arr !! Z.to_nat i = Some a.
Proof.
  unfold ld. destruct (Z.leb_spec 0 i); [|done].
  destruct (arr !! Z.to_nat i) eqn:E; [|done]. intros [= ->]. split; [|done].
  apply lookup_lt_Some in E. unfold zlen. lia.
Qed.

Lemma ld_lookup {A} (arr : list A) i a :
  0 <= i -> arr !! Z.to_nat i = Some a -> ld arr i = Ret a.
Proof. intros Hi E. unfold ld. rewrite E. destruct (Z.leb_spec 0 i); [done|lia]. Qed.

Lemma ld_total {A} (arr : list A) i : 0 <= i < zlen arr -> exists a, ld arr i = Ret a.
Proof.
  intros Hi. destruct (arr !! Z.to_nat i) as [a|] eqn:E.
  - exists a. apply ld_lookup; [lia|done].
  - apply lookup_ge_None in E. unfold zlen in Hi. lia.
Qed.

Lemma st_ret {A} (arr : list A) i a :
  0 <= i < zlen arr -> st arr i a = Ret (<[Z.to_nat i := a]> arr).
Proof. intros. unfold st. destruct (Z.leb_spec 0 i), (Z.ltb_spec i (zlen arr)); simpl; done || lia. Qed.

Lemma zlen_insert {A} (arr : list A) i a : zlen (<[i := a]> arr) = zlen arr.
Proof. unfold zlen. by rewrite length_insert. Qed.

Lemma ld_insert_eq {A} (arr : list A) i a :
  0 <= i < zlen arr -> ld (<[Z.to_nat i := a]> arr) i = Ret a.
Proof. intros. apply ld_lookup; [lia|]. apply list_lookup_insert_eq. unfold zlen in *. lia. Qed.

Lemma ld_insert_ne {A} (arr : list A) i j a :
  0 <= i -> i <> j -> ld (<[Z.to_nat i := a]> arr) j = ld arr j.
Proof.
  intros Hi Hij. unfold ld. destruct (Z.leb_spec 0 j); [|done].
  rewrite list_lookup_insert_ne by lia. done.
Qed.

(** * Output buffers of a fixed size: writing past the end is [Stuck] *)
Record wbuf := WBuf { w_cap : Z; w_out : list byte }.

Definition emit (bs : list byte) (w : wbuf) : outcome wbuf :=
  if zlen (w_out w) + zlen bs <=? w_cap w
  then Ret (WBuf (w_cap w) (w_out w ++ bs))
  else Stuck.

Lemma emit_ret bs w :
  zlen (w_out w) + zlen bs <= w_cap w ->
  emit bs w = Ret (WBuf (w_cap w) (w_out w ++ bs)).
Proof. intros. unfold emit. destruct (Z.leb_spec (zlen (w_out w) + zlen bs) (w_cap w)); [done|lia]. Qed.

#[global] Opaque put_le.
#[global] Arguments zlen {_} _ : simpl never.
#[global] Arguments ld {_} _ _ : simpl never.
#[global] Arguments st {_} _ _ _ : simpl never.
#[global] Arguments rd {_} _ _ _ : simpl never.
#[global] Arguments get_le _ _ _ : simpl never.
#[global] Arguments emit _ _ : simpl never.
#[global] Arguments u8 _ : simpl never.
#[global] Arguments u32 _ : simpl never.
#[global] Arguments u64 _ : simpl never.
#[global] Arguments i32 _ : simpl never.
#[global] Arguments i64 _ : simpl never.
#[global] Arguments int_ok _ : simpl never.
#[global] Arguments check _ : simpl nomatch.

(** * Automation *)

Create HintDb fastsync discriminated.
Create Rewrite HintDb zlen.
#[export] Hint Resolve check_not_stuck : fastsync.
#[export] Hint Rewrite @zlen_app zlen_put_le @length_app : zlen.

(** Invert one [bind] of a computation known to return. *)
Ltac inv_ret H :=
  lazymatch type of H with
  | mbind _ _ = Ret _ =>
      let a := fresh "v" in let Ha := fresh "Hm" in
      apply bind_ret_inv in H as (a & Ha & H); simpl in H
  | check _ = Ret _ => apply check_ret_inv in H
  | Ret _ = Ret _ => injection H as H
  end.

(** Case analysis on the guard of the outermost conditional of the goal. *)
Ltac split_if :=
  match goal with
  | |- context [if ?b then _ else _] => let E := fresh "E" in destruct b eqn:E
  end.

(** Case analysis on the first guard of the computation in the goal. *)
Ltac case_check E :=
  match goal with
  | |- context [mbind _ (check ?c)] => destruct c eqn:E; simpl check; simpl mbind
  end.

(** Turn boolean comparisons of the context into propositions. *)
Ltac bool_to_prop :=
  repeat match goal with
  | H : (_ && _)%bool = true |- _ => apply andb_prop in H as [? ?]
  | H : (_ || _)%bool = false |- _ => apply orb_false_elim in H as [? ?]
  | H : negb _ = true |- _ => apply negb_true_iff in H
  | H : negb _ = false |- _ => apply negb_false_iff in H
  | H : (_ <=? _) = true |- _ => apply Z.leb_le in H
  | H : (_ <=? _) = false |- _ => apply Z.leb_gt in H
  | H : (_ <? _) = true |- _ => apply Z.ltb_lt in H
  | H : (_ <? _) = false |- _ => apply Z.ltb_ge in H
  | H : (_ =? _) = true |- _ => apply Z.eqb_eq in H
  | H : (_ =? _) = false |- _ => apply Z.eqb_neq in H
  | H : bool_decide _ = true |- _ => apply bool_decide_eq_true_1 in H
  | H : bool_decide _ = false |- _ => apply bool_decide_eq_false_1 in H
  end.
