(* ===== verification/Alloc.v ===== *)
(** The allocator the sources go through: [protocol_alloc] of
    src/shared/protocol.c, which refuses a request above the session's
    [max_alloc] and otherwise calls [malloc].  [malloc] itself is outside the
    program: whether it serves a request of a given size, and what a fresh
    block contains, are fields of [Heap], over which every statement of the
    development is quantified. *)

From S2P Require Import Prelude.

Class Heap := {
  max_alloc : Z;              (** [ProtocolSession.max_alloc] of the session in effect *)
  malloc_ok : Z -> bool;      (** does [malloc(size)] succeed *)
  junk_byte : nat -> byte;    (** the [i]-th byte of a fresh block *)
  junk_word : nat -> Z;       (** the [i]-th 32-bit word of a fresh block *)
}.

(** protocol.c [allocation_allowed] *)
Definition allocation_allowed `{Heap} (size : Z) : bool :=
  (max_alloc =? 0) || (size <=? max_alloc).

(** protocol.c [protocol_alloc_for_session]; [true] stands for a non-NULL block. *)
Definition protocol_alloc_for_session `{Heap} (size : Z) : bool :=
  if allocation_allowed size then malloc_ok size else false.

(** protocol.c [protocol_alloc], [protocol_realloc] *)
Definition protocol_alloc `{Heap} (size : Z) : bool := protocol_alloc_for_session size.
Definition protocol_realloc `{Heap} (size : Z) : bool :=
  if allocation_allowed size then malloc_ok size else false.

Definition junk_bytes `{Heap} (n : Z) : list byte := junk_byte <$> seq 0 (Z.to_nat n).
Definition junk_words `{Heap} (n : Z) : list Z := junk_word <$> seq 0 (Z.to_nat n).

(** A heap that serves every request of at most [n] bytes. *)
Definition heap_serves `{Heap} (n : Z) : Prop :=
  forall size, 0 <= size <= n -> protocol_alloc size = true /\ malloc_ok size = true.

Lemma heap_serves_alloc `{Heap} n size :
  heap_serves n -> 0 <= size <= n -> protocol_alloc size = true.
Proof. intros Hs Hz. by apply Hs. Qed.

Lemma heap_serves_malloc `{Heap} n size :
  heap_serves n -> 0 <= size <= n -> malloc_ok size = true.
Proof. intros Hs Hz. by apply Hs. Qed.

Lemma protocol_realloc_alloc `{Heap} size : protocol_realloc size = protocol_alloc size.
Proof. done. Qed.

Lemma zlen_junk_bytes `{Heap} n : 0 <= n -> zlen (junk_bytes n) = n.
Proof. intros. unfold zlen, junk_bytes. rewrite length_fmap, length_seq. lia. Qed.
Lemma zlen_junk_words `{Heap} n : 0 <= n -> zlen (junk_words n) = n.
Proof. intros. unfold zlen, junk_words. rewrite length_fmap, length_seq. lia. Qed.

(** A heap with no limit and no failure, for concrete runs. *)
Definition heap0 : Heap := {|
  max_alloc := 0; malloc_ok := fun _ => true;
  junk_byte := fun _ => Byte.xaa; junk_word := fun _ => 2863311530;
|}.

Lemma heap0_serves n : @heap_serves heap0 n.
Proof. intros size _. by split. Qed.

(** The finished output buffer: what was written, then what the block held. *)
Definition w_finish `{Heap} (w : wbuf) : list byte :=
  w_out w ++ junk_bytes (w_cap w - zlen (w_out w)).

Lemma w_finish_full `{Heap} w : zlen (w_out w) = w_cap w -> w_finish w = w_out w.
Proof.
  intros E. unfold w_finish. replace (w_cap w - zlen (w_out w)) with 0 by lia.
  apply app_nil_r.
Qed.

#[export] Hint Resolve heap_serves_alloc heap_serves_malloc heap0_serves : fastsync.
