(* ===== verification/CStr.v ===== *)
(** The string functions of the C library the sources use, on C strings given
    as the list of their characters before the terminating NUL. *)

From S2P Require Import Prelude.

(** A buffer as a C string: up to its first NUL. *)
Fixpoint c_str (buf : list byte) : list byte :=
  match buf with
  | [] => []
  | c :: buf => if bool_decide (c = Byte.x00) then [] else c :: c_str buf
  end.

(** [strcmp]: only the sign of the result is specified; characters compare as
    [unsigned char] and the end of a string sorts first. *)
Fixpoint strcmp (a b : list byte) : Z :=
  match a, b with
  | [], [] => 0
  | [], _ :: _ => -1
  | _ :: _, [] => 1
  | x :: a, y :: b => if bZ x =? bZ y then strcmp a b else bZ x - bZ y
  end.

(** [strncmp(a, b, n)] *)
Fixpoint strncmp (a b : list byte) (n : nat) {struct n} : Z :=
  match n with
  | O => 0
  | S n =>
      match a, b with
      | [], [] => 0
      | [], _ :: _ => -1
      | _ :: _, [] => 1
      | x :: a, y :: b => if bZ x =? bZ y then strncmp a b n else bZ x - bZ y
      end
  end.

(** [s[i]] for [i] up to the length: [None] is the terminating NUL. *)
Definition char_at (s : list byte) (i : nat) : option byte := s !! i.
Definition char_is (s : list byte) (i : nat) (c : byte) : bool := bool_decide (s !! i = Some c).
Definition at_end (s : list byte) (i : nat) : bool := bool_decide (s !! i = None).

(** [strtok_r(s, "/", ...)]: the maximal runs without a slash. *)
Fixpoint split_slash (s cur : list byte) : list (list byte) :=
  match s with
  | [] => [cur]
  | c :: s => if bool_decide (c = "/"%byte) then cur :: split_slash s [] else split_slash s (cur ++ [c])
  end.
Definition tokens (s : list byte) : list (list byte) :=
  filter (fun t => t <> []) (split_slash s []).

(** ** Comparison *)

Lemma bZ_inj x y : bZ x = bZ y -> x = y.
Proof. apply byte.unsigned_inj. Qed.

Lemma strcmp_eq a b : strcmp a b = 0 <-> a = b.
Proof.
  split; [|intros ->; induction b as [|x b IH]; simpl; [done|by rewrite Z.eqb_refl]].
  revert b. induction a as [|x a IH]; intros [|y b]; simpl; try done.
  destruct (Z.eqb_spec (bZ x) (bZ y)) as [E%bZ_inj|]; [intros ->%IH; by subst|lia].
Qed.

Lemma strcmp_opp a b : Z.sgn (strcmp a b) = - Z.sgn (strcmp b a).
Proof.
  revert b. induction a as [|x a IH]; intros [|y b]; simpl; try done.
  rewrite (Z.eqb_sym (bZ y)). destruct (Z.eqb_spec (bZ x) (bZ y)); [apply IH|].
  rewrite <- Z.sgn_opp. f_equal. lia.
Qed.

Lemma strcmp_trans a b c : strcmp a b <= 0 -> strcmp b c <= 0 -> strcmp a c <= 0.
Proof.
  revert b c. induction a as [|x a IH]; intros [|y b] [|z c]; simpl; try lia.
  destruct (Z.eqb_spec (bZ x) (bZ y)), (Z.eqb_spec (bZ y) (bZ z)), (Z.eqb_spec (bZ x) (bZ z)); try lia.
  apply IH.
Qed.

(** The order [qsort] uses. *)
Definition str_le (a b : list byte) : Prop := strcmp a b <= 0.
#[global] Instance str_le_dec a b : Decision (str_le a b).
Proof. unfold str_le. apply _. Defined.
#[global] Instance str_le_total : Total str_le.
Proof. intros a b. unfold str_le. pose proof (strcmp_opp a b). lia. Qed.
#[global] Instance str_le_trans : Transitive str_le.
Proof. intros a b c. apply strcmp_trans. Qed.
#[global] Instance str_le_refl : Reflexive str_le.
Proof. intros a. unfold str_le. assert (strcmp a a = 0) as -> by (by apply strcmp_eq). lia. Qed.

(** [qsort] of an array of strings by [strcmp]: equal elements are equal
    strings, so the sorted array is determined. *)
Definition qsort_strings (l : list (list byte)) : list (list byte) := merge_sort str_le l.

Lemma qsort_strings_perm l : qsort_strings l ≡ₚ l.
Proof. apply merge_sort_Permutation. Qed.
Lemma qsort_strings_sorted l : StronglySorted str_le (qsort_strings l).
Proof. apply StronglySorted_merge_sort; apply _. Qed.

(** ** Prefixes *)

Lemma strncmp_prefix e key : strncmp e key (length key) = 0 <-> key `prefix_of` e.
Proof.
  revert e. induction key as [|k key IH]; intros e; simpl.
  - split; [intros _; apply prefix_nil|done].
  - destruct e as [|c e]; [split; [lia|intros [x Hx]; done]|].
    destruct (Z.eqb_spec (bZ c) (bZ k)) as [->%bZ_inj|Hne].
    + rewrite IH. split; [apply prefix_cons|apply prefix_cons_inv_2].
    + split; [lia|]. intros Hp%prefix_cons_inv_1. by subst.
Qed.

Lemma prefix_lookup_next (key e : list byte) (c : byte) :
  key `prefix_of` e /\ e !! length key = Some c <-> (key ++ [c]) `prefix_of` e.
Proof.
  split.
  - intros [[t ->] Hc]. rewrite lookup_app_r, Nat.sub_diag in Hc by done.
    destruct t as [|x t]; simplify_eq/=. exists t. by rewrite <- app_assoc.
  - intros [t ->]. rewrite <- app_assoc. split; [by eexists|].
    by rewrite lookup_app_r, Nat.sub_diag by done.
Qed.
