(* ===== verification/DataBuf.v ===== *)
(** The byte buffer [Data] of src/shared/data.h and its constructors
    (src/shared/data.c).  The release of the connection charge at destruction
    is modelled with the session that owns the budget, in file Session. *)

From S2P Require Import Prelude Alloc.

(** data.h [Data]; [owner] names the session charged for the buffer. *)
Record Data := MkData {
  data : option (list byte);
  size : Z;
  protocol_charge : Z;
  owner : option nat;
}.

Definition sizeof_Data : Z := 32.

(** data.c [data_create] *)
Definition data_create `{Heap} (d : option (list byte)) (data_size : Z) : outcome Data :=
  check (protocol_alloc sizeof_Data);;
  Ret (MkData d data_size 0 None).

(** data.c [data_create_reserve] *)
Definition data_create_reserve `{Heap} (sz : Z) : outcome Data :=
  check (protocol_alloc sizeof_Data);;
  Ret (MkData None sz 0 None).

(** data.c [data_create_empty]: at least one byte is allocated, the requested
    size is recorded. *)
Definition data_create_empty `{Heap} (data_size : Z) : outcome Data :=
  let alloc_size := if data_size >? 0 then data_size else 1 in
  check (protocol_alloc alloc_size);;
  data_create (Some (junk_bytes alloc_size)) data_size.

(** The buffer behind a [Data] holds at least [size] bytes. *)
Definition data_wf (d : Data) : Prop :=
  0 <= size d < 2 ^ 64 /\ match data d with Some b => size d <= zlen b | None => size d = 0 end.

(** The bytes reachable through [d->data]: none behind a NULL pointer. *)
Definition data_buf (d : Data) : list byte := default [] (data d).

Lemma data_wf_buf d : data_wf d -> 0 <= size d <= zlen (data_buf d) /\ size d < 2 ^ 64.
Proof. unfold data_wf, data_buf. destruct (data d); simpl; unfold zlen; simpl; lia. Qed.

Lemma data_create_ret `{Heap} d sz :
  heap_serves 32 -> data_create d sz = Ret (MkData d sz 0 None).
Proof. intros Hs. unfold data_create, sizeof_Data. rewrite (heap_serves_alloc 32) by (done || lia). done. Qed.

Lemma data_create_empty_wf `{Heap} sz d :
  0 <= sz < 2 ^ 64 -> data_create_empty sz = Ret d -> data_wf d /\ size d = sz.
Proof.
  intros Hz E. unfold data_create_empty, data_create in E. do 3 inv_ret E. subst.
  unfold data_wf; simpl. destruct (Z.gtb_spec sz 0); rewrite zlen_junk_bytes; lia.
Qed.
