(* ===== verification/DeltaSig.v ===== *)
(** Block signatures of the basis file: src/shared/delta.c, the weak checksum,
    [delta_signature_create_seeded], its wire form and its parser. *)

From S2P Require Import Prelude Alloc DataBuf.

Definition DELTA_BLOCK_SIZE_MIN : Z := 1024.
Definition DELTA_BLOCK_SIZE_MAX : Z := 65536.
Definition DELTA_MAX_FILE_SIZE : Z := 256 * 1024 * 1024.
Definition DELTA_ADLER32_MODULUS : Z := 65521.
Definition MAX_DELTA_BLOCKS : Z := 1024 * 1024.

(** The strong checksum is xxHash's XXH32, a library function: a 32-bit value
    of the data and the seed. *)
Class XXHash := {
  XXH32 : list byte -> Z -> Z;
  XXH32_range data seed : 0 <= XXH32 data seed < 2 ^ 32;
}.

(** A concrete checksum for runs on small inputs: the bytes read as a number. *)
Definition xxh0 : XXHash := {|
  XXH32 := fun data seed => u32 (seed + le_combine data);
  XXH32_range := fun data seed => u32_range (seed + le_combine data);
|}.

(** delta.h [DeltaBlockSig], [DeltaSignature] *)
Record DeltaBlockSig := MkBlockSig { adler32 : Z; xxhash : Z }.
Record DeltaSignature := MkSignature {
  file_size : Z;
  block_size : Z;
  block_count : Z;
  blocks : option (list DeltaBlockSig);
}.
Definition sizeof_DeltaSignature : Z := 24.
Definition sizeof_DeltaBlockSig : Z := 8.

#[global] Instance DeltaBlockSig_eq_dec : EqDecision DeltaBlockSig.
Proof. solve_decision. Defined.

(** One iteration of the Adler-32 loop, in [uint32_t]. *)
Definition adler_step (s : Z * Z) (b : byte) : Z * Z :=
  let s1 := u32 (s.1 + bZ b) mod DELTA_ADLER32_MODULUS in
  let s2 := u32 (s.2 + s1) mod DELTA_ADLER32_MODULUS in
  (s1, s2).

Definition adler_pack (s : Z * Z) : Z := Z.lor (u32 (Z.shiftl s.2 16)) s.1.

(** delta.c [delta_adler32] *)
Definition delta_adler32 (data : list byte) : Z :=
  adler_pack (fold_left adler_step data (1, 0)).

Section Signature.
Context `{Heap} `{XXHash}.

(** delta.c [delta_xxhash32_seeded], [delta_xxhash32] *)
Definition delta_xxhash32_seeded (data : list byte) (seed : Z) : Z := XXH32 data seed.
Definition delta_xxhash32 (data : list byte) : Z := XXH32 data 0.

(** The per-block loop of [delta_signature_create_seeded], from block [i] on. *)
Fixpoint signature_blocks (dat : list byte) (old_file_size bs seed : Z) (n : nat) (i : Z)
  : outcome (list DeltaBlockSig) :=
  match n with
  | O => Ret []
  | S n =>
      let offset := u64 (i * bs) in
      let len := if old_file_size - offset <? bs then old_file_size - offset else bs in
      w ← rd dat offset len;
      rest ← signature_blocks dat old_file_size bs seed n (i + 1);
      Ret (MkBlockSig (delta_adler32 w) (delta_xxhash32_seeded w seed) :: rest)
  end.

(** delta.c [delta_signature_create_seeded] *)
Definition delta_signature_create_seeded (old_file_data : option (list byte))
    (old_file_size bs seed : Z) : outcome DeltaSignature :=
  dat ← of_option old_file_data;
  check (negb ((old_file_size =? 0) || (bs =? 0)));;
  check (negb ((old_file_size >? DELTA_MAX_FILE_SIZE) || (bs >? DELTA_BLOCK_SIZE_MAX)
               || (old_file_size >? u64 (UINT32_MAX * bs))));;
  let count := u32 (u64 (old_file_size + bs - 1) / bs) in
  check (protocol_alloc sizeof_DeltaSignature);;
  check (negb (count =? 0));;
  check (protocol_alloc (count * sizeof_DeltaBlockSig));;
  l ← signature_blocks dat old_file_size bs seed (Z.to_nat count) 0;
  Ret (MkSignature old_file_size bs count (Some l)).

(** delta.c [delta_signature_create] *)
Definition delta_signature_create (old_file_data : option (list byte)) (old_file_size bs : Z) :=
  delta_signature_create_seeded old_file_data old_file_size bs 0.

Definition emit_block_sig (b : DeltaBlockSig) (w : wbuf) : outcome wbuf :=
  w ← emit (put_le 4 (adler32 b)) w;
  emit (put_le 4 (xxhash b)) w.

(** delta.c [delta_signature_serialize] *)
Definition delta_signature_serialize (s : option DeltaSignature) : outcome Data :=
  sig ← of_option s;
  let block_bytes := u64 (block_count sig * (4 + 4)) in
  let total := u64 (8 + 4 + 4 + block_bytes) in
  check (negb ((block_bytes >? UINT64_MAX - (8 + 4 + 4)) || (total >? SIZE_MAX)));;
  check (protocol_alloc total);;
  w ← emit (put_le 8 (file_size sig)) (WBuf total []);
  w ← emit (put_le 4 (block_size sig)) w;
  w ← emit (put_le 4 (block_count sig)) w;
  w ← for_each emit_block_sig (Z.to_nat (block_count sig)) (default [] (blocks sig)) 0 w;
  data_create (Some (w_finish w)) total.

(** The block loop of [delta_signature_deserialize], reading at [pos]. *)
Fixpoint parse_block_sigs (buf : list byte) (n : nat) (pos : Z) : outcome (list DeltaBlockSig) :=
  match n with
  | O => Ret []
  | S n =>
      a ← get_le 4 buf pos;
      x ← get_le 4 buf (pos + 4);
      rest ← parse_block_sigs buf n (pos + 8);
      Ret (MkBlockSig a x :: rest)
  end.

(** delta.c [delta_signature_deserialize] *)
Definition delta_signature_deserialize (d : option Data) : outcome DeltaSignature :=
  d ← of_option d;
  check (negb (size d <? 8 + 4 + 4));;
  let buf := data_buf d in
  check (protocol_alloc sizeof_DeltaSignature);;
  fs ← get_le 8 buf 0;
  bs ← get_le 4 buf 8;
  count ← get_le 4 buf 12;
  check (negb (count >? MAX_DELTA_BLOCKS));;
  check (negb ((bs =? 0) || (bs >? DELTA_BLOCK_SIZE_MAX) || (fs >? DELTA_MAX_FILE_SIZE)
               || (fs =? 0) || negb (u64 (fs + bs - 1) / bs =? count)));;
  check (negb (size d <? 8 + 4 + 4 + count * (4 + 4)));;
  check (negb (count * sizeof_DeltaBlockSig >? SIZE_MAX));;
  check (protocol_alloc (count * sizeof_DeltaBlockSig));;
  l ← parse_block_sigs buf (Z.to_nat count) 16;
  Ret (MkSignature fs bs count (Some l)).

(** ** Invariant of signatures *)

Definition block_sig_wf (b : DeltaBlockSig) : Prop :=
  0 <= adler32 b < 2 ^ 32 /\ 0 <= xxhash b < 2 ^ 32.

Definition signature_wf (s : DeltaSignature) : Prop :=
  0 < block_size s <= DELTA_BLOCK_SIZE_MAX /\
  0 < file_size s <= DELTA_MAX_FILE_SIZE /\
  block_count s = (file_size s + block_size s - 1) / block_size s /\
  exists l, blocks s = Some l /\ zlen l = block_count s /\ Forall block_sig_wf l.

(** The [j]-th block of the basis file (the last one may be shorter). *)
Definition block_at (old : list byte) (bs j : Z) : list byte :=
  take (Z.to_nat bs) (drop (Z.to_nat (j * bs)) old).

Definition block_sig (w : list byte) (seed : Z) : DeltaBlockSig :=
  MkBlockSig (delta_adler32 w) (XXH32 w seed).

(** ** The weak checksum *)

Lemma lor_shiftl_low a b : 0 <= a -> 0 <= b < 2 ^ 16 -> Z.lor (Z.shiftl a 16) b = a * 2 ^ 16 + b.
Proof.
  intros Ha Hb. assert (Hl : Z.land (Z.shiftl a 16) b = 0).
  { apply Z.bits_inj'. intros n Hn. rewrite Z.land_spec, Z.bits_0.
    destruct (Z.lt_ge_cases n 16).
    - by rewrite Z.shiftl_spec_low.
    - rewrite (Z.bits_above_log2 b); [by rewrite andb_false_r|lia|].
      destruct (decide (b = 0)) as [->|]; [simpl; lia|].
      apply Z.log2_lt_pow2; [lia|]. apply Z.lt_le_trans with (2 ^ 16); [lia|].
      apply Z.pow_le_mono_r; lia. }
  rewrite <- Z.lxor_lor, <- Z.add_nocarry_lxor by done.
  by rewrite Z.shiftl_mul_pow2.
Qed.

Definition adler_ok (s : Z * Z) : Prop :=
  0 <= s.1 < DELTA_ADLER32_MODULUS /\ 0 <= s.2 < DELTA_ADLER32_MODULUS.

Lemma adler_step_ok s b : adler_ok (adler_step s b).
Proof. split; apply Z.mod_pos_bound; unfold DELTA_ADLER32_MODULUS; lia. Qed.

Lemma adler_fold_ok l s : adler_ok s -> adler_ok (fold_left adler_step l s).
Proof. revert s. induction l as [|b l IH]; intros s Hs; simpl; [done|]. apply IH, adler_step_ok. Qed.

Lemma adler_init_ok : adler_ok (1, 0).
Proof. unfold adler_ok, DELTA_ADLER32_MODULUS; simpl; lia. Qed.

Lemma adler_pack_eq s : adler_ok s -> adler_pack s = s.2 * 2 ^ 16 + s.1.
Proof.
  unfold adler_ok, DELTA_ADLER32_MODULUS, adler_pack. intros.
  rewrite u32_small; [apply lor_shiftl_low; lia|].
  rewrite Z.shiftl_mul_pow2 by lia. lia.
Qed.

Lemma delta_adler32_range l : 0 <= delta_adler32 l < 2 ^ 32.
Proof.
  unfold delta_adler32. pose proof (adler_fold_ok l _ adler_init_ok) as Hok.
  rewrite adler_pack_eq by done. unfold adler_ok, DELTA_ADLER32_MODULUS in Hok. lia.
Qed.

(** ** Signature creation *)

Lemma block_sig_range w seed : block_sig_wf (block_sig w seed).
Proof. split; [apply delta_adler32_range|apply XXH32_range]. Qed.

Lemma block_at_length old bs j :
  0 < bs -> 0 <= j -> j * bs <= zlen old ->
  zlen (block_at old bs j) = Z.min bs (zlen old - j * bs).
Proof.
  intros. unfold block_at, zlen in *. rewrite length_take, length_drop. nia.
Qed.

Lemma signature_blocks_ret old bs seed n i :
  0 < bs -> 0 <= i -> zlen old <= DELTA_MAX_FILE_SIZE ->
  (i + Z.of_nat n - 1) * bs < zlen old ->
  signature_blocks old (zlen old) bs seed n i
  = Ret ((fun j : nat => block_sig (block_at old bs (i + Z.of_nat j)) seed) <$> seq 0 n).
Proof.
  unfold DELTA_MAX_FILE_SIZE. revert i. induction n as [|n IH]; intros i Hb Hi Hm Hn; [done|].
  simpl signature_blocks. rewrite u64_small by nia.
  set (len := if _ : bool then _ else _).
  assert (len = Z.min bs (zlen old - i * bs)) as ->.
  { subst len. destruct (Z.ltb_spec (zlen old - i * bs) bs); lia. }
  rewrite rd_ret by nia. simpl.
  rewrite IH by nia. simpl. f_equal. f_equal.
  - rewrite Z.add_0_r. unfold block_sig, delta_xxhash32_seeded.
    assert (take (Z.to_nat (bs `min` (zlen old - i * bs))) (drop (Z.to_nat (i * bs)) old)
            = block_at old bs i) as ->; [|done].
    unfold block_at. destruct (Z.le_ge_cases bs (zlen old - i * bs)).
    + by rewrite Z.min_l.
    + rewrite Z.min_r by done. unfold zlen in *.
      rewrite !take_ge by (rewrite length_drop; lia). done.
  - rewrite <- fmap_S_seq, <- list_fmap_compose. apply list_fmap_ext.
    intros _ j _. simpl. do 2 f_equal. lia.
Qed.

(** What [delta_signature_create_seeded] computes: one checksum pair per
    block of the basis file. *)
Lemma signature_create_spec old bs seed :
  0 < bs <= DELTA_BLOCK_SIZE_MAX -> 0 < zlen old <= DELTA_MAX_FILE_SIZE ->
  heap_serves (8 * ((zlen old + bs - 1) / bs) + 24) ->
  delta_signature_create_seeded (Some old) (zlen old) bs seed
  = Ret (MkSignature (zlen old) bs ((zlen old + bs - 1) / bs)
      (Some ((fun j : nat => block_sig (block_at old bs (Z.of_nat j)) seed)
             <$> seq 0 (Z.to_nat ((zlen old + bs - 1) / bs))))).
Proof.
  unfold DELTA_BLOCK_SIZE_MAX, DELTA_MAX_FILE_SIZE. intros Hb Ho Hs.
  assert (0 < (zlen old + bs - 1) / bs <= zlen old).
  { split; [apply Z.div_str_pos; lia|]. apply Z.div_le_upper_bound; nia. }
  unfold delta_signature_create_seeded. simpl.
  unfold DELTA_MAX_FILE_SIZE, DELTA_BLOCK_SIZE_MAX, sizeof_DeltaSignature, sizeof_DeltaBlockSig.
  rewrite (u64_small (UINT32_MAX * bs)) by (unfold UINT32_MAX; lia).
  rewrite (u64_small (zlen old + bs - 1)), u32_small by lia.
  repeat match goal with
  | |- context [?a =? ?b] => destruct (Z.eqb_spec a b); [lia|]
  | |- context [?a >? ?b] => destruct (Z.gtb_spec a b); [unfold UINT32_MAX in *; lia|]
  end.
  simpl. rewrite !(heap_serves_alloc (8 * ((zlen old + bs - 1) / bs) + 24)) by (done || lia). simpl.
  rewrite signature_blocks_ret; [done|lia..| |].
  - unfold DELTA_MAX_FILE_SIZE. lia.
  - rewrite Z2Nat.id by lia. pose proof (Z.div_mod (zlen old + bs - 1) bs ltac:(lia)).
    pose proof (Z.mod_pos_bound (zlen old + bs - 1) bs ltac:(lia)). nia.
Qed.

(** ** Wire form *)

Lemma parse_block_sigs_total buf n pos :
  0 <= pos -> pos + 8 * Z.of_nat n <= zlen buf ->
  exists l, parse_block_sigs buf n pos = Ret l /\ length l = n /\ Forall block_sig_wf l.
Proof.
  revert pos. induction n as [|n IH]; intros pos Hp Hn; simpl; [by exists []|].
  destruct (get_le_total 4 buf pos) as [a Ea]; [lia..|].
  destruct (get_le_total 4 buf (pos + 4)) as [x Ex]; [lia..|].
  destruct (IH (pos + 8)) as (l&->&Hl&Hf); [lia..|]. rewrite Ea, Ex. simpl.
  apply get_4_inv in Ea, Ex.
  eexists; split; [done|]. split; [simpl; lia|]. constructor; [|done].
  unfold block_sig_wf; simpl. lia.
Qed.

Definition block_sig_bytes (b : DeltaBlockSig) : list byte :=
  put_le 4 (adler32 b) ++ put_le 4 (xxhash b).
#[global] Arguments block_sig_bytes _ : simpl never.

Lemma zlen_block_sig_bytes b : zlen (block_sig_bytes b) = 8.
Proof. unfold block_sig_bytes. by autorewrite with zlen. Qed.

Lemma zlen_concat_block_sigs l : zlen (concat (map block_sig_bytes l)) = 8 * zlen l.
Proof.
  induction l as [|b l IH]; [done|]. cbn [map concat].
  rewrite zlen_app, zlen_block_sig_bytes, IH. unfold zlen; simpl; lia.
Qed.

Lemma emit_block_sig_ret b w :
  zlen (w_out w) + 8 <= w_cap w ->
  emit_block_sig b w = Ret (WBuf (w_cap w) (w_out w ++ block_sig_bytes b)).
Proof.
  intros. unfold emit_block_sig.
  rewrite emit_ret by (autorewrite with zlen; lia). simpl.
  rewrite emit_ret by (simpl; autorewrite with zlen; lia). simpl.
  unfold block_sig_bytes. by rewrite app_assoc.
Qed.

Lemma emit_block_sigs l w :
  zlen (w_out w) + 8 * zlen l <= w_cap w ->
  foldM emit_block_sig l w = Ret (WBuf (w_cap w) (w_out w ++ concat (map block_sig_bytes l))).
Proof.
  revert w. induction l as [|b l IH]; intros w Hw.
  - simpl. rewrite app_nil_r. by destruct w.
  - assert (zlen (b :: l) = 1 + zlen l) as Hc by (unfold zlen; simpl; lia).
    pose proof (zlen_nonneg l). cbn [foldM].
    rewrite emit_block_sig_ret by lia. simpl mbind.
    rewrite IH by (simpl; rewrite zlen_app, zlen_block_sig_bytes; lia).
    cbn [map concat w_cap w_out]. by rewrite app_assoc.
Qed.

Lemma parse_block_sigs_bytes pre l post :
  Forall block_sig_wf l ->
  parse_block_sigs (pre ++ concat (map block_sig_bytes l) ++ post) (length l) (zlen pre) = Ret l.
Proof.
  intros Hf. revert pre. induction Hf as [|b l [Ha Hx] Hf IH]; intros pre; [done|].
  cbn [map concat length parse_block_sigs]. unfold block_sig_bytes at 1 3 5. rewrite <- !app_assoc.
  rewrite (get_put_4 _ pre _ (zlen pre)) by (done || lia). simpl mbind.
  rewrite (app_assoc pre), (get_put_4 _ _ _ (zlen pre + 4))
    by (rewrite ?zlen_app, ?zlen_put_le; lia). simpl mbind.
  rewrite (app_assoc (pre ++ _)).
  replace (zlen pre + 8) with (zlen ((pre ++ put_le 4 (adler32 b)) ++ put_le 4 (xxhash b)))
    by (rewrite !zlen_app, !zlen_put_le; lia).
  rewrite IH. simpl. by destruct b.
Qed.

(** The encoding of a signature. *)
Definition signature_bytes (s : DeltaSignature) : list byte :=
  put_le 8 (file_size s) ++ put_le 4 (block_size s) ++ put_le 4 (block_count s)
  ++ concat (map block_sig_bytes (default [] (blocks s))).

Lemma signature_serialize_spec s :
  signature_wf s -> heap_serves (8 * block_count s + 32) ->
  delta_signature_serialize (Some s)
  = Ret (MkData (Some (signature_bytes s)) (8 * block_count s + 16) 0 None).
Proof.
  intros (Hb&Hf&Hc&l&Hl&Hlen&Hwf) Hs. unfold DELTA_BLOCK_SIZE_MAX, DELTA_MAX_FILE_SIZE in *.
  assert (0 < block_count s < 2 ^ 32).
  { rewrite Hc. split; [apply Z.div_str_pos; lia|]. apply Z.div_lt_upper_bound; nia. }
  unfold delta_signature_serialize. simpl. rewrite Hl. simpl.
  rewrite !u64_small by (rewrite ?u64_small; lia).
  unfold UINT64_MAX, SIZE_MAX.
  repeat match goal with |- context [?a >? ?b] => destruct (Z.gtb_spec a b); [lia|] end. simpl.
  rewrite (heap_serves_alloc (8 * block_count s + 32)) by (done || lia). simpl.
  rewrite emit_ret by (simpl; autorewrite with zlen; unfold zlen; simpl; lia). simpl.
  rewrite emit_ret by (simpl; autorewrite with zlen; lia). simpl.
  rewrite emit_ret by (simpl; autorewrite with zlen; lia). simpl.
  rewrite for_each_foldM by (unfold zlen in Hlen; lia).
  rewrite emit_block_sigs by (simpl; autorewrite with zlen; lia). simpl.
  rewrite w_finish_full.
  - unfold data_create, sizeof_Data.
    rewrite (heap_serves_alloc (8 * block_count s + 32)) by (done || lia). simpl.
    unfold signature_bytes. rewrite Hl. simpl. rewrite <- !app_assoc. do 2 f_equal. lia.
  - simpl. autorewrite with zlen. rewrite zlen_concat_block_sigs. lia.
Qed.

Lemma signature_deserialize_spec s d :
  signature_wf s -> block_count s <= MAX_DELTA_BLOCKS -> heap_serves (8 * block_count s + 24) ->
  data d = Some (signature_bytes s) -> size d = 8 * block_count s + 16 ->
  delta_signature_deserialize (Some d) = Ret s.
Proof.
  intros (Hb&Hf&Hc&l&Hl&Hlen&Hwf) Hmax Hs Hd Hz. unfold delta_signature_deserialize. simpl. unfold data_buf.
  rewrite Hd, Hz. simpl. unfold signature_bytes. rewrite Hl. simpl.
  unfold DELTA_BLOCK_SIZE_MAX, DELTA_MAX_FILE_SIZE, MAX_DELTA_BLOCKS in *.
  assert (0 < block_count s).
  { rewrite Hc. apply Z.div_str_pos; lia. }
  destruct (Z.ltb_spec (8 * block_count s + 16) 16); [lia|]. simpl.
  unfold sizeof_DeltaSignature, sizeof_DeltaBlockSig.
  rewrite (heap_serves_alloc (8 * block_count s + 24)) by (done || lia). simpl.
  rewrite get_put_8_front by lia. simpl mbind.
  rewrite (get_put_4 _ _ _ 8) by (rewrite ?zlen_put_le; lia). simpl mbind.
  rewrite app_assoc, (get_put_4 _ _ _ 12) by (rewrite ?zlen_app, ?zlen_put_le; lia). simpl mbind.
  rewrite u64_small by lia. rewrite <- Hc.
  repeat match goal with
  | |- context [?a >? ?b] => destruct (Z.gtb_spec a b); [unfold SIZE_MAX in *; lia|]
  | |- context [?a =? 0] => destruct (Z.eqb_spec a 0); [lia|]
  | |- context [?a <? ?b] => destruct (Z.ltb_spec a b); [lia|]
  end.
  rewrite Z.eqb_refl. simpl.
  rewrite (heap_serves_alloc (8 * block_count s + 24)) by (done || lia). simpl.
  rewrite app_assoc, <- (app_nil_r (concat _)).
  replace (Z.to_nat (block_count s)) with (length l) by (unfold zlen in Hlen; lia).
  replace 16 with (zlen ((put_le 8 (file_size s) ++ put_le 4 (block_size s))
                         ++ put_le 4 (block_count s)))
    by (rewrite !zlen_app, !zlen_put_le; lia).
  rewrite parse_block_sigs_bytes by done. simpl. destruct s; simpl in *. by subst.
Qed.

Lemma signature_deserialize_total d :
  match d with Some d => data_wf d | None => True end ->
  match delta_signature_deserialize d with
  | Ret s => signature_wf s /\ block_count s <= MAX_DELTA_BLOCKS
  | Fail => True
  | Stuck => False
  end.
Proof.
  intros Hd. unfold delta_signature_deserialize. destruct d as [d|]; simpl; [|done].
  apply data_wf_buf in Hd. change (8 + 4 + 4) with 16. change (4 + 4) with 8.
  destruct (Z.ltb_spec (size d) 16); simpl; [done|].
  destruct (protocol_alloc _); simpl; [|done].
  destruct (get_le_total 8 (data_buf d) 0) as [fs Efs]; [lia..|].
  destruct (get_le_total 4 (data_buf d) 8) as [bs Ebs]; [lia..|].
  destruct (get_le_total 4 (data_buf d) 12) as [n En]; [lia..|].
  rewrite Efs, Ebs, En. simpl. apply get_8_inv in Efs. apply get_4_inv in Ebs, En.
  destruct (Z.gtb_spec n MAX_DELTA_BLOCKS); simpl; [done|].
  case_check E; [|done].
  apply negb_true_iff in E. bool_to_prop. rewrite u64_small in * by (unfold DELTA_BLOCK_SIZE_MAX, DELTA_MAX_FILE_SIZE in *; lia).
  destruct (Z.ltb_spec (size d) (16 + n * 8)); simpl; [done|].
  do 2 (let E := fresh in case_check E; [|done]).
  destruct (parse_block_sigs_total (data_buf d) (Z.to_nat n) 16) as (l&->&Hl&Hf); [lia..|]. simpl.
  split; [|done]. unfold signature_wf; simpl. split_and!; try lia. exists l. split; [done|].
  split; [unfold zlen; lia|done].
Qed.

(** A signature survives the wire.  Serializing any well-formed signature
    of at most [MAX_DELTA_BLOCKS] blocks and parsing the bytes gives back the
    same signature, field for field. *)
Lemma signature_roundtrip s
    (Hwf : signature_wf s) (Hmax : block_count s <= MAX_DELTA_BLOCKS)
    (Hheap : heap_serves (8 * block_count s + 32)) :
  exists d, delta_signature_serialize (Some s) = Ret d /\
            delta_signature_deserialize (Some d) = Ret s.
Proof.
  eexists. split; [by apply signature_serialize_spec|].
  apply signature_deserialize_spec; try done. intros z Hz. apply Hheap. lia.
Qed.

(** Parsing a signature is safe on hostile input.  Whatever bytes a peer
    sends, [delta_signature_deserialize] never reads outside the buffer, and a
    signature it returns satisfies the invariant every later use relies on:
    block size in range, file size in range, and exactly as many blocks as the
    two sizes require, at most [MAX_DELTA_BLOCKS]. *)
Lemma signature_parse_safe d (Hd : match d with Some d => data_wf d | None => True end) :
  delta_signature_deserialize d <> Stuck /\
  forall s, delta_signature_deserialize d = Ret s ->
    signature_wf s /\ block_count s <= MAX_DELTA_BLOCKS.
Proof.
  pose proof (signature_deserialize_total d Hd) as Ht.
  destruct (delta_signature_deserialize d); split; naive_solver.
Qed.

End Signature.

