(* ===== verification/DeltaIndex.v ===== *)
(** The lookup index over signature blocks (src/shared/delta.c):
    [delta_adler_mix], [delta_next_pow2], [delta_build_index] and
    [delta_find_match] with its indexed probe and its linear fallback. *)

From S2P Require Import Prelude Alloc DataBuf DeltaSig.

Definition DELTA_NO_BLOCK : Z := UINT32_MAX.

(** delta.c [delta_adler_mix], on [uint32_t] *)
Definition delta_adler_mix (h : Z) : Z :=
  let h := Z.lxor h (Z.shiftr h 16) in
  let h := u32 (h * 0x7feb352d) in
  let h := Z.lxor h (Z.shiftr h 15) in
  let h := u32 (h * 0x846ca68b) in
  Z.lxor h (Z.shiftr h 16).

(** delta.c [delta_next_pow2], on [uint32_t] *)
Definition delta_next_pow2 (v : Z) : Z :=
  let v := u32 (v - 1) in
  let v := Z.lor v (Z.shiftr v 1) in
  let v := Z.lor v (Z.shiftr v 2) in
  let v := Z.lor v (Z.shiftr v 4) in
  let v := Z.lor v (Z.shiftr v 8) in
  let v := Z.lor v (Z.shiftr v 16) in
  u32 (v + 1).

Section Index.
Context `{Heap} `{XXHash}.

(** One insertion of [delta_build_index]: block [j] goes to the end of the
    chain of its bucket.  The array holds the heads at 0, the tails at
    [bucket_count] and the links at [2 * bucket_count] ([uint32_t] arithmetic). *)
Definition index_insert (blks : list DeltaBlockSig) (bucket_count : Z) (j : Z) (index : list Z)
  : outcome (list Z) :=
  let mask := u32 (bucket_count - 1) in
  let tails := bucket_count in
  let next := u32 (2 * bucket_count) in
  blk ← ld blks j;
  let b := Z.land (delta_adler_mix (adler32 blk)) mask in
  head ← ld index b;
  index ← (if head =? DELTA_NO_BLOCK then st index b j
           else t ← ld index (tails + b); st index (next + t) j);
  index ← st index (tails + b) j;
  st index (next + j) DELTA_NO_BLOCK.

Fixpoint index_fill (blks : list DeltaBlockSig) (bucket_count : Z) (n : nat) (j : Z)
    (index : list Z) : outcome (list Z) :=
  match n with
  | O => Ret index
  | S n => index ← index_insert blks bucket_count j index;
           index_fill blks bucket_count n (j + 1) index
  end.

(** delta.c [delta_build_index]; [Fail] is the NULL that makes the caller fall
    back to the linear scan. *)
Definition delta_build_index (sig : DeltaSignature) (bucket_count : Z) : outcome (list Z) :=
  check (negb ((block_count sig =? 0) || (bucket_count =? 0)));;
  let entries := u64 (2 * bucket_count + block_count sig) in
  check (negb (entries >? SIZE_MAX / 4));;
  check (protocol_alloc (entries * 4));;
  let index := replicate (Z.to_nat (2 * bucket_count)) DELTA_NO_BLOCK
               ++ junk_words (block_count sig) in
  index_fill (default [] (blocks sig)) bucket_count (Z.to_nat (block_count sig)) 0 index.

(** The probe of one bucket chain, from block [j] on.  The strong checksum of
    the window is computed at most once ([have_xxh]). *)
Fixpoint probe_chain (fuel : nat) (window : list byte) (adler : Z) (blks : list DeltaBlockSig)
    (index : list Z) (next : Z) (seed : Z) (j window_xxh : Z) (have_xxh : bool) : outcome Z :=
  if j =? DELTA_NO_BLOCK then Ret DELTA_NO_BLOCK
  else match fuel with
  | O => Stuck
  | S fuel =>
      blk ← ld blks j;
      if negb (adler32 blk =? adler) then
        j ← ld index (next + j);
        probe_chain fuel window adler blks index next seed j window_xxh have_xxh
      else
        let window_xxh := if have_xxh then window_xxh else delta_xxhash32_seeded window seed in
        if window_xxh =? xxhash blk then Ret j
        else j ← ld index (next + j);
             probe_chain fuel window adler blks index next seed j window_xxh true
  end.

(** The linear scan of all blocks, from [j] on. *)
Fixpoint linear_scan (window : list byte) (adler : Z) (blks : list DeltaBlockSig) (seed : Z)
    (n : nat) (j : Z) : outcome Z :=
  match n with
  | O => Ret DELTA_NO_BLOCK
  | S n =>
      blk ← ld blks j;
      if (adler32 blk =? adler) && (delta_xxhash32_seeded window seed =? xxhash blk) then Ret j
      else linear_scan window adler blks seed n (j + 1)
  end.

(** delta.c [delta_find_match].  [heads] is the index ([None] for NULL),
    [next] the offset of its links, [mask] the bucket mask. *)
Definition delta_find_match (window : list byte) (adler : Z) (full_window : bool)
    (sig : DeltaSignature) (heads : option (list Z)) (next mask seed : Z) : outcome Z :=
  let blks := default [] (blocks sig) in
  if negb full_window || (block_count sig =? 0) then Ret DELTA_NO_BLOCK
  else match heads with
  | Some index =>
      let b := Z.land (delta_adler_mix adler) mask in
      j ← ld index b;
      probe_chain (Z.to_nat (block_count sig)) window adler blks index next seed j 0 false
  | None => linear_scan window adler blks seed (Z.to_nat (block_count sig)) 0
  end.

(** ** The chains of the index *)

(** [chain index next j L]: following the links from [j] visits [L] and stops. *)
Inductive chain (index : list Z) (next : Z) : Z -> list Z -> Prop :=
| chain_end : chain index next DELTA_NO_BLOCK []
| chain_link j k L :
    0 <= j < DELTA_NO_BLOCK -> ld index (next + j) = Ret k -> chain index next k L ->
    chain index next j (j :: L).

Lemma chain_frame index index' next h L :
  chain index next h L ->
  (forall i, i ∈ L -> ld index' (next + i) = ld index (next + i)) ->
  chain index' next h L.
Proof.
  induction 1 as [|j k L Hj Hk Hc IH]; intros Hf; [constructor|].
  apply chain_link with k; [done| |].
  - rewrite Hf by set_solver. done.
  - apply IH. intros i Hi. apply Hf. set_solver.
Qed.

Lemma chain_snoc index index' next h L t j :
  chain index next h (L ++ [t]) ->
  (forall i, i ∈ L -> ld index' (next + i) = ld index (next + i)) ->
  ld index' (next + t) = Ret j -> ld index' (next + j) = Ret DELTA_NO_BLOCK ->
  0 <= j < DELTA_NO_BLOCK ->
  chain index' next h (L ++ [t; j]).
Proof.
  intros Hc Hf Ht Hj Hjr. revert h Hc Hf. induction L as [|i L IH]; intros h Hc Hf.
  - inversion Hc as [|? k L' Hr Hk Hc']; subst.
    apply chain_link with j; [done..|]. apply chain_link with DELTA_NO_BLOCK; [done..|]. constructor.
  - inversion Hc as [|? k L' Hr Hk Hc']; subst. simpl.
    apply chain_link with k; [done| |].
    + rewrite Hf by set_solver. done.
    + apply IH; [done|]. intros i' Hi'. apply Hf. set_solver.
Qed.

Lemma chain_head_end index next h L : chain index next h L -> h = DELTA_NO_BLOCK <-> L = [].
Proof. destruct 1; split; intros; subst; [done..|lia|done]. Qed.

Section Buckets.
Context (blks : list DeltaBlockSig) (bc : Z).
Context (Hbc : 0 < bc <= 2 ^ 30) (Hlen : zlen blks < 2 ^ 31).

Definition bucket_of (i : Z) : Z :=
  match blks !! Z.to_nat i with
  | Some blk => Z.land (delta_adler_mix (adler32 blk)) (u32 (bc - 1))
  | None => -1
  end.

(** The blocks below [n] of bucket [b], in ascending order. *)
Definition members (n b : Z) : list Z := filter (fun i => bucket_of i = b) (seqZ 0 n).

Lemma members_range n b i : i ∈ members n b -> 0 <= i < n /\ bucket_of i = b.
Proof. unfold members. rewrite list_elem_of_filter, elem_of_seqZ. lia. Qed.

Lemma members_snoc n b :
  0 <= n -> members (n + 1) b = members n b ++ (if decide (bucket_of n = b) then [n] else []).
Proof.
  intros Hn. unfold members. rewrite seqZ_app by lia. by rewrite filter_app.
Qed.

Lemma mask_range h : 0 <= Z.land h (u32 (bc - 1)) < bc.
Proof.
  rewrite u32_small by lia. assert (0 <= Z.land h (bc - 1)) by (apply Z.land_nonneg; lia).
  destruct (decide (bc = 1)) as [->|]; [rewrite Z.land_0_r; lia|].
  assert (Z.land h (bc - 1) <= bc - 1); [|lia].
  apply Z.ldiff_le; [lia|]. apply Z.bits_inj'. intros k Hk.
  rewrite Z.ldiff_spec, Z.land_spec, Z.bits_0.
  by destruct (Z.testbit h k), (Z.testbit (bc - 1) k).
Qed.

(** Bucket [b] once the blocks below [n] were inserted: its chain is its
    members in order, and its tail is the last of them. *)
Definition bucket_ok (n : Z) (index : list Z) (b : Z) : Prop :=
  exists h, ld index b = Ret h /\ chain index (2 * bc) h (members n b) /\
    forall L t, members n b = L ++ [t] -> ld index (bc + b) = Ret t.

Definition index_inv (n : Z) (index : list Z) : Prop :=
  zlen index = 2 * bc + zlen blks /\ forall b, 0 <= b < bc -> bucket_ok n index b.

(** The three assignments of an insertion of block [n] in bucket [b0]; the
    first goes to the head of the bucket or to the link of its tail. *)
Definition upd3 (index : list Z) (p b0 n : Z) : list Z :=
  <[Z.to_nat (2 * bc + n) := DELTA_NO_BLOCK]> (<[Z.to_nat (bc + b0) := n]>
    (<[Z.to_nat p := n]> index)).

Context (n b0 : Z) (index : list Z).
Context (Hn : 0 <= n < zlen blks) (Hb0 : 0 <= b0 < bc) (Hbn : bucket_of n = b0).
Context (Hz : zlen index = 2 * bc + zlen blks).

Lemma n_not_end : 0 <= n < DELTA_NO_BLOCK.
Proof. unfold DELTA_NO_BLOCK, UINT32_MAX. lia. Qed.

Lemma upd3_other p k :
  0 <= p -> k <> p -> k <> bc + b0 -> k <> 2 * bc + n -> ld (upd3 index p b0 n) k = ld index k.
Proof. intros. unfold upd3. by rewrite !ld_insert_ne by lia. Qed.

Lemma upd3_first p :
  0 <= p < zlen index -> p <> bc + b0 -> p <> 2 * bc + n -> ld (upd3 index p b0 n) p = Ret n.
Proof. intros. unfold upd3. rewrite !ld_insert_ne by lia. by apply ld_insert_eq. Qed.

Lemma upd3_tail p : ld (upd3 index p b0 n) (bc + b0) = Ret n.
Proof. unfold upd3. rewrite ld_insert_ne by lia. apply ld_insert_eq. rewrite zlen_insert. lia. Qed.

Lemma upd3_link p : ld (upd3 index p b0 n) (2 * bc + n) = Ret DELTA_NO_BLOCK.
Proof. unfold upd3. apply ld_insert_eq. rewrite !zlen_insert. lia. Qed.

Lemma bucket_ok_frame p b :
  (p = b0 \/ exists t, t ∈ members n b0 /\ p = 2 * bc + t) ->
  0 <= b < bc -> b <> b0 -> bucket_ok n index b -> bucket_ok (n + 1) (upd3 index p b0 n) b.
Proof.
  intros Hp Hb Hne (h&Hh&Hc&Ht).
  assert (Hp' : 0 <= p /\ p <> b /\ p <> bc + b /\ forall i, i ∈ members n b -> p <> 2 * bc + i).
  { destruct Hp as [->|(t&Hm%members_range&->)]; split_and!; try lia;
      intros i Hi%members_range; [lia|]. intros E. assert (t = i) as -> by lia. lia. }
  destruct Hp' as (?&?&?&Hpi). exists h. rewrite members_snoc by lia.
  rewrite decide_False by congruence. rewrite app_nil_r. split_and!.
  - rewrite upd3_other by lia. done.
  - eapply chain_frame; [done|]. intros i Hi. pose proof (members_range _ _ _ Hi).
    specialize (Hpi i Hi). rewrite upd3_other by lia. done.
  - intros L t HL. rewrite upd3_other by lia. eauto.
Qed.

Lemma bucket_ok_first :
  members n b0 = [] -> bucket_ok (n + 1) (upd3 index b0 b0 n) b0.
Proof.
  intros Hm. exists n. rewrite members_snoc, Hm, decide_True by (done || lia). simpl. split_and!.
  - apply upd3_first; lia.
  - apply chain_link with DELTA_NO_BLOCK; [apply n_not_end|apply upd3_link|constructor].
  - intros L t HL. apply (app_inj_2 [] L [n] [t]) in HL as [_ HL]; [|done].
    injection HL as E. rewrite <- E. apply upd3_tail.
Qed.

Lemma bucket_ok_append h L t :
  ld index b0 = Ret h -> chain index (2 * bc) h (members n b0) -> members n b0 = L ++ [t] ->
  bucket_ok (n + 1) (upd3 index (2 * bc + t) b0 n) b0.
Proof.
  intros Hh Hc Hm. assert (HL : NoDup (L ++ [t])).
  { rewrite <- Hm. apply NoDup_filter, NoDup_seqZ. }
  assert (Hr : forall i, i ∈ L ++ [t] -> 0 <= i < n).
  { intros i Hi. rewrite <- Hm in Hi. by apply members_range in Hi as [? _]. }
  pose proof (Hr t ltac:(set_solver)) as Htr.
  exists h. rewrite members_snoc, Hm, decide_True, <- app_assoc by (done || lia). simpl. split_and!.
  - rewrite upd3_other by lia. done.
  - rewrite Hm in Hc. eapply chain_snoc; [done| | | |apply n_not_end].
    + intros i Hi. pose proof (Hr i ltac:(set_solver)). assert (i <> t).
      { intros ->. apply NoDup_app in HL as (_&HL&_). apply (HL t); set_solver. }
      rewrite upd3_other by lia. done.
    + apply upd3_first; lia.
    + apply upd3_link.
  - intros L' t' HL'. change [t; n] with ([t] ++ [n]) in HL'. rewrite app_assoc in HL'.
    apply app_inj_2 in HL' as [_ HL']; [|done].
    injection HL' as E. rewrite <- E. apply upd3_tail.
Qed.

Lemma index_insert_inv :
  index_inv n index ->
  exists index', index_insert blks bc n index = Ret index' /\ index_inv (n + 1) index'.
Proof.
  intros [_ Hinv]. destruct (ld_total blks n) as [blk Hblk]; [done|].
  unfold index_insert. rewrite Hblk. simpl. rewrite (u32_small (2 * bc)) by lia.
  apply ld_ret_inv in Hblk as [_ Hlk]. pose proof Hbn as Hb. unfold bucket_of in Hb. rewrite Hlk in Hb. rewrite Hb. clear Hb.
  destruct (Hinv b0 Hb0) as (h&Hh&Hc&Ht). rewrite Hh. simpl.
  assert (Hbody : forall p, 0 <= p < zlen index ->
    (p = b0 \/ exists t, t ∈ members n b0 /\ p = 2 * bc + t) ->
    bucket_ok (n + 1) (upd3 index p b0 n) b0 ->
    exists index', (index1 ← st index p n; index2 ← st index1 (bc + b0) n;
                    st index2 (2 * bc + n) DELTA_NO_BLOCK) = Ret index' /\ index_inv (n + 1) index').
  { intros p Hpr Hp Hb. rewrite st_ret by done. simpl. rewrite st_ret by (rewrite zlen_insert; lia).
    simpl. rewrite st_ret by (rewrite !zlen_insert; lia). fold (upd3 index p b0 n).
    eexists; split; [done|]. split; [unfold upd3; by rewrite !zlen_insert|]. intros b Hbr.
    destruct (decide (b = b0)) as [E|]; [by rewrite E|]. apply bucket_ok_frame; auto. }
  destruct (Z.eqb_spec h DELTA_NO_BLOCK) as [->|Hne].
  - apply Hbody; [lia|by left|]. apply bucket_ok_first. by apply chain_head_end in Hc as [<- _].
  - destruct (decide (members n b0 = [])) as [Hm|(L&t&Hm)%exists_last].
    { apply chain_head_end in Hc as [_ Hc]. exfalso. auto. }
    rewrite (Ht L t Hm). assert (Htm : t ∈ members n b0) by (rewrite Hm; set_solver).
    pose proof (members_range _ _ _ Htm). apply (Hbody (2 * bc + t)); [lia|eauto|].
    by apply bucket_ok_append with h L.
Qed.

End Buckets.

Section Lookup.
Context (blks : list DeltaBlockSig) (bc : Z).
Context (Hbc : 0 < bc <= 2 ^ 30) (Hlen : zlen blks < 2 ^ 31).

Lemma index_fill_inv k n index :
  0 <= n -> n + Z.of_nat k = zlen blks -> index_inv blks bc n index ->
  exists index', index_fill blks bc k n index = Ret index' /\ index_inv blks bc (zlen blks) index'.
Proof.
  revert n index. induction k as [|k IH]; intros n index Hn Hk Hinv; simpl.
  - exists index. split; [done|]. by replace (zlen blks) with n by lia.
  - assert (Hb : 0 <= bucket_of blks bc n < bc).
    { unfold bucket_of. destruct (lookup_lt_is_Some_2 blks (Z.to_nat n)) as [blk ->];
        [unfold zlen in *; lia|]. by apply mask_range. }
    destruct (index_insert_inv blks bc Hbc Hlen n (bucket_of blks bc n) index)
      as (index1&->&Hinv1); [lia|done..|apply Hinv|done|]. simpl. apply IH; [lia..|done].
Qed.

Lemma index_inv_init junk :
  zlen junk = zlen blks ->
  index_inv blks bc 0 (replicate (Z.to_nat (2 * bc)) DELTA_NO_BLOCK ++ junk).
Proof.
  intros Hj. split.
  - rewrite zlen_app, Hj. unfold zlen at 1. rewrite length_replicate. lia.
  - intros b Hb. exists DELTA_NO_BLOCK. split_and!.
    + apply ld_lookup; [lia|]. rewrite lookup_app_l by (rewrite length_replicate; lia).
      apply lookup_replicate_2. lia.
    + constructor.
    + intros L t HL. by destruct L.
Qed.

(** What a window must satisfy to match block [i]. *)
Definition hit (window : list byte) (adler seed i : Z) : Prop :=
  match blks !! Z.to_nat i with
  | Some blk => adler32 blk = adler /\ xxhash blk = XXH32 window seed
  | None => False
  end.
#[local] Instance hit_dec window adler seed i : Decision (hit window adler seed i).
Proof. unfold hit. destruct (blks !! Z.to_nat i); apply _. Defined.

Lemma hit_lookup window adler seed i blk :
  blks !! Z.to_nat i = Some blk ->
  hit window adler seed i <-> adler32 blk = adler /\ xxhash blk = XXH32 window seed.
Proof using Type. clear Hbc Hlen. intros E. unfold hit. by rewrite E. Qed.

(** The least matching block of a list of candidates. *)
Definition first_hit (window : list byte) (adler seed : Z) (L : list Z) : Z :=
  match filter (hit window adler seed) L with i :: _ => i | [] => DELTA_NO_BLOCK end.

Lemma first_hit_cons window adler seed i L :
  first_hit window adler seed (i :: L)
  = if decide (hit window adler seed i) then i else first_hit window adler seed L.
Proof using Type. clear Hbc Hlen. unfold first_hit. rewrite filter_cons. by case_decide. Qed.

Lemma linear_scan_first_hit window adler seed n j :
  0 <= j -> j + Z.of_nat n <= zlen blks ->
  linear_scan window adler blks seed n j = Ret (first_hit window adler seed (seqZ j (Z.of_nat n))).
Proof using Type. clear Hbc Hlen.
  revert j. induction n as [|n IH]; intros j Hj Hn; [done|]. cbn [linear_scan].
  destruct (ld_total blks j) as [blk Hb]; [lia|]. rewrite Hb. simpl mbind.
  apply ld_ret_inv in Hb as [_ Hb].
  rewrite seqZ_cons, first_hit_cons by lia. unfold delta_xxhash32_seeded.
  pose proof (hit_lookup window adler seed j blk Hb) as Hh.
  destruct (Z.eqb_spec (adler32 blk) adler), (Z.eqb_spec (XXH32 window seed) (xxhash blk)); simpl;
    rewrite ?decide_True, ?decide_False by naive_solver; try done;
    (rewrite IH by lia; do 3 f_equal; lia).
Qed.

Lemma probe_chain_first_hit index next window adler seed L fuel j xxh have :
  chain index next j L -> (forall i, i ∈ L -> 0 <= i < zlen blks) -> (length L <= fuel)%nat ->
  (have = true -> xxh = XXH32 window seed) ->
  probe_chain fuel window adler blks index next seed j xxh have
  = Ret (first_hit window adler seed L).
Proof using Type. clear Hbc Hlen.
  intros Hc. revert fuel xxh have. induction Hc as [|j k L Hj Hk Hc IH];
    intros fuel xxh have Hr Hf Hx; [by destruct fuel|].
  destruct fuel as [|fuel]; simpl in Hf; [lia|]. cbn [probe_chain].
  destruct (Z.eqb_spec j DELTA_NO_BLOCK); [lia|].
  destruct (ld_total blks j) as [blk Hb]; [apply Hr; set_solver|]. rewrite Hb. simpl mbind.
  apply ld_ret_inv in Hb as [_ Hb]. rewrite first_hit_cons.
  pose proof (hit_lookup window adler seed j blk Hb) as Hh.
  assert (HrL : forall i, i ∈ L -> 0 <= i < zlen blks) by (intros; apply Hr; set_solver).
  assert ((if have then xxh else delta_xxhash32_seeded window seed) = XXH32 window seed) as ->.
  { destruct have; [by apply Hx|done]. }
  destruct (Z.eqb_spec (adler32 blk) adler); simpl.
  - destruct (Z.eqb_spec (XXH32 window seed) (xxhash blk)).
    + by rewrite decide_True by naive_solver.
    + rewrite decide_False by naive_solver. rewrite Hk. simpl. apply IH; [done|lia|done].
  - rewrite decide_False by naive_solver. rewrite Hk. simpl. apply IH; [done|lia|done].
Qed.

Lemma first_hit_bucket window adler seed :
  first_hit window adler seed
    (members blks bc (zlen blks) (Z.land (delta_adler_mix adler) (u32 (bc - 1))))
  = first_hit window adler seed (seqZ 0 (zlen blks)).
Proof.
  unfold first_hit, members. rewrite list_filter_filter_l; [done|].
  intros i. unfold hit, bucket_of. destruct (blks !! Z.to_nat i); [|done].
  by intros [-> _].
Qed.

Lemma delta_build_index_inv sig index :
  blocks sig = Some blks -> block_count sig = zlen blks ->
  delta_build_index sig bc = Ret index -> index_inv blks bc (zlen blks) index.
Proof.
  intros Hb Hc E. unfold delta_build_index in E. do 3 inv_ret E.
  rewrite Hb, Hc in E. simpl in E. pose proof (zlen_nonneg blks).
  destruct (index_fill_inv (Z.to_nat (zlen blks)) 0
    (replicate (Z.to_nat (2 * bc)) DELTA_NO_BLOCK ++ junk_words (zlen blks)))
    as (index'&E'&Hinv); [lia..| |]; [by apply index_inv_init, zlen_junk_words|].
  rewrite E' in E. by injection E as ->.
Qed.

Lemma delta_build_index_not_stuck sig :
  blocks sig = Some blks -> block_count sig = zlen blks -> delta_build_index sig bc <> Stuck.
Proof.
  intros Hb Hc. unfold delta_build_index. rewrite Hb, Hc. pose proof (zlen_nonneg blks).
  do 3 (let E := fresh in case_check E; [|done]). simpl.
  destruct (index_fill_inv (Z.to_nat (zlen blks)) 0
    (replicate (Z.to_nat (2 * bc)) DELTA_NO_BLOCK ++ junk_words (zlen blks)))
    as (index'&->&Hinv); [lia..| |done]. by apply index_inv_init, zlen_junk_words.
Qed.

Lemma find_match_linear sig full window adler seed :
  blocks sig = Some blks -> block_count sig = zlen blks ->
  delta_find_match window adler full sig None 0 0 seed
  = Ret (if full then first_hit window adler seed (seqZ 0 (zlen blks)) else DELTA_NO_BLOCK).
Proof using Type. clear Hbc Hlen.
  intros Hb Hc. unfold delta_find_match. rewrite Hb, Hc. simpl. destruct full; [|done]. simpl.
  pose proof (zlen_nonneg blks).
  rewrite linear_scan_first_hit by lia. rewrite Z2Nat.id by lia.
  by destruct (Z.eqb_spec (zlen blks) 0) as [->|].
Qed.

Lemma find_match_indexed sig index full window adler seed :
  blocks sig = Some blks -> block_count sig = zlen blks ->
  index_inv blks bc (zlen blks) index ->
  delta_find_match window adler full sig (Some index) (2 * bc) (u32 (bc - 1)) seed
  = delta_find_match window adler full sig None 0 0 seed.
Proof.
  intros Hb Hc [Hz Hinv]. rewrite find_match_linear by done.
  unfold delta_find_match. rewrite Hb, Hc. destruct full; simpl; [|done].
  destruct (Z.eqb_spec (zlen blks) 0) as [->|]; [done|].
  destruct (Hinv _ (mask_range bc Hbc (delta_adler_mix adler))) as (h&->&Hch&_). simpl.
  erewrite probe_chain_first_hit; [by rewrite first_hit_bucket|done| | |done].
  - intros i Hi%members_range. lia.
  - unfold members. etrans; [apply length_filter|]. rewrite length_seqZ. lia.
Qed.

(** A block found is in range and carries both checksums of the window. *)
Lemma first_hit_sound window adler seed j :
  first_hit window adler seed (seqZ 0 (zlen blks)) = j -> j <> DELTA_NO_BLOCK ->
  0 <= j < zlen blks /\ hit window adler seed j.
Proof using Type. clear Hbc Hlen.
  unfold first_hit. intros E Hj. destruct (filter _ _) as [|i L] eqn:Ef; [congruence|]. subst i.
  assert (Hi : j ∈ filter (hit window adler seed) (seqZ 0 (zlen blks))) by (rewrite Ef; set_solver).
  apply list_elem_of_filter in Hi as [? ?%elem_of_seqZ]. split; [lia|done].
Qed.

End Lookup.

(** ** The size of the bucket table *)

(** Every bit of [x] tells whether [v] has a bit within [m] positions above. *)
Definition smeared (v m x : Z) : Prop :=
  0 <= x /\ forall i, 0 <= i ->
    Z.testbit x i = true <-> exists j, i <= j < i + m /\ Z.testbit v j = true.

Lemma smeared_1 v : 0 <= v -> smeared v 1 v.
Proof.
  intros Hv. split; [done|]. intros i Hi. split; [exists i; split; [lia|done]|].
  intros (j&Hj&Hb). by replace i with j by lia.
Qed.

Lemma smeared_double v m x :
  0 <= m -> smeared v m x -> smeared v (2 * m) (Z.lor x (Z.shiftr x m)).
Proof.
  intros Hm [Hx Hs]. split.
  { apply Z.lor_nonneg. split; [done|]. by apply Z.shiftr_nonneg. }
  intros i Hi. rewrite Z.lor_spec, Z.shiftr_spec by done. rewrite orb_true_iff, !Hs by lia. split.
  - intros [(j&?&?)|(j&?&?)]; exists j; (split; [lia|done]).
  - intros (j&?&?). destruct (decide (j < i + m)); [left|right]; exists j; (split; [lia|done]).
Qed.

Lemma smeared_ones v m x :
  0 < v < 2 ^ m -> smeared v m x -> x = 2 ^ (Z.log2 v + 1) - 1.
Proof.
  intros Hv [Hx Hs]. rewrite Z.sub_1_r, <- Z.ones_equiv. apply Z.bits_inj'. intros i Hi.
  pose proof (Z.log2_nonneg v). assert (Z.log2 v < m) by (apply Z.log2_lt_pow2; lia).
  apply eq_true_iff_eq. rewrite Hs, Z.testbit_ones by lia.
  rewrite andb_true_iff, Z.leb_le, Z.ltb_lt. split.
  - intros (j&Hj&Hb). destruct (decide (j <= Z.log2 v)); [lia|].
    rewrite Z.bits_above_log2 in Hb by lia. done.
  - intros [_ ?]. exists (Z.log2 v). split; [lia|]. apply Z.bit_log2. lia.
Qed.

Lemma next_pow2_log v :
  0 < v <= 2 ^ 31 -> delta_next_pow2 v = 2 ^ Z.log2_up v.
Proof.
  intros Hv. destruct (decide (v = 1)) as [->|]; [done|].
  unfold delta_next_pow2. rewrite (u32_small (v - 1)) by lia.
  pose proof (smeared_1 (v - 1) ltac:(lia)) as S.
  do 5 (apply smeared_double in S; [|lia]).
  cbv [Z.mul Pos.mul] in S.
  rewrite (fun Hr => smeared_ones _ _ _ Hr S) by lia.
  assert (Z.log2_up v = Z.log2 (v - 1) + 1) as <-.
  { rewrite Z.log2_up_eqn by lia. by rewrite <- Z.sub_1_r. }
  assert (2 ^ Z.log2_up v <= 2 ^ 31).
  { apply Z.pow_le_mono_r; [lia|]. apply Z.log2_up_le_pow2; lia. }
  pose proof (Z.pow_pos_nonneg 2 (Z.log2_up v) ltac:(lia) (Z.log2_up_nonneg v)).
  rewrite u32_small; lia.
Qed.

Lemma next_pow2_bounds v : 0 < v <= 2 ^ 30 -> 0 < delta_next_pow2 v <= 2 ^ 30.
Proof.
  intros Hv. rewrite next_pow2_log by lia. split.
  - apply Z.pow_pos_nonneg; [lia|apply Z.log2_up_nonneg].
  - apply Z.pow_le_mono_r; [lia|]. apply Z.log2_up_le_pow2; lia.
Qed.

Lemma signature_wf_count sig : signature_wf sig -> 0 < block_count sig <= 2 ^ 28.
Proof.
  intros (Hb&Hf&->&_). unfold DELTA_BLOCK_SIZE_MAX, DELTA_MAX_FILE_SIZE in *.
  split; [apply Z.div_str_pos; lia|]. apply Z.div_le_upper_bound; nia.
Qed.

(** The bucket index is an exact accelerator.  For every well-formed
    signature, a lookup through the hash index that [delta_build_index] builds
    returns the block the linear fallback scan returns (in particular the
    lowest matching index), for every window and both checksums. *)
Lemma find_match_index_equiv sig index window full seed
    (Hwf : signature_wf sig)
    (Hidx : delta_build_index sig (delta_next_pow2 (block_count sig)) = Ret index) :
  delta_find_match window (delta_adler32 window) full sig (Some index)
    (u32 (2 * delta_next_pow2 (block_count sig)))
    (u32 (delta_next_pow2 (block_count sig) - 1)) seed
  = delta_find_match window (delta_adler32 window) full sig None 0 0 seed.
Proof.
  pose proof (signature_wf_count sig Hwf) as Hc. destruct Hwf as (_&_&_&l&Hl&Hlen&_).
  pose proof (next_pow2_bounds (block_count sig) ltac:(lia)).
  rewrite (u32_small (2 * _)) by lia.
  rewrite (find_match_indexed l); [done|lia|done|lia|].
  apply (delta_build_index_inv l) with sig; done || lia.
Qed.

(** The bucket count is the smallest power of two not below the number of
    blocks, with no wrap-around up to 2^31 blocks. *)
Lemma next_pow2_smallest v (Hv : 0 < v <= 2 ^ 31) :
  exists k, 0 <= k /\ delta_next_pow2 v = 2 ^ k /\ v <= 2 ^ k /\
    forall m, 0 <= m -> v <= 2 ^ m -> 2 ^ k <= 2 ^ m.
Proof.
  exists (Z.log2_up v). split; [apply Z.log2_up_nonneg|]. split; [by apply next_pow2_log|]. split.
  - destruct (decide (v = 1)) as [->|]; [done|]. apply Z.log2_up_spec. lia.
  - intros m Hm Hvm. apply Z.pow_le_mono_r; [lia|]. by apply Z.log2_up_le_pow2; lia.
Qed.

End Index.

(** A signature of three blocks, the last two with equal checksums. *)
Definition sig3 : DeltaSignature :=
  MkSignature 12 4 3 (Some [MkBlockSig 10 11; MkBlockSig 64487819 1684234849;
                              MkBlockSig 64487819 1684234849]).

Definition index3 : list Z :=
  match @delta_build_index heap0 sig3 4 with Ret i => i | _ => [] end.

