(* ===== verification/DeltaInstr.v ===== *)
(** The delta itself: the instruction list of src/shared/delta.h, its wire form
    ([delta_serialize], [delta_deserialize]) and its application to the basis
    file ([delta_apply]), src/shared/delta.c. *)

From S2P Require Import Prelude Alloc DataBuf DeltaSig.

Definition MAX_DELTA_INSTRUCTIONS : Z := 1024 * 1024.
Definition DELTA_OP_BLOCK_MATCH : Z := 1.
Definition DELTA_OP_LITERAL : Z := 2.

(** delta.h [DeltaInstruction]: the tagged union.  A literal carries its own
    buffer besides its length.  The third case of the [type] tests of the
    sources (neither match nor literal) has no constructor: both producers set
    one of the two tags. *)
Inductive DeltaInstruction :=
| InstrMatch (block_index block_offset length : Z)
| InstrLiteral (lit_data : list byte) (length : Z).
Definition sizeof_DeltaInstruction : Z := 24.

(** delta.h [Delta] *)
Record Delta := MkDelta {
  new_file_size : Z;
  instruction_count : Z;
  instructions : option (list DeltaInstruction);
  delta_size : Z;
}.
Definition sizeof_Delta : Z := 32.

Section Instr.
Context `{Heap}.

Definition emit_instruction (ins : DeltaInstruction) (w : wbuf) : outcome wbuf :=
  match ins with
  | InstrMatch bi bo len =>
      w ← emit (put_le 1 DELTA_OP_BLOCK_MATCH) w;
      w ← emit (put_le 4 bi) w;
      w ← emit (put_le 4 bo) w;
      emit (put_le 4 len) w
  | InstrLiteral lit len =>
      w ← emit (put_le 1 DELTA_OP_LITERAL) w;
      w ← emit (put_le 4 len) w;
      bytes ← rd lit 0 len;
      emit bytes w
  end.

(** delta.c [delta_serialize] *)
Definition delta_serialize (d : option Delta) : outcome Data :=
  d ← of_option d;
  check (negb ((instruction_count d >? 0) && negb (bool_decide (is_Some (instructions d)))));;
  let header_size := 8 + 4 in
  check (negb ((delta_size d >? UINT64_MAX - header_size)
               || (u64 (header_size + delta_size d) >? SIZE_MAX)));;
  let total := u64 (header_size + delta_size d) in
  check (protocol_alloc total);;
  w ← emit (put_le 8 (new_file_size d)) (WBuf total []);
  w ← emit (put_le 4 (instruction_count d)) w;
  w ← for_each emit_instruction (Z.to_nat (instruction_count d)) (default [] (instructions d)) 0 w;
  data_create (Some (w_finish w)) total.

(** The instruction loop of [delta_deserialize]: [n] instructions are read at
    [pos] of the [sz] bytes of [buf]; returns them with the final [delta_size]. *)
Fixpoint parse_instructions (buf : list byte) (sz : Z) (n : nat) (pos dsize : Z)
  : outcome (list DeltaInstruction * Z) :=
  match n with
  | O => Ret ([], dsize)
  | S n =>
      check (negb (pos >=? sz));;
      type ← get_le 1 buf pos;
      let pos := pos + 1 in
      let dsize := u64 (dsize + 1) in
      if type =? DELTA_OP_BLOCK_MATCH then
        check (negb (sz - pos <? 4 * 3));;
        bi ← get_le 4 buf pos;
        bo ← get_le 4 buf (pos + 4);
        len ← get_le 4 buf (pos + 8);
        '(rest, ds) ← parse_instructions buf sz n (pos + 12) (u64 (dsize + 12));
        Ret (InstrMatch bi bo len :: rest, ds)
      else if type =? DELTA_OP_LITERAL then
        check (negb (sz - pos <? 4));;
        lit_len ← get_le 4 buf pos;
        let pos := pos + 4 in
        check (negb (lit_len >? sz - pos));;
        check (protocol_alloc (if lit_len =? 0 then 1 else lit_len));;
        bytes ← rd buf pos lit_len;
        '(rest, ds) ← parse_instructions buf sz n (pos + lit_len) (u64 (dsize + (4 + lit_len)));
        Ret (InstrLiteral (if lit_len =? 0 then junk_bytes 1 else bytes) lit_len :: rest, ds)
      else Fail
  end.

(** delta.c [delta_deserialize] *)
Definition delta_deserialize (d : option Data) : outcome Delta :=
  d ← of_option d;
  check (negb (size d <? 8 + 4));;
  let buf := data_buf d in
  check (protocol_alloc sizeof_Delta);;
  nfs ← get_le 8 buf 0;
  count ← get_le 4 buf 8;
  check (negb (count >? MAX_DELTA_INSTRUCTIONS));;
  check ((count =? 0) || protocol_alloc (count * sizeof_DeltaInstruction));;
  '(l, ds) ← parse_instructions buf (size d) (Z.to_nat count) 12 0;
  Ret (MkDelta nfs count (if count =? 0 then None else Some l) ds).

(** One iteration of the loop of [delta_apply]; the output written so far is
    [w_out w], so [out_pos] is its length. *)
Definition apply_instruction (old : list byte) (old_size nfs bs : Z)
    (ins : DeltaInstruction) (w : wbuf) : outcome wbuf :=
  let out_pos := zlen (w_out w) in
  match ins with
  | InstrMatch bi bo len =>
      let src_offset := u64 (bi * bs) in
      check (negb (src_offset >? UINT64_MAX - bo));;
      let src_offset := u64 (src_offset + bo) in
      check (negb ((src_offset >? old_size) || (len >? u64 (old_size - src_offset))
                   || (out_pos >? nfs) || (len >? u64 (nfs - out_pos))));;
      bytes ← rd old src_offset len;
      emit bytes w
  | InstrLiteral lit len =>
      check (negb ((out_pos >? nfs) || (len >? u64 (nfs - out_pos))));;
      bytes ← rd lit 0 len;
      emit bytes w
  end.

(** delta.c [delta_apply]; returns the output block. *)
Definition delta_apply (old_data : option (list byte)) (old_size : Z) (d : option Delta) (bs : Z)
  : outcome (list byte) :=
  old ← of_option old_data;
  d ← of_option d;
  check (negb (((new_file_size d >? 0) && negb (bool_decide (is_Some (instructions d))))
               || ((instruction_count d >? 0) && (bs =? 0))
               || (new_file_size d >? DELTA_MAX_FILE_SIZE) || (new_file_size d >? SIZE_MAX)));;
  let cap := if new_file_size d =? 0 then 1 else new_file_size d in
  check (protocol_alloc cap);;
  w ← for_each (apply_instruction old old_size (new_file_size d) bs)
        (Z.to_nat (instruction_count d)) (default [] (instructions d)) 0 (WBuf cap []);
  check (zlen (w_out w) =? new_file_size d);;
  Ret (w_finish w).

(** ** Invariant of instruction lists *)

Definition instr_wf (ins : DeltaInstruction) : Prop :=
  match ins with
  | InstrMatch bi bo len => 0 <= bi < 2 ^ 32 /\ 0 <= bo < 2 ^ 32 /\ 0 <= len < 2 ^ 32
  | InstrLiteral lit len => 0 <= len < 2 ^ 32 /\ len <= zlen lit
  end.

(** The instruction array behind a delta: NULL exactly when it has none. *)
Definition instr_list (d : Delta) (l : list DeltaInstruction) : Prop :=
  instruction_count d = zlen l /\ instructions d = match l with [] => None | _ => Some l end.

(** Bytes of an instruction on the wire: what [delta_size] counts. *)
Definition instr_size (ins : DeltaInstruction) : Z :=
  match ins with InstrMatch _ _ _ => 13 | InstrLiteral _ len => 5 + len end.
Definition instrs_size (l : list DeltaInstruction) : Z := foldr (fun i s => instr_size i + s) 0 l.

Definition delta_wf (d : Delta) : Prop :=
  0 <= new_file_size d < 2 ^ 64 /\
  exists l, instr_list d l /\ Forall instr_wf l /\ zlen l <= MAX_DELTA_INSTRUCTIONS /\
            delta_size d = instrs_size l.

(** ** The meaning of a delta

    The bytes an instruction contributes, and the file a list describes. *)
Definition instr_out (old : list byte) (bs : Z) (ins : DeltaInstruction) : option (list byte) :=
  match ins with
  | InstrMatch bi bo len =>
      if bool_decide (bi * bs + bo + len <= zlen old)
      then Some (take (Z.to_nat len) (drop (Z.to_nat (bi * bs + bo)) old)) else None
  | InstrLiteral lit len => Some (take (Z.to_nat len) lit)
  end.

Fixpoint instrs_out (old : list byte) (bs : Z) (l : list DeltaInstruction) : option (list byte) :=
  match l with
  | [] => Some []
  | i :: l => a ← instr_out old bs i; b ← instrs_out old bs l; Some (a ++ b)
  end.

(** ** Applying *)

Section Apply.
Context (old : list byte) (bs nfs : Z).
Context (Hold : zlen old < 2 ^ 64) (Hbs : 0 <= bs < 2 ^ 32) (Hnfs : 0 <= nfs <= DELTA_MAX_FILE_SIZE).

(** The loop of [delta_apply] on output [w], when the instructions of the rest
    contribute [o]. *)
Definition apply_result (w : wbuf) (o : option (list byte)) : outcome wbuf :=
  match o with
  | Some b => if zlen (w_out w) + zlen b <=? nfs then Ret (WBuf (w_cap w) (w_out w ++ b)) else Fail
  | None => Fail
  end.

#[local] Arguments apply_result : simpl never.

Lemma apply_emit w b :
  zlen (w_out w) <= nfs <= w_cap w ->
  (check (negb ((zlen (w_out w) >? nfs) || (zlen b >? u64 (nfs - zlen (w_out w)))));; emit b w)
  = apply_result w (Some b).
Proof.
  intros Hw. unfold DELTA_MAX_FILE_SIZE in *. pose proof (zlen_nonneg (w_out w)). unfold apply_result.
  rewrite u64_small by lia. destruct (Z.gtb_spec (zlen (w_out w)) nfs); [lia|]. simpl.
  destruct (Z.gtb_spec (zlen b) (nfs - zlen (w_out w))), (Z.leb_spec (zlen (w_out w) + zlen b) nfs);
    simpl; try lia; [done|]. by rewrite emit_ret by lia.
Qed.

Lemma apply_instruction_spec ins w :
  instr_wf ins -> zlen (w_out w) <= nfs <= w_cap w ->
  apply_instruction old (zlen old) nfs bs ins w = apply_result w (instr_out old bs ins).
Proof.
  intros Hi Hw. pose proof (zlen_nonneg old). destruct ins as [bi bo len|lit len]; simpl in *.
  - unfold UINT64_MAX. rewrite (u64_small (bi * bs)) by nia.
    destruct (Z.gtb_spec (bi * bs) (2 ^ 64 - 1 - bo)); simpl.
    { rewrite bool_decide_eq_false_2 by lia. done. }
    rewrite (u64_small (bi * bs + bo)) by nia.
    destruct (Z.gtb_spec (bi * bs + bo) (zlen old)); simpl.
    { rewrite bool_decide_eq_false_2 by lia. done. }
    rewrite (u64_small (zlen old - _)) by nia.
    destruct (Z.gtb_spec len (zlen old - (bi * bs + bo))); simpl.
    { rewrite bool_decide_eq_false_2 by lia. done. }
    rewrite bool_decide_eq_true_2 by lia. rewrite rd_ret by nia.
    rewrite <- apply_emit by done. rewrite zlen_take_drop by nia. done.
  - rewrite rd_ret by lia. simpl. rewrite drop_0. rewrite <- (apply_emit w (take _ lit)) by done.
    replace (zlen (take (Z.to_nat len) lit)) with len; [done|].
    unfold zlen in *. rewrite length_take. lia.
Qed.

Lemma apply_loop_spec l w :
  Forall instr_wf l -> zlen (w_out w) <= nfs <= w_cap w ->
  foldM (apply_instruction old (zlen old) nfs bs) l w = apply_result w (instrs_out old bs l).
Proof.
  intros Hl. revert w. induction Hl as [|i l Hi Hl IH]; intros w Hw; simpl.
  - unfold apply_result, zlen at 2. simpl. rewrite Z.add_0_r, app_nil_r.
    destruct (Z.leb_spec (zlen (w_out w)) nfs); [by destruct w|lia].
  - rewrite apply_instruction_spec by done. destruct (instr_out old bs i) as [a|]; simpl; [|done].
    unfold apply_result at 1. pose proof (zlen_nonneg a).
    destruct (Z.leb_spec (zlen (w_out w) + zlen a) nfs); simpl.
    + rewrite IH by (simpl; rewrite ?zlen_app; lia).
      destruct (instrs_out old bs l) as [b|]; simpl; [|done]. unfold apply_result; simpl.
      by rewrite !zlen_app, Z.add_assoc, app_assoc.
    + destruct (instrs_out old bs l) as [b|]; simpl; [|done]. unfold apply_result. rewrite zlen_app.
      pose proof (zlen_nonneg b). destruct (Z.leb_spec (zlen (w_out w) + (zlen a + zlen b)) nfs); [lia|done].
Qed.

End Apply.

(** What [delta_apply] computes on a well-formed delta: the bytes its
    instructions describe when they are exactly as many as announced. *)
Definition apply_spec (old : list byte) (bs : Z) (d : Delta) (l : list DeltaInstruction)
  : outcome (list byte) :=
  match instrs_out old bs l with
  | Some b => if zlen b =? new_file_size d
              then Ret (if new_file_size d =? 0 then junk_bytes 1 else b) else Fail
  | None => Fail
  end.

Lemma delta_apply_spec old bs d l :
  zlen old < 2 ^ 64 -> 0 < bs < 2 ^ 32 -> 0 <= new_file_size d ->
  instr_list d l -> Forall instr_wf l ->
  delta_apply (Some old) (zlen old) (Some d) bs
  = if (new_file_size d <=? DELTA_MAX_FILE_SIZE)
       && protocol_alloc (Z.max 1 (new_file_size d)) then apply_spec old bs d l
    else Fail.
Proof.
  intros Ho Hb Hn [Hc Hi] Hl. unfold delta_apply. simpl. unfold SIZE_MAX.
  destruct (Z.eqb_spec bs 0); [lia|]. rewrite andb_false_r, orb_false_r.
  destruct (Z.leb_spec (new_file_size d) DELTA_MAX_FILE_SIZE), (Z.gtb_spec (new_file_size d) DELTA_MAX_FILE_SIZE);
    try lia; [|by rewrite ?orb_true_r].
  unfold DELTA_MAX_FILE_SIZE in *.
  destruct (Z.gtb_spec (new_file_size d) (2 ^ 64 - 1)); [lia|]. rewrite !orb_false_r. simpl.
  assert ((if new_file_size d =? 0 then 1 else new_file_size d) = Z.max 1 (new_file_size d)) as ->.
  { destruct (Z.eqb_spec (new_file_size d) 0); lia. }
  destruct (protocol_alloc _) eqn:Ea; simpl; [|by destruct (negb _)].
  rewrite Hc, Hi. replace (Z.to_nat (zlen l)) with (length l) by (unfold zlen; lia).
  assert (default [] (match l with [] => None | _ => Some l end) = l) as -> by (by destruct l).
  rewrite for_each_foldM by done. rewrite apply_loop_spec; try done; unfold DELTA_MAX_FILE_SIZE; try lia;
    [|unfold zlen; simpl; lia]. simpl.
  unfold apply_spec. destruct (instrs_out old bs l) as [b|] eqn:Eo; simpl; [|by destruct (negb _)].
  assert (Hnil : l = [] -> zlen b = 0) by (intros ->; by injection Eo as <-).
  assert (Hg : negb ((new_file_size d >? 0)
                     && negb (bool_decide (is_Some (match l with [] => None | _ => Some l end)))) = true
               \/ zlen b <> new_file_size d).
  { destruct l; [|left; simpl; by rewrite andb_false_r].
    destruct (Z.gtb_spec (new_file_size d) 0); [right; rewrite Hnil by done; lia|by left]. }
  unfold apply_result. cbn [w_out w_cap app]. change (zlen []) with 0. rewrite Z.add_0_l.
  destruct (Z.eqb_spec (zlen b) (new_file_size d)) as [E|E].
  - destruct Hg as [->|]; [|done]. simpl. rewrite E, Z.leb_refl. simpl. rewrite E, Z.eqb_refl. simpl.
    destruct (Z.eqb_spec (new_file_size d) 0) as [E0|].
    + assert (b = []) as -> by (destruct b; [done|unfold zlen in *; simpl in *; lia]).
      unfold w_finish; simpl. by rewrite E0.
    + rewrite w_finish_full; simpl; [done|lia].
  - destruct (check _) eqn:Ec; simpl; [|done|by apply check_not_stuck in Ec].
    destruct (Z.leb_spec (zlen b) (new_file_size d)); simpl; [|done].
    destruct (Z.eqb_spec (zlen b) (new_file_size d)); done.
Qed.

(** ** Wire form *)

Definition instr_bytes (ins : DeltaInstruction) : list byte :=
  match ins with
  | InstrMatch bi bo len => put_le 1 DELTA_OP_BLOCK_MATCH ++ put_le 4 bi ++ put_le 4 bo ++ put_le 4 len
  | InstrLiteral lit len => put_le 1 DELTA_OP_LITERAL ++ put_le 4 len ++ take (Z.to_nat len) lit
  end.
#[global] Arguments instr_bytes : simpl never.

Lemma zlen_take_le {A} (l : list A) n : 0 <= n <= zlen l -> zlen (take (Z.to_nat n) l) = n.
Proof. unfold zlen. rewrite length_take. lia. Qed.

Lemma zlen_instr_bytes ins : instr_wf ins -> zlen (instr_bytes ins) = instr_size ins.
Proof.
  unfold instr_bytes. destruct ins as [bi bo len|lit len]; simpl; intros Hi; autorewrite with zlen;
    [done|]. rewrite zlen_take_le by lia. lia.
Qed.

Lemma instr_size_pos ins : instr_wf ins -> 5 <= instr_size ins <= 2 ^ 32 + 4.
Proof. destruct ins; simpl; lia. Qed.

Lemma instrs_size_bounds l : Forall instr_wf l -> 0 <= instrs_size l <= zlen l * (2 ^ 32 + 4).
Proof.
  induction 1 as [|i l Hi Hl IH]; [done|]. apply instr_size_pos in Hi.
  unfold instrs_size, zlen in *; simpl. lia.
Qed.

Lemma zlen_instrs_bytes l :
  Forall instr_wf l -> zlen (concat (map instr_bytes l)) = instrs_size l.
Proof.
  induction 1 as [|i l Hi Hl IH]; [done|]. cbn [map concat].
  by rewrite zlen_app, zlen_instr_bytes, IH.
Qed.

Lemma emit_instruction_ret ins w :
  instr_wf ins -> zlen (w_out w) + instr_size ins <= w_cap w ->
  emit_instruction ins w = Ret (WBuf (w_cap w) (w_out w ++ instr_bytes ins)).
Proof.
  unfold instr_bytes. destruct ins as [bi bo len|lit len]; simpl; intros Hi Hw.
  - do 4 (rewrite emit_ret by (simpl; autorewrite with zlen; lia); simpl). by rewrite <- !app_assoc.
  - do 2 (rewrite emit_ret by (simpl; autorewrite with zlen; lia); simpl).
    rewrite rd_ret by lia. simpl. rewrite drop_0.
    rewrite emit_ret by (simpl; autorewrite with zlen; rewrite zlen_take_le by lia; lia). simpl.
    by rewrite <- !app_assoc.
Qed.

Lemma emit_instructions l w :
  Forall instr_wf l -> zlen (w_out w) + instrs_size l <= w_cap w ->
  foldM emit_instruction l w = Ret (WBuf (w_cap w) (w_out w ++ concat (map instr_bytes l))).
Proof.
  intros Hl. revert w. induction Hl as [|i l Hi Hl IH]; intros w Hw.
  - simpl. rewrite app_nil_r. by destruct w.
  - pose proof (instrs_size_bounds l Hl). unfold instrs_size in Hw; simpl in Hw; fold (instrs_size l) in Hw.
    cbn [foldM]. rewrite emit_instruction_ret by (done || lia). simpl mbind.
    rewrite IH by (simpl; rewrite zlen_app, zlen_instr_bytes by done; lia).
    cbn [map concat w_cap w_out]. by rewrite app_assoc.
Qed.

Definition delta_bytes (d : Delta) (l : list DeltaInstruction) : list byte :=
  put_le 8 (new_file_size d) ++ put_le 4 (instruction_count d) ++ concat (map instr_bytes l).

Lemma instr_list_default d l : instr_list d l -> default [] (instructions d) = l.
Proof. intros [_ ->]. by destruct l. Qed.

(** [delta_serialize] writes exactly [12 + delta_size] bytes. *)
Lemma delta_serialize_spec d l :
  instr_list d l -> Forall instr_wf l -> zlen l <= MAX_DELTA_INSTRUCTIONS ->
  delta_size d = instrs_size l -> heap_serves (44 + delta_size d) ->
  delta_serialize (Some d) = Ret (MkData (Some (delta_bytes d l)) (12 + delta_size d) 0 None).
Proof.
  intros Hi Hl Hmax Hd Hs. pose proof (instrs_size_bounds l Hl) as Hb. rewrite <- Hd in Hb.
  unfold MAX_DELTA_INSTRUCTIONS in *. unfold delta_serialize. simpl.
  rewrite (instr_list_default d l Hi). destruct Hi as [Hc Hi].
  assert ((instruction_count d >? 0) && negb (bool_decide (is_Some (instructions d))) = false) as ->.
  { rewrite Hi. destruct l; [by rewrite Hc|]. by rewrite andb_comm. }
  unfold UINT64_MAX, SIZE_MAX. rewrite !u64_small by lia.
  do 2 (match goal with |- context [?a >? ?b] => destruct (Z.gtb_spec a b); [lia|] end). simpl.
  rewrite (heap_serves_alloc (44 + delta_size d)) by (done || lia). simpl.
  rewrite emit_ret by (simpl; autorewrite with zlen; unfold zlen; simpl; lia). simpl.
  rewrite emit_ret by (simpl; autorewrite with zlen; lia). simpl.
  rewrite for_each_foldM by (rewrite Hc; unfold zlen; lia).
  rewrite emit_instructions by (done || (simpl; autorewrite with zlen; lia)). simpl.
  rewrite w_finish_full by (simpl; autorewrite with zlen; rewrite zlen_instrs_bytes by done; lia).
  rewrite data_create_ret by (intros z Hz; apply Hs; lia).
  simpl. unfold delta_bytes. by rewrite <- app_assoc.
Qed.

(** Literals whose buffer is exactly their length, as both producers make them. *)
Definition instr_exact (ins : DeltaInstruction) : Prop :=
  match ins with
  | InstrMatch _ _ _ => True
  | InstrLiteral lit len => zlen lit = len /\ 0 < len
  end.

Lemma get_put_1 z pre post pos :
  pos = zlen pre -> 0 <= z < 2 ^ 8 -> get_le 1 (pre ++ put_le 1 z ++ post) pos = Ret z.
Proof. intros. by apply get_put_le_exact. Qed.

Lemma parse_instruction_match pre bi bo len post sz n ds :
  let buf := pre ++ instr_bytes (InstrMatch bi bo len) ++ post in
  instr_wf (InstrMatch bi bo len) -> zlen pre + 13 <= sz -> 0 <= ds -> ds + 13 < 2 ^ 64 ->
  parse_instructions buf sz (S n) (zlen pre) ds
  = ('(rest, ds) ← parse_instructions buf sz n (zlen pre + 13) (ds + 13);
     Ret (InstrMatch bi bo len :: rest, ds)).
Proof.
  intros buf (?&?&?) Hsz Hds Hds'. cbn [parse_instructions].
  destruct (Z.geb_spec (zlen pre) sz); [lia|]. simpl negb. simpl check. simpl mbind.
  assert (Hb : buf = pre ++ put_le 1 DELTA_OP_BLOCK_MATCH ++ put_le 4 bi ++ put_le 4 bo ++ put_le 4 len ++ post).
  { subst buf. unfold instr_bytes. by rewrite <- !app_assoc. }
  rewrite Hb at 1. rewrite get_put_1 by (unfold DELTA_OP_BLOCK_MATCH; done || lia). simpl mbind.
  destruct (Z.ltb_spec (sz - (zlen pre + 1)) (4 * 3)); [lia|]. simpl negb. simpl check. simpl mbind.
  rewrite Hb at 1. rewrite app_assoc, (get_put_4 bi) by (autorewrite with zlen; lia). simpl mbind.
  rewrite Hb at 1. rewrite 2!app_assoc, (get_put_4 bo) by (autorewrite with zlen; lia). simpl mbind.
  rewrite Hb at 1. rewrite 3!app_assoc, (get_put_4 len) by (autorewrite with zlen; lia). simpl mbind.
  rewrite !u64_small by (rewrite ?u64_small; lia).
  by replace (zlen pre + 1 + 12) with (zlen pre + 13) by lia; replace (ds + 1 + 12) with (ds + 13) by lia.
Qed.

Lemma parse_instruction_literal pre lit len post sz n ds :
  let buf := pre ++ instr_bytes (InstrLiteral lit len) ++ post in
  0 < len < 2 ^ 32 -> zlen lit = len -> zlen pre + (5 + len) <= sz -> 0 <= ds ->
  ds + (5 + len) < 2 ^ 64 -> protocol_alloc len = true ->
  parse_instructions buf sz (S n) (zlen pre) ds
  = ('(rest, ds) ← parse_instructions buf sz n (zlen pre + (5 + len)) (ds + (5 + len));
     Ret (InstrLiteral lit len :: rest, ds)).
Proof.
  intros buf Hlen Hlit Hsz Hds Hds' Ha. cbn [parse_instructions].
  destruct (Z.geb_spec (zlen pre) sz); [lia|]. simpl negb. simpl check. simpl mbind.
  assert (Hb : buf = pre ++ put_le 1 DELTA_OP_LITERAL ++ put_le 4 len ++ lit ++ post).
  { subst buf. unfold instr_bytes. rewrite <- !app_assoc.
    by rewrite take_ge by (unfold zlen in Hlit; lia). }
  rewrite Hb at 1. rewrite get_put_1 by (unfold DELTA_OP_LITERAL; done || lia). simpl mbind.
  change (DELTA_OP_LITERAL =? DELTA_OP_BLOCK_MATCH) with false. cbv iota.
  change (DELTA_OP_LITERAL =? DELTA_OP_LITERAL) with true. cbv iota.
  destruct (Z.ltb_spec (sz - (zlen pre + 1)) 4); [lia|]. simpl negb. simpl check. simpl mbind.
  rewrite Hb at 1. rewrite app_assoc, (get_put_4 len) by (autorewrite with zlen; lia). simpl mbind.
  destruct (Z.gtb_spec len (sz - (zlen pre + 1 + 4))); [lia|]. simpl negb. simpl check. simpl mbind.
  destruct (Z.eqb_spec len 0); [lia|]. rewrite Ha. simpl check. simpl mbind.
  rewrite Hb at 1. rewrite 2!app_assoc, rd_segment by (autorewrite with zlen; lia). simpl mbind.
  rewrite !u64_small by (rewrite ?u64_small; lia).
  by replace (zlen pre + 1 + 4 + len) with (zlen pre + (5 + len)) by lia;
    replace (ds + 1 + (4 + len)) with (ds + (5 + len)) by lia.
Qed.

Lemma parse_instructions_bytes pre l ds :
  Forall instr_wf l -> Forall instr_exact l -> heap_serves (instrs_size l) ->
  0 <= ds -> ds + instrs_size l < 2 ^ 64 ->
  parse_instructions (pre ++ concat (map instr_bytes l)) (zlen pre + instrs_size l)
    (length l) (zlen pre) ds = Ret (l, ds + instrs_size l).
Proof.
  intros Hwf Hex. revert pre ds. induction Hwf as [|i l Hi Hwf IH]; intros pre ds Hs Hds Hds'.
  { simpl. by rewrite Z.add_0_r. }
  apply Forall_cons in Hex as [Hx Hex]. pose proof (instrs_size_bounds l Hwf).
  pose proof (instr_size_pos i Hi).
  assert (Hsz : instrs_size (i :: l) = instr_size i + instrs_size l) by done. rewrite Hsz in *.
  specialize (IH Hex (pre ++ instr_bytes i) (ds + instr_size i)).
  rewrite zlen_app, zlen_instr_bytes, <- app_assoc in IH by done.
  cbn [map concat length].
  destruct i as [bi bo len|lit len]; simpl instr_size in *.
  - rewrite parse_instruction_match by (done || lia).
    rewrite !Z.add_assoc in *. rewrite IH; [done| |lia..]. intros z Hz. apply Hs. lia.
  - simpl in Hi, Hx. rewrite parse_instruction_literal; try (done || lia).
    + rewrite !Z.add_assoc in *. rewrite IH; [done| |lia..]. intros z Hz. apply Hs. lia.
    + apply Hs. lia.
Qed.

Lemma delta_deserialize_spec d l dt :
  0 <= new_file_size d < 2 ^ 64 -> instr_list d l -> Forall instr_wf l -> Forall instr_exact l ->
  zlen l <= MAX_DELTA_INSTRUCTIONS -> delta_size d = instrs_size l ->
  heap_serves (32 + 24 * zlen l + delta_size d) ->
  data dt = Some (delta_bytes d l) -> size dt = 12 + delta_size d ->
  delta_deserialize (Some dt) = Ret d.
Proof.
  intros Hn [Hc Hi] Hwf Hex Hmax Hds Hs Hb Hz. unfold MAX_DELTA_INSTRUCTIONS in *.
  pose proof (instrs_size_bounds l Hwf). pose proof (zlen_nonneg l).
  unfold delta_deserialize. simpl. unfold data_buf. rewrite Hb, Hz. simpl. unfold delta_bytes.
  change (8 + 4) with 12. destruct (Z.ltb_spec (12 + delta_size d) 12); [lia|]. simpl.
  unfold sizeof_Delta, sizeof_DeltaInstruction.
  rewrite (heap_serves_alloc _ 32 Hs) by lia. simpl.
  rewrite get_put_8_front by lia. simpl mbind.
  rewrite (get_put_4 _ _ _ 8) by (rewrite ?zlen_put_le; lia). simpl mbind.
  unfold MAX_DELTA_INSTRUCTIONS. destruct (Z.gtb_spec (instruction_count d) (1024 * 1024)); [lia|].
  simpl negb. simpl check. simpl mbind.
  rewrite (heap_serves_alloc _ (instruction_count d * 24) Hs) by lia. rewrite orb_true_r. simpl check. simpl mbind.
  rewrite app_assoc. replace (Z.to_nat (instruction_count d)) with (length l) by (unfold zlen in Hc; lia).
  pose proof (parse_instructions_bytes (put_le 8 (new_file_size d) ++ put_le 4 (instruction_count d)) l 0
    Hwf Hex) as Hp. rewrite zlen_app, !zlen_put_le in Hp. change (Z.of_nat 8 + Z.of_nat 4) with 12 in Hp.
  rewrite Hds, Hp; [|intros z Hz'; apply Hs; lia|lia..]. simpl.
  destruct d as [nfs count ins ds]; simpl in *. rewrite Hds, Hi, Hc, ?Z.add_0_l.
  destruct l as [|i l]; [done|].
  destruct (Z.eqb_spec (zlen (i :: l)) 0); [unfold zlen in *; simpl in *; lia|done].
Qed.

Lemma parse_instructions_total buf sz n pos ds :
  0 <= pos -> sz <= zlen buf -> 0 <= ds -> ds + (sz - pos) < 2 ^ 64 ->
  match parse_instructions buf sz n pos ds with
  | Ret (l, ds') => length l = n /\ Forall instr_wf l /\ ds' = ds + instrs_size l /\
                    (0 < Z.of_nat n -> pos + instrs_size l <= sz)
  | Fail => True
  | Stuck => False
  end.
Proof.
  intros Hpos Hsz. revert pos ds Hpos. induction n as [|n IH]; intros pos ds Hpos Hds Hlim.
  { simpl. split_and!; [done..|unfold instrs_size; simpl; lia|lia]. }
  cbn [parse_instructions]. destruct (Z.geb_spec pos sz); simpl; [done|].
  destruct (get_le_total 1 buf pos) as [ty Ety]; [lia..|]. rewrite Ety. simpl.
  rewrite (u64_small (ds + 1)) by lia.
  destruct (ty =? DELTA_OP_BLOCK_MATCH).
  - change (4 * 3) with 12. destruct (Z.ltb_spec (sz - (pos + 1)) 12); simpl; [done|].
    destruct (get_le_total 4 buf (pos + 1)) as [bi Ebi]; [lia..|].
    destruct (get_le_total 4 buf (pos + 1 + 4)) as [bo Ebo]; [lia..|].
    destruct (get_le_total 4 buf (pos + 1 + 8)) as [len Elen]; [lia..|].
    rewrite Ebi, Ebo, Elen. simpl. apply get_4_inv in Ebi, Ebo, Elen. rewrite u64_small by lia.
    specialize (IH (pos + 1 + 12) (ds + 1 + 12) ltac:(lia) ltac:(lia) ltac:(lia)).
    destruct (parse_instructions _ _ _ _ _) as [[l ds']| |]; simpl; [|done..].
    destruct IH as (Hl&Hf&->&Hp). unfold instrs_size; simpl; fold (instrs_size l).
    split_and!; [lia|constructor; [simpl; lia|done]|lia|intros _].
    destruct n; [destruct l; [unfold instrs_size; simpl; lia|done]|lia].
  - destruct (ty =? DELTA_OP_LITERAL); [|done].
    destruct (Z.ltb_spec (sz - (pos + 1)) 4); simpl; [done|].
    destruct (get_le_total 4 buf (pos + 1)) as [len Elen]; [lia..|]. rewrite Elen. simpl.
    apply get_4_inv in Elen.
    destruct (Z.gtb_spec len (sz - (pos + 1 + 4))); simpl; [done|].
    destruct (protocol_alloc _); simpl; [|done].
    rewrite rd_ret by lia. simpl. rewrite u64_small by lia.
    specialize (IH (pos + 1 + 4 + len) (ds + 1 + (4 + len)) ltac:(lia) ltac:(lia) ltac:(lia)).
    destruct (parse_instructions _ _ _ _ _) as [[l ds']| |]; simpl; [|done..].
    destruct IH as (Hl&Hf&->&Hp). unfold instrs_size; simpl; fold (instrs_size l).
    split_and!; [lia| |lia|intros _].
    + constructor; [|done]. simpl. split; [lia|].
      destruct (Z.eqb_spec len 0); [pose proof (zlen_nonneg (junk_bytes 1)); lia|].
      rewrite zlen_take_drop; lia.
    + destruct n; [destruct l; [unfold instrs_size; simpl; lia|done]|lia].
Qed.

Lemma delta_deserialize_total d :
  match d with Some d => data_wf d | None => True end ->
  match delta_deserialize d with Ret dl => delta_wf dl | Fail => True | Stuck => False end.
Proof.
  intros Hd. unfold delta_deserialize. destruct d as [d|]; simpl; [|done].
  apply data_wf_buf in Hd as [Hd Hd']. change (8 + 4) with 12.
  destruct (Z.ltb_spec (size d) 12); simpl; [done|].
  destruct (protocol_alloc _); simpl; [|done].
  destruct (get_le_total 8 (data_buf d) 0) as [nfs En]; [lia..|].
  destruct (get_le_total 4 (data_buf d) 8) as [n Ec]; [lia..|]. rewrite En, Ec. simpl.
  apply get_8_inv in En. apply get_4_inv in Ec.
  destruct (Z.gtb_spec n MAX_DELTA_INSTRUCTIONS); simpl; [done|].
  let E := fresh in case_check E; [|done].
  pose proof (parse_instructions_total (data_buf d) (size d) (Z.to_nat n) 12 0
    ltac:(lia) ltac:(lia) ltac:(lia) ltac:(lia)) as Hp.
  destruct (parse_instructions _ _ _ _ _) as [[l ds]| |]; simpl; [|done..].
  destruct Hp as (Hl&Hf&->&_). split; [simpl; lia|]. exists l. unfold zlen in *.
  split_and!; try done; try lia. split; simpl; [unfold zlen; lia|].
  destruct l; simpl in *; destruct (Z.eqb_spec n 0); simpl; try done; try lia.
Qed.

(** A delta survives the wire.  Serializing a well-formed delta whose
    literals carry exactly their bytes and parsing the result gives back the
    same delta: instructions, sizes and counts. *)
Lemma delta_roundtrip d l
    (Hn : 0 <= new_file_size d < 2 ^ 64) (Hl : instr_list d l) (Hwf : Forall instr_wf l)
    (Hex : Forall instr_exact l) (Hmax : zlen l <= MAX_DELTA_INSTRUCTIONS)
    (Hds : delta_size d = instrs_size l)
    (Hheap : heap_serves (44 + 24 * zlen l + delta_size d)) :
  exists dt, delta_serialize (Some d) = Ret dt /\ size dt = 12 + delta_size d /\
             delta_deserialize (Some dt) = Ret d.
Proof.
  pose proof (zlen_nonneg l). eexists. split_and!.
  - apply (delta_serialize_spec d l); try done. intros z Hz. apply Hheap. lia.
  - done.
  - apply (delta_deserialize_spec d l); try done. intros z Hz. apply Hheap. lia.
Qed.

(** C2: receiving a delta is safe on hostile input, and what comes out is what
    was announced.  Whatever bytes the peer sends, the parser never reads
    outside the buffer and accepts at most [MAX_DELTA_INSTRUCTIONS]
    instructions.  Applying whatever it accepted to any basis file, with any
    block size, neither reads outside the basis or a literal nor writes outside
    the output block; a result is a block of the announced size (of one byte
    when that is zero) whose contents are exactly the pieces the instructions
    name; and it is refused only when the announced size is over
    [DELTA_MAX_FILE_SIZE], the block cannot be allocated, an instruction reaches
    outside the basis, or the pieces are not as long as announced. *)
Theorem delta_receive_safe dt old bs
    (Hd : data_wf dt) (Hold : zlen old < 2 ^ 64) (Hbs : 0 < bs < 2 ^ 32) :
  match delta_deserialize (Some dt) with
  | Stuck => False
  | Fail => True
  | Ret d => exists l, instr_list d l /\ zlen l <= MAX_DELTA_INSTRUCTIONS /\
      match delta_apply (Some old) (zlen old) (Some d) bs with
      | Stuck => False
      | Fail => DELTA_MAX_FILE_SIZE < new_file_size d
                \/ protocol_alloc (Z.max 1 (new_file_size d)) = false
                \/ (forall out, instrs_out old bs l = Some out -> zlen out <> new_file_size d)
      | Ret block =>
          new_file_size d <= DELTA_MAX_FILE_SIZE /\ zlen block = Z.max 1 (new_file_size d) /\
          exists out, instrs_out old bs l = Some out /\ zlen out = new_file_size d /\
                      take (Z.to_nat (new_file_size d)) block = out
      end
  end.
Proof.
  pose proof (delta_deserialize_total (Some dt) Hd) as Ht.
  destruct (delta_deserialize (Some dt)) as [d| |]; simpl; [|done..].
  destruct Ht as ((Hn&_)&l&Hl&Hwf&Hmax&_). exists l. split_and!; [done..|].
  erewrite delta_apply_spec by (done || lia).
  destruct (Z.leb_spec (new_file_size d) DELTA_MAX_FILE_SIZE); [|by left]. simpl.
  destruct (protocol_alloc _); [|by right; left]. unfold apply_spec.
  destruct (instrs_out old bs l) as [b|]; [|by right; right].
  destruct (Z.eqb_spec (zlen b) (new_file_size d)) as [E|E]; [|right; right; naive_solver].
  rewrite <- E in *. split; [done|]. destruct (Z.eqb_spec (zlen b) 0) as [E0|E0].
  - rewrite E0. assert (b = []) as -> by (destruct b; [done|unfold zlen in E0; simpl in E0; lia]).
    split; [done|]. by exists [].
  - split; [lia|]. exists b. split_and!; try done. unfold zlen. rewrite Nat2Z.id. by rewrite firstn_all.
Qed.

(** [delta_apply] implements the meaning of a delta.  On a well-formed
    delta it returns exactly the concatenation of what its instructions
    describe (block copies from the basis and literals) when that is complete,
    in range and as long as announced, and fails otherwise. *)
Lemma delta_apply_refines old bs d l
    (Hold : zlen old < 2 ^ 64) (Hbs : 0 < bs < 2 ^ 32)
    (Hn : 0 < new_file_size d <= DELTA_MAX_FILE_SIZE)
    (Hl : instr_list d l) (Hwf : Forall instr_wf l) (Hheap : heap_serves (new_file_size d)) :
  delta_apply (Some old) (zlen old) (Some d) bs
  = match instrs_out old bs l with
    | Some out => if zlen out =? new_file_size d then Ret out else Fail
    | None => Fail
    end.
Proof.
  erewrite delta_apply_spec by (done || lia).
  rewrite Z.max_r, (heap_serves_alloc _ _ Hheap) by lia.
  destruct (Z.leb_spec (new_file_size d) DELTA_MAX_FILE_SIZE); [|lia]. simpl. unfold apply_spec.
  destruct (Z.eqb_spec (new_file_size d) 0); [lia|done].
Qed.

End Instr.

(** A delta that copies block 1 of the basis and appends a literal. *)
Definition delta_demo : Delta :=
  MkDelta 6 2 (Some [InstrMatch 1 0 4; InstrLiteral (cs "xy") 2]) 20.

(** Its bytes on the wire, as a peer would send them. *)
Definition delta_demo_wire : Data :=
  let l := [InstrMatch 1 0 4; InstrLiteral (cs "xy") 2] in
  MkData (Some (delta_bytes delta_demo l)) (zlen (delta_bytes delta_demo l)) 0 None.

Lemma delta_receive_safe_witness :
  (d ← @delta_deserialize heap0 (Some delta_demo_wire);
   @delta_apply heap0 (Some (cs "01234567")) 8 (Some d) 4) = Ret (cs "4567xy") /\
  exists out, instrs_out (cs "01234567") 4 [InstrMatch 1 0 4; InstrLiteral (cs "xy") 2] = Some out
              /\ zlen out = 6 /\ take 6 (cs "4567xy") = out.
Proof.
  pose proof (@delta_receive_safe heap0 delta_demo_wire (cs "01234567") 4
    ltac:(split; [split; vm_compute; congruence|vm_compute; congruence]) ltac:(done) ltac:(lia)) as H.
  split; [vm_compute; reflexivity|].
  replace (@delta_deserialize heap0 (Some delta_demo_wire)) with (Ret delta_demo) in H
    by (vm_compute; reflexivity).
  destruct H as (l & [_ Hl] & _ & H).
  assert (l = [InstrMatch 1 0 4; InstrLiteral (cs "xy") 2]) as -> by (destruct l; simpl in Hl; congruence).
  replace (@delta_apply heap0 (Some (cs "01234567")) (zlen (cs "01234567")) (Some delta_demo) 4)
    with (Ret (cs "4567xy")) in H by (vm_compute; reflexivity).
  exact (proj2 (proj2 H)).
Defined.
