(* ===== verification/DeltaCompute.v ===== *)
(** The sender's side of a delta: [ensure_capacity], [flush_literal] and the
    rolling-window loop of [delta_compute_seeded] (src/shared/delta.c), and the
    theorem that the whole pipeline rebuilds the new file. *)

From S2P Require Import Prelude Alloc DataBuf DeltaSig DeltaIndex DeltaInstr.

Section Compute.
Context `{Heap} `{XXHash}.

(** delta.c [ensure_capacity]; returns the new capacity. *)
Definition ensure_capacity (capacity count : Z) : outcome Z :=
  if count <? capacity then Ret capacity
  else
    check (negb (capacity >? MAX_DELTA_INSTRUCTIONS / 2));;
    let new_cap := u32 (capacity * 2) in
    check (protocol_realloc (new_cap * sizeof_DeltaInstruction));;
    Ret new_cap.

(** [instrs[count] = ...; count++] on an array of [capacity] entries of which
    the first [count] are [instrs]. *)
Definition push_instr (instrs : list DeltaInstruction) (capacity : Z) (ins : DeltaInstruction)
  : outcome (list DeltaInstruction) :=
  if zlen instrs <? capacity then Ret (instrs ++ [ins]) else Stuck.

(** delta.c [flush_literal]; the array and its capacity are passed and returned. *)
Definition flush_literal (instrs : list DeltaInstruction) (capacity : Z) (data : list byte)
    (start end_ : Z) : outcome (list DeltaInstruction * Z) :=
  let count := zlen instrs in
  if start >=? end_ then Ret (instrs, capacity)
  else
    check (negb ((end_ - start >? UINT32_MAX) || (count >=? MAX_DELTA_INSTRUCTIONS)));;
    let lit_len := u32 (end_ - start) in
    capacity ← ensure_capacity capacity count;
    check (protocol_alloc lit_len);;
    lit_data ← rd data start lit_len;
    instrs ← push_instr instrs capacity (InstrLiteral lit_data lit_len);
    Ret (instrs, capacity).

(** The rolling update of the two sums when the window moves by one byte. *)
Definition roll (bs : Z) (old_byte new_byte : byte) (s : Z * Z) : Z * Z :=
  let s1 := u32 (s.1 + DELTA_ADLER32_MODULUS - bZ old_byte + bZ new_byte)
            mod DELTA_ADLER32_MODULUS in
  let s2 := u32 (s.2 + DELTA_ADLER32_MODULUS - u64 (bs * bZ old_byte) mod DELTA_ADLER32_MODULUS
                 + s1 - 1) mod DELTA_ADLER32_MODULUS in
  (s1, s2).

(** The locals of the loop of [delta_compute_seeded]. *)
Record cstate := CState {
  c_i : Z;                         (** next byte of the new file *)
  c_sums : Z * Z;                  (** [s1], [s2] *)
  c_rolling : bool;                (** [rolling_valid] *)
  c_has_literal : bool;
  c_literal_start : Z;
  c_instrs : list DeltaInstruction;
  c_capacity : Z;
}.

(** The checksum of the window at [i]: rolled from the previous window when
    that is possible, recomputed otherwise; with the new [rolling_valid]. *)
Definition window_sums (new : list byte) (bs : Z) (s : cstate) (window : list byte) (full : bool)
  : outcome ((Z * Z) * bool) :=
  if c_rolling s && full then
    old_byte ← ld new (c_i s - 1);
    new_byte ← ld new (c_i s + bs - 1);
    Ret (roll bs old_byte new_byte (c_sums s), true)
  else Ret (fold_left adler_step window (1, 0), full).

(** One iteration of the loop. *)
Definition compute_step (new : list byte) (nsize : Z) (sig : DeltaSignature) (bs : Z)
    (index : option (list Z)) (chain_next mask seed : Z) (s : cstate) : outcome cstate :=
  let i := c_i s in
  let window_len := u32 (if nsize - i <? bs then nsize - i else bs) in
  let full_window := window_len =? bs in
  window ← rd new i window_len;
  '(sums, rolling) ← window_sums new bs s window full_window;
  let adler := adler_pack sums in
  match_block ← delta_find_match window adler full_window sig index chain_next mask seed;
  if negb (match_block =? DELTA_NO_BLOCK) then
    '(instrs, capacity) ←
       (if c_has_literal s
        then flush_literal (c_instrs s) (c_capacity s) new (c_literal_start s) i
        else Ret (c_instrs s, c_capacity s));
    capacity ← ensure_capacity capacity (zlen instrs);
    instrs ← push_instr instrs capacity (InstrMatch match_block 0 window_len);
    Ret (CState (u64 (i + window_len)) sums false false (c_literal_start s) instrs capacity)
  else
    Ret (CState (u64 (i + 1)) sums rolling true
           (if c_has_literal s then c_literal_start s else i) (c_instrs s) (c_capacity s)).

Fixpoint compute_loop (fuel : nat) (new : list byte) (nsize : Z) (sig : DeltaSignature) (bs : Z)
    (index : option (list Z)) (chain_next mask seed : Z) (s : cstate) : outcome cstate :=
  if c_i s <? nsize then
    match fuel with
    | O => Stuck
    | S fuel =>
        s ← compute_step new nsize sig bs index chain_next mask seed s;
        compute_loop fuel new nsize sig bs index chain_next mask seed s
    end
  else Ret s.

(** The loop that accounts [delta_size]. *)
Definition size_step (ins : DeltaInstruction) (dsize : Z) : outcome Z :=
  check (negb (dsize =? UINT64_MAX));;
  let dsize := u64 (dsize + 1) in
  match ins with
  | InstrMatch _ _ _ =>
      check (negb (dsize >? UINT64_MAX - 4 * 3));;
      Ret (u64 (dsize + 4 * 3))
  | InstrLiteral _ len =>
      let extra := u64 (4 + len) in
      check (negb (dsize >? UINT64_MAX - extra));;
      Ret (u64 (dsize + extra))
  end.

(** delta.c [delta_compute_seeded] *)
Definition delta_compute_seeded (new_file_data : option (list byte)) (nsize : Z)
    (sig : option DeltaSignature) (bs seed : Z) : outcome Delta :=
  new ← of_option new_file_data;
  sig ← of_option sig;
  check (negb (negb (bool_decide (is_Some (blocks sig))) || (nsize =? 0) || (bs =? 0)
               || (bs >? DELTA_BLOCK_SIZE_MAX) || negb (block_size sig =? bs)));;
  let capacity := 64 in
  check (protocol_alloc (capacity * sizeof_DeltaInstruction));;
  '(index, chain_next, mask) ←
     (if block_count sig >? 0 then
        let bucket_count := delta_next_pow2 (block_count sig) in
        match delta_build_index sig bucket_count with
        | Ret index => Ret (Some index, u32 (2 * bucket_count), u32 (bucket_count - 1))
        | Fail => Ret (None, 0, 0)
        | Stuck => Stuck
        end
      else Ret (None, 0, 0));
  s ← compute_loop (Z.to_nat nsize) new nsize sig bs index chain_next mask seed
        (CState 0 (1, 0) false false 0 [] capacity);
  '(instrs, capacity) ←
     (if c_has_literal s
      then flush_literal (c_instrs s) (c_capacity s) new (c_literal_start s) nsize
      else Ret (c_instrs s, c_capacity s));
  check (protocol_alloc sizeof_Delta);;
  dsize ← foldM size_step instrs 0;
  Ret (MkDelta nsize (zlen instrs) (Some instrs) dsize).

(** delta.c [delta_compute] *)
Definition delta_compute (new_file_data : option (list byte)) (nsize : Z)
    (sig : option DeltaSignature) (bs : Z) : outcome Delta :=
  delta_compute_seeded new_file_data nsize sig bs 0.

(** ** The rolling checksum *)

Definition bsum (l : list byte) : Z := foldr (fun b s => bZ b + s) 0 l.
Fixpoint wsum (l : list byte) : Z :=
  match l with [] => 0 | b :: l' => zlen l * bZ b + wsum l' end.

Lemma mod_shift a b k : a = b + k * DELTA_ADLER32_MODULUS ->
  a mod DELTA_ADLER32_MODULUS = b mod DELTA_ADLER32_MODULUS.
Proof. intros ->. apply Z_mod_plus_full. Qed.

Lemma bsum_app l k : bsum (l ++ k) = bsum l + bsum k.
Proof. induction l as [|b l IH]; simpl; [done|]. unfold bsum in *; simpl. lia. Qed.

Lemma wsum_snoc l b : wsum (l ++ [b]) = wsum l + bsum l + bZ b.
Proof.
  induction l as [|c l IH]; [cbn [wsum app]; unfold bsum, zlen; cbn [foldr length]; lia|].
  simpl. rewrite IH. unfold bsum at 2; simpl; fold (bsum l).
  unfold zlen; simpl; rewrite length_app; simpl. lia.
Qed.

(** The two sums of Adler-32 in closed form. *)
Lemma adler_fold_closed l a c :
  0 <= a < DELTA_ADLER32_MODULUS -> 0 <= c < DELTA_ADLER32_MODULUS ->
  fold_left adler_step l (a, c)
  = ((a + bsum l) mod DELTA_ADLER32_MODULUS,
     (c + zlen l * a + wsum l) mod DELTA_ADLER32_MODULUS).
Proof.
  unfold DELTA_ADLER32_MODULUS at 1 2. revert a c. induction l as [|b l IH]; intros a c Ha Hc.
  { simpl. unfold zlen, bsum; simpl. unfold DELTA_ADLER32_MODULUS. rewrite !Z.mod_small by lia. f_equal; lia. }
  pose proof (bZ_range b). cbn [fold_left]. unfold adler_step at 2. simpl.
  unfold DELTA_ADLER32_MODULUS at 1 2 3.
  rewrite (u32_small (a + bZ b)) by lia.
  pose proof (Z.mod_pos_bound (a + bZ b) 65521 ltac:(lia)).
  pose proof (Z.div_mod (a + bZ b) 65521 ltac:(lia)) as D1.
  set (s1 := (a + bZ b) mod 65521) in *. set (q1 := (a + bZ b) / 65521) in *.
  rewrite u32_small by lia.
  pose proof (Z.div_mod (c + s1) 65521 ltac:(lia)) as D2.
  pose proof (Z.mod_pos_bound (c + s1) 65521 ltac:(lia)).
  set (s2 := (c + s1) mod 65521) in *. set (q2 := (c + s1) / 65521) in *.
  rewrite IH by lia. assert (Hz : zlen (b :: l) = zlen l + 1) by (unfold zlen; simpl; lia).
  f_equal.
  - apply (mod_shift _ _ (- q1)). unfold bsum, DELTA_ADLER32_MODULUS; simpl. lia.
  - rewrite Hz. apply (mod_shift _ _ (- q2 - q1 - zlen l * q1)). unfold DELTA_ADLER32_MODULUS.
    replace s1 with (a + bZ b - 65521 * q1) by lia. nia.
Qed.

Lemma roll_spec bs o m n :
  bs = zlen (o :: m) -> 0 < bs <= DELTA_BLOCK_SIZE_MAX ->
  roll bs o n (fold_left adler_step (o :: m) (1, 0)) = fold_left adler_step (m ++ [n]) (1, 0).
Proof.
  unfold DELTA_BLOCK_SIZE_MAX. intros Hbs Hr.
  assert (R : forall z, 0 <= z < 65521 -> 0 <= z < DELTA_ADLER32_MODULUS) by done.
  rewrite !adler_fold_closed by (apply R; lia). clear R.
  pose proof (bZ_range o). pose proof (bZ_range n).
  assert (Hm : zlen (m ++ [n]) = bs) by (rewrite Hbs, zlen_app; unfold zlen; simpl; lia).
  rewrite Hm, <- Hbs, wsum_snoc, bsum_app. unfold roll. cbn [fst snd].
  assert (E1 : bsum (o :: m) = bZ o + bsum m) by done.
  assert (E2 : wsum (o :: m) = bs * bZ o + wsum m) by (by rewrite Hbs).
  assert (E3 : bsum [n] = bZ n) by (unfold bsum; simpl; lia).
  rewrite E1, E2, E3, (u64_small (bs * bZ o)) by nia. clear E1 E2 E3 Hm Hbs.
  set (S := bsum m) in *. set (W := wsum m) in *.
  assert (Hs1 : u32 ((1 + (bZ o + S)) mod DELTA_ADLER32_MODULUS + DELTA_ADLER32_MODULUS - bZ o + bZ n)
                mod DELTA_ADLER32_MODULUS = (1 + (S + bZ n)) mod DELTA_ADLER32_MODULUS).
  { pose proof (Z.mod_pos_bound (1 + (bZ o + S)) DELTA_ADLER32_MODULUS ltac:(done)).
    pose proof (Z.div_mod (1 + (bZ o + S)) DELTA_ADLER32_MODULUS ltac:(done)).
    set (q := (1 + (bZ o + S)) / DELTA_ADLER32_MODULUS) in *. unfold DELTA_ADLER32_MODULUS in *.
    rewrite u32_small by lia. apply (mod_shift _ _ (1 - q)). unfold DELTA_ADLER32_MODULUS. lia. }
  rewrite Hs1. f_equal.
  pose proof (Z.mod_pos_bound (1 + (S + bZ n)) DELTA_ADLER32_MODULUS ltac:(done)).
  pose proof (Z.div_mod (1 + (S + bZ n)) DELTA_ADLER32_MODULUS ltac:(done)).
  pose proof (Z.mod_pos_bound (0 + bs * 1 + (bs * bZ o + W)) DELTA_ADLER32_MODULUS ltac:(done)).
  pose proof (Z.div_mod (0 + bs * 1 + (bs * bZ o + W)) DELTA_ADLER32_MODULUS ltac:(done)).
  pose proof (Z.mod_pos_bound (bs * bZ o) DELTA_ADLER32_MODULUS ltac:(done)).
  pose proof (Z.div_mod (bs * bZ o) DELTA_ADLER32_MODULUS ltac:(done)).
  set (q1 := (1 + (S + bZ n)) / _) in *. set (r1 := (1 + (S + bZ n)) mod _) in *.
  set (q2 := (0 + _ + _) / _) in *. set (r2 := (0 + _ + _) mod _) in *.
  set (q3 := (bs * bZ o) / _) in *. set (r3 := (bs * bZ o) mod _) in *.
  clearbody q1 r1 q2 r2 q3 r3. unfold DELTA_ADLER32_MODULUS in *.
  rewrite u32_small by lia.
  apply (mod_shift _ _ (1 - q2 + q3 - q1)). unfold DELTA_ADLER32_MODULUS. lia.
Qed.

(** ** The loop against the meaning of the delta *)

Lemma instrs_out_snoc old bs l i a b :
  instrs_out old bs l = Some a -> instr_out old bs i = Some b ->
  instrs_out old bs (l ++ [i]) = Some (a ++ b).
Proof.
  revert a. induction l as [|x l IH]; simpl; intros a Ha Hi.
  - injection Ha as <-. rewrite Hi. simpl. by rewrite app_nil_r.
  - destruct (instr_out old bs x) as [c|]; simpl in *; [|done].
    destruct (instrs_out old bs l) as [e|]; simpl in *; [|done]. injection Ha as <-.
    rewrite (IH e) by done. simpl. by rewrite app_assoc.
Qed.

Lemma take_take_drop {A} (l : list A) a b :
  0 <= a -> 0 <= b -> take (Z.to_nat a) l ++ take (Z.to_nat b) (drop (Z.to_nat a) l)
                      = take (Z.to_nat (a + b)) l.
Proof. intros. rewrite take_take_drop. f_equal. lia. Qed.

(** With at most 2^19 instructions the array can grow. *)
Lemma ensure_capacity_spec capacity count :
  heap_serves (2 ^ 30) -> 0 < capacity <= 2 ^ 20 -> 0 <= count <= capacity -> count <= 2 ^ 19 ->
  exists cap, ensure_capacity capacity count = Ret cap /\ count < cap <= 2 ^ 20.
Proof.
  intros Hs Hc Hn Hm. unfold ensure_capacity, MAX_DELTA_INSTRUCTIONS, sizeof_DeltaInstruction.
  destruct (Z.ltb_spec count capacity); [exists capacity; split; [done|lia]|].
  change (1024 * 1024 / 2) with (2 ^ 19). destruct (Z.gtb_spec capacity (2 ^ 19)); [lia|]. simpl.
  rewrite u32_small by lia. rewrite protocol_realloc_alloc, (heap_serves_alloc _ _ Hs) by lia.
  exists (capacity * 2). split; [done|lia].
Qed.

Lemma push_instr_ret instrs cap ins :
  zlen instrs < cap -> push_instr instrs cap ins = Ret (instrs ++ [ins]).
Proof. intros. unfold push_instr. destruct (Z.ltb_spec (zlen instrs) cap); [done|lia]. Qed.

(** The window of the new file at [i], and the no-collision hypothesis: where
    both checksums of a full window and of a block agree, so do the bytes. *)
Definition win (new : list byte) (bs i : Z) : list byte :=
  take (Z.to_nat bs) (drop (Z.to_nat i) new).

Definition no_collision (old new : list byte) (bs seed : Z) : Prop :=
  Forall (fun i => Forall (fun j =>
    delta_adler32 (block_at old bs j) = delta_adler32 (win new bs i) ->
    XXH32 (block_at old bs j) seed = XXH32 (win new bs i) seed ->
    block_at old bs j = win new bs i)
    (seqZ 0 ((zlen old + bs - 1) / bs))) (seqZ 0 (zlen new - bs + 1)).

Lemma win_shift new bs i :
  0 < bs -> 1 <= i -> i + bs <= zlen new ->
  exists o m n, ld new (i - 1) = Ret o /\ ld new (i + bs - 1) = Ret n /\
    win new bs (i - 1) = o :: m /\ win new bs i = m ++ [n].
Proof.
  intros Hbs Hi Hn. destruct (ld_total new (i - 1)) as [o Ho]; [lia|].
  destruct (ld_total new (i + bs - 1)) as [n Hln]; [lia|].
  exists o, (take (Z.to_nat (bs - 1)) (drop (Z.to_nat i) new)), n. split_and!; [done..| |].
  - apply ld_ret_inv in Ho as [_ Ho]. unfold win. rewrite (drop_S _ o) by done.
    replace (Z.to_nat bs) with (S (Z.to_nat (bs - 1))) by lia. simpl. f_equal.
    by replace (S (Z.to_nat (i - 1))) with (Z.to_nat i) by lia.
  - apply ld_ret_inv in Hln as [_ Hln]. unfold win.
    replace (Z.to_nat bs) with (S (Z.to_nat (bs - 1))) by lia.
    apply take_S_r. rewrite lookup_drop. rewrite <- Hln. f_equal. lia.
Qed.

Lemma zlen_win new bs i : 0 <= bs -> 0 <= i -> i + bs <= zlen new -> zlen (win new bs i) = bs.
Proof. intros. apply zlen_take_drop; lia. Qed.

(** The instructions emitted so far describe the first [k] bytes of the new
    file, and there are at most two per block-sized step. *)
Record instrs_ok (old new : list byte) (bs k : Z) (instrs : list DeltaInstruction) (cap : Z) : Prop := {
  io_out : instrs_out old bs instrs = Some (take (Z.to_nat k) new);
  io_wf : Forall instr_wf instrs;
  io_exact : Forall instr_exact instrs;
  io_cap : 0 < cap <= 2 ^ 20 /\ zlen instrs <= cap;
}.

Lemma instrs_ok_snoc old new bs k k' instrs cap ins :
  instrs_ok old new bs k instrs cap -> 0 <= k <= k' -> zlen instrs < cap ->
  instr_wf ins -> instr_exact ins ->
  instr_out old bs ins = Some (take (Z.to_nat (k' - k)) (drop (Z.to_nat k) new)) ->
  instrs_ok old new bs k' (instrs ++ [ins]) cap.
Proof.
  intros [Ho Hw He Hc] Hk Hlt Hiw Hie Hio. split.
  - rewrite (instrs_out_snoc _ _ _ _ _ _ Ho Hio), take_take_drop by lia. do 2 f_equal. lia.
  - apply Forall_app; auto.
  - apply Forall_app; auto.
  - rewrite zlen_app. unfold zlen at 2; simpl. lia.
Qed.

Lemma instrs_ok_cap old new bs k instrs cap cap' :
  instrs_ok old new bs k instrs cap -> zlen instrs < cap' <= 2 ^ 20 ->
  instrs_ok old new bs k instrs cap'.
Proof. intros [Ho Hw He Hc] Hc'. pose proof (zlen_nonneg instrs). split; try done. lia. Qed.

Lemma flush_literal_spec old new bs start e instrs cap :
  heap_serves (2 ^ 30) -> zlen new <= DELTA_MAX_FILE_SIZE ->
  instrs_ok old new bs start instrs cap -> 0 <= start < e -> e <= zlen new -> zlen instrs <= 2 ^ 19 ->
  exists instrs' cap', flush_literal instrs cap new start e = Ret (instrs', cap') /\
    instrs_ok old new bs e instrs' cap' /\ zlen instrs' = zlen instrs + 1.
Proof.
  unfold DELTA_MAX_FILE_SIZE. intros Hs Hn Hok Hst He Hm. pose proof (io_cap _ _ _ _ _ _ Hok) as Hc.
  unfold flush_literal, UINT32_MAX, MAX_DELTA_INSTRUCTIONS. pose proof (zlen_nonneg instrs).
  destruct (Z.geb_spec start e); [lia|]. destruct (Z.gtb_spec (e - start) (2 ^ 32 - 1)); [lia|].
  destruct (Z.geb_spec (zlen instrs) (1024 * 1024)); [lia|]. simpl check. simpl mbind.
  destruct (ensure_capacity_spec cap (zlen instrs)) as (cap'&->&Hc'); [done|lia..|]. simpl.
  rewrite u32_small by lia. rewrite (heap_serves_alloc _ _ Hs) by lia. simpl.
  rewrite rd_ret by lia. simpl. rewrite push_instr_ret by lia. simpl.
  eexists _, cap'. split; [done|]. split; [|rewrite zlen_app; done].
  assert (zlen (take (Z.to_nat (e - start)) (drop (Z.to_nat start) new)) = e - start)
    by (apply zlen_take_drop; lia).
  apply instrs_ok_snoc with start; try (done || lia); simpl; try lia.
  - by apply instrs_ok_cap with cap.
  - f_equal. rewrite take_ge; [done|]. unfold zlen in *. lia.
Qed.

Section Pipeline.
Context (old new : list byte) (bs seed : Z).
Context (Hbs : 0 < bs <= DELTA_BLOCK_SIZE_MAX).
Context (Hold : 0 < zlen old <= DELTA_MAX_FILE_SIZE) (Hnew : 0 < zlen new <= DELTA_MAX_FILE_SIZE).
Context (Hcount : 2 * zlen new <= bs * 2 ^ 19).
Context (Hheap : heap_serves (2 ^ 30)).
Context (Hcoll : no_collision old new bs seed).

(** The signature of the basis file, as [delta_signature_create_seeded] makes it. *)
Definition old_blocks : list DeltaBlockSig :=
  (fun j : nat => block_sig (block_at old bs (Z.of_nat j)) seed)
  <$> seq 0 (Z.to_nat ((zlen old + bs - 1) / bs)).
Definition old_sig : DeltaSignature :=
  MkSignature (zlen old) bs ((zlen old + bs - 1) / bs) (Some old_blocks).

Lemma old_count : 0 < (zlen old + bs - 1) / bs <= 2 ^ 28.
Proof.
  unfold DELTA_MAX_FILE_SIZE in *. split; [apply Z.div_str_pos; lia|].
  apply Z.div_le_upper_bound; nia.
Qed.

Lemma zlen_old_blocks : zlen old_blocks = (zlen old + bs - 1) / bs.
Proof. pose proof old_count. unfold zlen at 1, old_blocks. rewrite length_fmap, length_seq. lia. Qed.

Lemma old_blocks_lookup j :
  0 <= j < (zlen old + bs - 1) / bs ->
  old_blocks !! Z.to_nat j = Some (block_sig (block_at old bs j) seed).
Proof.
  intros Hj. unfold old_blocks. rewrite list_lookup_fmap, lookup_seq_lt by lia. simpl.
  by rewrite Z2Nat.id by lia.
Qed.

(** The lookup structure in use, indexed or not, behaves like the linear scan. *)
Definition lookup_ok (index : option (list Z)) (next mask : Z) : Prop :=
  forall window adler full,
    delta_find_match window adler full old_sig index next mask seed
    = delta_find_match window adler full old_sig None 0 0 seed.

Lemma find_match_sound index next mask full i :
  lookup_ok index next mask -> 0 <= i -> (full = true -> i + bs <= zlen new) ->
  exists j, delta_find_match (win new bs i) (delta_adler32 (win new bs i)) full old_sig
              index next mask seed = Ret j /\
    (j = DELTA_NO_BLOCK \/
     full = true /\ 0 <= j < 2 ^ 28 /\ j * bs + bs <= zlen old /\ block_at old bs j = win new bs i).
Proof.
  intros Hl Hi Hf. pose proof old_count. rewrite Hl, (find_match_linear old_blocks) by (done || by rewrite zlen_old_blocks).
  eexists; split; [done|]. destruct full; [|by left]. specialize (Hf eq_refl).
  set (j := first_hit _ _ _ _ _). destruct (decide (j = DELTA_NO_BLOCK)) as [|Hne]; [by left|right].
  destruct (first_hit_sound old_blocks _ _ _ j eq_refl Hne) as [Hr Hh]. rewrite zlen_old_blocks in Hr.
  unfold hit in Hh. rewrite old_blocks_lookup in Hh by done. destruct Hh as [Ha Hx]. simpl in Ha, Hx.
  assert (Heq : block_at old bs j = win new bs i).
  { unfold no_collision in Hcoll. rewrite Forall_forall in Hcoll.
    specialize (Hcoll i ltac:(apply elem_of_seqZ; lia)). rewrite Forall_forall in Hcoll.
    apply Hcoll; [apply elem_of_seqZ; lia|done..]. }
  pose proof (Z.div_mod (zlen old + bs - 1) bs ltac:(lia)).
  pose proof (Z.mod_pos_bound (zlen old + bs - 1) bs ltac:(lia)).
  pose proof (block_at_length old bs j ltac:(lia) ltac:(lia) ltac:(nia)) as Hlen.
  rewrite Heq, zlen_win in Hlen by lia. split_and!; [done|lia|lia|lia|done].
Qed.

(** ** The loop invariant *)

Definition cut (s : cstate) : Z := if c_has_literal s then c_literal_start s else c_i s.

Record cinv (s : cstate) : Prop := {
  ci_i : 0 <= c_i s <= zlen new;
  ci_cut : 0 <= cut s <= c_i s /\ (c_has_literal s = true -> cut s < c_i s);
  ci_instrs : instrs_ok old new bs (cut s) (c_instrs s) (c_capacity s);
  ci_count : zlen (c_instrs s) * bs <= 2 * cut s;
  ci_roll : c_rolling s = true -> 1 <= c_i s /\ c_i s - 1 + bs <= zlen new /\
            c_sums s = fold_left adler_step (win new bs (c_i s - 1)) (1, 0);
}.

Lemma window_sums_spec s full :
  cinv s -> (full = true -> c_i s + bs <= zlen new) ->
  window_sums new bs s (win new bs (c_i s)) full
  = Ret (fold_left adler_step (win new bs (c_i s)) (1, 0), full).
Proof.
  intros Hs Hf. unfold window_sums. destruct (c_rolling s) eqn:Er, full; simpl; try done.
  destruct (ci_roll s Hs Er) as (H1&H2&H3). specialize (Hf eq_refl).
  destruct (win_shift new bs (c_i s)) as (o&m&n&->&->&Hw&->); [lia..|]. simpl.
  rewrite H3, Hw, roll_spec; [done| |done].
  rewrite <- Hw. symmetry. apply zlen_win; lia.
Qed.

Lemma read_window i :
  0 <= i < zlen new ->
  exists len, u32 (if zlen new - i <? bs then zlen new - i else bs) = len /\
    rd new i len = Ret (win new bs i) /\ (len =? bs = true -> i + bs <= zlen new) /\ len <= bs.
Proof.
  unfold DELTA_MAX_FILE_SIZE, DELTA_BLOCK_SIZE_MAX in *. intros Hi.
  set (len := if _ : bool then _ else _).
  assert (Hl : len = Z.min bs (zlen new - i)).
  { subst len. destruct (Z.ltb_spec (zlen new - i) bs); lia. }
  rewrite u32_small by lia. exists len. split; [done|]. rewrite Hl. split_and!; [|intros ?%Z.eqb_eq; lia|lia].
  rewrite rd_ret by lia. f_equal. unfold win, zlen in *.
  destruct (Z.le_ge_cases bs (Z.of_nat (length new) - i)); [by rewrite Z.min_l|].
  rewrite !take_ge by (rewrite length_drop; lia). done.
Qed.

(** A pending literal is flushed, if there is one. *)
Lemma flush_pending s e :
  cinv s -> e = c_i s ->
  exists instrs cap,
    (if c_has_literal s then flush_literal (c_instrs s) (c_capacity s) new (c_literal_start s) e
     else Ret (c_instrs s, c_capacity s)) = Ret (instrs, cap) /\
    instrs_ok old new bs e instrs cap /\ zlen instrs <= 2 ^ 19 + 1 /\
    zlen instrs * bs <= 2 * cut s + bs.
Proof.
  unfold DELTA_MAX_FILE_SIZE in *. intros [Hi [Hc1 Hc2] Hok Hcnt _] ->.
  assert (zlen (c_instrs s) <= 2 ^ 19) by nia.
  unfold cut in *. destruct (c_has_literal s).
  - destruct (flush_literal_spec old new bs (c_literal_start s) (c_i s) (c_instrs s) (c_capacity s))
      as (instrs&cap&E&Hok'&Hz); [done|unfold DELTA_MAX_FILE_SIZE; lia|done|specialize (Hc2 eq_refl); lia|lia|lia|].
    exists instrs, cap. split_and!; [done..|lia|nia].
  - exists (c_instrs s), (c_capacity s). split_and!; [done..|lia|lia].
Qed.

Lemma compute_step_spec index next mask s :
  lookup_ok index next mask -> cinv s -> c_i s < zlen new ->
  exists s', compute_step new (zlen new) old_sig bs index next mask seed s = Ret s' /\
    cinv s' /\ c_i s < c_i s'.
Proof.
  intros Hl Hs Hlt. pose proof Hs as [Hi [Hc1 Hc2] Hok Hcnt Hroll]. unfold compute_step.
  destruct (read_window (c_i s)) as (len&->&->&Hfull&Hle); [lia|]. simpl.
  rewrite window_sums_spec by done. simpl.
  change (adler_pack (fold_left adler_step (win new bs (c_i s)) (1, 0)))
    with (delta_adler32 (win new bs (c_i s))).
  destruct (find_match_sound index next mask (len =? bs) (c_i s)) as (j&->&Hj); [done|lia|done|]. simpl.
  unfold DELTA_MAX_FILE_SIZE, DELTA_BLOCK_SIZE_MAX in *.
  destruct (Z.eqb_spec j DELTA_NO_BLOCK) as [->|Hne]; simpl.
  - eexists; split; [done|]. rewrite u64_small by lia. split; [|simpl; lia].
    assert (Hcut : forall a b c e f, cut (CState a b c true (if c_has_literal s then c_literal_start s else c_i s) e f) = cut s)
      by (intros; unfold cut; by destruct (c_has_literal s)).
    split; simpl; rewrite ?Hcut; try done; try lia.
    { intros E%Hfull. replace (c_i s + 1 - 1) with (c_i s) by lia. split_and!; [lia..|done]. }
  - destruct Hj as [|(Hf&Hj&Hjo&Hb)]; [done|]. specialize (Hfull Hf). apply Z.eqb_eq in Hf as ->.
    destruct (flush_pending s (c_i s)) as (instrs&cap&->&Hok'&Hz&Hcnt'); [done..|]. simpl.
    pose proof (io_cap _ _ _ _ _ _ Hok') as Hcap. pose proof (zlen_nonneg instrs).
    assert (zlen instrs <= 2 ^ 19) by nia.
    destruct (ensure_capacity_spec cap (zlen instrs)) as (cap'&->&Hc'); [done|lia..|]. simpl.
    rewrite push_instr_ret by lia. simpl. eexists; split; [done|]. rewrite u64_small by lia.
    split; [|simpl; lia]. split; simpl; try done; unfold cut; simpl; try lia.
    + apply instrs_ok_snoc with (c_i s); try lia; [by apply instrs_ok_cap with cap|simpl; lia|done|].
      simpl. rewrite bool_decide_eq_true_2 by lia. f_equal.
      replace (c_i s + bs - c_i s) with bs by lia. rewrite Z.add_0_r. exact Hb.
    + rewrite zlen_app. unfold zlen at 2; simpl. nia.
Qed.

Lemma compute_loop_spec index next mask fuel s :
  lookup_ok index next mask -> cinv s -> zlen new - c_i s <= Z.of_nat fuel ->
  exists s', compute_loop fuel new (zlen new) old_sig bs index next mask seed s = Ret s' /\
    cinv s' /\ c_i s' = zlen new.
Proof.
  intros Hl. revert s. induction fuel as [|fuel IH]; intros s Hs Hf; simpl;
    destruct (Z.ltb_spec (c_i s) (zlen new)).
  - lia.
  - exists s. split_and!; [done..|]. destruct Hs. lia.
  - destruct (compute_step_spec index next mask s) as (s1&->&Hs1&Hlt); [done..|]. simpl.
    apply IH; [done|lia].
  - exists s. split_and!; [done..|]. destruct Hs. lia.
Qed.

Lemma size_loop_spec l a :
  Forall instr_wf l -> 0 <= a -> a + instrs_size l < 2 ^ 64 ->
  foldM size_step l a = Ret (a + instrs_size l).
Proof.
  intros Hl. revert a. induction Hl as [|i l Hi Hl IH]; intros a Ha Hm; simpl.
  { by rewrite Z.add_0_r. }
  pose proof (instrs_size_bounds l Hl). pose proof (instr_size_pos i Hi) as Hp.
  unfold instrs_size in Hm |- *; simpl in Hm |- *; fold (instrs_size l) in Hm |- *.
  assert (size_step i a = Ret (a + instr_size i)) as ->.
  { unfold size_step, UINT64_MAX. destruct (Z.eqb_spec a (2 ^ 64 - 1)); [lia|]. simpl.
    rewrite (u64_small (a + 1)) by lia. change (4 * 3) with 12.
    destruct i as [bi bo len|lit len]; simpl in *.
    - destruct (Z.gtb_spec (a + 1) (2 ^ 64 - 1 - 12)); [lia|]. simpl. rewrite u64_small by lia. f_equal. lia.
    - rewrite (u64_small (4 + len)) by lia.
      destruct (Z.gtb_spec (a + 1) (2 ^ 64 - 1 - (4 + len))); [lia|]. simpl. rewrite u64_small by lia. f_equal. lia. }
  simpl. rewrite IH by lia. f_equal. lia.
Qed.

Lemma instrs_size_out l o :
  Forall instr_wf l -> instrs_out old bs l = Some o -> instrs_size l <= 13 * zlen l + zlen o.
Proof.
  intros Hl. revert o. induction Hl as [|i l Hi Hl IH]; intros o Ho; [pose proof (zlen_nonneg o); done|].
  simpl in Ho. destruct (instr_out old bs i) as [a|] eqn:Ei; simpl in Ho; [|done].
  destruct (instrs_out old bs l) as [b|]; simpl in Ho; [|done]. injection Ho as <-.
  specialize (IH b eq_refl). rewrite zlen_app. pose proof (zlen_nonneg a).
  assert (zlen (i :: l) = 1 + zlen l) as -> by (unfold zlen; simpl; lia).
  unfold instrs_size; simpl; fold (instrs_size l). destruct i as [bi bo len|lit len]; simpl in *; [lia|].
  injection Ei as <-. rewrite zlen_take_le in * by lia. lia.
Qed.

Lemma lookup_ok_linear : lookup_ok None 0 0.
Proof. done. Qed.

(** The lookup structure [delta_compute_seeded] sets up. *)
Lemma lookup_setup :
  exists index next mask,
    (if block_count old_sig >? 0 then
       let bucket_count := delta_next_pow2 (block_count old_sig) in
       match delta_build_index old_sig bucket_count with
       | Ret index => Ret (Some index, u32 (2 * bucket_count), u32 (bucket_count - 1))
       | Fail => Ret (None, 0, 0)
       | Stuck => Stuck
       end
     else Ret (None, 0, 0)) = Ret (index, next, mask) /\ lookup_ok index next mask.
Proof.
  pose proof old_count as Hc. simpl block_count.
  destruct (Z.gtb_spec ((zlen old + bs - 1) / bs) 0); [|lia].
  pose proof (next_pow2_bounds ((zlen old + bs - 1) / bs) ltac:(lia)) as Hb. cbv zeta.
  assert (Hns : delta_build_index old_sig (delta_next_pow2 ((zlen old + bs - 1) / bs)) <> Stuck).
  { apply (delta_build_index_not_stuck old_blocks); rewrite ?zlen_old_blocks; done || lia. }
  destruct (delta_build_index _ _) as [index| |] eqn:E; [| |done].
  - eexists _, _, _. split; [done|]. intros w a full. rewrite (u32_small (2 * _)) by lia.
    apply (find_match_indexed old_blocks); [lia|done|by rewrite zlen_old_blocks|].
    apply (delta_build_index_inv old_blocks) with old_sig;
      rewrite ?zlen_old_blocks; done || lia.
  - eexists _, _, _. split; [done|]. apply lookup_ok_linear.
Qed.

Lemma cinv_init : cinv (CState 0 (1, 0) false false 0 [] 64).
Proof.
  pose proof (zlen_nonneg new).
  split; unfold cut; simpl; try lia; done.
Qed.

(** The sender's computation succeeds and describes the new file. *)
Lemma delta_compute_spec :
  exists d l, delta_compute_seeded (Some new) (zlen new) (Some old_sig) bs seed = Ret d /\
    new_file_size d = zlen new /\ instr_list d l /\ Forall instr_wf l /\ Forall instr_exact l /\
    zlen l <= 2 ^ 19 + 1 /\ delta_size d = instrs_size l /\ instrs_out old bs l = Some new.
Proof.
  pose proof old_count. unfold DELTA_MAX_FILE_SIZE in *. unfold delta_compute_seeded. simpl.
  destruct (Z.eqb_spec (zlen new) 0); [lia|]. destruct (Z.eqb_spec bs 0); [lia|].
  destruct (Z.gtb_spec bs DELTA_BLOCK_SIZE_MAX); [lia|]. rewrite Z.eqb_refl. simpl.
  rewrite (heap_serves_alloc _ (64 * sizeof_DeltaInstruction) Hheap)
    by (unfold sizeof_DeltaInstruction; lia). simpl mbind.
  destruct lookup_setup as (index&next&mask&Hset&Hlk). simpl in Hset. rewrite Hset. simpl.
  destruct (compute_loop_spec index next mask (Z.to_nat (zlen new)) (CState 0 (1, 0) false false 0 [] 64))
    as (s&->&Hs&Hi); [done|apply cinv_init|simpl; lia|]. simpl.
  destruct (flush_pending s (zlen new)) as (l&cap&->&[Hout Hwf Hex _]&Hz&_); [done..|]. simpl.
  rewrite (heap_serves_alloc _ _ Hheap) by (unfold sizeof_Delta; lia). simpl.
  rewrite take_ge in Hout by (unfold zlen; lia).
  pose proof (instrs_size_out l new Hwf Hout). pose proof (instrs_size_bounds l Hwf).
  rewrite size_loop_spec by (done || lia). simpl. eexists _, l. split; [done|]. simpl.
  split_and!; try done. split; simpl; [done|]. destruct l; [|done]. injection Hout as E.
  rewrite <- E in Hnew. unfold zlen in Hnew; simpl in Hnew; lia.
Qed.

End Pipeline.

(** The whole exchange: the receiver signs its basis file, the signature
    travels, the sender computes the delta of the new file, the delta travels,
    the receiver applies it. *)
Definition delta_exchange (old new : list byte) (bs seed : Z) : outcome (list byte) :=
  sig ← delta_signature_create_seeded (Some old) (zlen old) bs seed;
  sig_wire ← delta_signature_serialize (Some sig);
  sig ← delta_signature_deserialize (Some sig_wire);
  delta ← delta_compute_seeded (Some new) (zlen new) (Some sig) bs seed;
  delta_wire ← delta_serialize (Some delta);
  delta ← delta_deserialize (Some delta_wire);
  delta_apply (Some old) (zlen old) (Some delta) bs.

Lemma old_sig_wf old bs seed :
  0 < bs <= DELTA_BLOCK_SIZE_MAX -> 0 < zlen old <= DELTA_MAX_FILE_SIZE ->
  signature_wf (old_sig old bs seed).
Proof.
  intros Hb Ho. split_and!; simpl; try lia. exists (old_blocks old bs seed).
  split; [done|]. rewrite zlen_old_blocks by done. split; [done|].
  unfold old_blocks. apply Forall_fmap, Forall_true. intros j. exact (block_sig_range (block_at old bs (Z.of_nat j)) seed).
Qed.

(** C1: delta transfer is correct end to end.  Whenever no block of the basis
    file and no full window of the new file collide on both checksums, the
    receiver that signs its file, sends the signature, gets back the delta the
    sender computed and applies it, ends up with exactly the new file: every
    stage succeeds, none reads or writes out of bounds.  The size hypotheses
    hold for every block size of at least [DELTA_BLOCK_SIZE_MIN] and files of at
    most [DELTA_MAX_FILE_SIZE]; the heap must serve requests up to 1 GiB. *)
Theorem delta_exchange_correct old new bs seed
    (Hbs : 0 < bs <= DELTA_BLOCK_SIZE_MAX)
    (Hold : 0 < zlen old <= DELTA_MAX_FILE_SIZE) (Hnew : 0 < zlen new <= DELTA_MAX_FILE_SIZE)
    (Hblocks : zlen old <= bs * MAX_DELTA_BLOCKS)
    (Hcount : 2 * zlen new <= bs * (MAX_DELTA_INSTRUCTIONS / 2))
    (Hheap : heap_serves (2 ^ 30)) (Hcoll : no_collision old new bs seed) :
  delta_exchange old new bs seed = Ret new.
Proof.
  pose proof (old_sig_wf old bs seed Hbs Hold) as Hwf.
  pose proof (signature_wf_count _ Hwf) as Hc. unfold DELTA_MAX_FILE_SIZE, DELTA_BLOCK_SIZE_MAX in *.
  assert (Hmax : block_count (old_sig old bs seed) <= MAX_DELTA_BLOCKS).
  { simpl. unfold MAX_DELTA_BLOCKS in *. apply Z.lt_succ_r, Z.div_lt_upper_bound; lia. }
  assert (Hmax' : (zlen old + bs - 1) / bs <= 2 ^ 20) by exact Hmax.
  assert (Hsub : forall n, n <= 2 ^ 30 -> heap_serves n) by (intros n Hn z Hz; apply Hheap; lia).
  unfold delta_exchange.
  rewrite signature_create_spec; [|done|done|apply Hsub; lia].
  fold (old_blocks old bs seed). fold (old_sig old bs seed). simpl mbind.
  rewrite signature_serialize_spec by (done || apply Hsub; simpl; lia). simpl mbind.
  rewrite (signature_deserialize_spec (old_sig old bs seed)); [|done|done|apply Hsub; simpl; lia|done|done].
  simpl mbind.
  destruct (delta_compute_spec old new bs seed) as (d&l&->&Hn&Hl&Hlw&Hex&Hz&Hds&Hout); try done.
  pose proof (instrs_size_out old bs l new Hlw Hout). pose proof (instrs_size_bounds l Hlw).
  pose proof (zlen_nonneg l).
  simpl mbind. rewrite (delta_serialize_spec d l); try done;
    [|unfold MAX_DELTA_INSTRUCTIONS; lia|apply Hsub; lia]. simpl mbind.
  rewrite (delta_deserialize_spec d l); try done;
    [|lia|unfold MAX_DELTA_INSTRUCTIONS; lia|apply Hsub; lia]. simpl mbind.
  rewrite (delta_apply_spec old bs d l); try done; try lia. rewrite Hn.
  unfold DELTA_MAX_FILE_SIZE. rewrite (heap_serves_alloc _ _ Hheap) by lia.
  destruct (Z.leb_spec (zlen new) (256 * 1024 * 1024)); [|lia]. simpl.
  unfold apply_spec. rewrite Hout, Hn, Z.eqb_refl. destruct (Z.eqb_spec (zlen new) 0); [lia|done].
Qed.

(** The rolling update is exact.  Moving the window by one byte with the
    two incremental formulas of [delta_compute_seeded] (in 32-bit arithmetic)
    gives the checksum a full recomputation of the new window gives, for every
    block size up to [DELTA_BLOCK_SIZE_MAX]. *)
Lemma rolling_checksum_exact (o n : byte) (m : list byte)
    (Hbs : zlen (o :: m) <= DELTA_BLOCK_SIZE_MAX) :
  adler_pack (roll (zlen (o :: m)) o n (fold_left adler_step (o :: m) (1, 0)))
  = delta_adler32 (m ++ [n]).
Proof.
  rewrite roll_spec; [done|done|]. unfold zlen in *; simpl in *; lia.
Qed.

End Compute.

Lemma delta_exchange_correct_witness :
  @delta_exchange heap0 xxh0 (cs "the quick brown fox jumps") (cs "the very quick brown fox") 4 7
  = Ret (cs "the very quick brown fox").
Proof.
  apply (@delta_exchange_correct heap0 xxh0); try done.
  unfold no_collision.
  repeat (apply Forall_cons_2; [repeat (apply Forall_cons_2; [vm_compute; congruence|]); apply Forall_nil_2|]).
  apply Forall_nil_2.
Defined.

