(* ===== verification/Queue.v ===== *)
(** The ring-buffer queue of src/shared/queue.c, used as FIFO between pipeline
    threads and as LIFO by the scanner, with its blocking multithreaded
    operations as a step relation over interleaved threads. *)

From S2P Require Import Prelude Alloc.

(** A [void*] cell of the item array: NULL, an item, or never written. *)
Inductive cell (A : Type) := CNull | CPtr (a : A) | CJunk.
Arguments CNull {A}.
Arguments CPtr {A} _.
Arguments CJunk {A}.

(** queue.h [Queue] *)
Record Queue (A : Type) := MkQueue {
  items : list (cell A);
  front : Z;
  rear : Z;
  q_size : Z;
  capacity : Z;
  item_destroyer : bool;   (** is a destroyer set *)
}.
Arguments MkQueue {A} _ _ _ _ _ _.
Arguments items {A} _.
Arguments front {A} _.
Arguments rear {A} _.
Arguments q_size {A} _.
Arguments capacity {A} _.
Arguments item_destroyer {A} _.

Definition sizeof_Queue : Z := 32.
Definition sizeof_ptr : Z := 8.

Section Queue.
Context `{Heap} {A : Type}.
Implicit Types q : Queue A.

(** queue.c [queue_create] *)
Definition queue_create (cap : Z) (destroyer : bool) : outcome (Queue A) :=
  check (negb (cap <=? 0));;
  check (malloc_ok sizeof_Queue);;
  check (malloc_ok (cap * sizeof_ptr));;
  Ret (MkQueue (replicate (Z.to_nat cap) CNull) 0 0 0 cap destroyer).

(** queue.c [queue_destroy]: the cells handed to the destroyer, in order. *)
Fixpoint destroy_from q (n : nat) (i : Z) : outcome (list (cell A)) :=
  match n with
  | O => Ret []
  | S n =>
      k ← int_ok (front q + i);
      c ← ld (items q) (Z.rem k (capacity q));
      rest ← destroy_from q n (i + 1);
      Ret (c :: rest)
  end.
Definition queue_destroy (oq : option (Queue A)) : outcome (list (cell A)) :=
  match oq with
  | None => Ret []
  | Some q => if item_destroyer q then destroy_from q (Z.to_nat (q_size q)) 0 else Ret []
  end.

(** queue.c [queue_is_empty], [queue_is_full] *)
Definition queue_is_empty (oq : option (Queue A)) : bool :=
  match oq with None => true | Some q => q_size q =? 0 end.
Definition queue_is_full (oq : option (Queue A)) : bool :=
  match oq with None => false | Some q => q_size q =? capacity q end.

(** The copy loop of [queue_double_capacity], from index [i] on. *)
Fixpoint copy_items q (n : nat) (i : Z) (new_items : list (cell A)) : outcome (list (cell A)) :=
  match n with
  | O => Ret new_items
  | S n =>
      k ← int_ok (i + front q);
      c ← ld (items q) (Z.rem k (capacity q));
      new_items ← st new_items i c;
      copy_items q n (i + 1) new_items
  end.

(** queue.c [queue_double_capacity] *)
Definition queue_double_capacity (oq : option (Queue A)) : outcome (Queue A) :=
  q ← of_option oq;
  check (negb (capacity q >? INT_MAX / 2));;
  new_capacity ← int_ok (capacity q * 2);
  let new_capacity := if new_capacity <=? 1 then 100 else new_capacity in
  check (malloc_ok (new_capacity * sizeof_ptr));;
  new_items ← copy_items q (Z.to_nat (q_size q)) 0 (replicate (Z.to_nat new_capacity) CJunk);
  Ret (MkQueue new_items 0 (q_size q) (q_size q) new_capacity (item_destroyer q)).

(** queue.c [queue_enqueue]; [item] is [None] for NULL. *)
Definition queue_enqueue (oq : option (Queue A)) (item : option A) : outcome (Queue A) :=
  q ← of_option oq;
  x ← of_option item;
  q ← (if queue_is_full (Some q) then queue_double_capacity (Some q) else Ret q);
  items' ← st (items q) (rear q) (CPtr x);
  r ← int_ok (rear q + 1);
  n ← int_ok (q_size q + 1);
  Ret (MkQueue items' (front q) (Z.rem r (capacity q)) n (capacity q) (item_destroyer q)).

(** queue.c [queue_dequeue]: the item (NULL included) and the queue after it. *)
Definition queue_dequeue (oq : option (Queue A)) : outcome (cell A * Queue A) :=
  q ← of_option oq;
  check (negb (queue_is_empty (Some q)));;
  item ← ld (items q) (front q);
  items' ← st (items q) (front q) CNull;
  f ← int_ok (front q + 1);
  Ret (item, MkQueue items' (Z.rem f (capacity q)) (rear q) (q_size q - 1) (capacity q)
               (item_destroyer q)).

(** queue.c [queue_push], [queue_pop] *)
Definition queue_push (oq : option (Queue A)) (item : option A) := queue_enqueue oq item.
Definition queue_pop (oq : option (Queue A)) : outcome (cell A * Queue A) :=
  q ← of_option oq;
  check (negb (queue_is_empty (Some q)));;
  k ← int_ok (rear q - 1 + capacity q);
  let r := Z.rem k (capacity q) in
  item ← ld (items q) r;
  items' ← st (items q) r CNull;
  Ret (item, MkQueue items' (front q) r (q_size q - 1) (capacity q) (item_destroyer q)).

(** ** The queue as a list

    [repr q l]: the ring buffer holds the items [l], oldest first. *)
Definition slot q (i : Z) : Z := (front q + i) mod capacity q.

Record repr q (l : list A) : Prop := {
  r_cap : 0 < capacity q <= INT_MAX;
  r_items : zlen (items q) = capacity q;
  r_front : 0 <= front q < capacity q;
  r_size : q_size q = zlen l /\ zlen l <= capacity q;
  r_rear : rear q = slot q (q_size q);
  r_cells : forall i x, l !! i = Some x -> ld (items q) (slot q (Z.of_nat i)) = Ret (CPtr x);
}.

Lemma slot_range q i : 0 < capacity q -> 0 <= slot q i < capacity q.
Proof. intros. by apply Z.mod_pos_bound. Qed.

Lemma slot_inj q i j :
  0 < capacity q -> 0 <= i < capacity q -> 0 <= j < capacity q -> slot q i = slot q j -> i = j.
Proof.
  unfold slot. intros Hc Hi Hj E.
  pose proof (Z.div_mod (front q + i) (capacity q) ltac:(lia)).
  pose proof (Z.div_mod (front q + j) (capacity q) ltac:(lia)).
  rewrite E in *. assert ((front q + i) / capacity q = (front q + j) / capacity q); [nia|lia].
Qed.

Lemma slot_0 q : 0 <= front q < capacity q -> slot q 0 = front q.
Proof. intros. unfold slot. rewrite Z.add_0_r. by apply Z.mod_small. Qed.

Lemma rem_mod_pos a b : 0 <= a -> 0 < b -> Z.rem a b = a mod b.
Proof. intros. apply Z.rem_mod_nonneg; lia. Qed.

Lemma queue_create_repr cap destroyer :
  0 < cap <= INT_MAX -> heap_serves (32 + cap * sizeof_ptr) ->
  exists q, queue_create cap destroyer = Ret q /\ repr q [] /\ capacity q = cap.
Proof.
  intros Hc Hs. unfold queue_create, sizeof_Queue, sizeof_ptr in *.
  destruct (Z.leb_spec cap 0); [lia|]. simpl.
  rewrite !(heap_serves_malloc _ _ Hs) by lia. simpl. eexists; split; [done|]. split; [|done].
  split; simpl; try done; try lia; unfold zlen; simpl; try rewrite length_replicate; try lia.
Qed.

Lemma repr_ld q l i :
  repr q l -> 0 <= i < zlen l -> exists x, l !! Z.to_nat i = Some x /\ ld (items q) (slot q i) = Ret (CPtr x).
Proof.
  intros Hq Hi. destruct (lookup_lt_is_Some_2 l (Z.to_nat i)) as [x Hx]; [unfold zlen in Hi; lia|].
  exists x. split; [done|]. rewrite <- (Z2Nat.id i) by lia. by apply (r_cells q l Hq).
Qed.

(** Copying into a fresh array keeps the order and starts at 0. *)
Lemma copy_items_spec q l n i new :
  repr q l -> capacity q <= INT_MAX / 2 -> 0 <= i -> i + Z.of_nat n = zlen l -> zlen l <= zlen new ->
  (forall j x, Z.of_nat j < i -> l !! j = Some x -> ld new (Z.of_nat j) = Ret (CPtr x)) ->
  exists new', copy_items q n i new = Ret new' /\ zlen new' = zlen new /\
    forall j x, l !! j = Some x -> ld new' (Z.of_nat j) = Ret (CPtr x).
Proof.
  intros Hq Hm. revert i new. induction n as [|n IH]; intros i new Hi Hn Hz Hdone; simpl.
  - exists new. split_and!; [done..|]. intros j x Hj. apply Hdone; [|done].
    apply lookup_lt_Some in Hj. unfold zlen in *. lia.
  - pose proof (r_cap q l Hq) as Hc. pose proof (r_front q l Hq). pose proof (r_size q l Hq).
    change (INT_MAX / 2) with (2 ^ 30 - 1) in Hm.
    rewrite int_ok_ret by lia. simpl. rewrite rem_mod_pos by lia.
    destruct (repr_ld q l i Hq) as (x&Hx&Hld); [lia|].
    rewrite (Z.add_comm i (front q)). fold (slot q i). rewrite Hld. simpl.
    rewrite st_ret by lia. simpl. destruct (IH (i + 1) (<[Z.to_nat i:=CPtr x]> new)) as (new'&E&Hl&Hf);
      [lia|lia|rewrite zlen_insert; lia| |].
    + intros j y Hj Hy. destruct (decide (Z.of_nat j = i)) as [<-|Hne].
      * rewrite Nat2Z.id in *. replace x with y by congruence.
        rewrite <- (Nat2Z.id j) at 1. apply ld_insert_eq. lia.
      * rewrite ld_insert_ne by lia. apply Hdone; [lia|done].
    + exists new'. rewrite zlen_insert in Hl. split_and!; [exact E|done..].
Qed.

Lemma queue_double_repr q l :
  repr q l -> capacity q <= INT_MAX / 2 -> malloc_ok (capacity q * 2 * sizeof_ptr) = true ->
  exists q', queue_double_capacity (Some q) = Ret q' /\ repr q' l /\ capacity q' = 2 * capacity q.
Proof.
  intros Hq Hm Ha. pose proof (r_cap q l Hq) as Hc. pose proof (r_size q l Hq) as [Hs1 Hs2].
  unfold queue_double_capacity. simpl. change (INT_MAX / 2) with (2 ^ 30 - 1) in *.
  destruct (Z.gtb_spec (capacity q) (2 ^ 30 - 1)); [lia|]. simpl.
  rewrite int_ok_ret by lia. simpl. destruct (Z.leb_spec (capacity q * 2) 1); [lia|].
  rewrite Ha. simpl. assert (Hr : zlen (replicate (Z.to_nat (capacity q * 2)) (@CJunk A)) = capacity q * 2).
  { unfold zlen. rewrite length_replicate. lia. }
  destruct (copy_items_spec q l (Z.to_nat (q_size q)) 0 (replicate (Z.to_nat (capacity q * 2)) CJunk))
    as (new&E&Hz&Hf); [done|change (INT_MAX / 2) with (2 ^ 30 - 1); lia|lia| |lia|intros; lia|];
    pose proof (zlen_nonneg l); [lia|]. rewrite E. simpl.
  eexists; split; [done|]. split; [|simpl; lia].
  assert (Hsl : forall i, 0 <= i < capacity q * 2 ->
    slot (MkQueue new 0 (q_size q) (q_size q) (capacity q * 2) (item_destroyer q)) i = i).
  { intros i Hi. unfold slot; simpl. by apply Z.mod_small. }
  split; simpl; try lia.
  - unfold INT_MAX. lia.
  - rewrite Hsl; lia.
  - intros i x Hi. rewrite Hsl; [by apply Hf|]. apply lookup_lt_Some in Hi. unfold zlen in *. lia.
Qed.

(** Adding at the rear of a queue that is not full. *)
Lemma enqueue_repr_room q l x :
  repr q l -> zlen l < capacity q ->
  exists q', queue_enqueue (Some q) (Some x) = Ret q' /\ repr q' (l ++ [x]) /\ capacity q' = capacity q.
Proof.
  intros Hq Hlt. pose proof Hq as [Hc Hi Hf [Hs1 Hs2] Hr Hcell]. unfold queue_enqueue. simpl.
  destruct (Z.eqb_spec (q_size q) (capacity q)); [lia|]. simpl.
  pose proof (slot_range q (q_size q) ltac:(lia)) as Hrr. rewrite <- Hr in Hrr.
  unfold INT_MAX in Hc. pose proof (zlen_nonneg l).
  rewrite st_ret by lia. simpl. rewrite (int_ok_ret (rear q + 1)) by lia. simpl.
  rewrite (int_ok_ret (q_size q + 1)) by lia. simpl.
  eexists; split; [done|]. split; [|done]. split; simpl; try done.
  - by rewrite zlen_insert.
  - rewrite zlen_app. change (zlen [x]) with 1. lia.
  - rewrite rem_mod_pos by lia. rewrite Hr. unfold slot; simpl.
    rewrite Zplus_mod_idemp_l. f_equal. lia.
  - intros i y Hy. change (slot _ (Z.of_nat i)) with (slot q (Z.of_nat i)).
    apply lookup_app_Some in Hy as [Hy|[Hge Hy]].
    + pose proof (lookup_lt_Some _ _ _ Hy) as Hil. rewrite ld_insert_ne; [by apply Hcell|lia|].
      rewrite Hr. intros E%slot_inj; unfold zlen in *; lia.
    + apply list_lookup_singleton_Some in Hy as [Hz <-].
      replace (Z.of_nat i) with (q_size q) by (unfold zlen in *; lia).
      rewrite <- Hr. apply ld_insert_eq. lia.
Qed.

Lemma dequeue_repr q x l :
  repr q (x :: l) ->
  exists q', queue_dequeue (Some q) = Ret (CPtr x, q') /\ repr q' l /\ capacity q' = capacity q.
Proof.
  intros Hq. pose proof Hq as [Hc Hi Hf [Hs1 Hs2] Hr Hcell].
  assert (Hz : zlen (x :: l) = zlen l + 1) by (unfold zlen; simpl; lia). rewrite Hz in *.
  unfold queue_dequeue. simpl. pose proof (zlen_nonneg l). unfold INT_MAX in Hc.
  destruct (Z.eqb_spec (q_size q) 0); [lia|]. simpl.
  assert (Hhd : ld (items q) (front q) = Ret (CPtr x)).
  { rewrite <- (slot_0 q) by done. by apply (Hcell 0%nat). }
  rewrite Hhd. simpl. rewrite st_ret by lia. simpl. rewrite int_ok_ret by lia. simpl.
  eexists; split; [done|]. split; [|done].
  assert (Hsl : forall i, slot (MkQueue (<[Z.to_nat (front q):=CNull]> (items q)) (Z.rem (front q + 1) (capacity q))
    (rear q) (q_size q - 1) (capacity q) (item_destroyer q)) i = slot q (i + 1)).
  { intros i. unfold slot; simpl. rewrite rem_mod_pos by lia. rewrite Zplus_mod_idemp_l. f_equal. lia. }
  split; simpl; try done; try lia.
  - by rewrite zlen_insert.
  - rewrite rem_mod_pos by lia. by apply Z.mod_pos_bound; lia.
  - rewrite Hsl, Hr. f_equal. lia.
  - intros i y Hy. rewrite Hsl. replace (Z.of_nat i + 1) with (Z.of_nat (S i)) by lia.
    pose proof (lookup_lt_Some _ _ _ Hy). rewrite ld_insert_ne; [by apply Hcell|lia|].
    rewrite <- (slot_0 q) at 1 by done. intros E%slot_inj; unfold zlen in *; lia.
Qed.

(** [rear - 1 + capacity] stays an [int] up to 2^30 slots. *)
Lemma pop_repr q x l :
  repr q (l ++ [x]) -> capacity q <= 2 ^ 30 ->
  exists q', queue_pop (Some q) = Ret (CPtr x, q') /\ repr q' l /\ capacity q' = capacity q.
Proof.
  intros Hq Hcap. pose proof Hq as [Hc Hi Hf [Hs1 Hs2] Hr Hcell].
  assert (Hz : zlen (l ++ [x]) = zlen l + 1) by (by rewrite zlen_app). rewrite Hz in *.
  unfold queue_pop. simpl. pose proof (zlen_nonneg l).
  destruct (Z.eqb_spec (q_size q) 0); [lia|]. simpl.
  pose proof (slot_range q (q_size q) ltac:(lia)) as Hrr. rewrite <- Hr in Hrr.
  rewrite int_ok_ret by lia. simpl. rewrite rem_mod_pos by lia.
  assert (Hsl : (rear q - 1 + capacity q) mod capacity q = slot q (zlen l)).
  { rewrite Hr, Hs1. unfold slot.
    replace ((front q + (zlen l + 1)) mod capacity q - 1 + capacity q)
      with ((front q + (zlen l + 1)) mod capacity q + (capacity q - 1)) by lia.
    rewrite Zplus_mod_idemp_l.
    replace (front q + (zlen l + 1) + (capacity q - 1))
      with (front q + zlen l + 1 * capacity q) by lia. apply Z_mod_plus_full. }
  rewrite Hsl. assert (Hx : ld (items q) (slot q (zlen l)) = Ret (CPtr x)).
  { apply (Hcell (length l)). by rewrite lookup_app_r, Nat.sub_diag. }
  rewrite Hx. simpl. pose proof (slot_range q (zlen l) ltac:(lia)).
  rewrite st_ret by lia. simpl. eexists; split; [done|]. split; [|done].
  split; simpl; try done; try lia.
  - by rewrite zlen_insert.
  - change (slot _ (q_size q - 1)) with (slot q (q_size q - 1)). f_equal. lia.
  - intros i y Hy. change (slot _ (Z.of_nat i)) with (slot q (Z.of_nat i)).
    pose proof (lookup_lt_Some _ _ _ Hy). rewrite ld_insert_ne; [|lia|].
    + apply Hcell. by apply lookup_app_l_Some.
    + intros E%slot_inj; unfold zlen in *; lia.
Qed.

Lemma destroy_from_spec q l n i :
  repr q l -> capacity q <= 2 ^ 30 -> 0 <= i -> i + Z.of_nat n = zlen l ->
  destroy_from q n i = Ret (CPtr <$> drop (Z.to_nat i) l).
Proof.
  intros Hq Hc. revert i. induction n as [|n IH]; intros i Hi Hn; simpl.
  - rewrite drop_ge by (unfold zlen in *; lia). done.
  - pose proof (r_front q l Hq). pose proof (r_size q l Hq). rewrite int_ok_ret by lia. simpl.
    rewrite rem_mod_pos by lia. fold (slot q i).
    destruct (repr_ld q l i Hq) as (x&Hx&->); [lia|]. simpl. rewrite IH by lia. simpl.
    rewrite (drop_S l x (Z.to_nat i)) by done. simpl. do 3 f_equal. f_equal. lia.
Qed.

(** ** Sequences of operations *)

Inductive qop := OpEnqueue (x : A) | OpDequeue | OpPop.
Inductive qout := OutBool (b : bool) | OutItem (o : option A).

Definition item_of (c : cell A) : outcome (option A) :=
  match c with CPtr x => Ret (Some x) | CNull => Ret None | CJunk => Stuck end.

(** One call on the ring buffer; a refused call leaves it as it was. *)
Definition run_op q (o : qop) : outcome (Queue A * qout) :=
  match o with
  | OpEnqueue x =>
      match queue_push (Some q) (Some x) with
      | Ret q' => Ret (q', OutBool true) | Fail => Ret (q, OutBool false) | Stuck => Stuck
      end
  | OpDequeue =>
      match queue_dequeue (Some q) with
      | Ret (c, q') => v ← item_of c; Ret (q', OutItem v)
      | Fail => Ret (q, OutItem None) | Stuck => Stuck
      end
  | OpPop =>
      match queue_pop (Some q) with
      | Ret (c, q') => v ← item_of c; Ret (q', OutItem v)
      | Fail => Ret (q, OutItem None) | Stuck => Stuck
      end
  end.

Fixpoint run_ops q (os : list qop) : outcome (list qout) :=
  match os with
  | [] => Ret []
  | o :: os => '(q, v) ← run_op q o; vs ← run_ops q os; Ret (v :: vs)
  end.

(** The abstract queue: a list, oldest item first. *)
Definition list_op (l : list A) (o : qop) : list A * qout :=
  match o with
  | OpEnqueue x => (l ++ [x], OutBool true)
  | OpDequeue => match l with [] => ([], OutItem None) | x :: l => (l, OutItem (Some x)) end
  | OpPop => match last l with None => (l, OutItem None) | Some x => (removelast l, OutItem (Some x)) end
  end.

Fixpoint list_ops (l : list A) (os : list qop) : list qout :=
  match os with
  | [] => []
  | o :: os => let '(l, v) := list_op l o in v :: list_ops l os
  end.

Lemma queue_empty_repr q : repr q [] -> queue_is_empty (Some q) = true.
Proof. intros [_ _ _ [E _] _ _]. simpl. rewrite E. done. Qed.

Lemma enqueue_repr q l x :
  repr q l -> capacity q <= 2 ^ 30 -> zlen l < 2 ^ 29 -> heap_serves (2 ^ 34) ->
  exists q', queue_enqueue (Some q) (Some x) = Ret q' /\ repr q' (l ++ [x]) /\ capacity q' <= 2 ^ 30.
Proof.
  intros Hq Hc Hl Hs. pose proof (r_size q l Hq) as [Hs1 Hs2].
  destruct (decide (zlen l < capacity q)) as [Hlt|Hge].
  - destruct (enqueue_repr_room q l x) as (q'&E&Hq'&Hc'); [done..|]. exists q'.
    split_and!; [done..|lia].
  - assert (capacity q = zlen l) by lia. pose proof (r_cap q l Hq).
    destruct (queue_double_repr q l Hq) as (q1&E1&Hq1&Hc1).
    { change (INT_MAX / 2) with (2 ^ 30 - 1). lia. }
    { apply (heap_serves_malloc _ _ Hs). unfold sizeof_ptr. lia. }
    destruct (enqueue_repr_room q1 l x) as (q2&E2&Hq2&Hc2); [done|lia|]. exists q2.
    split_and!; [|done|lia]. unfold queue_enqueue in *. simpl in *.
    destruct (Z.eqb_spec (q_size q) (capacity q)); [|lia]. rewrite E1. simpl.
    destruct (Z.eqb_spec (q_size q1) (capacity q1)) as [E'|]; [|done].
    pose proof (r_size q1 l Hq1). lia.
Qed.

Lemma run_op_repr q l o :
  repr q l -> capacity q <= 2 ^ 30 -> zlen l < 2 ^ 29 -> heap_serves (2 ^ 34) ->
  exists q', run_op q o = Ret (q', (list_op l o).2) /\ repr q' (list_op l o).1 /\
    capacity q' <= 2 ^ 30 /\ zlen (list_op l o).1 <= zlen l + 1.
Proof.
  intros Hq Hc Hl Hs. destruct o as [x| |]; simpl.
  - destruct (enqueue_repr q l x) as (q'&E&Hq'&Hc'); [done..|]. unfold queue_push. rewrite E.
    exists q'. rewrite zlen_app. done.
  - destruct l as [|x l].
    + unfold queue_dequeue. simpl. pose proof (queue_empty_repr q Hq) as E. simpl in E. rewrite E. simpl.
      exists q. split_and!; [done..|]. unfold zlen; simpl; lia.
    + destruct (dequeue_repr q x l Hq) as (q'&->&Hq'&Hc'). simpl. exists q'.
      split_and!; [done..|lia|]. unfold zlen; simpl; lia.
  - destruct (decide (l = [])) as [->|(l'&x&->)%exists_last].
    + unfold queue_pop. simpl. pose proof (queue_empty_repr q Hq) as E. simpl in E. rewrite E. simpl.
      exists q. split_and!; [done..|]. unfold zlen; simpl; lia.
    + destruct (pop_repr q x l' Hq Hc) as (q'&->&Hq'&Hc'). simpl. exists q'.
      rewrite last_snoc. simpl. rewrite removelast_last, zlen_app.
      split_and!; [done..|lia|]. unfold zlen; simpl; lia.
Qed.

Lemma run_ops_repr q l os :
  repr q l -> capacity q <= 2 ^ 30 -> zlen l + zlen os <= 2 ^ 29 -> heap_serves (2 ^ 34) ->
  run_ops q os = Ret (list_ops l os).
Proof.
  intros Hq Hc Hl Hs. revert q l Hq Hc Hl. induction os as [|o os IH]; intros q l Hq Hc Hl; simpl; [done|].
  assert (zlen (o :: os) = zlen os + 1) as Ho by (unfold zlen; simpl; lia). pose proof (zlen_nonneg os).
  destruct (run_op_repr q l o) as (q'&->&Hq'&Hc'&Hl'); [done..|lia|done|]. simpl.
  rewrite (IH q' (list_op l o).1) by (done || lia). simpl. by destruct (list_op l o).
Qed.

(** The ring buffer implements the abstract queue.  From a freshly created
    queue of any capacity up to 2^30, every sequence of up to 2^29 enqueue,
    dequeue (FIFO) and pop (LIFO) calls returns exactly what the same calls on
    a list return, through wrap-around and capacity doubling, with no access
    outside the array and no signed overflow. *)
Lemma queue_refines_list cap destroyer q os
    (Hheap : heap_serves (2 ^ 34)) (Hcap : 0 < cap <= 2 ^ 30)
    (Hq : queue_create cap destroyer = Ret q) (Hos : zlen os <= 2 ^ 29) :
  run_ops q os = Ret (list_ops [] os).
Proof.
  destruct (queue_create_repr cap destroyer) as (q'&E&Hr&Hc);
    [unfold INT_MAX; lia|intros z Hz; apply Hheap; unfold sizeof_ptr in *; lia|].
  rewrite Hq in E. injection E as <-. apply run_ops_repr; [done|lia|unfold zlen at 1; simpl; lia|done].
Qed.

End Queue.

(** * The blocking operations

    Threads share one queue under one mutex.  A blocked thread may wake at any
    time the mutex is free, whether it was signalled, woken by a broadcast or
    spuriously, as C11 allows; the two flags are set by other threads at any
    time and never cleared. *)
Module Monitor.
Section Monitor.
Context `{Heap} {A : Type}.

Inductive mop := MEnqueue (x : A) | MEnqueueCancel (x : A) | MDequeue.
Inductive result := RBool (b : bool) | RItem (c : cell A).

(** Where a thread is: before [mtx_lock]; holding the mutex at the test of its
    [while]; inside [cnd_wait]; holding the mutex past its loop; returned. *)
Inductive pc := AtLock (o : mop) | AtTest (o : mop) | InWait (o : mop) | AtBody (o : mop) | Returned (r : result).

(** The conditions of the three [while] loops. *)
Definition must_wait (o : mop) (q : Queue A) (cancelled other_thread_done : bool) : bool :=
  match o with
  | MEnqueue _ => queue_is_full (Some q)
  | MEnqueueCancel _ => queue_is_full (Some q) && negb cancelled
  | MDequeue => queue_is_empty (Some q) && negb other_thread_done
  end.

(** queue.c [queue_enqueue_multithreaded], past its loop *)
Definition queue_enqueue_multithreaded (q : Queue A) (x : A) : outcome (Queue A * result) :=
  match queue_enqueue (Some q) (Some x) with
  | Ret q' => Ret (q', RBool true) | Fail => Ret (q, RBool false) | Stuck => Stuck
  end.

(** queue.c [queue_enqueue_multithreaded_cancel], past its loop *)
Definition queue_enqueue_multithreaded_cancel (q : Queue A) (x : A) (cancelled : bool)
  : outcome (Queue A * result) :=
  if cancelled then Ret (q, RBool false) else queue_enqueue_multithreaded q x.

(** queue.c [queue_dequeue_multithreaded], past its loop *)
Definition queue_dequeue_multithreaded (q : Queue A) (other_thread_done : bool)
  : outcome (Queue A * result) :=
  if queue_is_empty (Some q) && other_thread_done then Ret (q, RItem CNull)
  else match queue_dequeue (Some q) with
       | Ret (c, q') => Ret (q', RItem c) | Fail => Ret (q, RItem CNull) | Stuck => Stuck
       end.

Definition body (o : mop) (q : Queue A) (cancelled other_thread_done : bool)
  : outcome (Queue A * result) :=
  match o with
  | MEnqueue x => queue_enqueue_multithreaded q x
  | MEnqueueCancel x => queue_enqueue_multithreaded_cancel q x cancelled
  | MDequeue => queue_dequeue_multithreaded q other_thread_done
  end.

Record mstate := MState {
  m_queue : Queue A;
  m_mutex : option nat;      (** the thread that holds the mutex *)
  m_threads : list pc;
  m_cancelled : bool;
  m_done : bool;
  m_in : list A;             (** items enqueued so far, in order *)
  m_out : list A;            (** items dequeued so far, in order *)
}.

(** What a finished call adds to the two histories. *)
Definition enqueued (o : mop) (r : result) : list A :=
  match o, r with
  | (MEnqueue x | MEnqueueCancel x), RBool true => [x]
  | _, _ => []
  end.
Definition dequeued (r : result) : list A :=
  match r with RItem (CPtr x) => [x] | _ => [] end.

Inductive step : mstate -> mstate -> Prop :=
| s_lock q ts c d hi ho t o :
    ts !! t = Some (AtLock o) ->
    step (MState q None ts c d hi ho) (MState q (Some t) (<[t := AtTest o]> ts) c d hi ho)
| s_wait q ts c d hi ho t o :
    ts !! t = Some (AtTest o) -> must_wait o q c d = true ->
    step (MState q (Some t) ts c d hi ho) (MState q None (<[t := InWait o]> ts) c d hi ho)
| s_wake q ts c d hi ho t o :
    ts !! t = Some (InWait o) ->
    step (MState q None ts c d hi ho) (MState q (Some t) (<[t := AtTest o]> ts) c d hi ho)
| s_enter q ts c d hi ho t o :
    ts !! t = Some (AtTest o) -> must_wait o q c d = false ->
    step (MState q (Some t) ts c d hi ho) (MState q (Some t) (<[t := AtBody o]> ts) c d hi ho)
| s_body q q' ts c d hi ho t o r :
    ts !! t = Some (AtBody o) -> body o q c d = Ret (q', r) ->
    step (MState q (Some t) ts c d hi ho)
         (MState q' None (<[t := Returned r]> ts) c d (hi ++ enqueued o r) (ho ++ dequeued r))
| s_cancel q m ts c d hi ho :
    step (MState q m ts c d hi ho) (MState q m ts true d hi ho)
| s_done q m ts c d hi ho :
    step (MState q m ts c d hi ho) (MState q m ts c true hi ho).

Definition init (q : Queue A) (os : list mop) : mstate :=
  MState q None (AtLock <$> os) false false [] [].

Definition holding (p : pc) : bool :=
  match p with AtTest _ | AtBody _ => true | _ => false end.

(** What a thread past its loop may rely on. *)
Definition body_ready (o : mop) (l : list A) (cap : Z) (c d : bool) : Prop :=
  match o with
  | MEnqueue _ => zlen l < cap
  | MEnqueueCancel _ => zlen l < cap \/ c = true
  | MDequeue => l <> [] \/ d = true
  end.

Record minv (cap : Z) (s : mstate) : Prop := {
  mi_queue : exists l, repr (m_queue s) l /\ m_in s = m_out s ++ l /\
    forall t o, m_threads s !! t = Some (AtBody o) -> body_ready o l cap (m_cancelled s) (m_done s);
  mi_cap : capacity (m_queue s) = cap;
  mi_mutex : forall t p, m_threads s !! t = Some p -> holding p = true -> m_mutex s = Some t;
}.

Lemma must_wait_ready o q l c d :
  repr q l -> must_wait o q c d = false -> body_ready o l (capacity q) c d.
Proof.
  intros [_ _ _ [Hs1 Hs2] _ _] Hw. destruct o; simpl in *.
  - apply Z.eqb_neq in Hw. lia.
  - apply andb_false_iff in Hw as [Hw%Z.eqb_neq|Hw%negb_false_iff]; [left; lia|by right].
  - apply andb_false_iff in Hw as [Hw%Z.eqb_neq|Hw%negb_false_iff]; [left|by right].
    intros ->. done.
Qed.

(** A thread past its loop runs its body without fault: the queue stays within
    its capacity, an enqueue adds its item at the end, a dequeue takes the first. *)
Lemma body_spec o q l c d :
  repr q l -> body_ready o l (capacity q) c d ->
  exists q' r l', body o q c d = Ret (q', r) /\ repr q' l' /\ capacity q' = capacity q /\
    dequeued r ++ l' = l ++ enqueued o r.
Proof.
  assert (Henq : forall x, repr q l -> zlen l < capacity q ->
    exists q' r l', queue_enqueue_multithreaded q x = Ret (q', r) /\ repr q' l' /\
      capacity q' = capacity q /\ r = RBool true /\ l' = l ++ [x]).
  { intros x Hq Hl. destruct (enqueue_repr_room q l x) as (q'&E&Hq'&Hc'); [done..|].
    unfold queue_enqueue_multithreaded. rewrite E. eauto 10. }
  intros Hq Hr. destruct o as [x|x|]; simpl in *.
  - destruct (Henq x) as (q'&r&l'&E&?&?&->&->); [done..|]. eexists q', _, _. eauto.
  - unfold queue_enqueue_multithreaded_cancel. destruct c.
    + eexists q, _, l. split_and!; [done..|]. simpl. by rewrite app_nil_r.
    + destruct Hr as [Hr|]; [|done]. destruct (Henq x) as (q'&r&l'&E&?&?&->&->); [done..|].
      eexists q', _, _. eauto.
  - unfold queue_dequeue_multithreaded. destruct l as [|x l].
    + destruct Hr as [ | -> ]; [done|]. pose proof (queue_empty_repr q Hq) as ->. simpl.
      eexists q, _, []. eauto.
    + destruct (dequeue_repr q x l Hq) as (q'&E&Hq'&Hc').
      assert (queue_is_empty (Some q) = false) as ->.
      { destruct Hq as [_ _ _ [Hs _] _ _]. simpl. rewrite Hs. apply Z.eqb_neq. unfold zlen; simpl; lia. }
      simpl andb. rewrite E. eexists q', _, l. split_and!; [done..|]. simpl. by rewrite app_nil_r.
Qed.

Lemma minv_init cap q os : repr q [] -> capacity q = cap -> minv cap (init q os).
Proof.
  intros Hq Hc. split; simpl; [|done|].
  - exists []. split_and!; [done..|]. intros t o Ht. rewrite list_lookup_fmap in Ht.
    destruct (os !! t); done.
  - intros t p Ht Hp. rewrite list_lookup_fmap in Ht. destruct (os !! t); simplify_eq/=.
Qed.

(** A thread that is not in its body does not constrain the queue. *)
Lemma insert_not_body (ts : list pc) (t : nat) p (P : mop -> Prop) :
  (forall o, p <> AtBody o) ->
  (forall t o, ts !! t = Some (AtBody o) -> P o) ->
  forall t' o, <[t := p]> ts !! t' = Some (AtBody o) -> P o.
Proof.
  intros Hp Hts t' o Ht. apply list_lookup_insert_Some in Ht as [(?&?&?)|[_ Ht]]; [naive_solver|eauto].
Qed.

(** Only the holder of the mutex can be holding after a step of thread [t]. *)
Lemma insert_mutex (ts : list pc) (t : nat) p (m m' : option nat) :
  (forall t' p', ts !! t' = Some p' -> holding p' = true -> m = Some t') ->
  (m = None \/ m = Some t) -> (holding p = true -> m' = Some t) ->
  forall t' p', <[t := p]> ts !! t' = Some p' -> holding p' = true -> m' = Some t'.
Proof.
  intros Hm Hmt Hp t' p' Ht Hh. apply list_lookup_insert_Some in Ht as [(<-&<-&?)|[Hne Ht]]; [auto|].
  specialize (Hm _ _ Ht Hh). destruct Hmt; congruence.
Qed.

Lemma minv_step cap s s' : minv cap s -> step s s' -> minv cap s'.
Proof.
  intros [(l&Hq&Hh&Hb) Hc Hm] Hst.
  destruct Hst as [q ts c d hi ho t o Ht|q ts c d hi ho t o Ht Hw|q ts c d hi ho t o Ht
    |q ts c d hi ho t o Ht Hw|q q' ts c d hi ho t o r Ht Hbody|q m ts c d hi ho|q m ts c d hi ho];
    simpl in *.
  - split; simpl; [|done|by eapply insert_mutex; eauto].
    exists l. split_and!; [done..|]. by eapply insert_not_body.
  - split; simpl; [|done|by eapply insert_mutex; eauto].
    exists l. split_and!; [done..|]. by eapply insert_not_body.
  - split; simpl; [|done|by eapply insert_mutex; eauto].
    exists l. split_and!; [done..|]. by eapply insert_not_body.
  - split; simpl; [|done|by eapply insert_mutex; eauto].
    exists l. split_and!; [done..|]. intros t' o' Ht'.
    apply list_lookup_insert_Some in Ht' as [(_&[= <-]&_)|[_ Ht']]; [|eauto].
    rewrite <- Hc. by apply must_wait_ready.
  - destruct (body_spec o q l c d) as (q1&r1&l1&E&Hq1&Hc1&Hl1); [done|rewrite Hc; eauto|].
    rewrite Hbody in E. injection E as <- <-. split; simpl; [|congruence|by eapply insert_mutex; eauto].
    exists l1. split_and!; [done| |].
    + rewrite Hh, <- !app_assoc. by rewrite Hl1.
    + intros t' o' Ht'. apply list_lookup_insert_Some in Ht' as [(_&?&_)|[Hne Ht']]; [done|].
      specialize (Hm t' _ Ht' eq_refl). congruence.
  - split; simpl; [|done|done]. exists l. split_and!; [done..|]. intros t o Ht%Hb.
    destruct o; simpl in *; naive_solver.
  - split; simpl; [|done|done]. exists l. split_and!; [done..|]. intros t o Ht%Hb.
    destruct o; simpl in *; naive_solver.
Qed.

Lemma minv_reachable cap s s' : minv cap s -> rtc step s s' -> minv cap s'.
Proof. intros Hi Hst. induction Hst; eauto using minv_step. Qed.

(** C3: the pipeline queue is a correct bounded buffer under every
    interleaving.  For any number of threads running the blocking enqueue, the
    cancellable enqueue and the blocking dequeue in any order, with spurious
    wake-ups, from an empty queue of capacity [cap]: at most one thread is
    inside the critical section; the queue never grows past [cap]; the items
    delivered so far, followed by those still queued, are exactly the items
    accepted so far in order (nothing lost, duplicated or reordered); and a
    thread past its wait loop always completes its call. *)
Theorem monitor_safe cap destroyer q os s
    (Hheap : heap_serves (2 ^ 34)) (Hcap : 0 < cap <= 2 ^ 30)
    (Hq : queue_create cap destroyer = Ret q) (Hs : rtc step (init q os) s) :
  (exists l, repr (m_queue s) l /\ zlen l <= cap /\ m_in s = m_out s ++ l) /\
  (forall t t' p p', m_threads s !! t = Some p -> m_threads s !! t' = Some p' ->
     holding p = true -> holding p' = true -> t = t') /\
  (forall t o, m_threads s !! t = Some (AtBody o) ->
     exists q' r, body o (m_queue s) (m_cancelled s) (m_done s) = Ret (q', r)).
Proof.
  destruct (queue_create_repr (A := A) cap destroyer) as (q'&E&Hr&Hc);
    [unfold INT_MAX; lia|intros z Hz; apply Hheap; unfold sizeof_ptr in *; lia|].
  rewrite Hq in E. injection E as <-.
  destruct (minv_reachable cap _ _ (minv_init cap q os Hr Hc) Hs) as [(l&Hl&Hh&Hb) Hcp Hm].
  split_and!.
  - exists l. split_and!; [done| |done]. rewrite <- Hcp. apply (r_size _ _ Hl).
  - intros t t' p p' Ht Ht' Hp Hp'. specialize (Hm t p Ht Hp) as E1. specialize (Hm t' p' Ht' Hp').
    congruence.
  - intros t o Ht. destruct (body_spec o (m_queue s) l (m_cancelled s) (m_done s))
      as (q1&r&_&E1&_); [done|rewrite Hcp; eauto|]. eauto.
Qed.

End Monitor.

(** A producer and a consumer on a queue of one slot. *)
Lemma monitor_safe_witness :
  let q := MkQueue [@CNull nat] 0 0 0 1 false in
  let s := MState (MkQueue [CPtr 7%nat] 0 0 1 1 false) None
             [Returned (RBool true); AtLock MDequeue] false false [7%nat] [] in
  rtc (@step heap0 nat) (init q [MEnqueue 7%nat; MDequeue]) s /\
  exists l, repr (m_queue s) l /\ zlen l <= 1 /\ m_in s = m_out s ++ l.
Proof.
  intros q s.
  assert (Hrun : rtc (@step heap0 nat) (init q [MEnqueue 7%nat; MDequeue]) s).
  { eapply rtc_l; [apply (s_lock q [AtLock (MEnqueue 7%nat); AtLock MDequeue] false false [] [] 0%nat
      (MEnqueue 7%nat)); reflexivity|].
    eapply rtc_l; [apply (s_enter q [AtTest (MEnqueue 7%nat); AtLock MDequeue] false false [] [] 0%nat
      (MEnqueue 7%nat)); reflexivity|].
    eapply rtc_l; [apply (s_body q (m_queue s) [AtBody (MEnqueue 7%nat); AtLock MDequeue] false false [] [] 0%nat
      (MEnqueue 7%nat) (RBool true)); reflexivity|].
    apply rtc_refl. }
  split; [exact Hrun|].
  apply (@monitor_safe heap0 nat 1 false q [MEnqueue 7%nat; MDequeue] s);
    [apply heap0_serves|lia|reflexivity|exact Hrun].
Defined.

End Monitor.
