(* ===== verification/ArrayList.v ===== *)
(** The growable pointer array of src/shared/array_list.c. *)

From S2P Require Import Prelude Alloc.

Definition INITIAL_ARRAY_SIZE : Z := 100.

(** array_list.h [ArrayList]; a cell is [None] until it is written. *)
Record ArrayList (A : Type) := MkArrayList {
  al_items : list (option A);
  al_size : Z;
  al_capacity : Z;
  al_destroyer : bool;
}.
Arguments MkArrayList {A} _ _ _ _.
Arguments al_items {A} _.
Arguments al_size {A} _.
Arguments al_capacity {A} _.
Arguments al_destroyer {A} _.
Definition sizeof_ArrayList : Z := 24.

Section ArrayList.
Context `{Heap} {A : Type}.
Implicit Types a : ArrayList A.

(** array_list.c [array_list_create] *)
Definition array_list_create (destroyer : bool) : outcome (ArrayList A) :=
  check (protocol_alloc sizeof_ArrayList);;
  check (protocol_alloc (INITIAL_ARRAY_SIZE * 8));;
  Ret (MkArrayList (replicate (Z.to_nat INITIAL_ARRAY_SIZE) None) 0 INITIAL_ARRAY_SIZE destroyer).

(** array_list.c [array_list_delete]: the cells handed to the destroyer. *)
Definition array_list_delete (oa : option (ArrayList A)) : outcome (list (option A)) :=
  match oa with
  | None => Ret []
  | Some a => if al_destroyer a then rd (al_items a) 0 (al_size a) else Ret []
  end.

(** array_list.c [array_list_extend]; [realloc] keeps the first cells. *)
Definition array_list_extend (oa : option (ArrayList A)) : outcome (ArrayList A) :=
  a ← of_option oa;
  check (negb (al_capacity a >? INT_MAX / 2));;
  new_capacity ← int_ok (al_capacity a * 2);
  let new_capacity := if new_capacity =? 0 then INITIAL_ARRAY_SIZE else new_capacity in
  check (protocol_realloc (new_capacity * 8));;
  Ret (MkArrayList (al_items a ++ replicate (Z.to_nat (new_capacity - al_capacity a)) None)
         (al_size a) new_capacity (al_destroyer a)).

(** array_list.c [array_list_add] *)
Definition array_list_add (oa : option (ArrayList A)) (item : A) : outcome (ArrayList A) :=
  a ← of_option oa;
  a ← (if al_capacity a =? al_size a then array_list_extend (Some a) else Ret a);
  items ← st (al_items a) (al_size a) (Some item);
  n ← int_ok (al_size a + 1);
  Ret (MkArrayList items n (al_capacity a) (al_destroyer a)).

(** array_list.c [array_list_to_array] *)
Definition array_list_to_array (oa : option (ArrayList A)) : outcome (list (option A)) :=
  a ← of_option oa;
  check (protocol_alloc (al_size a * 8));;
  rd (al_items a) 0 (al_size a).

(** The array holds the items [l], in order of insertion. *)
Record al_repr a (l : list A) : Prop := {
  ar_cap : 0 < al_capacity a <= INT_MAX;
  ar_items : zlen (al_items a) = al_capacity a;
  ar_size : al_size a = zlen l /\ zlen l <= al_capacity a;
  ar_cells : take (length l) (al_items a) = Some <$> l;
}.

Lemma al_add_room a l x :
  al_repr a l -> zlen l < al_capacity a ->
  exists items, st (al_items a) (al_size a) (Some x) = Ret items /\
    al_repr (MkArrayList items (al_size a + 1) (al_capacity a) (al_destroyer a)) (l ++ [x]).
Proof.
  intros [Hc Hi [Hs Hle] Hl] Hlt. pose proof (zlen_nonneg l).
  rewrite st_ret by lia. eexists; split; [done|]. split; simpl; try done.
  - by rewrite zlen_insert.
  - rewrite zlen_app. change (zlen [x]) with 1. lia.
  - rewrite length_app, fmap_app, <- Hl. simpl. rewrite Hs. unfold zlen in *.
    rewrite Nat2Z.id, Nat.add_1_r.
    erewrite take_S_r by (apply list_lookup_insert_eq; lia). by rewrite take_insert_ge.
Qed.

(** Doubling the capacity keeps the items. *)
Lemma al_doubled a l :
  al_repr a l -> al_capacity a < 2 ^ 30 ->
  al_repr (MkArrayList (al_items a ++ replicate (Z.to_nat (al_capacity a * 2 - al_capacity a)) None)
    (al_size a) (al_capacity a * 2) (al_destroyer a)) l.
Proof.
  intros [Hc Hi [Hz Hle] Hl] Hlt. split; simpl; try lia; [unfold INT_MAX; lia| |].
  - rewrite zlen_app, Hi. unfold zlen at 1. rewrite length_replicate. lia.
  - rewrite take_app_le by (unfold zlen in *; lia). done.
Qed.

Lemma array_list_add_repr a l x :
  al_repr a l -> zlen l < 2 ^ 30 -> al_capacity a <= 2 ^ 30 -> heap_serves (2 ^ 34) ->
  exists a', array_list_add (Some a) x = Ret a' /\ al_repr a' (l ++ [x]) /\
    (al_capacity a' = al_capacity a \/ al_capacity a' = 2 * zlen l).
Proof.
  intros Ha Hlt Hcap Hs. pose proof Ha as [Hc Hi [Hz Hle] Hl]. unfold INT_MAX in Hc.
  pose proof (zlen_nonneg l). unfold array_list_add. simpl.
  destruct (Z.eqb_spec (al_capacity a) (al_size a)) as [E|].
  - unfold array_list_extend. simpl. change (INT_MAX / 2) with (2 ^ 30 - 1).
    destruct (Z.gtb_spec (al_capacity a) (2 ^ 30 - 1)); [lia|]. simpl.
    rewrite int_ok_ret by lia. simpl. destruct (Z.eqb_spec (al_capacity a * 2) 0); [lia|].
    rewrite protocol_realloc_alloc, (heap_serves_alloc _ _ Hs) by lia. simpl.
    destruct (al_add_room _ l x (al_doubled a l Ha ltac:(lia))) as (items&E1&Hr); [simpl; lia|]. simpl in E1. rewrite E1. simpl.
    rewrite int_ok_ret by lia. simpl. eexists; split; [done|]. split; [exact Hr|]. right. simpl. lia.
  - simpl. destruct (al_add_room a l x Ha) as (items&->&Hr); [lia|]. simpl.
    rewrite int_ok_ret by lia. simpl. eexists; split; [done|]. split; [done|]. by left.
Qed.

(** Under any heap an addition keeps the items, or fails and changes nothing. *)
Lemma array_list_add_any a l x :
  al_repr a l -> zlen l < 2 ^ 30 ->
  match array_list_add (Some a) x with
  | Ret a' => al_repr a' (l ++ [x]) /\ al_destroyer a' = al_destroyer a
  | Fail => True
  | Stuck => False
  end.
Proof.
  intros Ha Hlt. pose proof Ha as [Hc Hi [Hz Hle] Hl]. unfold INT_MAX in Hc.
  pose proof (zlen_nonneg l). unfold array_list_add. simpl.
  destruct (Z.eqb_spec (al_capacity a) (al_size a)) as [E|].
  - unfold array_list_extend. simpl. change (INT_MAX / 2) with (2 ^ 30 - 1).
    destruct (Z.gtb_spec (al_capacity a) (2 ^ 30 - 1)); [lia|]. simpl.
    rewrite int_ok_ret by lia. simpl. destruct (Z.eqb_spec (al_capacity a * 2) 0); [lia|].
    destruct (protocol_realloc _); [|done]. simpl.
    destruct (al_add_room _ l x (al_doubled a l Ha ltac:(lia))) as (items&E1&Hr); [simpl; lia|]. simpl in E1. rewrite E1. simpl.
    rewrite int_ok_ret by lia. simpl. by split.
  - simpl. destruct (al_add_room a l x Ha) as (items&->&Hr); [lia|]. simpl.
    rewrite int_ok_ret by lia. simpl. by split.
Qed.

Lemma array_list_adds_repr l a k :
  al_repr a k -> zlen k + zlen l <= 2 ^ 29 -> al_capacity a <= 2 ^ 30 -> heap_serves (2 ^ 34) ->
  exists a', foldM (fun x a => array_list_add (Some a) x) l a = Ret a' /\ al_repr a' (k ++ l).
Proof.
  intros Ha Hz Hc Hs. revert a k Ha Hz Hc. induction l as [|x l IH]; intros a k Ha Hz Hc; simpl.
  - exists a. by rewrite app_nil_r.
  - assert (zlen (x :: l) = zlen l + 1) as Hx by (unfold zlen; simpl; lia). pose proof (zlen_nonneg l).
    destruct (array_list_add_repr a k x Ha) as (a1&->&Ha1&Hc1); [lia|lia|done|]. simpl.
    destruct (IH a1 (k ++ [x])) as (a2&E&Ha2); [done| |lia|].
    + rewrite zlen_app. change (zlen [x]) with 1. lia.
    + exists a2. rewrite E. by rewrite <- app_assoc in Ha2.
Qed.

(** The growable array keeps every item in order.  Adding up to 2^29 items
    one by one to a new list succeeds through every reallocation, and
    [array_list_to_array] then returns exactly those items. *)
Lemma array_list_collects l a destroyer
    (Hheap : heap_serves (2 ^ 34)) (Hl : zlen l <= 2 ^ 29)
    (Ha : array_list_create destroyer = Ret a) :
  exists a', foldM (fun x a => array_list_add (Some a) x) l a = Ret a' /\
    array_list_to_array (Some a') = Ret (Some <$> l).
Proof.
  unfold array_list_create in Ha. do 3 inv_ret Ha. subst.
  destruct (array_list_adds_repr l (MkArrayList (replicate (Z.to_nat INITIAL_ARRAY_SIZE) None) 0
    INITIAL_ARRAY_SIZE destroyer) []) as (a'&E&[Hc Hi [Hs Hle] Hcells]);
    [split; done|unfold zlen at 1; simpl; lia|done|done|].
  exists a'. split; [done|]. simpl in *. unfold array_list_to_array. simpl. pose proof (zlen_nonneg l).
  rewrite (heap_serves_alloc _ _ Hheap) by lia. simpl. rewrite rd_ret by lia.
  rewrite Hs. simpl. rewrite drop_0. unfold zlen. by rewrite Nat2Z.id, Hcells.
Qed.

End ArrayList.

