(* ===== verification/Hardlink.v ===== *)
(** The sender's hard-link detection table, src/shared/hardlink.c. *)

From S2P Require Import Prelude.

(** hardlink.h [HardLinkItem], [HardLinkTable].  [ht_items] are the first
    [count] entries of the array of [ht_capacity]. *)
Record HardLinkItem := MkItem { hl_dev : Z; hl_ino : Z; hl_gid : Z; first_path : list byte }.
Record HardLinkTable := MkTable {
  ht_items : list HardLinkItem;
  ht_capacity : Z;
  next_gid : Z;
}.

(** Which of the allocations of one call succeed: [mtx_lock], the growth of the
    array, the copy of the path kept and the copy of the path returned. *)
Record alloc_results := MkAllocs { lock_ok : bool; grow_ok : bool; dup_ok : bool; dup_out_ok : bool }.

(** hardlink.c [hardlink_table_create]; [calloc] and [mtx_init] succeeded. *)
Definition hardlink_table_create (calloc_ok mtx_init_ok : bool) : outcome HardLinkTable :=
  check calloc_ok;; check mtx_init_ok;; Ret (MkTable [] 0 1).

(** hardlink.c [hardlink_table_destroy]: the table is emptied. *)
Definition hardlink_table_destroy (t : HardLinkTable) : HardLinkTable :=
  MkTable [] 0 (next_gid t).

(** hardlink.c [hardlink_table_find_locked] *)
Fixpoint hardlink_table_find_locked (items : list HardLinkItem) (dev ino : Z) : option HardLinkItem :=
  match items with
  | [] => None
  | it :: items => if (hl_dev it =? dev) && (hl_ino it =? ino) then Some it
                   else hardlink_table_find_locked items dev ino
  end.

(** hardlink.c [hardlink_table_add_locked]; the array may have grown even when
    the call fails. *)
Definition hardlink_table_add_locked (al : alloc_results) (t : HardLinkTable) (dev ino : Z)
    (path : list byte) (gid : Z) : HardLinkTable * bool :=
  let count := zlen (ht_items t) in
  let grown :=
    if count =? ht_capacity t then
      let new_capacity := if ht_capacity t =? 0 then 8 else u64 (ht_capacity t * 2) in
      if new_capacity <? ht_capacity t then None
      else if grow_ok al then Some (MkTable (ht_items t) new_capacity (next_gid t)) else None
    else Some t in
  match grown with
  | None => (t, false)
  | Some t => if dup_ok al
              then (MkTable (ht_items t ++ [MkItem dev ino gid path]) (ht_capacity t) (next_gid t), true)
              else (t, false)
  end.

(** The outputs [*gid], [*is_first], [*first_path_out] of a successful call. *)
Record assignment := MkAssign { a_gid : Z; a_is_first : bool; a_first_path : list byte }.

(** hardlink.c [hardlink_table_assign]: the table after the call and, when it
    returned [true], its outputs. *)
Definition hardlink_table_assign (al : alloc_results) (t : HardLinkTable) (wire_path : list byte)
    (dev ino : Z) : outcome (HardLinkTable * option assignment) :=
  if negb (lock_ok al) then Ret (t, None)
  else match hardlink_table_find_locked (ht_items t) dev ino with
  | Some item =>
      if dup_out_ok al then Ret (t, Some (MkAssign (hl_gid item) false (first_path item)))
      else Ret (t, None)
  | None =>
      if next_gid t <=? 0 then Ret (t, None)
      else
        let gid := next_gid t in
        let '(t1, added) := hardlink_table_add_locked al t dev ino wire_path gid in
        if negb added then Ret (t1, None)
        else if dup_out_ok al then
          n ← int_ok (next_gid t1 + 1);
          Ret (MkTable (ht_items t1) (ht_capacity t1) n, Some (MkAssign gid true wire_path))
        else Ret (MkTable (take (length (ht_items t1) - 1) (ht_items t1)) (ht_capacity t1) (next_gid t1), None)
  end.

(** ** Invariant *)

Definition hl_id (it : HardLinkItem) : Z * Z := (hl_dev it, hl_ino it).

Record table_wf (t : HardLinkTable) : Prop := {
  tw_cap : zlen (ht_items t) <= ht_capacity t < 2 ^ 63;
  tw_gid : 1 <= next_gid t;
  tw_gids : hl_gid <$> ht_items t = seqZ 1 (next_gid t - 1);
  tw_ids : NoDup (hl_id <$> ht_items t);
}.

Lemma tw_count t : table_wf t -> zlen (ht_items t) = next_gid t - 1.
Proof.
  intros [_ H1 Hg _]. apply (f_equal (@length Z)) in Hg.
  rewrite length_fmap, length_seqZ in Hg. unfold zlen. lia.
Qed.

Lemma find_spec items dev ino :
  match hardlink_table_find_locked items dev ino with
  | Some it => it ∈ items /\ hl_id it = (dev, ino)
  | None => (dev, ino) ∉ hl_id <$> items
  end.
Proof.
  induction items as [|it items IH]; simpl; [set_solver|].
  destruct (_ && _) eqn:E.
  - bool_to_prop. split; [set_solver|]. unfold hl_id. congruence.
  - destruct (hardlink_table_find_locked items dev ino); [set_solver|].
    apply not_elem_of_cons. split; [|done]. intros [= -> ->]. by rewrite !Z.eqb_refl in E.
Qed.

Lemma find_unique items it :
  NoDup (hl_id <$> items) -> it ∈ items ->
  hardlink_table_find_locked items (hl_dev it) (hl_ino it) = Some it.
Proof.
  induction items as [|x items IH]; simpl; intros Hnd Hin; [set_solver|].
  apply NoDup_cons in Hnd as [Hx Hnd]. destruct (_ && _) eqn:E.
  - apply elem_of_cons in Hin as [->|Hin]; [done|]. exfalso. bool_to_prop. apply Hx.
    assert (hl_id x = hl_id it) as -> by (unfold hl_id; congruence). apply list_elem_of_fmap. eauto.
  - apply elem_of_cons in Hin as [->|Hin]; [by rewrite !Z.eqb_refl in E|]. by apply IH.
Qed.

Lemma add_locked_spec al t dev ino path gid :
  table_wf t -> ht_capacity t < 2 ^ 62 ->
  exists cap added,
    hardlink_table_add_locked al t dev ino path gid
    = (MkTable (ht_items t ++ (if added : bool then [MkItem dev ino gid path] else [])) cap (next_gid t), added) /\
    zlen (ht_items t) + (if added then 1 else 0) <= cap < 2 ^ 63 /\
    (added = false <-> dup_ok al = false \/ (zlen (ht_items t) = ht_capacity t /\ grow_ok al = false)).
Proof.
  intros [Hc _ _ _] Hm. unfold hardlink_table_add_locked. pose proof (zlen_nonneg (ht_items t)).
  destruct (Z.eqb_spec (zlen (ht_items t)) (ht_capacity t)) as [E|E]; simpl.
  - set (nc := if ht_capacity t =? 0 then 8 else u64 (ht_capacity t * 2)).
    assert (Hn : ht_capacity t < nc < 2 ^ 63).
    { subst nc. destruct (Z.eqb_spec (ht_capacity t) 0); [lia|]. rewrite u64_small; lia. }
    destruct (Z.ltb_spec nc (ht_capacity t)); [lia|].
    destruct (grow_ok al); [destruct (dup_ok al)|].
    + exists nc, true. split_and!; [done|lia|lia|naive_solver].
    + exists nc, false. rewrite app_nil_r. split_and!; [done|lia|lia|naive_solver].
    + exists (ht_capacity t), false. rewrite app_nil_r. split_and!; [by destruct t|lia|lia|naive_solver].
  - destruct (dup_ok al).
    + exists (ht_capacity t), true. split_and!; [done|lia|lia|naive_solver].
    + exists (ht_capacity t), false. rewrite app_nil_r. split_and!; [by destruct t|lia|lia|naive_solver].
Qed.

(** Something the call needs is refused: the lock, the copy of the path it
    returns, or, for a file that is not in the table, the copy of the path the
    table keeps or the growth of an array that is full. *)
Definition refused (al : alloc_results) (t : HardLinkTable) (id : Z * Z) : Prop :=
  lock_ok al = false \/ dup_out_ok al = false \/
  (id ∉ hl_id <$> ht_items t /\ (dup_ok al = false \/ (zlen (ht_items t) = ht_capacity t /\ grow_ok al = false))).

(** One call: the three ways it can end, and when it fails. *)
Definition assigned (t t' : HardLinkTable) (path : list byte) (id : Z * Z) (r : option assignment) : Prop :=
  match r with
  | None => ht_items t' = ht_items t /\ next_gid t' = next_gid t
  | Some (MkAssign gid false fp) => t' = t /\
      exists it, it ∈ ht_items t /\ hl_id it = id /\ gid = hl_gid it /\ fp = first_path it
  | Some (MkAssign gid true fp) => id ∉ hl_id <$> ht_items t /\
      gid = next_gid t /\ fp = path /\ next_gid t' = next_gid t + 1 /\
      ht_items t' = ht_items t ++ [MkItem id.1 id.2 gid path]
  end.

Lemma assign_spec al t path dev ino :
  table_wf t -> ht_capacity t < 2 ^ 62 -> next_gid t < INT_MAX ->
  exists t' r, hardlink_table_assign al t path dev ino = Ret (t', r) /\ table_wf t' /\
    assigned t t' path (dev, ino) r /\ (r = None <-> refused al t (dev, ino)).
Proof.
  intros Ht Hc Hg. pose proof Ht as [Hc0 Hg0 Hgids Hids]. unfold hardlink_table_assign, refused.
  destruct (lock_ok al); simpl; [|exists t, None; naive_solver].
  pose proof (find_spec (ht_items t) dev ino) as Hf.
  destruct (hardlink_table_find_locked (ht_items t) dev ino) as [it|].
  { destruct Hf as [Hin Hid]. assert (Hk : (dev, ino) ∈ hl_id <$> ht_items t) by (apply list_elem_of_fmap; eauto).
    destruct (dup_out_ok al); [|exists t, None; naive_solver]. eexists _, _. split; [done|]. split; [done|].
    split; [|naive_solver]. split; [done|]. by exists it. }
  destruct (Z.leb_spec (next_gid t) 0); [lia|]. unfold INT_MAX in Hg.
  destruct (add_locked_spec al t dev ino path (next_gid t) Ht Hc) as (cap&added&->&Hcap&Hadd).
  destruct added; simpl in Hcap |- *.
  - destruct (dup_out_ok al).
    + rewrite int_ok_ret by lia. simpl. eexists _, _. split; [done|]. split; [|split; [done|naive_solver]].
      split; simpl; [|lia| |].
      * rewrite zlen_app. change (zlen [_]) with 1. lia.
      * rewrite fmap_app, Hgids. simpl. replace (next_gid t + 1 - 1) with (next_gid t - 1 + 1) by lia.
        rewrite seqZ_app by lia. f_equal. rewrite seqZ_cons by lia. simpl. f_equal. lia.
      * rewrite fmap_app. simpl. apply NoDup_app. split_and!; [done| |apply NoDup_singleton].
        intros x Hx ->%list_elem_of_singleton. done.
    + eexists _, None. split; [done|]. simpl. rewrite length_app. simpl.
      replace (length (ht_items t) + 1 - 1)%nat with (length (ht_items t)) by lia.
      rewrite take_app_length. split; [|naive_solver]. split; simpl; try done; lia.
  - rewrite app_nil_r. eexists _, None. split; [done|]. split; [|naive_solver]. split; simpl; try done; lia.
Qed.

(** ** A whole run *)

(** The files of a scan, with what each call was given and its outcome. *)
Fixpoint assign_all (al : alloc_results) (t : HardLinkTable) (files : list (list byte * (Z * Z)))
  : outcome (list (option assignment)) :=
  match files with
  | [] => Ret []
  | (path, (dev, ino)) :: files =>
      '(t, r) ← hardlink_table_assign al t path dev ino;
      rs ← assign_all al t files;
      Ret (r :: rs)
  end.

Definition all_ok : alloc_results := MkAllocs true true true true.

(** The groups a scan should get: numbered in order of first appearance, with
    the path of the member that appeared first. *)
Fixpoint groups (seen : list (list byte * (Z * Z))) (files : list (list byte * (Z * Z)))
  : list (option assignment) :=
  match files with
  | [] => []
  | (path, id) :: files =>
      match list_find (fun x => x.2 = id) seen with
      | Some (k, (fp, _)) => Some (MkAssign (Z.of_nat k + 1) false fp) :: groups seen files
      | None => Some (MkAssign (zlen seen + 1) true path) :: groups (seen ++ [(path, id)]) files
      end
  end.

(** The table after the distinct files [seen]. *)
Definition table_for (t : HardLinkTable) (seen : list (list byte * (Z * Z))) : Prop :=
  table_wf t /\ (fun it => (first_path it, hl_id it)) <$> ht_items t = seen.

(** The table finds the entry of the first file with that identity. *)
Lemma table_find t seen dev ino :
  table_for t seen ->
  hardlink_table_find_locked (ht_items t) dev ino
  = match list_find (fun x => x.2 = (dev, ino)) seen with
    | Some (k, (fp, _)) => Some (MkItem dev ino (Z.of_nat k + 1) fp)
    | None => None
    end.
Proof.
  intros [Ht Hs]. pose proof (find_spec (ht_items t) dev ino) as Hf.
  destruct (list_find _ seen) as [[k [fp id]]|] eqn:E.
  - apply list_find_Some in E as (Hk&Hid&_). simpl in Hid. subst id.
    rewrite <- Hs in Hk. rewrite list_lookup_fmap in Hk.
    destruct (ht_items t !! k) as [it|] eqn:Ek; simpl in Hk; [|done]. injection Hk as <- Hid.
    assert (hl_gid it = Z.of_nat k + 1) as Hg.
    { pose proof (tw_gids t Ht) as Hg. apply (f_equal (fun l => l !! k)) in Hg.
      rewrite list_lookup_fmap, Ek in Hg. simpl in Hg. symmetry in Hg. apply lookup_seqZ in Hg. lia. }
    assert (Hin : it ∈ ht_items t) by (by apply list_elem_of_lookup_2 in Ek).
    pose proof (find_unique _ it (tw_ids t Ht) Hin) as Hu.
    destruct it as [d i g p]; unfold hl_id in *; simpl in *. by simplify_eq.
  - apply list_find_None in E. destruct (hardlink_table_find_locked _ _ _) as [it|]; [|done].
    destruct Hf as [Hin Hid]. rewrite Forall_forall in E.
    exfalso. apply (E (first_path it, hl_id it)); [|done].
    rewrite <- Hs. apply list_elem_of_fmap. eauto.
Qed.

Lemma assign_all_groups files t seen :
  table_for t seen -> zlen seen + zlen files < 2 ^ 31 - 2 -> ht_capacity t < 2 ^ 33 ->
  (zlen (ht_items t) = 0 -> ht_capacity t <= 8) -> ht_capacity t <= Z.max 8 (2 * zlen seen) ->
  assign_all all_ok t files = Ret (groups seen files).
Proof.
  revert t seen. induction files as [|[path [dev ino]] files IH]; intros t seen Ht Hz Hc Hc0 Hc2; [done|].
  assert (zlen ((path, (dev, ino)) :: files) = zlen files + 1) as Hf by (unfold zlen; simpl; lia).
  pose proof (zlen_nonneg files). pose proof (table_find t seen dev ino Ht) as Hfind.
  pose proof Ht as [Hwf Hs]. pose proof (tw_count t Hwf) as Hcount.
  assert (Hzs : zlen seen = zlen (ht_items t)) by (rewrite <- Hs; unfold zlen; by rewrite length_fmap).
  cbn [assign_all groups].
  destruct (assign_spec all_ok t path dev ino Hwf) as (t'&r&E&Hwf'&Hr&_); [lia|unfold INT_MAX; lia|].
  unfold hardlink_table_assign in *. simpl negb in *. cbv iota in *. rewrite Hfind in *. clear Hfind.
  destruct (list_find _ seen) as [[k [fp id]]|] eqn:El; cbn [dup_out_ok all_ok] in *.
  - simpl. rewrite (IH t seen) by (done || lia). done.
  - destruct (Z.leb_spec (next_gid t) 0); [pose proof (zlen_nonneg (ht_items t)); lia|].
    destruct (hardlink_table_add_locked all_ok t dev ino path (next_gid t)) as [t1 added] eqn:Ea.
    assert (added = true /\ ht_capacity t1 <= Z.max 8 (2 * (zlen seen + 1))) as [-> Hc1].
    { unfold hardlink_table_add_locked in Ea. simpl in Ea. revert Ea.
      destruct (Z.eqb_spec (zlen (ht_items t)) (ht_capacity t)).
      - destruct (Z.eqb_spec (ht_capacity t) 0).
        + destruct (Z.ltb_spec 8 (ht_capacity t)); [lia|]. intros [= <- <-]. simpl. lia.
        + rewrite u64_small by lia. destruct (Z.ltb_spec (ht_capacity t * 2) (ht_capacity t)); [lia|].
          intros [= <- <-]. simpl. lia.
      - intros [= <- <-]. simpl. lia. }
    cbv iota beta in E |- *. simpl negb in *. cbv iota in *.
    destruct (int_ok (next_gid t1 + 1)) as [n| |]; simpl in E |- *; [|done..]. injection E as <- <-.
    destruct Hr as (Hnew&_&_&Hn&Hit). simpl in Hn, Hit.
    assert (Hz1 : zlen (seen ++ [(path, (dev, ino))]) = zlen seen + 1) by (by rewrite zlen_app).
    rewrite (IH _ (seen ++ [(path, (dev, ino))])).
    + simpl. by replace (zlen seen + 1) with (next_gid t) by lia.
    + split; [done|]. simpl. rewrite Hit, fmap_app, Hs. done.
    + lia.
    + simpl. lia.
    + simpl. intros E0. rewrite Hit, zlen_app in E0. change (zlen [_]) with 1 in E0.
      pose proof (zlen_nonneg (ht_items t)). lia.
    + simpl. lia.
Qed.

(** Hard-link grouping is exact.  Feeding any scan of fewer than 2^31 files
    to an empty table, with all allocations succeeding, numbers the distinct
    (device, inode) identities in order of first appearance: a file is the
    data-carrying first member exactly when its identity is new, every later
    file gets the number of its identity and the path of its first member, so
    two files share a group exactly when they are the same inode. *)
Lemma hardlink_groups_exact files
    (Hn : zlen files < 2 ^ 31 - 2) :
  (t ← hardlink_table_create true true; assign_all all_ok t files) = Ret (groups [] files).
Proof.
  simpl. apply assign_all_groups; unfold zlen in *; simpl; try lia.
  split; [|done]. split; simpl; try done; try lia. constructor.
Qed.

(** C34: on a table that keeps its invariant, with room in its counters, a call
    fails exactly when something it needs is refused: the lock, the copy of the
    path it returns, or, for a file seen for the first time, the copy of the path
    it keeps or the growth of a full array.  A call that fails leaves the entries
    and the next group number as they were; one that succeeds returns the group
    and first path of the entry that has the file's identity and leaves the table
    alone, or appends one entry for it with the next number.  The invariant
    (distinct identities, group numbers 1, 2, 3, ... in order) is kept. *)
Theorem hardlink_assign_atomic al t path dev ino
    (Ht : table_wf t) (Hc : ht_capacity t < 2 ^ 62) (Hg : next_gid t < INT_MAX) :
  exists t' r, hardlink_table_assign al t path dev ino = Ret (t', r) /\ table_wf t' /\
    assigned t t' path (dev, ino) r /\ (r = None <-> refused al t (dev, ino)).
Proof. by apply assign_spec. Qed.

Definition scan3 : list (list byte * (Z * Z)) :=
  [(cs "a", (1, 10)); (cs "b", (1, 11)); (cs "c", (1, 10))].

(** The returned path cannot be copied: the entry just added is taken back. *)
Lemma hardlink_assign_atomic_witness :
  hardlink_table_assign (MkAllocs true true true false) (MkTable [] 0 1) (cs "a") 1 10
  = Ret (MkTable [] 8 1, None) /\ table_wf (MkTable [] 8 1) /\
  refused (MkAllocs true true true false) (MkTable [] 0 1) (1, 10).
Proof.
  destruct (hardlink_assign_atomic (MkAllocs true true true false) (MkTable [] 0 1) (cs "a") 1 10)
    as (t'&r&E&Hwf&_&Hr); [split; simpl; try done; constructor|done..|].
  injection E as <- <-. split; [reflexivity|]. split; [done|]. by apply Hr.
Defined.
