(* ===== verification/Chmod.v ===== *)
(** The [--chmod] interpreter of src/shared/chmod.c: a state machine over the
    characters of the specification that applies each clause as it ends. *)

From S2P Require Import Prelude.

(** Octal constants of the source in hexadecimal: 07777 = 0xfff, 0111 = 0x49,
    0100 = 0x40, 04000 = 0x800, 02000 = 0x400, 01000 = 0x200. *)
Definition CHMOD_BITS : Z := 0xfff.
Definition CHMOD_FLAG_X_KEEP : Z := 1.
Definition CHMOD_FLAG_DIRS_ONLY : Z := 2.
Definition CHMOD_FLAG_FILES_ONLY : Z := 4.

(** [enum chmod_op] with 0 for "none yet", [enum chmod_state] *)
Inductive chmod_op := OP_NONE | OP_ADD | OP_SUB | OP_EQ | OP_SET.
Inductive chmod_state := STATE_1ST_HALF | STATE_2ND_HALF | STATE_OCTAL.

(** The locals of a clause: [where], [what], [op], [topbits], [topoct], [flags]. *)
Record clause := MkClause {
  c_where : Z; c_what : Z; c_op : chmod_op; c_topbits : Z; c_topoct : Z; c_flags : Z;
}.
Definition clause0 : clause := MkClause 0 0 OP_NONE 0 0 0.

Definition flag (c : clause) (f : Z) : bool := negb (Z.land (c_flags c) f =? 0).
Definition S_IFMT : Z := 0xf000.
Definition S_IFDIR : Z := 0x4000.
Definition S_ISDIR (m : Z) : bool := Z.land m S_IFMT =? S_IFDIR.

Section Chmod.
Context (umask : Z).      (** [file_process_umask()] *)

(** The permission bits a finished clause names; an empty "who" means all,
    less the process umask.  Returns [where] as it is afterwards. *)
Definition clause_bits (c : clause) : Z * Z :=
  if negb (c_where c =? 0) then (c_where c, i32 (u32 (c_where c * c_what c)))
  else (0x49, i32 (Z.land (u32 (0x49 * c_what c)) (Z.ldiff UINT32_MAX umask))).

(** [mode_and], [mode_or] of the clause. *)
Definition clause_masks (c : clause) : Z * Z :=
  let '(where_, bits) := clause_bits c in
  match c_op c with
  | OP_ADD => (CHMOD_BITS, bits + c_topoct c)
  | OP_SUB => (CHMOD_BITS - bits - c_topoct c, 0)
  | OP_EQ => (CHMOD_BITS - i32 (u32 (where_ * 7))
                - (if negb (c_topoct c =? 0) then c_topbits c else 0),
              bits + c_topoct c)
  | _ => (0, bits)
  end.

(** The effect of a finished clause on [changed]. *)
Definition clause_apply (nonperm : Z) (initially_executable : bool) (c : clause) (changed : Z) : Z :=
  let '(mode_and, mode_or) := clause_masks c in
  let is_dir := S_ISDIR nonperm in
  if negb (flag c CHMOD_FLAG_DIRS_ONLY && negb is_dir)
     && negb (flag c CHMOD_FLAG_FILES_ONLY && is_dir) then
    let changed := Z.land changed (u32 mode_and) in
    if flag c CHMOD_FLAG_X_KEEP && negb initially_executable && negb is_dir
    then Z.lor changed (u32 (Z.ldiff mode_or 0x49))
    else Z.lor changed (u32 mode_or)
  else changed.

(** A character in [CHMOD_STATE_1ST_HALF]; [None] is [CHMOD_STATE_ERROR]. *)
Definition first_half (c : clause) (p : byte) : option (chmod_state * clause) :=
  let '(MkClause wh wt op tb tc fl) := c in
  if byte_eq_dec p "D"%byte then
    if flag c CHMOD_FLAG_FILES_ONLY then None
    else Some (STATE_1ST_HALF, MkClause wh wt op tb tc (Z.lor fl CHMOD_FLAG_DIRS_ONLY))
  else if byte_eq_dec p "F"%byte then
    if flag c CHMOD_FLAG_DIRS_ONLY then None
    else Some (STATE_1ST_HALF, MkClause wh wt op tb tc (Z.lor fl CHMOD_FLAG_FILES_ONLY))
  else if byte_eq_dec p "u"%byte then
    Some (STATE_1ST_HALF, MkClause (Z.lor wh 0x40) wt op (Z.lor tb 0x800) tc fl)
  else if byte_eq_dec p "g"%byte then
    Some (STATE_1ST_HALF, MkClause (Z.lor wh 0x8) wt op (Z.lor tb 0x400) tc fl)
  else if byte_eq_dec p "o"%byte then Some (STATE_1ST_HALF, MkClause (Z.lor wh 0x1) wt op tb tc fl)
  else if byte_eq_dec p "a"%byte then Some (STATE_1ST_HALF, MkClause (Z.lor wh 0x49) wt op tb tc fl)
  else if byte_eq_dec p "+"%byte then Some (STATE_2ND_HALF, MkClause wh wt OP_ADD tb tc fl)
  else if byte_eq_dec p "-"%byte then Some (STATE_2ND_HALF, MkClause wh wt OP_SUB tb tc fl)
  else if byte_eq_dec p "="%byte then Some (STATE_2ND_HALF, MkClause wh wt OP_EQ tb tc fl)
  else if (bZ "0"%byte <=? bZ p) && (bZ p <=? bZ "7"%byte) && (wh =? 0) then
    Some (STATE_OCTAL, MkClause 1 (bZ p - bZ "0"%byte) OP_SET tb tc fl)
  else None.

(** A character in [CHMOD_STATE_2ND_HALF]. *)
Definition second_half (c : clause) (p : byte) : option (chmod_state * clause) :=
  let '(MkClause wh wt op tb tc fl) := c in
  if byte_eq_dec p "r"%byte then Some (STATE_2ND_HALF, MkClause wh (Z.lor wt 4) op tb tc fl)
  else if byte_eq_dec p "w"%byte then Some (STATE_2ND_HALF, MkClause wh (Z.lor wt 2) op tb tc fl)
  else if byte_eq_dec p "X"%byte then
    Some (STATE_2ND_HALF, MkClause wh (Z.lor wt 1) op tb tc (Z.lor fl CHMOD_FLAG_X_KEEP))
  else if byte_eq_dec p "x"%byte then Some (STATE_2ND_HALF, MkClause wh (Z.lor wt 1) op tb tc fl)
  else if byte_eq_dec p "s"%byte then
    Some (STATE_2ND_HALF, MkClause wh wt op tb (if negb (tb =? 0) then Z.lor tc tb else 0x800) fl)
  else if byte_eq_dec p "t"%byte then Some (STATE_2ND_HALF, MkClause wh wt op tb (Z.lor tc 0x200) fl)
  else None.

(** A character in [CHMOD_STATE_OCTAL]. *)
Definition octal (c : clause) (p : byte) : option (chmod_state * clause) :=
  if (bZ "0"%byte <=? bZ p) && (bZ p <=? bZ "7"%byte) then
    let what := c_what c * 8 + (bZ p - bZ "0"%byte) in
    if what >? CHMOD_BITS then None
    else Some (STATE_OCTAL, MkClause (c_where c) what (c_op c) (c_topbits c) (c_topoct c) (c_flags c))
  else None.

Definition in_state (s : chmod_state) : clause -> byte -> option (chmod_state * clause) :=
  match s with STATE_1ST_HALF => first_half | STATE_2ND_HALF => second_half | STATE_OCTAL => octal end.

(** The loop, over the rest [p] of the specification; the end of the list is
    the terminating NUL. *)
Fixpoint chmod_loop (nonperm : Z) (exec : bool) (p : list byte) (s : chmod_state) (c : clause)
    (changed : Z) : option Z :=
  match p with
  | [] => match c_op c with
          | OP_NONE => None
          | _ => Some (clause_apply nonperm exec c changed)
          end
  | b :: p =>
      if byte_eq_dec b ","%byte then
        match c_op c with
        | OP_NONE => None
        | _ => chmod_loop nonperm exec p STATE_1ST_HALF clause0 (clause_apply nonperm exec c changed)
        end
      else match in_state s c b with
           | None => None
           | Some (s, c) => chmod_loop nonperm exec p s c changed
           end
  end.

(** chmod.c [chmod_apply], [None] for [false]; [mode_t] is 32 bits wide. *)
Definition chmod_apply (mode : Z) (spec : list byte) : option Z :=
  match spec with
  | [] => None
  | _ =>
      let nonperm := Z.land mode (Z.ldiff UINT32_MAX CHMOD_BITS) in
      let initially_executable := negb (Z.land mode 0x49 =? 0) in
      changed ← chmod_loop nonperm initially_executable spec STATE_1ST_HALF clause0 mode;
      Some (Z.lor (Z.land changed CHMOD_BITS) nonperm)
  end.

(** ** Invariant of the parser *)

(** [x] has no bit outside [m]. *)
Definition within (x m : Z) : Prop := 0 <= x /\ Z.ldiff x m = 0.

Record clause_wf (c : clause) : Prop := {
  cw_where : within (c_where c) 0x49;
  cw_what : match c_op c with OP_SET => 0 <= c_what c <= 0xfff | _ => within (c_what c) 7 end;
  cw_set : c_op c = OP_SET -> c_where c = 1 /\ c_topoct c = 0;
  cw_topbits : within (c_topbits c) 0xc00;
  cw_topoct : within (c_topoct c) 0xe00;
}.

Definition state_wf (s : chmod_state) (c : clause) : Prop :=
  clause_wf c /\
  match s with
  | STATE_1ST_HALF => c_op c = OP_NONE /\ c_what c = 0 /\ c_topoct c = 0
  | STATE_2ND_HALF => c_op c = OP_ADD \/ c_op c = OP_SUB \/ c_op c = OP_EQ
  | STATE_OCTAL => c_op c = OP_SET
  end.

Lemma within_lor x y m : within x m -> within y m -> within (Z.lor x y) m.
Proof.
  intros [Hx Ex] [Hy Ey]. split; [by apply Z.lor_nonneg|].
  rewrite !Z.ldiff_land, Z.land_lor_distr_l, <- !Z.ldiff_land, Ex, Ey. done.
Qed.

Lemma within_testbit x m i : within x m -> 0 <= i -> Z.testbit m i = false -> Z.testbit x i = false.
Proof.
  intros [Hx E] Hi Hm. assert (Hb : Z.testbit (Z.ldiff x m) i = false) by (rewrite E; apply Z.bits_0).
  rewrite Z.ldiff_spec, Hm, andb_true_r in Hb by done. done.
Qed.

Lemma within_weaken x m m' : within x m -> Z.ldiff m m' = 0 -> within x m'.
Proof.
  intros Hw Hm. split; [apply Hw|]. apply Z.bits_inj'. intros i Hi. rewrite Z.ldiff_spec, Z.bits_0.
  destruct (Z.testbit m' i) eqn:E'; [apply andb_false_r|]. rewrite andb_true_r.
  apply (within_testbit x m); [done..|].
  assert (Hb : Z.testbit (Z.ldiff m m') i = false) by (rewrite Hm; apply Z.bits_0).
  by rewrite Z.ldiff_spec, E', andb_true_r in Hb.
Qed.

Lemma within_bound x m : 0 <= m -> within x m -> x <= m.
Proof. intros Hm [Hx E]. by apply Z.ldiff_le. Qed.

Ltac within_tac :=
  idtac; first [ assumption | split; [lia|reflexivity] | apply within_lor; within_tac ].

Lemma clause0_wf : state_wf STATE_1ST_HALF clause0.
Proof. split; [|done]. by split. Qed.

Lemma first_half_wf c p s' c' :
  state_wf STATE_1ST_HALF c -> first_half c p = Some (s', c') -> state_wf s' c'.
Proof.
  intros [[H1 H2 H3 H4 H5] (E1&E2&E3)]. destruct c as [wh wt op tb tc fl]; simpl in *. subst.
  unfold first_half. intros Hs.
  repeat match type of Hs with
  | (if byte_eq_dec ?a ?b then _ else _) = _ => destruct (byte_eq_dec a b)
  | (if flag ?c ?f then _ else _) = _ => destruct (flag c f); [discriminate|]
  end; try (injection Hs as <- <-; split; [split; simpl; try done; within_tac|simpl; auto; fail]).
  destruct (_ && _) eqn:E in Hs; [|discriminate]. injection Hs as <- <-. bool_to_prop.
  change (bZ "0"%byte) with 48 in *. change (bZ "7"%byte) with 55 in *.
  split; [|done]. split; simpl; try done; try lia; within_tac.
Qed.

Lemma second_half_wf c p s' c' :
  state_wf STATE_2ND_HALF c -> second_half c p = Some (s', c') -> state_wf s' c'.
Proof.
  intros [[H1 H2 H3 H4 H5] Ho]. destruct c as [wh wt op tb tc fl]; simpl in *.
  assert (Hset : op <> OP_SET) by (intros ->; naive_solver).
  assert (Hwt : within wt 7) by (destruct op; done).
  unfold second_half. intros Hs.
  repeat match type of Hs with
  | (if byte_eq_dec ?a ?b then _ else _) = _ => destruct (byte_eq_dec a b)
  end; try discriminate; injection Hs as <- <-; (split; [|done]); split; simpl; try done;
    try (intros ?; done); try within_tac;
    try (destruct op; try done; within_tac).
  assert (within tb 0xe00) by (by apply within_weaken with 0xc00).
  destruct (negb _); within_tac.
Qed.

Lemma octal_wf c p s' c' :
  state_wf STATE_OCTAL c -> octal c p = Some (s', c') -> state_wf s' c'.
Proof.
  intros [[H1 H2 H3 H4 H5] Ho]. simpl in Ho. rewrite Ho in *. unfold octal. intros Hs.
  destruct (_ && _) eqn:E in Hs; [|discriminate]. bool_to_prop.
  destruct (Z.gtb_spec (c_what c * 8 + (bZ p - bZ "0"%byte)) CHMOD_BITS); [discriminate|].
  injection Hs as <- <-. unfold CHMOD_BITS in *. change (bZ "0"%byte) with 48 in *.
  split; [|done]. split; simpl; rewrite ?Ho; try done; try lia; auto.
Qed.

Lemma in_state_wf s c p s' c' :
  state_wf s c -> in_state s c p = Some (s', c') -> state_wf s' c'.
Proof. destruct s; [apply first_half_wf|apply second_half_wf|apply octal_wf]. Qed.

(** ** What a clause does, bit by bit *)

(** The octal digit (user 6, group 3, other 0) bit [i] belongs to, and whether
    the clause's "who" names it. *)
Definition who (c : clause) (i : Z) : bool := (c_where c =? 0) || Z.testbit (c_where c) (i / 3 * 3).

(** Does the clause name permission bit [i]: a class it selects, a letter it
    lists and, with no class given, a bit the umask leaves. *)
Definition names (c : clause) (i : Z) : bool :=
  who c i && Z.testbit (c_what c) (i mod 3) && negb ((c_where c =? 0) && Z.testbit umask i).

(** Bit [i] of the new mode from bit [b] of the old, for a symbolic clause:
    bits 0 to 8 are rwx per class, bits 9 to 11 sticky, setgid and setuid.  With
    [X] held back the execute bits of a plain file are not added. *)
Definition clause_bit (hold_x : bool) (c : clause) (i : Z) (b : bool) : bool :=
  if i <? 9 then
    let add := names c i && negb (hold_x && (i mod 3 =? 0)) in
    match c_op c with
    | OP_ADD => b || add
    | OP_SUB => b && negb (names c i)
    | OP_EQ => if who c i then add else b
    | _ => b
    end
  else
    let t := Z.testbit (c_topoct c) i in
    match c_op c with
    | OP_ADD => b || t
    | OP_SUB => b && negb t
    | OP_EQ => if negb (c_topoct c =? 0) && Z.testbit (c_topbits c) i then t else b || t
    | _ => b
    end.

(** [where * what] copies the letters to every class selected. *)
Lemma where_what_bits wh wt i :
  within wh 0x49 -> within wt 7 -> 0 <= i < 12 ->
  Z.testbit (wh * wt) i = (i <? 9) && Z.testbit wh (i / 3 * 3) && Z.testbit wt (i mod 3).
Proof.
  intros Hwh Hwt Hi. pose proof (within_bound wh 0x49 ltac:(lia) Hwh).
  pose proof (within_bound wt 7 ltac:(lia) Hwt). destruct Hwh as [Hwh0 Hwh], Hwt as [Hwt0 _].
  assert (Hall : forallb (fun w => implb (Z.ldiff w 0x49 =? 0) (forallb (fun t => forallb (fun k =>
    Bool.eqb (Z.testbit (w * t) k) ((k <? 9) && Z.testbit w (k / 3 * 3) && Z.testbit t (k mod 3)))
    (seqZ 0 12)) (seqZ 0 8))) (seqZ 0 0x4a) = true) by (vm_compute; reflexivity).
  rewrite forallb_forall in Hall. specialize (Hall wh ltac:(apply list_elem_of_In, elem_of_seqZ; lia)).
  rewrite Hwh, Z.eqb_refl in Hall. cbn [implb] in Hall.
  rewrite forallb_forall in Hall. specialize (Hall wt ltac:(apply list_elem_of_In, elem_of_seqZ; lia)).
  rewrite forallb_forall in Hall. specialize (Hall i ltac:(apply list_elem_of_In, elem_of_seqZ; lia)).
  by apply Bool.eqb_prop in Hall.
Qed.

Lemma where_what_within wh wt :
  within wh 0x49 -> within wt 7 -> within (wh * wt) 0x1ff.
Proof.
  intros Hwh Hwt. pose proof (within_bound wh 0x49 ltac:(lia) Hwh).
  pose proof (within_bound wt 7 ltac:(lia) Hwt). destruct Hwh as [Hwh0 Hwh], Hwt as [Hwt0 _].
  assert (Hall : forallb (fun w => forallb (fun t => Z.ldiff (w * t) 0x1ff =? 0)
    (seqZ 0 8)) (seqZ 0 0x4a) = true) by (vm_compute; reflexivity).
  rewrite forallb_forall in Hall. specialize (Hall wh ltac:(apply list_elem_of_In, elem_of_seqZ; lia)).
  rewrite forallb_forall in Hall. specialize (Hall wt ltac:(apply list_elem_of_In, elem_of_seqZ; lia)).
  split; [nia|]. by apply Z.eqb_eq in Hall.
Qed.

Lemma within_sub a b m i :
  within a m -> within b m -> Z.land a b = 0 -> 0 <= i ->
  Z.testbit (m - a - b) i = Z.testbit m i && negb (Z.testbit a i) && negb (Z.testbit b i).
Proof.
  intros [Ha Ea] [Hb Eb] Hd Hi. rewrite (Z.sub_nocarry_ldiff m a) by done.
  rewrite Z.sub_nocarry_ldiff.
  - by rewrite !Z.ldiff_spec.
  - apply Z.bits_inj'. intros k Hk. rewrite !Z.ldiff_spec, Z.bits_0.
    assert (B1 : Z.testbit (Z.ldiff b m) k = false) by (rewrite Eb; apply Z.bits_0).
    assert (B2 : Z.testbit (Z.land a b) k = false) by (rewrite Hd; apply Z.bits_0).
    rewrite Z.ldiff_spec in B1. rewrite Z.land_spec in B2.
    destruct (Z.testbit a k), (Z.testbit b k), (Z.testbit m k); done.
Qed.

Lemma add_bits a b i : Z.land a b = 0 -> Z.testbit (a + b) i = Z.testbit a i || Z.testbit b i.
Proof. intros Hd. rewrite Z.add_nocarry_lxor, Z.lxor_lor by done. apply Z.lor_spec. Qed.

Lemma within_disjoint a b m n : within a m -> within b n -> Z.land m n = 0 -> Z.land a b = 0.
Proof.
  intros Ha Hb Hd. apply Z.bits_inj'. intros i Hi. rewrite Z.land_spec, Z.bits_0.
  destruct (Z.testbit m i) eqn:E.
  - assert (Hn : Z.testbit (Z.land m n) i = false) by (rewrite Hd; apply Z.bits_0).
    rewrite Z.land_spec, E in Hn. rewrite (within_testbit b n) by done. apply andb_false_r.
  - by rewrite (within_testbit a m).
Qed.

Lemma all_classes i : 0 <= i < 9 -> Z.testbit 0x49 (i / 3 * 3) = true.
Proof.
  intros Hi. assert (i / 3 < 3) by (apply Z.div_lt_upper_bound; lia).
  assert (0 <= i / 3) by (apply Z.div_pos; lia).
  assert (i / 3 = 0 \/ i / 3 = 1 \/ i / 3 = 2) as [->|[->| ->]] by lia; done.
Qed.

(** The bits a symbolic clause names and the classes it selects. *)
Lemma clause_bits_spec c where_ bits :
  clause_wf c -> c_op c <> OP_SET -> clause_bits c = (where_, bits) ->
  within bits 0x1ff /\ within where_ 0x49 /\
  (forall i, 0 <= i < 12 -> Z.testbit bits i = (i <? 9) && names c i) /\
  (forall i, 0 <= i < 12 -> Z.testbit (where_ * 7) i = (i <? 9) && who c i).
Proof.
  intros [H1 H2 _ _ _] Hop E. assert (Hw : within (c_what c) 7) by (destruct (c_op c); done).
  assert (H7 : within 7 7) by done. assert (H111 : within 0x49 0x49) by done.
  assert (Hsmall : forall w t, within w 0x49 -> within t 7 -> u32 (w * t) = w * t /\ 0 <= w * t <= 0x1ff).
  { intros w t ? ?. pose proof (where_what_within w t) as Hww.
    pose proof (within_bound (w * t) 0x1ff ltac:(lia) ltac:(auto)). destruct (Hww ltac:(auto) ltac:(auto)).
    rewrite u32_small; lia. }
  assert (Hmod : forall i, 0 <= i < 12 -> Z.testbit 7 (i mod 3) = true).
  { intros i Hi. pose proof (Z.mod_pos_bound i 3 ltac:(lia)).
    assert (i mod 3 = 0 \/ i mod 3 = 1 \/ i mod 3 = 2) as [->|[->| ->]] by lia; done. }
  unfold clause_bits in E. unfold names, who. destruct (Z.eqb_spec (c_where c) 0) as [E0|E0]; cbn [negb] in E.
  - apply pair_equal_spec in E as [<- <-]. destruct (Hsmall 0x49 (c_what c)) as [-> Hr]; [done..|].
    set (bits := Z.land _ _).
    assert (Hb : forall i, 0 <= i < 32 -> Z.testbit bits i = Z.testbit (0x49 * c_what c) i && negb (Z.testbit umask i)).
    { intros i Hi. subst bits. rewrite Z.land_spec, Z.ldiff_spec.
      change UINT32_MAX with (Z.ones 32). rewrite Z.ones_spec_low by lia. done. }
    assert (Hn : 0 <= bits) by (apply Z.land_nonneg; lia).
    assert (Hwi : within bits 0x1ff).
    { split; [done|]. subst bits. rewrite Z.ldiff_land, <- Z.land_assoc, (Z.land_comm (Z.ldiff _ _)), Z.land_assoc, <- Z.ldiff_land.
      destruct (where_what_within 0x49 (c_what c)) as [_ ->]; done. }
    pose proof (within_bound bits 0x1ff ltac:(lia) Hwi).
    rewrite i32_small by lia. split_and!; [done|done| |].
    + intros i Hi. rewrite Hb, where_what_bits by (done || lia). cbn [orb andb].
      destruct (Z.ltb_spec i 9); [rewrite all_classes by lia|]; done.
    + intros i Hi. rewrite where_what_bits, Hmod by (done || lia). rewrite andb_true_r.
      destruct (Z.ltb_spec i 9); [rewrite all_classes by lia|]; done.
  - apply pair_equal_spec in E as [<- <-]. destruct (Hsmall (c_where c) (c_what c)) as [-> Hr]; [done..|].
    rewrite i32_small by lia. split_and!; [by apply where_what_within|done| |].
    + intros i Hi. rewrite where_what_bits by done. cbn [orb andb negb]. by rewrite andb_true_r, andb_assoc.
    + intros i Hi. rewrite where_what_bits, Hmod by (done || lia). by rewrite andb_true_r.
Qed.

Lemma u32_bit x i : 0 <= i < 32 -> Z.testbit (u32 x) i = Z.testbit x i.
Proof. intros. unfold u32. apply Z.mod_pow2_bits_low. lia. Qed.

Lemma perm_bits_bit i : 0 <= i < 12 -> Z.testbit CHMOD_BITS i = true.
Proof. intros. change CHMOD_BITS with (Z.ones 12). by apply Z.ones_spec_low. Qed.

Lemma exec_bits_bit i : 0 <= i < 12 -> Z.testbit 0x49 i = (i <? 9) && (i mod 3 =? 0).
Proof.
  intros Hi. assert (Hall : forallb (fun k => Bool.eqb (Z.testbit 0x49 k) ((k <? 9) && (k mod 3 =? 0)))
    (seqZ 0 12) = true) by (vm_compute; reflexivity).
  rewrite forallb_forall in Hall. specialize (Hall i ltac:(apply list_elem_of_In, elem_of_seqZ; lia)).
  by apply Bool.eqb_prop in Hall.
Qed.

Lemma names_who c i : names c i = true -> who c i = true.
Proof. unfold names. by destruct (who c i). Qed.

(** Is the clause restricted to the other kind of file. *)
Definition applies (nonperm : Z) (c : clause) : bool :=
  negb (flag c CHMOD_FLAG_DIRS_ONLY && negb (S_ISDIR nonperm))
  && negb (flag c CHMOD_FLAG_FILES_ONLY && S_ISDIR nonperm).
Definition holds_x (nonperm : Z) (exec : bool) (c : clause) : bool :=
  flag c CHMOD_FLAG_X_KEEP && negb exec && negb (S_ISDIR nonperm).

(** The two masks of a symbolic clause, bit by bit. *)
Lemma clause_masks_spec c mode_and mode_or :
  clause_wf c -> c_op c = OP_ADD \/ c_op c = OP_SUB \/ c_op c = OP_EQ ->
  clause_masks c = (mode_and, mode_or) ->
  forall i b, 0 <= i < 12 ->
    (b && Z.testbit mode_and i) || Z.testbit mode_or i = clause_bit false c i b /\
    (b && Z.testbit mode_and i) || (Z.testbit mode_or i && negb (Z.testbit 0x49 i)) = clause_bit true c i b.
Proof.
  intros Hwf Hop E i b Hi. assert (Hns : c_op c <> OP_SET) by (destruct Hop as [->|[->| ->]]; done).
  unfold clause_masks in E. destruct (clause_bits c) as [w bits] eqn:Eb.
  destruct (clause_bits_spec c w bits Hwf Hns Eb) as (Hbits&Hw&Hbit&Hwbit).
  destruct Hwf as [_ _ _ Htb Htc].
  assert (Hd : Z.land bits (c_topoct c) = 0) by (by apply within_disjoint with 0x1ff 0xe00).
  assert (Hb12 : within bits CHMOD_BITS) by (by apply within_weaken with 0x1ff).
  assert (Ht12 : within (c_topoct c) CHMOD_BITS) by (by apply within_weaken with 0xe00).
  assert (Hlow : i <? 9 = true -> Z.testbit (c_topoct c) i = false /\ Z.testbit (c_topbits c) i = false).
  { intros H9. assert (Z.testbit 0xe00 i = false /\ Z.testbit 0xc00 i = false) as [T1 T2].
    { apply Z.ltb_lt in H9. assert (Hall : forallb (fun k => negb (Z.testbit 0xe00 k) && negb (Z.testbit 0xc00 k))
        (seqZ 0 9) = true) by reflexivity.
      rewrite forallb_forall in Hall. specialize (Hall i ltac:(apply list_elem_of_In, elem_of_seqZ; lia)).
      by bool_to_prop. }
    split; [apply (within_testbit _ 0xe00)|apply (within_testbit _ 0xc00)]; done || lia. }
  pose proof (names_who c i) as Hnw. rewrite exec_bits_bit by done. unfold clause_bit.
  destruct Hop as [Eo|[Eo|Eo]]; rewrite Eo in *; apply pair_equal_spec in E as [<- <-].
  - rewrite add_bits, Hbit, perm_bits_bit by done. rewrite andb_true_r.
    destruct (i <? 9); [destruct (Hlow eq_refl) as [-> _]|]; simpl;
      destruct b, (names c i), (i mod 3 =? 0), (Z.testbit (c_topoct c) i); done.
  - rewrite within_sub, Hbit, perm_bits_bit, Z.bits_0 by (done || lia).
    destruct (i <? 9); [destruct (Hlow eq_refl) as [-> _]|]; simpl;
      destruct b, (names c i), (i mod 3 =? 0), (Z.testbit (c_topoct c) i); done.
  - pose proof (where_what_within w 7 Hw ltac:(done)) as Hw7.
    pose proof (within_bound _ 0x1ff ltac:(lia) Hw7). destruct Hw7 as [Hw70 Hw7].
    rewrite u32_small, i32_small by lia.
    set (tb := if negb (c_topoct c =? 0) then c_topbits c else 0).
    assert (Htb' : within tb 0xc00) by (subst tb; destruct (negb _); done).
    rewrite within_sub, add_bits, Hbit, Hwbit, perm_bits_bit; try done; try lia;
      [|by apply within_weaken with 0x1ff|by apply within_weaken with 0xc00
       |by apply (within_disjoint _ _ 0x1ff 0xc00)].
    assert (Z.testbit tb i = negb (c_topoct c =? 0) && Z.testbit (c_topbits c) i) as ->.
    { subst tb. destruct (negb _); simpl; [done|apply Z.bits_0]. }
    destruct (i <? 9); [destruct (Hlow eq_refl) as [-> ->]|]; simpl; rewrite ?andb_false_r, ?andb_true_r, ?orb_false_r; simpl.
    + destruct (names c i); [rewrite Hnw by done|]; destruct b, (who c i), (i mod 3 =? 0); done.
    + destruct b, (negb (c_topoct c =? 0)), (Z.testbit (c_topbits c) i), (Z.testbit (c_topoct c) i); done.
Qed.

Lemma clause_apply_bit nonperm exec c changed i :
  clause_wf c -> c_op c = OP_ADD \/ c_op c = OP_SUB \/ c_op c = OP_EQ -> 0 <= i < 12 ->
  Z.testbit (clause_apply nonperm exec c changed) i
  = if applies nonperm c then clause_bit (holds_x nonperm exec c) c i (Z.testbit changed i)
    else Z.testbit changed i.
Proof.
  intros Hwf Hop Hi. unfold clause_apply, applies, holds_x.
  destruct (clause_masks c) as [ma mo] eqn:E.
  destruct (clause_masks_spec c ma mo Hwf Hop E i (Z.testbit changed i) Hi) as [E1 E2].
  destruct (_ && negb (_ && S_ISDIR nonperm)); [|done].
  destruct (flag c CHMOD_FLAG_X_KEEP && negb exec && negb (S_ISDIR nonperm));
    rewrite Z.lor_spec, Z.land_spec, !u32_bit by lia; [|done].
  by rewrite Z.ldiff_spec.
Qed.

(** ** Clauses accumulate *)

(** Clauses accumulate left to right.  Running a specification that has a
    comma is running the part before it and then the part after it on the mode
    the first part produced, with the parser reset; an error in either part is
    an error of the whole. *)
Lemma chmod_loop_app nonperm exec a b s c changed :
  chmod_loop nonperm exec (a ++ ","%byte :: b) s c changed
  = match chmod_loop nonperm exec a s c changed with
    | Some changed => chmod_loop nonperm exec b STATE_1ST_HALF clause0 changed
    | None => None
    end.
Proof.
  revert s c changed. induction a as [|x a IH]; intros s c changed; simpl.
  - by destruct (c_op c).
  - destruct (byte_eq_dec x ","%byte).
    + destruct (c_op c); [done|apply IH..].
    + destruct (in_state s c x) as [[s' c']|]; [apply IH|done].
Qed.

(** The characters of one clause. *)
Fixpoint parse_clause (p : list byte) (s : chmod_state) (c : clause) : option (chmod_state * clause) :=
  match p with
  | [] => Some (s, c)
  | b :: p => match in_state s c b with Some (s, c) => parse_clause p s c | None => None end
  end.

Lemma chmod_loop_clause nonperm exec p s c changed :
  ","%byte ∉ p ->
  chmod_loop nonperm exec p s c changed
  = match parse_clause p s c with
    | Some (_, c) => match c_op c with OP_NONE => None | _ => Some (clause_apply nonperm exec c changed) end
    | None => None
    end.
Proof.
  revert s c. induction p as [|x p IH]; intros s c Hp; simpl; [done|].
  destruct (byte_eq_dec x ","%byte) as [->|]; [set_solver|].
  destruct (in_state s c x) as [[s' c']|]; [|done]. apply IH. set_solver.
Qed.

Lemma parse_clause_wf p s c s' c' :
  state_wf s c -> parse_clause p s c = Some (s', c') -> state_wf s' c'.
Proof.
  revert s c. induction p as [|x p IH]; intros s c Hs E; simpl in E; [by simplify_eq|].
  destruct (in_state s c x) as [[s1 c1]|] eqn:E1; [|done]. apply (IH s1 c1); [|done].
  by apply (in_state_wf s c x).
Qed.

Lemma chmod_apply_finish mode p ch :
  p <> [] ->
  chmod_loop (Z.land mode (Z.ldiff UINT32_MAX CHMOD_BITS)) (negb (Z.land mode 0x49 =? 0)) p
    STATE_1ST_HALF clause0 mode = Some ch ->
  chmod_apply mode p
  = Some (Z.lor (Z.land ch CHMOD_BITS) (Z.land mode (Z.ldiff UINT32_MAX CHMOD_BITS))).
Proof. intros Hp E. unfold chmod_apply. rewrite E. by destruct p. Qed.

(** Bits 0 to 11 come from [changed], the others from the original mode. *)
Lemma finish_bit ch mode i :
  0 <= i ->
  Z.testbit (Z.lor (Z.land ch CHMOD_BITS) (Z.land mode (Z.ldiff UINT32_MAX CHMOD_BITS))) i
  = if i <? 12 then Z.testbit ch i else Z.testbit mode i && (i <? 32).
Proof.
  intros Hi. rewrite Z.lor_spec, !Z.land_spec, Z.ldiff_spec.
  change UINT32_MAX with (Z.ones 32). change CHMOD_BITS with (Z.ones 12).
  rewrite !Z.testbit_ones_nonneg by lia.
  destruct (Z.ltb_spec i 12), (Z.ltb_spec i 32); simpl; try lia;
    rewrite ?andb_true_r, ?andb_false_r, ?orb_false_r; done.
Qed.

(** [--chmod] never touches the file type.  Whatever the specification,
    when [chmod_apply] succeeds every bit above the twelve permission bits of
    the resulting mode is the bit of the original mode. *)
Lemma chmod_preserves_type mode spec r i
    (Hm : 0 <= mode < 2 ^ 32) (Hr : chmod_apply mode spec = Some r) (Hi : 12 <= i) :
  Z.testbit r i = Z.testbit mode i.
Proof.
  unfold chmod_apply in Hr. destruct spec as [|b p]; [done|].
  destruct (chmod_loop _ _ _ _ _ _) as [ch|]; simpl in Hr; [|done]. injection Hr as <-.
  rewrite finish_bit by lia. destruct (Z.ltb_spec i 12); [lia|].
  destruct (Z.ltb_spec i 32); [by rewrite andb_true_r|]. rewrite andb_false_r.
  symmetry. apply Z.bits_above_log2; [lia|].
  destruct (decide (mode = 0)) as [->|]; [simpl; lia|].
  apply Z.lt_le_trans with 32; [apply Z.log2_lt_pow2; lia|lia].
Qed.

(** The meaning of a symbolic clause.  A specification of one clause with
    an operator ([+], [-] or [=]) that parses to [c] succeeds, and sets each of
    the twelve permission bits as the clause says: [+] adds and [-] removes the
    bits named, [=] replaces those of the classes selected, an omitted class
    means all classes less the umask, [D] and [F] restrict it to directories
    and files, [X] adds execute only to directories and executable files, and
    the set-id and sticky bits follow [s] and [t]. *)
Lemma chmod_clause_meaning mode p c
    (Hp : ","%byte ∉ p) (Hc : parse_clause p STATE_1ST_HALF clause0 = Some (STATE_2ND_HALF, c)) :
  exists r, chmod_apply mode p = Some r /\ forall i, 0 <= i < 12 ->
    let nonperm := Z.land mode (Z.ldiff UINT32_MAX CHMOD_BITS) in
    let exec := negb (Z.land mode 0x49 =? 0) in
    Z.testbit r i = if applies nonperm c
                    then clause_bit (holds_x nonperm exec c) c i (Z.testbit mode i)
                    else Z.testbit mode i.
Proof.
  destruct (parse_clause_wf p _ _ _ _ clause0_wf Hc) as [Hwf Hop].
  assert (Hne : p <> []) by (intros ->; by simplify_eq/=).
  eexists. split.
  - apply chmod_apply_finish; [done|]. rewrite chmod_loop_clause, Hc by done. cbn [snd].
    destruct Hop as [->|[->| ->]]; reflexivity.
  - intros i Hi nonperm exec. rewrite finish_bit by lia. destruct (Z.ltb_spec i 12); [|lia].
    by apply clause_apply_bit.
Qed.

End Chmod.

