(* ===== verification/Glob.v ===== *)
(** [glob_match] of src/shared/utils.c: the dynamic program over four rotating
    rows, and the matching relation on patterns it computes. *)

From S2P Require Import Prelude Alloc.

Definition star : byte := "*"%byte.
Definition quest : byte := "?"%byte.
Definition slash : byte := "/"%byte.

Section Glob.
Context `{Heap}.
Context (pattern str : list byte).

Definition pattern_len : Z := zlen pattern.
Definition str_len : Z := zlen str.
Definition row_bytes : Z := str_len + 1.

(** [GLOB_ROW(i)[j]] is [rows[glob_row i j]]. *)
Definition glob_row (i j : Z) : Z := Z.land (pattern_len - i) 3 * row_bytes + j.

(** [pattern[i]] equals [c], when [i] is below the length. *)
Definition pat_is (i : Z) (c : byte) : outcome bool :=
  if i <? pattern_len then b ← ld pattern i; Ret (bool_decide (b = c)) else Ret false.

(** The position after a globstar whose stars end at [rest]. *)
Definition globstar_rest (rest : Z) : outcome Z :=
  sl ← pat_is rest slash; Ret (if sl : bool then rest + 1 else rest).

(** A loop [for (size_t j = str_len + 1; j-- > 0;)] that assigns [cur[j]]. *)
Fixpoint fill_row (cell : list Z -> Z -> outcome bool) (i : Z) (k : nat) (rows : list Z)
  : outcome (list Z) :=
  match k with
  | O => Ret rows
  | S k => let j := Z.of_nat k in
           v ← cell rows j;
           rows ← st rows (glob_row i j) (if v : bool then 1 else 0);
           fill_row cell i k rows
  end.

Definition nonzero (rows : list Z) (a : Z) : outcome bool := v ← ld rows a; Ret (negb (v =? 0)).

(** The value of [cur[j]] in the globstar, star, question-mark and literal cases. *)
Definition cell_globstar (i rest : Z) (rows : list Z) (j : Z) : outcome bool :=
  v ← nonzero rows (glob_row rest j);
  if negb v && (j <? str_len) then nonzero rows (glob_row i (j + 1)) else Ret v.

Definition cell_star (i : Z) (rows : list Z) (j : Z) : outcome bool :=
  v ← nonzero rows (glob_row (i + 1) j);
  if negb v && (j <? str_len) then
    c ← ld str j;
    if bool_decide (c <> slash) then nonzero rows (glob_row i (j + 1)) else Ret v
  else Ret v.

Definition cell_quest (i : Z) (rows : list Z) (j : Z) : outcome bool :=
  if j <? str_len then
    c ← ld str j;
    if bool_decide (c <> slash) then nonzero rows (glob_row (i + 1) (j + 1)) else Ret false
  else Ret false.

Definition cell_literal (i : Z) (pc : byte) (rows : list Z) (j : Z) : outcome bool :=
  eq ← (if j <? str_len then c ← ld str j; Ret (bool_decide (c = pc)) else Ret false);
  if eq : bool then nonzero rows (glob_row (i + 1) (j + 1))
  else
    skip ← (if bool_decide (pc = slash) && (i + 2 <? pattern_len) then
              s1 ← pat_is (i + 1) star; s2 ← pat_is (i + 2) star; Ret (s1 && s2)
            else Ret false);
    if skip : bool then
      rest ← globstar_rest (i + 3);
      nonzero rows (glob_row rest j)
    else Ret false.

(** One iteration of the outer loop: the row of pattern position [i]. *)
Definition glob_step (i : Z) (rows : list Z) : outcome (list Z) :=
  pc ← ld pattern i;
  if bool_decide (pc = star) then
    s1 ← pat_is (i + 1) star;
    if s1 : bool then
      rest ← globstar_rest (i + 2);
      fill_row (cell_globstar i rest) i (S (length str)) rows
    else fill_row (cell_star i) i (S (length str)) rows
  else if bool_decide (pc = quest) then fill_row (cell_quest i) i (S (length str)) rows
  else fill_row (cell_literal i pc) i (S (length str)) rows.

(** [for (size_t i = pattern_len; i-- > 0;)] *)
Fixpoint glob_rows (k : nat) (rows : list Z) : outcome (list Z) :=
  match k with
  | O => Ret rows
  | S k => rows ← glob_step (Z.of_nat k) rows; glob_rows k rows
  end.

(** The base row. *)
Definition cell_base (_ : list Z) (j : Z) : outcome bool := Ret (j =? str_len).

(** utils.c [glob_match] on two strings. *)
Definition glob_match : outcome bool :=
  if pattern_len =? 0 then Ret (str_len =? 0)
  else if str_len >? SIZE_MAX / (pattern_len + 1) - 1 then Ret false
  else if u64 ((pattern_len + 1) * (str_len + 1)) >? 64 * 1024 * 1024 then Ret false
  else if (row_bytes >? 257) && negb (malloc_ok (4 * row_bytes)) then Ret false
  else
    rows ← fill_row cell_base pattern_len (S (length str))
             (junk_words (4 * Z.max 257 row_bytes));
    rows ← glob_rows (length pattern) rows;
    nonzero rows (glob_row 0 0).
End Glob.

(** ** The matching relation

    [gmatch p s] by recursion on the pattern: [?] takes one character of a
    component, [*] a run of characters of a component, [**] any run (with the
    slash that may follow it), and a slash before [**] may also match nothing. *)
Fixpoint exists_suffix (f : list byte -> bool) (s : list byte) : bool :=
  f s || match s with [] => false | _ :: t => exists_suffix f t end.
Fixpoint exists_suffix_comp (f : list byte -> bool) (s : list byte) : bool :=
  f s || match s with [] => false | c :: t => bool_decide (c <> slash) && exists_suffix_comp f t end.

Definition head_is (c : byte) (p : list byte) : bool :=
  match p with b :: _ => bool_decide (b = c) | [] => false end.

Fixpoint gmatch (p s : list byte) : bool :=
  match p with
  | [] => match s with [] => true | _ => false end
  | pc :: p1 =>
      (* the match past a globstar that ends before [q] *)
      let past := fun (q : list byte) (m0 m1 : list byte -> bool) =>
        if head_is slash q then m1 else m0 in
      if bool_decide (pc = star) then
        match p1 with
        | b :: p2 =>
            if bool_decide (b = star) then
              exists_suffix (past p2 (gmatch p2) (match p2 with _ :: p3 => gmatch p3 | [] => fun _ => false end)) s
            else exists_suffix_comp (gmatch p1) s
        | [] => exists_suffix_comp (gmatch p1) s
        end
      else if bool_decide (pc = quest) then
        match s with c :: t => bool_decide (c <> slash) && gmatch p1 t | [] => false end
      else
        match s with
        | c :: t => if bool_decide (c = pc) then gmatch p1 t else
            match p1 with
            | b1 :: b2 :: p3 =>
                bool_decide (pc = slash) && bool_decide (b1 = star) && bool_decide (b2 = star)
                && past p3 (gmatch p3) (match p3 with _ :: p4 => gmatch p4 | [] => fun _ => false end) s
            | _ => false
            end
        | [] =>
            match p1 with
            | b1 :: b2 :: p3 =>
                bool_decide (pc = slash) && bool_decide (b1 = star) && bool_decide (b2 = star)
                && past p3 (gmatch p3) (match p3 with _ :: p4 => gmatch p4 | [] => fun _ => false end) s
            | _ => false
            end
        end
  end.

Example glob_ex :
  (fun p => map (fun s => gmatch p s) [cs "a/b.c"; cs "a/x/b.c"; cs "b.c"; cs "a"])
  <$> [cs "a/**/b.c"; cs "*.c"; cs "**/b.c"; cs "a/?.c"; cs "a/**"]
  = [[true; true; false; false]; [false; false; true; false]; [true; true; true; false];
     [true; false; false; false]; [true; true; false; true]].
Proof. vm_compute. reflexivity. Qed.

Example glob_ex_dp :
  (fun p => map (fun s => @glob_match heap0 p s) [cs "a/b.c"; cs "a/x/b.c"; cs "b.c"; cs "a"])
  <$> [cs "a/**/b.c"; cs "*.c"; cs "**/b.c"; cs "a/?.c"; cs "a/**"]
  = [[Ret true; Ret true; Ret false; Ret false]; [Ret false; Ret false; Ret true; Ret false];
     [Ret true; Ret true; Ret true; Ret false];
     [Ret true; Ret false; Ret false; Ret false]; [Ret true; Ret true; Ret false; Ret true]].
Proof. vm_compute. reflexivity. Qed.

(** ** Equations of the relation *)

Definition skip_slash (q : list byte) : list byte := if head_is slash q then tail q else q.

Lemma gmatch_globstar p s :
  gmatch (star :: star :: p) s = exists_suffix (gmatch (skip_slash p)) s.
Proof.
  destruct p as [|b p]; [done|]. unfold skip_slash.
  change (gmatch (star :: star :: b :: p) s)
    with (exists_suffix (if head_is slash (b :: p) then gmatch p else gmatch (b :: p)) s).
  by destruct (head_is slash (b :: p)).
Qed.

Lemma gmatch_star p s :
  head_is star p = false -> gmatch (star :: p) s = exists_suffix_comp (gmatch p) s.
Proof. intros Hp. destruct p as [|b p]; [done|]. simpl in *. by rewrite Hp. Qed.

Definition slash_globstar (pc : byte) (p : list byte) : bool :=
  bool_decide (pc = slash) && head_is star p && head_is star (tail p).

Lemma gmatch_literal pc p s :
  pc <> star -> pc <> quest ->
  gmatch (pc :: p) s
  = if head_is pc s then gmatch p (tail s)
    else slash_globstar pc p && gmatch (skip_slash (drop 2 p)) s.
Proof.
  intros H1 H2. simpl. rewrite (bool_decide_eq_false_2 (pc = star)), (bool_decide_eq_false_2 (pc = quest)) by done.
  assert (Hr : match p with
    | b1 :: b2 :: p3 => bool_decide (pc = slash) && bool_decide (b1 = star) && bool_decide (b2 = star)
        && (if head_is slash p3 then match p3 with [] => fun _ => false | _ :: p4 => gmatch p4 end else gmatch p3) s
    | _ => false end = slash_globstar pc p && gmatch (skip_slash (drop 2 p)) s).
  { unfold slash_globstar. destruct p as [|b1 [|b2 p3]]; cbn [head_is tail drop];
      rewrite ?andb_false_r; [done..|]. f_equal.
    destruct p3 as [|b3 p3]; [done|]. rewrite drop_0. unfold skip_slash. by destruct (head_is slash (b3 :: p3)). }
  destruct s as [|c t]; [exact Hr|]. cbn [head_is tail].
  destruct (bool_decide (c = pc)); [done|exact Hr].
Qed.

Section GlobCorrect.
Context `{Heap}.
Context (pattern str : list byte).
#[local] Abbreviation P := (zlen pattern).
#[local] Abbreviation n := (zlen str).

(** The value of cell [(i, j)]: the suffixes from there match. *)
Definition D (i j : Z) : bool := gmatch (drop (Z.to_nat i) pattern) (drop (Z.to_nat j) str).

Lemma drop_ld {A} (l : list A) i x : ld l i = Ret x -> drop (Z.to_nat i) l = x :: drop (Z.to_nat (i + 1)) l.
Proof.
  intros [Hi Hx]%ld_ret_inv. rewrite (drop_S _ x) by done. f_equal. f_equal. lia.
Qed.

Lemma head_is_drop c l i :
  0 <= i -> head_is c (drop (Z.to_nat i) l) = match ld l i with Ret b => bool_decide (b = c) | _ => false end.
Proof.
  intros Hi. destruct (decide (i < zlen l)).
  - destruct (ld_total l i) as [b Hb]; [lia|]. rewrite Hb, (drop_ld _ _ _ Hb). done.
  - rewrite drop_ge by (unfold zlen in *; lia). unfold ld. destruct (Z.leb_spec 0 i); [|lia].
    by rewrite lookup_ge_None_2 by (unfold zlen in *; lia).
Qed.

Lemma pat_is_spec i c : 0 <= i -> pat_is pattern i c = Ret (head_is c (drop (Z.to_nat i) pattern)).
Proof.
  intros Hi. rewrite head_is_drop by done. unfold pat_is, pattern_len.
  destruct (Z.ltb_spec i P).
  - destruct (ld_total pattern i) as [b ->]; [lia|]. done.
  - unfold ld. destruct (Z.leb_spec 0 i); [|lia]. by rewrite lookup_ge_None_2 by (unfold zlen in *; lia).
Qed.

(** The row used past a globstar holds the match with [skip_slash]. *)
Lemma globstar_rest_spec q :
  0 <= q <= P ->
  exists r, globstar_rest pattern q = Ret r /\ q <= r <= q + 1 /\ r <= P /\
    drop (Z.to_nat r) pattern = skip_slash (drop (Z.to_nat q) pattern).
Proof.
  intros Hq. unfold globstar_rest. rewrite pat_is_spec by lia. simpl.
  rewrite head_is_drop by lia. unfold skip_slash. rewrite head_is_drop by lia.
  destruct (ld pattern q) as [b| |] eqn:E; [|exists q; split_and!; done || lia..].
  pose proof (ld_ret_inv _ _ _ E) as [? _].
  case_bool_decide; [|exists q; split_and!; done || lia].
  exists (q + 1). split_and!; [done|lia..|]. by rewrite (drop_ld _ _ _ E).
Qed.

Lemma D_globstar i j :
  0 <= i -> 0 <= j <= n -> ld pattern i = Ret star -> head_is star (drop (Z.to_nat (i + 1)) pattern) = true ->
  D i j = gmatch (skip_slash (drop (Z.to_nat (i + 2)) pattern)) (drop (Z.to_nat j) str)
          || ((j <? n) && D i (j + 1)).
Proof.
  intros Hi Hj Hp Hs. unfold D. rewrite (drop_ld _ _ _ Hp).
  rewrite head_is_drop in Hs by lia. destruct (ld pattern (i + 1)) as [b| |] eqn:E; [|done..].
  apply bool_decide_eq_true_1 in Hs as ->. rewrite (drop_ld _ _ _ E). replace (i + 1 + 1) with (i + 2) by lia.
  rewrite !gmatch_globstar. destruct (Z.ltb_spec j n).
  - destruct (ld_total str j) as [c Hc]; [lia|]. rewrite (drop_ld _ _ _ Hc). done.
  - rewrite (drop_ge str (Z.to_nat j)) by (unfold zlen in *; lia). simpl. by rewrite orb_false_r.
Qed.

Lemma D_star i j :
  0 <= i -> 0 <= j <= n -> ld pattern i = Ret star -> head_is star (drop (Z.to_nat (i + 1)) pattern) = false ->
  D i j = D (i + 1) j || ((j <? n) && (negb (head_is slash (drop (Z.to_nat j) str)) && D i (j + 1))).
Proof.
  intros Hi Hj Hp Hs. unfold D. rewrite (drop_ld _ _ _ Hp). rewrite !gmatch_star by done.
  destruct (Z.ltb_spec j n).
  - destruct (ld_total str j) as [c Hc]; [lia|]. rewrite (drop_ld _ _ _ Hc). simpl.
    by rewrite bool_decide_not.
  - rewrite (drop_ge str (Z.to_nat j)) by (unfold zlen in *; lia). simpl. by rewrite orb_false_r.
Qed.

Lemma D_quest i j :
  0 <= i -> 0 <= j <= n -> ld pattern i = Ret quest ->
  D i j = (j <? n) && (negb (head_is slash (drop (Z.to_nat j) str)) && D (i + 1) (j + 1)).
Proof.
  intros Hi Hj Hp. unfold D. rewrite (drop_ld _ _ _ Hp). simpl. destruct (Z.ltb_spec j n).
  - destruct (ld_total str j) as [c Hc]; [lia|]. rewrite (drop_ld _ _ _ Hc). simpl.
    by rewrite bool_decide_not.
  - by rewrite (drop_ge str (Z.to_nat j)) by (unfold zlen in *; lia).
Qed.

Lemma D_literal i j pc :
  0 <= i -> 0 <= j <= n -> ld pattern i = Ret pc -> pc <> star -> pc <> quest ->
  D i j = if head_is pc (drop (Z.to_nat j) str) then D (i + 1) (j + 1)
          else slash_globstar pc (drop (Z.to_nat (i + 1)) pattern)
               && gmatch (skip_slash (drop (Z.to_nat (i + 3)) pattern)) (drop (Z.to_nat j) str).
Proof.
  intros Hi Hj Hp H1 H2. unfold D. rewrite (drop_ld _ _ _ Hp), gmatch_literal by done.
  rewrite drop_drop. replace (Z.to_nat (i + 1) + 2)%nat with (Z.to_nat (i + 3)) by lia.
  destruct (decide (j < n)).
  - destruct (ld_total str j) as [c Hc]; [lia|]. by rewrite (drop_ld _ _ _ Hc).
  - by rewrite (drop_ge str (Z.to_nat j)) by (unfold zlen in *; lia).
Qed.

(** ** The rotating rows *)

#[local] Abbreviation A := (glob_row pattern str).
Definition bit (b : bool) : Z := if b then 1 else 0.

Lemma A_eq i j : A i j = (P - i) mod 4 * (n + 1) + j.
Proof. unfold glob_row, pattern_len, row_bytes, str_len. by rewrite (Z.land_ones _ 2) by lia. Qed.

Lemma A_range i j : 0 <= j <= n -> 0 <= A i j < 4 * (n + 1).
Proof. intros Hj. rewrite A_eq. pose proof (Z.mod_pos_bound (P - i) 4 ltac:(lia)). nia. Qed.

Lemma A_inj i j k l :
  0 <= j <= n -> 0 <= l <= n -> A i j = A k l -> (P - i) mod 4 = (P - k) mod 4 /\ j = l.
Proof.
  intros Hj Hl. rewrite !A_eq. pose proof (Z.mod_pos_bound (P - i) 4 ltac:(lia)).
  pose proof (Z.mod_pos_bound (P - k) 4 ltac:(lia)). intros E.
  assert ((P - i) mod 4 = (P - k) mod 4) as E1 by nia. split; [done|nia].
Qed.

Lemma A_plus_4 i j : A (i + 4) j = A i j.
Proof.
  rewrite !A_eq. f_equal. f_equal. replace (P - i) with (P - (i + 4) + 1 * 4) by lia.
  by rewrite Z_mod_plus_full.
Qed.

Lemma A_other i k j l :
  0 <= j <= n -> 0 <= l <= n -> i < k < i + 4 -> A k j <> A i l.
Proof.
  intros Hj Hl Hk [E _]%A_inj; [|done..].
  pose proof (Z.div_mod (P - k) 4 ltac:(lia)). pose proof (Z.div_mod (P - i) 4 ltac:(lia)). lia.
Qed.

(** Row [k] of the buffer is row [k] of the table, from column [c] on. *)
Definition row_ok (rows : list Z) (k c : Z) : Prop :=
  forall j, c <= j <= n -> 0 <= j -> ld rows (A k j) = Ret (bit (D k j)).

(** While column [j] of row [i] is next: the rows below are complete, row [i]
    is complete to the right, and to the left its cells still hold row [i + 4]. *)
Record mid (rows : list Z) (i j : Z) : Prop := {
  mid_len : 4 * (n + 1) <= zlen rows;
  mid_below : forall k, i < k < i + 4 -> k <= P -> row_ok rows k 0;
  mid_right : row_ok rows i (j + 1);
  mid_left : forall l, 0 <= l <= j -> i + 4 <= P -> ld rows (A (i + 4) l) = Ret (bit (D (i + 4) l));
}.

Lemma nonzero_ret rows a b : ld rows a = Ret (bit b) -> nonzero rows a = Ret b.
Proof. intros E. unfold nonzero. rewrite E. by destruct b. Qed.

Lemma mid_store rows i j :
  0 <= j <= n -> 0 <= i -> mid rows i j -> mid (<[Z.to_nat (A i j) := bit (D i j)]> rows) i (j - 1).
Proof.
  intros Hj Hi [Hl Hb Hr Hf]. pose proof (A_range i j Hj). split.
  - by rewrite zlen_insert.
  - intros k Hk HP l Hl' Hl0. rewrite ld_insert_ne; [by apply Hb|lia|].
    intros E. symmetry in E. by apply A_other in E; try lia.
  - intros l Hl' Hl0. destruct (decide (l = j)) as [->|].
    + apply ld_insert_eq. lia.
    + rewrite ld_insert_ne; [apply Hr; lia|lia|]. intros [_ E]%A_inj; lia.
  - intros l Hl' HP. rewrite ld_insert_ne; [apply Hf; lia|lia|].
    rewrite A_plus_4. intros [_ E]%A_inj; lia.
Qed.

(** A row loop whose cells are right computes the row. *)
Lemma fill_row_spec cell i k rows :
  0 <= i -> (k <= S (length str))%nat ->
  (forall rows j, 0 <= j <= n -> mid rows i j -> cell rows j = Ret (D i j)) ->
  mid rows i (Z.of_nat k - 1) ->
  exists rows', fill_row pattern str cell i k rows = Ret rows' /\ mid rows' i (-1).
Proof.
  intros Hi Hk Hc. revert rows. induction k as [|k IH]; intros rows Hm; simpl.
  - by exists rows.
  - assert (Hj : 0 <= Z.of_nat k <= n) by (unfold zlen; lia).
    replace (Z.of_nat (S k) - 1) with (Z.of_nat k) in Hm by lia.
    rewrite Hc by done. simpl. pose proof (A_range i (Z.of_nat k) Hj). pose proof (mid_len _ _ _ Hm).
    rewrite st_ret by lia. simpl. apply IH; [lia|].
    change (if D i (Z.of_nat k) then 1 else 0) with (bit (D i (Z.of_nat k))). by apply mid_store.
Qed.

(** The value of the row past a globstar, wherever that row is. *)
Lemma rest_row rows i j r q :
  0 <= j <= n -> mid rows i j -> i < r <= i + 4 -> r <= P ->
  drop (Z.to_nat r) pattern = q ->
  ld rows (A r j) = Ret (bit (gmatch q (drop (Z.to_nat j) str))).
Proof.
  intros Hj Hm Hr HP <-. destruct (decide (r = i + 4)) as [->|].
  - apply (mid_left _ _ _ Hm); lia.
  - apply (mid_below _ _ _ Hm); lia.
Qed.

Lemma str_head j c :
  0 <= j < n -> exists b, ld str j = Ret b /\ head_is c (drop (Z.to_nat j) str) = bool_decide (b = c).
Proof.
  intros Hj. destruct (ld_total str j) as [b Hb]; [lia|]. exists b. split; [done|].
  by rewrite head_is_drop, Hb by lia.
Qed.

Lemma cell_globstar_spec i rest rows j :
  0 <= i -> 0 <= j <= n -> ld pattern i = Ret star ->
  head_is star (drop (Z.to_nat (i + 1)) pattern) = true -> i + 2 <= P ->
  globstar_rest pattern (i + 2) = Ret rest -> mid rows i j ->
  cell_globstar pattern str i rest rows j = Ret (D i j).
Proof.
  intros Hi Hj Hp Hs HP Hrest Hm. destruct (globstar_rest_spec (i + 2)) as (r&E&Hr&HrP&Hd); [lia|].
  rewrite Hrest in E. injection E as <-. unfold cell_globstar.
  rewrite (nonzero_ret _ _ _ (rest_row rows i j rest _ Hj Hm ltac:(lia) HrP Hd)). simpl.
  rewrite (D_globstar i j) by done. unfold str_len.
  destruct (gmatch _ _); simpl; [done|]. destruct (Z.ltb_spec j n); [|done]. simpl.
  apply nonzero_ret, (mid_right _ _ _ Hm); lia.
Qed.

Lemma cell_star_spec i rows j :
  0 <= i < P -> 0 <= j <= n -> ld pattern i = Ret star ->
  head_is star (drop (Z.to_nat (i + 1)) pattern) = false -> mid rows i j ->
  cell_star pattern str i rows j = Ret (D i j).
Proof.
  intros Hi Hj Hp Hs Hm. unfold cell_star, str_len.
  rewrite (nonzero_ret rows (A (i + 1) j) (D (i + 1) j)) by (apply (mid_below _ _ _ Hm); lia). simpl.
  rewrite (D_star i j) by (done || lia). destruct (D (i + 1) j); simpl; [done|].
  destruct (Z.ltb_spec j n); [|done]. simpl. destruct (str_head j slash) as (b&->&->); [lia|]. simpl.
  rewrite bool_decide_not. destruct (bool_decide (b = slash)); simpl; [done|].
  apply nonzero_ret, (mid_right _ _ _ Hm); lia.
Qed.

Lemma cell_quest_spec i rows j :
  0 <= i < P -> 0 <= j <= n -> ld pattern i = Ret quest -> mid rows i j ->
  cell_quest pattern str i rows j = Ret (D i j).
Proof.
  intros Hi Hj Hp Hm. unfold cell_quest, str_len. rewrite (D_quest i j) by (done || lia).
  destruct (Z.ltb_spec j n); [|done]. simpl. destruct (str_head j slash) as (b&->&->); [lia|]. simpl.
  rewrite bool_decide_not. destruct (bool_decide (b = slash)); simpl; [done|].
  apply nonzero_ret, (mid_below _ _ _ Hm); lia.
Qed.

Lemma slash_globstar_spec i pc :
  0 <= i < P ->
  (if bool_decide (pc = slash) && (i + 2 <? pattern_len pattern) then
     s1 ← pat_is pattern (i + 1) star; s2 ← pat_is pattern (i + 2) star; Ret (s1 && s2)
   else Ret false) = Ret (slash_globstar pc (drop (Z.to_nat (i + 1)) pattern)) /\
  (slash_globstar pc (drop (Z.to_nat (i + 1)) pattern) = true -> i + 3 <= P).
Proof.
  intros Hi. unfold slash_globstar, pattern_len. rewrite !pat_is_spec by lia.
  assert (Ht : tail (drop (Z.to_nat (i + 1)) pattern) = drop (Z.to_nat (i + 2)) pattern).
  { change (tail (drop (Z.to_nat (i + 1)) pattern)) with (drop 1 (drop (Z.to_nat (i + 1)) pattern)).
    rewrite drop_drop. f_equal. lia. }
  rewrite Ht. destruct (bool_decide (pc = slash)); simpl; [|done].
  destruct (Z.ltb_spec (i + 2) P); [split; [done|lia]|].
  rewrite (drop_ge pattern (Z.to_nat (i + 2))) by (unfold zlen in *; lia).
  simpl. rewrite andb_false_r. done.
Qed.

Lemma cell_literal_spec i pc rows j :
  0 <= i < P -> 0 <= j <= n -> ld pattern i = Ret pc -> pc <> star -> pc <> quest -> mid rows i j ->
  cell_literal pattern str i pc rows j = Ret (D i j).
Proof.
  intros Hi Hj Hp H1 H2 Hm. unfold cell_literal, str_len. rewrite (D_literal i j pc) by (done || lia).
  assert (Heq : (if j <? n then c ← ld str j; Ret (bool_decide (c = pc)) else Ret false)
                = Ret (head_is pc (drop (Z.to_nat j) str))).
  { destruct (Z.ltb_spec j n).
    - by destruct (str_head j pc) as (b&->&->); [lia|].
    - by rewrite (drop_ge str (Z.to_nat j)) by (unfold zlen in *; lia). }
  rewrite Heq. simpl. destruct (head_is pc (drop (Z.to_nat j) str)) eqn:Eh.
  - apply nonzero_ret, (mid_below _ _ _ Hm); try lia.
    destruct (decide (j < n)); [lia|]. rewrite (drop_ge str (Z.to_nat j)) in Eh by (unfold zlen in *; lia). done.
  - destruct (slash_globstar_spec i pc) as [-> HP]; [lia|]. simpl.
    destruct (slash_globstar pc _); [|done]. specialize (HP eq_refl).
    destruct (globstar_rest_spec (i + 3)) as (r&->&Hr&HrP&Hd); [lia|]. simpl.
    by apply nonzero_ret, (rest_row rows i j r _ Hj Hm ltac:(lia) HrP Hd).
Qed.

Lemma mid_start rows i : mid rows (i + 1) (-1) -> mid rows i n.
Proof.
  intros [Hl Hb Hr Hf]. split; [done| | |].
  - intros k Hk HP. destruct (decide (k = i + 1)) as [->|]; [intros j Hj Hj0; apply Hr; lia|].
    apply Hb; lia.
  - intros j Hj. lia.
  - intros l Hl' HP. apply Hb; lia.
Qed.

Lemma glob_step_spec i rows :
  0 <= i < P -> mid rows (i + 1) (-1) ->
  exists rows', glob_step pattern str i rows = Ret rows' /\ mid rows' i (-1).
Proof.
  intros Hi Hm. apply mid_start in Hm. unfold glob_step.
  destruct (ld_total pattern i Hi) as [pc Hp]. rewrite Hp. simpl mbind.
  assert (Hk : forall cell, (forall rows j, 0 <= j <= n -> mid rows i j -> cell rows j = Ret (D i j)) ->
    exists rows', fill_row pattern str cell i (S (length str)) rows = Ret rows' /\ mid rows' i (-1)).
  { intros cell Hcell. apply fill_row_spec; [lia|done|done|].
    replace (Z.of_nat (S (length str)) - 1) with n by (unfold zlen; lia). done. }
  destruct (decide (pc = star)) as [->|Hs].
  - rewrite bool_decide_eq_true_2 by done. rewrite pat_is_spec by lia. simpl mbind.
    destruct (head_is star (drop (Z.to_nat (i + 1)) pattern)) eqn:E.
    + assert (i + 2 <= P).
      { rewrite head_is_drop in E by lia. destruct (ld pattern (i + 1)) eqn:E1; [|done..].
        apply ld_ret_inv in E1 as [? _]. lia. }
      destruct (globstar_rest_spec (i + 2)) as (r&Hr&_); [lia|]. rewrite Hr. simpl mbind.
      apply Hk. intros. apply cell_globstar_spec; done || lia.
    + apply Hk. intros. by apply cell_star_spec.
  - rewrite bool_decide_eq_false_2 by done. destruct (decide (pc = quest)) as [->|Hq].
    + rewrite bool_decide_eq_true_2 by done. apply Hk. intros. by apply cell_quest_spec.
    + rewrite bool_decide_eq_false_2 by done. apply Hk. intros. by apply cell_literal_spec.
Qed.

Lemma glob_rows_spec k rows :
  Z.of_nat k <= P -> mid rows (Z.of_nat k) (-1) ->
  exists rows', glob_rows pattern str k rows = Ret rows' /\ mid rows' 0 (-1).
Proof.
  revert rows. induction k as [|k IH]; intros rows Hk Hm; simpl; [by exists rows|].
  destruct (glob_step_spec (Z.of_nat k) rows) as (rows1&->&Hm1); [lia| |].
  - by replace (Z.of_nat k + 1) with (Z.of_nat (S k)) by lia.
  - simpl. apply IH; [lia|done].
Qed.

Lemma base_row_spec rows :
  4 * (n + 1) <= zlen rows ->
  exists rows', fill_row pattern str (cell_base str) P (S (length str)) rows = Ret rows' /\
    mid rows' P (-1).
Proof.
  intros Hl. pose proof (zlen_nonneg pattern). apply fill_row_spec; [lia|done| |].
  - intros rows' j Hj _. unfold cell_base, D, str_len. f_equal.
    rewrite (drop_ge pattern) by (unfold zlen; lia). simpl.
    destruct (Z.eqb_spec j n) as [->|].
    + by rewrite drop_ge by (unfold zlen; lia).
    + destruct (ld_total str j) as [c Hc]; [lia|]. by rewrite (drop_ld _ _ _ Hc).
  - split; [done|intros; lia| |intros; lia]. intros j Hj. unfold zlen in *. lia.
Qed.

Lemma glob_match_gmatch
    (Hlimit : (zlen pattern + 1) * (zlen str + 1) <= 64 * 1024 * 1024)
    (Hheap : malloc_ok (4 * (zlen str + 1)) = true) :
  glob_match pattern str = Ret (gmatch pattern str).
Proof.
  pose proof (zlen_nonneg pattern). pose proof (zlen_nonneg str). unfold glob_match, pattern_len, str_len.
  destruct (Z.eqb_spec P 0) as [E|HP0].
  { destruct pattern; [|unfold zlen in E; simpl in E; lia]. simpl.
    destruct str; [done|]. destruct (Z.eqb_spec (zlen (b :: l)) 0); [unfold zlen in *; simpl in *; lia|done]. }
  assert (n <= SIZE_MAX / (P + 1) - 1).
  { assert (n + 1 <= SIZE_MAX / (P + 1)); [|lia]. apply Z.div_le_lower_bound; [lia|]. unfold SIZE_MAX. lia. }
  destruct (Z.gtb_spec n (SIZE_MAX / (P + 1) - 1)); [lia|].
  rewrite u64_small by nia. destruct (Z.gtb_spec ((P + 1) * (n + 1)) (64 * 1024 * 1024)); [lia|].
  unfold row_bytes, str_len. rewrite Hheap, andb_false_r.
  destruct (base_row_spec (junk_words (4 * Z.max 257 (n + 1)))) as (rows&->&Hm);
    [rewrite zlen_junk_words; lia|]. simpl.
  destruct (glob_rows_spec (length pattern) rows) as (rows'&->&Hm'); [done..|]. simpl.
  apply nonzero_ret, (mid_right _ _ _ Hm'); lia.
Qed.

(** Beyond the limits the matcher answers "no match"; it always answers. *)
Lemma glob_match_total : exists b, glob_match pattern str = Ret b.
Proof.
  pose proof (zlen_nonneg pattern). pose proof (zlen_nonneg str). unfold glob_match, pattern_len, str_len.
  destruct (P =? 0) eqn:E0; [by eexists|]. apply Z.eqb_neq in E0.
  destruct (Z.gtb_spec n (SIZE_MAX / (P + 1) - 1)); [by eexists|].
  destruct (u64 ((P + 1) * (n + 1)) >? 64 * 1024 * 1024); [by eexists|].
  destruct (_ && _); [by eexists|]. unfold row_bytes, str_len.
  destruct (base_row_spec (junk_words (4 * Z.max 257 (n + 1)))) as (rows&->&Hm);
    [rewrite zlen_junk_words; lia|]. simpl.
  destruct (glob_rows_spec (length pattern) rows) as (rows'&->&Hm'); [done..|]. simpl.
  eexists. apply nonzero_ret, (mid_right _ _ _ Hm'); lia.
Qed.

(** C26: the glob matcher computes the matching relation.  For every pattern and
    string whose table is within the work limit, the dynamic program on four
    rotating rows (stack or heap) returns exactly what the recursive definition
    of the wildcards says, and never reads a cell outside its rows. *)
Theorem glob_match_correct
    (Hlimit : (zlen pattern + 1) * (zlen str + 1) <= 64 * 1024 * 1024)
    (Hheap : malloc_ok (4 * (zlen str + 1)) = true) :
  glob_match pattern str = Ret (gmatch pattern str).
Proof. by apply glob_match_gmatch. Qed.

End GlobCorrect.

Lemma glob_match_correct_witness :
  @glob_match heap0 (cs "src/**/*.c") (cs "src/a/b/x.c") = Ret (gmatch (cs "src/**/*.c") (cs "src/a/b/x.c")) /\
  gmatch (cs "src/**/*.c") (cs "src/a/b/x.c") = true.
Proof.
  split; [|reflexivity].
  apply (@glob_match_correct heap0 (cs "src/**/*.c") (cs "src/a/b/x.c"));
    [vm_compute; congruence|reflexivity].
Defined.
