(* ===== verification/PathIndex.v ===== *)
(** The path index of src/shared/utils.c: an open-addressing string set
    ([StrHashSet]) for exact membership and a sorted array ([StrSortedArray])
    for "has an entry below this directory". *)

From S2P Require Import Prelude Alloc CStr.

(** xxHash's XXH64 with seed 0, a library function: a 64-bit value. *)
Class XXHash64 := {
  XXH64 : list byte -> Z;
  XXH64_range key : 0 <= XXH64 key < 2 ^ 64;
}.

(** utils.h [StrHashSet]; a slot is [None] for a NULL key. *)
Record StrHashSet := MkSet {
  slots : list (option (list byte));
  hs_capacity : Z;
  hs_size : Z;
}.
Definition STR_HASH_SET_MIN_CAPACITY : Z := 16.

Section HashSet.
Context `{Heap} `{XXHash64}.

(** utils.c [str_hash_set_hash] *)
Definition str_hash_set_hash (key : list byte) : Z := XXH64 key.

(** The probe loop of [str_hash_set_put] from [index]; the flag is its result. *)
Fixpoint put_loop (fuel : nat) (set : StrHashSet) (key : list byte) (index : Z)
  : outcome (StrHashSet * bool) :=
  match fuel with
  | O => Stuck
  | S fuel =>
      slot ← ld (slots set) index;
      match slot with
      | None =>
          s ← st (slots set) index (Some key);
          Ret (MkSet s (hs_capacity set) (u64 (hs_size set + 1)), true)
      | Some k =>
          if bool_decide (k = key) then Ret (set, false)
          else put_loop fuel set key (Z.land (u64 (index + 1)) (u64 (hs_capacity set - 1)))
      end
  end.

(** utils.c [str_hash_set_put] *)
Definition str_hash_set_put (set : StrHashSet) (key : list byte) : outcome (StrHashSet * bool) :=
  put_loop (S (length (slots set))) set key
    (Z.land (str_hash_set_hash key) (u64 (hs_capacity set - 1))).

Definition put_old (slot : option (list byte)) (set : StrHashSet) : outcome StrHashSet :=
  match slot with
  | Some k => '(set, _) ← str_hash_set_put set k; Ret set
  | None => Ret set
  end.

(** utils.c [str_hash_set_resize] *)
Definition str_hash_set_resize (set : StrHashSet) (new_capacity : Z) : outcome StrHashSet :=
  check (malloc_ok (new_capacity * 8));;
  for_each put_old (Z.to_nat (hs_capacity set)) (slots set) 0
    (MkSet (replicate (Z.to_nat new_capacity) None) new_capacity 0).

(** utils.c [str_hash_set_grow] *)
Definition str_hash_set_grow (set : StrHashSet) : outcome StrHashSet :=
  if negb (hs_capacity set =? 0) && (u64 ((hs_size set + 1) * 4) <=? u64 (hs_capacity set * 3))
  then Ret set
  else
    let new_capacity := if hs_capacity set =? 0 then STR_HASH_SET_MIN_CAPACITY
                        else u64 (hs_capacity set * 2) in
    str_hash_set_resize set new_capacity.

(** The sizing loop of [str_hash_set_init]; 64 doublings exhaust [size_t]. *)
Fixpoint init_capacity (fuel : nat) (hint capacity : Z) : Z :=
  match fuel with
  | O => capacity
  | S fuel =>
      if (capacity <? u64 (u64 (hint + 1) * 2)) && (capacity <=? SIZE_MAX / 2)
      then init_capacity fuel hint (capacity * 2) else capacity
  end.

(** utils.c [str_hash_set_init] *)
Definition str_hash_set_init (hint : Z) : outcome StrHashSet :=
  let capacity := init_capacity 64 hint STR_HASH_SET_MIN_CAPACITY in
  check (malloc_ok (capacity * 8));;
  Ret (MkSet (replicate (Z.to_nat capacity) None) capacity 0).

(** utils.c [str_hash_set_free] *)
Definition str_hash_set_free (_ : StrHashSet) : StrHashSet := MkSet [] 0 0.

(** utils.c [str_hash_set_insert_ref] *)
Definition str_hash_set_insert_ref (set : StrHashSet) (key : list byte) : outcome StrHashSet :=
  set ← str_hash_set_grow set;
  '(set, _) ← str_hash_set_put set key;
  Ret set.

(** utils.c [str_hash_set_find_n]: the index of the slot found. *)
Fixpoint find_loop (fuel : nat) (set : StrHashSet) (key : list byte) (index : Z) : outcome (option Z) :=
  match fuel with
  | O => Stuck
  | S fuel =>
      slot ← ld (slots set) index;
      match slot with
      | None => Ret None
      | Some k =>
          if bool_decide (k = key) then Ret (Some index)
          else find_loop fuel set key (Z.land (u64 (index + 1)) (u64 (hs_capacity set - 1)))
      end
  end.
Definition str_hash_set_find_n (set : StrHashSet) (key : list byte) : outcome (option Z) :=
  if hs_capacity set =? 0 then Ret None
  else find_loop (S (length (slots set))) set key
         (Z.land (str_hash_set_hash key) (u64 (hs_capacity set - 1))).

(** utils.c [str_hash_set_lookup_n], [str_hash_set_lookup] *)
Definition str_hash_set_lookup_n (set : StrHashSet) (key : list byte) : outcome bool :=
  r ← str_hash_set_find_n set key; Ret (bool_decide (is_Some r)).
Definition str_hash_set_lookup (set : StrHashSet) (key : list byte) : outcome bool :=
  str_hash_set_lookup_n set key.

(** ** Invariant of the probe sequences *)

(** The [d]-th slot the probe of [key] visits. *)
Definition probe (cap : Z) (key : list byte) (d : Z) : Z := (XXH64 key + d) mod cap.

(** Slot [probe d] of [key] holds another key. *)
Definition passed (sl : list (option (list byte))) (cap : Z) (key : list byte) (d : Z) : Prop :=
  exists k, ld sl (probe cap key d) = Ret (Some k) /\ k <> key.

(** [key] is stored at distance [d] of its home, after occupied slots. *)
Definition stored (sl : list (option (list byte))) (cap : Z) (key : list byte) (d : Z) : Prop :=
  0 <= d < cap /\ ld sl (probe cap key d) = Ret (Some key) /\
  forall e, 0 <= e < d -> passed sl cap key e.

Record set_ok (set : StrHashSet) (keys : list (list byte)) : Prop := {
  so_cap : exists k, hs_capacity set = 2 ^ k /\ 4 <= k < 62;
  so_len : zlen (slots set) = hs_capacity set;
  so_nodup : NoDup keys;
  so_size : hs_size set = zlen keys;
  so_load : zlen keys * 4 <= hs_capacity set * 3;
  so_keys : omap (fun o => o) (slots set) ≡ₚ keys;
  so_stored : forall key, key ∈ keys -> exists d, stored (slots set) (hs_capacity set) key d;
}.

Lemma omap_id_lookup (l : list (option (list byte))) key :
  key ∈ omap (fun o => o) l <-> exists p, ld l p = Ret (Some key).
Proof.
  rewrite list_elem_of_omap. split.
  - intros (o&Ho&E). simpl in E. subst o. apply list_elem_of_lookup in Ho as [i Hi].
    exists (Z.of_nat i). apply ld_lookup; [lia|]. by rewrite Nat2Z.id.
  - intros [p [_ Hp]%ld_ret_inv]. exists (Some key). split; [|done]. by eapply list_elem_of_lookup_2.
Qed.

Lemma omap_id_insert (l : list (option (list byte))) i key :
  l !! i = Some None -> omap (fun o => o) (<[i := Some key]> l) ≡ₚ key :: omap (fun o => o) l.
Proof.
  intros Hi. rewrite insert_take_drop by (by apply lookup_lt_Some in Hi).
  rewrite <- (take_drop_middle l i None Hi) at 3. rewrite !omap_app. simpl.
  by rewrite Permutation_middle.
Qed.

Lemma has_empty (l : list (option (list byte))) :
  (length (omap (fun o => o) l) < length l)%nat -> exists i, (i < length l)%nat /\ l !! i = Some None.
Proof.
  induction l as [|o l IH]; simpl; [lia|]. destruct o as [k|]; simpl.
  - intros Hl. destruct IH as (i&Hi&E); [by apply Nat.succ_lt_mono|]. exists (S i). split; [lia|done].
  - intros _. exists O. split; [lia|done].
Qed.

Section Probing.
Context (sl : list (option (list byte))) (cap k : Z).
Context (Hcap : cap = 2 ^ k) (Hk : 4 <= k < 62) (Hlen : zlen sl = cap).

Lemma cap_pos : 16 <= cap < 2 ^ 62.
Proof.
  rewrite Hcap. split; [change 16 with (2 ^ 4); apply Z.pow_le_mono_r; lia|apply Z.pow_lt_mono_r; lia].
Qed.

Lemma mask_mod x : Z.land x (u64 (cap - 1)) = x mod cap.
Proof.
  pose proof cap_pos. rewrite u64_small by lia. rewrite Hcap, Z.sub_1_r, <- Z.ones_equiv.
  apply Z.land_ones. lia.
Qed.

Lemma probe_range key d : 0 <= probe cap key d < cap.
Proof. pose proof cap_pos. apply Z.mod_pos_bound. lia. Qed.

Lemma probe_next key d : Z.land (u64 (probe cap key d + 1)) (u64 (cap - 1)) = probe cap key (d + 1).
Proof.
  pose proof cap_pos. pose proof (probe_range key d). rewrite u64_small, mask_mod by lia.
  unfold probe. rewrite Zplus_mod_idemp_l. f_equal. lia.
Qed.

Lemma probe_inj key d e : 0 <= d < cap -> 0 <= e < cap -> probe cap key d = probe cap key e -> d = e.
Proof.
  unfold probe. intros Hd He E. pose proof cap_pos.
  pose proof (Z.div_mod (XXH64 key + d) cap ltac:(lia)). pose proof (Z.div_mod (XXH64 key + e) cap ltac:(lia)).
  rewrite E in *. assert ((XXH64 key + d) / cap = (XXH64 key + e) / cap); [nia|lia].
Qed.

(** Where the probe of [key] stops: at its slot or at the first empty one. *)
Definition stop (key : list byte) (m : Z) (o : option (list byte)) : Prop :=
  0 <= m < cap /\ (forall e, 0 <= e < m -> passed sl cap key e) /\
  ld sl (probe cap key m) = Ret o /\ (o = None \/ o = Some key).

Lemma stop_or_passed key n :
  Z.of_nat n <= cap ->
  (forall e, 0 <= e < Z.of_nat n -> passed sl cap key e) \/ exists m o, stop key m o.
Proof.
  induction n as [|n IH]; intros Hn; [left; lia|].
  destruct IH as [IH|IH]; [lia| |by right].
  destruct (ld_total sl (probe cap key (Z.of_nat n))) as [o Ho]; [rewrite Hlen; apply probe_range|].
  destruct (decide (o = None \/ o = Some key)) as [Hs|Hs].
  - right. exists (Z.of_nat n), o. split_and!; [lia|lia|done|done|done].
  - left. intros e He. destruct (decide (e < Z.of_nat n)); [apply IH; lia|].
    replace e with (Z.of_nat n) by lia. destruct o as [k'|]; [|naive_solver]. exists k'. naive_solver.
Qed.

(** With an empty slot somewhere, every probe stops. *)
Lemma stop_exists key :
  (length (omap (fun o => o) sl) < length sl)%nat -> exists m o, stop key m o.
Proof.
  intros He. pose proof cap_pos. destruct (stop_or_passed key (Z.to_nat cap)) as [Hp|]; [lia| |done].
  exfalso. destruct (has_empty sl He) as (i&Hi&E).
  set (d := (Z.of_nat i - XXH64 key) mod cap).
  pose proof (Z.mod_pos_bound (Z.of_nat i - XXH64 key) cap ltac:(lia)).
  destruct (Hp d) as (k'&Hk'&_); [subst d; lia|].
  assert (probe cap key d = Z.of_nat i) as Hd.
  { unfold probe, d. rewrite Zplus_mod_idemp_r. replace (XXH64 key + _) with (Z.of_nat i) by lia.
    apply Z.mod_small. unfold zlen in Hlen. lia. }
  rewrite Hd in Hk'. apply ld_ret_inv in Hk' as [_ Hk']. rewrite Nat2Z.id in Hk'. congruence.
Qed.

End Probing.

Lemma find_loop_stop set k key m o fuel d :
  hs_capacity set = 2 ^ k -> 4 <= k < 62 -> zlen (slots set) = hs_capacity set ->
  stop (slots set) (hs_capacity set) key m o -> 0 <= d <= m -> m - d < Z.of_nat fuel ->
  find_loop fuel set key (probe (hs_capacity set) key d)
  = Ret (if o then Some (probe (hs_capacity set) key m) else None).
Proof.
  intros Hc Hk Hl (Hm&Hp&Hs&Ho) Hd. revert d Hd. induction fuel as [|fuel IH]; intros d Hd Hf; [lia|].
  cbn [find_loop]. destruct (decide (d = m)) as [->|].
  - rewrite Hs. simpl. destruct Ho as [->| ->]; [done|]. by rewrite bool_decide_eq_true_2.
  - destruct (Hp d) as (k'&->&Hk'); [lia|]. simpl. rewrite bool_decide_eq_false_2 by done.
    rewrite (probe_next _ k) by done. apply IH; lia.
Qed.

Lemma put_loop_stop set k key m o fuel d :
  hs_capacity set = 2 ^ k -> 4 <= k < 62 -> zlen (slots set) = hs_capacity set ->
  stop (slots set) (hs_capacity set) key m o -> 0 <= d <= m -> m - d < Z.of_nat fuel ->
  put_loop fuel set key (probe (hs_capacity set) key d)
  = Ret (if o then (set, false)
         else (MkSet (<[Z.to_nat (probe (hs_capacity set) key m) := Some key]> (slots set))
                 (hs_capacity set) (u64 (hs_size set + 1)), true)).
Proof.
  intros Hc Hk Hl (Hm&Hp&Hs&Ho) Hd. revert d Hd. induction fuel as [|fuel IH]; intros d Hd Hf; [lia|].
  cbn [put_loop]. destruct (decide (d = m)) as [->|].
  - rewrite Hs. simpl. destruct Ho as [->| ->].
    + rewrite st_ret; [done|]. rewrite Hl. by apply (probe_range _ k).
    + by rewrite bool_decide_eq_true_2.
  - destruct (Hp d) as (k'&->&Hk'); [lia|]. simpl. rewrite bool_decide_eq_false_2 by done.
    rewrite (probe_next _ k) by done. apply IH; lia.
Qed.

(** ** The operations on a well-formed set *)

Lemma home_probe set k key :
  hs_capacity set = 2 ^ k -> 4 <= k < 62 ->
  Z.land (str_hash_set_hash key) (u64 (hs_capacity set - 1)) = probe (hs_capacity set) key 0.
Proof. intros Hc Hk. rewrite (mask_mod _ k) by done. unfold probe. by rewrite Z.add_0_r. Qed.

Lemma set_ok_empty_slot set keys :
  set_ok set keys -> (length (omap (fun o => o) (slots set)) < length (slots set))%nat.
Proof.
  intros Hs. pose proof (Permutation_length (so_keys _ _ Hs)) as E. rewrite E.
  pose proof (so_load _ _ Hs). pose proof (so_len _ _ Hs) as Hl. destruct (so_cap _ _ Hs) as (k&Hc&Hk).
  pose proof (cap_pos (hs_capacity set) k Hc Hk). unfold zlen in *. lia.
Qed.

(** The probe of a key stops at the key exactly when it is in the set. *)
Lemma set_ok_stop set keys key :
  set_ok set keys ->
  exists m o, stop (slots set) (hs_capacity set) key m o /\ (o = Some key <-> key ∈ keys).
Proof.
  intros Hs. destruct (so_cap _ _ Hs) as (k&Hc&Hk).
  destruct (stop_exists (slots set) (hs_capacity set) k Hc Hk (so_len _ _ Hs) key
    (set_ok_empty_slot _ _ Hs)) as (m&o&Hm&Hp&Hld&Ho).
  exists m, o. split; [done|]. split.
  - intros ->. rewrite <- (so_keys _ _ Hs). apply omap_id_lookup. eauto.
  - intros Hin. destruct (so_stored _ _ Hs key Hin) as (d&Hd&Hld'&Hp').
    destruct (decide (m = d)) as [->|].
    + rewrite Hld in Hld'. congruence.
    + destruct (decide (m < d)).
      * destruct (Hp' m) as (k'&Hk'&?); [lia|]. rewrite Hld in Hk'. destruct Ho; congruence.
      * destruct (Hp d) as (k'&Hk'&?); [lia|]. congruence.
Qed.

Lemma lookup_ok set keys key :
  set_ok set keys -> str_hash_set_lookup_n set key = Ret (bool_decide (key ∈ keys)).
Proof.
  intros Hs. destruct (set_ok_stop set keys key Hs) as (m&o&Hst&Ho).
  destruct (so_cap _ _ Hs) as (k&Hc&Hk). pose proof (cap_pos _ k Hc Hk). pose proof (so_len _ _ Hs) as Hl.
  unfold str_hash_set_lookup_n, str_hash_set_find_n.
  destruct (Z.eqb_spec (hs_capacity set) 0); [lia|]. rewrite (home_probe set k) by done.
  rewrite (find_loop_stop set k key m o) by
    (done || (destruct Hst; unfold zlen in *; lia)).
  simpl. f_equal. destruct Hst as (_&_&_&[->| ->]); apply bool_decide_ext; [|naive_solver].
  split; [by intros [? ?]|]. intros Hin%Ho. done.
Qed.

(** Storing a new key at the empty slot its probe stopped at. *)
Lemma stored_insert sl cap p key key' d :
  0 <= p -> ld sl p = Ret None -> stored sl cap key' d -> stored (<[Z.to_nat p := Some key]> sl) cap key' d.
Proof.
  intros Hp0 Hp (Hd&Hld&Hpass).
  assert (Hkeep : forall q k', ld sl q = Ret (Some k') -> ld (<[Z.to_nat p := Some key]> sl) q = Ret (Some k')).
  { intros q k' Hq. rewrite ld_insert_ne; [done|done|]. intros ->. congruence. }
  split_and!; [lia|lia|by apply Hkeep|]. intros e He. destruct (Hpass e He) as (k'&Hk'&?).
  exists k'. auto.
Qed.

Lemma put_spec set keys key :
  set_ok set keys -> (zlen keys + 1) * 4 <= hs_capacity set * 3 ->
  exists set' b, str_hash_set_put set key = Ret (set', b) /\ hs_capacity set' = hs_capacity set /\
    set_ok set' (if decide (key ∈ keys) then keys else key :: keys).
Proof.
  intros Hs Hload. destruct (set_ok_stop set keys key Hs) as (m&o&Hst&Ho).
  destruct (so_cap _ _ Hs) as (k&Hc&Hk). pose proof (cap_pos _ k Hc Hk). pose proof (so_len _ _ Hs) as Hl.
  unfold str_hash_set_put. rewrite (home_probe set k) by done.
  rewrite (put_loop_stop set k key m o) by
    (done || (destruct Hst; unfold zlen in *; lia)).
  destruct Hst as (Hm&Hp&Hld&Hor). pose proof (probe_range _ k Hc Hk key m) as Hpr.
  destruct Hor as [->| ->]; simpl; eexists _, _; (split; [done|]); (split; [done|]).
  2: { by rewrite decide_True by naive_solver. }
  rewrite decide_False by naive_solver. pose proof Hld as [_ Hlk]%ld_ret_inv.
  pose proof (zlen_nonneg keys). assert (Hz : zlen (key :: keys) = zlen keys + 1) by (unfold zlen; simpl; lia).
  assert (Hnin : key ∉ keys) by naive_solver.
  split; simpl; rewrite ?Hz; try lia.
  - eauto.
  - by rewrite zlen_insert.
  - constructor; [done|apply Hs].
  - rewrite (so_size _ _ Hs), u64_small; [done|]. pose proof (so_load _ _ Hs). lia.
  - rewrite omap_id_insert by done. f_equiv. apply Hs.
  - intros key' [->|Hin]%elem_of_cons.
    + exists m. split_and!; [lia|lia|apply ld_insert_eq; lia|].
      intros e He. destruct (Hp e He) as (k'&Hk'&?). exists k'. split; [|done].
      rewrite ld_insert_ne; [done|lia|]. intros E%(probe_inj _ k); try done; lia.
    + destruct (so_stored _ _ Hs key' Hin) as [d Hd]. exists d. apply stored_insert; [lia|done|done].
Qed.

Lemma set_ok_perm set keys keys' : keys ≡ₚ keys' -> set_ok set keys -> set_ok set keys'.
Proof.
  intros Hp [Hc Hl Hn Hs Hld Hk Hst].
  assert (Hz : zlen keys' = zlen keys) by (unfold zlen; by rewrite Hp).
  split; rewrite ?Hz; try done; [by rewrite <- Hp|by rewrite <- Hp|].
  intros key Hin. apply Hst. by rewrite Hp.
Qed.

Lemma set_ok_fresh cap k :
  cap = 2 ^ k -> 4 <= k < 62 -> set_ok (MkSet (replicate (Z.to_nat cap) None) cap 0) [].
Proof.
  intros Hc Hk. pose proof (cap_pos cap k Hc Hk). split; simpl.
  - eauto.
  - unfold zlen. rewrite length_replicate. lia.
  - constructor.
  - done.
  - unfold zlen; simpl; lia.
  - assert (omap (fun o : option (list byte) => o) (replicate (Z.to_nat cap) None) = []) as ->; [|done].
    clear. induction (Z.to_nat cap); done.
  - intros key Hin. by apply elem_of_nil in Hin.
Qed.

(** Re-inserting the old slots, in any order, into a table with room. *)
Lemma reinsert_spec l set keys :
  set_ok set keys -> NoDup (omap (fun o => o) l ++ keys) ->
  zlen (omap (fun o => o) l ++ keys) * 4 <= hs_capacity set * 3 ->
  exists set', foldM put_old l set = Ret set' /\ hs_capacity set' = hs_capacity set /\
    set_ok set' (omap (fun o => o) l ++ keys).
Proof.
  revert set keys. induction l as [|[key|] l IH]; intros set keys Hs Hn Hz; cbn [foldM].
  - by exists set.
  - cbn [put_old]. change (omap (fun o => o) (Some key :: l)) with (key :: omap (fun o => o) l) in *.
    assert (Hz1 : zlen ((key :: omap (fun o => o) l) ++ keys) = zlen (omap (fun o => o) l) + zlen keys + 1)
      by (rewrite zlen_app; unfold zlen; simpl; lia).
    pose proof (zlen_nonneg (omap (fun o => o) l)).
    destruct (put_spec set keys key Hs) as (set1&b&->&Hc1&Hs1); [lia|]. simpl mbind.
    simpl in Hn. apply NoDup_cons in Hn as [Hk Hn]. rewrite not_elem_of_app in Hk.
    rewrite decide_False in Hs1 by naive_solver.
    destruct (IH set1 (key :: keys) Hs1) as (set2&E&Hc2&Hs2).
    + rewrite <- Permutation_middle. constructor; [by rewrite not_elem_of_app|done].
    + rewrite Hc1, zlen_app. assert (zlen (key :: keys) = zlen keys + 1) as -> by (unfold zlen; simpl; lia). lia.
    + exists set2. rewrite E. split_and!; [done|congruence|].
      eapply set_ok_perm; [|done]. simpl. by rewrite Permutation_middle.
  - cbn [put_old]. simpl mbind. change (omap (fun o => o) (None :: l)) with (omap (fun o : option (list byte) => o) l) in *.
    by apply IH.
Qed.

Lemma grow_spec set keys :
  set_ok set keys -> zlen keys < 2 ^ 58 -> heap_serves (2 ^ 63) ->
  exists set', str_hash_set_grow set = Ret set' /\ set_ok set' keys /\
    (zlen keys + 1) * 4 <= hs_capacity set' * 3.
Proof.
  intros Hs Hz Hh. destruct (so_cap _ _ Hs) as (k&Hc&Hk). pose proof (cap_pos _ k Hc Hk) as Hcp.
  pose proof (zlen_nonneg keys). unfold str_hash_set_grow. rewrite (so_size _ _ Hs).
  destruct (Z.eqb_spec (hs_capacity set) 0); [lia|]. simpl negb. cbn [andb].
  rewrite (u64_small ((zlen keys + 1) * 4)), (u64_small (hs_capacity set * 3)) by lia.
  destruct (Z.leb_spec ((zlen keys + 1) * 4) (hs_capacity set * 3)); [by exists set|].
  assert (k < 60). { destruct (decide (k < 60)); [done|]. assert (2 ^ 60 <= 2 ^ k) by (apply Z.pow_le_mono_r; lia). lia. }
  rewrite u64_small by lia. unfold str_hash_set_resize.
  rewrite (heap_serves_malloc _ _ Hh) by lia. simpl mbind.
  pose proof (so_len _ _ Hs) as Hl. rewrite for_each_foldM by (unfold zlen in Hl; lia).
  assert (Hc2 : hs_capacity set * 2 = 2 ^ (k + 1)) by (rewrite Z.pow_add_r by lia; lia).
  pose proof (so_keys _ _ Hs) as Hperm. pose proof (so_load _ _ Hs).
  destruct (reinsert_spec (slots set) (MkSet (replicate (Z.to_nat (hs_capacity set * 2)) None) (hs_capacity set * 2) 0) [])
    as (set'&->&Hc'&Hs').
  - apply set_ok_fresh with (k + 1); [done|lia].
  - rewrite app_nil_r, Hperm. apply Hs.
  - rewrite app_nil_r. assert (zlen (omap (fun o => o) (slots set)) = zlen keys) as -> by (unfold zlen; by rewrite Hperm).
    simpl. lia.
  - exists set'. split; [done|]. split; [|rewrite Hc'; simpl; lia].
    eapply set_ok_perm; [|done]. by rewrite app_nil_r.
Qed.

(** [str_hash_set_insert_ref] adds the key and nothing else. *)
Lemma insert_ok set keys key :
  set_ok set keys -> zlen keys < 2 ^ 58 -> heap_serves (2 ^ 63) ->
  exists set', str_hash_set_insert_ref set key = Ret set' /\
    set_ok set' (if decide (key ∈ keys) then keys else key :: keys).
Proof.
  intros Hs Hz Hh. destruct (grow_spec set keys Hs Hz Hh) as (set1&E1&Hs1&Hl1).
  destruct (put_spec set1 keys key Hs1 Hl1) as (set2&b&E2&_&Hs2).
  exists set2. unfold str_hash_set_insert_ref. rewrite E1. simpl. rewrite E2. done.
Qed.

Lemma insert_all_ok entries set keys :
  set_ok set keys -> zlen keys + zlen entries <= 2 ^ 58 -> heap_serves (2 ^ 63) ->
  exists set' keys', foldM (fun key set => str_hash_set_insert_ref set key) entries set = Ret set' /\
    set_ok set' keys' /\ forall key, key ∈ keys' <-> key ∈ entries \/ key ∈ keys.
Proof.
  revert set keys. induction entries as [|e entries IH]; intros set keys Hs Hz Hh; cbn [foldM].
  - exists set, keys. split_and!; [done..|set_solver].
  - assert (zlen (e :: entries) = zlen entries + 1) as He by (unfold zlen; simpl; lia).
    pose proof (zlen_nonneg entries).
    destruct (insert_ok set keys e Hs) as (set1&->&Hs1); [lia|done|]. simpl mbind.
    edestruct (IH set1 _ Hs1) as (set2&keys2&E2&Hs2&Hk2); [|done|].
    + destruct (decide (e ∈ keys)); [lia|]. unfold zlen in *; simpl; lia.
    + exists set2, keys2. split_and!; [done..|]. intros key. rewrite Hk2.
      destruct (decide (e ∈ keys)); set_solver.
Qed.

Lemma init_capacity_pow2 fuel hint k :
  4 <= k <= 59 -> 0 <= hint < 2 ^ 58 ->
  exists k', init_capacity fuel hint (2 ^ k) = 2 ^ k' /\ 4 <= k' <= 59.
Proof.
  intros Hk Hh. revert k Hk. induction fuel as [|fuel IH]; intros k Hk; cbn [init_capacity]; [by exists k|].
  rewrite (u64_small (hint + 1)), u64_small by lia.
  destruct (Z.ltb_spec (2 ^ k) ((hint + 1) * 2)); [|by exists k].
  destruct (Z.leb_spec (2 ^ k) (SIZE_MAX / 2)); [|by exists k]. simpl andb. cbv iota.
  rewrite Z.mul_comm, <- Z.pow_succ_r by lia. apply IH.
  destruct (decide (k < 59)); [lia|]. assert (2 ^ 59 <= 2 ^ k) by (apply Z.pow_le_mono_r; lia). lia.
Qed.

End HashSet.

(** * The sorted array *)

(** utils.h [StrSortedArray] *)
Record StrSortedArray := MkSorted { sa_items : list (list byte); sa_count : Z }.

Section Sorted.
Context `{Heap}.

(** utils.c [str_sorted_array_build] *)
Definition str_sorted_array_build (items : option (list (list byte))) (count : Z)
  : outcome StrSortedArray :=
  if count =? 0 then Ret (MkSorted [] 0)
  else
    items ← of_option items;
    check (negb (count >? SIZE_MAX / 8));;
    check (malloc_ok (count * 8));;
    sorted ← rd items 0 count;
    Ret (MkSorted (qsort_strings sorted) count).

(** utils.c [str_sorted_array_free] *)
Definition str_sorted_array_free (_ : StrSortedArray) : StrSortedArray := MkSorted [] 0.

(** The search loop of [str_sorted_array_contains]. *)
Fixpoint contains_loop (fuel : nat) (arr : StrSortedArray) (key : list byte) (lo hi : Z) : outcome bool :=
  if lo <? hi then
    match fuel with
    | O => Stuck
    | S fuel =>
        let mid := lo + (hi - lo) / 2 in
        e ← ld (sa_items arr) mid;
        let cmp := strcmp e key in
        if cmp <? 0 then contains_loop fuel arr key (mid + 1) hi
        else if cmp >? 0 then contains_loop fuel arr key lo mid
        else Ret true
    end
  else Ret false.

(** utils.c [str_sorted_array_contains] *)
Definition str_sorted_array_contains (arr : StrSortedArray) (key : list byte) : outcome bool :=
  if sa_count arr =? 0 then Ret false
  else contains_loop (Z.to_nat (sa_count arr)) arr key 0 (sa_count arr).

(** utils.c [str_sorted_array_compare_prefix] *)
Definition str_sorted_array_compare_prefix (entry key : list byte) : Z :=
  let cmp := strncmp entry key (length key) in
  if negb (cmp =? 0) then cmp
  else match entry !! length key with
       | None => -1
       | Some next => bZ next - bZ "/"%byte
       end.

(** The lower-bound loop of [str_sorted_array_has_child_prefix]. *)
Fixpoint lower_bound (fuel : nat) (arr : StrSortedArray) (key : list byte) (lo hi : Z) : outcome Z :=
  if lo <? hi then
    match fuel with
    | O => Stuck
    | S fuel =>
        let mid := lo + (hi - lo) / 2 in
        e ← ld (sa_items arr) mid;
        if str_sorted_array_compare_prefix e key <? 0 then lower_bound fuel arr key (mid + 1) hi
        else lower_bound fuel arr key lo mid
    end
  else Ret lo.

(** utils.c [str_sorted_array_has_child_prefix] *)
Definition str_sorted_array_has_child_prefix (arr : StrSortedArray) (key : list byte) : outcome bool :=
  if (sa_count arr =? 0) || bool_decide (key = []) then Ret false
  else
    lo ← lower_bound (Z.to_nat (sa_count arr)) arr key 0 (sa_count arr);
    if lo >=? sa_count arr then Ret false
    else
      entry ← ld (sa_items arr) lo;
      Ret ((strncmp entry key (length key) =? 0) && char_is entry (length key) "/"%byte).

(** ** Searching a sorted array *)

Definition sorted_ok (arr : StrSortedArray) : Prop :=
  sa_count arr = zlen (sa_items arr) /\ StronglySorted str_le (sa_items arr).

Lemma sorted_lookup (l : list (list byte)) i j a b :
  StronglySorted str_le l -> 0 <= i -> i <= j -> ld l i = Ret a -> ld l j = Ret b -> strcmp a b <= 0.
Proof.
  intros Hs Hi Hij [_ Ha]%ld_ret_inv [_ Hb]%ld_ret_inv.
  destruct (decide (i = j)) as [->|].
  - assert (a = b) as -> by congruence. apply str_le_refl.
  - revert i j Hi Hij n Ha Hb. induction Hs as [|x l Hs IH Hx]; intros i j Hi Hij Hne Ha Hb; [done|].
    destruct (decide (i = 0)) as [->|].
    + simpl in Ha. injection Ha as <-. rewrite Forall_forall in Hx. apply Hx.
      replace (Z.to_nat j) with (S (Z.to_nat (j - 1))) in Hb by lia. simpl in Hb.
      by eapply list_elem_of_lookup_2.
    + replace (Z.to_nat i) with (S (Z.to_nat (i - 1))) in Ha by lia.
      replace (Z.to_nat j) with (S (Z.to_nat (j - 1))) in Hb by lia.
      apply (IH (i - 1) (j - 1)); [lia..|done|done].
Qed.

Lemma mid_range lo hi : lo < hi -> lo <= lo + (hi - lo) / 2 < hi.
Proof.
  intros. pose proof (Z.div_pos (hi - lo) 2 ltac:(lia) ltac:(lia)).
  pose proof (Z.div_lt (hi - lo) 2 ltac:(lia) ltac:(lia)). lia.
Qed.

(** Every entry outside [lo, hi) is different from the key. *)
Lemma contains_loop_spec fuel arr key lo hi :
  sorted_ok arr -> 0 <= lo <= hi -> hi <= sa_count arr -> hi - lo <= Z.of_nat fuel ->
  (forall i e, ld (sa_items arr) i = Ret e -> i < lo \/ hi <= i -> e <> key) ->
  contains_loop fuel arr key lo hi = Ret (bool_decide (key ∈ sa_items arr)).
Proof.
  intros [Hc Hs]. revert lo hi. induction fuel as [|fuel IH]; intros lo hi Hlo Hhi Hf Hout; cbn [contains_loop];
    destruct (Z.ltb_spec lo hi) as [Hlt|Hge].
  - lia.
  - rewrite bool_decide_eq_false_2; [done|]. intros [i Hi]%list_elem_of_lookup.
    apply (Hout (Z.of_nat i) key); [apply ld_lookup; [lia|by rewrite Nat2Z.id]|lia|done].
  - pose proof (mid_range lo hi Hlt) as Hm. set (m := lo + (hi - lo) / 2) in *.
    destruct (ld_total (sa_items arr) m) as [e He]; [lia|]. rewrite He. simpl.
    destruct (Z.ltb_spec (strcmp e key) 0) as [Hneg|Hpos].
    + apply IH; [lia..|]. intros i x Hx Hi ->. destruct (decide (i <= m)).
      * pose proof (ld_ret_inv _ _ _ Hx) as [? _].
        pose proof (sorted_lookup _ i m key e Hs ltac:(lia) ltac:(lia) Hx He).
        pose proof (strcmp_opp e key). lia.
      * by apply (Hout i key Hx); [lia|].
    + destruct (Z.gtb_spec (strcmp e key) 0) as [Hgt|].
      * apply IH; [lia..|]. intros i x Hx Hi ->. destruct (decide (m <= i)).
        -- pose proof (sorted_lookup _ m i e key Hs ltac:(lia) ltac:(lia) He Hx). lia.
        -- by apply (Hout i key Hx); [lia|].
      * assert (e = key) as -> by (apply strcmp_eq; lia). rewrite bool_decide_eq_true_2; [done|].
        apply ld_ret_inv in He as [_ He]. by eapply list_elem_of_lookup_2.
  - rewrite bool_decide_eq_false_2; [done|]. intros [i Hi]%list_elem_of_lookup.
    apply (Hout (Z.of_nat i) key); [apply ld_lookup; [lia|by rewrite Nat2Z.id]|lia|done].
Qed.

(** The comparison with the virtual key [key ++ "/"] is 0 exactly on the
    entries below the directory [key], and it is monotone. *)
Lemma compare_prefix_zero e key :
  str_sorted_array_compare_prefix e key = 0 <-> (key ++ ["/"%byte]) `prefix_of` e.
Proof.
  rewrite <- prefix_lookup_next, <- strncmp_prefix. unfold str_sorted_array_compare_prefix.
  destruct (Z.eqb_spec (strncmp e key (length key)) 0) as [E|E]; simpl; [|naive_solver].
  destruct (e !! length key) as [c|]; [|naive_solver].
  split; [|intros [_ [= ->]]; lia]. intros Hz. split; [done|]. f_equal. apply bZ_inj. lia.
Qed.

Lemma compare_prefix_cons c e k key :
  str_sorted_array_compare_prefix (c :: e) (k :: key)
  = if bZ c =? bZ k then str_sorted_array_compare_prefix e key else bZ c - bZ k.
Proof.
  unfold str_sorted_array_compare_prefix. simpl. destruct (Z.eqb_spec (bZ c) (bZ k)); [done|].
  destruct (Z.eqb_spec (bZ c - bZ k) 0); [lia|done].
Qed.

Lemma compare_prefix_mono e1 e2 key :
  strcmp e1 e2 <= 0 ->
  Z.sgn (str_sorted_array_compare_prefix e1 key) <= Z.sgn (str_sorted_array_compare_prefix e2 key).
Proof.
  revert e1 e2. induction key as [|k key IH]; intros e1 e2 Hle.
  - unfold str_sorted_array_compare_prefix.
    destruct e1 as [|c1 e1], e2 as [|c2 e2]; cbn [strcmp strncmp length] in *; simpl; try lia.
    destruct (Z.eqb_spec (bZ c1) (bZ c2)); lia.
  - destruct e1 as [|c1 e1], e2 as [|c2 e2]; cbn [strcmp] in Hle; try lia;
      rewrite ?compare_prefix_cons.
    + change (str_sorted_array_compare_prefix [] (k :: key)) with (-1).
      match goal with |- _ <= Z.sgn ?x => generalize x; intros; lia end.
    + destruct (Z.eqb_spec (bZ c1) (bZ c2)), (Z.eqb_spec (bZ c1) (bZ k)), (Z.eqb_spec (bZ c2) (bZ k));
        try lia. by apply IH.
Qed.

(** The lower bound splits the array into the entries before and not before. *)
Lemma lower_bound_spec fuel arr key lo hi :
  sorted_ok arr -> 0 <= lo <= hi -> hi <= sa_count arr -> hi - lo <= Z.of_nat fuel ->
  (forall i e, ld (sa_items arr) i = Ret e -> i < lo -> str_sorted_array_compare_prefix e key < 0) ->
  (forall i e, ld (sa_items arr) i = Ret e -> hi <= i -> 0 <= str_sorted_array_compare_prefix e key) ->
  exists r, lower_bound fuel arr key lo hi = Ret r /\ 0 <= r <= sa_count arr /\
    (forall i e, ld (sa_items arr) i = Ret e -> i < r -> str_sorted_array_compare_prefix e key < 0) /\
    (forall i e, ld (sa_items arr) i = Ret e -> r <= i -> 0 <= str_sorted_array_compare_prefix e key).
Proof.
  intros [Hc Hs]. revert lo hi. induction fuel as [|fuel IH]; intros lo hi Hlo Hhi Hf Hl Hr; cbn [lower_bound];
    destruct (Z.ltb_spec lo hi) as [Hlt|Hge].
  - lia.
  - exists lo. split_and!; [done|lia|lia|done|]. intros i e He Hi. apply (Hr i e He). lia.
  - pose proof (mid_range lo hi Hlt) as Hm. set (m := lo + (hi - lo) / 2) in *.
    destruct (ld_total (sa_items arr) m) as [e He]; [lia|]. rewrite He. simpl.
    destruct (Z.ltb_spec (str_sorted_array_compare_prefix e key) 0) as [Hneg|Hpos].
    + apply IH; [lia..| |done]. intros i x Hx Hi. destruct (decide (i < lo)); [eauto|].
      pose proof (sorted_lookup _ i m x e Hs ltac:(lia) ltac:(lia) Hx He) as Hle.
      apply (compare_prefix_mono _ _ key) in Hle. lia.
    + apply IH; [lia..|done|]. intros i x Hx Hi.
      pose proof (sorted_lookup _ m i e x Hs ltac:(lia) ltac:(lia) He Hx) as Hle.
      apply (compare_prefix_mono _ _ key) in Hle. lia.
  - exists lo. split_and!; [done|lia|lia|done|]. intros i e He Hi. apply (Hr i e He). lia.
Qed.

(** Is there an entry strictly below the directory [key]. *)
Definition has_child (key : list byte) (items : list (list byte)) : Prop :=
  key <> [] /\ exists e, e ∈ items /\ (key ++ ["/"%byte]) `prefix_of` e.

Lemma has_child_prefix_spec arr key :
  sorted_ok arr ->
  exists b, str_sorted_array_has_child_prefix arr key = Ret b /\ (b = true <-> has_child key (sa_items arr)).
Proof.
  intros Hok. pose proof Hok as [Hc Hs]. unfold str_sorted_array_has_child_prefix, has_child.
  destruct (Z.eqb_spec (sa_count arr) 0) as [E|E]; simpl.
  { exists false. split; [done|]. split; [done|]. intros [_ (e&He&_)].
    destruct (sa_items arr); [set_solver|unfold zlen in *; simpl in *; lia]. }
  case_bool_decide as Hk; [exists false; split; [done|]; naive_solver|].
  destruct (lower_bound_spec (Z.to_nat (sa_count arr)) arr key 0 (sa_count arr) Hok) as (r&->&Hr&Hbelow&Habove);
    [pose proof (zlen_nonneg (sa_items arr)); lia|lia|pose proof (zlen_nonneg (sa_items arr)); lia
    |intros i e [? _]%ld_ret_inv; lia|intros i e [? _]%ld_ret_inv; lia|]. simpl.
  destruct (Z.geb_spec r (sa_count arr)).
  { exists false. split; [done|]. split; [done|]. intros [_ (e&[i Hi]%list_elem_of_lookup&Hp)].
    pose proof (lookup_lt_Some _ _ _ Hi). apply compare_prefix_zero in Hp.
    assert (ld (sa_items arr) (Z.of_nat i) = Ret e) as Hld by (apply ld_lookup; [lia|by rewrite Nat2Z.id]).
    specialize (Hbelow _ _ Hld ltac:(unfold zlen in *; lia)). lia. }
  destruct (ld_total (sa_items arr) r) as [e He]; [lia|]. rewrite He. simpl. eexists; split; [done|].
  unfold char_is. rewrite andb_true_iff, Z.eqb_eq, bool_decide_eq_true, strncmp_prefix, prefix_lookup_next. split.
  - intros Hp. split; [done|]. exists e. split; [|done]. apply ld_ret_inv in He as [_ He]. by eapply list_elem_of_lookup_2.
  - intros [_ (x&[i Hi]%list_elem_of_lookup&Hp)]. apply compare_prefix_zero. apply compare_prefix_zero in Hp.
    assert (ld (sa_items arr) (Z.of_nat i) = Ret x) as Hld by (apply ld_lookup; [lia|by rewrite Nat2Z.id]).
    pose proof (Habove r e He ltac:(lia)). destruct (decide (r <= Z.of_nat i)).
    + pose proof (sorted_lookup _ r (Z.of_nat i) e x Hs ltac:(lia) ltac:(lia) He Hld) as Hle.
      apply (compare_prefix_mono _ _ key) in Hle. lia.
    + specialize (Hbelow _ _ Hld ltac:(lia)). lia.
Qed.

End Sorted.

(** * The index *)

(** utils.h [PathIndex] *)
Record PathIndex := MkIndex { exact : StrHashSet; sorted : StrSortedArray }.

Section Index.
Context `{Heap} `{XXHash64}.

(** utils.c [path_index_free] *)
Definition path_index_free (ix : PathIndex) : PathIndex :=
  MkIndex (str_hash_set_free (exact ix)) (str_sorted_array_free (sorted ix)).

(** utils.c [path_index_build] *)
Definition path_index_build (entries : list (list byte)) (count : Z) : outcome PathIndex :=
  set ← str_hash_set_init count;
  arr ← str_sorted_array_build (Some entries) count;
  set ← for_each (fun key set => str_hash_set_insert_ref set key) (Z.to_nat count) entries 0 set;
  Ret (MkIndex set arr).

(** utils.c [path_index_contains], [path_index_contains_n], [path_index_has_descendant] *)
Definition path_index_contains (ix : PathIndex) (path : list byte) : outcome bool :=
  str_hash_set_lookup (exact ix) path.
Definition path_index_contains_n (ix : PathIndex) (path : list byte) (len : Z) : outcome bool :=
  p ← rd path 0 len; str_hash_set_lookup_n (exact ix) p.
Definition path_index_has_descendant (ix : PathIndex) (path : list byte) : outcome bool :=
  str_sorted_array_has_child_prefix (sorted ix) path.

Lemma sorted_build_spec entries :
  zlen entries < 2 ^ 58 -> heap_serves (2 ^ 63) ->
  exists arr, str_sorted_array_build (Some entries) (zlen entries) = Ret arr /\ sorted_ok arr /\
    sa_items arr ≡ₚ entries.
Proof.
  intros Hz Hh. unfold str_sorted_array_build. pose proof (zlen_nonneg entries).
  destruct (Z.eqb_spec (zlen entries) 0).
  { destruct entries; [|unfold zlen in *; simpl in *; lia]. eexists; split; [done|].
    split; [split; [done|constructor]|done]. }
  simpl. change (SIZE_MAX / 8) with (2 ^ 61 - 1). destruct (Z.gtb_spec (zlen entries) (2 ^ 61 - 1)); [lia|].
  simpl. rewrite (heap_serves_malloc _ _ Hh) by lia. simpl. rewrite rd_ret by lia. simpl.
  rewrite drop_0, take_ge by (unfold zlen; lia). eexists; split; [done|].
  split; [split; simpl; [|apply qsort_strings_sorted]|apply qsort_strings_perm].
  unfold zlen. by rewrite (Permutation_length (qsort_strings_perm entries)).
Qed.

(** What the index promises its clients: it answers membership of the entries,
    of a whole path or of its first bytes, and "some entry lies below". *)
Class IndexOf (ix : PathIndex) (entries : list (list byte)) : Prop := {
  index_contains path : path_index_contains ix path = Ret (bool_decide (path ∈ entries));
  index_contains_n path n : 0 <= n <= zlen path ->
    path_index_contains_n ix path n = Ret (bool_decide (take (Z.to_nat n) path ∈ entries));
  index_descendant path : exists b, path_index_has_descendant ix path = Ret b /\ (b = true <-> has_child path entries);
}.

Lemma path_index_build_spec entries :
  zlen entries < 2 ^ 58 -> heap_serves (2 ^ 63) ->
  exists ix, path_index_build entries (zlen entries) = Ret ix /\ IndexOf ix entries.
Proof.
  intros Hn Hheap.
  pose proof (zlen_nonneg entries). unfold path_index_build, str_hash_set_init.
  destruct (init_capacity_pow2 64 (zlen entries) 4) as (k&Ek&Hk59); [lia..|].
  assert (Hk : 4 <= k < 62) by lia. assert (2 ^ k <= 2 ^ 59) by (apply Z.pow_le_mono_r; lia).
  change (2 ^ 4) with STR_HASH_SET_MIN_CAPACITY in Ek. rewrite Ek.
  pose proof (cap_pos (2 ^ k) k eq_refl Hk). rewrite (heap_serves_malloc _ _ Hheap) by lia. simpl mbind.
  destruct (sorted_build_spec entries) as (arr&->&Hok&Hperm); [done..|]. simpl mbind.
  rewrite for_each_foldM by (unfold zlen; lia).
  destruct (insert_all_ok entries _ [] (set_ok_fresh (2 ^ k) k eq_refl Hk)) as (set&keys&->&Hset&Hkeys);
    [unfold zlen in *; simpl; lia|done|]. simpl.
  assert (Hlook : forall path, str_hash_set_lookup_n set path = Ret (bool_decide (path ∈ entries))).
  { intros path. change (str_hash_set_lookup_n set path) with (str_hash_set_lookup set path).
    unfold str_hash_set_lookup. rewrite (lookup_ok set keys) by done.
    f_equal. apply bool_decide_ext. rewrite Hkeys. set_solver. }
  eexists; split; [done|]. split.
  - intros path. apply Hlook.
  - intros path n Hrange. unfold path_index_contains_n. rewrite rd_ret by lia. simpl. apply Hlook.
  - intros path. destruct (has_child_prefix_spec arr path Hok) as (b&E&Hb). exists b. split; [done|]. rewrite Hb.
    unfold has_child. by setoid_rewrite Hperm.
Qed.

(** C25: the path index answers exactly.  For every list of entries, building the
    index succeeds, and afterwards, for every path: [path_index_contains] is
    true exactly when the path is one of the entries, whatever the hash
    function and through every growth of the table, and
    [path_index_has_descendant] is true exactly when some entry lies strictly
    below that directory.  No probe or search runs out of its array or loops
    forever. *)
Theorem path_index_exact entries
    (Hn : zlen entries < 2 ^ 58) (Hheap : heap_serves (2 ^ 63)) :
  exists ix, path_index_build entries (zlen entries) = Ret ix /\
    forall path,
      path_index_contains ix path = Ret (bool_decide (path ∈ entries)) /\
      exists b, path_index_has_descendant ix path = Ret b /\ (b = true <-> has_child path entries).
Proof.
  destruct (path_index_build_spec entries Hn Hheap) as (ix&E&Hix). exists ix. split; [done|]. intros path.
  split; [apply index_contains|apply index_descendant].
Qed.
End Index.

(** A degenerate hash: every key collides. *)
Program Definition hash_const : XXHash64 := {| XXH64 := fun _ => 5 |}.
Next Obligation. intros. simpl. lia. Qed.

Lemma path_index_exact_witness :
  exists ix, @path_index_build heap0 hash_const [cs "a/b"; cs "a.c"; cs "d"] 3 = Ret ix /\
    forall path,
      @path_index_contains hash_const ix path = Ret (bool_decide (path ∈ [cs "a/b"; cs "a.c"; cs "d"])) /\
      exists b, path_index_has_descendant ix path = Ret b /\
        (b = true <-> has_child path [cs "a/b"; cs "a.c"; cs "d"]).
Proof.
  apply (@path_index_exact heap0 hash_const [cs "a/b"; cs "a.c"; cs "d"]);
    [vm_compute; reflexivity|apply heap0_serves].
Defined.
