(* ===== verification/Paths.v ===== *)
(** Path and text helpers of src/shared/utils.c that the whole program relies
    on: confinement to a root, traversal detection, joining, escaping for
    output and bounded line reading. *)

From S2P Require Import Prelude Alloc CStr.

Definition slash : byte := "/"%byte.

(** utils.c [path_is_within_root] *)
Definition path_is_within_root (root path : list byte) : bool :=
  let root_len := length root in
  (strncmp root path root_len =? 0) && (at_end path root_len || char_is path root_len slash).

Fixpoint skip_slashes (s : list byte) : list byte :=
  match s with c :: t => if bool_decide (c = slash) then skip_slashes t else s | [] => [] end.

(** [while (root_len > 0 && root[root_len - 1] == '/') root_len--] *)
Fixpoint trim_len (root : list byte) (n : nat) : nat :=
  match n with
  | O => O
  | S m => if char_is root m slash then trim_len root m else n
  end.

(** utils.c [utils_strip_transfer_root] *)
Definition utils_strip_transfer_root (path root : option (list byte)) : option (list byte) :=
  match path with
  | None => None
  | Some path =>
      let rel := skip_slashes path in
      match root with
      | None => Some rel
      | Some root =>
          let root := skip_slashes root in
          let root_len := trim_len root (length root) in
          if (root_len =? 0)%nat then Some rel
          else if (strncmp rel root root_len =? 0) && (char_is rel root_len slash || at_end rel root_len)
          then Some (drop (root_len + (if char_is rel root_len slash then 1 else 0)) rel)
          else Some rel
      end
  end.

Section Alloc.
Context `{Heap}.

(** utils.c [str_dup] *)
Definition str_dup (s : option (list byte)) : outcome (list byte) :=
  s ← of_option s;
  check (malloc_ok (zlen s + 1));;
  Ret s.

(** utils.c [has_path_traversal] *)
Definition has_path_traversal (path : option (list byte)) : bool :=
  match path with
  | None => true
  | Some p => match str_dup (Some p) with
              | Ret dup => existsb (fun part => strcmp part (cs "..") =? 0) (tokens dup)
              | _ => true
              end
  end.

(** utils.c [utils_valid_batch_path] *)
Definition utils_valid_batch_path (path : option (list byte)) : bool :=
  match path with
  | None => false
  | Some p => negb (at_end p 0) && negb (char_is p 0 slash) && negb (has_path_traversal (Some p))
  end.

(** utils.c [path_cat] *)
Definition path_cat (path1 path2 : option (list byte)) : outcome (list byte) :=
  if bool_decide (default [] path1 = []) then str_dup path2
  else if bool_decide (default [] path2 = []) then str_dup path1
  else
    let p1 := default [] path1 in
    let p2 := default [] path2 in
    let path1_len := if char_is p1 (length p1 - 1) slash then zlen p1 - 1 else zlen p1 in
    let offset := if char_is p2 0 slash then 1 else 0 in
    let path2_len := zlen p2 - offset in
    check (negb (path1_len >? u64 (SIZE_MAX - path2_len - 2)));;
    check (malloc_ok (path1_len + path2_len + 2));;
    a ← rd p1 0 path1_len;
    b ← rd p2 offset path2_len;
    Ret (a ++ [slash] ++ b).

(** One byte of [output_escape]. *)
Definition escape_byte (eight_bit_output : bool) (b : byte) : list byte :=
  let c := bZ b in
  if ((32 <=? c) && (c <=? 126)) || (eight_bit_output && (128 <=? c)) then [b]
  else ["\"%byte; "#"%byte; byte.of_Z (48 + Z.land (Z.shiftr c 6) 7);
        byte.of_Z (48 + Z.land (Z.shiftr c 3) 7); byte.of_Z (48 + Z.land c 7)].

(** utils.c [output_escape]: the buffer holds [length * 5 + 1] bytes. *)
Definition output_escape (s : option (list byte)) (eight_bit_output : bool) : outcome (list byte) :=
  s ← of_option s;
  let length := zlen s in
  check (negb (length >? (SIZE_MAX - 1) / 5));;
  check (malloc_ok (length * 5 + 1));;
  w ← foldM (fun b w => emit (escape_byte eight_bit_output b) w) s (WBuf (length * 5 + 1) []);
  w' ← emit [Byte.x00] w;
  Ret (w_out w).

(** utils.c [append_resume_eligible], [append_tail_length] *)
Definition append_resume_eligible (old_size check_size : Z) : bool := old_size <? check_size.
Definition append_tail_length (old_size check_size : Z) : option Z :=
  if append_resume_eligible old_size check_size then Some (u64 (check_size - old_size)) else None.

(** utils.c [utils_getdelim_bounded] on a stream of remaining bytes.  The line
    buffer is its capacity and the bytes written so far. *)
Inductive gd_result := GdError | GdEof | GdLine (line : list byte).
Record line_buf := MkLine { lb_null : bool; lb_cap : Z }.

Fixpoint getdelim_loop (stream : list byte) (delim : byte) (max_len limit : Z) (line : list byte) (cap : Z)
  : outcome (gd_result * Z) :=
  let len := zlen line in
  let finish (line : list byte) (cap : Z) :=
    if zlen line <? cap then Ret (GdLine line, cap) else Stuck in
  match stream with
  | [] => if len =? 0 then Ret (GdEof, cap) else finish line cap
  | c :: stream =>
      if len >=? max_len then Ret (GdError, cap)
      else
        let '(grow_ok, cap) :=
          if len + 2 >? cap then
            let new_cap := u64 (cap * 2) in
            let new_cap := if new_cap <? len + 2 then len + 2 else new_cap in
            let new_cap := if new_cap >? limit then limit else new_cap in
            if malloc_ok new_cap then (true, new_cap) else (false, cap)
          else (true, cap) in
        if negb grow_ok then Ret (GdError, cap)
        else if negb (len <? cap) then Stuck
        else
          let line := line ++ [c] in
          if bool_decide (c = delim) then finish line cap
          else getdelim_loop stream delim max_len limit line cap
  end.

Definition utils_getdelim_bounded (stream : list byte) (lb : line_buf) (delim : byte) (max_len : Z)
  : outcome (gd_result * Z) :=
  if max_len =? 0 then Ret (GdError, lb_cap lb)
  else
    let limit := u64 (max_len + 1) in
    if lb_null lb || (lb_cap lb <? 2) then
      let initial := if limit <? 256 then limit else 256 in
      if malloc_ok initial then getdelim_loop stream delim max_len limit [] initial
      else Ret (GdError, lb_cap lb)
    else getdelim_loop stream delim max_len limit [] (lb_cap lb).

Definition UTILS_MAX_LINE_LEN : Z := 64 * 1024.

(** The lines [utils_getdelim_bounded] delivers until the end of the file, and
    whether it ended without a read error. *)
Fixpoint read_lines (delim : byte) (fuel : nat) (stream : list byte) (lb : line_buf)
  : outcome (list (list byte) * bool) :=
  match fuel with
  | O => Stuck
  | S fuel =>
      '(r, cap) ← utils_getdelim_bounded stream lb delim UTILS_MAX_LINE_LEN;
      match r with
      | GdError => Ret ([], false)
      | GdEof => Ret ([], true)
      | GdLine l =>
          '(ls, ok) ← read_lines delim fuel (drop (length l) stream) (MkLine false cap);
          Ret (l :: ls, ok)
      end
  end.
Definition file_lines (content : list byte) (delim : byte) : outcome (list (list byte) * bool) :=
  read_lines delim (S (length content)) content (MkLine true 0).

End Alloc.

Definition newline : byte := Byte.x0a.

(** Socket addresses, in network byte order. *)
Inductive sockaddr := AF_INET (addr : list byte) | AF_INET6 (addr : list byte) | AF_OTHER.

Definition be_combine (l : list byte) : Z := le_combine (rev l).

(** utils.c [utils_sockaddr_is_loopback] *)
Definition utils_sockaddr_is_loopback (addr : option sockaddr) : bool :=
  match addr with
  | Some (AF_INET a) => Z.land (be_combine a) 0xff000000 =? 0x7f000000
  | Some (AF_INET6 a) =>
      if bool_decide (a = replicate 15 Byte.x00 ++ [Byte.x01]) then true
      else bool_decide (take 12 a = replicate 10 Byte.x00 ++ [Byte.xff; Byte.xff])
           && bool_decide (a !! 12%nat = Some Byte.x7f)
  | _ => false
  end.

(** ** Confinement *)

Lemma strncmp_prefix_l key e : strncmp key e (length key) = 0 <-> key `prefix_of` e.
Proof.
  revert e. induction key as [|k key IH]; intros e; simpl.
  - split; [intros _; apply prefix_nil|done].
  - destruct e as [|c e]; [split; [lia|intros [x Hx]; done]|].
    destruct (Z.eqb_spec (bZ k) (bZ c)) as [->%bZ_inj|Hne].
    + rewrite IH. split; [apply prefix_cons|apply prefix_cons_inv_2].
    + split; [lia|]. intros Hp%prefix_cons_inv_1. by subst.
Qed.

Lemma within_root_iff root path :
  path_is_within_root root path = true <-> path = root \/ (root ++ [slash]) `prefix_of` path.
Proof.
  unfold path_is_within_root, at_end, char_is. rewrite andb_true_iff, orb_true_iff, Z.eqb_eq, !bool_decide_eq_true.
  rewrite strncmp_prefix_l, <- prefix_lookup_next. split.
  - intros [Hp [He|Hs]]; [left|by right]. destruct Hp as [t ->].
    apply lookup_ge_None in He. rewrite length_app in He.
    destruct t; simpl in He; [by rewrite app_nil_r|lia].
  - intros [->|[Hp Hs]]; [|by auto]. split; [done|]. left. by apply lookup_ge_None.
Qed.

Lemma split_slash_none s cur : slash ∉ s -> split_slash s cur = [cur ++ s].
Proof.
  revert cur. induction s as [|c s IH]; intros cur Hs; simpl; [by rewrite app_nil_r|].
  rewrite bool_decide_eq_false_2 by set_solver. rewrite IH by set_solver. by rewrite <- app_assoc.
Qed.

Lemma tokens_single s : s <> [] -> slash ∉ s -> tokens s = [s].
Proof. intros Hs Hn. unfold tokens. rewrite split_slash_none by done. simpl. by rewrite filter_cons_True, filter_nil. Qed.
Lemma split_slash_app s t cur :
  split_slash (s ++ slash :: t) cur = split_slash s cur ++ split_slash t [].
Proof.
  revert cur. induction s as [|c s IH]; intros cur; simpl.
  - done.
  - case_bool_decide; simpl; by rewrite IH.
Qed.

Lemma tokens_app s t : tokens (s ++ slash :: t) = tokens s ++ tokens t.
Proof. unfold tokens. by rewrite split_slash_app, filter_app. Qed.

Lemma tokens_trailing s : tokens (s ++ [slash]) = tokens s.
Proof. rewrite tokens_app. apply app_nil_r. Qed.
Lemma tokens_leading t : tokens (slash :: t) = tokens t.
Proof. apply (tokens_app []). Qed.

Section AllocFacts.
Context `{Heap}.

Lemma traversal_spec p :
  malloc_ok (zlen p + 1) = true -> has_path_traversal (Some p) = bool_decide (cs ".." ∈ tokens p).
Proof.
  intros Ha. unfold has_path_traversal, str_dup. simpl. rewrite Ha. simpl.
  apply eq_true_iff_eq. rewrite existsb_exists, bool_decide_eq_true. setoid_rewrite Z.eqb_eq.
  setoid_rewrite strcmp_eq. setoid_rewrite <- list_elem_of_In. naive_solver.
Qed.

Lemma traversal_free p : has_path_traversal (Some p) = false -> cs ".." ∉ tokens p.
Proof.
  intros Ht. destruct (malloc_ok (zlen p + 1)) eqn:Ha.
  - rewrite traversal_spec in Ht by done. by apply bool_decide_eq_false in Ht.
  - revert Ht. unfold has_path_traversal, str_dup. simpl. by rewrite Ha.
Qed.

(** The two trims of [path_cat] do not change the components. *)
Lemma path_cat_ret a b r :
  path_cat (Some a) (Some b) = Ret r ->
  (a = [] /\ r = b) \/ (b = [] /\ r = a) \/
  exists a' b', r = a' ++ [slash] ++ b' /\ (a = a' \/ a = a' ++ [slash]) /\ (b = b' \/ b = slash :: b').
Proof.
  unfold path_cat, str_dup. simpl. case_bool_decide as Ha.
  { intros E. do 2 inv_ret E. subst. by left. }
  case_bool_decide as Hb.
  { intros E. do 2 inv_ret E. subst. right. by left. }
  intros E. do 5 inv_ret E. subst. right. right. exists v1, v2. split; [done|].
  apply rd_ret_inv in Hm1 as (_&_&_&->), Hm2 as (_&_&_&->).
  split.
  - destruct (exists_last Ha) as (x&c&->). unfold char_is. rewrite length_app. simpl.
    replace (length x + 1 - 1)%nat with (length x) by lia. rewrite lookup_app_r, Nat.sub_diag by done. simpl.
    rewrite drop_0, zlen_app. change (zlen [c]) with 1. case_bool_decide as Hc.
    + right. injection Hc as ->. replace (Z.to_nat (zlen x + 1 - 1)) with (length x) by (unfold zlen; lia).
      by rewrite take_app_length.
    + left. rewrite take_ge; [done|]. rewrite length_app. unfold zlen; cbn [length]; lia.
  - unfold char_is. destruct b as [|c b]; [done|]. simpl. case_bool_decide as Hc.
    + right. injection Hc as ->. simpl. rewrite take_ge; [done|]. rewrite drop_0. unfold zlen. cbn [length]. lia.
    + left. simpl. rewrite take_ge; [done|]. unfold zlen; cbn [length]; lia.
Qed.

Lemma path_cat_tokens a b r :
  path_cat (Some a) (Some b) = Ret r -> tokens r = tokens a ++ tokens b.
Proof.
  intros [[-> ->]|[[-> ->]|(a'&b'&->&Ha&Hb)]]%path_cat_ret; [done|by rewrite app_nil_r|].
  simpl. rewrite tokens_app. f_equal.
  - destruct Ha as [->| ->]; [done|by rewrite tokens_trailing].
  - destruct Hb as [->| ->]; [done|by rewrite tokens_leading].
Qed.

(** C36: joining a received relative path to the root keeps it inside.  When
    [utils_valid_batch_path] accepts a path and the root does not end in a
    slash, [path_cat] of the two lies within the root for
    [path_is_within_root], its components are those of the root followed by
    those of the path, and none of the latter is [..]. *)
Theorem valid_path_confined root p r
    (Hroot : root <> []) (Hend : last root <> Some slash)
    (Hvalid : utils_valid_batch_path (Some p) = true)
    (Hr : path_cat (Some root) (Some p) = Ret r) :
  path_is_within_root root r = true /\ tokens r = tokens root ++ tokens p /\ cs ".." ∉ tokens p.
Proof.
  split_and!.
  - apply within_root_iff. apply path_cat_ret in Hr as [[-> _]|[[_ ->]|(a'&b'&->&Ha&_)]]; [done|by left|].
    right. destruct Ha as [->| ->]; [|by rewrite last_snoc in Hend].
    exists b'. by rewrite <- app_assoc.
  - by apply path_cat_tokens.
  - unfold utils_valid_batch_path in Hvalid. bool_to_prop.
    unfold has_path_traversal, str_dup in *. simpl in *.
    destruct (malloc_ok (zlen p + 1)); simpl in *; [|done]. intros Hin.
    assert (Ht : existsb (fun part => strcmp part (cs "..") =? 0) (tokens p) = true); [|congruence].
    apply existsb_exists. exists (cs ".."). by rewrite <- list_elem_of_In.
Qed.

(** Traversal detection is exact: [has_path_traversal] is true exactly when
    a slash-separated component of the path is [..] (and when the path cannot be
    copied), wherever it stands and however many slashes surround it; a path
    joined by [path_cat] has one exactly when one of its parts has. *)
Lemma traversal_exact a b r
    (Hheap : heap_serves (zlen a + zlen b + 2)) (Hr : path_cat (Some a) (Some b) = Ret r) :
  has_path_traversal (Some r) = bool_decide (cs ".." ∈ tokens a \/ cs ".." ∈ tokens b).
Proof.
  rewrite traversal_spec.
  - apply bool_decide_ext. rewrite (path_cat_tokens a b r Hr). set_solver.
  - apply Hheap. pose proof (zlen_nonneg r). pose proof (zlen_nonneg a). pose proof (zlen_nonneg b).
    apply path_cat_ret in Hr as [[-> ->]|[[-> ->]|(a'&b'&->&Ha&Hb)]]; [lia|lia|].
    rewrite !zlen_app. change (zlen [slash]) with 1. pose proof (zlen_nonneg a'). pose proof (zlen_nonneg b').
    assert (zlen a' <= zlen a) by (destruct Ha as [->| ->]; rewrite ?zlen_app; unfold zlen; simpl; lia).
    assert (zlen b' <= zlen b) by (destruct Hb as [->| ->]; unfold zlen; simpl; lia). lia.
Qed.

(** ** Escaping *)

Definition printable (eight_bit_output : bool) (b : byte) : Prop :=
  32 <= bZ b <= 126 \/ (eight_bit_output = true /\ 128 <= bZ b).

Lemma octal_digit z : 0 <= z -> 48 <= bZ (byte.of_Z (48 + Z.land z 7)) <= 55.
Proof.
  intros Hz. assert (0 <= Z.land z 7 < 8) by (change 7 with (Z.ones 3); rewrite Z.land_ones by lia; by apply Z.mod_pos_bound).
  rewrite byte.unsigned_of_Z. unfold byte.wrap. rewrite Z.mod_small; lia.
Qed.

Lemma escape_byte_spec eb b :
  Forall (printable eb) (escape_byte eb b) /\ 1 <= zlen (escape_byte eb b) <= 5.
Proof.
  pose proof (bZ_range b). unfold escape_byte. destruct (_ || _) eqn:E.
  - split; [|done]. apply Forall_singleton. unfold printable.
    apply orb_true_iff in E as [E|E]; bool_to_prop; [lia|]. right. done.
  - split; [|done]. pose proof (octal_digit (Z.shiftr (bZ b) 6)). pose proof (octal_digit (Z.shiftr (bZ b) 3)).
    pose proof (octal_digit (bZ b)).
    assert (0 <= Z.shiftr (bZ b) 6 /\ 0 <= Z.shiftr (bZ b) 3) by (rewrite !Z.shiftr_nonneg; lia).
    rewrite !Forall_cons. split_and!; [by left|by left|left; lia|left; lia|left; lia|apply Forall_nil_2].
Qed.

Lemma escape_loop eb s w :
  zlen (w_out w) + 5 * zlen s < w_cap w ->
  exists w', foldM (fun b w => emit (escape_byte eb b) w) s w = Ret w' /\ w_cap w' = w_cap w /\
    w_out w' = w_out w ++ concat (map (escape_byte eb) s) /\ zlen (w_out w') < w_cap w.
Proof.
  revert w. induction s as [|b s IH]; intros w Hw; cbn [foldM map concat].
  - exists w. rewrite app_nil_r. split_and!; [done..|]. unfold zlen in *; simpl in *; lia.
  - assert (zlen (b :: s) = zlen s + 1) as Hb by (unfold zlen; simpl; lia). pose proof (zlen_nonneg s).
    destruct (escape_byte_spec eb b) as [_ Hl]. rewrite emit_ret by lia. simpl mbind.
    destruct (IH (WBuf (w_cap w) (w_out w ++ escape_byte eb b))) as (w'&E&Hc&Ho&Hz);
      [simpl; rewrite zlen_app; lia|].
    exists w'. simpl in *. rewrite app_assoc. done.
Qed.

(** Escaped output is safe to print.  [output_escape] fits its buffer,
    writes every byte of the string in order, and the result has only printable
    characters: 32 to 126, and from 128 up when 8-bit output was asked for, so
    no control character of a file name reaches the terminal. *)
Lemma output_escape_printable s eb
    (Hs : zlen s < 2 ^ 60) (Hheap : malloc_ok (zlen s * 5 + 1) = true) :
  exists r, output_escape (Some s) eb = Ret r /\ r = concat (map (escape_byte eb) s) /\
    Forall (printable eb) r.
Proof.
  unfold output_escape. simpl. change ((SIZE_MAX - 1) / 5) with 3689348814741910322.
  destruct (Z.gtb_spec (zlen s) 3689348814741910322); [lia|]. simpl. rewrite Hheap. simpl.
  destruct (escape_loop eb s (WBuf (zlen s * 5 + 1) [])) as (w&E&Hc&Ho&Hz);
    [unfold zlen at 1; simpl; lia|]. rewrite E. simpl in *.
  rewrite emit_ret by (rewrite Hc; change (zlen [Byte.x00]) with 1; lia). simpl.
  eexists; split_and!; [done|done|]. rewrite Ho. apply Forall_concat, Forall_map, Forall_true.
  intros b. apply escape_byte_spec.
Qed.

(** ** Bounded lines *)

(** The line of a stream: up to and including the delimiter, or all of it. *)
Fixpoint line_of (stream : list byte) (delim : byte) : list byte :=
  match stream with
  | [] => []
  | c :: stream => c :: (if bool_decide (c = delim) then [] else line_of stream delim)
  end.

Lemma getdelim_loop_spec stream delim max_len line cap :
  0 < max_len < 2 ^ 62 -> heap_serves (2 ^ 63) -> 2 <= cap <= 2 ^ 62 -> zlen line < cap -> zlen line <= max_len ->
  exists cap', cap' <= Z.max cap (max_len + 1) /\
    getdelim_loop stream delim max_len (max_len + 1) line cap
    = Ret (if zlen line + zlen (line_of stream delim) <=? max_len
           then if bool_decide (line ++ line_of stream delim = []) then GdEof
                else GdLine (line ++ line_of stream delim)
           else GdError, cap').
Proof.
  intros Hm Hh. revert line cap. induction stream as [|c stream IH]; intros line cap Hc Hl Hlm.
  - cbn [getdelim_loop line_of]. rewrite app_nil_r. change (zlen []) with 0. rewrite Z.add_0_r.
    destruct (Z.leb_spec (zlen line) max_len); [|lia]. exists cap. split; [lia|].
    destruct (Z.eqb_spec (zlen line) 0).
    + destruct line; [done|unfold zlen in *; simpl in *; lia].
    + destruct (Z.ltb_spec (zlen line) cap); [|lia]. rewrite bool_decide_eq_false_2; [done|]. intros ->. done.
  - cbn [getdelim_loop line_of]. pose proof (zlen_nonneg line). set (rest := if bool_decide _ then _ else _).
    assert (zlen (c :: rest) = zlen rest + 1) as Hr by (unfold zlen; simpl; lia). pose proof (zlen_nonneg rest).
    destruct (Z.geb_spec (zlen line) max_len).
    { exists cap. split; [lia|]. destruct (Z.leb_spec (zlen line + zlen (c :: rest)) max_len); [lia|done]. }
    set (g := if zlen line + 2 >? cap then _ else _).
    assert (Hg : exists cap1, g = (true, cap1) /\ zlen line + 2 <= cap1 <= Z.max cap (max_len + 1)).
    { subst g. destruct (Z.gtb_spec (zlen line + 2) cap); [|exists cap; split; [done|lia]].
      rewrite u64_small by lia. destruct (Z.ltb_spec (cap * 2) (zlen line + 2)); [lia|].
      set (nc := if cap * 2 >? max_len + 1 then _ else _).
      assert (Hnc : zlen line + 2 <= nc <= max_len + 1)
        by (subst nc; destruct (Z.gtb_spec (cap * 2) (max_len + 1)); lia).
      rewrite (heap_serves_malloc _ _ Hh) by lia. exists nc. split; [done|lia]. }
    destruct Hg as (cap1&->&Hc1). cbn [negb]. cbv iota beta zeta.
    destruct (Z.ltb_spec (zlen line) cap1); [|lia]. cbn [negb].
    assert (Hz : zlen (line ++ [c]) = zlen line + 1) by (by rewrite zlen_app).
    destruct (bool_decide (c = delim)) eqn:Ed; subst rest; cbv iota.
    + change (zlen [c]) with 1. destruct (Z.ltb_spec (zlen (line ++ [c])) cap1); [|lia].
      destruct (Z.leb_spec (zlen line + 1) max_len); [|lia]. exists cap1. split; [lia|].
      rewrite bool_decide_eq_false_2; [done|]. by destruct line.
    + destruct (IH (line ++ [c]) cap1) as (cap2&Hc2&->); [lia..|]. exists cap2. split; [lia|].
      rewrite <- app_assoc. cbn [app]. rewrite Hz, Hr.
      by replace (zlen line + (zlen (line_of stream delim) + 1))
        with (zlen line + 1 + zlen (line_of stream delim)) by lia.
Qed.

Lemma getdelim_loop_total stream delim max_len line cap :
  0 < max_len < 2 ^ 62 -> 2 <= cap < 2 ^ 63 -> zlen line < cap -> zlen line <= max_len ->
  exists r cap', getdelim_loop stream delim max_len (max_len + 1) line cap = Ret (r, cap') /\ 2 <= cap' < 2 ^ 63 /\
    forall x, r = GdLine x -> x <> [].
Proof.
  intros Hm. revert line cap. induction stream as [|c stream IH]; intros line cap Hc Hl Hlm; cbn [getdelim_loop].
  - destruct (Z.eqb_spec (zlen line) 0); [by eexists _, _|]. destruct (Z.ltb_spec (zlen line) cap); [|lia].
    eexists _, _. split_and!; [done|lia|lia|]. intros x [= <-] ->. done.
  - pose proof (zlen_nonneg line). destruct (Z.geb_spec (zlen line) max_len); [by eexists _, _|].
    set (g := if zlen line + 2 >? cap then _ else _).
    assert (Hg : fst g = true -> zlen line + 2 <= snd g < 2 ^ 63).
    { subst g. destruct (Z.gtb_spec (zlen line + 2) cap); [|simpl; lia].
      set (nc := if u64 (cap * 2) <? zlen line + 2 then _ else _).
      assert (zlen line + 2 <= nc) by (subst nc; destruct (Z.ltb_spec (u64 (cap * 2)) (zlen line + 2)); lia).
      destruct (Z.gtb_spec nc (max_len + 1)); destruct (malloc_ok _); simpl; lia. }
    assert (Hg0 : fst g = false -> snd g = cap).
    { subst g. destruct (zlen line + 2 >? cap); [|done]. by destruct (malloc_ok _). }
    destruct g as [[] cap1]; cbn [negb fst snd] in *; cbv iota; [|rewrite Hg0 by done; by eexists _, _].
    specialize (Hg eq_refl). destruct (Z.ltb_spec (zlen line) cap1); [|lia]. cbn [negb].
    assert (Hz : zlen (line ++ [c]) = zlen line + 1) by (by rewrite zlen_app).
    destruct (bool_decide _).
    + destruct (Z.ltb_spec (zlen (line ++ [c])) cap1); [|lia]. eexists _, _. split_and!; [done|lia|lia|].
      intros x [= <-]. by destruct line.
    + apply IH; lia.
Qed.

Lemma read_lines_total delim fuel stream lb :
  (length stream < fuel)%nat -> 0 <= lb_cap lb < 2 ^ 63 -> exists r, read_lines delim fuel stream lb = Ret r.
Proof.
  revert stream lb. induction fuel as [|fuel IH]; intros stream lb Hf Hc; [lia|]. cbn [read_lines].
  assert (Hgd : exists r cap, utils_getdelim_bounded stream lb delim UTILS_MAX_LINE_LEN = Ret (r, cap) /\
     0 <= cap < 2 ^ 63 /\ forall x, r = GdLine x -> x <> [] /\ stream <> []).
  { assert (Hs : forall r cap, utils_getdelim_bounded [] lb delim UTILS_MAX_LINE_LEN = Ret (r, cap) -> forall x, r <> GdLine x).
    { unfold utils_getdelim_bounded. intros r cap. simpl (UTILS_MAX_LINE_LEN =? 0). cbv iota.
      destruct (lb_null lb || _); [destruct (malloc_ok _)|]; simpl; intros [= <- <-]; done. }
    assert (Hg : exists r cap, utils_getdelim_bounded stream lb delim UTILS_MAX_LINE_LEN = Ret (r, cap) /\
      0 <= cap < 2 ^ 63 /\ forall x, r = GdLine x -> x <> []).
    { unfold utils_getdelim_bounded. simpl (UTILS_MAX_LINE_LEN =? 0). cbv iota.
      rewrite u64_small by (unfold UTILS_MAX_LINE_LEN; lia).
      destruct (lb_null lb || (lb_cap lb <? 2)) eqn:E.
      - destruct (malloc_ok _); [|by eexists _, _].
        edestruct (getdelim_loop_total stream delim UTILS_MAX_LINE_LEN [] 256) as (r&cap&Hr&?&?);
          [unfold UTILS_MAX_LINE_LEN; lia|lia|done|done|]. exists r, cap. split; [exact Hr|]. split; [lia|done].
      - bool_to_prop. edestruct (getdelim_loop_total stream delim UTILS_MAX_LINE_LEN [] (lb_cap lb)) as (r&cap&Hr&?&?);
          [unfold UTILS_MAX_LINE_LEN; lia|lia|unfold zlen; simpl; lia|done|]. exists r, cap. split; [exact Hr|]. split; [lia|done]. }
    destruct Hg as (r&cap&Hr&Hcap&Hx). exists r, cap. split_and!; [done|lia|lia|]. intros x ->. split; [by apply Hx|].
    intros ->. by eapply Hs. }
  destruct Hgd as (r&cap&->&Hcap&Hx). simpl mbind. destruct r as [| |x]; [by eexists..|].
  destruct (Hx x eq_refl) as [Hx1 Hs1].
  destruct (IH (drop (length x) stream) (MkLine false cap)) as [[ls ok] ->]; [|done|by eexists].
  rewrite length_drop. destruct x; [done|]. destruct stream; [done|]. simpl in *. lia.
Qed.

(** The bounded line reader returns the line or refuses it.  For any stream
    and any line buffer, reused or new, [utils_getdelim_bounded] returns the
    bytes up to and including the delimiter (or the end of the stream) when
    they are at most [max_len], end-of-file on an empty stream, and an error
    for a longer line; the buffer never grows past [max_len + 1] bytes beyond
    its size and is never written past its end. *)
Lemma getdelim_bounded_exact stream lb delim max_len
    (Hm : 0 < max_len < 2 ^ 62) (Hcap : 0 <= lb_cap lb < 2 ^ 62) (Hheap : heap_serves (2 ^ 63)) :
  exists cap, cap <= Z.max (Z.max 256 (lb_cap lb)) (max_len + 1) /\
    utils_getdelim_bounded stream lb delim max_len
    = Ret (if zlen (line_of stream delim) <=? max_len
           then if bool_decide (stream = []) then GdEof else GdLine (line_of stream delim)
           else GdError, cap).
Proof.
  unfold utils_getdelim_bounded. destruct (Z.eqb_spec max_len 0); [lia|]. rewrite u64_small by lia.
  assert (Hb : bool_decide (stream = []) = bool_decide ([] ++ line_of stream delim = [])).
  { apply bool_decide_ext. by destruct stream. }
  rewrite Hb. change (zlen (line_of stream delim)) with (zlen (@nil byte) + zlen (line_of stream delim)).
  destruct (lb_null lb || (lb_cap lb <? 2)) eqn:E.
  - set (initial := if max_len + 1 <? 256 then _ else _).
    assert (Hi : 2 <= initial <= 256) by (subst initial; destruct (Z.ltb_spec (max_len + 1) 256); lia).
    rewrite (heap_serves_malloc _ _ Hheap) by lia.
    destruct (getdelim_loop_spec stream delim max_len [] initial) as (cap&Hc&->);
      [done|done|lia|unfold zlen; simpl; lia|unfold zlen; simpl; lia|]. exists cap. split; [lia|done].
  - bool_to_prop.
    destruct (getdelim_loop_spec stream delim max_len [] (lb_cap lb)) as (cap&Hc&->);
      [done|done|lia|unfold zlen; simpl; lia|unfold zlen; simpl; lia|]. exists cap. split; [lia|done].
Qed.

End AllocFacts.

Lemma valid_path_confined_witness :
  path_is_within_root (cs "/srv/data") (cs "/srv/data/a/b") = true /\ cs ".." ∉ tokens (cs "a/b").
Proof.
  destruct (@valid_path_confined heap0 (cs "/srv/data") (cs "a/b") (cs "/srv/data/a/b"))
    as (H1&_&H3); [done|done|reflexivity|reflexivity|]. split; [exact H1|exact H3].
Defined.

