(* ===== verification/FilterParse.v ===== *)
(** The filter-rule parser of src/shared/filter.c: rule syntax, modifiers and
    the cleaned rule of one line. *)

From S2P Require Import Prelude Alloc CStr.

(** filter.h [FilterAction], [FilterRule]; [owner] is NULL until it is set. *)
Inductive FilterAction := FILTER_ACTION_NONE | FILTER_ACTION_EXCLUDE | FILTER_ACTION_INCLUDE
  | FILTER_ACTION_PROTECT | FILTER_ACTION_RISK.
#[global] Instance FilterAction_eq_dec : EqDecision FilterAction.
Proof. solve_decision. Defined.

Definition FILTER_SIDE_SENDER : Z := 1.
Definition FILTER_SIDE_RECEIVER : Z := 2.

Record FilterRule := MkRule {
  action : FilterAction;
  sides : Z;
  anchored : bool;
  dir_only : bool;
  negate : bool;
  perishable : bool;
  owner : option (list byte);
  pattern : option (list byte);
}.

(** filter.c [RuleKind]; UNKNOWN is never returned by the two name tables. *)
Inductive RuleKind := RULE_KIND_EXCLUDE | RULE_KIND_INCLUDE | RULE_KIND_HIDE | RULE_KIND_SHOW
  | RULE_KIND_PROTECT | RULE_KIND_RISK | RULE_KIND_MERGE | RULE_KIND_DIR_MERGE | RULE_KIND_CLEAR.
#[global] Instance RuleKind_eq_dec : EqDecision RuleKind.
Proof. solve_decision. Defined.

(** filter.c [short_rule_char]; the NUL at the end of a string is no rule. *)
Definition short_rule_char (c : byte) : option RuleKind :=
  match c with
  | "-" => Some RULE_KIND_EXCLUDE
  | "+" => Some RULE_KIND_INCLUDE
  | "H" => Some RULE_KIND_HIDE
  | "S" => Some RULE_KIND_SHOW
  | "P" => Some RULE_KIND_PROTECT
  | "R" => Some RULE_KIND_RISK
  | "." => Some RULE_KIND_MERGE
  | ":" => Some RULE_KIND_DIR_MERGE
  | "!" => Some RULE_KIND_CLEAR
  | _ => None
  end%byte.

(** filter.c [long_rule_name] and its table *)
Definition rule_names : list (list byte * RuleKind) :=
  [(cs "exclude", RULE_KIND_EXCLUDE); (cs "include", RULE_KIND_INCLUDE); (cs "hide", RULE_KIND_HIDE);
   (cs "show", RULE_KIND_SHOW); (cs "protect", RULE_KIND_PROTECT); (cs "risk", RULE_KIND_RISK);
   (cs "merge", RULE_KIND_MERGE); (cs "dir-merge", RULE_KIND_DIR_MERGE); (cs "clear", RULE_KIND_CLEAR)].
Definition long_rule_name (name : list byte) (len : nat) : option RuleKind :=
  snd <$> List.find (fun w => (length (fst w) =? len)%nat && (strncmp name (fst w) len =? 0)) rule_names.

(** filter.c [is_modifier_char] ... [is_consumed_modifier_char] *)
Definition is_modifier_char (c : byte) : bool :=
  match c with "s" | "r" | "p" | "x" | "/" | "!" | "C" => true | _ => false end%byte.
Definition is_merge_rule (k : RuleKind) : bool :=
  match k with RULE_KIND_MERGE | RULE_KIND_DIR_MERGE => true | _ => false end.
Definition is_unsupported_modifier_char (c : byte) : bool :=
  match c with "e" | "n" | "w" => true | _ => false end%byte.
Definition is_merge_modifier_char (c : byte) : bool :=
  match c with "e" | "n" | "w" | "-" => true | _ => false end%byte.
Definition is_modifier_scan_char (c : byte) (k : RuleKind) : bool :=
  is_modifier_char c || is_unsupported_modifier_char c || (is_merge_rule k && is_merge_modifier_char c).
Definition is_consumed_modifier_char (c : byte) (k : RuleKind) : bool :=
  is_modifier_char c || (is_merge_rule k && is_merge_modifier_char c).

Definition is_sep (c : byte) : bool := match c with " " | "_" => true | _ => false end%byte.

(** filter.c [unsupported_modifier_in_token]; [None] for NUL. *)
Fixpoint scan_token (tok : list byte) (k : RuleKind) (bad : option byte) : option byte :=
  match tok with
  | [] => bad
  | q :: tok =>
      if is_sep q then bad
      else if negb (is_modifier_scan_char q k) then None
      else scan_token tok k (if negb (is_merge_rule k) && is_unsupported_modifier_char q then Some q else bad)
  end.
Definition unsupported_modifier_in_token (tok : list byte) (k : RuleKind) : option byte :=
  scan_token tok k None.

(** What [parse_rule_syntax] fills in. *)
Record rule_syntax := MkSyntax {
  rs_kind : RuleKind;
  rs_sides : Z;
  rs_sides_explicit : bool;
  rs_negate : bool;
  rs_anchored_mod : bool;
  rs_perishable : bool;
  rs_xattr : bool;
  rs_cvs_inject : bool;
  rs_pat : list byte;      (** the text from [pat_start] on *)
  rs_pat_len : nat;
}.
Inductive syntax_result := SyntaxError (bad_mod : option byte) | SyntaxOk (r : rule_syntax).

(** The longest prefix of [s] whose characters satisfy [f]. *)
Fixpoint span (f : byte -> bool) (s : list byte) : list byte * list byte :=
  match s with
  | [] => ([], [])
  | c :: t => if f c then let '(a, b) := span f t in (c :: a, b) else ([], s)
  end.

Definition isalpha (c : byte) : bool :=
  let z := bZ c in ((65 <=? z) && (z <=? 90)) || ((97 <=? z) && (z <=? 122)).

Definition head_in (f : byte -> bool) (s : list byte) : bool :=
  match s with c :: _ => f c | [] => false end.
Definition sep_or_end (s : list byte) : bool := match s with [] => true | c :: _ => is_sep c end.
Definition is_comma (c : byte) : bool := bool_decide (c = ","%byte).

(** One modifier letter. *)
Definition apply_modifier (r : rule_syntax) (m : byte) : rule_syntax :=
  let '(MkSyntax k sd se ng an pe xa cv pat len) := r in
  match m with
  | "s" => MkSyntax k FILTER_SIDE_SENDER true ng an pe xa cv pat len
  | "r" => MkSyntax k FILTER_SIDE_RECEIVER true ng an pe xa cv pat len
  | "!" => MkSyntax k sd se true an pe xa cv pat len
  | "/" => MkSyntax k sd se ng true pe xa cv pat len
  | "p" => MkSyntax k sd se ng an true xa cv pat len
  | "x" => MkSyntax k sd se ng an pe true cv pat len
  | "C" => MkSyntax k sd se ng an pe xa true pat len
  | _ => r
  end%byte.

Definition is_newline (c : byte) : bool :=
  match c with Byte.x0a | Byte.x0d => true | _ => false end.

(** [while (len > 0 && (s[len - 1] == '\n' || s[len - 1] == '\r')) len--] *)
Fixpoint trim_newlines (s : list byte) (len : nat) : nat :=
  match len with
  | O => O
  | S m => match s !! m with
           | Some c => if is_newline c then trim_newlines s m else len
           | None => len
           end
  end.

(** filter.c [parse_rule_syntax] *)
Definition parse_rule_syntax (text : list byte) : syntax_result :=
  let head :=
    match text with
    | c :: p => match short_rule_char c with
                | Some k => Some (k, true, p)
                | None =>
                    let '(name, p) := span (fun c => isalpha c || bool_decide (c = "-"%byte)) text in
                    match name with
                    | [] => None
                    | _ => match long_rule_name text (length name) with
                           | Some k => if sep_or_end p || head_in is_comma p then Some (k, false, p) else None
                           | None => None
                           end
                    end
                end
    | [] => None
    end in
  match head with
  | None => SyntaxError None
  | Some (k, is_short, p) =>
      let bad_mod := if head_in is_comma p then unsupported_modifier_in_token (tail p) k
                     else if is_short : bool then unsupported_modifier_in_token p k else None in
      match bad_mod with
      | Some b => SyntaxError (Some b)
      | None =>
          let '(mods, p) :=
            if head_in is_comma p then span (fun c => is_consumed_modifier_char c k) (tail p)
            else if is_short then
              let '(mods, scan) := span (fun c => is_consumed_modifier_char c k) p in
              if sep_or_end scan then (mods, scan) else ([], p)
            else ([], p) in
          let pat := if head_in is_sep p then tail p else p in
          SyntaxOk (fold_left apply_modifier mods
            (MkSyntax k (Z.lor FILTER_SIDE_SENDER FILTER_SIDE_RECEIVER) false false false false false false
               pat (trim_newlines pat (length pat))))
      end
  end.

Definition is_blank (c : byte) : bool := match c with " "%byte | Byte.x09 => true | _ => false end.

(** Skipping leading spaces and tabs. *)
Definition skip_blanks (s : list byte) : list byte := snd (span is_blank s).

(** filter.h [FilterParseOptions]; only [delete_excluded] is read here. *)
Record FilterParseOptions := MkOpts { delete_excluded : bool; cvs_exclude : bool }.

(** The action and the sides a rule kind stands for. *)
Definition kind_action (k : RuleKind) : FilterAction :=
  match k with
  | RULE_KIND_INCLUDE | RULE_KIND_SHOW | RULE_KIND_RISK => FILTER_ACTION_INCLUDE
  | _ => FILTER_ACTION_EXCLUDE
  end.
Definition kind_sides (k : RuleKind) (sides : Z) (explicit : bool) : Z * bool :=
  match k with
  | RULE_KIND_HIDE | RULE_KIND_SHOW => (FILTER_SIDE_SENDER, true)
  | RULE_KIND_PROTECT | RULE_KIND_RISK => (FILTER_SIDE_RECEIVER, true)
  | _ => (sides, explicit)
  end.

Section Parse.
Context `{Heap}.
Definition sizeof_FilterRule : Z := 48.

(** The part of [filter_rule_parse] after the action and the sides: the anchor,
    the directory mark and the copy of the pattern. *)
Definition clean_pattern (s : rule_syntax) : outcome (bool * bool * list byte) :=
  check (negb (rs_pat_len s =? 0)%nat);;
  let '(anch, pat_begin, pat_len) :=
    if char_is (rs_pat s) 0 "/"%byte then
      let b := skip_blanks (tail (rs_pat s)) in (true, b, trim_newlines b (length b))
    else (rs_anchored_mod s, rs_pat s, rs_pat_len s) in
  check (negb (pat_len =? 0)%nat);;
  let dir := (1 <? pat_len)%nat && char_is pat_begin (pat_len - 1) "/"%byte in
  let pat_len := if dir then (pat_len - 1)%nat else pat_len in
  check (negb (pat_len =? 0)%nat);;
  check (malloc_ok sizeof_FilterRule);;
  check (malloc_ok (Z.of_nat pat_len + 1));;
  pat ← rd pat_begin 0 (Z.of_nat pat_len);
  Ret (anch, dir, pat).

(** filter.c [filter_rule_parse]; the text of the diagnostic is not modelled. *)
Definition filter_rule_parse (line : option (list byte)) (opts : option FilterParseOptions)
  : outcome FilterRule :=
  line ← of_option line;
  let p := skip_blanks line in
  check (negb (match p with [] => true | c :: _ => is_newline c end));;
  match parse_rule_syntax p with
  | SyntaxError _ => Fail
  | SyntaxOk s =>
      check (negb (rs_cvs_inject s));;
      check (negb (rs_xattr s));;
      check (negb (is_merge_rule (rs_kind s)));;
      if bool_decide (rs_kind s = RULE_KIND_CLEAR) then
        check (rs_pat_len s =? 0)%nat;;
        check (malloc_ok sizeof_FilterRule);;
        Ret (MkRule FILTER_ACTION_NONE 0 false false false false None None)
      else
        let '(sd, explicit) := kind_sides (rs_kind s) (rs_sides s) (rs_sides_explicit s) in
        let sd := if match opts with Some o => delete_excluded o | None => false end && negb explicit
                  then FILTER_SIDE_SENDER else sd in
        '(anch, dir, pat) ← clean_pattern s;
        Ret (MkRule (kind_action (rs_kind s)) sd anch dir (rs_negate s) (rs_perishable s) None (Some pat))
  end.
End Parse.

Example parse_ex1 : @filter_rule_parse heap0 (Some (cs "-s! /tmp/*.o/")) None
  = Ret (MkRule FILTER_ACTION_EXCLUDE 1 true true true false None (Some (cs "tmp/*.o"))).
Proof. vm_compute. reflexivity. Qed.
Example parse_ex2 : @filter_rule_parse heap0 (Some (cs "protect,p foo")) None
  = Ret (MkRule FILTER_ACTION_EXCLUDE 2 false false false true None (Some (cs "foo"))).
Proof. vm_compute. reflexivity. Qed.
Example parse_ex3 : @filter_rule_parse heap0 (Some (cs "-e foo")) None = Fail.
Proof. vm_compute. reflexivity. Qed.
Example parse_ex4 : @filter_rule_parse heap0 (Some (cs "-*.tmp")) None
  = Ret (MkRule FILTER_ACTION_EXCLUDE 3 false false false false None (Some (cs "*.tmp"))).
Proof. vm_compute. reflexivity. Qed.

(** ** Writing a rule as text *)

Definition mods_text (r : FilterRule) : list byte :=
  (if sides r =? FILTER_SIDE_SENDER then cs "s" else if sides r =? FILTER_SIDE_RECEIVER then cs "r" else [])
  ++ (if negate r then cs "!" else []) ++ (if perishable r then cs "p" else []).
Definition body_text (r : FilterRule) (pat : list byte) : list byte :=
  (if anchored r then cs "/" else []) ++ pat ++ (if dir_only r then cs "/" else []).
Definition show_rule (r : FilterRule) (pat : list byte) : list byte :=
  (match action r with FILTER_ACTION_INCLUDE => cs "+" | _ => cs "-" end)
  ++ cs "," ++ mods_text r ++ cs " " ++ body_text r pat.

(** The rules a line can express: a base action, at least one side, no owner
    yet, and a cleaned pattern. *)
Record rule_wf (r : FilterRule) (pat : list byte) : Prop := {
  rw_action : action r = FILTER_ACTION_EXCLUDE \/ action r = FILTER_ACTION_INCLUDE;
  rw_sides : sides r = 1 \/ sides r = 2 \/ sides r = 3;
  rw_owner : owner r = None;
  rw_pattern : pattern r = Some pat;
  rw_nonempty : pat <> [];
  rw_head : forall c t, pat = c :: t -> if anchored r then is_blank c = false else c <> "/"%byte;
  rw_last : forall t c, pat = t ++ [c] -> dir_only r = false ->
            is_newline c = false /\ (c = "/"%byte -> t = []);
}.

Lemma trim_newlines_le s len : (trim_newlines s len <= len)%nat.
Proof.
  induction len as [|m IH]; simpl; [done|]. destruct (s !! m); [|lia]. destruct (is_newline b); lia.
Qed.

Lemma trim_newlines_id t c : is_newline c = false -> trim_newlines (t ++ [c]) (length (t ++ [c])) = length (t ++ [c]).
Proof.
  intros Hc. rewrite length_app, Nat.add_1_r. simpl.
  rewrite lookup_app_r, Nat.sub_diag by done. simpl. by rewrite Hc.
Qed.

Lemma skip_blanks_id s : match s with [] => True | c :: _ => is_blank c = false end -> skip_blanks s = s.
Proof. destruct s as [|c s]; [done|]. intros Hc. unfold skip_blanks. simpl. by rewrite Hc. Qed.

Section RoundTrip.
Context `{Heap}.

(** A text that ends like the text of a rule is kept whole. *)
Lemma pat_dir_last r pat :
  rule_wf r pat -> exists t c, pat ++ (if dir_only r then cs "/" else []) = t ++ [c] /\ is_newline c = false.
Proof.
  intros Hw. destruct (dir_only r) eqn:E.
  - by exists pat, "/"%byte.
  - rewrite app_nil_r. destruct (exists_last (rw_nonempty _ _ Hw)) as (t&c&->). exists t, c.
    split; [done|]. by apply (rw_last _ _ Hw t c).
Qed.

(** The directory mark of the text is found and removed. *)
Lemma dir_mark_spec r pat :
  rule_wf r pat ->
  let txt := pat ++ (if dir_only r then cs "/" else []) in
  ((1 <? length txt)%nat && char_is txt (length txt - 1) "/"%byte) = dir_only r.
Proof.
  intros Hw txt. subst txt. unfold char_is. destruct (dir_only r) eqn:E.
  - rewrite length_app. simpl. replace (length pat + 1 - 1)%nat with (length pat) by lia.
    rewrite lookup_app_r, Nat.sub_diag by done. simpl.
    destruct (Nat.ltb_spec 1 (length pat + 1)); [done|].
    pose proof (rw_nonempty _ _ Hw). destruct pat; simpl in *; [done|lia].
  - rewrite app_nil_r. destruct (exists_last (rw_nonempty _ _ Hw)) as (t&c&->).
    rewrite length_app. simpl. replace (length t + 1 - 1)%nat with (length t) by lia.
    rewrite lookup_app_r, Nat.sub_diag by done. simpl.
    destruct (Nat.ltb_spec 1 (length t + 1)); [|done]. simpl.
    apply bool_decide_eq_false_2. intros [= ->].
    destruct (rw_last _ _ Hw t "/"%byte eq_refl E) as [_ Ht]. specialize (Ht eq_refl). subst t. simpl in *. lia.
Qed.

Lemma clean_pattern_show r pat k sd se ng an pe xa cv :
  rule_wf r pat -> heap_serves (zlen pat + 48) -> (anchored r = false -> an = false) ->
  clean_pattern (MkSyntax k sd se ng an pe xa cv (body_text r pat)
                   (trim_newlines (body_text r pat) (length (body_text r pat))))
  = Ret (anchored r, dir_only r, pat).
Proof.
  intros Hw Hs Han. destruct (pat_dir_last r pat Hw) as (t&c&Ht&Hc).
  pose proof (dir_mark_spec r pat Hw) as Hd. cbv zeta in Hd.
  pose proof (rw_nonempty _ _ Hw) as Hne. pose proof (rw_head _ _ Hw) as Hh.
  unfold body_text. set (txt := pat ++ _) in *.
  assert (Htrim : trim_newlines txt (length txt) = length txt) by (rewrite Ht; by apply trim_newlines_id).
  assert (Hlen : length txt <> 0%nat) by (rewrite Ht, length_app; simpl; lia).
  assert (Hend : (check (negb (length txt =? 0)%nat);;
    let dir := (1 <? length txt)%nat && char_is txt (length txt - 1) "/"%byte in
    let pat_len := if dir then (length txt - 1)%nat else length txt in
    check (negb (pat_len =? 0)%nat);;
    check (malloc_ok sizeof_FilterRule);;
    check (malloc_ok (Z.of_nat pat_len + 1));;
    pat' ← rd txt 0 (Z.of_nat pat_len);
    Ret (anchored r, dir, pat')) = Ret (anchored r, dir_only r, pat)).
  { rewrite Hd. cbv zeta.
    assert (Hpl : (if dir_only r then (length txt - 1)%nat else length txt) = length pat).
    { subst txt. destruct (dir_only r); rewrite length_app; simpl; lia. }
    rewrite Hpl. destruct (Nat.eqb_spec (length txt) 0); [done|].
    destruct (Nat.eqb_spec (length pat) 0); [by destruct pat|]. simpl.
    unfold sizeof_FilterRule. pose proof (zlen_nonneg pat).
    rewrite (heap_serves_malloc _ 48 Hs) by lia. simpl.
    rewrite (heap_serves_malloc _ _ Hs) by (unfold zlen in *; lia). simpl.
    rewrite rd_ret; [|lia|lia|subst txt; rewrite zlen_app; unfold zlen; lia]. simpl.
    rewrite drop_0, Nat2Z.id. subst txt. by rewrite take_app_length. }
  unfold clean_pattern. cbn [rs_pat rs_pat_len rs_anchored_mod].
  destruct (anchored r) eqn:Ea.
  - cbn [app cs]. change (cs "/" ++ txt) with ("/"%byte :: txt).
    assert (Htrim' : trim_newlines ("/"%byte :: txt) (length ("/"%byte :: txt)) = length ("/"%byte :: txt)).
    { rewrite Ht. apply (trim_newlines_id ("/"%byte :: t)). done. }
    rewrite Htrim'. cbn [length]. simpl (negb (S _ =? 0)%nat). simpl check. simpl mbind.
    simpl (char_is _ 0 _). cbn [tail]. cbv iota.
    rewrite skip_blanks_id, Htrim by (destruct pat as [|c' p']; [done|]; subst txt; by apply (Hh c' p')).
    exact Hend.
  - cbn [app]. rewrite Htrim. destruct (Nat.eqb_spec (length txt) 0); [done|]. simpl check. simpl mbind.
    rewrite (Han eq_refl). destruct txt as [|c' p'] eqn:Etxt; [done|].
    assert (c' <> "/"%byte).
    { destruct pat as [|x pat']; [done|]. subst txt. injection Etxt as <- _. by apply (Hh x pat'). }
    unfold char_is at 1. simpl (_ !! 0%nat). rewrite bool_decide_eq_false_2 by congruence. exact Hend.
Qed.

(** The text parses back to its syntax: kind, sides, modifiers and body. *)
Lemma parse_show_syntax r pat :
  rule_wf r pat ->
  parse_rule_syntax (show_rule r pat)
  = SyntaxOk (MkSyntax (match action r with FILTER_ACTION_INCLUDE => RULE_KIND_INCLUDE | _ => RULE_KIND_EXCLUDE end)
      (sides r) (negb (sides r =? 3)) (negate r) false (perishable r) false false
      (body_text r pat) (trim_newlines (body_text r pat) (length (body_text r pat)))).
Proof.
  intros [Ha Hs _ _ _ _ _]. unfold show_rule, mods_text. set (b := body_text r pat). clearbody b.
  destruct Ha as [-> | ->], Hs as [->|[->| ->]], (negate r), (perishable r); reflexivity.
Qed.

(** Rules survive being written as text.  Every well-formed rule (either
    action, any side selection, negated, perishable, anchored or directory-only,
    with any cleaned pattern) written as a filter line and parsed again gives
    the same rule. *)
Lemma filter_rule_roundtrip r pat
    (Hwf : rule_wf r pat) (Hheap : heap_serves (zlen pat + 48)) :
  filter_rule_parse (Some (show_rule r pat)) None = Ret r.
Proof.
  unfold filter_rule_parse. simpl mbind.
  assert (Hblank : skip_blanks (show_rule r pat) = show_rule r pat).
  { apply skip_blanks_id. unfold show_rule. destruct (rw_action _ _ Hwf) as [-> | ->]; done. }
  rewrite Hblank.
  assert (Hnl : check (negb (match show_rule r pat with [] => true | c :: _ => is_newline c end)) = Ret tt).
  { unfold show_rule. destruct (rw_action _ _ Hwf) as [-> | ->]; done. }
  rewrite Hnl. simpl mbind. rewrite (parse_show_syntax r pat Hwf). cbn [rs_cvs_inject rs_xattr rs_kind rs_sides rs_sides_explicit rs_negate rs_perishable].
  pose proof (clean_pattern_show r pat) as Hclean.
  destruct r as [act sd anch dir neg per own pt]; pose proof (rw_action _ _ Hwf) as Ha;
    pose proof (rw_owner _ _ Hwf) as Ho; pose proof (rw_pattern _ _ Hwf) as Hp; simpl in *. subst own pt.
  destruct Ha as [-> | ->]; simpl; rewrite Hclean by done; reflexivity.
Qed.

End RoundTrip.

