(* ===== verification/FilterRules.v ===== *)
(** Ordered filter-rule lists of src/shared/filter.c: building them from rule
    lines, merge files, per-directory files and the CVS defaults, and deciding
    the action for a path. *)

From S2P Require Import Prelude Alloc CStr Paths Glob FilterParse.

(** filter.h [FilterRuleList]: the first [count] entries of [items], the first
    [dir_merge_count] names. *)
Record FilterRuleList := MkList {
  items : list FilterRule;
  capacity : Z;
  dir_merge_names : list (list byte);
  dir_merge_capacity : Z;
}.
Definition sizeof_FilterRuleList : Z := 40.

(** A function that works on a list and returns [bool]: the list is what the
    caller sees afterwards, also on failure. *)
Abbreviation on_list := (outcome (FilterRuleList * bool)).

Section Rules.
Context `{Heap}.
(** The files [fopen] can open for reading, by path. *)
Context (fs : list byte -> option (list byte)).

(** [if (!m) return false;]: the list as it is, when a call fails. *)
Definition or_false {A} (l : FilterRuleList) (m : outcome A) (k : A -> on_list) : on_list :=
  match m with Ret a => k a | Fail => Ret (l, false) | Stuck => Stuck end.

(** filter.c [filter_rule_list_create] *)
Definition filter_rule_list_create : outcome FilterRuleList :=
  check (malloc_ok sizeof_FilterRuleList);; Ret (MkList [] 0 [] 0).

(** filter.c [filter_rule_list_add] *)
Definition filter_rule_list_add (l : FilterRuleList) (r : FilterRule) : on_list :=
  let count := zlen (items l) in
  if count =? capacity l then
    if capacity l >? INT_MAX / 2 then Ret (l, false)
    else
      let new_cap := if capacity l >? 0 then capacity l * 2 else 8 in
      if malloc_ok (new_cap * 8)
      then Ret (MkList (items l ++ [r]) new_cap (dir_merge_names l) (dir_merge_capacity l), true)
      else Ret (l, false)
  else Ret (MkList (items l ++ [r]) (capacity l) (dir_merge_names l) (dir_merge_capacity l), true).

(** filter.c [filter_rule_list_add_dir_merge] *)
Definition filter_rule_list_add_dir_merge (l : FilterRuleList) (name : list byte) : on_list :=
  if bool_decide (name = []) then Ret (l, false)
  else if existsb (fun n => strcmp n name =? 0) (dir_merge_names l) then Ret (l, true)
  else
    grown ← (if zlen (dir_merge_names l) =? dir_merge_capacity l then
               new_cap ← int_ok (if dir_merge_capacity l >? 0 then dir_merge_capacity l * 2 else 4);
               if malloc_ok (new_cap * 8) then Ret (Some new_cap) else Ret None
             else Ret (Some (dir_merge_capacity l)));
    match grown with
    | None => Ret (l, false)
    | Some cap =>
        let l := MkList (items l) (capacity l) (dir_merge_names l) cap in
        or_false l (str_dup (Some name)) (fun dup =>
          Ret (MkList (items l) (capacity l) (dir_merge_names l ++ [dup]) cap, true))
    end.

(** filter.c [set_rule_owner] *)
Definition set_rule_owner (r : FilterRule) (o : option (list byte)) : outcome FilterRule :=
  dup ← str_dup (Some (default [] o));
  Ret (MkRule (action r) (sides r) (anchored r) (dir_only r) (negate r) (perishable r) (Some dup) (pattern r)).

(** filter.c [CVS_DEFAULTS] *)
Definition CVS_DEFAULTS : list (list byte * bool) :=
  ((fun p => (p, false)) <$>
   [cs "RCS"; cs "SCCS"; cs "CVS"; cs "CVS.adm"; cs "RCSLOG"; cs "cvslog.*"; cs "tags"; cs "TAGS";
    cs ".make.state"; cs ".nse_depinfo"; cs "*~"; cs "#*"; cs ".#*"; cs ",*"; cs "_$*"; cs "*$";
    cs "*.old"; cs "*.bak"; cs "*.BAK"; cs "*.orig"; cs "*.rej"; cs ".del-*"; cs "*.a"; cs "*.olb";
    cs "*.o"; cs "*.obj"; cs "*.so"; cs "*.exe"; cs "*.Z"; cs "*.elc"; cs "*.ln"; cs "core"])
  ++ ((fun p => (p, true)) <$> [cs ".svn/"; cs ".git/"; cs ".hg/"; cs ".bzr/"]).

(** One default rule, with its owner set to the transfer root. *)
Definition cvs_rule (sd : Z) (d : list byte * bool) : outcome FilterRule :=
  let '(pat, dir) := d in
  check (malloc_ok sizeof_FilterRule);;
  let plen := if dir && (0 <? length pat)%nat && char_is pat (length pat - 1) "/"%byte
              then (length pat - 1)%nat else length pat in
  check (malloc_ok (Z.of_nat plen + 1));;
  set_rule_owner (MkRule FILTER_ACTION_EXCLUDE sd false dir false false None (Some (take plen pat))) (Some []).

(** filter.c [filter_list_append_cvs], over the rest of the table *)
Fixpoint append_cvs (l : FilterRuleList) (sd : Z) (ds : list (list byte * bool)) : on_list :=
  match ds with
  | [] => Ret (l, true)
  | d :: ds =>
      or_false l (cvs_rule sd d) (fun r =>
        '(l, ok) ← filter_rule_list_add l r;
        if ok : bool then append_cvs l sd ds else Ret (l, false))
  end.
Definition filter_list_append_cvs (l : FilterRuleList) (sd : Z) : on_list := append_cvs l sd CVS_DEFAULTS.

Definition blank_or_comment (p : list byte) : bool :=
  match p with [] => true | c :: _ => is_newline c || bool_decide (c = "#"%byte) end.

(** The loop over the lines of a rule file; [rec] parses one line into the list. *)
Fixpoint for_lines (rec : FilterRuleList -> list byte -> on_list) (ls : list (list byte)) (read_ok : bool)
    (l : FilterRuleList) : on_list :=
  match ls with
  | [] => Ret (l, read_ok)
  | x :: ls =>
      let lp := skip_blanks (c_str x) in
      if blank_or_comment lp then for_lines rec ls read_ok l
      else '(l, ok) ← rec l lp;
           if ok : bool then for_lines rec ls read_ok l else Ret (l, false)
  end.

(** filter.c [filter_list_merge_file]; [rec] is the parser one level deeper. *)
Definition filter_list_merge_file (rec : FilterRuleList -> list byte -> on_list) (l : FilterRuleList)
    (name : list byte) (base_dir : option (list byte)) : on_list :=
  if bool_decide (name = []) then Ret (l, false)
  else
    let path := if bool_decide (default [] base_dir <> []) && negb (char_is name 0 "/"%byte)
                then path_cat base_dir (Some name) else str_dup (Some name) in
    or_false l path (fun path =>
      match fs path with
      | None => Ret (l, false)
      | Some content => '(ls, read_ok) ← file_lines content newline; for_lines rec ls read_ok l
      end).

Definition FILTER_MAX_MERGE_DEPTH : Z := 16.

(** filter.c [filter_list_parse_append_depth] *)
Fixpoint filter_list_parse_append_depth (fuel : nat) (opts : option FilterParseOptions)
    (base_dir : option (list byte)) (depth : Z) (l : FilterRuleList) (line : list byte) : on_list :=
  if depth >? FILTER_MAX_MERGE_DEPTH then Ret (l, false)
  else match fuel with
  | O => Stuck
  | S fuel =>
      let p := skip_blanks line in
      if match p with [] => true | c :: _ => is_newline c end then Ret (l, true)
      else match parse_rule_syntax p with
      | SyntaxError _ => Ret (l, false)
      | SyntaxOk s =>
          if rs_xattr s then Ret (l, false)
          else if rs_cvs_inject s then filter_list_append_cvs l (rs_sides s)
          else match rs_kind s with
          | RULE_KIND_CLEAR =>
              if negb (rs_pat_len s =? 0)%nat then Ret (l, false)
              else Ret (MkList [] (capacity l) (dir_merge_names l) (dir_merge_capacity l), true)
          | RULE_KIND_MERGE =>
              if (rs_pat_len s =? 0)%nat then Ret (l, false)
              else if negb (malloc_ok (Z.of_nat (rs_pat_len s) + 1)) then Ret (l, false)
              else filter_list_merge_file
                     (filter_list_parse_append_depth fuel opts base_dir (depth + 1)) l
                     (take (rs_pat_len s) (rs_pat s)) base_dir
          | RULE_KIND_DIR_MERGE =>
              if (rs_pat_len s =? 0)%nat then Ret (l, false)
              else if negb (malloc_ok (Z.of_nat (rs_pat_len s) + 1)) then Ret (l, false)
              else filter_rule_list_add_dir_merge l (take (rs_pat_len s) (rs_pat s))
          | _ =>
              or_false l (filter_rule_parse (Some p) opts) (filter_rule_list_add l)
          end
      end
  end.

(** filter.c [filter_rule_list_parse_append]; 17 levels reach the depth limit. *)
Definition filter_rule_list_parse_append (l : FilterRuleList) (line : list byte)
    (opts : option FilterParseOptions) (merge_base_dir : option (list byte)) : on_list :=
  filter_list_parse_append_depth 17 opts merge_base_dir 0 l line.

(** The rule texts of [filter_base_build], in order. *)
Fixpoint append_texts (l : FilterRuleList) (opts : FilterParseOptions) (texts : list (option (list byte)))
  : outcome FilterRuleList :=
  match texts with
  | [] => Ret l
  | None :: texts => append_texts l opts texts
  | Some t :: texts =>
      '(l, ok) ← filter_rule_list_parse_append l t (Some opts) None;
      if ok : bool then append_texts l opts texts else Fail
  end.

(** filter.c [filter_base_build] *)
Definition filter_base_build (texts : list (option (list byte))) (cvs_ex del_ex : bool)
  : outcome FilterRuleList :=
  l ← filter_rule_list_create;
  l ← append_texts l (MkOpts del_ex cvs_ex) texts;
  if cvs_ex then
    '(l, ok) ← filter_list_append_cvs l (Z.lor FILTER_SIDE_SENDER FILTER_SIDE_RECEIVER);
    if ok : bool then Ret l else Fail
  else Ret l.

(** filter.c [filter_file_rollback] *)
Definition filter_file_rollback (l : FilterRuleList) (rules_before dir_merges_before : nat) : FilterRuleList :=
  MkList (take (Nat.min rules_before (length (items l))) (items l)) (capacity l)
    (take dir_merges_before (dir_merge_names l)) (dir_merge_capacity l).

(** [set_rule_owner] on every rule of a list; [Fail] when one fails. *)
Fixpoint set_owners (rs : list FilterRule) (o : option (list byte)) : outcome (list FilterRule) :=
  match rs with
  | [] => Ret []
  | r :: rs => r ← set_rule_owner r o; rs ← set_owners rs o; Ret (r :: rs)
  end.

(** filter.c [filter_file_append]: the list, [*exists] and the result. *)
Definition filter_file_append (l : FilterRuleList) (dir_path name : option (list byte))
    (owner_rel : option (list byte)) (opts : option FilterParseOptions)
  : outcome (FilterRuleList * bool * bool) :=
  match path_cat dir_path name with
  | Ret filter_path =>
      match fs filter_path with
      | None => Ret (l, false, true)
      | Some content =>
          let rules_before := length (items l) in
          let dir_merges_before := length (dir_merge_names l) in
          '(ls, read_ok) ← file_lines content newline;
          '(l1, ok) ← for_lines (filter_list_parse_append_depth 17 opts dir_path 0) ls read_ok l;
          if negb ok then Ret (filter_file_rollback l1 rules_before dir_merges_before, true, false)
          else match set_owners (drop rules_before (items l1)) owner_rel with
               | Ret rs => Ret (MkList (take rules_before (items l1) ++ rs) (capacity l1)
                                   (dir_merge_names l1) (dir_merge_capacity l1), true, true)
               | Fail => Ret (filter_file_rollback l1 rules_before dir_merges_before, true, false)
               | Stuck => Stuck
               end
      end
  | Fail => Ret (l, false, false)
  | Stuck => Stuck
  end.

(** filter.c [filter_file_read_named], [filter_file_read] *)
Definition filter_file_read_named (dir_path name owner_rel : option (list byte))
    (opts : option FilterParseOptions) : outcome (FilterRuleList * bool) :=
  l ← filter_rule_list_create;
  '(l, exists_, ok) ← filter_file_append l dir_path name owner_rel opts;
  if ok : bool then Ret (l, exists_) else Fail.
Definition filter_file_read (dir_path owner_rel : option (list byte)) :=
  filter_file_read_named dir_path (Some (cs ".rsync-filter")) owner_rel None.

(** ** Matching *)

(** The suffixes of [s] that follow a slash, in order. *)
Fixpoint after_slashes (s : list byte) : list (list byte) :=
  match s with
  | [] => []
  | c :: t => if bool_decide (c = Glob.slash) then t :: after_slashes t else after_slashes t
  end.

Fixpoint any_match (pat : list byte) (ss : list (list byte)) : outcome bool :=
  match ss with
  | [] => Ret false
  | s :: ss => m ← glob_match pat s; if m : bool then Ret true else any_match pat ss
  end.

(** filter.c [glob_suffix_match] *)
Definition glob_suffix_match (pat str : list byte) : outcome bool :=
  any_match pat (str :: after_slashes str).

(** The path relative to the rule's owner, when the rule applies there. *)
Definition owner_relative (r : FilterRule) (rel_path : list byte) : option (list byte) :=
  match owner r with
  | None | Some [] => Some rel_path
  | Some o =>
      if negb (strncmp o rel_path (length o) =? 0) then None
      else if negb (char_is rel_path (length o) "/"%byte) then None
      else Some (drop (length o + 1) rel_path)
  end.

(** filter.c [rule_matches] *)
Definition rule_matches (r : FilterRule) (rel_path leaf : list byte) (is_dir : bool) (side : Z)
  : outcome FilterAction :=
  match pattern r with
  | None => Ret FILTER_ACTION_NONE
  | Some pat =>
      if Z.land (sides r) side =? 0 then Ret FILTER_ACTION_NONE
      else match owner_relative r rel_path with
      | None | Some [] => Ret FILTER_ACTION_NONE
      | Some rel2 =>
          m ← (if dir_only r && negb is_dir then Ret false
               else if anchored r then glob_match pat rel2
               else if bool_decide (Glob.slash ∈ pat) then glob_suffix_match pat rel2
               else glob_match pat leaf);
          let m := if negate r then negb m else m in
          if negb m then Ret FILTER_ACTION_NONE
          else if side =? FILTER_SIDE_RECEIVER then
            Ret (if bool_decide (action r = FILTER_ACTION_EXCLUDE) then FILTER_ACTION_PROTECT else FILTER_ACTION_RISK)
          else Ret (action r)
      end
  end.

(** filter.c [filter_rules_apply_side] *)
Fixpoint apply_rules (rs : list FilterRule) (rel_path leaf : list byte) (is_dir : bool) (side : Z)
  : outcome FilterAction :=
  match rs with
  | [] => Ret FILTER_ACTION_NONE
  | r :: rs =>
      a ← rule_matches r rel_path leaf is_dir side;
      if bool_decide (a = FILTER_ACTION_NONE) then apply_rules rs rel_path leaf is_dir side else Ret a
  end.
Definition filter_rules_apply_side (l : option FilterRuleList) (rel_path leaf : list byte)
    (is_dir : bool) (side : Z) : outcome FilterAction :=
  match l with
  | None => Ret FILTER_ACTION_NONE
  | Some l => apply_rules (items l) rel_path leaf is_dir side
  end.

End Rules.

(** A rule file that clears and then excludes: rules that end up at an index
    below the number of rules the list had are not given the directory as
    owner. *)
Definition fs_demo (p : list byte) : option (list byte) :=
  if bool_decide (p = cs "d/.rsync-filter") then Some (cs "!" ++ [newline] ++ cs "- x" ++ [newline]) else None.
Definition one_rule : FilterRule :=
  MkRule FILTER_ACTION_INCLUDE 3 false false false false (Some []) (Some (cs "keep")).
Example clear_drops_owner :
  @filter_file_append heap0 fs_demo (MkList [one_rule] 8 [] 0) (Some (cs "d")) (Some (cs ".rsync-filter"))
    (Some (cs "d")) None
  = Ret (MkList [MkRule FILTER_ACTION_EXCLUDE 3 false false false false None (Some (cs "x"))] 8 [] 0, true, true).
Proof. vm_compute. reflexivity. Qed.

(** ** The rule-list invariant *)

(** The rules a list holds: a base action, at least one side, a non-empty
    pattern. *)
Definition rule_ok (r : FilterRule) : Prop :=
  (action r = FILTER_ACTION_EXCLUDE \/ action r = FILTER_ACTION_INCLUDE) /\
  1 <= sides r <= 3 /\ exists pat, pattern r = Some pat /\ pat <> [].

Record list_ok (l : FilterRuleList) : Prop := {
  lo_rules : Forall rule_ok (items l);
  lo_count : zlen (items l) <= capacity l < 2 ^ 31;
  lo_names : NoDup (dir_merge_names l) /\ [] ∉ dir_merge_names l;
  lo_dcount : zlen (dir_merge_names l) <= dir_merge_capacity l < 2 ^ 30;
}.

(** What every function on a list does: it returns, with a list in order. *)
Definition keeps (m : on_list) : Prop := exists l ok, m = Ret (l, ok) /\ list_ok l.

Lemma keeps_ret l ok : list_ok l -> keeps (Ret (l, ok)).
Proof. intros. by exists l, ok. Qed.

Lemma keeps_or_false {A} l (m : outcome A) k :
  list_ok l -> m <> Stuck -> (forall a, m = Ret a -> keeps (k a)) -> keeps (or_false l m k).
Proof. intros Hl Hm Hk. destruct m; simpl; [by apply Hk|by apply keeps_ret|done]. Qed.

Lemma keeps_bind m (k : FilterRuleList * bool -> on_list) :
  keeps m -> (forall l ok, list_ok l -> keeps (k (l, ok))) -> keeps (mbind k m).
Proof. intros (l&ok&->&Hl) Hk. simpl. by apply Hk. Qed.

Lemma skip_blanks_idem s : skip_blanks (skip_blanks s) = skip_blanks s.
Proof.
  unfold skip_blanks. induction s as [|c s IH]; simpl; [done|].
  destruct (is_blank c) eqn:E; [|simpl; by rewrite E].
  destruct (span is_blank s); done.
Qed.

(** ** Syntax *)

Lemma apply_modifiers mods r :
  1 <= rs_sides r <= 3 -> (rs_pat_len r <= length (rs_pat r))%nat ->
  let r' := fold_left apply_modifier mods r in
  rs_kind r' = rs_kind r /\ 1 <= rs_sides r' <= 3 /\ (rs_pat_len r' <= length (rs_pat r'))%nat.
Proof.
  revert r. induction mods as [|m mods IH]; intros r Hs Hp; [done|]. cbn [fold_left].
  assert (Hstep : rs_kind (apply_modifier r m) = rs_kind r /\ 1 <= rs_sides (apply_modifier r m) <= 3 /\
    (rs_pat_len (apply_modifier r m) <= length (rs_pat (apply_modifier r m)))%nat).
  { destruct r; simpl in *. unfold FILTER_SIDE_SENDER, FILTER_SIDE_RECEIVER. destruct m; simpl; split_and!; done || lia. }
  destruct Hstep as (<-&H1&H2). by apply IH.
Qed.

Lemma parse_rule_syntax_ok text s :
  parse_rule_syntax text = SyntaxOk s -> 1 <= rs_sides s <= 3 /\ (rs_pat_len s <= length (rs_pat s))%nat.
Proof.
  unfold parse_rule_syntax. set (head := match text with [] => None | _ => _ end).
  destruct head as [[[k is_short] p]|]; [|done].
  set (bad := if head_in is_comma p then _ else _). destruct bad; [done|].
  set (mp := if head_in is_comma p then _ else _). destruct mp as [mods p']. intros [= <-].
  apply apply_modifiers; cbn [rs_sides rs_pat_len rs_pat]; [done|]. apply trim_newlines_le.
Qed.

Section Invariant.
Context `{Heap}.
Context (fs : list byte -> option (list byte)).

Lemma str_dup_not_stuck s : str_dup (Some s) <> Stuck.
Proof. unfold str_dup. simpl. by destruct (malloc_ok _). Qed.

Lemma path_cat_not_stuck a b : path_cat a (Some b) <> Stuck.
Proof.
  unfold path_cat. case_bool_decide as Ha; [apply str_dup_not_stuck|].
  destruct a as [a|]; [|done]. case_bool_decide as Hb; [apply str_dup_not_stuck|]. cbn [default from_option id].
  simpl in Ha, Hb.
  case_check E1; [|done]. case_check E2; [|done].
  assert (0 < zlen a /\ 0 < zlen b) by (destruct a, b; simpl in *; try done; unfold zlen; simpl; lia).
  unfold slash in *.
  rewrite (rd_ret a); [|lia|destruct (char_is a _ _); lia|destruct (char_is a _ _); lia]. simpl mbind.
  rewrite rd_ret; [done|destruct (char_is b _ _); lia..].
Qed.

Lemma clean_pattern_ok s :
  (rs_pat_len s <= length (rs_pat s))%nat ->
  clean_pattern s <> Stuck /\ forall a d p, clean_pattern s = Ret (a, d, p) -> p <> [].
Proof.
  intros Hs. unfold clean_pattern. case_check E0; [|done].
  set (t := if char_is (rs_pat s) 0 _ then _ else _). assert (Ht : (snd t <= length (snd (fst t)))%nat).
  { subst t. destruct (char_is _ _ _); simpl; [apply trim_newlines_le|done]. }
  destruct t as [[anch pb] pl]. simpl in Ht. case_check E1; [|done].
  set (dir := (1 <? pl)%nat && _). set (pl' := if dir then _ else _).
  assert (Hpl : (pl' <= pl)%nat) by (subst pl'; destruct dir; lia).
  case_check E2; [|done]. case_check E3; [|done]. case_check E4; [|done].
  rewrite rd_ret by (unfold zlen; lia). simpl mbind. split; [done|]. intros a d p [= _ _ <-].
  apply negb_true_iff, Nat.eqb_neq in E2. rewrite drop_0, Nat2Z.id. destruct pb; simpl in Ht; [lia|].
  destruct pl'; done.
Qed.

Lemma filter_rule_parse_ok p opts s :
  skip_blanks p = p -> parse_rule_syntax p = SyntaxOk s -> rs_kind s <> RULE_KIND_CLEAR ->
  filter_rule_parse (Some p) opts <> Stuck /\ forall r, filter_rule_parse (Some p) opts = Ret r -> rule_ok r.
Proof.
  intros Hp Hs Hk. unfold filter_rule_parse. simpl mbind. rewrite Hp. case_check E; [|done].
  rewrite Hs. apply parse_rule_syntax_ok in Hs as [Hsd Hl].
  case_check E1; [|done]. case_check E2; [|done]. case_check E3; [|done].
  rewrite bool_decide_eq_false_2 by done.
  destruct (kind_sides _ _ _) as [sd ex] eqn:Ek.
  assert (Hsd' : 1 <= sd <= 3).
  { unfold kind_sides, FILTER_SIDE_SENDER, FILTER_SIDE_RECEIVER in Ek. destruct (rs_kind s); naive_solver lia. }
  destruct (clean_pattern_ok s Hl) as [Hn Hc].
  destruct (clean_pattern s) as [[[a d] pat]| |]; simpl; [|done..]. split; [done|]. intros r [= <-].
  split_and!; simpl.
  - destruct (rs_kind s); simpl; auto.
  - destruct (_ && _); unfold FILTER_SIDE_SENDER; lia.
  - destruct (_ && _); unfold FILTER_SIDE_SENDER; lia.
  - exists pat. split; [done|]. by eapply Hc.
Qed.

(** ** Adding to a list *)

Lemma add_keeps l r : list_ok l -> rule_ok r -> keeps (filter_rule_list_add l r).
Proof.
  intros Hl Hr. unfold filter_rule_list_add. change (INT_MAX / 2) with 1073741823.
  destruct Hl as [Hi Hc Hn Hd]. pose proof (zlen_nonneg (items l)).
  assert (Hz : zlen (items l ++ [r]) = zlen (items l) + 1) by (by rewrite zlen_app).
  destruct (Z.eqb_spec (zlen (items l)) (capacity l)) as [E|].
  - destruct (Z.gtb_spec (capacity l) 1073741823); [by apply keeps_ret|].
    destruct (malloc_ok _); apply keeps_ret; [|done].
    split; simpl; [by apply Forall_app_2, Forall_singleton| |done|done].
    rewrite Hz. destruct (Z.gtb_spec (capacity l) 0); lia.
  - apply keeps_ret. split; simpl; [by apply Forall_app_2, Forall_singleton|lia|done|done].
Qed.

Lemma cvs_rule_ok sd d :
  1 <= sd <= 3 -> (1 <? length (fst d))%nat = true -> cvs_rule sd d <> Stuck /\ forall r, cvs_rule sd d = Ret r -> rule_ok r.
Proof.
  intros Hsd Hd%Nat.ltb_lt. destruct d as [pat dir]. simpl in Hd. unfold cvs_rule.
  case_check E1; [|done]. set (plen := if _ : bool then (_ - 1)%nat else _). case_check E2; [|done].
  unfold set_rule_owner, str_dup. simpl mbind. case_check E3; [|done]. split; [done|]. intros r [= <-].
  split_and!; simpl; [by left|lia|lia|]. exists (take plen pat). split; [done|].
  assert (0 < plen)%nat by (subst plen; destruct (_ && _); lia).
  destruct pat; simpl in *; [lia|]. destruct plen; [lia|done].
Qed.

Lemma append_cvs_keeps l sd :
  list_ok l -> 1 <= sd <= 3 -> keeps (filter_list_append_cvs l sd).
Proof.
  intros Hl Hsd. unfold filter_list_append_cvs.
  assert (Hall : Forall (fun d : list byte * bool => (1 <? length (fst d))%nat = true) CVS_DEFAULTS)
    by (apply Forall_forall; intros d Hd; revert d Hd; apply Forall_forall; repeat constructor).
  revert l Hl. induction Hall as [|d ds Hd _ IH]; intros l Hl; simpl; [by apply keeps_ret|].
  destruct (cvs_rule_ok sd d Hsd Hd) as [Hn Hr].
  apply keeps_or_false; [done..|]. intros r Er. apply keeps_bind; [by apply add_keeps, Hr|].
  intros l' [] Hl'; [by apply IH|by apply keeps_ret].
Qed.

Lemma add_dir_merge_keeps l name
  (Hbig : forall size, malloc_ok size = true -> size < 2 ^ 33) :
  list_ok l -> keeps (filter_rule_list_add_dir_merge l name).
Proof.
  intros Hl. unfold filter_rule_list_add_dir_merge. case_bool_decide as Hname; [by apply keeps_ret|].
  destruct (existsb _ _) eqn:Ex; [by apply keeps_ret|]. destruct Hl as [Hi Hc [Hn1 Hn2] Hd].
  assert (Hnew : name ∉ dir_merge_names l).
  { intros Hin%list_elem_of_In. assert (existsb (fun n => strcmp n name =? 0) (dir_merge_names l) = true); [|congruence].
    apply existsb_exists. exists name. split; [done|]. apply Z.eqb_eq. by apply strcmp_eq. }
  pose proof (zlen_nonneg (dir_merge_names l)).
  assert (Hadd : forall cap, zlen (dir_merge_names l) < cap < 2 ^ 30 ->
    keeps (or_false (MkList (items l) (capacity l) (dir_merge_names l) cap) (str_dup (Some name)) (fun dup =>
             Ret (MkList (items l) (capacity l) (dir_merge_names l ++ [dup]) cap, true)))).
  { intros cap Hcap. apply keeps_or_false; [by split; simpl; [..|lia]|apply str_dup_not_stuck|].
    intros dup Hdup. unfold str_dup in Hdup. simpl in Hdup. destruct (malloc_ok _); [|done]. injection Hdup as <-.
    apply keeps_ret. split; simpl; [done|done| |rewrite zlen_app; unfold zlen at 2; simpl; lia].
    split; [apply NoDup_app; split_and!; [done| |apply NoDup_singleton]|]; set_solver. }
  destruct (Z.eqb_spec (zlen (dir_merge_names l)) (dir_merge_capacity l)) as [E|E]; simpl mbind.
  - rewrite int_ok_ret by (destruct (Z.gtb_spec (dir_merge_capacity l) 0); lia). simpl mbind.
    destruct (malloc_ok _) eqn:Em; [|by apply keeps_ret]. apply Hbig in Em. apply Hadd.
    destruct (Z.gtb_spec (dir_merge_capacity l) 0); lia.
  - apply Hadd. lia.
Qed.

(** ** Rule files *)

Lemma for_lines_keeps rec ls read_ok l :
  (forall l x, list_ok l -> keeps (rec l x)) -> list_ok l -> keeps (for_lines rec ls read_ok l).
Proof.
  intros Hrec. revert l. induction ls as [|x ls IH]; intros l Hl; simpl; [by apply keeps_ret|].
  destruct (blank_or_comment _); [by apply IH|]. apply keeps_bind; [by apply Hrec|].
  intros l' [] Hl'; [by apply IH|by apply keeps_ret].
Qed.

Lemma merge_file_keeps rec l name base_dir :
  (forall l x, list_ok l -> keeps (rec l x)) -> list_ok l -> keeps (filter_list_merge_file fs rec l name base_dir).
Proof.
  intros Hrec Hl. unfold filter_list_merge_file. case_bool_decide; [by apply keeps_ret|].
  apply keeps_or_false; [done| |].
  - destruct (_ && _); [apply path_cat_not_stuck|apply str_dup_not_stuck].
  - intros path _. destruct (fs path) as [content|]; [|by apply keeps_ret].
    unfold file_lines. destruct (read_lines_total newline (S (length content)) content (MkLine true 0)) as [[ls ok] ->];
      [lia|simpl; lia|]. simpl mbind. by apply for_lines_keeps.
Qed.

Lemma parse_append_keeps fuel opts base_dir depth l line
  (Hbig : forall size, malloc_ok size = true -> size < 2 ^ 33) :
  16 - depth < Z.of_nat fuel -> 0 <= depth -> list_ok l ->
  keeps (filter_list_parse_append_depth fs fuel opts base_dir depth l line).
Proof.
  revert depth l line. induction fuel as [|fuel IH]; intros depth l line Hf Hd Hl; cbn [filter_list_parse_append_depth];
    destruct (Z.gtb_spec depth FILTER_MAX_MERGE_DEPTH) as [|Hmax]; try (by apply keeps_ret);
    unfold FILTER_MAX_MERGE_DEPTH in Hmax; [lia|].
  destruct (match skip_blanks line with [] => true | c :: _ => is_newline c end) eqn:Eb; [by apply keeps_ret|].
  destruct (parse_rule_syntax (skip_blanks line)) as [|s] eqn:Es; [by apply keeps_ret|].
  destruct (rs_xattr s); [by apply keeps_ret|].
  pose proof (parse_rule_syntax_ok _ _ Es) as [Hsd Hpl].
  destruct (rs_cvs_inject s); [by apply append_cvs_keeps|].
  pose proof (filter_rule_parse_ok _ opts s (skip_blanks_idem line) Es) as Hpar.
  assert (Hrule : rs_kind s <> RULE_KIND_CLEAR ->
    keeps (or_false l (filter_rule_parse (Some (skip_blanks line)) opts) (filter_rule_list_add l))).
  { intros Hk. destruct (Hpar Hk) as [Hn Hr]. apply keeps_or_false; [done..|]. intros r Er. by apply add_keeps, Hr. }
  destruct (rs_kind s); try (by apply Hrule).
  - destruct (_ =? 0)%nat; [by apply keeps_ret|]. destruct (negb _); [by apply keeps_ret|].
    apply merge_file_keeps; [|done]. intros l' x Hl'. apply IH; [lia|lia|done].
  - destruct (_ =? 0)%nat; [by apply keeps_ret|]. destruct (negb _); [by apply keeps_ret|].
    by apply add_dir_merge_keeps.
  - destruct (negb _); apply keeps_ret; [done|]. destruct Hl as [Hi Hc Hn Hdc]. split; simpl; [by constructor| |done|done].
    pose proof (zlen_nonneg (items l)). unfold zlen at 1; simpl; lia.
Qed.

Lemma set_owners_spec rs o :
  set_owners rs o <> Stuck /\
  forall rs', set_owners rs o = Ret rs' ->
    length rs' = length rs /\ (Forall rule_ok rs -> Forall rule_ok rs') /\
    Forall (fun r => owner r = Some (default [] o)) rs'.
Proof.
  induction rs as [|r rs [IHn IH]]; [split; [done|]; intros rs' [= <-]; auto|]. cbn [set_owners].
  unfold set_rule_owner, str_dup. simpl mbind. case_check E; [|done].
  destruct (set_owners rs o) as [rs1| |]; simpl; [|done..]. split; [done|]. intros rs' [= <-].
  destruct (IH rs1 eq_refl) as (Hl&Hf&Ho). split_and!; [simpl; lia| |by constructor].
  intros [Hr Hrs]%Forall_cons. apply Forall_cons. split; [done|by apply Hf].
Qed.

Lemma rollback_ok l n k :
  list_ok l -> list_ok (filter_file_rollback l n k) /\ (length (items (filter_file_rollback l n k)) <= n)%nat.
Proof.
  intros [Hi Hc [Hn1 Hn2] Hd]. unfold filter_file_rollback.
  assert (forall A (x : list A) m, zlen (take m x) <= zlen x) by (intros; unfold zlen; rewrite length_take; lia).
  split; [split; simpl|simpl; rewrite length_take; lia].
  - by apply Forall_take.
  - pose proof (H0 _ (items l) (Nat.min n (length (items l)))). lia.
  - rewrite <- (take_drop k (dir_merge_names l)) in Hn1, Hn2. split; [by apply NoDup_app in Hn1 as (?&_)|set_solver].
  - pose proof (H0 _ (dir_merge_names l) k). lia.
Qed.

End Invariant.

Section Claims.
Context `{Heap}.
Context (fs : list byte -> option (list byte)).
Context (Hbig : forall size, malloc_ok size = true -> size < 2 ^ 33).

(** C35: reading rules always ends, and keeps the list in order.  For every
    rule line and every set of files it may merge, also files that merge each
    other or themselves, [filter_rule_list_parse_append] returns; the list then
    holds only rules with a base action, at least one side and a non-empty
    pattern, within its capacity, and its per-directory file names are distinct
    and non-empty.  (Blocks are below 8 GiB, so that the capacity of the names
    does not overflow.) *)
Theorem filter_parse_append_total l line opts base_dir (Hl : list_ok l) :
  exists l' ok, filter_rule_list_parse_append fs l line opts base_dir = Ret (l', ok) /\ list_ok l'.
Proof. by apply parse_append_keeps. Qed.

(** The rules of a per-directory file are scoped to it.
    [filter_file_append] returns for every file; the list stays in order; when
    it succeeds, every rule past those the list had is scoped to the directory
    of the file, and when it fails the list has no more rules than before. *)
Lemma filter_file_append_scoped l dir_path name owner_rel opts (Hl : list_ok l) :
  exists l' found ok, filter_file_append fs l dir_path (Some name) owner_rel opts = Ret (l', found, ok) /\
    list_ok l' /\
    (if ok then Forall (fun r => owner r = Some (default [] owner_rel)) (drop (length (items l)) (items l'))
     else (length (items l') <= length (items l))%nat).
Proof.
  unfold filter_file_append. pose proof (path_cat_not_stuck dir_path name) as Hp.
  assert (Hrec : forall l x, list_ok l -> keeps (filter_list_parse_append_depth fs 17 opts dir_path 0 l x))
    by (intros; by apply parse_append_keeps).
  revert Hrec. generalize (filter_list_parse_append_depth fs 17 opts dir_path 0) as rec. intros rec Hrec.
  destruct (path_cat dir_path (Some name)) as [path| |]; [|by eexists _, _, _|done].
  destruct (fs path) as [content|]; [|eexists _, _, _; split_and!; [done|done|]; by rewrite drop_ge].
  unfold file_lines. destruct (read_lines_total newline (S (length content)) content (MkLine true 0)) as [[ls rok] ->];
    [lia|simpl; lia|]. simpl mbind.
  destruct (for_lines_keeps rec ls rok l Hrec Hl) as (l1&ok&->&Hl1). simpl mbind.
  destruct (rollback_ok l1 (length (items l)) (length (dir_merge_names l)) Hl1) as [Hr1 Hr2].
  destruct ok; cbn [negb]; [|by eexists _, _, _].
  destruct (set_owners_spec (drop (length (items l)) (items l1)) owner_rel) as [Hn Ho].
  destruct (set_owners _ _) as [rs| |]; [|by eexists _, _, _|done].
  destruct (Ho rs eq_refl) as (Hlen&Hrs&Hown). eexists _, _, _. split_and!; [done| |].
  - destruct Hl1 as [Hi Hc Hnm Hd]. split; simpl; [|unfold zlen in *|done|done].
    + apply Forall_app_2; [by apply Forall_take|by apply Hrs, Forall_drop].
    + rewrite length_app, Hlen, <- length_app, take_drop. done.
  - simpl. rewrite drop_app. apply Forall_app_2; [|by apply Forall_drop].
    rewrite drop_ge; [done|]. rewrite length_take. lia.
Qed.
End Claims.

(** ** First match decides *)

(** The path a rule looks at: below its owner. *)
Definition below_owner (r : FilterRule) (rel rest : list byte) : Prop :=
  match owner r with
  | None | Some [] => rest = rel
  | Some o => rel = o ++ [Glob.slash] ++ rest
  end.

(** [suffix] starts at a component of [path]. *)
Definition component_suffix (path suffix : list byte) : Prop :=
  suffix = path \/ exists pre, path = pre ++ Glob.slash :: suffix.

Definition pattern_applies (r : FilterRule) (pat rest leaf : list byte) (is_dir : bool) : Prop :=
  (dir_only r = true -> is_dir = true) /\
  if anchored r then gmatch pat rest = true
  else if bool_decide (Glob.slash ∈ pat) then exists suffix, component_suffix rest suffix /\ gmatch pat suffix = true
  else gmatch pat leaf = true.

(** The rule decides the path on this side. *)
Definition applies (r : FilterRule) (rel leaf : list byte) (is_dir : bool) (side : Z) : Prop :=
  Z.land (sides r) side <> 0 /\
  exists pat rest, pattern r = Some pat /\ below_owner r rel rest /\ rest <> [] /\
    if negate r then ~ pattern_applies r pat rest leaf is_dir else pattern_applies r pat rest leaf is_dir.

Definition verdict (r : FilterRule) (side : Z) : FilterAction :=
  if side =? FILTER_SIDE_RECEIVER
  then match action r with FILTER_ACTION_EXCLUDE => FILTER_ACTION_PROTECT | _ => FILTER_ACTION_RISK end
  else action r.

Lemma after_slashes_spec s t : t ∈ after_slashes s <-> exists pre, s = pre ++ Glob.slash :: t.
Proof.
  induction s as [|c s IH]; cbn [after_slashes].
  - split; [by intros ?%not_elem_of_nil|]. by intros [[|? pre] ?].
  - case_bool_decide as E; [subst c; rewrite elem_of_cons|]; rewrite IH; split.
    + intros [->|[pre ->]]; [by exists []|by exists (Glob.slash :: pre)].
    + intros [[|b pre] [= E]]; [by left|]. right. by exists pre.
    + intros [pre ->]. by exists (c :: pre).
    + intros [[|b pre] [= ? ?]]; [by subst|]. by exists pre.
Qed.

Lemma below_owner_spec r rel :
  match owner_relative r rel with
  | Some rest => forall rest', below_owner r rel rest' <-> rest' = rest
  | None => forall rest', ~ below_owner r rel rest'
  end.
Proof.
  unfold owner_relative, below_owner. destruct (owner r) as [[|c o]|]; [done| |done].
  set (ow := c :: o). pose proof (strncmp_prefix_l ow rel) as Hp.
  destruct (Z.eqb_spec (strncmp ow rel (length ow)) 0) as [E|E]; cbn [negb].
  - apply Hp in E as [t ->]. unfold char_is. rewrite lookup_app_r, Nat.sub_diag by lia.
    change "/"%byte with Glob.slash. case_bool_decide as Ht; cbn [negb].
    + destruct t as [|b t]; [done|]. injection Ht as ->. intros rest'.
      rewrite drop_app_ge by lia. replace (length ow + 1 - length ow)%nat with 1%nat by lia. cbn [drop].
      cbn [app]. split; [by intros [= ->]%(inj (app ow))|by intros ->].
    + intros rest' Hr%(inj (app ow)). by subst.
  - intros rest' ->. apply E, Hp. by exists ([Glob.slash] ++ rest').
Qed.

(** Rules always give an answer, whatever the heap. *)
Lemma rule_matches_total `{Heap} r rel leaf is_dir side : exists a, rule_matches r rel leaf is_dir side = Ret a.
Proof.
  unfold rule_matches. destruct (pattern r) as [pat|]; [|by eexists]. destruct (_ =? 0); [by eexists|].
  destruct (owner_relative r rel) as [[|c rest]|]; [by eexists| |by eexists].
  assert (Hany : forall ss, exists b, any_match pat ss = Ret b).
  { induction ss as [|s ss [b IH]]; cbn [any_match]; [by eexists|]. destruct (glob_match_total pat s) as [m ->]. simpl. destruct m; by eexists. }
  destruct (dir_only r && negb is_dir); simpl mbind.
  - destruct (negate r); simpl; [destruct (side =? _)|]; by eexists.
  - assert (exists m, (if anchored r then glob_match pat (c :: rest)
      else if bool_decide (Glob.slash ∈ pat) then glob_suffix_match pat (c :: rest) else glob_match pat leaf) = Ret m) as [m ->].
    { destruct (anchored r); [apply glob_match_total|]. case_bool_decide; [apply Hany|apply glob_match_total]. }
    simpl mbind. destruct (negb _); [by eexists|]. destruct (side =? _); by eexists.
Qed.

Lemma filter_rules_total `{Heap} l rel leaf is_dir side : exists a, filter_rules_apply_side l rel leaf is_dir side = Ret a.
Proof.
  destruct l as [l|]; [|by eexists]. unfold filter_rules_apply_side. induction (items l) as [|r rs [b IH]]; cbn [apply_rules]; [by eexists|].
  destruct (rule_matches_total r rel leaf is_dir side) as [a ->]. simpl. case_bool_decide; by eexists.
Qed.

Section FirstMatch.
Context `{Heap}.
Context (rel leaf : list byte) (is_dir : bool) (side : Z).

(** The patterns of the list are within the work limit of [glob_match]. *)
Definition within_limit (r : FilterRule) : Prop :=
  forall pat, pattern r = Some pat ->
    (zlen pat + 1) * (Z.max (zlen rel) (zlen leaf) + 1) <= 64 * 1024 * 1024.

Lemma glob_within pat s :
  (zlen pat + 1) * (Z.max (zlen rel) (zlen leaf) + 1) <= 64 * 1024 * 1024 -> heap_serves (2 ^ 28) ->
  zlen s <= Z.max (zlen rel) (zlen leaf) -> glob_match pat s = Ret (gmatch pat s).
Proof.
  intros Hw Hh Hs. pose proof (zlen_nonneg pat). pose proof (zlen_nonneg s).
  apply glob_match_gmatch; [nia|]. apply (heap_serves_malloc _ _ Hh). nia.
Qed.

Lemma any_match_spec pat ss :
  (zlen pat + 1) * (Z.max (zlen rel) (zlen leaf) + 1) <= 64 * 1024 * 1024 -> heap_serves (2 ^ 28) ->
  Forall (fun s => zlen s <= Z.max (zlen rel) (zlen leaf)) ss ->
  any_match pat ss = Ret (existsb (gmatch pat) ss).
Proof.
  intros Hw Hh. induction 1 as [|s ss Hs _ IH]; cbn [any_match existsb]; [done|].
  rewrite glob_within by done. simpl mbind. by destruct (gmatch pat s).
Qed.

Lemma glob_suffix_spec pat s :
  (zlen pat + 1) * (Z.max (zlen rel) (zlen leaf) + 1) <= 64 * 1024 * 1024 -> heap_serves (2 ^ 28) ->
  zlen s <= zlen rel ->
  exists b, glob_suffix_match pat s = Ret b /\
    (b = true <-> exists suffix, component_suffix s suffix /\ gmatch pat suffix = true).
Proof.
  intros Hw Hh Hs. unfold glob_suffix_match. rewrite any_match_spec; [|done..|].
  - eexists. split; [done|]. rewrite existsb_exists. setoid_rewrite <- list_elem_of_In.
    setoid_rewrite elem_of_cons. setoid_rewrite after_slashes_spec. done.
  - apply Forall_cons. split; [lia|]. apply Forall_forall. intros t [pre ->]%after_slashes_spec.
    rewrite zlen_app in Hs. unfold zlen in *. simpl in *. lia.
Qed.

Lemma rule_matches_spec r :
  heap_serves (2 ^ 28) -> within_limit r -> rule_ok r ->
  (applies r rel leaf is_dir side /\ rule_matches r rel leaf is_dir side = Ret (verdict r side)) \/
  (~ applies r rel leaf is_dir side /\ rule_matches r rel leaf is_dir side = Ret FILTER_ACTION_NONE).
Proof.
  intros Hh Hw (Hact&_&pat&Hpat&_). specialize (Hw pat Hpat). unfold rule_matches, applies. rewrite Hpat.
  destruct (Z.eqb_spec (Z.land (sides r) side) 0) as [E0|E0]; [right; naive_solver|].
  pose proof (below_owner_spec r rel) as Hb. destruct (owner_relative r rel) as [rest|] eqn:Eo; [|right; naive_solver].
  assert (Hrest : zlen rest <= zlen rel).
  { assert (below_owner r rel rest) as Hbr by (by apply Hb). revert Hbr. unfold below_owner.
    destruct (owner r) as [[|c o]|]; [by intros -> | |by intros ->]. intros ->. rewrite !zlen_app.
    pose proof (zlen_nonneg (c :: o)). pose proof (zlen_nonneg [Glob.slash]). lia. }
  destruct rest as [|c0 rest0] eqn:Er; [right; naive_solver|]. rewrite <- Er in *. assert (Hne : rest <> []) by (by rewrite Er). clear Er.
  set (m := if dir_only r && negb is_dir then _ else _).
  assert (Hm : exists b, m = Ret b /\ (b = true <-> pattern_applies r pat rest leaf is_dir)).
  { subst m. unfold pattern_applies. destruct (dir_only r) eqn:Ed, is_dir eqn:Ei; simpl;
      try (exists false; split; [done|]; naive_solver);
      (destruct (anchored r); [rewrite glob_within by (done || lia); naive_solver|];
       case_bool_decide; [destruct (glob_suffix_spec pat rest Hw Hh Hrest) as (b&->&Hbb); naive_solver|
                          rewrite glob_within by (done || lia); naive_solver]). }
  destruct Hm as (b&->&Hbm). simpl mbind.
  assert (Hiff : (if negate r then negb b else b) = true <->
    (if negate r then ~ pattern_applies r pat rest leaf is_dir else pattern_applies r pat rest leaf is_dir)).
  { destruct (negate r), b; naive_solver. }
  destruct (if negate r then negb b else b); cbn [negb].
  - left. split; [split; [done|]; exists pat, rest; naive_solver|]. unfold verdict.
    destruct Hact as [-> | ->]; by destruct (side =? FILTER_SIDE_RECEIVER).
  - right. split; [|done]. intros (_&pat'&rest'&[= <-]&Hr&_&Hneg). apply Hb in Hr as ->. by apply Hiff in Hneg.
Qed.

(** C4: the first rule that applies decides.  On a list in order,
    [filter_rules_apply_side] returns the verdict of the first rule that
    applies to the path on this side (exclude and include for the sender,
    protect and risk for the receiver), and no action when none does.  A rule
    applies only strictly below its owner directory, to directories only when
    it says so, and its pattern is matched from the owner when anchored, from
    any component when it has a slash, and against the last component
    otherwise. *)
Theorem filter_first_match l
    (Hheap : heap_serves (2 ^ 28)) (Hlimit : Forall within_limit (items l)) (Hl : list_ok l) :
  exists a, filter_rules_apply_side (Some l) rel leaf is_dir side = Ret a /\
    ((a = FILTER_ACTION_NONE /\ Forall (fun r => ~ applies r rel leaf is_dir side) (items l)) \/
     exists before r after, items l = before ++ r :: after /\ applies r rel leaf is_dir side /\
       Forall (fun r => ~ applies r rel leaf is_dir side) before /\ a = verdict r side).
Proof.
  destruct Hl as [Hi _ _ _]. unfold filter_rules_apply_side. revert Hlimit Hi.
  induction (items l) as [|r rs IH]; cbn [apply_rules]; intros Hw Hi; [eauto|].
  apply Forall_cons in Hw as [Hw1 Hw2], Hi as [Hi1 Hi2].
  destruct (rule_matches_spec r Hheap Hw1 Hi1) as [[Ha ->]|[Ha ->]]; simpl mbind.
  - assert (verdict r side <> FILTER_ACTION_NONE).
    { unfold verdict. destruct Hi1 as [[-> | ->] _]; by destruct (side =? FILTER_SIDE_RECEIVER). }
    rewrite bool_decide_eq_false_2 by done. eexists. split; [done|]. right. exists [], r, rs. done.
  - destruct (IH Hw2 Hi2) as (a&->&[[-> Hn]|(pre&r'&post&->&H1&H2&H3)]); eexists; (split; [done|]).
    + left. by rewrite Forall_cons.
    + right. exists (r :: pre), r', post. split_and!; [done|done|by rewrite Forall_cons|done].
Qed.
End FirstMatch.

Definition small_heap : Heap := {|
  max_alloc := 0; malloc_ok := fun size => size <? 2 ^ 32;
  junk_byte := fun _ => Byte.x00; junk_word := fun _ => 0;
|}.
Definition one_list : FilterRuleList := MkList [one_rule] 8 [] 0.
Lemma one_list_ok : list_ok one_list.
Proof.
  split; simpl; [|by vm_compute|split; [constructor|set_solver]|by vm_compute].
  apply Forall_singleton. split; [by right|]. split; [simpl; lia|]. by exists (cs "keep").
Qed.

(** A file that merges itself. *)
Definition fs_self (p : list byte) : option (list byte) := Some (cs "- a" ++ [newline] ++ cs ". self" ++ [newline]).

Lemma filter_parse_append_total_witness :
  exists l' ok, @filter_rule_list_parse_append small_heap fs_self one_list (cs ". self") None None = Ret (l', ok) /\
    list_ok l'.
Proof.
  apply (@filter_parse_append_total small_heap fs_self); [intros size E; apply Z.ltb_lt in E; lia|apply one_list_ok].
Defined.

Lemma filter_first_match_witness :
  exists a, @filter_rules_apply_side heap0 (Some one_list) (cs "a/keep") (cs "keep") false FILTER_SIDE_SENDER = Ret a /\
    ((a = FILTER_ACTION_NONE /\ Forall (fun r => ~ applies r (cs "a/keep") (cs "keep") false FILTER_SIDE_SENDER) (items one_list)) \/
     exists before r after, items one_list = before ++ r :: after /\ applies r (cs "a/keep") (cs "keep") false FILTER_SIDE_SENDER /\
       Forall (fun r => ~ applies r (cs "a/keep") (cs "keep") false FILTER_SIDE_SENDER) before /\ a = verdict r FILTER_SIDE_SENDER).
Proof.
  apply (@filter_first_match heap0); [apply heap0_serves| |apply one_list_ok].
  apply Forall_singleton. intros pat [= <-]. vm_compute. discriminate.
Defined.
