(* ===== verification/FileList.v ===== *)
(** The [--files-from] allow-set of src/shared/file_list.c: normalizing and
    loading the listed paths, and the two scope questions asked of the set. *)

From S2P Require Import Prelude Alloc CStr PathIndex Paths FilterParse.

(** [StringList]: the first [count] items. *)
Record StringList := MkStrings { sl_items : list (list byte); sl_capacity : Z }.

(** file_list.h [FileListSet] *)
Record FileListSet := MkFileList {
  entries : list (list byte);
  index : PathIndex;
  whole_tree : bool;
}.
Definition sizeof_FileListSet : Z := 64.

(** [memmove(dup + off, src, n)] for the bytes [bs] read from the source. *)
Definition put_at (buf : list byte) (off : Z) (bs : list byte) : outcome (list byte) :=
  if bool_decide (0 <= off /\ off + zlen bs <= zlen buf)
  then Ret (take (Z.to_nat off) buf ++ bs ++ drop (Z.to_nat (off + zlen bs)) buf)
  else Stuck.

Section FileList.
Context `{Heap} `{XXHash64}.

(** file_list.c [string_list_add]; the caller drops the list when it fails. *)
Definition string_list_add (l : StringList) (text : list byte) : outcome StringList :=
  cap ← (if zlen (sl_items l) =? sl_capacity l then
           check (negb (sl_capacity l >? INT_MAX / 2));;
           let new_cap := if sl_capacity l >? 0 then sl_capacity l * 2 else 16 in
           check (malloc_ok (new_cap * 8));;
           Ret new_cap
         else Ret (sl_capacity l));
  dup ← str_dup (Some text);
  Ret (MkStrings (sl_items l ++ [dup]) cap).

Definition not_slash (c : byte) : bool := negb (bool_decide (c = "/"%byte)).

(** The loop of [normalize_entry] that rebuilds the path in place: [part] and
    [out_len] are offsets in the block [dup]. *)
Fixpoint norm_loop (fuel : nat) (dup : list byte) (part out_len : Z) : outcome (list byte * Z) :=
  match fuel with
  | O => Stuck
  | S fuel =>
      tail ← rd dup part (zlen dup - part);
      let '(seg, more) := span not_slash (c_str tail) in
      let next (dup : list byte) (out_len : Z) :=
        match more with
        | [] => Ret (dup, out_len)
        | _ => norm_loop fuel dup (part + zlen seg + 1) out_len
        end in
      if bool_decide (seg = cs ".") then next dup out_len
      else if bool_decide (seg = cs "..") then Fail
      else if zlen seg >? 0 then
        '(dup, out_len) ← (if out_len >? 0 then dup ← st dup out_len "/"%byte; Ret (dup, out_len + 1)
                           else Ret (dup, out_len));
        bytes ← rd dup part (zlen seg);
        dup ← put_at dup out_len bytes;
        next dup (out_len + zlen seg)
      else next dup out_len
  end.

(** file_list.c [normalize_entry]: [Fail] is -1, an unchanged list 0. *)
Definition normalize_entry (raw : list byte) (strip_line_endings : bool) (out : StringList) : outcome StringList :=
  let len := if strip_line_endings then trim_newlines raw (length raw) else length raw in
  if (len =? 0)%nat then Ret out
  else
    check (negb (char_is raw 0 "/"%byte));;
    let scan_len := if strip_line_endings then len else (len - 1)%nat in
    check (negb (bool_decide (Byte.x00 ∈ take scan_len raw)));;
    check (malloc_ok (Z.of_nat len + 1));;
    '(dup, out_len) ← norm_loop (S len) (take len raw ++ [Byte.x00]) 0 0;
    dup ← st dup out_len Byte.x00;
    string_list_add out (if out_len =? 0 then [] else c_str dup).

(** file_list.c [file_list_index_build], [string_list_to_set] *)
Definition string_list_to_set (raw : StringList) : outcome FileListSet :=
  check (malloc_ok sizeof_FileListSet);;
  ix ← path_index_build (sl_items raw) (zlen (sl_items raw));
  Ret (MkFileList (sl_items raw) ix (existsb (fun e => bool_decide (e = [])) (sl_items raw))).

(** file_list.c [file_list_load] of a file with this content; [None] cannot be
    opened. *)
Definition file_list_load (content : option (list byte)) (null_separated : bool) : outcome FileListSet :=
  content ← of_option content;
  '(ls, ok) ← file_lines content (if null_separated then Byte.x00 else newline);
  raw ← foldM (fun line raw => normalize_entry line (negb null_separated) raw) ls (MkStrings [] 0);
  check ok;;
  string_list_to_set raw.

(** The position of the last slash before [len]. *)
Fixpoint last_slash (rel : list byte) (len : nat) : option nat :=
  match len with
  | O => None
  | S i => if char_is rel i "/"%byte then Some i else last_slash rel i
  end.

(** The walk over the directory prefixes of [rel]. *)
Fixpoint prefix_listed (fuel : nat) (ix : PathIndex) (rel : list byte) (len : nat) : outcome bool :=
  match fuel with
  | O => Stuck
  | S fuel =>
      if (len =? 0)%nat then Ret false
      else match last_slash rel len with
      | None => Ret false
      | Some i =>
          b ← path_index_contains_n ix rel (Z.of_nat i);
          if b : bool then Ret true else prefix_listed fuel ix rel i
      end
  end.

(** file_list.c [file_list_affects] *)
Definition file_list_affects (set : option FileListSet) (rel : option (list byte)) : outcome bool :=
  match set, rel with
  | None, _ => Ret true
  | Some _, None => Ret false
  | Some set, Some rel =>
      if whole_tree set then Ret true
      else
        b ← path_index_contains (index set) rel;
        if b : bool then Ret true
        else
          b ← prefix_listed (S (length rel)) (index set) rel (length rel);
          if b : bool then Ret true else path_index_has_descendant (index set) rel
  end.

(** file_list.c [file_list_dir_in_scope] *)
Definition file_list_dir_in_scope (set : option FileListSet) (rel : option (list byte)) : outcome bool :=
  match set with
  | None => Ret true
  | Some set =>
      if whole_tree set then Ret true
      else match rel with
      | None | Some [] => Ret false
      | Some rel =>
          b ← prefix_listed (S (length rel)) (index set) rel (length rel);
          if b : bool then Ret true else path_index_contains (index set) rel
      end
  end.

End FileList.

(** An empty entry of a NUL-separated list is not skipped: it lists the root. *)
Example empty_nul_entry_lists_all :
  match @file_list_load heap0 hash_const (Some (cs "a" ++ [Byte.x00; Byte.x00] ++ cs "b" ++ [Byte.x00])) true with
  | Ret s => (entries s, whole_tree s) = ([cs "a"; []; cs "b"], true)
  | _ => False
  end.
Proof. vm_compute. reflexivity. Qed.
Example blank_line_skipped :
  match @file_list_load heap0 hash_const (Some (cs "./a//b/" ++ [newline; newline] ++ cs "c" ++ [newline])) false with
  | Ret s => (entries s, whole_tree s) = ([cs "a/b"; cs "c"], false)
  | _ => False
  end.
Proof. vm_compute. reflexivity. Qed.

(** ** Scope *)

Lemma last_slash_spec rel len :
  match last_slash rel len with
  | Some i => (i < len)%nat /\ rel !! i = Some "/"%byte /\ forall j, (i < j < len)%nat -> rel !! j <> Some "/"%byte
  | None => forall j, (j < len)%nat -> rel !! j <> Some "/"%byte
  end.
Proof.
  induction len as [|n IH]; cbn [last_slash]; [lia|]. unfold char_is. case_bool_decide as E.
  - split_and!; [lia|done|lia].
  - destruct (last_slash rel n) as [i|].
    + destruct IH as (H1&H2&H3). split_and!; [lia|done|]. intros j Hj. destruct (decide (j = n)) as [->|]; [done|].
      apply H3. lia.
    + intros j Hj. destruct (decide (j = n)) as [->|]; [done|]. apply IH. lia.
Qed.

(** [e] is a directory above [rel]. *)
Definition above (e rel : list byte) : Prop := (e ++ ["/"%byte]) `prefix_of` rel.

Lemma above_iff e rel : above e rel <-> exists i, rel !! i = Some "/"%byte /\ e = take i rel.
Proof.
  unfold above. rewrite <- prefix_lookup_next. split.
  - intros [[t ->] Hi]. exists (length e). split; [done|]. by rewrite take_app_length.
  - intros (i&Hi&->). pose proof (lookup_lt_Some _ _ _ Hi). rewrite length_take, Nat.min_l by lia. split; [|done].
    exists (drop i rel). by rewrite take_drop.
Qed.

Section Scope.
Context `{Heap} `{XXHash64}.
Context (set : FileListSet) `{!IndexOf (index set) (entries set)}.

Lemma prefix_listed_spec fuel rel len :
  (len < fuel)%nat -> (len <= length rel)%nat ->
  exists b, prefix_listed fuel (index set) rel len = Ret b /\
    (b = true <-> exists i, (i < len)%nat /\ rel !! i = Some "/"%byte /\ take i rel ∈ entries set).
Proof.
  revert len. induction fuel as [|fuel IH]; intros len Hf Hl; [lia|]. cbn [prefix_listed].
  destruct (Nat.eqb_spec len 0) as [->|]; [exists false; split; [done|]; split; [done|]; intros (?&?&_); lia|].
  pose proof (last_slash_spec rel len) as Hs. destruct (last_slash rel len) as [i|].
  - destruct Hs as (H1&H2&H3). rewrite index_contains_n by (unfold zlen; lia). rewrite Nat2Z.id. simpl mbind.
    case_bool_decide as Hin; [exists true; split; [done|]; naive_solver|].
    destruct (IH i) as (b&->&Hb); [lia|lia|]. exists b. split; [done|]. rewrite Hb. split.
    + intros (j&?&?&?). exists j. split_and!; [lia|done|done].
    + intros (j&Hj&Hsl&Hj2). exists j. split_and!; [|done|done].
      destruct (decide (j < i)%nat); [done|]. destruct (decide (j = i)) as [->|]; [done|]. destruct (H3 j); [lia|done].
  - exists false. split; [done|]. split; [done|]. intros (j&Hj&Hsl&_). by destruct (Hs j).
Qed.

Lemma prefix_above rel :
  (exists i, (i < length rel)%nat /\ rel !! i = Some "/"%byte /\ take i rel ∈ entries set) <->
  exists e, e ∈ entries set /\ above e rel.
Proof.
  setoid_rewrite above_iff. split.
  - intros (i&_&Hi&Hin). eauto.
  - intros (e&Hin&i&Hi&->). exists i. split_and!; [by eapply lookup_lt_Some|done|done].
Qed.

Lemma scope_exact rel
    (Hw : whole_tree set = bool_decide ([] ∈ entries set)) (Hrel : rel <> []) :
  exists b1 b2, file_list_affects (Some set) (Some rel) = Ret b1 /\
    file_list_dir_in_scope (Some set) (Some rel) = Ret b2 /\
    (b1 = true <-> [] ∈ entries set \/ exists e, e ∈ entries set /\ (e = rel \/ above e rel \/ above rel e)) /\
    (b2 = true <-> [] ∈ entries set \/ exists e, e ∈ entries set /\ (e = rel \/ above e rel)).
Proof.
  unfold file_list_affects, file_list_dir_in_scope. rewrite Hw.
  destruct (bool_decide_reflect ([] ∈ entries set)) as [Hin|Hnin]; [exists true, true; naive_solver|].
  destruct rel as [|c rel']; [done|]. set (rel := c :: rel') in *.
  destruct (prefix_listed_spec (S (length rel)) rel (length rel)) as (b&->&Hb); [lia|lia|].
  rewrite prefix_above in Hb. rewrite index_contains. simpl mbind.
  destruct (index_descendant (ix := index set) rel) as (d&Ed&Hd). unfold has_child in Hd.
  case_bool_decide as Hlisted; destruct b; rewrite ?Ed.
  - exists true, true. naive_solver.
  - exists true, true. split_and!; [done|done| |]; naive_solver.
  - exists true, true. destruct Hb as [Hb _]. destruct (Hb eq_refl) as (e&He&Ha). split_and!; [done..| |]; naive_solver.
  - assert (Hno : ~ exists e, e ∈ entries set /\ above e rel) by (intros He; by apply Hb in He).
    exists d, false. split_and!; [done..| |].
    + rewrite Hd. split; [intros [_ (e&He&Hp)]; eauto 10|]. intros [?|(e&He&[->|[Ha|Ha]])]; [done|done| |]; [|naive_solver].
      destruct Hno. eauto.
    + split; [done|]. intros [?|(e&He&[->|Ha])]; [done|done|]. destruct Hno. eauto.
Qed.
End Scope.

(** The allow-set is the tree relation.  For a loaded list without the
    root, [file_list_affects] is true exactly when the path is listed, lies
    below a listed directory, or is a directory above a listed entry (on
    component boundaries), and [file_list_dir_in_scope] exactly when the
    directory is listed or lies below a listed one; when the root is listed
    both are true of every path. *)
Lemma file_list_scope_exact `{Heap} `{XXHash64} raw set rel
    (Hset : string_list_to_set raw = Ret set) (Hrel : rel <> [])
    (Hn : zlen (sl_items raw) < 2 ^ 58) (Hheap : heap_serves (2 ^ 63)) :
  exists b1 b2, file_list_affects (Some set) (Some rel) = Ret b1 /\
    file_list_dir_in_scope (Some set) (Some rel) = Ret b2 /\
    let listed := sl_items raw in
    (b1 = true <-> [] ∈ listed \/ exists e, e ∈ listed /\ (e = rel \/ above e rel \/ above rel e)) /\
    (b2 = true <-> [] ∈ listed \/ exists e, e ∈ listed /\ (e = rel \/ above e rel)).
Proof.
  unfold string_list_to_set in Hset. destruct (malloc_ok sizeof_FileListSet); [|done].
  destruct (path_index_build_spec (sl_items raw) Hn Hheap) as (ix&E&Hix). cbn [check mbind outcome_bind] in Hset.
  rewrite E in Hset. injection Hset as <-.
  apply (scope_exact (MkFileList (sl_items raw) ix _) rel); [|done]. simpl.
  apply eq_true_iff_eq. rewrite existsb_exists, bool_decide_eq_true. setoid_rewrite bool_decide_eq_true.
  setoid_rewrite <- list_elem_of_In. naive_solver.
Qed.


(** ** Normalization *)

(** Components joined with slashes, and the normal form of a path: its
    components without the empty ones and [.]. *)
Fixpoint join (pre : list byte) (segs : list (list byte)) : list byte :=
  match segs with
  | [] => pre
  | s :: segs => join (if bool_decide (pre = []) then s else pre ++ "/"%byte :: s) segs
  end.
Definition components (s : list byte) : list (list byte) := filter (fun t => t <> cs ".") (tokens s).
Definition normal_form (s : list byte) : list byte := join [] (components s).

Lemma span_not_slash s :
  let '(seg, more) := span not_slash s in
  s = seg ++ more /\ "/"%byte ∉ seg /\ (more = [] \/ exists t, more = "/"%byte :: t).
Proof.
  induction s as [|c s IH]; simpl; [set_solver|]. unfold not_slash at 1. case_bool_decide as E; simpl.
  - subst c. split_and!; [done|set_solver|eauto].
  - destruct (span not_slash s) as [seg more]. destruct IH as (->&Hs&Hm). split_and!; [done|set_solver|done].
Qed.

Definition kept (seg : list byte) : list (list byte) :=
  if bool_decide (seg = [] \/ seg = cs ".") then [] else [seg].

Lemma components_step seg more :
  "/"%byte ∉ seg ->
  components (seg ++ "/"%byte :: more) = kept seg ++ components more /\ components seg = kept seg.
Proof.
  intros Hs. unfold components, tokens, kept. change "/"%byte with Paths.slash. rewrite split_slash_app.
  rewrite split_slash_none by done. cbn [app]. rewrite filter_cons.
  assert (Hone : filter (fun t : list byte => t <> cs ".") (filter (fun t : list byte => t <> []) [seg]) = kept seg).
  { unfold kept. rewrite filter_cons, filter_nil. destruct (decide (seg <> [])) as [E|E]; simpl.
    - rewrite filter_cons, filter_nil. destruct (decide (seg <> cs ".")) as [E1|E1]; case_bool_decide; naive_solver.
    - rewrite filter_nil. case_bool_decide; naive_solver. }
  unfold kept in *. rewrite <- Hone. rewrite filter_cons, !filter_nil.
  destruct (decide (seg <> [])); simpl; [|done]. rewrite !filter_cons, filter_nil.
  by destruct (decide (seg <> cs ".")).
Qed.

Lemma c_str_app s t : Byte.x00 ∉ s -> c_str (s ++ Byte.x00 :: t) = s.
Proof.
  induction s as [|c s IH]; intros Hs; [done|]. cbn [app c_str]. rewrite bool_decide_eq_false_2 by set_solver.
  f_equal. apply IH. set_solver.
Qed.

(** The state of the in-place rebuild: the bytes before [out_len] are the result
    so far, those from [part] on are not yet read. *)
Record rebuilt (dup : list byte) (part out_len : Z) (acc s post : list byte) : Prop := {
  rb_out : 0 <= out_len <= part;
  rb_gap : 0 < out_len -> out_len < part;
  rb_acc : take (Z.to_nat out_len) dup = acc;
  rb_len : zlen acc = out_len;
  rb_rest : drop (Z.to_nat part) dup = s ++ Byte.x00 :: post;
  rb_part : part <= zlen dup;
}.

Lemma put_at_spec buf off bs :
  0 <= off -> off + zlen bs <= zlen buf ->
  exists buf', put_at buf off bs = Ret buf' /\ zlen buf' = zlen buf /\
    take (Z.to_nat (off + zlen bs)) buf' = take (Z.to_nat off) buf ++ bs /\
    forall k, off + zlen bs <= k -> drop (Z.to_nat k) buf' = drop (Z.to_nat k) buf.
Proof.
  intros Ho Hb. unfold put_at. rewrite bool_decide_eq_true_2 by done. eexists. split; [done|].
  pose proof (zlen_nonneg bs). unfold zlen in *.
  assert (Hl : length (take (Z.to_nat off) buf ++ bs) = Z.to_nat (off + Z.of_nat (length bs)))
    by (rewrite length_app, length_take; lia).
  split_and!.
  - rewrite !length_app, length_take, length_drop. lia.
  - rewrite app_assoc, <- Hl. by rewrite take_app_length.
  - intros k Hk. rewrite app_assoc, drop_app_ge by lia. rewrite Hl, drop_drop. f_equal. lia.
Qed.

(** Moving one component down. *)
Lemma rebuilt_move dup part out_len acc seg rest post :
  rebuilt dup part out_len acc (seg ++ rest) post -> seg <> [] ->
  exists dup' acc', ('(dup, out_len) ← (if out_len >? 0 then dup ← st dup out_len "/"%byte; Ret (dup, out_len + 1)
                                  else Ret (dup, out_len));
                bytes ← rd dup part (zlen seg);
                dup ← put_at dup out_len bytes;
                Ret (dup, out_len + zlen seg))
               = Ret (dup', zlen acc') /\
    acc' = join acc [seg] /\ zlen dup' = zlen dup /\ take (Z.to_nat (zlen acc')) dup' = acc' /\ acc' <> [] /\
    drop (Z.to_nat (part + zlen seg)) dup' = rest ++ Byte.x00 :: post /\ zlen acc' <= part + zlen seg < zlen dup.
Proof.
  intros [Hout Hgap Hacc Hlen Hrest Hpart] Hseg. pose proof (zlen_nonneg seg).
  assert (Hsz : zlen dup = part + (zlen seg + zlen rest + 1 + zlen post)).
  { assert (E : zlen (drop (Z.to_nat part) dup) = zlen ((seg ++ rest) ++ Byte.x00 :: post)) by (by rewrite Hrest).
    rewrite !zlen_app in E. unfold zlen in *. rewrite length_drop in E. simpl in E. lia. }
  pose proof (zlen_nonneg rest). pose proof (zlen_nonneg post).
  assert (Hread : forall d, zlen d = zlen dup -> drop (Z.to_nat part) d = drop (Z.to_nat part) dup ->
    rd d part (zlen seg) = Ret seg).
  { intros d Hd E. rewrite rd_ret by lia. rewrite E, Hrest, <- app_assoc. unfold zlen. rewrite Nat2Z.id.
    by rewrite take_app_length. }
  assert (Hdrop : drop (Z.to_nat (part + zlen seg)) dup = rest ++ Byte.x00 :: post).
  { replace (Z.to_nat (part + zlen seg)) with (Z.to_nat part + length seg)%nat
      by (unfold zlen; lia). rewrite <- drop_drop, Hrest, <- app_assoc. by rewrite drop_app_length. }
  cbn [join]. destruct (Z.gtb_spec out_len 0) as [Hpos|Hzero].
  - specialize (Hgap Hpos). rewrite st_ret by lia. simpl mbind. set (d1 := <[Z.to_nat out_len := "/"%byte]> dup).
    assert (Hz1 : zlen d1 = zlen dup) by apply zlen_insert.
    assert (Hd1 : forall k, out_len < k -> drop (Z.to_nat k) d1 = drop (Z.to_nat k) dup)
      by (intros k Hk; apply drop_insert_lt; lia).
    rewrite Hread by (done || by apply Hd1). simpl mbind.
    destruct (put_at_spec d1 (out_len + 1) seg) as (d2&->&Hz2&Ht2&Hd2); [lia|lia|]. simpl mbind.
    assert (Ht1 : take (Z.to_nat (out_len + 1)) d1 = acc ++ ["/"%byte]).
    { replace (Z.to_nat (out_len + 1)) with (S (Z.to_nat out_len)) by lia.
      rewrite (take_S_r _ _ "/"%byte) by (apply list_lookup_insert_eq; unfold zlen in *; lia).
      f_equal. subst d1. rewrite take_insert_ge by lia. done. }
    assert (acc <> []) by (intros ->; unfold zlen in Hlen; simpl in Hlen; lia).
    rewrite bool_decide_eq_false_2 by done. exists d2, (acc ++ "/"%byte :: seg).
    assert (Hzacc : zlen (acc ++ "/"%byte :: seg) = out_len + 1 + zlen seg)
      by (rewrite zlen_app; unfold zlen in *; simpl; lia).
    rewrite Hzacc. split_and!; [done|done|lia| |by destruct acc| |lia|lia].
    + rewrite Ht2, Ht1. by rewrite <- app_assoc.
    + rewrite Hd2, Hd1 by lia. exact Hdrop.
  - assert (out_len = 0) as -> by lia. simpl mbind. rewrite Hread by done. simpl mbind.
    destruct (put_at_spec dup 0 seg) as (d2&->&Hz2&Ht2&Hd2); [lia|lia|]. simpl mbind.
    assert (acc = []) as -> by (destruct acc; [done|unfold zlen in Hlen; simpl in Hlen; lia]).
    rewrite bool_decide_eq_true_2 by done. exists d2, seg. split_and!; [done|done|lia| |done| |lia|lia].
    + simpl in Ht2. exact Ht2.
    + rewrite Hd2 by lia. exact Hdrop.
Qed.

Lemma join_app acc k1 k2 : join acc (k1 ++ k2) = join (join acc k1) k2.
Proof. revert acc. induction k1 as [|x k1 IH]; intros acc; simpl; [done|]. apply IH. Qed.

Lemma dotdot_step seg more :
  "/"%byte ∉ seg ->
  (cs ".." ∈ tokens (seg ++ "/"%byte :: more) <-> seg = cs ".." \/ cs ".." ∈ tokens more) /\
  (cs ".." ∈ tokens seg <-> seg = cs "..").
Proof.
  intros Hs. unfold tokens. change "/"%byte with Paths.slash. rewrite split_slash_app, split_slash_none by done.
  cbn [app]. setoid_rewrite list_elem_of_filter. setoid_rewrite elem_of_cons. setoid_rewrite elem_of_nil. naive_solver.
Qed.

(** What the loop leaves: the joined components at the front of the block. *)
Definition norm_result (dup acc s : list byte) (res : outcome (list byte * Z)) : Prop :=
  if bool_decide (cs ".." ∈ tokens s) then res = Fail
  else exists dup', res = Ret (dup', zlen (join acc (components s))) /\ zlen dup' = zlen dup /\
    take (Z.to_nat (zlen (join acc (components s)))) dup' = join acc (components s) /\
    zlen (join acc (components s)) < zlen dup.

(** The state after a component that ends at [pos]: the rest starts with [more]. *)
Definition after_seg (dup d : list byte) (pos : Z) (a more post : list byte) : Prop :=
  zlen d = zlen dup /\ take (Z.to_nat (zlen a)) d = a /\ zlen a <= pos < zlen dup /\
  drop (Z.to_nat pos) d = more ++ Byte.x00 :: post.

Lemma after_seg_skip dup part out_len acc seg more post :
  rebuilt dup part out_len acc (seg ++ more) post -> after_seg dup dup (part + zlen seg) acc more post /\ zlen acc = out_len.
Proof.
  intros [Hout Hgap Hacc Hlen Hrest Hpart]. pose proof (zlen_nonneg seg). pose proof (zlen_nonneg more). pose proof (zlen_nonneg post).
  assert (Hz : zlen (drop (Z.to_nat part) dup) = zlen seg + zlen more + 1 + zlen post).
  { rewrite Hrest, !zlen_app. unfold zlen. simpl. lia. }
  split; [|done]. split_and!; [done|by rewrite Hlen|lia|unfold zlen in *; rewrite length_drop in Hz; lia|].
  replace (Z.to_nat (part + zlen seg)) with (Z.to_nat part + length seg)%nat by (unfold zlen; lia).
  by rewrite <- drop_drop, Hrest, <- app_assoc, drop_app_length.
Qed.

Lemma after_seg_slash dup d pos a more post :
  after_seg dup d pos a ("/"%byte :: more) post -> rebuilt d (pos + 1) (zlen a) a more post.
Proof.
  intros (Hd&Ht&Hp&Hr). pose proof (zlen_nonneg a). split; [lia|lia|done|done| |lia].
  replace (Z.to_nat (pos + 1)) with (Z.to_nat pos + 1)%nat by lia. by rewrite <- drop_drop, Hr.
Qed.

(** The step to the next component, given the claim for the rest. *)
Lemma norm_next fuel dup d acc a seg more post pos :
  (forall dup part out_len acc s, rebuilt dup part out_len acc s post -> Byte.x00 ∉ s -> (length s < fuel)%nat ->
     norm_result dup acc s (norm_loop fuel dup part out_len)) ->
  "/"%byte ∉ seg -> Byte.x00 ∉ more -> (length more <= fuel)%nat -> seg <> cs ".." ->
  (more = [] \/ exists t, more = "/"%byte :: t) ->
  after_seg dup d pos a more post -> a = join acc (kept seg) ->
  norm_result dup acc (seg ++ more) (match more with [] => Ret (d, zlen a) | _ => norm_loop fuel d (pos + 1) (zlen a) end).
Proof.
  intros IH Hseg Hn Hf Hdd Hmore Ha ->. unfold norm_result. destruct Hmore as [->|[t ->]].
  - rewrite app_nil_r. destruct (components_step seg [] Hseg) as [_ ->]. destruct (dotdot_step seg [] Hseg) as [_ Hdot].
    rewrite bool_decide_eq_false_2 by (by rewrite Hdot). destruct Ha as (Hd&Ht&Hp&_). exists d. split_and!; [done..|lia].
  - destruct (components_step seg t Hseg) as [-> _]. destruct (dotdot_step seg t Hseg) as [Hdot _].
    apply after_seg_slash in Ha as Hr. specialize (IH _ _ _ _ t Hr ltac:(set_solver) ltac:(simpl in Hf; lia)).
    unfold norm_result in IH. rewrite join_app. destruct Ha as (Hd&_).
    destruct (decide (cs ".." ∈ tokens t)) as [E|E].
    + rewrite bool_decide_eq_true_2 in IH by done. rewrite bool_decide_eq_true_2 by naive_solver. exact IH.
    + rewrite bool_decide_eq_false_2 in IH by done. rewrite bool_decide_eq_false_2 by naive_solver.
      rewrite <- Hd. exact IH.
Qed.

Lemma norm_loop_spec fuel dup part out_len acc s post :
  rebuilt dup part out_len acc s post -> Byte.x00 ∉ s -> (length s < fuel)%nat ->
  norm_result dup acc s (norm_loop fuel dup part out_len).
Proof.
  revert dup part out_len acc s. induction fuel as [|fuel IH]; intros dup part out_len acc s Hr Hn Hf; [lia|].
  cbn [norm_loop]. pose proof (rb_rest _ _ _ _ _ _ Hr) as Hrest. pose proof (rb_part _ _ _ _ _ _ Hr) as Hpart.
  pose proof (rb_out _ _ _ _ _ _ Hr) as Hout.
  rewrite rd_ret by lia. rewrite take_ge by (rewrite length_drop; unfold zlen; lia). simpl mbind.
  rewrite Hrest, c_str_app by done.
  pose proof (span_not_slash s) as Hspan. destruct (span not_slash s) as [seg more]. destruct Hspan as (->&Hseg&Hmore).
  rewrite length_app in Hf. assert (Hnm : Byte.x00 ∉ more) by set_solver.
  destruct (after_seg_skip _ _ _ _ _ _ _ Hr) as [Hskip Hlen].
  assert (Hgo : forall d a, after_seg dup d (part + zlen seg) a more post -> a = join acc (kept seg) -> seg <> cs ".." ->
    norm_result dup acc (seg ++ more)
      (match more with [] => Ret (d, zlen a) | _ => norm_loop fuel d (part + zlen seg + 1) (zlen a) end)).
  { intros d a Ha Eq Hdd. by apply (norm_next fuel dup d acc a seg more post (part + zlen seg)); try done; try lia. }
  destruct (bool_decide_reflect (seg = cs ".")) as [Hdot|Hdot].
  { rewrite <- Hlen. apply Hgo; [done| |by rewrite Hdot]. unfold kept. by rewrite bool_decide_eq_true_2 by naive_solver. }
  destruct (bool_decide_reflect (seg = cs "..")) as [Hdd|Hdd].
  { unfold norm_result. rewrite bool_decide_eq_true_2; [done|].
    destruct Hmore as [->|[t ->]]; [rewrite app_nil_r; by apply (dotdot_step seg [] Hseg)|].
    apply (dotdot_step seg t Hseg). by left. }
  destruct (Z.gtb_spec (zlen seg) 0) as [Hpos|Hpos].
  - assert (Hne : seg <> []) by (intros ->; done).
    destruct (rebuilt_move _ _ _ _ _ _ _ Hr Hne) as (d&a&E&Ea&Hz&Ht&_&Hdr&Hb).
    assert (Hk : kept seg = [seg]) by (unfold kept; rewrite bool_decide_eq_false_2 by naive_solver; done).
    rewrite <- Hk in Ea. specialize (Hgo d a ltac:(split_and!; [done|done|lia|lia|done]) Ea Hdd).
    revert E. destruct (if out_len >? 0 then _ else _) as [[d1 o1]| |]; simpl mbind; [|done..].
    destruct (rd d1 part (zlen seg)) as [bs| |]; simpl mbind; [|done..].
    destruct (put_at d1 o1 bs) as [d2| |]; simpl mbind; [|done..].
    intros [= -> ->]. exact Hgo.
  - assert (seg = []) as -> by (destruct seg; [done|unfold zlen in Hpos; simpl in Hpos; lia]).
    rewrite <- Hlen. by apply Hgo.
Qed.

(** Components come from the path: no slash inside, no byte invented. *)
Lemma split_slash_sub s cur t x : t ∈ split_slash s cur -> x ∈ t -> x ∈ cur \/ (x ∈ s /\ x <> "/"%byte).
Proof.
  revert cur. induction s as [|c s IH]; intros cur; simpl.
  - intros ->%list_elem_of_singleton. auto.
  - case_bool_decide as E.
    + rewrite elem_of_cons. intros [->|Ht] Hx; [auto|]. destruct (IH _ Ht Hx) as [?%elem_of_nil|[? ?]]; [done|set_solver].
    + intros Ht Hx. destruct (IH _ Ht Hx) as [Hc|[? ?]]; [|set_solver].
      apply elem_of_app in Hc as [?|Hc]; [auto|]. apply list_elem_of_singleton in Hc as ->. right. set_solver.
Qed.

Lemma components_sub s t x : t ∈ components s -> x ∈ t -> x ∈ s /\ x <> "/"%byte.
Proof.
  unfold components, tokens. intros (_&(_&Ht)%list_elem_of_filter)%list_elem_of_filter Hx.
  by destruct (split_slash_sub _ _ _ _ Ht Hx) as [?%elem_of_nil|].
Qed.

Lemma join_sub pre segs x : x ∈ join pre segs -> x ∈ pre \/ x = "/"%byte \/ exists t, t ∈ segs /\ x ∈ t.
Proof.
  revert pre. induction segs as [|s segs IH]; intros pre; simpl; [auto|]. intros [Hx|[Hx|(t&?&?)]]%IH; [|auto|].
  - case_bool_decide; [subst; right; right; exists s; set_solver|]. set_solver.
  - right. right. exists t. set_solver.
Qed.

Lemma tokens_join pre segs :
  pre <> [] -> Forall (fun t => t <> [] /\ "/"%byte ∉ t) segs -> tokens (join pre segs) = tokens pre ++ segs.
Proof.
  intros Hpre Hall. revert pre Hpre. induction Hall as [|t segs [Hne Ht] _ IH]; intros pre Hpre; simpl; [by rewrite app_nil_r|].
  rewrite bool_decide_eq_false_2 by done. rewrite IH by (by destruct pre).
  unfold tokens at 1. change "/"%byte with Paths.slash. rewrite split_slash_app, (split_slash_none t []) by done. rewrite filter_app.
  cbn [app]. rewrite filter_cons, filter_nil. destruct (decide (t <> [])); [|done]. by rewrite <- app_assoc.
Qed.

Lemma normal_form_tokens s : tokens (normal_form s) = components s.
Proof.
  unfold normal_form.
  assert (Hall : Forall (fun t => t <> [] /\ "/"%byte ∉ t) (components s)).
  { apply Forall_forall. intros t Ht. split.
    - unfold components, tokens in Ht. by apply list_elem_of_filter in Ht as (_&(?&_)%list_elem_of_filter).
    - intros Hx. by destruct (components_sub s t _ Ht Hx). }
  destruct (components s) as [|t segs]; [done|]. apply Forall_cons in Hall as [[Hne Ht] Hall].
  cbn [join]. rewrite bool_decide_eq_true_2 by done. rewrite tokens_join by done.
  unfold tokens. rewrite split_slash_none by done. cbn [app]. rewrite filter_cons, filter_nil.
  by destruct (decide (t <> [])).
Qed.

Section Normalize.
Context `{Heap}.

Lemma string_list_add_ok l text :
  zlen (sl_items l) <= sl_capacity l < 2 ^ 30 -> heap_serves (2 ^ 40) -> zlen text < 2 ^ 39 ->
  exists l', string_list_add l text = Ret l' /\ sl_items l' = sl_items l ++ [text] /\
    zlen (sl_items l') <= sl_capacity l' <= Z.max 16 (2 * sl_capacity l).
Proof.
  intros Hl Hh Ht. pose proof (zlen_nonneg (sl_items l)). pose proof (zlen_nonneg text). unfold string_list_add.
  change (INT_MAX / 2) with 1073741823.
  assert (Hdup : str_dup (Some text) = Ret text).
  { unfold str_dup. simpl. by rewrite (heap_serves_malloc _ _ Hh) by lia. }
  destruct (Z.eqb_spec (zlen (sl_items l)) (sl_capacity l)).
  - destruct (Z.gtb_spec (sl_capacity l) 1073741823); [lia|]. cbn [negb check mbind outcome_bind].
    rewrite (heap_serves_malloc _ _ Hh) by (destruct (Z.gtb_spec (sl_capacity l) 0); lia). cbn [check mbind outcome_bind].
    rewrite Hdup. cbn [mbind outcome_bind]. eexists. split; [done|]. simpl. rewrite zlen_app. change (zlen [text]) with 1.
    split; [done|]. destruct (Z.gtb_spec (sl_capacity l) 0); lia.
  - cbn [mbind outcome_bind]. rewrite Hdup. cbn [mbind outcome_bind]. eexists. split; [done|]. simpl.
    rewrite zlen_app. change (zlen [text]) with 1. split; [done|lia].
Qed.

Lemma take_trim raw : take (trim_newlines raw (length raw)) raw = [] <-> trim_newlines raw (length raw) = 0%nat.
Proof.
  split; [|by intros ->]. intros E%(f_equal length). rewrite length_take in E. simpl in E.
  pose proof (trim_newlines_le raw (length raw)). lia.
Qed.

Lemma c_str_terminated d r :
  take (Z.to_nat (zlen r)) d = r -> zlen r < zlen d -> Byte.x00 ∉ r -> c_str (<[Z.to_nat (zlen r) := Byte.x00]> d) = r.
Proof.
  unfold zlen. rewrite Nat2Z.id. intros Ht Hl Hn. rewrite <- (take_drop (length r) d) at 1. rewrite Ht.
  rewrite insert_app_r_alt, Nat.sub_diag by lia.
  destruct (drop (length r) d) as [|c t] eqn:E; [apply (f_equal length) in E; rewrite length_drop in E; simpl in E; lia|].
  simpl. by apply c_str_app.
Qed.

(** The block with the entry [s] and its NUL, before the loop. *)
Lemma rebuilt_start s : rebuilt (s ++ [Byte.x00]) 0 0 [] s [].
Proof. by split; [lia|lia|done|done|done|unfold zlen; lia]. Qed.

(** The part of [normalize_entry] after its checks. *)
Lemma store_normal s out :
  s <> [] -> Byte.x00 ∉ s -> cs ".." ∉ tokens s -> zlen s < 2 ^ 38 ->
  zlen (sl_items out) <= sl_capacity out < 2 ^ 30 -> heap_serves (2 ^ 40) ->
  exists out', ('(dup, out_len) ← norm_loop (S (length s)) (s ++ [Byte.x00]) 0 0;
                dup ← st dup out_len Byte.x00;
                string_list_add out (if out_len =? 0 then [] else c_str dup)) = Ret out' /\
    sl_items out' = sl_items out ++ [normal_form s].
Proof.
  intros Hs Hn Hdd Hz Hout Hheap.
  pose proof (norm_loop_spec (S (length s)) (s ++ [Byte.x00]) 0 0 [] s [] (rebuilt_start s) Hn ltac:(lia)) as Hns.
  unfold norm_result in Hns. rewrite bool_decide_eq_false_2 in Hns by done. fold (normal_form s) in Hns.
  destruct Hns as (d&->&Hzd&Htd&Hb). cbn [mbind outcome_bind]. pose proof (zlen_nonneg (normal_form s)).
  rewrite st_ret by lia. cbn [mbind outcome_bind].
  assert (Hnn : Byte.x00 ∉ normal_form s).
  { intros [?%elem_of_nil|[?|(t&Ht&Hx)]]%join_sub; [done|done|]. by destruct (components_sub s t _ Ht Hx). }
  assert (E : (if zlen (normal_form s) =? 0 then [] else c_str (<[Z.to_nat (zlen (normal_form s)) := Byte.x00]> d)) = normal_form s).
  { rewrite c_str_terminated by (done || lia). destruct (Z.eqb_spec (zlen (normal_form s)) 0) as [E|]; [|done].
    destruct (normal_form s); [done|unfold zlen in E; simpl in E; lia]. }
  rewrite E. destruct (string_list_add_ok out (normal_form s)) as (out'&->&Hi&_); [done|done| |by eauto].
  rewrite zlen_app in Hb. change (zlen [Byte.x00]) with 1 in Hb. lia.
Qed.

(** A listed path is stored in normal form or refused.  For a line of a
    [--files-from] file (without its line ending): a blank one changes nothing;
    one that is absolute, has a NUL or a [..] component is refused; any other
    is stored as its components without [.] and empty ones, joined by single
    slashes, although the rebuild works in place in one buffer. *)
Lemma normalize_entry_exact raw out
    (Hraw : zlen raw < 2 ^ 38) (Hout : zlen (sl_items out) <= sl_capacity out < 2 ^ 30) (Hheap : heap_serves (2 ^ 40)) :
  let s := take (trim_newlines raw (length raw)) raw in
  if bool_decide (s = []) then normalize_entry raw true out = Ret out
  else if bool_decide (head s = Some "/"%byte \/ Byte.x00 ∈ s \/ cs ".." ∈ tokens s) then normalize_entry raw true out = Fail
  else exists out', normalize_entry raw true out = Ret out' /\ sl_items out' = sl_items out ++ [normal_form s] /\
    tokens (normal_form s) = components s.
Proof.
  intros s. unfold normalize_entry. pose proof (take_trim raw) as Htt. fold s in Htt.
  set (len := trim_newlines raw (length raw)) in *.
  assert (Hlen : (len <= length raw)%nat) by apply trim_newlines_le.
  assert (Hls : length s = len) by (unfold s; rewrite length_take; lia).
  destruct (Nat.eqb_spec len 0) as [E0|E0]; [by rewrite bool_decide_eq_true_2 by (by apply Htt)|].
  rewrite (bool_decide_eq_false_2 (s = [])) by (by rewrite Htt).
  assert (Hhd : char_is raw 0 "/"%byte = bool_decide (head s = Some "/"%byte)).
  { unfold char_is, s. apply bool_decide_ext. destruct raw as [|c raw]; [simpl in Hlen; lia|]. destruct len; done. }
  rewrite Hhd. fold s.
  destruct (bool_decide_reflect (head s = Some "/"%byte)) as [H1|H1]; [by rewrite bool_decide_eq_true_2 by naive_solver|].
  destruct (bool_decide_reflect (Byte.x00 ∈ s)) as [H2|H2]; [by rewrite bool_decide_eq_true_2 by naive_solver|].
  cbn [negb check mbind outcome_bind]. rewrite (heap_serves_malloc _ _ Hheap) by (unfold zlen in *; lia).
  cbn [check mbind outcome_bind]. rewrite <- Hls.
  destruct (decide (cs ".." ∈ tokens s)) as [H3|H3].
  - rewrite bool_decide_eq_true_2 by naive_solver.
    pose proof (norm_loop_spec (S (length s)) (s ++ [Byte.x00]) 0 0 [] s [] (rebuilt_start s) H2 ltac:(lia)) as Hns.
    unfold norm_result in Hns. rewrite bool_decide_eq_true_2 in Hns by done. by rewrite Hns.
  - rewrite bool_decide_eq_false_2 by naive_solver.
    destruct (store_normal s out) as (out'&E&Hi); [by rewrite Htt|done|done|unfold zlen in *; lia|done|done|].
    exists out'. split_and!; [exact E|done|apply normal_form_tokens].
Qed.
End Normalize.

