(* ===== verification/Transport.v ===== *)
(** The transport layer of src/shared/protocol.c: the plain and TLS operations,
    and the two loops that move an exact number of bytes through them with
    [poll], retries and deadlines.

    The kernel, OpenSSL and the clock are the environment.  What they answer is
    a schedule: one [io_event] per round of a loop, with the result of [poll]
    and the raw result of the system call.  A schedule is finite; past its end
    [poll] reports a timeout.  The bytes the peer has sent are the input of
    the session. *)

From S2P Require Import Prelude Alloc.

(** The answer of [poll] to one wait. *)
Inductive poll_result := PollTimeout | PollIntr | PollFail | PollErr | PollReady.

(** [SSL_get_error] *)
Inductive ssl_error := SSL_ERROR_WANT_WRITE | SSL_ERROR_WANT_READ | SSL_ERROR_SYSCALL | SSL_ERROR_OTHER.

Record io_event := MkEvent {
  ev_pending : bool;       (** [SSL_pending] is positive *)
  ev_poll : poll_result;
  ev_ret : Z;              (** the return value of the call; a count is at most the size asked for *)
  ev_err : ssl_error;      (** [SSL_get_error] when the TLS call failed *)
  ev_eintr : bool;         (** [errno] is [EINTR] *)
}.

(** protocol.h [PROTOCOL_IO_RETRY], [PROTOCOL_IO_CLOSED], [PROTOCOL_IO_ERROR] *)
Definition PROTOCOL_IO_RETRY : Z := -1.
Definition PROTOCOL_IO_CLOSED : Z := -2.
Definition PROTOCOL_IO_ERROR : Z := -3.

(** protocol.c [plain_io_send], [plain_io_recv]: the result of [write] or [read]. *)
Definition plain_io_send (e : io_event) (written : Z) : Z :=
  if written <? 0 then if ev_eintr e then PROTOCOL_IO_RETRY else PROTOCOL_IO_ERROR
  else if written =? 0 then PROTOCOL_IO_ERROR
  else written.
Definition plain_io_recv (e : io_event) (received : Z) : Z :=
  if received <? 0 then if ev_eintr e then PROTOCOL_IO_RETRY else PROTOCOL_IO_ERROR
  else if received =? 0 then PROTOCOL_IO_CLOSED
  else received.

(** protocol.c [tls_io_send], [tls_io_recv]: the result of [SSL_write] or [SSL_read]. *)
Definition tls_io_send (e : io_event) (written : Z) : Z :=
  if written <=? 0 then
    match ev_err e with
    | SSL_ERROR_WANT_WRITE | SSL_ERROR_WANT_READ => PROTOCOL_IO_RETRY
    | SSL_ERROR_SYSCALL => if (written <? 0) && ev_eintr e then PROTOCOL_IO_RETRY else PROTOCOL_IO_ERROR
    | SSL_ERROR_OTHER => PROTOCOL_IO_ERROR
    end
  else written.
Definition tls_io_recv (e : io_event) (received : Z) : Z :=
  if received <=? 0 then
    match ev_err e with
    | SSL_ERROR_WANT_WRITE | SSL_ERROR_WANT_READ => PROTOCOL_IO_RETRY
    | _ =>
        if (received <? 0) && match ev_err e with SSL_ERROR_SYSCALL => true | _ => false end && ev_eintr e
        then PROTOCOL_IO_RETRY
        else if received =? 0 then PROTOCOL_IO_CLOSED else PROTOCOL_IO_ERROR
    end
  else received.

(** The size passed to the call: [SSL_write] and [SSL_read] take an [int]. *)
Definition call_size (tls : bool) (size : Z) : Z :=
  if tls then if size >? INT_MAX then INT_MAX else size else size.

(** A count the environment reports is at most what was asked for and, for a
    read, at most what the peer has sent; with nothing sent it is an end of file. *)
Definition clamp_count (ret limit : Z) : Z := if ret <=? 0 then ret else Z.min ret limit.

Definition io_send (tls : bool) (e : io_event) (size : Z) : Z :=
  let n := clamp_count (ev_ret e) (call_size tls size) in
  if tls then tls_io_send e n else plain_io_send e n.
Definition io_recv (tls : bool) (e : io_event) (size avail : Z) : Z :=
  let n := clamp_count (ev_ret e) (Z.min (call_size tls size) avail) in
  if tls then tls_io_recv e n else plain_io_recv e n.

(** protocol.c [plain_io_has_pending], [tls_io_has_pending] *)
Definition has_pending (tls : bool) (e : io_event) : bool := tls && ev_pending e.

(** What a session sees of its connection. *)
Record net := MkNet {
  n_tls : bool;               (** which of the two operation tables is selected *)
  n_bwlimit : Z;
  n_in : list byte;           (** bytes of the peer not yet read *)
  n_rx : list io_event;       (** the schedule of the reads *)
  n_out : list byte;          (** bytes handed to the transport *)
  n_tx : list io_event;       (** the schedule of the writes *)
  n_read : Z;                 (** [io_bytes_read] *)
  n_written : Z;              (** [io_bytes_written] *)
}.

(** The loop of [protocol_send_n_data], one round per event: what is left of
    the schedule, the bytes written and the result. *)
Fixpoint send_loop (tls : bool) (bwlimit : Z) (evs : list io_event) (rest : list byte)
  : list io_event * list byte * bool :=
  match rest with
  | [] => (evs, [], true)
  | _ =>
      match evs with
      | [] => ([], [], false)
      | e :: evs =>
          let chunk := if (bwlimit >? 0) && (zlen rest >? 65536) then 65536 else zlen rest in
          match ev_poll e with
          | PollTimeout | PollFail => (evs, [], false)
          | PollIntr => send_loop tls bwlimit evs rest
          | PollErr => (evs, [], false)
          | PollReady =>
              let bytes_send := io_send tls e chunk in
              if bytes_send =? PROTOCOL_IO_RETRY then send_loop tls bwlimit evs rest
              else if bytes_send <=? 0 then (evs, [], false)
              else
                let n := Z.to_nat bytes_send in
                let '(evs, out, ok) := send_loop tls bwlimit evs (drop n rest) in
                (evs, take n rest ++ out, ok)
          end
      end
  end.

(** protocol.c [protocol_send_n_data], of a non-NULL buffer *)
Definition protocol_send_n_data (s : net) (d : list byte) : net * bool :=
  let '(tx, out, ok) := send_loop (n_tls s) (n_bwlimit s) (n_tx s) d in
  (MkNet (n_tls s) (n_bwlimit s) (n_in s) (n_rx s) (n_out s ++ out) tx (n_read s)
     (if ok then u64 (n_written s + zlen d) else n_written s), ok).

(** The loop of [protocol_receive_n_data_until]: what is left of the schedule
    and of the input, and the bytes received, [None] on failure. *)
Fixpoint recv_loop (tls : bool) (evs : list io_event) (input : list byte) (data_size : Z) (got : list byte)
  : list io_event * list byte * option (list byte) :=
  if zlen got >=? data_size then (evs, input, Some got)
  else
    match evs with
    | [] => ([], input, None)
    | e :: evs =>
        match (if has_pending tls e then PollReady else ev_poll e) with
        | PollTimeout | PollFail | PollErr => (evs, input, None)
        | PollIntr => recv_loop tls evs input data_size got
        | PollReady =>
            let bytes_received := io_recv tls e (data_size - zlen got) (zlen input) in
            if bytes_received =? PROTOCOL_IO_RETRY then recv_loop tls evs input data_size got
            else if bytes_received =? PROTOCOL_IO_CLOSED then (evs, input, None)
            else if bytes_received <=? 0 then (evs, input, None)
            else
              let n := Z.to_nat bytes_received in
              recv_loop tls evs (drop n input) data_size (got ++ take n input)
        end
    end.

(** protocol.c [protocol_receive_n_data_until]; the deadline is part of the
    answers of [poll], so [protocol_receive_n_data] and the timed variant are
    the same function of a schedule. *)
Definition protocol_receive_n_data (s : net) (data_size : Z) : net * option (list byte) :=
  let '(rx, input, r) := recv_loop (n_tls s) (n_rx s) (n_in s) data_size [] in
  (MkNet (n_tls s) (n_bwlimit s) input rx (n_out s) (n_tx s)
     (if r then u64 (n_read s + data_size) else n_read s) (n_written s), r).

(** ** Counts *)

Lemma clamp_count_pos ret limit : 0 < clamp_count ret limit -> clamp_count ret limit <= limit /\ 0 < ret.
Proof. unfold clamp_count. destruct (Z.leb_spec ret 0); lia. Qed.

Lemma io_send_pos tls e size : 0 < io_send tls e size -> io_send tls e size <= size.
Proof.
  unfold io_send, tls_io_send, plain_io_send, PROTOCOL_IO_RETRY, PROTOCOL_IO_ERROR.
  assert (Hc : call_size tls size <= size).
  { unfold call_size. destruct tls; [|lia]. destruct (Z.gtb_spec size INT_MAX); lia. }
  pose proof (clamp_count_pos (ev_ret e) (call_size tls size)) as Hp. revert Hp.
  generalize (clamp_count (ev_ret e) (call_size tls size)) as n. intros n Hp.
  destruct tls.
  - destruct (Z.leb_spec n 0); [|intros; lia]. destruct (ev_err e); try lia. destruct (_ && _); lia.
  - destruct (Z.ltb_spec n 0); [destruct (ev_eintr e); lia|]. destruct (Z.eqb_spec n 0); lia.
Qed.

Lemma io_recv_pos tls e size avail :
  0 < io_recv tls e size avail -> io_recv tls e size avail <= size /\ io_recv tls e size avail <= avail.
Proof.
  unfold io_recv, tls_io_recv, plain_io_recv, PROTOCOL_IO_RETRY, PROTOCOL_IO_ERROR, PROTOCOL_IO_CLOSED.
  assert (Hc : call_size tls size <= size).
  { unfold call_size. destruct tls; [|lia]. destruct (Z.gtb_spec size INT_MAX); lia. }
  pose proof (clamp_count_pos (ev_ret e) (Z.min (call_size tls size) avail)) as Hp. revert Hp.
  generalize (clamp_count (ev_ret e) (Z.min (call_size tls size) avail)) as n. intros n Hp.
  destruct tls.
  - destruct (Z.leb_spec n 0); [|intros; lia].
    destruct (ev_err e); simpl; repeat case_match; lia.
  - destruct (Z.ltb_spec n 0); [destruct (ev_eintr e); lia|]. destruct (Z.eqb_spec n 0); lia.
Qed.

(** ** The loops *)

Lemma send_loop_spec tls bw evs d :
  let '(_, out, ok) := send_loop tls bw evs d in
  out `prefix_of` d /\ (ok = true <-> out = d).
Proof.
  revert d. induction evs as [|e evs IH]; intros [|c d]; cbn [send_loop]; try done.
  { split; [apply prefix_nil|done]. }
  assert (Hfail : [] `prefix_of` c :: d /\ (false = true <-> [] = c :: d)) by (split; [apply prefix_nil|done]).
  set (rest := c :: d) in *. set (chunk := if _ && _ then _ else _).
  assert (Hch : chunk <= zlen rest) by (subst chunk; destruct (Z.gtb_spec (zlen rest) 65536); destruct (bw >? 0); simpl; lia).
  destruct (ev_poll e); [exact Hfail|apply IH|exact Hfail|exact Hfail|].
  pose proof (io_send_pos tls e chunk) as Hn. revert Hn. generalize (io_send tls e chunk) as n. intros n Hn.
  destruct (n =? PROTOCOL_IO_RETRY); [apply IH|]. destruct (Z.leb_spec n 0); [exact Hfail|].
  specialize (Hn ltac:(lia)). specialize (IH (drop (Z.to_nat n) rest)).
  destruct (send_loop tls bw evs (drop (Z.to_nat n) rest)) as [[evs' out] ok]. destruct IH as [[t Ht] Hok].
  split.
  - exists t. rewrite <- app_assoc, <- Ht. by rewrite take_drop.
  - rewrite Hok. split; [intros ->; apply take_drop|]. intros Heq.
    rewrite <- (take_drop (Z.to_nat n) rest) in Heq at 2. by apply app_inv_head in Heq.
Qed.

Lemma recv_loop_spec tls evs input size got :
  0 <= size -> zlen got <= size ->
  let '(_, input', r) := recv_loop tls evs input size got in
  exists m, input = m ++ input' /\ zlen (got ++ m) <= size /\
    (forall x, r = Some x -> x = got ++ m /\ zlen x = size) /\ (r = None -> zlen (got ++ m) < size).
Proof.
  intros Hs. revert input got. induction evs as [|e evs IH]; intros input got Hg; cbn [recv_loop].
  - destruct (Z.geb_spec (zlen got) size); exists []; rewrite !app_nil_r; simpl; naive_solver lia.
  - destruct (Z.geb_spec (zlen got) size).
    { exists []. rewrite !app_nil_r. simpl. naive_solver lia. }
    assert (Hfail : exists m, input = m ++ input /\ zlen (got ++ m) <= size /\
      (forall x, None = Some x -> x = got ++ m /\ zlen x = size) /\ (@None (list byte) = None -> zlen (got ++ m) < size)).
    { exists []. rewrite !app_nil_r. naive_solver lia. }
    destruct (if has_pending tls e then PollReady else ev_poll e); [exact Hfail|by apply IH|exact Hfail|exact Hfail|].
    pose proof (io_recv_pos tls e (size - zlen got) (zlen input)) as Hn. revert Hn.
    generalize (io_recv tls e (size - zlen got) (zlen input)) as n. intros n Hn.
    destruct (n =? PROTOCOL_IO_RETRY); [by apply IH|]. destruct (n =? PROTOCOL_IO_CLOSED); [exact Hfail|].
    destruct (Z.leb_spec n 0); [exact Hfail|]. destruct Hn as [Hn1 Hn2]; [lia|].
    assert (Ht : zlen (take (Z.to_nat n) input) = n) by (unfold zlen in *; rewrite length_take; lia).
    specialize (IH (drop (Z.to_nat n) input) (got ++ take (Z.to_nat n) input)).
    rewrite zlen_app in IH. specialize (IH ltac:(lia)).
    destruct (recv_loop tls evs _ size _) as [[evs' input'] r]. destruct IH as (m&Hm&H1&H2&H3).
    exists (take (Z.to_nat n) input ++ m). rewrite app_assoc. split_and!; [|done|done|done].
    rewrite <- app_assoc, <- Hm. by rewrite take_drop.
Qed.

(** ** Steady schedules

    A schedule on which the connection stays up: each round is an interruption,
    a retry, or moves at least one byte. *)
Definition rx_poll (tls : bool) (e : io_event) : poll_result := if has_pending tls e then PollReady else ev_poll e.

(** A call that reports no count is a retry, for sends and receives alike. *)
Definition retries (tls : bool) (e : io_event) : bool :=
  if tls then match ev_err e with
              | SSL_ERROR_WANT_WRITE | SSL_ERROR_WANT_READ => true
              | SSL_ERROR_SYSCALL => (ev_ret e <? 0) && ev_eintr e
              | SSL_ERROR_OTHER => false
              end
  else (ev_ret e <? 0) && ev_eintr e.

Definition benign (tls : bool) (p : poll_result) (e : io_event) : bool :=
  match p with
  | PollIntr => true
  | PollReady => (0 <? ev_ret e) || retries tls e
  | _ => false
  end.
Definition moves (p : poll_result) (e : io_event) : bool :=
  match p with PollReady => 0 <? ev_ret e | _ => false end.

(** Rounds of the schedule that move data. *)
Fixpoint rounds (f : io_event -> bool) (evs : list io_event) : Z :=
  match evs with [] => 0 | e :: evs => (if f e then 1 else 0) + rounds f evs end.

Definition steady_rx (s : net) (k : Z) : Prop :=
  forallb (fun e => benign (n_tls s) (rx_poll (n_tls s) e) e) (n_rx s) = true /\
  k <= rounds (fun e => moves (rx_poll (n_tls s) e) e) (n_rx s).
Definition steady_tx (s : net) (k : Z) : Prop :=
  forallb (fun e => benign (n_tls s) (ev_poll e) e) (n_tx s) = true /\
  k <= rounds (fun e => moves (ev_poll e) e) (n_tx s).

Lemma call_size_pos tls size : 0 < size -> 1 <= call_size tls size <= size.
Proof. unfold call_size. destruct tls; [|lia]. destruct (Z.gtb_spec size INT_MAX); unfold INT_MAX in *; lia. Qed.

Lemma io_send_moves tls e size :
  0 < size -> 0 < ev_ret e -> 1 <= io_send tls e size.
Proof.
  intros Hs He. unfold io_send, tls_io_send, plain_io_send, clamp_count. pose proof (call_size_pos tls size Hs).
  destruct (Z.leb_spec (ev_ret e) 0); [lia|]. destruct tls.
  - destruct (Z.leb_spec (Z.min (ev_ret e) (call_size true size)) 0); lia.
  - destruct (Z.ltb_spec (Z.min (ev_ret e) (call_size false size)) 0); [lia|].
    destruct (Z.eqb_spec (Z.min (ev_ret e) (call_size false size)) 0); lia.
Qed.

Lemma io_recv_moves tls e size avail :
  0 < size -> 0 < avail -> 0 < ev_ret e -> 1 <= io_recv tls e size avail.
Proof.
  intros Hs Ha He. unfold io_recv, tls_io_recv, plain_io_recv, clamp_count. pose proof (call_size_pos tls size Hs).
  set (lim := Z.min (call_size tls size) avail). assert (1 <= lim) by lia.
  destruct (Z.leb_spec (ev_ret e) 0); [lia|]. destruct tls.
  - destruct (Z.leb_spec (Z.min (ev_ret e) lim) 0); lia.
  - destruct (Z.ltb_spec (Z.min (ev_ret e) lim) 0); [lia|].
    destruct (Z.eqb_spec (Z.min (ev_ret e) lim) 0); lia.
Qed.

Lemma io_send_retry tls e size :
  ev_ret e <= 0 -> retries tls e = true -> io_send tls e size = PROTOCOL_IO_RETRY.
Proof.
  intros He Hr. unfold io_send, tls_io_send, plain_io_send, clamp_count, retries in *.
  destruct (Z.leb_spec (ev_ret e) 0); [|lia]. destruct tls.
  - destruct (Z.leb_spec (ev_ret e) 0); [|lia]. destruct (ev_err e); try done. by rewrite Hr.
  - apply andb_prop in Hr as [-> ->]. done.
Qed.

Lemma io_recv_retry tls e size avail :
  ev_ret e <= 0 -> retries tls e = true -> io_recv tls e size avail = PROTOCOL_IO_RETRY.
Proof.
  intros He Hr. unfold io_recv, tls_io_recv, plain_io_recv, clamp_count, retries in *.
  destruct (Z.leb_spec (ev_ret e) 0); [|lia]. destruct tls.
  - destruct (Z.leb_spec (ev_ret e) 0); [|lia]. destruct (ev_err e); try done.
    apply andb_prop in Hr as [-> ->]. done.
  - apply andb_prop in Hr as [-> ->]. done.
Qed.

Lemma recv_loop_live tls evs input size got :
  forallb (fun e => benign tls (rx_poll tls e) e) evs = true ->
  zlen got <= size -> size - zlen got <= rounds (fun e => moves (rx_poll tls e) e) evs ->
  size - zlen got <= zlen input ->
  exists evs' m input', recv_loop tls evs input size got = (evs', input', Some (got ++ m)) /\
    input = m ++ input' /\ zlen m = size - zlen got /\
    forallb (fun e => benign tls (rx_poll tls e) e) evs' = true /\
    rounds (fun e => moves (rx_poll tls e) e) evs - zlen m <= rounds (fun e => moves (rx_poll tls e) e) evs'.
Proof.
  revert input got. induction evs as [|e evs IH]; intros input got Hb Hg Hp Hi; cbn [recv_loop].
  - simpl in Hp. destruct (Z.geb_spec (zlen got) size); [|lia]. exists [], [], input.
    rewrite app_nil_r. split_and!; [done|done|unfold zlen in *; simpl; lia|done|unfold zlen; simpl; lia].
  - destruct (Z.geb_spec (zlen got) size).
    { eexists (e :: evs), [], input. rewrite app_nil_r. split_and!; [done|done|unfold zlen in *; simpl; lia|done|].
      unfold zlen; simpl; lia. }
    cbn [forallb rounds] in Hb, Hp |- *. apply andb_prop in Hb as [Hb1 Hb2]. fold (rx_poll tls e).
    destruct (rx_poll tls e) eqn:Epoll; simpl in Hb1; try done; cbn [moves] in *.
    { destruct (IH input got) as (evs'&m&input'&->&H2); [done|done|lia|done|]. eexists _, _, _. split; [done|].
      cbn [moves]. naive_solver lia. }
    destruct (Z.ltb_spec 0 (ev_ret e)) as [He|He]; simpl in Hb1.
    + pose proof (io_recv_moves tls e (size - zlen got) (zlen input)) as Hm.
      pose proof (io_recv_pos tls e (size - zlen got) (zlen input)) as Hn.
      specialize (Hm ltac:(lia) ltac:(lia) He). specialize (Hn ltac:(lia)). revert Hm Hn.
      generalize (io_recv tls e (size - zlen got) (zlen input)) as n. intros n Hm Hn.
      unfold PROTOCOL_IO_RETRY, PROTOCOL_IO_CLOSED.
      destruct (Z.eqb_spec n (-1)); [lia|]. destruct (Z.eqb_spec n (-2)); [lia|]. destruct (Z.leb_spec n 0); [lia|].
      assert (Ht : zlen (take (Z.to_nat n) input) = n) by (unfold zlen in *; rewrite length_take; lia).
      assert (Hd : zlen (drop (Z.to_nat n) input) = zlen input - n) by (unfold zlen in *; rewrite length_drop; lia).
      destruct (IH (drop (Z.to_nat n) input) (got ++ take (Z.to_nat n) input)) as (evs'&m&input'&->&Hin&Hz&Hb'&Hr);
        [done|rewrite ?zlen_app, ?Ht, ?Hd; lia..|].
      exists evs', (take (Z.to_nat n) input ++ m), input'. rewrite !zlen_app in *. rewrite app_assoc.
      split_and!; [done| |lia|done|lia]. rewrite <- app_assoc, <- Hin. by rewrite take_drop.
    + rewrite io_recv_retry by done. rewrite Z.eqb_refl.
      destruct (IH input got) as (evs'&m&input'&->&H2); [done|done|lia|done|]. eexists _, _, _. split; [done|].
      naive_solver lia.
Qed.

Lemma send_loop_live tls bw evs d :
  forallb (fun e => benign tls (ev_poll e) e) evs = true ->
  zlen d <= rounds (fun e => moves (ev_poll e) e) evs ->
  exists evs', send_loop tls bw evs d = (evs', d, true) /\
    forallb (fun e => benign tls (ev_poll e) e) evs' = true /\
    rounds (fun e => moves (ev_poll e) e) evs - zlen d <= rounds (fun e => moves (ev_poll e) e) evs'.
Proof.
  revert d. induction evs as [|e evs IH]; intros [|c d] Hb Hp; cbn [send_loop];
    try (eexists; split_and!; [done|done|unfold zlen; simpl; lia]).
  set (rest := c :: d) in *. assert (Hz : 0 < zlen rest) by (unfold zlen; simpl; lia).
  set (chunk := if _ && _ then _ else _).
  assert (Hch : 0 < chunk <= zlen rest) by (subst chunk; destruct (Z.gtb_spec (zlen rest) 65536); destruct (bw >? 0); simpl; lia).
  cbn [forallb rounds] in Hb, Hp |- *. apply andb_prop in Hb as [Hb1 Hb2].
  destruct (ev_poll e) eqn:Epoll; simpl in Hb1; try done; cbn [moves] in *.
  { destruct (IH rest) as (evs'&->&H2); [done|lia|]. eexists. split; [done|]. naive_solver lia. }
  destruct (Z.ltb_spec 0 (ev_ret e)) as [He|He]; simpl in Hb1.
  - pose proof (io_send_moves tls e chunk ltac:(lia) He) as Hm. pose proof (io_send_pos tls e chunk ltac:(lia)) as Hn.
    revert Hm Hn. generalize (io_send tls e chunk) as n. intros n Hm Hn. unfold PROTOCOL_IO_RETRY.
    destruct (Z.eqb_spec n (-1)); [lia|]. destruct (Z.leb_spec n 0); [lia|].
    assert (Hd : zlen (drop (Z.to_nat n) rest) = zlen rest - n) by (unfold zlen in *; rewrite length_drop; lia).
    destruct (IH (drop (Z.to_nat n) rest)) as (evs'&->&Hb'&Hr); [done|lia|]. rewrite take_drop.
    eexists. split_and!; [done|done|lia].
  - rewrite io_send_retry by done. rewrite Z.eqb_refl.
    destruct (IH rest) as (evs'&->&H2); [done|lia|]. eexists. split; [done|]. naive_solver lia.
Qed.

(** ** The two operations *)

(** Everything but the bytes and the schedule of one direction is kept. *)
Definition after_recv (s s' : net) (m : list byte) : Prop :=
  n_in s = m ++ n_in s' /\ n_out s' = n_out s /\ n_tx s' = n_tx s /\ n_tls s' = n_tls s /\ n_bwlimit s' = n_bwlimit s.
Definition after_send (s s' : net) (m : list byte) : Prop :=
  n_out s' = n_out s ++ m /\ n_in s' = n_in s /\ n_rx s' = n_rx s /\ n_tls s' = n_tls s /\ n_bwlimit s' = n_bwlimit s.

Lemma receive_live s n k :
  0 <= n -> 0 <= k -> steady_rx s (n + k) -> n <= zlen (n_in s) ->
  exists s' m, protocol_receive_n_data s n = (s', Some m) /\ after_recv s s' m /\ zlen m = n /\ steady_rx s' k.
Proof.
  intros Hn Hk [Hb Hp] Hi. unfold protocol_receive_n_data.
  destruct (recv_loop_live (n_tls s) (n_rx s) (n_in s) n []) as (evs&m&input&->&Hin&Hz&Hb'&Hr);
    [done|unfold zlen; simpl; lia|unfold zlen at 1; simpl; lia|unfold zlen at 1; simpl; lia|].
  change (zlen []) with 0 in Hz. eexists _, m. split; [done|]. split_and!; [done..|lia|].
  split; simpl; [done|lia].
Qed.

Lemma send_live s d k :
  0 <= k -> steady_tx s (zlen d + k) ->
  exists s', protocol_send_n_data s d = (s', true) /\ after_send s s' d /\ steady_tx s' k.
Proof.
  intros Hk [Hb Hp]. unfold protocol_send_n_data.
  destruct (send_loop_live (n_tls s) (n_bwlimit s) (n_tx s) d) as (evs&->&Hb'&Hr); [done|lia|].
  eexists. split; [done|]. split_and!; [done..|]. split; simpl; [done|lia].
Qed.

(** Reads are exact.  However the transport splits the data, whatever calls
    are interrupted or retried, and over TLS or plain sockets, a read of
    [size] bytes takes the next bytes of the peer in order and without loss, at
    most [size] of them, exactly [size] when it succeeds; and it succeeds on
    every schedule on which the connection stays up. *)
Lemma receive_exact s size (Hs : 0 <= size) :
  (let '(s', r) := protocol_receive_n_data s size in
   exists m, after_recv s s' m /\ zlen m <= size /\
     match r with Some x => x = m /\ zlen x = size | None => zlen m < size end) /\
  (steady_rx s size -> size <= zlen (n_in s) -> exists s' m, protocol_receive_n_data s size = (s', Some m)).
Proof.
  split.
  - unfold protocol_receive_n_data. pose proof (recv_loop_spec (n_tls s) (n_rx s) (n_in s) size []) as Hl.
    destruct (recv_loop _ _ _ _ _) as [[evs input] r]. simpl in Hl.
    destruct Hl as (m&Hm&Hz&Hsome&Hnone); [done|unfold zlen; simpl; lia|]. exists m. split_and!; [done..|].
    destruct r as [x|]; [|by apply Hnone]. by destruct (Hsome x eq_refl) as [-> ?].
  - intros Hst Hi. replace size with (size + 0) in Hst by lia.
    destruct (receive_live s size 0) as (s'&m&E&_); [done|lia|done..|]. eauto.
Qed.

(** Writes are exact.  [protocol_send_n_data] reports success exactly when
    it handed the whole buffer to the transport, in order; on failure it handed
    over a proper prefix; and it succeeds on every schedule on which the
    connection stays up, also when the bandwidth limit cuts the writes. *)
Lemma send_exact s d :
  (let '(s', ok) := protocol_send_n_data s d in
   exists m, after_send s s' m /\ m `prefix_of` d /\ (ok = true <-> m = d)) /\
  (steady_tx s (zlen d) -> exists s', protocol_send_n_data s d = (s', true)).
Proof.
  split.
  - unfold protocol_send_n_data. pose proof (send_loop_spec (n_tls s) (n_bwlimit s) (n_tx s) d) as Hl.
    destruct (send_loop _ _ _ _) as [[evs out] ok]. exists out. by destruct Hl.
  - intros Hst. replace (zlen d) with (zlen d + 0) in Hst by lia.
    destruct (send_live s d 0) as (s'&E&_); [lia|done|]. eauto.
Qed.

(** A read that arrives in two pieces with an interruption between them. *)
Definition demo_net : net :=
  MkNet false 0 (cs "abcdef") [MkEvent false PollReady 2 SSL_ERROR_OTHER false; MkEvent false PollIntr 0 SSL_ERROR_OTHER false;
                               MkEvent false PollReady (-1) SSL_ERROR_OTHER true; MkEvent false PollReady 9 SSL_ERROR_OTHER false] [] [] 0 0.

