(* ===== verification/Session.v ===== *)
(** Sessions of src/shared/protocol.c: the framing of strings, buffers,
    integers and status words over the transport, the rejection detail, the
    connection memory budget and the keepalive wait; and [data_destroy] of
    src/shared/data.c, which returns a charge to the budget. *)

From S2P Require Import Prelude Alloc DataBuf CStr Transport.

Definition MAX_STRING_SIZE : Z := 64 * 1024.
Definition MAX_ERROR_DETAIL_BYTES : Z := 4096.
Definition MAX_DATA_PAYLOAD_SIZE : Z := 256 * 1024 * 1024.
Definition MAX_CONNECTION_MEMORY : Z := 256 * 1024 * 1024.

(** protocol.h [NET_STATUS] *)
Definition STATUS_OK : Z := 0.
Definition STATUS_ERROR : Z := 1.
Definition STATUS_KEEPALIVE : Z := 9.
Definition STATUS_ERROR_DETAIL : Z := 25.
Definition STATUS_STATS : Z := 30.

(** What one session works on.  [w_detail] is the thread's [io_error_detail]
    array of 4097 bytes; [w_abort] and [w_clock] are the answers of the abort
    callback (past the end: not aborted) and of "has the deadline passed" (past
    the end: passed). *)
Record world := MkWorld {
  w_net : net;
  w_sid : nat;               (** the session the functions are called with *)
  w_bound : option nat;      (** the thread's [bound_session] *)
  w_counters : list Z;       (** [total_allocated_bytes], by session *)
  w_detail : list byte;
  w_abort : list bool;
  w_clock : list bool;
}.

(** Functions on a session: the world afterwards, and the result. *)
Definition io (A : Type) : Type := world -> world * outcome A.
Definition io_ret {A} (a : A) : io A := fun w => (w, Ret a).
Definition io_fail {A} : io A := fun w => (w, Fail).
Definition io_bind {A B} (m : io A) (k : A -> io B) : io B := fun w =>
  let '(w, r) := m w in
  match r with Ret a => k a w | Fail => (w, Fail) | Stuck => (w, Stuck) end.
Notation "x <~ m ; k" := (io_bind m (fun x => k)) (at level 20, m at level 100, k at level 200, right associativity) : c_scope.
Notation "m >~ k" := (io_bind m (fun _ => k)) (at level 199, right associativity) : c_scope.

Definition set_net (w : world) (n : net) : world :=
  MkWorld n (w_sid w) (w_bound w) (w_counters w) (w_detail w) (w_abort w) (w_clock w).
Definition set_counter (w : world) (sid : nat) (a : Z) : world :=
  MkWorld (w_net w) (w_sid w) (w_bound w) (<[sid := a]> (w_counters w)) (w_detail w) (w_abort w) (w_clock w).
Definition set_detail (w : world) (d : list byte) : world :=
  MkWorld (w_net w) (w_sid w) (w_bound w) (w_counters w) d (w_abort w) (w_clock w).
Definition counter (w : world) (sid : nat) : Z := default 0 (w_counters w !! sid).

(** [&legacy_io_session] *)
Definition legacy_sid : nat := 0.

Definition io_check (b : bool) : io unit := if b then io_ret tt else io_fail.
Definition io_of {A} (m : outcome A) : io A := fun w => (w, m).
Definition send_bytes (d : list byte) : io unit := fun w =>
  let '(n, ok) := protocol_send_n_data (w_net w) d in (set_net w n, check ok).
Definition recv_bytes (size : Z) : io (list byte) := fun w =>
  let '(n, r) := protocol_receive_n_data (w_net w) size in (set_net w n, of_option r).

(** ** The memory budget *)

(** One round of the compare-and-swap loops of [protocol_reserve_memory] and
    [protocol_release_memory_for_session]: the value to install. *)
Definition reserve_next (allocated charge : Z) : option Z :=
  if (allocated >? MAX_CONNECTION_MEMORY) || (charge >? MAX_CONNECTION_MEMORY - allocated) then None
  else Some (u64 (allocated + charge)).
Definition release_next (allocated charge : Z) : Z :=
  if charge >=? allocated then 0 else allocated - charge.

(** protocol.c [protocol_reserve_memory], with no other thread on the counter *)
Definition protocol_reserve_memory (charge : Z) : io bool := fun w =>
  match reserve_next (counter w (w_sid w)) charge with
  | Some a => (set_counter w (w_sid w) a, Ret true)
  | None => (w, Ret false)
  end.

(** protocol.c [protocol_release_memory_for_session], [protocol_release_memory] *)
Definition protocol_release_memory_for_session (sid : nat) (charge : Z) : io unit := fun w =>
  (set_counter w sid (release_next (counter w sid) charge), Ret tt).
Definition protocol_release_memory (charge : Z) : io unit := fun w =>
  protocol_release_memory_for_session (default legacy_sid (w_bound w)) charge w.

(** data.c [data_destroy] *)
Definition data_destroy (d : option Data) : io unit :=
  match d with
  | None => io_ret tt
  | Some d =>
      if protocol_charge d =? 0 then io_ret tt
      else match owner d with
           | Some sid => protocol_release_memory_for_session sid (protocol_charge d)
           | None => protocol_release_memory (protocol_charge d)
           end
  end.

Section Frames.
Context `{Heap}.

(** protocol.c [protocol_send_str_impl], [protocol_receive_str_impl] (the debug
    log, redacted or not, is not modelled) *)
Definition protocol_send_str (d : option (list byte)) : io unit :=
  match d with
  | None => io_fail
  | Some d => send_bytes (put_le 8 (zlen d)) >~ send_bytes d
  end.
Definition recv_int (wd : nat) : io Z :=
  bs <~ recv_bytes (Z.of_nat wd); io_of (get_le wd bs 0).
Definition protocol_receive_str : io (list byte) :=
  size <~ recv_int 8;
  io_check (negb ((size >? MAX_STRING_SIZE) || (size >? SIZE_MAX - 1))) >~
  io_check (protocol_alloc_for_session (size + 1)) >~
  d <~ recv_bytes size;
  io_check (negb (bool_decide (Byte.x00 ∈ d))) >~
  io_ret d.

(** protocol.c [protocol_send_data] *)
Definition protocol_send_data (d : option Data) : io unit :=
  match d with
  | None => io_fail
  | Some d =>
      io_check (negb (bool_decide (data d = None) && negb (size d =? 0))) >~
      send_bytes (put_le 8 (size d)) >~
      bs <~ io_of (rd (data_buf d) 0 (size d));
      send_bytes bs
  end.

(** Run [m]; when it fails, give the charge back and fail. *)
Definition or_release {A} (charge : Z) (m : io A) : io A := fun w =>
  let '(w, r) := m w in
  match r with
  | Fail => (protocol_release_memory_for_session (w_sid w) charge >~ io_fail) w
  | _ => (w, r)
  end.

(** protocol.c [protocol_receive_data_limited] *)
Definition protocol_receive_data_limited (maximum_size : Z) : io Data :=
  size <~ recv_int 8;
  io_check (negb ((size >? MAX_DATA_PAYLOAD_SIZE) || (size >? maximum_size))) >~
  io_check (negb (size >? SIZE_MAX)) >~
  let allocation_size := if size =? 0 then 1 else size in
  reserved <~ protocol_reserve_memory allocation_size;
  io_check reserved >~
  or_release allocation_size (
    io_check (protocol_alloc_for_session allocation_size) >~
    bs <~ recv_bytes size;
    result <~ io_of (data_create (Some (if size =? 0 then junk_bytes 1 else bs)) size);
    fun w => (w, Ret (MkData (data result) (DataBuf.size result) allocation_size (Some (w_sid w))))).

(** protocol.c [protocol_send_int], [protocol_receive_int], [protocol_send_status] *)
Definition protocol_send_int (z : Z) : io unit := send_bytes (put_le 4 z).
Definition protocol_receive_int : io Z := z <~ recv_int 4; io_ret (i32 z).
Definition protocol_send_status (status : Z) : io unit := send_bytes (put_le 4 status).

(** protocol.c [status_is_valid] *)
Definition status_is_valid (status : Z) : bool := (status >=? STATUS_OK) && (status <=? STATUS_STATS).

(** ** The rejection detail *)

(** [io_error_detail[0] = '\0'] *)
Definition clear_detail : io unit := fun w => (set_detail w (<[0%nat := Byte.x00]> (w_detail w)), Ret tt).

(** Receiving straight into [io_error_detail]: a failure leaves the bytes that
    arrived. *)
Definition recv_detail (size : Z) : io unit := fun w =>
  let before := n_in (w_net w) in
  let '(n, r) := protocol_receive_n_data (w_net w) size in
  let got := take (length before - length (n_in n)) before in
  if zlen got <=? zlen (w_detail w) then
    (set_detail (set_net w n) (got ++ drop (length got) (w_detail w)), if r then Ret tt else Fail)
  else (w, Stuck).

(** [abort_check && abort_check()] *)
Definition poll_abort (abort_check : bool) : io bool := fun w =>
  if abort_check then
    (MkWorld (w_net w) (w_sid w) (w_bound w) (w_counters w) (w_detail w) (tail (w_abort w)) (w_clock w),
     Ret (default false (head (w_abort w))))
  else (w, Ret false).

(** Draining [remaining] bytes through the scratch buffer. *)
Fixpoint drain (fuel : nat) (abort_check : bool) (remaining : Z) : io unit :=
  if remaining <=? 0 then io_ret tt
  else match fuel with
  | O => io_of Stuck
  | S fuel =>
      a <~ poll_abort abort_check;
      io_check (negb a) >~
      let chunk := if remaining <? 256 then remaining else 256 in
      recv_bytes chunk >~
      drain fuel abort_check (remaining - chunk)
  end.

(** protocol.c [protocol_receive_error_detail_until] *)
Definition protocol_receive_error_detail (abort_check : bool) : io unit :=
  clear_detail >~
  size <~ recv_int 8;
  io_check (negb (size >? MAX_STRING_SIZE)) >~
  if size >? MAX_ERROR_DETAIL_BYTES then drain (Z.to_nat size) abort_check size
  else
    recv_detail size >~
    fun w => if size <? zlen (w_detail w)
             then (set_detail w (<[Z.to_nat size := Byte.x00]> (w_detail w)), Ret tt) else (w, Stuck).

(** protocol.c [protocol_capture_error_detail] *)
Definition protocol_capture_error_detail (status : Z) (abort_check : bool) : io Z :=
  if status =? STATUS_KEEPALIVE then io_ret status
  else
    clear_detail >~
    if negb (status =? STATUS_ERROR_DETAIL) then io_ret status
    else protocol_receive_error_detail abort_check >~ io_ret STATUS_ERROR.

(** protocol.c [protocol_receive_status], [protocol_receive_status_timed] *)
Definition protocol_receive_status : io Z :=
  z <~ recv_int 4;
  let status := i32 z in
  io_check (status_is_valid status) >~
  protocol_capture_error_detail status false.

(** protocol.c [send_error_detail] *)
Definition send_error_detail (message : option (list byte)) : io unit :=
  let message := default [] message in
  let message := if zlen message >? MAX_ERROR_DETAIL_BYTES
                 then take (Z.to_nat MAX_ERROR_DETAIL_BYTES) message else message in
  protocol_send_status STATUS_ERROR_DETAIL >~ protocol_send_str (Some message).

(** protocol.c [protocol_last_error]: the C string in the array *)
Definition protocol_last_error (w : world) : list byte := c_str (w_detail w).

(** ** The keepalive wait *)

(** [deadline_remaining_ms(&deadline) <= 0] *)
Definition deadline_passed : io bool := fun w =>
  (MkWorld (w_net w) (w_sid w) (w_bound w) (w_counters w) (w_detail w) (w_abort w) (tail (w_clock w)),
   Ret (default true (head (w_clock w)))).

(** One [poll] before the first byte of a frame: [None] when the TLS layer
    already holds data. *)
Definition wait_first (w : world) : option poll_result * world :=
  let s := w_net w in
  match n_rx s with
  | [] => (Some PollTimeout, w)
  | e :: rx =>
      if has_pending (n_tls s) e then (None, w)
      else (Some (ev_poll e),
            set_net w (MkNet (n_tls s) (n_bwlimit s) (n_in s) rx (n_out s) (n_tx s) (n_read s) (n_written s)))
  end.

(** protocol.c [protocol_read_status_until]: these bytes are not counted. *)
Definition protocol_read_status : io Z := fun w =>
  let s := w_net w in
  let '(rx, input, r) := recv_loop (n_tls s) (n_rx s) (n_in s) 4 [] in
  (set_net w (MkNet (n_tls s) (n_bwlimit s) input rx (n_out s) (n_tx s) (n_read s) (n_written s)),
   match r with Some bs => z ← get_le 4 bs 0; Ret (i32 z) | None => Fail end).

(** The wait before a frame: data is there, the interval passed, or a signal
    arrived. *)
Inductive wait_outcome := WRead | WIdle | WIntr.
Definition first_wait : io wait_outcome := fun w =>
  match wait_first w with
  | (None, _) => (w, Ret WRead)
  | _ =>
      (passed <~ deadline_passed;
       io_check (negb passed) >~
       fun w => let '(p, w) := wait_first w in
                (w, match p with
                    | Some PollTimeout => Ret WIdle
                    | Some PollIntr => Ret WIntr
                    | Some PollReady | None => Ret WRead
                    | Some _ => Fail
                    end)) w
  end.

(** The first loop of [protocol_receive_status_keepalive]: the final status, and
    how many keepalives were sent and answered. *)
Fixpoint keepalive_wait (fuel : nat) (abort_check : bool) (sent seen : Z) : io (Z * Z * Z) :=
  match fuel with
  | O => io_of Stuck
  | S fuel =>
      a <~ poll_abort abort_check;
      io_check (negb a) >~
      o <~ first_wait;
      match o with
      | WIdle =>
          a <~ poll_abort abort_check;
          io_check (negb a) >~
          protocol_send_status STATUS_KEEPALIVE >~
          keepalive_wait fuel abort_check (sent + 1) seen
      | WIntr => keepalive_wait fuel abort_check sent seen
      | WRead =>
          received <~ protocol_read_status;
          io_check (status_is_valid received) >~
          received <~ protocol_capture_error_detail received abort_check;
          if received =? STATUS_KEEPALIVE then keepalive_wait fuel abort_check sent (seen + 1)
          else io_ret (received, sent, seen)
      end
  end.

(** The second loop: the replies the peer still owes. *)
Fixpoint drain_replies (owed : nat) (abort_check : bool) : io unit :=
  match owed with
  | O => io_ret tt
  | S owed => fun w =>
      let '(w, r) := protocol_read_status w in
      match r with
      | Fail => (w, Ret tt)
      | Stuck => (w, Stuck)
      | Ret drained =>
          (drained <~ protocol_capture_error_detail drained abort_check;
           io_check (drained =? STATUS_KEEPALIVE) >~
           drain_replies owed abort_check) w
      end
  end.

(** protocol.c [protocol_receive_status_keepalive]: every round of the first
    loop uses up an answer of the clock or of the transport. *)
Definition protocol_receive_status_keepalive (abort_check : bool) : io Z :=
  r <~ (fun w => keepalive_wait (S (length (n_rx (w_net w)) + length (w_clock w))) abort_check 0 0 w);
  let '(final, sent, seen) := r in
  drain_replies (Z.to_nat (sent - seen)) abort_check >~
  io_ret final.

End Frames.

(** A peer that goes silent for two intervals, answers, then sends the two
    keepalive replies it owes. *)
Definition ev1 (p : poll_result) : io_event := MkEvent false p 100 SSL_ERROR_OTHER false.
Definition demo_world : world :=
  MkWorld (MkNet false 0 (put_le 4 STATUS_OK ++ put_le 4 STATUS_KEEPALIVE ++ put_le 4 STATUS_KEEPALIVE ++ cs "next")
             ([ev1 PollTimeout; ev1 PollIntr; ev1 PollTimeout] ++ repeat (ev1 PollReady) 20)
             [] (repeat (ev1 PollReady) 8) 0 0) 1 None [0; 0] (replicate 4097 Byte.x00) [] [false; false; false; false].
Example keepalive_demo :
  let '(w, r) := @protocol_receive_status_keepalive true demo_world in
  (r, n_in (w_net w), n_out (w_net w)) = (Ret STATUS_OK, cs "next", put_le 4 STATUS_KEEPALIVE ++ put_le 4 STATUS_KEEPALIVE).
Proof. vm_compute. reflexivity. Qed.

(** A detail frame cut off in its body. *)
Definition cut_world : world :=
  MkWorld (MkNet false 0 (put_le 4 STATUS_ERROR_DETAIL ++ put_le 8 20 ++ cs "disk fu")
             (repeat (ev1 PollReady) 8) [] [] 0 0) 1 None [0; 0] (replicate 4097 Byte.x00) [] [].
(** The comment of [protocol_receive_error_detail_until] says the detail is empty
    when the read fails; it holds the bytes that arrived. *)
Example cut_detail_kept :
  let '(w, r) := protocol_receive_status cut_world in (r, protocol_last_error w) = (Fail, cs "disk fu").
Proof. vm_compute. reflexivity. Qed.

(** ** Steady connections *)

(** Everything but the input and its schedule, and the detail, is the same. *)
Definition same_but_rx (w w' : world) : Prop :=
  w_sid w' = w_sid w /\ w_bound w' = w_bound w /\ w_counters w' = w_counters w /\ w_abort w' = w_abort w /\
  w_clock w' = w_clock w /\ n_out (w_net w') = n_out (w_net w) /\ n_tx (w_net w') = n_tx (w_net w) /\
  n_tls (w_net w') = n_tls (w_net w) /\ n_bwlimit (w_net w') = n_bwlimit (w_net w).

#[global] Instance same_but_rx_refl : Reflexive same_but_rx.
Proof. done. Qed.
#[global] Instance same_but_rx_trans : Transitive same_but_rx.
Proof. intros a b c (?&?&?&?&?&?&?&?&?) (?&?&?&?&?&?&?&?&?). split_and!; congruence. Qed.

(** The connection delivers the bytes [m], then [rest], staying up for [k] bytes
    past [m]; the detail is an array of 4097 bytes. *)
Definition delivers (w : world) (m rest : list byte) (k : Z) : Prop :=
  n_in (w_net w) = m ++ rest /\ steady_rx (w_net w) (zlen m + k) /\ 0 <= k /\ zlen (w_detail w) = 4097.

(** [f] consumes [m], gives [a], and leaves the detail as [d w]. *)
Definition consumes {A} (f : io A) (m : list byte) (a : A) (d : list byte -> list byte) : Prop :=
  forall w rest k, delivers w m rest k ->
    exists w', f w = (w', Ret a) /\ n_in (w_net w') = rest /\ steady_rx (w_net w') k /\ same_but_rx w w' /\
      w_detail w' = d (w_detail w) /\ zlen (w_detail w') = 4097.

Lemma consumes_bind {A B} (f : io A) (g : A -> io B) m1 m2 a b d1 d2 :
  consumes f m1 a d1 -> consumes (g a) m2 b d2 -> consumes (io_bind f g) (m1 ++ m2) b (fun x => d2 (d1 x)).
Proof.
  intros Hf Hg w rest k (Hin&Hst&Hk&Hd). rewrite zlen_app in Hst. pose proof (zlen_nonneg m2).
  destruct (Hf w (m2 ++ rest) (zlen m2 + k)) as (w1&E1&Hin1&Hst1&Hs1&Hd1&Hl1);
    [split_and!; [by rewrite Hin, app_assoc|by rewrite Z.add_assoc|lia|done]|].
  destruct (Hg w1 rest k) as (w2&E2&Hin2&Hst2&Hs2&Hd2&Hl2); [done|].
  exists w2. unfold io_bind. rewrite E1, E2. split_and!; [done..|by etransitivity|congruence|done].
Qed.

Lemma consumes_ret {A} (a : A) : consumes (io_ret a) [] a id.
Proof. intros w rest k (Hin&Hst&_&Hd). exists w. split_and!; done. Qed.

Lemma consumes_check b : b = true -> consumes (io_check b) [] tt id.
Proof. intros ->. apply consumes_ret. Qed.

Lemma consumes_recv m : consumes (recv_bytes (zlen m)) m m id.
Proof.
  intros w rest k (Hin&Hst&Hk&Hd). pose proof (zlen_nonneg m).
  destruct (receive_live (w_net w) (zlen m) k) as (s'&m'&E&(Hr1&Hr2&Hr3&Hr4&Hr5)&Hz&Hst');
    [done..|rewrite Hin, zlen_app; pose proof (zlen_nonneg rest); lia|].
  rewrite Hin in Hr1. assert (length m = length m') as Hl by (unfold zlen in Hz; lia).
  destruct (app_inj_1 m m' rest (n_in s') Hl Hr1) as [-> ->].
  unfold recv_bytes. rewrite E. eexists. split; [reflexivity|]. split_and!; done.
Qed.

Lemma consumes_int wd z :
  0 <= z < 2 ^ (8 * Z.of_nat wd) -> consumes (recv_int wd) (put_le wd z) z id.
Proof.
  intros Hz. unfold recv_int. rewrite <- (app_nil_r (put_le wd z)).
  eapply (consumes_bind _ _ _ [] _ _ id id).
  - pose proof (consumes_recv (put_le wd z)) as Hr. by rewrite zlen_put_le in Hr.
  - assert (io_of (get_le wd (put_le wd z) 0) = io_ret z) as ->; [|apply consumes_ret].
    unfold io_of, io_ret. rewrite <- (app_nil_r (put_le wd z)).
    by rewrite (get_put_le_exact wd z [] []) by done.
Qed.

(** ** Senders *)

(** [f] hands exactly [m] to the transport. *)
Definition produces (f : io unit) (m : list byte) : Prop :=
  forall w k, 0 <= k -> steady_tx (w_net w) (zlen m + k) ->
    exists w', f w = (w', Ret tt) /\ n_out (w_net w') = n_out (w_net w) ++ m /\ steady_tx (w_net w') k.

Lemma produces_bind f g m1 m2 : produces f m1 -> produces g m2 -> produces (f >~ g) (m1 ++ m2).
Proof.
  intros Hf Hg w k Hk Hst. rewrite zlen_app in Hst. pose proof (zlen_nonneg m2).
  destruct (Hf w (zlen m2 + k)) as (w1&E1&Ho1&Hst1); [lia|by rewrite Z.add_assoc|].
  destruct (Hg w1 k) as (w2&E2&Ho2&Hst2); [done..|]. exists w2. unfold io_bind. rewrite E1, E2.
  split_and!; [done| |done]. by rewrite Ho2, Ho1, app_assoc.
Qed.

Lemma produces_send d : produces (send_bytes d) d.
Proof.
  intros w k Hk Hst. destruct (send_live (w_net w) d k) as (s'&E&(Ho&_)&Hst'); [done..|].
  unfold send_bytes. rewrite E. eexists. split; [reflexivity|]. done.
Qed.

Lemma produces_str d : produces (protocol_send_str (Some d)) (put_le 8 (zlen d) ++ d).
Proof. apply produces_bind; apply produces_send. Qed.

(** Whatever [snd] sends, the peer's [rcv] takes exactly that from the stream
    and obtains [a]; the property [P] holds of the peer's world. *)
Definition transfers {A} (snd : io unit) (rcv : io A) (len : Z) (a : A) (P : world -> Prop) : Prop :=
  forall w, steady_tx (w_net w) len ->
    exists w' m, snd w = (w', Ret tt) /\ n_out (w_net w') = n_out (w_net w) ++ m /\
      forall v rest k, delivers v m rest k ->
        exists v', rcv v = (v', Ret a) /\ n_in (w_net v') = rest /\ same_but_rx v v' /\ P v'.

Lemma transfers_intro {A} f (g : io A) m a d (P : world -> Prop) :
  produces f m -> consumes g m a d ->
  (forall v, zlen (w_detail v) = 4097 -> forall v', w_detail v' = d (w_detail v) -> P v') ->
  transfers f g (zlen m) a P.
Proof.
  intros Hf Hg HP w Hst. destruct (Hf w 0) as (w'&E&Ho&_); [done|by rewrite Z.add_0_r|].
  exists w', m. split_and!; [done..|]. intros v rest k Hv.
  destruct (Hg v rest k Hv) as (v'&E'&Hin&_&Hs&Hd&_). exists v'. split_and!; [done..|].
  destruct Hv as (_&_&_&Hl). by eapply HP.
Qed.

Section Transfer.
Context `{Heap}.

Lemma consumes_str d :
  zlen d <= MAX_STRING_SIZE -> Byte.x00 ∉ d -> protocol_alloc_for_session (zlen d + 1) = true ->
  consumes protocol_receive_str (put_le 8 (zlen d) ++ d) d id.
Proof.
  intros Hl Hn Ha. pose proof (zlen_nonneg d). unfold MAX_STRING_SIZE in Hl. unfold protocol_receive_str.
  apply (consumes_bind _ _ (put_le 8 (zlen d)) d (zlen d) d id id); [apply consumes_int; lia|].
  rewrite <- (app_nil_l d) at 3. apply (consumes_bind _ _ [] d tt d id id).
  { apply consumes_check. unfold MAX_STRING_SIZE, SIZE_MAX.
    destruct (Z.gtb_spec (zlen d) (64 * 1024)), (Z.gtb_spec (zlen d) (2 ^ 64 - 1 - 1)); simpl; done || lia. }
  rewrite <- (app_nil_l d) at 3. apply (consumes_bind _ _ [] d tt d id id); [by apply consumes_check|].
  rewrite <- (app_nil_r d) at 2. apply (consumes_bind _ _ d [] d d id id); [apply consumes_recv|].
  apply (consumes_bind _ _ [] [] tt d id id); [|apply consumes_ret].
  apply consumes_check. by rewrite bool_decide_eq_false_2.
Qed.

(** Strings arrive as they were sent.  On a connection that stays up, a
    string of at most 64 KiB without a NUL that [protocol_send_str] sends is
    what the peer's [protocol_receive_str] returns, and the peer's stream is
    left exactly at the next frame. *)
Lemma str_transfer d
    (Hlen : zlen d <= MAX_STRING_SIZE) (Hnul : Byte.x00 ∉ d)
    (Halloc : protocol_alloc_for_session (zlen d + 1) = true) :
  transfers (protocol_send_str (Some d)) protocol_receive_str (8 + zlen d) d (fun _ => True).
Proof.
  pose proof (transfers_intro _ _ _ _ _ (fun _ => True) (produces_str d) (consumes_str d Hlen Hnul Halloc)) as Ht.
  rewrite zlen_app, zlen_put_le in Ht. by apply Ht.
Qed.

(** ** Status words and details *)

Lemma consumes_clear : consumes clear_detail [] tt (insert 0%nat Byte.x00).
Proof.
  intros w rest k (Hin&Hst&_&Hd). eexists. split; [reflexivity|]. split_and!; [done..|]. simpl. by rewrite zlen_insert.
Qed.

Lemma consumes_recv_detail m :
  zlen m <= 4096 -> consumes (recv_detail (zlen m)) m tt (fun x => m ++ drop (length m) x).
Proof.
  intros Hm w rest k Hw. destruct (consumes_recv m w rest k Hw) as (w'&E&Hin&Hst&Hs&Hd&Hl).
  destruct Hw as (Hin0&_&_&Hl0). unfold recv_bytes in E. unfold recv_detail.
  destruct (protocol_receive_n_data (w_net w) (zlen m)) as [n r]. injection E as <- Hr. simpl in Hin.
  destruct r as [m'|]; [|done]. injection Hr as ->. rewrite Hin0, Hin, length_app.
  replace (length m + length rest - length rest)%nat with (length m) by lia. rewrite take_app_length.
  destruct (Z.leb_spec (zlen m) (zlen (w_detail w))); [|lia].
  eexists. split; [reflexivity|]. split_and!; [done..|]. simpl. unfold zlen in *. rewrite length_app, length_drop. lia.
Qed.

Lemma consumes_terminate (m : Z) :
  0 <= m < 4097 ->
  consumes (fun w => if m <? zlen (w_detail w)
                     then (set_detail w (<[Z.to_nat m := Byte.x00]> (w_detail w)), Ret tt) else (w, Stuck))
    [] tt (insert (Z.to_nat m) Byte.x00).
Proof.
  intros Hm w rest k (Hin&Hst&_&Hd). rewrite Hd. destruct (Z.ltb_spec m 4097); [|lia].
  eexists. split; [reflexivity|]. split_and!; [done..|]. simpl. by rewrite zlen_insert.
Qed.

Definition detail_after (m : list byte) (x : list byte) : list byte :=
  <[length m := Byte.x00]> (m ++ drop (length m) (<[0%nat := Byte.x00]> x)).

Lemma c_str_detail m x : Byte.x00 ∉ m -> zlen m < zlen x -> c_str (detail_after m x) = m.
Proof.
  intros Hn Hz. unfold detail_after. rewrite insert_app_r_alt, Nat.sub_diag by lia.
  assert (Hd : drop (length m) (<[0%nat := Byte.x00]> x) <> []).
  { intros E%(f_equal length). rewrite length_drop, length_insert in E. simpl in E. unfold zlen in Hz. lia. }
  revert Hd. generalize (drop (length m) (<[0%nat := Byte.x00]> x)) as y. intros y Hy. clear Hz.
  destruct y as [|c y]; [done|]. simpl. induction m as [|b m IH]; [done|]. cbn [app c_str].
  rewrite bool_decide_eq_false_2 by set_solver. f_equal. apply IH. set_solver.
Qed.

Lemma consumes_error_detail m :
  zlen m <= MAX_ERROR_DETAIL_BYTES ->
  consumes (protocol_receive_error_detail false) (put_le 8 (zlen m) ++ m) tt (detail_after m).
Proof.
  unfold MAX_ERROR_DETAIL_BYTES. intros Hm. pose proof (zlen_nonneg m). unfold protocol_receive_error_detail.
  apply (consumes_bind _ _ [] _ tt tt (insert 0%nat Byte.x00)
    (fun x => <[length m := Byte.x00]> (m ++ drop (length m) x))); [apply consumes_clear|].
  apply (consumes_bind _ _ (put_le 8 (zlen m)) m (zlen m) tt id
    (fun x => <[length m := Byte.x00]> (m ++ drop (length m) x))); [apply consumes_int; lia|].
  apply (consumes_bind _ _ [] m tt tt id (fun x => <[length m := Byte.x00]> (m ++ drop (length m) x))).
  { apply consumes_check. unfold MAX_STRING_SIZE. destruct (Z.gtb_spec (zlen m) (64 * 1024)); done || lia. }
  unfold MAX_ERROR_DETAIL_BYTES. destruct (Z.gtb_spec (zlen m) 4096); [lia|].
  rewrite <- (app_nil_r m) at 2.
  apply (consumes_bind _ _ m [] tt tt (fun x => m ++ drop (length m) x) (insert (length m) Byte.x00));
    [by apply consumes_recv_detail|].
  replace (length m) with (Z.to_nat (zlen m)) by (unfold zlen; lia). apply consumes_terminate. lia.
Qed.

Lemma consumes_status_word st m (a : Z) d :
  0 <= st <= STATUS_STATS -> consumes (protocol_capture_error_detail st false) m a d ->
  consumes protocol_receive_status (put_le 4 st ++ m) a d.
Proof.
  unfold STATUS_STATS. intros Hs Hc. unfold protocol_receive_status.
  apply (consumes_bind _ _ (put_le 4 st) m st a id d); [apply consumes_int; lia|].
  rewrite i32_small by lia. apply (consumes_bind _ _ [] m tt a id d); [|done].
  apply consumes_check. unfold status_is_valid, STATUS_OK, STATUS_STATS.
  destruct (Z.geb_spec st 0), (Z.leb_spec st 30); simpl; done || lia.
Qed.

Lemma transfers_status st :
  0 <= st <= STATUS_STATS -> st <> STATUS_ERROR_DETAIL ->
  transfers (protocol_send_status st) protocol_receive_status 4 st
    (fun v => st <> STATUS_KEEPALIVE -> protocol_last_error v = []).
Proof.
  intros Hst Hd.
  set (d := if st =? STATUS_KEEPALIVE then id else (insert 0%nat Byte.x00 : list byte -> list byte)).
  assert (Hc : consumes protocol_receive_status (put_le 4 st ++ []) st d).
  { apply consumes_status_word; [done|]. unfold protocol_capture_error_detail. subst d.
    destruct (Z.eqb_spec st STATUS_KEEPALIVE); [apply consumes_ret|].
    apply (consumes_bind _ _ [] [] tt st (insert 0%nat Byte.x00) id); [apply consumes_clear|].
    destruct (Z.eqb_spec st STATUS_ERROR_DETAIL); [done|]. apply consumes_ret. }
  rewrite app_nil_r in Hc. pose proof (transfers_intro _ _ _ _ _
    (fun v => st <> STATUS_KEEPALIVE -> protocol_last_error v = []) (produces_send (put_le 4 st)) Hc) as Ht.
  rewrite zlen_put_le in Ht. apply Ht. intros v Hl v' Hv' Hk. unfold protocol_last_error. rewrite Hv'. subst d.
  destruct (Z.eqb_spec st STATUS_KEEPALIVE); [done|]. destruct (w_detail v); [done|]. done.
Qed.

Lemma transfers_error_detail msg :
  Byte.x00 ∉ msg ->
  transfers (send_error_detail (Some msg)) protocol_receive_status
    (12 + Z.min (zlen msg) MAX_ERROR_DETAIL_BYTES) STATUS_ERROR
    (fun v => protocol_last_error v = take 4096 msg).
Proof.
  intros Hnul.
  unfold send_error_detail. cbn [default from_option id]. change (Z.to_nat MAX_ERROR_DETAIL_BYTES) with 4096%nat.
  set (m := if zlen msg >? _ then _ else _).
  assert (Hm : m = take 4096 msg /\ zlen m = Z.min (zlen msg) MAX_ERROR_DETAIL_BYTES).
  { unfold MAX_ERROR_DETAIL_BYTES, zlen in *. subst m. destruct (Z.gtb_spec (Z.of_nat (length msg)) 4096).
    - rewrite length_take. split; [done|lia].
    - rewrite take_ge by lia. split; [done|lia]. }
  destruct Hm as [Hm1 Hm2].
  assert (Hlen : zlen m <= MAX_ERROR_DETAIL_BYTES) by (rewrite Hm2; lia).
  assert (Hc : consumes protocol_receive_status (put_le 4 STATUS_ERROR_DETAIL ++ (put_le 8 (zlen m) ++ m)) STATUS_ERROR
    (fun x => detail_after m (<[0%nat := Byte.x00]> x))).
  { apply consumes_status_word; [done|]. unfold protocol_capture_error_detail. simpl (_ =? _). cbv iota. simpl negb. cbv iota.
    apply (consumes_bind _ _ [] (put_le 8 (zlen m) ++ m) tt _ (insert 0%nat Byte.x00) (detail_after m)); [apply consumes_clear|].
    rewrite <- (app_nil_r (put_le 8 (zlen m) ++ m)). apply (consumes_bind _ _ _ [] tt _ (detail_after m) id); [|apply consumes_ret].
    by apply consumes_error_detail. }
  pose proof (transfers_intro _ _ _ _ _ (fun v => protocol_last_error v = take 4096 msg)
    (produces_bind _ _ _ _ (produces_send (put_le 4 STATUS_ERROR_DETAIL)) (produces_str m)) Hc) as Ht.
  rewrite !zlen_app, !zlen_put_le in Ht. rewrite <- Hm2. change (12 + zlen m) with (4 + 8 + zlen m).
  rewrite <- Z.add_assoc. apply Ht. intros v Hl v' Hv'. unfold protocol_last_error. rewrite Hv', <- Hm1.
  apply c_str_detail; [|rewrite zlen_insert; unfold MAX_ERROR_DETAIL_BYTES in Hlen; lia].
  rewrite Hm1. intros Hin. apply Hnul. rewrite <- (take_drop 4096 msg). apply elem_of_app. by left.
Qed.

(** Status words arrive as they were sent, and a rejection detail as a
    plain error with its reason.  For every status of the protocol the peer's
    [protocol_receive_status] returns it (the detail status as an error), the
    stream is left at the next frame, and [protocol_last_error] is the
    message cut to 4096 bytes. *)
Lemma status_transfer st
    (Hst : 0 <= st <= STATUS_STATS) (Hd : st <> STATUS_ERROR_DETAIL) msg (Hnul : Byte.x00 ∉ msg) :
  transfers (protocol_send_status st) protocol_receive_status 4 st
    (fun v => st <> STATUS_KEEPALIVE -> protocol_last_error v = []) /\
  transfers (send_error_detail (Some msg)) protocol_receive_status
    (12 + Z.min (zlen msg) MAX_ERROR_DETAIL_BYTES) STATUS_ERROR
    (fun v => protocol_last_error v = take 4096 msg).
Proof. split; [by apply transfers_status|by apply transfers_error_detail]. Qed.
End Transfer.

(** ** The budget of one connection *)

(** The fields that a read does not touch. *)
Definition same_counters (w w' : world) : Prop :=
  w_counters w' = w_counters w /\ w_sid w' = w_sid w /\ w_bound w' = w_bound w.

Lemma recv_bytes_any n w w' r :
  0 <= n -> recv_bytes n w = (w', r) ->
  same_counters w w' /\ r <> Stuck /\ forall bs, r = Ret bs -> zlen bs = n.
Proof.
  intros Hn. unfold recv_bytes, protocol_receive_n_data.
  pose proof (recv_loop_spec (n_tls (w_net w)) (n_rx (w_net w)) (n_in (w_net w)) n []) as Hl.
  destruct (recv_loop _ _ _ _ _) as [[evs input] o]. destruct Hl as (m&_&_&Ho&_); [done|unfold zlen; simpl; lia|].
  intros [= <- <-]. split; [done|]. destruct o as [x|]; [|done]. split; [done|].
  intros bs [= ->]. by destruct (Ho bs eq_refl).
Qed.

Lemma recv_int_any wd w w' r :
  recv_int wd w = (w', r) ->
  same_counters w w' /\ r <> Stuck /\ forall z, r = Ret z -> 0 <= z < 2 ^ (8 * Z.of_nat wd).
Proof.
  unfold recv_int, io_bind. destruct (recv_bytes (Z.of_nat wd) w) as [w1 r1] eqn:E.
  apply recv_bytes_any in E as (Hs&Hn&Hl); [|lia]. destruct r1 as [bs| |]; [|by intros [= <- <-]..].
  intros [= <- <-]. split; [done|]. specialize (Hl bs eq_refl). split.
  - apply get_le_not_stuck; lia.
  - intros z Hz. by apply get_le_ret_inv in Hz as (_&_&?).
Qed.

Definition budget_ok (w : world) : Prop :=
  (w_sid w < length (w_counters w))%nat /\ 0 <= counter w (w_sid w) <= MAX_CONNECTION_MEMORY.

Lemma counter_set_eq w sid a : (sid < length (w_counters w))%nat -> counter (set_counter w sid a) sid = a.
Proof. intros Hs. unfold counter. simpl. by rewrite list_lookup_insert_eq. Qed.
Lemma counter_set_ne w sid i a : i <> sid -> counter (set_counter w sid a) i = counter w i.
Proof. intros Hs. unfold counter. simpl. by rewrite list_lookup_insert_ne. Qed.
Lemma counter_same w w' i : same_counters w w' -> counter w' i = counter w i.
Proof. intros (E&_&_). unfold counter. by rewrite E. Qed.

Lemma reserve_next_spec a charge :
  0 <= a <= MAX_CONNECTION_MEMORY -> 0 <= charge ->
  match reserve_next a charge with
  | Some a' => a' = a + charge /\ a' <= MAX_CONNECTION_MEMORY
  | None => MAX_CONNECTION_MEMORY < a + charge
  end.
Proof.
  intros Ha Hc. unfold reserve_next, MAX_CONNECTION_MEMORY in *.
  destruct (Z.gtb_spec a (256 * 1024 * 1024)); [lia|]. simpl orb.
  destruct (Z.gtb_spec charge (256 * 1024 * 1024 - a)); [lia|]. rewrite u64_small; lia.
Qed.

Lemma release_next_spec a charge : 0 < charge <= a -> release_next a charge = a - charge.
Proof. intros. unfold release_next. destruct (Z.geb_spec charge a); lia. Qed.

Section Budget.
Context `{Heap}.

(** What a receive leaves in the counters: the charge of the buffer it returns,
    nothing when it fails. *)
Definition budget_after (w : world) (maximum : Z) (res : world * outcome Data) : Prop :=
  let '(w', r) := res in
  w_sid w' = w_sid w /\ length (w_counters w') = length (w_counters w) /\
  (forall i, i <> w_sid w -> counter w' i = counter w i) /\
  match r with
  | Ret d => data_wf d /\ size d <= maximum /\ size d <= MAX_DATA_PAYLOAD_SIZE /\
      protocol_charge d = Z.max 1 (size d) /\ owner d = Some (w_sid w) /\
      counter w' (w_sid w) = counter w (w_sid w) + protocol_charge d /\
      counter w' (w_sid w) <= MAX_CONNECTION_MEMORY
  | Fail => counter w' (w_sid w) = counter w (w_sid w)
  | Stuck => False
  end.

Lemma budget_fail w w' maximum : same_counters w w' -> budget_after w maximum (w', Fail).
Proof. intros Hs. pose proof (counter_same w w' (w_sid w) Hs). destruct Hs as (E1&E2&E3).
  split_and!; [done|by rewrite E1| |done]. intros i _. unfold counter. by rewrite E1. Qed.

(** The part after the reservation. *)
Lemma budget_reserved w maximum sz a (m : io Data) :
  budget_ok w -> 0 <= sz -> sz <= maximum -> sz <= MAX_DATA_PAYLOAD_SIZE ->
  a = counter w (w_sid w) + Z.max 1 sz -> a <= MAX_CONNECTION_MEMORY ->
  (forall w1, w_counters w1 = w_counters (set_counter w (w_sid w) a) -> w_sid w1 = w_sid w ->
     let '(w2, r) := m w1 in
     same_counters w1 w2 /\ r <> Stuck /\
     forall d, r = Ret d -> data_wf d /\ size d = sz /\ protocol_charge d = Z.max 1 sz /\ owner d = Some (w_sid w)) ->
  forall w1, w_counters w1 = w_counters (set_counter w (w_sid w) a) -> w_sid w1 = w_sid w ->
  budget_after w maximum (or_release (Z.max 1 sz) m w1).
Proof.
  intros [Hlen Hc] Hsz Hm1 Hm2 Ha Hmax Hm w1 Hw1 Hs1. specialize (Hm w1 Hw1 Hs1). unfold or_release.
  destruct (m w1) as [w2 r]. destruct Hm as ((Hc2&Hs2&_)&Hn&Hd).
  assert (Hcnt : w_counters w2 = <[w_sid w := a]> (w_counters w)) by (by rewrite Hc2, Hw1).
  assert (Hself : counter w2 (w_sid w) = a) by (unfold counter; by rewrite Hcnt, list_lookup_insert_eq).
  assert (Hoth : forall i, i <> w_sid w -> counter w2 i = counter w i)
    by (intros i Hi; unfold counter; by rewrite Hcnt, list_lookup_insert_ne).
  destruct r as [d| |]; [| |done].
  - destruct (Hd d eq_refl) as (Hwf&Hs&Hch&Ho).
    split_and!; [congruence|by rewrite Hcnt, length_insert|done|done|lia|lia|lia|done|lia|lia].
  - unfold io_bind, protocol_release_memory_for_session, io_fail. rewrite Hs2, Hs1, Hself.
    assert (Hlen2 : (w_sid w < length (w_counters w2))%nat) by (by rewrite Hcnt, length_insert).
    split_and!; [simpl; congruence|simpl; by rewrite length_insert, Hcnt, length_insert| |].
    + intros i Hi. rewrite counter_set_ne by done. by apply Hoth.
    + rewrite counter_set_eq by done. rewrite release_next_spec; lia.
Qed.

Lemma receive_data_budget w maximum : budget_ok w -> budget_after w maximum (protocol_receive_data_limited maximum w).
Proof.
  intros Hw. unfold protocol_receive_data_limited, io_bind at 1.
  destruct (recv_int 8 w) as [w1 r1] eqn:E1. apply recv_int_any in E1 as (Hs1&Hn1&Hr1).
  destruct r1 as [sz| |]; [|by apply budget_fail|done]. specialize (Hr1 sz eq_refl).
  change (2 ^ (8 * Z.of_nat 8)) with (2 ^ 64) in Hr1.
  unfold io_bind at 1, io_check at 1. destruct (negb _) eqn:Ec; [|by apply budget_fail].
  apply negb_true_iff, orb_false_iff in Ec as [Ec1 Ec2]. unfold io_ret at 1.
  unfold io_bind at 1, io_check at 1. destruct (negb (sz >? SIZE_MAX)); [|by apply budget_fail]. unfold io_ret at 1.
  assert (Ealloc : (if sz =? 0 then 1 else sz) = Z.max 1 sz) by (destruct (Z.eqb_spec sz 0); lia). rewrite Ealloc.
  unfold io_bind at 1, protocol_reserve_memory.
  destruct Hw as [Hlen Hc]. rewrite (counter_same _ _ _ Hs1).
  destruct Hs1 as (Hcs&Hsid&Hb). rewrite Hsid.
  pose proof (reserve_next_spec (counter w (w_sid w)) (Z.max 1 sz) Hc ltac:(lia)) as Hres.
  destruct (reserve_next _ _) as [a|]; [|by apply budget_fail]. destruct Hres as [Ha Hmax].
  unfold io_bind at 1, io_check at 1, io_ret at 1. cbv iota.
  eapply (budget_reserved w maximum sz a); [done|lia|destruct (Z.gtb_spec sz maximum); [done|lia]| |done|done| | |done].
  { destruct (Z.gtb_spec sz MAX_DATA_PAYLOAD_SIZE); [done|lia]. }
  2: { simpl. by rewrite Hcs. }
  intros v Hv1 Hv2. unfold io_bind at 1, io_check. destruct (protocol_alloc_for_session _); [|done].
  unfold io_ret. unfold io_bind at 1. destruct (recv_bytes sz v) as [v1 r] eqn:Er.
  apply recv_bytes_any in Er as (Hsv&Hnv&Hlv); [|lia]. destruct r as [bs| |]; [|done..]. specialize (Hlv bs eq_refl).
  unfold io_bind, io_of, data_create. destruct (protocol_alloc sizeof_Data); [|done]. simpl.
  split; [done|]. split; [done|]. intros d [= <-]. destruct Hsv as (_&Hs'&_). simpl. split_and!; [|done|done|congruence].
  unfold data_wf. simpl. split; [lia|]. destruct (Z.eqb_spec sz 0); [rewrite zlen_junk_bytes; lia|lia].
Qed.

(** A connection's buffers stay within its budget.  Whatever the peer sends
    and however the transport fails, a receive of a buffer charges the session
    exactly the bytes of the buffer it returns and nothing when it fails, never
    exceeds the budget of 256 MiB or the caller's maximum, returns a buffer
    that holds its size, and does not touch the counters of other sessions;
    destroying the buffer, from a thread bound to any session, restores the
    counter. *)
Lemma receive_data_charged w maximum (Hw : budget_ok w) :
  budget_after w maximum (protocol_receive_data_limited maximum w) /\
  forall w' d, protocol_receive_data_limited maximum w = (w', Ret d) ->
    forall b, let v := MkWorld (w_net w') (w_sid w') b (w_counters w') (w_detail w') (w_abort w') (w_clock w') in
    exists v', data_destroy (Some d) v = (v', Ret tt) /\ counter v' (w_sid w) = counter w (w_sid w).
Proof.
  pose proof (receive_data_budget w maximum Hw) as Hb. split; [done|]. intros w' d E b v. rewrite E in Hb.
  destruct Hb as (Hs&Hl&_&_&_&_&Hch&Ho&Hc&_). destruct Hw as [Hlen Hcw].
  unfold data_destroy. destruct (Z.eqb_spec (protocol_charge d) 0); [lia|]. rewrite Ho.
  eexists. split; [reflexivity|]. rewrite counter_set_eq by (simpl; lia).
  assert (counter v (w_sid w) = counter w' (w_sid w)) as -> by done. rewrite release_next_spec; lia.
Qed.
End Budget.

Section DataTransfer.
Context `{Heap}.

Lemma produces_data d bs :
  rd (data_buf d) 0 (size d) = Ret bs -> (data d = None -> size d = 0) ->
  produces (protocol_send_data (Some d)) (put_le 8 (size d) ++ bs).
Proof.
  intros Hrd Hnull w k Hk Hst. unfold protocol_send_data, io_bind at 1, io_check.
  assert (negb (bool_decide (data d = None) && negb (size d =? 0)) = true) as ->.
  { case_bool_decide; [|done]. by rewrite Hnull. }
  assert (Hb : (bs' <~ io_of (rd (data_buf d) 0 (size d)); send_bytes bs') = send_bytes bs) by (by rewrite Hrd).
  rewrite Hb. by apply (produces_bind _ _ _ _ (produces_send (put_le 8 (size d))) (produces_send bs)).
Qed.

Lemma receive_data_delivered bs maximum v rest k :
  zlen bs <= maximum -> zlen bs <= MAX_DATA_PAYLOAD_SIZE -> heap_serves (2 ^ 30) ->
  delivers v (put_le 8 (zlen bs) ++ bs) rest k -> budget_ok v ->
  counter v (w_sid v) + Z.max 1 (zlen bs) <= MAX_CONNECTION_MEMORY ->
  exists v' d, protocol_receive_data_limited maximum v = (v', Ret d) /\ n_in (w_net v') = rest /\
    rd (data_buf d) 0 (size d) = Ret bs.
Proof.
  unfold MAX_DATA_PAYLOAD_SIZE. intros Hm Hp Hh (Hin&Hst&Hk&Hdl) Hb Hroom. pose proof (zlen_nonneg bs).
  rewrite zlen_app in Hst.
  destruct (consumes_int 8 (zlen bs) ltac:(lia) v (bs ++ rest) (zlen bs + k)) as (v1&E1&Hin1&Hst1&Hs1&_&Hdl1);
    [split_and!; [by rewrite Hin, app_assoc|by rewrite Z.add_assoc|lia|done]|].
  unfold protocol_receive_data_limited, io_bind at 1. rewrite E1.
  unfold io_bind at 1, io_check at 1, MAX_DATA_PAYLOAD_SIZE.
  destruct (Z.gtb_spec (zlen bs) (256 * 1024 * 1024)); [lia|]. destruct (Z.gtb_spec (zlen bs) maximum); [lia|].
  cbn [orb negb]. unfold io_ret at 1. cbv beta iota. unfold io_bind at 1, io_check at 1.
  destruct (Z.gtb_spec (zlen bs) SIZE_MAX); [unfold SIZE_MAX in *; lia|]. cbn [orb negb]. unfold io_ret at 1. cbv beta iota.
  assert (Ealloc : (if zlen bs =? 0 then 1 else zlen bs) = Z.max 1 (zlen bs)) by (destruct (Z.eqb_spec (zlen bs) 0); lia).
  rewrite Ealloc. unfold io_bind at 1, protocol_reserve_memory.
  destruct Hs1 as (Hsid&Hbd&Hcs&_). destruct Hb as [Hlen Hc].
  assert (counter v1 (w_sid v1) = counter v (w_sid v)) as -> by (unfold counter; by rewrite Hcs, Hsid).
  pose proof (reserve_next_spec (counter v (w_sid v)) (Z.max 1 (zlen bs)) Hc ltac:(lia)) as Hres.
  destruct (reserve_next _ _) as [a|]; [|lia]. unfold io_bind at 1, io_check at 1, io_ret at 1. cbv iota.
  unfold or_release, io_bind at 1, io_check.
  assert (protocol_alloc_for_session (Z.max 1 (zlen bs)) = true) as ->.
  { apply (heap_serves_alloc _ _ Hh). lia. }
  unfold io_ret at 1. unfold io_bind at 1.
  destruct (consumes_recv bs (set_counter v1 (w_sid v1) a) rest k) as (v2&->&Hin2&_); [done|].
  unfold io_bind, io_of. rewrite data_create_ret by (intros z Hz; apply Hh; lia).
  eexists _, _. split; [reflexivity|]. split; [done|]. cbn [data_buf DataBuf.data DataBuf.size default from_option id].
  unfold data_buf. simpl. rewrite rd_ret; [|lia|lia|].
  - rewrite drop_0. destruct (Z.eqb_spec (zlen bs) 0) as [E0|].
    + rewrite E0. simpl. by destruct bs.
    + by rewrite take_ge by (unfold zlen; lia).
  - destruct (Z.eqb_spec (zlen bs) 0); [rewrite zlen_junk_bytes; lia|lia].
Qed.

(** Buffers arrive as they were sent.  On a connection that stays up,
    [protocol_send_data] puts the size and the bytes of a buffer on the wire,
    and a peer with room in its budget receives a buffer with exactly those
    bytes and its stream at the next frame. *)
Lemma data_transfer d bs maximum w
    (Hbytes : rd (data_buf d) 0 (size d) = Ret bs) (Hnull : data d = None -> size d = 0)
    (Hmax : zlen bs <= maximum) (Hsize : zlen bs <= MAX_DATA_PAYLOAD_SIZE) (Hheap : heap_serves (2 ^ 30))
    (Htx : steady_tx (w_net w) (8 + zlen bs)) :
  exists w' m, protocol_send_data (Some d) w = (w', Ret tt) /\ n_out (w_net w') = n_out (w_net w) ++ m /\
    forall v rest k, delivers v m rest k -> budget_ok v ->
      counter v (w_sid v) + Z.max 1 (zlen bs) <= MAX_CONNECTION_MEMORY ->
      exists v' d', protocol_receive_data_limited maximum v = (v', Ret d') /\ n_in (w_net v') = rest /\
        rd (data_buf d') 0 (size d') = Ret bs.
Proof.
  pose proof (rd_zlen _ _ _ _ Hbytes) as Hz.
  destruct (produces_data d bs Hbytes Hnull w 0) as (w'&E&Ho&_);
    [lia|by rewrite zlen_app, zlen_put_le, Z.add_0_r|].
  exists w', (put_le 8 (size d) ++ bs). split_and!; [done..|]. intros v rest k Hv Hb Hr. rewrite <- Hz in Hv.
  by eapply receive_data_delivered.
Qed.
End DataTransfer.

(** ** The keepalive wait ends *)

Definition left_over (w : world) : nat := (length (n_rx (w_net w)) + length (w_clock w))%nat.

(** [f] returns or fails, and uses up no more schedule than there is. *)
Definition total_io {A} (f : io A) : Prop :=
  forall w, snd (f w) <> Stuck /\ (left_over (fst (f w)) <= left_over w)%nat.

Lemma total_bind {A B} (f : io A) (g : A -> io B) :
  total_io f -> (forall a, total_io (g a)) -> total_io (io_bind f g).
Proof.
  intros Hf Hg w. unfold io_bind. destruct (Hf w) as [H1 H2]. destruct (f w) as [w1 [a| |]]; simpl in *; [|done..].
  destruct (Hg a w1) as [H3 H4]. split; [done|lia].
Qed.

Lemma total_ret {A} (a : A) : total_io (io_ret a).
Proof. done. Qed.
Lemma total_check b : total_io (io_check b).
Proof. by destruct b. Qed.

Lemma recv_loop_length tls evs input n got :
  let '(evs', _, r) := recv_loop tls evs input n got in
  (length evs' <= length evs)%nat /\ (zlen got < n -> r <> None -> (length evs' < length evs)%nat).
Proof.
  revert input got. induction evs as [|e evs IH]; intros input got; cbn [recv_loop].
  - destruct (Z.geb_spec (zlen got) n); simpl; split; intros; done || lia.
  - destruct (Z.geb_spec (zlen got) n); [simpl; split; intros; lia|].
    assert (Hrec : forall i g, let '(evs', _, r) := recv_loop tls evs i n g in
      (length evs' <= length (e :: evs))%nat /\ (zlen got < n -> r <> None -> (length evs' < length (e :: evs))%nat)).
    { intros i g. specialize (IH i g). destruct (recv_loop tls evs i n g) as [[evs' input'] r].
      destruct IH. simpl. split; intros; lia. }
    assert (Hfail : (length evs <= length (e :: evs))%nat /\
      (zlen got < n -> @None (list byte) <> None -> (length evs < length (e :: evs))%nat)) by (simpl; split; [lia|done]).
    destruct (if has_pending tls e then PollReady else ev_poll e); [exact Hfail|apply Hrec|exact Hfail|exact Hfail|].
    destruct (_ =? PROTOCOL_IO_RETRY); [apply Hrec|]. destruct (_ =? PROTOCOL_IO_CLOSED); [exact Hfail|].
    destruct (_ <=? 0); [exact Hfail|apply Hrec].
Qed.

Lemma total_recv_bytes n : 0 <= n -> total_io (recv_bytes n).
Proof.
  intros Hn w. destruct (recv_bytes n w) as [w' r] eqn:E. destruct (recv_bytes_any n w w' r Hn E) as (_&H2&_).
  split; [done|]. unfold recv_bytes, protocol_receive_n_data in E.
  pose proof (recv_loop_length (n_tls (w_net w)) (n_rx (w_net w)) (n_in (w_net w)) n []) as Hl.
  destruct (recv_loop _ _ _ _ _) as [[evs input] o]. injection E as <- _. unfold left_over. simpl. lia.
Qed.

Lemma total_recv_int wd : total_io (recv_int wd).
Proof.
  intros w. pose proof (recv_int_any wd w) as Ha. destruct (recv_int wd w) as [w' r] eqn:E.
  destruct (Ha w' r eq_refl) as (_&Hn&_). split; [done|]. unfold recv_int, io_bind in E.
  pose proof (total_recv_bytes (Z.of_nat wd) ltac:(lia) w) as [_ Hl].
  destruct (recv_bytes (Z.of_nat wd) w) as [w1 [a| |]]; injection E as <- _; done.
Qed.

Lemma total_poll_abort b : total_io (poll_abort b).
Proof. by destruct b. Qed.
Lemma total_clear : total_io clear_detail.
Proof. done. Qed.

Lemma total_drain fuel b n : n <= Z.of_nat fuel -> total_io (drain fuel b n).
Proof.
  revert n. induction fuel as [|fuel IH]; intros n Hn; cbn [drain]; destruct (Z.leb_spec n 0); try done; [lia|].
  apply total_bind; [apply total_poll_abort|]. intros a. apply total_bind; [apply total_check|]. intros _.
  destruct (Z.ltb_spec n 256); (apply total_bind; [apply total_recv_bytes; lia|]); intros _; apply IH; lia.
Qed.

(** The detail array keeps its length, so writing a detail of at most 4096
    bytes stays inside. *)
Definition keeps_detail {A} (f : io A) : Prop :=
  forall w, zlen (w_detail w) = 4097 ->
    zlen (w_detail (fst (f w))) = 4097 /\ snd (f w) <> Stuck /\ (left_over (fst (f w)) <= left_over w)%nat.

Lemma keeps_detail_bind {A B} (f : io A) (g : A -> io B) (P : A -> Prop) :
  keeps_detail f -> (forall w a, snd (f w) = Ret a -> P a) -> (forall a, P a -> keeps_detail (g a)) ->
  keeps_detail (io_bind f g).
Proof.
  intros Hf HP Hg w Hw. unfold io_bind. destruct (Hf w Hw) as (H1&H2&H3). specialize (HP w).
  destruct (f w) as [w1 [a| |]]; simpl in *; [|done..].
  destruct (Hg a (HP a eq_refl) w1 H1) as (H4&H5&H6). split_and!; [done..|lia].
Qed.

Lemma keeps_detail_total {A} (f : io A) :
  total_io f -> (forall w, w_detail (fst (f w)) = w_detail w) -> keeps_detail f.
Proof. intros Hf Hd w Hw. destruct (Hf w). rewrite Hd. done. Qed.

Lemma recv_bytes_detail n w : w_detail (fst (recv_bytes n w)) = w_detail w.
Proof. unfold recv_bytes. by destruct (protocol_receive_n_data (w_net w) n). Qed.
Lemma recv_int_detail wd w : w_detail (fst (recv_int wd w)) = w_detail w.
Proof.
  unfold recv_int, io_bind. pose proof (recv_bytes_detail (Z.of_nat wd) w).
  destruct (recv_bytes (Z.of_nat wd) w) as [w1 [a| |]]; done.
Qed.
Lemma drain_detail fuel b n w : w_detail (fst (drain fuel b n w)) = w_detail w.
Proof.
  revert n w. induction fuel as [|fuel IH]; intros n w; cbn [drain]; destruct (n <=? 0); try done.
  unfold io_bind at 1. assert (Hp : w_detail (fst (poll_abort b w)) = w_detail w) by (by destruct b).
  destruct (poll_abort b w) as [w1 [a| |]]; simpl in Hp; try done.
  unfold io_bind at 1, io_check. destruct (negb a); [|done]. unfold io_ret, io_bind.
  set (c := if n <? 256 then n else 256). pose proof (recv_bytes_detail c w1) as Hr.
  destruct (recv_bytes c w1) as [w2 [bs| |]]; simpl in Hr |- *; rewrite ?IH; congruence.
Qed.

Lemma keeps_detail_recv_detail n : 0 <= n <= 4096 -> keeps_detail (recv_detail n).
Proof.
  intros Hn w Hw. unfold recv_detail, protocol_receive_n_data.
  pose proof (recv_loop_spec (n_tls (w_net w)) (n_rx (w_net w)) (n_in (w_net w)) n []) as Hl.
  pose proof (recv_loop_length (n_tls (w_net w)) (n_rx (w_net w)) (n_in (w_net w)) n []) as Hr.
  destruct (recv_loop _ _ _ _ _) as [[evs input] o]. destruct Hl as (m&Hin&Hm&_); [lia|unfold zlen; simpl; lia|].
  rewrite app_nil_l in Hm. cbn [n_in]. rewrite Hin, length_app.
  replace (length m + length input - length input)%nat with (length m) by lia. rewrite take_app_length, Hw.
  destruct (Z.leb_spec (zlen m) 4097); [|lia]. simpl. split_and!.
  - unfold zlen in *. rewrite length_app, length_drop. lia.
  - by destruct o.
  - unfold left_over. simpl. lia.
Qed.

Lemma keeps_error_detail b : keeps_detail (protocol_receive_error_detail b).
Proof.
  unfold protocol_receive_error_detail. apply (keeps_detail_bind _ _ (fun _ => True)); [|done|].
  { intros w Hw. unfold clear_detail. simpl. split_and!; [by rewrite zlen_insert|done|done]. }
  intros _ _. apply (keeps_detail_bind _ _ (fun z => 0 <= z)).
  { apply keeps_detail_total; [apply total_recv_int|apply recv_int_detail]. }
  { intros w z Hz. destruct (recv_int 8 w) as [w' r] eqn:E. apply recv_int_any in E as (_&_&Hr).
    by destruct (Hr z Hz). }
  intros n Hn. apply (keeps_detail_bind _ _ (fun _ => True)); [|done|].
  { apply keeps_detail_total; [apply total_check|by destruct (negb _)]. }
  intros _ _. unfold MAX_ERROR_DETAIL_BYTES. destruct (Z.gtb_spec n 4096).
  - apply keeps_detail_total; [apply total_drain; lia|apply drain_detail].
  - apply (keeps_detail_bind _ _ (fun _ => True)); [apply keeps_detail_recv_detail; lia|done|].
    intros _ _ v Hv. rewrite Hv. destruct (Z.ltb_spec n 4097); [|lia]. simpl.
    split_and!; [by rewrite zlen_insert|done|done].
Qed.

Lemma keeps_capture st b : keeps_detail (protocol_capture_error_detail st b).
Proof.
  unfold protocol_capture_error_detail. destruct (st =? STATUS_KEEPALIVE); [by apply keeps_detail_total|].
  apply (keeps_detail_bind _ _ (fun _ => True)); [|done|].
  { intros w Hw. unfold clear_detail. simpl. split_and!; [by rewrite zlen_insert|done|done]. }
  intros _ _. destruct (negb _); [by apply keeps_detail_total|].
  apply (keeps_detail_bind _ _ (fun _ => True)); [apply keeps_error_detail|done|].
  intros _ _. by apply keeps_detail_total.
Qed.

#[local] Arguments has_pending : simpl never.

Lemma first_wait_spec w :
  let '(w', r) := first_wait w in
  w_detail w' = w_detail w /\ n_out (w_net w') = n_out (w_net w) /\ r <> Stuck /\ (left_over w' <= left_over w)%nat /\
  (forall o, r = Ret o -> o <> WRead -> (left_over w' < left_over w)%nat).
Proof.
  unfold first_wait. destruct (wait_first w) as [[p|] w0] eqn:E; [|naive_solver].
  unfold io_bind at 1, deadline_passed. destruct (w_clock w) as [|b cl] eqn:Ec; cbn [head tail default from_option id].
  { unfold io_bind, io_check. simpl. unfold left_over. simpl. rewrite Ec. split_and!; done || simpl; lia. }
  unfold io_bind, io_check. destruct b; simpl negb; cbv iota.
  { simpl. unfold left_over. simpl. rewrite Ec. split_and!; done || simpl; lia. }
  unfold io_ret. cbv beta iota. unfold wait_first. clear E. unfold left_over. rewrite Ec. cbn.
  destruct (n_rx (w_net w)) as [|e rx] eqn:Er; cbn; [|destruct (has_pending (n_tls (w_net w)) e); cbn];
    rewrite ?Er; cbn; split_and!; try done; try lia; intros; first [lia | destruct (ev_poll e); done].
Qed.

Lemma read_status_spec w :
  let '(w', r) := protocol_read_status w in
  w_detail w' = w_detail w /\ n_out (w_net w') = n_out (w_net w) /\ r <> Stuck /\ (left_over w' <= left_over w)%nat /\
  (forall z, r = Ret z -> (left_over w' < left_over w)%nat).
Proof.
  unfold protocol_read_status.
  pose proof (recv_loop_spec (n_tls (w_net w)) (n_rx (w_net w)) (n_in (w_net w)) 4 []) as Hl.
  pose proof (recv_loop_length (n_tls (w_net w)) (n_rx (w_net w)) (n_in (w_net w)) 4 []) as Hr.
  destruct (recv_loop _ _ _ _ _) as [[evs input] o]. destruct Hl as (m&_&_&Ho&_); [lia|done|]. destruct Hr as [Hr1 Hr2].
  unfold left_over. cbn [w_net set_net n_rx n_out w_detail w_clock]. split_and!; [done|done| |lia|].
  - destruct o as [bs|]; [|done]. destruct (Ho bs eq_refl) as [_ Hz].
    destruct (get_le_total 4 bs 0) as [z ->]; [lia|lia|done].
  - intros z Hz. destruct o; [|done]. specialize (Hr2 ltac:(done) ltac:(done)). lia.
Qed.

(** Functions that send nothing. *)
Definition keeps_out {A} (f : io A) : Prop := forall w, n_out (w_net (fst (f w))) = n_out (w_net w).

Lemma keeps_out_bind {A B} (f : io A) (g : A -> io B) :
  keeps_out f -> (forall a, keeps_out (g a)) -> keeps_out (io_bind f g).
Proof.
  intros Hf Hg w. unfold io_bind. specialize (Hf w). destruct (f w) as [w1 [a| |]]; simpl in *; [|done..].
  by rewrite (Hg a).
Qed.
Lemma keeps_out_recv n : keeps_out (recv_bytes n).
Proof.
  intros w. unfold recv_bytes, protocol_receive_n_data. by destruct (recv_loop _ _ _ _ _) as [[evs input] o].
Qed.
Lemma keeps_out_check b : keeps_out (io_check b).
Proof. by destruct b. Qed.
Lemma keeps_out_drain fuel b n : keeps_out (drain fuel b n).
Proof.
  revert n. induction fuel as [|fuel IH]; intros n; cbn [drain]; destruct (n <=? 0); try done.
  apply keeps_out_bind; [by destruct b|]. intros a. apply keeps_out_bind; [apply keeps_out_check|]. intros _.
  apply keeps_out_bind; [apply keeps_out_recv|]. intros _. apply IH.
Qed.

Lemma keeps_out_capture st b : keeps_out (protocol_capture_error_detail st b).
Proof.
  unfold protocol_capture_error_detail. destruct (st =? STATUS_KEEPALIVE); [done|].
  apply keeps_out_bind; [done|]. intros _. destruct (negb _); [done|].
  apply keeps_out_bind; [|done]. unfold protocol_receive_error_detail.
  apply keeps_out_bind; [done|]. intros _. apply keeps_out_bind; [by apply keeps_out_bind; [apply keeps_out_recv|]|].
  intros n. apply keeps_out_bind; [apply keeps_out_check|]. intros _. destruct (n >? MAX_ERROR_DETAIL_BYTES).
  - apply keeps_out_drain.
  - apply keeps_out_bind; [|intros _ w; by destruct (n <? zlen (w_detail w))].
    intros w. unfold recv_detail, protocol_receive_n_data. destruct (recv_loop _ _ _ _ _) as [[evs input] o].
    by destruct (_ <=? _).
Qed.

(** [n] keepalive frames *)
Definition kframes (n : Z) : list byte := concat (replicate (Z.to_nat n) (put_le 4 STATUS_KEEPALIVE)).

Lemma kframes_succ n : 0 <= n -> kframes (n + 1) = kframes n ++ put_le 4 STATUS_KEEPALIVE.
Proof.
  intros Hn. unfold kframes. replace (Z.to_nat (n + 1)) with (Z.to_nat n + 1)%nat by lia.
  rewrite replicate_add, concat_app. simpl. by rewrite app_nil_r.
Qed.

Lemma send_status_spec st w :
  let '(w', r) := protocol_send_status st w in
  w_detail w' = w_detail w /\ r <> Stuck /\ left_over w' = left_over w /\
  (r = Ret tt -> n_out (w_net w') = n_out (w_net w) ++ put_le 4 st).
Proof.
  unfold protocol_send_status, send_bytes, protocol_send_n_data.
  pose proof (send_loop_spec (n_tls (w_net w)) (n_bwlimit (w_net w)) (n_tx (w_net w)) (put_le 4 st)) as Hs.
  destruct (send_loop _ _ _ _) as [[evs out] ok]. destruct Hs as [_ Hok]. unfold left_over. simpl.
  split_and!; [done|apply check_not_stuck|done|]. intros Hr%check_ret_inv. by rewrite (proj1 Hok Hr).
Qed.

Lemma poll_abort_spec b w :
  let '(w', r) := poll_abort b w in
  w_detail w' = w_detail w /\ n_out (w_net w') = n_out (w_net w) /\ left_over w' = left_over w /\ exists a, r = Ret a.
Proof. unfold poll_abort. destruct b; simpl; eauto 10. Qed.

(** One wait that returns: what was sent, and that the detail array is whole. *)
Definition wait_post (w : world) (sent seen : Z) (res : world * outcome (Z * Z * Z)) : Prop :=
  let '(w', r) := res in
  r <> Stuck /\ zlen (w_detail w') = 4097 /\
  forall st sent' seen', r = Ret (st, sent', seen') ->
    sent <= sent' /\ seen <= seen' /\ n_out (w_net w') = n_out (w_net w) ++ kframes (sent' - sent).

Lemma wait_post_fail w w' sent seen : zlen (w_detail w') = 4097 -> wait_post w sent seen (w', Fail).
Proof. by intros. Qed.

(** A wait that starts after the output [x] was sent. *)
Lemma wait_post_later w w1 sent sent1 seen seen1 res :
  wait_post w1 sent1 seen1 res -> seen <= seen1 -> sent <= sent1 ->
  n_out (w_net w1) = n_out (w_net w) ++ kframes (sent1 - sent) -> wait_post w sent seen res.
Proof.
  destruct res as [w' r]. intros (Hn&Hd&Hp) H1 H2 Ho. split_and!; [done..|]. intros st s' n' E.
  destruct (Hp st s' n' E) as (H3&H4&H5). split_and!; [lia|lia|]. rewrite H5, Ho, <- app_assoc. f_equal.
  unfold kframes. rewrite <- concat_app, <- replicate_add. f_equal. f_equal. lia.
Qed.

Lemma keepalive_wait_post fuel b sent seen w :
  (left_over w < fuel)%nat -> zlen (w_detail w) = 4097 -> 0 <= sent ->
  wait_post w sent seen (keepalive_wait fuel b sent seen w).
Proof.
  revert sent seen w. induction fuel as [|fuel IH]; intros sent seen w Hf Hd Hs; [lia|]. cbn [keepalive_wait].
  unfold io_bind at 1. pose proof (poll_abort_spec b w) as Hp. destruct (poll_abort b w) as [w1 r1].
  destruct Hp as (Hd1&Ho1&Hl1&a&->). unfold io_bind at 1, io_check at 1.
  destruct (negb a); [|apply wait_post_fail; congruence]. unfold io_ret at 1. cbv beta iota.
  unfold io_bind at 1. pose proof (first_wait_spec w1) as Hw. destruct (first_wait w1) as [w2 r2].
  destruct Hw as (Hd2&Ho2&Hn2&Hl2&Hstrict).
  destruct r2 as [o| |]; [|apply wait_post_fail; congruence|done]. specialize (Hstrict o eq_refl).
  assert (H0 : kframes 0 = []) by done. destruct o.
  - unfold io_bind at 1. pose proof (read_status_spec w2) as Hr. destruct (protocol_read_status w2) as [w3 r3].
    destruct Hr as (Hd3&Ho3&Hn3&_&Hl3). destruct r3 as [st| |]; [|apply wait_post_fail; congruence|done].
    specialize (Hl3 st eq_refl).
    unfold io_bind at 1, io_check. destruct (status_is_valid st); [|apply wait_post_fail; congruence].
    unfold io_ret at 1. cbv beta iota. unfold io_bind at 1.
    destruct (keeps_capture st b w3) as (Hd4&Hn4&Hl4); [congruence|]. pose proof (keeps_out_capture st b w3) as Ho4.
    destruct (protocol_capture_error_detail st b w3) as [w4 r4]. simpl in Hd4, Hn4, Hl4, Ho4.
    destruct r4 as [st'| |]; [|by apply wait_post_fail|done].
    destruct (st' =? STATUS_KEEPALIVE).
    + eapply wait_post_later; [apply IH; [lia|done|done]|lia|lia|]. rewrite Z.sub_diag, H0, app_nil_r. congruence.
    + split_and!; [done|done|]. intros s' a' b' [= -> <- <-]. rewrite Z.sub_diag, H0, app_nil_r.
      split_and!; [lia|lia|congruence].
  - specialize (Hstrict ltac:(done)). unfold io_bind at 1. pose proof (poll_abort_spec b w2) as Hp.
    destruct (poll_abort b w2) as [w3 r3]. destruct Hp as (Hd3&Ho3&Hl3&a3&->). unfold io_bind at 1, io_check.
    destruct (negb a3); [|apply wait_post_fail; congruence]. unfold io_ret at 1. cbv beta iota. unfold io_bind at 1.
    pose proof (send_status_spec STATUS_KEEPALIVE w3) as Hsend. destruct (protocol_send_status STATUS_KEEPALIVE w3) as [w4 r4].
    destruct Hsend as (Hd4&Hn4&Hl4&Ho4). destruct r4 as [[]| |]; [|apply wait_post_fail; congruence|done].
    specialize (Ho4 eq_refl). eapply wait_post_later; [apply IH; [lia|congruence|lia]|lia|lia|].
    rewrite Ho4, Ho3, Ho2, Ho1. f_equal. replace (sent + 1 - sent) with (0 + 1) by lia. by rewrite kframes_succ.
  - specialize (Hstrict ltac:(done)). eapply wait_post_later; [apply IH; [lia|congruence|done]|lia|lia|].
    rewrite Z.sub_diag, H0, app_nil_r. congruence.
Qed.

Lemma drain_replies_total n b w :
  zlen (w_detail w) = 4097 -> snd (drain_replies n b w) <> Stuck /\ n_out (w_net (fst (drain_replies n b w))) = n_out (w_net w).
Proof.
  revert w. induction n as [|n IH]; intros w Hd; cbn [drain_replies]; [done|].
  pose proof (read_status_spec w) as Hr. destruct (protocol_read_status w) as [w1 r1].
  destruct Hr as (Hd1&Ho1&Hn1&_&_). destruct r1 as [st| |]; [|done..].
  unfold io_bind at 1 3. destruct (keeps_capture st b w1) as (Hd2&Hn2&_); [congruence|].
  pose proof (keeps_out_capture st b w1) as Ho2. destruct (protocol_capture_error_detail st b w1) as [w2 r2].
  simpl in Hd2, Hn2, Ho2. destruct r2 as [st'| |]; [|simpl; split; [done|congruence]|done].
  unfold io_bind, io_check. destruct (st' =? STATUS_KEEPALIVE); simpl; [|split; [done|congruence]].
  destruct (IH w2 Hd2) as [H1 H2]. split; [done|congruence].
Qed.

(** The replies the peer owes are consumed, and the detail is kept. *)
Lemma consumes_replies n b : consumes (drain_replies n b) (kframes (Z.of_nat n)) tt id.
Proof.
  induction n as [|n IH]; [apply consumes_ret|].
  intros w rest k Hw. destruct Hw as (Hin&Hst&Hk&Hd).
  assert (Hkf : kframes (Z.of_nat (S n)) = put_le 4 STATUS_KEEPALIVE ++ kframes (Z.of_nat n)).
  { unfold kframes. by rewrite !Nat2Z.id. }
  rewrite Hkf in Hin, Hst. rewrite zlen_app in Hst. pose proof (zlen_nonneg (kframes (Z.of_nat n))).
  destruct (consumes_recv (put_le 4 STATUS_KEEPALIVE) w (kframes (Z.of_nat n) ++ rest) (zlen (kframes (Z.of_nat n)) + k))
    as (w1&E1&Hin1&Hst1&Hs1&Hd1&Hl1); [split_and!; [by rewrite Hin, app_assoc|by rewrite Z.add_assoc|lia|done]|].
  assert (Hread : exists w1', protocol_read_status w = (w1', Ret STATUS_KEEPALIVE) /\
    n_in (w_net w1') = kframes (Z.of_nat n) ++ rest /\ steady_rx (w_net w1') (zlen (kframes (Z.of_nat n)) + k) /\
    same_but_rx w w1' /\ w_detail w1' = w_detail w).
  { unfold recv_bytes, protocol_receive_n_data in E1. rewrite zlen_put_le in E1. change (Z.of_nat 4) with 4 in E1.
    unfold protocol_read_status. destruct (recv_loop _ _ _ _ _) as [[evs input] o]. injection E1 as <- Ho.
    destruct o as [x|]; [|done]. injection Ho as ->. simpl in Hin1, Hst1. eexists. split.
    - rewrite <- (app_nil_r (put_le 4 STATUS_KEEPALIVE)), (get_put_4_front STATUS_KEEPALIVE []) by done. reflexivity.
    - split_and!; [done|exact Hst1|done..]. }
  destruct Hread as (w1'&E1'&Hin1'&Hst1'&Hs1'&Hd1').
  destruct (IH w1' rest k) as (w2&E2&Hin2&Hst2&Hs2&Hd2&Hl2); [split_and!; congruence || done|].
  exists w2. cbn [drain_replies]. rewrite E1'. unfold io_bind at 1, protocol_capture_error_detail. simpl (_ =? _).
  cbv iota. unfold io_ret, io_bind, io_check. simpl (_ =? _). cbv beta iota. unfold io_ret. rewrite E2.
  split_and!; [done|done|done|by etransitivity|unfold id in *; congruence|done].
Qed.

(** The keepalive wait leaves the stream in step.  The wait always ends,
    whatever the peer sends; it puts exactly one keepalive frame on the wire for
    each interval the peer was silent; and when the peer has answered with
    status [st] and then sends the replies it still owes, the call returns [st]
    with the input at the frame after the last reply, and keeps the rejection
    detail that came with the status. *)
Lemma keepalive_in_step b w w1 st sent seen rest k
    (Hdetail : zlen (w_detail w) = 4097)
    (Hwait : keepalive_wait (S (left_over w)) b 0 0 w = (w1, Ret (st, sent, seen)))
    (Howed : delivers w1 (kframes (sent - seen)) rest k) :
  exists w', protocol_receive_status_keepalive b w = (w', Ret st) /\ n_in (w_net w') = rest /\
    n_out (w_net w') = n_out (w_net w) ++ kframes sent /\ protocol_last_error w' = protocol_last_error w1.
Proof.
  pose proof (keepalive_wait_post (S (left_over w)) b 0 0 w ltac:(lia) Hdetail ltac:(lia)) as Hp.
  rewrite Hwait in Hp. destruct Hp as (_&_&Hp). destruct (Hp st sent seen eq_refl) as (H1&H2&Ho).
  unfold protocol_receive_status_keepalive, io_bind at 1. unfold left_over in Hwait. rewrite Hwait.
  assert (Hk : kframes (sent - seen) = kframes (Z.of_nat (Z.to_nat (sent - seen)))).
  { unfold kframes. f_equal. f_equal. lia. }
  rewrite Hk in Howed. destruct (consumes_replies (Z.to_nat (sent - seen)) b w1 rest k Howed)
    as (w2&E2&Hin2&_&Hs2&Hd2&_).
  unfold io_bind. rewrite E2. exists w2. split_and!; [done|done| |].
  - destruct Hs2 as (_&_&_&_&_&Hout&_). rewrite Hout, Ho. by rewrite Z.sub_0_r.
  - unfold protocol_last_error. by rewrite Hd2.
Qed.

(** The keepalive wait always ends and never overruns the detail buffer:
    for every schedule, clock, abort callback and input the call returns or
    fails. *)
Lemma keepalive_total b w (Hdetail : zlen (w_detail w) = 4097) :
  exists w' r, protocol_receive_status_keepalive b w = (w', r) /\ r <> Stuck.
Proof.
  unfold protocol_receive_status_keepalive, io_bind at 1.
  pose proof (keepalive_wait_post (S (left_over w)) b 0 0 w ltac:(lia) Hdetail ltac:(lia)) as Hp.
  unfold left_over in Hp. destruct (keepalive_wait _ b 0 0 w) as [w1 r1]. destruct Hp as (Hn&Hd&Hp).
  destruct r1 as [[[st sent] seen]| |]; [|by eexists _, _|done].
  unfold io_bind. destruct (drain_replies_total (Z.to_nat (sent - seen)) b w1 Hd) as [Hn2 Ho2].
  destruct (drain_replies (Z.to_nat (sent - seen)) b w1) as [w2 [a| |]]; simpl in Hn2; [by eexists _, _..|done].
Qed.

(** ** The budget under concurrency

    Worker threads of one connection reserve and release with compare-and-swap
    loops on the session's counter: a load, then attempts that succeed only when
    the counter still has the value seen, and may fail spuriously. *)
Module Concurrent.

Inductive pc := Idle | Reserving (charge seen : Z) | Releasing (charge seen : Z).
Record thread := MkThread { t_pc : pc; t_held : list Z }.
Record state := MkState { allocated : Z; threads : list thread }.

Inductive step : state -> state -> Prop :=
| s_reserve a ts t held charge :
    ts !! t = Some (MkThread Idle held) -> 0 < charge < 2 ^ 63 ->
    step (MkState a ts) (MkState a (<[t := MkThread (Reserving charge a) held]> ts))
| s_refused a ts t held charge seen :
    ts !! t = Some (MkThread (Reserving charge seen) held) -> reserve_next seen charge = None ->
    step (MkState a ts) (MkState a (<[t := MkThread Idle held]> ts))
| s_reserved a ts t held charge a' :
    ts !! t = Some (MkThread (Reserving charge a) held) -> reserve_next a charge = Some a' ->
    step (MkState a ts) (MkState a' (<[t := MkThread Idle (charge :: held)]> ts))
| s_reserve_retry a ts t held charge seen :
    ts !! t = Some (MkThread (Reserving charge seen) held) -> reserve_next seen charge <> None ->
    step (MkState a ts) (MkState a (<[t := MkThread (Reserving charge a) held]> ts))
| s_release a ts t h1 charge h2 :
    ts !! t = Some (MkThread Idle (h1 ++ charge :: h2)) ->
    step (MkState a ts) (MkState a (<[t := MkThread (Releasing charge a) (h1 ++ h2)]> ts))
| s_released a ts t held charge :
    ts !! t = Some (MkThread (Releasing charge a) held) ->
    step (MkState a ts) (MkState (release_next a charge) (<[t := MkThread Idle held]> ts))
| s_release_retry a ts t held charge seen :
    ts !! t = Some (MkThread (Releasing charge seen) held) ->
    step (MkState a ts) (MkState a (<[t := MkThread (Releasing charge a) held]> ts)).

(** What a thread has charged to the session. *)
Fixpoint sum (l : list Z) : Z := match l with [] => 0 | c :: l => c + sum l end.
Definition charged (th : thread) : Z :=
  sum (t_held th) + match t_pc th with Releasing c _ => c | _ => 0 end.
Definition total (ts : list thread) : Z := sum (charged <$> ts).

Definition positive (th : thread) : Prop :=
  Forall (fun c => 0 < c) (t_held th) /\
  match t_pc th with Releasing c _ | Reserving c _ => 0 < c < 2 ^ 63 | Idle => True end.
Definition bounded (th : thread) : Prop := Forall (fun c => c < 2 ^ 63) (t_held th).

Lemma sum_app l k : sum (l ++ k) = sum l + sum k.
Proof. induction l; simpl; lia. Qed.

Lemma total_insert ts t th th' :
  ts !! t = Some th -> total (<[t := th']> ts) = total ts - charged th + charged th'.
Proof.
  intros Ht. pose proof (lookup_lt_Some _ _ _ Ht) as Hlt.
  rewrite insert_take_drop by done. rewrite <- (take_drop_middle ts t th Ht) at 3.
  unfold total. rewrite !fmap_app, !fmap_cons, !sum_app. simpl. lia.
Qed.

Lemma sum_nonneg l : Forall (fun c => 0 < c) l -> 0 <= sum l.
Proof. induction 1; simpl; lia. Qed.

Lemma charged_nonneg th : positive th -> 0 <= charged th.
Proof. intros [Hh Hp]. unfold charged. pose proof (sum_nonneg _ Hh). destruct (t_pc th); lia. Qed.

Lemma charged_le_total ts t th : Forall positive ts -> ts !! t = Some th -> charged th <= total ts.
Proof.
  intros Hp Ht. rewrite <- (take_drop_middle ts t th Ht) in Hp |- *.
  apply Forall_app in Hp as [H1 H2]. apply Forall_cons in H2 as [H2 H3].
  unfold total. rewrite fmap_app, fmap_cons, sum_app. cbn [sum].
  assert (Hn : forall l, Forall positive l -> 0 <= sum (charged <$> l)).
  { induction 1 as [|x l Hx _ IH]; [done|]. rewrite fmap_cons. cbn [sum]. pose proof (charged_nonneg x Hx). lia. }
  pose proof (Hn _ H1). pose proof (Hn _ H3). lia.
Qed.

Record inv (s : state) : Prop := {
  i_total : allocated s = total (threads s);
  i_bound : 0 <= allocated s <= MAX_CONNECTION_MEMORY;
  i_pos : Forall positive (threads s);
  i_small : Forall bounded (threads s);
}.

Lemma inv_step s s' : inv s -> step s s' -> inv s'.
Proof.
  intros [Ht Hb Hp Hsm] Hst.
  assert (Hpos : forall t th, threads s !! t = Some th -> positive th /\ bounded th).
  { intros t th E. split; [by eapply Forall_lookup_1 in Hp|by eapply Forall_lookup_1 in Hsm]. }
  destruct Hst as [a ts t held c E Hc|a ts t held c seen E Hr|a ts t held c a' E Hr|a ts t held c seen E Hr
    |a ts t h1 c h2 E|a ts t held c E|a ts t held c seen E]; simpl in *;
    destruct (Hpos t _ E) as [[Hh Hpc] Hsm']; unfold bounded in Hsm'; simpl in Hh, Hpc, Hsm'.
  - split; simpl; [rewrite (total_insert _ _ _ _ E); unfold charged; simpl; lia|done|by apply Forall_insert|by apply Forall_insert].
  - split; simpl; [rewrite (total_insert _ _ _ _ E); unfold charged; simpl; lia|done|by apply Forall_insert|by apply Forall_insert].
  - pose proof (reserve_next_spec a c Hb ltac:(lia)) as Hs. rewrite Hr in Hs. destruct Hs as [-> Hm].
    split; simpl; [rewrite (total_insert _ _ _ _ E); unfold charged; simpl; lia|lia| |].
    + apply Forall_insert; [done|]. split; simpl; [apply Forall_cons; split; [lia|done]|done].
    + apply Forall_insert; [done|]. unfold bounded; simpl. apply Forall_cons. split; [lia|done].
  - split; simpl; [rewrite (total_insert _ _ _ _ E); unfold charged; simpl; lia|done|by apply Forall_insert|by apply Forall_insert].
  - apply Forall_app in Hh as [Hh1 Hh2], Hsm' as [Hs1 Hs2]. apply Forall_cons in Hh2 as [Hc Hh2], Hs2 as [Hcs Hs2].
    split; simpl.
    + rewrite (total_insert _ _ _ _ E). unfold charged. simpl. rewrite !sum_app. simpl. lia.
    + done.
    + apply Forall_insert; [done|]. split; simpl; [by apply Forall_app_2|lia].
    + apply Forall_insert; [done|]. by apply Forall_app_2.
  - pose proof (charged_le_total ts t _ Hp E) as Hle. pose proof (sum_nonneg held Hh).
    unfold charged in Hle. simpl in Hle. rewrite release_next_spec by lia.
    split; simpl; [rewrite (total_insert _ _ _ _ E); unfold charged; simpl; lia|lia|by apply Forall_insert|by apply Forall_insert].
  - split; simpl; [rewrite (total_insert _ _ _ _ E); unfold charged; simpl; lia|done|by apply Forall_insert|by apply Forall_insert].
Qed.

Definition init (n : nat) : state := MkState 0 (replicate n (MkThread Idle [])).

Lemma inv_init n : inv (init n).
Proof.
  split; simpl; [|unfold MAX_CONNECTION_MEMORY; lia|apply Forall_replicate; split; [constructor|done]|apply Forall_replicate; constructor].
  induction n as [|n IH]; [done|]. unfold total in *. cbn [replicate]. rewrite fmap_cons. cbn [sum]. rewrite <- IH. done.
Qed.

(** C24: the connection budget is exact under every interleaving.  However many
    threads reserve and release on one session, with any schedule of their
    loads and compare-and-swaps, the counter always equals the sum of the
    charges the threads hold, and never exceeds the budget of 256 MiB: no
    charge is lost or counted twice. *)
Theorem budget_exact n s (Hs : rtc step (init n) s) :
  allocated s = total (threads s) /\ 0 <= total (threads s) <= MAX_CONNECTION_MEMORY.
Proof.
  assert (Hi : forall s s', inv s -> rtc step s s' -> inv s')
    by (intros s1 s2 Hi Hst; induction Hst; eauto using inv_step).
  destruct (Hi _ _ (inv_init n) Hs) as [Ht Hb _ _]. rewrite <- Ht. done.
Qed.

(** Two threads race: the second one's first attempt is stale and retried. *)
Lemma budget_exact_witness :
  let s := MkState 30 [MkThread Idle [10]; MkThread Idle [20]] in
  rtc step (init 2) s /\ allocated s = total (threads s) /\ 0 <= total (threads s) <= MAX_CONNECTION_MEMORY.
Proof.
  intros s. assert (Hrun : rtc step (init 2) s).
  { eapply rtc_l; [apply (s_reserve 0 _ 0 [] 10); [reflexivity|lia]|].
    eapply rtc_l; [apply (s_reserve 0 _ 1 [] 20); [reflexivity|lia]|].
    eapply rtc_l; [apply (s_reserved 0 _ 0 [] 10 10); reflexivity|].
    eapply rtc_l; [apply (s_reserve_retry 10 _ 1 [] 20 0); [reflexivity|done]|].
    eapply rtc_l; [apply (s_reserved 10 _ 1 [] 20 30); reflexivity|]. apply rtc_refl. }
  split; [exact Hrun|]. exact (budget_exact 2 s Hrun).
Defined.
End Concurrent.

(** ** Witnesses *)

Definition demo_tx : world :=
  MkWorld (MkNet true 1000 [] [] (cs "old") (repeat (ev1 PollReady) 40) 0 0) 1 None [0; 0] (replicate 4097 Byte.x00) [] [].

