(* ===== verification/Wp.v ===== *)
(** Weakest preconditions of the two kinds of computation: [owp] of an
    [outcome], [iowp] of a function on a session.  Both say that the
    computation is not [Stuck] and what holds when it returns; [iowp] also says
    what holds of the world when it fails. *)

From S2P Require Import Prelude Alloc DataBuf Transport Session.

Definition owp {A} (m : outcome A) (Q : A -> Prop) : Prop :=
  match m with Ret a => Q a | Fail => True | Stuck => False end.

Lemma owp_bind {A B} (f : A -> outcome B) (m : outcome A) (Q : B -> Prop) :
  owp m (fun a => owp (f a) Q) -> owp (mbind f m) Q.
Proof. by destruct m. Qed.

Lemma owp_mono {A} (m : outcome A) (P Q : A -> Prop) : owp m P -> (forall a, P a -> Q a) -> owp m Q.
Proof. destruct m; simpl; auto. Qed.

Lemma owp_check b (Q : unit -> Prop) : (b = true -> Q tt) -> owp (check b) Q.
Proof. destruct b; simpl; auto. Qed.

Lemma owp_ret {A} (a : A) (Q : A -> Prop) : Q a -> owp (Ret a) Q.
Proof. done. Qed.

Lemma owp_get_le w buf pos (Q : Z -> Prop) :
  0 <= pos -> pos + Z.of_nat w <= zlen buf -> (forall z, 0 <= z < 2 ^ (8 * Z.of_nat w) -> Q z) ->
  owp (get_le w buf pos) Q.
Proof.
  intros Hp Hl HQ. destruct (get_le_total w buf pos Hp Hl) as [z E]. rewrite E. apply HQ.
  by apply get_le_ret_inv in E as (_&_&?).
Qed.

Lemma owp_rd {A} (buf : list A) pos n (Q : list A -> Prop) :
  0 <= pos -> 0 <= n -> pos + n <= zlen buf -> (forall bs, zlen bs = n -> Q bs) -> owp (rd buf pos n) Q.
Proof.
  intros Hp Hn Hl HQ. destruct (rd buf pos n) as [bs| |] eqn:E; [|done|by rewrite rd_ret in E].
  apply HQ. by apply rd_zlen in E.
Qed.

Definition iowp {A} (m : io A) (Q : world -> option A -> Prop) (w : world) : Prop :=
  match m w with
  | (w', Ret a) => Q w' (Some a)
  | (w', Fail) => Q w' None
  | (_, Stuck) => False
  end.

Lemma iowp_bind {A B} (m : io A) (k : A -> io B) Q w :
  iowp m (fun w' r => match r with Some a => iowp (k a) Q w' | None => Q w' None end) w ->
  iowp (io_bind m k) Q w.
Proof. unfold iowp, io_bind. by destruct (m w) as [w' [a| |]]. Qed.

Lemma iowp_mono {A} (m : io A) (P Q : world -> option A -> Prop) w :
  iowp m P w -> (forall w' r, P w' r -> Q w' r) -> iowp m Q w.
Proof. unfold iowp. destruct (m w) as [w' [a| |]]; auto. Qed.

Lemma iowp_of {A} (m : outcome A) (Q : world -> option A -> Prop) w :
  owp m (fun a => Q w (Some a)) -> Q w None -> iowp (io_of m) Q w.
Proof. unfold iowp, io_of. by destruct m. Qed.

Lemma iowp_of_ret {A} (m : outcome A) a (Q : world -> option A -> Prop) w :
  m = Ret a -> Q w (Some a) -> iowp (io_of m) Q w.
Proof. by intros ->. Qed.

Lemma iowp_ret {A} (a : A) (Q : world -> option A -> Prop) w : Q w (Some a) -> iowp (io_ret a) Q w.
Proof. done. Qed.

Lemma iowp_check b (Q : world -> option unit -> Prop) w :
  (b = true -> Q w (Some tt)) -> (b = false -> Q w None) -> iowp (io_check b) Q w.
Proof. unfold iowp, io_check. destruct b; simpl; auto. Qed.

(** A computation that cannot be stuck and always returns. *)
Lemma iowp_run {A} (m : io A) (Q : world -> option A -> Prop) w w' r :
  iowp m Q w -> m w = (w', r) -> match r with Ret a => Q w' (Some a) | Fail => Q w' None | Stuck => False end.
Proof. unfold iowp. intros H E. rewrite E in H. done. Qed.

Ltac wp_bind := apply owp_bind.
Ltac wp_check E := apply owp_bind, owp_check; intros E.
Ltac io_step := apply iowp_bind.

(** ** World-independent postconditions: [m] is never [Stuck], and what it
    returns satisfies [P], in every world. *)
Definition gives {A} (m : io A) (P : A -> Prop) : Prop :=
  forall w, match snd (m w) with Ret a => P a | Fail => True | Stuck => False end.

Lemma gives_bind {A B} (m : io A) (k : A -> io B) (P : A -> Prop) (Q : B -> Prop) :
  gives m P -> (forall a, P a -> gives (k a) Q) -> gives (io_bind m k) Q.
Proof.
  intros Hm Hk w. unfold io_bind. specialize (Hm w). destruct (m w) as [w' [a| |]]; simpl in *; [|done..].
  by apply (Hk a Hm w').
Qed.
Lemma gives_ret {A} (a : A) (P : A -> Prop) : P a -> gives (io_ret a) P.
Proof. by intros ? w. Qed.
Lemma gives_fail {A} (P : A -> Prop) : gives io_fail P.
Proof. by intros w. Qed.
Lemma gives_check b : gives (io_check b) (fun _ => b = true).
Proof. by destruct b; intros w. Qed.
Lemma gives_of {A} (m : outcome A) (P : A -> Prop) : owp m P -> gives (io_of m) P.
Proof. by intros Hm w. Qed.
Lemma gives_mono {A} (m : io A) (P Q : A -> Prop) : gives m P -> (forall a, P a -> Q a) -> gives m Q.
Proof. intros Hm HPQ w. specialize (Hm w). destruct (m w) as [w' [a| |]]; simpl in *; auto. Qed.

(** Run the first step by lemma [L]; its result [a] satisfies [H]. *)
Tactic Notation "g_step" uconstr(L) "as" simple_intropattern(a) simple_intropattern(H) :=
  eapply gives_bind; [apply L; try lia|cbn beta; intros a H].

Lemma gives_recv_bytes n : 0 <= n -> gives (recv_bytes n) (fun bs => zlen bs = n).
Proof.
  intros Hn w. destruct (recv_bytes n w) as [w' r] eqn:E. apply recv_bytes_any in E as (_&H1&H2); [|done].
  destruct r; simpl; auto.
Qed.
Lemma gives_recv_int wd : gives (recv_int wd) (fun z => 0 <= z < 2 ^ (8 * Z.of_nat wd)).
Proof.
  intros w. destruct (recv_int wd w) as [w' r] eqn:E. apply recv_int_any in E as (_&H1&H2). destruct r; simpl; auto.
Qed.
Lemma gives_receive_int : gives protocol_receive_int (fun z => - 2 ^ 31 <= z < 2 ^ 31).
Proof.
  g_step gives_recv_int as z _. apply gives_ret. unfold i32.
  pose proof (Z.mod_pos_bound (z + 2 ^ 31) (2 ^ 32) ltac:(lia)). lia.
Qed.
Lemma gives_receive_str `{Heap} :
  gives protocol_receive_str (fun d => zlen d <= MAX_STRING_SIZE /\ Byte.x00 ∉ d).
Proof.
  g_step gives_recv_int as size Hs. g_step gives_check as _ Hc. g_step gives_check as _ _.
  g_step gives_recv_bytes as d Hd. g_step gives_check as _ Hn. apply gives_ret.
  rewrite negb_true_iff, orb_false_iff in Hc. destruct Hc as [Hc _]. rewrite negb_true_iff, bool_decide_eq_false in Hn.
  destruct (Z.gtb_spec size MAX_STRING_SIZE); [done|]. split; [lia|done].
Qed.
Lemma gives_send_bytes d : gives (send_bytes d) (fun _ => True).
Proof.
  intros w. unfold send_bytes. destruct (protocol_send_n_data (w_net w) d) as [n ok]. by destruct ok.
Qed.
Lemma gives_send_str `{Heap} d : gives (protocol_send_str d) (fun _ => True).
Proof. destruct d; [|apply gives_fail]. g_step gives_send_bytes as _ _. apply gives_send_bytes. Qed.
Lemma gives_error_detail `{Heap} msg : gives (send_error_detail msg) (fun _ => True).
Proof. g_step gives_send_bytes as _ _. apply gives_send_str. Qed.
