(* ===== verification/Metadata.v ===== *)
(** File metadata of src/shared/metadata.c: the 68-byte wire record, the
    modification-time comparison and the rule that picks the mode a receiver
    applies. *)

From S2P Require Import Prelude Alloc Transport Session.

(** file.h [FileMetadata]: [mode_t], [uid_t] and [gid_t] are 32-bit unsigned,
    the times 64-bit signed. *)
Record FileMetadata := MkMeta {
  mode : Z; uid : Z; gid : Z;
  mtime_sec : Z; mtime_nsec : Z;
  atime_valid : bool; atime_sec : Z; atime_nsec : Z;
  crtime_valid : bool; crtime_sec : Z; crtime_nsec : Z;
}.

Definition FILE_METADATA_WIRE_SIZE : Z := 4 * 5 + 8 * 6.
Definition sizeof_FileMetadata : Z := 80.
Definition b2z (b : bool) : Z := if b then 1 else 0.

(** metadata.c [metadata_to_buf]: what it writes at the cursor. *)
Definition metadata_to_buf (m : option FileMetadata) : list byte :=
  match m with
  | None => put_le 4 0
  | Some m =>
      put_le 4 1 ++ put_le 4 (mode m) ++ put_le 4 (uid m) ++ put_le 4 (gid m) ++
      put_le 8 (mtime_sec m) ++ put_le 8 (mtime_nsec m) ++
      put_le 4 (b2z (atime_valid m)) ++ put_le 8 (atime_sec m) ++ put_le 8 (atime_nsec m) ++
      put_le 4 (b2z (crtime_valid m)) ++ put_le 8 (crtime_sec m) ++ put_le 8 (crtime_nsec m)
  end.

Definition billion : Z := 1000000000.
Definition bad_nsec (z : Z) : bool := (z <? 0) || (z >=? billion).

Section Codec.
Context `{Heap}.

(** metadata.c [metadata_from_buf] *)
Definition metadata_from_buf (buf : option (list byte)) (len : Z) : outcome FileMetadata :=
  buf ← of_option buf;
  check (negb (len <? 4));;
  present ← get_le 4 buf 0;
  check (i32 present =? 1);;
  check (negb (len <? 4 + FILE_METADATA_WIRE_SIZE));;
  check (protocol_alloc sizeof_FileMetadata);;
  md ← get_le 4 buf 4; u ← get_le 4 buf 8; g ← get_le 4 buf 12;
  ms ← get_le 8 buf 16; mn ← get_le 8 buf 24;
  av ← get_le 4 buf 32; as_ ← get_le 8 buf 36; an ← get_le 8 buf 44;
  cv ← get_le 4 buf 52; cs_ ← get_le 8 buf 56; cn ← get_le 8 buf 64;
  let '(md, u, g, ms, mn) := (i32 md, i32 u, i32 g, i64 ms, i64 mn) in
  let '(av, as_, an, cv, cs_, cn) := (i32 av, i64 as_, i64 an, i32 cv, i64 cs_, i64 cn) in
  check (negb (bad_nsec mn || (md <? 0) || (u <? 0) || (g <? 0)
               || (av <? 0) || (av >? 1) || (cv <? 0) || (cv >? 1)
               || (negb (av =? 0) && bad_nsec an) || (negb (cv =? 0) && bad_nsec cn)));;
  Ret (MkMeta (u32 md) (u32 u) (u32 g) ms mn (negb (av =? 0)) as_ an (negb (cv =? 0)) cs_ cn).

(** metadata.c [metadata_send] *)
Definition metadata_send (m : option FileMetadata) : io unit := send_bytes (metadata_to_buf m).

(** metadata.c [metadata_receive]: [Ret None] is an absent record, [Fail] is
    [*ok = 0]. *)
Definition metadata_receive : io (option FileMetadata) :=
  head <~ recv_bytes 4;
  present <~ io_of (get_le 4 head 0);
  if i32 present =? 0 then io_ret None
  else
    io_check (i32 present =? 1) >~
    body <~ recv_bytes FILE_METADATA_WIRE_SIZE;
    m <~ io_of (metadata_from_buf (Some (head ++ body)) (4 + FILE_METADATA_WIRE_SIZE));
    io_ret (Some m).
End Codec.

(** metadata.c [metadata_mtime_matches]: the subtractions are on [int64_t]. *)
Definition int64_ok (z : Z) : outcome Z :=
  if (- 2 ^ 63 <=? z) && (z <? 2 ^ 63) then Ret z else Stuck.
Definition metadata_mtime_matches (left_sec left_nsec right_sec right_nsec modify_window : Z) : outcome bool :=
  '(seconds, nanoseconds) ←
    (if (left_sec >? right_sec) || ((left_sec =? right_sec) && (left_nsec >=? right_nsec)) then
       s ← int64_ok (left_sec - right_sec); n ← int64_ok (left_nsec - right_nsec); Ret (s, n)
     else s ← int64_ok (right_sec - left_sec); n ← int64_ok (right_nsec - left_nsec); Ret (s, n));
  '(seconds, nanoseconds) ←
    (if nanoseconds <? 0 then
       s ← int64_ok (seconds - 1); n ← int64_ok (nanoseconds + billion); Ret (s, n)
     else Ret (seconds, nanoseconds));
  if modify_window =? 0 then Ret (left_sec =? right_sec)
  else Ret ((seconds <? modify_window) || ((seconds =? modify_window) && (nanoseconds =? 0))).

(** file_attr.h [FileAttrPolicy] *)
Record FileAttrPolicy := MkPolicy {
  perms : bool; times : bool; atimes : bool; executability : bool; super_permitted : bool;
}.

(** S_ISUID | S_ISGID | S_ISVTX (07000), 0777, 0111 and 0444 *)
Definition special_bits : Z := 0xE00.
Definition perm_bits : Z := 0x1FF.
Definition execute_bits : Z := 0x49.
Definition read_bits : Z := 0x124.

(** metadata.c [metadata_mode_for_policy]; [None] is [false]. *)
Definition metadata_mode_for_policy (source_mode current_mode : Z) (policy : FileAttrPolicy) : option Z :=
  if perms policy then
    let bits := Z.land source_mode (Z.lor special_bits perm_bits) in
    Some (if negb (super_permitted policy) then Z.ldiff bits special_bits else bits)
  else if executability policy then
    let base := Z.land current_mode (Z.lor special_bits perm_bits) in
    let base := if negb (super_permitted policy) then Z.ldiff base special_bits else base in
    Some (if negb (Z.land source_mode execute_bits =? 0)
          then Z.lor base (Z.shiftr (Z.land base read_bits) 2)
          else Z.ldiff base execute_bits)
  else None.

(** The two time slots of the [utimensat] and [futimens] calls (access time,
    modification time) that the three restore functions fill in: [None] is
    [UTIME_OMIT]; no call is made when neither is set. *)
Definition restore_times (m : FileMetadata) (policy : FileAttrPolicy) : option (option (Z * Z) * option (Z * Z)) :=
  if times policy || (atimes policy && atime_valid m) then
    Some (if atimes policy && atime_valid m then Some (atime_sec m, atime_nsec m) else None,
          if times policy then Some (mtime_sec m, mtime_nsec m) else None)
  else None.

(** ** The record *)

(** What the C types hold. *)
Record meta_typed (m : FileMetadata) : Prop := {
  mt_mode : 0 <= mode m < 2 ^ 32; mt_uid : 0 <= uid m < 2 ^ 32; mt_gid : 0 <= gid m < 2 ^ 32;
  mt_ms : - 2 ^ 63 <= mtime_sec m < 2 ^ 63; mt_mn : - 2 ^ 63 <= mtime_nsec m < 2 ^ 63;
  mt_as : - 2 ^ 63 <= atime_sec m < 2 ^ 63; mt_an : - 2 ^ 63 <= atime_nsec m < 2 ^ 63;
  mt_cs : - 2 ^ 63 <= crtime_sec m < 2 ^ 63; mt_cn : - 2 ^ 63 <= crtime_nsec m < 2 ^ 63;
}.

(** The records the receiver accepts. *)
Definition meta_valid (m : FileMetadata) : bool :=
  (mode m <? 2 ^ 31) && (uid m <? 2 ^ 31) && (gid m <? 2 ^ 31) &&
  negb (bad_nsec (mtime_nsec m)) &&
  (negb (atime_valid m) || negb (bad_nsec (atime_nsec m))) &&
  (negb (crtime_valid m) || negb (bad_nsec (crtime_nsec m))).

Lemma zlen_to_buf m : zlen (metadata_to_buf (Some m)) = 4 + FILE_METADATA_WIRE_SIZE.
Proof. unfold metadata_to_buf. rewrite !zlen_app, !zlen_put_le. done. Qed.

(** A record as its list of fields: each is found at the sum of the widths
    before it. *)
Fixpoint enc (fs : list (nat * Z)) : list byte :=
  match fs with [] => [] | (w, z) :: fs => put_le w z ++ enc fs end.
Fixpoint offset (fs : list (nat * Z)) (i : nat) : Z :=
  match i, fs with S i, (w, _) :: fs => Z.of_nat w + offset fs i | _, _ => 0 end.

Lemma enc_get fs i w z pre :
  fs !! i = Some (w, z) ->
  get_le w (pre ++ enc fs) (zlen pre + offset fs i) = Ret (z mod 2 ^ (8 * Z.of_nat w)).
Proof.
  revert i pre. induction fs as [|[w0 z0] fs IH]; intros [|i] pre E; simpl in E |- *; try done.
  - injection E as -> ->. apply get_put_le. lia.
  - rewrite app_assoc. rewrite <- (IH i (pre ++ put_le w0 z0)) by done. f_equal. rewrite zlen_app, zlen_put_le. lia.
Qed.

Definition meta_fields (m : FileMetadata) : list (nat * Z) :=
  [(4%nat, 1); (4%nat, mode m); (4%nat, uid m); (4%nat, gid m); (8%nat, mtime_sec m); (8%nat, mtime_nsec m);
   (4%nat, b2z (atime_valid m)); (8%nat, atime_sec m); (8%nat, atime_nsec m);
   (4%nat, b2z (crtime_valid m)); (8%nat, crtime_sec m); (8%nat, crtime_nsec m)].

Lemma to_buf_fields m : metadata_to_buf (Some m) = enc (meta_fields m).
Proof. unfold metadata_to_buf, meta_fields. cbn [enc]. by rewrite app_nil_r. Qed.

Lemma meta_get m i w z pos :
  meta_fields m !! i = Some (w, z) -> pos = offset (meta_fields m) i ->
  get_le w (metadata_to_buf (Some m)) pos = Ret (z mod 2 ^ (8 * Z.of_nat w)).
Proof. intros E ->. rewrite to_buf_fields. by apply (enc_get (meta_fields m) i w z []). Qed.

Lemma i32_range z : - 2 ^ 31 <= i32 z < 2 ^ 31.
Proof. unfold i32. pose proof (Z.mod_pos_bound (z + 2 ^ 31) (2 ^ 32)). lia. Qed.

(** An unsigned field read back as a signed one. *)
Lemma i32_u32 z : 0 <= z < 2 ^ 32 -> (i32 z <? 0) = negb (z <? 2 ^ 31) /\ u32 (i32 z) = z.
Proof.
  intros Hz. unfold i32, u32. destruct (Z.ltb_spec z (2 ^ 31)) as [Hs|Hs].
  - rewrite (Z.mod_small (z + 2 ^ 31)) by lia. split; [destruct (Z.ltb_spec (z + 2 ^ 31 - 2 ^ 31) 0); lia|].
    rewrite Z.mod_small; lia.
  - replace ((z + 2 ^ 31) mod 2 ^ 32) with (z - 2 ^ 31)
      by (rewrite <- (Z.mod_unique (z + 2 ^ 31) (2 ^ 32) 1 (z - 2 ^ 31)); lia).
    split; [destruct (Z.ltb_spec (z - 2 ^ 31 - 2 ^ 31) 0); lia|].
    rewrite <- (Z.mod_unique (z - 2 ^ 31 - 2 ^ 31) (2 ^ 32) (-1) z); lia.
Qed.

Lemma i64_id z : - 2 ^ 63 <= z < 2 ^ 63 -> i64 (z mod 2 ^ (8 * Z.of_nat 8)) = z.
Proof. intros Hz. change (8 * Z.of_nat 8) with 64. rewrite i64_mod. by apply i64_small. Qed.
Lemma i32_id z : i32 (z mod 2 ^ (8 * Z.of_nat 4)) = i32 z.
Proof. change (8 * Z.of_nat 4) with 32. apply i32_mod. Qed.
Lemma i32_b2z b : i32 (b2z b) = b2z b.
Proof. by destruct b. Qed.

Section RoundTrip.
Context `{Heap}.

Lemma metadata_decodes m post len :
  meta_typed m -> protocol_alloc sizeof_FileMetadata = true -> 4 + FILE_METADATA_WIRE_SIZE <= len ->
  metadata_from_buf (Some (metadata_to_buf (Some m) ++ post)) len = if meta_valid m then Ret m else Fail.
Proof.
  intros Hm Hheap Hlen. destruct Hm as [H1 H2 H3 H4 H5 H6 H7 H8 H9]. unfold metadata_from_buf. cbn [of_option mbind outcome_bind].
  unfold FILE_METADATA_WIRE_SIZE in *. destruct (Z.ltb_spec len 4); [lia|]. cbn [negb check mbind outcome_bind].
  assert (Hget : forall i w z pos, meta_fields m !! i = Some (w, z) -> pos = offset (meta_fields m) i ->
    get_le w (metadata_to_buf (Some m) ++ post) pos = Ret (z mod 2 ^ (8 * Z.of_nat w))).
  { intros i w z pos E Ep. by apply get_le_app, (meta_get m i w z pos). }
  rewrite (Hget 0%nat 4%nat 1 0) by done. cbn [mbind outcome_bind]. rewrite i32_id.
  change (i32 1 =? 1) with true. cbn [check mbind outcome_bind].
  destruct (Z.ltb_spec len (4 + (4 * 5 + 8 * 6))); [lia|]. rewrite Hheap. cbn [negb check mbind outcome_bind].
  rewrite (Hget 1%nat 4%nat (mode m) 4), (Hget 2%nat 4%nat (uid m) 8), (Hget 3%nat 4%nat (gid m) 12),
    (Hget 4%nat 8%nat (mtime_sec m) 16), (Hget 5%nat 8%nat (mtime_nsec m) 24),
    (Hget 6%nat 4%nat (b2z (atime_valid m)) 32), (Hget 7%nat 8%nat (atime_sec m) 36), (Hget 8%nat 8%nat (atime_nsec m) 44),
    (Hget 9%nat 4%nat (b2z (crtime_valid m)) 52), (Hget 10%nat 8%nat (crtime_sec m) 56), (Hget 11%nat 8%nat (crtime_nsec m) 64) by done.
  cbn [mbind outcome_bind]. rewrite !i32_id, !i64_id, !i32_b2z by done.
  destruct (i32_u32 (mode m) H1) as [-> ->], (i32_u32 (uid m) H2) as [-> ->], (i32_u32 (gid m) H3) as [-> ->].
  unfold meta_valid. destruct m as [md u g ms mn av as_ an cv cs_ cn]; cbn [mode uid gid mtime_nsec atime_valid
    atime_nsec crtime_valid crtime_nsec mtime_sec atime_sec crtime_sec].
  destruct (bad_nsec mn), (md <? 2 ^ 31), (u <? 2 ^ 31), (g <? 2 ^ 31), av, cv, (bad_nsec an), (bad_nsec cn); reflexivity.
Qed.

(** A metadata record is decoded to itself or refused.  For every record
    the C types can hold, decoding what [metadata_to_buf] wrote (with any bytes
    after it) gives the record back exactly when its mode, owner and group are
    below 2^31 and its times have proper nanoseconds; any other record is
    refused as a whole, never decoded to a different one. *)
Lemma metadata_roundtrip m post
    (Hm : meta_typed m) (Hheap : protocol_alloc sizeof_FileMetadata = true) :
  metadata_from_buf (Some (metadata_to_buf (Some m) ++ post)) (4 + FILE_METADATA_WIRE_SIZE + zlen post)
  = if meta_valid m then Ret m else Fail.
Proof. apply metadata_decodes; [done|done|]. pose proof (zlen_nonneg post). lia. Qed.
End RoundTrip.

(** Decoding any bytes stays inside the buffer. *)
Lemma metadata_from_buf_safe `{Heap} buf len : len <= zlen buf -> metadata_from_buf (Some buf) len <> Stuck.
Proof.
  intros Hl. unfold metadata_from_buf. simpl. case_check E1; [|done].
  assert (Hg : forall w pos, 0 <= pos -> pos + Z.of_nat w <= len -> exists z, get_le w buf pos = Ret z)
    by (intros; apply get_le_total; lia).
  bool_to_prop. destruct (Hg 4%nat 0) as [p ->]; [lia|simpl; lia|]. simpl.
  case_check E2; [|done]. case_check E3; [|done]. case_check E4; [|done].
  unfold FILE_METADATA_WIRE_SIZE in E3. bool_to_prop.
  repeat match goal with |- context [get_le ?w buf ?pos] =>
    destruct (Hg w pos) as [? ->]; [lia|simpl; lia|]; cbn [mbind outcome_bind] end.
  cbv zeta beta iota. by case_check E5.
Qed.

(** ** The modification window *)

Definition stamp (sec nsec : Z) : Z := sec * billion + nsec.

Lemma int64_ok_ret z : - 2 ^ 63 <= z < 2 ^ 63 -> int64_ok z = Ret z.
Proof.
  intros. unfold int64_ok. destruct (Z.leb_spec (- 2 ^ 63) z), (Z.ltb_spec z (2 ^ 63)); simpl; done || lia.
Qed.

(** The borrow of the nanoseconds, on a non-negative difference. *)
Lemma window_spec s n w :
  - billion < n < billion -> - 2 ^ 62 < s < 2 ^ 62 -> 0 <= s * billion + n -> 0 < w ->
  exists s' n', (if n <? 0 then s' ← int64_ok (s - 1); n' ← int64_ok (n + billion); Ret (s', n') else Ret (s, n))
                = Ret (s', n') /\
    ((s' <? w) || ((s' =? w) && (n' =? 0))) = bool_decide (s * billion + n <= w * billion).
Proof.
  unfold billion. intros Hn Hs H0 Hw. destruct (Z.ltb_spec n 0).
  - rewrite !int64_ok_ret by lia. simpl. eexists _, _. split; [done|].
    destruct (Z.ltb_spec (s - 1) w), (Z.eqb_spec (s - 1) w), (Z.eqb_spec (n + 1000000000) 0);
      simpl; symmetry; (apply bool_decide_eq_true_2 || apply bool_decide_eq_false_2); lia.
  - eexists _, _. split; [done|].
    destruct (Z.ltb_spec s w), (Z.eqb_spec s w), (Z.eqb_spec n 0);
      simpl; symmetry; (apply bool_decide_eq_true_2 || apply bool_decide_eq_false_2); lia.
Qed.

(** The modification window is exact.  For proper time stamps of any sign
    [metadata_mtime_matches] is true exactly when the two stamps, to the
    nanosecond, are at most [modify_window] seconds apart; with a window of
    zero, when their whole seconds are equal.  No intermediate difference
    overflows. *)
Lemma mtime_window_exact ls ln rs rn w
    (Hl : - 2 ^ 61 <= ls < 2 ^ 61) (Hr : - 2 ^ 61 <= rs < 2 ^ 61)
    (Hln : 0 <= ln < billion) (Hrn : 0 <= rn < billion) (Hw : 0 <= w < 2 ^ 31) :
  metadata_mtime_matches ls ln rs rn w
  = Ret (if w =? 0 then ls =? rs else bool_decide (Z.abs (stamp ls ln - stamp rs rn) <= w * billion)).
Proof.
  unfold metadata_mtime_matches, stamp.
  assert (Hgo : forall s n, s * billion + n = Z.abs (ls * billion + ln - (rs * billion + rn)) ->
    - 2 ^ 62 < s < 2 ^ 62 -> - billion < n < billion ->
    ('(seconds, nanoseconds) ← (if n <? 0 then s' ← int64_ok (s - 1); n' ← int64_ok (n + billion); Ret (s', n')
                               else Ret (s, n));
     if w =? 0 then Ret (ls =? rs)
     else Ret ((seconds <? w) || ((seconds =? w) && (nanoseconds =? 0))))
    = Ret (if w =? 0 then ls =? rs else bool_decide (Z.abs (ls * billion + ln - (rs * billion + rn)) <= w * billion))).
  { intros s n E Hs Hn. destruct (Z.eqb_spec w 0) as [->|].
    - destruct (n <? 0); [|done]. unfold billion in *. by rewrite !int64_ok_ret by lia.
    - destruct (window_spec s n w) as (s'&n'&->&Hb); [done|done|lia|lia|]. simpl. by rewrite Hb, E. }
  unfold billion in *.
  destruct (Z.gtb_spec ls rs), (Z.eqb_spec ls rs), (Z.geb_spec ln rn); simpl orb; simpl andb; cbv iota;
    rewrite !int64_ok_ret by lia; cbn [mbind outcome_bind]; apply Hgo; lia.
Qed.

(** ** The mode a receiver applies *)

(** Reduce the bits of a mode expression to those of its variables, and decide. *)
Ltac testbits :=
  repeat first [rewrite Z.lor_spec | rewrite Z.ldiff_spec | rewrite Z.land_spec | rewrite Z.shiftr_spec by lia].
Ltac decide_bits :=
  repeat match goal with |- context [Z.testbit (Zpos ?p) ?i] =>
    let b := eval vm_compute in (Z.testbit (Zpos p) i) in change (Z.testbit (Zpos p) i) with b end;
  repeat match goal with |- context [Z.testbit ?m ?i] => destruct (Z.testbit m i) end; done.

(** The receiver's mode rule.  With [--perms] the permission bits are the
    source's exactly; with [-E] alone the read and write bits are the
    destination's, and a class may execute exactly when the source is
    executable at all and the destination's class may execute or read; in both
    cases only permission and special bits are set, and set-id and sticky bits
    come from the same mode and only when super-user activities are permitted;
    with neither option no mode is applied. *)
Lemma mode_policy_exact source current policy :
  match metadata_mode_for_policy source current policy with
  | None => perms policy = false /\ executability policy = false
  | Some out =>
      let from := if perms policy then source else current in
      (perms policy || executability policy = true) /\
      (forall i, 12 <= i -> Z.testbit out i = false) /\
      (forall i, 9 <= i < 12 -> Z.testbit out i = Z.testbit from i && super_permitted policy) /\
      (forall c, 0 <= c < 3 ->
         Z.testbit out (3 * c + 2) = Z.testbit from (3 * c + 2) /\
         Z.testbit out (3 * c + 1) = Z.testbit from (3 * c + 1) /\
         Z.testbit out (3 * c) =
           if perms policy then Z.testbit source (3 * c)
           else negb (Z.land source execute_bits =? 0) &&
                (Z.testbit current (3 * c) || Z.testbit current (3 * c + 2)))
  end.
Proof.
  unfold metadata_mode_for_policy, special_bits, perm_bits, read_bits, execute_bits.
  assert (Hhigh : forall m n i, 0 <= m < 2 ^ n -> n <= i -> Z.testbit m i = false).
  { intros m n i Hm Hi. destruct (Z.eq_dec m 0) as [->|]; [apply Z.bits_0|].
    apply Z.bits_above_log2; [lia|]. apply Z.log2_lt_pow2; [lia|]. pose proof (Z.pow_le_mono_r 2 n i). lia. }
  assert (Hc : forall c, 0 <= c < 3 -> c = 0 \/ c = 1 \/ c = 2) by lia.
  assert (Hi : forall i, 9 <= i < 12 -> i = 9 \/ i = 10 \/ i = 11) by lia.
  destruct (perms policy); [|destruct (executability policy); [|done]]; simpl orb; cbv zeta; (split; [done|]);
    destruct (super_permitted policy); cbn [negb]; try destruct (Z.land source 0x49 =? 0); cbn [negb];
    (split; [intros i Hi12; testbits; rewrite ?(Hhigh 0xE00 12), ?(Hhigh 0x1FF 9), ?(Hhigh 0x124 9) by lia; decide_bits|]);
    (split; [intros i [->|[->| ->]]%Hi; testbits; decide_bits|]);
    intros c [->|[->| ->]]%Hc; testbits; split_and!; decide_bits.
Qed.

Definition demo_meta : FileMetadata := MkMeta 0x81A4 1000 100 (-5) 999999999 true 7 1 false 0 0.

