(* ===== verification/Charset.v ===== *)
(** Character set conversion of names (src/shared/charset.c).  [iconv] is
    outside the program: its entry points are fields of the class [Iconv], and
    what its documentation promises is the record [IconvConverts].  The class
    [WireCharset] is what the rest of the program uses of this component. *)

From S2P Require Import Prelude Alloc CStr Paths Transport Session.

(** What a call of [iconv] reports: success, [E2BIG], or another [errno]. *)
Inductive iconv_status := IconvOk | IconvTooBig | IconvErr (errno : Z).

(** [iconv c (Some s) n] converts [s] into at most [n] bytes and [iconv c None n]
    flushes the shift state: the report, the descriptor afterwards, the input
    left and the bytes written. *)
Class Iconv := {
  cd : Type;
  iconv_open : list byte -> list byte -> option cd;   (** to, from *)
  iconv : cd -> option (list byte) -> Z -> iconv_status * cd * list byte * list byte;
}.

Section Convert.
Context `{Heap} `{Iconv}.

(** charset.c [grow_charset_buffer] *)
Definition grow_charset_buffer (w : wbuf) : option wbuf :=
  let new_cap := u64 (w_cap w * 2) in
  if new_cap <=? w_cap w then None
  else if malloc_ok new_cap then Some (WBuf new_cap (w_out w)) else None.

(** charset.c [charset_conversion_reset] *)
Definition charset_conversion_reset (c : cd) : cd :=
  let '(_, c, _, _) := iconv c None 64 in c.

(** One call of [iconv] on the free part of the buffer: [inl] goes on with the
    input left, [inr] leaves [charset_convert]. *)
Definition convert_call (c : cd) (input : option (list byte)) (w : wbuf)
  : cd * (iconv_status * list byte * outcome wbuf) :=
  let '(st, c, rest, out) := iconv c input (w_cap w - zlen (w_out w)) in
  match emit out w with
  | Ret w =>
      match st with
      | IconvOk => (c, (st, rest, Ret w))
      | IconvTooBig => (c, (st, rest, of_option (grow_charset_buffer w)))
      | IconvErr _ => (charset_conversion_reset c, (st, rest, Fail))
      end
  | _ => (c, (st, rest, Stuck))
  end.

(** The two loops of [charset_convert].  A round that is not the last doubles
    the capacity, which is refused once it wraps around: 64 rounds are enough. *)
Fixpoint convert_loop (fuel : nat) (c : cd) (input : list byte) (w : wbuf) : cd * outcome wbuf :=
  if bool_decide (input = []) then (c, Ret w)
  else match fuel with
  | O => (c, Stuck)
  | S fuel =>
      let '(c, (_, rest, r)) := convert_call c (Some input) w in
      match r with Ret w => convert_loop fuel c rest w | _ => (c, r) end
  end.
Fixpoint flush_loop (fuel : nat) (c : cd) (w : wbuf) : cd * outcome wbuf :=
  match fuel with
  | O => (c, Stuck)
  | S fuel =>
      let '(c, (st, _, r)) := convert_call c None w in
      match r, st with
      | Ret w, IconvTooBig => flush_loop fuel c w
      | _, _ => (c, r)
      end
  end.
Definition convert_fuel : nat := 64.

(** charset.c [charset_convert]: the descriptor afterwards and the result *)
Definition charset_convert (c : cd) (input : option (list byte)) : cd * outcome (list byte) :=
  match input with
  | None => (c, Fail)
  | Some input =>
      let cap := u64 (zlen input + 16) in
      if negb (malloc_ok cap) then (c, Fail)
      else
        match convert_loop convert_fuel c input (WBuf cap []) with
        | (c, Ret w) =>
            match flush_loop convert_fuel c w with
            | (c, Ret w) =>
                match (if zlen (w_out w) >=? w_cap w then grow_charset_buffer w else Some w) with
                | None => (c, Fail)
                | Some w =>
                    if bool_decide (Byte.x00 ∈ w_out w) then (charset_conversion_reset c, Fail)
                    else (c, _ ← emit [Byte.x00] w; Ret (w_out w))
                end
            | (c, Fail) => (c, Fail)
            | (c, Stuck) => (c, Stuck)
            end
        | (c, Fail) => (c, Fail)
        | (c, Stuck) => (c, Stuck)
        end
  end.

(** charset.c [charset_spec_parse]: [LOCAL,REMOTE], or one name for both *)
Definition comma : byte := ","%byte.
Definition charset_spec_parse (spec : option (list byte)) : outcome (list byte * list byte) :=
  spec ← of_option spec;
  check (negb (at_end spec 0));;
  dup ← str_dup (Some spec);
  match list_find (fun c => c = comma) dup with
  | Some (i, _) =>
      check (negb ((i =? 0)%nat || at_end dup (i + 1)));;
      local ← str_dup (Some (take i dup));
      remote ← str_dup (Some (drop (i + 1) dup));
      Ret (local, remote)
  | None =>
      local ← str_dup (Some dup);
      remote ← str_dup (Some dup);
      Ret (local, remote)
  end.

(** charset.c [charset_conversion_open] *)
Definition sizeof_CharsetConversion : Z := 8.
Definition charset_conversion_open (from to : option (list byte)) : outcome cd :=
  from ← of_option from;
  to ← of_option to;
  c ← of_option (iconv_open to from);
  check (malloc_ok sizeof_CharsetConversion);;
  Ret c.

(** charset.c [charset_wire_init_sender], [charset_wire_init_receiver]: the new
    [g_wire_conv] when they succeed *)
Definition charset_wire_init_sender (spec : option (list byte)) : outcome (option cd) :=
  match spec with
  | None => Ret None
  | Some spec =>
      '(local, remote) ← charset_spec_parse (Some spec);
      c ← charset_conversion_open (Some local) (Some remote);
      Ret (Some c)
  end.
Definition charset_wire_init_receiver (spec server_spec : option (list byte)) : outcome (option cd) :=
  match spec with
  | None => Ret None
  | Some spec =>
      '(local, remote) ← charset_spec_parse (Some spec);
      target_local ← match server_spec with
                     | None => Ret remote
                     | Some s => '(server_local, _) ← charset_spec_parse (Some s); Ret server_local
                     end;
      c ← charset_conversion_open (Some remote) (Some target_local);
      Ret (Some c)
  end.

(** charset.c [direction_probe_valid], [charset_pair_valid], [charset_spec_valid],
    [charset_wire_receiver_spec_valid]: one ASCII letter is converted into a
    buffer of 64 bytes, and the shift state flushed. *)
Definition direction_probe_valid (from to : option (list byte)) : bool :=
  match charset_conversion_open from to with
  | Ret c =>
      let '(st, c, _, out) := iconv c (Some ["a"%byte]) 64 in
      let '(flushed, _, _, _) := iconv c None 64 in
      match st, flushed with
      | IconvOk, IconvOk => negb (bool_decide (Byte.x00 ∈ out))
      | _, _ => false
      end
  | _ => false
  end.
Definition charset_pair_valid (local remote : list byte) : bool :=
  direction_probe_valid (Some local) (Some remote) && direction_probe_valid (Some remote) (Some local).
Definition charset_spec_valid (spec : option (list byte)) : bool :=
  match spec with
  | None => true
  | Some spec => match charset_spec_parse (Some spec) with
                 | Ret (local, remote) => charset_pair_valid local remote
                 | _ => false
                 end
  end.
Definition charset_wire_receiver_spec_valid (spec server_spec : option (list byte)) : bool :=
  match spec with
  | None => true
  | Some spec =>
      match charset_spec_parse (Some spec) with
      | Ret (_, wire) =>
          match server_spec with
          | None => direction_probe_valid (Some wire) (Some wire)
          | Some s => match charset_spec_parse (Some s) with
                      | Ret (server_local, _) => direction_probe_valid (Some wire) (Some server_local)
                      | _ => false
                      end
          end
      | _ => false
      end
  end.

(** ** Totality *)

(** [iconv] writes no more than it was given room for, and reports success only
    with its whole input converted. *)
Record IconvSafe : Prop := {
  is_room c s n st c' rest out : 0 <= n -> iconv c s n = (st, c', rest, out) -> zlen out <= n;
  is_done c s n c' rest out : iconv c (Some s) n = (IconvOk, c', rest, out) -> rest = [];
}.

Record buf_ok (w : wbuf) : Prop := {
  bo_cap : 16 <= w_cap w < 2 ^ 64; bo_used : zlen (w_out w) <= w_cap w }.

Lemma charset_grow_spec w w' :
  buf_ok w -> grow_charset_buffer w = Some w' -> w_cap w' = 2 * w_cap w /\ w_out w' = w_out w /\ buf_ok w'.
Proof.
  intros [Hc Hu]. unfold grow_charset_buffer. destruct (Z.leb_spec (u64 (w_cap w * 2)) (w_cap w)) as [|Hgt]; [done|].
  destruct (malloc_ok _); [|done]. intros [= <-]. cbn [w_cap w_out].
  assert (w_cap w < 2 ^ 63) as Hs.
  { apply Z.nle_gt. intros Hge. unfold u64 in Hgt.
    rewrite <- (Z.mod_unique (w_cap w * 2) (2 ^ 64) 1 (w_cap w * 2 - 2 ^ 64)) in Hgt by lia. lia. }
  rewrite u64_small in * by lia. split; [lia|]. split; [done|]. split; cbn [w_cap w_out]; lia.
Qed.

Lemma convert_call_safe (HS : IconvSafe) c s w c' st rest r :
  buf_ok w -> convert_call c s w = (c', (st, rest, r)) ->
  r <> Stuck /\ forall w', r = Ret w' -> buf_ok w' /\
    match st with
    | IconvOk => w_cap w' = w_cap w /\ (s <> None -> rest = [])
    | IconvTooBig => w_cap w' = 2 * w_cap w
    | IconvErr _ => False
    end.
Proof.
  intros Hw. unfold convert_call. destruct (iconv c s _) as [[[st0 c0] rest0] out] eqn:E. pose proof Hw as [Hc Hu].
  assert (Hr : zlen out <= w_cap w - zlen (w_out w)) by (eapply (is_room HS); [|exact E]; lia). rewrite emit_ret by lia.
  assert (Hw1 : buf_ok (WBuf (w_cap w) (w_out w ++ out))) by (split; cbn [w_cap w_out]; rewrite ?zlen_app; lia).
  destruct st0; intros [= <- <- <- <-].
  - split; [done|]. intros w' [= <-]. split; [done|]. split; [done|].
    destruct s as [s|]; [|done]. intros _. by eapply is_done in E.
  - destruct (grow_charset_buffer _) as [w2|] eqn:Eg; [|done]. split; [done|]. intros w' [= <-].
    apply charset_grow_spec in Eg as (?&?&?); done.
  - done.
Qed.

Lemma pow_fuel (fuel : nat) : (fuel < 64)%nat -> 2 ^ (64 - Z.of_nat fuel) = 2 * 2 ^ (64 - Z.of_nat (S fuel)).
Proof. intros. rewrite <- Z.pow_succ_r by lia. f_equal. lia. Qed.

Lemma convert_loop_safe (HS : IconvSafe) fuel c s w :
  (fuel <= 64)%nat -> buf_ok w -> 2 ^ (64 - Z.of_nat fuel) <= w_cap w ->
  forall c' r, convert_loop fuel c s w = (c', r) -> r <> Stuck /\ forall w', r = Ret w' -> buf_ok w'.
Proof.
  revert c s w. induction fuel as [|fuel IH]; intros c s w Hf Hw Hc c' r; cbn [convert_loop].
  { destruct Hw. change (64 - Z.of_nat 0) with 64 in Hc. lia. }
  destruct (bool_decide (s = [])); [intros [= <- <-]; by split; [|intros ? [= <-]]|].
  destruct (convert_call c (Some s) w) as [c1 [[st rest] r1]] eqn:E.
  apply convert_call_safe in E as [Hn Hr]; [|done..]. destruct r1 as [w1| |]; [|by intros [= <- <-]..].
  destruct (Hr w1 eq_refl) as [Hw1 Hst]. rewrite pow_fuel in IH by lia. destruct st; [|apply IH; lia || done|done].
  destruct Hst as [_ Hre]. rewrite Hre by done.
  destruct fuel; cbn [convert_loop]; rewrite bool_decide_eq_true_2 by done; intros [= <- <-]; by split; [|intros ? [= <-]].
Qed.

Lemma flush_loop_safe (HS : IconvSafe) fuel c w :
  (fuel <= 64)%nat -> buf_ok w -> 2 ^ (64 - Z.of_nat fuel) <= w_cap w ->
  forall c' r, flush_loop fuel c w = (c', r) -> r <> Stuck /\ forall w', r = Ret w' -> buf_ok w'.
Proof.
  revert c w. induction fuel as [|fuel IH]; intros c w Hf Hw Hc c' r; cbn [flush_loop].
  { destruct Hw. change (64 - Z.of_nat 0) with 64 in Hc. lia. }
  destruct (convert_call c None w) as [c1 [[st rest] r1]] eqn:E.
  apply convert_call_safe in E as [Hn Hr]; [|done..]. destruct r1 as [w1| |]; [|by intros [= <- <-]..].
  destruct (Hr w1 eq_refl) as [Hw1 Hst]. rewrite pow_fuel in IH by lia. destruct st; [|apply IH; lia || done|done].
  intros [= <- <-]. by split; [|intros ? [= <-]].
Qed.

(** Whatever [iconv] answers, the conversion ends, stays inside its buffer and
    gives a C string. *)
Lemma charset_convert_safe (HS : IconvSafe) c s :
  zlen s < 2 ^ 63 ->
  snd (charset_convert c (Some s)) <> Stuck /\
  forall o, snd (charset_convert c (Some s)) = Ret o -> Byte.x00 ∉ o.
Proof.
  intros Hs. pose proof (zlen_nonneg s). unfold charset_convert. rewrite u64_small by lia.
  destruct (negb _); [done|].
  assert (Hw : buf_ok (WBuf (zlen s + 16) [])) by (split; cbn [w_cap w_out]; unfold zlen at 1; simpl; lia).
  destruct (convert_loop _ c s _) as [c1 r1] eqn:E1.
  apply convert_loop_safe in E1 as [Hn1 Hr1]; [|done|done|done|cbn [w_cap]; unfold convert_fuel; simpl; lia].
  destruct r1 as [w1| |]; [|done..]. specialize (Hr1 w1 eq_refl).
  destruct (flush_loop _ c1 w1) as [c2 r2] eqn:E2.
  apply flush_loop_safe in E2 as [Hn2 Hr2]; [|done|done|done|destruct Hr1; unfold convert_fuel; simpl; lia].
  destruct r2 as [w2| |]; [|done..]. specialize (Hr2 w2 eq_refl).
  assert (Hfin : forall w3, buf_ok w3 -> zlen (w_out w3) < w_cap w3 ->
    let x := (if bool_decide (Byte.x00 ∈ w_out w3) then (charset_conversion_reset c2, Fail)
              else (c2, _ ← emit [Byte.x00] w3; Ret (w_out w3))) in
    x.2 <> Stuck /\ forall o, x.2 = Ret o -> Byte.x00 ∉ o).
  { intros w3 Hw3 Hlt. case_bool_decide; [done|]. rewrite emit_ret by (unfold zlen at 2; simpl; lia). simpl.
    split; [done|]. by intros o [= <-]. }
  destruct (Z.geb_spec (zlen (w_out w2)) (w_cap w2)); [|by apply Hfin].
  destruct (grow_charset_buffer w2) as [w3|] eqn:Eg; [|done].
  apply charset_grow_spec in Eg as (Hc3&Ho3&Hw3); [|done]. apply Hfin; [done|]. destruct Hr2. rewrite Ho3. lia.
Qed.

(** ** Exactness *)

(** [iconv] from the state [init] is the converter [tr]: [tr c s] is what the
    descriptor [c] produces for [s] and the final flush, up to the first
    character it cannot convert, and whether there is none.  It may stop for
    lack of room only when the rest does not fit; a flush, and the reset of the
    program, bring the descriptor back to [init]. *)
Record IconvConverts (tr : cd -> list byte -> list byte * bool) (init : cd) : Prop := {
  ic_safe :: IconvSafe;
  ic_ok c s n c' rest out : iconv c (Some s) n = (IconvOk, c', rest, out) ->
    tr c s = (out ++ (tr c' []).1, (tr c' []).2);
  ic_big c s n c' rest out : iconv c s n = (IconvTooBig, c', rest, out) ->
    tr c (default [] s) = (out ++ (tr c' (if s then rest else [])).1, (tr c' (if s then rest else [])).2) /\
    n < zlen (tr c (default [] s)).1;
  ic_err c s n e c' rest out : iconv c s n = (IconvErr e, c', rest, out) -> (tr c (default [] s)).2 = false;
  ic_flush c n c' rest out : iconv c None n = (IconvOk, c', rest, out) -> tr c [] = (out, true) /\ c' = init;
  ic_reset c : charset_conversion_reset c = init;
}.

Section Exact.
Context (tr : cd -> list byte -> list byte * bool) (init : cd) (HC : IconvConverts tr init).
Context (M : Z) (HM : 2 * M < 2 ^ 63) (Hheap : heap_serves (2 * M)).

Lemma grow_fits w : buf_ok w -> w_cap w <= M -> grow_charset_buffer w = Some (WBuf (w_cap w * 2) (w_out w)).
Proof.
  intros [Hc _] Hm. unfold grow_charset_buffer. rewrite u64_small by lia.
  destruct (Z.leb_spec (w_cap w * 2) (w_cap w)); [lia|]. by rewrite (heap_serves_malloc _ _ Hheap) by lia.
Qed.

(** One call, with room for everything that is left within [M]. *)
Lemma convert_call_exact c s w c' st rest r :
  buf_ok w -> zlen (w_out w) + zlen (tr c (default [] s)).1 <= M ->
  convert_call c s w = (c', (st, rest, r)) ->
  match st, r with
  | IconvErr _, Fail => c' = init /\ (tr c (default [] s)).2 = false
  | IconvErr _, _ => False
  | IconvTooBig, Ret w' =>
      let rest' := if s then rest else [] in
      w_out w' ++ (tr c' rest').1 = w_out w ++ (tr c (default [] s)).1 /\ (tr c' rest').2 = (tr c (default [] s)).2
  | IconvOk, Ret w' =>
      match s with
      | Some s => w_out w' ++ (tr c' []).1 = w_out w ++ (tr c s).1 /\ (tr c' []).2 = (tr c s).2
      | None => w_out w' = w_out w ++ (tr c []).1 /\ (tr c []).2 = true /\ c' = init
      end
  | _, _ => False
  end.
Proof.
  intros Hw Hm. unfold convert_call. destruct (iconv c s _) as [[[st0 c0] rest0] out] eqn:E. pose proof Hw as [Hc Hu].
  assert (Hr : zlen out <= w_cap w - zlen (w_out w)) by (eapply (is_room (ic_safe _ _ HC)); [|exact E]; lia).
  rewrite emit_ret by lia.
  destruct st0; intros [= <- <- <- <-]; cbn [of_option w_out].
  - destruct s as [s|].
    + apply (ic_ok _ _ HC) in E as ->. cbn [fst snd]. by rewrite app_assoc.
    + apply (ic_flush _ _ HC) in E as [-> ->]. done.
  - apply (ic_big _ _ HC) in E as [Et Hn].
    rewrite grow_fits by (split || idtac; cbn [w_cap w_out]; rewrite ?zlen_app; lia). cbn [of_option w_out].
    rewrite Et. cbn [fst snd]. by rewrite app_assoc.
  - apply (ic_err _ _ HC) in E as ->. split; [apply (ic_reset _ _ HC)|done].
Qed.

Lemma convert_loop_exact fuel c s w :
  buf_ok w -> zlen (w_out w) + zlen (tr c s).1 <= M ->
  forall c' r, convert_loop fuel c s w = (c', r) -> r <> Stuck ->
  match r with
  | Ret w' => w_out w' ++ (tr c' []).1 = w_out w ++ (tr c s).1 /\ (tr c' []).2 = (tr c s).2
  | _ => c' = init /\ (tr c s).2 = false
  end.
Proof.
  revert c s w. induction fuel as [|fuel IH]; intros c s w Hw Hm c' r; cbn [convert_loop];
    (case_bool_decide as Hs; [subst s; by intros [= <- <-]|]); [by intros [= <- <-]|].
  destruct (convert_call c (Some s) w) as [c1 [[st rest] r1]] eqn:E. pose proof E as E'.
  apply convert_call_exact in E; [|done..]. apply convert_call_safe in E' as [Hn Hr]; [|apply (ic_safe _ _ HC)|done].
  destruct r1 as [w1| |], st; simpl in E; try done; [| |by intros [= <- <-]].
  - destruct (Hr w1 eq_refl) as [Hw1 [_ Hre]]. rewrite Hre by done. destruct E as [E1 E2]. intros E Hns.
    rewrite <- E1, <- E2. apply IH in E; [done|done| |done]. rewrite <- zlen_app, E1, zlen_app. done.
  - destruct (Hr w1 eq_refl) as [Hw1 _]. destruct E as [E1 E2]. intros E Hns.
    rewrite <- E1, <- E2. apply IH in E; [done|done| |done]. rewrite <- zlen_app, E1, zlen_app. done.
Qed.

Lemma flush_loop_exact fuel c w :
  buf_ok w -> zlen (w_out w) + zlen (tr c []).1 <= M ->
  forall c' r, flush_loop fuel c w = (c', r) -> r <> Stuck ->
  match r with
  | Ret w' => w_out w' = w_out w ++ (tr c []).1 /\ (tr c []).2 = true /\ c' = init
  | _ => c' = init /\ (tr c []).2 = false
  end.
Proof.
  revert c w. induction fuel as [|fuel IH]; intros c w Hw Hm c' r; cbn [flush_loop]; [by intros [= <- <-]|].
  destruct (convert_call c None w) as [c1 [[st rest] r1]] eqn:E. pose proof E as E'.
  apply convert_call_exact in E; [|done..]. apply convert_call_safe in E' as [Hn Hr]; [|apply (ic_safe _ _ HC)|done].
  destruct r1 as [w1| |], st; simpl in E; try done; [by intros [= <- <-]| |by intros [= <- <-]].
  destruct (Hr w1 eq_refl) as [Hw1 _]. destruct E as [E1 E2]. intros E Hns.
  rewrite <- E1, <- E2. apply IH in E; [done|done| |done]. rewrite <- zlen_app, E1, zlen_app. done.
Qed.
End Exact.

(** Names are converted exactly.  [charset_convert] gives the converter's
    output for the whole name and the final flush, however often its buffer had
    to grow on the way, or fails when a character cannot be converted or the
    output would contain a NUL; in each case the descriptor is back in its
    initial state for the next name. *)
Lemma charset_convert_exact tr init s
    (HC : IconvConverts tr init)
    (Hsize : 2 * (zlen s + 16 + zlen (tr init s).1) < 2 ^ 63)
    (Hheap : heap_serves (2 * (zlen s + 16 + zlen (tr init s).1))) :
  charset_convert init (Some s)
  = (init, if (tr init s).2 && bool_decide (Byte.x00 ∉ (tr init s).1) then Ret (tr init s).1 else Fail).
Proof.
  pose proof (zlen_nonneg s). pose proof (zlen_nonneg (tr init s).1). set (M := zlen s + 16 + zlen (tr init s).1) in *.
  unfold charset_convert. rewrite u64_small by lia. rewrite (heap_serves_malloc _ _ Hheap) by lia. cbn [negb].
  assert (Hw : buf_ok (WBuf (zlen s + 16) [])) by (split; cbn [w_cap w_out]; unfold zlen at 1; simpl; lia).
  destruct (convert_loop _ init s _) as [c1 r1] eqn:E1. pose proof E1 as E1'.
  apply (convert_loop_safe (ic_safe _ _ HC)) in E1' as [Hn1 Hr1]; [|done|done|cbn [w_cap]; unfold convert_fuel; simpl; lia].
  apply (convert_loop_exact tr init HC M Hsize Hheap) in E1; [|done|unfold zlen at 1; simpl; lia|done].
  destruct r1 as [w1| |]; [|destruct E1 as [-> ->]; done|done]. specialize (Hr1 w1 eq_refl). destruct E1 as [Eo1 Ek1].
  cbn [w_out app] in Eo1.
  destruct (flush_loop _ c1 w1) as [c2 r2] eqn:E2. pose proof E2 as E2'.
  apply (flush_loop_safe (ic_safe _ _ HC)) in E2' as [Hn2 Hr2]; [|done|done|destruct Hr1; unfold convert_fuel; simpl; lia].
  apply (flush_loop_exact tr init HC M Hsize Hheap) in E2;
    [|done|rewrite <- zlen_app, Eo1; lia|done].
  rewrite Ek1 in E2.
  destruct r2 as [w2| |]; [|destruct E2 as [-> ->]; done|done]. specialize (Hr2 w2 eq_refl).
  destruct E2 as (Eo2&->&->). rewrite Eo1 in Eo2. cbn [andb].
  assert (Hfin : forall w3, w_out w3 = w_out w2 -> zlen (w_out w3) < w_cap w3 ->
    (if bool_decide (Byte.x00 ∈ w_out w3) then (charset_conversion_reset init, Fail)
     else (init, _ ← emit [Byte.x00] w3; Ret (w_out w3)))
    = (init, if bool_decide (Byte.x00 ∉ (tr init s).1) then Ret (tr init s).1 else Fail)).
  { intros w3 Hw3 Hlt. rewrite (ic_reset _ _ HC). rewrite emit_ret by (unfold zlen at 2; simpl; lia). simpl.
    rewrite Hw3, Eo2. by repeat case_bool_decide. }
  destruct (Z.geb_spec (zlen (w_out w2)) (w_cap w2)); [|by apply Hfin].
  assert (w_cap w2 <= M) by (rewrite Eo2 in *; lia). rewrite (grow_fits M Hsize Hheap) by done.
  apply Hfin; [done|]. destruct Hr2. cbn [w_cap w_out]. lia.
Qed.
End Convert.

(** ** The interface of the component *)

(** What the senders and receivers of names rely on: whether a conversion is
    configured, and a function that gives a C string or refuses, and never
    leaves its buffers.  Each call starts from the initial shift state. *)
Class WireCharset `{Heap} := {
  wire_active : bool;
  wire_apply : option (list byte) -> outcome (list byte);
  wire_apply_safe s : zlen s < 2 ^ 63 -> wire_apply (Some s) <> Stuck;
  wire_apply_cstr s o : zlen s < 2 ^ 63 -> Byte.x00 ∉ s -> wire_apply (Some s) = Ret o -> Byte.x00 ∉ o;
}.

Section Wire.
Context `{HH : Heap} `{Iconv}.

(** charset.c [charset_wire_active], [charset_wire_apply] on [g_wire_conv] *)
Definition charset_wire_active (g_wire_conv : option cd) : bool :=
  match g_wire_conv with Some _ => true | None => false end.
Definition charset_wire_apply (g_wire_conv : option cd) (path : option (list byte)) : outcome (list byte) :=
  match g_wire_conv with
  | None => str_dup path
  | Some c => snd (charset_convert c path)
  end.

Lemma charset_wire_apply_safe (HS : IconvSafe) g s :
  zlen s < 2 ^ 63 -> charset_wire_apply g (Some s) <> Stuck.
Proof.
  intros Hs. destruct g as [c|]; [by apply charset_convert_safe|]. simpl. unfold str_dup. simpl.
  by destruct (malloc_ok (zlen s + 1)).
Qed.
Lemma charset_wire_apply_cstr (HS : IconvSafe) g s o :
  zlen s < 2 ^ 63 -> Byte.x00 ∉ s -> charset_wire_apply g (Some s) = Ret o -> Byte.x00 ∉ o.
Proof.
  intros Hs Hn. destruct g as [c|]; [by apply charset_convert_safe|]. simpl. unfold str_dup. simpl.
  destruct (malloc_ok (zlen s + 1)); [|done]. by intros [= <-].
Qed.

(** The component provides the interface for every safe [iconv]. *)
Definition charset_wire (HS : IconvSafe) (g : option cd) : WireCharset := {|
  wire_active := charset_wire_active g;
  wire_apply := charset_wire_apply g;
  wire_apply_safe := charset_wire_apply_safe HS g;
  wire_apply_cstr := charset_wire_apply_cstr HS g;
|}.

(** The two ends agree on the charset of the wire: the sender opens a
    conversion to it, and the receiver, whatever charset it declares for
    itself, one from it. *)
Lemma wire_charset_agrees spec server cs cr :
  charset_wire_init_sender (Some spec) = Ret (Some cs) ->
  charset_wire_init_receiver (Some spec) server = Ret (Some cr) ->
  exists local wire target,
    charset_spec_parse (Some spec) = Ret (local, wire) /\
    iconv_open wire local = Some cs /\ iconv_open target wire = Some cr /\
    (server = None -> target = wire).
Proof.
  unfold charset_wire_init_sender, charset_wire_init_receiver, charset_conversion_open. intros E1 E2.
  apply bind_ret_inv in E1 as ([local wire]&Hp&E1). rewrite Hp in E2. simpl in E1, E2.
  destruct (iconv_open wire local) as [c|] eqn:Eo; simpl in E1; [|done].
  destruct (malloc_ok _); simplify_eq/=. apply bind_ret_inv in E2 as (target&Et&E2).
  destruct (iconv_open target wire) as [c'|] eqn:Eo'; simplify_eq/=.
  exists local, wire, target. split_and!; [done..|]. intros ->. by simplify_eq/=.
Qed.
End Wire.

Section Names.
Context `{HH : Heap}.

(** charset.c [send_wire_str], [receive_wire_str] *)
Definition send_wire_str {W : WireCharset} (local_path : option (list byte)) : io unit :=
  if negb wire_active then protocol_send_str local_path
  else wire <~ io_of (wire_apply local_path); protocol_send_str (Some wire).
Definition receive_wire_str {W : WireCharset} : io (list byte) :=
  raw <~ protocol_receive_str;
  if negb wire_active then io_ret raw else io_of (wire_apply (Some raw)).

(** The bytes that stand for a name on the wire. *)
Definition wire_bytes (W : WireCharset) (name : list byte) : outcome (list byte) :=
  if @wire_active _ W then @wire_apply _ W (Some name) else Ret name.

(** Names cross the wire in its charset.  On a connection that stays up, a
    name the sender can convert to at most 64 KiB without a NUL arrives as the
    receiver's conversion of those bytes (as itself when neither end converts,
    or when the receiver converts back), and the stream is left at the next
    frame. *)
Lemma wire_str_transfer (WS WR : WireCharset) name wire name'
    (Hsend : wire_bytes WS name = Ret wire) (Hrecv : wire_bytes WR wire = Ret name')
    (Hlen : zlen wire <= MAX_STRING_SIZE) (Hnul : Byte.x00 ∉ wire)
    (Halloc : protocol_alloc_for_session (zlen wire + 1) = true) :
  transfers (send_wire_str (W := WS) (Some name)) (receive_wire_str (W := WR))
    (8 + zlen wire) name' (fun _ => True).
Proof.
  assert (Hp : produces (send_wire_str (W := WS) (Some name)) (put_le 8 (zlen wire) ++ wire)).
  { unfold send_wire_str, wire_bytes in *. destruct wire_active; simpl negb; cbv iota; [|injection Hsend as ->].
    - rewrite Hsend. apply produces_str.
    - apply produces_str. }
  assert (Hc : consumes (receive_wire_str (W := WR)) ((put_le 8 (zlen wire) ++ wire) ++ []) name' id).
  { apply (consumes_bind _ _ _ [] wire name' id id); [by apply consumes_str|].
    unfold wire_bytes in Hrecv. destruct wire_active; simpl negb; cbv iota; [|injection Hrecv as ->; apply consumes_ret].
    rewrite Hrecv. apply consumes_ret. }
  rewrite app_nil_r in Hc. pose proof (transfers_intro _ _ _ _ _ (fun _ => True) Hp Hc) as Ht.
  rewrite zlen_app, zlen_put_le in Ht. by apply Ht.
Qed.
End Names.

(** ** A converter from Latin-1 to UTF-8 *)

Definition utf8 (b : byte) : list byte :=
  if bZ b <? 128 then [b] else [byte.of_Z (192 + bZ b / 64); byte.of_Z (128 + bZ b mod 64)].
Fixpoint latin1_to_utf8 (s : list byte) (n : Z) : iconv_status * list byte * list byte :=
  match s with
  | [] => (IconvOk, [], [])
  | b :: s' =>
      if zlen (utf8 b) <=? n then
        let '(st, rest, out) := latin1_to_utf8 s' (n - zlen (utf8 b)) in (st, rest, utf8 b ++ out)
      else (IconvTooBig, s, [])
  end.
Definition latin1 : Iconv := {|
  cd := unit;
  iconv_open := fun _ _ => Some tt;
  iconv := fun _ s n => let '(st, rest, out) := latin1_to_utf8 (default [] s) n in (st, tt, rest, out);
|}.
Definition latin1_tr (_ : unit) (s : list byte) : list byte * bool := (concat (utf8 <$> s), true).

Lemma latin1_spec s n st rest out :
  latin1_to_utf8 s n = (st, rest, out) ->
  (0 <= n -> zlen out <= n) /\ concat (utf8 <$> s) = out ++ concat (utf8 <$> rest) /\
  match st with
  | IconvOk => rest = []
  | IconvTooBig => n < zlen (concat (utf8 <$> s))
  | IconvErr _ => False
  end.
Proof.
  revert n st rest out. induction s as [|b s IH]; intros n st rest out; [by intros [= <- <- <-]|].
  cbn [latin1_to_utf8]. rewrite fmap_cons. cbn [concat]. destruct (Z.leb_spec (zlen (utf8 b)) n) as [Hle|Hgt].
  - destruct (latin1_to_utf8 s _) as [[st1 rest1] out1] eqn:E. intros [= <- <- <-].
    apply IH in E as (Hl&Ec&Hst). split_and!; [rewrite zlen_app; lia|by rewrite Ec, app_assoc|].
    destruct st1; [done|rewrite zlen_app; lia|done].
  - intros [= <- <- <-]. split_and!; [done|done|]. rewrite zlen_app. pose proof (zlen_nonneg (concat (utf8 <$> s))). lia.
Qed.

Lemma latin1_converts : @IconvConverts latin1 latin1_tr tt.
Proof.
  assert (Hsafe : @IconvSafe latin1).
  { split; [intros [] s n st [] rest out Hn|intros [] s n [] rest out]; simpl;
      destruct (latin1_to_utf8 _ n) as [[st1 rest1] out1] eqn:E; apply latin1_spec in E as (?&_&?).
    - intros [= <- <- <-]. auto.
    - by intros [= -> <- <-]. }
  split; [exact Hsafe| | | | |by intros []].
  - intros [] s n [] rest out. simpl. destruct (latin1_to_utf8 s n) as [[st1 rest1] out1] eqn:E.
    apply latin1_spec in E as (_&Ec&Hst). intros [= -> <- <-]. subst. unfold latin1_tr. by rewrite Ec.
  - intros [] [s|] n [] rest out; simpl; [|done]. destruct (latin1_to_utf8 s n) as [[st1 rest1] out1] eqn:E.
    apply latin1_spec in E as (_&Ec&Hst). intros [= -> <- <-]. unfold latin1_tr. simpl. rewrite Ec in *. done.
  - intros [] s n e [] rest out. simpl. destruct (latin1_to_utf8 _ n) as [[st1 rest1] out1] eqn:E.
    apply latin1_spec in E as (_&_&Hst). by intros [= -> <- <-].
  - intros [] n [] rest out. simpl. by intros [= <- <-].
Qed.

(** A name whose conversion outgrows its first buffer while memory is short:
    a descriptor with a shift state is left in it, since this path alone
    does not reset it. *)
Definition shifting : Iconv := {|
  cd := bool;
  iconv_open := fun _ _ => Some false;
  iconv := fun c s n => match s with
                        | None => (IconvOk, false, [], [])
                        | Some s => if c then (IconvOk, c, [], s) else (IconvTooBig, true, s, [])
                        end;
|}.
Definition small_heap : Heap := {|
  max_alloc := 0; malloc_ok := fun n => n <=? 20; junk_byte := fun _ => Byte.x00; junk_word := fun _ => 0;
|}.
Example failed_growth_keeps_shift :
  @charset_convert small_heap shifting false (Some (cs "abc")) = (true, Fail).
Proof. reflexivity. Qed.
