(* ===== verification/Chunk.v ===== *)
(** Chunks of src/shared/chunk.c: many small files batched into one buffer.
    The serializer, and the parser of the bytes a peer sent, which charges the
    copies it keeps to the connection budget.  Names go through the interface
    [WireCharset] of file Charset. *)

From S2P Require Import Prelude Alloc DataBuf CStr ArrayList Paths Transport Session Wp Metadata Charset.

Definition MAX_CHUNK_FILE_DATA_SIZE : Z := 64 * 1024 * 1024.
Definition MAX_FILES_PER_CHUNK : Z := 65536.

(** file_types.h [File]: the fields a chunk carries.  [file_create] clears the
    others and this component does not touch them. *)
Record File := MkFile {
  f_path : option (list byte);
  f_send_path : option (list byte);
  f_data : option Data;
  f_metadata : option FileMetadata;
  is_dir : bool;
  is_symlink : bool;
  symlink_target : option (list byte);
  is_special : bool;
  rdev_major : Z;
  rdev_minor : Z;
}.
Definition sizeof_File : Z := 176.

(** chunk.h [Chunk] *)
Record Chunk := MkChunk { items : option (list (option File)); element_count : Z }.
Definition sizeof_Chunk : Z := 16.

(** Assignments to the fields of a [File]. *)
Definition set_type (f : File) (dir link special : bool) : File :=
  MkFile (f_path f) (f_send_path f) (f_data f) (f_metadata f) dir link (symlink_target f) special
    (rdev_major f) (rdev_minor f).
Definition set_rdev (f : File) (major minor : Z) : File :=
  MkFile (f_path f) (f_send_path f) (f_data f) (f_metadata f) (is_dir f) (is_symlink f) (symlink_target f)
    (is_special f) major minor.
Definition set_metadata (f : File) (m : option FileMetadata) : File :=
  MkFile (f_path f) (f_send_path f) (f_data f) m (is_dir f) (is_symlink f) (symlink_target f)
    (is_special f) (rdev_major f) (rdev_minor f).
Definition set_data (f : File) (d : Data) : File :=
  MkFile (f_path f) (f_send_path f) (Some d) (f_metadata f) (is_dir f) (is_symlink f) (symlink_target f)
    (is_special f) (rdev_major f) (rdev_minor f).
Definition set_target (f : File) (t : list byte) : File :=
  MkFile (f_path f) (f_send_path f) (f_data f) (f_metadata f) (is_dir f) (is_symlink f) (Some t)
    (is_special f) (rdev_major f) (rdev_minor f).

(** Following a pointer: [Stuck] on NULL. *)
Definition deref {A} (p : option A) : outcome A := match p with Some a => Ret a | None => Stuck end.

(** Run [m]; when it fails, clean up and fail. *)
Definition on_fail {A} (cleanup : io unit) (m : io A) : io A := fun w =>
  let '(w, r) := m w in
  match r with Fail => (cleanup >~ io_fail) w | _ => (w, r) end.

(** file_types.h [file_wire_path] *)
Definition file_wire_path (f : File) : option (list byte) :=
  match f_send_path f with Some p => Some p | None => f_path f end.

(** chunk.c [chunk_session_reserve], with no other thread on the counter; the
    loop is the one of [protocol_reserve_memory] *)
Definition chunk_session_reserve (session : nat) (charge : Z) : io bool := fun w =>
  match reserve_next (counter w session) charge with
  | Some a => (set_counter w session a, Ret true)
  | None => (w, Ret false)
  end.

(** chunk.c [data_charge_session]: the charged buffer *)
Definition data_charge_session (d : option Data) (session : option nat) (charge : Z) : io (option Data) :=
  match d, session with
  | Some d, Some session =>
      if charge =? 0 then io_ret (Some d)
      else
        reserved <~ chunk_session_reserve session charge;
        io_check reserved >~
        io_ret (Some (MkData (data d) (size d) charge (Some session)))
  | _, _ => io_ret d
  end.

(** file.c [file_destroy]: what it gives back to the budget is the charge of
    its buffer. *)
Definition file_destroy (f : option File) : io unit :=
  match f with None => io_ret tt | Some f => data_destroy (f_data f) end.
Fixpoint destroy_files (l : list (option File)) : io unit :=
  match l with
  | [] => io_ret tt
  | f :: l => file_destroy f >~ destroy_files l
  end.

(** chunk.c [chunk_destroy] *)
Definition chunk_destroy (c : option Chunk) : io unit :=
  match c with
  | None => io_ret tt
  | Some c => cells <~ io_of (rd (default [] (items c)) 0 (element_count c)); destroy_files cells
  end.

Section Chunk.
Context `{HH : Heap} {W : WireCharset}.

(** file.c [file_create] *)
Definition file_create (path : option (list byte)) : outcome File :=
  path ← of_option path;
  check (protocol_alloc sizeof_File);;
  check (protocol_alloc (zlen path + 1));;
  d ← data_create_reserve 0;
  Ret (MkFile (Some path) None (Some d) None false false None false 0 0).

(** chunk.c [chunk_create] *)
Definition chunk_create (its : option (list (option File))) (n : Z) : outcome Chunk :=
  check (negb ((n <? 0) || ((n >? 0) && bool_decide (its = None))));;
  check (protocol_alloc sizeof_Chunk);;
  if n =? 0 then Ret (MkChunk None 0)
  else
    check (negb (n >? SIZE_MAX / 8));;
    check (protocol_alloc (n * 8));;
    cells ← rd (default [] its) 0 n;
    Ret (MkChunk (Some cells) n).

(** ** Serialization *)

(** chunk.c [chunk_encode_wire] *)
Definition chunk_encode_wire (path : option (list byte)) : outcome (list byte) :=
  if negb wire_active then str_dup path else wire_apply path.

(** [if (n > ULLONG_MAX - size) return 0; size += n;] *)
Definition add_size (n size : Z) (k : Z -> outcome Z) : outcome Z :=
  if n >? UINT64_MAX - size then Ret 0 else k (size + n).
(** [if (!s) return 0;] *)
Definition or_zero (s : outcome (list byte)) (k : list byte -> outcome Z) : outcome Z :=
  match s with Ret s => k s | Fail => Ret 0 | Stuck => Stuck end.

(** chunk.c [per_file_serialize_size] *)
Definition per_file_serialize_size (f : File) (use_metadata : bool) : outcome Z :=
  or_zero (chunk_encode_wire (file_wire_path f)) (fun wire_path =>
  let metadata_size :=
    if use_metadata then 4 + (if f_metadata f then FILE_METADATA_WIRE_SIZE else 0) else 0 in
  add_size (zlen wire_path) 8 (fun sz =>
  add_size metadata_size sz (fun sz =>
  add_size 4 sz (fun sz =>
  (if is_special f then add_size (2 * 4) sz else fun k => k sz) (fun sz =>
  add_size 8 sz (fun sz =>
  d ← deref (f_data f);
  add_size (size d) sz (fun sz =>
  if is_symlink f then
    or_zero (chunk_encode_wire (Some (default [] (symlink_target f)))) (fun wire_target =>
    add_size 8 sz (fun sz =>
    add_size (zlen wire_target) sz Ret))
  else Ret sz))))))).

(** The first loop of [chunk_serialize]: one item checked and measured *)
Definition measure_item (use_metadata : bool) (item : option File) (data_size : Z) : outcome Z :=
  f ← of_option item;
  path ← of_option (f_path f);
  d ← of_option (f_data f);
  check (negb ((size d >? 0) && bool_decide (data d = None)));;
  check (negb (at_end path 0));;
  check (negb (has_path_traversal (Some path)));;
  wire ← deref (file_wire_path f);
  check (negb (at_end wire 0));;
  file_size ← per_file_serialize_size f use_metadata;
  check (negb ((file_size =? 0) || (file_size >? UINT64_MAX - data_size)
               || (data_size + file_size >? SIZE_MAX)));;
  Ret (data_size + file_size).

Definition entry_type (f : File) : Z :=
  if is_dir f then 1 else if is_symlink f then 2 else if is_special f then 3 else 0.

(** The second loop of [chunk_serialize]: one item written at [data_pointer] *)
Definition emit_item (use_metadata : bool) (item : option File) (w : wbuf) : outcome wbuf :=
  f ← deref item;
  wire_path ← chunk_encode_wire (file_wire_path f);
  w ← emit (put_le 8 (zlen wire_path)) w;
  w ← emit wire_path w;
  w ← emit (put_le 4 (entry_type f)) w;
  w ← (if is_special f then w ← emit (put_le 4 (rdev_major f)) w; emit (put_le 4 (rdev_minor f)) w else Ret w);
  w ← (if use_metadata then emit (metadata_to_buf (f_metadata f)) w else Ret w);
  d ← deref (f_data f);
  w ← emit (put_le 8 (size d)) w;
  bs ← (if size d >? 0 then rd (data_buf d) 0 (size d) else Ret []);
  w ← emit bs w;
  if is_symlink f then
    wire_target ← chunk_encode_wire (Some (default [] (symlink_target f)));
    w ← emit (put_le 8 (zlen wire_target)) w;
    emit wire_target w
  else Ret w.

(** chunk.c [chunk_serialize] *)
Definition chunk_serialize (c : option Chunk) (use_metadata : bool) : outcome Data :=
  c ← of_option c;
  check (negb ((element_count c <? 0) || ((element_count c >? 0) && bool_decide (items c = None))));;
  let its := default [] (items c) in
  let n := Z.to_nat (element_count c) in
  data_size ← for_each (measure_item use_metadata) n its 0 0;
  d ← data_create_empty data_size;
  w ← for_each (emit_item use_metadata) n its 0 (WBuf (zlen (data_buf d)) []);
  Ret (MkData (Some (w_out w ++ drop (length (w_out w)) (data_buf d))) (size d) (protocol_charge d) (owner d)).

(** ** Parsing *)

(** chunk.c [chunk_deserialize], the path of an entry: the local name, and where
    the entry goes on *)
Definition parse_path (buf : list byte) (pos remaining : Z) : outcome (list byte * Z * Z) :=
  check (negb (remaining <? 8));;
  path_len ← get_le 8 buf pos;
  let '(pos, remaining) := (pos + 8, remaining - 8) in
  check (negb ((path_len >? SIZE_MAX - 1) || (remaining <? path_len)));;
  check (protocol_alloc (path_len + 1));;
  path ← rd buf pos path_len;
  check (negb (bool_decide (Byte.x00 ∈ path)));;
  let '(pos, remaining) := (pos + path_len, remaining - path_len) in
  path ← (if wire_active then wire_apply (Some path) else Ret path);
  check (negb ((zlen path =? 0) || has_path_traversal (Some path)));;
  Ret (path, pos, remaining).

(** The entry type and the device numbers *)
Definition parse_type (buf : list byte) (f : File) (pos remaining : Z) : outcome (File * Z * Z) :=
  check (negb (remaining <? 4));;
  t ← get_le 4 buf pos;
  let t := i32 t in
  check (negb (negb (t =? 0) && negb (t =? 1) && negb (t =? 2) && negb (t =? 3)));;
  let f := set_type f (t =? 1) (t =? 2) (t =? 3) in
  let '(pos, remaining) := (pos + 4, remaining - 4) in
  if is_special f then
    check (negb (remaining <? 2 * 4));;
    major ← get_le 4 buf pos;
    minor ← get_le 4 buf (pos + 4);
    let '(major, minor) := (i32 major, i32 minor) in
    check (negb ((major <? 0) || (minor <? 0) || (major >? 0xffff) || (minor >? 0x00ffffff)));;
    Ret (set_rdev f major minor, pos + 8, remaining - 2 * 4)
  else Ret (f, pos, remaining).

(** The metadata record *)
Definition parse_metadata (buf : list byte) (use_metadata : bool) (f : File) (pos remaining : Z)
  : outcome (File * Z * Z) :=
  if use_metadata then
    check (negb (remaining <? 4));;
    present_flag ← get_le 4 buf pos;
    let present_flag := i32 present_flag in
    check (negb ((negb (present_flag =? 0) && negb (present_flag =? 1))
                 || ((present_flag =? 1) && (remaining <? 4 + FILE_METADATA_WIRE_SIZE))));;
    m ← match metadata_from_buf (Some (drop (Z.to_nat pos) buf)) remaining with
        | Ret m => Ret (Some m) | Fail => Ret None | Stuck => Stuck
        end;
    if present_flag =? 1 then
      check (negb (bool_decide (m = None)));;
      Ret (set_metadata f m, pos + (4 + FILE_METADATA_WIRE_SIZE), remaining - (4 + FILE_METADATA_WIRE_SIZE))
    else Ret (set_metadata f m, pos + 4, remaining - 4)
  else Ret (f, pos, remaining).

(** The contents: a copy in a buffer of its own, not yet charged, and the bytes
    allocated for it *)
Definition parse_content (buf : list byte) (pos remaining : Z) : outcome (Data * Z * Z * Z) :=
  check (negb (remaining <? 8));;
  file_data_size ← get_le 8 buf pos;
  let '(pos, remaining) := (pos + 8, remaining - 8) in
  check (negb (remaining <? file_data_size));;
  check (negb (file_data_size >? MAX_CHUNK_FILE_DATA_SIZE));;
  let allocation_size := if file_data_size >? 0 then file_data_size else 1 in
  check (protocol_alloc allocation_size);;
  bs ← rd buf pos file_data_size;
  replacement ← data_create (Some (bs ++ drop (length bs) (junk_bytes allocation_size))) file_data_size;
  Ret (replacement, allocation_size, pos + file_data_size, remaining - file_data_size).

(** The target of a symbolic link *)
Definition parse_target (buf : list byte) (f : File) (pos remaining : Z) : outcome (File * Z * Z) :=
  if is_symlink f then
    check (negb (remaining <? 8));;
    target_len ← get_le 8 buf pos;
    let '(pos, remaining) := (pos + 8, remaining - 8) in
    check (negb ((target_len =? 0) || (remaining <? target_len)));;
    check (protocol_alloc (u64 (target_len + 1)));;
    target ← rd buf pos target_len;
    check (negb (bool_decide (Byte.x00 ∈ target)));;
    target ← (if wire_active then wire_apply (Some target) else Ret target);
    Ret (set_target f target, pos + target_len, remaining - target_len)
  else Ret (f, pos, remaining).

(** One round of the loop of [chunk_deserialize] *)
Definition chunk_entry (d : Data) (use_metadata : bool) (pos remaining : Z) (files : ArrayList File)
  : io (Z * Z * ArrayList File) :=
  let buf := data_buf d in
  io_check (negb (u32 (al_size files) >=? MAX_FILES_PER_CHUNK)) >~
  r <~ io_of (parse_path buf pos remaining);
  let '(path, pos, remaining) := r in
  file <~ io_of (file_create (Some path));
  r <~ on_fail (file_destroy (Some file)) (
    r <~ io_of ('(f, pos, remaining) ← parse_type buf file pos remaining;
                '(f, pos, remaining) ← parse_metadata buf use_metadata f pos remaining;
                '(replacement, allocation_size, pos, remaining) ← parse_content buf pos remaining;
                Ret (f, replacement, allocation_size, pos, remaining));
    let '(f, replacement, allocation_size, pos, remaining) := r in
    charged <~ on_fail (data_destroy (Some replacement))
                 (data_charge_session (Some replacement) (owner d) allocation_size);
    io_ret (f, default replacement charged, pos, remaining));
  let '(f, replacement, pos, remaining) := r in
  data_destroy (f_data f) >~
  let f := set_data f replacement in
  on_fail (file_destroy (Some f)) (
    r <~ io_of (parse_target buf f pos remaining);
    let '(f, pos, remaining) := r in
    files <~ io_of (array_list_add (Some files) f);
    io_ret (pos, remaining, files)).

(** [array_list_delete(files)] with [file_destroy] as its destroyer *)
Definition delete_files (files : ArrayList File) : io unit :=
  cells <~ io_of (array_list_delete (Some files)); destroy_files cells.

(** The loop: each round takes at least the 8 bytes of a length. *)
Fixpoint chunk_entries (fuel : nat) (d : Data) (use_metadata : bool) (pos remaining : Z) (files : ArrayList File)
  : io (ArrayList File) :=
  if remaining <=? 0 then io_ret files
  else match fuel with
  | O => io_of Stuck
  | S fuel =>
      r <~ on_fail (delete_files files) (chunk_entry d use_metadata pos remaining files);
      let '(pos, remaining, files) := r in
      chunk_entries fuel d use_metadata pos remaining files
  end.

(** chunk.c [chunk_deserialize] *)
Definition chunk_deserialize (d : option Data) (use_metadata : bool) : io Chunk :=
  match d with
  | None => io_fail
  | Some d =>
      io_check (negb (bool_decide (data d = None) && negb (size d =? 0))) >~
      files <~ io_of (array_list_create true);
      files <~ chunk_entries (Z.to_nat (size d)) d use_metadata 0 (size d) files;
      on_fail (delete_files files) (
        file_array <~ io_of match array_list_to_array (Some files) with
                            | Ret a => Ret (Some a) | Fail => Ret None | Stuck => Stuck
                            end;
        io_check (negb ((al_size files >? 0) && bool_decide (file_array = None))) >~
        io_of (chunk_create file_array (al_size files)))
  end.
End Chunk.

(** ** Parsing the bytes of a peer *)

(** The budget of the session that owns the inbound buffer moved by [n]; no
    other counter did. *)
Record charged_to (o : option nat) (n : Z) (w w' : world) : Prop := {
  ct_sid : w_sid w' = w_sid w;
  ct_net : w_net w' = w_net w;
  ct_len : length (w_counters w') = length (w_counters w);
  ct_counter i : counter w' i = counter w i + (if bool_decide (o = Some i) then n else 0);
}.

Lemma charged_refl o w : charged_to o 0 w w.
Proof. split; [done..|]. intros i. case_bool_decide; lia. Qed.

Lemma charged_trans o n m w1 w2 w3 :
  charged_to o n w1 w2 -> charged_to o m w2 w3 -> charged_to o (n + m) w1 w3.
Proof.
  intros [E1 E2 E3 E4] [F1 F2 F3 F4]. split; [congruence..|]. intros i. rewrite F4, E4. case_bool_decide; lia.
Qed.

(** The session is there and within its budget. *)
Definition owner_ok (o : option nat) (w : world) : Prop :=
  match o with
  | Some sid => (sid < length (w_counters w))%nat /\ 0 <= counter w sid <= MAX_CONNECTION_MEMORY
  | None => True
  end.
(** At least [n] is charged to it. *)
Definition owes (o : option nat) (n : Z) (w : world) : Prop :=
  match o with Some sid => n <= counter w sid | None => True end.

(** A buffer the parser made: its charge is the bytes allocated for it, on the
    session of the inbound buffer. *)
Record kept (o : option nat) (d : Data) : Prop := {
  k_wf : data_wf d;
  k_max : size d <= MAX_CHUNK_FILE_DATA_SIZE;
  k_owner : owner d = o;
  k_charge : protocol_charge d = if o then Z.max 1 (size d) else 0;
}.

(** A file the parser made. *)
Record received_ok `{Heap} (o : option nat) (f : File) : Prop := {
  r_path : exists p, f_path f = Some p /\ p <> [] /\ Byte.x00 ∉ p /\ has_path_traversal (Some p) = false;
  r_data : exists d, f_data f = Some d /\ kept o d;
  r_kind : (if is_dir f then 1 else 0) + (if is_symlink f then 1 else 0) + (if is_special f then 1 else 0) <= 1;
  r_rdev : 0 <= rdev_major f <= 0xffff /\ 0 <= rdev_minor f <= 0x00ffffff;
  r_target : if is_symlink f then exists t, symlink_target f = Some t /\ Byte.x00 ∉ t else symlink_target f = None;
}.

Definition file_charge (f : File) : Z := match f_data f with Some d => protocol_charge d | None => 0 end.
Fixpoint files_charge (l : list File) : Z := match l with [] => 0 | f :: l => file_charge f + files_charge l end.

Lemma files_charge_app l k : files_charge (l ++ k) = files_charge l + files_charge k.
Proof. induction l; simpl; lia. Qed.

Lemma kept_charge o d : kept o d -> 0 <= protocol_charge d.
Proof. intros [Hw _ _ ->]. destruct o; lia. Qed.

Lemma files_charge_nonneg `{Heap} o l : Forall (received_ok o) l -> 0 <= files_charge l.
Proof.
  induction 1 as [|f l [_ (d&Hd&Hk) _ _ _] _ IH]; simpl; [done|]. unfold file_charge. rewrite Hd.
  pose proof (kept_charge o d Hk). lia.
Qed.

Lemma set_counter_charged sid n w :
  (sid < length (w_counters w))%nat -> charged_to (Some sid) n w (set_counter w sid (counter w sid + n)).
Proof.
  intros Hlen. split; [done|done|simpl; by rewrite length_insert|]. intros i. case_bool_decide as Hi.
  - injection Hi as <-. by rewrite counter_set_eq.
  - rewrite counter_set_ne by congruence. lia.
Qed.

(** Destroying what was kept gives exactly its charge back. *)
Lemma data_destroy_kept o d w :
  kept o d -> owner_ok o w -> owes o (protocol_charge d) w ->
  iowp (data_destroy (Some d)) (fun w' r => is_Some r /\ charged_to o (- protocol_charge d) w w') w.
Proof.
  intros [[Hsz _] _ Ho Hc] Hok Howe. unfold iowp, data_destroy. rewrite Ho. destruct o as [sid|].
  - destruct (Z.eqb_spec (protocol_charge d) 0); [lia|]. simpl in Hok, Howe. destruct Hok as [Hlen Hcnt].
    unfold protocol_release_memory_for_session. split; [done|]. rewrite release_next_spec by lia.
    by apply set_counter_charged.
  - rewrite Hc. simpl. split; [done|]. apply charged_refl.
Qed.

Lemma owner_ok_charged o n w w' :
  owner_ok o w -> charged_to o n w w' ->
  match o with Some sid => 0 <= counter w sid + n <= MAX_CONNECTION_MEMORY | None => True end -> owner_ok o w'.
Proof.
  intros Hok [_ _ Hl Hc] Hn. destruct o as [sid|]; [|done]. simpl in *. rewrite Hl, Hc, bool_decide_eq_true_2 by done.
  destruct Hok. done.
Qed.

Lemma destroy_files_kept `{Heap} o l w :
  Forall (received_ok o) l -> owner_ok o w -> owes o (files_charge l) w ->
  iowp (destroy_files (Some <$> l)) (fun w' r => is_Some r /\ charged_to o (- files_charge l) w w') w.
Proof.
  intros Hl. revert w. induction Hl as [|f l Hf Hl IH]; intros w Hok Howe; simpl.
  { split; [done|]. apply charged_refl. }
  pose proof (files_charge_nonneg o l Hl). destruct Hf as [_ (d&Hd&Hk) _ _ _]. simpl in Howe.
  unfold file_charge in *. rewrite Hd in *. pose proof (kept_charge o d Hk). io_step.
  eapply iowp_mono; [apply (data_destroy_kept o d); [done|done|destruct o; simpl in *; lia]|].
  intros w1 r [[[] ->] Hc]. pose proof Hc as Hc'. destruct Hc' as [_ _ _ Hc1].
  eapply iowp_mono; [apply IH|].
  - eapply owner_ok_charged; [exact Hok|exact Hc|]. destruct o; simpl in *; lia.
  - destruct o as [sid|]; simpl in *; [|done]. rewrite Hc1, bool_decide_eq_true_2 by done. lia.
  - intros w2 r2 [Hr2 Hc2]. split; [done|]. eapply charged_trans in Hc2; [|exact Hc].
    by replace (- (protocol_charge d + files_charge l)) with (- protocol_charge d + - files_charge l) by lia.
Qed.

Section Parse.
Context `{HH : Heap} {W : WireCharset} (buf : list byte) (Hbuf : zlen buf < 2 ^ 63).

(** Where a parser that started at [pos] with [remaining] bytes may stop. *)
Definition moved (pos remaining pos' remaining' : Z) : Prop :=
  pos' + remaining' = pos + remaining /\ 0 <= pos <= pos' /\ 0 <= remaining'.
Definition within (pos remaining : Z) : Prop := 0 <= pos /\ 0 <= remaining /\ pos + remaining <= zlen buf.

Lemma wire_name_safe s :
  zlen s < 2 ^ 63 -> Byte.x00 ∉ s ->
  owp (if wire_active then wire_apply (Some s) else Ret s) (fun p => Byte.x00 ∉ p).
Proof.
  intros Hs Hn. destruct wire_active; [|done]. pose proof (wire_apply_safe s Hs).
  destruct (wire_apply (Some s)) as [p| |] eqn:E; [|done..]. by eapply wire_apply_cstr.
Qed.

Lemma parse_path_safe pos remaining :
  within pos remaining ->
  owp (parse_path buf pos remaining) (fun '(p, pos', remaining') =>
    (p <> [] /\ Byte.x00 ∉ p /\ has_path_traversal (Some p) = false) /\
    moved pos remaining pos' remaining' /\ remaining' <= remaining - 8).
Proof.
  intros (Hp&Hr&Hb). unfold parse_path. wp_check E1. wp_bind. bool_to_prop.
  apply owp_get_le; [done|simpl; lia|]. intros len Hlen. change (8 * Z.of_nat 8) with 64 in Hlen.
  wp_check E2. bool_to_prop. wp_check E3. wp_bind. apply owp_rd; [lia|lia|lia|]. intros path Hpl.
  wp_check E4. bool_to_prop. wp_bind.
  eapply owp_mono; [apply (wire_name_safe path); [lia|done]|]. intros p Hn. simpl. wp_check E5. bool_to_prop. apply owp_ret.
  split_and!; [by intros ->|done|done| |lia]. unfold moved. lia.
Qed.

(** The state of a file between [file_create] and its contents. *)
Record started (p : list byte) (f : File) : Prop := {
  s_path : f_path f = Some p;
  s_data : exists d, f_data f = Some d /\ protocol_charge d = 0;
  s_kind : (if is_dir f then 1 else 0) + (if is_symlink f then 1 else 0) + (if is_special f then 1 else 0) <= 1;
  s_rdev : 0 <= rdev_major f <= 0xffff /\ 0 <= rdev_minor f <= 0x00ffffff;
  s_target : symlink_target f = None;
}.

Lemma file_create_safe p : owp (file_create (Some p)) (started p).
Proof.
  unfold file_create, data_create_reserve. simpl. case_check E1; [|done]. case_check E2; [|done]. case_check E3; [|done].
  split; simpl; [done|by eexists|lia|lia|done].
Qed.

Lemma parse_type_safe p f pos remaining :
  started p f -> within pos remaining ->
  owp (parse_type buf f pos remaining) (fun '(f', pos', remaining') =>
    started p f' /\ f_data f' = f_data f /\ moved pos remaining pos' remaining').
Proof.
  intros [Hf1 Hf2 Hf3 Hf4 Hf5] (Hp&Hr&Hb). unfold parse_type. wp_check E1. bool_to_prop. wp_bind.
  apply owp_get_le; [done|simpl; lia|]. intros t Ht. wp_check E2. cbv zeta.
  assert (Hs : forall major minor, 0 <= major <= 0xffff -> 0 <= minor <= 0x00ffffff ->
    started p (set_rdev (set_type f (i32 t =? 1) (i32 t =? 2) (i32 t =? 3)) major minor)).
  { intros major minor Hma Hmi. split; simpl; try done.
    destruct (Z.eqb_spec (i32 t) 1), (Z.eqb_spec (i32 t) 2), (Z.eqb_spec (i32 t) 3); lia. }
  simpl is_special. destruct (i32 t =? 3) eqn:E3.
  - wp_check E4. bool_to_prop. wp_bind. apply owp_get_le; [lia|simpl; lia|]. intros major Hma. wp_bind.
    apply owp_get_le; [lia|simpl; lia|]. intros minor Hmi. wp_check E5. apply owp_ret.
    apply negb_true_iff in E5. repeat (apply orb_false_iff in E5 as [E5 ?]). rewrite Z.gtb_ltb in *. bool_to_prop.
    split; [apply Hs; lia|]. split; [done|]. unfold moved. lia.
  - apply owp_ret. specialize (Hs (rdev_major f) (rdev_minor f) ltac:(lia) ltac:(lia)). split; [exact Hs|].
    split; [done|]. unfold moved. lia.
Qed.

Lemma parse_metadata_safe p um f pos remaining :
  started p f -> within pos remaining ->
  owp (parse_metadata buf um f pos remaining) (fun '(f', pos', remaining') =>
    started p f' /\ f_data f' = f_data f /\ moved pos remaining pos' remaining').
Proof.
  intros Hf (Hp&Hr&Hb). unfold parse_metadata.
  destruct um; [|apply owp_ret; split; [done|]; split; [done|]; unfold moved; lia].
  assert (Hset : forall m, started p (set_metadata f m)) by (intros m; by destruct Hf; split).
  wp_check E1. bool_to_prop. wp_bind. apply owp_get_le; [done|simpl; lia|]. intros t Ht.
  wp_check E2. wp_bind. apply negb_true_iff, orb_false_iff in E2 as [E2 E2'].
  assert (Hm : owp match metadata_from_buf (Some (drop (Z.to_nat pos) buf)) remaining with
        | Ret m => Ret (Some m) | Fail => Ret None | Stuck => Stuck end (fun _ => True)).
  { assert (Hz : remaining <= zlen (drop (Z.to_nat pos) buf)) by (unfold zlen in *; rewrite length_drop; lia).
    pose proof (metadata_from_buf_safe (drop (Z.to_nat pos) buf) remaining Hz) as Hs.
    by destruct (metadata_from_buf _ _). }
  eapply owp_mono; [exact Hm|]. intros m _. simpl. destruct (i32 t =? 1) eqn:E3.
  - simpl in E2'. bool_to_prop. wp_check E4. apply owp_ret. split; [apply Hset|]. split; [done|].
    unfold moved, FILE_METADATA_WIRE_SIZE in *. lia.
  - apply owp_ret. split; [apply Hset|]. split; [done|]. unfold moved. lia.
Qed.

Lemma parse_content_safe pos remaining :
  within pos remaining ->
  owp (parse_content buf pos remaining) (fun '(d, n, pos', remaining') =>
    kept None d /\ n = Z.max 1 (size d) /\ moved pos remaining pos' remaining').
Proof.
  intros (Hp&Hr&Hb). unfold parse_content. wp_check E1. bool_to_prop. wp_bind.
  apply owp_get_le; [done|simpl; lia|]. intros n Hn. change (8 * Z.of_nat 8) with 64 in Hn.
  wp_check E2. wp_check E3. rewrite Z.gtb_ltb in *. bool_to_prop. wp_check E4. wp_bind.
  apply owp_rd; [lia|lia|lia|]. intros bs Hbs. unfold data_create. wp_bind. wp_check E5.
  assert (Ha : (if 0 <? n then n else 1) = Z.max 1 n) by (destruct (Z.ltb_spec 0 n); lia).
  split_and!; simpl; [|lia|unfold moved; lia]. split; simpl; try done.
  unfold data_wf; simpl. rewrite zlen_app. pose proof (zlen_nonneg (drop (length bs) (junk_bytes (if 0 <? n then n else 1)))). lia.
Qed.

Lemma parse_target_safe f pos remaining :
  symlink_target f = None -> within pos remaining ->
  owp (parse_target buf f pos remaining) (fun '(f', pos', remaining') =>
    f_path f' = f_path f /\ f_data f' = f_data f /\ is_dir f' = is_dir f /\ is_symlink f' = is_symlink f /\
    is_special f' = is_special f /\ rdev_major f' = rdev_major f /\ rdev_minor f' = rdev_minor f /\
    (if is_symlink f then exists t, symlink_target f' = Some t /\ Byte.x00 ∉ t else symlink_target f' = None) /\
    moved pos remaining pos' remaining').
Proof.
  intros Ht (Hp&Hr&Hb). unfold parse_target.
  destruct (is_symlink f) eqn:Es; [|apply owp_ret; split_and!; try done; unfold moved; lia].
  wp_check E1. bool_to_prop. wp_bind. apply owp_get_le; [done|simpl; lia|]. intros n Hn.
  wp_check E2. bool_to_prop. wp_check E3. wp_bind. apply owp_rd; [lia|lia|lia|]. intros t Htl.
  wp_check E4. bool_to_prop. wp_bind.
  eapply owp_mono; [apply (wire_name_safe t); [lia|done]|]. intros t' Hn'. apply owp_ret.
  split_and!; try done; [simpl; eauto|unfold moved; lia].
Qed.
End Parse.

(** Charging a kept copy to the session. *)
Lemma charge_safe o d n w :
  kept None d -> n = Z.max 1 (size d) -> owner_ok o w ->
  iowp (on_fail (data_destroy (Some d)) (data_charge_session (Some d) o n)) (fun w' r =>
    match r with
    | Some r => kept o (default d r) /\ charged_to o (protocol_charge (default d r)) w w' /\ owner_ok o w' /\
                owes o (protocol_charge (default d r)) w'
    | None => charged_to o 0 w w'
    end) w.
Proof.
  intros Hk -> Hok. pose proof Hk as [Hw Hm Ho Hc].
  unfold iowp, on_fail, data_charge_session, data_destroy. rewrite Ho, Hc. destruct o as [sid|]; simpl.
  2: { split; [done|]. rewrite Hc. split; [apply charged_refl|done]. }
  destruct (Z.eqb_spec (Z.max 1 (size d)) 0); [lia|]. unfold io_bind, chunk_session_reserve, io_check, io_ret, io_fail.
  destruct Hok as [Hlen Hcnt]. pose proof (reserve_next_spec (counter w sid) (Z.max 1 (size d)) Hcnt ltac:(lia)) as Hr.
  destruct (reserve_next _ _) as [a|]; [|apply charged_refl]. destruct Hr as [-> Hmax]. simpl.
  split_and!; [by split|by apply set_counter_charged|by rewrite length_insert| | |]; rewrite counter_set_eq by done; lia.
Qed.

Lemma iowp_on_fail {A} (c : io unit) (m : io A) Q w :
  iowp m (fun w' r => match r with
                      | Some a => Q w' (Some a)
                      | None => iowp c (fun w'' _ => Q w'' None) w'
                      end) w ->
  iowp (on_fail c m) Q w.
Proof.
  unfold iowp, on_fail, io_bind, io_fail. destruct (m w) as [w' [a| |]]; try done.
  destruct (c w') as [w'' [[]| |]]; done.
Qed.

Section Deserialize.
Context `{HH : Heap} {W : WireCharset} (d : Data) (um : bool).
Context (Hd : data_wf d) (Hbuf : zlen (data_buf d) < 2 ^ 63).

Lemma destroy_uncharged f w (Q : world -> option unit -> Prop) :
  (exists x, f_data f = Some x /\ protocol_charge x = 0) -> Q w (Some tt) -> iowp (file_destroy (Some f)) Q w.
Proof. intros (x&Hx&Hc) HQ. unfold file_destroy. rewrite Hx. unfold iowp, data_destroy. by rewrite Hc. Qed.

(** What one round of the loop does to the list, the position and the budget. *)
Definition entry_post (l : list File) (pos remaining : Z) (files : ArrayList File) (w w' : world)
    (r : option (Z * Z * ArrayList File)) : Prop :=
  match r with
  | None => charged_to (owner d) 0 w w'
  | Some (pos', remaining', files') =>
      exists f, received_ok (owner d) f /\ al_repr files' (l ++ [f]) /\ al_destroyer files' = al_destroyer files /\
        charged_to (owner d) (file_charge f) w w' /\ owner_ok (owner d) w' /\
        moved pos remaining pos' remaining' /\ remaining' <= remaining - 8 /\ zlen (l ++ [f]) <= MAX_FILES_PER_CHUNK
  end.

(** The part of a round after the contents are charged. *)
Lemma entry_tail_safe p f x pos remaining pos0 remaining0 files l w0 w :
  (p <> [] /\ Byte.x00 ∉ p /\ has_path_traversal (Some p) = false) -> started p f -> kept (owner d) x ->
  charged_to (owner d) (protocol_charge x) w0 w -> owner_ok (owner d) w -> owes (owner d) (protocol_charge x) w ->
  within (data_buf d) pos remaining -> moved pos0 remaining0 pos remaining -> remaining <= remaining0 - 8 ->
  al_repr files l -> zlen l < MAX_FILES_PER_CHUNK ->
  iowp (data_destroy (f_data f) >~
        let f := set_data f x in
        on_fail (file_destroy (Some f)) (
          r <~ io_of (parse_target (data_buf d) f pos remaining);
          let '(f, pos, remaining) := r in
          files <~ io_of (array_list_add (Some files) f);
          io_ret (pos, remaining, files))) (entry_post l pos0 remaining0 files w0) w.
Proof.
  intros Hpath [Hp2 (x0&Hx0&Hc0) Hk2 Hr2 Ht2] Hk Hc Hok Howe Hin Hm Hless Hal Hl. unfold MAX_FILES_PER_CHUNK in Hl.
  io_step. rewrite Hx0. unfold iowp at 1, data_destroy. rewrite Hc0. simpl (_ =? _). cbv iota. unfold io_ret at 1.
  set (f3 := set_data f x).
  assert (Hfail : iowp (file_destroy (Some f3)) (fun w'' _ => entry_post l pos0 remaining0 files w0 w'' None) w).
  { eapply iowp_mono; [apply (data_destroy_kept (owner d) x); done|]. intros w2 r [_ Hc2]. simpl.
    eapply charged_trans in Hc2; [|exact Hc]. by rewrite Z.add_opp_diag_r in Hc2. }
  apply iowp_on_fail. io_step. apply iowp_of; [|exact Hfail].
  eapply owp_mono; [by apply parse_target_safe|]. intros [[f4 pos5] rem5] (H1&H2&H3&H4&H5&H6&H7&H8&Hm5). io_step.
  apply iowp_of; [|exact Hfail]. pose proof (array_list_add_any files l f4 Hal ltac:(lia)) as Hadd.
  destruct (array_list_add (Some files) f4) as [files'| |]; [|done..]. destruct Hadd as [Hal' Hds]. apply iowp_ret. simpl.
  exists f4. assert (Hz1 : zlen (l ++ [f4]) = zlen l + 1) by (by rewrite zlen_app).
  split_and!; [|done|done| |done| | |].
  - split; rewrite ?H1, ?H2, ?H3, ?H4, ?H5, ?H6, ?H7; [exists p; by split|by exists x|done|done|exact H8].
  - unfold file_charge. rewrite H2. exact Hc.
  - unfold moved in *. lia.
  - unfold moved in *. lia.
  - unfold MAX_FILES_PER_CHUNK in *. lia.
Qed.

Lemma chunk_entry_safe pos remaining files l w :
  within (data_buf d) pos remaining -> al_repr files l -> zlen l <= MAX_FILES_PER_CHUNK -> owner_ok (owner d) w ->
  iowp (chunk_entry d um pos remaining files) (entry_post l pos remaining files w) w.
Proof.
  intros Hin Hal Hl Hok. pose proof (ar_size _ _ Hal) as [Hsz _]. unfold MAX_FILES_PER_CHUNK in Hl. pose proof (zlen_nonneg l).
  assert (Hno : entry_post l pos remaining files w w None) by apply charged_refl.
  unfold chunk_entry. io_step. apply iowp_check; [|done]. intros E1. rewrite Hsz, u32_small in E1 by lia.
  rewrite Z.geb_leb in E1. bool_to_prop. io_step. apply iowp_of; [|done].
  eapply owp_mono; [by apply parse_path_safe|]. intros [[p pos1] rem1] (Hpath&Hm1&Hless). io_step.
  apply iowp_of; [|done]. eapply owp_mono; [apply file_create_safe|]. intros f0 Hf0.
  assert (Hw1 : within (data_buf d) pos1 rem1) by (unfold within, moved in *; lia).
  io_step. apply iowp_on_fail. io_step. apply iowp_of.
  2: { apply destroy_uncharged; [by destruct Hf0|exact Hno]. }
  wp_bind. eapply owp_mono; [by apply (parse_type_safe _ p)|]. intros [[f1 pos2] rem2] (Hf1&Hd1&Hm2).
  assert (Hw2 : within (data_buf d) pos2 rem2) by (unfold within, moved in *; lia).
  wp_bind. eapply owp_mono; [by apply (parse_metadata_safe _ p)|]. intros [[f2 pos3] rem3] (Hf2&Hd2&Hm3).
  assert (Hw3 : within (data_buf d) pos3 rem3) by (unfold within, moved in *; lia).
  wp_bind. eapply owp_mono; [by apply parse_content_safe|]. intros [[[x n] pos4] rem4] (Hx&Hn&Hm4).
  apply owp_ret. cbn [fst snd]. io_step.
  eapply iowp_mono; [by apply charge_safe|]. intros w1 [c|] Hc.
  2: { apply destroy_uncharged; [by destruct Hf0|exact Hc]. }
  destruct Hc as (Hk&Hc&Hok1&Howe). apply iowp_ret.
  apply (entry_tail_safe p); try done; unfold within, moved, MAX_FILES_PER_CHUNK in *; lia.
Qed.

(** ** The whole buffer *)

Lemma delete_files_kept files l w :
  al_repr files l -> al_destroyer files = true -> Forall (received_ok (owner d)) l -> owner_ok (owner d) w ->
  owes (owner d) (files_charge l) w ->
  iowp (delete_files files) (fun w' _ => charged_to (owner d) (- files_charge l) w w') w.
Proof.
  intros [Hc Hi [Hs Hle] Hcells] Hds Hl Hok Howe. unfold delete_files, array_list_delete. rewrite Hds. io_step.
  pose proof (zlen_nonneg l). rewrite rd_ret by lia. rewrite Hs, drop_0. unfold zlen. rewrite Nat2Z.id, Hcells.
  eapply iowp_of_ret; [reflexivity|]. eapply iowp_mono; [by apply destroy_files_kept|]. naive_solver.
Qed.

(** The charge of the parsed files is part of the counter. *)
Lemma owes_charged l n w w' :
  owner_ok (owner d) w -> charged_to (owner d) n w w' -> owes (owner d) l w -> owes (owner d) (l + n) w'.
Proof.
  intros Hok [_ _ _ Hc] Ho. destruct (owner d) as [sid|]; [|done]. simpl in *.
  rewrite Hc, bool_decide_eq_true_2 by done. lia.
Qed.

Lemma chunk_entries_safe fuel pos remaining files l w :
  remaining <= Z.of_nat fuel -> within (data_buf d) pos remaining ->
  al_repr files l -> al_destroyer files = true -> zlen l <= MAX_FILES_PER_CHUNK ->
  Forall (received_ok (owner d)) l -> owner_ok (owner d) w -> owes (owner d) (files_charge l) w ->
  iowp (chunk_entries fuel d um pos remaining files) (fun w' r =>
    match r with
    | Some files' => exists l', al_repr files' (l ++ l') /\ al_destroyer files' = true /\
        Forall (received_ok (owner d)) (l ++ l') /\ zlen (l ++ l') <= MAX_FILES_PER_CHUNK /\
        charged_to (owner d) (files_charge l') w w' /\ owner_ok (owner d) w' /\ owes (owner d) (files_charge (l ++ l')) w'
    | None => charged_to (owner d) (- files_charge l) w w'
    end) w.
Proof.
  revert pos remaining files l w. induction fuel as [|fuel IH]; intros pos remaining files l w Hf Hin Hal Hds Hz Hl Hok Howe;
    cbn [chunk_entries]; (destruct (Z.leb_spec remaining 0);
      [apply iowp_ret; exists []; rewrite app_nil_r; split_and!; try done; apply charged_refl|]); [lia|].
  io_step. apply iowp_on_fail. eapply iowp_mono; [by apply chunk_entry_safe|]. intros w1 [[[pos' rem'] files']|] Hr.
  - destruct Hr as (f&Hf1&Hal'&Hds'&Hc&Hok'&Hm&Hless&Hz'). rewrite Hds in Hds'.
    eapply iowp_mono; [apply (IH pos' rem' files' (l ++ [f]))|].
    all: try done; try (unfold within, moved in *; lia).
    + apply Forall_app_2; [done|by apply Forall_singleton].
    + rewrite files_charge_app. cbn [files_charge]. rewrite Z.add_0_r. by apply (owes_charged _ _ w).
    + intros w2 [files2|] Hr.
      * destruct Hr as (l'&H1&H2&H3&H4&H5&H6&H7). exists (f :: l').
        rewrite <- app_assoc in H1, H3, H4, H7. split_and!; try done. simpl. by eapply charged_trans.
      * rewrite files_charge_app in Hr. cbn [files_charge] in Hr. eapply charged_trans in Hr; [|exact Hc].
        replace (- files_charge l) with (file_charge f + - (files_charge l + (file_charge f + 0))) by lia. done.
  - simpl in Hr. eapply iowp_mono; [apply (delete_files_kept files l); try done|].
    + eapply owner_ok_charged; [exact Hok|exact Hr|]. destruct (owner d); simpl in *; lia || done.
    + rewrite <- (Z.add_0_r (files_charge l)). by eapply owes_charged.
    + intros w2 r Hc2. by eapply charged_trans in Hc2; [|exact Hr].
Qed.

(** What parsing a chunk does to the session and what it returns. *)
Definition chunk_post (w w' : world) (r : option Chunk) : Prop :=
  match r with
  | None => charged_to (owner d) 0 w w'
  | Some c => exists l, element_count c = zlen l /\ default [] (items c) = Some <$> l /\
      zlen l <= MAX_FILES_PER_CHUNK /\ Forall (received_ok (owner d)) l /\
      charged_to (owner d) (files_charge l) w w' /\ owner_ok (owner d) w' /\ owes (owner d) (files_charge l) w'
  end.

(** Turning the list into the chunk. *)
Lemma chunk_finish_safe files l w w1 :
  al_repr files l -> al_destroyer files = true -> Forall (received_ok (owner d)) l -> zlen l <= MAX_FILES_PER_CHUNK ->
  charged_to (owner d) (files_charge l) w w1 -> owner_ok (owner d) w1 -> owes (owner d) (files_charge l) w1 ->
  iowp (on_fail (delete_files files) (
          file_array <~ io_of match array_list_to_array (Some files) with
                              | Ret a => Ret (Some a) | Fail => Ret None | Stuck => Stuck
                              end;
          io_check (negb ((al_size files >? 0) && bool_decide (file_array = None))) >~
          io_of (chunk_create file_array (al_size files)))) (chunk_post w) w1.
Proof.
  intros Hal Hds Hl Hz Hc Hok1 Howe.
  assert (Hfail : iowp (delete_files files) (fun w'' _ => chunk_post w w'' None) w1).
  { eapply iowp_mono; [by apply (delete_files_kept files l)|]. intros w2 r Hc2.
    eapply charged_trans in Hc2; [|exact Hc]. by rewrite Z.add_opp_diag_r in Hc2. }
  pose proof Hal as [Hcap Hi [Hs Hle] Hcells]. pose proof (zlen_nonneg l).
  assert (Hrd : rd (al_items files) 0 (al_size files) = Ret (Some <$> l)).
  { rewrite rd_ret by lia. rewrite Hs, drop_0. unfold zlen. by rewrite Nat2Z.id, Hcells. }
  apply iowp_on_fail. io_step. unfold array_list_to_array. simpl.
  assert (Hdone : forall a, a = Some (Some <$> l) \/ (a = None /\ zlen l = 0) ->
    owp (chunk_create a (al_size files)) (fun c => chunk_post w w1 (Some c))).
  { intros a Ha. unfold chunk_create. wp_check E3. wp_check E4. rewrite Hs. destruct (Z.eqb_spec (zlen l) 0) as [E|E].
    - apply owp_ret. exists l. destruct l; [|unfold zlen in E; simpl in E; lia]. by split_and!.
    - wp_check E5. wp_check E6. destruct Ha as [->|[_ ?]]; [|lia]. cbn [default from_option id].
      rewrite rd_ret by (unfold zlen in *; rewrite ?length_fmap; lia). cbn [mbind outcome_bind].
      apply owp_ret. exists l. split_and!; try done.
      simpl. rewrite drop_0, take_ge; [done|]. rewrite length_fmap. unfold zlen. lia. }
  destruct (protocol_alloc (al_size files * 8)); simpl; [rewrite Hrd|]; (eapply iowp_of_ret; [reflexivity|]); io_step;
    apply iowp_check; try (intros _; exact Hfail); intros E3; (apply iowp_of; [apply Hdone|exact Hfail]).
  - by left.
  - right. split; [done|]. rewrite Hs, Z.gtb_ltb in E3. bool_to_prop.
    destruct (Z.ltb_spec 0 (zlen l)); [done|lia].
Qed.

Lemma chunk_deserialize_post w :
  owner_ok (owner d) w -> iowp (chunk_deserialize (Some d) um) (chunk_post w) w.
Proof.
  intros Hok. pose proof (data_wf_buf d Hd) as [Hsz _].
  assert (Hno : chunk_post w w None) by apply charged_refl.
  unfold chunk_deserialize. io_step. apply iowp_check; [|done]. intros _. io_step.
  unfold array_list_create. apply iowp_of; [|done]. wp_check E1. wp_check E2. apply owp_ret.
  io_step. eapply iowp_mono; [apply (chunk_entries_safe _ 0 (size d) _ [])|].
  all: try done; try lia.
  - destruct (owner d); simpl in *; [lia|done].
  - intros w1 [files|] Hr; [|exact Hr]. destruct Hr as (l&Hal&Hds&Hl&Hz&Hc&Hok1&Howe). by apply (chunk_finish_safe _ l).
Qed.
End Deserialize.

(** C37: parsing a chunk is safe and its memory is accounted for.  Whatever bytes
    a peer sent as a chunk, and whichever allocations fail, parsing ends and
    stays inside the buffer.  When it fails, the budget of the connection is
    what it was.  When it returns, there are at most 65536 files, each with a
    non-empty path without [..] components and a copy of its contents of at
    most 64 MiB, of one kind, with device numbers in range and a target exactly
    if it is a link; the copies are charged to the session that owns the inbound
    buffer and to no other, within its budget; and destroying the chunk gives
    exactly that back. *)
Theorem chunk_deserialize_safe `{HH : Heap} {W : WireCharset} d um w
    (Hd : data_wf d) (Hbuf : zlen (data_buf d) < 2 ^ 63) (Hok : owner_ok (owner d) w) :
  iowp (chunk_deserialize (Some d) um) (fun w' r =>
    chunk_post d w w' r /\
    match r with
    | Some c => iowp (chunk_destroy (Some c)) (fun w'' r => is_Some r /\ charged_to (owner d) 0 w w'') w'
    | None => True
    end) w.
Proof.
  eapply iowp_mono; [by apply chunk_deserialize_post|]. intros w' [c|] Hp; [|done]. split; [done|].
  destruct Hp as (l&Hn&Hi&Hz&Hl&Hc&Hok'&Howe). unfold chunk_destroy. io_step. rewrite Hi, Hn.
  pose proof (zlen_nonneg l). eapply iowp_of_ret.
  { rewrite rd_ret by (unfold zlen in *; rewrite ?length_fmap; lia). simpl.
    rewrite drop_0, take_ge by (rewrite length_fmap; unfold zlen; lia). reflexivity. }
  eapply iowp_mono; [by apply (destroy_files_kept (owner d))|]. intros w2 r [Hr Hc2]. split; [done|].
  eapply charged_trans in Hc2; [|exact Hc]. by rewrite Z.add_opp_diag_r in Hc2.
Qed.

(** ** Round trip *)

(** How a file travels: its name, contents and target on the wire, and the name
    and target the receiver makes of them. *)
Record wire_entry := MkEntry {
  e_path : list byte; e_content : list byte; e_target : list byte;
  e_local : list byte; e_local_target : list byte;
}.

Section RoundTrip.
Context `{HH : Heap} (WS WR : WireCharset) (um : bool).

(** The sender can encode the file and the receiver accepts what it gets. *)
Record travels (f : File) (e : wire_entry) : Prop := {
  t_path : exists p, f_path f = Some p /\ p <> [] /\ has_path_traversal (Some p) = false;
  t_wire : exists s, file_wire_path f = Some s /\ s <> [] /\ chunk_encode_wire (W := WS) (Some s) = Ret (e_path e);
  t_nul : Byte.x00 ∉ e_path e;
  t_local : wire_bytes WR (e_path e) = Ret (e_local e);
  t_local_ok : e_local e <> [] /\ has_path_traversal (Some (e_local e)) = false;
  t_data : exists x, f_data f = Some x /\ data_wf x /\ rd (data_buf x) 0 (size x) = Ret (e_content e);
  t_max : zlen (e_content e) <= MAX_CHUNK_FILE_DATA_SIZE;
  t_kind : (if is_dir f then 1 else 0) + (if is_symlink f then 1 else 0) + (if is_special f then 1 else 0) <= 1;
  t_rdev : is_special f = true -> 0 <= rdev_major f <= 0xffff /\ 0 <= rdev_minor f <= 0x00ffffff;
  t_meta : um = true -> match f_metadata f with Some m => meta_typed m /\ meta_valid m = true | None => True end;
  t_target : is_symlink f = true ->
    chunk_encode_wire (W := WS) (Some (default [] (symlink_target f))) = Ret (e_target e) /\
    e_target e <> [] /\ Byte.x00 ∉ e_target e /\ wire_bytes WR (e_target e) = Ret (e_local_target e);
}.

(** The bytes of one entry, part by part. *)
Definition path_part (e : wire_entry) : list byte := put_le 8 (zlen (e_path e)) ++ e_path e.
Definition type_part (f : File) : list byte :=
  put_le 4 (entry_type f) ++ (if is_special f then put_le 4 (rdev_major f) ++ put_le 4 (rdev_minor f) else []).
Definition meta_part (f : File) : list byte := if um then metadata_to_buf (f_metadata f) else [].
Definition content_part (e : wire_entry) : list byte := put_le 8 (zlen (e_content e)) ++ e_content e.
Definition target_part (f : File) (e : wire_entry) : list byte :=
  if is_symlink f then put_le 8 (zlen (e_target e)) ++ e_target e else [].
Definition entry_bytes (f : File) (e : wire_entry) : list byte :=
  path_part e ++ type_part f ++ meta_part f ++ content_part e ++ target_part f e.
Fixpoint chunk_bytes (fs : list File) (es : list wire_entry) : list byte :=
  match fs, es with f :: fs, e :: es => entry_bytes f e ++ chunk_bytes fs es | _, _ => [] end.

(** What the receiver holds of a file. *)
Definition received_data (o : option nat) (e : wire_entry) : Data :=
  let n := zlen (e_content e) in
  MkData (Some (e_content e ++ drop (length (e_content e)) (junk_bytes (Z.max 1 n)))) n (if o then Z.max 1 n else 0) o.
Definition received_file (o : option nat) (f : File) (e : wire_entry) : File :=
  MkFile (Some (e_local e)) None (Some (received_data o e)) (if um then f_metadata f else None)
    (is_dir f) (is_symlink f) (if is_symlink f then Some (e_local_target e) else None) (is_special f)
    (if is_special f then rdev_major f else 0) (if is_special f then rdev_minor f else 0).

(** *** Serialization *)

Lemma add_size_ok n sz k : n + sz < 2 ^ 64 -> add_size n sz k = k (sz + n).
Proof. intros. unfold add_size, UINT64_MAX. destruct (Z.gtb_spec n (2 ^ 64 - 1 - sz)); [lia|done]. Qed.

Lemma zlen_meta_part f :
  zlen (meta_part f) = if um then 4 + (if f_metadata f then FILE_METADATA_WIRE_SIZE else 0) else 0.
Proof.
  unfold meta_part. destruct um; [|done]. destruct (f_metadata f); [apply zlen_to_buf|]. simpl. by rewrite zlen_put_le.
Qed.

Lemma zlen_entry f e :
  zlen (entry_bytes f e) = 8 + zlen (e_path e) + zlen (meta_part f) + 4 + (if is_special f then 8 else 0) + 8
    + zlen (e_content e) + (if is_symlink f then 8 + zlen (e_target e) else 0).
Proof.
  unfold entry_bytes, path_part, type_part, content_part, target_part.
  destruct (is_special f), (is_symlink f); rewrite ?zlen_app, ?zlen_put_le; change (zlen (@nil byte)) with 0; lia.
Qed.

Lemma per_file_size_ok f e :
  travels f e -> zlen (entry_bytes f e) < 2 ^ 64 ->
  per_file_serialize_size (W := WS) f um = Ret (zlen (entry_bytes f e)).
Proof.
  intros [_ (s&Hs&_&Ee) _ _ _ (x&Hx&Hwf&Hrd) _ _ _ _ Ht] Hl. rewrite zlen_entry, zlen_meta_part in *.
  pose proof (rd_zlen _ _ _ _ Hrd) as Hsz. pose proof (zlen_nonneg (e_path e)). pose proof (zlen_nonneg (e_content e)).
  pose proof (zlen_nonneg (e_target e)). unfold per_file_serialize_size. rewrite Hs, Ee. cbn [or_zero].
  unfold FILE_METADATA_WIRE_SIZE in *.
  set (ms := if um then _ else 0) in *.
  assert (0 <= ms) by (subst ms; destruct um, (f_metadata f); lia).
  destruct (is_special f), (is_symlink f) eqn:Esym; rewrite !add_size_ok by lia; rewrite Hx; cbn [deref mbind outcome_bind];
    rewrite ?add_size_ok by lia; try (destruct (Ht eq_refl) as [-> _]; cbn [or_zero]; rewrite !add_size_ok by lia);
    f_equal; lia.
Qed.

Lemma emit_item_ok f e w :
  travels f e -> zlen (w_out w) + zlen (entry_bytes f e) <= w_cap w ->
  emit_item (W := WS) um (Some f) w = Ret (WBuf (w_cap w) (w_out w ++ entry_bytes f e)).
Proof.
  intros [_ (s&Hs&_&Ee) _ _ _ (x&Hx&Hwf&Hrd) _ _ _ _ Ht] Hl. rewrite zlen_entry in Hl.
  pose proof (rd_zlen _ _ _ _ Hrd) as Hsz. pose proof (zlen_nonneg (e_path e)). pose proof (zlen_nonneg (e_content e)).
  pose proof (zlen_nonneg (e_target e)). pose proof (zlen_nonneg (meta_part f)). pose proof (zlen_nonneg (w_out w)).
  unfold emit_item. cbn [deref mbind outcome_bind]. rewrite Hs, Ee, Hx. cbn [deref mbind outcome_bind].
  assert (Hbs : (if size x >? 0 then rd (data_buf x) 0 (size x) else Ret []) = Ret (e_content e)).
  { destruct (Z.gtb_spec (size x) 0); [done|]. destruct (e_content e) as [|b l]; [done|]. unfold zlen in Hsz. simpl in Hsz. lia. }
  rewrite Hbs. assert (Hm : forall w, (if um then emit (metadata_to_buf (f_metadata f)) w else Ret w) =
    if um then emit (meta_part f) w else Ret w) by (intros; unfold meta_part; by destruct um).
  assert (Hm0 : um = false -> meta_part f = []) by (unfold meta_part; by intros ->).
  unfold entry_bytes, path_part, type_part, content_part, target_part. rewrite Hsz.
  destruct (is_special f), (is_symlink f) eqn:Esym, um eqn:Eum; rewrite ?(Hm0 eq_refl) in *;
    try (destruct (Ht eq_refl) as [-> _]);
    repeat (first [rewrite emit_ret by (cbn [w_out w_cap]; rewrite ?zlen_app, ?zlen_put_le; lia) | rewrite Hm]; cbn [mbind outcome_bind w_cap w_out]);
    f_equal; f_equal; rewrite <- ?app_assoc, ?app_nil_r; done.
Qed.

Lemma at_end_front (s : list byte) : s <> [] -> at_end s 0 = false.
Proof. by destruct s. Qed.

Lemma measure_items_ok fs es n :
  Forall2 travels fs es -> 0 <= n -> n + zlen (chunk_bytes fs es) < 2 ^ 64 ->
  foldM (measure_item (W := WS) um) (Some <$> fs) n = Ret (n + zlen (chunk_bytes fs es)).
Proof.
  intros Hfs. revert n. induction Hfs as [|f e fs es Hf Hfs IH]; intros n Hn Hl; [simpl; f_equal; unfold zlen; simpl; lia|].
  rewrite fmap_cons. cbn [foldM chunk_bytes] in *. rewrite zlen_app in *. pose proof (zlen_nonneg (chunk_bytes fs es)).
  assert (He : 0 < zlen (entry_bytes f e)).
  { rewrite zlen_entry. pose proof (zlen_nonneg (e_path e)). pose proof (zlen_nonneg (e_content e)).
    pose proof (zlen_nonneg (e_target e)). pose proof (zlen_nonneg (meta_part f)). destruct (is_special f), (is_symlink f); lia. }
  pose proof (per_file_size_ok f e Hf ltac:(lia)) as Hsize.
  destruct Hf as [(p&Hp&Hp0&Htr) (s&Hs&Hs0&_) _ _ _ (x&Hx&[_ Hwf]&_) _ _ _ _ _].
  unfold measure_item at 2. cbn [of_option mbind outcome_bind]. rewrite Hp, Hx, Hs, Hsize. cbn [of_option deref mbind outcome_bind].
  rewrite !at_end_front, Htr by done.
  assert (Hd0 : (size x >? 0) && bool_decide (data x = None) = false).
  { destruct (data x); [by rewrite andb_comm|]. by rewrite Hwf. }
  rewrite Hd0. cbn [negb check mbind outcome_bind]. unfold UINT64_MAX, SIZE_MAX.
  destruct (Z.eqb_spec (zlen (entry_bytes f e)) 0), (Z.gtb_spec (zlen (entry_bytes f e)) (2 ^ 64 - 1 - n)),
    (Z.gtb_spec (n + zlen (entry_bytes f e)) (2 ^ 64 - 1)); try lia. cbn [orb negb check mbind outcome_bind].
  rewrite IH by lia. f_equal. lia.
Qed.

Lemma emit_items_ok fs es w :
  Forall2 travels fs es -> zlen (w_out w) + zlen (chunk_bytes fs es) <= w_cap w ->
  foldM (emit_item (W := WS) um) (Some <$> fs) w = Ret (WBuf (w_cap w) (w_out w ++ chunk_bytes fs es)).
Proof.
  intros Hfs. revert w. induction Hfs as [|f e fs es Hf Hfs IH]; intros w Hl.
  { simpl. rewrite app_nil_r. by destruct w. }
  rewrite fmap_cons. cbn [foldM chunk_bytes] in *. rewrite zlen_app in *. pose proof (zlen_nonneg (chunk_bytes fs es)).
  rewrite (emit_item_ok f e w) by (done || lia). cbn [mbind outcome_bind]. rewrite IH; cbn [w_out w_cap].
  - by rewrite app_assoc.
  - rewrite zlen_app. lia.
Qed.

Definition the_chunk (fs : list File) : Chunk := MkChunk (Some (Some <$> fs)) (zlen fs).

Lemma chunk_serialize_ok fs es :
  Forall2 travels fs es -> zlen (chunk_bytes fs es) <= 2 ^ 33 -> heap_serves (2 ^ 34) ->
  exists d, chunk_serialize (W := WS) (Some (the_chunk fs)) um = Ret d /\ size d = zlen (chunk_bytes fs es) /\
    rd (data_buf d) 0 (size d) = Ret (chunk_bytes fs es).
Proof.
  intros Hfs Hl Hheap. pose proof (zlen_nonneg fs). pose proof (zlen_nonneg (chunk_bytes fs es)) as Hb0.
  unfold chunk_serialize. cbn [of_option mbind outcome_bind the_chunk element_count items default from_option id].
  destruct (Z.ltb_spec (zlen fs) 0); [lia|]. rewrite bool_decide_eq_false_2, andb_false_r by done. cbn [orb negb check mbind outcome_bind].
  rewrite !for_each_foldM by (rewrite length_fmap; unfold zlen; lia).
  rewrite (measure_items_ok fs es) by (done || lia). cbn [mbind outcome_bind]. rewrite Z.add_0_l.
  set (B := chunk_bytes fs es) in *. unfold data_create_empty.
  set (a := if zlen B >? 0 then zlen B else 1).
  assert (Ha : a = Z.max 1 (zlen B)) by (subst a; destruct (Z.gtb_spec (zlen B) 0); lia).
  rewrite (heap_serves_alloc _ _ Hheap) by lia. cbn [check mbind outcome_bind].
  unfold data_create, sizeof_Data. rewrite (heap_serves_alloc _ _ Hheap) by lia. cbn [check mbind outcome_bind].
  rewrite for_each_foldM by (rewrite length_fmap; unfold zlen; lia).
  rewrite (emit_items_ok fs es) by (done || (unfold data_buf; cbn [w_out w_cap data default from_option id]; rewrite zlen_junk_bytes by lia; change (zlen (@nil byte)) with 0; fold B; lia)).
  cbn [mbind outcome_bind]. eexists. split; [reflexivity|]. split; [done|]. unfold data_buf. cbn [size data default from_option id w_out app]. fold B.
  rewrite rd_ret by (rewrite ?zlen_app; pose proof (zlen_nonneg (drop (length B) (junk_bytes a))); lia).
  simpl. rewrite drop_0. unfold zlen. by rewrite Nat2Z.id, take_app_length.
Qed.

(** *** Parsing: each part of an entry, wherever it stands *)

Lemma parse_path_ok f e pre post r :
  travels f e -> zlen (e_path e) <= 2 ^ 33 -> 0 <= r -> heap_serves (2 ^ 34) ->
  parse_path (W := WR) (pre ++ path_part e ++ post) (zlen pre) (zlen (path_part e) + r)
  = Ret (e_local e, zlen (pre ++ path_part e), r).
Proof.
  intros [_ _ Hnul Hloc [Hl0 Htr] _ _ _ _ _ _] Hl Hr Hheap. pose proof (zlen_nonneg (e_path e)).
  unfold parse_path, path_part. rewrite !zlen_app, zlen_put_le, <- !app_assoc. change (Z.of_nat 8) with 8.
  destruct (Z.ltb_spec (8 + zlen (e_path e) + r) 8); [lia|]. cbn [negb check mbind outcome_bind].
  rewrite get_put_8 by (done || lia). cbn [mbind outcome_bind]. unfold SIZE_MAX.
  destruct (Z.gtb_spec (zlen (e_path e)) (2 ^ 64 - 1 - 1)), (Z.ltb_spec (8 + zlen (e_path e) + r - 8) (zlen (e_path e))); try lia.
  cbn [orb negb check mbind outcome_bind]. rewrite (heap_serves_alloc _ _ Hheap) by lia. cbn [check mbind outcome_bind].
  rewrite (app_assoc pre), (rd_segment (pre ++ _)) by (rewrite ?zlen_app, ?zlen_put_le; done || lia).
  cbn [mbind outcome_bind]. rewrite bool_decide_eq_false_2 by done. cbn [negb check mbind outcome_bind].
  unfold wire_bytes in Hloc. rewrite Hloc. cbn [mbind outcome_bind]. rewrite Htr.
  destruct (Z.eqb_spec (zlen (e_local e)) 0) as [E|]; [destruct (e_local e); [done|unfold zlen in E; simpl in E; lia]|].
  cbn [orb negb check mbind outcome_bind]. do 2 f_equal; [f_equal; lia|lia].
Qed.

Lemma parse_type_ok f e f0 pre post r :
  travels f e -> 0 <= r ->
  parse_type (pre ++ type_part f ++ post) f0 (zlen pre) (zlen (type_part f) + r)
  = Ret (set_rdev (set_type f0 (is_dir f) (is_symlink f) (is_special f))
           (if is_special f then rdev_major f else rdev_major f0) (if is_special f then rdev_minor f else rdev_minor f0),
         zlen (pre ++ type_part f), r).
Proof.
  intros Hf Hr. pose proof (t_kind _ _ Hf) as Hk. pose proof (t_rdev _ _ Hf) as Hrd. unfold parse_type, type_part.
  assert (Ht : 0 <= entry_type f <= 3 /\ (entry_type f =? 1) = is_dir f /\ (entry_type f =? 2) = is_symlink f /\
    (entry_type f =? 3) = is_special f)
    by (unfold entry_type; destruct (is_dir f), (is_symlink f), (is_special f); simpl in *; (lia || (split_and!; lia || done))).
  destruct Ht as (Ht&H1&H2&H3). rewrite !zlen_app, zlen_put_le, <- !app_assoc. change (Z.of_nat 4) with 4.
  pose proof (zlen_nonneg (if is_special f then put_le 4 (rdev_major f) ++ put_le 4 (rdev_minor f) else [])).
  destruct (Z.ltb_spec (4 + zlen (if is_special f then put_le 4 (rdev_major f) ++ put_le 4 (rdev_minor f) else []) + r) 4); [lia|].
  cbn [negb check mbind outcome_bind]. rewrite (get_put_4 (entry_type f) pre _ (zlen pre)) by (done || lia).
  cbn [mbind outcome_bind]. rewrite i32_small by lia. rewrite H1, H2, H3.
  assert (Hok : negb (entry_type f =? 0) && negb (is_dir f) && negb (is_symlink f) && negb (is_special f) = false).
  { rewrite <- H1, <- H2, <- H3. destruct (Z.eqb_spec (entry_type f) 0), (Z.eqb_spec (entry_type f) 1),
      (Z.eqb_spec (entry_type f) 2), (Z.eqb_spec (entry_type f) 3); try done. lia. }
  rewrite Hok. cbn [negb check mbind outcome_bind is_special set_type]. destruct (is_special f).
  - destruct (Hrd eq_refl) as [Hma Hmi]. rewrite zlen_app, !zlen_put_le. change (Z.of_nat 4) with 4.
    destruct (Z.ltb_spec (4 + (4 + 4) + r - 4) (2 * 4)); [lia|]. cbn [negb check mbind outcome_bind].
    rewrite <- app_assoc. rewrite (app_assoc pre), (get_put_4 (rdev_major f) (pre ++ _) _ (zlen pre + 4)) by (rewrite ?zlen_app, ?zlen_put_le; done || lia).
    cbn [mbind outcome_bind]. rewrite (app_assoc (pre ++ _)), (get_put_4 (rdev_minor f) ((pre ++ _) ++ _) _ (zlen pre + 4 + 4)) by (rewrite ?zlen_app, ?zlen_put_le; done || lia).
    cbn [mbind outcome_bind]. rewrite !i32_small by lia.
    destruct (Z.ltb_spec (rdev_major f) 0), (Z.ltb_spec (rdev_minor f) 0), (Z.gtb_spec (rdev_major f) 0xffff),
      (Z.gtb_spec (rdev_minor f) 0x00ffffff); try lia. cbn [orb negb check mbind outcome_bind].
    do 2 f_equal; [f_equal; lia|lia].
  - change (zlen (@nil byte)) with 0. replace (zlen pre + (4 + 0)) with (zlen pre + 4) by lia.
    by replace (4 + 0 + r - 4) with r by lia.
Qed.

Lemma parse_metadata_ok f e f0 pre post r :
  travels f e -> 0 <= r -> heap_serves (2 ^ 34) ->
  parse_metadata (pre ++ meta_part f ++ post) um f0 (zlen pre) (zlen (meta_part f) + r)
  = Ret (if um then set_metadata f0 (f_metadata f) else f0, zlen (pre ++ meta_part f), r).
Proof.
  intros Hf Hr Hheap. pose proof (t_meta _ _ Hf) as Hm. rewrite zlen_app, zlen_meta_part. unfold parse_metadata, meta_part.
  destruct um; [specialize (Hm eq_refl)|by rewrite Z.add_0_r]. unfold FILE_METADATA_WIRE_SIZE in *.
  rewrite (Z2Nat_zlen pre), drop_app_length. destruct (f_metadata f) as [m|].
  - destruct Hm as [Hty Hva]. destruct (Z.ltb_spec (4 + (4 * 5 + 8 * 6) + r) 4); [lia|]. cbn [negb check mbind outcome_bind].
    assert (Hg : get_le 4 (pre ++ metadata_to_buf (Some m) ++ post) (zlen pre) = Ret 1)
      by (cbn [metadata_to_buf]; rewrite <- app_assoc; apply get_put_4; lia).
    rewrite Hg. cbn [mbind outcome_bind]. change (i32 1) with 1. cbn [Z.eqb Pos.eqb negb andb orb].
    destruct (Z.ltb_spec (4 + (4 * 5 + 8 * 6) + r) (4 + (4 * 5 + 8 * 6))); [lia|]. cbn [negb check mbind outcome_bind].
    rewrite metadata_decodes by (done || unfold FILE_METADATA_WIRE_SIZE; lia || (apply (heap_serves_alloc _ _ Hheap); unfold sizeof_FileMetadata; lia)).
    rewrite Hva. cbn [mbind outcome_bind]. rewrite bool_decide_eq_false_2 by done. cbn [negb check mbind outcome_bind].
    do 2 f_equal; lia.
  - cbn [metadata_to_buf]. destruct (Z.ltb_spec (4 + 0 + r) 4); [lia|]. cbn [negb check mbind outcome_bind].
    rewrite get_put_4 by (done || lia). cbn [mbind outcome_bind]. change (i32 0) with 0. cbn [Z.eqb negb andb orb check mbind outcome_bind].
    assert (Hfail : metadata_from_buf (Some (put_le 4 0 ++ post)) (4 + 0 + r) = Fail).
    { unfold metadata_from_buf. cbn [of_option mbind outcome_bind]. destruct (Z.ltb_spec (4 + 0 + r) 4); [lia|].
      cbn [negb check mbind outcome_bind]. by rewrite get_put_4_front by lia. }
    rewrite Hfail. cbn [mbind outcome_bind]. do 2 f_equal; lia.
Qed.

Lemma parse_content_ok f e pre post r :
  travels f e -> 0 <= r -> heap_serves (2 ^ 34) ->
  parse_content (pre ++ content_part e ++ post) (zlen pre) (zlen (content_part e) + r)
  = Ret (received_data None e, Z.max 1 (zlen (e_content e)), zlen (pre ++ content_part e), r).
Proof.
  intros Hf Hr Hheap. pose proof (t_max _ _ Hf) as Hmax. unfold MAX_CHUNK_FILE_DATA_SIZE in Hmax.
  pose proof (zlen_nonneg (e_content e)). set (n := zlen (e_content e)) in *.
  unfold parse_content, content_part. fold n. rewrite !zlen_app, zlen_put_le, <- !app_assoc. change (Z.of_nat 8) with 8. fold n.
  destruct (Z.ltb_spec (8 + n + r) 8); [lia|]. cbn [negb check mbind outcome_bind].
  rewrite get_put_8 by (done || lia). cbn [mbind outcome_bind].
  destruct (Z.ltb_spec (8 + n + r - 8) n); [lia|]. unfold MAX_CHUNK_FILE_DATA_SIZE.
  destruct (Z.gtb_spec n (64 * 1024 * 1024)); [lia|]. cbn [negb check mbind outcome_bind].
  assert (Ha : (if n >? 0 then n else 1) = Z.max 1 n) by (destruct (Z.gtb_spec n 0); lia). rewrite Ha.
  rewrite (heap_serves_alloc _ _ Hheap) by lia. cbn [check mbind outcome_bind].
  rewrite (app_assoc pre), (rd_segment (pre ++ _)) by (rewrite ?zlen_app, ?zlen_put_le; done || lia). cbn [mbind outcome_bind].
  unfold data_create, sizeof_Data. rewrite (heap_serves_alloc _ _ Hheap) by lia. cbn [check mbind outcome_bind].
  replace (zlen pre + (8 + n)) with (zlen pre + 8 + n) by lia. by replace (8 + n + r - 8 - n) with r by lia.
Qed.

Lemma parse_target_ok f e f0 pre post r :
  travels f e -> is_symlink f0 = is_symlink f -> zlen (e_target e) <= 2 ^ 33 -> 0 <= r -> heap_serves (2 ^ 34) ->
  parse_target (W := WR) (pre ++ target_part f e ++ post) f0 (zlen pre) (zlen (target_part f e) + r)
  = Ret (if is_symlink f then set_target f0 (e_local_target e) else f0, zlen (pre ++ target_part f e), r).
Proof.
  intros Hf Es Hl Hr Hheap. pose proof (t_target _ _ Hf) as Ht. unfold parse_target, target_part. rewrite Es.
  destruct (is_symlink f); [|by rewrite app_nil_r]. destruct (Ht eq_refl) as (_&Ht0&Hnul&Hloc).
  pose proof (zlen_nonneg (e_target e)). set (n := zlen (e_target e)) in *.
  rewrite !zlen_app, zlen_put_le, <- !app_assoc. change (Z.of_nat 8) with 8. fold n.
  destruct (Z.ltb_spec (8 + n + r) 8); [lia|]. cbn [negb check mbind outcome_bind].
  rewrite get_put_8 by (done || lia). cbn [mbind outcome_bind].
  destruct (Z.eqb_spec n 0) as [E|]; [subst n; destruct (e_target e); [done|unfold zlen in E; simpl in E; lia]|].
  destruct (Z.ltb_spec (8 + n + r - 8) n); [lia|]. cbn [orb negb check mbind outcome_bind].
  rewrite u64_small by lia. rewrite (heap_serves_alloc _ _ Hheap) by lia. cbn [check mbind outcome_bind].
  rewrite (app_assoc pre), (rd_segment (pre ++ _)) by (rewrite ?zlen_app, ?zlen_put_le; done || lia). cbn [mbind outcome_bind].
  rewrite bool_decide_eq_false_2 by done. cbn [negb check mbind outcome_bind].
  unfold wire_bytes in Hloc. rewrite Hloc. cbn [mbind outcome_bind].
  replace (zlen pre + (8 + n)) with (zlen pre + 8 + n) by lia. by replace (8 + n + r - 8 - n) with r by lia.
Qed.

(** *** The loop *)

Lemma charge_ok o d0 n w :
  protocol_charge d0 = 0 -> owner d0 = None -> 0 < n -> owner_ok o w ->
  match o with Some sid => counter w sid + n <= MAX_CONNECTION_MEMORY | None => True end ->
  iowp (data_charge_session (Some d0) o n) (fun w' r =>
    r = Some (Some (MkData (data d0) (size d0) (if o then n else 0) o)) /\
    charged_to o (if o then n else 0) w w') w.
Proof.
  intros Hc Ho Hn Hok Hroom. unfold iowp, data_charge_session. destruct o as [sid|]; simpl.
  2: { destruct d0; simpl in *; subst. split; [done|]. apply charged_refl. }
  destruct (Z.eqb_spec n 0); [lia|]. unfold io_bind, chunk_session_reserve, io_check, io_ret.
  destruct Hok as [Hlen Hcnt]. pose proof (reserve_next_spec (counter w sid) n Hcnt ltac:(lia)) as Hr.
  destruct (reserve_next _ _) as [a|]; [|lia]. destruct Hr as [-> Hmax]. split; [done|]. by apply set_counter_charged.
Qed.

(** There is room for [n] more bytes in the budget. *)
Definition room (o : option nat) (n : Z) (w : world) : Prop :=
  match o with Some sid => counter w sid + n <= MAX_CONNECTION_MEMORY | None => True end.

Lemma file_create_ok p :
  zlen p <= 2 ^ 33 -> heap_serves (2 ^ 34) ->
  file_create (Some p) = Ret (MkFile (Some p) None (Some (MkData None 0 0 None)) None false false None false 0 0).
Proof.
  intros Hp Hs. pose proof (zlen_nonneg p). unfold file_create, data_create_reserve, sizeof_File, sizeof_Data.
  cbn [of_option mbind outcome_bind]. by rewrite !(heap_serves_alloc _ _ Hs) by lia.
Qed.

(** The parts of an entry, each where the one before it ends. *)
Lemma parse_parts_ok d f e pre post r f0 :
  data_buf d = pre ++ entry_bytes f e ++ post -> travels f e -> 0 <= r -> heap_serves (2 ^ 34) ->
  zlen (e_path e) <= 2 ^ 33 -> (is_symlink f = true -> zlen (e_target e) <= 2 ^ 33) -> is_symlink f0 = is_symlink f ->
  exists p1 r1 p4 r4,
    parse_path (W := WR) (data_buf d) (zlen pre) (zlen (entry_bytes f e) + r) = Ret (e_local e, p1, r1) /\
    (forall g, ('(f, pos, remaining) ← parse_type (data_buf d) g p1 r1;
                '(f, pos, remaining) ← parse_metadata (data_buf d) um f pos remaining;
                '(replacement, allocation_size, pos, remaining) ← parse_content (data_buf d) pos remaining;
                Ret (f, replacement, allocation_size, pos, remaining)) =
      let g := set_rdev (set_type g (is_dir f) (is_symlink f) (is_special f))
                 (if is_special f then rdev_major f else rdev_major g) (if is_special f then rdev_minor f else rdev_minor g) in
      Ret (if um then set_metadata g (f_metadata f) else g, received_data None e, Z.max 1 (zlen (e_content e)), p4, r4)) /\
    parse_target (W := WR) (data_buf d) f0 p4 r4 =
      Ret (if is_symlink f then set_target f0 (e_local_target e) else f0, zlen (pre ++ entry_bytes f e), r).
Proof.
  intros Eb Hf Hr Hheap Hlp Hlt Hs.
  pose proof (zlen_nonneg (type_part f)). pose proof (zlen_nonneg (meta_part f)). pose proof (zlen_nonneg (content_part e)).
  pose proof (zlen_nonneg (target_part f e)).
  set (q1 := pre ++ path_part e). set (q2 := q1 ++ type_part f). set (q3 := q2 ++ meta_part f). set (q4 := q3 ++ content_part e).
  exists (zlen q1), (zlen (type_part f) + (zlen (meta_part f) + (zlen (content_part e) + (zlen (target_part f e) + r)))).
  exists (zlen q4), (zlen (target_part f e) + r).
  assert (B1 : data_buf d = pre ++ path_part e ++ type_part f ++ meta_part f ++ content_part e ++ target_part f e ++ post)
    by (rewrite Eb; unfold entry_bytes; by rewrite <- !app_assoc).
  assert (B2 : data_buf d = q1 ++ type_part f ++ meta_part f ++ content_part e ++ target_part f e ++ post)
    by (rewrite B1; unfold q1; by rewrite <- !app_assoc).
  assert (B3 : data_buf d = q2 ++ meta_part f ++ content_part e ++ target_part f e ++ post)
    by (rewrite B2; unfold q2; by rewrite <- !app_assoc).
  assert (B4 : data_buf d = q3 ++ content_part e ++ target_part f e ++ post)
    by (rewrite B3; unfold q3; by rewrite <- !app_assoc).
  assert (B5 : data_buf d = q4 ++ target_part f e ++ post) by (rewrite B4; unfold q4; by rewrite <- !app_assoc).
  split_and!.
  - rewrite B1. unfold entry_bytes. rewrite !zlen_app, <- !Z.add_assoc. apply (parse_path_ok f); lia || done.
  - intros g. rewrite B2 at 1. rewrite (parse_type_ok f e) by (done || lia). cbn [mbind outcome_bind]. fold q2.
    rewrite B3 at 1. rewrite (parse_metadata_ok f e) by (done || lia). cbn [mbind outcome_bind]. fold q3.
    rewrite B4 at 1. rewrite (parse_content_ok f e) by (done || lia). done.
  - rewrite B5. destruct (is_symlink f) eqn:Esym.
    + rewrite (parse_target_ok f e) by (rewrite ?Esym; auto || lia). rewrite Esym. do 2 f_equal.
      unfold q4, q3, q2, q1, entry_bytes. by rewrite <- !app_assoc.
    + unfold parse_target, target_part. rewrite Hs, Esym. do 3 f_equal.
      unfold q4, q3, q2, q1, entry_bytes, target_part. rewrite Esym, app_nil_r. by rewrite <- !app_assoc.
Qed.

Lemma chunk_entry_ok d f e pre post r files l w :
  data_buf d = pre ++ entry_bytes f e ++ post -> travels f e -> zlen (entry_bytes f e) <= 2 ^ 32 ->
  zlen (e_local e) <= 2 ^ 33 -> 0 <= r -> heap_serves (2 ^ 34) ->
  al_repr files l -> al_capacity files <= 2 ^ 20 -> zlen l < MAX_FILES_PER_CHUNK ->
  owner_ok (owner d) w -> room (owner d) (Z.max 1 (zlen (e_content e))) w ->
  iowp (chunk_entry (W := WR) d um (zlen pre) (zlen (entry_bytes f e) + r) files) (fun w' res =>
    exists files', res = Some (zlen (pre ++ entry_bytes f e), r, files') /\
      al_repr files' (l ++ [received_file (owner d) f e]) /\ al_capacity files' <= 2 ^ 20 /\
      charged_to (owner d) (protocol_charge (received_data (owner d) e)) w w') w.
Proof.
  intros Eb Hf Hl Hloc Hr Hheap Hal Hcap Hn Hok Hroom. unfold MAX_FILES_PER_CHUNK in Hn. pose proof (zlen_nonneg l).
  pose proof (ar_size _ _ Hal) as [Hsz _]. pose proof (zlen_nonneg (e_path e)). pose proof (zlen_nonneg (e_target e)).
  pose proof (zlen_nonneg (e_content e)). pose proof (zlen_nonneg (meta_part f)).
  assert (Hlp : zlen (e_path e) <= 2 ^ 33 /\ (is_symlink f = true -> zlen (e_target e) <= 2 ^ 33))
    by (rewrite zlen_entry in Hl; destruct (is_symlink f), (is_special f); split; lia || done).
  destruct Hlp as [Hlp Hlt].
  set (g0 := MkFile (Some (e_local e)) None (Some (MkData None 0 0 None)) None false false None false 0 0).
  set (g1 := set_rdev (set_type g0 (is_dir f) (is_symlink f) (is_special f))
    (if is_special f then rdev_major f else 0) (if is_special f then rdev_minor f else 0)).
  set (g2 := if um then set_metadata g1 (f_metadata f) else g1).
  set (g3 := set_data g2 (received_data (owner d) e)).
  destruct (parse_parts_ok d f e pre post r g3) as (p1&r1&p4&r4&E1&E2&E3); try done; [subst g3 g2 g1; by destruct um|].
  unfold chunk_entry. io_step. apply iowp_check; rewrite Hsz, u32_small, Z.geb_leb by lia;
    [intros _|unfold MAX_FILES_PER_CHUNK; destruct (Z.leb_spec 65536 (zlen l)); [lia|done]].
  io_step. eapply iowp_of_ret; [exact E1|]. io_step. eapply iowp_of_ret; [by apply file_create_ok|]. fold g0.
  io_step. apply iowp_on_fail. io_step. apply (iowp_of_ret _ (g2, received_data None e, Z.max 1 (zlen (e_content e)), p4, r4)); [exact (E2 g0)|].
  io_step. apply iowp_on_fail. eapply iowp_mono; [by apply charge_ok; try lia|]. intros w1 r' [-> Hc].
  apply iowp_ret. io_step. assert (f_data g2 = Some (MkData None 0 0 None)) as -> by (subst g2 g1; by destruct um).
  apply iowp_ret. cbn [default from_option id]. apply iowp_on_fail. io_step.
  eapply iowp_of_ret; [exact E3|]. io_step.
  destruct (array_list_add_repr files l (received_file (owner d) f e)) as (files'&Ea&Hal'&Hcap'); [done|lia|lia|done|].
  assert (Hfile : (if is_symlink f then set_target g3 (e_local_target e) else g3) = received_file (owner d) f e).
  { subst g3 g2 g1 g0. unfold received_file. destruct um, (is_symlink f); done. }
  rewrite Hfile. eapply iowp_of_ret; [exact Ea|]. apply iowp_ret. exists files'. split_and!; try done; lia.
Qed.

(** The budget the copies of a chunk take. *)
Fixpoint contents_charge (es : list wire_entry) : Z :=
  match es with [] => 0 | e :: es => Z.max 1 (zlen (e_content e)) + contents_charge es end.

Lemma contents_charge_nonneg es : 0 <= contents_charge es.
Proof. induction es; simpl; lia. Qed.

Lemma chunk_entries_ok d fs es fuel pre post files l w :
  Forall2 travels fs es -> data_buf d = pre ++ chunk_bytes fs es ++ post -> zlen (chunk_bytes fs es) <= 2 ^ 32 ->
  zlen (chunk_bytes fs es) <= Z.of_nat fuel -> Forall (fun e => zlen (e_local e) <= 2 ^ 33) es -> heap_serves (2 ^ 34) ->
  al_repr files l -> al_capacity files <= 2 ^ 20 -> zlen l + zlen fs <= MAX_FILES_PER_CHUNK ->
  owner_ok (owner d) w -> room (owner d) (contents_charge es) w ->
  iowp (chunk_entries (W := WR) fuel d um (zlen pre) (zlen (chunk_bytes fs es)) files) (fun w' res =>
    exists files', res = Some files' /\ al_repr files' (l ++ zip_with (received_file (owner d)) fs es)) w.
Proof.
  intros Hfs. revert fuel pre files l w.
  induction Hfs as [|f e fs es Hf Hfs IH]; intros fuel pre files l w Eb Hl Hfuel Hloc Hheap Hal Hcap Hn Hok Hroom.
  { destruct fuel; apply iowp_ret; exists files; by rewrite app_nil_r. }
  cbn [chunk_bytes zip_with contents_charge] in *. rewrite zlen_app in *. apply Forall_cons in Hloc as [Hloc Hlocs].
  pose proof (zlen_nonneg (chunk_bytes fs es)). pose proof (contents_charge_nonneg es).
  assert (zlen (f :: fs) = zlen fs + 1) as Hlen by (unfold zlen; simpl; lia). pose proof (zlen_nonneg fs).
  assert (He : 8 <= zlen (entry_bytes f e)).
  { rewrite zlen_entry. pose proof (zlen_nonneg (e_path e)). pose proof (zlen_nonneg (e_content e)).
    pose proof (zlen_nonneg (e_target e)). pose proof (zlen_nonneg (meta_part f)). destruct (is_special f), (is_symlink f); lia. }
  destruct fuel as [|fuel]; [lia|]. cbn [chunk_entries].
  destruct (Z.leb_spec (zlen (entry_bytes f e) + zlen (chunk_bytes fs es)) 0); [lia|].
  io_step. apply iowp_on_fail. rewrite <- app_assoc in Eb.
  eapply iowp_mono; [apply (chunk_entry_ok d f e pre (chunk_bytes fs es ++ post) (zlen (chunk_bytes fs es)) files l)|].
  all: try done; try lia.
  { destruct (owner d); simpl in *; [lia|done]. }
  intros w1 res (files'&->&Hal'&Hcap'&Hc). pose proof Hc as [_ _ Hlc Hcc].
  eapply iowp_mono; [apply (IH fuel (pre ++ entry_bytes f e) files' (l ++ [received_file (owner d) f e]) w1)|].
  all: try done; try lia.
  - by rewrite Eb, <- app_assoc.
  - rewrite zlen_app. change (zlen [_]) with 1. lia.
  - eapply owner_ok_charged; [exact Hok|exact Hc|]. destruct (owner d); simpl in *; [lia|done].
  - destruct (owner d) as [sid|]; simpl in *; [|done]. rewrite Hcc, bool_decide_eq_true_2 by done. lia.
  - intros w2 res (files2&->&Hal2). exists files2. split; [done|]. by rewrite <- app_assoc in Hal2.
Qed.

Lemma chunk_finish_ok files l w :
  al_repr files l -> zlen l <= MAX_FILES_PER_CHUNK -> heap_serves (2 ^ 34) ->
  iowp (on_fail (delete_files files) (
          file_array <~ io_of match array_list_to_array (Some files) with
                              | Ret a => Ret (Some a) | Fail => Ret None | Stuck => Stuck
                              end;
          io_check (negb ((al_size files >? 0) && bool_decide (file_array = None))) >~
          io_of (chunk_create file_array (al_size files))))
    (fun _ res => exists c, res = Some c /\ element_count c = zlen l /\ default [] (items c) = Some <$> l) w.
Proof.
  intros [Hcap Hi [Hs Hle] Hcells] Hz Hheap. unfold MAX_FILES_PER_CHUNK in Hz. pose proof (zlen_nonneg l).
  assert (Hrd : rd (al_items files) 0 (al_size files) = Ret (Some <$> l)).
  { rewrite rd_ret by lia. rewrite Hs, drop_0. unfold zlen. by rewrite Nat2Z.id, Hcells. }
  apply iowp_on_fail. io_step. unfold array_list_to_array. cbn [of_option mbind outcome_bind].
  rewrite Hs in *. rewrite (heap_serves_alloc _ _ Hheap) by lia. cbn [check mbind outcome_bind]. rewrite Hrd.
  eapply iowp_of_ret; [reflexivity|]. io_step. rewrite bool_decide_eq_false_2, andb_false_r by done. apply iowp_check; [intros _|done].
  unfold chunk_create, sizeof_Chunk. rewrite bool_decide_eq_false_2, andb_false_r by done.
  destruct (Z.ltb_spec (zlen l) 0); [lia|]. cbn [orb negb check mbind outcome_bind].
  rewrite (heap_serves_alloc _ 16 Hheap) by lia. cbn [check mbind outcome_bind].
  destruct (Z.eqb_spec (zlen l) 0) as [E|E].
  - eapply iowp_of_ret; [reflexivity|]. eexists. split; [done|]. destruct l; [done|unfold zlen in E; simpl in E; lia].
  - change (SIZE_MAX / 8) with (2 ^ 61 - 1). destruct (Z.gtb_spec (zlen l) (2 ^ 61 - 1)); [lia|].
    cbn [negb check mbind outcome_bind]. rewrite (heap_serves_alloc _ _ Hheap) by lia. cbn [check mbind outcome_bind default from_option id].
    rewrite rd_ret by (unfold zlen in *; rewrite ?length_fmap; lia). cbn [mbind outcome_bind].
    eapply iowp_of_ret; [reflexivity|]. eexists. split; [done|]. split; [done|]. simpl. rewrite drop_0, take_ge; [done|].
    rewrite length_fmap. unfold zlen. lia.
Qed.

Lemma chunk_deserialize_ok fs es d w :
  Forall2 travels fs es -> zlen fs <= MAX_FILES_PER_CHUNK -> zlen (chunk_bytes fs es) <= 2 ^ 32 ->
  Forall (fun e => zlen (e_local e) <= 2 ^ 33) es -> heap_serves (2 ^ 34) -> data_wf d ->
  size d = zlen (chunk_bytes fs es) -> rd (data_buf d) 0 (size d) = Ret (chunk_bytes fs es) ->
  owner_ok (owner d) w -> room (owner d) (contents_charge es) w ->
  iowp (chunk_deserialize (W := WR) (Some d) um) (fun _ res =>
    exists c, res = Some c /\ element_count c = zlen fs /\
      default [] (items c) = Some <$> zip_with (received_file (owner d)) fs es) w.
Proof.
  intros Hfs Hn Hl Hnames Hheap Hd Hsz Hrd Hok Hroom. pose proof (data_wf_buf d Hd) as [Hbuf _].
  pose proof (zlen_nonneg fs). assert (Hlen : zlen (zip_with (received_file (owner d)) fs es) = zlen fs).
  { unfold zlen. rewrite length_zip_with. apply Forall2_length in Hfs. lia. }
  unfold chunk_deserialize. io_step.
  assert (Hnull : bool_decide (data d = None) && negb (size d =? 0) = false).
  { destruct Hd as [_ Hd]. destruct (data d); [done|]. by rewrite Hd. }
  rewrite Hnull. apply iowp_check; [intros _|done]. io_step. unfold array_list_create, sizeof_ArrayList, INITIAL_ARRAY_SIZE.
  rewrite !(heap_serves_alloc _ _ Hheap) by lia. eapply iowp_of_ret; [reflexivity|]. io_step.
  apply rd_ret_inv in Hrd as (_&_&_&Hbytes). simpl in Hbytes. rewrite drop_0 in Hbytes.
  rewrite Hsz at 1 2.
  eapply iowp_mono; [apply (chunk_entries_ok d fs es (Z.to_nat (zlen (chunk_bytes fs es))) []
    (drop (Z.to_nat (size d)) (data_buf d)) _ [] w)|].
  all: try done; try (simpl; lia).
  - simpl. rewrite Hbytes at 1. by rewrite take_drop.
  - intros w1 res (files&->&Hal). simpl in Hal. rewrite <- Hlen. apply chunk_finish_ok; [done|by rewrite Hlen|done].
Qed.

(** A chunk arrives as it was sent.  For every list of up to 65536 files the
    two ends can name, of one kind each, with valid metadata and device numbers,
    and at most 64 MiB in all, [chunk_serialize] succeeds; and from any buffer
    that holds those bytes, on a session with room for the copies,
    [chunk_deserialize] rebuilds exactly those files, in order: their names in
    the receiver's charset, contents, metadata, kind, device numbers and
    targets. *)
Lemma chunk_roundtrip fs es
    (Hfs : Forall2 travels fs es) (Hn : zlen fs <= MAX_FILES_PER_CHUNK)
    (Hsize : zlen (chunk_bytes fs es) <= MAX_CHUNK_FILE_DATA_SIZE)
    (Hnames : Forall (fun e => zlen (e_local e) <= 2 ^ 33) es) (Hheap : heap_serves (2 ^ 34)) :
  exists d, chunk_serialize (W := WS) (Some (the_chunk fs)) um = Ret d /\
    forall d' w, data_wf d' -> size d' = size d -> rd (data_buf d') 0 (size d') = rd (data_buf d) 0 (size d) ->
      owner_ok (owner d') w -> room (owner d') (contents_charge es) w ->
      iowp (chunk_deserialize (W := WR) (Some d') um) (fun _ res =>
        exists c, res = Some c /\ element_count c = zlen fs /\
          default [] (items c) = Some <$> zip_with (received_file (owner d')) fs es) w.
Proof.
  unfold MAX_CHUNK_FILE_DATA_SIZE in Hsize.
  destruct (chunk_serialize_ok fs es Hfs) as (d&E&Hs&Hb); [lia|done|]. exists d. split; [done|].
  intros d' w Hd' Hs' Hb' Hok Hroom. apply chunk_deserialize_ok; try done; [lia|congruence|]. by rewrite Hb', Hb.
Qed.
End RoundTrip.

(** ** Witnesses *)

(** No conversion configured. *)
Definition plain_wire : @WireCharset heap0 :=
  charset_wire (HH := heap0) (ic_safe _ _ latin1_converts) (None : option (@cd latin1)).
Definition demo_data (s : list byte) : Data := MkData (Some s) (zlen s) 0 None.
Definition demo_file : File :=
  MkFile (Some (cs "/src/a/b")) (Some (cs "a/b")) (Some (demo_data (cs "hello"))) (Some demo_meta) false false None false 0 0.
Definition demo_link : File :=
  MkFile (Some (cs "l")) None (Some (MkData None 0 0 None)) None false true (Some (cs "a/b")) false 0 0.
Definition demo_node : File :=
  MkFile (Some (cs "dev/null")) None (Some (MkData None 0 0 None)) None false false None true 1 3.
Definition demo_entries : list wire_entry :=
  [MkEntry (cs "a/b") (cs "hello") [] (cs "a/b") []; MkEntry (cs "l") [] (cs "a/b") (cs "l") (cs "a/b");
   MkEntry (cs "dev/null") [] [] (cs "dev/null") []].

Example chunk_demo :
  (d ← chunk_serialize (HH := heap0) (W := plain_wire) (Some (the_chunk [demo_file; demo_link; demo_node])) true;
   let '(w, r) := chunk_deserialize (HH := heap0) (W := plain_wire) (Some (MkData (data d) (size d) 0 (Some 1%nat))) true demo_world in
   c ← r; Ret (counter w 1, (fun o => o ≫= f_path) <$> default [] (items c)))
  = Ret (7, [Some (cs "a/b"); Some (cs "l"); Some (cs "dev/null")]).
Proof. vm_compute. reflexivity. Qed.

Lemma demo_travels :
  Forall2 (travels (HH := heap0) plain_wire plain_wire true) [demo_file; demo_link; demo_node] demo_entries.
Proof.
  repeat apply Forall2_cons_2; [split..|done].
  all: match goal with
       | |- exists x, _ /\ _ /\ _ => eexists; split_and!; [reflexivity|vm_compute; try done; split; done|vm_compute; reflexivity]
       | |- Byte.x00 ∉ _ => apply (bool_decide_eq_true_1 (Byte.x00 ∉ _)); vm_compute; reflexivity
       | |- _ => try (vm_compute; intuition (try congruence); done)
       end.
  intros _. split_and!; [reflexivity|done| |reflexivity].
  apply (bool_decide_eq_true_1 (Byte.x00 ∉ _)). vm_compute. reflexivity.
Qed.

Lemma chunk_deserialize_safe_witness :
  let d := MkData (Some (put_le 8 3 ++ cs "../")) 11 11 (Some 1%nat) in
  iowp (chunk_deserialize (HH := heap0) (W := plain_wire) (Some d) false) (fun w' r =>
    chunk_post (HH := heap0) d demo_world w' r /\
    match r with
    | Some c => iowp (chunk_destroy (Some c)) (fun w'' r => is_Some r /\ charged_to (Some 1%nat) 0 demo_world w'') w'
    | None => True
    end) demo_world.
Proof.
  apply (chunk_deserialize_safe (HH := heap0) (W := plain_wire)
    (MkData (Some (put_le 8 3 ++ cs "../")) 11 11 (Some 1%nat)) false demo_world).
  - split; vm_compute; [split; congruence|congruence].
  - by vm_compute.
  - split; vm_compute; [lia|split; congruence].
Defined.
