(* ===== verification/Names.v ===== *)
(** Small syntax checks on names and ids that several components share:
    daemon_conf.c [daemon_module_name_valid], credentials.c
    [username_wellformed], checksum.c and compression.c algorithm ids and
    names and the choice of a default, utils.c [env_choice_first],
    compression.c's list of suffixes not worth compressing, delay_updates.c
    [delay_updates_staging_name_conflict]. *)

From S2P Require Import Prelude CStr FilterParse.

Definition in_range (lo hi : Z) (c : byte) : bool := (lo <=? bZ c) && (bZ c <=? hi).

(** daemon_conf.c [daemon_module_name_valid] *)
Definition DAEMON_MAX_MODULE_NAME : Z := 200.
Definition module_char (c : byte) : bool :=
  let alnum := in_range 97 122 c || in_range 65 90 c || in_range 48 57 c in
  alnum || bool_decide (c = "."%byte) || bool_decide (c = "_"%byte) || bool_decide (c = "-"%byte).
Definition daemon_module_name_valid (name : option (list byte)) : bool :=
  match name with
  | None | Some [] => false
  | Some name => (zlen name <=? DAEMON_MAX_MODULE_NAME) && forallb module_char name
  end.

(** credentials.c [username_wellformed], [credentials_username_valid] *)
Definition CREDENTIAL_MAX_USER_LEN : Z := 256.
Definition username_wellformed (user : option (list byte)) : bool :=
  match user with
  | None | Some [] => false
  | Some user => (zlen user <=? CREDENTIAL_MAX_USER_LEN)
                 && forallb (fun c => negb ((bZ c <=? 0x20) || (bZ c =? 0x7f))) user
  end.
Definition credentials_username_valid (user : option (list byte)) : bool := username_wellformed user.

(** [tolower] in the C locale, and [strcasecmp(a, b) == 0] *)
Definition tolower (c : byte) : Z := if in_range 65 90 c then bZ c + 32 else bZ c.
Fixpoint strcaseeq (a b : list byte) : bool :=
  match a, b with
  | [], [] => true
  | x :: a, y :: b => (tolower x =? tolower y) && strcaseeq a b
  | _, _ => false
  end.

(** checksum.h [ChecksumAlgo], checksum.c [checksum_algo_valid] *)
Definition CHECKSUM_ALGO_XXH128 : Z := 3.
Definition CHECKSUM_ALGO_NONE : Z := 6.
Definition CHECKSUM_ALGO_DEFAULT : Z := CHECKSUM_ALGO_XXH128.
Definition checksum_algo_valid (algo : Z) : bool :=
  (algo =? 0) || (algo =? 1) || (algo =? 2) || (algo =? 3) || (algo =? 4) || (algo =? 5) || (algo =? 6).

(** compression.h [CompressionAlgo]; compression.c [compression_algo_valid],
    [compression_algo_from_name], [compression_algo_name] *)
Definition COMPRESSION_ALGO_NONE : Z := 0.
Definition COMPRESSION_ALGO_ZSTD : Z := 1.
Definition COMPRESSION_ALGO_LZ4 : Z := 2.
Definition COMPRESSION_ALGO_ZLIB : Z := 3.
Definition COMPRESSION_ALGO_ZLIBX : Z := 4.
Definition compression_algo_valid (algo : Z) : bool :=
  (algo =? COMPRESSION_ALGO_NONE) || (algo =? COMPRESSION_ALGO_ZSTD) || (algo =? COMPRESSION_ALGO_LZ4)
  || (algo =? COMPRESSION_ALGO_ZLIB) || (algo =? COMPRESSION_ALGO_ZLIBX).
Definition compression_algo_from_name (name : option (list byte)) : Z :=
  match name with
  | None => -1
  | Some name =>
      if strcaseeq name (cs "zstd") then COMPRESSION_ALGO_ZSTD
      else if strcaseeq name (cs "lz4") then COMPRESSION_ALGO_LZ4
      else if strcaseeq name (cs "zlib") then COMPRESSION_ALGO_ZLIB
      else if strcaseeq name (cs "zlibx") then COMPRESSION_ALGO_ZLIBX
      else if strcaseeq name (cs "none") then COMPRESSION_ALGO_NONE
      else -1
  end.
Definition compression_algo_name (algo : Z) : list byte :=
  if algo =? COMPRESSION_ALGO_NONE then cs "none"
  else if algo =? COMPRESSION_ALGO_ZSTD then cs "zstd"
  else if algo =? COMPRESSION_ALGO_LZ4 then cs "lz4"
  else if algo =? COMPRESSION_ALGO_ZLIB then cs "zlib"
  else if algo =? COMPRESSION_ALGO_ZLIBX then cs "zlibx"
  else cs "<unknown>".

(** Names and ids of the codecs determine each other. *)
Lemma compression_name_id algo :
  compression_algo_valid algo = true -> compression_algo_from_name (Some (compression_algo_name algo)) = algo.
Proof.
  unfold compression_algo_valid. rewrite !orb_true_iff, !Z.eqb_eq. intros [[[[->| ->]| ->]| ->]| ->]; reflexivity.
Qed.

(** delay_updates.c [delay_updates_staging_name_conflict] *)
Definition DELAY_UPDATES_STAGING_DIR : list byte := cs ".fastsync-stage".
Fixpoint trim_slashes (dir : list byte) (length : nat) : nat :=
  match length with
  | O => O
  | S n => if char_is dir n "/"%byte then trim_slashes dir n else length
  end.
Definition delay_updates_staging_name_conflict (dir : option (list byte)) : bool :=
  match dir with
  | None | Some [] => false
  | Some dir =>
      let len := trim_slashes dir (length dir) in
      if (len =? length DELAY_UPDATES_STAGING_DIR)%nat
      then strncmp dir DELAY_UPDATES_STAGING_DIR len =? 0 else false
  end.

(** [isspace] in the C locale *)
Definition isspace (c : byte) : bool := in_range 9 13 c || bool_decide (c = " "%byte).

(** utils.c [env_choice_first]: the id chosen and [*specified].  [env] is the
    value of the variable; the fuel is its length, every round consuming a
    character. *)
Definition in_token (c : byte) : bool := negb (bool_decide (c = "&"%byte)) && negb (isspace c).
Fixpoint env_scan (fuel : nat) (resolve : option (list byte) -> Z) (p : list byte) (saw_nonblank : bool) : Z * bool :=
  match fuel, p with
  | S fuel, c :: q =>
      if bool_decide (c = "&"%byte) then (-1, saw_nonblank)
      else if isspace c then env_scan fuel resolve q saw_nonblank
      else
        let '(word, rest) := span in_token p in
        let id := resolve (Some (take 63 word)) in
        if id >=? 0 then (id, true) else env_scan fuel resolve rest true
  | _, _ => (-1, saw_nonblank)
  end.
Definition env_choice_first (env : option (list byte)) (resolve : option (list byte) -> Z) : Z * bool :=
  match env with None => (-1, false) | Some env => env_scan (length env) resolve env false end.

(** compression.c [compiled_preference_first], [compression_choice_resolve],
    [compression_negotiate_default]; [env] is RSYNC_COMPRESS_LIST. *)
Definition compression_preference : list Z :=
  [COMPRESSION_ALGO_ZSTD; COMPRESSION_ALGO_LZ4; COMPRESSION_ALGO_ZLIBX; COMPRESSION_ALGO_ZLIB; COMPRESSION_ALGO_NONE].
Definition compiled_preference_first : Z :=
  default COMPRESSION_ALGO_ZSTD (List.find compression_algo_valid compression_preference).
Definition compression_choice_resolve (env : option (list byte)) : Z :=
  let '(id, specified) := env_choice_first env compression_algo_from_name in
  if specified then id else compiled_preference_first.
Definition compression_negotiate_default (env : option (list byte)) : Z :=
  let resolved := compression_choice_resolve env in
  if resolved >=? 0 then resolved else compiled_preference_first.

Example env_choice_ex1 :
  env_choice_first (Some (cs " lzo  LZ4 zstd & none")) compression_algo_from_name = (COMPRESSION_ALGO_LZ4, true).
Proof. vm_compute. reflexivity. Qed.
Example env_choice_ex2 : env_choice_first (Some (cs "lzo &lz4")) compression_algo_from_name = (-1, true).
Proof. vm_compute. reflexivity. Qed.

Lemma from_name_valid name :
  compression_algo_from_name name = -1 \/ compression_algo_valid (compression_algo_from_name name) = true.
Proof.
  destruct name as [name|]; [|by left]. unfold compression_algo_from_name.
  repeat (destruct (strcaseeq _ _); [by right|]). by left.
Qed.

Lemma env_scan_valid fuel p saw :
  let '(id, _) := env_scan fuel compression_algo_from_name p saw in id = -1 \/ compression_algo_valid id = true.
Proof.
  revert p saw. induction fuel as [|fuel IH]; intros [|c p] saw; cbn [env_scan]; [by left..|].
  destruct (bool_decide (c = _)); [by left|]. destruct (isspace c); [apply IH|].
  destruct (span in_token (c :: p)) as [word rest].
  destruct (Z.geb_spec (compression_algo_from_name (Some (take 63 word))) 0); [apply from_name_valid|apply IH].
Qed.

(** Whatever the environment says, the default codec is one of ours. *)
Lemma negotiate_default_valid env : compression_algo_valid (compression_negotiate_default env) = true.
Proof.
  unfold compression_negotiate_default, compression_choice_resolve, env_choice_first. destruct env as [e|]; [|done].
  pose proof (env_scan_valid (length e) e false) as Hs. destruct (env_scan _ _ _ _) as [id sp]. destruct sp; [|done].
  destruct (Z.geb_spec id 0); [|done]. destruct Hs as [->|]; [lia|done].
Qed.
