(* ===== verification/Libc.v ===== *)
(** More functions of the C library, on strings without their NUL: [strtol] in
    base 10, [strtok_r], [strchr] as a split, [fgets], and [strtoul] and unsigned
    [printf]. *)

From S2P Require Import Prelude CStr Names.

Definition LONG_MAX : Z := 2 ^ 63 - 1.
Definition LONG_MIN : Z := - 2 ^ 63.

Definition is_digit (c : byte) : bool := in_range 48 57 c.
Definition decimal (s : list byte) : Z := fold_left (fun a c => a * 10 + (bZ c - 48)) s 0.

(** The longest prefix whose characters satisfy [p], and the rest. *)
Fixpoint span (p : byte -> bool) (s : list byte) : list byte * list byte :=
  match s with
  | [] => ([], [])
  | c :: s' => if p c then let '(a, b) := span p s' in (c :: a, b) else ([], s)
  end.

(** [strtol(s, &end, 10)]: the value, whether [errno] is ERANGE, and the string
    at [end]. *)
Definition clamp_long (z : Z) : Z * bool :=
  if z >? LONG_MAX then (LONG_MAX, true) else if z <? LONG_MIN then (LONG_MIN, true) else (z, false).
Definition strtol (s : list byte) : Z * bool * list byte :=
  let '(_, t) := span isspace s in
  let '(neg, t) := match t with "-"%byte :: t => (true, t) | "+"%byte :: t => (false, t) | _ => (false, t) end in
  let '(ds, rest) := span is_digit t in
  if bool_decide (ds = []) then (0, false, s)
  else let '(v, err) := clamp_long (if neg then - decimal ds else decimal ds) in (v, err, rest).

(** The pieces of [s] between the characters [sep] ([strtok_r]: the empty ones
    are skipped), and the split at the first [sep] ([strchr]). *)
Fixpoint split_char (sep : byte -> bool) (s cur : list byte) : list (list byte) :=
  match s with
  | [] => [cur]
  | c :: s => if sep c then cur :: split_char sep s [] else split_char sep s (cur ++ [c])
  end.
Definition strtok (sep : byte -> bool) (s : list byte) : list (list byte) := filter (fun t => t <> []) (split_char sep s []).
Definition is_char (a c : byte) : bool := bool_decide (c = a).
Fixpoint split_first (sep : byte) (s : list byte) : option (list byte * list byte) :=
  match s with
  | [] => None
  | c :: s => if bool_decide (c = sep) then Some ([], s)
              else '(a, b) ← split_first sep s; Some (c :: a, b)
  end.

(** [fgets(line, n + 1, fp)]: the bytes read, through the first newline, and the
    rest of the file; whether the end of the file was met. *)
Fixpoint fgets (n : nat) (fp : list byte) : list byte * list byte * bool :=
  match n, fp with
  | O, _ => ([], fp, false)
  | S _, [] => ([], [], true)
  | S n, c :: fp => if bool_decide (c = Byte.x0a) then ([c], fp, false)
                    else let '(l, rest, eof) := fgets n fp in (c :: l, rest, eof)
  end.

(** ** Facts *)

Lemma decimal_nonneg s : forallb is_digit s = true -> 0 <= decimal s.
Proof.
  unfold decimal. assert (Hg : forall s a, 0 <= a -> forallb is_digit s = true -> 0 <= fold_left (fun a c => a * 10 + (bZ c - 48)) s a).
  { clear s. induction s as [|c s IH]; intros a Ha; simpl; [done|]. intros [Hc Hs]%andb_true_iff. apply IH; [|done].
    unfold is_digit, in_range in Hc. bool_to_prop. lia. }
  by apply Hg.
Qed.

Lemma span_app p s : fst (span p s) ++ snd (span p s) = s.
Proof. induction s as [|c s IH]; simpl; [done|]. destruct (p c); simpl; [|done]. destruct (span p s). simpl in *. by f_equal. Qed.
Lemma span_all p s : forallb p s = true -> span p s = (s, []).
Proof. induction s as [|c s IH]; simpl; [done|]. intros [-> H]%andb_true_iff. by rewrite IH. Qed.

(** A number without sign or space is read as its digits say. *)
Lemma strtol_plain s :
  s <> [] -> forallb is_digit s = true -> decimal s <= LONG_MAX -> strtol s = (decimal s, false, []).
Proof.
  intros Hs Hd Hl. unfold strtol. pose proof (decimal_nonneg s Hd) as H0. destruct s as [|c s]; [done|].
  assert (Hc := Hd). simpl in Hc. apply andb_true_iff in Hc as [Hc _].
  assert (Hsp : isspace c = false).
  { unfold isspace, is_digit, in_range in *. bool_to_prop. apply orb_false_iff. split; [apply andb_false_iff; right; apply Z.leb_gt; lia|].
    apply bool_decide_eq_false_2. intros ->. by vm_compute in H. }
  cbn [span]. rewrite Hsp.
  destruct c; vm_compute in Hc; try done; rewrite (span_all is_digit _ Hd), bool_decide_eq_false_2 by done;
    unfold clamp_long, LONG_MIN;
    match goal with |- context [decimal ?d] => destruct (Z.gtb_spec (decimal d) LONG_MAX), (Z.ltb_spec (decimal d) (- 2 ^ 63)) end; done || lia.
Qed.

Lemma split_first_app sep s a b : split_first sep s = Some (a, b) -> s = a ++ sep :: b.
Proof.
  revert a. induction s as [|c s IH]; intros a; simpl; [done|]. case_bool_decide as Hc.
  - intros [= <- <-]. by subst.
  - destruct (split_first sep s) as [[a' b']|]; simpl; [|done]. intros [= <- <-]. simpl. by rewrite <- (IH a').
Qed.

Lemma split_char_length sep s cur : (length (split_char sep s cur) <= S (length s))%nat.
Proof. revert cur. induction s as [|c s IH]; intros cur; simpl; [done|]. destruct (sep c); simpl; [specialize (IH [])|specialize (IH (cur ++ [c]))]; lia. Qed.

(** The tokens are separated, so they are never more than half the bytes,
    rounded up. *)
Lemma strtok_length sep s : zlen (strtok sep s) <= zlen s.
Proof.
  unfold strtok, zlen. enough (Hg : forall s cur, (length (filter (fun t : list byte => t <> []) (split_char sep s cur)) <=
    length s + (if bool_decide (cur = []) then 0 else 1))%nat) by (specialize (Hg s []); simpl in Hg; lia).
  clear s. induction s as [|c s IH]; intros cur; simpl.
  - rewrite filter_cons, filter_nil. repeat case_bool_decide; case_decide; simpl; try done; lia.
  - destruct (sep c).
    + rewrite filter_cons. specialize (IH []). rewrite bool_decide_eq_true_2 in IH by done.
      case_decide; case_bool_decide; simpl; try done; lia.
    + specialize (IH (cur ++ [c])). rewrite bool_decide_eq_false_2 in IH by (by destruct cur). case_bool_decide; lia.
Qed.

Lemma fgets_spec n fp l rest eof :
  fgets n fp = (l, rest, eof) -> fp = l ++ rest /\ (length l <= n)%nat /\ (n <> 0%nat -> fp <> [] -> l <> []).
Proof.
  revert fp l rest eof. induction n as [|n IH]; intros [|c fp] l rest eof; simpl;
    [intros [= <- <- <-]; by repeat split..| |]; [intros [= <- <- <-]; repeat split; simpl; done || lia|].
  case_bool_decide; [intros [= <- <- <-]; repeat split; simpl; try done; lia|].
  destruct (fgets n fp) as [[l' r'] e'] eqn:E. intros [= <- <- <-]. apply IH in E as (->&?&_). repeat split; simpl; try done; lia.
Qed.

(** ** Unsigned numbers: [strtoul] and [printf] *)

(** [printf] of an unsigned number in base [b] *)
Fixpoint print_base (fuel : nat) (b n : Z) : list byte :=
  let digit := [byte.of_Z (48 + n mod b)] in
  match fuel with
  | O => digit
  | S fuel => if n <? b then digit else print_base fuel b (n / b) ++ digit
  end.
Definition print_u32 (b n : Z) : list byte := print_base 32 b n.

(** [strtoul(s, &end, b)] for bases up to ten: the value, whether [errno] is
    ERANGE, and the string at [end] *)
Definition ULONG_MAX : Z := 2 ^ 64 - 1.
Definition digit_of (b : Z) (c : byte) : bool := (48 <=? bZ c) && (bZ c <? 48 + b).
Definition numeral (b : Z) (s : list byte) : Z := fold_left (fun a c => a * b + (bZ c - 48)) s 0.
Definition strtoul (b : Z) (s : list byte) : Z * bool * list byte :=
  let '(_, t) := span isspace s in
  let '(neg, t) := match t with "-"%byte :: t => (true, t) | "+"%byte :: t => (false, t) | _ => (false, t) end in
  let '(ds, rest) := span (digit_of b) t in
  if bool_decide (ds = []) then (0, false, s)
  else if numeral b ds >? ULONG_MAX then (ULONG_MAX, true, rest)
  else (if neg then u64 (- numeral b ds) else numeral b ds, false, rest).

(** No digit is a space or a sign. *)
Lemma digit_plain b c t : b <= 10 -> digit_of b c = true ->
  isspace c = false /\ (match c :: t with "-"%byte :: t => (true, t) | "+"%byte :: t => (false, t) | _ => (false, c :: t) end) = (false, c :: t).
Proof.
  intros Hb Hc. assert (H10 : digit_of 10 c = true) by (unfold digit_of in *; bool_to_prop; apply andb_true_iff; split; [by apply Z.leb_le|apply Z.ltb_lt; lia]). clear Hc.
  split; [|destruct c; vm_compute in H10; done]. destruct c; vm_compute in H10; try done.
Qed.

Lemma span_stop p ds rest : forallb p ds = true -> match rest with [] => True | c :: _ => p c = false end -> span p (ds ++ rest) = (ds, rest).
Proof.
  induction ds as [|c ds IH]; simpl; intros Hd Hr; [destruct rest as [|c rest]; [done|]; simpl; by rewrite Hr|].
  apply andb_true_iff in Hd as [-> Hd]. by rewrite IH.
Qed.

Lemma strtoul_plain b ds rest : 0 < b <= 10 -> ds <> [] -> forallb (digit_of b) ds = true -> match rest with [] => True | c :: _ => digit_of b c = false end ->
  numeral b ds <= ULONG_MAX -> strtoul b (ds ++ rest) = (numeral b ds, false, rest).
Proof.
  intros Hb Hne Hd Hr Hz. unfold strtoul. destruct ds as [|c ds]; [done|]. pose proof Hd as Hd'. cbn [forallb] in Hd'. apply andb_true_iff in Hd' as [Hc _].
  destruct (digit_plain b c (ds ++ rest) (proj2 Hb) Hc) as [Hsp Hsign]. cbn [app span]. rewrite Hsp, Hsign. change (c :: ds ++ rest) with ((c :: ds) ++ rest). rewrite span_stop by done.
  rewrite bool_decide_eq_false_2 by done. destruct (Z.gtb_spec (numeral b (c :: ds)) ULONG_MAX); [lia|done].
Qed.

Lemma numeral_snoc b s c : numeral b (s ++ [c]) = numeral b s * b + (bZ c - 48).
Proof. unfold numeral. by rewrite fold_left_app. Qed.

Lemma print_base_spec b fuel : 1 < b <= 10 -> forall n, 0 <= n < b ^ (Z.of_nat fuel + 1) ->
  print_base fuel b n <> [] /\ forallb (digit_of b) (print_base fuel b n) = true /\ numeral b (print_base fuel b n) = n.
Proof.
  intros Hb. assert (Hdig : forall n, 0 <= n < b -> bZ (byte.of_Z (48 + n)) = 48 + n) by (intros n Hn; rewrite byte.unsigned_of_Z; apply Z.mod_small; lia).
  assert (Hone : forall n, 0 <= n -> forallb (digit_of b) [byte.of_Z (48 + n mod b)] = true /\ bZ (byte.of_Z (48 + n mod b)) - 48 = n mod b).
  { intros n Hn. pose proof (Z.mod_pos_bound n b ltac:(lia)). rewrite Hdig by done. split; [|lia]. simpl. unfold digit_of. rewrite Hdig by done. rewrite andb_true_r. apply andb_true_iff. split; [apply Z.leb_le|apply Z.ltb_lt]; lia. }
  induction fuel as [|fuel IH]; intros n Hn; cbn [print_base].
  - rewrite Z.pow_1_r in Hn. destruct (Hone n ltac:(lia)) as [H1 H2]. split_and!; [done|done|]. unfold numeral. cbn [fold_left]. rewrite H2, Z.mod_small by lia. lia.
  - destruct (Hone n ltac:(lia)) as [H1 H2]. destruct (Z.ltb_spec n b).
    + split_and!; [done|done|]. unfold numeral. cbn [fold_left]. rewrite H2, Z.mod_small by lia. lia.
    + destruct (IH (n / b)) as (_&G2&G3).
      { split; [apply Z.div_pos; lia|]. apply Z.div_lt_upper_bound; [lia|]. replace (Z.of_nat (S fuel) + 1) with (Z.succ (Z.of_nat fuel + 1)) in Hn by lia. rewrite Z.pow_succ_r in Hn by lia. lia. }
      split_and!; [by destruct (print_base fuel b (n / b))|by rewrite forallb_app, G2|]. rewrite numeral_snoc, G3, H2. pose proof (Z.div_mod n b). lia.
Qed.
Lemma print_u32_spec b n : 1 < b <= 10 -> 0 <= n < 2 ^ 32 -> print_u32 b n <> [] /\ forallb (digit_of b) (print_u32 b n) = true /\ numeral b (print_u32 b n) = n.
Proof.
  intros Hb Hn. apply print_base_spec; [done|]. assert (2 ^ 33 <= b ^ 33) by (apply Z.pow_le_mono_l; lia). change (Z.of_nat 32 + 1) with 33. lia.
Qed.
Lemma print_base_length b k : 1 < b -> forall fuel n, 0 <= n < b ^ Z.of_nat (S k) -> (length (print_base fuel b n) <= S k)%nat.
Proof.
  intros Hb. induction k as [|k IH]; intros fuel n Hn; (destruct fuel as [|fuel]; cbn [print_base]; [simpl; lia|]).
  - change (Z.of_nat 1) with 1 in Hn. rewrite Z.pow_1_r in Hn. destruct (Z.ltb_spec n b); [simpl; lia|lia].
  - destruct (n <? b); [simpl; lia|]. rewrite length_app. simpl. assert (length (print_base fuel b (n / b)) <= S k)%nat; [|lia]. apply IH. split; [apply Z.div_pos; lia|].
    apply Z.div_lt_upper_bound; [lia|]. replace (Z.of_nat (S (S k))) with (Z.succ (Z.of_nat (S k))) in Hn by lia. rewrite Z.pow_succ_r in Hn by lia. lia.
Qed.
