(* ===== verification/Basis.v ===== *)
(** The paths of basis directories (--compare-dest, --copy-dest, --link-dest):
    config.c [basis_path_normalize] and [config_basis_path_valid], and the
    canonical form they compute. *)

From S2P Require Import Prelude Alloc CStr Paths.

Definition dot : list byte := cs ".".
Definition dotdot : list byte := cs "..".

(** [out_len > 0 && out[out_len - 1] != '/'] *)
Definition needs_slash (out : list byte) : bool :=
  (0 <? length out)%nat && negb (char_is out (length out - 1) slash).

(** The loop over the parts. *)
Fixpoint normalize_parts (parts : list (list byte)) (w : wbuf) : outcome wbuf :=
  match parts with
  | [] => Ret w
  | part :: parts =>
      if strcmp part dotdot =? 0 then Fail
      else if strcmp part dot =? 0 then normalize_parts parts w
      else
        w ← (if needs_slash (w_out w) then emit [slash] w else Ret w);
        w ← emit part w;
        normalize_parts parts w
  end.

Section Normalize.
Context `{Heap}.

(** config.c [basis_path_normalize] *)
Definition basis_path_normalize (path : option (list byte)) : outcome (list byte) :=
  path ← of_option path;
  check (negb (at_end path 0));;
  check (negb (has_path_traversal (Some path)));;
  let absolute := char_is path 0 slash in
  check (negb (negb absolute && (strcmp path dot =? 0)));;
  check (negb (absolute && (strcmp path (cs "/") =? 0)));;
  dup ← str_dup (Some path);
  check (malloc_ok (zlen path + 2));;
  out ← normalize_parts (tokens dup) (WBuf (zlen path + 2) (if absolute then [slash] else []));
  check (negb ((zlen (w_out out) =? 0) || (absolute && (zlen (w_out out) =? 1))));;
  emit [Byte.x00] out;;
  Ret (w_out out).

(** config.c [config_basis_path_valid] *)
Definition config_basis_path_valid (path : option (list byte)) : outcome bool :=
  match basis_path_normalize path with Ret _ => Ret true | Fail => Ret false | Stuck => Stuck end.
End Normalize.

Example normalize_ex1 : @basis_path_normalize heap0 (Some (cs "//a/./b//c/.")) = Ret (cs "/a/b/c").
Proof. vm_compute. reflexivity. Qed.
Example normalize_ex2 : @basis_path_normalize heap0 (Some (cs "./.")) = Fail.
Proof. vm_compute. reflexivity. Qed.

(** ** The canonical form *)

Fixpoint slash_join (l : list (list byte)) : list byte :=
  match l with [] => [] | [t] => t | t :: l => t ++ slash :: slash_join l end.
Definition parts (p : list byte) : list (list byte) := filter (fun t => t <> dot) (tokens p).
Definition lead (p : list byte) : list byte := if char_is p 0 slash then [slash] else [].
Definition canonical (p : list byte) : list byte := lead p ++ slash_join (parts p).

(** A component: not empty, no slash. *)
Definition component (t : list byte) : Prop := t <> [] /\ slash ∉ t.

Lemma split_slash_component s cur : slash ∉ cur -> Forall (fun t => slash ∉ t) (split_slash s cur).
Proof.
  revert cur. induction s as [|c s IH]; intros cur Hc; simpl; [by repeat constructor|].
  case_bool_decide; [constructor; [done|]; apply IH; set_solver|]. apply IH. set_solver.
Qed.

Lemma tokens_component p : Forall component (tokens p).
Proof.
  unfold tokens. apply Forall_forall. intros t [Ht Hin]%list_elem_of_filter. split; [done|].
  pose proof (split_slash_component p [] ltac:(set_solver)) as Hf. rewrite Forall_forall in Hf. by apply Hf.
Qed.

Lemma parts_component p : Forall component (parts p).
Proof.
  apply Forall_forall. intros t [_ Ht]%list_elem_of_filter.
  pose proof (tokens_component p) as Hf. rewrite Forall_forall in Hf. by apply Hf.
Qed.

Lemma tokens_component_id t : component t -> tokens t = [t].
Proof. intros [Hn Hs]. unfold tokens. rewrite split_slash_none by done. by rewrite filter_cons_True. Qed.

Lemma tokens_slash_join l : Forall component l -> tokens (slash_join l) = l.
Proof.
  induction 1 as [|t l Ht Hl IH]; [done|]. destruct l as [|u l].
  - by apply tokens_component_id.
  - change (slash_join (t :: u :: l)) with (t ++ slash :: slash_join (u :: l)). rewrite tokens_app, IH.
    by rewrite tokens_component_id.
Qed.

Lemma tokens_canonical p : tokens (canonical p) = parts p.
Proof.
  unfold canonical, lead. destruct (char_is p 0 slash); simpl.
  - rewrite tokens_leading. apply tokens_slash_join, parts_component.
  - apply tokens_slash_join, parts_component.
Qed.

Lemma parts_canonical p : parts (canonical p) = parts p.
Proof.
  unfold parts at 1. rewrite tokens_canonical. unfold parts. rewrite list_filter_filter.
  apply list_filter_iff. naive_solver.
Qed.

Lemma slash_join_head l : Forall component l -> char_is (slash_join l) 0 slash = false.
Proof.
  intros Hl. unfold char_is. apply bool_decide_eq_false_2. destruct Hl as [|t l [Hn Hs] _]; [done|].
  destruct t as [|c t]; [done|]. destruct l; simpl; intros [= ->]; set_solver.
Qed.

Lemma lead_canonical p : lead (canonical p) = lead p.
Proof.
  unfold canonical, lead at 1. destruct (char_is p 0 slash) eqn:E; unfold lead; rewrite E; simpl; [done|].
  by rewrite (slash_join_head _ (parts_component p)).
Qed.

Lemma canonical_idem p : canonical (canonical p) = canonical p.
Proof. unfold canonical at 1. by rewrite lead_canonical, parts_canonical. Qed.

(** *** Sizes *)

Fixpoint cells (l : list (list byte)) : Z := match l with [] => 0 | t :: l => zlen t + 1 + cells l end.

Lemma cells_split s cur : cells (split_slash s cur) = zlen s + zlen cur + 1.
Proof.
  revert cur. induction s as [|c s IH]; intros cur; simpl; [unfold zlen; simpl; lia|].
  case_bool_decide; simpl; rewrite IH; unfold zlen; rewrite ?length_app; simpl; lia.
Qed.

Lemma cells_nonneg l : 0 <= cells l.
Proof. induction l; simpl; [lia|]. pose proof (zlen_nonneg a). lia. Qed.

Lemma cells_filter (P : list byte -> Prop) `{forall t, Decision (P t)} l : cells (filter P l) <= cells l.
Proof.
  induction l as [|t l IH]; [done|]. rewrite filter_cons. pose proof (zlen_nonneg t). destruct (decide (P t)); simpl; lia.
Qed.

Lemma slash_join_size t l : zlen (slash_join (t :: l)) = cells (t :: l) - 1.
Proof.
  revert t. induction l as [|u l IH]; intros t; [simpl; lia|].
  change (slash_join (t :: u :: l)) with (t ++ slash :: slash_join (u :: l)). specialize (IH u).
  rewrite zlen_app, zlen_cons. cbn [cells] in *. lia.
Qed.

Lemma tokens_cells p : cells (tokens p) <= zlen p + 1.
Proof. unfold tokens. etransitivity; [apply cells_filter|]. rewrite cells_split. unfold zlen at 2. simpl. lia. Qed.

Lemma parts_cells p : cells (parts p) <= zlen p + 1.
Proof. unfold parts. etransitivity; [apply cells_filter|apply tokens_cells]. Qed.

(** ** The routine computes the canonical form *)

Definition sep (out : list byte) : list byte := if needs_slash out then [slash] else [].

Lemma needs_slash_app out t : component t -> needs_slash (out ++ t) = true.
Proof.
  intros [Hn Hs]. destruct (exists_last Hn) as (u&c&->). unfold needs_slash, char_is.
  rewrite app_assoc, length_app. simpl. destruct (Nat.ltb_spec 0 (length (out ++ u) + 1)); [|lia].
  replace (length (out ++ u) + 1 - 1)%nat with (length (out ++ u)) by lia.
  rewrite lookup_app_r, Nat.sub_diag by done. simpl. rewrite bool_decide_eq_false_2; [done|].
  intros [= ->]. set_solver.
Qed.

Lemma normalize_parts_spec l cap out :
  Forall component l -> dotdot ∉ l ->
  zlen out + 1 + cells (filter (fun t => t <> dot) l) <= cap ->
  normalize_parts l (WBuf cap out) =
  Ret (WBuf cap (match filter (fun t => t <> dot) l with [] => out | ks => out ++ sep out ++ slash_join ks end)).
Proof.
  intros Hl. revert out. induction Hl as [|t l Ht Hl IH]; intros out Hd Hc; [done|].
  apply not_elem_of_cons in Hd as [Hd1 Hd2]. cbn [normalize_parts].
  destruct (Z.eqb_spec (strcmp t dotdot) 0) as [E|_]; [by apply strcmp_eq in E|].
  rewrite filter_cons in Hc |- *. destruct (decide (t <> dot)) as [Hn|Hn].
  - destruct (Z.eqb_spec (strcmp t dot) 0) as [E|_]; [by apply strcmp_eq in E|]. cbn [cells] in Hc.
    pose proof (zlen_nonneg t). pose proof (cells_nonneg (filter (fun t => t <> dot) l)).
    assert (Hs : (if needs_slash (w_out (WBuf cap out)) then emit [slash] (WBuf cap out) else Ret (WBuf cap out))
                 = Ret (WBuf cap (out ++ sep out))).
    { unfold sep. cbn [w_out]. destruct (needs_slash out); [|by rewrite app_nil_r]. apply emit_ret. unfold zlen at 2. simpl. lia. }
    assert (Hz : zlen (sep out) <= 1) by (unfold sep; destruct (needs_slash out); unfold zlen; simpl; lia).
    rewrite Hs. cbn [mbind outcome_bind]. rewrite emit_ret by (cbn [w_cap w_out]; rewrite zlen_app; lia).
    cbn [mbind outcome_bind w_cap w_out].
    rewrite IH by (rewrite ?zlen_app; lia || done).
    destruct (filter (fun t => t <> dot) l) as [|u ks]; [by rewrite <- !app_assoc|].
    unfold sep at 2. rewrite needs_slash_app by done. cbn [slash_join]. by rewrite <- !app_assoc.
  - destruct (Z.eqb_spec (strcmp t dot) 0) as [_|E]; [by apply IH|].
    apply dec_stable in Hn as ->. exfalso. apply E. by apply strcmp_eq.
Qed.

(** The paths that are accepted: no ".." component, and at least one component
    other than ".". *)
Definition basis_path_ok (p : list byte) : Prop := dotdot ∉ tokens p /\ parts p <> [].
#[global] Instance basis_path_ok_dec p : Decision (basis_path_ok p) := _.

Lemma sep_lead p : sep (lead p) = [].
Proof. unfold lead. by destruct (char_is p 0 slash). Qed.

Lemma lead_size p : 0 <= zlen (lead p) <= 1.
Proof. unfold lead. destruct (char_is p 0 slash); by vm_compute. Qed.

Section Exact.
Context `{Heap}.

Lemma empty_parts p : p = [] \/ p = dot \/ p = [slash] -> parts p = [].
Proof. intros [->|[->| ->]]; reflexivity. Qed.

Lemma normalize_spec p :
  malloc_ok (zlen p + 1) = true -> malloc_ok (zlen p + 2) = true ->
  basis_path_normalize (Some p) = if decide (basis_path_ok p) then Ret (canonical p) else Fail.
Proof.
  intros Hm1 Hm2. pose proof (zlen_nonneg p).
  unfold basis_path_normalize. cbn [of_option mbind outcome_bind].
  rewrite traversal_spec by done. unfold str_dup. cbn [of_option mbind outcome_bind]. rewrite Hm1, Hm2.
  destruct (at_end p 0) eqn:Ee.
  { unfold at_end in Ee. apply bool_decide_eq_true in Ee. destruct p; [|done]. by rewrite decide_False by (intros [_ Hp]; by apply Hp). }
  change (cs "..") with dotdot. cbn [negb check mbind outcome_bind].
  destruct (decide (dotdot ∈ tokens p)) as [Hd|Hd].
  { rewrite bool_decide_eq_true_2 by done. by rewrite decide_False by (by intros [? _]). }
  rewrite bool_decide_eq_false_2 by done. cbn [negb check mbind outcome_bind].
  destruct (negb (char_is p 0 slash) && (strcmp p dot =? 0)) eqn:E1.
  { apply andb_true_iff in E1 as [_ E1%Z.eqb_eq%strcmp_eq]. rewrite decide_False; [done|].
    intros [_ Hp]. apply Hp, empty_parts. auto. }
  destruct (char_is p 0 slash && (strcmp p (cs "/") =? 0)) eqn:E2.
  { apply andb_true_iff in E2 as [_ E2%Z.eqb_eq%strcmp_eq]. rewrite decide_False; [done|].
    intros [_ Hp]. apply Hp, empty_parts. auto. }
  cbn [negb check mbind outcome_bind]. fold (lead p). pose proof (lead_size p). pose proof (parts_cells p) as Hc.
  rewrite normalize_parts_spec; [|apply tokens_component|done|].
  2: { fold (parts p). destruct (char_is p 0 slash) eqn:E; unfold lead; rewrite E; unfold zlen at 1; simpl length; [|lia].
       unfold char_is in E. apply bool_decide_eq_true in E. destruct p as [|c p]; [done|]. injection E as ->.
       unfold parts. rewrite (tokens_leading p). fold (parts p). pose proof (parts_cells p). rewrite zlen_cons. lia. }
  fold (parts p). cbn [mbind outcome_bind w_out]. rewrite sep_lead.
  destruct (parts p) as [|t ks] eqn:Ep.
  - rewrite decide_False by (intros [_ Hp]; by rewrite Ep in Hp). unfold lead. by destruct (char_is p 0 slash).
  - rewrite decide_True by (by split; [|rewrite Ep]). pose proof (slash_join_size t ks) as Hj. cbn [cells] in Hj, Hc.
    pose proof (cells_nonneg ks). pose proof (parts_component p) as Hpc. rewrite Ep in Hpc.
    apply Forall_cons in Hpc as [[Htn _] _]. assert (0 < zlen t) by (destruct t; [done|unfold zlen; simpl; lia]).
    rewrite app_nil_l, zlen_app.
    destruct (Z.eqb_spec (zlen (lead p) + zlen (slash_join (t :: ks))) 0); [lia|]. cbn [orb].
    assert (Hone : char_is p 0 slash && (zlen (lead p) + zlen (slash_join (t :: ks)) =? 1) = false).
    { destruct (char_is p 0 slash) eqn:E; [|done]. unfold lead. rewrite E. change (zlen [slash]) with 1. apply Z.eqb_neq. lia. }
    rewrite Hone. cbn [negb check mbind outcome_bind]. rewrite emit_ret.
    + unfold canonical. by rewrite Ep.
    + cbn [w_cap w_out]. rewrite zlen_app. change (zlen [Byte.x00]) with 1.
      revert Hc Hj. destruct (char_is p 0 slash) eqn:E; unfold lead; rewrite E; [change (zlen [slash]) with 1|change (zlen []) with 0]; lia.
Qed.

(** Whatever the allocator does, the routine stays inside its buffer, and what it
    returns is the canonical form of an acceptable path. *)
Lemma normalize_any p :
  basis_path_normalize (Some p) = Fail \/ (basis_path_ok p /\ basis_path_normalize (Some p) = Ret (canonical p)).
Proof.
  destruct (malloc_ok (zlen p + 1)) eqn:E1.
  - destruct (malloc_ok (zlen p + 2)) eqn:E2.
    + rewrite normalize_spec by done. destruct (decide (basis_path_ok p)); auto.
    + left. unfold basis_path_normalize, str_dup. cbn [of_option mbind outcome_bind]. rewrite E1, E2.
      destruct (at_end p 0); [done|]. destruct (has_path_traversal (Some p)); [done|].
      destruct (char_is p 0 slash), (strcmp p dot =? 0), (strcmp p (cs "/") =? 0); done.
  - left. unfold basis_path_normalize, has_path_traversal, str_dup. cbn [of_option mbind outcome_bind]. rewrite E1.
    by destruct (at_end p 0).
Qed.

Lemma canonical_ok p : basis_path_ok p -> basis_path_ok (canonical p).
Proof.
  intros [Hd Hp]. unfold basis_path_ok. rewrite parts_canonical, tokens_canonical. split; [|done].
  unfold parts. intros [_ Hin]%list_elem_of_filter. done.
Qed.

Lemma canonical_size p : zlen (canonical p) <= zlen p.
Proof.
  unfold canonical. rewrite zlen_app. destruct (parts p) as [|t ks] eqn:Ep.
  - change (zlen (slash_join [])) with 0. unfold lead, char_is. destruct p; [done|]. rewrite zlen_cons. pose proof (zlen_nonneg p).
    case_bool_decide; [change (zlen [slash]) with 1|change (zlen []) with 0]; lia.
  - rewrite slash_join_size. pose proof (parts_cells p) as Hc. unfold lead. destruct (char_is p 0 slash) eqn:E.
    + unfold char_is in E. apply bool_decide_eq_true in E. destruct p as [|c p]; [done|]. injection E as ->.
      pose proof (parts_cells p) as Hc'. unfold parts in Ep, Hc'. rewrite (tokens_leading p) in Ep.
      rewrite Ep in Hc'. rewrite !zlen_cons. change (zlen []) with 0. lia.
    + rewrite Ep in Hc. change (zlen []) with 0. lia.
Qed.

(** Basis paths are canonicalized exactly.  A path is accepted if and only
    if it has no ".." component and at least one component other than ".";
    the result has the same root and the same components in the same order
    without the "." ones, contains no ".." and is its own canonical form, so the
    client's check, the receiver's check and the stored path agree. *)
Lemma basis_normalize_exact p (Hheap : heap_serves (zlen p + 2)) :
  (is_ret (basis_path_normalize (Some p)) = true <-> basis_path_ok p) /\
  forall r, basis_path_normalize (Some p) = Ret r ->
    tokens r = filter (fun t => t <> dot) (tokens p) /\ char_is r 0 slash = char_is p 0 slash /\
    dotdot ∉ tokens r /\ zlen r <= zlen p /\ basis_path_normalize (Some r) = Ret r.
Proof.
  pose proof (zlen_nonneg p).
  assert (Hm : forall n, 0 <= n <= zlen p + 2 -> malloc_ok n = true) by (intros; by eapply heap_serves_malloc).
  rewrite normalize_spec by (apply Hm; lia). split; [by destruct (decide (basis_path_ok p))|].
  intros r. destruct (decide (basis_path_ok p)) as [Hok|]; [|done]. intros [= <-].
  pose proof (canonical_ok p Hok) as Hc. pose proof (canonical_size p). pose proof (zlen_nonneg (canonical p)).
  split_and!; [apply tokens_canonical| |apply Hc|done|].
  - pose proof (lead_canonical p) as Hl. unfold lead in Hl.
    destruct (char_is (canonical p) 0 slash), (char_is p 0 slash); done.
  - rewrite normalize_spec by (apply Hm; lia). rewrite decide_True by done. by rewrite canonical_idem.
Qed.
End Exact.

