(* ===== verification/ConfigWire.v ===== *)
(** The configuration frame of src/shared/config.c and the table of
    src/shared/config.h it is generated from.

    In the sources one table of entries [X(member, type, default, KIND)]
    declares the members of the struct, assigns their defaults and generates
    the send and receive sequences.  Here the table is a value: a [Config] maps
    member names to values, and [send_field] and [recv_field] dispatch on the
    kind as the macros [CONFIG_SEND_<KIND>] and [CONFIG_RECV_<KIND>] do. *)

From stdpp Require Import gmap strings.
From S2P Require Import Prelude Alloc DataBuf CStr Paths Basis FilterParse FilterRules Transport Session Wp Names.

#[local] Open Scope string_scope.
#[local] Open Scope list_scope.
#[local] Open Scope Z_scope.

(** config.h [IdentityMap] *)
Record IdentityMap := MkIdMap { id_from : Z; id_from_hi : Z; id_to : Z; to_name : option (list byte) }.

(** The values of the members.  Integer members of every width are [VInt],
    pointers to strings [VStr]. *)
Inductive value :=
| VBool (b : bool)
| VInt (z : Z)
| VStr (s : option (list byte))
| VStrs (l : list (list byte))
| VBasis (l : list (Z * list byte))
| VIds (l : list IdentityMap)
| VRules (r : option FilterRuleList).

Abbreviation Config := (gmap string value).
Definition get_bool (c : Config) (n : string) : bool := match c !! n with Some (VBool b) => b | _ => false end.
Definition get_int (c : Config) (n : string) : Z := match c !! n with Some (VInt z) => z | _ => 0 end.
Definition get_str (c : Config) (n : string) : option (list byte) := match c !! n with Some (VStr s) => s | _ => None end.
Definition get_strs (c : Config) (n : string) : list (list byte) := match c !! n with Some (VStrs l) => l | _ => [] end.
Definition get_basis (c : Config) (n : string) : list (Z * list byte) := match c !! n with Some (VBasis l) => l | _ => [] end.
Definition get_ids (c : Config) (n : string) : list IdentityMap := match c !! n with Some (VIds l) => l | _ => [] end.

(** The wire kinds.  [RAW] carries the size of the member's type and whether it
    is signed; the block kinds carry the name of their count member. *)
Inductive kind :=
| BOOL | BOOL_8BIT | INT | RAW (width : nat) (signed : bool) | RAW_MAXALLOC | DERIVED_DELTA
| STR | STR_OPT | STR_KEEP | STR_MODULE | STR_REDACTED_AUTH
| INT_CHECKSUM_ALGO | INT_COMPRESSION_ALGO | SUPERMODE | INT_IDENTITY
| INT_SKIPCOUNT | INT_BASISCOUNT | INT_IDMAPCOUNT
| BOOL_XATTR_DERIVE | COPY_AS_PRESENCE | COPY_AS_ID
| BLOCK_SKIP_SUFFIXES | BLOCK_BASIS | BLOCK_IDMAP (count : string) | BLOCK_PROTECT_RULES.

Record field := X { f_name : string; f_default : value; f_kind : kind }.

Definition PROTOCOL_VERSION : list byte := cs "2.29.0".
Definition DEFAULT_MAX_ALLOC : Z := 1024 * 1024 * 1024.
Definition MAX_SERVER_ALLOC : Z := 256 * 1024 * 1024.
Definition DEFAULT_CHUNK_SIZE : Z := 10 * 1024 * 1024.
Definition DELTA_BLOCK_SIZE_DEFAULT : Z := 8192.
Definition DELTA_MAX_FILE_SIZE : Z := 256 * 1024 * 1024.
Definition MAX_BASIS_DIRS : Z := 64.
Definition MAX_FILTER_RULES : Z := 1024.
Definition MAX_FILTER_BYTES : Z := 256 * 1024.
Definition MAX_PROTECT_PATTERN_LEN : Z := 8192.
Definition MAX_SKIP_COMPRESS_SUFFIXES : Z := 256.
Definition MAX_CONFIG_STRING_BYTES : Z := 1024 * 1024.
Definition IDENTITY_MATCH_ANY : Z := -1.
Definition IDENTITY_MATCH_UNNAMED : Z := -2.
Definition IDENTITY_CURRENT : Z := -1.
Definition MAX_IDENTITY_MAP : Z := 128.

(** Entries of the most frequent kind. *)
Definition flag (n : string) : field := X n (VBool false) BOOL.
Definition NULL : value := VStr None.

Definition CONFIG_WIRE_CORE_FIELDS : list field :=
  [X "eight_bit_output" (VBool false) BOOL_8BIT; X "max_alloc" (VInt DEFAULT_MAX_ALLOC) RAW_MAXALLOC;
   X "send_directory" NULL STR; X "receive_root_directory" NULL STR;
   flag "save_to_disk"; flag "use_multithreading"; flag "use_chunk_serialization"; flag "use_compression";
   flag "use_metadata"; flag "use_executability"; X "compression_level" (VInt 5) INT;
   X "chunk_size" (VInt DEFAULT_CHUNK_SIZE) (RAW 8 false); flag "use_sendfile"; flag "dry_run"].
Definition CONFIG_WIRE_DELTA_FIELDS : list field :=
  [flag "use_delete"; flag "use_incremental"; flag "size_only"; flag "ignore_times";
   X "use_delta" (VBool false) DERIVED_DELTA; X "delta_block_size" (VInt DELTA_BLOCK_SIZE_DEFAULT) (RAW 4 false);
   X "delta_max_file_size" (VInt DELTA_MAX_FILE_SIZE) (RAW 8 false)].
Definition CONFIG_WIRE_FILE_OPTIONS_FIELDS : list field :=
  [flag "backup"; X "backup_dir" NULL STR_OPT; flag "remove_source_files"; flag "follow_symlinks"; flag "copy_links";
   flag "safe_links"; flag "copy_unsafe_links"; flag "preserve_hard_links"; flag "preserve_acls"; flag "preserve_xattrs";
   flag "preserve_devices"; flag "preserve_sparse"; flag "preserve_specials"; flag "copy_devices"; flag "write_devices"].
Definition CONFIG_WIRE_SELECTION_FIELDS : list field :=
  [flag "ignore_existing"; flag "existing"; flag "update"; flag "inplace"; flag "delay_updates"; flag "append";
   flag "use_fsync"; flag "append_verify"; flag "delete_excluded"; flag "force_delete"; flag "delete_missing_args";
   flag "delete_after"; flag "preallocate"; X "max_delete" (VInt (-1)) (RAW 4 true); flag "relative";
   flag "prune_empty_dirs"; flag "mkpath"; flag "delete_during"; flag "delete_delay"].
Definition CONFIG_WIRE_RESUME_FIELDS : list field :=
  [X "temp_dir" NULL STR_OPT; flag "partial"; X "partial_dir" NULL STR_OPT; X "suffix" NULL STR_OPT;
   flag "delete_before"; flag "checksum"; X "modify_window" (VInt 0) (RAW 4 true); X "compress_choice" NULL STR_KEEP;
   X "chmod_spec" NULL STR_KEEP; flag "skip_compress_set"; X "skip_compress_count" (VInt 0) INT_SKIPCOUNT;
   X "skip_compress_suffixes" (VStrs []) BLOCK_SKIP_SUFFIXES].
Definition CONFIG_WIRE_BASIS_FIELDS : list field :=
  [X "basis_count" (VInt 0) INT_BASISCOUNT; X "basis_dirs" (VBasis []) BLOCK_BASIS; flag "verify_basis"].
Definition CONFIG_WIRE_FUZZY_FIELDS : list field := [flag "fuzzy"].
Definition CONFIG_WIRE_CHECKSUM_FIELDS : list field :=
  [X "checksum_algo" (VInt CHECKSUM_ALGO_DEFAULT) INT_CHECKSUM_ALGO; X "checksum_seed" (VInt 0) (RAW 8 false)].
Definition CONFIG_WIRE_IDENTITY_FIELDS : list field :=
  [flag "numeric_ids"; flag "chown_uid_set"; X "chown_uid" (VInt 0) INT_IDENTITY; flag "chown_gid_set";
   X "chown_gid" (VInt 0) INT_IDENTITY; X "usermap_count" (VInt 0) INT_IDMAPCOUNT;
   X "usermap" (VIds []) (BLOCK_IDMAP "usermap_count"); X "groupmap_count" (VInt 0) INT_IDMAPCOUNT;
   X "groupmap" (VIds []) (BLOCK_IDMAP "groupmap_count")].
Definition CONFIG_WIRE_METADATA_TIMES_FIELDS : list field :=
  [flag "preserve_atimes"; flag "preserve_crtimes"; flag "omit_dir_times"; flag "omit_link_times";
   flag "preserve_perms"; flag "preserve_times"; flag "preserve_owner"; flag "preserve_group"].
Definition CONFIG_WIRE_SYMLINK_TRUST_FIELDS : list field := [flag "munge_links"; flag "keep_dirlinks"].
Definition CONFIG_WIRE_XATTR_FIELDS : list field := [X "fake_super" (VBool false) BOOL_XATTR_DERIVE].
Definition CONFIG_WIRE_MODULE_FIELDS : list field := [X "module" NULL STR_MODULE].
Definition CONFIG_WIRE_DAEMON_AUTH_FIELDS : list field := [X "auth_user" NULL STR_REDACTED_AUTH].
Definition CONFIG_WIRE_ICONV_FIELDS : list field := [X "iconv_spec" NULL STR_OPT].
Definition CONFIG_WIRE_PRIVILEGE_FIELDS : list field := [X "super_mode" (VInt 0) SUPERMODE].
Definition CONFIG_WIRE_COPY_AS_FIELDS : list field :=
  [X "copy_as_set" (VBool false) COPY_AS_PRESENCE; X "copy_as_uid" (VInt 0) COPY_AS_ID; X "copy_as_gid" (VInt 0) COPY_AS_ID].
Definition CONFIG_WIRE_OUTPUT_FIELDS : list field := [flag "report_dest_info"; flag "report_stats"; flag "report_deletes"].
Definition CONFIG_WIRE_CODEC_FIELDS : list field := [X "compression_algo" (VInt COMPRESSION_ALGO_ZSTD) INT_COMPRESSION_ALGO].
Definition CONFIG_WIRE_PROTECT_FIELDS : list field := [X "protect_rules" (VRules None) BLOCK_PROTECT_RULES].

(** Every segment after the header, in wire order. *)
Definition wire_segments : list (list field) :=
  [CONFIG_WIRE_CORE_FIELDS; CONFIG_WIRE_DELTA_FIELDS; CONFIG_WIRE_FILE_OPTIONS_FIELDS; CONFIG_WIRE_SELECTION_FIELDS;
   CONFIG_WIRE_RESUME_FIELDS; CONFIG_WIRE_BASIS_FIELDS; CONFIG_WIRE_FUZZY_FIELDS; CONFIG_WIRE_CHECKSUM_FIELDS;
   CONFIG_WIRE_IDENTITY_FIELDS; CONFIG_WIRE_METADATA_TIMES_FIELDS; CONFIG_WIRE_SYMLINK_TRUST_FIELDS;
   CONFIG_WIRE_XATTR_FIELDS; CONFIG_WIRE_MODULE_FIELDS; CONFIG_WIRE_DAEMON_AUTH_FIELDS; CONFIG_WIRE_ICONV_FIELDS;
   CONFIG_WIRE_PRIVILEGE_FIELDS; CONFIG_WIRE_COPY_AS_FIELDS; CONFIG_WIRE_OUTPUT_FIELDS; CONFIG_WIRE_CODEC_FIELDS;
   CONFIG_WIRE_PROTECT_FIELDS].
Definition wire_fields : list field := concat wire_segments.
Definition CONFIG_WIRE_FIELDS : list field := X "version" (VStr (Some PROTOCOL_VERSION)) STR :: wire_fields.

(** config.c [config_set_defaults], on the serialized members *)
Definition config_defaults : Config :=
  foldr (fun f c => <[f_name f := f_default f]> c) ∅ CONFIG_WIRE_FIELDS.

(** ** The receiving side's state *)

(** The configuration being filled, the bytes charged to [ConfigStringBudget],
    and the session's [max_alloc], which the frame itself sets. *)
Record rstate := MkR { r_cfg : Config; r_used : Z; r_limit : Z }.
Definition set_member (s : rstate) (n : string) (v : value) : rstate :=
  MkR (<[n := v]> (r_cfg s)) (r_used s) (r_limit s).

(** The heap under another [max_alloc] *)
Definition with_limit (h : Heap) (limit : Z) : Heap :=
  {| max_alloc := limit; malloc_ok := @malloc_ok h; junk_byte := @junk_byte h; junk_word := @junk_word h |}.

Definition sizeof_BasisDest : Z := 16.
Definition sizeof_IdentityMap : Z := 24.
Definition BASIS_DEST_NONE : Z := 0.
Definition BASIS_DEST_COMPARE : Z := 1.
Definition BASIS_DEST_COPY : Z := 2.
Definition BASIS_DEST_LINK : Z := 3.
Definition SUPER_MODE_AUTO : Z := 0.
Definition SUPER_MODE_OFF : Z := 2.

(** The integer an enumerator of [FilterAction] stands for. *)
Definition action_int (a : FilterAction) : Z :=
  match a with
  | FILTER_ACTION_NONE => 0 | FILTER_ACTION_EXCLUDE => -1 | FILTER_ACTION_INCLUDE => 1
  | FILTER_ACTION_PROTECT => 2 | FILTER_ACTION_RISK => 3
  end.

(** The value of [width] bytes as the member's type reads it. *)
Definition raw_value (width : nat) (signed : bool) (z : Z) : Z :=
  if signed && (2 ^ (8 * Z.of_nat width - 1) <=? z) then z - 2 ^ (8 * Z.of_nat width) else z.

Definition str_or_empty (s : option (list byte)) : list byte := default [] s.
(** [""] is read back as NULL. *)
Definition empty_to_null (s : list byte) : option (list byte) := if bool_decide (s = []) then None else Some s.

(** Arguments of the loops over an array: the first [count] cells. *)
Definition first_cells {A} (count : Z) (l : list A) : outcome (list A) := rd l 0 (Z.max 0 count).
Fixpoint send_each {A} (f : A -> io unit) (l : list A) : io unit :=
  match l with [] => io_ret tt | a :: l => f a >~ send_each f l end.

Section Wire.
Context {h : Heap}.
(** The files merge rules can read, on the sending side. *)
Context (fs : list byte -> option (list byte)).

(** ** Sending *)

(** config.c [config_send_auth_user] *)
Definition config_send_auth_user (c : Config) : io unit :=
  let user := str_or_empty (get_str c "auth_user") in
  let present := negb (bool_decide (user = [])) in
  protocol_send_int (if present then 1 else 0) >~
  if present then protocol_send_str (Some user) else io_ret tt.

(** config.c [send_skip_compress_suffixes], [send_basis_entries],
    [send_identity_entries] *)
Definition send_skip_compress_suffixes (c : Config) : io unit :=
  l <~ io_of (first_cells (get_int c "skip_compress_count") (get_strs c "skip_compress_suffixes"));
  send_each (fun s => protocol_send_str (Some s)) l.
Definition send_basis_entries (c : Config) : io unit :=
  l <~ io_of (first_cells (get_int c "basis_count") (get_basis c "basis_dirs"));
  send_each (fun b => protocol_send_int (fst b) >~ protocol_send_str (Some (snd b))) l.
Definition send_identity (m : IdentityMap) : io unit :=
  protocol_send_int (id_from m) >~ protocol_send_int (id_from_hi m) >~ protocol_send_int (id_to m) >~
  protocol_send_str (Some (str_or_empty (to_name m))).
Definition send_identity_entries (map : list IdentityMap) (count : Z) : io unit :=
  l <~ io_of (first_cells count map); send_each send_identity l.

(** One record of [send_protect_entries] *)
Definition send_rule (r : FilterRule) : io unit :=
  io_check (negb (zlen (str_or_empty (pattern r)) >? MAX_PROTECT_PATTERN_LEN)) >~
  protocol_send_int (action_int (action r)) >~ protocol_send_int (sides r) >~
  protocol_send_int (if anchored r then 1 else 0) >~ protocol_send_int (if dir_only r then 1 else 0) >~
  protocol_send_int (if negate r then 1 else 0) >~
  protocol_send_str (Some (str_or_empty (FilterParse.owner r))) >~
  protocol_send_str (Some (str_or_empty (pattern r))).

(** The rules the sender compiles from its command line. *)
Definition compiled_rules (c : Config) : outcome FilterRuleList :=
  let count := zlen (get_strs c "filters") in
  check (negb (count >? 0) || malloc_ok (count * 8));;
  filter_base_build fs (Some <$> get_strs c "filters") (get_bool c "cvs_exclude") (get_bool c "delete_excluded").

(** config.c [send_protect_entries] *)
Definition send_protect_entries (c : Config) : io unit :=
  rules <~ io_of (compiled_rules c);
  io_check (negb ((zlen (items rules) <? 0) || (zlen (items rules) >? MAX_FILTER_RULES))) >~
  protocol_send_int (zlen (items rules)) >~
  send_each send_rule (items rules).

(** The macros [CONFIG_SEND_<KIND>].  [whole_file], [filters] and [cvs_exclude]
    are members that do not cross the wire. *)
Definition send_field (c : Config) (f : field) : io unit :=
  let n := f_name f in
  match f_kind f with
  | BOOL | BOOL_8BIT | BOOL_XATTR_DERIVE => protocol_send_int (Z.b2z (get_bool c n))
  | COPY_AS_PRESENCE => protocol_send_int (if get_bool c n then 1 else 0)
  | DERIVED_DELTA => protocol_send_int (Z.b2z (get_bool c n && negb (get_bool c "whole_file")))
  | INT | INT_CHECKSUM_ALGO | INT_COMPRESSION_ALGO | SUPERMODE | INT_IDENTITY | INT_SKIPCOUNT
  | INT_BASISCOUNT | INT_IDMAPCOUNT => protocol_send_int (get_int c n)
  | RAW width _ => send_bytes (put_le width (get_int c n))
  | RAW_MAXALLOC => send_bytes (put_le 8 (get_int c n))
  | STR => protocol_send_str (get_str c n)
  | STR_OPT | STR_KEEP | STR_MODULE => protocol_send_str (Some (str_or_empty (get_str c n)))
  | STR_REDACTED_AUTH => config_send_auth_user c
  | COPY_AS_ID => if negb (get_bool c "copy_as_set") then io_ret tt else protocol_send_int (get_int c n)
  | BLOCK_SKIP_SUFFIXES => send_skip_compress_suffixes c
  | BLOCK_BASIS => send_basis_entries c
  | BLOCK_IDMAP count => send_identity_entries (get_ids c n) (get_int c count)
  | BLOCK_PROTECT_RULES => send_protect_entries c
  end.

(** A function generated by [CONFIG_DEFINE_SEND] *)
Definition send_fields (c : Config) (fields : list field) : io unit := send_each (send_field c) fields.

(** config.c [config_send_wire_block] *)
Definition config_send_wire_block (c : Config) : io unit :=
  protocol_send_str (get_str c "version") >~ send_each (send_fields c) wire_segments.

(** ** Receiving *)

(** config.c [receive_wire_bool] *)
Definition valid_wire_bool (v : Z) : bool := (v =? 0) || (v =? 1).
Definition receive_int_where (p : Z -> bool) : io Z := v <~ protocol_receive_int; io_check (p v) >~ io_ret v.
Definition receive_wire_bool : io bool := v <~ receive_int_where valid_wire_bool; io_ret (negb (v =? 0)).

(** config.c [config_string_budget_charge], [config_receive_str],
    [config_receive_str_redacted] *)
Definition config_string_budget_charge (s : rstate) (bytes : Z) : option rstate :=
  if (bytes >? MAX_CONFIG_STRING_BYTES) || (r_used s >? MAX_CONFIG_STRING_BYTES - bytes) then None
  else Some (MkR (r_cfg s) (u64 (r_used s + bytes)) (r_limit s)).
Definition config_receive_str (s : rstate) : io (list byte * rstate) :=
  v <~ @protocol_receive_str (with_limit h (r_limit s));
  s <~ io_of (of_option (config_string_budget_charge s (zlen v + 1)));
  io_ret (v, s).

(** config.c [config_receive_max_alloc] *)
Definition config_receive_max_alloc (s : rstate) (n : string) : io rstate :=
  v <~ recv_int 8;
  let v := if (v =? 0) || (v >? MAX_SERVER_ALLOC) then MAX_SERVER_ALLOC else v in
  io_ret (MkR (<[n := VInt v]> (r_cfg s)) (r_used s) v).

(** config.c [config_receive_optional_str] *)
Definition config_receive_optional_str (s : rstate) (n : string) : io rstate :=
  r <~ config_receive_str s;
  let '(v, s) := r in
  io_ret (set_member s n (VStr (empty_to_null v))).

(** config.c [config_receive_module]; [send_error_detail]'s own result is
    ignored. *)
Definition ignoring {A} (m : io A) : io unit := fun w =>
  let '(w, r) := m w in (w, match r with Stuck => Stuck | _ => Ret tt end).
Definition reject {A} (detail : list byte) : io A := ignoring (send_error_detail (Some detail)) >~ io_fail.
Definition config_receive_module (s : rstate) (n : string) : io rstate :=
  r <~ config_receive_str s;
  let '(m, s) := r in
  if negb (bool_decide (m = [])) && negb (daemon_module_name_valid (Some m)) then
    reject (cs "invalid or over-long daemon module name")
  else if negb (bool_decide (m = [])) then io_ret (set_member s n (VStr (Some m)))
  else io_ret s.

(** config.c [config_receive_auth_user] *)
Definition config_receive_auth_user (s : rstate) (n : string) : io rstate :=
  present <~ receive_int_where valid_wire_bool;
  if present =? 0 then io_ret s
  else
    r <~ config_receive_str s;
    let '(user, s) := r in
    io_check (credentials_username_valid (Some user)) >~
    io_ret (set_member s n (VStr (Some user))).

(** config.c [config_receive_checksum_algo] ... [config_receive_copy_as_id] *)
Definition config_receive_checksum_algo : io Z := receive_int_where checksum_algo_valid.
Definition config_receive_compression_algo : io Z := receive_int_where compression_algo_valid.
Definition config_receive_super_mode : io Z :=
  receive_int_where (fun v => negb ((v <? SUPER_MODE_AUTO) || (v >? SUPER_MODE_OFF))).
Definition config_receive_identity_id : io Z := receive_int_where (fun v => negb (v <? IDENTITY_MATCH_ANY)).
Definition config_receive_skip_count : io Z :=
  receive_int_where (fun v => negb ((v <? 0) || (v >? MAX_SKIP_COMPRESS_SUFFIXES))).
Definition config_receive_basis_count : io Z := receive_int_where (fun v => negb ((v <? 0) || (v >? MAX_BASIS_DIRS))).
Definition config_receive_idmap_count : io Z := receive_int_where (fun v => negb ((v <? 0) || (v >? MAX_IDENTITY_MAP))).
Definition config_receive_copy_as_id : io Z := receive_int_where (fun v => negb (v <? 0)).

(** Repeat [f] [n] times, collecting the entries. *)
Fixpoint receive_each {A} (f : rstate -> io (A * rstate)) (n : nat) (s : rstate) : io (list A * rstate) :=
  match n with
  | O => io_ret ([], s)
  | S n =>
      r <~ f s; let '(a, s) := r in
      r <~ receive_each f n s; let '(l, s) := r in
      io_ret (a :: l, s)
  end.

(** config.c [receive_skip_compress_suffixes] *)
Definition receive_skip_compress_suffixes (s : rstate) : io rstate :=
  let count := get_int (r_cfg s) "skip_compress_count" in
  if count <=? 0 then io_ret s
  else
    io_check (malloc_ok (count * 8)) >~
    r <~ receive_each config_receive_str (Z.to_nat count) s;
    let '(l, s) := r in
    io_ret (set_member s "skip_compress_suffixes" (VStrs l)).

(** config.c [config_basis_append] *)
Definition config_basis_append (c : Config) (type : Z) (path : option (list byte)) : outcome Config :=
  let count := get_int c "basis_count" in
  check (negb ((negb (type =? BASIS_DEST_COMPARE) && negb (type =? BASIS_DEST_COPY) && negb (type =? BASIS_DEST_LINK))
               || (count >=? MAX_BASIS_DIRS)));;
  normalized ← basis_path_normalize path;
  check (malloc_ok ((count + 1) * sizeof_BasisDest));;
  kept ← first_cells count (get_basis c "basis_dirs");
  Ret (<["basis_count" := VInt (count + 1)]> (<["basis_dirs" := VBasis (kept ++ [(type, normalized)])]> c)).

(** config.c [receive_basis_entries]: the loop, and the whole *)
Definition receive_basis (s : rstate) : io rstate :=
  type <~ receive_int_where (fun t => negb ((t <=? BASIS_DEST_NONE) || (t >? BASIS_DEST_LINK)));
  r <~ config_receive_str s;
  let '(path, s) := r in
  c <~ io_of (config_basis_append (r_cfg s) type (Some path));
  io_ret (MkR c (r_used s) (r_limit s)).
Fixpoint repeat_io (f : rstate -> io rstate) (n : nat) (s : rstate) : io rstate :=
  match n with O => io_ret s | S n => s <~ f s; repeat_io f n s end.
Definition receive_basis_entries (s : rstate) : io rstate :=
  let count := get_int (r_cfg s) "basis_count" in
  repeat_io receive_basis (Z.to_nat count) (set_member s "basis_count" (VInt 0)).

(** config.c [receive_protect_entries]: one record, and the whole *)
Definition receive_rule (bytes_so_far : Z) (list : FilterRuleList) (s : rstate)
  : io (Z * FilterRuleList * rstate) :=
  action <~ receive_int_where (fun a => negb (negb (a =? action_int FILTER_ACTION_EXCLUDE)
                                              && negb (a =? action_int FILTER_ACTION_INCLUDE)));
  sides <~ receive_int_where (fun v => negb ((v <? FILTER_SIDE_SENDER)
                                             || (v >? Z.lor FILTER_SIDE_SENDER FILTER_SIDE_RECEIVER)));
  anchored <~ receive_wire_bool;
  dir_only <~ receive_wire_bool;
  negate <~ receive_wire_bool;
  r <~ config_receive_str s; let '(owner, s) := r in
  r <~ config_receive_str s; let '(pattern, s) := r in
  io_check (negb (bool_decide (pattern = []))) >~
  io_check (negb (zlen pattern >? MAX_PROTECT_PATTERN_LEN)) >~
  let bytes := u64 (zlen owner + zlen pattern) in
  io_check (negb (bytes >? u64 (MAX_FILTER_BYTES - bytes_so_far))) >~
  io_check (malloc_ok sizeof_FilterRule) >~
  let action := if action =? action_int FILTER_ACTION_EXCLUDE then FILTER_ACTION_EXCLUDE else FILTER_ACTION_INCLUDE in
  r <~ io_of (filter_rule_list_add list
                (MkRule action sides anchored dir_only negate false (Some owner) (Some pattern)));
  let '(list, ok) := r in
  io_check ok >~
  io_ret (u64 (bytes_so_far + bytes), list, s).
Fixpoint receive_rules (n : nat) (bytes_so_far : Z) (list : FilterRuleList) (s : rstate)
  : io (FilterRuleList * rstate) :=
  match n with
  | O => io_ret (list, s)
  | S n => r <~ receive_rule bytes_so_far list s;
           let '(bytes, list, s) := r in receive_rules n bytes list s
  end.
Definition receive_protect_entries (s : rstate) : io rstate :=
  count <~ receive_int_where (fun v => negb ((v <? 0) || (v >? MAX_FILTER_RULES)));
  if count =? 0 then io_ret s
  else
    list <~ io_of filter_rule_list_create;
    r <~ receive_rules (Z.to_nat count) 0 list s;
    let '(list, s) := r in
    io_ret (set_member s "protect_rules" (VRules (Some list))).

(** config.c [receive_identity_entries]: one entry, and the whole *)
Definition receive_identity (s : rstate) : io (IdentityMap * rstate) :=
  from <~ protocol_receive_int;
  from_hi <~ protocol_receive_int;
  to <~ protocol_receive_int;
  r <~ config_receive_str s;
  let '(name, s) := r in
  io_ret (MkIdMap from from_hi to (empty_to_null name), s).
Definition receive_identity_entries (s : rstate) (n : string) (count : Z) : io rstate :=
  if count <=? 0 then io_ret s
  else
    io_check (malloc_ok (count * sizeof_IdentityMap)) >~
    r <~ receive_each receive_identity (Z.to_nat count) s;
    let '(l, s) := r in
    io_ret (set_member s n (VIds l)).

(** The macros [CONFIG_RECV_<KIND>].  [use_xattrs] is derived, not a member of
    the table; the session's 8-bit-output flag only concerns diagnostics. *)
Definition recv_field (s : rstate) (f : field) : io rstate :=
  let n := f_name f in
  let bool_member := b <~ receive_wire_bool; io_ret (set_member s n (VBool b)) in
  let int_member (m : io Z) := v <~ m; io_ret (set_member s n (VInt v)) in
  let str_member := r <~ config_receive_str s; let '(v, s) := r in io_ret (set_member s n (VStr (Some v))) in
  match f_kind f with
  | BOOL | BOOL_8BIT | DERIVED_DELTA | COPY_AS_PRESENCE => bool_member
  | BOOL_XATTR_DERIVE =>
      b <~ receive_wire_bool;
      let s := set_member s n (VBool b) in
      io_ret (set_member s "use_xattrs"
                (VBool (get_bool (r_cfg s) "preserve_acls" || get_bool (r_cfg s) "preserve_xattrs")))
  | INT => int_member protocol_receive_int
  | RAW width signed => int_member (z <~ recv_int width; io_ret (raw_value width signed z))
  | RAW_MAXALLOC => config_receive_max_alloc s n
  | INT_CHECKSUM_ALGO => int_member config_receive_checksum_algo
  | INT_COMPRESSION_ALGO => int_member config_receive_compression_algo
  | SUPERMODE => int_member config_receive_super_mode
  | INT_IDENTITY => int_member config_receive_identity_id
  | INT_SKIPCOUNT => int_member config_receive_skip_count
  | INT_BASISCOUNT => int_member config_receive_basis_count
  | INT_IDMAPCOUNT => int_member config_receive_idmap_count
  | STR | STR_KEEP => str_member
  | STR_OPT => config_receive_optional_str s n
  | STR_MODULE => config_receive_module s n
  | STR_REDACTED_AUTH => config_receive_auth_user s n
  | COPY_AS_ID => if negb (get_bool (r_cfg s) "copy_as_set") then io_ret s else int_member config_receive_copy_as_id
  | BLOCK_SKIP_SUFFIXES => receive_skip_compress_suffixes s
  | BLOCK_BASIS => receive_basis_entries s
  | BLOCK_IDMAP count => receive_identity_entries s n (get_int (r_cfg s) count)
  | BLOCK_PROTECT_RULES => receive_protect_entries s
  end.

(** A function generated by [CONFIG_DEFINE_RECV], and the sequence of
    segments of [config_receive_with_validate] *)
Fixpoint recv_fields (fields : list field) (s : rstate) : io rstate :=
  match fields with
  | [] => io_ret s
  | f :: fields => s <~ recv_field s f; recv_fields fields s
  end.
Fixpoint recv_segments (segments : list (list field)) (s : rstate) : io rstate :=
  match segments with
  | [] => io_ret s
  | fields :: segments => s <~ recv_fields fields s; recv_segments segments s
  end.

(** The detail of a version mismatch, as [snprintf] leaves it in 160 bytes. *)
Definition escaped_or_note (s : list byte) (eight_bit : bool) : list byte :=
  match output_escape (Some s) eight_bit with Ret e => e | _ => cs "<allocation failed>" end.
Definition snprintf160 (s : list byte) : list byte := take 159 s.
Definition version_detail (version : list byte) : list byte :=
  snprintf160 (cs "protocol version mismatch (client=" ++ escaped_or_note version false ++ cs ", server="
               ++ PROTOCOL_VERSION ++ cs ")").

(** config.c [config_receive_with_validate]: the frame header, and the frame *)
Definition receive_header (s : rstate) : io rstate :=
  r <~ config_receive_str s;
  let '(version, s) := r in
  let s := set_member s "version" (VStr (Some version)) in
  if negb (strcmp version PROTOCOL_VERSION =? 0) then reject (version_detail version)
  else io_ret s.
Definition receive_frame (s : rstate) : io rstate :=
  s <~ receive_header s; recv_segments wire_segments s.
End Wire.
