(* ===== verification/ConfigTrip.v ===== *)
(** The configuration frame arrives as it was sent: what [config_send_wire_block]
    writes, the receiver's field sequence reads back, member by member. *)

From stdpp Require Import gmap strings.
From S2P Require Import Prelude Alloc DataBuf CStr Paths Basis FilterParse FilterRules Transport Session Wp Names ConfigWire.

#[local] Open Scope string_scope.
#[local] Open Scope list_scope.
#[local] Open Scope Z_scope.

(** ** Readers that leave the rejection detail alone *)

Abbreviation reads f m a := (consumes f m a id).

Lemma reads_bind {A B} (f : io A) (g : A -> io B) m1 m2 a b :
  reads f m1 a -> reads (g a) m2 b -> reads (io_bind f g) (m1 ++ m2) b.
Proof. apply (consumes_bind f g m1 m2 a b id id). Qed.
Lemma reads_then {A B} (f : io A) (g : A -> io B) m a b :
  reads f [] a -> reads (g a) m b -> reads (io_bind f g) m b.
Proof. apply (reads_bind f g [] m). Qed.
Lemma reads_last {A B} (f : io A) (g : A -> io B) m a b :
  reads f m a -> reads (g a) [] b -> reads (io_bind f g) m b.
Proof. intros Hf Hg. rewrite <- (app_nil_r m). by eapply reads_bind. Qed.
Lemma reads_map {A B} (f : io A) (g : A -> B) m a : reads f m a -> reads (x <~ f; io_ret (g x)) m (g a).
Proof. intros Hf. eapply reads_last; [done|apply consumes_ret]. Qed.
Lemma reads_of {A} (m : outcome A) a : m = Ret a -> reads (io_of m) [] a.
Proof. intros ->. apply consumes_ret. Qed.

Lemma reads_raw width z :
  reads (recv_int width) (put_le width z) (z mod 2 ^ (8 * Z.of_nat width)).
Proof.
  unfold recv_int. eapply reads_last.
  - pose proof (consumes_recv (put_le width z)) as Hr. by rewrite zlen_put_le in Hr.
  - apply reads_of. rewrite <- (app_nil_r (put_le width z)). by apply (get_put_le width z [] []).
Qed.

Definition int_range (z : Z) : Prop := - 2 ^ 31 <= z < 2 ^ 31.

Lemma reads_i32 z : int_range z -> reads protocol_receive_int (put_le 4 z) z.
Proof.
  intros Hz. unfold protocol_receive_int. eapply reads_last; [apply reads_raw|].
  replace z with (i32 (z mod 2 ^ (8 * Z.of_nat 4))) at 2; [apply consumes_ret|].
  change (8 * Z.of_nat 4) with 32. rewrite i32_mod. by apply i32_small.
Qed.

Lemma reads_where p z : int_range z -> p z = true -> reads (receive_int_where p) (put_le 4 z) z.
Proof.
  intros Hz Hp. unfold receive_int_where. eapply reads_last; [by apply reads_i32|].
  eapply reads_then; [by apply consumes_check|apply consumes_ret].
Qed.

Lemma reads_bool b : reads receive_wire_bool (put_le 4 (Z.b2z b)) b.
Proof.
  unfold receive_wire_bool. replace b with (negb (Z.b2z b =? 0)) at 2 by by destruct b.
  apply (reads_map _ (fun v => negb (v =? 0))), reads_where; by destruct b.
Qed.

Lemma raw_value_mod width signed z :
  (0 < width)%nat ->
  (if signed : bool then - 2 ^ (8 * Z.of_nat width - 1) <= z < 2 ^ (8 * Z.of_nat width - 1)
   else 0 <= z < 2 ^ (8 * Z.of_nat width)) ->
  raw_value width signed (z mod 2 ^ (8 * Z.of_nat width)) = z.
Proof.
  intros Hw Hz. unfold raw_value. set (k := 8 * Z.of_nat width - 1).
  replace (8 * Z.of_nat width) with (k + 1) in * by lia. assert (0 <= k) by lia.
  assert (E : 2 ^ (k + 1) = 2 * 2 ^ k) by (rewrite Z.pow_add_r by lia; lia). rewrite E in *.
  assert (0 < 2 ^ k) by (apply Z.pow_pos_nonneg; lia). replace (k + 1 - 1) with k in * by lia.
  destruct signed; simpl; [|apply Z.mod_small; lia].
  destruct (Z.leb_spec 0 z) as [Hp|Hn].
  - rewrite Z.mod_small by lia. destruct (Z.leb_spec (2 ^ k) z); lia.
  - replace (z mod (2 * 2 ^ k)) with (z + 2 * 2 ^ k).
    + destruct (Z.leb_spec (2 ^ k) (z + 2 * 2 ^ k)); lia.
    + rewrite <- (Z_mod_plus_full z 1). rewrite Z.mod_small; lia.
Qed.

(** ** Senders *)

Lemma produces_ret : produces (io_ret tt) [].
Proof. intros w k _ Hst. exists w. split_and!; [done|by rewrite app_nil_r|done]. Qed.
Lemma produces_of {A} (m : outcome A) a (g : A -> io unit) bs :
  m = Ret a -> produces (g a) bs -> produces (x <~ io_of m; g x) bs.
Proof. intros -> Hg w k. apply Hg. Qed.
Lemma produces_check b g m : b = true -> produces g m -> produces (io_check b >~ g) m.
Proof. intros ->. apply (produces_of (Ret tt) tt (fun _ => g)). done. Qed.

Definition int_wire (z : Z) : list byte := put_le 4 z.
Definition str_wire (s : list byte) : list byte := put_le 8 (zlen s) ++ s.

Lemma produces_each {A} (f : A -> io unit) (wire : A -> list byte) l :
  (forall a, a ∈ l -> produces (f a) (wire a)) -> produces (send_each f l) (concat (wire <$> l)).
Proof.
  induction l as [|a l IH]; intros Hf; [apply produces_ret|]. apply produces_bind; [apply Hf; set_solver|].
  apply IH. intros b Hb. apply Hf. set_solver.
Qed.

(** ** Members on the wire *)

(** Strings that fit a frame. *)
Definition str_ok (s : list byte) : Prop := zlen s <= MAX_STRING_SIZE /\ Byte.x00 ∉ s.

Definition canonical_entry (b : Z * list byte) : Prop :=
  BASIS_DEST_COMPARE <= fst b <= BASIS_DEST_LINK /\ str_ok (snd b) /\ basis_path_ok (snd b) /\
  canonical (snd b) = snd b.
Definition identity_ok (m : IdentityMap) : Prop :=
  int_range (id_from m) /\ int_range (id_from_hi m) /\ int_range (id_to m) /\ str_ok (str_or_empty (to_name m)).

(** A rule the receiver accepts. *)
Definition rule_ok (r : FilterRule) : Prop :=
  (action r = FILTER_ACTION_EXCLUDE \/ action r = FILTER_ACTION_INCLUDE) /\ 1 <= sides r <= 3 /\
  str_ok (str_or_empty (FilterParse.owner r)) /\ str_or_empty (pattern r) <> [] /\ str_ok (str_or_empty (pattern r)) /\
  zlen (str_or_empty (pattern r)) <= MAX_PROTECT_PATTERN_LEN.
Definition rule_bytes (r : FilterRule) : Z :=
  zlen (str_or_empty (FilterParse.owner r)) + zlen (str_or_empty (pattern r)).

Fixpoint zsum (l : list Z) : Z := match l with [] => 0 | z :: l => z + zsum l end.
Lemma zsum_app l k : zsum (l ++ k) = zsum l + zsum k.
Proof. induction l; simpl; lia. Qed.

Definition str_charge (s : list byte) : Z := zlen s + 1.

(** The rule as the receiver rebuilds it: [perishable] is not transmitted, and
    the strings are never NULL. *)
Definition rule_received (r : FilterRule) : FilterRule :=
  MkRule (action r) (sides r) (anchored r) (dir_only r) (negate r) false
    (Some (str_or_empty (FilterParse.owner r))) (Some (str_or_empty (pattern r))).

(** The receiver's array doubles from 8. *)
Definition grown (size cap : Z) : Z := if size =? cap then (if cap >? 0 then cap * 2 else 8) else cap.
Fixpoint grow_to (n : nat) (size cap : Z) : Z :=
  match n with O => cap | S n => grow_to n (size + 1) (grown size cap) end.

Section Trip.
Context (c : Config) (rules : list FilterRule).

(** What the receiver's member holds afterwards. *)
Definition wire_value (f : field) : value :=
  let n := f_name f in
  match f_kind f with
  | BOOL | BOOL_8BIT | BOOL_XATTR_DERIVE | COPY_AS_PRESENCE => VBool (get_bool c n)
  | DERIVED_DELTA => VBool (get_bool c n && negb (get_bool c "whole_file"))
  | INT | INT_CHECKSUM_ALGO | INT_COMPRESSION_ALGO | SUPERMODE | INT_IDENTITY | INT_SKIPCOUNT
  | INT_BASISCOUNT | INT_IDMAPCOUNT | RAW _ _ => VInt (get_int c n)
  | RAW_MAXALLOC =>
      VInt (if (get_int c n =? 0) || (get_int c n >? MAX_SERVER_ALLOC) then MAX_SERVER_ALLOC else get_int c n)
  | STR | STR_KEEP => VStr (Some (str_or_empty (get_str c n)))
  | STR_OPT | STR_MODULE | STR_REDACTED_AUTH => VStr (empty_to_null (str_or_empty (get_str c n)))
  | COPY_AS_ID => if get_bool c "copy_as_set" then VInt (get_int c n) else f_default f
  | BLOCK_SKIP_SUFFIXES => VStrs (get_strs c n)
  | BLOCK_BASIS => VBasis (get_basis c n)
  | BLOCK_IDMAP _ =>
      VIds ((fun m => MkIdMap (id_from m) (id_from_hi m) (id_to m) (empty_to_null (str_or_empty (to_name m)))) <$> get_ids c n)
  | BLOCK_PROTECT_RULES =>
      VRules (match rules with
              | [] => None
              | _ => Some (MkList (rule_received <$> rules) (grow_to (length rules) 0 0) [] 0)
              end)
  end.

(** What the receiver charges to its string budget. *)
Definition field_charge (f : field) : Z :=
  let n := f_name f in
  match f_kind f with
  | STR | STR_OPT | STR_KEEP | STR_MODULE => str_charge (str_or_empty (get_str c n))
  | STR_REDACTED_AUTH =>
      if bool_decide (str_or_empty (get_str c n) = []) then 0 else str_charge (str_or_empty (get_str c n))
  | BLOCK_SKIP_SUFFIXES => zsum (str_charge <$> get_strs c n)
  | BLOCK_BASIS => zsum ((fun b => str_charge (snd b)) <$> get_basis c n)
  | BLOCK_IDMAP _ => zsum ((fun m => str_charge (str_or_empty (to_name m))) <$> get_ids c n)
  | BLOCK_PROTECT_RULES => zsum ((fun r => rule_bytes r + 2) <$> rules)
  | _ => 0
  end.

(** The members a sender may put on the wire. *)
Definition field_ok (f : field) : Prop :=
  let n := f_name f in
  match f_kind f with
  | BOOL | BOOL_8BIT | BOOL_XATTR_DERIVE | COPY_AS_PRESENCE | DERIVED_DELTA => True
  | INT => int_range (get_int c n)
  | INT_CHECKSUM_ALGO => checksum_algo_valid (get_int c n) = true
  | INT_COMPRESSION_ALGO => compression_algo_valid (get_int c n) = true
  | SUPERMODE => SUPER_MODE_AUTO <= get_int c n <= SUPER_MODE_OFF
  | INT_IDENTITY => IDENTITY_MATCH_ANY <= get_int c n < 2 ^ 31
  | INT_SKIPCOUNT => 0 <= get_int c n <= MAX_SKIP_COMPRESS_SUFFIXES
  | INT_BASISCOUNT => 0 <= get_int c n <= MAX_BASIS_DIRS
  | INT_IDMAPCOUNT => 0 <= get_int c n <= MAX_IDENTITY_MAP
  | RAW width signed =>
      if signed : bool then - 2 ^ (8 * Z.of_nat width - 1) <= get_int c n < 2 ^ (8 * Z.of_nat width - 1)
      else 0 <= get_int c n < 2 ^ (8 * Z.of_nat width)
  | RAW_MAXALLOC => 0 <= get_int c n < 2 ^ 64 /\ (get_int c n = 0 \/ MAX_STRING_SIZE < get_int c n)
  | STR => get_str c n <> None /\ str_ok (str_or_empty (get_str c n))
  | STR_OPT | STR_KEEP => str_ok (str_or_empty (get_str c n))
  | STR_MODULE => str_or_empty (get_str c n) = [] \/
                  (daemon_module_name_valid (get_str c n) = true /\ str_ok (str_or_empty (get_str c n)))
  | STR_REDACTED_AUTH => str_or_empty (get_str c n) = [] \/
                         (credentials_username_valid (get_str c n) = true /\ str_ok (str_or_empty (get_str c n)))
  | COPY_AS_ID => get_bool c "copy_as_set" = true -> 0 <= get_int c n < 2 ^ 31
  | BLOCK_SKIP_SUFFIXES => get_int c "skip_compress_count" = zlen (get_strs c n) /\
                           zlen (get_strs c n) <= MAX_SKIP_COMPRESS_SUFFIXES /\ Forall str_ok (get_strs c n)
  | BLOCK_BASIS => get_int c "basis_count" = zlen (get_basis c n) /\ zlen (get_basis c n) <= MAX_BASIS_DIRS /\
                   Forall canonical_entry (get_basis c n)
  | BLOCK_IDMAP count => get_int c count = zlen (get_ids c n) /\ zlen (get_ids c n) <= MAX_IDENTITY_MAP /\
                         Forall identity_ok (get_ids c n)
  | BLOCK_PROTECT_RULES => zlen rules <= MAX_FILTER_RULES /\ Forall rule_ok rules /\
                           zsum (rule_bytes <$> rules) <= MAX_FILTER_BYTES
  end.

(** ** The receiver's invariant: [pre] has been received, [post] has not *)
Record inv (pre post : list field) (s : rstate) : Prop := {
  i_pre : forall f, f ∈ pre -> r_cfg s !! f_name f = Some (wire_value f);
  i_post : forall f, f ∈ post -> r_cfg s !! f_name f = Some (f_default f);
  i_used : 0 <= r_used s;
  i_room : r_used s + zsum (field_charge <$> post) <= MAX_CONFIG_STRING_BYTES;
  i_limit : r_limit s = 0 \/ MAX_STRING_SIZE < r_limit s;
}.
End Trip.

(** ** Receiving the parts *)

(** An allocator that serves requests of up to 1 MiB. *)
Definition serves (h : Heap) : Prop := forall n, 0 <= n <= 1024 * 1024 -> @malloc_ok h n = true.

(** Room for [n] more bytes of strings, and a ceiling that admits a string. *)
Definition room (s : rstate) (n : Z) : Prop :=
  0 <= r_used s /\ r_used s + n <= MAX_CONFIG_STRING_BYTES /\ (r_limit s = 0 \/ MAX_STRING_SIZE < r_limit s).
Definition charged (s : rstate) (n : Z) : rstate := MkR (r_cfg s) (r_used s + n) (r_limit s).

Lemma charged_0 s : charged s 0 = s.
Proof. destruct s. unfold charged. simpl. by rewrite Z.add_0_r. Qed.
Lemma charged_charged s a b : charged (charged s a) b = charged s (a + b).
Proof. unfold charged. simpl. f_equal. lia. Qed.
Lemma room_charged s a b : 0 <= a -> room s (a + b) -> room (charged s a) b.
Proof. intros ? (?&?&?). split_and!; simpl; [lia|lia|done]. Qed.
Lemma room_less s a b : a <= b -> room s b -> room s a.
Proof. intros ? (?&?&?). split_and!; [lia|lia|done]. Qed.
Lemma str_charge_pos v : 0 < str_charge v.
Proof. unfold str_charge. pose proof (zlen_nonneg v). lia. Qed.

Section Receive.
Context {h : Heap} (Hh : serves h).

Lemma reads_str s v : str_ok v -> room s (str_charge v) -> reads (config_receive_str s) (str_wire v) (v, charged s (str_charge v)).
Proof.
  intros [Hl Hn] (Hu&Hr&Hlim). pose proof (zlen_nonneg v). unfold str_charge in *.
  unfold MAX_STRING_SIZE, MAX_CONFIG_STRING_BYTES in *. eapply reads_last.
  - apply consumes_str; [done|done|]. unfold protocol_alloc_for_session, allocation_allowed. simpl.
    destruct (Z.eqb_spec (r_limit s) 0), (Z.leb_spec (zlen v + 1) (r_limit s)); simpl; try (apply Hh; lia). lia.
  - eapply reads_then; [|apply consumes_ret]. apply reads_of.
    unfold config_string_budget_charge, MAX_CONFIG_STRING_BYTES.
    destruct (Z.gtb_spec (zlen v + 1) (1024 * 1024)); [lia|].
    destruct (Z.gtb_spec (r_used s) (1024 * 1024 - (zlen v + 1))); [lia|]. simpl. by rewrite u64_small by lia.
Qed.

Lemma reads_each {A} (f : rstate -> io (A * rstate)) (wire : A -> list byte) (g : A -> A) (charge : A -> Z) l s :
  (forall a s, a ∈ l -> room s (charge a) -> reads (f s) (wire a) (g a, charged s (charge a))) ->
  (forall a, a ∈ l -> 0 <= charge a) -> room s (zsum (charge <$> l)) ->
  reads (receive_each f (length l) s) (concat (wire <$> l)) (g <$> l, charged s (zsum (charge <$> l))).
Proof.
  revert s. induction l as [|a l IH]; intros s Hf Hp Hr; cbn [length receive_each].
  - simpl. rewrite charged_0. apply consumes_ret.
  - rewrite fmap_cons in Hr. cbn [zsum] in Hr.
    assert (0 <= zsum (charge <$> l)).
    { clear -Hp. induction l as [|b l IH]; [done|]. rewrite fmap_cons. cbn [zsum].
      pose proof (Hp b ltac:(set_solver)). assert (0 <= zsum (charge <$> l)) by (apply IH; set_solver). lia. }
    rewrite !fmap_cons. cbn [zsum concat]. eapply reads_bind; [apply Hf; [set_solver|]|].
    { eapply room_less; [|done]. lia. }
    cbn beta iota. rewrite <- charged_charged. eapply reads_last; [apply IH|apply consumes_ret].
    + intros; apply Hf; set_solver.
    + intros; apply Hp; set_solver.
    + apply room_charged; [apply Hp; set_solver|done].
Qed.

Definition id_wire (m : IdentityMap) : list byte :=
  int_wire (id_from m) ++ int_wire (id_from_hi m) ++ int_wire (id_to m) ++ str_wire (str_or_empty (to_name m)).
Definition id_received (m : IdentityMap) : IdentityMap :=
  MkIdMap (id_from m) (id_from_hi m) (id_to m) (empty_to_null (str_or_empty (to_name m))).

Lemma reads_identity m s :
  identity_ok m -> room s (str_charge (str_or_empty (to_name m))) ->
  reads (receive_identity s) (id_wire m) (id_received m, charged s (str_charge (str_or_empty (to_name m)))).
Proof.
  intros (H1&H2&H3&H4) Hr. unfold receive_identity, id_wire.
  eapply reads_bind; [by apply reads_i32|]. eapply reads_bind; [by apply reads_i32|].
  eapply reads_bind; [by apply reads_i32|]. eapply reads_last; [by apply reads_str|]. apply consumes_ret.
Qed.

(** *** Basis directories *)

Lemma first_cells_all {A} (l : list A) : first_cells (zlen l) l = Ret l.
Proof.
  unfold first_cells. rewrite Z.max_r by apply zlen_nonneg. pose proof (rd_segment [] l [] 0 (zlen l) eq_refl eq_refl) as E.
  by rewrite app_nil_l, app_nil_r in E.
Qed.


Definition basis_wire (b : Z * list byte) : list byte := int_wire (fst b) ++ str_wire (snd b).
Definition with_basis (cfg : Config) (l : list (Z * list byte)) : Config :=
  <["basis_count" := VInt (zlen l)]> (<["basis_dirs" := VBasis l]> cfg).

Lemma with_basis_twice cfg l k : with_basis (with_basis cfg l) k = with_basis cfg k.
Proof.
  unfold with_basis. rewrite (insert_insert_ne (<["basis_dirs" := VBasis l]> cfg) "basis_dirs" "basis_count") by done.
  by rewrite !insert_insert_eq.
Qed.

Lemma append_with_basis cfg l b :
  canonical_entry b -> zlen l < MAX_BASIS_DIRS ->
  config_basis_append (with_basis cfg l) (fst b) (Some (snd b)) = Ret (with_basis cfg (l ++ [b])).
Proof.
  intros (Ht&Hs&Hb&Hc) Hl. unfold config_basis_append.
  assert (E1 : get_int (with_basis cfg l) "basis_count" = zlen l) by (unfold get_int, with_basis; by simplify_map_eq).
  assert (E2 : get_basis (with_basis cfg l) "basis_dirs" = l) by (unfold get_basis, with_basis; by simplify_map_eq).
  rewrite E1, E2. destruct Hs as [Hs _]. unfold MAX_BASIS_DIRS, MAX_STRING_SIZE, BASIS_DEST_COMPARE, BASIS_DEST_LINK, BASIS_DEST_COPY in *.
  pose proof (zlen_nonneg l). pose proof (zlen_nonneg (snd b)).
  assert (Ety : negb (fst b =? 1) && negb (fst b =? 2) && negb (fst b =? 3) = false).
  { destruct (Z.eqb_spec (fst b) 1), (Z.eqb_spec (fst b) 2), (Z.eqb_spec (fst b) 3); simpl; done || lia. }
  rewrite Ety. destruct (Z.geb_spec (zlen l) 64); [lia|]. cbn [orb negb check mbind outcome_bind].
  rewrite normalize_spec by (apply Hh; lia). rewrite decide_True by done. rewrite Hc. cbn [mbind outcome_bind].
  rewrite Hh by (unfold sizeof_BasisDest; lia). cbn [check mbind outcome_bind].
  rewrite first_cells_all.
  cbn [mbind outcome_bind]. f_equal. rewrite <- (with_basis_twice cfg l (l ++ [b])). unfold with_basis at 2.
  rewrite zlen_app. destruct b. done.
Qed.

Lemma reads_basis l done cfg u lim :
  Forall canonical_entry l -> zlen (done ++ l) <= MAX_BASIS_DIRS ->
  room (MkR cfg u lim) (zsum ((fun b => str_charge (snd b)) <$> l)) ->
  reads (repeat_io receive_basis (length l) (MkR (with_basis cfg done) u lim)) (concat (basis_wire <$> l))
    (MkR (with_basis cfg (done ++ l)) (u + zsum ((fun b => str_charge (snd b)) <$> l)) lim).
Proof.
  intros Hl. revert done u. induction Hl as [|b l Hb Hl IH]; intros done u Hz Hr; cbn [length repeat_io].
  - simpl. rewrite app_nil_r, Z.add_0_r. apply consumes_ret.
  - rewrite !fmap_cons in *. cbn [zsum concat] in *. pose proof (str_charge_pos (snd b)).
    rewrite zlen_app, zlen_cons in Hz. pose proof (zlen_nonneg l).
    assert (0 <= zsum ((fun b => str_charge (snd b)) <$> l)).
    { clear. induction l as [|b l IH]; [done|]. rewrite fmap_cons. cbn [zsum]. pose proof (str_charge_pos (snd b)). lia. }
    pose proof Hb as (Ht&Hs&_). unfold BASIS_DEST_COMPARE, BASIS_DEST_LINK in Ht.
    eapply reads_bind.
    + unfold receive_basis, basis_wire. eapply reads_bind.
      { apply reads_where; [split; lia|]. unfold BASIS_DEST_NONE, BASIS_DEST_LINK.
        destruct (Z.leb_spec (fst b) 0), (Z.gtb_spec (fst b) 3); simpl; done || lia. }
      eapply reads_last; [apply reads_str; [done|]|].
      { destruct Hr as (?&?&?). split_and!; simpl in *; [lia|lia|done]. }
      cbn beta iota. eapply reads_then; [|apply consumes_ret]. apply reads_of. cbn [r_cfg charged].
      apply append_with_basis; [done|lia].
    + cbn [r_used r_limit charged]. rewrite Z.add_assoc. rewrite (app_assoc done [b] l : done ++ b :: l = _).
      apply IH; [rewrite !zlen_app, zlen_cons; change (zlen []) with 0; lia|].
      destruct Hr as (?&?&?). split_and!; simpl in *; [lia|lia|done].
Qed.

(** *** Rules *)

Definition rule_wire (r : FilterRule) : list byte :=
  int_wire (action_int (action r)) ++ int_wire (sides r) ++ int_wire (Z.b2z (anchored r)) ++
  int_wire (Z.b2z (dir_only r)) ++ int_wire (Z.b2z (negate r)) ++
  str_wire (str_or_empty (FilterParse.owner r)) ++ str_wire (str_or_empty (pattern r)).

Lemma list_add_ok its cap r :
  0 <= cap <= 2048 -> zlen its < MAX_FILTER_RULES ->
  filter_rule_list_add (MkList its cap [] 0) r = Ret (MkList (its ++ [r]) (grown (zlen its) cap) [] 0, true) /\
  0 <= grown (zlen its) cap <= 2048.
Proof.
  intros Hc Hz. unfold filter_rule_list_add, grown, MAX_FILTER_RULES in *. simpl items. simpl capacity.
  destruct (Z.eqb_spec (zlen its) cap) as [E|]; [|split; [done|lia]].
  unfold INT_MAX. destruct (Z.gtb_spec cap ((2 ^ 31 - 1) / 2)) as [Hgt|_];
    [assert ((2 ^ 31 - 1) / 2 = 1073741823) as E' by done; lia|].
  rewrite Hh by (destruct (Z.gtb_spec cap 0); lia). split; [done|]. destruct (Z.gtb_spec cap 0); lia.
Qed.

Lemma reads_rule r bytes its cap s :
  rule_ok r -> 0 <= bytes -> bytes + rule_bytes r <= MAX_FILTER_BYTES -> 0 <= cap <= 2048 -> zlen its < MAX_FILTER_RULES ->
  room s (rule_bytes r + 2) ->
  reads (receive_rule bytes (MkList its cap [] 0) s) (rule_wire r)
    (bytes + rule_bytes r, MkList (its ++ [rule_received r]) (grown (zlen its) cap) [] 0, charged s (rule_bytes r + 2)).
Proof.
  intros (Ha&Hsd&Ho&Hpn&Hp&Hpl) Hb Hbr Hc Hz Hr. unfold rule_bytes, MAX_FILTER_BYTES in *.
  set (o := str_or_empty (FilterParse.owner r)) in *. set (p := str_or_empty (pattern r)) in *.
  pose proof (zlen_nonneg o). pose proof (zlen_nonneg p).
  unfold receive_rule, rule_wire. fold o p.
  eapply reads_bind. { apply reads_where; [destruct Ha as [-> | ->]; by vm_compute|]. by destruct Ha as [-> | ->]. }
  eapply reads_bind. { apply reads_where; [split; lia|]. change (Z.lor FILTER_SIDE_SENDER FILTER_SIDE_RECEIVER) with 3.
    unfold FILTER_SIDE_SENDER. destruct (Z.ltb_spec (sides r) 1), (Z.gtb_spec (sides r) 3); simpl; done || lia. }
  do 3 (eapply reads_bind; [apply reads_bool|]).
  eapply reads_bind; [apply reads_str; [done|]|]. { eapply room_less; [|done]. unfold str_charge. lia. }
  cbn beta iota. eapply reads_last; [apply reads_str; [done|]|].
  { apply room_charged; [pose proof (str_charge_pos o); lia|]. eapply room_less; [|done]. unfold str_charge. lia. }
  cbn beta iota. rewrite charged_charged. replace (str_charge o + str_charge p) with (zlen o + zlen p + 2) by (unfold str_charge; lia).
  eapply reads_then; [apply consumes_check; by rewrite bool_decide_eq_false_2|].
  eapply reads_then. { apply consumes_check. destruct (Z.gtb_spec (zlen p) MAX_PROTECT_PATTERN_LEN); done || lia. }
  unfold MAX_FILTER_BYTES. rewrite !u64_small by lia.
  eapply reads_then. { apply consumes_check. destruct (Z.gtb_spec (zlen o + zlen p) (256 * 1024 - bytes)); done || lia. }
  eapply reads_then; [apply consumes_check, Hh; unfold sizeof_FilterRule; lia|].
  destruct (list_add_ok its cap (rule_received r) Hc Hz) as [Hadd _].
  assert (Hact : (if action_int (action r) =? action_int FILTER_ACTION_EXCLUDE then FILTER_ACTION_EXCLUDE
                  else FILTER_ACTION_INCLUDE) = action r) by (by destruct Ha as [-> | ->]).
  rewrite Hact. eapply reads_then; [apply reads_of; exact Hadd|].
  cbn beta iota. eapply reads_then; [by apply consumes_check|]. apply consumes_ret.
Qed.

Lemma rule_bytes_nonneg r : 0 <= rule_bytes r.
Proof. unfold rule_bytes. pose proof (zlen_nonneg (str_or_empty (FilterParse.owner r))). pose proof (zlen_nonneg (str_or_empty (pattern r))). lia. Qed.

Lemma reads_rules rs bytes its cap s :
  Forall rule_ok rs -> 0 <= bytes -> bytes + zsum (rule_bytes <$> rs) <= MAX_FILTER_BYTES -> 0 <= cap <= 2048 ->
  zlen its + zlen rs <= MAX_FILTER_RULES -> room s (zsum ((fun r => rule_bytes r + 2) <$> rs)) ->
  reads (receive_rules (length rs) bytes (MkList its cap [] 0) s) (concat (rule_wire <$> rs))
    (MkList (its ++ (rule_received <$> rs)) (grow_to (length rs) (zlen its) cap) [] 0,
     charged s (zsum ((fun r => rule_bytes r + 2) <$> rs))).
Proof.
  intros Hrs. revert bytes its cap s. induction Hrs as [|r rs Hr Hrs IH]; intros bytes its cap s Hb Hbs Hc Hz Hro;
    cbn [length receive_rules].
  - rewrite fmap_nil, app_nil_r. simpl. rewrite charged_0. apply consumes_ret.
  - rewrite !fmap_cons in *. cbn [zsum concat grow_to] in *. rewrite zlen_cons in Hz. pose proof (zlen_nonneg rs).
    pose proof (rule_bytes_nonneg r).
    assert (Hs : 0 <= zsum (rule_bytes <$> rs) /\ 0 <= zsum ((fun r => rule_bytes r + 2) <$> rs)).
    { clear. induction rs as [|r rs IH]; [done|]. rewrite !fmap_cons. cbn [zsum]. pose proof (rule_bytes_nonneg r). lia. }
    destruct (list_add_ok its cap (rule_received r) Hc ltac:(lia)) as [_ Hg].
    eapply reads_bind; [apply reads_rule; [done|done|lia|done|lia|]|]. { eapply room_less; [|done]. lia. }
    cbn beta iota. rewrite <- (charged_charged s (rule_bytes r + 2)).
    rewrite (app_assoc its [rule_received r] (rule_received <$> rs) : its ++ rule_received r :: (rule_received <$> rs) = _).
    replace (zlen its + 1) with (zlen (its ++ [rule_received r])) by (rewrite zlen_app; done).
    apply IH; [lia|lia|done|rewrite zlen_app; change (zlen [rule_received r]) with 1; lia|].
    apply room_charged; [lia|done].
Qed.
End Receive.

(** ** One member *)

(** What a member's reader relies on: the members received before it, and the
    default the receiver starts from. *)
Definition field_dep (pre : list field) (f : field) : Prop :=
  match f_kind f with
  | RAW width _ => (0 < width)%nat
  | COPY_AS_ID => f_default f = VInt 0 /\ X "copy_as_set" (VBool false) COPY_AS_PRESENCE ∈ pre
  | BLOCK_SKIP_SUFFIXES =>
      f_name f = "skip_compress_suffixes" /\ f_default f = VStrs [] /\ X "skip_compress_count" (VInt 0) INT_SKIPCOUNT ∈ pre
  | BLOCK_BASIS => f_name f = "basis_dirs" /\ f_default f = VBasis [] /\ X "basis_count" (VInt 0) INT_BASISCOUNT ∈ pre
  | BLOCK_IDMAP count => f_default f = VIds [] /\ X count (VInt 0) INT_IDMAPCOUNT ∈ pre
  | STR_MODULE => f_default f = NULL
  | STR_REDACTED_AUTH => f_name f = "auth_user" /\ f_default f = NULL
  | BLOCK_PROTECT_RULES => f_name f = "protect_rules" /\ f_default f = VRules None
  | _ => True
  end.

(** Member names are distinct, also from the derived member. *)
Definition fresh (l : list field) (f : field) : Prop :=
  (forall g, g ∈ l -> f_name g <> f_name f) /\ (forall g, g ∈ f :: l -> f_name g <> "use_xattrs").

Fixpoint deps (pre fields : list field) : Prop :=
  match fields with
  | [] => True
  | f :: fields => field_dep pre f /\ deps (f :: pre) fields
  end.
Definition names_ok (fields : list field) : Prop :=
  NoDup (f_name <$> fields) /\ "use_xattrs" ∉ (f_name <$> fields).

Lemma names_fresh pre f post : names_ok (pre ++ f :: post) -> fresh (pre ++ post) f.
Proof.
  unfold names_ok. rewrite fmap_app, fmap_cons. intros [Hn Hx]. split.
  - intros g Hg E. apply NoDup_app in Hn as (_&Hd&[Hn _]%NoDup_cons).
    apply elem_of_app in Hg as [Hg|Hg].
    + apply (Hd (f_name g)); [by apply list_elem_of_fmap_2|]. rewrite E. set_solver.
    + apply Hn. rewrite <- E. by apply list_elem_of_fmap_2.
  - intros g Hg E. apply Hx. rewrite <- E. rewrite <- fmap_cons, <- fmap_app. apply list_elem_of_fmap_2. set_solver.
Qed.

Lemma names_swap pre f post : names_ok (pre ++ f :: post) -> names_ok ((f :: pre) ++ post).
Proof.
  assert (Hp : (f :: pre) ++ post ≡ₚ pre ++ f :: post) by apply Permutation_middle.
  unfold names_ok. by rewrite Hp.
Qed.

Section Step.
Context {hs h : Heap} (Hh : serves h) (fs : list byte -> option (list byte)) (c : Config) (rl : FilterRuleList).
Context (Hrl : @compiled_rules hs fs c = Ret rl).
Local Abbreviation rules := (items rl).
Local Abbreviation inv := (inv c rules).
Local Abbreviation charge := (field_charge c rules).
Local Abbreviation value_of := (wire_value c rules).

Lemma zsum_nonneg {A} (f : A -> Z) l : (forall a, 0 <= f a) -> 0 <= zsum (f <$> l).
Proof. intros Hf. induction l as [|a l IH]; [done|]. rewrite fmap_cons. cbn [zsum]. pose proof (Hf a). lia. Qed.

Lemma str_charge_nonneg v : 0 <= str_charge v.
Proof. pose proof (str_charge_pos v). lia. Qed.

Lemma charge_nonneg f : 0 <= charge f.
Proof.
  unfold field_charge. destruct (f_kind f); try done; try apply str_charge_nonneg; try (apply zsum_nonneg; intros; apply str_charge_nonneg).
  - case_bool_decide; [done|]. apply str_charge_nonneg.
  - apply zsum_nonneg. intros r. pose proof (rule_bytes_nonneg r). lia.
Qed.

Lemma inv_room pre f post s : inv pre (f :: post) s -> room s (charge f).
Proof.
  intros [_ _ Hu Hr Hl]. rewrite fmap_cons in Hr. cbn [zsum] in Hr.
  pose proof (zsum_nonneg charge post charge_nonneg). split_and!; [done|lia|done].
Qed.

Lemma inv_set pre f post s limit :
  inv pre (f :: post) s -> fresh (pre ++ post) f -> limit = 0 \/ MAX_STRING_SIZE < limit ->
  inv (f :: pre) post (MkR (<[f_name f := value_of f]> (r_cfg s)) (r_used s + charge f) limit).
Proof.
  intros [Hpre Hpost Hu Hr Hl] [Hf _] Hlim. rewrite fmap_cons in Hr. cbn [zsum] in Hr.
  pose proof (charge_nonneg f). split; simpl; [| |lia|lia|done].
  - intros g [->|Hg]%elem_of_cons; [by rewrite lookup_insert_eq|].
    rewrite lookup_insert_ne; [by apply Hpre|]. intros E. apply (Hf g); [set_solver|done].
  - intros g Hg. rewrite lookup_insert_ne; [apply Hpost; set_solver|]. intros E. apply (Hf g); [set_solver|done].
Qed.

Lemma inv_keep pre f post s :
  inv pre (f :: post) s -> value_of f = f_default f -> inv (f :: pre) post (charged s (charge f)).
Proof.
  intros [Hpre Hpost Hu Hr Hl] Hv. rewrite fmap_cons in Hr. cbn [zsum] in Hr.
  pose proof (charge_nonneg f). split; simpl; [| |lia|lia|done].
  - intros g [->|Hg]%elem_of_cons; [rewrite Hv; apply Hpost; set_solver|by apply Hpre].
  - intros g Hg. apply Hpost. set_solver.
Qed.

(** Writing a member no entry of the table names. *)
Lemma inv_other pre post s n v :
  inv pre post s -> (forall g, g ∈ pre ++ post -> f_name g <> n) -> inv pre post (set_member s n v).
Proof.
  intros [Hpre Hpost Hu Hr Hl] Hn. split; simpl; [| |done..].
  - intros g Hg. rewrite lookup_insert_ne; [by apply Hpre|]. intros E. by apply (Hn g); [set_solver|].
  - intros g Hg. rewrite lookup_insert_ne; [by apply Hpost|]. intros E. by apply (Hn g); [set_solver|].
Qed.

(** The receiver of one member takes the sender's bytes and keeps the
    invariant. *)
Definition received (f : field) (pre post : list field) (m : list byte) : Prop :=
  forall s, inv pre (f :: post) s -> exists s', reads (recv_field s f) m s' /\ inv (f :: pre) post s'.

(** Readers that assign one member and charge nothing, and readers of one
    string. *)
Lemma received_value {A} pre f post s (rd : io A) (g : A -> value) m a :
  inv pre (f :: post) s -> fresh (pre ++ post) f -> charge f = 0 -> reads rd m a -> value_of f = g a ->
  exists s', reads (x <~ rd; io_ret (set_member s (f_name f) (g x))) m s' /\ inv (f :: pre) post s'.
Proof.
  intros Hi Hf Hc Hr Hv. eexists. split; [eapply reads_last; [done|apply consumes_ret]|].
  rewrite <- Hv. pose proof (inv_set pre f post s (r_limit s) Hi Hf (i_limit _ _ _ _ _ Hi)) as H'.
  by rewrite Hc, Z.add_0_r in H'.
Qed.

Lemma received_str pre f post s (g : list byte -> value) v :
  inv pre (f :: post) s -> fresh (pre ++ post) f -> charge f = str_charge v -> str_ok v -> value_of f = g v ->
  exists s', reads (r <~ config_receive_str s; let '(x, s) := r in io_ret (set_member s (f_name f) (g x))) (str_wire v) s' /\
    inv (f :: pre) post s'.
Proof.
  intros Hi Hf Hc Hs Hv. pose proof (inv_room _ _ _ _ Hi) as Hr. rewrite Hc in Hr. eexists. split.
  - eapply reads_last; [by apply reads_str|]. apply consumes_ret.
  - rewrite <- Hv. pose proof (inv_set pre f post s (r_limit s) Hi Hf (i_limit _ _ _ _ _ Hi)) as H'. by rewrite Hc in H'.
Qed.

Definition travels (pre : list field) (f : field) (post : list field) : Prop :=
  exists m, produces (@send_field hs fs c f) m /\ received f pre post m.

Section Kinds.
Context (pre post : list field) (f : field).
Context (Hf : fresh (pre ++ post) f) (Hdep : field_dep pre f) (Hok : field_ok c rules f).

Lemma travels_bool b :
  @send_field hs fs c f = protocol_send_int (Z.b2z b) -> value_of f = VBool b -> charge f = 0 ->
  (forall s, recv_field s f = (b <~ receive_wire_bool; io_ret (set_member s (f_name f) (VBool b)))) ->
  travels pre f post.
Proof.
  intros Es Ev Ec Er. exists (int_wire (Z.b2z b)). split; [rewrite Es; apply produces_send|].
  intros s Hi. rewrite Er. eapply received_value; [done|done|done|apply reads_bool|done].
Qed.

Lemma travels_int rd :
  @send_field hs fs c f = protocol_send_int (get_int c (f_name f)) -> value_of f = VInt (get_int c (f_name f)) ->
  charge f = 0 -> reads rd (int_wire (get_int c (f_name f))) (get_int c (f_name f)) ->
  (forall s, recv_field s f = (v <~ rd; io_ret (set_member s (f_name f) (VInt v)))) ->
  travels pre f post.
Proof.
  intros Es Ev Ec Hr Er. exists (int_wire (get_int c (f_name f))). split; [rewrite Es; apply produces_send|].
  intros s Hi. rewrite Er. by eapply received_value.
Qed.

Lemma travels_str v (g : list byte -> value) :
  @send_field hs fs c f = protocol_send_str (Some v) -> charge f = str_charge v -> str_ok v -> value_of f = g v ->
  (forall s, recv_field s f = (r <~ config_receive_str s; let '(x, s) := r in io_ret (set_member s (f_name f) (g x)))) ->
  travels pre f post.
Proof.
  intros Es Ec Hs Ev Er. exists (str_wire v). split; [rewrite Es; apply produces_str|].
  intros s Hi. rewrite Er. by eapply received_str.
Qed.

Lemma travels_raw w sg : f_kind f = RAW w sg -> travels pre f post.
Proof.
  intros Ek. unfold field_ok, field_dep in Hok, Hdep. rewrite Ek in Hok, Hdep.
  exists (put_le w (get_int c (f_name f))). unfold received, send_field, recv_field. rewrite Ek.
  split; [apply produces_send|]. intros s Hi.
  eapply received_value; [done|done|by unfold field_charge; rewrite Ek| |by unfold wire_value; rewrite Ek].
  rewrite <- (raw_value_mod w sg (get_int c (f_name f)) Hdep Hok) at 2. apply (reads_map _ (raw_value w sg)), reads_raw.
Qed.

Lemma travels_max_alloc : f_kind f = RAW_MAXALLOC -> travels pre f post.
Proof.
  intros Ek. unfold field_ok in Hok. rewrite Ek in Hok. destruct Hok as [Hz Hl].
  exists (put_le 8 (get_int c (f_name f))). unfold received, send_field, recv_field. rewrite Ek.
  split; [apply produces_send|]. intros s Hi. unfold config_receive_max_alloc. eexists. split.
  { eapply reads_last; [apply reads_raw|]. apply consumes_ret. }
  change (8 * Z.of_nat 8) with 64. rewrite Z.mod_small by done.
  assert (Hlim : forall z, z = 0 \/ MAX_STRING_SIZE < z ->
            MAX_STRING_SIZE < if (z =? 0) || (z >? MAX_SERVER_ALLOC) then MAX_SERVER_ALLOC else z).
  { intros z Hz'. destruct (Z.eqb_spec z 0), (Z.gtb_spec z MAX_SERVER_ALLOC); simpl; try by vm_compute. lia. }
  pose proof (inv_set pre f post s _ Hi Hf (or_intror (Hlim _ Hl))) as H'.
  unfold wire_value, field_charge in H'. rewrite Ek, Z.add_0_r in H'. exact H'.
Qed.

Lemma travels_module : f_kind f = STR_MODULE -> travels pre f post.
Proof.
  intros Ek. unfold field_ok, field_dep in Hok, Hdep. rewrite Ek in Hok, Hdep.
  set (v := str_or_empty (get_str c (f_name f))) in *. exists (str_wire v). unfold received, send_field, recv_field.
  rewrite Ek. split; [apply produces_str|]. intros s Hi.
  assert (Hs : str_ok v) by (destruct Hok as [->|[_ ?]]; [split; [done|set_solver]|done]).
  assert (Hc : charge f = str_charge v) by (unfold field_charge; by rewrite Ek).
  pose proof (inv_room _ _ _ _ Hi) as Hr. rewrite Hc in Hr. unfold config_receive_module.
  eexists. split; [eapply reads_last; [by apply reads_str|]; cbn beta iota|].
  - assert (Hv : negb (bool_decide (v = [])) && negb (daemon_module_name_valid (Some v)) = false).
    { case_bool_decide as Hn; [done|]. destruct Hok as [|[Hv _]]; [done|]. subst v.
      destruct (get_str c (f_name f)); [simpl in *; by rewrite Hv|done]. }
    rewrite Hv. instantiate (1 := if bool_decide (v = []) then charged s (charge f)
      else set_member (charged s (charge f)) (f_name f) (VStr (Some v))).
    rewrite Hc. case_bool_decide; simpl; apply consumes_ret.
  - assert (Ev : value_of f = VStr (empty_to_null v)) by (unfold wire_value; by rewrite Ek).
    unfold empty_to_null in Ev. case_bool_decide as Hn.
    + apply inv_keep; [done|]. by rewrite Hdep, Ev.
    + rewrite <- Ev. by apply (inv_set pre f post s (r_limit s) Hi Hf (i_limit _ _ _ _ _ Hi)).
Qed.

Lemma travels_auth : f_kind f = STR_REDACTED_AUTH -> travels pre f post.
Proof.
  intros Ek. unfold field_ok, field_dep in Hok, Hdep. rewrite Ek in Hok, Hdep. destruct Hdep as [En Ed].
  unfold travels, received, send_field, recv_field. rewrite Ek. unfold config_send_auth_user. rewrite <- En.
  set (v := str_or_empty (get_str c (f_name f))) in *.
  assert (Ev : value_of f = VStr (empty_to_null v)) by (unfold wire_value; by rewrite Ek).
  assert (Hc : charge f = if bool_decide (v = []) then 0 else str_charge v) by (unfold field_charge; by rewrite Ek).
  unfold empty_to_null in Ev. unfold config_receive_auth_user. case_bool_decide as Hn.
  - exists (int_wire 0). split; [rewrite <- (app_nil_r (int_wire 0)); apply produces_bind; [apply produces_send|apply produces_ret]|].
    intros s Hi. exists s. split; [eapply reads_last; [by apply reads_where|]; apply consumes_ret|].
    pose proof (inv_keep pre f post s Hi) as H'. rewrite Ed, Ev, Hc, charged_0 in H'. by apply H'.
  - exists (int_wire 1 ++ str_wire v). split; [apply produces_bind; [apply produces_send|apply produces_str]|].
    intros s Hi. destruct Hok as [|[Hv Hs]]; [done|]. pose proof (inv_room _ _ _ _ Hi) as Hr. rewrite Hc in Hr.
    eexists. split.
    + eapply reads_bind; [by apply reads_where|]. cbn beta iota. change (1 =? 0) with false. cbn iota.
      eapply reads_last; [by apply reads_str|]. cbn beta iota. eapply reads_then; [apply consumes_check|apply consumes_ret].
      unfold v in *. destruct (get_str c (f_name f)); [done|by simpl in *].
    + rewrite <- Ev, <- Hc. by apply (inv_set pre f post s (r_limit s) Hi Hf (i_limit _ _ _ _ _ Hi)).
Qed.

Lemma travels_copy_as_id : f_kind f = COPY_AS_ID -> travels pre f post.
Proof.
  intros Ek. unfold field_ok, field_dep in Hok, Hdep. rewrite Ek in Hok, Hdep.
  unfold travels, received, send_field, recv_field. rewrite Ek.
  assert (Hget : forall s, inv pre (f :: post) s -> get_bool (r_cfg s) "copy_as_set" = get_bool c "copy_as_set").
  { intros s Hi. pose proof (i_pre _ _ _ _ _ Hi _ (proj2 Hdep)) as E. unfold get_bool at 1. simpl in E. by rewrite E. }
  assert (Hc : charge f = 0) by (unfold field_charge; by rewrite Ek).
  assert (Ev : value_of f = if get_bool c "copy_as_set" then VInt (get_int c (f_name f)) else f_default f)
    by (unfold wire_value; by rewrite Ek).
  destruct (get_bool c "copy_as_set"); simpl.
  - exists (int_wire (get_int c (f_name f))). split; [apply produces_send|]. intros s Hi. rewrite Hget by done. simpl.
    specialize (Hok eq_refl). eapply received_value; [done|done|done| |done].
    apply reads_where; [split; lia|]. destruct (Z.ltb_spec (get_int c (f_name f)) 0); done || lia.
  - exists []. split; [apply produces_ret|]. intros s Hi. rewrite Hget by done. simpl. exists s. split; [apply consumes_ret|].
    pose proof (inv_keep pre f post s Hi Ev) as H'. by rewrite Hc, charged_0 in H'.
Qed.

Lemma travels_xattr : f_kind f = BOOL_XATTR_DERIVE -> travels pre f post.
Proof.
  intros Ek. exists (int_wire (Z.b2z (get_bool c (f_name f)))). unfold received, send_field, recv_field. rewrite Ek.
  split; [apply produces_send|]. intros s Hi. eexists. split.
  - eapply reads_last; [apply reads_bool|]. apply consumes_ret.
  - apply inv_other; [|destruct Hf as [_ Hx]; intros g Hg; apply Hx; set_solver].
    pose proof (inv_set pre f post s (r_limit s) Hi Hf (i_limit _ _ _ _ _ Hi)) as H'.
    unfold wire_value, field_charge in H'. by rewrite Ek, Z.add_0_r in H'.
Qed.

(** An array block whose count came before it. *)
Lemma received_block {A} (l : list A) (wire : A -> list byte) (g : A -> A) (ch : A -> Z) (val : list A -> value)
    (rd : rstate -> io (A * rstate)) sz s :
  inv pre (f :: post) s -> charge f = zsum (ch <$> l) -> (forall a, 0 <= ch a) ->
  value_of f = val (g <$> l) -> f_default f = val [] -> 0 <= sz <= 1024 -> zlen l <= 256 ->
  (forall a s, a ∈ l -> room s (ch a) -> reads (rd s) (wire a) (g a, charged s (ch a))) ->
  exists s',
    reads (if zlen l <=? 0 then io_ret s
           else io_check (malloc_ok (zlen l * sz)) >~
                r <~ receive_each rd (Z.to_nat (zlen l)) s;
                let '(x, s) := r in io_ret (set_member s (f_name f) (val x)))
      (concat (wire <$> l)) s' /\ inv (f :: pre) post s'.
Proof.
  intros Hi Hc Hp Ev Ed Hsz Hl Hrd. pose proof (zlen_nonneg l). destruct (Z.leb_spec (zlen l) 0) as [Hz|Hz].
  - destruct l as [|a l]; [|rewrite zlen_cons in Hz; pose proof (zlen_nonneg l); lia].
    exists s. split; [apply consumes_ret|]. pose proof (inv_keep pre f post s Hi) as H'.
    rewrite Hc, Ev, Ed, charged_0 in H'. by apply H'.
  - pose proof (inv_room _ _ _ _ Hi) as Hr. rewrite Hc in Hr. eexists. split.
    + eapply reads_then; [apply consumes_check, Hh; nia|]. rewrite Z2Nat_zlen.
      eapply reads_last; [apply (reads_each Hh rd wire g ch); [done|auto|done]|]. apply consumes_ret.
    + cbn beta iota. rewrite <- Ev, <- Hc. by apply (inv_set pre f post s (r_limit s) Hi Hf (i_limit _ _ _ _ _ Hi)).
Qed.

Lemma travels_skip : f_kind f = BLOCK_SKIP_SUFFIXES -> travels pre f post.
Proof.
  intros Ek. unfold field_ok, field_dep in Hok, Hdep. rewrite Ek in Hok, Hdep.
  destruct Hdep as (En&Ed&Hin), Hok as (Hcnt&Hz&Hs). rewrite Forall_forall in Hs.
  set (l := get_strs c (f_name f)) in *. exists (concat (str_wire <$> l)). unfold received, send_field, recv_field. rewrite Ek. split.
  - unfold send_skip_compress_suffixes. rewrite Hcnt, <- En. fold l.
    eapply produces_of; [apply first_cells_all|]. apply produces_each. intros a _. apply produces_str.
  - intros s Hi. unfold receive_skip_compress_suffixes. pose proof (i_pre _ _ _ _ _ Hi _ Hin) as E. simpl in E.
    assert (Eg : get_int (r_cfg s) "skip_compress_count" = zlen l) by (unfold get_int at 1; rewrite E; exact Hcnt).
    rewrite Eg, <- En. apply (received_block l str_wire id str_charge VStrs config_receive_str 8 s);
      [done|by unfold field_charge; rewrite Ek|apply str_charge_nonneg| |done|lia|exact Hz|].
    + unfold wire_value. rewrite Ek. by rewrite list_fmap_id.
    + intros a s' Ha Hr. apply reads_str; [done|by apply Hs|done].
Qed.

Lemma travels_idmap n : f_kind f = BLOCK_IDMAP n -> travels pre f post.
Proof.
  intros Ek. unfold field_ok, field_dep in Hok, Hdep. rewrite Ek in Hok, Hdep.
  destruct Hdep as (Ed&Hin), Hok as (Hcnt&Hz&Hs). rewrite Forall_forall in Hs. unfold MAX_IDENTITY_MAP in Hz.
  set (l := get_ids c (f_name f)) in *. exists (concat (id_wire <$> l)). unfold received, send_field, recv_field. rewrite Ek. split.
  - unfold send_identity_entries. rewrite Hcnt. fold l.
    eapply produces_of; [apply first_cells_all|]. apply produces_each. intros a _. unfold send_identity, id_wire.
    do 3 (apply produces_bind; [apply produces_send|]). apply produces_str.
  - intros s Hi. unfold receive_identity_entries. pose proof (i_pre _ _ _ _ _ Hi _ Hin) as E. simpl in E.
    assert (Eg : get_int (r_cfg s) n = zlen l) by (unfold get_int at 1; rewrite E; exact Hcnt). rewrite Eg.
    apply (received_block l id_wire id_received (fun m => str_charge (str_or_empty (to_name m))) VIds receive_identity 24 s);
      [done|by unfold field_charge; rewrite Ek|intros; apply str_charge_nonneg| |done|lia|lia|].
    + unfold wire_value. by rewrite Ek.
    + intros a s' Ha Hr. apply reads_identity; [done|by apply Hs|done].
Qed.

Lemma travels_basis : f_kind f = BLOCK_BASIS -> travels pre f post.
Proof.
  intros Ek. unfold field_ok, field_dep in Hok, Hdep. rewrite Ek in Hok, Hdep.
  destruct Hdep as (En&Ed&Hin), Hok as (Hcnt&Hz&Hs).
  set (l := get_basis c (f_name f)) in *. exists (concat (basis_wire <$> l)). unfold received, send_field, recv_field. rewrite Ek. split.
  - unfold send_basis_entries. rewrite Hcnt, <- En. fold l.
    eapply produces_of; [apply first_cells_all|]. apply produces_each. intros a _.
    apply produces_bind; [apply produces_send|apply produces_str].
  - intros s Hi. unfold receive_basis_entries. pose proof (i_pre _ _ _ _ _ Hi _ Hin) as E. simpl in E.
    assert (Eg : get_int (r_cfg s) "basis_count" = zlen l) by (unfold get_int at 1; rewrite E; exact Hcnt).
    rewrite Eg, Z2Nat_zlen. pose proof (inv_room _ _ _ _ Hi) as Hr.
    assert (Hc : charge f = zsum ((fun b => str_charge (snd b)) <$> l)) by (unfold field_charge; by rewrite Ek).
    assert (Es : set_member s "basis_count" (VInt 0) = MkR (with_basis (r_cfg s) []) (r_used s) (r_limit s)).
    { unfold set_member, with_basis. f_equal. f_equal. symmetry. apply insert_id. rewrite <- En, <- Ed.
      apply (i_post _ _ _ _ _ Hi). set_solver. }
    rewrite Es. eexists. split; [apply (reads_basis Hh l [] (r_cfg s)); [done|exact Hz|]|].
    { rewrite Hc in Hr. exact Hr. }
    rewrite <- Hc. cbn [app].
    pose proof (inv_set pre f post s (r_limit s) Hi Hf (i_limit _ _ _ _ _ Hi)) as H'.
    assert (Ev : value_of f = VBasis l) by (unfold wire_value; by rewrite Ek).
    rewrite Ev, En in H'. unfold with_basis. rewrite insert_id; [exact H'|].
    rewrite lookup_insert_ne by done. rewrite E. simpl. by rewrite <- Hcnt.
Qed.

Lemma travels_rules : f_kind f = BLOCK_PROTECT_RULES -> travels pre f post.
Proof.
  intros Ek. unfold field_ok, field_dep in Hok, Hdep. rewrite Ek in Hok, Hdep.
  destruct Hdep as (En&Ed), Hok as (Hz&Hs&Hb). pose proof (zlen_nonneg rules). unfold MAX_FILTER_RULES in Hz.
  assert (Hc : charge f = zsum ((fun r => rule_bytes r + 2) <$> rules)) by (unfold field_charge; by rewrite Ek).
  exists (int_wire (zlen rules) ++ concat (rule_wire <$> rules)). unfold received, send_field, recv_field. rewrite Ek. split.
  - unfold send_protect_entries. eapply produces_of; [exact Hrl|]. apply produces_check.
    { unfold MAX_FILTER_RULES. destruct (Z.ltb_spec (zlen rules) 0), (Z.gtb_spec (zlen rules) 1024); simpl; done || lia. }
    apply produces_bind; [apply produces_send|]. apply produces_each. intros r Hr.
    rewrite Forall_forall in Hs. destruct (Hs r Hr) as (_&_&_&_&_&Hpl).
    unfold send_rule, rule_wire. apply produces_check.
    { destruct (Z.gtb_spec (zlen (str_or_empty (pattern r))) MAX_PROTECT_PATTERN_LEN); done || lia. }
    do 5 (apply produces_bind; [apply produces_send|]). apply produces_bind; apply produces_str.
  - intros s Hi. pose proof (inv_room _ _ _ _ Hi) as Hr. rewrite Hc in Hr. unfold receive_protect_entries.
    assert (Hcount : reads (receive_int_where (fun v => negb ((v <? 0) || (v >? MAX_FILTER_RULES)))) (int_wire (zlen rules)) (zlen rules)).
    { apply reads_where; [split; lia|]. unfold MAX_FILTER_RULES.
      destruct (Z.ltb_spec (zlen rules) 0), (Z.gtb_spec (zlen rules) 1024); simpl; done || lia. }
    destruct (decide (rules = [])) as [E0|E0].
    + exists s. split; [eapply reads_bind; [exact Hcount|]; rewrite E0; apply consumes_ret|].
      assert (Hc0 : charge f = 0) by by rewrite Hc, E0.
      assert (Ev : value_of f = f_default f) by (unfold wire_value; by rewrite Ek, E0, Ed).
      pose proof (inv_keep pre f post s Hi Ev) as H'. by rewrite Hc0, charged_0 in H'.
    + eexists. split.
      * eapply reads_bind; [exact Hcount|]. cbn beta.
        destruct (Z.eqb_spec (zlen rules) 0) as [E|_]; [by destruct rules; [done|rewrite zlen_cons in E; pose proof (zlen_nonneg l); lia]|].
        eapply reads_then; [apply reads_of; unfold filter_rule_list_create; by rewrite Hh|].
        rewrite Z2Nat_zlen. eapply reads_last; [apply (reads_rules Hh rules 0 [] 0 s); [done|lia|exact Hb|lia|exact Hz|exact Hr]|].
        apply consumes_ret.
      * cbn beta iota. rewrite <- Hc, <- En. pose proof (inv_set pre f post s (r_limit s) Hi Hf (i_limit _ _ _ _ _ Hi)) as H'.
        assert (Ev : value_of f = VRules (Some (MkList ([] ++ (rule_received <$> rules)) (grow_to (length rules) 0 0) [] 0))).
        { unfold wire_value. rewrite Ek. by destruct rules. }
        rewrite Ev in H'. exact H'.
Qed.

(** A bounded integer kind. *)
Lemma travels_where p :
  @send_field hs fs c f = protocol_send_int (get_int c (f_name f)) -> value_of f = VInt (get_int c (f_name f)) ->
  charge f = 0 -> int_range (get_int c (f_name f)) -> p (get_int c (f_name f)) = true ->
  (forall s, recv_field s f = (v <~ receive_int_where p; io_ret (set_member s (f_name f) (VInt v)))) ->
  travels pre f post.
Proof. intros Es Ev Ec Hz Hp Er. eapply travels_int; [done|done|done|by apply reads_where|done]. Qed.

Lemma not_outside lo hi z : lo <= z <= hi -> negb ((z <? lo) || (z >? hi)) = true.
Proof. intros Hz. destruct (Z.ltb_spec z lo), (Z.gtb_spec z hi); simpl; done || lia. Qed.

Lemma algo_range z : checksum_algo_valid z = true \/ compression_algo_valid z = true -> 0 <= z <= 6.
Proof.
  unfold checksum_algo_valid, compression_algo_valid, COMPRESSION_ALGO_NONE, COMPRESSION_ALGO_ZSTD, COMPRESSION_ALGO_LZ4,
    COMPRESSION_ALGO_ZLIB, COMPRESSION_ALGO_ZLIBX. rewrite !orb_true_iff, !Z.eqb_eq. lia.
Qed.

Local Ltac by_kind Ek := intros; unfold send_field, wire_value, field_charge, recv_field; rewrite Ek; reflexivity.
Local Ltac bounded_kind Ek Hok :=
  unfold field_ok in Hok; rewrite Ek in Hok;
  eapply travels_where; [by_kind Ek|by_kind Ek|by_kind Ek| | |by_kind Ek].

(** Every kind of member travels. *)
Lemma travels_field : travels pre f post.
Proof.
  destruct (f_kind f) as [| | |w sg| | | | | | | | | | | | | | | | | | | |n|] eqn:Ek;
    try (apply (travels_bool (get_bool c (f_name f))); by_kind Ek);
    try (apply (travels_bool (get_bool c (f_name f) && negb (get_bool c "whole_file"))); by_kind Ek);
    eauto using travels_raw, travels_max_alloc, travels_module, travels_auth, travels_copy_as_id, travels_xattr,
      travels_skip, travels_basis, travels_idmap, travels_rules.
  - unfold field_ok in Hok. rewrite Ek in Hok. apply (travels_int protocol_receive_int);
      [by_kind Ek|by_kind Ek|by_kind Ek|by apply reads_i32|by_kind Ek].
  - unfold field_ok in Hok. rewrite Ek in Hok. destruct Hok as [Hn Hs]. destruct (get_str c (f_name f)) as [v|] eqn:Ev; [|done].
    apply (travels_str v (fun x => VStr (Some x)));
      [unfold send_field; by rewrite Ek, Ev|unfold field_charge; by rewrite Ek, Ev|done|unfold wire_value; by rewrite Ek, Ev|by_kind Ek].
  - unfold field_ok in Hok. rewrite Ek in Hok.
    apply (travels_str (str_or_empty (get_str c (f_name f))) (fun x => VStr (empty_to_null x))); [by_kind Ek|by_kind Ek|done|by_kind Ek|by_kind Ek].
  - unfold field_ok in Hok. rewrite Ek in Hok.
    apply (travels_str (str_or_empty (get_str c (f_name f))) (fun x => VStr (Some x))); [by_kind Ek|by_kind Ek|done|by_kind Ek|by_kind Ek].
  - bounded_kind Ek Hok; [|done]. pose proof (algo_range _ (or_introl Hok)). unfold int_range. lia.
  - bounded_kind Ek Hok; [|done]. pose proof (algo_range _ (or_intror Hok)). unfold int_range. lia.
  - bounded_kind Ek Hok; [unfold int_range, SUPER_MODE_AUTO, SUPER_MODE_OFF in *; lia|by apply not_outside].
  - bounded_kind Ek Hok; unfold int_range, IDENTITY_MATCH_ANY in *; [lia|].
    destruct (Z.ltb_spec (get_int c (f_name f)) (-1)); [lia|done].
  - bounded_kind Ek Hok; [unfold int_range, MAX_SKIP_COMPRESS_SUFFIXES in *; lia|by apply not_outside].
  - bounded_kind Ek Hok; [unfold int_range, MAX_BASIS_DIRS in *; lia|by apply not_outside].
  - bounded_kind Ek Hok; [unfold int_range, MAX_IDENTITY_MAP in *; lia|by apply not_outside].
Qed.
End Kinds.

(** ** The whole table *)

Lemma travels_fields pre fields :
  names_ok (pre ++ fields) -> deps pre fields -> Forall (field_ok c rules) fields ->
  exists m, produces (@send_fields hs fs c fields) m /\
    forall s, inv pre fields s -> exists s', reads (recv_fields fields s) m s' /\ inv (rev fields ++ pre) [] s'.
Proof.
  revert pre. induction fields as [|f fields IH]; intros pre Hn Hd Hok.
  - exists []. split; [apply produces_ret|]. intros s Hi. exists s. split; [apply consumes_ret|done].
  - destruct Hd as [Hf Hd]. apply Forall_cons in Hok as [Hok1 Hok].
    destruct (travels_field pre fields f (names_fresh _ _ _ Hn) Hf Hok1) as (m1&Hp1&Hr1).
    destruct (IH (f :: pre) (names_swap _ _ _ Hn) Hd Hok) as (m2&Hp2&Hr2).
    exists (m1 ++ m2). split; [by apply produces_bind|]. intros s Hi.
    destruct (Hr1 s Hi) as (s1&Hs1&Hi1). destruct (Hr2 s1 Hi1) as (s2&Hs2&Hi2). exists s2.
    split; [eapply reads_bind; [exact Hs1|exact Hs2]|]. simpl. by rewrite <- app_assoc.
Qed.
End Step.

(** ** The frame *)

Lemma reads_ext {A} (f g : io A) m a : (forall w, f w = g w) -> reads f m a -> reads g m a.
Proof. intros E Hf w rest k Hw. rewrite <- E. by apply Hf. Qed.
Lemma produces_ext (f g : io unit) m : (forall w, f w = g w) -> produces f m -> produces g m.
Proof. intros E Hf w k Hk Hw. rewrite <- E. by apply Hf. Qed.

Lemma recv_segments_concat {h : Heap} segments s w : recv_fields (concat segments) s w = recv_segments segments s w.
Proof.
  revert s w. induction segments as [|l segments IH]; intros s w; [done|]. cbn [concat recv_segments].
  revert s w. induction l as [|f l IHl]; intros s w; cbn [app recv_fields].
  - unfold io_bind, io_ret. apply IH.
  - unfold io_bind at 1 2 3. destruct (recv_field s f w) as [w' [s'| |]]; [|done..]. by rewrite IHl.
Qed.
Lemma send_segments_concat {h : Heap} fs c segments w :
  send_fields fs c (concat segments) w = send_each (send_fields fs c) segments w.
Proof.
  revert w. induction segments as [|l segments IH]; intros w; [done|]. cbn [concat send_each]. unfold send_fields at 1 2.
  revert w. induction l as [|f l IHl]; intros w; cbn [app send_each].
  - unfold io_bind, io_ret. apply IH.
  - unfold io_bind at 1 2 3. destruct (send_field fs c f w) as [w' [s'| |]]; [|done..]. by rewrite IHl.
Qed.

Lemma wire_names : names_ok wire_fields.
Proof.
  split.
  - apply (bool_decide_unpack _). vm_compute. exact I.
  - apply (bool_decide_unpack _). vm_compute. exact I.
Qed.

(** Membership in a concrete table. *)
Ltac in_table := repeat first [apply list_elem_of_here|apply list_elem_of_further].

Lemma wire_deps : deps [] wire_fields.
Proof. repeat split; try exact I; try (apply Nat.lt_0_succ); in_table. Qed.

Lemma defaults_lookup : Forall (fun f => config_defaults !! f_name f = Some (f_default f) /\ f_name f <> "version") wire_fields.
Proof. repeat (apply Forall_cons; split; [split; [vm_compute; reflexivity|discriminate]|]). apply Forall_nil. done. Qed.

(** The budget the strings of a frame use up: the version, then the members. *)
Definition frame_charge (c : Config) (rules : list FilterRule) : Z :=
  str_charge PROTOCOL_VERSION + zsum (field_charge c rules <$> wire_fields).

Lemma version_ok : str_ok PROTOCOL_VERSION.
Proof. split; [by vm_compute|]. apply (bool_decide_unpack _). vm_compute. exact I. Qed.

(** C5: a configuration crosses the wire unchanged.  Let every member be one the
    table lets a sender transmit and the strings fit the receiver's budget of
    1 MiB.  On connections that stay up, [config_send_wire_block] sends the
    header and all members, and the peer, starting from the defaults, reads
    exactly those bytes and ends with every member of the table as sent: a flag,
    a number, a string (an optional one normalized to NULL when empty), the
    arrays with their counts, and the rule list the sender compiled; only the
    allocation ceiling is clamped, the delta flag is the effective one, and a
    rule's [perishable] mark does not cross. *)
Theorem config_wire_roundtrip (hs h : Heap) fs c rl limit
    (Hheap : serves h) (Hlimit : limit = 0 \/ MAX_STRING_SIZE < limit)
    (Hversion : get_str c "version" = Some PROTOCOL_VERSION)
    (Hrules : @compiled_rules hs fs c = Ret rl)
    (Hok : Forall (field_ok c (items rl)) wire_fields)
    (Hroom : frame_charge c (items rl) <= MAX_CONFIG_STRING_BYTES) :
  exists m s, produces (@config_send_wire_block hs fs c) m /\
    consumes (receive_frame (MkR config_defaults 0 limit)) m s id /\
    forall f, f ∈ wire_fields -> r_cfg s !! f_name f = Some (wire_value c (items rl) f).
Proof.
  destruct (travels_fields Hheap fs c rl Hrules [] wire_fields wire_names wire_deps Hok) as (m&Hp&Hr).
  set (s1 := MkR (<["version" := VStr (Some PROTOCOL_VERSION)]> config_defaults) (str_charge PROTOCOL_VERSION) limit).
  destruct (Hr s1) as (s2&Hs2&Hi2).
  { pose proof defaults_lookup as Hd. rewrite Forall_forall in Hd. split; subst s1; cbn [r_cfg r_used r_limit].
    - by intros f []%not_elem_of_nil.
    - intros f Hf. destruct (Hd f Hf) as [E Hn]. by rewrite lookup_insert_ne.
    - apply str_charge_nonneg.
    - exact Hroom.
    - done. }
  exists (str_wire PROTOCOL_VERSION ++ m), s2. split_and!.
  - unfold config_send_wire_block. rewrite Hversion. apply produces_bind; [apply produces_str|].
    eapply produces_ext; [|exact Hp]. intros w. apply send_segments_concat.
  - unfold receive_frame. eapply reads_bind; [|eapply reads_ext; [|exact Hs2]; intros w; apply recv_segments_concat].
    unfold receive_header. eapply reads_last; [apply reads_str; [done|apply version_ok|]|].
    + split_and!; cbn [r_used r_limit]; [done|by vm_compute|done].
    + cbn beta iota. assert (E : strcmp PROTOCOL_VERSION PROTOCOL_VERSION =? 0 = true) by (by vm_compute).
      rewrite E. apply consumes_ret.
  - intros f Hf. apply (i_pre _ _ _ _ _ Hi2). rewrite app_nil_r. by rewrite list_elem_of_In, <- in_rev, <- list_elem_of_In.
Qed.

(** A client that backs up into a daemon module, with a basis directory, an id
    map and two filter rules. *)
Definition demo_config : Config :=
  <["send_directory" := VStr (Some (cs "/home"))]> (<["receive_root_directory" := VStr (Some (cs "backup"))]> (
  <["module" := VStr (Some (cs "nightly"))]> (<["auth_user" := VStr (Some (cs "backup"))]> (
  <["max_alloc" := VInt 0]> (<["use_delta" := VBool true]> (<["use_incremental" := VBool true]> (
  <["basis_count" := VInt 1]> (<["basis_dirs" := VBasis [(BASIS_DEST_LINK, cs "/srv/old")]]> (
  <["usermap_count" := VInt 1]> (<["usermap" := VIds [MkIdMap 1000 1999 0 (Some (cs "root"))]]> (
  <["skip_compress_count" := VInt 1]> (<["skip_compress_suffixes" := VStrs [cs "gz"]]> (
  <["filters" := VStrs [cs "- *.o"; cs "protect keep/"]]> config_defaults))))))))))))).
Definition demo_rules : FilterRuleList :=
  MkList [MkRule FILTER_ACTION_EXCLUDE 3 false false false false None (Some (cs "*.o"));
          MkRule FILTER_ACTION_EXCLUDE 2 false true false false None (Some (cs "keep"))] 8 [] 0.
Definition no_files : list byte -> option (list byte) := fun _ => None.

#[local] Instance int_range_dec z : Decision (int_range z) := _.
#[local] Instance str_ok_dec s : Decision (str_ok s) := _.
#[local] Instance canonical_entry_dec b : Decision (canonical_entry b) := _.
#[local] Instance identity_ok_dec m : Decision (identity_ok m) := _.
#[local] Instance rule_ok_dec r : Decision (rule_ok r) := _.
#[local] Instance field_ok_dec c rules f : Decision (field_ok c rules f).
Proof. unfold field_ok. destruct (f_kind f); try apply _. destruct signed; apply _. Defined.

Lemma config_wire_roundtrip_witness :
  exists m s, produces (@config_send_wire_block heap0 no_files demo_config) m /\
    consumes (@receive_frame heap0 (MkR config_defaults 0 0)) m s id /\
    r_cfg s !! "module" = Some (VStr (Some (cs "nightly"))) /\
    r_cfg s !! "max_alloc" = Some (VInt MAX_SERVER_ALLOC) /\
    r_cfg s !! "basis_dirs" = Some (VBasis [(BASIS_DEST_LINK, cs "/srv/old")]).
Proof.
  destruct (config_wire_roundtrip heap0 heap0 no_files demo_config demo_rules 0) as (m&s&Hp&Hc&Hv).
  - intros n _. reflexivity.
  - left. reflexivity.
  - vm_compute. reflexivity.
  - vm_compute. reflexivity.
  - apply (bool_decide_unpack _). vm_compute. exact I.
  - vm_compute. discriminate.
  - exists m, s. split; [exact Hp|]. split; [exact Hc|].
    split; [|split].
    + apply (Hv (X "module" NULL STR_MODULE)). in_table.
    + apply (Hv (X "max_alloc" (VInt DEFAULT_MAX_ALLOC) RAW_MAXALLOC)). in_table.
    + apply (Hv (X "basis_dirs" (VBasis []) BLOCK_BASIS)). in_table.
Defined.
