(* ===== verification/ConfigTyped.v ===== *)
(** What a receiver can rely on: whatever bytes a peer sends as a configuration
    frame, the members of a configuration that was read have their types, the
    arrays their counts, and the retained strings their budget. *)

From stdpp Require Import gmap strings.
From S2P Require Import Prelude Alloc DataBuf CStr Paths Basis FilterParse FilterRules Transport Session Wp Names ConfigWire ConfigTrip.

#[local] Open Scope string_scope.
#[local] Open Scope list_scope.
#[local] Open Scope Z_scope.

Definition bool_member (c : Config) (n : string) : Prop := exists b, c !! n = Some (VBool b).
Definition int_member (c : Config) (n : string) (P : Z -> Prop) : Prop := exists z, c !! n = Some (VInt z) /\ P z.
Definition str_member (c : Config) (n : string) (P : option (list byte) -> Prop) : Prop :=
  exists s, c !! n = Some (VStr s) /\ P s.

Definition no_str_or (P : list byte -> Prop) (s : option (list byte)) : Prop :=
  match s with None => True | Some s => s <> [] /\ P s end.
Definition identity_received (m : IdentityMap) : Prop := identity_ok m /\ to_name m <> Some [].
Definition rule_retained (r : FilterRule) : Prop :=
  rule_ok r /\ FilterParse.owner r <> None /\ pattern r <> None.

(** A received member, by kind. *)
Definition typed (c : Config) (f : field) : Prop :=
  let n := f_name f in
  match f_kind f with
  | BOOL | BOOL_8BIT | BOOL_XATTR_DERIVE | COPY_AS_PRESENCE | DERIVED_DELTA => bool_member c n
  | INT => int_member c n int_range
  | INT_CHECKSUM_ALGO => int_member c n (fun z => checksum_algo_valid z = true)
  | INT_COMPRESSION_ALGO => int_member c n (fun z => compression_algo_valid z = true)
  | SUPERMODE => int_member c n (fun z => SUPER_MODE_AUTO <= z <= SUPER_MODE_OFF)
  | INT_IDENTITY => int_member c n (fun z => IDENTITY_MATCH_ANY <= z < 2 ^ 31)
  | INT_SKIPCOUNT => int_member c n (fun z => 0 <= z <= MAX_SKIP_COMPRESS_SUFFIXES)
  | INT_BASISCOUNT => int_member c n (fun z => 0 <= z <= MAX_BASIS_DIRS)
  | INT_IDMAPCOUNT => int_member c n (fun z => 0 <= z <= MAX_IDENTITY_MAP)
  | RAW width signed =>
      int_member c n (fun z => if signed : bool then - 2 ^ (8 * Z.of_nat width - 1) <= z < 2 ^ (8 * Z.of_nat width - 1)
                               else 0 <= z < 2 ^ (8 * Z.of_nat width))
  | RAW_MAXALLOC => int_member c n (fun z => 0 < z <= MAX_SERVER_ALLOC)
  | STR | STR_KEEP => str_member c n (fun s => exists v, s = Some v /\ str_ok v)
  | STR_OPT => str_member c n (no_str_or str_ok)
  | STR_MODULE => str_member c n (no_str_or (fun v => daemon_module_name_valid (Some v) = true))
  | STR_REDACTED_AUTH => str_member c n (no_str_or (fun v => credentials_username_valid (Some v) = true))
  | COPY_AS_ID => int_member c n (fun z => 0 <= z < 2 ^ 31)
  | BLOCK_SKIP_SUFFIXES => exists l, c !! n = Some (VStrs l) /\ get_int c "skip_compress_count" = zlen l /\ Forall str_ok l
  | BLOCK_BASIS => exists l, c !! n = Some (VBasis l) /\ get_int c "basis_count" = zlen l /\
                             zlen l <= MAX_BASIS_DIRS /\ Forall canonical_entry l
  | BLOCK_IDMAP count => exists l, c !! n = Some (VIds l) /\ get_int c count = zlen l /\ Forall identity_received l
  | BLOCK_PROTECT_RULES =>
      exists r, c !! n = Some (VRules r) /\
        match r with
        | None => True
        | Some l => 0 < zlen (items l) <= MAX_FILTER_RULES /\ Forall rule_retained (items l) /\
                    zsum (rule_bytes <$> items l) <= MAX_FILTER_BYTES
        end
  end.

(** The bytes of the strings a member keeps, each with its terminator *)
Definition opt_bytes (s : option (list byte)) : Z := match s with Some s => zlen s + 1 | None => 0 end.
Definition basis_cost (b : Z * list byte) : Z := zlen (snd b) + 1.
Definition identity_cost (m : IdentityMap) : Z := opt_bytes (to_name m).
Definition rule_cost (r : FilterRule) : Z := opt_bytes (FilterParse.owner r) + opt_bytes (pattern r).
Definition value_bytes (v : value) : Z :=
  match v with
  | VBool _ | VInt _ => 0
  | VStr s => opt_bytes s
  | VStrs l => zsum ((fun s => zlen s + 1) <$> l)
  | VBasis l => zsum (basis_cost <$> l)
  | VIds l => zsum (identity_cost <$> l)
  | VRules r => match r with Some l => zsum (rule_cost <$> items l) | None => 0 end
  end.
Definition member_bytes (c : Config) (n : string) : Z := match c !! n with Some v => value_bytes v | None => 0 end.
(** All strings of the members of the frame *)
Definition kept_bytes (c : Config) : Z := zsum ((fun f => member_bytes c (f_name f)) <$> CONFIG_WIRE_FIELDS).

Lemma zsum_perm l k : l ≡ₚ k -> zsum l = zsum k.
Proof. induction 1; cbn [zsum]; lia. Qed.

(** The count member a block refers to. *)
Definition count_of (k : kind) : option string :=
  match k with
  | BLOCK_SKIP_SUFFIXES => Some "skip_compress_count"
  | BLOCK_BASIS => Some "basis_count"
  | BLOCK_IDMAP count => Some count
  | _ => None
  end.

Lemma typed_agree c c' f :
  c' !! f_name f = c !! f_name f -> (forall n, count_of (f_kind f) = Some n -> c' !! n = c !! n) ->
  typed c f -> typed c' f.
Proof.
  intros Hn Hc. unfold typed, bool_member, int_member, str_member, get_int. rewrite Hn.
  destruct (f_kind f); try done; rewrite (Hc _ eq_refl); done.
Qed.

(** [pre] has been received, [post] still has its defaults. *)
Record tinv (pre post : list field) (s : rstate) : Prop := {
  t_pre : forall f, f ∈ pre -> typed (r_cfg s) f;
  t_dep : forall f n, f ∈ pre -> count_of (f_kind f) = Some n -> n ∈ (f_name <$> pre);
  t_post : forall f, f ∈ post -> r_cfg s !! f_name f = Some (f_default f);
  t_used : 0 <= r_used s <= MAX_CONFIG_STRING_BYTES;
  t_kept : zsum ((fun f => member_bytes (r_cfg s) (f_name f)) <$> pre) <= r_used s;
  t_version : "version" ∈ (f_name <$> pre) /\ r_cfg s !! "version" = Some (VStr (Some PROTOCOL_VERSION));
}.

(** Same members except that of [f]. *)
Definition agrees_but (n : string) (c c' : Config) : Prop := forall m, m <> n -> c' !! m = c !! m.

Lemma tinv_step pre f post s s' :
  tinv pre (f :: post) s -> names_ok (pre ++ f :: post) -> field_dep pre f ->
  (forall n, n ∈ (f_name <$> pre ++ post) -> r_cfg s' !! n = r_cfg s !! n) ->
  0 <= r_used s' <= MAX_CONFIG_STRING_BYTES -> r_used s + member_bytes (r_cfg s') (f_name f) <= r_used s' ->
  typed (r_cfg s') f -> tinv (f :: pre) post s'.
Proof.
  intros [Hp Hd Ho Hu Hk [Hv1 Hv2]] Hnames Hdep Hag Hu' Hcost Ht. rewrite fmap_app in Hag.
  assert (Hcount : forall n, count_of (f_kind f) = Some n -> n ∈ (f_name <$> pre)).
  { intros n Hn. unfold field_dep in Hdep. destruct (f_kind f); try done; injection Hn as <-;
      repeat match goal with H : _ /\ _ |- _ => destruct H end;
      match goal with H : X ?k _ _ ∈ pre |- _ => exact (list_elem_of_fmap_2 f_name pre _ H) end. }
  assert (Hsame : (fun f => member_bytes (r_cfg s') (f_name f)) <$> pre = (fun f => member_bytes (r_cfg s) (f_name f)) <$> pre).
  { apply list_fmap_ext. intros i g Hg%list_elem_of_lookup_2. unfold member_bytes. rewrite Hag; [done|]. apply elem_of_app. left. by apply list_elem_of_fmap_2. }
  split; [| | |done|rewrite fmap_cons, Hsame; cbn [zsum]; lia|split; [rewrite fmap_cons; set_solver|rewrite Hag; [done|set_solver]]].
  - intros g [->|Hg]%elem_of_cons; [done|]. apply (typed_agree (r_cfg s)); [..|by apply Hp].
    + apply Hag. apply elem_of_app. left. by apply list_elem_of_fmap_2.
    + intros n Hn. apply Hag. apply elem_of_app. left. by apply (Hd g).
  - intros g n [->|Hg]%elem_of_cons Hn; rewrite fmap_cons; apply elem_of_cons; right; [by apply Hcount|by apply (Hd g)].
  - intros g Hg. rewrite Hag; [apply Ho; set_solver|]. apply elem_of_app. right. by apply list_elem_of_fmap_2.
Qed.

Section Typed.
Context {h : Heap}.

(** The budget and the configuration are as they should be after reading
    strings. *)
Definition used_ok (s : rstate) : Prop := 0 <= r_used s <= MAX_CONFIG_STRING_BYTES.
Definition strings_read (n : Z) (s s' : rstate) : Prop := r_cfg s' = r_cfg s /\ used_ok s' /\ r_used s + n <= r_used s'.

Lemma gives_where p : gives (receive_int_where p) (fun v => int_range v /\ p v = true).
Proof. g_step gives_receive_int as v Hv. g_step gives_check as _ Hp. by apply gives_ret. Qed.

Lemma gives_wire_bool : gives receive_wire_bool (fun _ => True).
Proof. g_step gives_where as v _. by apply gives_ret. Qed.

Lemma gives_str s :
  used_ok s -> gives (config_receive_str s) (fun r => str_ok (fst r) /\ strings_read (zlen (fst r) + 1) s (snd r)).
Proof.
  intros Hu. g_step (@gives_receive_str (with_limit h (r_limit s))) as v [Hl Hn].
  eapply gives_bind; [apply (gives_of _ (fun s' => strings_read (zlen v + 1) s s'))|].
  - unfold config_string_budget_charge. pose proof (zlen_nonneg v). unfold used_ok, MAX_CONFIG_STRING_BYTES in *.
    destruct (Z.gtb_spec (zlen v + 1) (1024 * 1024)); [done|].
    destruct (Z.gtb_spec (r_used s) (1024 * 1024 - (zlen v + 1))); [done|]. simpl. split; [done|].
    unfold used_ok, MAX_CONFIG_STRING_BYTES. simpl. rewrite !u64_small by lia. lia.
  - intros s' Hs'. apply gives_ret. by split.
Qed.

Lemma strings_read_trans n m k s s' s'' : strings_read n s s' -> strings_read m s' s'' -> k <= n + m -> strings_read k s s''.
Proof. intros (E1&_&H1) (E2&H2&H3) Hk. unfold strings_read. split_and!; [congruence|apply H2..|lia]. Qed.
Lemma strings_read_refl s : used_ok s -> strings_read 0 s s.
Proof. intros Hu. unfold strings_read. split_and!; [done|apply Hu..|lia]. Qed.
Lemma strings_read_less n k s s' : strings_read n s s' -> k <= n -> strings_read k s s'.
Proof. intros (E1&H1&H2) Hk. unfold strings_read. split_and!; [done|apply H1..|lia]. Qed.

Lemma gives_each {A} (f : rstate -> io (A * rstate)) (P : A -> Prop) (cost : A -> Z) n s :
  (forall s, used_ok s -> gives (f s) (fun r => P (fst r) /\ strings_read (cost (fst r)) s (snd r))) -> used_ok s ->
  gives (receive_each f n s) (fun r => length (fst r) = n /\ Forall P (fst r) /\ strings_read (zsum (cost <$> fst r)) s (snd r)).
Proof.
  intros Hf. revert s. induction n as [|n IH]; intros s Hu; cbn [receive_each].
  - apply gives_ret. split_and!; [done|constructor|by apply strings_read_refl].
  - g_step Hf as [a s1] [Ha Hs1]; [done|]. simpl in Ha, Hs1. g_step IH as [l s2] (Hl&HF&Hs2); [apply Hs1|].
    simpl in Hl, HF, Hs2. apply gives_ret. simpl. split_and!; [by rewrite Hl|by constructor|by eapply strings_read_trans; [..|reflexivity]].
Qed.

Lemma empty_to_null_spec (P : list byte -> Prop) v : P v -> no_str_or P (empty_to_null v).
Proof. intros Hv. unfold empty_to_null. by case_bool_decide. Qed.

Lemma gives_identity s :
  used_ok s -> gives (receive_identity s) (fun r => identity_received (fst r) /\ strings_read (identity_cost (fst r)) s (snd r)).
Proof.
  intros Hu. unfold receive_identity. g_step gives_receive_int as a Ha. g_step gives_receive_int as b Hb.
  g_step gives_receive_int as t Ht. g_step gives_str as [v s'] [Hv Hs]; [done|]. simpl in Hv, Hs.
  apply gives_ret. split; [|apply (strings_read_less _ _ _ _ Hs); unfold identity_cost, empty_to_null; pose proof (zlen_nonneg v); simpl; case_bool_decide; simpl; lia].
  simpl. unfold identity_received, identity_ok, empty_to_null. simpl.
  case_bool_decide; simpl; split; [split_and!; try done; split; [by vm_compute|set_solver]|done|done|congruence].
Qed.

Lemma normalize_owp p : owp (basis_path_normalize (Some p)) (fun r => basis_path_ok p /\ r = canonical p).
Proof. destruct (normalize_any p) as [-> | [Hp ->]]; [done|by split]. Qed.

Lemma canonical_no_nul p : Byte.x00 ∉ p -> Byte.x00 ∉ canonical p.
Proof.
  intros Hn. unfold canonical. rewrite elem_of_app. intros [Hin|Hin].
  - unfold lead in Hin. destruct (char_is p 0 slash); set_solver.
  - assert (Hs : forall s cur, Byte.x00 ∉ s -> Byte.x00 ∉ cur -> Forall (fun t => Byte.x00 ∉ t) (split_slash s cur)).
    { induction s as [|c s IH]; intros cur Hs Hc; simpl; [by repeat constructor|].
      case_bool_decide; [constructor; [done|]|]; apply IH; set_solver. }
    assert (Hp : Forall (fun t => Byte.x00 ∉ t) (parts p)).
    { apply Forall_forall. intros t [_ [_ Ht]%list_elem_of_filter]%list_elem_of_filter.
      specialize (Hs p [] Hn ltac:(set_solver)). rewrite Forall_forall in Hs. by apply Hs. }
    revert Hin. induction Hp as [|t l Ht Hl IH]; [set_solver|]. destruct l as [|u l]; [done|].
    change (slash_join (t :: u :: l)) with (t ++ slash :: slash_join (u :: l)). rewrite elem_of_app, elem_of_cons.
    intros [?|[?|?]]; [done|discriminate|by apply IH].
Qed.

Lemma canonical_entry_of type p :
  1 <= type <= 3 -> str_ok p -> basis_path_ok p -> canonical_entry (type, canonical p).
Proof.
  intros Ht [Hl Hn] Hok. pose proof (canonical_size p). unfold canonical_entry, str_ok. simpl.
  split_and!; [apply Ht|apply Ht|lia|by apply canonical_no_nul|by apply canonical_ok..|apply canonical_idem].
Qed.

Lemma gives_basis s cfg l :
  r_cfg s = with_basis cfg l -> Forall canonical_entry l -> used_ok s ->
  gives (receive_basis s) (fun s' => used_ok s' /\ exists b, r_used s + basis_cost b <= r_used s' /\ canonical_entry b /\ zlen l < MAX_BASIS_DIRS /\
                                       r_cfg s' = with_basis cfg (l ++ [b])).
Proof.
  intros Ec Hl Hu. unfold receive_basis. g_step gives_where as type [_ Ht].
  g_step gives_str as [p s1] [Hp (E1&Hu1&Hpaid)]; [done|]. simpl in *.
  eapply gives_bind; [apply (gives_of _ (fun c => exists b, r_used s + basis_cost b <= r_used s1 /\ canonical_entry b /\ zlen l < MAX_BASIS_DIRS /\ c = with_basis cfg (l ++ [b])))|].
  - rewrite E1, Ec. unfold config_basis_append.
    assert (Eg1 : get_int (with_basis cfg l) "basis_count" = zlen l) by (unfold get_int, with_basis; by simplify_map_eq).
    assert (Eg2 : get_basis (with_basis cfg l) "basis_dirs" = l) by (unfold get_basis, with_basis; by simplify_map_eq).
    rewrite Eg1, Eg2. wp_check Hc. wp_bind. eapply owp_mono; [apply normalize_owp|]. intros r [Hok ->].
    wp_check Hm. rewrite first_cells_all. simpl.
    exists (type, canonical p). rewrite negb_true_iff, orb_false_iff in Hc, Ht. unfold MAX_BASIS_DIRS, BASIS_DEST_NONE, BASIS_DEST_LINK in *.
    destruct (Z.leb_spec type 0), (Z.gtb_spec type 3), (Z.geb_spec (zlen l) 64); try (by destruct Ht) || (by destruct Hc).
    split_and!; [unfold basis_cost; simpl; pose proof (canonical_size p); lia|apply canonical_entry_of; [lia|done|done]|done|].
    rewrite <- (with_basis_twice cfg l (l ++ [_])). unfold with_basis at 2. rewrite zlen_app. done.
  - intros c (b&Hcost&Hb&Hz&->). apply gives_ret. split; [done|]. by exists b.
Qed.

Lemma gives_basis_loop n s cfg l :
  r_cfg s = with_basis cfg l -> Forall canonical_entry l -> zlen l <= MAX_BASIS_DIRS -> used_ok s ->
  gives (repeat_io receive_basis n s) (fun s' => used_ok s' /\ exists k, Forall canonical_entry k /\
    length k = (length l + n)%nat /\ zlen k <= MAX_BASIS_DIRS /\ r_cfg s' = with_basis cfg k /\
    r_used s + zsum (basis_cost <$> k) <= r_used s' + zsum (basis_cost <$> l)).
Proof.
  revert s l. induction n as [|n IH]; intros s l Ec Hl Hz Hu; cbn [repeat_io].
  - apply gives_ret. split; [done|]. exists l. split_and!; [done|lia|done|done|lia].
  - g_step (gives_basis s cfg l) as s1 (Hu1&b&Hcost&Hb&Hz1&E1); [done..|].
    eapply gives_mono; [apply (IH s1 (l ++ [b])); [done| | |done]|].
    + apply Forall_app. by split; [|constructor].
    + rewrite zlen_app. change (zlen [b]) with 1. lia.
    + intros s2 (Hu2&k&Hk&Hlen&Hz2&E2&Hpaid). split; [done|]. exists k. split_and!; [done| |done|done|].
      * rewrite Hlen, length_app. simpl. lia.
      * rewrite fmap_app, zsum_app in Hpaid. simpl in Hpaid. lia.
Qed.

(** The rules read so far. *)
Definition rules_ok (bytes : Z) (l : FilterRuleList) : Prop :=
  Forall rule_retained (items l) /\ bytes = zsum (rule_bytes <$> items l) /\ 0 <= bytes <= MAX_FILTER_BYTES.

Lemma rule_add_owp l r :
  owp (filter_rule_list_add l r) (fun x => snd x = true -> items (fst x) = items l ++ [r]).
Proof.
  unfold filter_rule_list_add.
  repeat match goal with |- context [if ?b then _ else _] => destruct b end; simpl; done.
Qed.

Lemma gives_rule bytes l s :
  rules_ok bytes l -> used_ok s ->
  gives (receive_rule bytes l s) (fun x => let '(bytes', l', s') := x in
    rules_ok bytes' l' /\ length (items l') = S (length (items l)) /\
    strings_read (zsum (rule_cost <$> items l') - zsum (rule_cost <$> items l)) s s').
Proof.
  intros (HF&Hb&Hr) Hu. unfold receive_rule. g_step gives_where as a [_ Ha]. g_step gives_where as sd [_ Hsd].
  g_step gives_wire_bool as an _. g_step gives_wire_bool as di _. g_step gives_wire_bool as ne _.
  g_step gives_str as [o s1] [Ho Hs1]; [done|]. simpl in Ho, Hs1.
  g_step gives_str as [p s2] [Hp Hs2]; [apply Hs1|]. simpl in Hp, Hs2.
  g_step gives_check as _ Hn. g_step gives_check as _ Hl. g_step gives_check as _ Hby. g_step gives_check as _ _.
  set (act := if a =? _ then _ else _).
  set (r := MkRule act sd an di ne false (Some o) (Some p)).
  eapply gives_bind; [apply gives_of, rule_add_owp|]. intros [l' ok] Hadd. simpl in Hadd.
  g_step gives_check as _ Hk. specialize (Hadd Hk). apply gives_ret.
  rewrite negb_true_iff, bool_decide_eq_false in Hn.
  change (Z.lor FILTER_SIDE_SENDER FILTER_SIDE_RECEIVER) with 3 in Hsd. unfold FILTER_SIDE_SENDER in Hsd.
  rewrite negb_true_iff, orb_false_iff in Hsd. destruct Hsd as [Hsd1 Hsd2].
  destruct (Z.ltb_spec sd 1), (Z.gtb_spec sd 3); try done.
  destruct (Z.gtb_spec (zlen p) MAX_PROTECT_PATTERN_LEN) as [|Hpl]; [done|].
  pose proof (zlen_nonneg o). pose proof (zlen_nonneg p). assert (Hpaid : zsum (rule_cost <$> items l') - zsum (rule_cost <$> items l) <= (zlen o + 1) + (zlen p + 1)) by (rewrite Hadd, fmap_app, zsum_app; simpl; unfold rule_cost; simpl; lia).
  destruct Ho as [Ho1 Ho2], Hp as [Hp1 Hp2].
  unfold MAX_STRING_SIZE, MAX_FILTER_BYTES in *. rewrite !u64_small in Hby by lia.
  destruct (Z.gtb_spec (zlen o + zlen p) (256 * 1024 - bytes)) as [|Hle]; [done|].
  assert (Hret : rule_retained r).
  { subst r. unfold rule_retained, rule_ok. simpl. split_and!; try done. subst act. destruct (_ =? _); auto. }
  split_and!; [|rewrite Hadd, length_app; simpl; lia|by eapply (strings_read_trans _ _ _ _ _ _ Hs1 Hs2)].
  unfold rules_ok, MAX_FILTER_BYTES. rewrite !u64_small by (rewrite ?u64_small by lia; lia).
  rewrite Hadd, fmap_app, zsum_app. split_and!; [apply Forall_app; split; [done|by constructor]| |lia|lia].
  simpl. unfold rule_bytes at 2. simpl. lia.
Qed.

Lemma gives_rules n bytes l s :
  rules_ok bytes l -> used_ok s ->
  gives (receive_rules n bytes l s) (fun x => let '(l', s') := x in
    (exists bytes', rules_ok bytes' l') /\ length (items l') = (length (items l) + n)%nat /\
    strings_read (zsum (rule_cost <$> items l') - zsum (rule_cost <$> items l)) s s').
Proof.
  revert bytes l s. induction n as [|n IH]; intros bytes l s Hl Hu; cbn [receive_rules].
  - apply gives_ret. split_and!; [by exists bytes|lia|]. apply (strings_read_less 0); [by apply strings_read_refl|lia].
  - g_step (gives_rule bytes l s) as [[b1 l1] s1] (Hl1&Hlen&Hs1); [done..|].
    eapply gives_mono; [apply IH; [done|apply Hs1]|]. intros [l2 s2] (He&Hlen2&Hs2).
    split_and!; [done|lia|eapply (strings_read_trans _ _ _ _ _ _ Hs1 Hs2); lia].
Qed.

Lemma gives_reject {A} detail (P : A -> Prop) : gives (reject detail) P.
Proof.
  eapply (gives_bind _ _ (fun _ => True)); [|intros; apply gives_fail]. intros w. unfold ignoring.
  pose proof (gives_error_detail (Some detail) w) as He. by destruct (send_error_detail _ w) as [w' [[]| |]].
Qed.

(** ** One member *)

Section Member.
Context (pre post : list field) (f : field) (s : rstate).
Context (Hi : tinv pre (f :: post) s) (Hn : names_ok (pre ++ f :: post)) (Hd : field_dep pre f).

Lemma member_default : r_cfg s !! f_name f = Some (f_default f).
Proof. apply (t_post _ _ _ Hi). set_solver. Qed.

Lemma tinv_used : used_ok s.
Proof. apply (t_used _ _ _ Hi). Qed.

(** The member is assigned. *)
Lemma tinv_assign s' v :
  strings_read (value_bytes v) s s' -> typed (<[f_name f := v]> (r_cfg s)) f -> tinv (f :: pre) post (set_member s' (f_name f) v).
Proof.
  intros (Ec&Hu&Hp) Ht. pose proof (names_fresh _ _ _ Hn) as [Hf _].
  apply (tinv_step pre f post s); [done..| |done|unfold member_bytes; simpl; by rewrite lookup_insert_eq|by simpl; rewrite Ec].
  intros n (g&->&Hg)%list_elem_of_fmap_1. simpl. rewrite Ec. apply lookup_insert_ne. intros E. by apply (Hf g).
Qed.
(** The member keeps its default. *)
Lemma tinv_unchanged n s' : strings_read n s s' -> 0 <= n -> value_bytes (f_default f) = 0 -> typed (r_cfg s) f -> tinv (f :: pre) post s'.
Proof.
  intros (Ec&Hu&Hp) H0 Hz Ht. apply (tinv_step pre f post s); [done..| |done| |by rewrite Ec].
  - by rewrite Ec.
  - unfold member_bytes. rewrite Ec, member_default, Hz. lia.
Qed.
Lemma tinv_default : value_bytes (f_default f) = 0 -> typed (r_cfg s) f -> tinv (f :: pre) post s.
Proof. intros Hz Ht. by apply (tinv_unchanged 0); [apply strings_read_refl, tinv_used|..]. Qed.

Lemma count_member count P :
  X count (VInt 0) INT_SKIPCOUNT ∈ pre /\ P = MAX_SKIP_COMPRESS_SUFFIXES \/
  X count (VInt 0) INT_BASISCOUNT ∈ pre /\ P = MAX_BASIS_DIRS \/
  X count (VInt 0) INT_IDMAPCOUNT ∈ pre /\ P = MAX_IDENTITY_MAP ->
  r_cfg s !! count = Some (VInt (get_int (r_cfg s) count)) /\ 0 <= get_int (r_cfg s) count <= P.
Proof.
  intros [[Hc ->]|[[Hc ->]|[Hc ->]]]; apply (t_pre _ _ _ Hi) in Hc; unfold typed in Hc; simpl in Hc;
    destruct Hc as (z&E&Hz); unfold get_int; by rewrite E.
Qed.

Lemma lookup_other n v : n <> f_name f -> <[f_name f := v]> (r_cfg s) !! n = r_cfg s !! n.
Proof. intros Hne. by apply lookup_insert_ne. Qed.
Lemma get_int_other n v : n <> f_name f -> get_int (<[f_name f := v]> (r_cfg s)) n = get_int (r_cfg s) n.
Proof. intros Hne. unfold get_int. by rewrite lookup_other. Qed.
Lemma pre_name g : g ∈ pre -> f_name g <> f_name f.
Proof. intros Hg. apply (names_fresh _ _ _ Hn). set_solver. Qed.

(** Kinds that assign one value. *)
Lemma gives_value {A} (m : io A) (g : A -> value) (P : A -> Prop) :
  gives m P -> (forall a, value_bytes (g a) = 0) -> (forall a, P a -> typed (<[f_name f := g a]> (r_cfg s)) f) ->
  gives (x <~ m; io_ret (set_member s (f_name f) (g x))) (tinv (f :: pre) post).
Proof.
  intros Hm Hg Ht. eapply gives_bind; [exact Hm|]. intros a Ha. apply gives_ret.
  apply tinv_assign; [rewrite Hg; apply strings_read_refl, tinv_used|by apply Ht].
Qed.
Lemma gives_string (g : list byte -> value) :
  (forall v, value_bytes (g v) <= zlen v + 1) -> (forall v, str_ok v -> typed (<[f_name f := g v]> (r_cfg s)) f) ->
  gives (r <~ config_receive_str s; let '(x, s') := r in io_ret (set_member s' (f_name f) (g x))) (tinv (f :: pre) post).
Proof.
  intros Hg Ht. g_step gives_str as [v s'] [Hv Hs]; [apply tinv_used|]. simpl in *. apply gives_ret.
  apply tinv_assign; [by apply (strings_read_less _ _ _ _ Hs)|by apply Ht].
Qed.

(** Array kinds whose count came before. *)
Lemma gives_block {A} count (rd : rstate -> io (A * rstate)) (P : A -> Prop) (val : list A -> value) (cost : A -> Z) sz :
  (forall s, used_ok s -> gives (rd s) (fun r => P (fst r) /\ strings_read (cost (fst r)) s (snd r))) ->
  (forall l, value_bytes (val l) = zsum (cost <$> l)) ->
  0 <= count -> f_default f = val [] ->
  (forall c l, c !! f_name f = Some (val l) -> zlen l = count -> Forall P l ->
     (forall n, n <> f_name f -> c !! n = r_cfg s !! n) -> typed c f) ->
  gives (if count <=? 0 then io_ret s
         else io_check (malloc_ok (count * sz)) >~
              r <~ receive_each rd (Z.to_nat count) s;
              let '(x, s') := r in io_ret (set_member s' (f_name f) (val x))) (tinv (f :: pre) post).
Proof.
  intros Hrd Hval Hc Ed Ht. destruct (Z.leb_spec count 0) as [Hz|Hz].
  - apply gives_ret, tinv_default; [by rewrite Ed, Hval|].
    apply (Ht _ []); [rewrite <- Ed; apply member_default|change (zlen []) with 0; lia|constructor|done].
  - g_step gives_check as _ _. g_step (gives_each rd P cost) as [l s'] (Hl&HF&Hs); [done|apply tinv_used|].
    simpl in *. apply gives_ret, tinv_assign; [by rewrite Hval|].
    apply (Ht _ l); [by rewrite lookup_insert_eq|unfold zlen; lia|done|]. intros n Hne. by apply lookup_insert_ne.
Qed.

Local Ltac at_kind Ek := unfold typed; rewrite Ek.
Local Ltac int_value := eexists; split; [by rewrite lookup_insert_eq|].
Lemma outside_not lo hi z : negb ((z <? lo) || (z >? hi)) = true -> lo <= z <= hi.
Proof. rewrite negb_true_iff, orb_false_iff. destruct (Z.ltb_spec z lo), (Z.gtb_spec z hi); intros []; done || lia. Qed.
Lemma not_below lo z : negb (z <? lo) = true -> lo <= z.
Proof. destruct (Z.ltb_spec z lo); done. Qed.

Lemma typed_module : f_kind f = STR_MODULE -> gives (config_receive_module s (f_name f)) (tinv (f :: pre) post).
Proof.
  intros Ek. pose proof Hd as Hdep. unfold field_dep in Hdep. rewrite Ek in Hdep. unfold config_receive_module.
  g_step gives_str as [v s'] [Hv Hs]; [apply tinv_used|]. simpl in Hv, Hs.
  destruct (negb (bool_decide (v = [])) && negb (daemon_module_name_valid (Some v))) eqn:E.
  - apply gives_reject.
  - case_bool_decide as Hv0; cbn [negb andb] in *.
    + apply gives_ret, (tinv_unchanged _ _ Hs); [pose proof (zlen_nonneg v); lia|by rewrite Hdep|]. at_kind Ek. exists None. split; [|done].
      rewrite member_default. by rewrite Hdep.
    + apply gives_ret, tinv_assign; [done|]. at_kind Ek. exists (Some v). rewrite lookup_insert_eq.
      rewrite negb_false_iff in E. done.
Qed.

Lemma typed_auth : f_kind f = STR_REDACTED_AUTH -> gives (config_receive_auth_user s (f_name f)) (tinv (f :: pre) post).
Proof.
  intros Ek. pose proof Hd as Hdep. unfold field_dep in Hdep. rewrite Ek in Hdep. destruct Hdep as [_ Ed]. unfold config_receive_auth_user.
  g_step gives_where as v _. destruct (v =? 0).
  - apply gives_ret, tinv_default; [by rewrite Ed|]. at_kind Ek. exists None. split; [|done].
    rewrite member_default. by rewrite Ed.
  - g_step gives_str as [u s'] [Hu Hs]; [apply tinv_used|]. simpl in *. g_step gives_check as _ Hc.
    apply gives_ret, tinv_assign; [done|]. at_kind Ek. exists (Some u). rewrite lookup_insert_eq.
    split; [done|]. split; [by intros ->|done].
Qed.

Lemma typed_basis : f_kind f = BLOCK_BASIS -> gives (receive_basis_entries s) (tinv (f :: pre) post).
Proof.
  intros Ek. pose proof Hd as Hdep. unfold field_dep in Hdep. rewrite Ek in Hdep. destruct Hdep as (En&Ed&Hin).
  destruct (count_member "basis_count" MAX_BASIS_DIRS) as [Ec Hc]; [auto|].
  set (count := get_int (r_cfg s) "basis_count") in *. unfold receive_basis_entries. fold count.
  assert (E0 : r_cfg (set_member s "basis_count" (VInt 0)) = with_basis (r_cfg s) []).
  { unfold with_basis, set_member. simpl. f_equal. symmetry. apply insert_id. rewrite <- En, <- Ed. apply member_default. }
  eapply gives_mono; [apply (gives_basis_loop _ _ _ _ E0); [constructor|by vm_compute|apply tinv_used]|].
  intros s' (Hu&k&Hk&Hlen&Hz&E&Hpaid). simpl in Hlen, Hpaid.
  assert (Hkc : zlen k = count) by (unfold zlen; lia).
  assert (Ew : with_basis (r_cfg s) k = <["basis_dirs" := VBasis k]> (r_cfg s)).
  { unfold with_basis. apply insert_id. rewrite lookup_insert_ne by done. by rewrite Hkc. }
  rewrite Ew in E. apply (tinv_step pre f post s); [done..| |done|unfold member_bytes; rewrite E, En, lookup_insert_eq; simpl; lia|].
  - intros n (g&->&Hg)%list_elem_of_fmap_1. rewrite E, <- En. apply lookup_insert_ne.
    intros Eg. by apply (names_fresh _ _ _ Hn) in Hg.
  - at_kind Ek. exists k. rewrite E, En, lookup_insert_eq. split_and!; [done| |done|done].
    unfold get_int. rewrite lookup_insert_ne by done. rewrite Ec. by symmetry.
Qed.

Lemma typed_rules : f_kind f = BLOCK_PROTECT_RULES -> gives (receive_protect_entries s) (tinv (f :: pre) post).
Proof.
  intros Ek. pose proof Hd as Hdep. unfold field_dep in Hdep. rewrite Ek in Hdep. destruct Hdep as (En&Ed). unfold receive_protect_entries.
  g_step gives_where as count [_ Hc]. apply outside_not in Hc. destruct (Z.eqb_spec count 0).
  - apply gives_ret, tinv_default; [by rewrite Ed|]. at_kind Ek. exists None. split; [|done].
    rewrite member_default. by rewrite Ed.
  - eapply gives_bind; [apply (gives_of _ (fun l => items l = []))|].
    { unfold filter_rule_list_create. by destruct (malloc_ok _). }
    intros l El. g_step (gives_rules (Z.to_nat count) 0 l s) as [l' s'] ((b&HF&->&Hb)&Hlen&Hs);
      [unfold rules_ok; rewrite El; split_and!; [constructor|done|done|by vm_compute]|apply tinv_used|].
    apply gives_ret. rewrite <- En. apply tinv_assign; [apply (strings_read_less _ _ _ _ Hs); rewrite El; simpl; lia|]. at_kind Ek. exists (Some l').
    rewrite lookup_insert_eq. split; [done|]. rewrite El in Hlen. simpl in Hlen. split_and!; [unfold zlen; lia..|done|apply Hb].
Qed.

Lemma raw_value_range w sg z :
  (0 < w)%nat -> 0 <= z < 2 ^ (8 * Z.of_nat w) ->
  if sg : bool then - 2 ^ (8 * Z.of_nat w - 1) <= raw_value w sg z < 2 ^ (8 * Z.of_nat w - 1)
  else 0 <= raw_value w sg z < 2 ^ (8 * Z.of_nat w).
Proof.
  intros Hw Hz. unfold raw_value. destruct sg; simpl; [|done]. set (k := 8 * Z.of_nat w - 1) in *.
  replace (8 * Z.of_nat w) with (k + 1) in * by lia. rewrite Z.pow_add_r in * by lia.
  destruct (Z.leb_spec (2 ^ k) z); lia.
Qed.

Lemma gives_raw w sg : f_kind f = RAW w sg ->
  gives (v <~ (z <~ recv_int w; io_ret (raw_value w sg z)); io_ret (set_member s (f_name f) (VInt v))) (tinv (f :: pre) post).
Proof.
  intros Ek. pose proof Hd as Hdep. unfold field_dep in Hdep. rewrite Ek in Hdep.
  eapply (gives_value _ VInt (fun v => if sg then - 2 ^ (8 * Z.of_nat w - 1) <= v < 2 ^ (8 * Z.of_nat w - 1)
                                       else 0 <= v < 2 ^ (8 * Z.of_nat w))).
  { g_step gives_recv_int as z Hz. apply gives_ret. exact (raw_value_range w sg z Hdep Hz). }
  { done. }
  intros z Hz. at_kind Ek. by int_value.
Qed.

Lemma gives_where_member p (P : Z -> Prop) :
  (forall z, int_range z -> p z = true -> P z) ->
  (forall c z, c !! f_name f = Some (VInt z) -> P z -> typed c f) ->
  gives (v <~ receive_int_where p; io_ret (set_member s (f_name f) (VInt v))) (tinv (f :: pre) post).
Proof.
  intros HP Ht. eapply (gives_value _ VInt); [apply gives_where|done|]. intros z [Hz Hp].
  apply (Ht _ z); [by rewrite lookup_insert_eq|by apply HP].
Qed.

Lemma gives_copy_as_id : f_kind f = COPY_AS_ID ->
  gives (if negb (get_bool (r_cfg s) "copy_as_set") then io_ret s
         else v <~ config_receive_copy_as_id; io_ret (set_member s (f_name f) (VInt v))) (tinv (f :: pre) post).
Proof.
  intros Ek. pose proof Hd as Hdep. unfold field_dep in Hdep. rewrite Ek in Hdep. destruct (negb _).
  - apply gives_ret, tinv_default; [by destruct Hdep as [-> _]|]. at_kind Ek. exists 0.
    rewrite member_default. by destruct Hdep as [-> _].
  - apply (gives_where_member _ (fun z => 0 <= z < 2 ^ 31)).
    + intros z [_ Hz] Hp%not_below. lia.
    + intros c z E Hz. at_kind Ek. by exists z.
Qed.

Lemma gives_max_alloc : f_kind f = RAW_MAXALLOC -> gives (config_receive_max_alloc s (f_name f)) (tinv (f :: pre) post).
Proof.
  intros Ek. unfold config_receive_max_alloc. g_step gives_recv_int as z Hz. apply gives_ret.
  match goal with |- context [MkR (<[_ := VInt ?x]> _) _ ?x] => set (v := x) end.
  apply (tinv_assign (MkR (r_cfg s) (r_used s) v) (VInt v)); [split_and!; [done|apply tinv_used..|simpl; lia]|]. at_kind Ek. int_value.
  subst v. unfold MAX_SERVER_ALLOC. destruct (Z.eqb_spec z 0), (Z.gtb_spec z (256 * 1024 * 1024)); simpl; lia.
Qed.

Lemma gives_xattr : f_kind f = BOOL_XATTR_DERIVE -> forall b,
  tinv (f :: pre) post (set_member (set_member s (f_name f) (VBool b)) "use_xattrs"
    (VBool (get_bool (r_cfg (set_member s (f_name f) (VBool b))) "preserve_acls" ||
            get_bool (r_cfg (set_member s (f_name f) (VBool b))) "preserve_xattrs"))).
Proof.
  intros Ek b. pose proof (names_fresh _ _ _ Hn) as [Hf Hx].
  apply (tinv_step pre f post s); [done..| |apply tinv_used| |].
  - intros n (g&->&Hg)%list_elem_of_fmap_1. simpl. rewrite !lookup_insert_ne; [done|..].
    + intros E. by apply (Hf g).
    + intros E. apply (Hx g); [set_solver|done].
  - unfold member_bytes. simpl. rewrite lookup_insert_ne, lookup_insert_eq; [simpl; lia|]. intros E. apply (Hx f); [set_solver|done].
  - at_kind Ek. exists b. simpl. rewrite lookup_insert_ne, lookup_insert_eq; [done|].
    intros E. apply (Hx f); [set_solver|done].
Qed.

Lemma gives_skip : f_kind f = BLOCK_SKIP_SUFFIXES -> gives (receive_skip_compress_suffixes s) (tinv (f :: pre) post).
Proof.
  intros Ek. pose proof Hd as Hdep. unfold field_dep in Hdep. rewrite Ek in Hdep. destruct Hdep as (En&Ed&Hin).
  destruct (count_member "skip_compress_count" MAX_SKIP_COMPRESS_SUFFIXES) as [Ec Hc]; [auto|].
  unfold receive_skip_compress_suffixes. rewrite <- En. apply (gives_block _ _ str_ok VStrs (fun s => zlen s + 1)); [apply gives_str|done|lia|done|].
  intros c l E Hl HF Ho. at_kind Ek. exists l. split_and!; [done| |done].
  unfold get_int. rewrite Ho by by rewrite En. by rewrite Ec.
Qed.

Lemma gives_idmap n : f_kind f = BLOCK_IDMAP n ->
  gives (receive_identity_entries s (f_name f) (get_int (r_cfg s) n)) (tinv (f :: pre) post).
Proof.
  intros Ek. pose proof Hd as Hdep. unfold field_dep in Hdep. rewrite Ek in Hdep. destruct Hdep as (Ed&Hin).
  destruct (count_member n MAX_IDENTITY_MAP) as [Ec Hc]; [auto|].
  unfold receive_identity_entries. apply (gives_block _ _ identity_received VIds identity_cost); [apply gives_identity|done|lia|done|].
  intros c l E Hl HF Ho. at_kind Ek. exists l. split_and!; [done| |done].
  unfold get_int. rewrite Ho by exact (pre_name _ Hin). by rewrite Ec.
Qed.

Lemma gives_field : gives (recv_field s f) (tinv (f :: pre) post).
Proof.
  unfold recv_field. destruct (f_kind f) as [| | |w sg| | | | | | | | | | | | | | | | | | | |n|] eqn:Ek;
    try (eapply gives_value; [apply gives_wire_bool|done|]; intros b _; at_kind Ek; by exists b; rewrite lookup_insert_eq);
    auto using typed_module, typed_auth, typed_basis, typed_rules, gives_raw, gives_max_alloc, gives_copy_as_id,
      gives_skip, gives_idmap.
  - eapply gives_value; [apply gives_receive_int|done|]. intros z Hz. at_kind Ek. by int_value.
  - apply (gives_string (fun v => VStr (Some v))); [intros v; simpl; lia|]. intros v Hv. at_kind Ek. int_value. by exists v.
  - apply (gives_string (fun v => VStr (empty_to_null v))); [intros v; simpl; unfold empty_to_null; pose proof (zlen_nonneg v); case_bool_decide; simpl; lia|]. intros v Hv. at_kind Ek. int_value. by apply empty_to_null_spec.
  - apply (gives_string (fun v => VStr (Some v))); [intros v; simpl; lia|]. intros v Hv. at_kind Ek. int_value. by exists v.
  - apply (gives_where_member _ (fun z => checksum_algo_valid z = true)); [done|]. intros c z E Hz. at_kind Ek. by exists z.
  - apply (gives_where_member _ (fun z => compression_algo_valid z = true)); [done|]. intros c z E Hz. at_kind Ek. by exists z.
  - apply (gives_where_member _ (fun z => SUPER_MODE_AUTO <= z <= SUPER_MODE_OFF)); [by intros z _ Hz%outside_not|].
    intros c z E Hz. at_kind Ek. by exists z.
  - apply (gives_where_member _ (fun z => IDENTITY_MATCH_ANY <= z < 2 ^ 31)); [by intros z [_ ?] Hz%not_below|].
    intros c z E Hz. at_kind Ek. by exists z.
  - apply (gives_where_member _ (fun z => 0 <= z <= MAX_SKIP_COMPRESS_SUFFIXES)); [by intros z _ Hz%outside_not|].
    intros c z E Hz. at_kind Ek. by exists z.
  - apply (gives_where_member _ (fun z => 0 <= z <= MAX_BASIS_DIRS)); [by intros z _ Hz%outside_not|].
    intros c z E Hz. at_kind Ek. by exists z.
  - apply (gives_where_member _ (fun z => 0 <= z <= MAX_IDENTITY_MAP)); [by intros z _ Hz%outside_not|].
    intros c z E Hz. at_kind Ek. by exists z.
  - g_step gives_wire_bool as b _. apply gives_ret. by apply gives_xattr.
Qed.
End Member.

Lemma gives_fields pre fields s :
  tinv pre fields s -> names_ok (pre ++ fields) -> deps pre fields ->
  gives (recv_fields fields s) (tinv (rev fields ++ pre) []).
Proof.
  revert pre s. induction fields as [|f fields IH]; intros pre s Hi Hn Hd; cbn [recv_fields].
  - by apply gives_ret.
  - destruct Hd as [Hf Hd]. g_step (gives_field pre fields f s) as s1 Hi1; [done..|].
    simpl. rewrite <- app_assoc. apply IH; [done|by apply names_swap|done].
Qed.

(** The frame, from the receiver's defaults. *)
Lemma frame_gives limit :
  gives (receive_frame (MkR config_defaults 0 limit)) (fun s =>
    get_str (r_cfg s) "version" = Some PROTOCOL_VERSION /\
    (forall f, f ∈ wire_fields -> typed (r_cfg s) f) /\ kept_bytes (r_cfg s) <= 1024 * 1024).
Proof.
  set (hdr := X "version" (VStr (Some PROTOCOL_VERSION)) STR).
  enough (Hg : gives (receive_frame (MkR config_defaults 0 limit)) (tinv (rev wire_fields ++ [hdr]) [])).
  { eapply gives_mono; [exact Hg|]. intros s [Hp _ _ Hu Hk [_ Hv]].
    assert (Hperm : kept_bytes (r_cfg s) = zsum ((fun f => member_bytes (r_cfg s) (f_name f)) <$> rev wire_fields ++ [hdr])).
    { unfold kept_bytes. apply zsum_perm. apply fmap_Permutation. change CONFIG_WIRE_FIELDS with ([hdr] ++ wire_fields).
      rewrite <- (Permutation_rev wire_fields). apply Permutation_app_comm. }
    split_and!; [unfold get_str; by rewrite Hv| |unfold MAX_CONFIG_STRING_BYTES in Hu; lia]. intros f Hf. apply Hp, elem_of_app. left.
    by rewrite list_elem_of_In, <- in_rev, <- list_elem_of_In. }
  unfold receive_frame. eapply (gives_bind _ _ (tinv [hdr] wire_fields)).
  - unfold receive_header. g_step gives_str as [v s] [Hv (Ec&Hu&Hpaid)]; [by split; vm_compute|]. simpl in Hv, Ec, Hu, Hpaid.
    destruct (Z.eqb_spec (strcmp v PROTOCOL_VERSION) 0) as [->%strcmp_eq|_]; [|apply gives_reject]. apply gives_ret.
    pose proof defaults_lookup as Hd. rewrite Forall_forall in Hd. split; simpl; rewrite ?Ec.
    + intros f ->%list_elem_of_singleton. exists (Some PROTOCOL_VERSION). rewrite lookup_insert_eq. split; [done|by exists PROTOCOL_VERSION].
    + by intros f n ->%list_elem_of_singleton.
    + intros f Hf. destruct (Hd f Hf) as [E Hne]. by rewrite lookup_insert_ne.
    + apply Hu.
    + unfold member_bytes. rewrite lookup_insert_eq. simpl. lia.
    + split; [set_solver|by rewrite lookup_insert_eq].
  - intros s Hs. eapply gives_mono; [intros w'; rewrite <- recv_segments_concat; apply gives_fields; [exact Hs| |]|done].
    + split; apply (bool_decide_unpack _); vm_compute; exact I.
    + repeat split; try exact I; try (apply Nat.lt_0_succ); in_table.
Qed.

(** C22: a configuration frame from an untrusted peer is always read safely into
    well-typed members.  Whatever the peer sends, on every schedule and with
    every allocator, reading the frame does not touch memory out of range; and
    when it succeeds the version is ours, every member of the table has its
    type and bounds, each array has exactly the cells its count says, every
    basis path is canonical and free of "..", every rule is one the matcher
    evaluates, and the strings the configuration keeps, added up over its members
    with their terminators, take at most 1 MiB. *)
Theorem config_frame_typed limit w :
  match snd (receive_frame (MkR config_defaults 0 limit) w) with
  | Ret s => get_str (r_cfg s) "version" = Some PROTOCOL_VERSION /\
             (forall f, f ∈ wire_fields -> typed (r_cfg s) f) /\ kept_bytes (r_cfg s) <= 1024 * 1024
  | Fail => True
  | Stuck => False
  end.
Proof. exact (frame_gives limit w). Qed.
End Typed.
