(* ===== verification/ConfigCheck.v ===== *)
(** The receiver's acceptance of a configuration, src/shared/config.c: the
    cross-field invariants, the field bounds, the negotiated codec, the
    validation callback of the server, and the acknowledgement; and the identity
    checks of src/shared/identity.c it calls. *)

From stdpp Require Import gmap strings.
From S2P Require Import Prelude Alloc DataBuf CStr Chmod Paths Basis FilterParse FilterRules Transport Session Wp Charset Names ConfigWire ConfigTrip ConfigTyped.

#[local] Open Scope string_scope.
#[local] Open Scope list_scope.
#[local] Open Scope Z_scope.

Definition MAX_CHUNK_SIZE : Z := 64 * 1024 * 1024.
Definition DELTA_BLOCK_SIZE_MIN : Z := 1024.
Definition DELTA_BLOCK_SIZE_MAX : Z := 65536.

(** config.c [config_has_valid_delete_timing], [config_has_basis] *)
Definition delete_timings (c : Config) : list bool :=
  [get_bool c "delete_before"; get_bool c "delete_during"; get_bool c "delete_delay"; get_bool c "delete_after"].
Definition config_has_valid_delete_timing (c : Config) : bool :=
  if negb (get_bool c "use_delete") then forallb negb (delete_timings c)
  else foldr (fun b n => (if b : bool then 1 else 0) + n) 0 (delete_timings c) <=? 1.
Definition config_has_basis (c : Config) : bool := get_int c "basis_count" >? 0.

(** identity.c [identity_wire_map_valid], [identity_wire_valid] *)
Definition identity_wire_map_valid (m : IdentityMap) : bool :=
  if id_from m <? IDENTITY_MATCH_UNNAMED then false
  else if (if id_from m <? 0 then negb (id_from_hi m =? id_from m) else id_from_hi m <? id_from m) then false
  else if id_to m <? IDENTITY_CURRENT then false
  else if match to_name m with Some n => zlen n >? 255 | None => false end then false
  else true.
Definition identity_wire_valid (c : Config) : outcome bool :=
  let bad n := (get_int c n <? 0) || (get_int c n >? MAX_IDENTITY_MAP) in
  if bad "usermap_count" || bad "groupmap_count" then Ret false
  else if get_bool c "chown_uid_set" && (get_int c "chown_uid" <? IDENTITY_MATCH_ANY) then Ret false
  else if get_bool c "chown_gid_set" && (get_int c "chown_gid" <? IDENTITY_MATCH_ANY) then Ret false
  else
    users ← first_cells (get_int c "usermap_count") (get_ids c "usermap");
    if negb (forallb identity_wire_map_valid users) then Ret false
    else
      groups ← first_cells (get_int c "groupmap_count") (get_ids c "groupmap");
      if negb (forallb identity_wire_map_valid groups) then Ret false
      else Ret (negb (get_bool c "copy_as_set" && ((get_int c "copy_as_uid" <? 0) || (get_int c "copy_as_gid" <? 0)))).

Section Check.
Context {h : Heap} {IC : Iconv}.
(** The process's umask, which a mode specification may consult. *)
Context (umask : Z).

(** config.c [config_invariants_error]: the clauses in order, each with its
    message *)
Definition metadata_wanted (c : Config) : bool :=
  get_bool c "preserve_perms" || get_bool c "preserve_times" || get_bool c "preserve_owner" || get_bool c "preserve_group"
  || get_bool c "preserve_atimes" || get_bool c "preserve_crtimes" || get_bool c "use_executability".
Definition invariant_clauses (c : Config) : list (bool * list byte) :=
  let b := get_bool c in
  let chunks := b "use_chunk_serialization" in
  let delta := b "use_delta" && negb (b "whole_file") in
  let appending := b "append" || b "append_verify" in
  [(config_has_basis c && chunks,
    cs "--compare-dest/--copy-dest/--link-dest require per-file incremental checks and cannot be combined with -s (chunk serialization)");
   (b "use_sendfile" && (chunks || b "use_compression"),
    cs "-f/--sendfile cannot be combined with -c (compression) or -s (chunk serialization)");
   (b "use_incremental" && chunks, cs "--incremental is not supported with -s (chunk serialization)");
   (b "skip_compress_set" && chunks, cs "--skip-compress cannot be combined with -s (chunk serialization)");
   (delta && negb (b "use_incremental"), cs "--delta requires --incremental");
   (delta && chunks, cs "--delta cannot be combined with -s (chunk serialization)");
   (delta && b "use_sendfile", cs "--delta cannot be combined with -f (sendfile)");
   (appending && chunks,
    cs "--append/--append-verify require the per-file incremental check and cannot be combined with -s (chunk serialization)");
   (appending && b "whole_file",
    cs "--append/--append-verify are incompatible with --whole-file (which forces a full transfer)");
   (b "preserve_hard_links" && chunks, cs "--hard-links/-H cannot be combined with -s (chunk serialization)");
   ((b "preserve_xattrs" || b "preserve_acls") && chunks,
    cs "--xattrs/-X and --acls/-A cannot be combined with -s (chunk serialization)");
   (b "preserve_hard_links" && appending, cs "--hard-links/-H cannot be combined with --append/--append-verify");
   (b "delay_updates" && b "inplace", cs "--delay-updates does not work with --inplace");
   (b "delay_updates" && delay_updates_staging_name_conflict (get_str c "backup_dir"),
    cs "--backup-dir is reserved when --delay-updates is active (used for the internal staging directory)");
   (negb (config_has_valid_delete_timing c),
    cs "--delete-before/--delete-during/--delete-delay/--delete-after select the delete timing; at most one may be given and each implies --delete");
   (match get_str c "iconv_spec" with Some s => negb (charset_spec_valid (Some s)) | None => false end,
    cs "--iconv requires LOCAL[,REMOTE] charset names supported by iconv");
   (metadata_wanted c && negb (b "use_metadata"), cs "a preservation attribute requires metadata transmission");
   (b "copy_as_set" && negb (b "use_metadata"),
    cs "--copy-as requires metadata preservation and cannot be combined with --no-preserve")].
Definition config_invariants_error (c : Config) : option (list byte) :=
  snd <$> List.find fst (invariant_clauses c).

(** config.c [config_derived_use_metadata]; [metadata_explicitly_disabled] is a
    member of the command-line part *)
Definition config_derived_use_metadata (c : Config) : bool :=
  if metadata_wanted c || get_bool c "preserve_xattrs" || get_bool c "preserve_acls" || get_bool c "fake_super"
     || get_bool c "preserve_devices" || get_bool c "preserve_specials" || get_bool c "copy_devices"
     || get_bool c "write_devices" || negb (bool_decide (str_or_empty (get_str c "chmod_spec") = []))
     || get_bool c "copy_as_set" || get_bool c "chown_uid_set" || get_bool c "chown_gid_set"
     || (get_int c "usermap_count" >? 0) || (get_int c "groupmap_count" >? 0) || get_bool c "update"
  then true
  else (get_bool c "use_incremental" || get_bool c "use_delta") && negb (get_bool c "metadata_explicitly_disabled").

(** The flags [validate_received_config] looks at again. *)
Definition checked_flags : list string :=
  ["save_to_disk"; "use_multithreading"; "use_chunk_serialization"; "use_compression"; "use_metadata";
   "use_executability"; "use_sendfile"; "use_delete"; "use_incremental"; "size_only"; "ignore_times"; "use_delta"; "backup";
   "fuzzy"; "remove_source_files"; "follow_symlinks"; "copy_links"; "safe_links"; "copy_unsafe_links";
   "preserve_hard_links"; "preserve_acls"; "preserve_xattrs"; "preserve_devices"; "preserve_sparse";
   "preserve_specials"; "copy_devices"; "write_devices"; "ignore_existing"; "existing"; "update"; "inplace"; "append";
   "use_fsync"; "append_verify"; "delete_excluded"; "force_delete"; "delete_missing_args"; "delete_after";
   "preallocate"; "delete_delay"; "delete_during"; "relative"; "prune_empty_dirs"; "delay_updates"; "mkpath";
   "partial"; "delete_before"; "checksum"; "eight_bit_output"; "dry_run"; "preserve_atimes"; "preserve_crtimes";
   "omit_dir_times"; "omit_link_times"; "preserve_perms"; "preserve_times"; "preserve_owner"; "preserve_group";
   "munge_links"; "keep_dirlinks"; "fake_super"; "report_dest_info"; "report_stats"; "report_deletes"].

(** The bounds of [validate_received_config], all pure *)
Definition within_bounds (c : Config) : bool :=
  let i := get_int c in
  (negb (get_bool c "copy_as_set") || ((i "copy_as_uid" >=? 0) && (i "copy_as_gid" >=? 0)))
  && (negb (get_bool c "use_compression") || ((i "compression_level" >=? 1) && (i "compression_level" <=? 22)))
  && (i "chunk_size" >? 0) && (i "chunk_size" <=? MAX_CHUNK_SIZE)
  && (i "delta_block_size" >=? DELTA_BLOCK_SIZE_MIN) && (i "delta_block_size" <=? DELTA_BLOCK_SIZE_MAX)
  && (i "delta_max_file_size" <=? DELTA_MAX_FILE_SIZE) && (i "modify_window" >=? 0) && (i "max_delete" >=? -1)
  && (i "max_alloc" <=? MAX_SERVER_ALLOC)
  && (i "skip_compress_count" >=? 0) && (i "skip_compress_count" <=? MAX_SKIP_COMPRESS_SUFFIXES)
  && match str_or_empty (get_str c "chmod_spec") with
     | [] => true
     | spec => match chmod_apply umask 0 spec with Some _ => true | None => false end
     end
  && (i "super_mode" >=? SUPER_MODE_AUTO) && (i "super_mode" <=? SUPER_MODE_OFF).

(** config.c [validate_received_config] *)
Definition validate_received_config (c : Config) : outcome bool :=
  match config_invariants_error c with
  | Some _ => Ret false
  | None =>
      if negb (forallb (fun n => valid_wire_bool (Z.b2z (get_bool c n))) checked_flags
               && checksum_algo_valid (get_int c "checksum_algo") && compression_algo_valid (get_int c "compression_algo"))
      then Ret false
      else
        ids ← identity_wire_valid c;
        Ret (ids && within_bounds c)
  end.

(** ** [config_receive_with_validate] after the frame *)

(** What the server's gate answers. *)
Inductive verdict := Accept | Reject (message : list byte) | AlreadyTerminated.

(** The value of RSYNC_COMPRESS_LIST in the receiver's environment. *)
Context (compress_list : option (list byte)).

(** The spelling of the codec against its id: the configuration with the
    canonical spelling. *)
Definition normalize_codec (c : Config) : io Config :=
  match get_str c "compress_choice" with
  | None | Some [] => io_ret c
  | Some choice =>
      let is_auto := strcaseeq choice (cs "auto") in
      let choice_algo := compression_algo_from_name (Some choice) in
      if (choice_algo <? 0) && negb is_auto then
        reject (snprintf160 (cs "unsupported compression choice: " ++ escaped_or_note choice (get_bool c "eight_bit_output")))
      else
        let choice_algo := if choice_algo <? 0 then compression_negotiate_default compress_list else choice_algo in
        c <~ (if is_auto || (choice_algo =? COMPRESSION_ALGO_NONE) then
                dup <~ io_of (str_dup (Some (compression_algo_name choice_algo)));
                io_ret (<["compress_choice" := VStr (Some dup)]> c)
              else io_ret c);
        if negb (get_int c "compression_algo" =? choice_algo) then reject (cs "compression choice/codec mismatch")
        else io_ret c
  end.

Definition sizeof_Config : Z := 1024.
Definition DEFAULT_SERVER_HOST : list byte := cs "127.0.0.1".

(** config.c [config_receive_with_validate]; [validate] is the server's gate,
    which may talk to the peer but not change the configuration. *)
Definition config_receive_with_validate (validate : option (Config -> io verdict)) (limit : Z) : io Config :=
  io_check (malloc_ok sizeof_Config && malloc_ok (zlen DEFAULT_SERVER_HOST + 1)) >~
  s <~ receive_frame (MkR config_defaults 0 limit);
  c <~ normalize_codec (r_cfg s);
  if get_bool c "use_compression" && (get_int c "compression_algo" =? COMPRESSION_ALGO_NONE) then
    reject (cs "compression requested with the none codec")
  else if get_bool c "checksum" && (get_int c "checksum_algo" =? CHECKSUM_ALGO_NONE) then
    reject (cs "checksum-choice 'none' cannot be used with --checksum")
  else
    ok <~ io_of (validate_received_config c);
    if negb ok then reject (cs "invalid configuration received from client")
    else
      v <~ match validate with Some f => f c | None => io_ret Accept end;
      match v with
      | Reject message => reject message
      | AlreadyTerminated => io_fail
      | Accept => protocol_send_status STATUS_OK >~ io_ret c
      end.
Definition config_receive (limit : Z) : io Config := config_receive_with_validate None limit.

(** config.c [config_send]; [auth] is [client_auth_exchange]. *)
Definition STATUS_AUTH_CHALLENGE : Z := 21.
Definition config_send (fs : list byte -> option (list byte)) (auth : Config -> io unit) (c : Config) : io unit :=
  config_send_wire_block fs c >~
  status <~ protocol_receive_status;
  status <~ (if status =? STATUS_AUTH_CHALLENGE then auth c >~ protocol_receive_status else io_ret status);
  io_check (status =? STATUS_OK).

(** ** What an accepted configuration satisfies *)

(** The rules, spelled out member by member and number by number, without the
    checks of the code. *)
Definition on (c : Config) (n : string) : Prop := get_bool c n = true.
Definition off (c : Config) (n : string) : Prop := get_bool c n = false.
Definition delta_on (c : Config) : Prop := on c "use_delta" /\ off c "whole_file".
Definition append_on (c : Config) : Prop := on c "append" \/ on c "append_verify".

(** A mapping of ids: a range of ids or one of the two wildcards, to an id or the
    current one, with a name of at most 255 bytes *)
Definition id_map_ok (m : IdentityMap) : Prop :=
  (0 <= id_from m <= id_from_hi m \/ -2 <= id_from m <= -1 /\ id_from_hi m = id_from m) /\ -1 <= id_to m /\
  forall n, to_name m = Some n -> zlen n <= 255.

(** [iconv] converts the letter a from one character set to the other. *)
Definition converts (from to : list byte) : Prop :=
  exists c c1 r1 out c2 r2 o2, iconv_open to from = Some c /\ iconv c (Some ["a"%byte]) 64 = (IconvOk, c1, r1, out) /\
    iconv c1 None 64 = (IconvOk, c2, r2, o2) /\ Byte.x00 ∉ out.
(** LOCAL,REMOTE or one name for both, which convert into each other *)
Definition charsets_ok (spec : list byte) : Prop :=
  exists local remote, local <> [] /\ remote <> [] /\ converts local remote /\ converts remote local /\
    (spec = local /\ remote = local \/ spec = local ++ ","%byte :: remote) /\ ","%byte ∉ local.

Record accepted (c : Config) : Prop := {
  (** -s needs neither the per-file exchange nor a per-file frame *)
  a_chunks : on c "use_chunk_serialization" ->
    get_int c "basis_count" <= 0 /\ off c "use_sendfile" /\ off c "use_incremental" /\ off c "skip_compress_set" /\ ~ delta_on c /\
    ~ append_on c /\ off c "preserve_hard_links" /\ off c "preserve_xattrs" /\ off c "preserve_acls";
  a_sendfile : on c "use_sendfile" -> off c "use_compression" /\ ~ delta_on c;
  a_delta : delta_on c -> on c "use_incremental";
  a_append : append_on c -> off c "whole_file" /\ off c "preserve_hard_links";
  a_delay : on c "delay_updates" -> off c "inplace" /\
    forall k, get_str c "backup_dir" <> Some (cs ".fastsync-stage" ++ replicate k "/"%byte);
  (** at most one time to delete, and only with --delete *)
  a_timing : forall t, t ∈ ["delete_before"; "delete_during"; "delete_delay"; "delete_after"] -> on c t -> on c "use_delete" /\
    forall t', t' ∈ ["delete_before"; "delete_during"; "delete_delay"; "delete_after"] -> on c t' -> t' = t;
  a_iconv : forall spec, get_str c "iconv_spec" = Some spec -> charsets_ok spec;
  a_metadata : forall n, n ∈ ["preserve_perms"; "preserve_times"; "preserve_owner"; "preserve_group"; "preserve_atimes";
    "preserve_crtimes"; "use_executability"; "copy_as_set"] -> on c n -> on c "use_metadata";
  (** ids *)
  a_copy_as : on c "copy_as_set" -> 0 <= get_int c "copy_as_uid" /\ 0 <= get_int c "copy_as_gid";
  a_chown : (on c "chown_uid_set" -> -1 <= get_int c "chown_uid") /\ (on c "chown_gid_set" -> -1 <= get_int c "chown_gid");
  a_maps : forall n, n ∈ ["usermap"; "groupmap"] -> zlen (get_ids c n) <= 128 /\ Forall id_map_ok (get_ids c n);
  (** numbers *)
  a_level : on c "use_compression" -> 1 <= get_int c "compression_level" <= 22;
  a_chunk_size : 1 <= get_int c "chunk_size" <= 64 * 1024 * 1024;
  a_block_size : 1024 <= get_int c "delta_block_size" <= 64 * 1024;
  a_delta_size : get_int c "delta_max_file_size" <= 256 * 1024 * 1024;
  a_max_alloc : get_int c "max_alloc" <= 256 * 1024 * 1024;
  a_window : 0 <= get_int c "modify_window";
  a_max_delete : -1 <= get_int c "max_delete";
  a_skip : 0 <= get_int c "skip_compress_count" <= 256;
  a_super : 0 <= get_int c "super_mode" <= 2;
  a_chmod : forall spec, get_str c "chmod_spec" = Some spec -> spec <> [] -> exists mode, chmod_apply umask 0 spec = Some mode;
  (** codecs: the name given is that of the algorithm, 0 being no codec and 6 no
      checksum *)
  a_codec : forall spec, get_str c "compress_choice" = Some spec -> spec <> [] ->
    compression_algo_from_name (Some spec) = get_int c "compression_algo";
  a_compressed : on c "use_compression" -> 1 <= get_int c "compression_algo" <= 4;
  a_checksum : 0 <= get_int c "checksum_algo" <= 6 /\ (on c "checksum" -> get_int c "checksum_algo" <> 6);
}.

Definition all_typed (c : Config) : Prop := forall f, f ∈ wire_fields -> typed c f.
Definition codec_agrees (c : Config) : Prop :=
  forall s, get_str c "compress_choice" = Some s -> s <> [] ->
    compression_algo_from_name (Some s) = get_int c "compression_algo".

Lemma names_distinct f g : f ∈ wire_fields -> g ∈ wire_fields -> f_name f = f_name g -> f = g.
Proof.
  intros Hf Hg E. apply list_elem_of_lookup in Hf as [i Hi], Hg as [j Hj].
  pose proof wire_names as [Hn _]. assert (i = j) as ->; [|congruence].
  eapply NoDup_lookup; [exact Hn|by rewrite list_lookup_fmap, Hi|rewrite list_lookup_fmap, Hj; simpl; by rewrite E].
Qed.

Lemma typed_spelling c dup : all_typed c -> str_ok dup -> all_typed (<["compress_choice" := VStr (Some dup)]> c).
Proof.
  intros Ht Hd f Hf. destruct (decide (f_name f = "compress_choice")) as [E|E].
  - assert (f = X "compress_choice" NULL STR_KEEP) as ->.
    { apply names_distinct; [done| |done]. in_table. }
    exists (Some dup). simpl. rewrite lookup_insert_eq. split; [done|by exists dup].
  - apply (typed_agree c); [by apply lookup_insert_ne| |by apply Ht]. intros n Hn. apply lookup_insert_ne.
    intros <-. pose proof wire_deps as Hdep. clear -Hn Hf.
    assert (Hall : Forall (fun f => count_of (f_kind f) <> Some "compress_choice") wire_fields).
    { apply (bool_decide_unpack _). vm_compute. exact I. }
    rewrite Forall_forall in Hall. by apply (Hall f).
Qed.

Lemma algo_name_ok algo : str_ok (compression_algo_name algo).
Proof.
  unfold compression_algo_name. repeat (destruct (_ =? _); [split; [by vm_compute|apply (bool_decide_unpack _); vm_compute; exact I]|]).
  split; [by vm_compute|apply (bool_decide_unpack _); vm_compute; exact I].
Qed.

Lemma gives_codec c :
  all_typed c -> gives (normalize_codec c) (fun c' => all_typed c' /\ codec_agrees c').
Proof.
  intros Ht. unfold normalize_codec. destruct (get_str c "compress_choice") as [[|b choice]|] eqn:Ec.
  - apply gives_ret. split; [done|]. intros s Es Hs. congruence.
  - set (ch := b :: choice) in *. destruct ((compression_algo_from_name (Some ch) <? 0) && negb (strcaseeq ch (cs "auto"))) eqn:Eb;
      [apply gives_reject|].
    set (algo := if compression_algo_from_name (Some ch) <? 0 then _ else _).
    eapply (gives_bind _ _ (fun c' => all_typed c' /\ exists s, get_str c' "compress_choice" = Some s /\
                                 compression_algo_from_name (Some s) = algo)).
    + destruct (strcaseeq ch (cs "auto") || (algo =? COMPRESSION_ALGO_NONE)) eqn:Ea.
      * eapply gives_bind; [apply (gives_of _ (fun d => d = compression_algo_name algo))|].
        { unfold str_dup. simpl. by destruct (malloc_ok _). }
        intros d ->. apply gives_ret. split; [by apply typed_spelling; [|apply algo_name_ok]|].
        exists (compression_algo_name algo). split; [unfold get_str; by rewrite lookup_insert_eq|].
        apply compression_name_id. subst algo. destruct (Z.ltb_spec (compression_algo_from_name (Some ch)) 0) as [|Hge].
        { apply negotiate_default_valid. }
        destruct (from_name_valid (Some ch)); [lia|done].
      * apply gives_ret. split; [done|]. exists ch. split; [done|]. subst algo.
        apply orb_false_iff in Ea as [Ea _]. rewrite Ea, andb_true_r in Eb. by rewrite Eb.
    + intros c' [Ht' (s&Es&Ha)]. destruct (Z.eqb_spec (get_int c' "compression_algo") algo) as [E|E]; [|apply gives_reject].
      apply gives_ret. split; [done|]. intros s' Es' _. congruence.
  - apply gives_ret. split; [done|]. intros s Es Hs. congruence.
Qed.

Lemma typed_ids c n count :
  all_typed c -> X n (VIds []) (BLOCK_IDMAP count) ∈ wire_fields ->
  first_cells (get_int c count) (get_ids c n) = Ret (get_ids c n).
Proof.
  intros Ht Hin. destruct (Ht _ Hin) as (l&E&Hc&_). simpl in E.
  assert (Eg : get_ids c n = l) by (unfold get_ids; by rewrite E). rewrite Eg, Hc. apply first_cells_all.
Qed.

Lemma forallb_Forall {A} (p : A -> bool) l : forallb p l = true -> Forall (fun x => p x = true) l.
Proof. intros Hf. apply Forall_forall. intros x Hx. rewrite forallb_forall in Hf. apply Hf. by apply list_elem_of_In. Qed.

(** *** From the checks to the rules *)

Lemma clauses_false c : config_invariants_error c = None -> Forall (fun x => fst x = false) (invariant_clauses c).
Proof.
  unfold config_invariants_error. intros E. apply Forall_forall. intros x Hx%list_elem_of_In. destruct (List.find fst _) eqn:Ef; [done|].
  by apply (find_none _ _ Ef).
Qed.
Lemma id_map_check m : identity_wire_map_valid m = true -> id_map_ok m.
Proof.
  unfold identity_wire_map_valid, id_map_ok, IDENTITY_MATCH_UNNAMED, IDENTITY_CURRENT. destruct (Z.ltb_spec (id_from m) (-2)); [done|].
  destruct (if id_from m <? 0 then _ else _) eqn:E; [done|]. destruct (Z.ltb_spec (id_to m) (-1)); [done|]. intros Hn. split_and!; [|done|].
  - destruct (Z.ltb_spec (id_from m) 0) as [Hneg|Hpos]; [right|left].
    + apply negb_false_iff, Z.eqb_eq in E. lia.
    + apply Z.ltb_ge in E. lia.
  - intros n En. rewrite En in Hn. destruct (Z.gtb_spec (zlen n) 255); [done|lia].
Qed.
Lemma probe_converts from to : direction_probe_valid (Some from) (Some to) = true -> converts from to.
Proof.
  unfold direction_probe_valid, charset_conversion_open, converts. cbn [of_option mbind outcome_bind]. destruct (iconv_open to from) as [c|]; [|done]. cbn [of_option mbind outcome_bind].
  destruct (malloc_ok _); [|done]. cbn [check mbind outcome_bind]. destruct (iconv c (Some ["a"%byte]) 64) as [[[st c1] r1] out] eqn:E1. destruct (iconv c1 None 64) as [[[fl c2] r2] o2] eqn:E2.
  destruct st; [|done..]. destruct fl; [|done..]. intros Ho%negb_true_iff%bool_decide_eq_false. exists c, c1, r1, out, c2, r2, o2. done.
Qed.
Lemma str_dup_inv v d : str_dup (Some v) = Ret d -> d = v.
Proof. unfold str_dup. cbn [of_option mbind outcome_bind]. destruct (malloc_ok _); [|done]. by intros [= ->]. Qed.
Lemma spec_parse_names spec local remote : charset_spec_parse (Some spec) = Ret (local, remote) ->
  local <> [] /\ remote <> [] /\ (spec = local /\ remote = local \/ spec = local ++ ","%byte :: remote) /\ ","%byte ∉ local.
Proof.
  unfold charset_spec_parse. cbn [of_option mbind outcome_bind]. unfold at_end. case_bool_decide as H0; [done|]. cbn [negb check mbind outcome_bind].
  intros (dup&->%str_dup_inv&E)%bind_ret_inv. destruct (list_find _ spec) as [[i x]|] eqn:Ef.
  - apply list_find_Some in Ef as (Hi&->&Hbefore). case_bool_decide as Hend; [by rewrite orb_true_r in E|]. destruct (Nat.eqb_spec i 0) as [->|Hi0]; [done|]. cbn [orb negb check mbind outcome_bind] in E.
    apply bind_ret_inv in E as (l&->%str_dup_inv&E). apply bind_ret_inv in E as (r&->%str_dup_inv&[= <- <-]).
    assert (Hs : spec = take i spec ++ ","%byte :: drop (i + 1) spec) by (rewrite Nat.add_1_r; by rewrite (take_drop_middle spec i)).
    apply lookup_lt_Some in Hi. split_and!.
    + intros E. apply (f_equal length) in E. rewrite length_take in E. simpl in E. lia.
    + intros E. apply Hend, lookup_ge_None. apply (f_equal length) in E. rewrite length_drop in E. simpl in E. lia.
    + by right.
    + intros (j&Hj)%list_elem_of_lookup. apply lookup_take_Some in Hj as [Hj Hlt]. by apply (Hbefore j _ Hj).
  - apply bind_ret_inv in E as (l&->%str_dup_inv&E). apply bind_ret_inv in E as (r&->%str_dup_inv&[= <- <-]).
    assert (Hne : spec <> []) by (by intros ->). split_and!; [done|done|by left|]. apply list_find_None in Ef. rewrite Forall_forall in Ef. intros Hin. by apply (Ef _ Hin).
Qed.
Lemma charset_check spec : charset_spec_valid (Some spec) = true -> charsets_ok spec.
Proof.
  unfold charset_spec_valid. destruct (charset_spec_parse (Some spec)) as [[local remote]| |] eqn:E; [|done..]. intros [Hl Hr]%andb_true_iff.
  destruct (spec_parse_names _ _ _ E) as (H1&H2&H3&H4). exists local, remote. split_and!; [done|done|by apply probe_converts|by apply probe_converts|done|done].
Qed.
Lemma trim_stage dir k : trim_slashes (dir ++ replicate k "/"%byte) (length dir + k) = trim_slashes (dir ++ replicate k "/"%byte) (length dir).
Proof.
  assert (Hk : forall j, (j <= k)%nat -> trim_slashes (dir ++ replicate k "/"%byte) (length dir + j) = trim_slashes (dir ++ replicate k "/"%byte) (length dir)); [|by apply Hk].
  induction j as [|j IH]; intros Hj; [by rewrite Nat.add_0_r|]. rewrite <- IH by lia. rewrite Nat.add_succ_r. cbn [trim_slashes].
  replace (char_is (dir ++ replicate k "/"%byte) (length dir + j) "/"%byte) with true; [done|]. symmetry. unfold char_is. apply bool_decide_eq_true.
  rewrite lookup_app_r by lia. rewrite lookup_replicate. split; [done|lia].
Qed.
Lemma stage_conflicts k : delay_updates_staging_name_conflict (Some (cs ".fastsync-stage" ++ replicate k "/"%byte)) = true.
Proof.
  unfold delay_updates_staging_name_conflict. destruct (cs ".fastsync-stage" ++ replicate k "/"%byte) as [|b l] eqn:E; [by apply (f_equal length) in E|]. rewrite <- E. clear E b l.
  rewrite length_app, length_replicate, trim_stage. change (trim_slashes (cs ".fastsync-stage" ++ replicate k "/"%byte) (length (cs ".fastsync-stage"))) with (length DELAY_UPDATES_STAGING_DIR).
  rewrite Nat.eqb_refl. apply Z.eqb_eq, strncmp_prefix. by exists (replicate k "/"%byte).
Qed.

(** The clauses that did not fire *)
Ltac flags := repeat match goal with |- context [get_bool ?c ?n] => destruct (get_bool c n) end; cbn; try congruence; intuition congruence.
Record rules_hold (c : Config) : Prop := {
  rh_chunks : on c "use_chunk_serialization" ->
    get_int c "basis_count" <= 0 /\ off c "use_sendfile" /\ off c "use_incremental" /\ off c "skip_compress_set" /\ ~ delta_on c /\
    ~ append_on c /\ off c "preserve_hard_links" /\ off c "preserve_xattrs" /\ off c "preserve_acls";
  rh_sendfile : on c "use_sendfile" -> off c "use_compression" /\ ~ delta_on c;
  rh_delta : delta_on c -> on c "use_incremental";
  rh_append : append_on c -> off c "whole_file" /\ off c "preserve_hard_links";
  rh_delay : on c "delay_updates" -> off c "inplace" /\ delay_updates_staging_name_conflict (get_str c "backup_dir") = false;
  rh_timing : config_has_valid_delete_timing c = true;
  rh_iconv : forall spec, get_str c "iconv_spec" = Some spec -> charset_spec_valid (Some spec) = true;
  rh_metadata : metadata_wanted c = true -> on c "use_metadata";
  rh_copy_as : on c "copy_as_set" -> on c "use_metadata";
}.
Lemma clauses_rules c : config_invariants_error c = None -> rules_hold c.
Proof.
  intros H%clauses_false. unfold invariant_clauses, config_has_basis in H. cbv zeta in H. rewrite !Forall_cons in H. cbn [fst] in H.
  destruct H as (C1&C2&C3&C4&C5&C6&C7&C8&C9&C10&C11&C12&C13&C14&C15&C16&C17&C18&_). split; unfold delta_on, append_on, on, off.
  - intros Hc. split_and!.
    + rewrite Hc, andb_true_r in C1. destruct (Z.gtb_spec (get_int c "basis_count") 0); [done|lia].
    + clear -Hc C2. revert Hc C2. flags.
    + clear -Hc C3. revert Hc C3. flags.
    + clear -Hc C4. revert Hc C4. flags.
    + clear -Hc C6. revert Hc C6. flags.
    + clear -Hc C8. revert Hc C8. flags.
    + clear -Hc C10. revert Hc C10. flags.
    + clear -Hc C11. revert Hc C11. flags.
    + clear -Hc C11. revert Hc C11. flags.
  - clear -C2 C7. revert C2 C7. flags.
  - clear -C5. revert C5. flags.
  - clear -C9 C12. revert C9 C12. flags.
  - clear -C13 C14. revert C13 C14. destruct (delay_updates_staging_name_conflict _); flags.
  - by apply negb_false_iff in C15.
  - intros spec E. rewrite E in C16. by apply negb_false_iff in C16.
  - clear -C17. revert C17. destruct (metadata_wanted c); flags.
  - clear -C18. revert C18. flags.
Qed.

Lemma timing_check c : config_has_valid_delete_timing c = true ->
  forall t, t ∈ ["delete_before"; "delete_during"; "delete_delay"; "delete_after"] -> on c t -> on c "use_delete" /\
  forall t', t' ∈ ["delete_before"; "delete_during"; "delete_delay"; "delete_after"] -> on c t' -> t' = t.
Proof.
  unfold config_has_valid_delete_timing, delete_timings, on. intros H t Ht Hon. split; [|intros t' Ht' Hon'];
    repeat (apply elem_of_cons in Ht as [->|Ht]); try (by apply not_elem_of_nil in Ht);
    try (repeat (apply elem_of_cons in Ht' as [->|Ht']); try (by apply not_elem_of_nil in Ht')); try done;
    revert H; rewrite ?Hon, ?Hon'; cbn [foldr forallb negb andb]; destruct (get_bool c "use_delete"); try done;
    repeat match goal with |- context [get_bool c ?n] => destruct (get_bool c n) end; done.
Qed.
Lemma metadata_check c : (metadata_wanted c = true -> on c "use_metadata") -> (on c "copy_as_set" -> on c "use_metadata") ->
  forall n, n ∈ ["preserve_perms"; "preserve_times"; "preserve_owner"; "preserve_group"; "preserve_atimes"; "preserve_crtimes";
    "use_executability"; "copy_as_set"] -> on c n -> on c "use_metadata".
Proof.
  unfold metadata_wanted, on. intros Hw Hc n Hn Hon. repeat (apply elem_of_cons in Hn as [->|Hn]); try (by apply not_elem_of_nil in Hn); try (by apply Hc);
    apply Hw; rewrite Hon, ?orb_true_r; done.
Qed.

(** *** The verdict *)

Definition ids_hold (c : Config) : Prop :=
  (on c "chown_uid_set" -> -1 <= get_int c "chown_uid") /\ (on c "chown_gid_set" -> -1 <= get_int c "chown_gid") /\
  Forall id_map_ok (get_ids c "usermap") /\ Forall id_map_ok (get_ids c "groupmap").
Lemma chown_check c flag member : get_bool c flag && (get_int c member <? IDENTITY_MATCH_ANY) = false -> on c flag -> -1 <= get_int c member.
Proof. unfold on. intros H E. rewrite E in H. cbn [andb] in H. apply Z.ltb_ge in H. done. Qed.
Lemma identity_valid_owp c : all_typed c -> owp (identity_wire_valid c) (fun b => b = true -> ids_hold c).
Proof.
  intros Ht. unfold identity_wire_valid. destruct (_ || _); [done|]. destruct (get_bool c "chown_uid_set" && _) eqn:Eu; [done|]. destruct (get_bool c "chown_gid_set" && _) eqn:Eg; [done|].
  rewrite (typed_ids c "usermap" "usermap_count") by first [done|in_table].
  rewrite (typed_ids c "groupmap" "groupmap_count") by first [done|in_table].
  cbn [mbind outcome_bind]. destruct (forallb _ (get_ids c "usermap")) eqn:E1; [|done].
  destruct (forallb _ (get_ids c "groupmap")) eqn:E2; [|done]. intros _. split_and!; [by apply chown_check|by apply chown_check|..].
  - eapply Forall_impl; [by apply forallb_Forall|]. apply id_map_check.
  - eapply Forall_impl; [by apply forallb_Forall|]. apply id_map_check.
Qed.
Lemma validate_owp c :
  all_typed c -> owp (validate_received_config c) (fun b => b = true -> rules_hold c /\ within_bounds c = true /\ ids_hold c).
Proof.
  intros Ht. unfold validate_received_config. destruct (config_invariants_error c) eqn:E; [done|].
  destruct (negb _); [done|]. wp_bind. eapply owp_mono; [by apply identity_valid_owp|]. intros b Hb. simpl.
  intros [-> Hw]%andb_true_iff. split_and!; [by apply clauses_rules|done|by apply Hb].
Qed.

(** The maps are as long as their counts. *)
Lemma typed_map_length c n count :
  all_typed c -> X n (VIds []) (BLOCK_IDMAP count) ∈ wire_fields -> X count (VInt 0) INT_IDMAPCOUNT ∈ wire_fields -> zlen (get_ids c n) <= 128.
Proof.
  intros Ht Hn Hc. destruct (Ht _ Hn) as (l&E&Hl&_). destruct (Ht _ Hc) as (z&Ez&Hz). simpl in E, Ez. unfold get_ids, get_int in *. rewrite E. rewrite Ez in Hl. unfold MAX_IDENTITY_MAP in Hz. lia.
Qed.
Lemma typed_compression c : all_typed c -> 0 <= get_int c "compression_algo" <= 4.
Proof.
  intros Ht. destruct (Ht (X "compression_algo" (VInt COMPRESSION_ALGO_ZSTD) INT_COMPRESSION_ALGO)) as (z&E&Hz); [in_table|]. simpl in E. unfold get_int. rewrite E. revert Hz. unfold compression_algo_valid. rewrite !orb_true_iff, !Z.eqb_eq. unfold COMPRESSION_ALGO_NONE, COMPRESSION_ALGO_ZSTD, COMPRESSION_ALGO_LZ4, COMPRESSION_ALGO_ZLIB, COMPRESSION_ALGO_ZLIBX. lia.
Qed.
Lemma typed_checksum c : all_typed c -> 0 <= get_int c "checksum_algo" <= 6.
Proof.
  intros Ht. destruct (Ht (X "checksum_algo" (VInt CHECKSUM_ALGO_DEFAULT) INT_CHECKSUM_ALGO)) as (z&E&Hz); [in_table|]. simpl in E. unfold get_int. rewrite E. revert Hz. unfold checksum_algo_valid. rewrite !orb_true_iff, !Z.eqb_eq. lia.
Qed.

Lemma accepted_intro c : all_typed c -> codec_agrees c -> rules_hold c -> within_bounds c = true -> ids_hold c ->
  get_bool c "use_compression" && (get_int c "compression_algo" =? COMPRESSION_ALGO_NONE) = false ->
  get_bool c "checksum" && (get_int c "checksum_algo" =? CHECKSUM_ALGO_NONE) = false -> accepted c.
Proof.
  intros Ht Hcodec [R1 R2 R3 R4 R5 R6 R7 R8 R9] Hb (I1&I2&I3&I4) E1 E2. unfold within_bounds in Hb. cbv zeta in Hb. rewrite !andb_true_iff, !orb_true_iff, !negb_true_iff in Hb.
  unfold MAX_CHUNK_SIZE, DELTA_BLOCK_SIZE_MIN, DELTA_BLOCK_SIZE_MAX, DELTA_MAX_FILE_SIZE, MAX_SERVER_ALLOC, MAX_SKIP_COMPRESS_SUFFIXES, SUPER_MODE_AUTO, SUPER_MODE_OFF in Hb. rewrite ?Z.geb_leb, ?Z.gtb_ltb, ?Z.leb_le, ?Z.ltb_lt, ?andb_true_iff, ?Z.leb_le in Hb.
  destruct Hb as ((((((((((((((B1&B2)&B3)&B4)&B5)&B6)&B7)&B8)&B9)&B10)&B11)&B12)&B13)&B14)&B15). split; try done; unfold on, off in *.
  - intros Hd. destruct (R5 Hd) as [Hin Hst]. split; [done|]. intros k E. rewrite E in Hst. by rewrite stage_conflicts in Hst.
  - by apply timing_check.
  - intros spec E. by apply charset_check, R7.
  - by apply metadata_check.
  - intros Hc. destruct B1 as [B1|B1]; [congruence|done].
  - intros n [->|[->|[]%not_elem_of_nil]%elem_of_cons]%elem_of_cons; (split; [|done]); eapply typed_map_length; first [done|in_table].
  - intros Hc. destruct B2 as [B2|B2]; [congruence|done].
  - lia.
  - intros spec E Hne. rewrite E in B13. destruct spec as [|b l]; [done|]. change (match chmod_apply umask 0 (b :: l) with Some _ => true | None => false end = true) in B13. destruct (chmod_apply umask 0 (b :: l)) as [mode|]; [by exists mode|done].
  - intros Hc. pose proof (typed_compression c Ht). rewrite Hc in E1. cbn [andb] in E1. apply Z.eqb_neq in E1. unfold COMPRESSION_ALGO_NONE in E1. lia.
  - split; [by apply typed_checksum|]. intros Hc. rewrite Hc in E2. cbn [andb] in E2. by apply Z.eqb_neq in E2.
Qed.

(** The gate may fail or refuse, but it does not go wrong. *)
Definition gate_ok (gate : option (Config -> io verdict)) : Prop :=
  forall f, gate = Some f -> forall c, gives (f c) (fun _ => True).

Lemma gives_receive_frame limit : gives (receive_frame (MkR config_defaults 0 limit)) (fun s => all_typed (r_cfg s)).
Proof. eapply gives_mono; [apply frame_gives|]. by intros s (_&Ht&_). Qed.

Lemma receive_gives gate limit :
  gate_ok gate -> gives (config_receive_with_validate gate limit) accepted.
Proof.
  intros Hgate. unfold config_receive_with_validate. g_step gives_check as _ _.
  g_step gives_receive_frame as s Hs. g_step gives_codec as c [Ht Hc]; [done|].
  destruct (get_bool c "use_compression" && _) eqn:E1; [apply gives_reject|].
  destruct (get_bool c "checksum" && _) eqn:E2; [apply gives_reject|].
  eapply gives_bind; [apply gives_of, validate_owp, Ht|]. intros ok Hok. destruct ok; [|apply gives_reject].
  destruct (Hok eq_refl) as (Hr&Hb&Hi).
  eapply (gives_bind _ _ (fun _ => True)); [destruct gate as [f|]; [by apply (Hgate f)|by apply gives_ret]|].
  intros v _. destruct v; [|apply gives_reject|apply gives_fail].
  g_step gives_send_bytes as _ _. apply gives_ret. by apply accepted_intro.
Qed.

(** C23: a server only acknowledges configurations it can honour.  Whatever a
    peer sends, and whatever gate the server installs as long as the gate
    itself does not go wrong, the whole reception runs without touching memory
    out of range; and a configuration it returns (the only path that sends the
    acknowledgement) obeys every rule of [accepted], spelled out there: what -s,
    sendfile, delta, append, delayed updates and metadata exclude or need, one time
    of deletion, character sets that convert into each other, id maps and ids in
    range, the bounds of each number, a mode specification that parses, and a codec
    that is the one named. *)
Theorem accepted_config_sound gate limit w (Hgate : gate_ok gate) :
  match snd (config_receive_with_validate gate limit w) with
  | Ret c => accepted c
  | Fail => True
  | Stuck => False
  end.
Proof. exact (receive_gives gate limit Hgate w). Qed.
End Check.

(** No conversions at all. *)
#[local] Instance no_iconv : Iconv :=
  {| cd := unit; iconv_open := fun _ _ => None; iconv := fun _ _ _ => (IconvOk, tt, [], []) |}.

(** A daemon gate that knows one module. *)
Definition demo_gate : Config -> io verdict := fun c =>
  if bool_decide (get_str c "module" = Some (cs "nightly")) then io_ret Accept
  else io_ret (Reject (cs "unknown module")).

(** The bytes [demo_config] sends. *)
Definition frame_bytes (c : Config) : list byte :=
  n_out (w_net (fst (@config_send_wire_block heap0 no_files c
    (MkWorld (MkNet false 0 [] [] [] (repeat (ev1 PollReady) 400) 0 0) 1 None [0; 0] (replicate 4097 Byte.x00) [] [])))).
Definition server_world (input : list byte) : world :=
  MkWorld (MkNet false 0 input (repeat (ev1 PollReady) 400) [] (repeat (ev1 PollReady) 8) 0 0) 1 None [0; 0]
    (replicate 4097 Byte.x00) [] [].

(** The frame of a client is accepted and acknowledged; the same frame for a
    module the daemon does not have is refused with the reason. *)
Example demo_accepted :
  let c := <["use_metadata" := VBool true]> demo_config in
  let '(w, r) := @config_receive_with_validate heap0 _ 18 None (Some demo_gate) 0 (server_world (frame_bytes c)) in
  (is_ret r, n_in (w_net w), n_out (w_net w)) = (true, [], put_le 4 STATUS_OK).
Proof. vm_compute. reflexivity. Qed.
Example demo_refused :
  let c := <["module" := VStr (Some (cs "weekly"))]> demo_config in
  let '(w, r) := @config_receive_with_validate heap0 _ 18 None (Some demo_gate) 0 (server_world (frame_bytes c)) in
  (r, n_out (w_net w)) = (Fail, put_le 4 STATUS_ERROR_DETAIL ++ str_wire (cs "unknown module")).
Proof. vm_compute. reflexivity. Qed.

Definition demo_frame : list byte := frame_bytes (<["use_metadata" := VBool true]> demo_config).
Lemma accepted_config_sound_witness :
  exists c, snd (@config_receive_with_validate heap0 _ 18 None (Some demo_gate) 0 (server_world demo_frame)) = Ret c /\ @accepted _ 18 c.
Proof.
  assert (Hgate : gate_ok (Some demo_gate)).
  { intros f E c w. injection E as <-. unfold demo_gate. destruct (bool_decide _); exact I. }
  pose proof (@accepted_config_sound heap0 _ 18 None (Some demo_gate) 0 (server_world demo_frame) Hgate) as H.
  assert (Hr : is_ret (snd (@config_receive_with_validate heap0 _ 18 None (Some demo_gate) 0 (server_world demo_frame))) = true) by (vm_compute; reflexivity).
  destruct (snd _) as [c| |]; [|discriminate Hr..]. exists c. by split.
Defined.
