(* ===== verification/Identity.v ===== *)
(** Identity mapping of src/shared/identity.c: parsing --usermap, --groupmap,
    --chown and --copy-as on the client, and deciding and applying ownership on
    the receiver.  The account databases, [fnmatch] and the process's effective
    ids are outside the program and are the fields of the class [Accounts]. *)

From stdpp Require Import gmap strings sorting.
From S2P Require Import Prelude Alloc DataBuf CStr Paths FilterParse Transport Session Wp Names Libc ConfigWire ConfigTrip ConfigTyped ConfigCheck.

#[local] Open Scope string_scope.
#[local] Open Scope list_scope.
#[local] Open Scope Z_scope.

(** The databases, by kind of account ([true] for groups): every entry in
    [getpwent]/[getgrent] order, the id of a name, the name of an id, the
    primary group of a user; ids are 32 bits wide. *)
Class Accounts := {
  entries : bool -> list (list byte * Z);
  id_of_name : bool -> list byte -> option Z;
  name_of_id : bool -> Z -> option (list byte);
  primary_gid : Z -> option Z;
  fnmatch : list byte -> list byte -> bool;
  effective_id : bool -> Z;
}.

Definition INT32_MAX : Z := 2 ^ 31 - 1.

(** [strtol(s, &endptr, 10)] of a string of digits: the value, and whether
    [errno] is ERANGE. *)
Definition strtol_digits (s : list byte) : Z * bool :=
  if decimal s >? LONG_MAX then (LONG_MAX, true) else (decimal s, false).

(** identity.c [identity_all_digits], [identity_token_has_glob],
    [identity_id_fits_int32] *)
Definition identity_all_digits (token : list byte) : bool :=
  negb (bool_decide (token = [])) && forallb is_digit token.
Definition is_glob_char (c : byte) : bool := match c with "*" | "?" | "[" => true | _ => false end%byte.
Definition identity_token_has_glob (token : list byte) : bool := existsb is_glob_char token.
Definition identity_id_fits_int32 (id : Z) : bool := id <=? INT32_MAX.

Definition star : list byte := cs "*".
(** [token[0] == '@' ? token + 1 : token] *)
Definition strip_at (token : list byte) : list byte :=
  match token with "@"%byte :: t => t | _ => token end.

Definition map_name (is_group : bool) : string := if is_group then "groupmap" else "usermap".
Definition count_name (is_group : bool) : string := if is_group then "groupmap_count" else "usermap_count".

(** Ids that are neighbours, without overflow. *)
Definition identity_ids_adjacent (lo hi : Z) : bool := (lo <? INT32_MAX) && (hi =? lo + 1).

(** The second loop of [identity_expand_from_glob]: neighbours that are equal
    are kept once. *)
Fixpoint unique_ids (l : list Z) : list Z :=
  match l with
  | [] => []
  | a :: l => match unique_ids l with
              | b :: r => if a =? b then b :: r else a :: b :: r
              | [] => [a]
              end
  end.
(** The third: how many runs of adjacent ids. *)
Fixpoint count_runs (prev : option Z) (l : list Z) : Z :=
  match l with
  | [] => 0
  | a :: l => (if match prev with Some p => identity_ids_adjacent p a | None => false end then 0 else 1) + count_runs (Some a) l
  end.
(** The fourth: the first and the last id of each run. *)
Fixpoint id_runs (l : list Z) : list (Z * Z) :=
  match l with
  | [] => []
  | a :: l => match id_runs l with
              | (lo, hi) :: r => if identity_ids_adjacent a lo then (a, hi) :: r else (a, a) :: (lo, hi) :: r
              | [] => [(a, a)]
              end
  end.

Section Parse.
Context {h : Heap} {AC : Accounts}.

(** identity.c [identity_resolve_token] *)
Definition identity_resolve_token (token : list byte) (is_group : bool) : outcome Z :=
  check (negb (at_end token 0));;
  if strcmp token star =? 0 then Ret IDENTITY_MATCH_ANY
  else
    let num := strip_at token in
    if identity_all_digits num then
      let '(val, err) := strtol_digits num in
      check (negb err && (val >=? 0) && (val <=? INT32_MAX));; Ret (i32 val)
    else
      id ← of_option (id_of_name is_group token);
      Ret (i32 id).

(** identity.c [identity_parse_from]: [from] and [from_hi] *)
Definition parse_range (num : list byte) : option (outcome (Z * Z)) :=
  '(low, high) ← split_first "-"%byte num;
  if bool_decide (low = []) || bool_decide (high = []) || existsb (fun c => bool_decide (c = "-"%byte)) high then None
  else if negb ((zlen low <? 16) && (zlen high <? 16)) then None
  else if negb (identity_all_digits low && identity_all_digits high) then None
  else Some (
    let '(lo, err) := strtol_digits low in
    check (negb err);;
    let '(hi, err) := strtol_digits high in
    check (negb (err || (hi <? lo) || (hi >? INT32_MAX)));;
    Ret (i32 lo, i32 hi)).
Definition identity_parse_from (token : list byte) (is_group : bool) : outcome (Z * Z) :=
  if bool_decide (token = []) then Ret (IDENTITY_MATCH_UNNAMED, IDENTITY_MATCH_UNNAMED)
  else if strcmp token star =? 0 then Ret (IDENTITY_MATCH_ANY, IDENTITY_MATCH_ANY)
  else
    let num := strip_at token in
    let single := id ← identity_resolve_token token is_group; Ret (id, id) in
    if identity_all_digits num then single
    else match parse_range num with
         | Some r => r
         | None => single
         end.

(** identity.c [identity_parse_to]: [to] and [to_name] *)
Definition identity_parse_to (token : list byte) (is_group : bool) : outcome (Z * option (list byte)) :=
  check (negb (bool_decide (token = [])));;
  if strcmp token star =? 0 then Ret (IDENTITY_CURRENT, None)
  else if identity_all_digits (strip_at token) then
    id ← identity_resolve_token token is_group; Ret (id, None)
  else
    check (negb (identity_token_has_glob token));;
    name ← str_dup (Some token);
    Ret (0, Some name).

(** identity.c [identity_append_rule] on the map of users or groups *)
Definition identity_append_rule (c : Config) (is_group : bool) (rule : IdentityMap) : outcome Config :=
  let count := get_int c (count_name is_group) in
  check (negb (count >=? MAX_IDENTITY_MAP));;
  check (malloc_ok ((count + 1) * sizeof_IdentityMap));;
  kept ← first_cells count (get_ids c (map_name is_group));
  Ret (<[count_name is_group := VInt (count + 1)]> (<[map_name is_group := VIds (kept ++ [rule])]> c)).

(** identity.c [identity_ids_push] *)
Definition identity_ids_push (ids : list Z) (cap : Z) (id : Z) : outcome (list Z * Z) :=
  if zlen ids =? cap then
    let grown_cap := if cap =? 0 then 16 else cap * 2 in
    check (malloc_ok (grown_cap * 4));; Ret (ids ++ [id], grown_cap)
  else Ret (ids ++ [id], cap).

(** The first loop of [identity_expand_from_glob], over the rest of the
    database *)
Fixpoint match_entries (glob : list byte) (db : list (list byte * Z)) (ids : list Z) (cap : Z) : outcome (list Z) :=
  match db with
  | [] => Ret ids
  | (name, id) :: db =>
      if negb (fnmatch glob name) then match_entries glob db ids cap
      else if negb (identity_id_fits_int32 id) then match_entries glob db ids cap
      else '(ids, cap) ← identity_ids_push ids cap (i32 id); match_entries glob db ids cap
  end.

(** The last loop: one rule per run, each with its own copy of the name *)
Fixpoint append_runs (c : Config) (is_group : bool) (to : Z) (name : option (list byte)) (runs : list (Z * Z))
  : outcome Config :=
  match runs with
  | [] => Ret c
  | (lo, hi) :: runs =>
      copy ← match name with None => Ret None | Some n => d ← str_dup (Some n); Ret (Some d) end;
      c ← identity_append_rule c is_group (MkIdMap lo hi to copy);
      append_runs c is_group to name runs
  end.

(** identity.c [identity_expand_from_glob] *)
Definition identity_expand_from_glob (c : Config) (glob : list byte) (is_group : bool) (to : Z) (name : option (list byte))
  : outcome Config :=
  ids ← match_entries glob (entries is_group) [] 0;
  check (negb (bool_decide (ids = [])));;
  let ids := unique_ids (merge_sort Z.le ids) in
  check (negb (get_int c (count_name is_group) >? MAX_IDENTITY_MAP - count_runs None ids));;
  append_runs c is_group to name (id_runs ids).

(** One rule of [identity_parse_map] *)
Definition parse_map_rule (is_group : bool) (rule : list byte) (c : Config) : outcome Config :=
  '(from_token, to_token) ← of_option (split_first ":"%byte rule);
  if negb (strcmp from_token star =? 0) && identity_token_has_glob from_token then
    '(to, name) ← identity_parse_to to_token is_group;
    identity_expand_from_glob c from_token is_group to name
  else
    '(from, from_hi) ← identity_parse_from from_token is_group;
    '(to, name) ← identity_parse_to to_token is_group;
    identity_append_rule c is_group (MkIdMap from from_hi to name).

(** identity.c [identity_parse_map]; after a failure the client stops, so the
    rules appended before it are not kept track of. *)
Definition identity_parse_map (c : Config) (value : option (list byte)) (is_group : bool) : outcome Config :=
  value ← of_option value;
  check (negb (at_end value 0));;
  dup ← str_dup (Some value);
  foldM (parse_map_rule is_group) (strtok (is_char ","%byte) dup) c.

(** identity.c [identity_split_chown]: user and group, [\:] a literal colon *)
Fixpoint split_chown (s user group : list byte) (split_seen : bool) : list byte * list byte :=
  let put (c : byte) (rest : list byte) :=
    if split_seen then split_chown rest user (group ++ [c]) split_seen
    else split_chown rest (user ++ [c]) group split_seen in
  match s with
  | [] => (user, group)
  | c :: rest =>
      if bool_decide (c = "\"%byte) then
        match rest with
        | ":"%byte :: rest' => if split_seen then split_chown rest' user (group ++ [":"%byte]) split_seen
                               else split_chown rest' (user ++ [":"%byte]) group split_seen
        | _ => put c rest
        end
      else if bool_decide (c = ":"%byte) then split_chown rest user group true
      else put c rest
  end.
Definition identity_split_chown (value : list byte) : outcome (list byte * list byte) :=
  check (malloc_ok (zlen value + 1));;
  let '(user, group) := split_chown value [] [] false in
  u ← str_dup (Some user);
  g ← str_dup (Some group);
  Ret (u, g).

(** Colons that are not escaped. *)
Fixpoint unescaped_colons (s : list byte) : Z :=
  match s with
  | [] => 0
  | c :: rest =>
      if bool_decide (c = "\"%byte) then
        match rest with ":"%byte :: rest' => unescaped_colons rest' | _ => unescaped_colons rest end
      else (if bool_decide (c = ":"%byte) then 1 else 0) + unescaped_colons rest
  end.

(** identity.c [identity_append_chown_rule], [identity_parse_chown_side] *)
Definition identity_append_chown_rule (c : Config) (is_group : bool) (token : list byte) : outcome Config :=
  '(to, name) ←
    (if strcmp token star =? 0 then Ret (IDENTITY_CURRENT, None)
     else if identity_all_digits (strip_at token) then id ← identity_resolve_token token is_group; Ret (id, None)
     else d ← str_dup (Some token); Ret (0, Some d));
  identity_append_rule c is_group (MkIdMap IDENTITY_MATCH_ANY IDENTITY_MATCH_ANY to name).
Definition identity_parse_chown_side (c : Config) (is_group : bool) (token : list byte) : outcome Config :=
  c ← identity_append_chown_rule c is_group token;
  match identity_resolve_token token is_group with
  | Ret id =>
      let '(set_name, id_name) := if is_group then ("chown_gid_set", "chown_gid") else ("chown_uid_set", "chown_uid") in
      Ret (<[set_name := VBool true]> (<[id_name := VInt id]> c))
  | Fail => check (negb (identity_all_digits (strip_at token)));; Ret c
  | Stuck => Stuck
  end.

(** identity.c [identity_parse_chown] *)
Definition identity_parse_chown (c : Config) (value : option (list byte)) : outcome Config :=
  value ← of_option value;
  check (negb (at_end value 0));;
  let colons := unescaped_colons value in
  check (negb (colons >? 1));;
  '(user, group) ← identity_split_chown value;
  let no_user := bool_decide (user = []) in
  let no_group := bool_decide (group = []) in
  if colons =? 0 then
    check (negb no_user);; identity_parse_chown_side c false user
  else
    c ← (if no_user then Ret c else identity_parse_chown_side c false user);
    c ← (if no_group then Ret c else identity_parse_chown_side c true group);
    check (negb (no_user && no_group));; Ret c.

(** identity.c [identity_resolve_copy_as_id], [identity_parse_copy_as] *)
Definition identity_resolve_copy_as_id (token : list byte) (is_group : bool) : outcome Z :=
  if strcmp token star =? 0 then
    check (identity_id_fits_int32 (effective_id is_group));; Ret (i32 (effective_id is_group))
  else identity_resolve_token token is_group.
Definition identity_parse_copy_as (c : Config) (value : option (list byte)) : outcome Config :=
  value ← of_option value;
  check (negb (at_end value 0));;
  check (negb (Z.of_nat (length (filter (fun b => b = ":"%byte) value)) >? 1));;
  spec ← str_dup (Some value);
  let '(user_token, group_token) :=
    match split_first ":"%byte spec with Some (u, g) => (u, Some g) | None => (spec, None) end in
  check (negb (bool_decide (user_token = [])));;
  uid ← identity_resolve_copy_as_id user_token false;
  gid ← match group_token with
        | Some g => check (negb (bool_decide (g = [])));; identity_resolve_copy_as_id g true
        | None => match primary_gid (u32 uid) with
                  | Some g => check (identity_id_fits_int32 g);; Ret (i32 g)
                  | None => Ret uid
                  end
        end;
  check (negb ((uid <? 0) || (gid <? 0)));;
  Ret (<["copy_as_set" := VBool true]> (<["copy_as_uid" := VInt uid]> (<["copy_as_gid" := VInt gid]> c))).
End Parse.

(** ** The receiver's policy *)

(** identity.c [IdentityActive] *)
Record IdentityActive := MkActive {
  a_numeric_ids : bool;
  a_chown_uid_set : bool; a_chown_uid : Z;
  a_chown_gid_set : bool; a_chown_gid : Z;
  a_usermap : list IdentityMap; a_usermap_count : Z;
  a_groupmap : list IdentityMap; a_groupmap_count : Z;
  a_super_mode : Z;
  a_copy_as_set : bool; a_copy_as_uid : Z; a_copy_as_gid : Z;
  a_preserve_owner : bool; a_preserve_group : bool;
  a_fake_super : bool;
  a_set : bool;
}.

(** identity.c [identity_active_reset], [identity_clear_active] *)
Definition identity_active_reset : IdentityActive :=
  MkActive false false 0 false 0 [] 0 [] 0 SUPER_MODE_AUTO false 0 0 false false false false.

(** identity.c [privilege_super_mode_permitted] *)
Definition privilege_super_mode_permitted (mode : Z) : bool := negb (mode =? SUPER_MODE_OFF).
Definition privilege_super_permitted (a : IdentityActive) : bool := privilege_super_mode_permitted (a_super_mode a).

(** identity.c [identity_active_enabled], [identity_owner_requested],
    [identity_group_requested], [identity_copy_as_active] *)
Definition identity_active_enabled (a : IdentityActive) : bool :=
  a_set a && (a_chown_uid_set a || a_chown_gid_set a || (a_usermap_count a >? 0) || (a_groupmap_count a >? 0)
              || a_copy_as_set a || a_preserve_owner a || a_preserve_group a).
Definition identity_owner_requested (a : IdentityActive) : bool :=
  a_set a && (a_copy_as_set a || a_chown_uid_set a || a_preserve_owner a || (a_usermap_count a >? 0)).
Definition identity_group_requested (a : IdentityActive) : bool :=
  a_set a && (a_copy_as_set a || a_chown_gid_set a || a_preserve_group a || (a_groupmap_count a >? 0)).
Definition identity_copy_as_active (a : IdentityActive) : bool := a_set a && a_copy_as_set a.

(** identity.c [identity_ownership_requested],
    [identity_explicit_ownership_requested], [identity_copy_as_refused] *)
Definition SUPER_MODE_ON : Z := 1.
Definition identity_explicit_ownership_requested (c : Config) : bool :=
  get_bool c "numeric_ids" || get_bool c "chown_uid_set" || get_bool c "chown_gid_set" || (get_int c "usermap_count" >? 0)
  || (get_int c "groupmap_count" >? 0) || get_bool c "copy_as_set" || get_bool c "fake_super"
  || (get_int c "super_mode" =? SUPER_MODE_ON).
Definition identity_ownership_requested (c : Config) : bool :=
  identity_explicit_ownership_requested c || get_bool c "preserve_owner" || get_bool c "preserve_group".

Section Apply.
Context {h : Heap} {AC : Accounts}.

Definition identity_copy_as_refused (c : Config) : bool :=
  get_bool c "copy_as_set" && (negb (effective_id false =? 0) || (get_int c "super_mode" =? SUPER_MODE_OFF)).

(** The deep copy of a map in [identity_set_active] *)
Definition copy_rule (m : IdentityMap) : outcome IdentityMap :=
  name ← match to_name m with None => Ret None | Some n => d ← str_dup (Some n); Ret (Some d) end;
  Ret (MkIdMap (id_from m) (id_from_hi m) (id_to m) name).
Fixpoint copy_rules (l : list IdentityMap) : outcome (list IdentityMap) :=
  match l with
  | [] => Ret []
  | m :: l => m ← copy_rule m; l ← copy_rules l; Ret (m :: l)
  end.
Definition copy_map (c : Config) (is_group : bool) : outcome (list IdentityMap * Z) :=
  let count := get_int c (count_name is_group) in
  if count >? 0 then
    check (malloc_ok (count * sizeof_IdentityMap));;
    cells ← first_cells count (get_ids c (map_name is_group));
    l ← copy_rules cells;
    Ret (l, count)
  else Ret ([], 0).

(** identity.c [identity_set_active]: the policy, and the result *)
Definition identity_set_active (c : option Config) : outcome (IdentityActive * bool) :=
  match c with
  | None => Ret (identity_active_reset, true)
  | Some c =>
      match ('(um, un) ← copy_map c false; '(gm, gn) ← copy_map c true; Ret (um, un, gm, gn)) with
      | Ret (um, un, gm, gn) =>
          Ret (MkActive (get_bool c "numeric_ids") (get_bool c "chown_uid_set") (get_int c "chown_uid")
                 (get_bool c "chown_gid_set") (get_int c "chown_gid") um un gm gn (get_int c "super_mode")
                 (get_bool c "copy_as_set") (get_int c "copy_as_uid") (get_int c "copy_as_gid")
                 (get_bool c "preserve_owner") (get_bool c "preserve_group") (get_bool c "fake_super") true, true)
      | Fail => Ret (identity_active_reset, false)
      | Stuck => Stuck
      end
  end.

(** identity.c [identity_map_from_matches] *)
Definition identity_map_from_matches (m : IdentityMap) (id : Z) (is_group : bool) : bool :=
  if id_from m =? IDENTITY_MATCH_ANY then true
  else if id_from m =? IDENTITY_MATCH_UNNAMED then bool_decide (name_of_id is_group (u32 id) = None)
  else (id >=? id_from m) && (id <=? id_from_hi m).

(** identity.c [identity_map_lookup], over the rest of the rules *)
Fixpoint identity_map_lookup (map : list IdentityMap) (source_id : Z) (is_group : bool) : option Z :=
  match map with
  | [] => None
  | m :: map =>
      if negb (identity_map_from_matches m source_id is_group) then identity_map_lookup map source_id is_group
      else match to_name m with
           | Some n => match id_of_name is_group n with
                       | Some id => Some (i32 id)
                       | None => identity_map_lookup map source_id is_group
                       end
           | None => Some (id_to m)
           end
  end.

(** identity.c [identity_resolve_owner] and its group counterpart
    [identity_resolve_group]; [None] when the side is not requested *)
Definition current_or (is_group : bool) (id : Z) : Z := if id =? IDENTITY_CURRENT then effective_id is_group else u32 id.
Definition resolve_side (requested chown_set : bool) (chown : Z) (numeric : bool) (map : list IdentityMap) (count : Z)
    (is_group : bool) (source : Z) : outcome (option Z) :=
  if negb requested then Ret None
  else
    cells ← first_cells count map;
    match identity_map_lookup cells source is_group with
    | Some target => Ret (Some (current_or is_group target))
    | None =>
        if chown_set then Ret (Some (current_or is_group chown))
        else if numeric then Ret (Some (u32 source))
        else match name_of_id is_group (u32 source) with
             | Some n => Ret (Some (default (u32 source) (id_of_name is_group n)))
             | None => Ret (Some (u32 source))
             end
    end.
Definition identity_resolve_owner (a : IdentityActive) (source_uid : Z) : outcome (option Z) :=
  resolve_side (a_chown_uid_set a || a_preserve_owner a || (a_usermap_count a >? 0)) (a_chown_uid_set a) (a_chown_uid a)
    (a_numeric_ids a) (a_usermap a) (a_usermap_count a) false source_uid.
Definition identity_resolve_group (a : IdentityActive) (source_gid : Z) : outcome (option Z) :=
  resolve_side (a_chown_gid_set a || a_preserve_group a || (a_groupmap_count a >? 0)) (a_chown_gid_set a) (a_chown_gid a)
    (a_numeric_ids a) (a_groupmap a) (a_groupmap_count a) true source_gid.

(** [(uid_t)-1]: leave this side alone *)
Definition NO_CHANGE : Z := 2 ^ 32 - 1.

(** identity.c [identity_resolve_targets] against the entry's owner and group *)
Definition identity_resolve_targets (a : IdentityActive) (st : Z * Z) (source_uid source_gid : Z) : outcome (option (Z * Z)) :=
  if a_copy_as_set a then
    let target := (u32 (a_copy_as_uid a), u32 (a_copy_as_gid a)) in
    Ret (if (fst st =? fst target) && (snd st =? snd target) then None else Some target)
  else
    owner ← identity_resolve_owner a source_uid;
    group ← identity_resolve_group a source_gid;
    let uid := default NO_CHANGE owner in
    let gid := default NO_CHANGE group in
    Ret (if bool_decide (owner = None) && bool_decide (group = None) then None
         else if negb ((negb (bool_decide (owner = None)) && negb (uid =? fst st))
                       || (negb (bool_decide (group = None)) && negb (gid =? snd st))) then None
         else Some (uid, gid)).

(** identity.c [identity_apply_ownership], [identity_apply_ownership_link]:
    [valid] is [fd >= 0] (resp. a parent and a leaf), [stat] the entry's owner
    and group if it can be read, [chown] whether [fchown] succeeds.  The call
    made, if any, and the result. *)
Definition identity_apply_ownership (a : IdentityActive) (valid : bool) (stat : option (Z * Z)) (chown : Z * Z -> bool)
    (source_uid source_gid : Z) : outcome (option (Z * Z) * bool) :=
  if negb (identity_active_enabled a) || a_fake_super a || negb (privilege_super_permitted a) || negb valid then Ret (None, true)
  else match stat with
       | None => Ret (None, negb (identity_copy_as_active a))
       | Some st =>
           t ← identity_resolve_targets a st source_uid source_gid;
           match t with
           | None => Ret (None, true)
           | Some target => Ret (Some target, if chown target then true else negb (identity_copy_as_active a))
           end
       end.

(** identity.c [identity_resolve_storage_ids], for --fake-super *)
Definition identity_resolve_storage_ids (a : IdentityActive) (source_uid source_gid : Z) : outcome (Z * Z) :=
  if a_copy_as_set a then Ret (u32 (a_copy_as_uid a), u32 (a_copy_as_gid a))
  else
    owner ← identity_resolve_owner a source_uid;
    group ← identity_resolve_group a source_gid;
    Ret (default (u32 source_uid) owner, default (u32 source_gid) group).
End Apply.

(** ** Expanding a wildcard *)

(** The ids of the accounts a pattern names. *)
Definition named_ids `{Accounts} (glob : list byte) (db : list (list byte * Z)) : list Z :=
  snd <$> filter (fun e => fnmatch glob (fst e) = true /\ snd e <= INT32_MAX) db.

Definition covers (runs : list (Z * Z)) (id : Z) : Prop := exists r, r ∈ runs /\ fst r <= id <= snd r.

Lemma elem_of_unique_ids x l : x ∈ unique_ids l <-> x ∈ l.
Proof.
  induction l as [|a l IH]; [done|]. simpl. rewrite elem_of_cons, <- IH. destruct (unique_ids l) as [|b r]; [set_solver|].
  destruct (Z.eqb_spec a b); set_solver.
Qed.

Lemma unique_ids_sorted l : StronglySorted Z.le l -> StronglySorted Z.lt (unique_ids l).
Proof.
  induction 1 as [|a l Hl IH Ha]; simpl; [constructor|].
  assert (Hle : Forall (Z.le a) (unique_ids l)).
  { rewrite Forall_forall in Ha. apply Forall_forall. intros x Hx. apply Ha. by apply elem_of_unique_ids. }
  destruct (unique_ids l) as [|b r]; [by repeat constructor|]. destruct (Z.eqb_spec a b); [done|].
  constructor; [done|]. apply StronglySorted_inv in IH as [_ Hb]. apply Forall_cons in Hle as [Hab _].
  constructor; [lia|]. eapply Forall_impl; [exact Hb|]. simpl. lia.
Qed.

Lemma id_runs_head a l : exists hi r, id_runs (a :: l) = (a, hi) :: r.
Proof. simpl. destruct (id_runs l) as [|[lo hi] r]; [eauto|]. destruct (identity_ids_adjacent a lo); eauto. Qed.

Lemma count_runs_length l : count_runs None l = zlen (id_runs l).
Proof.
  assert (Hs : forall l p, 1 + count_runs (Some p) l = zlen (id_runs (p :: l))).
  { clear. induction l as [|a l IH]; intros p; [done|]. change (id_runs (p :: a :: l)) with
      (match id_runs (a :: l) with (lo, hi) :: r => if identity_ids_adjacent p lo then (p, hi) :: r else (p, p) :: (lo, hi) :: r
       | [] => [(p, p)] end).
    specialize (IH a). destruct (id_runs_head a l) as (hi&r&E). rewrite E in IH |- *. cbn [count_runs].
    destruct (identity_ids_adjacent p a); rewrite !zlen_cons in *; lia. }
  destruct l as [|a l]; [done|]. cbn [count_runs]. apply Hs.
Qed.

Definition run_ok (r : Z * Z) : Prop := fst r <= snd r.

Lemma id_runs_ok l : Forall run_ok (id_runs l).
Proof.
  induction l as [|a l IH]; simpl; [constructor|]. destruct (id_runs l) as [|[lo hi] r].
  - constructor; [unfold run_ok; simpl; lia|constructor].
  - apply Forall_cons in IH as [H1 H2]. destruct (identity_ids_adjacent a lo) eqn:E.
    + constructor; [|done]. unfold identity_ids_adjacent in E. apply andb_true_iff in E as [_ E%Z.eqb_eq].
      unfold run_ok in *. simpl in *. lia.
    + constructor; [unfold run_ok; simpl; lia|by constructor].
Qed.

Lemma id_runs_cover l id : covers (id_runs l) id <-> id ∈ l.
Proof.
  unfold covers. induction l as [|a l IH].
  { simpl. split; [intros (r&Hr&_); by apply not_elem_of_nil in Hr|by intros ?%not_elem_of_nil]. }
  rewrite elem_of_cons, <- IH. simpl. pose proof (id_runs_ok l) as Hok. destruct (id_runs l) as [|[lo hi] r].
  - split.
    + intros (x&->%list_elem_of_singleton&Hx). simpl in Hx. left. lia.
    + intros [->|(x&Hx&_)]; [|by apply not_elem_of_nil in Hx]. exists (a, a). split; [set_solver|simpl; lia].
  - apply Forall_cons in Hok as [H1 _]. unfold run_ok in H1. simpl in H1. destruct (identity_ids_adjacent a lo) eqn:E.
    + unfold identity_ids_adjacent in E. apply andb_true_iff in E as [_ E%Z.eqb_eq]. split.
      * intros (x&[->|Hx]%elem_of_cons&Hr); simpl in *; [|right; exists x; set_solver].
        destruct (Z.eq_dec id a); [by left|]. right. exists (lo, hi). simpl. split; [set_solver|lia].
      * intros [->|(x&[->|Hx]%elem_of_cons&Hr)]; simpl in *.
        -- exists (a, hi). simpl. split; [set_solver|lia].
        -- exists (a, hi). simpl. split; [set_solver|lia].
        -- exists x. split; [set_solver|done].
    + split.
      * intros (x&[->|Hx]%elem_of_cons&Hr); simpl in *; [left; lia|]. right. by exists x.
      * intros [->|(x&Hx&Hr)]; [exists (a, a); simpl; split; [set_solver|lia]|]. exists x. split; [set_solver|done].
Qed.

(** Consecutive runs leave a gap. *)
Fixpoint separated (runs : list (Z * Z)) : Prop :=
  match runs with
  | (_, hi) :: (((lo, _) :: _) as rest) => hi + 1 < lo /\ separated rest
  | _ => True
  end.

Lemma id_runs_separated l : StronglySorted Z.lt l -> Forall (fun x => x <= INT32_MAX) l -> separated (id_runs l).
Proof.
  induction 1 as [|a l Hl IH Ha]; intros HF; [done|]. apply Forall_cons in HF as [HaM HF]. specialize (IH HF).
  destruct l as [|b l]; [done|]. apply Forall_cons in Ha as [Hab _]. destruct (id_runs_head b l) as (hi&r&E).
  change (id_runs (a :: b :: l)) with (match id_runs (b :: l) with (lo, hi) :: r => if identity_ids_adjacent a lo
    then (a, hi) :: r else (a, a) :: (lo, hi) :: r | [] => [(a, a)] end). rewrite E in IH |- *.
  destruct (identity_ids_adjacent a b) eqn:Eb.
  - by destruct r as [|[lo' hi'] r].
  - split; [|done]. unfold identity_ids_adjacent in Eb. apply Forall_cons in HF as [HbM _].
    destruct (Z.ltb_spec a INT32_MAX); [|lia]. simpl in Eb. apply Z.eqb_neq in Eb. lia.
Qed.

(** A configuration whose id map is as long as its count. *)
Definition map_wf (c : Config) (is_group : bool) : Prop :=
  get_int c (count_name is_group) = zlen (get_ids c (map_name is_group)).
(** The map of [c'] is that of [c] and then [new]; other members are kept. *)
Definition extends (c c' : Config) (is_group : bool) (new : list IdentityMap) : Prop :=
  get_ids c' (map_name is_group) = get_ids c (map_name is_group) ++ new /\ map_wf c' is_group /\
  forall n, n <> map_name is_group -> n <> count_name is_group -> c' !! n = c !! n.

Lemma extends_refl c g : map_wf c g -> extends c c g [].
Proof. intros Hw. split_and!; [by rewrite app_nil_r|done|done]. Qed.
Lemma extends_trans c1 c2 c3 g l k : extends c1 c2 g l -> extends c2 c3 g k -> extends c1 c3 g (l ++ k).
Proof.
  intros (E1&W1&O1) (E2&W2&O2). split_and!; [by rewrite E2, E1, app_assoc|done|]. intros n H1 H2. by rewrite O2, O1.
Qed.

Section ParseFacts.
Context {h : Heap} {AC : Accounts}.

Lemma append_rule_owp c g rule :
  map_wf c g ->
  owp (identity_append_rule c g rule) (fun c' => extends c c' g [rule] /\ zlen (get_ids c' (map_name g)) <= MAX_IDENTITY_MAP).
Proof.
  intros Hw. unfold identity_append_rule. wp_check Hc. wp_check Hm. rewrite Hw, first_cells_all. simpl.
  set (c' := <[_ := _]> _).
  assert (E : get_ids c' (map_name g) = get_ids c (map_name g) ++ [rule]).
  { subst c'. unfold get_ids. destruct g; by simplify_map_eq. }
  destruct (Z.geb_spec (get_int c (count_name g)) MAX_IDENTITY_MAP) as [|Hlt]; [done|]. rewrite Hw in Hlt.
  unfold extends, map_wf. rewrite E, zlen_app. change (zlen [rule]) with 1. split_and!; [done| | |lia].
  - rewrite <- Hw. subst c'. unfold get_int. destruct g; by simplify_map_eq.
  - intros n H1 H2. subst c'. by rewrite !lookup_insert_ne.
Qed.

Lemma append_runs_owp runs c g to name :
  map_wf c g -> zlen (get_ids c (map_name g)) <= MAX_IDENTITY_MAP ->
  owp (append_runs c g to name runs) (fun c' =>
    extends c c' g ((fun r => MkIdMap (fst r) (snd r) to name) <$> runs) /\ zlen (get_ids c' (map_name g)) <= MAX_IDENTITY_MAP).
Proof.
  revert c. induction runs as [|[lo hi] runs IH]; intros c Hw Hz; cbn [append_runs].
  - split; [by apply extends_refl|done].
  - wp_bind. apply (owp_mono _ (fun copy => copy = name)).
    { destruct name as [n|]; [|done]. unfold str_dup. simpl. by destruct (malloc_ok _). }
    intros copy ->. wp_bind. eapply owp_mono; [by apply append_rule_owp|]. intros c1 [He1 Hz1].
    eapply owp_mono; [apply IH; [apply He1|done]|]. intros c2 [He2 Hz2]. split; [|done].
    rewrite fmap_cons. by apply (extends_trans c c1 c2 g [_]).
Qed.

Lemma match_entries_owp glob db ids cap :
  (forall n id, (n, id) ∈ db -> 0 <= id < 2 ^ 32) ->
  owp (match_entries glob db ids cap) (fun r => r = ids ++ named_ids glob db).
Proof.
  revert ids cap. induction db as [|[n id] db IH]; intros ids cap Hid; cbn [match_entries].
  - simpl. unfold named_ids. simpl. by rewrite app_nil_r.
  - assert (Hid' : forall n id, (n, id) ∈ db -> 0 <= id < 2 ^ 32) by (intros; apply (Hid n0); set_solver).
    specialize (Hid n id ltac:(set_solver)). unfold named_ids, identity_id_fits_int32. rewrite filter_cons. cbn [fst snd].
    destruct (decide (fnmatch glob n = true /\ id <= INT32_MAX)) as [[E1 E2]|Hno].
    2: { destruct (fnmatch glob n); cbn [negb]; [|by apply IH].
         destruct (Z.leb_spec id INT32_MAX); cbn [negb]; [by destruct Hno|by apply IH]. }
    rewrite E1. destruct (Z.leb_spec id INT32_MAX); [|lia]. cbn [negb].
    wp_bind. eapply (owp_mono _ (fun p => fst p = ids ++ [i32 id])).
    { unfold identity_ids_push. destruct (_ =? _); [|done]. wp_check Hm. done. }
    intros [ids' cap'] Hp. simpl in Hp. subst ids'. unfold INT32_MAX in *. rewrite i32_small by lia.
    eapply owp_mono; [by apply IH|]. intros r ->. rewrite <- app_assoc. done.
Qed.

(** Every id of the database is a 32-bit number. *)
Definition ids_32bit : Prop := forall g n id, (n, id) ∈ entries g -> 0 <= id < 2 ^ 32.

Lemma expand_owp c glob g to name :
  ids_32bit -> map_wf c g -> zlen (get_ids c (map_name g)) <= MAX_IDENTITY_MAP ->
  owp (identity_expand_from_glob c glob g to name) (fun c' =>
    exists runs, extends c c' g ((fun r => MkIdMap (fst r) (snd r) to name) <$> runs) /\
      zlen (get_ids c' (map_name g)) <= MAX_IDENTITY_MAP /\
      (forall id, covers runs id <-> id ∈ named_ids glob (entries g)) /\ separated runs /\ Forall run_ok runs).
Proof.
  intros H32 Hw Hz. unfold identity_expand_from_glob. wp_bind. eapply owp_mono; [apply match_entries_owp; apply H32|].
  intros ids ->. cbn [app]. wp_check Hne. wp_check Hfit. eapply owp_mono; [by apply append_runs_owp|].
  intros c' [He Hz']. set (l := named_ids glob (entries g)) in *. exists (id_runs (unique_ids (merge_sort Z.le l))).
  assert (Hin : forall x, x ∈ unique_ids (merge_sort Z.le l) <-> x ∈ l).
  { intros x. rewrite elem_of_unique_ids. by rewrite (merge_sort_Permutation Z.le l). }
  split_and!; [done|done| | |apply id_runs_ok].
  - intros id. by rewrite id_runs_cover.
  - apply id_runs_separated.
    + apply unique_ids_sorted, StronglySorted_merge_sort; [|apply _]. intros x y z. lia.
    + apply Forall_forall. intros x Hx%Hin. unfold l, named_ids in Hx.
      apply list_elem_of_fmap in Hx as (e&->&(_&He2)%list_elem_of_filter%proj1). done.
Qed.

(** A wildcard in an id map stands for exactly the accounts it names.
    When the client accepts a rule whose FROM is a name pattern, the map grows
    by rules that share the rule's TO side, keeps its earlier rules, and an id
    lies in one of the new ranges if and only if some account of the database
    with that id (and an id the wire can carry) matches the pattern; the
    ranges are as few as possible, two never touch. *)
Lemma glob_expansion_exact c glob g to name c'
    (Hids : ids_32bit) (Hmap : map_wf c g) (Hsize : zlen (get_ids c (map_name g)) <= MAX_IDENTITY_MAP)
    (Hret : identity_expand_from_glob c glob g to name = Ret c') :
  exists runs,
    get_ids c' (map_name g) = get_ids c (map_name g) ++ ((fun r => MkIdMap (fst r) (snd r) to name) <$> runs) /\
    zlen (get_ids c' (map_name g)) <= MAX_IDENTITY_MAP /\ separated runs /\
    forall id, covers runs id <-> exists n, (n, id) ∈ entries g /\ fnmatch glob n = true /\ id <= INT32_MAX.
Proof.
  pose proof (expand_owp c glob g to name Hids Hmap Hsize) as Ho. rewrite Hret in Ho.
  destruct Ho as (runs&(E&_&_)&Hz&Hc&Hs&_). exists runs. split_and!; [done..|]. intros id. rewrite Hc.
  unfold named_ids. rewrite list_elem_of_fmap. setoid_rewrite list_elem_of_filter. split.
  - intros ([n i]&->&[Hf Hle]&Hin). by exists n.
  - intros (n&Hin&Hf&Hle). by exists (n, id).
Qed.

(** ** What the client parses, the receiver accepts *)

(** Names of the database have ids the wire can carry. *)
Definition names_small : Prop := forall g n id, id_of_name g n = Some id -> 0 <= id <= INT32_MAX.

Lemma resolve_token_owp token g :
  names_small -> token <> star -> owp (identity_resolve_token token g) (fun id => 0 <= id <= INT32_MAX).
Proof.
  intros Hn Ht. unfold identity_resolve_token. wp_check He. destruct (Z.eqb_spec (strcmp token star) 0) as [E%strcmp_eq|_]; [done|].
  destruct (identity_all_digits (strip_at token)) eqn:Ed.
  - destruct (strtol_digits _) as [v err]. wp_check Hv. apply andb_true_iff in Hv as [[_ H1]%andb_true_iff H2].
    unfold INT32_MAX in *. destruct (Z.geb_spec v 0), (Z.leb_spec v (2 ^ 31 - 1)); try done. simpl. rewrite i32_small by lia. lia.
  - destruct (id_of_name g token) as [id|] eqn:E; [|done]. simpl. apply Hn in E. unfold INT32_MAX in *. rewrite i32_small by lia. lia.
Qed.

Definition from_ok (from hi : Z) : Prop := (from = IDENTITY_MATCH_ANY \/ from = IDENTITY_MATCH_UNNAMED) /\ hi = from \/ 0 <= from <= hi.

Lemma parse_range_owp num r : parse_range num = Some r -> owp r (fun p => from_ok (fst p) (snd p)).
Proof.
  unfold parse_range. destruct (split_first _ num) as [[low high]|]; [|done]. simpl. destruct (_ || _); [done|].
  destruct (negb _); [done|]. destruct (identity_all_digits low && identity_all_digits high) eqn:Ed; [|done]. simpl. intros [= <-].
  apply andb_true_iff in Ed as [[_ H1]%andb_true_iff [_ H2]%andb_true_iff]. pose proof (decimal_nonneg low H1). pose proof (decimal_nonneg high H2).
  unfold strtol_digits. destruct (Z.gtb_spec (decimal low) LONG_MAX); [done|]. destruct (Z.gtb_spec (decimal high) LONG_MAX); [done|].
  cbn [negb check mbind outcome_bind orb]. destruct (Z.ltb_spec (decimal high) (decimal low)); [done|].
  destruct (Z.gtb_spec (decimal high) INT32_MAX); [done|]. simpl. unfold INT32_MAX in *. rewrite !i32_small by lia. right. lia.
Qed.

Lemma parse_from_owp token g : names_small -> owp (identity_parse_from token g) (fun p => from_ok (fst p) (snd p)).
Proof.
  intros Hn. unfold identity_parse_from. case_bool_decide; [left; simpl; auto|].
  destruct (Z.eqb_spec (strcmp token star) 0) as [_|Ht]; [left; simpl; auto|].
  assert (Hs : owp (id ← identity_resolve_token token g; Ret (id, id)) (fun p => from_ok (fst p) (snd p))).
  { wp_bind. eapply owp_mono; [apply resolve_token_owp; [done|]|].
    - intros ->. apply Ht. by apply strcmp_eq.
    - intros id [H1 H2]. right. simpl. lia. }
  destruct (identity_all_digits _); [done|]. destruct (parse_range _) as [r|] eqn:E; [|done]. by apply parse_range_owp in E.
Qed.

Lemma parse_to_owp token g : names_small -> owp (identity_parse_to token g) (fun p => IDENTITY_CURRENT <= fst p).
Proof.
  intros Hn. unfold identity_parse_to, IDENTITY_CURRENT. wp_check He. destruct (Z.eqb_spec (strcmp token star) 0) as [_|Ht]; [simpl; lia|].
  destruct (identity_all_digits _).
  - wp_bind. eapply owp_mono; [apply resolve_token_owp; [done|]|].
    + intros ->. apply Ht. by apply strcmp_eq.
    + intros id [H1 H2]. simpl. lia.
  - wp_check Hg. unfold str_dup. simpl. destruct (malloc_ok _); [|done]. simpl. lia.
Qed.

(** The receiver accepts the rule, or the name in it is too long for the wire. *)
Definition sendable (m : IdentityMap) : Prop :=
  identity_wire_map_valid m = true \/ exists n, to_name m = Some n /\ 255 < zlen n.

Lemma sendable_intro from hi to name : from_ok from hi -> IDENTITY_CURRENT <= to -> sendable (MkIdMap from hi to name).
Proof.
  intros Hf Ht. unfold sendable, identity_wire_map_valid, from_ok, IDENTITY_MATCH_UNNAMED, IDENTITY_CURRENT, IDENTITY_MATCH_ANY in *. simpl.
  destruct (Z.ltb_spec from (-2)); [lia|]. destruct (Z.ltb_spec to (-1)); [lia|].
  assert (Hr : (if from <? 0 then negb (hi =? from) else hi <? from) = false).
  { destruct (Z.ltb_spec from 0); [destruct (Z.eqb_spec hi from); [done|lia]|]. destruct (Z.ltb_spec hi from); [lia|done]. }
  rewrite Hr. destruct name as [n|]; [|by left]. destruct (Z.gtb_spec (zlen n) 255); [right; eauto|by left].
Qed.

Definition grown_by (P : IdentityMap -> Prop) (g : bool) (c c' : Config) : Prop :=
  exists new, extends c c' g new /\ Forall P new /\ zlen (get_ids c' (map_name g)) <= MAX_IDENTITY_MAP.

Lemma grown_trans P g c1 c2 c3 : grown_by P g c1 c2 -> grown_by P g c2 c3 -> grown_by P g c1 c3.
Proof.
  intros (l&E1&F1&_) (k&E2&F2&Z2). exists (l ++ k). split_and!; [by eapply extends_trans|by apply Forall_app|done].
Qed.

Lemma map_rule_owp g rule c :
  names_small -> ids_32bit -> (forall n id, (n, id) ∈ entries g -> 0 <= id) ->
  map_wf c g -> zlen (get_ids c (map_name g)) <= MAX_IDENTITY_MAP ->
  owp (parse_map_rule g rule c) (grown_by sendable g c).
Proof.
  intros Hn H32 Hpos Hw Hz. unfold parse_map_rule. destruct (split_first _ rule) as [[ft tt']|]; [|done]. simpl.
  destruct (_ && _).
  - wp_bind. eapply owp_mono; [by apply parse_to_owp|]. intros [to name] Hto. simpl in Hto.
    eapply owp_mono; [by apply expand_owp|]. intros c' (runs&He&Hz'&Hc&_&Hok).
    eexists. split_and!; [done| |done]. apply Forall_fmap, Forall_forall. intros [lo hi] Hr. simpl.
    rewrite Forall_forall in Hok. specialize (Hok _ Hr). unfold run_ok in Hok. simpl in Hok.
    apply sendable_intro; [|done]. right. split; [|done].
    assert (Hlo : covers runs lo) by (exists (lo, hi); simpl; split; [done|lia]).
    apply Hc in Hlo. unfold named_ids in Hlo. apply list_elem_of_fmap in Hlo as ([n i]&->&[_ Hi]%list_elem_of_filter). by apply (Hpos n).
  - wp_bind. eapply owp_mono; [by apply parse_from_owp|]. intros [from hi] Hfrom. simpl in Hfrom.
    wp_bind. eapply owp_mono; [by apply parse_to_owp|]. intros [to name] Hto. simpl in Hto.
    eapply owp_mono; [by apply append_rule_owp|]. intros c' [He Hz']. eexists. split_and!; [done| |done].
    constructor; [by apply sendable_intro|constructor].
Qed.

Lemma map_rules_owp g rules c :
  names_small -> ids_32bit -> map_wf c g -> zlen (get_ids c (map_name g)) <= MAX_IDENTITY_MAP ->
  owp (foldM (parse_map_rule g) rules c) (grown_by sendable g c).
Proof.
  intros Hn H32. revert c. induction rules as [|r rules IH]; intros c Hw Hz; simpl.
  - exists []. split_and!; [by apply extends_refl|constructor|done].
  - wp_bind. eapply owp_mono; [apply map_rule_owp; try done; intros n id Hi; by apply (H32 g n)|]. intros c1 (new&He&HF&Hz1).
    eapply owp_mono; [apply IH; [apply He|done]|]. intros c2 H2. eapply grown_trans; [|exact H2]. by exists new.
Qed.

(** The id maps a client builds are maps the receiver accepts.  When the
    account databases hold ids below 2^31, an accepted --usermap or --groupmap
    value extends the map without losing or reordering earlier rules, keeps
    the count equal to the number of rules and within the limit, and every
    new rule passes the receiver's wire check unless its TO name is longer
    than the 255 bytes the receiver allows; the parser never touches memory out
    of range. *)
Lemma parsed_map_accepted c value g
    (Hsmall : names_small) (Hids : ids_32bit) (Hmap : map_wf c g)
    (Hsize : zlen (get_ids c (map_name g)) <= MAX_IDENTITY_MAP) :
  match identity_parse_map c value g with
  | Ret c' => exists new, get_ids c' (map_name g) = get_ids c (map_name g) ++ new /\
                get_int c' (count_name g) = zlen (get_ids c' (map_name g)) /\
                zlen (get_ids c' (map_name g)) <= MAX_IDENTITY_MAP /\ Forall sendable new
  | Fail => True
  | Stuck => False
  end.
Proof.
  enough (Ho : owp (identity_parse_map c value g) (grown_by sendable g c)).
  { destruct (identity_parse_map c value g); [|done..]. destruct Ho as (new&(E&W&_)&HF&Hz). by exists new. }
  unfold identity_parse_map. destruct value as [value|]; [|done]. simpl. wp_check He. wp_bind.
  apply (owp_mono _ (fun d => d = value)); [unfold str_dup; simpl; by destruct (malloc_ok _)|]. intros d ->.
  by apply map_rules_owp.
Qed.
End ParseFacts.

(** ** Applying ownership *)

(** What a configuration asks for, side by side. *)
Definition owner_wanted (c : Config) : bool :=
  get_bool c "chown_uid_set" || get_bool c "preserve_owner" || (get_int c "usermap_count" >? 0).
Definition group_wanted (c : Config) : bool :=
  get_bool c "chown_gid_set" || get_bool c "preserve_group" || (get_int c "groupmap_count" >? 0).

(** A policy that mirrors a configuration. *)
Record mirrors (c : Config) (a : IdentityActive) : Prop := {
  m_users : a_usermap a = get_ids c "usermap" /\ a_usermap_count a = zlen (a_usermap a) /\ a_usermap_count a = get_int c "usermap_count";
  m_groups : a_groupmap a = get_ids c "groupmap" /\ a_groupmap_count a = zlen (a_groupmap a) /\ a_groupmap_count a = get_int c "groupmap_count";
  m_flags : a_numeric_ids a = get_bool c "numeric_ids" /\ a_chown_uid_set a = get_bool c "chown_uid_set" /\
            a_chown_uid a = get_int c "chown_uid" /\ a_chown_gid_set a = get_bool c "chown_gid_set" /\
            a_chown_gid a = get_int c "chown_gid" /\ a_preserve_owner a = get_bool c "preserve_owner" /\
            a_preserve_group a = get_bool c "preserve_group";
  m_copy_as : a_copy_as_set a = get_bool c "copy_as_set" /\ a_copy_as_uid a = get_int c "copy_as_uid" /\
              a_copy_as_gid a = get_int c "copy_as_gid";
  m_super : a_super_mode a = get_int c "super_mode" /\ a_fake_super a = get_bool c "fake_super";
}.

Section Ownership.
Context {h : Heap} {AC : Accounts}.

Lemma copy_rules_owp l : owp (copy_rules l) (fun k => k = l).
Proof.
  induction l as [|m l IH]; simpl; [done|]. wp_bind. apply (owp_mono _ (fun m' => m' = m)).
  - unfold copy_rule. destruct m as [f t o [n|]]; simpl; [|done]. unfold str_dup. simpl. by destruct (malloc_ok _).
  - intros m' ->. wp_bind. eapply owp_mono; [exact IH|]. by intros k ->.
Qed.

Lemma copy_map_owp c g :
  map_wf c g -> owp (copy_map c g) (fun p => fst p = get_ids c (map_name g) /\ snd p = zlen (get_ids c (map_name g))).
Proof.
  intros Hw. unfold copy_map. cbv zeta. unfold map_wf in Hw. rewrite !Hw. pose proof (zlen_nonneg (get_ids c (map_name g))) as Hz.
  destruct (Z.gtb_spec (zlen (get_ids c (map_name g))) 0) as [Hp|Hp].
  - wp_check Hm. rewrite first_cells_all. cbn [mbind outcome_bind]. wp_bind. eapply owp_mono; [apply copy_rules_owp|]. by intros k ->.
  - destruct (get_ids c (map_name g)) as [|m l]; [done|]. rewrite zlen_cons in Hp. pose proof (zlen_nonneg l). lia.
Qed.

(** The snapshot is complete or empty. *)
Lemma set_active_spec c :
  map_wf c false -> map_wf c true ->
  exists a ok, identity_set_active (Some c) = Ret (a, ok) /\
    (if ok : bool then a_set a = true /\ mirrors c a else a = identity_active_reset).
Proof.
  intros Hu Hg. unfold identity_set_active.
  assert (Ho : owp ('(um, un) ← copy_map c false; '(gm, gn) ← copy_map c true; Ret (um, un, gm, gn))
    (fun x => x = (get_ids c "usermap", zlen (get_ids c "usermap"), get_ids c "groupmap", zlen (get_ids c "groupmap")))).
  { wp_bind. eapply owp_mono; [by apply copy_map_owp|]. intros [um un] [E1 E2]. simpl in E1, E2. subst.
    wp_bind. eapply owp_mono; [by apply copy_map_owp|]. intros [gm gn] [E3 E4]. simpl in E3, E4. by subst. }
  destruct (_ : outcome _) as [x| |]; simpl in Ho; [subst x|by eexists _, false|done].
  eexists _, true. split; [done|]. split; [done|]. unfold map_wf in Hu, Hg. by split.
Qed.

Lemma resolve_side_spec requested cs_ cv num map count g source :
  count = zlen map ->
  exists r, resolve_side requested cs_ cv num map count g source = Ret r /\ requested = match r with Some _ => true | None => false end.
Proof.
  intros ->. unfold resolve_side. destruct requested; simpl; [|by eexists]. rewrite first_cells_all. simpl.
  destruct (identity_map_lookup _ _ _); [by eexists|]. destruct cs_; [by eexists|]. destruct num; [by eexists|].
  destruct (name_of_id _ _); by eexists.
Qed.

Lemma targets_spec c a st su sg :
  mirrors c a -> exists t, identity_resolve_targets a st su sg = Ret t /\ forall u g, t = Some (u, g) ->
    (get_bool c "copy_as_set" = true /\ u = u32 (get_int c "copy_as_uid") /\ g = u32 (get_int c "copy_as_gid") /\ (u, g) <> st) \/
    (get_bool c "copy_as_set" = false /\ (owner_wanted c = true \/ group_wanted c = true) /\
     (owner_wanted c = false -> u = NO_CHANGE) /\ (group_wanted c = false -> g = NO_CHANGE) /\
     (owner_wanted c = true -> identity_resolve_owner a su = Ret (Some u)) /\
     (group_wanted c = true -> identity_resolve_group a sg = Ret (Some g)) /\
     ((owner_wanted c = true /\ u <> fst st) \/ (group_wanted c = true /\ g <> snd st))).
Proof.
  intros [(Hu1&Hu2&Hu3) (Hg1&Hg2&Hg3) (F1&F2&F3&F4&F5&F6&F7) (C1&C2&C3) _]. unfold identity_resolve_targets. rewrite C1.
  destruct (get_bool c "copy_as_set").
  - eexists. split; [done|]. intros u g. destruct (_ && _) eqn:E; [done|]. intros [= <- <-]. left.
    rewrite C2, C3. split_and!; [done..|]. intros <-. rewrite C2, C3 in E. simpl in E. by rewrite !Z.eqb_refl in E.
  - destruct (resolve_side_spec (a_chown_uid_set a || a_preserve_owner a || (a_usermap_count a >? 0)) (a_chown_uid_set a)
      (a_chown_uid a) (a_numeric_ids a) (a_usermap a) (a_usermap_count a) false su Hu2) as (o&Eo&Ho).
    destruct (resolve_side_spec (a_chown_gid_set a || a_preserve_group a || (a_groupmap_count a >? 0)) (a_chown_gid_set a)
      (a_chown_gid a) (a_numeric_ids a) (a_groupmap a) (a_groupmap_count a) true sg Hg2) as (gr&Eg&Hgr).
    fold (identity_resolve_owner a su) in Eo. fold (identity_resolve_group a sg) in Eg. rewrite Eo, Eg. simpl.
    rewrite F2, F6, Hu3 in Ho. fold (owner_wanted c) in Ho. rewrite F4, F7, Hg3 in Hgr. fold (group_wanted c) in Hgr.
    eexists. split; [done|]. intros u g Ht. right. split; [done|].
    rewrite Ho, Hgr. clear Ho Hgr.
    destruct o as [u'|], gr as [g'|]; simpl in Ht |- *; [..|done];
      destruct (_ : bool) eqn:En in Ht; try done; injection Ht as <- <-;
      apply negb_false_iff in En; rewrite ?orb_true_iff, ?orb_false_r, !negb_true_iff, !Z.eqb_neq in En;
      split_and!; auto; try done; naive_solver.
Qed.

(** Ownership changes only as the configuration asks.  Take the policy that
    installing a configuration leaves behind, whether or not the installation
    succeeded, and any entry.  Applying the policy never reads out of range.  It
    reports failure only under --copy-as.  It calls [chown] only when the policy
    was installed, privileged operations are allowed, --fake-super is off and
    the entry's owner or group really changes; the ids passed are those of
    --copy-as, or else the ones resolved for the sides that were asked for
    while the other side is left alone. *)
Lemma ownership_policy c valid stat chown source_uid source_gid
    (Husers : map_wf c false) (Hgroups : map_wf c true) :
  exists a ok call r, identity_set_active (Some c) = Ret (a, ok) /\
    identity_apply_ownership a valid stat chown source_uid source_gid = Ret (call, r) /\
    (r = false -> ok = true /\ get_bool c "copy_as_set" = true /\ forall t, call = Some t -> chown t = false) /\
    (forall u g, call = Some (u, g) ->
      ok = true /\ get_int c "super_mode" <> SUPER_MODE_OFF /\ get_bool c "fake_super" = false /\
      exists st, stat = Some st /\
        if get_bool c "copy_as_set" then u = u32 (get_int c "copy_as_uid") /\ g = u32 (get_int c "copy_as_gid") /\ (u, g) <> st
        else (u = NO_CHANGE \/ owner_wanted c = true) /\ (g = NO_CHANGE \/ group_wanted c = true) /\
             (owner_wanted c = true -> identity_resolve_owner a source_uid = Ret (Some u)) /\
             (group_wanted c = true -> identity_resolve_group a source_gid = Ret (Some g)) /\
             ((owner_wanted c = true /\ u <> fst st) \/ (group_wanted c = true /\ g <> snd st))).
Proof.
  destruct (set_active_spec c Husers Hgroups) as (a&ok&E&Ha). exists a, ok. unfold identity_apply_ownership.
  destruct (_ || _ || _ || _) eqn:Eg; [by eexists _, _|].
  apply orb_false_iff in Eg as [[[En Ef]%orb_false_iff Es]%orb_false_iff _]. apply negb_false_iff in En, Es.
  destruct ok; [destruct Ha as [Hset Hm]|by subst a]. pose proof Hm as [_ _ _ (C1&_) (S1&S2)].
  unfold privilege_super_permitted, privilege_super_mode_permitted in Es. rewrite S1 in Es. apply negb_true_iff, Z.eqb_neq in Es.
  rewrite S2 in Ef. unfold identity_copy_as_active. rewrite Hset, C1. simpl.
  destruct stat as [st|].
  - destruct (targets_spec c a st source_uid source_gid Hm) as ([[u g]|]&Et&Ht); rewrite Et; simpl; [|by eexists _, _].
    eexists _, _. split_and!; [done..| |].
    + destruct (chown (u, g)) eqn:Ec; [done|]. intros Hc%negb_false_iff. split_and!; try done. by intros t [= <-].
    + intros u' g' [= <- <-]. split_and!; try done. exists st. split; [done|].
      destruct (Ht u g eq_refl) as [(->&?)|(->&_&H1&H2&?)]; [done|].
      split_and!; try tauto; [destruct (owner_wanted c)|destruct (group_wanted c)]; auto.
  - eexists _, _. split_and!; [done..| |done]. by intros Hc%negb_false_iff.
Qed.
End Ownership.

(** ** A small system *)

(** Two users and a group, each name a pattern for itself and the star for
    every name. *)
Definition demo_accounts : Accounts := {|
  entries g := if g then [(cs "staff", 50)] else [(cs "root", 0); (cs "daemon", 1); (cs "nobody", 65534); (cs "far", 4294967294)];
  id_of_name g n := if g then if bool_decide (n = cs "staff") then Some 50 else None
                    else if bool_decide (n = cs "root") then Some 0 else if bool_decide (n = cs "daemon") then Some 1 else None;
  name_of_id g i := None;
  primary_gid _ := Some 50;
  fnmatch p n := bool_decide (p = n) || bool_decide (p = cs "[a-z]*");
  effective_id _ := 0 |}.

Lemma demo_ids_32bit : @ids_32bit demo_accounts.
Proof. intros [] n id Hi; simpl in Hi; rewrite ?elem_of_cons, ?elem_of_nil in Hi; destruct_or?; simplify_eq; lia. Qed.
Lemma demo_names_small : @names_small demo_accounts.
Proof. intros [] n id Hi; simpl in Hi; repeat case_bool_decide; simplify_eq; unfold INT32_MAX; lia. Qed.

(** The user map of an accepted configuration. *)
Definition users_of (o : outcome Config) : option (list IdentityMap) :=
  match o with Ret c => Some (get_ids c "usermap") | _ => None end.

(** A name whose id does not fit the wire is truncated, not refused: as a FROM
    side, the user 4294967294 becomes the sentinel for ids without a name. *)
Definition far_accounts : Accounts := {|
  entries _ := []; id_of_name _ n := if bool_decide (n = cs "far") then Some 4294967294 else None;
  name_of_id _ _ := None; primary_gid _ := None; fnmatch _ _ := false; effective_id _ := 0 |}.
Example from_name_truncated :
  @identity_parse_from far_accounts (cs "far") false = Ret (IDENTITY_MATCH_UNNAMED, IDENTITY_MATCH_UNNAMED).
Proof. by vm_compute. Qed.
