(* ===== verification/DaemonConf.v ===== *)
(** The daemon's configuration, src/shared/daemon_conf.c: the strict parser of
    the configuration file, [--dparam] overrides, and host access control.
    [inet_pton] is outside the program and a field of the class [Inet]; error
    texts and warnings are left out. *)

From stdpp Require Import strings.
From S2P Require Import Prelude Alloc DataBuf CStr Glob Paths Transport Session Wp Names Libc.

#[local] Open Scope string_scope.
#[local] Open Scope list_scope.
#[local] Open Scope Z_scope.

(** [inet_pton] of the two families ([true] for AF_INET6): the address in
    network order, 4 or 16 bytes. *)
Class Inet := inet_pton : bool -> list byte -> option (list byte).
Definition addr_size (v6 : bool) : Z := if v6 then 16 else 4.
Class InetLaws (I : Inet) := inet_pton_size : forall v6 s a, inet_pton v6 s = Some a -> zlen a = addr_size v6.

(** daemon_conf.h *)
Record DaemonModule := MkModule {
  name : list byte; path : option (list byte); read_only : bool; read_only_explicit : bool; client_owner : bool;
  auth_users : list (list byte); max_connections : Z; hosts_allow : list (list byte); hosts_deny : list (list byte);
}.
Record DaemonConfGlobals := MkGlobals {
  port : Z; motd_file : option (list byte); address : option (list byte); read_only_default : bool;
  g_max_connections : Z; auth_failure_delay_ms : Z; max_connections_per_host : Z; auth_lockout_threshold : Z;
  auth_lockout_duration_sec : Z; g_hosts_allow : list (list byte); g_hosts_deny : list (list byte);
}.
Record DaemonConf := MkConf { global : DaemonConfGlobals; modules : list DaemonModule }.

Definition DAEMON_CONF_MAX_CONCURRENCY_LIMIT : Z := 1000000.
Definition DAEMON_CONF_MAX_AUTH_LOCKOUT_DURATION_SEC : Z := 604800.
Definition DAEMON_CONF_MAX_AUTH_FAILURE_DELAY_MS : Z := 5000.
Definition DAEMON_CONF_MAX_MODULES : Z := 256.
Definition DAEMON_CONF_MAX_LINE : Z := 4096.
Definition INET6_ADDRSTRLEN : Z := 46.
Definition sizeof_pointer : Z := 8.
Definition sizeof_DaemonConf : Z := 96.
Definition sizeof_DaemonModule : Z := 72.

(** Assignments to one member. *)
Definition set_module_path m v := MkModule (name m) v (read_only m) (read_only_explicit m) (client_owner m) (auth_users m) (max_connections m) (hosts_allow m) (hosts_deny m).
Definition set_read_only m v explicit := MkModule (name m) (path m) v explicit (client_owner m) (auth_users m) (max_connections m) (hosts_allow m) (hosts_deny m).
Definition set_client_owner m v := MkModule (name m) (path m) (read_only m) (read_only_explicit m) v (auth_users m) (max_connections m) (hosts_allow m) (hosts_deny m).
Definition set_auth_users m v := MkModule (name m) (path m) (read_only m) (read_only_explicit m) (client_owner m) v (max_connections m) (hosts_allow m) (hosts_deny m).
Definition set_max_connections m v := MkModule (name m) (path m) (read_only m) (read_only_explicit m) (client_owner m) (auth_users m) v (hosts_allow m) (hosts_deny m).
Definition set_hosts_allow m v := MkModule (name m) (path m) (read_only m) (read_only_explicit m) (client_owner m) (auth_users m) (max_connections m) v (hosts_deny m).
Definition set_hosts_deny m v := MkModule (name m) (path m) (read_only m) (read_only_explicit m) (client_owner m) (auth_users m) (max_connections m) (hosts_allow m) v.

Definition kRsyncInertGlobalKeys : list string :=
  ["pid file"; "pidfile"; "log file"; "logfile"; "socket options"; "sockopts"; "listen backlog"; "syslog facility";
   "syslog tag"; "log format"; "use chroot"; "uid"; "gid"; "timeout"; "max verbosity"; "min verbosity"; "lock file";
   "transfer logging"; "strict modes"; "reverse lookup"; "forward lookup"; "ignore errors"; "ignore nonreadable";
   "dont compress"].
Definition kRsyncInertModuleKeys : list string :=
  ["comment"; "use chroot"; "daemon chroot"; "uid"; "gid"; "daemon uid"; "daemon gid"; "exclude"; "include";
   "exclude from"; "include from"; "filter"; "max verbosity"; "min verbosity"; "lock file"; "transfer logging";
   "log file"; "log format"; "syslog facility"; "syslog tag"; "timeout"; "secrets file"; "auth digest"; "strict modes";
   "numeric ids"; "fake super"; "munge symlinks"; "list"; "dont compress"; "charset"; "refuse options";
   "incoming chmod"; "outgoing chmod"; "open noatime"; "max size"; "min size"; "temp dir"; "pre-xfer exec";
   "post-xfer exec"; "name converter"; "proxy protocol"; "proxy protocol hosts"; "reverse lookup"; "forward lookup";
   "ignore errors"; "ignore nonreadable"].

(** daemon_conf.c [trim_ws], [key_equals], [key_in_list], [parse_bool_value] *)
Definition is_blank (c : byte) : bool := match c with " " | "009" => true | _ => false end%byte.
Fixpoint skip_blanks (s : list byte) : list byte :=
  match s with c :: s' => if is_blank c then skip_blanks s' else s | [] => [] end.
Definition trim_ws (s : list byte) : list byte := rev (skip_blanks (rev (skip_blanks s))).
Definition key_equals (key : list byte) (canonical : string) : bool := strcaseeq key (cs canonical).
Definition key_in_list (key : list byte) (l : list string) : bool := existsb (key_equals key) l.
Definition parse_bool_value (value : list byte) : option bool :=
  if strcaseeq value (cs "yes") || strcaseeq value (cs "true") || (strcmp value (cs "1") =? 0) then Some true
  else if strcaseeq value (cs "no") || strcaseeq value (cs "false") || (strcmp value (cs "0") =? 0) then Some false
  else None.

(** Numbers of the file: a whole [strtol] within bounds. *)
Definition store_number (value : list byte) (lo hi : Z) : outcome Z :=
  let '(n, err, rest) := strtol value in
  check (negb (bool_decide (value = []) || err || negb (bool_decide (rest = [])) || (n <? lo) || (n >? hi)));; Ret n.
(** daemon_conf.c [store_max_connections], [store_optional_cap],
    [store_auth_failure_delay], [store_port] *)
Definition store_max_connections (value : list byte) : outcome Z := store_number value 1 INT_MAX.
Definition store_optional_cap (value : list byte) (max_value : Z) : outcome Z := store_number value 0 max_value.
Definition store_auth_failure_delay (value : list byte) : outcome Z :=
  store_number value 0 DAEMON_CONF_MAX_AUTH_FAILURE_DELAY_MS.
Definition store_port (value : list byte) : outcome Z := store_number value 1 65535.

Section Hosts.
Context {I : Inet}.

(** daemon_conf.c [parse_cidr]: the prefix, the address and its family *)
Definition parse_cidr (cidr : list byte) : option (Z * list byte * bool) :=
  '(addr, bits) ← split_first "/"%byte cidr;
  if (zlen addr =? 0) || (zlen addr >=? INET6_ADDRSTRLEN) then None
  else
    let '(prefix, _, rest) := strtol bits in
    if bool_decide (rest = bits) || negb (bool_decide (rest = [])) then None
    else match inet_pton false addr with
         | Some v4 => if (prefix <? 0) || (prefix >? 32) then None else Some (prefix, v4, false)
         | None =>
             match inet_pton true addr with
             | Some v6 => if (prefix <? 0) || (prefix >? 128) then None else Some (prefix, v6, true)
             | None => None
             end
         end.

(** daemon_conf.c [host_pattern_valid] *)
Definition has_char (c : byte) (s : list byte) : bool := existsb (is_char c) s.
Definition is_some {A} (o : option A) : bool := match o with Some _ => true | None => false end.
Definition host_pattern_valid (pattern : list byte) : bool :=
  if bool_decide (pattern = []) then false
  else if strcmp pattern (cs "*") =? 0 then true
  else if has_char "/"%byte pattern then is_some (parse_cidr pattern)
  else is_some (inet_pton false pattern) || is_some (inet_pton true pattern).

(** daemon_conf.c [bit_prefix_match] *)
Definition bit_prefix_match (a b : list byte) (prefix : Z) : outcome bool :=
  let whole := prefix / 8 in
  same ← (if whole >? 0 then x ← rd a 0 whole; y ← rd b 0 whole; Ret (bool_decide (x = y)) else Ret true);
  if negb same then Ret false
  else
    let remainder := prefix mod 8 in
    if remainder =? 0 then Ret true
    else
      let mask := u8 (Z.shiftl 255 (8 - remainder)) in
      x ← ld a whole;
      y ← ld b whole;
      Ret (Z.land (bZ x) mask =? Z.land (bZ y) mask).

Context {h : Heap}.

(** daemon_conf.c [host_glob_match] *)
Definition host_glob_match (pattern str : list byte) : outcome bool :=
  if (zlen pattern >=? 256) || (zlen str >=? 256) then glob_match pattern str
  else glob_match ((fun c => byte.of_Z (tolower c)) <$> pattern) ((fun c => byte.of_Z (tolower c)) <$> str).

(** daemon_conf.c [daemon_host_pattern_match] *)
Definition daemon_host_pattern_match (pattern peer_ip : list byte) : outcome bool :=
  if bool_decide (pattern = []) || bool_decide (peer_ip = []) then Ret false
  else if strcmp pattern (cs "*") =? 0 then Ret true
  else if has_char "/"%byte pattern then
    match parse_cidr pattern with
    | None => Ret false
    | Some (prefix, net, family) =>
        match inet_pton family peer_ip with
        | None => Ret false
        | Some peer => bit_prefix_match net peer prefix
        end
    end
  else match inet_pton false pattern with
       | Some v4 => Ret (bool_decide (inet_pton false peer_ip = Some v4))
       | None =>
           match inet_pton true pattern with
           | Some v6 => Ret (bool_decide (inet_pton true peer_ip = Some v6))
           | None => host_glob_match pattern peer_ip
           end
       end.

(** daemon_conf.c [daemon_hosts_allowed], [daemon_hosts_restricted] *)
Fixpoint any_matches (patterns : list (list byte)) (peer_ip : list byte) : outcome bool :=
  match patterns with
  | [] => Ret false
  | p :: patterns => m ← daemon_host_pattern_match p peer_ip; if m : bool then Ret true else any_matches patterns peer_ip
  end.
Definition daemon_hosts_allowed (peer_ip : option (list byte)) (allow deny : list (list byte)) : outcome bool :=
  match peer_ip with
  | None => Ret false
  | Some peer_ip =>
      denied ← any_matches deny peer_ip;
      if denied : bool then Ret false
      else if zlen allow >? 0 then any_matches allow peer_ip
      else Ret true
  end.
Definition daemon_hosts_restricted (allow deny : list (list byte)) : bool := (zlen allow >? 0) || (zlen deny >? 0).

(** daemon_conf.c [store_host_list]; when it fails the caller gives up the
    whole configuration. *)
Definition append_host (l : list (list byte)) (token : list byte) : outcome (list (list byte)) :=
  check (host_pattern_valid token);;
  count ← int_ok (zlen l + 1);
  check (malloc_ok (count * sizeof_pointer));;
  dup ← str_dup (Some token);
  Ret (l ++ [dup]).
Definition is_host_separator (c : byte) : bool := is_char ","%byte c || is_blank c.
Definition store_host_list (l : list (list byte)) (value : list byte) (replace : bool) : outcome (list (list byte)) :=
  let l := if replace then [] else l in
  copy ← str_dup (Some value);
  let tokens := strtok is_host_separator copy in
  l ← foldM (fun t l => append_host l t) tokens l;
  check (negb (zlen tokens =? 0));;
  Ret l.
End Hosts.

Section Load.
Context {I : Inet} {h : Heap}.

(** daemon_conf.c [daemon_conf_create] *)
Definition daemon_conf_create : outcome DaemonConf :=
  check (malloc_ok sizeof_DaemonConf);;
  Ret (MkConf (MkGlobals 873 None None true 100 500 0 10 300 [] []) []).

(** daemon_conf.c [daemon_conf_find_module] *)
Definition daemon_conf_find_module (conf : DaemonConf) (n : list byte) : option DaemonModule :=
  find (fun m => strcmp (name m) n =? 0) (modules conf).

(** daemon_conf.c [apply_global_key] *)
Definition default_read_only (parsed : bool) (m : DaemonModule) : DaemonModule :=
  if read_only_explicit m then m else set_read_only m parsed false.
Definition apply_global_key (conf : DaemonConf) (key value : list byte) (replace_hosts : bool) : outcome DaemonConf :=
  let g := global conf in
  let with_global g := Ret (MkConf g (modules conf)) in
  if key_equals key "port" then
    p ← store_port value;
    with_global (MkGlobals p (motd_file g) (address g) (read_only_default g) (g_max_connections g) (auth_failure_delay_ms g)
      (max_connections_per_host g) (auth_lockout_threshold g) (auth_lockout_duration_sec g) (g_hosts_allow g) (g_hosts_deny g))
  else if key_equals key "motd file" || key_equals key "motdfile" then
    v ← str_dup (Some value);
    with_global (MkGlobals (port g) (Some v) (address g) (read_only_default g) (g_max_connections g) (auth_failure_delay_ms g)
      (max_connections_per_host g) (auth_lockout_threshold g) (auth_lockout_duration_sec g) (g_hosts_allow g) (g_hosts_deny g))
  else if key_equals key "address" then
    v ← str_dup (Some value);
    with_global (MkGlobals (port g) (motd_file g) (Some v) (read_only_default g) (g_max_connections g) (auth_failure_delay_ms g)
      (max_connections_per_host g) (auth_lockout_threshold g) (auth_lockout_duration_sec g) (g_hosts_allow g) (g_hosts_deny g))
  else if key_equals key "read only" then
    parsed ← of_option (parse_bool_value value);
    Ret (MkConf (MkGlobals (port g) (motd_file g) (address g) parsed (g_max_connections g) (auth_failure_delay_ms g)
      (max_connections_per_host g) (auth_lockout_threshold g) (auth_lockout_duration_sec g) (g_hosts_allow g) (g_hosts_deny g))
      (default_read_only parsed <$> modules conf))
  else if key_equals key "max connections" then
    n ← store_max_connections value;
    with_global (MkGlobals (port g) (motd_file g) (address g) (read_only_default g) n (auth_failure_delay_ms g)
      (max_connections_per_host g) (auth_lockout_threshold g) (auth_lockout_duration_sec g) (g_hosts_allow g) (g_hosts_deny g))
  else if key_equals key "max connections per host" then
    n ← store_optional_cap value DAEMON_CONF_MAX_CONCURRENCY_LIMIT;
    with_global (MkGlobals (port g) (motd_file g) (address g) (read_only_default g) (g_max_connections g) (auth_failure_delay_ms g)
      n (auth_lockout_threshold g) (auth_lockout_duration_sec g) (g_hosts_allow g) (g_hosts_deny g))
  else if key_equals key "auth failure delay" then
    n ← store_auth_failure_delay value;
    with_global (MkGlobals (port g) (motd_file g) (address g) (read_only_default g) (g_max_connections g) n
      (max_connections_per_host g) (auth_lockout_threshold g) (auth_lockout_duration_sec g) (g_hosts_allow g) (g_hosts_deny g))
  else if key_equals key "auth lockout threshold" then
    n ← store_optional_cap value DAEMON_CONF_MAX_CONCURRENCY_LIMIT;
    with_global (MkGlobals (port g) (motd_file g) (address g) (read_only_default g) (g_max_connections g) (auth_failure_delay_ms g)
      (max_connections_per_host g) n (auth_lockout_duration_sec g) (g_hosts_allow g) (g_hosts_deny g))
  else if key_equals key "auth lockout duration" then
    n ← store_optional_cap value DAEMON_CONF_MAX_AUTH_LOCKOUT_DURATION_SEC;
    with_global (MkGlobals (port g) (motd_file g) (address g) (read_only_default g) (g_max_connections g) (auth_failure_delay_ms g)
      (max_connections_per_host g) (auth_lockout_threshold g) n (g_hosts_allow g) (g_hosts_deny g))
  else if key_equals key "hosts allow" then
    l ← store_host_list (g_hosts_allow g) value replace_hosts;
    with_global (MkGlobals (port g) (motd_file g) (address g) (read_only_default g) (g_max_connections g) (auth_failure_delay_ms g)
      (max_connections_per_host g) (auth_lockout_threshold g) (auth_lockout_duration_sec g) l (g_hosts_deny g))
  else if key_equals key "hosts deny" then
    l ← store_host_list (g_hosts_deny g) value replace_hosts;
    with_global (MkGlobals (port g) (motd_file g) (address g) (read_only_default g) (g_max_connections g) (auth_failure_delay_ms g)
      (max_connections_per_host g) (auth_lockout_threshold g) (auth_lockout_duration_sec g) (g_hosts_allow g) l)
  else check (key_in_list key kRsyncInertGlobalKeys);; Ret conf.

(** The "auth users" list of [apply_module_key] *)
Definition append_auth_user (token : list byte) (users : list (list byte)) : outcome (list (list byte)) :=
  let user := trim_ws token in
  if bool_decide (user = []) then Ret users
  else
    check (credentials_username_valid (Some user));;
    count ← int_ok (zlen users + 1);
    check (malloc_ok (count * sizeof_pointer));;
    dup ← str_dup (Some user);
    Ret (users ++ [dup]).
Definition store_auth_users (users : list (list byte)) (value : list byte) : outcome (list (list byte)) :=
  l ← str_dup (Some value);
  users' ← foldM append_auth_user (strtok (is_char ","%byte) l) users;
  check (negb (zlen users' - zlen users =? 0));;
  Ret users'.

(** daemon_conf.c [apply_module_key] *)
Definition apply_module_key (m : DaemonModule) (key value : list byte) : outcome DaemonModule :=
  if key_equals key "path" then
    check (negb (bool_decide (value = [])));;
    v ← str_dup (Some value);
    Ret (set_module_path m (Some v))
  else if key_equals key "read only" then
    parsed ← of_option (parse_bool_value value);
    Ret (set_read_only m parsed true)
  else if key_equals key "write only" then
    parsed ← of_option (parse_bool_value value);
    Ret (if parsed : bool then set_read_only m false true else m)
  else if key_equals key "client owner" then
    parsed ← of_option (parse_bool_value value);
    Ret (set_client_owner m parsed)
  else if key_equals key "auth users" then
    l ← store_auth_users (auth_users m) value; Ret (set_auth_users m l)
  else if key_equals key "max connections" then
    n ← store_optional_cap value DAEMON_CONF_MAX_CONCURRENCY_LIMIT; Ret (set_max_connections m n)
  else if key_equals key "hosts allow" then
    l ← store_host_list (hosts_allow m) value false; Ret (set_hosts_allow m l)
  else if key_equals key "hosts deny" then
    l ← store_host_list (hosts_deny m) value false; Ret (set_hosts_deny m l)
  else check (key_in_list key kRsyncInertModuleKeys);; Ret m.

(** daemon_conf.c [module_open_valid], [parse_section_name], [open_module] *)
Definition module_open_valid (m : DaemonModule) : bool := is_some (path m).
Definition parse_section_name (body : list byte) : outcome (list byte) :=
  let n := trim_ws body in check (daemon_module_name_valid (Some n));; Ret n.
Definition open_module (conf : DaemonConf) (current_module : Z) (n : list byte) : outcome (DaemonConf * Z) :=
  (if current_module >=? 0 then m ← ld (modules conf) current_module; check (module_open_valid m) else Ret tt);;
  check (negb (is_some (daemon_conf_find_module conf n)));;
  check (negb (zlen (modules conf) >=? DAEMON_CONF_MAX_MODULES));;
  check (malloc_ok ((zlen (modules conf) + 1) * sizeof_DaemonModule));;
  dup ← str_dup (Some n);
  let m := MkModule dup None (read_only_default (global conf)) false false [] 0 [] [] in
  Ret (MkConf (global conf) (modules conf ++ [m]), zlen (modules conf)).

(** daemon_conf.c [split_key_value], [unquote_value] *)
Definition split_key_value (line : list byte) : outcome (list byte * list byte) :=
  '(k, v) ← of_option (split_first "="%byte line); Ret (trim_ws k, trim_ws v).
Definition unquote_value (value : list byte) : outcome (list byte) :=
  match value with
  | Byte.x22 :: rest =>
      check (negb (zlen value <? 2));;
      check (bool_decide (last value = Some Byte.x22));;
      rd rest 0 (zlen value - 2)
  | _ => Ret value
  end.

Definition strip_last (c : byte) (line : list byte) : list byte :=
  if bool_decide (last line = Some c) then removelast line else line.
(** A key and its value, for the open module or the globals *)
Definition load_key (conf : DaemonConf) (current_module : Z) (cursor : list byte) : outcome (DaemonConf * Z) :=
  '(key, value) ← split_key_value cursor;
  check (negb (bool_decide (key = [])));;
  value ← unquote_value value;
  if current_module >=? 0 then
    m ← ld (modules conf) current_module;
    m ← apply_module_key m key value;
    ms ← st (modules conf) current_module m;
    Ret (MkConf (global conf) ms, current_module)
  else conf ← apply_global_key conf key value false; Ret (conf, current_module).

(** One line of [daemon_conf_load], its newline and carriage return removed *)
Definition load_line (line : list byte) (s : DaemonConf * Z) : outcome (DaemonConf * Z) :=
  let '(conf, current_module) := s in
  let cursor := skip_blanks line in
  match cursor with
  | [] => Ret s
  | "#"%byte :: _ | ";"%byte :: _ => Ret s
  | "["%byte :: _ =>
      '(header, trailing) ← of_option (split_first "]"%byte cursor);
      check (bool_decide (trim_ws trailing = []));;
      n ← parse_section_name (drop 1 header);
      open_module conf current_module n
  | _ => load_key conf current_module cursor
  end.

(** The loop of [daemon_conf_load] over the rest of the file *)
Fixpoint load_lines (fuel : nat) (fp : list byte) (s : DaemonConf * Z) : outcome (DaemonConf * Z) :=
  match fuel with
  | O => Stuck
  | S fuel =>
      let '(bytes, fp', eof) := fgets (Z.to_nat (DAEMON_CONF_MAX_LINE + 1)) fp in
      if bool_decide (bytes = []) then Ret s
      else
        let line := c_str bytes in
        check (negb ((zlen line =? DAEMON_CONF_MAX_LINE + 1) && negb (bool_decide (last line = Some newline)) && negb eof));;
        s ← load_line (strip_last Byte.x0d (strip_last newline line)) s;
        load_lines fuel fp' s
  end.

(** daemon_conf.c [daemon_conf_load]: [file] is what [fopen] gives, the bytes
    of the file and whether reading it ends in an error. *)
Definition daemon_conf_load (file : option (list byte * bool)) : outcome DaemonConf :=
  '(fp, ferror) ← of_option file;
  conf ← daemon_conf_create;
  '(conf, current_module) ← load_lines (S (length fp)) fp (conf, -1);
  check (negb ferror);;
  (if current_module >=? 0 then m ← ld (modules conf) current_module; check (module_open_valid m) else Ret tt);;
  Ret conf.

(** daemon_conf.c [daemon_conf_apply_dparam] *)
Definition daemon_conf_apply_dparam (conf : DaemonConf) (assignment : list byte) : outcome DaemonConf :=
  check (negb (bool_decide (assignment = [])));;
  copy ← str_dup (Some assignment);
  '(k, v) ← of_option (split_first "="%byte copy);
  let key := trim_ws k in
  let value := trim_ws v in
  check (negb (bool_decide (key = [])));;
  check (negb (bool_decide (value = [])));;
  apply_global_key conf key value true.

(** The daemon's start (server.c): the file, then the overrides in order. *)
Definition load_with_dparams (file : option (list byte * bool)) (dparams : list (list byte)) : outcome DaemonConf :=
  conf ← daemon_conf_load file;
  foldM (fun d conf => daemon_conf_apply_dparam conf d) dparams conf.
End Load.

(** ** What a loaded configuration satisfies *)

Lemma skip_blanks_length s : (length (skip_blanks s) <= length s)%nat.
Proof. induction s as [|c s IH]; simpl; [done|]. destruct (is_blank c); simpl; lia. Qed.
Lemma trim_ws_length s : (length (trim_ws s) <= length s)%nat.
Proof.
  unfold trim_ws. rewrite length_rev. pose proof (skip_blanks_length (rev (skip_blanks s))) as H1.
  pose proof (skip_blanks_length s). rewrite length_rev in H1. lia.
Qed.
Lemma c_str_length s : (length (c_str s) <= length s)%nat.
Proof. induction s as [|c s IH]; simpl; [done|]. case_bool_decide; simpl; lia. Qed.
Lemma removelast_length {A} (l : list A) : (length (removelast l) <= length l)%nat.
Proof. induction l as [|a [|b l] IH]; simpl in *; lia. Qed.
Lemma strip_last_length c s : (length (strip_last c s) <= length s)%nat.
Proof. unfold strip_last. case_bool_decide; [apply removelast_length|done]. Qed.
Lemma split_first_length sep s a b : split_first sep s = Some (a, b) -> (length a + length b < length s)%nat.
Proof. intros ->%split_first_app. rewrite length_app. simpl. lia. Qed.

Lemma owp_str_dup `{Heap} s (Q : list byte -> Prop) : Q s -> owp (str_dup (Some s)) Q.
Proof. unfold str_dup. simpl. by destruct (malloc_ok _). Qed.
Lemma owp_of_option {A} (o : option A) (Q : A -> Prop) : (forall a, o = Some a -> Q a) -> owp (of_option o) Q.
Proof. destruct o; simpl; auto. Qed.
Lemma owp_int_ok z (Q : Z -> Prop) : - 2 ^ 31 <= z < 2 ^ 31 -> Q z -> owp (int_ok z) Q.
Proof. intros Hz HQ. by rewrite int_ok_ret. Qed.
Lemma store_number_owp v lo hi : owp (store_number v lo hi) (fun n => lo <= n <= hi).
Proof. unfold store_number. destruct (strtol v) as [[n err] rest]. wp_check E. bool_to_prop. simpl. rewrite Z.gtb_ltb in *. bool_to_prop. lia. Qed.

Section Loaded.
Context {I : Inet} {h : Heap}.

(** Lists of checked strings; [grown k n l l']: between [k * n] and [n] of them
    were appended to [l]. *)
Definition all_valid (P : list byte -> bool) (l : list (list byte)) : Prop := Forall (fun x => P x = true) l.
Definition grown (k n : Z) (l l' : list (list byte)) : Prop := zlen l + k * n <= zlen l' <= zlen l + n.

Lemma foldM_append_owp (f : list byte -> list (list byte) -> outcome (list (list byte))) P k tokens l :
  (forall t l, all_valid P l -> zlen l + 1 < 2 ^ 31 -> owp (f t l) (fun l' => all_valid P l' /\ grown k 1 l l')) ->
  all_valid P l -> zlen l + zlen tokens < 2 ^ 31 ->
  owp (foldM f tokens l) (fun l' => all_valid P l' /\ grown k (zlen tokens) l l').
Proof.
  intros Hf. unfold grown in *. revert l. induction tokens as [|t ts IH]; intros l Hl Hn; simpl.
  - split; [done|]. unfold zlen. simpl. lia.
  - rewrite zlen_cons in *. pose proof (zlen_nonneg ts). wp_bind. eapply owp_mono; [apply (Hf t l); [done|lia]|].
    intros l1 [H1 G1]. eapply owp_mono; [apply IH; [done|lia]|]. intros l2 [H2 G2]. split; [done|lia].
Qed.

Lemma append_host_owp t l :
  all_valid host_pattern_valid l -> zlen l + 1 < 2 ^ 31 ->
  owp (append_host l t) (fun l' => all_valid host_pattern_valid l' /\ grown 1 1 l l').
Proof.
  intros HF Hn. unfold append_host. pose proof (zlen_nonneg l). wp_check Ev. wp_bind. apply owp_int_ok; [lia|].
  wp_check Em. wp_bind. apply owp_str_dup. simpl. split; [apply Forall_app; by split; [|constructor]|].
  unfold grown. rewrite zlen_app. unfold zlen. simpl. lia.
Qed.

(** A stored host list holds valid patterns and is never empty. *)
Lemma store_host_list_owp l value r :
  all_valid host_pattern_valid l -> zlen l + zlen value < 2 ^ 31 ->
  owp (store_host_list l value r) (fun l' => all_valid host_pattern_valid l' /\ zlen l' <= zlen l + zlen value /\ l' <> []).
Proof.
  intros Hl Hn. unfold store_host_list. pose proof (strtok_length is_host_separator value) as Ht. pose proof (zlen_nonneg l).
  set (l0 := if r then [] else l). assert (Hl0 : all_valid host_pattern_valid l0 /\ zlen l0 <= zlen l)
    by (unfold l0; destruct r; split; (done || constructor)). destruct Hl0 as [Hv0 Hz0].
  wp_bind. apply owp_str_dup. wp_bind. eapply owp_mono; [apply (foldM_append_owp _ host_pattern_valid 1); [|done|lia]|].
  { intros t k Hk Hz. by apply append_host_owp. }
  intros l' [Hv Hg]. wp_check Ec. apply negb_true_iff, Z.eqb_neq in Ec. unfold grown in Hg.
  pose proof (zlen_nonneg (strtok is_host_separator value)). pose proof (zlen_nonneg l0).
  split_and!; [done|lia|]. intros ->. assert (zlen (@nil (list byte)) = 0) by done. lia.
Qed.

Definition user_ok (u : list byte) : bool := credentials_username_valid (Some u).

Lemma append_auth_user_owp t l :
  all_valid user_ok l -> zlen l + 1 < 2 ^ 31 -> owp (append_auth_user t l) (fun l' => all_valid user_ok l' /\ grown 0 1 l l').
Proof.
  intros HF Hn. unfold append_auth_user. pose proof (zlen_nonneg l). unfold grown. case_bool_decide; [simpl; split; [done|lia]|].
  wp_check Ev. wp_bind. apply owp_int_ok; [lia|]. wp_check Em. wp_bind. apply owp_str_dup. simpl.
  split; [apply Forall_app; by split; [|constructor]|]. rewrite zlen_app. unfold zlen. simpl. lia.
Qed.

Lemma store_auth_users_owp l value :
  all_valid user_ok l -> zlen l + zlen value < 2 ^ 31 ->
  owp (store_auth_users l value) (fun l' => all_valid user_ok l' /\ zlen l' <= zlen l + zlen value /\ l' <> []).
Proof.
  intros Hl Hn. unfold store_auth_users. pose proof (strtok_length (is_char ","%byte) value) as Ht. pose proof (zlen_nonneg l).
  wp_bind. apply owp_str_dup. wp_bind. eapply owp_mono; [apply (foldM_append_owp _ user_ok 0); [|done|lia]|].
  { intros t k Hk Hz. by apply append_auth_user_owp. }
  intros l' [Hv Hg]. wp_check Ec. apply negb_true_iff, Z.eqb_neq in Ec. unfold grown in Hg.
  split_and!; [done|lia|]. intros ->. assert (zlen (@nil (list byte)) = 0) by done. lia.
Qed.

(** ** Invariants; [b] bounds the number of bytes read so far. *)

Record globals_ok (b : Z) (g : DaemonConfGlobals) : Prop := {
  go_port : 1 <= port g <= 65535;
  go_max : 1 <= g_max_connections g <= INT_MAX;
  go_delay : 0 <= auth_failure_delay_ms g <= DAEMON_CONF_MAX_AUTH_FAILURE_DELAY_MS;
  go_host : 0 <= max_connections_per_host g <= DAEMON_CONF_MAX_CONCURRENCY_LIMIT;
  go_threshold : 0 <= auth_lockout_threshold g <= DAEMON_CONF_MAX_CONCURRENCY_LIMIT;
  go_duration : 0 <= auth_lockout_duration_sec g <= DAEMON_CONF_MAX_AUTH_LOCKOUT_DURATION_SEC;
  go_allow : all_valid host_pattern_valid (g_hosts_allow g) /\ zlen (g_hosts_allow g) <= b;
  go_deny : all_valid host_pattern_valid (g_hosts_deny g) /\ zlen (g_hosts_deny g) <= b;
}.

Record module_ok (b : Z) (default : bool) (m : DaemonModule) : Prop := {
  mo_name : daemon_module_name_valid (Some (name m)) = true;
  mo_path : path m <> Some [];
  mo_read_only : read_only_explicit m = false -> read_only m = default;
  mo_users : all_valid user_ok (auth_users m) /\ zlen (auth_users m) <= b;
  mo_max : 0 <= max_connections m <= DAEMON_CONF_MAX_CONCURRENCY_LIMIT;
  mo_allow : all_valid host_pattern_valid (hosts_allow m) /\ zlen (hosts_allow m) <= b;
  mo_deny : all_valid host_pattern_valid (hosts_deny m) /\ zlen (hosts_deny m) <= b;
}.

Record conf_ok (b : Z) (conf : DaemonConf) : Prop := {
  co_globals : globals_ok b (global conf);
  co_modules : Forall (module_ok b (read_only_default (global conf))) (modules conf);
  co_names : NoDup (name <$> modules conf);
  co_count : zlen (modules conf) <= DAEMON_CONF_MAX_MODULES;
}.

Lemma globals_ok_mono b b' g : globals_ok b g -> b <= b' -> globals_ok b' g.
Proof. intros [????? ? [??] [??]] Hb. split; try done; split; done || lia. Qed.
Lemma module_ok_mono b b' d m : module_ok b d m -> b <= b' -> module_ok b' d m.
Proof. intros [??? [??] ? [??] [??]] Hb. split; try done; split; done || lia. Qed.
Lemma conf_ok_mono b b' conf : conf_ok b conf -> b <= b' -> conf_ok b' conf.
Proof.
  intros [????] Hb. split; try done; [by eapply globals_ok_mono|].
  eapply Forall_impl; [done|]. intros m Hm. by eapply module_ok_mono.
Qed.

Lemma apply_module_key_owp b d m key value :
  module_ok b d m -> 0 <= b -> b + zlen value < 2 ^ 31 ->
  owp (apply_module_key m key value) (fun m' => module_ok (b + zlen value) d m' /\ name m' = name m).
Proof.
  intros Hm H0 Hb. pose proof (zlen_nonneg value). assert (Hm' : module_ok (b + zlen value) d m) by (eapply module_ok_mono; [done|lia]).
  destruct Hm as [??? [U1 U2] ? [A1 A2] [D1 D2]]. destruct Hm'. unfold apply_module_key.
  repeat match goal with |- owp (if ?c then _ else _) _ => destruct c end.
  - wp_check Ev. wp_bind. apply owp_str_dup. simpl. apply negb_true_iff, bool_decide_eq_false in Ev.
    split; [|done]. split; simpl; try done. by intros [= ->].
  - wp_bind. apply owp_of_option. intros r _. simpl. split; [|done]. by split.
  - wp_bind. apply owp_of_option. intros r _. simpl. destruct r; (split; [|done]); by split.
  - wp_bind. apply owp_of_option. intros r _. simpl. split; [|done]. by split.
  - wp_bind. eapply owp_mono; [apply store_auth_users_owp; [done|lia]|]. intros l (?&?&_). simpl. split; [|done].
    split; simpl; try done. split; [done|lia].
  - wp_bind. eapply owp_mono; [apply store_number_owp|]. intros n Hn. simpl. split; [|done]. by split.
  - wp_bind. eapply owp_mono; [apply store_host_list_owp; [done|lia]|]. intros l (?&?&_). simpl. split; [|done].
    split; simpl; try done. split; [done|lia].
  - wp_bind. eapply owp_mono; [apply store_host_list_owp; [done|lia]|]. intros l (?&?&_). simpl. split; [|done].
    split; simpl; try done. split; [done|lia].
  - wp_check Ek. simpl. split; [|done]. by split.
Qed.

Lemma default_read_only_ok b d d' m : module_ok b d m -> module_ok b d' (default_read_only d' m).
Proof. intros []. unfold default_read_only. destruct (read_only_explicit m) eqn:E; split; simpl; try done. congruence. Qed.

Lemma apply_global_key_owp b conf key value r :
  conf_ok b conf -> 0 <= b -> b + zlen value < 2 ^ 31 ->
  owp (apply_global_key conf key value r)
    (fun conf' => conf_ok (b + zlen value) conf' /\ (forall i, path <$> modules conf' !! i = path <$> modules conf !! i)).
Proof.
  intros Hc H0 Hb. pose proof (zlen_nonneg value). assert (Hc' : conf_ok (b + zlen value) conf) by (eapply conf_ok_mono; [done|lia]).
  destruct Hc as [[?????? [A1 A2] [D1 D2]] ???]. destruct Hc' as [[] ???]. unfold apply_global_key. cbv zeta.
  repeat match goal with |- owp (if ?c then _ else _) _ => destruct c end.
  all: try (wp_bind; eapply owp_mono; [apply store_number_owp|]; intros n Hn; simpl; (split; [|done]); split; simpl; try done; by split).
  - wp_bind. apply owp_str_dup. simpl. split; [|done]. split; simpl; try done; by split.
  - wp_bind. apply owp_str_dup. simpl. split; [|done]. split; simpl; try done; by split.
  - wp_bind. apply owp_of_option. intros d _. simpl. split.
    + split; simpl; [by split| | |unfold zlen in *; by rewrite length_fmap].
      * apply Forall_fmap. eapply Forall_impl; [done|]. intros m Hm. by eapply default_read_only_ok.
      * rewrite <- list_fmap_compose. erewrite list_fmap_ext; [done|]. intros i m _. unfold default_read_only. simpl. by destruct (read_only_explicit m).
    + intros i. rewrite list_lookup_fmap. destruct (modules conf !! i) as [m|]; simpl; [|done]. unfold default_read_only.
      by destruct (read_only_explicit m).
  - wp_bind. eapply owp_mono; [apply store_host_list_owp; [done|lia]|]. intros l (?&?&_). simpl. split; [|done].
    split; simpl; try done. split; simpl; try done. split; [done|lia].
  - wp_bind. eapply owp_mono; [apply store_host_list_owp; [done|lia]|]. intros l (?&?&_). simpl. split; [|done].
    split; simpl; try done. split; simpl; try done. split; [done|lia].
  - wp_check Ek. simpl. split; [|done]. by split.
Qed.

(** While the file is read: the current module is the last one, and all the
    others have a path. *)
Definition loading (b : Z) (s : DaemonConf * Z) : Prop :=
  conf_ok b (fst s) /\ snd s = zlen (modules (fst s)) - 1 /\
  forall i m, modules (fst s) !! i = Some m -> Z.of_nat i < snd s -> path m <> None.

Lemma loading_mono b b' s : loading b s -> b <= b' -> loading b' s.
Proof. intros (?&?) ?. split; [by eapply conf_ok_mono|done]. Qed.

Lemma find_module_None conf n : daemon_conf_find_module conf n = None -> n ∉ name <$> modules conf.
Proof.
  unfold daemon_conf_find_module. intros Hf Hin. apply list_elem_of_fmap in Hin as (m&->&Hm).
  apply list_elem_of_In, (find_none _ _ Hf) in Hm as Hs. simpl in Hs. apply Z.eqb_neq in Hs. apply Hs. by apply strcmp_eq.
Qed.

Lemma current_has_path conf cur :
  owp (if cur >=? 0 then m ← ld (modules conf) cur; check (module_open_valid m) else Ret tt)
    (fun _ => forall i m, modules conf !! i = Some m -> Z.of_nat i = cur -> path m <> None) \/ zlen (modules conf) <= cur.
Proof.
  destruct (Z.geb_spec cur 0) as [Hge|Hlt]; [|left; simpl; lia]. destruct (Z.ltb_spec cur (zlen (modules conf))) as [Hl|Hl]; [|by right].
  left. destruct (ld_total (modules conf) cur) as [m E]; [lia|]. rewrite E. simpl. apply owp_check. intros Hv i m' Hi Hc.
  apply ld_ret_inv in E as [_ E]. assert (i = Z.to_nat cur) as -> by lia. unfold module_open_valid in Hv. rewrite E in Hi. injection Hi as <-.
  by destruct (path m).
Qed.

Lemma open_module_owp b conf cur n :
  loading b (conf, cur) -> 0 <= b -> daemon_module_name_valid (Some n) = true -> owp (open_module conf cur n) (loading b).
Proof.
  intros (Hc&Hcur&Hp) H0 Hn. simpl in *. unfold open_module.
  destruct (current_has_path conf cur) as [Hch|]; [|lia]. apply owp_bind. eapply owp_mono; [exact Hch|]. intros [] Hlast.
  wp_check Ef. wp_check Em. wp_check Ea. wp_bind. apply owp_str_dup. simpl. destruct Hc as [Hg Hm Hd Hz].
  apply negb_true_iff in Ef, Em. rewrite Z.geb_leb in Em. apply Z.leb_gt in Em.
  assert (Hnew : daemon_conf_find_module conf n = None) by (destruct (daemon_conf_find_module conf n); done).
  split_and!; simpl.
  - split; simpl; [done| | |rewrite zlen_app; unfold zlen in *; simpl; lia].
    + apply Forall_app. split; [done|]. constructor; [|done]. split; simpl; try done; (split; [constructor|done]).
    + rewrite fmap_app. apply NoDup_app. split_and!; [done| |apply NoDup_singleton]. intros x Hx ->%list_elem_of_singleton.
      by apply (find_module_None conf n).
  - rewrite zlen_app. unfold zlen. simpl. lia.
  - intros i m Hi Hlt. unfold zlen in *. rewrite lookup_app_l in Hi by lia.
    destruct (decide (Z.of_nat i = cur)) as [Hic|Hic]; [by apply (Hlast i)|]. apply (Hp i m Hi). lia.
Qed.

Lemma unquote_owp v : owp (unquote_value v) (fun v' => zlen v' <= zlen v).
Proof.
  unfold unquote_value. destruct v as [|c v]; [done|]. destruct (decide (c = Byte.x22)) as [->|Hc].
  - wp_check E1. wp_check E2. apply negb_true_iff, Z.ltb_ge in E1. rewrite zlen_cons in *. apply owp_rd; try lia.
  - destruct c; simpl; lia || done.
Qed.

Lemma load_key_owp b conf cur cursor :
  loading b (conf, cur) -> 0 <= b -> b + zlen cursor < 2 ^ 31 ->
  owp (load_key conf cur cursor) (loading (b + zlen cursor)).
Proof.
  intros (Hc&Hcur&Hp) H0 Hb. simpl in *. pose proof (zlen_nonneg cursor). unfold load_key. wp_bind. unfold split_key_value. wp_bind. apply owp_of_option. intros [k v] Hs. simpl.
  wp_check Ek. wp_bind. eapply owp_mono; [apply unquote_owp|]. intros v' Hv.
  assert (Hv' : zlen v' <= zlen cursor).
  { apply split_first_length in Hs. pose proof (trim_ws_length v). unfold zlen in *. lia. }
  destruct (Z.geb_spec cur 0) as [Hge|Hlt].
  - destruct (ld_total (modules conf) cur) as [m E]; [lia|]. rewrite E. cbn [mbind outcome_bind]. apply ld_ret_inv in E as [_ E].
    destruct Hc as [Hg Hm Hd Hz]. pose proof (Forall_lookup_1 _ _ _ _ Hm E) as Hmo.
    wp_bind. eapply owp_mono; [apply (apply_module_key_owp b (read_only_default (global conf))); [done..|lia]|]. intros m' [Hm' Hnm].
    rewrite st_ret by lia. simpl. split_and!; simpl; [|by rewrite zlen_insert|].
    + split; simpl; [eapply globals_ok_mono; [done|lia]| | |by rewrite zlen_insert].
      * apply Forall_insert; [|eapply module_ok_mono; [done|lia]]. eapply Forall_impl; [done|]. intros x Hx. eapply module_ok_mono; [done|lia].
      * rewrite list_fmap_insert, Hnm, list_insert_id; [done|]. by rewrite list_lookup_fmap, E.
    + intros i x Hi Hlt. apply (Hp i x); [|done]. rewrite list_lookup_insert_ne in Hi by lia. done.
  - wp_bind. eapply owp_mono; [apply (apply_global_key_owp b); [done|done|lia]|]. intros conf' [Hc' Hpaths]. simpl.
    assert (Hmod : modules conf' = []).
    { assert (modules conf = []) as Hnil by (apply nil_length_inv; pose proof (zlen_nonneg (modules conf)); unfold zlen in *; lia).
      specialize (Hpaths 0%nat). rewrite Hnil in Hpaths. simpl in Hpaths. by destruct (modules conf'). }
    split_and!; simpl; [eapply conf_ok_mono; [done|lia]| |].
    + rewrite Hmod. unfold zlen in *. simpl. pose proof (Zle_0_nat (length (modules conf))). lia.
    + intros i m. by rewrite Hmod.
Qed.

Lemma load_line_owp b line s :
  loading b s -> 0 <= b -> b + zlen line < 2 ^ 31 -> owp (load_line line s) (loading (b + zlen line)).
Proof.
  intros Hs H0 Hb. destruct s as [conf cur]. unfold load_line. pose proof (skip_blanks_length line) as Hsk.
  assert (Hsame : loading (b + zlen line) (conf, cur)) by (eapply loading_mono; [done|pose proof (zlen_nonneg line); lia]).
  assert (Hkey : owp (load_key conf cur (skip_blanks line)) (loading (b + zlen line))).
  { eapply owp_mono; [apply (load_key_owp b); [done|done|unfold zlen in *; lia]|]. intros s Hl.
    eapply loading_mono; [done|]. unfold zlen in *. lia. }
  destruct (skip_blanks line) as [|c r] eqn:E; [done|]. destruct (decide (c = "["%byte)) as [->|Hbr].
  - wp_bind. apply owp_of_option. intros [hd tr] _. simpl. wp_check Et. wp_bind. unfold parse_section_name. wp_check En. simpl.
    eapply owp_mono; [apply (open_module_owp b); [done|done|exact En]|]. intros s Hl. eapply loading_mono; [done|]. pose proof (zlen_nonneg line). lia.
  - destruct c; try exact Hkey; try exact Hsame. done.
Qed.

Lemma load_lines_owp fuel fp b s :
  (length fp < fuel)%nat -> loading b s -> 0 <= b -> b + zlen fp < 2 ^ 31 -> owp (load_lines fuel fp s) (loading (b + zlen fp)).
Proof.
  revert fp b s. induction fuel as [|fuel IH]; intros fp b s Hf Hs H0 Hb; [lia|]. cbn [load_lines].
  destruct (fgets _ fp) as [[bytes fp'] eof] eqn:E. apply fgets_spec in E as (->&_&Hne). rewrite zlen_app in *.
  pose proof (zlen_nonneg fp'). pose proof (zlen_nonneg bytes). rewrite length_app in Hf.
  case_bool_decide as Hb0; [eapply loading_mono; [done|lia]|]. wp_check Ec. wp_bind.
  set (line := strip_last _ _). assert (Hl : zlen line <= zlen bytes).
  { unfold line, zlen. pose proof (strip_last_length Byte.x0d (strip_last newline (c_str bytes))).
    pose proof (strip_last_length newline (c_str bytes)). pose proof (c_str_length bytes). lia. }
  eapply owp_mono; [apply (load_line_owp b); [done|done|lia]|]. intros s' Hs'.
  assert (0 < length bytes)%nat by (destruct bytes; simpl; [done|lia]).
  eapply owp_mono; [apply (IH fp' (b + zlen bytes)); [lia|eapply loading_mono; [done|lia]|lia|lia]|].
  intros s'' Hs''. eapply loading_mono; [done|lia].
Qed.

(** A configuration the daemon may serve from. *)
Definition servable (conf : DaemonConf) : Prop :=
  (exists b, conf_ok b conf) /\ Forall (fun m => exists p, path m = Some p /\ p <> []) (modules conf).

Lemma daemon_conf_load_owp fp ferror :
  zlen fp < 2 ^ 31 ->
  owp (daemon_conf_load (Some (fp, ferror))) (fun conf => conf_ok (zlen fp) conf /\ Forall (fun m => path m <> None) (modules conf)).
Proof.
  intros Hz. unfold daemon_conf_load. cbn [of_option mbind outcome_bind]. wp_bind. unfold daemon_conf_create. wp_check Em. apply owp_ret.
  assert (Hinit : loading 0 (MkConf (MkGlobals 873 None None true 100 500 0 10 300 [] []) [], -1)).
  { split_and!; simpl; [|done|intros i m; by rewrite lookup_nil]. split; simpl; [|constructor..|done].
    split; simpl; try done; by split; [constructor|]. }
  wp_bind. eapply owp_mono; [apply (load_lines_owp _ fp 0); [lia|exact Hinit|done|lia]|]. intros [conf cur] (Hc&Hcur&Hp). simpl in *.
  wp_check Ef. wp_bind. destruct (current_has_path conf cur) as [Hch|]; [|lia]. eapply owp_mono; [exact Hch|]. intros [] Hlast. simpl.
  split; [done|]. apply Forall_lookup. intros i m Hi. destruct (decide (Z.of_nat i = cur)); [by apply (Hlast i)|].
  apply (Hp i m Hi). apply lookup_lt_Some in Hi. unfold zlen in *. lia.
Qed.

Lemma dparam_owp b conf d :
  conf_ok b conf -> Forall (fun m => path m <> None) (modules conf) -> 0 <= b -> b + zlen d < 2 ^ 31 ->
  owp (daemon_conf_apply_dparam conf d) (fun conf' => conf_ok (b + zlen d) conf' /\ Forall (fun m => path m <> None) (modules conf')).
Proof.
  intros Hc Hp H0 Hb. unfold daemon_conf_apply_dparam. wp_check E1. wp_bind. apply owp_str_dup. wp_bind. apply owp_of_option.
  intros [k v] Hs. wp_check E2. wp_check E3. assert (Hv : zlen (trim_ws v) <= zlen d).
  { apply split_first_length in Hs. pose proof (trim_ws_length v). unfold zlen. lia. }
  eapply owp_mono; [apply (apply_global_key_owp b); [done|done|lia]|]. intros conf' [Hc' Hpath].
  split; [eapply conf_ok_mono; [done|lia]|]. rewrite Forall_lookup in Hp |- *. intros i m Hi. specialize (Hpath i). rewrite Hi in Hpath.
  simpl in Hpath. destruct (modules conf !! i) as [m'|] eqn:E; [|done]. simpl in Hpath. injection Hpath as ->. by apply (Hp i).
Qed.

(** C38: the daemon's configuration is sound whatever its file holds.  For a file
    and overrides of less than 2 GiB together, loading never reads out of range
    or overflows, and a configuration it returns has at most 256 modules with
    distinct valid names, each with a non-empty path, every number within its
    documented range, only valid host patterns and user names in its lists, and
    every module that did not choose otherwise follows the global read-only
    default, also after the overrides. *)
Theorem daemon_conf_sound fp ferror dparams
    (Hsize : zlen fp + zlen (concat dparams) < 2 ^ 31) :
  match load_with_dparams (Some (fp, ferror)) dparams with
  | Ret conf => servable conf
  | Fail => True
  | Stuck => False
  end.
Proof.
  assert (Hw : owp (load_with_dparams (Some (fp, ferror)) dparams)
    (fun conf => exists b, conf_ok b conf /\ Forall (fun m => path m <> None) (modules conf))).
  { pose proof (zlen_nonneg (concat dparams)). pose proof (zlen_nonneg fp). unfold load_with_dparams. wp_bind.
    eapply owp_mono; [apply daemon_conf_load_owp; lia|]. intros conf [Hc Hp].
    assert (Hb : 0 <= zlen fp) by lia. revert Hsize Hb Hc Hp. generalize (zlen fp). revert conf.
    clear. induction dparams as [|d ds IH]; intros conf b Hs Hb Hc Hp; simpl; [by exists b|].
    simpl in Hs. rewrite zlen_app in Hs. pose proof (zlen_nonneg (concat ds)). pose proof (zlen_nonneg d).
    wp_bind. eapply owp_mono; [apply (dparam_owp b); [done..|lia]|]. intros conf' [Hc' Hp']. apply (IH conf' (b + zlen d)); [lia|lia|done|done]. }
  destruct (load_with_dparams _ _) as [conf| |]; simpl in Hw; [|done..]. destruct Hw as (b&Hc&Hp).
  split; [by exists b|]. destruct Hc as [_ Hm _ _]. rewrite Forall_lookup in Hm, Hp |- *. intros i m Hi.
  destruct (Hm i m Hi) as [_ Hne _ _ _ _ _]. specialize (Hp i m Hi). destruct (path m) as [p|]; [|done]. exists p. split; [done|]. by intros ->.
Qed.
End Loaded.

(** ** Host access control *)

(** An address as its bits, most significant first. *)
Definition byte_bits (b : byte) : list bool := Z.testbit (bZ b) <$> [7; 6; 5; 4; 3; 2; 1; 0].
Definition addr_bits (a : list byte) : list bool := concat (byte_bits <$> a).

(** What a pattern of the configuration stands for: every host, or the addresses
    of a family that share the first [prefix] bits. *)
Inductive net := AnyHost | Net (v6 : bool) (base : list byte) (prefix : Z).
Definition net_of {I : Inet} (pattern : list byte) : option net :=
  if bool_decide (pattern = cs "*") then Some AnyHost
  else if has_char "/"%byte pattern then
    match parse_cidr pattern with Some (prefix, base, v6) => Some (Net v6 base prefix) | None => None end
  else match inet_pton false pattern, inet_pton true pattern with
       | Some a, _ => Some (Net false a 32)
       | None, Some a => Some (Net true a 128)
       | None, None => None
       end.
Definition in_net {I : Inet} (n : net) (peer : list byte) : Prop :=
  match n with
  | AnyHost => True
  | Net v6 base prefix => exists a, inet_pton v6 peer = Some a /\
      take (Z.to_nat prefix) (addr_bits a) = take (Z.to_nat prefix) (addr_bits base)
  end.

Definition bits_val (l : list bool) : Z := fold_left (fun a b => 2 * a + Z.b2z b) l 0.
Lemma bits_val_inj l l' : length l = length l' -> bits_val l = bits_val l' -> l = l'.
Proof.
  unfold bits_val. assert (Hg : forall l l' a a', length l = length l' ->
    fold_left (fun a b => 2 * a + Z.b2z b) l a = fold_left (fun a b => 2 * a + Z.b2z b) l' a' -> a = a' /\ l = l').
  { clear l l'. induction l as [|b l IH]; intros [|b' l'] a a' Hl He; cbn [length fold_left] in *; try done.
    injection Hl as Hl. destruct (IH l' _ _ Hl He) as [Ha ->]. destruct b, b'; cbn [Z.b2z] in Ha; try (exfalso; lia); (split; [lia|done]). }
  intros Hl He. by apply (Hg l l' 0 0).
Qed.

Definition all_bytes : list byte := byte.of_Z <$> seqZ 0 256.
Lemma byte_all (P : byte -> bool) : forallb P all_bytes = true -> forall b, P b = true.
Proof.
  intros Ha b. rewrite forallb_forall in Ha. apply Ha, list_elem_of_In, list_elem_of_fmap. exists (bZ b).
  split; [by rewrite byte.of_Z_unsigned|]. apply elem_of_seqZ. pose proof (bZ_range b). lia.
Qed.

Lemma bits_val_byte b : bits_val (byte_bits b) = bZ b.
Proof. apply Z.eqb_eq. revert b. apply byte_all. by vm_compute. Qed.
Lemma byte_bits_inj b b' : byte_bits b = byte_bits b' -> b = b'.
Proof. intros E. apply bZ_inj. by rewrite <- !bits_val_byte, E. Qed.

Lemma mask_bits r b : 1 <= r <= 7 ->
  Z.land (bZ b) (u8 (Z.shiftl 255 (8 - r))) = bits_val (take (Z.to_nat r) (byte_bits b)) * 2 ^ (8 - r).
Proof.
  intros Hr. apply Z.eqb_eq. revert b. assert (Hc : r = 1 \/ r = 2 \/ r = 3 \/ r = 4 \/ r = 5 \/ r = 6 \/ r = 7) by lia.
  destruct_or! Hc; subst r; apply byte_all; by vm_compute.
Qed.

Lemma mask_eq r x y : 1 <= r <= 7 ->
  Z.land (bZ x) (u8 (Z.shiftl 255 (8 - r))) = Z.land (bZ y) (u8 (Z.shiftl 255 (8 - r))) <->
  take (Z.to_nat r) (byte_bits x) = take (Z.to_nat r) (byte_bits y).
Proof.
  intros Hr. rewrite !mask_bits by done. split; [|by intros ->]. intros E. apply bits_val_inj; [by rewrite !length_take|].
  apply Z.mul_cancel_r in E; [done|]. apply Z.pow_nonzero; lia.
Qed.

Lemma addr_bits_app a b : addr_bits (a ++ b) = addr_bits a ++ addr_bits b.
Proof. unfold addr_bits. by rewrite fmap_app, concat_app. Qed.
Lemma addr_bits_length a : length (addr_bits a) = (8 * length a)%nat.
Proof. unfold addr_bits. induction a as [|b a IH]; [done|]. rewrite fmap_cons. cbn [concat]. rewrite length_app, IH. simpl. lia. Qed.
Lemma addr_bits_inj a b : length a = length b -> addr_bits a = addr_bits b -> a = b.
Proof.
  revert b. induction a as [|x a IH]; intros [|y b] Hl; try done. unfold addr_bits. rewrite !fmap_cons. cbn [concat].
  intros [Hx Ha]%app_inj_1; [|done]. f_equal; [by apply byte_bits_inj|]. apply IH; [by injection Hl|done].
Qed.

(** The first [8 * w + r] bits: whole bytes, then bits of the next one. *)
Lemma take_addr_bits w r a x : a !! w = Some x -> (r < 8)%nat ->
  take (8 * w + r) (addr_bits a) = addr_bits (take w a) ++ take r (byte_bits x).
Proof.
  intros Hx Hr. assert (Hw : (w < length a)%nat) by by eapply lookup_lt_Some.
  rewrite <- (take_drop w a) at 1. rewrite (drop_S a x w Hx), addr_bits_app.
  assert (Hl : length (addr_bits (take w a)) = (8 * w)%nat) by (rewrite addr_bits_length, length_take; lia).
  rewrite take_app, Hl, take_ge by lia. f_equal. replace (8 * w + r - 8 * w)%nat with r by lia.
  unfold addr_bits. rewrite fmap_cons. cbn [concat]. by rewrite take_app_le by (simpl; lia).
Qed.

Lemma take_addr_bits_whole w a : (w <= length a)%nat -> take (8 * w) (addr_bits a) = addr_bits (take w a).
Proof.
  intros Hw. rewrite <- (take_drop w a) at 1. rewrite addr_bits_app. apply take_app_length'. rewrite addr_bits_length, length_take. lia.
Qed.

(** The byte-wise comparison is the comparison of the first bits. *)
Lemma bit_prefix_match_spec a b prefix :
  length a = length b -> 0 <= prefix <= 8 * zlen a ->
  bit_prefix_match a b prefix = Ret (bool_decide (take (Z.to_nat prefix) (addr_bits b) = take (Z.to_nat prefix) (addr_bits a))).
Proof.
  intros Hl Hp. unfold bit_prefix_match. pose proof (Z.div_mod prefix 8) as Hd. pose proof (Z.mod_pos_bound prefix 8) as Hm.
  set (w := prefix / 8) in *. set (r := prefix mod 8) in *.
  assert (Hlb : zlen b = zlen a) by (unfold zlen; lia). assert (Hw0 : 0 <= w) by lia.
  assert (Hsame : (if w >? 0 then x ← rd a 0 w; y ← rd b 0 w; Ret (bool_decide (x = y)) else Ret true)
    = Ret (bool_decide (take (Z.to_nat w) b = take (Z.to_nat w) a))).
  { destruct (Z.gtb_spec w 0).
    - rewrite !rd_ret by lia. simpl. rewrite ?drop_0. f_equal. apply bool_decide_ext. (split; intros E0; congruence).
    - replace w with 0 by lia. simpl. done. }
  rewrite Hsame. cbn [mbind outcome_bind]. clear Hsame.
  assert (Hlt : length (take (Z.to_nat w) b) = length (take (Z.to_nat w) a)) by (rewrite !length_take; unfold zlen in *; lia).
  destruct (Z.eqb_spec r 0) as [Hr|Hr].
  - replace (Z.to_nat prefix) with (8 * Z.to_nat w)%nat by lia. rewrite !take_addr_bits_whole by (unfold zlen in *; lia).
    case_bool_decide as Hs; simpl; f_equal; symmetry; [apply bool_decide_eq_true_2; by f_equal|].
    apply bool_decide_eq_false_2. intros E. apply Hs. by apply addr_bits_inj.
  - destruct (ld_total a w) as [x Hx]; [unfold zlen in *; lia|]. destruct (ld_total b w) as [y Hy]; [unfold zlen in *; lia|].
    rewrite Hx, Hy. simpl. apply ld_ret_inv in Hx as [_ Hx]. apply ld_ret_inv in Hy as [_ Hy].
    replace (Z.to_nat prefix) with (8 * Z.to_nat w + Z.to_nat r)%nat by lia.
    rewrite !(take_addr_bits _ _ _ _ Hx), !(take_addr_bits _ _ _ _ Hy) by lia.
    case_bool_decide as Hs; simpl; f_equal; symmetry.
    + rewrite Hs. rewrite (bool_decide_ext _ (take (Z.to_nat r) (byte_bits y) = take (Z.to_nat r) (byte_bits x)));
        [|split; [apply app_inv_head|by intros ->]].
      destruct (Z.eqb_spec (Z.land (bZ x) (u8 (Z.shiftl 255 (8 - r)))) (Z.land (bZ y) (u8 (Z.shiftl 255 (8 - r))))) as [E|E].
      * apply bool_decide_eq_true_2. symmetry. apply mask_eq; [lia|done].
      * apply bool_decide_eq_false_2. intros E'. apply E. apply mask_eq; [lia|done].
    + apply bool_decide_eq_false_2. intros [E _]%app_inj_1; [|by rewrite !addr_bits_length, Hlt]. apply Hs. by apply addr_bits_inj.
Qed.

Section Access.
Context {I : Inet} {L : InetLaws I} {h : Heap}.

Lemma parse_cidr_ok c prefix base v6 :
  parse_cidr c = Some (prefix, base, v6) -> 0 <= prefix <= 8 * zlen base /\ zlen base = addr_size v6.
Proof.
  unfold parse_cidr. destruct (split_first _ c) as [[addr bits]|]; simpl; [|done]. destruct (_ || _); [done|].
  destruct (strtol bits) as [[z e] rest]. destruct (_ || _); [done|].
  destruct (inet_pton false addr) as [a|] eqn:E4.
  - destruct (_ || _) eqn:Eb; [done|]. intros [= <- <- <-]. apply inet_pton_size in E4. rewrite E4. rewrite Z.gtb_ltb in Eb.
    bool_to_prop. simpl. lia.
  - destruct (inet_pton true addr) as [a|] eqn:E6; [|done]. destruct (_ || _) eqn:Eb; [done|]. intros [= <- <- <-].
    apply inet_pton_size in E6. rewrite E6. rewrite Z.gtb_ltb in Eb. bool_to_prop. simpl. lia.
Qed.

Lemma literal_in_net v6 base peer :
  zlen base = addr_size v6 ->
  bool_decide (inet_pton v6 peer = Some base) = true <-> in_net (Net v6 base (8 * addr_size v6)) peer.
Proof.
  intros Hb. rewrite bool_decide_eq_true. simpl. split; [intros E; by exists base|]. intros (a&Ha&E). rewrite Ha. f_equal.
  pose proof (inet_pton_size v6 peer a Ha) as Hs. unfold zlen in *.
  rewrite !take_ge in E by (rewrite addr_bits_length; lia). apply addr_bits_inj; [lia|done].
Qed.

(** A pattern of the configuration matches exactly the addresses it stands
    for; the fallback to glob matching is never reached. *)
Lemma pattern_match_exact p peer :
  host_pattern_valid p = true -> peer <> [] ->
  exists n r, net_of p = Some n /\ daemon_host_pattern_match p peer = Ret r /\ (r = true <-> in_net n peer).
Proof.
  intros Hv Hp. unfold host_pattern_valid, net_of, daemon_host_pattern_match in *.
  case_bool_decide as H1; [done|]. rewrite (bool_decide_eq_false_2 (peer = [])) by done. simpl.
  destruct (Z.eqb_spec (strcmp p (cs "*")) 0) as [->%strcmp_eq|Hs].
  { rewrite bool_decide_eq_true_2 by done. by eexists _, _. }
  rewrite (bool_decide_eq_false_2 (p = cs "*")) by (intros ->; apply Hs; by apply strcmp_eq).
  destruct (has_char "/" p).
  - destruct (parse_cidr p) as [[[prefix base] v6]|] eqn:Ec; [|done]. destruct (parse_cidr_ok _ _ _ _ Ec) as [Hr Hz].
    eexists. simpl. destruct (inet_pton v6 peer) as [a|] eqn:Ea.
    + eexists. split; [done|]. split; [apply bit_prefix_match_spec; [|done]|].
      * pose proof (inet_pton_size v6 peer a Ea). unfold zlen in *. lia.
      * rewrite bool_decide_eq_true. simpl. split; [intros E; by exists a|]. intros (a'&Ha&E). congruence.
    + eexists. split; [done|]. split; [done|]. simpl. split; [done|]. intros (a&Ha&_). congruence.
  - destruct (inet_pton false p) as [a|] eqn:E4.
    + eexists _, _. split; [done|]. split; [done|]. apply (literal_in_net false). by eapply inet_pton_size.
    + destruct (inet_pton true p) as [a|] eqn:E6; [|done]. eexists _, _. split; [done|]. split; [done|].
      apply (literal_in_net true). by eapply inet_pton_size.
Qed.

Lemma any_matches_exact ps peer :
  all_valid host_pattern_valid ps -> peer <> [] ->
  exists r, any_matches ps peer = Ret r /\ (r = true <-> exists p n, p ∈ ps /\ net_of p = Some n /\ in_net n peer).
Proof.
  intros Hv Hp. induction Hv as [|p ps Hpv Hv IH]; simpl.
  - eexists. split; [done|]. split; [done|]. intros (p&n&Hin&_). by apply not_elem_of_nil in Hin.
  - destruct (pattern_match_exact p peer Hpv Hp) as (n&r&Hn&E&Hr). rewrite E. simpl. destruct r.
    + eexists. split; [done|]. split; [|done]. intros _. exists p, n. split_and!; [apply list_elem_of_here|done|by apply Hr].
    + destruct IH as (r'&E'&Hr'). exists r'. split; [done|]. rewrite Hr'. split.
      * intros (q&m&Hq&?). exists q, m. split; [by apply list_elem_of_further|done].
      * intros (q&m&Hq&Hm&Hi). apply elem_of_cons in Hq as [->|Hq]; [|by exists q, m].
        rewrite Hn in Hm. injection Hm as <-. by apply Hr in Hi.
Qed.

(** Host access control means what its patterns say.  With the lists a loaded
    configuration can hold, a peer is let in exactly when its address lies in
    none of the denied networks and, if any are listed, in one of the allowed
    networks; a network is every host, a single address, or the addresses whose
    first bits agree with the pattern's, compared bit by bit. *)
Lemma hosts_decision_exact peer allow deny
    (Hallow : all_valid host_pattern_valid allow) (Hdeny : all_valid host_pattern_valid deny) (Hpeer : peer <> []) :
  exists r, daemon_hosts_allowed (Some peer) allow deny = Ret r /\
    (r = true <-> (forall p n, p ∈ deny -> net_of p = Some n -> ~ in_net n peer) /\
                  (allow = [] \/ exists p n, p ∈ allow /\ net_of p = Some n /\ in_net n peer)).
Proof.
  destruct (any_matches_exact deny peer Hdeny Hpeer) as (d&Ed&Hd). destruct (any_matches_exact allow peer Hallow Hpeer) as (a&Ea&Ha).
  simpl. rewrite Ed. simpl. destruct d.
  - eexists. split; [done|]. split; [done|]. intros [Hn _]. destruct (proj1 Hd eq_refl) as (p&n&Hp&Hnet&Hin). by destruct (Hn p n Hp Hnet).
  - assert (Hnone : forall p n, p ∈ deny -> net_of p = Some n -> ~ in_net n peer).
    { intros p n Hp Hn Hin. enough (false = true) by done. apply Hd. by exists p, n. }
    destruct (Z.gtb_spec (zlen allow) 0) as [Hz|Hz].
    + exists a. split; [done|]. rewrite Ha. split; [intros He; split; [done|by right]|]. intros [_ [->|He]]; [done|done].
    + eexists. split; [done|]. split; [|done]. intros _. split; [done|left]. destruct allow; [done|].
      rewrite zlen_cons in Hz. pose proof (zlen_nonneg allow). lia.
Qed.
End Access.

(** ** A small network *)

Definition demo_addresses : list (list byte * list Z) :=
  [(cs "10.0.0.0", [10; 0; 0; 0]); (cs "10.200.3.4", [10; 200; 3; 4]); (cs "10.200.0.1", [10; 200; 0; 1]); (cs "10.72.3.4", [10; 72; 3; 4])].
Definition demo_inet : Inet := fun v6 s =>
  if v6 then None
  else match find (fun e => bool_decide (fst e = s)) demo_addresses with Some e => Some (map byte.of_Z (snd e)) | None => None end.
Lemma demo_inet_laws : InetLaws demo_inet.
Proof.
  intros [] s a; unfold inet_pton, demo_inet; [done|]. destruct (find _ _) as [e|] eqn:E; [|done]. apply find_some in E as [Hin _].
  intros [= <-]. by repeat destruct Hin as [<-|Hin].
Qed.

Lemma daemon_conf_sound_witness :
  exists conf, @load_with_dparams demo_inet heap0
    (Some (cs "port = 8873
# comment
[data]
path = /srv/data
hosts allow = 10.0.0.0/8, 10.200.3.4
auth users = alice
", false)) [cs "read only=no"] = Ret conf /\ @servable demo_inet conf /\ read_only <$> modules conf = [false].
Proof.
  set (file := (cs _, false)). set (dp := [_]).
  pose proof (@daemon_conf_sound demo_inet heap0 (fst file) false dp ltac:(by vm_compute)) as Hs.
  destruct (@load_with_dparams demo_inet heap0 (Some (fst file, false)) dp) as [conf| |] eqn:E; [|by vm_compute in E..].
  exists conf. split; [exact E|]. split; [exact Hs|]. vm_compute in E. by injection E as <-.
Defined.

(** A NUL byte ends the line for the parser although [fgets] read past it: the
    rest of the line is neither parsed nor counted against the limit. *)
Example nul_hides_tail :
  exists conf, @daemon_conf_load demo_inet heap0
    (Some (cs "hosts deny = 10.0.0.0" ++ [Byte.x00] ++ cs ", 10.200.3.4, not a pattern", false)) = Ret conf /\
    g_hosts_deny (global conf) = [cs "10.0.0.0"].
Proof. eexists. split; [vm_compute; reflexivity|]. by vm_compute. Qed.
