(* ===== verification/DaemonLimits.v ===== *)
(** The daemon's shared registry, src/shared/daemon_limits.c: slots of live
    children, occupancy per module and per source, and the lockout after failed
    authentication.  This file gives every operation as it runs on its own; the
    file DaemonLoop interleaves them.  Time is an argument, [mmap] and
    [inet_pton] are outside the program, and the warning text is left out. *)

From S2P Require Import Prelude Alloc CStr Transport Session Wp Names Libc DaemonConf.

Definition SLOT_FREE : Z := 0.
Definition SLOT_CLAIMED : Z := 1.
Definition SLOT_REGISTERED : Z := 2.
Definition DAEMON_LIMITS_MIN_SLOTS : Z := 16.
Definition DAEMON_LIMITS_MAX_SLOTS : Z := 65536.
Definition DAEMON_LIMITS_MAX_HOST_SLOTS : Z := 65536.
Definition DAEMON_LIMITS_NO_SLOT : Z := -1.
Definition DAEMON_LIMITS_MAX_MODULES : Z := 256.
Definition DAEMON_LIMITS_HOST_EVICT_IDLE_SEC : Z := 300.
Definition DAEMON_LIMITS_HOST_FULL_WARN_SEC : Z := 60.

(** daemon_limits.c [DaemonLimitRegistry]; the arrays are the lists. *)
Record registry := MkReg {
  max_slots : Z; module_count : Z; host_slots : Z; per_host_cap : Z; lockout_threshold : Z; lockout_duration_sec : Z;
  map_size : Z; host_full_warn : Z;
  slot_state : list Z; slot_pid : list Z; slot_module : list Z; slot_host : list Z;
  module_active : list Z;
  host_key : list Z; host_active : list Z; host_fail : list Z; host_until : list Z; host_last_use : list Z;
}.

(** Assignments to one member or array. *)
Definition set_slots r s p m t := MkReg (max_slots r) (module_count r) (host_slots r) (per_host_cap r) (lockout_threshold r) (lockout_duration_sec r) (map_size r) (host_full_warn r) s p m t (module_active r) (host_key r) (host_active r) (host_fail r) (host_until r) (host_last_use r).
Definition set_slot_state r v := set_slots r v (slot_pid r) (slot_module r) (slot_host r).
Definition set_slot_pid r v := set_slots r (slot_state r) v (slot_module r) (slot_host r).
Definition set_slot_module r v := set_slots r (slot_state r) (slot_pid r) v (slot_host r).
Definition set_slot_host r v := set_slots r (slot_state r) (slot_pid r) (slot_module r) v.
Definition set_counts r w m k a f u l := MkReg (max_slots r) (module_count r) (host_slots r) (per_host_cap r) (lockout_threshold r) (lockout_duration_sec r) (map_size r) w (slot_state r) (slot_pid r) (slot_module r) (slot_host r) m k a f u l.
Definition set_full_warn r v := set_counts r v (module_active r) (host_key r) (host_active r) (host_fail r) (host_until r) (host_last_use r).
Definition set_module_active r v := set_counts r (host_full_warn r) v (host_key r) (host_active r) (host_fail r) (host_until r) (host_last_use r).
Definition set_host_key r v := set_counts r (host_full_warn r) (module_active r) v (host_active r) (host_fail r) (host_until r) (host_last_use r).
Definition set_host_active r v := set_counts r (host_full_warn r) (module_active r) (host_key r) v (host_fail r) (host_until r) (host_last_use r).
Definition set_host_fail r v := set_counts r (host_full_warn r) (module_active r) (host_key r) (host_active r) v (host_until r) (host_last_use r).
Definition set_host_until r v := set_counts r (host_full_warn r) (module_active r) (host_key r) (host_active r) (host_fail r) v (host_last_use r).
Definition set_host_last_use r v := set_counts r (host_full_warn r) (module_active r) (host_key r) (host_active r) (host_fail r) (host_until r) v.

(** [atomic_compare_exchange_strong(&arr[i], &expected, new)] and
    [atomic_fetch_add(&arr[i], d)] with the value before *)
Definition cas (arr : list Z) (i expected new : Z) : outcome (list Z * bool) :=
  v ← ld arr i;
  if v =? expected then arr ← st arr i new; Ret (arr, true) else Ret (arr, false).
Definition fetch_add (arr : list Z) (i d : Z) : outcome (list Z * Z) :=
  v ← ld arr i; arr ← st arr i (i32 (v + d)); Ret (arr, v).

(** daemon_limits.c [round_up], [next_pow2] *)
Definition round_up (n align : Z) : Z := Z.land (u64 (n + align - 1)) (Z.lnot (align - 1) mod 2 ^ 64).
Fixpoint pow2_loop (fuel : nat) (p n : Z) : outcome Z :=
  match fuel with
  | O => Stuck
  | S fuel => if p <? n then pow2_loop fuel (u64 (Z.shiftl p 1)) n else Ret p
  end.
Definition next_pow2 (n : Z) : outcome Z := pow2_loop 65 1 n.

Section Registry.
Context {I : Inet}.

(** daemon_limits.c [parse_peer_ip]: the family and the bytes *)
Definition parse_peer_ip (peer_ip : list byte) : option (bool * list byte) :=
  if bool_decide (peer_ip = []) then None
  else match inet_pton false peer_ip with
       | Some a => Some (false, a)
       | None => match inet_pton true peer_ip with Some a => Some (true, a) | None => None end
       end.

(** daemon_limits.c [daemon_limits_host_hash]: FNV-1a; [None] when [*ok] is
    false *)
Definition AF_INET : Z := 2.
Definition AF_INET6 : Z := 10.
Definition fnv_step (hash : Z) (b : byte) : Z := u64 (Z.lxor hash (bZ b) * 1099511628211).
Definition daemon_limits_host_hash (peer_ip : list byte) : option Z :=
  match parse_peer_ip peer_ip with
  | None => None
  | Some (v6, a) =>
      let hash := fold_left fnv_step a (Z.lxor 14695981039346656037 (if v6 then AF_INET6 else AF_INET)) in
      Some (if hash =? 0 then 11400714819323198485 else hash)
  end.

(** daemon_limits.c [registry_tracks_hosts] *)
Definition registry_tracks_hosts (r : registry) : bool :=
  (per_host_cap r >? 0) || ((lockout_threshold r >? 0) && (lockout_duration_sec r >? 0)).

(** The bucket probed at step [i] of a chain: [(start + i) & mask]. *)
Definition probe (r : registry) (start i : Z) : Z := Z.land (u64 (start + i)) (host_slots r - 1).

(** daemon_limits.c [host_lookup] *)
Fixpoint lookup_loop (n : nat) (r : registry) (key start i now : Z) : outcome (registry * Z) :=
  match n with
  | O => Ret (r, -1)
  | S n =>
      let idx := probe r start i in
      current ← ld (host_key r) idx;
      if current =? key then
        l ← st (host_last_use r) idx now; Ret (set_host_last_use r l, idx)
      else if current =? 0 then Ret (r, -1)
      else lookup_loop n r key start (i + 1) now
  end.
Definition host_lookup (r : registry) (peer_ip : list byte) (now : Z) : outcome (registry * Z) :=
  match daemon_limits_host_hash peer_ip with
  | None => Ret (r, -1)
  | Some key => lookup_loop (Z.to_nat (host_slots r)) r key (Z.land key (host_slots r - 1)) 0 now
  end.

(** daemon_limits.c [host_bucket_reclaimable] *)
Definition host_bucket_reclaimable (r : registry) (idx now : Z) : outcome bool :=
  active ← ld (host_active r) idx;
  if negb (active =? 0) then Ret false
  else
    until ← ld (host_until r) idx;
    if negb (until =? 0) then Ret (until <=? now)
    else
      last_use ← ld (host_last_use r) idx;
      Ret (negb (last_use =? 0) && (now - last_use >=? DAEMON_LIMITS_HOST_EVICT_IDLE_SEC)).

(** daemon_limits.c [host_warn_table_full]: the time of the last warning *)
Definition host_warn_table_full (r : registry) (now : Z) : registry :=
  let last := host_full_warn r in
  if negb (last =? 0) && (now - last <? DAEMON_LIMITS_HOST_FULL_WARN_SEC) then r else set_full_warn r now.

(** The probe of [host_intern]: the bucket it settles on, or the one to evict
    with its key. *)
Inductive probe_result := Settled (idx : Z) | Full (evict evict_key : Z).
Fixpoint intern_loop (n : nat) (r : registry) (key start i now evict evict_key : Z) : outcome (registry * probe_result) :=
  match n with
  | O => Ret (r, Full evict evict_key)
  | S n =>
      let idx := probe r start i in
      current ← ld (host_key r) idx;
      if current =? key then
        l ← st (host_last_use r) idx now; Ret (set_host_last_use r l, Settled idx)
      else if current =? 0 then
        l ← st (host_last_use r) idx now;
        let r := set_host_last_use r l in
        '(keys, won) ← cas (host_key r) idx 0 key;
        let r := set_host_key r keys in
        if won : bool then Ret (r, Settled idx)
        else
          again ← ld (host_key r) idx;
          if again =? key then Ret (r, Settled idx)
          else intern_loop n r key start (i + 1) now evict evict_key
      else
        reclaimable ← (if evict <? 0 then host_bucket_reclaimable r idx now else Ret false);
        if reclaimable : bool then intern_loop n r key start (i + 1) now idx current
        else intern_loop n r key start (i + 1) now evict evict_key
  end.

(** The scan after an eviction for an earlier bucket with the same key *)
Fixpoint rescan (n : nat) (r : registry) (key start i evict : Z) : outcome (registry * Z) :=
  match n with
  | O => Ret (r, evict)
  | S n =>
      let candidate := probe r start i in
      found ← ld (host_key r) candidate;
      if found =? key then
        if negb (candidate =? evict) then
          a ← st (host_active r) evict 0; Ret (set_host_active r a, candidate)
        else Ret (r, evict)
      else if found =? 0 then Ret (r, evict)
      else rescan n r key start (i + 1) evict
  end.

(** daemon_limits.c [host_intern], [pass] counting the passes left *)
Fixpoint intern_pass (pass : nat) (r : registry) (key start now : Z) : outcome (registry * Z) :=
  match pass with
  | O => Ret (host_warn_table_full r now, -1)
  | S pass =>
      '(r, res) ← intern_loop (Z.to_nat (host_slots r)) r key start 0 now (-1) 0;
      match res with
      | Settled idx => Ret (r, idx)
      | Full evict evict_key =>
          if evict >=? 0 then
            l ← st (host_last_use r) evict now;
            let r := set_host_last_use r l in
            '(keys, won) ← cas (host_key r) evict evict_key key;
            let r := set_host_key r keys in
            if won : bool then
              a ← st (host_active r) evict 0;
              let r := set_host_active r a in
              f ← st (host_fail r) evict 0;
              let r := set_host_fail r f in
              u ← st (host_until r) evict 0;
              let r := set_host_until r u in
              rescan (Z.to_nat (host_slots r)) r key start 0 evict
            else intern_pass pass r key start now
          else Ret (host_warn_table_full r now, -1)
      end
  end.
Definition host_intern (r : registry) (peer_ip : list byte) (now : Z) : outcome (registry * Z) :=
  match daemon_limits_host_hash peer_ip with
  | None => Ret (r, -1)
  | Some key => intern_pass 2 r key (Z.land key (host_slots r - 1)) now
  end.

(** daemon_limits.c [daemon_limits_create]; [mmap_ok size] says whether the
    mapping succeeds.  The layout of the mapping is [carve] below. *)
Definition clamp (lo hi z : Z) : Z := if z <? lo then lo else if z >? hi then hi else z.
Definition sizeof_registry : Z := 120.
Definition registry_bytes (slots modules hosts : Z) : Z :=
  round_up sizeof_registry 16 + round_up (slots * 4) 16 * 4 + round_up (modules * 4) 16
  + round_up (hosts * 8) 16 + round_up (hosts * 4) 16 * 2 + round_up (hosts * 8) 16 * 2 + 16.
Definition daemon_limits_create (mmap_ok : Z -> bool) (slots modules cap threshold duration : Z) : outcome registry :=
  let slots := clamp DAEMON_LIMITS_MIN_SLOTS DAEMON_LIMITS_MAX_SLOTS slots in
  let modules := clamp 1 DAEMON_LIMITS_MAX_MODULES modules in
  let cap := Z.max 0 cap in
  let threshold := Z.max 0 threshold in
  let duration := Z.max 0 duration in
  let need_hosts := (cap >? 0) || ((threshold >? 0) && (duration >? 0)) in
  hosts ← (if need_hosts then next_pow2 (clamp 64 DAEMON_LIMITS_MAX_HOST_SLOTS (slots * 4)) else Ret 1);
  check (mmap_ok (registry_bytes slots modules hosts));;
  let zeros n := replicate (Z.to_nat n) 0 in
  let unset n := replicate (Z.to_nat n) (-1) in
  Ret (MkReg slots modules hosts cap threshold duration (registry_bytes slots modules hosts) 0
    (zeros slots) (zeros slots) (unset slots) (unset slots) (zeros modules)
    (zeros hosts) (zeros hosts) (zeros hosts) (zeros hosts) (zeros hosts)).

(** The addresses at which [daemon_limits_create] places the arrays of a mapping
    at [base], each with its element size and length *)
Definition carve (base slots modules hosts : Z) : list (Z * Z * Z) :=
  let c0 := base + round_up sizeof_registry 16 in
  let c1 := c0 + slots * 4 in
  let c2 := c1 + slots * 4 in
  let c3 := c2 + slots * 4 in
  let c4 := c3 + slots * 4 in
  let c5 := round_up (c4 + modules * 4) 16 in
  let c6 := c5 + hosts * 8 in
  let c7 := c6 + hosts * 4 in
  let c8 := round_up (c7 + hosts * 4) 16 in
  let c9 := c8 + hosts * 8 in
  [(c0, 4, slots); (c1, 4, slots); (c2, 4, slots); (c3, 4, slots); (c4, 4, modules);
   (c5, 8, hosts); (c6, 4, hosts); (c7, 4, hosts); (c8, 8, hosts); (c9, 8, hosts)].

(** daemon_limits.c [daemon_limits_claim_slot] *)
Fixpoint claim_loop (n : nat) (r : registry) (i : Z) : outcome (registry * Z) :=
  match n with
  | O => Ret (r, DAEMON_LIMITS_NO_SLOT)
  | S n =>
      '(s, won) ← cas (slot_state r) i SLOT_FREE SLOT_CLAIMED;
      if won : bool then
        p ← st (slot_pid r) i 0;
        m ← st (slot_module r) i (-1);
        t ← st (slot_host r) i (-1);
        Ret (set_slots r s p m t, i)
      else claim_loop n r (i + 1)
  end.
Definition daemon_limits_claim_slot (r : registry) : outcome (registry * Z) := claim_loop (Z.to_nat (max_slots r)) r 0.

(** daemon_limits.c [daemon_limits_set_slot_pid], [daemon_limits_reclaim_slot] *)
Definition slot_valid (r : registry) (slot : Z) : bool := negb ((slot <? 0) || (slot >=? max_slots r)).
Definition daemon_limits_set_slot_pid (r : registry) (slot pid : Z) : outcome registry :=
  if slot_valid r slot then p ← st (slot_pid r) slot (i32 pid); Ret (set_slot_pid r p) else Ret r.
Definition daemon_limits_reclaim_slot (r : registry) (slot : Z) : outcome registry :=
  if slot_valid r slot then
    s ← st (slot_state r) slot SLOT_FREE;
    p ← st (slot_pid r) slot 0;
    Ret (set_slot_pid (set_slot_state r s) p)
  else Ret r.

(** daemon_limits.c [daemon_limits_reclaim_pid] *)
Fixpoint reclaim_loop (n : nat) (r : registry) (pid i : Z) : outcome registry :=
  match n with
  | O => Ret r
  | S n =>
      s ← ld (slot_state r) i;
      if s =? SLOT_FREE then reclaim_loop n r pid (i + 1)
      else
        p ← ld (slot_pid r) i;
        if p =? i32 pid then daemon_limits_reclaim_slot r i else reclaim_loop n r pid (i + 1)
  end.
Definition daemon_limits_reclaim_pid (r : registry) (pid : Z) : outcome registry :=
  if pid <=? 0 then Ret r else reclaim_loop (Z.to_nat (max_slots r)) r pid 0.

(** daemon_limits.c [daemon_limits_recompute] *)
Definition count_one (arr : list Z) (i n : Z) : outcome (list Z) :=
  if (i >=? 0) && (i <? n) then '(arr, _) ← fetch_add arr i 1; Ret arr else Ret arr.
Fixpoint recompute_loop (n : nat) (r : registry) (i : Z) : outcome registry :=
  match n with
  | O => Ret r
  | S n =>
      s ← ld (slot_state r) i;
      if negb (s =? SLOT_REGISTERED) then recompute_loop n r (i + 1)
      else
        m ← ld (slot_module r) i;
        ma ← count_one (module_active r) m (module_count r);
        t ← ld (slot_host r) i;
        ha ← count_one (host_active r) t (host_slots r);
        recompute_loop n (set_host_active (set_module_active r ma) ha) (i + 1)
  end.
Definition daemon_limits_recompute (r : registry) : outcome registry :=
  let r := set_module_active r (replicate (Z.to_nat (module_count r)) 0) in
  let r := set_host_active r (replicate (Z.to_nat (host_slots r)) 0) in
  recompute_loop (Z.to_nat (max_slots r)) r 0.

(** daemon_limits.c [daemon_limits_register] *)
Inductive limit_result := DAEMON_LIMIT_OK | DAEMON_LIMIT_MODULE_FULL | DAEMON_LIMIT_HOST_FULL | DAEMON_LIMIT_UNAVAILABLE.
#[global] Instance limit_result_eq_dec : EqDecision limit_result.
Proof. solve_decision. Defined.
Definition daemon_limits_register (r : registry) (slot module_index : Z) (peer_ip : list byte) (module_cap now : Z)
  : outcome (registry * limit_result) :=
  if negb (slot_valid r slot) then Ret (r, DAEMON_LIMIT_UNAVAILABLE)
  else if (module_index <? 0) || (module_index >=? module_count r) then Ret (r, DAEMON_LIMIT_UNAVAILABLE)
  else
    s ← ld (slot_state r) slot;
    if negb (s =? SLOT_CLAIMED) then Ret (r, DAEMON_LIMIT_UNAVAILABLE)
    else
      '(r, host) ← (if registry_tracks_hosts r then host_intern r peer_ip now else Ret (r, -1));
      '(ma, before) ← fetch_add (module_active r) module_index 1;
      let r := set_module_active r ma in
      count ← int_ok (before + 1);
      if (module_cap >? 0) && (count >? module_cap) then
        '(ma, _) ← fetch_add (module_active r) module_index (-1);
        Ret (set_module_active r ma, DAEMON_LIMIT_MODULE_FULL)
      else
        '(r, full) ←
          (if host >=? 0 then
             '(ha, before) ← fetch_add (host_active r) host 1;
             let r := set_host_active r ha in
             count ← int_ok (before + 1);
             Ret (r, (per_host_cap r >? 0) && (count >? per_host_cap r))
           else Ret (r, false));
        if full : bool then
          '(ha, _) ← fetch_add (host_active r) host (-1);
          let r := set_host_active r ha in
          '(ma, _) ← fetch_add (module_active r) module_index (-1);
          Ret (set_module_active r ma, DAEMON_LIMIT_HOST_FULL)
        else
          m ← st (slot_module r) slot module_index;
          t ← st (slot_host r) slot host;
          s ← st (slot_state r) slot SLOT_REGISTERED;
          Ret (set_slots r s (slot_pid r) m t, DAEMON_LIMIT_OK).

(** daemon_limits.c [daemon_limits_auth_locked]: the seconds left, if locked;
    [daemon_limits_auth_record_failure], [daemon_limits_auth_record_success] *)
Definition lockout_on (r : registry) : bool := negb ((lockout_threshold r <=? 0) || (lockout_duration_sec r <=? 0)).
Definition daemon_limits_auth_locked (r : registry) (peer_ip : list byte) (now : Z) : outcome (registry * option Z) :=
  if negb (lockout_on r) then Ret (r, None)
  else
    '(r, bucket) ← host_lookup r peer_ip now;
    if bucket <? 0 then Ret (r, None)
    else
      until ← ld (host_until r) bucket;
      if until >? now then Ret (r, Some (i32 (until - now)))
      else if negb (until =? 0) then
        f ← st (host_fail r) bucket 0;
        u ← st (host_until r) bucket 0;
        Ret (set_host_until (set_host_fail r f) u, None)
      else Ret (r, None).
Definition daemon_limits_auth_record_failure (r : registry) (peer_ip : list byte) (now : Z) : outcome registry :=
  if negb (lockout_on r) then Ret r
  else
    '(r, bucket) ← host_intern r peer_ip now;
    if bucket <? 0 then Ret r
    else
      '(f, before) ← fetch_add (host_fail r) bucket 1;
      let r := set_host_fail r f in
      failures ← int_ok (before + 1);
      if failures >=? lockout_threshold r then
        u ← st (host_until r) bucket (now + lockout_duration_sec r); Ret (set_host_until r u)
      else Ret r.
Definition daemon_limits_auth_record_success (r : registry) (peer_ip : list byte) (now : Z) : outcome registry :=
  '(r, bucket) ← host_lookup r peer_ip now;
  if bucket <? 0 then Ret r
  else
    f ← st (host_fail r) bucket 0;
    u ← st (host_until r) bucket 0;
    Ret (set_host_until (set_host_fail r f) u).
End Registry.

(** ** Cells of the arrays *)

Definition cell (arr : list Z) (i : Z) : Z := default 0 (arr !! Z.to_nat i).

Lemma ld_cell arr i : 0 <= i < zlen arr -> ld arr i = Ret (cell arr i).
Proof. intros Hi. destruct (ld_total arr i Hi) as [v E]. rewrite E. apply ld_ret_inv in E as [_ E]. unfold cell. by rewrite E. Qed.
Lemma cell_insert arr i j v : 0 <= i < zlen arr -> 0 <= j -> cell (<[Z.to_nat i := v]> arr) j = if j =? i then v else cell arr j.
Proof.
  intros Hi Hj. unfold cell. destruct (Z.eqb_spec j i) as [->|Hne].
  - rewrite list_lookup_insert_eq by (unfold zlen in *; lia). done.
  - by rewrite list_lookup_insert_ne by lia.
Qed.
Lemma cell_replicate n v i : 0 <= i < n -> cell (replicate (Z.to_nat n) v) i = v.
Proof. intros Hi. unfold cell. by rewrite lookup_replicate_2 by lia. Qed.
Lemma zlen_replicate {A} n (v : A) : 0 <= n -> zlen (replicate (Z.to_nat n) v) = n.
Proof. intros. unfold zlen. rewrite length_replicate. lia. Qed.

(** ** Shape *)

Record shaped (r : registry) : Prop := {
  sh_slots : DAEMON_LIMITS_MIN_SLOTS <= max_slots r <= DAEMON_LIMITS_MAX_SLOTS;
  sh_modules : 1 <= module_count r <= DAEMON_LIMITS_MAX_MODULES;
  sh_hosts : exists k, 0 <= k <= 16 /\ host_slots r = 2 ^ k;
  sh_slot_arrays : zlen (slot_state r) = max_slots r /\ zlen (slot_pid r) = max_slots r /\
                   zlen (slot_module r) = max_slots r /\ zlen (slot_host r) = max_slots r;
  sh_module_array : zlen (module_active r) = module_count r;
  sh_host_arrays : zlen (host_key r) = host_slots r /\ zlen (host_active r) = host_slots r /\ zlen (host_fail r) = host_slots r /\
                   zlen (host_until r) = host_slots r /\ zlen (host_last_use r) = host_slots r;
}.

Lemma host_slots_range r : shaped r -> 1 <= host_slots r <= 65536.
Proof.
  intros [_ _ (k&Hk&->) _ _ _]. split; [pose proof (Z.pow_pos_nonneg 2 k); lia|].
  change 65536 with (2 ^ 16). apply Z.pow_le_mono_r; lia.
Qed.

(** Probing walks round the table. *)
Lemma probe_mod r start i : shaped r -> 0 <= start < host_slots r -> 0 <= i < host_slots r ->
  probe r start i = (start + i) mod host_slots r.
Proof.
  intros Hs Hst Hi. pose proof (host_slots_range r Hs). unfold probe. rewrite u64_small by lia.
  destruct Hs as [_ _ (k&Hk&E) _ _ _]. rewrite E. replace (2 ^ k - 1) with (Z.ones k) by (rewrite Z.ones_equiv; lia).
  by rewrite Z.land_ones by lia.
Qed.
Lemma host_probe_range r start i : shaped r -> 0 <= start < host_slots r -> 0 <= i < host_slots r -> 0 <= probe r start i < host_slots r.
Proof. intros Hs Hst Hi. rewrite probe_mod by done. apply Z.mod_pos_bound. pose proof (host_slots_range r Hs). lia. Qed.
Lemma probe_surj r start idx : shaped r -> 0 <= start < host_slots r -> 0 <= idx < host_slots r ->
  exists d, 0 <= d < host_slots r /\ probe r start d = idx.
Proof.
  intros Hs Hst Hi. pose proof (host_slots_range r Hs). exists ((idx - start) mod host_slots r).
  assert (Hm : 0 <= (idx - start) mod host_slots r < host_slots r) by (apply Z.mod_pos_bound; lia). split; [done|].
  rewrite probe_mod by done. rewrite Z.add_mod_idemp_r by lia. replace (start + (idx - start)) with idx by lia. by apply Z.mod_small.
Qed.
Lemma host_probe_inj r start i j : shaped r -> 0 <= start < host_slots r -> 0 <= i < host_slots r -> 0 <= j < host_slots r ->
  probe r start i = probe r start j -> i = j.
Proof.
  intros Hs Hst Hi Hj. rewrite !probe_mod by done. pose proof (host_slots_range r Hs) as Hh. generalize dependent (host_slots r). intros H.
  intros. pose proof (Z.div_mod (start + i) H). pose proof (Z.div_mod (start + j) H).
  assert (H * ((start + i) / H - (start + j) / H) = i - j) by lia.
  assert ((start + i) / H - (start + j) / H = 0) by nia. lia.
Qed.

(** ** The table of sources *)

Definition key_start (r : registry) (key : Z) : Z := Z.land key (host_slots r - 1).
Lemma key_start_range r key : shaped r -> 0 <= key -> 0 <= key_start r key < host_slots r.
Proof.
  intros Hs Hk. pose proof (host_slots_range r Hs). unfold key_start. destruct Hs as [_ _ (k&?&E) _ _ _]. rewrite E.
  replace (2 ^ k - 1) with (Z.ones k) by (rewrite Z.ones_equiv; lia). rewrite Z.land_ones by lia. apply Z.mod_pos_bound. lia.
Qed.

Definition in_table (r : registry) (idx : Z) : Prop := 0 <= idx < host_slots r.
Definition key_at (r : registry) (idx : Z) : Z := cell (host_key r) idx.
Definition present (r : registry) (key : Z) : Prop := exists idx, in_table r idx /\ key_at r idx = key.

Record table_ok (r : registry) : Prop := {
  t_chain : forall key d, 0 < key -> 0 <= d < host_slots r -> key_at r (probe r (key_start r key) d) = key ->
            forall j, 0 <= j < d -> key_at r (probe r (key_start r key) j) <> 0;
  t_unique : forall i j, in_table r i -> in_table r j -> key_at r i = key_at r j -> key_at r i <> 0 -> i = j;
  t_keys : forall i, in_table r i -> 0 <= key_at r i < 2 ^ 64;
  t_empty : forall i, in_table r i -> key_at r i = 0 ->
            cell (host_fail r) i = 0 /\ cell (host_until r) i = 0;
}.

(** [host_bucket_reclaimable] on the cells *)
Definition reclaimable (r : registry) (idx now : Z) : bool :=
  (cell (host_active r) idx =? 0) &&
  (if negb (cell (host_until r) idx =? 0) then cell (host_until r) idx <=? now
   else negb (cell (host_last_use r) idx =? 0) && (now - cell (host_last_use r) idx >=? DAEMON_LIMITS_HOST_EVICT_IDLE_SEC)).

Definition touch (r : registry) (idx now : Z) : registry := set_host_last_use r (<[Z.to_nat idx := now]> (host_last_use r)).
Definition claim_key (r : registry) (idx key : Z) : registry := set_host_key r (<[Z.to_nat idx := key]> (host_key r)).
Definition clear_counts (r : registry) (idx : Z) : registry :=
  set_host_until (set_host_fail (set_host_active r (<[Z.to_nat idx := 0]> (host_active r))) (<[Z.to_nat idx := 0]> (host_fail r)))
    (<[Z.to_nat idx := 0]> (host_until r)).

(** What interning does: the bucket is found, taken empty, taken over from
    another source, or there is none. *)
Inductive interned (r : registry) (key now : Z) : registry -> Z -> Prop :=
| InternFound idx : in_table r idx -> key_at r idx = key -> interned r key now (touch r idx now) idx
| InternEmpty d idx : 0 <= d < host_slots r -> idx = probe r (key_start r key) d -> key_at r idx = 0 ->
    (forall j, 0 <= j < d -> key_at r (probe r (key_start r key) j) <> 0) -> ~ present r key ->
    interned r key now (claim_key (touch r idx now) idx key) idx
| InternEvict idx : in_table r idx -> reclaimable r idx now = true -> (forall i, in_table r i -> key_at r i <> 0) -> ~ present r key ->
    interned r key now (clear_counts (claim_key (touch r idx now) idx key) idx) idx
| InternFull : (forall i, in_table r i -> key_at r i <> 0 /\ reclaimable r i now = false) -> ~ present r key ->
    interned r key now (host_warn_table_full r now) (-1).

Section Table.
Context {I : Inet} {L : InetLaws I}.
Variable r : registry.
Hypothesis Hs : shaped r.
Hypothesis Ht : table_ok r.

Lemma hash_range peer key : daemon_limits_host_hash peer = Some key -> 0 < key < 2 ^ 64.
Proof.
  unfold daemon_limits_host_hash. destruct (parse_peer_ip peer) as [[v6 a]|] eqn:E; [|done].
  set (h := fold_left _ _ _). assert (Hh : 0 <= h < 2 ^ 64).
  { unfold h. assert (Hg : forall l z, 0 <= z < 2 ^ 64 -> 0 <= fold_left fnv_step l z < 2 ^ 64).
    { induction l as [|b l IH]; intros z Hz; [done|]. apply IH. apply u64_range. }
    apply Hg. by destruct v6. }
  destruct (Z.eqb_spec h 0); intros [= <-]; lia.
Qed.

Lemma table_lengths : zlen (host_key r) = host_slots r /\ zlen (host_active r) = host_slots r /\ zlen (host_fail r) = host_slots r /\
  zlen (host_until r) = host_slots r /\ zlen (host_last_use r) = host_slots r.
Proof. by destruct Hs. Qed.

Lemma reclaimable_spec idx now : in_table r idx -> host_bucket_reclaimable r idx now = Ret (reclaimable r idx now).
Proof.
  intros Hi. destruct table_lengths as (_&La&_&Lu&Ll). unfold host_bucket_reclaimable, reclaimable.
  rewrite !ld_cell by (unfold in_table in Hi; lia). simpl. destruct (_ =? 0); simpl; [|done]. by destruct (negb _).
Qed.

(** Absence, as a probe sees it. *)
Lemma absent_at_gap key i : 0 < key -> 0 <= i < host_slots r -> key_at r (probe r (key_start r key) i) = 0 ->
  (forall j, 0 <= j < i -> key_at r (probe r (key_start r key) j) <> key) -> ~ present r key.
Proof.
  intros Hk Hi H0 Hpast (idx&Hin&E). destruct (probe_surj r (key_start r key) idx Hs) as (d&Hd&Ed); [apply key_start_range; [done|lia]|done|].
  subst idx. destruct (Z.lt_trichotomy d i) as [Hlt|[->|Hgt]].
  - apply (Hpast d); [lia|done].
  - lia.
  - apply (t_chain r Ht key d Hk Hd E i); [lia|done].
Qed.
Lemma absent_everywhere key : 0 < key -> (forall j, 0 <= j < host_slots r -> key_at r (probe r (key_start r key) j) <> key) -> ~ present r key.
Proof.
  intros Hk Hpast (idx&Hin&E). destruct (probe_surj r (key_start r key) idx Hs) as (d&Hd&Ed); [apply key_start_range; [done|lia]|done|].
  subst idx. by apply (Hpast d).
Qed.

Lemma lookup_loop_spec n key i now :
  0 < key -> Z.of_nat n + i = host_slots r -> 0 <= i ->
  (forall j, 0 <= j < i -> key_at r (probe r (key_start r key) j) <> key) ->
  exists r' b, lookup_loop n r key (key_start r key) i now = Ret (r', b) /\
    ((in_table r b /\ key_at r b = key /\ r' = touch r b now) \/ (b = -1 /\ r' = r /\ ~ present r key)).
Proof.
  intros Hk. destruct table_lengths as (Lk&_&_&_&Ll). revert i. induction n as [|n IH]; intros i Hn Hi Hpast; cbn [lookup_loop].
  - eexists _, _. split; [done|]. right. split_and!; try done. apply absent_everywhere; [done|]. intros j Hj. apply Hpast. lia.
  - assert (Hp : in_table r (probe r (key_start r key) i)) by (apply host_probe_range; [done|apply key_start_range; [done|lia]|lia]).
    rewrite ld_cell by (unfold in_table in Hp; lia). cbn [mbind outcome_bind].
    fold (key_at r (probe r (key_start r key) i)). destruct (Z.eqb_spec (key_at r (probe r (key_start r key) i)) key) as [E|E].
    + rewrite st_ret by (unfold in_table in Hp; lia). eexists _, _. split; [done|]. by left.
    + destruct (Z.eqb_spec (key_at r (probe r (key_start r key) i)) 0) as [E0|E0].
      * eexists _, _. split; [done|]. right. split_and!; try done. by apply (absent_at_gap key i); try lia.
      * apply IH; [lia|lia|]. intros j Hj. destruct (decide (j = i)) as [->|]; [done|]. apply Hpast. lia.
Qed.

Lemma host_lookup_spec peer key now :
  daemon_limits_host_hash peer = Some key ->
  exists r' b, host_lookup r peer now = Ret (r', b) /\
    ((in_table r b /\ key_at r b = key /\ r' = touch r b now) \/ (b = -1 /\ r' = r /\ ~ present r key)).
Proof.
  intros Hh. pose proof (hash_range _ _ Hh). pose proof (host_slots_range r Hs). unfold host_lookup. rewrite Hh.
  apply lookup_loop_spec; lia.
Qed.

(** The probe of [host_intern]. *)
Lemma intern_loop_spec n key i now evict ekey :
  0 < key -> Z.of_nat n + i = host_slots r -> 0 <= i ->
  (forall j, 0 <= j < i -> key_at r (probe r (key_start r key) j) <> key /\ key_at r (probe r (key_start r key) j) <> 0) ->
  ((evict = -1 /\ forall j, 0 <= j < i -> reclaimable r (probe r (key_start r key) j) now = false) \/
   (in_table r evict /\ reclaimable r evict now = true /\ ekey = key_at r evict)) ->
  exists r' res, intern_loop n r key (key_start r key) i now evict ekey = Ret (r', res) /\
    match res with
    | Settled idx => interned r key now r' idx
    | Full e ek => r' = r /\ ~ present r key /\ (forall i, in_table r i -> key_at r i <> 0) /\
        ((e = -1 /\ forall i, in_table r i -> reclaimable r i now = false) \/
         (in_table r e /\ reclaimable r e now = true /\ ek = key_at r e))
    end.
Proof.
  intros Hk. destruct table_lengths as (Lk&_&_&_&Ll). revert i evict ekey. induction n as [|n IH]; intros i evict ekey Hn Hi Hpast He; cbn [intern_loop].
  - eexists _, _. split; [done|]. split_and!; [done|apply absent_everywhere; [done|]; intros j Hj; apply Hpast; lia| |].
    + intros x Hx. destruct (probe_surj r (key_start r key) x Hs) as (d&Hd&<-); [apply key_start_range; [done|lia]|done|]. apply Hpast. lia.
    + destruct He as [[-> He]|He]; [left|by right]. split; [done|]. intros x Hx.
      destruct (probe_surj r (key_start r key) x Hs) as (d&Hd&<-); [apply key_start_range; [done|lia]|done|]. apply He. lia.
  - set (idx := probe r (key_start r key) i) in *.
    assert (Hp : in_table r idx) by (apply host_probe_range; [done|apply key_start_range; [done|lia]|lia]).
    assert (Hp' : 0 <= idx < host_slots r) by exact Hp.
    rewrite ld_cell by lia. cbn [mbind outcome_bind]. fold (key_at r idx).
    destruct (Z.eqb_spec (key_at r idx) key) as [E|E].
    { rewrite st_ret by lia. eexists _, _. split; [done|]. by apply InternFound. }
    destruct (Z.eqb_spec (key_at r idx) 0) as [E0|E0].
    { rewrite st_ret by lia. cbn [mbind outcome_bind]. unfold cas. cbn [host_key set_host_last_use set_counts].
      rewrite ld_cell by lia. cbn [mbind outcome_bind]. fold (key_at r idx). rewrite E0. simpl (0 =? 0). cbv iota.
      rewrite st_ret by lia. eexists _, _. split; [done|]. apply (InternEmpty _ _ _ i); try done; try lia.
      - intros j Hj. by apply Hpast.
      - apply (absent_at_gap key i); [done|lia|done|]. intros j Hj. by apply Hpast. }
    assert (Hpast' : forall j, 0 <= j < i + 1 -> key_at r (probe r (key_start r key) j) <> key /\ key_at r (probe r (key_start r key) j) <> 0).
    { intros j Hj. destruct (decide (j = i)) as [->|]; [done|]. apply Hpast. lia. }
    destruct He as [[-> He]|He].
    + simpl (-1 <? 0). cbv iota. rewrite (reclaimable_spec _ _ Hp). cbn [mbind outcome_bind].
      destruct (reclaimable r idx now) eqn:Er; apply IH; try lia; try done; [by right|].
      left. split; [done|]. intros j Hj. destruct (decide (j = i)) as [->|]; [done|]. apply He. lia.
    + destruct (Z.ltb_spec evict 0) as [Hlt|_]; [unfold in_table in He; lia|]. cbn [mbind outcome_bind]. apply IH; try lia; try done. by right.
Qed.

(** Once the key sits in the only bucket that holds it, the rescan agrees. *)
Lemma rescan_spec n r1 key i e :
  (n = Z.to_nat (host_slots r1 - i))%nat -> 0 <= i -> host_slots r1 = host_slots r -> zlen (host_key r1) = host_slots r1 -> 0 <= key ->
  (forall x, in_table r x -> cell (host_key r1) x = key -> x = e) ->
  rescan n r1 key (key_start r1 key) i e = Ret (r1, e).
Proof.
  intros -> Hi0 Hh Hl Hk Hu. assert (Hpr : forall j, 0 <= j < host_slots r -> 0 <= probe r1 (key_start r1 key) j < host_slots r).
  { intros j Hj. unfold probe, key_start. rewrite Hh. apply (host_probe_range r (key_start r key) j Hs); [by apply key_start_range|done]. }
  remember (Z.to_nat (host_slots r1 - i)) as n eqn:Hn. revert i Hi0 Hn. induction n as [|n IH]; intros i Hi0 Hn; cbn [rescan]; [done|].
  assert (Hpi := Hpr i ltac:(lia)). rewrite ld_cell by lia. cbn [mbind outcome_bind].
  destruct (Z.eqb_spec (cell (host_key r1) (probe r1 (key_start r1 key) i)) key) as [E|E].
  - apply Hu in E as ->; [|apply Hpr; lia]. by rewrite Z.eqb_refl.
  - destruct (_ =? 0); [done|]. apply IH; lia.
Qed.

Lemma host_intern_spec peer key now :
  daemon_limits_host_hash peer = Some key -> exists r' b, host_intern r peer now = Ret (r', b) /\ interned r key now r' b.
Proof.
  intros Hh. pose proof (hash_range _ _ Hh) as Hk. pose proof (host_slots_range r Hs) as Hr. unfold host_intern. rewrite Hh.
  fold (key_start r key). cbn [intern_pass]. destruct table_lengths as (Lk&La&Lf&Lu&Ll).
  destruct (intern_loop_spec (Z.to_nat (host_slots r)) key 0 now (-1) 0) as (r1&res&E&Hres); try lia.
  { left. split; [done|]. lia. }
  rewrite E. cbn [mbind outcome_bind]. destruct res as [idx|e ek]; [by eexists _, _|].
  destruct Hres as (->&Hab&Hfull&[[-> Hno]|(He&Hre&->)]).
  - simpl (-1 >=? 0). cbv iota. eexists _, _. split; [done|]. apply InternFull; [|done]. intros i Hi. by split; [apply Hfull|apply Hno].
  - assert (He' : 0 <= e < host_slots r) by exact He. destruct (Z.geb_spec e 0) as [_|]; [|lia]. rewrite st_ret by lia. cbn [mbind outcome_bind].
    unfold cas. cbn [host_key set_host_last_use set_counts]. rewrite ld_cell by lia. cbn [mbind outcome_bind]. fold (key_at r e). rewrite Z.eqb_refl.
    do 4 (rewrite st_ret by (simpl; lia); cbn [mbind outcome_bind]).
    match goal with |- context [rescan _ ?x _ _ _ _] => set (r2 := x) end.
    assert (E2 : r2 = clear_counts (claim_key (touch r e now) e key) e) by done. clearbody r2.
    replace (key_start r key) with (key_start r2 key) by (by rewrite E2).
    assert (Hsl : host_slots r2 = host_slots r) by (by rewrite E2).
    rewrite (rescan_spec _ r2 key 0 e); [|f_equal; simpl; lia|lia|done|rewrite E2; simpl; by rewrite zlen_insert|lia|].
    + eexists _, _. split; [done|]. rewrite E2. by apply InternEvict.
    + intros x Hx. rewrite E2. simpl. rewrite cell_insert by (unfold in_table in Hx; lia).
      destruct (Z.eqb_spec x e); [done|]. intros Ex. destruct Hab. by exists x.
Qed.

(** Interning keeps the shape and the table in order. *)
Lemma interned_frame key now r' b :
  interned r key now r' b -> shaped r' /\ host_slots r' = host_slots r /\
    slot_state r' = slot_state r /\ slot_pid r' = slot_pid r /\ slot_module r' = slot_module r /\ slot_host r' = slot_host r /\
    module_active r' = module_active r /\ max_slots r' = max_slots r /\ module_count r' = module_count r /\ per_host_cap r' = per_host_cap r /\
    lockout_threshold r' = lockout_threshold r /\ lockout_duration_sec r' = lockout_duration_sec r.
Proof.
  intros Hi. destruct Hs as [H1 H2 H3 H4 H5 H6].
  assert (Hw : shaped (host_warn_table_full r now)) by (unfold host_warn_table_full; destruct (_ && _); by split).
  assert (Hwf : host_warn_table_full r now = r \/ host_warn_table_full r now = set_full_warn r now)
    by (unfold host_warn_table_full; destruct (_ && _); auto).
  destruct Hi; (split; [|by destruct Hwf as [->| ->] || done]); try done; split; simpl; rewrite ?zlen_insert; done.
Qed.

Lemma reclaimable_idle idx now : reclaimable r idx now = true -> cell (host_active r) idx = 0.
Proof. unfold reclaimable. intros [E _]%andb_true_iff. by apply Z.eqb_eq. Qed.

(** Taking bucket [b] for [key]: what the table needs of it. *)
Lemma claim_table_ok key b r' :
  0 < key < 2 ^ 64 -> in_table r b -> ~ present r key -> host_slots r' = host_slots r ->
  (forall i, in_table r i -> key_at r' i = if i =? b then key else key_at r i) ->
  (forall i, in_table r i -> i <> b -> key_at r i = 0 ->
    cell (host_fail r') i = 0 /\ cell (host_until r') i = 0) ->
  (forall d, 0 <= d < host_slots r -> probe r (key_start r key) d = b ->
    forall j, 0 <= j < d -> key_at r (probe r (key_start r key) j) <> 0) ->
  table_ok r'.
Proof.
  intros Hk Hb Hab Hh Hkeys Hem Hch.
  assert (Hpe : forall k d, probe r' (key_start r' k) d = probe r (key_start r k) d) by (intros; unfold probe, key_start; by rewrite Hh).
  assert (Hpr : forall k d, 0 <= k -> 0 <= d < host_slots r -> in_table r (probe r (key_start r k) d))
    by (intros k d ? ?; apply host_probe_range; [done|by apply key_start_range|done]).
  split.
  - intros k d Hk0 Hd E j Hj. rewrite Hh in Hd. rewrite Hpe in *. rewrite Hkeys in E |- * by (apply Hpr; lia).
    destruct (Z.eqb_spec (probe r (key_start r k) j) b); [lia|].
    destruct (Z.eqb_spec (probe r (key_start r k) d) b) as [Eb|Eb]; [subst k; by apply (Hch d)|].
    by apply (t_chain r Ht k d).
  - intros i j Hi Hj. unfold in_table in Hi, Hj. rewrite Hh in Hi, Hj. rewrite !Hkeys by done.
    destruct (Z.eqb_spec i b) as [->|Hib], (Z.eqb_spec j b) as [->|Hjb]; intros E Hne; [done| | |by apply (t_unique r Ht)].
    + destruct Hab. by exists j.
    + destruct Hab. by exists i.
  - intros i Hi. unfold in_table in Hi. rewrite Hh in Hi. rewrite Hkeys by done. destruct (_ =? b); [lia|by apply (t_keys r Ht)].
  - intros i Hi. unfold in_table in Hi. rewrite Hh in Hi. rewrite Hkeys by done. destruct (Z.eqb_spec i b); [lia|]. by apply Hem.
Qed.

(** What [interned] says cell by cell. *)
Record interned_cells (key : Z) (r' : registry) (b : Z) : Prop := {
  ic_table : table_ok r';
  ic_bucket : b = -1 \/ (in_table r b /\ key_at r' b = key);
  ic_active : forall i, in_table r i -> cell (host_active r') i = cell (host_active r) i;
  ic_other : forall i, in_table r i -> i <> b -> key_at r' i = key_at r i /\ cell (host_fail r') i = cell (host_fail r) i /\
                                         cell (host_until r') i = cell (host_until r) i;
  ic_kept : in_table r b -> key_at r b = key -> cell (host_fail r') b = cell (host_fail r) b /\ cell (host_until r') b = cell (host_until r) b;
  ic_fresh : in_table r b -> ~ present r key -> cell (host_fail r') b = 0 /\ cell (host_until r') b = 0;
}.

Lemma interned_cells_intro key now r' b : 0 < key < 2 ^ 64 -> interned r key now r' b -> interned_cells key r' b.
Proof.
  intros Hk Hi. destruct table_lengths as (Lk&La&Lf&Lu&Ll).
  destruct Hi as [idx Hin E|d idx Hd -> E Hch Hab|idx Hin Hr Hfull Hab|Hno Hab].
  - split; try done; [by destruct Ht|by right|]. intros _ Hab. destruct Hab. by exists idx.
  - set (idx := probe r (key_start r key) d) in *.
    assert (Hin : in_table r idx) by (apply host_probe_range; [done|apply key_start_range; [done|lia]|done]). unfold in_table in Hin.
    assert (Hkeys : forall i, in_table r i -> key_at (claim_key (touch r idx now) idx key) i = if i =? idx then key else key_at r i).
    { intros i Hi. unfold in_table in Hi. unfold key_at. simpl. by rewrite cell_insert by lia. }
    split; try done.
    + apply (claim_table_ok key idx); try done; [intros i ? ? ?; by apply (t_empty r Ht)|].
      intros d' Hd' E' j Hj. apply host_probe_inj in E'; [|done|apply key_start_range; [done|lia]|done|done]. subst d'. by apply Hch.
    + right. split; [done|]. rewrite Hkeys by done. by rewrite Z.eqb_refl.
    + intros i Hi Hne. rewrite Hkeys by done. destruct (Z.eqb_spec i idx); done.
    + intros _ _. simpl. by apply (t_empty r Ht).
  - unfold in_table in Hin. set (r' := clear_counts _ _).
    assert (Hkeys : forall i, in_table r i -> key_at r' i = if i =? idx then key else key_at r i).
    { intros i Hi. unfold in_table in Hi. unfold key_at. simpl. by rewrite cell_insert by lia. }
    assert (Hcell : forall (a : list Z) i, zlen a = host_slots r -> in_table r i -> cell (<[Z.to_nat idx := 0]> a) i = if i =? idx then 0 else cell a i).
    { intros a i Ha Hi. unfold in_table in Hi. by rewrite cell_insert by lia. }
    split; try done.
    + apply (claim_table_ok key idx); try done.
      * intros i Hi _ E. by destruct (Hfull i).
      * intros d Hd _ j Hj. apply Hfull. apply host_probe_range; [done|apply key_start_range; [done|lia]|lia].
    + right. split; [done|]. rewrite Hkeys by done. by rewrite Z.eqb_refl.
    + intros i Hi. simpl. rewrite Hcell by done. destruct (Z.eqb_spec i idx) as [->|]; [|done]. by rewrite (reclaimable_idle idx now).
    + intros i Hi Hne. rewrite Hkeys by done. simpl. rewrite !Hcell by done. by destruct (Z.eqb_spec i idx).
    + intros _ E. destruct Hab. by exists idx.
    + intros _ _. simpl. rewrite !Hcell by done. by rewrite Z.eqb_refl.
  - assert (Hw : host_warn_table_full r now = r \/ host_warn_table_full r now = set_full_warn r now)
      by (unfold host_warn_table_full; destruct (_ && _); auto).
    destruct Hw as [-> | ->]; split; try done; try (by left); try (unfold in_table; intros; lia); by destruct Ht.
Qed.
End Table.

(** ** The layout of the mapping *)

Lemma round_up_16 n : 0 <= n < 2 ^ 63 -> round_up n 16 = 16 * ((n + 15) / 16).
Proof.
  intros Hn. unfold round_up. replace (n + 16 - 1) with (n + 15) by lia. rewrite u64_small by lia.
  change (16 - 1) with (Z.ones 4). rewrite <- (Z.land_ones _ 64) by lia. rewrite Z.land_assoc, <- (Z.land_comm (Z.ones 64)), Z.land_assoc.
  rewrite (Z.land_comm (Z.ones 64)), Z.land_ones, Z.mod_small by lia. fold (Z.ldiff (n + 15) (Z.ones 4)).
  rewrite <- Z.ldiff_land, Z.ldiff_ones_r, Z.shiftl_mul_pow2, Z.shiftr_div_pow2 by lia. change (2 ^ 4) with 16. lia.
Qed.

(** Consecutive arrays that do not overlap, each aligned for its elements,
    between [lo] and [hi]. *)
Fixpoint laid_out (lo hi : Z) (arrays : list (Z * Z * Z)) : Prop :=
  match arrays with
  | [] => lo <= hi
  | (at_, size, n) :: rest => lo <= at_ /\ at_ mod size = 0 /\ laid_out (at_ + n * size) hi rest
  end.

(** The arrays of the registry lie inside its mapping.  For every size the
    registry can have and every page-aligned address the kernel can return, the
    ten arrays carved after the header do not overlap the header or each other,
    are aligned for their atomic elements and end within the mapped bytes. *)
Lemma registry_layout_fits base slots modules hosts
    (Hbase : 0 <= base < 2 ^ 62) (Halign : base mod 4096 = 0)
    (Hslots : DAEMON_LIMITS_MIN_SLOTS <= slots <= DAEMON_LIMITS_MAX_SLOTS)
    (Hmodules : 1 <= modules <= DAEMON_LIMITS_MAX_MODULES)
    (Hhosts : 1 <= hosts <= DAEMON_LIMITS_MAX_HOST_SLOTS) :
  laid_out (base + sizeof_registry) (base + registry_bytes slots modules hosts) (carve base slots modules hosts).
Proof.
  unfold DAEMON_LIMITS_MIN_SLOTS, DAEMON_LIMITS_MAX_SLOTS, DAEMON_LIMITS_MAX_MODULES, DAEMON_LIMITS_MAX_HOST_SLOTS in *.
  unfold carve, registry_bytes, sizeof_registry. cbn [laid_out].
  repeat match goal with |- context [round_up ?x 16] =>
    lazymatch x with context [round_up _ _] => fail | _ => rewrite (round_up_16 x) by (Z.to_euclidean_division_equations; lia) end end.
  pose proof (Z.div_mod base 4096). split_and!; Z.to_euclidean_division_equations; lia.
Qed.

(** ** A new registry *)

Lemma pow2_loop_spec fuel k n : 0 <= k <= 16 -> n <= 65536 -> (16 - k < Z.of_nat fuel) ->
  exists j, pow2_loop fuel (2 ^ k) n = Ret (2 ^ j) /\ k <= j <= 16 /\ n <= 2 ^ j.
Proof.
  revert k. induction fuel as [|fuel IH]; intros k Hk Hn Hf; [lia|]. cbn [pow2_loop]. destruct (Z.ltb_spec (2 ^ k) n) as [Hlt|Hge].
  - assert (k < 16) by (destruct (decide (k = 16)) as [->|]; [change (2 ^ 16) with 65536 in Hlt; lia|lia]).
    rewrite Z.shiftl_mul_pow2 by lia. replace (2 ^ k * 2 ^ 1) with (2 ^ (k + 1)) by (rewrite Z.pow_add_r; lia).
    assert (2 ^ (k + 1) <= 2 ^ 16) by (apply Z.pow_le_mono_r; lia). assert (0 < 2 ^ (k + 1)) by (apply Z.pow_pos_nonneg; lia).
    rewrite u64_small by (change (2 ^ 16) with 65536 in *; lia).
    destruct (IH (k + 1)) as (j&E&Hj&Hn'); [lia..|]. exists j. split; [done|]. split; [lia|done].
  - exists k. split; [done|lia].
Qed.

Lemma clamp_range lo hi z : lo <= hi -> lo <= clamp lo hi z <= hi.
Proof. intros H. unfold clamp. destruct (Z.ltb_spec z lo); [lia|]. destruct (Z.gtb_spec z hi); lia. Qed.

Lemma cell_zeros n i : cell (replicate n 0) i = 0.
Proof. unfold cell. destruct (_ !! _) as [v|] eqn:E; [|done]. apply lookup_replicate in E as [-> _]. done. Qed.

Lemma create_spec mmap_ok slots modules cap threshold duration :
  owp (daemon_limits_create mmap_ok slots modules cap threshold duration)
    (fun r => shaped r /\ table_ok r /\ max_slots r = clamp DAEMON_LIMITS_MIN_SLOTS DAEMON_LIMITS_MAX_SLOTS slots /\
       module_active r = replicate (Z.to_nat (module_count r)) 0 /\ host_active r = replicate (Z.to_nat (host_slots r)) 0 /\
       slot_state r = replicate (Z.to_nat (max_slots r)) SLOT_FREE).
Proof.
  unfold daemon_limits_create. set (need := _ || _). set (want := clamp 64 _ _).
  assert (Hw : 64 <= want <= 65536) by (apply clamp_range; done).
  assert (Hh : exists k, (if need then next_pow2 want else Ret 1) = Ret (2 ^ k) /\ 0 <= k <= 16).
  { destruct need; [|exists 0; done]. destruct (pow2_loop_spec 65 0 want) as (j&E&Hj&_); [lia..|]. exists j. split; [exact E|lia]. }
  destruct Hh as (k&->&Hk). cbn [mbind outcome_bind]. wp_check Em. apply owp_ret.
  assert (0 < 2 ^ k) by (apply Z.pow_pos_nonneg; lia).
  pose proof (clamp_range DAEMON_LIMITS_MIN_SLOTS DAEMON_LIMITS_MAX_SLOTS slots) as Hs.
  pose proof (clamp_range 1 DAEMON_LIMITS_MAX_MODULES modules) as Hm.
  unfold DAEMON_LIMITS_MIN_SLOTS, DAEMON_LIMITS_MAX_SLOTS, DAEMON_LIMITS_MAX_MODULES in *.
  assert (Hz : forall i, cell (replicate (Z.to_nat (2 ^ k)) 0) i = 0) by apply cell_zeros.
  split_and!; try done; split; simpl; rewrite ?zlen_replicate by lia; try done; try lia.
  - unfold DAEMON_LIMITS_MIN_SLOTS, DAEMON_LIMITS_MAX_SLOTS. lia.
  - unfold DAEMON_LIMITS_MAX_MODULES. lia.
  - by exists k.
  - intros key d Hk0 _. unfold key_at. simpl. rewrite Hz. lia.
  - intros i j _ _ _. unfold key_at. simpl. by rewrite Hz.
  - intros i _. unfold key_at. simpl. rewrite Hz. lia.
Qed.

(** ** The table of sources frees up *)

Section Sources.
Context {I : Inet} {L : InetLaws I}.

(** A source is always tracked again.  Take any well-formed registry in which
    some bucket has no live connection and was ever stamped or locked (or is
    empty).  There is a time from which on interning any numeric address finds
    a bucket, so the limits per source cannot stay switched off. *)
Lemma source_table_frees_up r peer idx
    (Hshape : shaped r) (Htable : table_ok r) (Hpeer : daemon_limits_host_hash peer <> None)
    (Hidx : in_table r idx) (Hidle : cell (host_active r) idx = 0)
    (Hstamped : key_at r idx = 0 \/ cell (host_until r) idx <> 0 \/ cell (host_last_use r) idx <> 0) :
  exists T, forall now, T <= now -> exists r' b, host_intern r peer now = Ret (r', b) /\ in_table r b /\ Some (key_at r' b) = daemon_limits_host_hash peer.
Proof.
  exists (Z.max (cell (host_until r) idx) (cell (host_last_use r) idx + DAEMON_LIMITS_HOST_EVICT_IDLE_SEC)). intros now Hnow.
  destruct (daemon_limits_host_hash peer) as [key|] eqn:Eh; [|done].
  destruct (host_intern_spec r Hshape Htable peer key now Eh) as (r'&b&E&Hi). exists r', b. split; [done|].
  pose proof (interned_cells_intro r Hshape Htable key now r' b (hash_range _ _ Eh) Hi) as [_ [->|[Hb Hk]] _ _ _ _]; [|by rewrite Hk].
  exfalso. inversion Hi as [idx' Hin|d idx' Hd Hp|idx' Hin|Hno Hab E1 E2]; subst; try (unfold in_table in *; lia).
  { match goal with H : -1 = probe _ _ _ |- _ => pose proof (host_probe_range r (key_start r key) d Hshape
      (key_start_range r key Hshape ltac:(pose proof (hash_range _ _ Eh); lia)) Hd); lia end. }
  destruct (Hno idx Hidx) as [Hk0 Hr]. unfold reclaimable in Hr. rewrite Hidle in Hr. simpl in Hr.
  destruct (Z.eqb_spec (cell (host_until r) idx) 0) as [E0|E0]; simpl in Hr.
  - destruct Hstamped as [?|[?|Hl]]; [done..|]. destruct (Z.eqb_spec (cell (host_last_use r) idx) 0); [done|]. simpl in Hr.
    rewrite Z.geb_leb in Hr. apply Z.leb_gt in Hr. lia.
  - apply Z.leb_gt in Hr. lia.
Qed.

(** ** Lockout *)

(** Two registries that agree on what the lockout depends on, apart from the
    counters of bucket [b]. *)
Record same_but (b : Z) (r r' : registry) : Prop := {
  sb_shape : shaped r'; sb_table : table_ok r';
  sb_params : host_slots r' = host_slots r /\ lockout_threshold r' = lockout_threshold r /\ lockout_duration_sec r' = lockout_duration_sec r;
  sb_key : forall i, in_table r i -> key_at r' i = key_at r i;
  sb_other : forall i, in_table r i -> i <> b -> cell (host_fail r') i = cell (host_fail r) i /\ cell (host_until r') i = cell (host_until r) i;
}.

Lemma same_but_refl b r : shaped r -> table_ok r -> same_but b r r.
Proof. by split. Qed.
Lemma same_but_trans b r1 r2 r3 : same_but b r1 r2 -> same_but b r2 r3 -> same_but b r1 r3.
Proof.
  intros [S1 T1 (P1&P2&P3) K1 O1] [S2 T2 (Q1&Q2&Q3) K2 O2]. unfold in_table in *. split; try done; [split_and!; congruence| |].
  - intros i Hi. rewrite K2 by (rewrite P1; done). by apply K1.
  - intros i Hi Hne. destruct (O1 i Hi Hne) as [-> ->] || destruct (O1 i Hi Hne) as [<- <-]. apply O2; [by rewrite P1|done].
Qed.

(** Writing the two counters of a bucket that holds a key. *)
Lemma counters_same_but r b now f u :
  shaped r -> table_ok r -> in_table r b -> key_at r b <> 0 ->
  same_but b r (set_host_until (set_host_fail (touch r b now) (<[Z.to_nat b := f]> (host_fail r))) (<[Z.to_nat b := u]> (host_until r))).
Proof.
  intros Hs Ht Hb Hk. destruct (table_lengths r Hs) as (Lk&La&Lf&Lu&Ll). unfold in_table in Hb.
  assert (Ho : forall (a : list Z) v i, zlen a = host_slots r -> in_table r i -> i <> b -> cell (<[Z.to_nat b := v]> a) i = cell a i).
  { intros a v i Ha Hi Hne. unfold in_table in Hi. rewrite cell_insert by lia. by destruct (Z.eqb_spec i b). }
  split; try done.
  - destruct Hs as [? ? ? ? ? (?&?&?&?&?)]. split; simpl; rewrite ?zlen_insert; done.
  - destruct Ht as [T1 T2 T3 T4]. split; try done. intros i Hi Hk0. destruct (decide (i = b)) as [->|Hne]; [done|].
    simpl. rewrite !Ho by done. by apply T4.
  - intros i Hi Hne. simpl. by rewrite !Ho.
Qed.

Lemma present_found r key now r' b b' :
  shaped r -> table_ok r -> in_table r b -> key_at r b = key -> 0 < key -> interned r key now r' b' -> b' = b /\ r' = touch r b now.
Proof.
  intros Hs Ht Hb Hk H0 Hi. assert (Hp : present r key) by (by exists b). destruct Hi as [idx Hin E| | |]; try done.
  assert (idx = b) as -> by (apply (t_unique r Ht); [done|done|congruence|lia]). done.
Qed.

Section Failures.
Context (r0 : registry) (peer : list byte) (key b : Z).
Hypothesis (Hh : daemon_limits_host_hash peer = Some key) (Hb : in_table r0 b) (Hk : key_at r0 b = key).

Lemma record_failure_step r now :
  same_but b r0 r -> lockout_on r = true -> 0 <= cell (host_fail r) b < INT_MAX ->
  exists r', daemon_limits_auth_record_failure r peer now = Ret r' /\ same_but b r0 r' /\
    cell (host_fail r') b = cell (host_fail r) b + 1 /\
    cell (host_until r') b = (if cell (host_fail r) b + 1 >=? lockout_threshold r then now + lockout_duration_sec r else cell (host_until r) b).
Proof.
  intros Hsb Hon Hf. pose proof Hsb as [Hs Ht (Hp&_) HK _]. pose proof (hash_range _ _ Hh) as Hkr. unfold INT_MAX in Hf.
  assert (Hb' : in_table r b) by (unfold in_table in *; by rewrite Hp). assert (Hk' : key_at r b = key) by (by rewrite HK).
  destruct (host_intern_spec r Hs Ht peer key now Hh) as (r1&b1&E&Hi).
  destruct (present_found r key now r1 b b1 Hs Ht Hb' Hk' ltac:(lia) Hi) as [-> ->].
  unfold daemon_limits_auth_record_failure. rewrite Hon, E. cbn [negb mbind outcome_bind]. destruct (table_lengths r Hs) as (_&_&Lf&Lu&_).
  unfold in_table in Hb'. destruct (Z.ltb_spec b 0); [lia|]. unfold fetch_add. cbn [host_fail touch set_host_last_use set_counts].
  rewrite ld_cell by lia. cbn [mbind outcome_bind]. rewrite st_ret by lia. cbn [mbind outcome_bind]. rewrite int_ok_ret by lia.
  cbn [mbind outcome_bind lockout_threshold set_host_fail touch set_host_last_use set_counts].
  assert (Hi32 : i32 (cell (host_fail r) b + 1) = cell (host_fail r) b + 1) by (apply i32_small; lia).
  destruct (Z.geb_spec (cell (host_fail r) b + 1) (lockout_threshold r)) as [Hge|Hlt].
  - rewrite st_ret by (simpl; lia). eexists. split; [done|].
    split; [eapply same_but_trans; [done|]; apply (counters_same_but r b now); try done; lia|]. simpl. rewrite !cell_insert, !Z.eqb_refl by (simpl; lia). done.
  - eexists. split; [done|]. split.
    + eapply same_but_trans; [done|].
      pose proof (counters_same_but r b now (i32 (cell (host_fail r) b + 1)) (cell (host_until r) b) Hs Ht Hb' ltac:(lia)) as Hc.
      assert (Hid : <[Z.to_nat b := cell (host_until r) b]> (host_until r) = host_until r).
      { apply list_insert_id. unfold cell. destruct (host_until r !! Z.to_nat b) eqn:El; [done|]. apply lookup_ge_None in El. unfold zlen in Lu. lia. }
      rewrite Hid in Hc. by destruct r.
    + simpl. rewrite cell_insert, Z.eqb_refl by lia. done.
Qed.

Lemma auth_locked_step r now :
  same_but b r0 r -> lockout_on r = true ->
  exists r', daemon_limits_auth_locked r peer now =
      Ret (r', if cell (host_until r) b >? now then Some (i32 (cell (host_until r) b - now)) else None) /\ same_but b r0 r' /\
    (cell (host_until r) b <= now -> cell (host_until r) b <> 0 -> cell (host_fail r') b = 0 /\ cell (host_until r') b = 0).
Proof.
  intros Hsb Hon. pose proof Hsb as [Hs Ht (Hp&_) HK _]. pose proof (hash_range _ _ Hh) as Hkr.
  assert (Hb' : in_table r b) by (unfold in_table in *; by rewrite Hp). assert (Hk' : key_at r b = key) by (by rewrite HK).
  destruct (host_lookup_spec r Hs Ht peer key now Hh) as (r1&b1&E&[(Hb1&Hk1&->)|(_&_&Hab)]); [|destruct Hab; by exists b].
  assert (b1 = b) as -> by (apply (t_unique r Ht); [done|done|congruence|lia]).
  unfold daemon_limits_auth_locked. rewrite Hon, E. cbn [negb mbind outcome_bind]. destruct (table_lengths r Hs) as (_&_&Lf&Lu&_).
  unfold in_table in Hb'. destruct (Z.ltb_spec b 0); [lia|]. cbn [host_until touch set_host_last_use set_counts]. rewrite ld_cell by lia.
  cbn [mbind outcome_bind]. destruct (Z.gtb_spec (cell (host_until r) b) now) as [Hgt|Hle].
  - eexists. split; [done|]. split; [|lia]. eapply same_but_trans; [done|]. destruct Hs, Ht. by split; split; simpl; rewrite ?zlen_insert.
  - destruct (Z.eqb_spec (cell (host_until r) b) 0) as [E0|E0]; simpl (negb _); cbv iota.
    + eexists. split; [done|]. split; [|done]. eapply same_but_trans; [done|]. destruct Hs, Ht. by split; split; simpl; rewrite ?zlen_insert.
    + do 2 (rewrite st_ret by (simpl; lia); cbn [mbind outcome_bind]). eexists. split; [done|].
      split; [eapply same_but_trans; [done|]; apply (counters_same_but r b now); try done; lia|]. intros _ _. simpl.
      rewrite !cell_insert, !Z.eqb_refl by lia. done.
Qed.
End Failures.

Lemma failures_run r0 peer key b times r :
  daemon_limits_host_hash peer = Some key -> in_table r0 b -> key_at r0 b = key ->
  same_but b r0 r -> lockout_on r = true -> 0 <= cell (host_fail r) b -> cell (host_fail r) b + zlen times <= INT_MAX ->
  exists r', foldM (fun t r => daemon_limits_auth_record_failure r peer t) times r = Ret r' /\ same_but b r0 r' /\
    cell (host_fail r') b = cell (host_fail r) b + zlen times /\
    cell (host_until r') b = (match last times with
      | Some t => if cell (host_fail r) b + zlen times >=? lockout_threshold r0 then t + lockout_duration_sec r0 else cell (host_until r) b
      | None => cell (host_until r) b end).
Proof.
  intros Hh Hb Hk. revert r. induction times as [|t ts IH]; intros r Hsb Hon H0 Hf.
  - exists r. simpl. unfold zlen. simpl. split_and!; try done. lia.
  - rewrite zlen_cons in Hf. pose proof (zlen_nonneg ts).
    destruct (record_failure_step r0 peer key b Hh Hb Hk r t Hsb Hon) as (r1&E&Hsb1&Hf1&Hu1); [lia|].
    assert (Hpar : lockout_threshold r = lockout_threshold r0 /\ lockout_duration_sec r = lockout_duration_sec r0) by (by destruct Hsb as [_ _ (_&?&?) _ _]).
    assert (Hpar1 : lockout_threshold r1 = lockout_threshold r0 /\ lockout_duration_sec r1 = lockout_duration_sec r0) by (by destruct Hsb1 as [_ _ (_&?&?) _ _]).
    destruct Hpar as [P1 P2], Hpar1 as [P3 P4].
    destruct (IH r1 Hsb1) as (r'&E'&Hsb'&Hf'&Hu'); [unfold lockout_on in *; by rewrite P3, P4, <- P1, <- P2|lia|lia|].
    exists r'. simpl foldM. rewrite E. cbn [mbind outcome_bind]. rewrite zlen_cons. split_and!; [done|done|lia|].
    rewrite Hu', Hf1, Hu1, P1, P2. rewrite last_cons. replace (cell (host_fail r) b + 1 + zlen ts) with (cell (host_fail r) b + (1 + zlen ts)) by lia.
    destruct (last ts) as [t'|] eqn:El; cbv beta iota; [|apply last_None in El as ->; by replace (cell (host_fail r) b + (1 + zlen (@nil Z))) with (cell (host_fail r) b + 1) by (unfold zlen; simpl; lia)].
    destruct (Z.geb_spec (cell (host_fail r) b + (1 + zlen ts)) (lockout_threshold r0)), (Z.geb_spec (cell (host_fail r) b + 1) (lockout_threshold r0)); done || lia.
Qed.

(** Repeated failures lock a source out, for exactly the configured time,
    and no other source.  From a source without failures, after any failed
    attempts the source is refused if and only if there were at least as many
    as the threshold and the time is before the last one plus the duration; the
    counters of every other source stay as they were, and once the lockout is
    over the source starts from zero. *)
Lemma lockout_exact r peer key b times t now
    (Hshape : shaped r) (Htable : table_ok r) (Hon : lockout_on r = true)
    (Hpeer : daemon_limits_host_hash peer = Some key) (Hbucket : in_table r b) (Hkey : key_at r b = key)
    (Hclean : cell (host_fail r) b = 0 /\ cell (host_until r) b = 0)
    (Hcount : zlen times + 1 <= INT_MAX) (Hnow : 0 <= now) :
  exists r1 r2 verdict,
    foldM (fun t r => daemon_limits_auth_record_failure r peer t) (times ++ [t]) r = Ret r1 /\
    daemon_limits_auth_locked r1 peer now = Ret (r2, verdict) /\
    (verdict <> None <-> lockout_threshold r <= zlen times + 1 /\ now < t + lockout_duration_sec r) /\
    (verdict = None -> lockout_threshold r <= zlen times + 1 -> t + lockout_duration_sec r <> 0 -> cell (host_fail r2) b = 0) /\
    same_but b r r2.
Proof.
  destruct Hclean as [Hf0 Hu0]. destruct (failures_run r peer key b (times ++ [t]) r Hpeer Hbucket Hkey) as (r1&E1&Hsb1&Hf1&Hu1).
  { by apply same_but_refl. } { done. } { lia. } { rewrite Hf0, zlen_app. unfold zlen in *. simpl. lia. }
  assert (Hon1 : lockout_on r1 = true) by (destruct Hsb1 as [_ _ (_&P&Q) _ _]; unfold lockout_on in *; by rewrite P, Q).
  destruct (auth_locked_step r peer key b Hpeer Hbucket Hkey r1 now Hsb1 Hon1) as (r2&E2&Hsb2&Hc2).
  rewrite last_snoc, Hf0, Hu0, zlen_app in Hu1. change (zlen [t]) with 1 in Hu1. replace (0 + (zlen times + 1)) with (zlen times + 1) in Hu1 by lia.
  exists r1, r2. eexists. split; [exact E1|]. split; [exact E2|]. rewrite Hu1 in *.
  destruct (Z.geb_spec (zlen times + 1) (lockout_threshold r)) as [Hge|Hlt].
  - destruct (Z.gtb_spec (t + lockout_duration_sec r) now); (split_and!; [|done || (intros; apply Hc2; lia)|done]); (split; [intros; lia || done|]); done || lia.
  - destruct (Z.gtb_spec 0 now); [lia|]. split_and!; [|lia|done]. split; [done|lia].
Qed.
End Sources.

(** ** A small registry *)

(** A registry of 16 slots with a lockout after two failures, once 10.200.3.4
    has been seen. *)
Definition demo_new : outcome registry := daemon_limits_create (fun _ => true) 16 2 3 2 60.
Definition demo_seen : outcome (registry * Z) := r ← demo_new; @host_intern demo_inet r (cs "10.200.3.4") 1000.
Definition demo_registry : registry := match demo_seen with Ret (r, _) => r | _ => MkReg 0 0 0 0 0 0 0 0 [] [] [] [] [] [] [] [] [] [] end.

Lemma demo_registry_ok : shaped demo_registry /\ table_ok demo_registry.
Proof.
  unfold demo_registry, demo_seen. pose proof (create_spec (fun _ => true) 16 2 3 2 60) as Hc. fold demo_new in Hc.
  destruct demo_new as [r| |] eqn:E; [|by vm_compute in E..]. destruct Hc as (Hs&Ht&_). cbn [mbind outcome_bind].
  destruct (@daemon_limits_host_hash demo_inet (cs "10.200.3.4")) as [key|] eqn:Eh; [|by vm_compute in Eh].
  destruct (@host_intern_spec demo_inet r Hs Ht (cs "10.200.3.4") key 1000 Eh) as (r'&b&->&Hi).
  split; [by eapply interned_frame|]. eapply ic_table, interned_cells_intro; try done. by eapply hash_range.
Qed.

