(* ===== verification/DaemonLoop.v ===== *)
(** The daemon at work: the accept loop and SIGCHLD handler of
    src/shared/transport_tcp.c and the forked children of src/shared/daemon_limits.c,
    interleaved.  The parent claims a slot, forks and records the child with
    SIGCHLD blocked; a child registers by single atomic operations, may be
    killed between any two of them, and runs the authentication checks; the
    handler reclaims the slots of dead children and recounts.  Interning a
    source and one run of the handler are taken as single steps. *)

From S2P Require Import Prelude Alloc CStr Transport Session Wp Names Libc DaemonConf DaemonLimits.

(** Where a child is in [daemon_limits_register]: the next operation. *)
Inductive pc :=
| PCheck                (** the state of its slot is still to be read *)
| PAddModule            (** [module_active += 1] and the check of the cap *)
| PUndoModule           (** over the module's cap: [module_active -= 1] *)
| PAddHost              (** [host_active += 1] and the check of the cap *)
| PUndoHost             (** over the source's cap: [host_active -= 1] *)
| PUndoBoth             (** and then [module_active -= 1] *)
| PStoreModule | PStoreHost | PPublish
| PDone (result : limit_result).
#[global] Instance pc_eq_dec : EqDecision pc.
Proof. solve_decision. Defined.

Record child := MkChild {
  c_pid : Z; c_slot : Z; c_alive : bool; c_module : Z; c_cap : Z; c_host : Z; c_pc : pc;
}.
Definition at_pc (c : child) (p : pc) : child := MkChild (c_pid c) (c_slot c) (c_alive c) (c_module c) (c_cap c) (c_host c) p.
Definition dead (c : child) : child := MkChild (c_pid c) (c_slot c) false (c_module c) (c_cap c) (c_host c) (c_pc c).

Inductive parent := Idle | Claimed (slot : Z).
Record daemon := MkDaemon { reg : registry; children : list child; par : parent; active : Z }.

Section Loop.
Context {I : Inet}.
(** The cap of each module and the listener's limit on connections. *)
Context (module_cap : Z -> Z) (max_connections : Z).

(** One operation of a registering child *)
Definition child_step (r : registry) (c : child) (now : Z) (peer : list byte) : outcome (registry * child) :=
  match c_pc c with
  | PCheck =>
      if negb (slot_valid r (c_slot c)) then Ret (r, at_pc c (PDone DAEMON_LIMIT_UNAVAILABLE))
      else if (c_module c <? 0) || (c_module c >=? module_count r) then Ret (r, at_pc c (PDone DAEMON_LIMIT_UNAVAILABLE))
      else
        s ← ld (slot_state r) (c_slot c);
        if negb (s =? SLOT_CLAIMED) then Ret (r, at_pc c (PDone DAEMON_LIMIT_UNAVAILABLE))
        else
          '(r, host) ← (if registry_tracks_hosts r then host_intern r peer now else Ret (r, -1));
          Ret (r, MkChild (c_pid c) (c_slot c) (c_alive c) (c_module c) (c_cap c) host PAddModule)
  | PAddModule =>
      '(ma, before) ← fetch_add (module_active r) (c_module c) 1;
      count ← int_ok (before + 1);
      Ret (set_module_active r ma,
           at_pc c (if (c_cap c >? 0) && (count >? c_cap c) then PUndoModule else if c_host c >=? 0 then PAddHost else PStoreModule))
  | PUndoModule =>
      '(ma, _) ← fetch_add (module_active r) (c_module c) (-1);
      Ret (set_module_active r ma, at_pc c (PDone DAEMON_LIMIT_MODULE_FULL))
  | PAddHost =>
      '(ha, before) ← fetch_add (host_active r) (c_host c) 1;
      count ← int_ok (before + 1);
      Ret (set_host_active r ha, at_pc c (if (per_host_cap r >? 0) && (count >? per_host_cap r) then PUndoHost else PStoreModule))
  | PUndoHost =>
      '(ha, _) ← fetch_add (host_active r) (c_host c) (-1); Ret (set_host_active r ha, at_pc c PUndoBoth)
  | PUndoBoth =>
      '(ma, _) ← fetch_add (module_active r) (c_module c) (-1);
      Ret (set_module_active r ma, at_pc c (PDone DAEMON_LIMIT_HOST_FULL))
  | PStoreModule => m ← st (slot_module r) (c_slot c) (c_module c); Ret (set_slot_module r m, at_pc c PStoreHost)
  | PStoreHost => t ← st (slot_host r) (c_slot c) (c_host c); Ret (set_slot_host r t, at_pc c PPublish)
  | PPublish =>
      s ← st (slot_state r) (c_slot c) SLOT_REGISTERED; Ret (set_slot_state r s, at_pc c (PDone DAEMON_LIMIT_OK))
  | PDone _ => Ret (r, c)
  end.

(** The SIGCHLD handler of transport_tcp.c, having reaped [pids] *)
Definition sigchld_handler (r : registry) (active : Z) (pids : list Z) : outcome (registry * Z) :=
  '(r, active) ← foldM (fun pid s => let '(r, a) := s in
                          r ← daemon_limits_reclaim_pid r pid; Ret (r, if a >? 0 then a - 1 else a)) pids (r, active);
  r ← daemon_limits_recompute r;
  Ret (r, active).

Definition alive_of (ch : list child) (pid : Z) : bool := existsb (fun c => (c_pid c =? pid) && c_alive c) ch.
Definition registering (c : child) : bool :=
  c_alive c && match c_pc c with PCheck | PAddModule | PDone _ => false | _ => true end.

(** One step of the whole daemon.  [quiet] restricts the handler to moments
    when no live child is between its counting and its publication. *)
Inductive step (quiet : bool) : daemon -> daemon -> Prop :=
| SClaim d r slot : par d = Idle -> active d < max_connections ->
    daemon_limits_claim_slot (reg d) = Ret (r, slot) -> slot <> DAEMON_LIMITS_NO_SLOT ->
    step quiet d (MkDaemon r (children d) (Claimed slot) (active d))
| SFork d slot pid module r : par d = Claimed slot -> 0 < pid < 2 ^ 31 -> pid ∉ (c_pid <$> children d) ->
    daemon_limits_set_slot_pid (reg d) slot pid = Ret r ->
    step quiet d (MkDaemon r (children d ++ [MkChild pid slot true module (module_cap module) (-1) PCheck]) Idle (active d + 1))
| SForkFails d slot r : par d = Claimed slot -> daemon_limits_reclaim_slot (reg d) slot = Ret r ->
    step quiet d (MkDaemon r (children d) Idle (active d))
| SChild d i c r c' now peer : children d !! i = Some c -> c_alive c = true -> child_step (reg d) c now peer = Ret (r, c') ->
    step quiet d (MkDaemon r (<[i := c']> (children d)) (par d) (active d))
| SKill d i c : children d !! i = Some c ->
    step quiet d (MkDaemon (reg d) (<[i := dead c]> (children d)) (par d) (active d))
| SLocked d r v now peer : daemon_limits_auth_locked (reg d) peer now = Ret (r, v) ->
    step quiet d (MkDaemon r (children d) (par d) (active d))
| SFailure d r now peer : daemon_limits_auth_record_failure (reg d) peer now = Ret r ->
    step quiet d (MkDaemon r (children d) (par d) (active d))
| SSuccess d r now peer : daemon_limits_auth_record_success (reg d) peer now = Ret r ->
    step quiet d (MkDaemon r (children d) (par d) (active d))
| SReap d pids r a : NoDup pids -> pids ⊆ (c_pid <$> children d) -> (forall pid, pid ∈ pids -> alive_of (children d) pid = false) ->
    (quiet = true -> forall c, c ∈ children d -> registering c = false) ->
    sigchld_handler (reg d) (active d) pids = Ret (r, a) ->
    step quiet d (MkDaemon r (filter (fun c => c_pid c ∉ pids) (children d)) (par d) a).

(** From a new registry with no child. *)
Definition initial (d : daemon) : Prop :=
  children d = [] /\ par d = Idle /\ active d = 0 /\
  exists mmap_ok modules cap threshold duration,
    daemon_limits_create mmap_ok max_connections modules cap threshold duration = Ret (reg d).
Definition reachable (quiet : bool) (d : daemon) : Prop := exists d0, initial d0 /\ rtc (step quiet) d0 d.
End Loop.

(** ** What the operations do to the slots *)

Definition in_slots (r : registry) (s : Z) : Prop := 0 <= s < max_slots r.
Definition state_at (r : registry) (s : Z) : Z := cell (slot_state r) s.
Definition pid_at (r : registry) (s : Z) : Z := cell (slot_pid r) s.

(** The rest of the registry: parameters, table and counters. *)
Definition same_rest (r r' : registry) : Prop :=
  max_slots r' = max_slots r /\ module_count r' = module_count r /\ host_slots r' = host_slots r /\ per_host_cap r' = per_host_cap r /\
  host_key r' = host_key r /\ host_fail r' = host_fail r /\ host_until r' = host_until r /\ host_last_use r' = host_last_use r /\
  module_active r' = module_active r /\ host_active r' = host_active r.
(** The slots. *)
Definition same_slots (r r' : registry) : Prop :=
  slot_state r' = slot_state r /\ slot_pid r' = slot_pid r /\ slot_module r' = slot_module r /\ slot_host r' = slot_host r /\
  max_slots r' = max_slots r /\ module_count r' = module_count r /\ host_slots r' = host_slots r /\ per_host_cap r' = per_host_cap r.

Lemma slot_lengths r : shaped r -> zlen (slot_state r) = max_slots r /\ zlen (slot_pid r) = max_slots r /\
  zlen (slot_module r) = max_slots r /\ zlen (slot_host r) = max_slots r.
Proof. by intros []. Qed.

Lemma same_rest_table r r' : same_rest r r' -> table_ok r -> table_ok r'.
Proof.
  intros (_&_&Hh&_&Hk&Hf&Hu&_&_&Ha) [T1 T2 T3 T4]. unfold in_table, key_at, probe, key_start in *.
  split; unfold in_table, key_at, probe, key_start; rewrite ?Hh, ?Hk, ?Hf, ?Hu, ?Ha; done.
Qed.

Lemma slot_valid_spec r s : slot_valid r s = true <-> in_slots r s.
Proof. unfold slot_valid, in_slots. rewrite negb_true_iff, orb_false_iff, Z.ltb_ge, Z.geb_leb, Z.leb_gt. lia. Qed.

(** Claiming takes the first free slot, or there is none. *)
Lemma claim_loop_spec r n i : shaped r -> (n = Z.to_nat (max_slots r - i))%nat -> 0 <= i ->
  (exists s, claim_loop n r i = Ret (set_slots r (<[Z.to_nat s := SLOT_CLAIMED]> (slot_state r)) (<[Z.to_nat s := 0]> (slot_pid r))
      (<[Z.to_nat s := -1]> (slot_module r)) (<[Z.to_nat s := -1]> (slot_host r)), s) /\ in_slots r s /\ state_at r s = SLOT_FREE) \/
  (claim_loop n r i = Ret (r, DAEMON_LIMITS_NO_SLOT) /\ forall s, i <= s < max_slots r -> state_at r s <> SLOT_FREE).
Proof.
  intros Hs. destruct (slot_lengths r Hs) as (L1&L2&L3&L4). revert i. induction n as [|n IH]; intros i Hn Hi; cbn [claim_loop].
  - right. split; [done|]. lia.
  - unfold cas. rewrite ld_cell by lia. cbn [mbind outcome_bind]. fold (state_at r i). destruct (Z.eqb_spec (state_at r i) SLOT_FREE) as [E|E].
    + left. exists i. do 4 (rewrite st_ret by lia; cbn [mbind outcome_bind]). split; [done|]. split; [unfold in_slots; lia|done].
    + cbn [mbind outcome_bind]. destruct (IH (i + 1)) as [Hl|[Hr Hall]]; [lia|lia|by left|right]. split; [done|].
      intros s Hsr. destruct (decide (s = i)) as [->|]; [done|]. apply Hall. lia.
Qed.

Lemma reclaim_slot_spec r s : shaped r -> in_slots r s ->
  daemon_limits_reclaim_slot r s = Ret (set_slot_pid (set_slot_state r (<[Z.to_nat s := SLOT_FREE]> (slot_state r))) (<[Z.to_nat s := 0]> (slot_pid r))).
Proof.
  intros Hs Hin. destruct (slot_lengths r Hs) as (L1&L2&_). unfold daemon_limits_reclaim_slot. rewrite (proj2 (slot_valid_spec r s) Hin).
  unfold in_slots in Hin. by rewrite !st_ret by lia.
Qed.

(** Reclaiming by pid frees the slot that records it. *)
Lemma reclaim_loop_spec r pid s n i : shaped r -> 0 < pid < 2 ^ 31 -> in_slots r s -> state_at r s <> SLOT_FREE -> pid_at r s = pid ->
  (forall s', in_slots r s' -> state_at r s' <> SLOT_FREE -> pid_at r s' = pid -> s' = s) ->
  (n = Z.to_nat (max_slots r - i))%nat -> 0 <= i <= s -> reclaim_loop n r pid i = daemon_limits_reclaim_slot r s.
Proof.
  intros Hs Hp Hin Hst Hpid Hu. destruct (slot_lengths r Hs) as (L1&L2&_). revert i.
  induction n as [|n IH]; intros i Hn Hi; unfold in_slots in *; [lia|]. cbn [reclaim_loop].
  rewrite (ld_cell (slot_state r)) by lia. cbn [mbind outcome_bind]. fold (state_at r i). destruct (Z.eqb_spec (state_at r i) SLOT_FREE) as [E|E].
  - apply IH; [lia|]. split; [lia|]. destruct (decide (i = s)) as [->|]; [done|lia].
  - rewrite ld_cell by lia. cbn [mbind outcome_bind]. fold (pid_at r i). rewrite i32_small by lia.
    destruct (Z.eqb_spec (pid_at r i) pid) as [Ep|Ep]; [by rewrite (Hu i) by (try done; lia)|].
    apply IH; [lia|]. split; [lia|]. destruct (decide (i = s)) as [->|]; [done|lia].
Qed.

(** ** Counting slots *)

(** The registered slots below [k] whose entry of [arr] is [i]. *)
Definition tally_to (r : registry) (arr : list Z) (k i : Z) : Z :=
  zlen (filter (fun s => state_at r s = SLOT_REGISTERED /\ cell arr s = i) (seqZ 0 k)).
Definition tally (r : registry) (arr : list Z) (i : Z) : Z := tally_to r arr (max_slots r) i.
Definition registered_in (r : registry) (m : Z) : Z := tally r (slot_module r) m.
Definition registered_from (r : registry) (b : Z) : Z := tally r (slot_host r) b.

Lemma tally_to_succ r arr k i : 0 <= k ->
  tally_to r arr (k + 1) i = tally_to r arr k i + (if (state_at r k =? SLOT_REGISTERED) && (cell arr k =? i) then 1 else 0).
Proof.
  intros Hk. unfold tally_to. rewrite seqZ_app by lia. replace (0 + k) with k by lia. replace (seqZ k 1) with [k] by done.
  rewrite filter_app, zlen_app. f_equal. rewrite filter_cons, filter_nil.
  destruct (Z.eqb_spec (state_at r k) SLOT_REGISTERED), (Z.eqb_spec (cell arr k) i); case_decide; naive_solver.
Qed.
Lemma tally_to_bound r arr k i : 0 <= k -> 0 <= tally_to r arr k i <= k.
Proof.
  intros Hk. unfold tally_to, zlen. pose proof (length_filter (fun s => state_at r s = SLOT_REGISTERED /\ cell arr s = i) (seqZ 0 k)) as H.
  rewrite length_seqZ in H. lia.
Qed.

Lemma count_one_spec arr i n : zlen arr = n -> n <= 65536 -> (forall j, 0 <= j < n -> 0 <= cell arr j < 65536) ->
  exists arr', count_one arr i n = Ret arr' /\ zlen arr' = n /\ forall j, 0 <= j < n -> cell arr' j = cell arr j + (if j =? i then 1 else 0).
Proof.
  intros Hl Hn Hb. unfold count_one. destruct ((i >=? 0) && (i <? n)) eqn:E.
  - apply andb_true_iff in E as [E1 E2]. rewrite Z.geb_leb in E1. apply Z.leb_le in E1. apply Z.ltb_lt in E2.
    unfold fetch_add. rewrite ld_cell by lia. cbn [mbind outcome_bind]. rewrite st_ret by lia. cbn [mbind outcome_bind].
    eexists. split; [done|]. split; [by rewrite zlen_insert|]. intros j Hj. rewrite cell_insert by lia. specialize (Hb i ltac:(lia)).
    rewrite i32_small by lia. destruct (Z.eqb_spec j i) as [->|]; lia.
  - exists arr. split; [done|]. split; [done|]. intros j Hj. destruct (Z.eqb_spec j i) as [->|]; [|lia].
    apply andb_false_iff in E. rewrite Z.geb_leb in E. destruct E as [E|E]; [apply Z.leb_gt in E|apply Z.ltb_ge in E]; lia.
Qed.

(** Recounting gives the exact counters, whatever they were. *)
Lemma recompute_loop_spec n r i : shaped r -> (n = Z.to_nat (max_slots r - i))%nat -> 0 <= i <= max_slots r ->
  (forall j, 0 <= j < module_count r -> cell (module_active r) j = tally_to r (slot_module r) i j) ->
  (forall j, 0 <= j < host_slots r -> cell (host_active r) j = tally_to r (slot_host r) i j) ->
  exists r' ma ha, recompute_loop n r i = Ret r' /\ r' = set_host_active (set_module_active r ma) ha /\ shaped r' /\
    (forall j, 0 <= j < module_count r -> cell ma j = registered_in r j) /\
    (forall j, 0 <= j < host_slots r -> cell ha j = registered_from r j).
Proof.
  revert r i. induction n as [|n IH]; intros r i Hs Hn Hi Hm Hh; cbn [recompute_loop].
  - exists r, (module_active r), (host_active r). assert (i = max_slots r) as -> by lia. split_and!; try done. by destruct r.
  - destruct (slot_lengths r Hs) as (L1&L2&L3&L4). pose proof (host_slots_range r Hs). pose proof Hs as [[_ Hms] [_ Hmc] _ _ Lm (_&La&_)].
    unfold DAEMON_LIMITS_MAX_SLOTS, DAEMON_LIMITS_MAX_MODULES in *.
    rewrite (ld_cell (slot_state r)) by lia. cbn [mbind outcome_bind]. fold (state_at r i).
    destruct (Z.eqb_spec (state_at r i) SLOT_REGISTERED) as [E|E]; simpl (negb _); cbv iota.
    + rewrite (ld_cell (slot_module r)) by lia. cbn [mbind outcome_bind].
      assert (Hb : forall arr j, 0 <= tally_to r arr i j < 65536) by (intros arr j; pose proof (tally_to_bound r arr i j ltac:(lia)); lia).
      destruct (count_one_spec (module_active r) (cell (slot_module r) i) (module_count r)) as (ma&->&Lma&Hma);
        [done|lia|intros j Hj; by rewrite Hm|]. cbn [mbind outcome_bind].
      rewrite (ld_cell (slot_host r)) by lia. cbn [mbind outcome_bind].
      destruct (count_one_spec (host_active r) (cell (slot_host r) i) (host_slots r)) as (ha&->&Lha&Hha);
        [done|lia|intros j Hj; by rewrite Hh|]. cbn [mbind outcome_bind].
      destruct (IH (set_host_active (set_module_active r ma) ha) (i + 1)) as (r'&ma'&ha'&E'&->&Hs'&Hm'&Hh'); simpl; try lia.
      * destruct Hs as [? ? ? ? ? (?&?&?&?&?)]. by split.
      * intros j Hj. rewrite Hma by done. rewrite Hm by done.
        change (tally_to (set_host_active (set_module_active r ma) ha)) with (tally_to r). rewrite tally_to_succ by lia.
        rewrite E, Z.eqb_refl. simpl. by rewrite (Z.eqb_sym j).
      * intros j Hj. rewrite Hha by done. rewrite Hh by done.
        change (tally_to (set_host_active (set_module_active r ma) ha)) with (tally_to r). rewrite tally_to_succ by lia.
        rewrite E, Z.eqb_refl. simpl. by rewrite (Z.eqb_sym j).
      * eexists _, ma', ha'. split; [exact E'|]. done.
    + apply IH; try done; try lia.
      * intros j Hj. rewrite tally_to_succ by lia. rewrite Hm by done. destruct (Z.eqb_spec (state_at r i) SLOT_REGISTERED); [done|]. simpl. lia.
      * intros j Hj. rewrite tally_to_succ by lia. rewrite Hh by done. destruct (Z.eqb_spec (state_at r i) SLOT_REGISTERED); [done|]. simpl. lia.
Qed.

Lemma recompute_spec r : shaped r ->
  exists r' ma ha, daemon_limits_recompute r = Ret r' /\ r' = set_host_active (set_module_active r ma) ha /\ shaped r' /\
    (forall j, 0 <= j < module_count r -> cell (module_active r') j = registered_in r' j) /\
    (forall j, 0 <= j < host_slots r -> cell (host_active r') j = registered_from r' j).
Proof.
  intros Hs. pose proof (host_slots_range r Hs). pose proof Hs as [[? _] [? _] _ _ _ _]. unfold DAEMON_LIMITS_MIN_SLOTS in *. unfold daemon_limits_recompute. cbv zeta.
  set (r0 := set_host_active (set_module_active r _) _).
  destruct (recompute_loop_spec (Z.to_nat (max_slots r)) r0 0) as (r'&ma&ha&E&->&Hs'&Hm&Hh).
  - destruct Hs as [? ? ? ? ? (?&?&?&?&?)]. split; simpl; rewrite ?zlen_replicate by lia; done.
  - simpl. lia.
  - simpl. lia.
  - intros j Hj. simpl. rewrite cell_zeros. pose proof (tally_to_bound r0 (slot_module r) 0 j ltac:(lia)). lia.
  - intros j Hj. simpl. rewrite cell_zeros. pose proof (tally_to_bound r0 (slot_host r) 0 j ltac:(lia)). lia.
  - eexists _, ma, ha. split; [exact E|]. done.
Qed.

(** ** Operations on the table leave the slots and the occupancy alone *)

Record table_only (r r' : registry) : Prop := {
  to_slots : same_slots r r';
  to_modules : module_active r' = module_active r;
  to_active : forall i, in_table r i -> cell (host_active r') i = cell (host_active r) i;
  to_shape : shaped r'; to_table : table_ok r';
}.

Lemma table_only_refl r : shaped r -> table_ok r -> table_only r r.
Proof. by split. Qed.

(** A write of the counters of a bucket that holds a key. *)
Lemma table_only_counters r r' b f u :
  table_only r r' -> in_table r b -> key_at r' b <> 0 ->
  table_only r (set_host_until (set_host_fail r' (<[Z.to_nat b := f]> (host_fail r'))) (<[Z.to_nat b := u]> (host_until r'))).
Proof.
  intros [Hsl Hm Ha Hs Ht] Hb Hk. assert (Hh : host_slots r' = host_slots r) by (by destruct Hsl as (_&_&_&_&_&_&?&_)).
  destruct (table_lengths r' Hs) as (_&_&Lf&Lu&_). unfold in_table in Hb. split; try done.
  - destruct Hs as [? ? ? ? ? (?&?&?&?&?)]. split; try done. simpl. by rewrite !zlen_insert.
  - destruct Ht as [T1 T2 T3 T4]. split; try done. intros i Hi Hk0. unfold in_table in Hi. simpl in *. rewrite !cell_insert by lia.
    destruct (Z.eqb_spec i b) as [->|]; [done|]. by apply T4.
Qed.

Section TableOps.
Context {I : Inet}.
Variable r : registry.
Hypothesis Hs : shaped r.
Hypothesis Ht : table_ok r.

Lemma touch_table_only b now : table_only r (touch r b now).
Proof.
  split; try done; [|by destruct Ht]. destruct Hs as [? ? ? ? ? (?&?&?&?&?)]. split; try done. simpl. by rewrite zlen_insert.
Qed.

Lemma lookup_table_only peer now r' b : host_lookup r peer now = Ret (r', b) ->
  table_only r r' /\ (b < 0 \/ (in_table r b /\ r' = touch r b now /\ key_at r b <> 0)).
Proof.
  unfold host_lookup. destruct (daemon_limits_host_hash peer) as [key|] eqn:E.
  - destruct (host_lookup_spec r Hs Ht peer key now E) as (r1&b1&E1&Hc). unfold host_lookup in E1. rewrite E in E1. rewrite E1. intros [= <- <-].
    pose proof (hash_range _ _ E). destruct Hc as [(Hin&Hk&->)|(->&->&_)]; (split; [|auto with lia]).
    + apply touch_table_only.
    + by apply table_only_refl.
  - intros [= <- <-]. split; [by apply table_only_refl|left; lia].
Qed.

Lemma intern_table_only peer now r' b : host_intern r peer now = Ret (r', b) ->
  table_only r r' /\ (b = -1 \/ (in_table r b /\ key_at r' b <> 0)).
Proof.
  unfold host_intern. destruct (daemon_limits_host_hash peer) as [key|] eqn:E.
  - destruct (host_intern_spec r Hs Ht peer key now E) as (r1&b1&E1&Hi). unfold host_intern in E1. rewrite E in E1. rewrite E1. intros [= <- <-].
    pose proof (hash_range _ _ E) as Hk. pose proof (interned_cells_intro r Hs Ht key now r1 b1 Hk Hi) as [C1 C2 C3 _ _ _].
    destruct (interned_frame r Hs key now r1 b1 Hi) as (F0&F1&F2&F3&F4&F5&F6&F7&F8&F9&_).
    split; [|destruct C2 as [->|[? ->]]; [by left|right; split; [done|lia]]]. by split.
  - intros [= <- <-]. split; [by apply table_only_refl|by left].
Qed.

Lemma cell_insert_id arr b : 0 <= b < zlen arr -> <[Z.to_nat b := cell arr b]> arr = arr.
Proof.
  intros Hb. apply list_insert_id. unfold cell. destruct (arr !! Z.to_nat b) eqn:E; [done|]. apply lookup_ge_None in E. unfold zlen in Hb. lia.
Qed.

Lemma locked_table_only peer now r' v : daemon_limits_auth_locked r peer now = Ret (r', v) -> table_only r r'.
Proof.
  unfold daemon_limits_auth_locked. destruct (lockout_on r); simpl (negb _); cbv iota; [|intros [= <- <-]; by apply table_only_refl].
  intros H. inv_ret H. destruct v0 as [r1 b]. destruct (lookup_table_only _ _ _ _ Hm) as [Hto Hb].
  destruct (Z.ltb_spec b 0) as [Hlt|Hge]; [by injection H as <- <-|]. destruct Hb as [?|(Hb&->&Hk)]; [lia|].
  inv_ret H. destruct (_ >? now); [by injection H as <- <-|]. destruct (negb _); [|by injection H as <- <-].
  destruct (table_lengths r Hs) as (_&_&Lf&Lu&_). unfold in_table in Hb.
  rewrite st_ret in H by (simpl; lia). cbn [mbind outcome_bind] in H. rewrite st_ret in H by (simpl; lia). injection H as <- <-.
  by apply (table_only_counters r (touch r b now) b).
Qed.

Lemma success_table_only peer now r' : daemon_limits_auth_record_success r peer now = Ret r' -> table_only r r'.
Proof.
  unfold daemon_limits_auth_record_success. intros H. inv_ret H. destruct v as [r1 b]. destruct (lookup_table_only _ _ _ _ Hm) as [Hto Hb].
  destruct (Z.ltb_spec b 0) as [Hlt|Hge]; [by injection H as <-|]. destruct Hb as [?|(Hb&->&Hk)]; [lia|].
  destruct (table_lengths r Hs) as (_&_&Lf&Lu&_). unfold in_table in Hb.
  rewrite st_ret in H by (simpl; lia). cbn [mbind outcome_bind] in H. rewrite st_ret in H by (simpl; lia). injection H as <-.
  by apply (table_only_counters r (touch r b now) b).
Qed.

Lemma failure_table_only peer now r' : daemon_limits_auth_record_failure r peer now = Ret r' -> table_only r r'.
Proof.
  unfold daemon_limits_auth_record_failure. destruct (lockout_on r); simpl (negb _); cbv iota; [|intros [= <-]; by apply table_only_refl].
  intros H. inv_ret H. destruct v as [r1 b]. destruct (intern_table_only _ _ _ _ Hm) as [Hto Hb].
  destruct (Z.ltb_spec b 0) as [Hlt|Hge]; [by injection H as <-|]. destruct Hb as [?|[Hb Hk]]; [lia|].
  destruct (table_lengths r1 (to_shape _ _ Hto)) as (_&_&Lf&Lu&_). unfold in_table in Hb.
  assert (Hh : host_slots r1 = host_slots r) by (by destruct (to_slots _ _ Hto) as (_&_&_&_&_&_&?&_)).
  unfold fetch_add in H. rewrite ld_cell in H by lia. cbn [mbind outcome_bind] in H.
  rewrite (st_ret (host_fail r1)) in H by lia. cbn [mbind outcome_bind] in H. inv_ret H. destruct (_ >=? _).
  - rewrite st_ret in H by (simpl; lia). injection H as <-. by apply (table_only_counters r r1 b).
  - injection H as <-. pose proof (table_only_counters r r1 b (i32 (cell (host_fail r1) b + 1)) (cell (host_until r1) b) Hto Hb Hk) as Hc.
    rewrite cell_insert_id in Hc by lia. by destruct r1.
Qed.
End TableOps.

(** ** Every busy slot has an owner *)

Definition claimed (p : parent) : list Z := match p with Idle => [] | Claimed s => [s] end.
Definition owners (d : daemon) : list Z := (c_slot <$> children d) ++ claimed (par d).

Record slots_ok (d : daemon) : Prop := {
  so_shape : shaped (reg d);
  so_table : table_ok (reg d);
  so_pids : NoDup (c_pid <$> children d);
  so_owners : NoDup (owners d);
  so_range : forall s, s ∈ owners d -> in_slots (reg d) s;
  so_child : forall c, c ∈ children d -> 0 < c_pid c < 2 ^ 31 /\ state_at (reg d) (c_slot c) <> SLOT_FREE /\ pid_at (reg d) (c_slot c) = c_pid c;
  so_claimed : forall s, par d = Claimed s -> state_at (reg d) s <> SLOT_FREE /\ pid_at (reg d) s = 0;
  so_busy : forall s, in_slots (reg d) s -> state_at (reg d) s <> SLOT_FREE -> s ∈ owners d;
  so_active : active d = zlen (children d);
}.

(** Steps that leave the slots alone. *)
Lemma slots_ok_table_only d r : slots_ok d -> table_only (reg d) r -> slots_ok (MkDaemon r (children d) (par d) (active d)).
Proof.
  intros [] [(Hst&Hp&Hmo&Hho&Hms&_) _ _ Hs Ht]. split; simpl; try done;
    unfold in_slots, state_at, pid_at in *; rewrite ?Hst, ?Hp, ?Hms; done.
Qed.

Lemma slots_ok_replace d i c c' : slots_ok d -> children d !! i = Some c -> c_pid c' = c_pid c -> c_slot c' = c_slot c ->
  slots_ok (MkDaemon (reg d) (<[i := c']> (children d)) (par d) (active d)).
Proof.
  intros [] Hi Hp Hsl.
  assert (Ep : c_pid <$> <[i := c']> (children d) = c_pid <$> children d).
  { rewrite list_fmap_insert, Hp. apply list_insert_id. by rewrite list_lookup_fmap, Hi. }
  assert (Es : c_slot <$> <[i := c']> (children d) = c_slot <$> children d).
  { rewrite list_fmap_insert, Hsl. apply list_insert_id. by rewrite list_lookup_fmap, Hi. }
  split; simpl; unfold owners in *; simpl; rewrite ?Ep, ?Es, ?zlen_insert; try done.
  intros x [j Hx]%list_elem_of_lookup. destruct (decide (j = i)) as [->|Hne].
  - rewrite list_lookup_insert_eq in Hx by (by eapply lookup_lt_Some). injection Hx as <-. rewrite Hp, Hsl. apply so_child0.
    by eapply list_elem_of_lookup_2.
  - rewrite list_lookup_insert_ne in Hx by done. apply so_child0. by eapply list_elem_of_lookup_2.
Qed.

(** The state of an owned slot may change among the busy ones. *)
Lemma slots_ok_state d s v : slots_ok d -> in_slots (reg d) s -> v <> SLOT_FREE -> s ∈ owners d ->
  slots_ok (MkDaemon (set_slot_state (reg d) (<[Z.to_nat s := v]> (slot_state (reg d)))) (children d) (par d) (active d)).
Proof.
  intros [] Hin Hv Ho. destruct (slot_lengths _ so_shape0) as (L1&L2&L3&L4). unfold in_slots in Hin.
  assert (Hst : forall x, in_slots (reg d) x ->
    state_at (set_slot_state (reg d) (<[Z.to_nat s := v]> (slot_state (reg d)))) x = if x =? s then v else state_at (reg d) x).
  { intros x Hx. unfold in_slots in Hx. unfold state_at. simpl. by rewrite cell_insert by lia. }
  assert (Hst' : forall x, in_slots (reg d) x -> state_at (reg d) x <> SLOT_FREE ->
    state_at (set_slot_state (reg d) (<[Z.to_nat s := v]> (slot_state (reg d)))) x <> SLOT_FREE).
  { intros x Hx Hb. rewrite Hst by done. by destruct (x =? s). }
  split; simpl; try done.
  - destruct so_shape0. split; simpl; rewrite ?zlen_insert; done.
  - eapply same_rest_table; [|done]. by repeat split.
  - intros c Hc. destruct (so_child0 c Hc) as (?&?&?). split_and!; try done; try lia. apply Hst'; [|done]. apply so_range0.
    apply elem_of_app. left. by apply list_elem_of_fmap_2.
  - intros x Hx. destruct (so_claimed0 x Hx). split; [|done]. apply Hst'; [|done]. apply so_range0. apply elem_of_app. right. rewrite Hx. by left.
  - intros x Hx Hb. rewrite Hst in Hb by done. destruct (Z.eqb_spec x s) as [->|]; [done|]. by apply so_busy0.
Qed.

(** Giving an owned slot back: one child fewer, or the claim dropped. *)
Lemma slots_ok_free d s ch p a :
  slots_ok d -> in_slots (reg d) s -> owners d ≡ₚ s :: owners (MkDaemon (reg d) ch p a) -> ch ⊆ children d ->
  (p = par d \/ p = Idle) -> NoDup (c_pid <$> ch) -> a = zlen ch ->
  exists r, daemon_limits_reclaim_slot (reg d) s = Ret r /\ slots_ok (MkDaemon r ch p a) /\
    r = set_slot_pid (set_slot_state (reg d) (<[Z.to_nat s := SLOT_FREE]> (slot_state (reg d)))) (<[Z.to_nat s := 0]> (slot_pid (reg d))).
Proof.
  intros [] Hin Ho Hch Hp Hnd Ha. destruct (slot_lengths _ so_shape0) as (L1&L2&L3&L4). rewrite (reclaim_slot_spec _ _ so_shape0 Hin).
  eexists. split; [done|]. split; [|done]. unfold in_slots in Hin.
  set (r := set_slot_pid _ _). assert (Hst : forall x, in_slots (reg d) x -> state_at r x = if x =? s then SLOT_FREE else state_at (reg d) x).
  { intros x Hx. unfold in_slots in Hx. unfold state_at. simpl. by rewrite cell_insert by lia. }
  assert (Hpd : forall x, in_slots (reg d) x -> pid_at r x = if x =? s then 0 else pid_at (reg d) x).
  { intros x Hx. unfold in_slots in Hx. unfold pid_at. simpl. by rewrite cell_insert by lia. }
  rewrite Ho in so_owners0. apply NoDup_cons in so_owners0 as [Hns Hno].
  assert (Hne : forall x, x ∈ owners (MkDaemon (reg d) ch p a) -> x <> s /\ in_slots (reg d) x).
  { intros x Hx. split; [by intros ->|]. apply so_range0. rewrite Ho. by right. }
  split; simpl; try done.
  - destruct so_shape0. split; simpl; rewrite ?zlen_insert; done.
  - eapply same_rest_table; [|done]. by repeat split.
  - intros x Hx. by apply Hne.
  - intros c Hc. destruct (so_child0 c (Hch c Hc)) as (?&?&?).
    destruct (Hne (c_slot c)) as [Hx1 Hx2]; [apply elem_of_app; left; by apply list_elem_of_fmap_2|].
    rewrite Hst, Hpd by done. destruct (Z.eqb_spec (c_slot c) s); [done|]. done.
  - intros x Hx. destruct Hp as [-> | ->]; [|done]. destruct (so_claimed0 x Hx).
    destruct (Hne x) as [Hx1 Hx2]; [apply elem_of_app; right; simpl; rewrite Hx; by left|].
    rewrite Hst, Hpd by done. by destruct (Z.eqb_spec x s).
  - intros x Hx Hb. rewrite Hst in Hb by done. destruct (Z.eqb_spec x s) as [->|Hxs]; [done|].
    apply so_busy0 in Hb; [|done]. rewrite Ho in Hb. apply elem_of_cons in Hb as [->|Hb]; done.
Qed.

Lemma filter_all {A} (P : A -> Prop) `{!forall x, Decision (P x)} (l : list A) : (forall x, x ∈ l -> P x) -> filter P l = l.
Proof.
  induction l as [|x l IH]; intros Hl; [done|]. rewrite filter_cons, decide_True by (apply Hl; by left). f_equal. apply IH. intros y Hy. apply Hl. by right.
Qed.

Lemma filter_pid_perm (l : list child) c : NoDup (c_pid <$> l) -> c ∈ l -> l ≡ₚ c :: filter (fun x => c_pid x ∉ [c_pid c]) l.
Proof.
  induction l as [|x l IH]; intros Hnd Hc; [by apply not_elem_of_nil in Hc|]. rewrite fmap_cons in Hnd. apply NoDup_cons in Hnd as [Hx Hnd].
  rewrite filter_cons. apply elem_of_cons in Hc as [->|Hc].
  - rewrite decide_False by (intros Hn; apply Hn; by left). f_equiv. rewrite filter_all; [done|].
    intros y Hy. rewrite list_elem_of_singleton. intros E. apply Hx. rewrite <- E. by apply list_elem_of_fmap_2.
  - rewrite decide_True; [|rewrite list_elem_of_singleton; intros E; apply Hx; rewrite E; by apply list_elem_of_fmap_2].
    rewrite (IH Hnd Hc) at 1. constructor.
Qed.

Lemma NoDup_fmap_inj {A B} (f : A -> B) (l : list A) x y : NoDup (f <$> l) -> x ∈ l -> y ∈ l -> f x = f y -> x = y.
Proof.
  induction l as [|a l IH]; intros Hnd Hx Hy E; [by apply not_elem_of_nil in Hx|]. rewrite fmap_cons in Hnd. apply NoDup_cons in Hnd as [Ha Hnd].
  apply elem_of_cons in Hx as [->|Hx], Hy as [->|Hy]; [done| | |by apply IH].
  - destruct Ha. rewrite E. by apply list_elem_of_fmap_2.
  - destruct Ha. rewrite <- E. by apply list_elem_of_fmap_2.
Qed.

(** Freeing the slot of one dead child. *)
Lemma reap_one d c : slots_ok d -> c ∈ children d ->
  exists r, daemon_limits_reclaim_pid (reg d) (c_pid c) = Ret r /\
    slots_ok (MkDaemon r (filter (fun x => c_pid x ∉ [c_pid c]) (children d)) (par d) (active d - 1)) /\
    r = set_slot_pid (set_slot_state (reg d) (<[Z.to_nat (c_slot c) := SLOT_FREE]> (slot_state (reg d)))) (<[Z.to_nat (c_slot c) := 0]> (slot_pid (reg d))).
Proof.
  intros Hd Hc. pose proof Hd as []. destruct (so_child0 c Hc) as (Hp&Hst&Hpid). pose proof (filter_pid_perm _ c so_pids0 Hc) as Hperm.
  assert (Hin : in_slots (reg d) (c_slot c)) by (apply so_range0, elem_of_app; left; by apply list_elem_of_fmap_2).
  unfold daemon_limits_reclaim_pid. destruct (Z.leb_spec (c_pid c) 0); [lia|].
  rewrite (reclaim_loop_spec (reg d) (c_pid c) (c_slot c)); try done; [|intros s' Hs' Hb Hps|f_equal; lia|unfold in_slots in Hin; lia].
  - apply slots_ok_free; try done.
    + unfold owners. simpl. change (c_slot c :: (c_slot <$> filter (fun x => c_pid x ∉ [c_pid c]) (children d)) ++ claimed (par d))
        with ((c_slot <$> c :: filter (fun x => c_pid x ∉ [c_pid c]) (children d)) ++ claimed (par d)). by rewrite <- Hperm.
    + intros x Hx. by apply list_elem_of_filter in Hx as [_ ?].
    + by left.
    + rewrite Hperm in so_pids0. rewrite fmap_cons in so_pids0. by apply NoDup_cons in so_pids0 as [_ ?].
    + rewrite so_active0. rewrite (Permutation_length Hperm) at 1 || (unfold zlen; rewrite (Permutation_length Hperm) at 1; simpl; lia).
  - apply so_busy0 in Hb; [|done]. apply elem_of_app in Hb as [Hb|Hb].
    + apply list_elem_of_fmap in Hb as (c'&->&Hc'). f_equal. destruct (so_child0 c' Hc') as (_&_&Hp').
      apply (NoDup_fmap_inj c_pid (children d)); try done. congruence.
    + unfold claimed in Hb. destruct (par d) as [|s] eqn:E; [by apply not_elem_of_nil in Hb|]. apply list_elem_of_singleton in Hb as ->.
      destruct (so_claimed0 s eq_refl). lia.
Qed.

(** What the handler leaves: the slots of the reaped children are free, the
    others are as they were, and the counters are exact. *)
Lemma reap_all d pids : slots_ok d -> NoDup pids -> pids ⊆ (c_pid <$> children d) ->
  exists r, foldM (fun pid s => let '(r, a) := s in r ← daemon_limits_reclaim_pid r pid; Ret (r, if a >? 0 then a - 1 else a)) pids (reg d, active d)
      = Ret (r, active d - zlen pids) /\
    slots_ok (MkDaemon r (filter (fun c => c_pid c ∉ pids) (children d)) (par d) (active d - zlen pids)) /\
    slot_module r = slot_module (reg d) /\ slot_host r = slot_host (reg d) /\ same_rest (reg d) r /\
    (forall s, in_slots (reg d) s -> state_at r s = state_at (reg d) s \/ state_at r s = SLOT_FREE) /\
    (forall c, c ∈ children d -> c_pid c ∉ pids -> state_at r (c_slot c) = state_at (reg d) (c_slot c)).
Proof.
  revert d. induction pids as [|pid pids IH]; intros d Hd Hnd Hsub.
  - exists (reg d). simpl. change (zlen (@nil Z)) with 0. rewrite Z.sub_0_r, filter_all by (intros; apply not_elem_of_nil).
    split_and!; try done; [by destruct d|by left].
  - apply NoDup_cons in Hnd as [Hni Hnd]. assert (Hpin : pid ∈ c_pid <$> children d) by (apply Hsub; by left).
    apply list_elem_of_fmap in Hpin as (c&->&Hc). destruct (reap_one d c Hd Hc) as (r1&E1&Hd1&Er1).
    set (d1 := MkDaemon _ _ _ _) in Hd1. destruct (IH d1 Hd1 Hnd) as (r&E&Hok&Hm&Hh&Hsr&Hst&Hkeep).
    { intros x Hx. assert (Hx' : x ∈ c_pid <$> children d) by (apply Hsub; by right). apply list_elem_of_fmap in Hx' as (c'&->&Hc').
      apply list_elem_of_fmap_2. simpl. apply list_elem_of_filter. split; [|done]. rewrite list_elem_of_singleton. intros E. apply Hni. by rewrite <- E. }
    assert (Ha : active d > 0).
    { rewrite (so_active _ Hd). apply list_elem_of_lookup in Hc as [i Hi]. apply lookup_lt_Some in Hi. unfold zlen. lia. }
    exists r. cbn [foldM]. rewrite E1. cbn [mbind outcome_bind]. destruct (Z.gtb_spec (active d) 0); [|lia]. simpl in E. rewrite E.
    replace (active d - 1 - zlen pids) with (active d - zlen (c_pid c :: pids)) in * by (rewrite zlen_cons; lia). split; [done|].
    destruct (slot_lengths _ (so_shape _ Hd)) as (L1&L2&_).
    assert (Hin : in_slots (reg d) (c_slot c)) by (apply (so_range _ Hd), elem_of_app; left; by apply list_elem_of_fmap_2).
    assert (Hs1 : forall s, in_slots (reg d) s -> state_at r1 s = if s =? c_slot c then SLOT_FREE else state_at (reg d) s).
    { intros s Hs. subst r1. unfold in_slots in *. unfold state_at. simpl. by rewrite cell_insert by lia. }
    assert (Hms : max_slots r1 = max_slots (reg d)) by (by subst r1).
    split_and!.
    + replace (filter (fun c0 => c_pid c0 ∉ c_pid c :: pids) (children d)) with (filter (fun c0 => c_pid c0 ∉ pids) (children d1)).
      { replace (active d - zlen (c_pid c :: pids)) with (active d1 - zlen pids) by (simpl; rewrite zlen_cons; lia). exact Hok. }
      simpl. rewrite list_filter_filter. apply list_filter_iff. intros x. set_solver.
    + rewrite Hm. simpl. by subst r1.
    + rewrite Hh. simpl. by subst r1.
    + destruct Hsr as (?&?&?&?&?&?&?&?&?&?). subst r1. by repeat split.
    + intros s Hs. destruct (Hst s) as [Hx|Hx]; [unfold in_slots in *; simpl; by rewrite Hms| |by right]. simpl in Hx. rewrite Hx, Hs1 by done.
      destruct (_ =? _); auto.
    + intros c' Hc' Hn. apply not_elem_of_cons in Hn as [Hn1 Hn2]. rewrite Hkeep; [|simpl; apply list_elem_of_filter; split; [by rewrite list_elem_of_singleton|done]|done].
      simpl. rewrite Hs1 by (apply (so_range _ Hd), elem_of_app; left; by apply list_elem_of_fmap_2).
      destruct (Z.eqb_spec (c_slot c') (c_slot c)) as [Es|]; [|done]. destruct Hn1.
      destruct (so_child _ Hd c Hc) as (_&_&<-), (so_child _ Hd c' Hc') as (_&_&<-). by rewrite Es.
Qed.

(** Steps that keep the states and pids of the slots. *)
Lemma slots_ok_same d r : slots_ok d -> slot_state r = slot_state (reg d) -> slot_pid r = slot_pid (reg d) -> max_slots r = max_slots (reg d) ->
  shaped r -> table_ok r -> slots_ok (MkDaemon r (children d) (par d) (active d)).
Proof. intros [] E1 E2 E3 Hs Ht. split; simpl; try done; unfold in_slots, state_at, pid_at in *; rewrite ?E1, ?E2, ?E3; done. Qed.

Lemma fetch_add_inv arr i v arr' b : fetch_add arr i v = Ret (arr', b) ->
  0 <= i < zlen arr /\ b = cell arr i /\ arr' = <[Z.to_nat i := i32 (cell arr i + v)]> arr.
Proof.
  unfold fetch_add. intros H. inv_ret H. apply ld_ret_inv in Hm as Hl. destruct Hl as [Hr Hl].
  assert (v0 = cell arr i) as -> by (unfold cell; by rewrite Hl). inv_ret H. rewrite st_ret in Hm0 by done. injection Hm0 as <-.
  by injection H as <- <-.
Qed.
Lemma st_inv {A} (arr : list A) i (v : A) arr' : st arr i v = Ret arr' -> 0 <= i < zlen arr /\ arr' = <[Z.to_nat i := v]> arr.
Proof. unfold st. destruct (_ && _) eqn:E; [|done]. intros [= <-]. bool_to_prop. done. Qed.

(** The effects of one operation of a child. *)
Inductive child_effect (r : registry) (c : child) : registry -> child -> Prop :=
| EDone res : (c_pc c = PCheck \/ exists res, c_pc c = PDone res) -> child_effect r c r (at_pc c (PDone res))
| EIntern r' host : table_only r r' -> c_pc c = PCheck -> in_slots r (c_slot c) -> state_at r (c_slot c) = SLOT_CLAIMED ->
    0 <= c_module c < module_count r -> (host = -1 \/ in_table r host) ->
    child_effect r c r' (MkChild (c_pid c) (c_slot c) (c_alive c) (c_module c) (c_cap c) host PAddModule)
| EModule v p : 0 <= c_module c < module_count r ->
    (c_pc c = PAddModule /\ v = 1 /\ - 2 ^ 31 <= cell (module_active r) (c_module c) + 1 < 2 ^ 31 /\
      p = (if (c_cap c >? 0) && (cell (module_active r) (c_module c) + 1 >? c_cap c) then PUndoModule else if c_host c >=? 0 then PAddHost else PStoreModule)
     \/ c_pc c = PUndoModule /\ v = -1 /\ p = PDone DAEMON_LIMIT_MODULE_FULL \/ c_pc c = PUndoBoth /\ v = -1 /\ p = PDone DAEMON_LIMIT_HOST_FULL) ->
    child_effect r c (set_module_active r (<[Z.to_nat (c_module c) := i32 (cell (module_active r) (c_module c) + v)]> (module_active r))) (at_pc c p)
| EHost v p : in_table r (c_host c) ->
    (c_pc c = PAddHost /\ v = 1 /\ - 2 ^ 31 <= cell (host_active r) (c_host c) + 1 < 2 ^ 31 /\
      p = (if (per_host_cap r >? 0) && (cell (host_active r) (c_host c) + 1 >? per_host_cap r) then PUndoHost else PStoreModule)
     \/ c_pc c = PUndoHost /\ v = -1 /\ p = PUndoBoth) ->
    child_effect r c (set_host_active r (<[Z.to_nat (c_host c) := i32 (cell (host_active r) (c_host c) + v)]> (host_active r))) (at_pc c p)
| EStoreModule : c_pc c = PStoreModule -> in_slots r (c_slot c) ->
    child_effect r c (set_slot_module r (<[Z.to_nat (c_slot c) := c_module c]> (slot_module r))) (at_pc c PStoreHost)
| EStoreHost : c_pc c = PStoreHost -> in_slots r (c_slot c) ->
    child_effect r c (set_slot_host r (<[Z.to_nat (c_slot c) := c_host c]> (slot_host r))) (at_pc c PPublish)
| EPublish : c_pc c = PPublish -> in_slots r (c_slot c) ->
    child_effect r c (set_slot_state r (<[Z.to_nat (c_slot c) := SLOT_REGISTERED]> (slot_state r))) (at_pc c (PDone DAEMON_LIMIT_OK)).

Lemma child_step_effect {I : Inet} r c now peer r' c' :
  shaped r -> table_ok r -> child_step r c now peer = Ret (r', c') -> child_effect r c r' c'.
Proof.
  intros Hs Ht. destruct (slot_lengths r Hs) as (L1&_&L3&L4). pose proof Hs as [_ _ _ _ Lm (_&La&_)]. unfold child_step. destruct (c_pc c) eqn:Ep.
  - destruct (slot_valid r (c_slot c)) eqn:Ev; simpl (negb _); cbv iota; [|intros [= <- <-]; apply EDone; by left].
    apply slot_valid_spec in Ev. destruct (_ || _) eqn:Em; [intros [= <- <-]; apply EDone; by left|]. rewrite Z.geb_leb in Em. bool_to_prop.
    rewrite ld_cell by (unfold in_slots in Ev; lia). cbn [mbind outcome_bind]. fold (state_at r (c_slot c)).
    destruct (Z.eqb_spec (state_at r (c_slot c)) SLOT_CLAIMED) as [Ec|Ec]; simpl (negb _); cbv iota; [|intros [= <- <-]; apply EDone; by left].
    intros H1. inv_ret H1. destruct v as [r1 host]. injection H1 as <- <-. destruct (registry_tracks_hosts r).
    + destruct (intern_table_only r Hs Ht _ _ _ _ Hm) as [Hto Hb]. apply EIntern; try done. destruct Hb as [->|[Hb _]]; auto.
    + injection Hm as <- <-. apply EIntern; try done; lia || by apply table_only_refl || by left.
  - intros H. inv_ret H. destruct v as [ma b]. apply fetch_add_inv in Hm as (Hr&->&->). inv_ret H. unfold int_ok in Hm. destruct (_ && _) eqn:Er; [|done].
    injection Hm as <-. injection H as <- <-. bool_to_prop. apply EModule; [lia|]. left. done.
  - intros H. inv_ret H. destruct v as [ma b]. apply fetch_add_inv in Hm as (Hr&->&->). injection H as <- <-. apply EModule; [lia|]. auto.
  - intros H. inv_ret H. destruct v as [ma b]. apply fetch_add_inv in Hm as (Hr&->&->). inv_ret H. unfold int_ok in Hm. destruct (_ && _) eqn:Er; [|done].
    injection Hm as <-. injection H as <- <-. bool_to_prop. apply EHost; [unfold in_table; lia|]. left. done.
  - intros H. inv_ret H. destruct v as [ma b]. apply fetch_add_inv in Hm as (Hr&->&->). injection H as <- <-. apply EHost; [unfold in_table; lia|]. auto.
  - intros H. inv_ret H. destruct v as [ma b]. apply fetch_add_inv in Hm as (Hr&->&->). injection H as <- <-. apply EModule; [lia|]. auto.
  - intros H. inv_ret H. apply st_inv in Hm as [Hr ->]. injection H as <- <-. apply EStoreModule; [done|unfold in_slots; lia].
  - intros H. inv_ret H. apply st_inv in Hm as [Hr ->]. injection H as <- <-. apply EStoreHost; [done|unfold in_slots; lia].
  - intros H. inv_ret H. apply st_inv in Hm as [Hr ->]. injection H as <- <-. apply EPublish; [done|unfold in_slots; lia].
  - intros [= <- <-]. replace c with (at_pc c (PDone result)) at 2 by (unfold at_pc; rewrite <- Ep; by destruct c). apply EDone. right. by eexists.
Qed.

Lemma effect_shape r c r' c' : shaped r -> table_ok r -> child_effect r c r' c' ->
  shaped r' /\ table_ok r' /\ c_pid c' = c_pid c /\ c_slot c' = c_slot c /\ c_module c' = c_module c /\ c_cap c' = c_cap c /\ c_alive c' = c_alive c /\
  max_slots r' = max_slots r /\ module_count r' = module_count r /\ host_slots r' = host_slots r /\ per_host_cap r' = per_host_cap r.
Proof.
  intros Hs Ht He. destruct He as [| ? ? [(?&?&?&?&?&?&?&?) _ _ ? ?] | | | | |]; try (by split_and!);
    (split; [destruct Hs as [? ? ? (?&?&?&?) ? (?&?&?&?&?)]; split; simpl; rewrite ?zlen_insert; done|]);
    (split; [destruct Ht; by split|]); done.
Qed.

Lemma effect_slots_ok d i c r c' : slots_ok d -> children d !! i = Some c -> child_effect (reg d) c r c' ->
  slots_ok (MkDaemon r (<[i := c']> (children d)) (par d) (active d)).
Proof.
  intros Hd Hi He. destruct (effect_shape _ _ _ _ (so_shape _ Hd) (so_table _ Hd) He) as (Hs&Ht&Hp&Hsl&_&_&_&Hms&_).
  assert (Hc : c ∈ children d) by (by eapply list_elem_of_lookup_2).
  apply (slots_ok_replace (MkDaemon r (children d) (par d) (active d)) i c c'); try done.
  destruct He; try (by apply slots_ok_same); [by apply slots_ok_table_only|].
  apply slots_ok_state; try done. apply elem_of_app. left. by apply list_elem_of_fmap_2.
Qed.

Section SlotTheorem.
Context {I : Inet} (module_cap : Z -> Z) (max_connections : Z).

Lemma step_slots_ok quiet d d' : step module_cap max_connections quiet d d' -> slots_ok d ->
  slots_ok d' /\ max_slots (reg d') = max_slots (reg d) /\ module_count (reg d') = module_count (reg d).
Proof.
  intros Hstep Hd. pose proof (so_shape _ Hd) as Hs. destruct (slot_lengths _ Hs) as (L1&L2&L3&L4).
  destruct Hstep as [d r slot Hp Ha E Hn|d slot pid module r Hp Hpid Hfresh E|d slot r Hp E|d i c r c' now peer Hi Hal E|d i c Hi|d r v now peer E|d r now peer E|d r now peer E|d pids r a Hnd Hsub Hdead Hq E]; simpl.
  - unfold daemon_limits_claim_slot in E. destruct (claim_loop_spec (reg d) (Z.to_nat (max_slots (reg d))) 0 Hs) as [(s&E'&Hin&Hfree)|[E' _]];
      [f_equal; lia|lia| |rewrite E' in E; by injection E as _ <-].
    rewrite E' in E. injection E as <- <-. split; [|done]. unfold in_slots in Hin.
    assert (Hnot : s ∉ c_slot <$> children d).
    { intros Hx. apply list_elem_of_fmap in Hx as (c&->&Hc). by destruct (so_child _ Hd c Hc) as (_&?&_). }
    assert (Hst : forall x, in_slots (reg d) x -> cell (<[Z.to_nat s := SLOT_CLAIMED]> (slot_state (reg d))) x = if x =? s then SLOT_CLAIMED else state_at (reg d) x)
      by (intros x Hx; unfold in_slots in Hx; by rewrite cell_insert by lia).
    destruct Hd. unfold owners in *. rewrite Hp in *. simpl in *. rewrite app_nil_r in *. split; unfold owners; simpl; try done.
    + destruct so_shape0. split; simpl; rewrite ?zlen_insert; done.
    + eapply same_rest_table; [|done]. by repeat split.
    + apply NoDup_app. split_and!; [done|intros x Hx ->%list_elem_of_singleton; done|apply NoDup_singleton].
    + intros x [Hx| ->%list_elem_of_singleton]%elem_of_app; [by apply so_range0|done].
    + intros c Hc. destruct (so_child0 c Hc) as (?&?&?). assert (Hcs : c_slot c ∈ c_slot <$> children d) by (by apply list_elem_of_fmap_2).
      unfold state_at, pid_at in *. simpl. assert (c_slot c <> s) by (intros E0; apply Hnot; by rewrite <- E0).
      pose proof (so_range0 _ Hcs) as Hr. unfold in_slots in Hr. rewrite !cell_insert by lia. destruct (Z.eqb_spec (c_slot c) s); done.
    + intros x [= <-]. unfold state_at, pid_at. simpl. rewrite !cell_insert, !Z.eqb_refl by lia. done.
    + intros x Hx Hb. unfold state_at in Hb. simpl in Hb. rewrite Hst in Hb by done. apply elem_of_app.
      destruct (Z.eqb_spec x s) as [->|]; [right; by left|left; by apply so_busy0].
  - assert (Hin : in_slots (reg d) slot) by (apply (so_range _ Hd), elem_of_app; right; rewrite Hp; by left).
    unfold daemon_limits_set_slot_pid in E. rewrite (proj2 (slot_valid_spec _ _) Hin) in E. unfold in_slots in Hin. rewrite st_ret in E by lia.
    rewrite i32_small in E by lia. injection E as <-. split; [|done]. destruct (so_claimed _ Hd slot Hp) as [Hcs _].
    destruct Hd. unfold owners in *. rewrite Hp in *. simpl in *.
    assert (Hnd : NoDup (c_slot <$> children d) /\ slot ∉ c_slot <$> children d).
    { apply NoDup_app in so_owners0 as (?&Hx&_). split; [done|]. intros Hx'. apply (Hx slot Hx'). by left. }
    split; unfold owners; simpl; rewrite ?fmap_app, ?app_nil_r; try done.
    + destruct so_shape0. split; simpl; rewrite ?zlen_insert; done.
    + eapply same_rest_table; [|done]. by repeat split.
    + apply NoDup_app. split_and!; [done|intros x Hx ->%list_elem_of_singleton; done|apply NoDup_singleton].
    + intros c [Hc| ->%list_elem_of_singleton]%elem_of_app; simpl.
      * destruct (so_child0 c Hc) as (?&?&?). split_and!; try done; try lia. assert (Hcs' : c_slot c ∈ c_slot <$> children d) by (by apply list_elem_of_fmap_2).
        assert (c_slot c <> slot) by (intros E0; apply (proj2 Hnd); by rewrite <- E0).
        assert (Hr : in_slots (reg d) (c_slot c)) by (apply so_range0, elem_of_app; by left). unfold in_slots in Hr.
        unfold pid_at in *. simpl. rewrite cell_insert by lia. by destruct (Z.eqb_spec (c_slot c) slot).
      * split_and!; try done; try lia. unfold pid_at. simpl. rewrite cell_insert by lia. by rewrite Z.eqb_refl.
    + rewrite so_active0, zlen_app. done.
  - assert (Hin : in_slots (reg d) slot) by (apply (so_range _ Hd), elem_of_app; right; rewrite Hp; by left).
    destruct (slots_ok_free d slot (children d) Idle (active d) Hd Hin) as (r'&E'&Hok&->).
    + unfold owners. rewrite Hp. simpl. rewrite app_nil_r. rewrite (Permutation_app_comm _ [slot]). done.
    + done.
    + by right.
    + apply (so_pids _ Hd).
    + apply (so_active _ Hd).
    + rewrite E' in E. injection E as <-. done.
  - pose proof (child_step_effect _ _ _ _ _ _ Hs (so_table _ Hd) E) as He. destruct (effect_shape _ _ _ _ Hs (so_table _ Hd) He) as (_&_&_&_&_&_&_&?&?&_).
    split; [|done]. by eapply effect_slots_ok.
  - split; [|done]. by eapply slots_ok_replace.
  - apply locked_table_only in E as Hto; [|done|apply Hd]. destruct (to_slots _ _ Hto) as (_&_&_&_&?&?&_). split; [by apply slots_ok_table_only|done].
  - apply failure_table_only in E as Hto; [|done|apply Hd]. destruct (to_slots _ _ Hto) as (_&_&_&_&?&?&_). split; [by apply slots_ok_table_only|done].
  - apply success_table_only in E as Hto; [|done|apply Hd]. destruct (to_slots _ _ Hto) as (_&_&_&_&?&?&_). split; [by apply slots_ok_table_only|done].
  - destruct (reap_all d pids Hd Hnd Hsub) as (r1&E1&Hok&_&_&(Hms&Hmc&_)&_&_). unfold sigchld_handler in E. rewrite E1 in E. cbn [mbind outcome_bind] in E.
    destruct (recompute_spec r1 (so_shape _ Hok)) as (r2&ma&ha&E2&->&Hs2&_&_). rewrite E2 in E. cbn [mbind outcome_bind] in E. injection E as <- <-.
    split; [|done]. apply (slots_ok_same _ _ Hok); try done. destruct (so_table _ Hok). by split.
Qed.

Lemma reachable_slots_ok quiet d : reachable module_cap max_connections quiet d ->
  slots_ok d /\ max_slots (reg d) = clamp DAEMON_LIMITS_MIN_SLOTS DAEMON_LIMITS_MAX_SLOTS max_connections.
Proof.
  intros (d0&(Hc&Hp&Ha&mm&mo&cap&th&du&E)&Hrtc).
  pose proof (create_spec mm max_connections mo cap th du) as Hcs. rewrite E in Hcs. destruct Hcs as (Hs&Ht&Hms&_&_&Hst).
  assert (H0 : slots_ok d0 /\ max_slots (reg d0) = clamp DAEMON_LIMITS_MIN_SLOTS DAEMON_LIMITS_MAX_SLOTS max_connections).
  { split; [|done]. destruct d0 as [r ch p a]. simpl in *. subst. split; unfold owners; simpl; try done; [apply NoDup_nil_2..|intros x Hx; by apply not_elem_of_nil in Hx|intros x Hx; by apply not_elem_of_nil in Hx|].
    - intros s Hin Hb. unfold state_at in Hb. rewrite Hst in Hb. unfold SLOT_FREE in Hb. by rewrite cell_zeros in Hb. }
  clear Hc Hp Ha E Hs Ht Hms Hst. induction Hrtc as [|d1 d2 d3 Hstep _ IH]; [done|]. apply IH. destruct H0 as [Hok Hm].
  destruct (step_slots_ok quiet d1 d2 Hstep Hok) as (?&?&_). split; [done|congruence].
Qed.

(** C33: connection slots are never lost.  Under every interleaving of the accept
    loop, registering children, kills at any point and runs of the SIGCHLD
    handler, every busy slot of the registry belongs to exactly one child that
    has not been reaped (or to the connection being forked) and records its
    pid.  So below the connection limit the accept loop always finds a slot,
    and when all children are reaped every slot is free again. *)
Theorem slots_never_leak quiet d
    (Hreach : reachable module_cap max_connections quiet d) (Hmax : max_connections <= DAEMON_LIMITS_MAX_SLOTS) :
  slots_ok d /\
  (par d = Idle -> active d < max_connections -> exists r s, daemon_limits_claim_slot (reg d) = Ret (r, s) /\ in_slots (reg d) s) /\
  (par d = Idle -> children d = [] -> forall s, in_slots (reg d) s -> state_at (reg d) s = SLOT_FREE).
Proof.
  destruct (reachable_slots_ok quiet d Hreach) as [Hok Hms]. split; [done|]. split.
  - intros Hp Ha. unfold daemon_limits_claim_slot.
    destruct (claim_loop_spec (reg d) (Z.to_nat (max_slots (reg d))) 0 (so_shape _ Hok)) as [(s&E&Hin&_)|[_ Hfull]]; [f_equal; lia|lia|by eexists _, s|].
    exfalso. assert (Hsub : seqZ 0 (max_slots (reg d)) ⊆+ owners d).
    { apply NoDup_submseteq; [apply NoDup_seqZ|]. intros x Hx%elem_of_seqZ. apply (so_busy _ Hok); [unfold in_slots; lia|apply Hfull; lia]. }
    apply submseteq_length in Hsub. rewrite length_seqZ in Hsub. unfold owners in Hsub. rewrite Hp in Hsub. simpl in Hsub.
    rewrite app_nil_r, length_fmap in Hsub. pose proof (so_active _ Hok) as Hact. unfold zlen in Hact.
    assert (max_connections <= max_slots (reg d)).
    { rewrite Hms. unfold clamp. destruct (Z.ltb_spec max_connections DAEMON_LIMITS_MIN_SLOTS); [lia|]. destruct (Z.gtb_spec max_connections DAEMON_LIMITS_MAX_SLOTS); lia. }
    lia.
  - intros Hp Hc s Hin. destruct (decide (state_at (reg d) s = SLOT_FREE)) as [|Hb]; [done|]. apply (so_busy _ Hok) in Hb; [|done].
    unfold owners in Hb. rewrite Hp, Hc in Hb. by apply not_elem_of_nil in Hb.
Qed.
End SlotTheorem.

(** ** The caps *)

(** The two counters: connections per module and per source. *)
Inductive kind := KModule | KHost.
Definition counters (k : kind) (r : registry) : list Z := match k with KModule => module_active r | KHost => host_active r end.
Definition slot_entries (k : kind) (r : registry) : list Z := match k with KModule => slot_module r | KHost => slot_host r end.
Definition entries_count (k : kind) (r : registry) : Z := match k with KModule => module_count r | KHost => host_slots r end.
Definition entry_of (k : kind) (c : child) : Z := match k with KModule => c_module c | KHost => c_host c end.
Definition cap_of (module_cap : Z -> Z) (k : kind) (r : registry) (i : Z) : Z :=
  match k with KModule => module_cap i | KHost => per_host_cap r end.

(** Whether a child at [p] has counted itself, and passed the check. *)
Definition has_counted (k : kind) (p : pc) : bool :=
  match k, p with
  | KModule, (PUndoModule | PAddHost | PUndoHost | PUndoBoth | PStoreModule | PStoreHost | PPublish) => true
  | KHost, (PUndoHost | PStoreModule | PStoreHost | PPublish) => true
  | _, _ => false
  end.
Definition has_passed (k : kind) (p : pc) : bool :=
  match k, p with
  | KModule, (PAddHost | PStoreModule | PStoreHost | PPublish) => true
  | KHost, (PStoreModule | PStoreHost | PPublish) => true
  | _, _ => false
  end.
Definition counted (k : kind) (i : Z) (c : child) : Z := Z.b2z (c_alive c && has_counted k (c_pc c) && (entry_of k c =? i)).
Definition passed (k : kind) (i : Z) (c : child) : Z := Z.b2z (c_alive c && has_passed k (c_pc c) && (entry_of k c =? i)).
Definition leaked (k : kind) (i : Z) (c : child) : Z := Z.b2z (negb (c_alive c) && has_counted k (c_pc c) && (entry_of k c =? i)).

Fixpoint total (f : child -> Z) (l : list child) : Z := match l with [] => 0 | c :: l => f c + total f l end.

Lemma total_app f l k : total f (l ++ k) = total f l + total f k.
Proof. induction l; simpl; lia. Qed.
Lemma children_total_insert f l i c c' : l !! i = Some c -> total f (<[i := c']> l) = total f l - f c + f c'.
Proof.
  revert i. induction l as [|x l IH]; intros [|i] Hi; simpl in *; try done; [injection Hi as ->; lia|]. rewrite (IH i Hi). lia.
Qed.
Lemma total_bounds f l : (forall c, 0 <= f c <= 1) -> 0 <= total f l <= zlen l.
Proof. intros Hf. induction l as [|c l IH]; simpl; [done|]. rewrite zlen_cons. specialize (Hf c). lia. Qed.
Lemma total_zero f l : (forall c, c ∈ l -> f c = 0) -> total f l = 0.
Proof. induction l as [|c l IH]; intros Hl; simpl; [done|]. rewrite Hl by (by left). apply IH. intros x Hx. apply Hl. by right. Qed.

Definition registered (k : kind) (r : registry) (i : Z) : Z := tally r (slot_entries k r) i.

(** The places in the code a child has behind it, as far as its slot shows. *)
Definition past_check (p : pc) : bool := match p with PCheck | PDone _ => false | _ => true end.
Record caps_ok (module_cap : Z -> Z) (d : daemon) : Prop := {
  cp_slot : forall c, c ∈ children d -> past_check (c_pc c) = true ->
    state_at (reg d) (c_slot c) = SLOT_CLAIMED /\ 0 <= c_module c < module_count (reg d) /\
    ((c_pc c = PStoreHost \/ c_pc c = PPublish) -> cell (slot_module (reg d)) (c_slot c) = c_module c) /\
    (c_pc c = PPublish -> cell (slot_host (reg d)) (c_slot c) = c_host c);
  cp_host : forall c, c ∈ children d -> past_check (c_pc c) = true -> c_host c = -1 \/ in_table (reg d) (c_host c);
  cp_cap : forall c, c ∈ children d -> c_cap c = module_cap (c_module c);
  cp_claimed : forall s, par d = Claimed s -> state_at (reg d) s = SLOT_CLAIMED;
  cp_count : forall k i, 0 <= i < entries_count k (reg d) ->
    registered k (reg d) i + total (counted k i) (children d) <= cell (counters k (reg d)) i
      <= registered k (reg d) i + total (counted k i) (children d) + total (leaked k i) (children d);
  cp_limit : forall k i, 0 <= i < entries_count k (reg d) -> cap_of module_cap k (reg d) i > 0 ->
    registered k (reg d) i + total (passed k i) (children d) <= cap_of module_cap k (reg d) i;
}.

(** How the tally follows the slots. *)
Lemma tally_to_ext r r' arr arr' k i : (forall s, 0 <= s < k ->
    (state_at r' s = SLOT_REGISTERED /\ cell arr' s = i) <-> (state_at r s = SLOT_REGISTERED /\ cell arr s = i)) ->
  tally_to r' arr' k i = tally_to r arr k i.
Proof.
  intros H. unfold tally_to. f_equal.
  assert (Hg : forall l : list Z, (forall s, s ∈ l -> 0 <= s < k) ->
    filter (fun s => state_at r' s = SLOT_REGISTERED /\ cell arr' s = i) l = filter (fun s => state_at r s = SLOT_REGISTERED /\ cell arr s = i) l).
  { induction l as [|s l IH]; intros Hl; [done|]. rewrite !filter_cons. specialize (H s (Hl s ltac:(by left))).
    rewrite IH by (intros x Hx; apply Hl; by right). repeat case_decide; tauto || done. }
  apply Hg. intros s Hs%elem_of_seqZ. lia.
Qed.

Lemma tally_ext r r' arr arr' i : max_slots r' = max_slots r -> (forall s, in_slots r s ->
    (state_at r' s = SLOT_REGISTERED /\ cell arr' s = i) <-> (state_at r s = SLOT_REGISTERED /\ cell arr s = i)) -> tally r' arr' i = tally r arr i.
Proof. intros Hm H. unfold tally. rewrite Hm. by apply tally_to_ext. Qed.

Lemma tally_to_mono r r' arr k i : 0 <= k -> (forall s, 0 <= s < k -> state_at r' s = SLOT_REGISTERED -> state_at r s = SLOT_REGISTERED) ->
  tally_to r' arr k i <= tally_to r arr k i.
Proof.
  intros Hk. revert k Hk. apply (natlike_ind (fun k => _ -> _)); [done|]. intros k Hk IH H. unfold Z.succ. rewrite !tally_to_succ by done.
  specialize (IH ltac:(intros s Hs; apply H; lia)). specialize (H k ltac:(lia)).
  destruct (Z.eqb_spec (state_at r' k) SLOT_REGISTERED) as [E|E]; simpl; [rewrite (H E)|]; simpl; repeat case_match; lia.
Qed.

Lemma tally_to_none r arr k i : 0 <= k -> (forall s, 0 <= s < k -> state_at r s <> SLOT_REGISTERED) -> tally_to r arr k i = 0.
Proof.
  intros Hk. revert k Hk. apply (natlike_ind (fun k => _ -> _)); [done|]. intros k Hk IH H. unfold Z.succ. rewrite tally_to_succ by done.
  rewrite IH by (intros s Hs; apply H; lia). destruct (Z.eqb_spec (state_at r k) SLOT_REGISTERED) as [E|E]; [|done]. destruct (H k); [lia|done].
Qed.

(** Publishing a slot adds it to the tally of its entry. *)
Lemma tally_to_publish r r' arr k s i : 0 <= k -> 0 <= s -> state_at r s <> SLOT_REGISTERED -> state_at r' s = SLOT_REGISTERED ->
  (forall x, x <> s -> 0 <= x < k -> state_at r' x = state_at r x) ->
  tally_to r' arr k i = tally_to r arr k i + (if (s <? k) && (cell arr s =? i) then 1 else 0).
Proof.
  intros Hk Hs Hn Hr. revert k Hk. apply (natlike_ind (fun k => _ -> _)).
  - intros _. destruct (Z.ltb_spec s 0); [lia|]. done.
  - intros k Hk IH H. unfold Z.succ. rewrite !tally_to_succ by done. rewrite IH by (intros x Hx Hxk; apply H; [done|lia]).
    destruct (Z.ltb_spec s k), (Z.ltb_spec s (k + 1)); simpl; try lia.
    + rewrite (H k) by lia. lia.
    + assert (s = k) as -> by lia. rewrite Hr, Z.eqb_refl. simpl. destruct (Z.eqb_spec (state_at r k) SLOT_REGISTERED); [done|]. simpl. lia.
    + rewrite (H k) by lia. lia.
Qed.

Lemma total_le f g l : (forall c, f c <= g c) -> total f l <= total g l.
Proof. intros H. induction l as [|c l IH]; simpl; [done|]. specialize (H c). lia. Qed.
Lemma passed_le_counted k i c : passed k i c <= counted k i c.
Proof. unfold passed, counted. destruct (c_alive c), k, (c_pc c); simpl; try lia; destruct (_ =? i); simpl; lia. Qed.
Lemma b2z_bounds b : 0 <= Z.b2z b <= 1.
Proof. destruct b; simpl; lia. Qed.

(** Other slots are not touched by a child. *)
Lemma effect_other r c r' c' s : shaped r -> child_effect r c r' c' -> in_slots r s -> s <> c_slot c ->
  state_at r' s = state_at r s /\ cell (slot_module r') s = cell (slot_module r) s /\ cell (slot_host r') s = cell (slot_host r) s.
Proof.
  intros Hs He Hin Hne. destruct (slot_lengths r Hs) as (L1&_&L3&L4). unfold in_slots in *.
  destruct He as [| ? ? [(E1&_&E3&E4&_) _ _ _ _] | | | ? Hc | ? Hc | ? Hc]; try done; unfold state_at;
    [by rewrite E1, E3, E4|unfold in_slots in Hc; simpl; rewrite ?cell_insert by lia; destruct (Z.eqb_spec s (c_slot c)); done..].
Qed.

(** One operation: the tally plus the children in between moves as the counter
    does, and a child passes its check only while there is room. *)
Lemma effect_balance module_cap r c r' c' k j :
  shaped r -> child_effect r c r' c' -> c_alive c = true -> c_cap c = module_cap (c_module c) ->
  (past_check (c_pc c) = true -> state_at r (c_slot c) = SLOT_CLAIMED /\
    ((c_pc c = PStoreHost \/ c_pc c = PPublish) -> cell (slot_module r) (c_slot c) = c_module c) /\
    (c_pc c = PPublish -> cell (slot_host r) (c_slot c) = c_host c)) ->
  0 <= j < entries_count k r -> 0 <= cell (counters k r) j < 2 ^ 30 -> counted k j c <= cell (counters k r) j ->
  registered k r' j + counted k j c' - cell (counters k r') j = registered k r j + counted k j c - cell (counters k r) j /\
  (registered k r' j + passed k j c' <= registered k r j + passed k j c \/
   (registered k r' j + passed k j c' = registered k r j + passed k j c + 1 /\ (cap_of module_cap k r j > 0 -> cell (counters k r) j + 1 <= cap_of module_cap k r j))).
Proof.
  intros Hs He Hal Hcap Hslot Hj Hcnt Hcc. destruct (slot_lengths r Hs) as (L1&_&L3&L4). pose proof Hs as [[Hms _] _ _ _ Lm (_&La&_)].
  unfold DAEMON_LIMITS_MIN_SLOTS in Hms. unfold counted, passed, registered in *.
  destruct He as [res Hp|r' host Hto Hp Hin Hst Hm Hh|v p Hm Hp|v p Hb Hp|Hp Hin|Hp Hin|Hp Hin].
  - simpl. destruct Hp as [Hp|[res' Hp]]; rewrite Hp; destruct k; simpl; rewrite !andb_false_r; simpl; lia.
  - destruct Hto as [(E1&_&E3&E4&Em&_) Ema Eha _ _]. rewrite Hp. destruct k; simpl in *; rewrite !andb_false_r; simpl.
    + unfold tally, tally_to, state_at. rewrite E1, E3, Em, Ema. lia.
    + unfold tally, tally_to, state_at. rewrite E1, E4, Em. rewrite (Eha j) by exact Hj. lia.
  - destruct k; simpl in *.
    + unfold tally, tally_to, state_at. simpl. rewrite cell_insert by lia. rewrite Hal. simpl. rewrite (Z.eqb_sym j).
      destruct Hp as [(Hp&->&Hr&->)|[(Hp&->&->)|(Hp&->&->)]]; rewrite Hp in *; simpl in *.
      * destruct (Z.eqb_spec (c_module c) j) as [<-|Hne]; [rewrite i32_small by lia|]; simpl in *.
        -- destruct (Z.gtb_spec (c_cap c) 0), (Z.gtb_spec (cell (module_active r) (c_module c) + 1) (c_cap c)); simpl;
             try (destruct (Z.geb_spec (c_host c) 0)); simpl; (split; [lia|]); lia || (right; split; [lia|]; rewrite <- Hcap; lia).
        -- destruct (c_cap c >? 0), (_ >? c_cap c), (c_host c >=? 0); simpl; lia.
      * rewrite Hal in Hcc. destruct (Z.eqb_spec (c_module c) j) as [<-|Hne]; simpl in *; [rewrite i32_small by lia|]; lia.
      * rewrite Hal in Hcc. destruct (Z.eqb_spec (c_module c) j) as [<-|Hne]; simpl in *; [rewrite i32_small by lia|]; lia.
    + change (tally (set_module_active r _)) with (tally r). rewrite Hal. simpl.
      destruct Hp as [(Hp&->&Hr&->)|[(Hp&->&->)|(Hp&->&->)]]; rewrite Hp; simpl; [|lia..].
      destruct (c_cap c >? 0), (_ >? c_cap c), (Z.geb_spec (c_host c) 0), (Z.eqb_spec (c_host c) j); simpl; lia.
  - destruct k; simpl in *.
    + change (tally (set_host_active r _)) with (tally r). rewrite Hal. simpl.
      destruct Hp as [(Hp&->&Hr&->)|(Hp&->&->)]; rewrite Hp; simpl; destruct (c_module c =? j); simpl; try lia;
        destruct (per_host_cap r >? 0), (_ >? per_host_cap r); simpl; lia.
    + unfold tally, tally_to, state_at. simpl. unfold in_table in Hb. rewrite cell_insert by lia. rewrite Hal. simpl. rewrite (Z.eqb_sym j).
      destruct Hp as [(Hp&->&Hr&->)|(Hp&->&->)]; rewrite Hp in *; simpl in *.
      * destruct (Z.eqb_spec (c_host c) j) as [<-|Hne]; [rewrite i32_small by lia|]; simpl in *.
        -- destruct (Z.gtb_spec (per_host_cap r) 0), (Z.gtb_spec (cell (host_active r) (c_host c) + 1) (per_host_cap r)); simpl; (split; [lia|]); lia.
        -- destruct (per_host_cap r >? 0), (_ >? per_host_cap r); simpl; lia.
      * rewrite Hal in Hcc. destruct (Z.eqb_spec (c_host c) j) as [<-|Hne]; simpl in *; [rewrite i32_small by lia|]; lia.
  - rewrite Hp in *. destruct (Hslot eq_refl) as (Hst&_&_). unfold in_slots in Hin.
    set (r' := set_slot_module r _). assert (Ht : forall i, tally r' (slot_entries k r') i = tally r (slot_entries k r) i).
    { intros i. apply tally_ext; [done|]. intros s Hs'. unfold in_slots in Hs'. destruct k; unfold state_at in *; simpl; try done.
      rewrite cell_insert by lia. destruct (Z.eqb_spec s (c_slot c)) as [->|]; [|done]. rewrite Hst. by split; intros []. }
    rewrite Ht. change (counters k r') with (counters k r). destruct k; simpl; rewrite Hal; simpl; lia.
  - rewrite Hp in *. destruct (Hslot eq_refl) as (Hst&_&_). unfold in_slots in Hin.
    set (r' := set_slot_host r _). assert (Ht : forall i, tally r' (slot_entries k r') i = tally r (slot_entries k r) i).
    { intros i. apply tally_ext; [done|]. intros s Hs'. unfold in_slots in Hs'. destruct k; unfold state_at in *; simpl; try done.
      rewrite cell_insert by lia. destruct (Z.eqb_spec s (c_slot c)) as [->|]; [|done]. rewrite Hst. by split; intros []. }
    rewrite Ht. change (counters k r') with (counters k r). destruct k; simpl; rewrite Hal; simpl; lia.
  - rewrite Hp in *. destruct (Hslot eq_refl) as (Hst&Hsm&Hsh). unfold in_slots in Hin. set (r' := set_slot_state r _).
    assert (Ht : forall arr i, tally r' arr i = tally r arr i + (if cell arr (c_slot c) =? i then 1 else 0)).
    { intros arr i. unfold tally. change (max_slots r') with (max_slots r).
      rewrite (tally_to_publish r r' arr (max_slots r) (c_slot c) i); [|lia|lia|by rewrite Hst| |].
      - destruct (Z.ltb_spec (c_slot c) (max_slots r)); [done|lia].
      - unfold state_at, r'. simpl. rewrite cell_insert by lia. by rewrite Z.eqb_refl.
      - intros x Hx Hxr. unfold state_at, r'. simpl. rewrite cell_insert by lia. by destruct (Z.eqb_spec x (c_slot c)). }
    destruct k; simpl; rewrite Ht, ?Hsm, ?Hsh by auto; rewrite Hal; simpl; destruct (_ =? j); simpl; lia.
Qed.

Lemma total_ge f l i c : (forall x, 0 <= f x) -> l !! i = Some c -> f c <= total f l.
Proof.
  intros Hf. revert i. induction l as [|x l IH]; intros [|i] Hi; simpl in *; try done.
  - injection Hi as ->. assert (0 <= total f l) by (clear - Hf; induction l as [|y l IH]; simpl; [done|specialize (Hf y); lia]). lia.
  - specialize (IH i Hi). specialize (Hf x). lia.
Qed.

Lemma children_bound d : slots_ok d -> zlen (children d) <= max_slots (reg d).
Proof.
  intros Hd. assert (Hsub : c_slot <$> children d ⊆+ seqZ 0 (max_slots (reg d))).
  { apply NoDup_submseteq; [pose proof (so_owners _ Hd) as Ho; by apply NoDup_app in Ho as (?&_)|]. intros x Hx. apply elem_of_seqZ.
    assert (Hin : in_slots (reg d) x) by (apply (so_range _ Hd), elem_of_app; by left). unfold in_slots in Hin. lia. }
  apply submseteq_length in Hsub. rewrite length_fmap, length_seqZ in Hsub. pose proof (so_shape _ Hd) as [[? _] _ _ _ _ _].
  unfold DAEMON_LIMITS_MIN_SLOTS, zlen in *. lia.
Qed.

Lemma counter_bound module_cap d k j : slots_ok d -> caps_ok module_cap d -> 0 <= j < entries_count k (reg d) ->
  0 <= cell (counters k (reg d)) j < 2 ^ 30.
Proof.
  intros Hd Hc Hj. destruct (cp_count _ _ Hc k j Hj) as [Hlo Hhi]. pose proof (children_bound d Hd). pose proof (so_shape _ Hd) as [[Hm1 Hm2] _ _ _ _ _].
  unfold DAEMON_LIMITS_MIN_SLOTS, DAEMON_LIMITS_MAX_SLOTS in *.
  pose proof (tally_to_bound (reg d) (slot_entries k (reg d)) (max_slots (reg d)) j ltac:(lia)) as Ht. fold (tally (reg d) (slot_entries k (reg d)) j) in Ht.
  fold (registered k (reg d) j) in Ht.
  pose proof (total_bounds (counted k j) (children d) (fun c => b2z_bounds _)). pose proof (total_bounds (leaked k j) (children d) (fun c => b2z_bounds _)). lia.
Qed.

Lemma child_balance module_cap d i c r c' k j : slots_ok d -> caps_ok module_cap d -> children d !! i = Some c -> c_alive c = true ->
  child_effect (reg d) c r c' -> 0 <= j < entries_count k (reg d) ->
  registered k r j + counted k j c' - cell (counters k r) j = registered k (reg d) j + counted k j c - cell (counters k (reg d)) j /\
  (registered k r j + passed k j c' <= registered k (reg d) j + passed k j c \/
   (registered k r j + passed k j c' = registered k (reg d) j + passed k j c + 1 /\
    (cap_of module_cap k (reg d) j > 0 -> cell (counters k (reg d)) j + 1 <= cap_of module_cap k (reg d) j))).
Proof.
  intros Hd Hc Hi Hal He Hj. pose proof (so_shape _ Hd) as Hs. assert (Hin : c ∈ children d) by (by eapply list_elem_of_lookup_2).
  apply effect_balance; try done; [by apply (cp_cap _ _ Hc)| |by eapply counter_bound|].
  - intros Hp. by destruct (cp_slot _ _ Hc c Hin Hp) as (?&_&?&?).
  - pose proof (total_ge (counted k j) (children d) i c (fun x => proj1 (b2z_bounds _)) Hi). destruct (cp_count _ _ Hc k j Hj) as [Hlo _].
    pose proof (sh_slots _ Hs) as [Hm _]. unfold DAEMON_LIMITS_MIN_SLOTS in Hm.
    pose proof (tally_to_bound (reg d) (slot_entries k (reg d)) (max_slots (reg d)) j ltac:(lia)) as Ht.
    change (tally_to (reg d) (slot_entries k (reg d)) (max_slots (reg d)) j) with (registered k (reg d) j) in Ht. lia.
Qed.

Lemma effect_caps module_cap d i c r c' : slots_ok d -> caps_ok module_cap d -> children d !! i = Some c -> c_alive c = true ->
  child_effect (reg d) c r c' -> caps_ok module_cap (MkDaemon r (<[i := c']> (children d)) (par d) (active d)).
Proof.
  intros Hd Hc Hi Hal He. pose proof (so_shape _ Hd) as Hs. assert (Hin : c ∈ children d) by (by eapply list_elem_of_lookup_2).
  destruct (effect_shape _ _ _ _ Hs (so_table _ Hd) He) as (Hs'&_&_&Hsl&Hmo&Hcp&Hal'&Hms&Hmc&Hhs&Hphc).
  assert (Hslot : in_slots (reg d) (c_slot c)) by (apply (so_range _ Hd), elem_of_app; left; by apply list_elem_of_fmap_2).
  assert (Hother : forall x, x ∈ <[i := c']> (children d) -> x = c' \/ (x ∈ children d /\ in_slots (reg d) (c_slot x) /\ c_slot x <> c_slot c)).
  { intros x [j Hx]%list_elem_of_lookup. destruct (decide (j = i)) as [->|Hne].
    - left. rewrite list_lookup_insert_eq in Hx by (by eapply lookup_lt_Some). by injection Hx.
    - right. rewrite list_lookup_insert_ne in Hx by done. assert (Hxin : x ∈ children d) by (by eapply list_elem_of_lookup_2).
      split; [done|]. split; [apply (so_range _ Hd), elem_of_app; left; by apply list_elem_of_fmap_2|].
      intros Es. apply Hne. pose proof (so_owners _ Hd) as Ho. apply NoDup_app in Ho as (Ho&_).
      apply (NoDup_lookup (c_slot <$> children d) j i (c_slot c) Ho); rewrite list_lookup_fmap; [by rewrite Hx; simpl; f_equal|by rewrite Hi]. }
  assert (Hcell : forall s, in_slots (reg d) s -> state_at r s = if (s =? c_slot c) then state_at r s else state_at (reg d) s).
  { intros s Hs0. destruct (Z.eqb_spec s (c_slot c)); [done|]. by destruct (effect_other _ _ _ _ s Hs He Hs0 n) as (->&_). }
  pose proof (fun k j Hj => child_balance module_cap d i c r c' k j Hd Hc Hi Hal He Hj) as Hbal.
  assert (Hec : forall k, entries_count k r = entries_count k (reg d)) by (intros []; simpl; done).
  assert (Hcapr : forall k j, cap_of module_cap k r j = cap_of module_cap k (reg d) j) by (intros [] j; simpl; done).
  assert (Hleak : forall k j, leaked k j c' = 0 /\ leaked k j c = 0) by (intros k j; unfold leaked; by rewrite Hal', Hal).
  split; simpl.
  - intros x Hx Hp. destruct (Hother x Hx) as [->|(Hxin&Hxs&Hxne)].
    + rewrite Hsl, Hmo, Hmc.
      destruct He as [|? ? Hto Hpc ? Hst Hm0 ?|v p Hm0 Hpp|v p Hb Hpp|Hpp ?|Hpp ?|Hpp ?]; simpl in Hp; try done.
      * destruct Hto as [(E1&_) _ _ _ _]. unfold state_at in *. rewrite E1. split_and!; try done; simpl; naive_solver.
      * assert (Hpast : past_check (c_pc c) = true) by (by destruct Hpp as [(->&_)|[(->&_)|(->&_)]]).
        destruct (cp_slot _ _ Hc c Hin Hpast) as (H1&H2&_). split_and!; try done; simpl; destruct Hpp as [(Hpp&_&_&->)|[(Hpp&_&->)|(Hpp&_&->)]]; simpl;
          repeat case_match; naive_solver.
      * assert (Hpast : past_check (c_pc c) = true) by (by destruct Hpp as [(->&_)|(->&_)]).
        destruct (cp_slot _ _ Hc c Hin Hpast) as (H1&H2&_). split_and!; try done; simpl; destruct Hpp as [(Hpp&_&_&->)|(Hpp&_&->)]; simpl;
          repeat case_match; naive_solver.
      * destruct (cp_slot _ _ Hc c Hin) as (H1&H2&_); [by rewrite Hpp|]. unfold state_at in *. destruct (slot_lengths _ Hs) as (_&_&L3&_). unfold in_slots in Hslot. simpl.
        split; [done|]. split; [done|]. split; [|done]. intros _. rewrite cell_insert by lia. by rewrite Z.eqb_refl.
      * destruct (cp_slot _ _ Hc c Hin) as (H1&H2&H3&_); [by rewrite Hpp|]. unfold state_at in *. destruct (slot_lengths _ Hs) as (_&_&_&L4). unfold in_slots in Hslot. simpl.
        split; [done|]. split; [done|]. split; [intros _; apply H3; by left|]. intros _. rewrite cell_insert by lia. by rewrite Z.eqb_refl.
    + destruct (cp_slot _ _ Hc x Hxin Hp) as (H1&H2&H3&H4). destruct (effect_other _ _ _ _ (c_slot x) Hs He Hxs Hxne) as (E1&E2&E3).
      rewrite E1, E2, E3, Hmc. done.
  - intros x Hx Hp. unfold in_table. rewrite Hhs. destruct (Hother x Hx) as [->|(Hxin&_)]; [|by apply (cp_host _ _ Hc)].
    destruct He as [|? ? ? ? ? ? ? ?|v p Hm0 Hpp|v p Hb Hpp|Hpp ?|Hpp ?|Hpp ?]; simpl in Hp |- *; try done; apply (cp_host _ _ Hc c Hin).
    + by destruct Hpp as [(->&_)|[(->&_)|(->&_)]].
    + by destruct Hpp as [(->&_)|(->&_)].
    + by rewrite Hpp.
    + by rewrite Hpp.
  - intros x Hx. destruct (Hother x Hx) as [->|(Hxin&_)]; [rewrite Hcp, Hmo|]; by apply (cp_cap _ _ Hc).
  - intros s Hp. rewrite <- (cp_claimed _ _ Hc s Hp). assert (Hso : s ∈ owners d) by (apply elem_of_app; right; rewrite Hp; by left).
    apply (effect_other _ _ _ _ s Hs He); [by apply (so_range _ Hd)|]. intros ->. pose proof (so_owners _ Hd) as Ho. apply NoDup_app in Ho as (_&Ho&_).
    apply (Ho (c_slot c)); [by apply list_elem_of_fmap_2|rewrite Hp; by left].
  - intros k j Hj. rewrite Hec in Hj. destruct (Hbal k j Hj) as [Hb _]. rewrite !(children_total_insert _ _ _ _ _ Hi). destruct (Hleak k j) as [-> ->].
    pose proof (cp_count _ _ Hc k j Hj). lia.
  - intros k j Hj Hpos. rewrite Hec in Hj. rewrite Hcapr in *. destruct (Hbal k j Hj) as [_ [Hb|[Hb Hroom]]]; rewrite (children_total_insert _ _ _ _ _ Hi).
    + pose proof (cp_limit _ _ Hc k j Hj Hpos). lia.
    + pose proof (cp_count _ _ Hc k j Hj). pose proof (total_le (passed k j) (counted k j) (children d) (passed_le_counted k j)). specialize (Hroom Hpos). lia.
Qed.

(** Steps that change neither the slots of children nor the counters. *)
Lemma caps_transfer module_cap d r p a : caps_ok module_cap d ->
  module_count r = module_count (reg d) -> host_slots r = host_slots (reg d) -> per_host_cap r = per_host_cap (reg d) ->
  (forall c, c ∈ children d -> state_at r (c_slot c) = state_at (reg d) (c_slot c) /\
     cell (slot_module r) (c_slot c) = cell (slot_module (reg d)) (c_slot c) /\ cell (slot_host r) (c_slot c) = cell (slot_host (reg d)) (c_slot c)) ->
  (forall k j, 0 <= j < entries_count k (reg d) -> registered k r j = registered k (reg d) j /\ cell (counters k r) j = cell (counters k (reg d)) j) ->
  (forall s, p = Claimed s -> state_at r s = SLOT_CLAIMED) ->
  caps_ok module_cap (MkDaemon r (children d) p a).
Proof.
  intros Hc Hm Hh Hp Hcells Hreg Hpar.
  assert (Hec : forall k, entries_count k r = entries_count k (reg d)) by (by intros []).
  assert (Hcap : forall k j, cap_of module_cap k r j = cap_of module_cap k (reg d) j) by (by intros [] j).
  split; simpl; try done.
  - intros c Hin Hpc. destruct (Hcells c Hin) as (->&->&->). rewrite Hm. by apply (cp_slot _ _ Hc).
  - intros c Hin Hpc. unfold in_table. rewrite Hh. by apply (cp_host _ _ Hc).
  - apply (cp_cap _ _ Hc).
  - intros k j Hj. rewrite Hec in Hj. destruct (Hreg k j Hj) as [-> ->]. by apply (cp_count _ _ Hc).
  - intros k j Hj Hpos. rewrite Hec in Hj. rewrite Hcap in *. destruct (Hreg k j Hj) as [-> _]. by apply (cp_limit _ _ Hc).
Qed.

(** A change of one slot that is not registered before or after. *)
Lemma registered_same k r r' s : in_slots r s -> max_slots r' = max_slots r -> state_at r s <> SLOT_REGISTERED -> state_at r' s <> SLOT_REGISTERED ->
  (forall x, in_slots r x -> x <> s -> state_at r' x = state_at r x /\ cell (slot_entries k r') x = cell (slot_entries k r) x) ->
  forall j, registered k r' j = registered k r j.
Proof.
  intros Hin Hm H1 H2 Ho j. apply tally_ext; [done|]. intros x Hx. destruct (decide (x = s)) as [->|Hne]; [split; intros []; done|].
  destruct (Ho x Hx Hne) as [-> ->]. done.
Qed.

Section CapTheorem.
Context {I : Inet} (module_cap : Z -> Z) (max_connections : Z).

Lemma table_only_caps d r : caps_ok module_cap d -> table_only (reg d) r -> caps_ok module_cap (MkDaemon r (children d) (par d) (active d)).
Proof.
  intros Hc [(E1&_&E3&E4&Em&E6&E7&E8) Ema Eha _ _]. apply caps_transfer; try done.
  - intros c _. unfold state_at. by rewrite E1, E3, E4.
  - intros k j Hj. split; [|destruct k; simpl in *; [by rewrite Ema|by apply Eha]].
    unfold registered, tally, tally_to, state_at. destruct k; simpl; by rewrite E1, ?E3, ?E4, Em.
  - intros s Hp. unfold state_at. rewrite E1. by apply (cp_claimed _ _ Hc).
Qed.

Lemma step_caps_ok d d' : step module_cap max_connections true d d' -> slots_ok d -> caps_ok module_cap d -> caps_ok module_cap d'.
Proof.
  intros Hstep Hd Hc. pose proof (so_shape _ Hd) as Hs. destruct (slot_lengths _ Hs) as (L1&L2&L3&L4).
  destruct Hstep as [d r slot Hp Ha E Hn|d slot pid module r Hp Hpid Hfresh E|d slot r Hp E|d i c r c' now peer Hi Hal E|d i c Hi|d r v now peer E|d r now peer E|d r now peer E|d pids r a Hnd Hsub Hdead Hq E]; simpl.
  - unfold daemon_limits_claim_slot in E. destruct (claim_loop_spec (reg d) (Z.to_nat (max_slots (reg d))) 0 Hs) as [(s&E'&Hin&Hfree)|[E' _]];
      [f_equal; lia|lia| |rewrite E' in E; by injection E as _ <-].
    rewrite E' in E. injection E as <- <-. unfold in_slots in Hin.
    assert (Hcell : forall x v arr, zlen arr = max_slots (reg d) -> in_slots (reg d) x -> x <> s -> cell (<[Z.to_nat s := v]> arr) x = cell arr x).
    { intros x v arr Hl Hx Hne. unfold in_slots in Hx. rewrite cell_insert by lia. by destruct (Z.eqb_spec x s). }
    apply caps_transfer; try done.
    + intros c Hin'. destruct (so_child _ Hd c Hin') as (_&Hb&_). assert (c_slot c <> s) by (intros Es; by rewrite Es in Hb).
      assert (in_slots (reg d) (c_slot c)) by (apply (so_range _ Hd), elem_of_app; left; by apply list_elem_of_fmap_2).
      unfold state_at. simpl. by rewrite !Hcell.
    + intros k j Hj. split; [|by destruct k]. apply (registered_same k (reg d) _ s); try done.
      * by rewrite Hfree.
      * unfold state_at. simpl. rewrite cell_insert by lia. by rewrite Z.eqb_refl.
      * intros x Hx Hne. unfold state_at. destruct k; simpl; by rewrite !Hcell.
    + intros x [= <-]. unfold state_at. simpl. rewrite cell_insert by lia. by rewrite Z.eqb_refl.
  - assert (Hin : in_slots (reg d) slot) by (apply (so_range _ Hd), elem_of_app; right; rewrite Hp; by left).
    unfold daemon_limits_set_slot_pid in E. rewrite (proj2 (slot_valid_spec _ _) Hin) in E. unfold in_slots in Hin. rewrite st_ret in E by lia.
    injection E as <-. set (new := MkChild _ _ _ _ _ _ _). set (r' := set_slot_pid _ _).
    assert (Hsame : forall k j, registered k r' j = registered k (reg d) j /\ counters k r' = counters k (reg d) /\ entries_count k r' = entries_count k (reg d) /\
      cap_of module_cap k r' j = cap_of module_cap k (reg d) j) by (by intros [] j).
    assert (Hzero : forall k j, counted k j new = 0 /\ passed k j new = 0 /\ leaked k j new = 0) by (by intros [] j).
    destruct Hc as [C1 C2 C3 C4 C5 C6]. split; simpl; try done.
    + intros c [Hc| ->%list_elem_of_singleton]%elem_of_app; [by apply C1|done].
    + intros c [Hc| ->%list_elem_of_singleton]%elem_of_app; [by apply C2|done].
    + intros c [Hc| ->%list_elem_of_singleton]%elem_of_app; [by apply C3|done].
    + intros k j Hj. rewrite !total_app. simpl. destruct (Hzero k j) as (->&_&->). destruct (Hsame k j) as (->&->&He&_). rewrite He in Hj. specialize (C5 k j Hj). lia.
    + intros k j Hj Hpos. rewrite !total_app. simpl. destruct (Hzero k j) as (_&->&_). destruct (Hsame k j) as (->&_&He&Hcp). rewrite He in Hj. rewrite Hcp in *. specialize (C6 k j Hj Hpos). lia.
  - assert (Hin : in_slots (reg d) slot) by (apply (so_range _ Hd), elem_of_app; right; rewrite Hp; by left).
    rewrite (reclaim_slot_spec _ _ Hs Hin) in E. injection E as <-. pose proof (cp_claimed _ _ Hc slot Hp) as Hcl. unfold in_slots in Hin.
    assert (Hcell : forall x, in_slots (reg d) x -> x <> slot -> cell (<[Z.to_nat slot := SLOT_FREE]> (slot_state (reg d))) x = cell (slot_state (reg d)) x).
    { intros x Hx Hne. unfold in_slots in Hx. rewrite cell_insert by lia. by destruct (Z.eqb_spec x slot). }
    apply caps_transfer; try done.
    + intros c Hin'. assert (c_slot c <> slot).
      { intros Es. pose proof (so_owners _ Hd) as Ho. unfold owners in Ho. rewrite Hp in Ho. apply NoDup_app in Ho as (_&Ho&_).
        apply (Ho (c_slot c)); [by apply list_elem_of_fmap_2|]. rewrite Es. by left. }
      assert (in_slots (reg d) (c_slot c)) by (apply (so_range _ Hd), elem_of_app; left; by apply list_elem_of_fmap_2).
      unfold state_at. simpl. by rewrite Hcell.
    + intros k j Hj. split; [|by destruct k]. apply (registered_same k (reg d) _ slot); try done.
      * by rewrite Hcl.
      * unfold state_at. simpl. rewrite cell_insert by lia. by rewrite Z.eqb_refl.
      * intros x Hx Hne. unfold state_at. destruct k; simpl; by rewrite Hcell.
  - pose proof (child_step_effect _ _ _ _ _ _ Hs (so_table _ Hd) E) as He. by eapply effect_caps.
  - assert (Hother : forall x, x ∈ <[i := dead c]> (children d) -> exists y, y ∈ children d /\ c_pc x = c_pc y /\ c_slot x = c_slot y /\ c_module x = c_module y /\
      c_host x = c_host y /\ c_cap x = c_cap y).
    { intros x [j Hx]%list_elem_of_lookup. destruct (decide (j = i)) as [->|Hne].
      - rewrite list_lookup_insert_eq in Hx by (by eapply lookup_lt_Some). injection Hx as <-. exists c. split; [by eapply list_elem_of_lookup_2|done].
      - rewrite list_lookup_insert_ne in Hx by done. exists x. split; [by eapply list_elem_of_lookup_2|done]. }
    assert (Hd1 : forall k j, counted k j (dead c) = 0 /\ passed k j (dead c) = 0 /\ leaked k j (dead c) = counted k j c + leaked k j c /\ 0 <= passed k j c).
    { intros k j. unfold counted, passed, leaked. simpl. replace (entry_of k (dead c)) with (entry_of k c) by (by destruct k).
      destruct (c_alive c); simpl; split_and!; try lia; try apply b2z_bounds; destruct (_ && _); simpl; lia. }
    destruct Hc as [C1 C2 C3 C4 C5 C6]. split; simpl; try done.
    + intros x Hx Hpc. destruct (Hother x Hx) as (y&Hy&E1&->&->&->&_). rewrite E1 in *. by apply C1.
    + intros x Hx Hpc. destruct (Hother x Hx) as (y&Hy&E1&_&_&->&_). rewrite E1 in *. by apply C2.
    + intros x Hx. destruct (Hother x Hx) as (y&Hy&_&_&->&_&->). by apply C3.
    + intros k j Hj. rewrite !(children_total_insert _ _ _ _ _ Hi). destruct (Hd1 k j) as (->&_&->&_). specialize (C5 k j Hj).
      pose proof (b2z_bounds (c_alive c && has_counted k (c_pc c) && (entry_of k c =? j))) as Hb. fold (counted k j c) in Hb. lia.
    + intros k j Hj Hpos. rewrite !(children_total_insert _ _ _ _ _ Hi). destruct (Hd1 k j) as (_&->&_&Hb). specialize (C6 k j Hj Hpos). lia.
  - apply table_only_caps; [done|]. eapply locked_table_only; [done|apply Hd|done].
  - apply table_only_caps; [done|]. eapply failure_table_only; [done|apply Hd|done].
  - apply table_only_caps; [done|]. eapply success_table_only; [done|apply Hd|done].
  - destruct (reap_all d pids Hd Hnd Hsub) as (r1&E1&Hok&Em&Eh&(Hms&Hmc&Hhs&Hpc&_)&Hst&Hkeep). unfold sigchld_handler in E. rewrite E1 in E. cbn [mbind outcome_bind] in E.
    destruct (recompute_spec r1 (so_shape _ Hok)) as (r2&ma&ha&E2&Er2&Hs2&Hm2&Hh2). rewrite E2 in E. cbn [mbind outcome_bind] in E. injection E as <- <-.
    assert (Hexact : forall k j, 0 <= j < entries_count k r2 -> cell (counters k r2) j = registered k r2 j).
    { intros k j Hj. subst r2. destruct k; simpl in *; [by apply Hm2|by apply Hh2]. }
    assert (Hle : forall k j, registered k r2 j <= registered k (reg d) j).
    { intros k j. unfold registered, tally. subst r2. pose proof (sh_slots _ Hs) as [Hm0 _]. unfold DAEMON_LIMITS_MIN_SLOTS in Hm0.
      destruct k; simpl; rewrite ?Em, ?Eh, Hms; apply tally_to_mono; try lia; intros s Hs0; (destruct (Hst s Hs0) as [Hx|Hx]; unfold state_at in *; simpl; rewrite Hx; done). }
    assert (Hnone : forall k j, total (counted k j) (filter (fun c => c_pid c ∉ pids) (children d)) = 0).
    { intros k j. apply total_zero. intros c [_ Hc']%list_elem_of_filter. specialize (Hq eq_refl c Hc'). unfold counted, registering in *.
      destruct (c_alive c); [|done]. simpl in *. destruct k, (c_pc c); simpl in *; done. }
    assert (Hec : forall k, entries_count k r2 = entries_count k (reg d)) by (intros []; subst r2; simpl; done).
    split; simpl.
    + intros c [Hni Hc']%list_elem_of_filter Hpast. destruct (cp_slot _ _ Hc c Hc' Hpast) as (H1&H2&H3&H4).
      assert (Hk : state_at r2 (c_slot c) = state_at (reg d) (c_slot c)) by (subst r2; by apply (Hkeep c)). rewrite Hk. subst r2. simpl. by rewrite Em, Eh, Hmc.
    + intros c [Hni Hc']%list_elem_of_filter Hpast. subst r2. unfold in_table. simpl. rewrite Hhs. by apply (cp_host _ _ Hc).
    + intros c [Hni Hc']%list_elem_of_filter. by apply (cp_cap _ _ Hc).
    + intros s Hp. subst r2. destruct (Hst s) as [Hx|Hx]; [apply (so_range _ Hd), elem_of_app; right; rewrite Hp; by left| |].
      * unfold state_at in *. simpl. rewrite Hx. by apply (cp_claimed _ _ Hc).
      * by destruct (so_claimed _ Hok s Hp).
    + intros k j Hj. rewrite Hexact, Hnone by done. pose proof (total_bounds (leaked k j) (filter (fun c => c_pid c ∉ pids) (children d)) (fun c => b2z_bounds _)). lia.
    + intros k j Hj Hpos. rewrite Hec in Hj. assert (Hcap : cap_of module_cap k r2 j = cap_of module_cap k (reg d) j) by (destruct k; subst r2; simpl; done).
      rewrite Hcap in *. pose proof (cp_limit _ _ Hc k j Hj Hpos). specialize (Hle k j). specialize (Hnone k j).
      pose proof (total_le (passed k j) (counted k j) (filter (fun c => c_pid c ∉ pids) (children d)) (passed_le_counted k j)).
      pose proof (total_bounds (passed k j) (children d) (fun c => b2z_bounds _)). lia.
Qed.

Lemma reachable_caps_ok d : reachable module_cap max_connections true d -> caps_ok module_cap d.
Proof.
  intros (d0&Hinit&Hrtc). assert (Hr0 : reachable module_cap max_connections true d0) by (exists d0; by split; [|apply rtc_refl]).
  destruct (reachable_slots_ok _ _ _ _ Hr0) as [Hs0 _]. destruct Hinit as (Hc&Hp&Ha&mm&mo&cap&th&du&E).
  pose proof (create_spec mm max_connections mo cap th du) as Hcs. rewrite E in Hcs. destruct Hcs as (_&_&_&Hma&Hha&Hst).
  assert (Hzero : forall k j, registered k (reg d0) j = 0).
  { intros k j. apply tally_to_none; [pose proof (sh_slots _ (so_shape _ Hs0)) as [Hm _]; unfold DAEMON_LIMITS_MIN_SLOTS in Hm; lia|].
    intros s _. unfold state_at. rewrite Hst. unfold SLOT_FREE. by rewrite cell_zeros. }
  assert (Hc0 : caps_ok module_cap d0).
  { split; rewrite ?Hc, ?Hp; try done; [intros c Hx; by apply not_elem_of_nil in Hx..| |]; simpl; intros k j Hj.
    - rewrite Hzero. destruct k; simpl; [rewrite Hma|rewrite Hha]; rewrite cell_zeros; lia.
    - rewrite Hzero. lia. }
  clear Hc Hp Ha E Hma Hha Hst Hzero. induction Hrtc as [|d1 d2 d3 Hstep Hrest IH]; [done|].
  assert (Hr2 : reachable module_cap max_connections true d2) by (destruct Hr0 as (x&Hx&Hrx); exists x; split; [done|by eapply rtc_r]).
  destruct (reachable_slots_ok _ _ _ _ Hr2) as [Hs2 _]. apply (IH Hr2 Hs2). by eapply step_caps_ok.
Qed.

(** The same for a bucket of the source table.  A source that finds no bucket, or
    whose bucket is evicted and taken again, is not limited. *)
Lemma buckets_limited d b : reachable module_cap max_connections true d -> in_table (reg d) b ->
  (per_host_cap (reg d) > 0 -> registered_from (reg d) b <= per_host_cap (reg d)) /\ registered_from (reg d) b <= cell (host_active (reg d)) b.
Proof.
  intros Hreach Hb. pose proof (reachable_caps_ok d Hreach) as Hc. pose proof (total_bounds (passed KHost b) (children d) (fun c => b2z_bounds _)) as Hp.
  pose proof (total_bounds (counted KHost b) (children d) (fun c => b2z_bounds _)) as Hn. change (registered_from (reg d) b) with (registered KHost (reg d) b). split.
  - intros Hpos. pose proof (cp_limit _ _ Hc KHost b Hb Hpos). simpl in *. lia.
  - destruct (cp_count _ _ Hc KHost b Hb). simpl in *. lia.
Qed.

(** C32: the connection caps of modules hold under every interleaving.  As long as
    no run of the SIGCHLD handler overlaps a registration (it recounts, and a
    child that has counted itself and not yet published its slot would be
    forgotten: [overlap_relaxes_cap]), no execution of the accept loop, of children
    registering by separate atomic operations and of kills at any point has more
    registered connections to a module than its cap; and a module's counter is
    never below the connections it stands for, so a killed child can only make it
    stricter.  Nothing is claimed of the cap per source, which fails open when the
    table of sources is full or a bucket is evicted.  Interning a source is one
    step of the model; it leaves every slot and module counter as it was, so
    neither the eviction nor a race within it has a part in this. *)
Theorem module_caps_hold d (Hreach : reachable module_cap max_connections true d) :
  (forall m, 0 <= m < module_count (reg d) ->
     (module_cap m > 0 -> registered_in (reg d) m <= module_cap m) /\ registered_in (reg d) m <= cell (module_active (reg d)) m) /\
  (forall peer now r b, host_intern (reg d) peer now = Ret (r, b) ->
     module_active r = module_active (reg d) /\ slot_state r = slot_state (reg d) /\ slot_module r = slot_module (reg d)).
Proof.
  pose proof (reachable_caps_ok d Hreach) as Hc. destruct (reachable_slots_ok _ _ _ _ Hreach) as [Hs _]. split.
  - intros m Hm. pose proof (total_bounds (passed KModule m) (children d) (fun c => b2z_bounds _)) as Hp.
    pose proof (total_bounds (counted KModule m) (children d) (fun c => b2z_bounds _)) as Hn. change (registered_in (reg d) m) with (registered KModule (reg d) m). split.
    + intros Hpos. pose proof (cp_limit _ _ Hc KModule m Hm Hpos). simpl in *. lia.
    + destruct (cp_count _ _ Hc KModule m Hm). simpl in *. lia.
  - intros peer now r b E. destruct (intern_table_only _ (so_shape _ Hs) (so_table _ Hs) _ _ _ _ E) as [[(?&?&?&_) ? _ _ _] _]. done.
Qed.
End CapTheorem.

(** ** A child left alone runs [daemon_limits_register] *)

Section Sequential.
Context {I : Inet}.
Fixpoint run_child (n : nat) (r : registry) (c : child) (now : Z) (peer : list byte) : outcome (registry * child) :=
  match n with
  | O => Ret (r, c)
  | S n => '(r, c) ← child_step r c now peer; run_child n r c now peer
  end.

Lemma run_child_done n r c now peer res : c_pc c = PDone res -> run_child n r c now peer = Ret (r, c).
Proof. intros Hp. induction n as [|n IH]; [done|]. cbn [run_child]. unfold child_step. rewrite Hp. exact IH. Qed.

Lemma run_child_S n r c now peer : run_child (S n) r c now peer = ('(r, c) ← child_step r c now peer; run_child n r c now peer).
Proof. done. Qed.

(** The operations of a child that is not disturbed are those of
    [daemon_limits_register]. *)
Lemma register_runs r pid slot m cap peer now r' res :
  daemon_limits_register r slot m peer cap now = Ret (r', res) ->
  exists c', run_child 8 r (MkChild pid slot true m cap (-1) PCheck) now peer = Ret (r', c') /\ c_pc c' = PDone res.
Proof.
  unfold daemon_limits_register. intros H. rewrite run_child_S. unfold child_step. cbn [c_pc c_slot c_module].
  destruct (slot_valid r slot); simpl (negb _) in *; cbv iota in *; [|injection H as <- <-; eexists; split; [by eapply run_child_done|done]].
  destruct (_ || _); [injection H as <- <-; eexists; split; [by eapply run_child_done|done]|].
  destruct (ld (slot_state r) slot) as [s| |]; cbn [mbind outcome_bind] in *; [|done..].
  destruct (s =? SLOT_CLAIMED); simpl (negb _) in *; cbv iota in *; [|injection H as <- <-; eexists; split; [by eapply run_child_done|done]].
  destruct (if registry_tracks_hosts r then host_intern r peer now else Ret (r, -1)) as [[r1 host]| |]; cbn [mbind outcome_bind] in *; [|done..].
  rewrite run_child_S. unfold child_step. cbn [c_pc c_module c_cap c_host]. destruct (fetch_add (module_active r1) m 1) as [[ma b]| |]; cbn [mbind outcome_bind] in *; [|done..].
  destruct (int_ok (b + 1)) as [cnt| |]; cbn [mbind outcome_bind] in *; [|done..].
  destruct ((cap >? 0) && (cnt >? cap)).
  { rewrite run_child_S. unfold child_step. cbn [c_pc at_pc c_module]. destruct (fetch_add (module_active (set_module_active r1 ma)) m (-1)) as [[ma' b']| |];
      cbn [mbind outcome_bind] in *; [|done..]. injection H as <- <-. eexists. split; [by eapply run_child_done|done]. }
  destruct (host >=? 0).
  - rewrite run_child_S. unfold child_step. cbn [c_pc at_pc c_host].
    destruct (fetch_add (host_active (set_module_active r1 ma)) host 1) as [[ha hb]| |]; cbn [mbind outcome_bind] in *; [|done..].
    destruct (int_ok (hb + 1)) as [hc| |]; cbn [mbind outcome_bind] in *; [|done..].
    change (per_host_cap (set_host_active (set_module_active r1 ma) ha)) with (per_host_cap (set_module_active r1 ma)) in H.
    destruct ((per_host_cap (set_module_active r1 ma) >? 0) && (hc >? per_host_cap (set_module_active r1 ma))).
    + rewrite run_child_S. unfold child_step. cbn [c_pc at_pc c_host].
      destruct (fetch_add (host_active (set_host_active (set_module_active r1 ma) ha)) host (-1)) as [[ha' hb']| |]; cbn [mbind outcome_bind] in *; [|done..].
      rewrite run_child_S. unfold child_step. cbn [c_pc at_pc c_module].
      destruct (fetch_add (module_active _) m (-1)) as [[ma' b']| |]; cbn [mbind outcome_bind] in *; [|done..].
      injection H as <- <-. eexists. split; [by eapply run_child_done|done].
    + inv_ret H. inv_ret H. inv_ret H. injection H as <- <-. apply st_inv in Hm as [R1 ->], Hm0 as [R2 ->], Hm1 as [R3 ->].
      do 3 (rewrite run_child_S; unfold child_step; cbn [c_pc at_pc c_slot c_host c_module]; rewrite st_ret by (simpl; done); cbn [mbind outcome_bind]).
      eexists. split; [by eapply run_child_done|done].
  - cbn [mbind outcome_bind] in H. inv_ret H. inv_ret H. inv_ret H. injection H as <- <-. apply st_inv in Hm as [R1 ->], Hm0 as [R2 ->], Hm1 as [R3 ->].
    do 3 (rewrite run_child_S; unfold child_step; cbn [c_pc at_pc c_slot c_host c_module]; rewrite st_ret by (simpl; done); cbn [mbind outcome_bind]).
    eexists. split; [by eapply run_child_done|done].
Qed.
End Sequential.

(** ** A run *)

Definition demo_daemon : daemon := MkDaemon (match daemon_limits_create (fun _ => true) 20 2 0 0 0 with Ret r => r | _ => demo_registry end) [] Idle 0.

Ltac run_child_step := eapply rtc_l; [eapply (SChild _ _ _ _ 0%nat _ _ _ 0 []); [reflexivity|reflexivity|vm_compute; reflexivity]|].

(** Accept, fork, register to module 1, then a second connection is claimed. *)
Lemma demo_run quiet : exists d, @reachable demo_inet (fun _ => 1) 20 quiet d /\ par d = Claimed 1 /\ registered_in (reg d) 1 = 1 /\
  0 <= 1 < module_count (reg d).
Proof.
  eexists. split; [exists demo_daemon; split|].
  - split_and!; try done. exists (fun _ => true), 2, 0, 0, 0. by vm_compute.
  - eapply rtc_l; [eapply SClaim; [reflexivity|reflexivity|vm_compute; reflexivity|done]|].
    eapply rtc_l; [eapply (SFork _ _ _ _ _ 77 1); [reflexivity|done|vm_compute; by inversion 1|vm_compute; reflexivity]|].
    do 5 run_child_step.
    eapply rtc_l; [eapply SClaim; [reflexivity|reflexivity|vm_compute; reflexivity|done]|]. apply rtc_refl.
  - split_and!; by vm_compute.
Qed.

Lemma slots_never_leak_witness :
  exists d, @reachable demo_inet (fun _ => 1) 20 false d /\ registered_in (reg d) 1 = 1 /\ slots_ok d.
Proof.
  destruct (demo_run false) as (d&Hr&_&Hreg&_). exists d. split; [done|]. split; [done|].
  apply (@slots_never_leak demo_inet (fun _ => 1) 20 false d Hr). by vm_compute.
Defined.

Ltac take_step c := eapply rtc_l; [c|]; match goal with |- rtc _ ?d _ => let v := eval vm_compute in d in replace d with v by (vm_compute; reflexivity) end.
Ltac claim_fork pid := take_step ltac:(eapply SClaim; [reflexivity|reflexivity|vm_compute; reflexivity|done]);
  take_step ltac:(eapply (SFork _ _ _ _ _ pid 1); [reflexivity|done|vm_compute; set_solver|vm_compute; reflexivity]).
Ltac child_runs i := take_step ltac:(eapply (SChild _ _ _ _ i _ _ _ 0 []); [reflexivity|reflexivity|vm_compute; reflexivity]).

(** Without the condition on the handler the cap can be passed, as daemon_limits.h
    says of [daemon_limits_recompute]: child 0 counts itself, child 1 dies and is
    reaped, and the recount forgets child 0; child 2 then takes the one place of the
    module, and both publish. *)
Lemma overlap_relaxes_cap : exists d, @reachable demo_inet (fun _ => 1) 20 false d /\ registered_in (reg d) 1 = 2.
Proof.
  eexists. split; [exists demo_daemon; split|].
  - split_and!; try done. exists (fun _ => true), 2, 0, 0, 0. by vm_compute.
  - claim_fork 77. claim_fork 78. claim_fork 79. do 2 child_runs 0%nat.
    take_step ltac:(eapply (SKill _ _ _ _ 1%nat); reflexivity).
    take_step ltac:(eapply (SReap _ _ _ _ [78]); [apply NoDup_singleton|set_solver|intros pid ->%list_elem_of_singleton; reflexivity|done|vm_compute; reflexivity]).
    do 5 child_runs 1%nat. do 3 child_runs 0%nat. apply rtc_refl.
  - by vm_compute.
Qed.

Lemma module_caps_hold_witness :
  exists d, @reachable demo_inet (fun _ => 1) 20 true d /\ registered_in (reg d) 1 = 1 /\ registered_in (reg d) 1 <= 1.
Proof.
  destruct (demo_run true) as (d&Hr&_&Hreg&Hm). exists d. split; [done|]. split; [done|].
  destruct (@module_caps_hold demo_inet (fun _ => 1) 20 d Hr) as [Hcap _]. by apply (Hcap 1 Hm).
Defined.
