(* ===== verification/DeleteTree.v ===== *)
(** The destination as the deletion code sees it: a tree of named entries, and
    the system calls made relative to an open directory.  A directory open on a
    descriptor is its list of entries in [readdir] order.  Whether a call fails
    for a reason of its own (permissions, I/O errors, a concurrent change) is a
    function of the call and the path, over which every statement is
    quantified. *)

From stdpp Require Import strings.
From S2P Require Import Prelude CStr Paths.

Abbreviation name := (list byte).

(** A non-directory keeps its identity; [symlink] tells what [O_NOFOLLOW] does. *)
Inductive node := Leaf (symlink : bool) (inode : Z) | Dir (es : list (name * node)).
Abbreviation entries := (list (name * node)).

Inductive errno := ENOENT | ENOTDIR | ENOTEMPTY | EEXIST | EISDIR | ELOOP | EACCES | EINVAL | ENOMEM | EINTR | EXDEV | EOPNOTSUPP | ENOSYS | ENXIO | EIO.
#[global] Instance errno_eq_dec : EqDecision errno.
Proof. solve_decision. Defined.

Inductive syscall := SysScan | SysStat | SysOpen | SysUnlink | SysRmdir | SysDup | SysMkdir | SysSymlink.
#[global] Instance syscall_eq_dec : EqDecision syscall.
Proof. solve_decision. Defined.
Class Faults := fault : syscall -> list name -> option errno.
Definition no_faults : Faults := fun _ _ => None.
Lemma fault_none c p : @fault no_faults c p = None.
Proof. done. Qed.

Definition is_dir (nd : node) : bool := match nd with Dir _ => true | _ => false end.
Fixpoint find (n : name) (es : entries) : option node :=
  match es with
  | [] => None
  | (m, nd) :: es => if decide (m = n) then Some nd else find n es
  end.
Definition set_entry (n : name) (nd : node) (es : entries) : entries :=
  (fun e => if decide (e.1 = n) then (n, nd) else e) <$> es.
Definition del_entry (n : name) (es : entries) : entries := filter (fun e => e.1 <> n) es.

Section Calls.
Context {F : Faults}.
Implicit Types here : list name.

(** [openat(dirfd, n, O_RDONLY | O_DIRECTORY | O_NOFOLLOW)] *)
Definition openat_dir here (n : name) (es : entries) : errno + entries :=
  match fault SysOpen (here ++ [n]) with
  | Some e => inl e
  | None => match find n es with
            | None => inl ENOENT
            | Some (Leaf symlink _) => inl (if symlink then ELOOP else ENOTDIR)
            | Some (Dir ces) => inr ces
            end
  end.

(** [fstatat(dirfd, n, &st, AT_SYMLINK_NOFOLLOW)]: is it a directory *)
Definition fstatat_is_dir here (n : name) (es : entries) : errno + bool :=
  match fault SysStat (here ++ [n]) with
  | Some e => inl e
  | None => match find n es with None => inl ENOENT | Some nd => inr (is_dir nd) end
  end.

(** [unlinkat(dirfd, n, 0)] and [unlinkat(dirfd, n, AT_REMOVEDIR)] *)
Definition unlinkat_file here (n : name) (es : entries) : errno + entries :=
  match fault SysUnlink (here ++ [n]) with
  | Some e => inl e
  | None => match find n es with
            | None => inl ENOENT
            | Some (Leaf _ _) => inr (del_entry n es)
            | Some (Dir _) => inl EISDIR
            end
  end.
Definition unlinkat_dir here (n : name) (es : entries) : errno + entries :=
  match fault SysRmdir (here ++ [n]) with
  | Some e => inl e
  | None => match find n es with
            | None => inl ENOENT
            | Some (Leaf _ _) => inl ENOTDIR
            | Some (Dir []) => inr (del_entry n es)
            | Some (Dir _) => inl ENOTEMPTY
            end
  end.
End Calls.

(** ** What is where *)

Inductive kind := KDir | KLeaf (symlink : bool) (inode : Z).
#[global] Instance kind_eq_dec : EqDecision kind.
Proof. solve_decision. Defined.

(** What a path below the directory names; the empty path is the directory. *)
Fixpoint kind_at (es : entries) (p : list name) : option kind :=
  match p with
  | [] => Some KDir
  | n :: q => match find n es with
              | None => None
              | Some (Leaf l i) => match q with [] => Some (KLeaf l i) | _ => None end
              | Some (Dir ces) => kind_at ces q
              end
  end.

(** A path that was removed, with whether it was a directory. *)
Abbreviation removal := (list name * bool)%type.
Definition gone_paths (g : list removal) : list (list name) := g.*1.

(** [es'] is [es] without the paths of [g], and nothing else has changed; each
    path of [g] was there, as a directory or not, and is listed once. *)
Record effect (es : entries) (g : list removal) (es' : entries) : Prop := {
  eff_kind p : kind_at es' p = if decide (p ∈ gone_paths g) then None else kind_at es p;
  eff_typed p d : (p, d) ∈ g -> exists k, kind_at es p = Some k /\ (d = true <-> k = KDir);
  eff_nodup : NoDup (gone_paths g);
}.

Definition under (n : name) (g : list removal) : list removal := (fun r => (n :: r.1, r.2)) <$> g.

Lemma gone_elem p g : p ∈ gone_paths g <-> exists d, (p, d) ∈ g.
Proof. unfold gone_paths. rewrite list_elem_of_fmap. split; [intros ([q d]&->&?); by exists d|intros (d&?); by exists (p, d)]. Qed.

Lemma effect_refl es : effect es [] es.
Proof. split; [|by intros ? ? ?%not_elem_of_nil|constructor]. intros p. by rewrite decide_False by apply not_elem_of_nil. Qed.

Lemma effect_trans es g es1 g' es2 : effect es g es1 -> effect es1 g' es2 -> effect es (g ++ g') es2.
Proof.
  intros [K1 T1 N1] [K2 T2 N2].
  assert (Hd : forall p d k, (p, d) ∈ g' -> kind_at es1 p = Some k -> p ∉ gone_paths g /\ kind_at es p = Some k).
  { intros p d k _ E. rewrite K1 in E. by case_decide. }
  assert (Happ : gone_paths (g ++ g') = gone_paths g ++ gone_paths g') by apply fmap_app. split.
  - intros p. rewrite K2, K1, Happ. repeat case_decide; try done; set_solver.
  - intros p d [?|Hin]%elem_of_app; [by apply T1|]. destruct (T2 p d Hin) as (k&E&Hk). exists k. split; [|done]. by eapply Hd.
  - rewrite Happ. apply NoDup_app. split_and!; [done| |done]. intros p Hp Hp'.
    apply gone_elem in Hp' as (d&Hin). destruct (T2 p d Hin) as (k&E&_). by destruct (Hd p d k Hin E).
Qed.

Lemma find_set n m nd es : find m (set_entry n nd es) = if decide (m = n) then (fun _ => nd) <$> find m es else find m es.
Proof.
  induction es as [|[k x] es IH]; simpl; [by case_decide|]. destruct (decide (k = n)) as [->|Hk]; simpl; repeat case_decide; subst; try done.
Qed.

Lemma find_del n m es : find m (del_entry n es) = if decide (m = n) then None else find m es.
Proof.
  induction es as [|[k x] es IH]; simpl; [by case_decide|]. unfold del_entry in *. rewrite filter_cons. simpl.
  destruct (decide (k <> n)) as [Hk|Hk]; simpl; rewrite ?IH; repeat case_decide; subst; done.
Qed.

Lemma gone_under n g p : p ∈ gone_paths (under n g) <-> exists q, p = n :: q /\ q ∈ gone_paths g.
Proof.
  unfold gone_paths, under. rewrite <- list_fmap_compose, list_elem_of_fmap. split.
  - intros ([q d]&->&Hq). exists q. split; [done|]. apply list_elem_of_fmap. by exists (q, d).
  - intros (q&->&([q' d]&->&Hq)%list_elem_of_fmap). by exists (q', d).
Qed.

Lemma effect_sub n es ces g ces' :
  find n es = Some (Dir ces) -> effect ces g ces' -> effect es (under n g) (set_entry n (Dir ces') es).
Proof.
  intros Hf [Hk Ht Hnd]. split.
  - intros [|m q]; [rewrite decide_False; [done|by intros (?&?&?)%gone_under]|].
    cbn [kind_at]. rewrite find_set. destruct (decide (m = n)) as [->|Hm].
    + rewrite Hf. simpl. rewrite Hk. apply decide_ext. rewrite gone_under. naive_solver.
    + rewrite decide_False; [done|]. intros (?&?&?)%gone_under. naive_solver.
  - intros p d ([q e]&[= -> ->]&Hin)%list_elem_of_fmap. simpl. rewrite Hf. by apply Ht.
  - unfold gone_paths, under. rewrite <- list_fmap_compose. change (NoDup ((cons n ∘ fst) <$> g)). rewrite list_fmap_compose.
    apply NoDup_fmap_2; [by intros ? ? [= ?]|done].
Qed.

Lemma effect_one n es nd :
  find n es = Some nd -> (forall q, q <> [] -> kind_at es (n :: q) = None) -> effect es [([n], is_dir nd)] (del_entry n es).
Proof.
  intros Hf Hq. split.
  - intros [|m q]; [by rewrite decide_False by set_solver|]. cbn [kind_at]. rewrite find_del.
    destruct (decide (m = n)) as [->|Hm].
    + case_decide as Hd; [done|]. specialize (Hq q). cbn [kind_at] in Hq. rewrite Hq; [done|]. intros ->. apply Hd. set_solver.
    + rewrite decide_False; [done|]. set_solver.
  - intros p d [= -> ->]%list_elem_of_singleton. simpl. rewrite Hf. destruct nd; simpl; eexists; split; try done.
  - apply NoDup_singleton.
Qed.

Section CallFacts.
Context {F : Faults}.

Lemma openat_inv here n es ces : openat_dir here n es = inr ces -> find n es = Some (Dir ces).
Proof. unfold openat_dir. destruct (fault _ _); [done|]. destruct (find n es) as [[]|]; naive_solver. Qed.

Lemma unlink_file_effect here n es es' :
  unlinkat_file here n es = inr es' -> effect es [([n], false)] es' /\ es' = del_entry n es /\ exists l i, find n es = Some (Leaf l i).
Proof.
  unfold unlinkat_file. destruct (fault _ _); [done|]. destruct (find n es) as [[l i|]|] eqn:E; [|done..]. intros [= <-].
  split_and!; [|done|by eauto]. apply (effect_one n es _ E). intros [|? q] Hq; [done|]. cbn [kind_at]. by rewrite E.
Qed.

Lemma unlink_dir_effect here n es es' :
  unlinkat_dir here n es = inr es' -> effect es [([n], true)] es' /\ es' = del_entry n es /\ find n es = Some (Dir []).
Proof.
  unfold unlinkat_dir. destruct (fault _ _); [done|]. destruct (find n es) as [[|[|]]|] eqn:E; [done| |done..]. intros [= <-].
  split_and!; [|done..]. apply (effect_one n es _ E). intros [|? q] Hq; [done|]. cbn [kind_at]. by rewrite E.
Qed.
End CallFacts.

(** ** Well-formed trees *)

(** A name the file system can hold. *)
Definition name_ok (n : name) : Prop := n <> [] /\ slash ∉ n /\ Byte.x00 ∉ n /\ n <> cs "." /\ n <> cs "..".

Inductive wf_node : node -> Prop :=
| wf_leaf l i : wf_node (Leaf l i)
| wf_dir es : NoDup es.*1 -> (forall n nd, (n, nd) ∈ es -> name_ok n /\ wf_node nd) -> wf_node (Dir es).

Lemma find_elem n es nd : find n es = Some nd -> (n, nd) ∈ es.
Proof. induction es as [|[m x] es IH]; simpl; [done|]. case_decide; [|set_solver]. intros [= ->]. subst. by left. Qed.

Lemma elem_find n es nd : NoDup es.*1 -> (n, nd) ∈ es -> find n es = Some nd.
Proof.
  induction es as [|[m x] es IH]; simpl; [by intros _ ?%not_elem_of_nil|]. intros [Hm Hnd]%NoDup_cons [[= -> ->]|Hin]%elem_of_cons.
  - by rewrite decide_True.
  - rewrite decide_False; [by apply IH|]. intros ->. apply Hm. apply list_elem_of_fmap. by exists (n, nd).
Qed.

Lemma wf_find es n nd : wf_node (Dir es) -> find n es = Some nd -> name_ok n /\ wf_node nd.
Proof. intros Hw Hf%find_elem. inversion Hw as [|? Hd Ha]; subst. by apply Ha. Qed.

Lemma set_entry_names n nd es : (set_entry n nd es).*1 = es.*1.
Proof. unfold set_entry. rewrite <- list_fmap_compose. apply list_fmap_ext. intros _ [m x] _. simpl. by case_decide. Qed.

Lemma wf_set n nd es : wf_node (Dir es) -> wf_node nd -> wf_node (Dir (set_entry n nd es)).
Proof.
  intros Hw Hn. inversion Hw as [|? Hd Ha]; subst. constructor; [by rewrite set_entry_names|].
  intros m x ([k y]&E&Hin)%list_elem_of_fmap. simpl in E. destruct (decide (k = n)); injection E as -> ->; [|by apply Ha]. subst k. split; [by apply (Ha n y)|done].
Qed.

Lemma wf_del n es : wf_node (Dir es) -> wf_node (Dir (del_entry n es)).
Proof.
  intros Hw. inversion Hw as [|? Hd Ha]; subst. constructor.
  - unfold del_entry. apply NoDup_fmap_fst; [|apply NoDup_filter; by apply NoDup_fmap_1 in Hd].
    intros x y1 y2 [_ H1]%list_elem_of_filter [_ H2]%list_elem_of_filter. apply (elem_find _ _ _ Hd) in H1, H2. congruence.
  - intros m x [_ Hin]%list_elem_of_filter. by apply Ha.
Qed.

(** How deep the tree is. *)
Fixpoint depth (nd : node) : nat :=
  match nd with
  | Leaf _ _ => O
  | Dir es => S (list_max ((fun e => depth e.2) <$> es))
  end.

Lemma depth_find es n nd : find n es = Some nd -> (depth nd < depth (Dir es))%nat.
Proof.
  intros Hin%find_elem. cbn [depth]. apply Nat.lt_succ_r.
  assert (Forall (fun k => k <= list_max ((fun e => depth e.2) <$> es))%nat ((fun e => depth e.2) <$> es)) as H by (by apply list_max_le).
  rewrite Forall_forall in H. apply H. apply list_elem_of_fmap. by exists (n, nd).
Qed.

(** The relative path of a component list. *)
Fixpoint join (p : list name) : list byte :=
  match p with
  | [] => []
  | [n] => n
  | n :: q => n ++ [slash] ++ join q
  end.

(** All names of a tree take this many bytes, separators included. *)
Fixpoint name_bytes (nd : node) : Z :=
  match nd with
  | Leaf _ _ => 0
  | Dir es => foldr Z.add 0 ((fun e => zlen e.1 + 1 + name_bytes e.2) <$> es)
  end.

Lemma name_bytes_nonneg nd : 0 <= name_bytes nd.
Proof.
  revert nd. fix IH 1. intros [l i|es]; [done|]. cbn [name_bytes]. induction es as [|[n c] es IHes]; [done|].
  rewrite fmap_cons. cbn [foldr fst snd]. pose proof (zlen_nonneg n). specialize (IH c). lia.
Qed.

Lemma join_bytes p : forall es k, kind_at es p = Some k -> zlen (join p) <= name_bytes (Dir es).
Proof.
  induction p as [|n p IHp]; intros es k; [intros _; apply (name_bytes_nonneg (Dir es))|]. cbn [kind_at]. intros Hk.
  assert (Hb : forall nd, find n es = Some nd -> zlen n + 1 + name_bytes nd <= name_bytes (Dir es)).
  { clear. intros nd. cbn [name_bytes]. induction es as [|[m c] es IH]; [done|]. rewrite fmap_cons. cbn [find foldr fst snd].
    pose proof (zlen_nonneg m). pose proof (name_bytes_nonneg c). pose proof (name_bytes_nonneg (Dir es)) as Hr. cbn [name_bytes] in Hr.
    destruct (decide (m = n)) as [->|]; [intros [= ->]; lia|]. intros Hf%IH. lia. }
  destruct (find n es) as [nd|]; [|done]. specialize (Hb nd eq_refl). destruct nd as [l i|ces].
  - destruct p; [|done]. simpl in *. lia.
  - apply IHp in Hk. destruct p as [|m p]; [pose proof (name_bytes_nonneg (Dir ces)); change (zlen n <= name_bytes (Dir es)); lia|].
    change (zlen (n ++ [slash] ++ join (m :: p)) <= name_bytes (Dir es)). rewrite !zlen_app. change (zlen [slash]) with 1. lia.
Qed.

(** A decidable form of well-formedness. *)
Definition name_okb (n : name) : bool :=
  bool_decide (n <> []) && bool_decide (slash ∉ n) && bool_decide (Byte.x00 ∉ n) && bool_decide (n <> cs ".") && bool_decide (n <> cs "..").
Fixpoint wf_nodeb (nd : node) : bool :=
  match nd with
  | Leaf _ _ => true
  | Dir es => bool_decide (NoDup es.*1) && forallb (fun e => name_okb e.1 && wf_nodeb e.2) es
  end.

Lemma wf_nodeb_sound nd : wf_nodeb nd = true -> wf_node nd.
Proof.
  revert nd. fix IH 1. intros [l i|es]; [constructor|]. cbn [wf_nodeb]. intros [Hnd%bool_decide_eq_true Hall]%andb_true_iff.
  constructor; [done|]. clear Hnd. induction es as [|[m c] es IHes]; [by intros ? ? ?%not_elem_of_nil|].
  cbn [forallb fst snd] in Hall. apply andb_true_iff in Hall as [[Hm Hc]%andb_true_iff Hall].
  intros n nd [[= -> ->]|Hin]%elem_of_cons; [|by apply IHes].
  split; [|by apply IH]. unfold name_okb in Hm. rewrite !andb_true_iff, !bool_decide_eq_true in Hm. unfold name_ok. tauto.
Qed.

(** A small destination. *)
Definition demo_tree : entries :=
  [(cs "k", Dir [(cs "f", Leaf false 1); (cs "g", Leaf false 2); (cs "snap", Dir [(cs "z", Leaf false 9)])]);
   (cs "b", Leaf false 3); (cs "a", Dir [(cs "x", Leaf true 4); (cs "y", Dir [])])].
Lemma demo_tree_wf : wf_node (Dir demo_tree).
Proof. apply wf_nodeb_sound. by vm_compute. Qed.
