(* ===== verification/DeleteWalk.v ===== *)
(** The deletion walk of src/shared/delete.c: which entries of the destination
    are extraneous, in which order they go, and the same walk in the listing
    mode of a dry run. *)

From stdpp Require Import sorting.
From S2P Require Import Prelude Alloc CStr Paths ArrayList PathIndex FilterParse FilterRules DeleteTree.

(** delete.h [DeleteSkipEntry], [DeleteDirEntry]; delete.c [DeleteBudget],
    [DeleteWalkMode] and the parts of [DeleteWalkState] that change.
    [observed] are the paths the observer was called with. *)
Record DeleteSkipEntry := MkSkip { prefix : list byte; top_level_only : bool }.
Record DeleteDirEntry := MkEntry { e_name : name; e_is_dir : bool }.
Record DeleteBudget := MkBudget { max_delete : Z; deleted : Z; skipped : Z; limit_hit : bool }.
Inductive DeleteWalkMode := DELETE_WALK_MODE_DELETE | DELETE_WALK_MODE_LIST.
Record DeleteWalkState := MkState {
  budget : DeleteBudget; out : ArrayList (list byte); recorded : Z; observed : list (list byte) }.
Inductive DeleteWalkResult := DELETE_WALK_OK | DELETE_WALK_LIMIT_REACHED | DELETE_WALK_ERROR.

Definition note_skipped (b : DeleteBudget) : DeleteBudget := MkBudget (max_delete b) (deleted b) (u64 (skipped b + 1)) true.
Definition note_deleted (b : DeleteBudget) : DeleteBudget := MkBudget (max_delete b) (u64 (deleted b + 1)) (skipped b) (limit_hit b).
Definition set_budget (st : DeleteWalkState) b : DeleteWalkState := MkState b (out st) (recorded st) (observed st).
Definition add_out (st : DeleteWalkState) o : DeleteWalkState := MkState (budget st) o (u64 (recorded st + 1)) (observed st).
Definition observe (st : DeleteWalkState) p : DeleteWalkState := MkState (budget st) (out st) (recorded st) (observed st ++ [p]).

(** delete.c [path_under_skip_prefix] *)
Definition path_under_skip_prefix (child_rel : list byte) (at_root : bool) (skips : list DeleteSkipEntry) : bool :=
  existsb (fun s =>
    negb (top_level_only s && negb at_root) &&
    ((strncmp child_rel (prefix s) (length (prefix s)) =? 0) &&
     (at_end child_rel (length (prefix s)) || char_is child_rel (length (prefix s)) slash))) skips.

(** delete.c [delete_name_cmp], [delete_dir_entry_cmp_desc], [delete_dir_entry_cmp_asc] *)
Fixpoint delete_name_cmp (a b : list byte) : Z :=
  match a, b with
  | [], [] => 0
  | [], y :: _ => 0 - bZ y
  | x :: _, [] => bZ x - 0
  | x :: a, y :: b => if negb (bZ x =? 0) && (bZ x =? bZ y) then delete_name_cmp a b else bZ x - bZ y
  end.
Definition delete_dir_entry_cmp_desc (a b : DeleteDirEntry) : Z :=
  if negb (Bool.eqb (e_is_dir a) (e_is_dir b)) then (if e_is_dir a then -1 else 1)
  else - delete_name_cmp (e_name a) (e_name b).
Definition delete_dir_entry_cmp_asc (a b : DeleteDirEntry) : Z := delete_name_cmp (e_name a) (e_name b).

(** [qsort] by [delete_dir_entry_cmp_desc] *)
Definition before (a b : DeleteDirEntry) : Prop := delete_dir_entry_cmp_desc a b <= 0.
#[global] Instance before_dec a b : Decision (before a b).
Proof. unfold before. apply _. Defined.
Definition sort_entries (l : list DeleteDirEntry) : list DeleteDirEntry := if zlen l >? 1 then merge_sort before l else l.

Section Walk.
Context `{Heap} `{XXHash64} {F : Faults}.

(** delete.c [build_keep_index], [keep_is_dir], [keep_is_file], [is_synced_dir] *)
Definition build_keep_index (manifest : list (list byte)) : outcome PathIndex :=
  if zlen manifest <=? 0 then path_index_build [] 0 else path_index_build manifest (zlen manifest).
Definition keep_is_dir (index : PathIndex) (rel_path : list byte) : outcome bool :=
  c ← path_index_contains index rel_path;
  if c : bool then Ret true else path_index_has_descendant index rel_path.
Definition keep_is_file (index : PathIndex) (rel_path : list byte) : outcome bool := path_index_contains index rel_path.
Definition is_synced_dir (dirs : option PathIndex) (rel : list byte) : outcome bool :=
  match dirs with
  | None => Ret true
  | Some dirs => path_index_contains dirs (if at_end rel 0 then cs "." else rel)
  end.

(** delete.c [delete_dir_entries_collect]: [Fail] on a failed scan or
    allocation; the flag is [*operation_ok]. *)
Definition sizeof_DeleteDirEntry : Z := 16.
Fixpoint collect_loop (here : list name) (es : entries) (names : list name) (acc : list DeleteDirEntry) (capacity : Z) (operation_ok : bool)
  : outcome (list DeleteDirEntry * bool) :=
  match names with
  | [] => Ret (acc, operation_ok)
  | n :: names =>
      if (strcmp n (cs ".") =? 0) || (strcmp n (cs "..") =? 0) then collect_loop here es names acc capacity operation_ok
      else match fstatat_is_dir here n es with
      | inl e => collect_loop here es names acc capacity (operation_ok && bool_decide (e = ENOENT))
      | inr d =>
          let grow := zlen acc =? capacity in
          let next := if grow then (if capacity =? 0 then 16 else capacity * 2) else capacity in
          check (negb grow || malloc_ok (next * sizeof_DeleteDirEntry));;
          copy ← str_dup (Some n);
          collect_loop here es names (acc ++ [MkEntry copy d]) next operation_ok
      end
  end.
Definition delete_dir_entries_collect (here : list name) (es : entries) : outcome (list DeleteDirEntry * bool) :=
  match fault SysScan here with
  | Some _ => Fail
  | None => collect_loop here es ([cs "."; cs ".."] ++ es.*1) [] 0 true
  end.

(** ** The walk *)

(** The arrays [shielded] and [is_extra]; [Plain] is neither. *)
Inductive class := Shielded | Extra | Plain.
#[global] Instance class_eq_dec : EqDecision class.
Proof. solve_decision. Defined.

(** What changes while one directory is processed: [operation_ok],
    [local_survives], the walk state and the directory itself. *)
Record frame := MkFrame { operation_ok : bool; local_survives : bool; state : DeleteWalkState; dir : entries }.
Definition failed (f : frame) : frame := MkFrame false (local_survives f) (state f) (dir f).
Definition survivor (f : frame) : frame := MkFrame (operation_ok f) true (state f) (dir f).
Definition set_state (f : frame) st : frame := MkFrame (operation_ok f) (local_survives f) st (dir f).
Definition set_dir (f : frame) es : frame := MkFrame (operation_ok f) (local_survives f) (state f) es.
Definition and_ok (f : frame) (b : bool) : frame := MkFrame (operation_ok f && b) (local_survives f) (state f) (dir f).

Section Pass.
Context (mode : DeleteWalkMode) (keep : PathIndex) (dirs : option PathIndex) (skips : list DeleteSkipEntry)
  (protect_rules : option FilterRuleList).

(** delete.c [delete_walk_fd], the classification of one entry; the flag is
    [local_survives]. *)
Definition is_protected (child_rel leaf : list byte) (d : bool) : outcome bool :=
  match protect_rules with
  | None => Ret false
  | Some _ => a ← filter_rules_apply_side protect_rules child_rel leaf d FILTER_SIDE_RECEIVER;
              Ret (bool_decide (a = FILTER_ACTION_PROTECT))
  end.
Definition classify_child (child_rel : list byte) (at_root deletable : bool) (e : DeleteDirEntry) : outcome class :=
  if path_under_skip_prefix child_rel at_root skips then Ret Shielded
  else
    p ← is_protected child_rel (e_name e) (e_is_dir e);
    if p : bool then Ret Shielded
    else if e_is_dir e then
      child_synced ← (match dirs with None => Ret false | Some dirs => path_index_contains dirs child_rel end);
      if negb deletable || child_synced then Ret Plain
      else k ← keep_is_dir keep child_rel; Ret (if k : bool then Plain else Extra)
    else if negb deletable then Ret Plain
    else k ← keep_is_file keep child_rel; Ret (if k : bool then Plain else Extra).

(** The loop over all entries; an entry whose path cannot be built is neither
    shielded nor extra and does not count as a survivor. *)
Fixpoint classify (rel_path : list byte) (deletable : bool) (l : list DeleteDirEntry) (f : frame)
  : outcome (list (DeleteDirEntry * class) * frame) :=
  match l with
  | [] => Ret ([], f)
  | e :: l =>
      match path_cat (Some rel_path) (Some (e_name e)) with
      | Stuck => Stuck
      | Fail => '(cl, f) ← classify rel_path deletable l (failed f); Ret ((e, Plain) :: cl, f)
      | Ret child_rel =>
          c ← classify_child child_rel (at_end rel_path 0) deletable e;
          '(cl, f) ← classify rel_path deletable l (if bool_decide (c = Extra) then f else survivor f);
          Ret ((e, c) :: cl, f)
      end
  end.

(** The descent into one child directory, given the walk below it. *)
Definition descend (rec : list byte -> list name -> bool -> DeleteWalkState -> entries -> outcome (bool * bool * DeleteWalkState * entries))
    (here : list name) (deletable : bool) (child_rel : list byte) (n : name) (f : frame) : outcome (frame * bool) :=
  match openat_dir here n (dir f) with
  | inl e => Ret (and_ok f (bool_decide (e = ENOENT)), false)
  | inr ces =>
      '(ok, all_removed, st, ces) ← rec child_rel (here ++ [n]) deletable (state f) ces;
      Ret (set_dir (set_state (and_ok f ok) st) (set_entry n (Dir ces) (dir f)), all_removed)
  end.

(** The end of pass 1: record or remove an emptied directory. *)
Definition remove_dir (here : list name) (child_rel : list byte) (n : name) (f : frame) : outcome frame :=
  let st := state f in
  match mode with
  | DELETE_WALK_MODE_LIST =>
      if negb (malloc_ok (zlen child_rel + 2)) then Ret (failed f)
      else match array_list_add (Some (out st)) (child_rel ++ [slash]) with
           | Ret o => Ret (set_state f (add_out st o))
           | Fail => Ret (failed f)
           | Stuck => Stuck
           end
  | DELETE_WALK_MODE_DELETE =>
      if deleted (budget st) >=? max_delete (budget st) then Ret (survivor (set_state f (set_budget st (note_skipped (budget st)))))
      else match unlinkat_dir here n (dir f) with
      | inl e => Ret (survivor (and_ok f (bool_decide (e = ENOENT \/ e = ENOTEMPTY \/ e = EEXIST))))
      | inr es =>
          let reported := if malloc_ok (zlen child_rel + 2) then child_rel ++ [slash] else child_rel in
          Ret (set_dir (set_state f (observe (set_budget st (note_deleted (budget st))) reported)) es)
      end
  end.

(** Pass 1, extraneous subdirectories *)
Definition pass1 rec (here : list name) (rel_path : list byte) (deletable : bool) (ec : DeleteDirEntry * class) (f : frame) : outcome frame :=
  let n := e_name ec.1 in
  if negb (bool_decide (ec.2 = Extra)) then Ret f
  else match path_cat (Some rel_path) (Some n) with
  | Stuck => Stuck
  | Fail => Ret (failed f)
  | Ret child_rel =>
      '(f, child_all_removed) ← descend rec here deletable child_rel n f;
      if child_all_removed && deletable then remove_dir here child_rel n f else Ret (survivor f)
  end.

(** Pass 2, extraneous files *)
Definition pass2 (here : list name) (rel_path : list byte) (ec : DeleteDirEntry * class) (f : frame) : outcome frame :=
  let n := e_name ec.1 in
  let st := state f in
  if negb (bool_decide (ec.2 = Extra)) then Ret f
  else match mode with
  | DELETE_WALK_MODE_LIST =>
      match path_cat (Some rel_path) (Some n) with
      | Stuck => Stuck
      | Fail => Ret (failed f)
      | Ret child_rel =>
          match (copy ← str_dup (Some child_rel); array_list_add (Some (out st)) copy) with
          | Ret o => Ret (set_state f (add_out st o))
          | Fail => Ret (failed f)
          | Stuck => Stuck
          end
      end
  | DELETE_WALK_MODE_DELETE =>
      if deleted (budget st) >=? max_delete (budget st) then Ret (survivor (set_state f (set_budget st (note_skipped (budget st)))))
      else match unlinkat_file here n (dir f) with
      | inl e => Ret (survivor (and_ok f (bool_decide (e = ENOENT))))
      | inr es =>
          let st := set_budget st (note_deleted (budget st)) in
          match path_cat (Some rel_path) (Some n) with
          | Stuck => Stuck
          | Fail => Ret (set_dir (set_state f st) es)
          | Ret child_rel => Ret (set_dir (set_state f (observe st child_rel)) es)
          end
      end
  end.

(** Pass 3, kept subdirectories *)
Definition pass3 rec (here : list name) (rel_path : list byte) (deletable : bool) (ec : DeleteDirEntry * class) (f : frame) : outcome frame :=
  let n := e_name ec.1 in
  if negb (bool_decide (ec.2 = Plain)) then Ret f
  else match path_cat (Some rel_path) (Some n) with
  | Stuck => Stuck
  | Fail => Ret (failed f)
  | Ret child_rel => '(f, _) ← descend rec here deletable child_rel n f; Ret (survivor f)
  end.

(** [entries[0 .. dir_count)] and the rest *)
Definition split_dirs (cl : list (DeleteDirEntry * class)) : list (DeleteDirEntry * class) * list (DeleteDirEntry * class) :=
  let fix go cl := match cl with
    | ec :: rest => if e_is_dir ec.1 then let '(ds, fs) := go rest in (ec :: ds, fs) else ([], cl)
    | [] => ([], [])
    end in go cl.

(** delete.c [delete_walk_fd]: the results are its return value,
    [*all_removed], the walk state and the directory afterwards.  [here] is the
    place of the directory, [fuel] bounds the depth of the descent. *)
Fixpoint delete_walk_fd (fuel : nat) (rel_path : list byte) (here : list name) (parent_deletable : bool)
    (st : DeleteWalkState) (es : entries) : outcome (bool * bool * DeleteWalkState * entries) :=
  match fuel with
  | O => Stuck
  | S fuel =>
      match delete_dir_entries_collect here es with
      | Stuck => Stuck
      | Fail => Ret (false, false, st, es)
      | Ret (l, collect_ok) =>
          let count := zlen l in
          let flags := if count =? 0 then 1 else count in
          if negb (malloc_ok flags) then Ret (false, false, st, es)
          else
            deletable ← (if parent_deletable then Ret true else is_synced_dir dirs rel_path);
            '(cl, f) ← classify rel_path deletable (sort_entries l) (MkFrame collect_ok false st es);
            let '(ds, fs) := split_dirs cl in
            f ← foldM (pass1 (delete_walk_fd fuel) here rel_path deletable) ds f;
            f ← foldM (pass2 here rel_path) fs f;
            f ← foldM (pass3 (delete_walk_fd fuel) here rel_path deletable) (rev ds) f;
            Ret (operation_ok f, negb (local_survives f), state f, dir f)
      end
  end.
End Pass.

(** delete.c [delete_extras_list] and [delete_extras_limited_observed] on the
    opened destination root ([None]: it could not be opened). *)
Definition build_indexes (manifest : list (list byte)) (synced_dirs : option (list (list byte))) : outcome (PathIndex * option PathIndex) :=
  keep ← build_keep_index manifest;
  match synced_dirs with
  | None => Ret (keep, None)
  | Some l => dirs ← path_index_build l (zlen l); Ret (keep, Some dirs)
  end.

Definition delete_extras_list (root : option entries) (manifest : list (list byte)) (synced_dirs : option (list (list byte)))
    (skips : list DeleteSkipEntry) (protect_rules : option FilterRuleList) (o : ArrayList (list byte))
  : outcome (bool * ArrayList (list byte) * Z) :=
  match build_indexes manifest synced_dirs with
  | Stuck => Stuck
  | Fail => Ret (false, o, 0)
  | Ret (keep, dirs) =>
      match root with
      | None => Ret (false, o, 0)
      | Some es =>
          '(ok, _, st, _) ← delete_walk_fd DELETE_WALK_MODE_LIST keep dirs skips protect_rules (depth (Dir es)) [] [] false
                              (MkState (MkBudget 0 0 0 false) o 0 []) es;
          Ret (ok, out st, recorded st)
      end
  end.

Record walk_report := MkReport { result : DeleteWalkResult; deleted_out : Z; skipped_out : Z; seen : list (list byte) }.
Definition delete_extras_limited_observed (root : option entries) (manifest : list (list byte)) (synced_dirs : option (list (list byte)))
    (max : Z) (skips : list DeleteSkipEntry) (protect_rules : option FilterRuleList) : outcome (walk_report * option entries) :=
  match build_indexes manifest synced_dirs with
  | Stuck => Stuck
  | Fail => Ret (MkReport DELETE_WALK_ERROR 0 0 [], root)
  | Ret (keep, dirs) =>
      match root with
      | None => Ret (MkReport DELETE_WALK_ERROR 0 0 [], None)
      | Some es =>
          '(ok, _, st, es) ← delete_walk_fd DELETE_WALK_MODE_DELETE keep dirs skips protect_rules (depth (Dir es)) [] [] false
                               (MkState (MkBudget max 0 0 false) (MkArrayList [] 0 0 false) 0 []) es;
          let b := budget st in
          Ret (MkReport (if negb ok then DELETE_WALK_ERROR else if limit_hit b then DELETE_WALK_LIMIT_REACHED else DELETE_WALK_OK)
                 (deleted b) (skipped b) (observed st), Some es)
      end
  end.

Definition delete_extras_limited := delete_extras_limited_observed.
Definition delete_extras (root : option entries) (manifest : list (list byte)) : outcome (bool * option entries) :=
  '(r, root) ← delete_extras_limited root manifest None SIZE_MAX [] None;
  Ret (match result r with DELETE_WALK_OK => true | _ => false end, root).
End Walk.
