(* ===== verification/DeleteSafe.v ===== *)
(** What the deletion walk may remove: the policy of src/shared/delete.c as a
    predicate on paths, and the proof that the walk removes nothing else,
    whatever fails on the way. *)

From S2P Require Import Prelude Alloc CStr Paths ArrayList PathIndex FilterParse FilterRules DeleteTree DeleteWalk.

(** ** Relative paths of component lists *)

Lemma join_cons n q : q <> [] -> join (n :: q) = n ++ [slash] ++ join q.
Proof. by destruct q. Qed.

Lemma join_snoc p n : p <> [] -> join (p ++ [n]) = join p ++ [slash] ++ n.
Proof.
  induction p as [|m p IH]; [done|]. intros _. destruct (decide (p = [])) as [->|Hp]; [done|].
  rewrite <- app_comm_cons, !join_cons by (done || by destruct p). rewrite IH by done. by rewrite <- !app_assoc.
Qed.

Lemma name_ok_cons n : name_ok n -> exists c t, n = c :: t /\ c <> slash.
Proof. intros (Hn&Hs&_). destruct n as [|c t]; [done|]. exists c, t. split; [done|]. intros ->. apply Hs. by left. Qed.

Lemma join_nonempty p : Forall name_ok p -> p <> [] -> join p <> [].
Proof.
  intros Hp Hne. destruct p as [|n p]; [done|]. apply Forall_cons in Hp as [(c&t&->&_)%name_ok_cons _].
  destruct p; done.
Qed.

Lemma join_last p : Forall name_ok p -> last (join p) <> Some slash.
Proof.
  induction p as [|n p IH]; [done|]. intros [(_&Hs&_) Hp]%Forall_cons.
  destruct (decide (p = [])) as [->|Hne].
  - simpl. intros Hl. apply Hs. by eapply last_Some_elem_of.
  - rewrite join_cons by done. pose proof (join_nonempty p Hp Hne). specialize (IH Hp). rewrite !last_app.
    destruct (last (join p)) eqn:E; [done|]. by apply last_None in E.
Qed.

Section Joins.
Context `{Heap}.

Lemma path_cat_join here n :
  Forall name_ok here -> name_ok n ->
  match path_cat (Some (join here)) (Some n) with Ret r => r = join (here ++ [n]) | Fail => True | Stuck => False end.
Proof.
  intros Hh Hn. destruct (path_cat _ _) as [r| |] eqn:E; [|done|by apply path_cat_not_stuck in E].
  destruct (decide (here = [])) as [->|Hne].
  - unfold path_cat in E. simpl in E. unfold str_dup in E. simpl in E. destruct (malloc_ok _); [|done]. by injection E as <-.
  - rewrite join_snoc by done. apply path_cat_ret in E as [[E _]|[[-> _]|(a&b&->&Ha&Hb)]].
    + by apply join_nonempty in E.
    + by destruct Hn.
    + destruct (name_ok_cons n Hn) as (c&t&->&Hc). destruct Hb as [<-|[= -> _]]; [|done].
      destruct Ha as [->|Ha]; [done|]. pose proof (join_last here Hh) as Hl. rewrite Ha, last_snoc in Hl. done.
Qed.

Lemma at_end_join here : Forall name_ok here -> at_end (join here) 0 = bool_decide (here = []).
Proof.
  intros Hh. unfold at_end. apply bool_decide_ext. rewrite <- head_lookup, head_None.
  split; [|by intros ->]. intros E. destruct (decide (here = [])); [done|]. by apply join_nonempty in E.
Qed.
End Joins.

(** ** The policy *)

Section Policy.
Context `{Heap}.
Context (manifest : list (list byte)) (synced : option (list (list byte)))
  (skips : list DeleteSkipEntry) (protect_rules : option FilterRuleList).
Implicit Types (here p : list name) (n : name) (d : bool).

Definition kept_file p : bool := bool_decide (join p ∈ manifest).
Definition kept_dir p : bool := kept_file p || existsb (fun e => bool_decide ((join p ++ [slash]) `prefix_of` e)) manifest.
Definition synced_dir p : bool :=
  match synced with None => true | Some l => bool_decide ((if bool_decide (p = []) then cs "." else join p) ∈ l) end.
Definition synced_child p : bool := match synced with None => false | Some l => bool_decide (join p ∈ l) end.
Definition rule_protected p n d : bool :=
  match is_protected protect_rules (join p) n d with Ret b => b | _ => false end.
Definition shielded here n d : bool :=
  path_under_skip_prefix (join (here ++ [n])) (bool_decide (here = [])) skips || rule_protected (here ++ [n]) n d.

(** The fate of one entry of the directory [here]. *)
Definition verdict here (deletable : bool) n d : class :=
  if shielded here n d then Shielded
  else if d then (if negb deletable || synced_child (here ++ [n]) then Plain else if kept_dir (here ++ [n]) then Plain else Extra)
  else if negb deletable then Plain
  else if kept_file (here ++ [n]) then Plain else Extra.

(** [p], relative to [here], is extraneous: no directory on the way is
    shielded, and the entry itself is neither shielded nor kept. *)
Fixpoint extra_in here (deletable : bool) p d : Prop :=
  match p with
  | [] => False
  | [n] => verdict here deletable n d = Extra
  | n :: q => verdict here deletable n true <> Shielded /\ extra_in (here ++ [n]) (deletable || synced_dir (here ++ [n])) q d
  end.

Lemma extra_in_cons here deletable n q d :
  q <> [] -> extra_in here deletable (n :: q) d <->
  verdict here deletable n true <> Shielded /\ extra_in (here ++ [n]) (deletable || synced_dir (here ++ [n])) q d.
Proof. by destruct q. Qed.

Lemma extra_in_ne here deletable p d : extra_in here deletable p d -> p <> [].
Proof. by destruct p. Qed.

(** What makes a path extraneous. *)
Lemma extra_in_last here deletable p d :
  extra_in here deletable p d -> exists q n dl, p = q ++ [n] /\ verdict (here ++ q) dl n d = Extra.
Proof.
  revert here deletable. induction p as [|n q IH]; intros here deletable; [done|].
  destruct (decide (q = [])) as [->|Hq].
  - intros Hx. exists [], n, deletable. rewrite app_nil_r. done.
  - intros [_ Hx]%extra_in_cons; [|done]. destruct (IH _ _ Hx) as (q'&m&dl&->&Hv). exists (n :: q'), m, dl.
    split; [done|]. by rewrite <- app_assoc in Hv.
Qed.

Lemma extra_in_clear here deletable q n r d :
  extra_in here deletable (q ++ n :: r) d -> shielded (here ++ q) n (if bool_decide (r = []) then d else true) = false.
Proof.
  assert (Hs : forall h dl m e, verdict h dl m e <> Shielded -> shielded h m e = false).
  { intros h dl m e. unfold verdict. by destruct (shielded h m e). }
  revert here deletable. induction q as [|m q IH]; intros here deletable.
  - simpl. rewrite app_nil_r. case_bool_decide as Hr; [subst r; intros Hx; eapply (Hs _ deletable); congruence|].
    destruct r; [done|]. intros [Hv _]. by eapply Hs.
  - rewrite <- app_comm_cons. intros [_ Hx]%extra_in_cons; [|by destruct q].
    specialize (IH _ _ Hx). by rewrite <- app_assoc in IH.
Qed.

Lemma extra_in_synced here deletable p d :
  extra_in here deletable p d -> deletable = true \/ exists q r, p = q ++ r /\ q <> [] /\ r <> [] /\ synced_dir (here ++ q) = true.
Proof.
  revert here deletable. induction p as [|n p IH]; intros here deletable; [done|].
  destruct (decide (p = [])) as [->|Hp].
  - destruct deletable; [by left|]. simpl. unfold verdict. by destruct (shielded _ _ _), d.
  - intros [_ Hx]%extra_in_cons; [|done]. destruct deletable; [by left|]. right. simpl in Hx.
    destruct (IH _ _ Hx) as [Hs|(q&r&->&Hq&Hr&Hs)].
    + by exists [n], p.
    + exists (n :: q), r. by rewrite <- app_assoc in Hs.
Qed.

Lemma extra_in_unkept here deletable p d : extra_in here deletable p d -> join (here ++ p) ∉ manifest.
Proof.
  intros (q&n&dl&->&Hv)%extra_in_last Hm. revert Hv. unfold verdict, kept_dir, kept_file. rewrite <- app_assoc, bool_decide_eq_true_2 by done.
  destruct (shielded _ _ _), d, dl; simpl; try done; by destruct (synced_child _).
Qed.

(** The indexes hold the manifest and the synchronized directories. *)
Definition indexes `{XXHash64} (keep : PathIndex) (dirs : option PathIndex) : Prop :=
  IndexOf keep manifest /\
  match dirs, synced with None, None => True | Some ix, Some l => IndexOf ix l | _, _ => False end.

Section Classify.
Context `{XXHash64} (keep : PathIndex) (dirs : option PathIndex) (Hix : indexes keep dirs).

Lemma is_synced_spec here : Forall name_ok here -> is_synced_dir dirs (join here) = Ret (synced_dir here).
Proof.
  intros Hh. destruct Hix as [_ Hd]. unfold is_synced_dir, synced_dir. rewrite at_end_join by done.
  destruct dirs as [ix|], synced as [l|]; try done. by rewrite (index_contains (IndexOf := Hd)).
Qed.

Lemma keep_dir_spec p : Forall name_ok p -> p <> [] -> keep_is_dir keep (join p) = Ret (kept_dir p).
Proof.
  intros Hp Hne. destruct Hix as [Hk _]. unfold keep_is_dir, kept_dir, kept_file. rewrite index_contains. simpl mbind.
  case_bool_decide; [done|]. destruct (index_descendant (IndexOf := Hk) (join p)) as (b&->&Hb). f_equal. simpl.
  apply eq_true_iff_eq. rewrite Hb, existsb_exists. unfold has_child. setoid_rewrite bool_decide_eq_true.
  setoid_rewrite <- list_elem_of_In. split; [by intros [_ ?]|]. intros Hex. split; [by apply join_nonempty|done].
Qed.

Lemma is_protected_spec p n d : is_protected protect_rules (join p) n d = Ret (rule_protected p n d).
Proof.
  unfold rule_protected, is_protected. destruct protect_rules as [l|]; [|done].
  by destruct (filter_rules_total (Some l) (join p) n d FILTER_SIDE_RECEIVER) as [a ->].
Qed.

Lemma classify_child_spec here n d deletable :
  Forall name_ok here -> name_ok n ->
  classify_child keep dirs skips protect_rules (join (here ++ [n])) (at_end (join here) 0) deletable (MkEntry n d) =
  Ret (verdict here deletable n d).
Proof.
  intros Hh Hn. assert (Hp : Forall name_ok (here ++ [n])) by (by apply Forall_app_2; [|apply Forall_singleton]).
  assert (Hne : here ++ [n] <> []) by (by destruct here).
  unfold classify_child, verdict, shielded. rewrite at_end_join by done.
  destruct (path_under_skip_prefix _ _ _); [done|]. simpl orb. simpl e_name. simpl e_is_dir. rewrite is_protected_spec. simpl mbind.
  destruct (rule_protected _ _ _); [done|]. destruct d.
  - assert (match dirs with None => Ret false | Some dirs => path_index_contains dirs (join (here ++ [n])) end
      = Ret (synced_child (here ++ [n]))) as ->.
    { destruct Hix as [_ Hd]. unfold synced_child. destruct dirs as [ix|], synced as [l|]; try done. by rewrite (index_contains (IndexOf := Hd)). }
    simpl mbind. destruct (negb deletable || _); [done|]. rewrite keep_dir_spec by done. done.
  - destruct (negb deletable); [done|]. unfold keep_is_file. destruct Hix as [Hk _]. by rewrite index_contains.
Qed.
End Classify.
End Policy.

(** ** Sorting and collecting *)

Lemma delete_name_cmp_opp a b : delete_name_cmp a b = - delete_name_cmp b a.
Proof.
  revert b. induction a as [|x a IH]; intros [|y b]; cbn [delete_name_cmp]; try lia.
  rewrite (Z.eqb_sym (bZ y) (bZ x)). destruct (Z.eqb_spec (bZ x) (bZ y)) as [E|E]; rewrite ?andb_true_r, ?andb_false_r; [|lia].
  rewrite <- E. destruct (bZ x =? 0); simpl negb; cbn [andb]; [lia|apply IH].
Qed.

#[global] Instance before_total : Total before.
Proof.
  intros [n d] [m e]. unfold before, delete_dir_entry_cmp_desc. simpl. rewrite (delete_name_cmp_opp m n).
  pose proof (Z.le_ge_cases (delete_name_cmp n m) 0). destruct d, e; cbn; lia.
Qed.

Lemma sort_entries_perm l : sort_entries l ≡ₚ l.
Proof. unfold sort_entries. destruct (_ >? _); [apply merge_sort_Permutation|done]. Qed.

Lemma sort_entries_sorted l : Sorted before (sort_entries l).
Proof.
  unfold sort_entries. destruct (Z.gtb_spec (zlen l) 1); [apply Sorted_merge_sort; apply _|].
  destruct l as [|x [|y l]]; [constructor|by repeat constructor|rewrite !zlen_cons in *; pose proof (zlen_nonneg l); lia].
Qed.

(** After the first file there are only files. *)
Lemma sorted_files l : Sorted before l -> forall e t, l = e :: t -> e_is_dir e = false -> Forall (fun e => e_is_dir e = false) l.
Proof.
  induction 1 as [|x l Hs IH Hd]; intros e t [= -> ->] He. constructor; [done|].
  destruct t as [|y t]; [constructor|]. apply (IH y t); [done|]. inversion Hd as [|? ? Hb]; subst.
  unfold before, delete_dir_entry_cmp_desc in Hb. rewrite He in Hb. destruct (e_is_dir y); [simpl in Hb; lia|done].
Qed.

Lemma split_dirs_cons ec cl :
  split_dirs (ec :: cl) = if e_is_dir ec.1 then let '(ds, fs) := split_dirs cl in (ec :: ds, fs) else ([], ec :: cl).
Proof. done. Qed.

Lemma split_dirs_spec cl :
  Sorted before cl.*1 ->
  exists ds fs, split_dirs cl = (ds, fs) /\ cl = ds ++ fs /\
    Forall (fun ec => e_is_dir ec.1 = true) ds /\ Forall (fun ec => e_is_dir ec.1 = false) fs.
Proof.
  induction cl as [|[e c] cl IH]; intros Hs; [by exists [], []|]. rewrite split_dirs_cons. cbn [fst].
  destruct (e_is_dir e) eqn:Ed.
  - destruct IH as (ds&fs&->&->&Hd&Hf); [by inversion Hs|].
    exists ((e, c) :: ds), fs. split_and!; try done. by constructor.
  - exists [], ((e, c) :: cl). split_and!; try done.
    pose proof (sorted_files _ Hs e cl.*1 eq_refl Ed) as Hf. apply Forall_fmap in Hf. exact Hf.
Qed.

Section Collect.
Context `{Heap} {F : Faults}.

Lemma collect_names here es (P : DeleteDirEntry -> Prop) :
  (forall n d, n ∈ es.*1 -> n <> cs "." -> n <> cs ".." -> P (MkEntry n d)) ->
  match delete_dir_entries_collect here es with Ret (l, _) => Forall P l | Fail => True | Stuck => False end.
Proof.
  intros HP. unfold delete_dir_entries_collect. destruct (fault SysScan here); [done|].
  assert (Hgen : forall names acc cap ok, (forall n, n ∈ names -> n = cs "." \/ n = cs ".." \/ n ∈ es.*1) -> Forall P acc ->
    match collect_loop here es names acc cap ok with Ret (l, _) => Forall P l | Fail => True | Stuck => False end).
  { induction names as [|n names IH]; intros acc cap ok Hn Hacc; cbn [collect_loop]; [done|].
    assert (Hrest : forall m, m ∈ names -> m = cs "." \/ m = cs ".." \/ m ∈ es.*1) by (intros; apply Hn; by right).
    destruct (Z.eqb_spec (strcmp n (cs ".")) 0) as [_|E1]; [by apply IH|].
    destruct (Z.eqb_spec (strcmp n (cs "..")) 0) as [_|E2]; [by apply IH|]. simpl orb. cbv iota.
    destruct (fstatat_is_dir here n es) as [e|d]; [by apply IH|].
    destruct (_ || _); [|done]. simpl. unfold str_dup. simpl. destruct (malloc_ok (zlen n + 1)); [|done]. simpl.
    apply IH; [done|]. apply Forall_app_2; [done|]. apply Forall_singleton. rewrite strcmp_eq in E1, E2.
    apply HP; [|done..]. destruct (Hn n) as [?|[?|?]]; [by left|done..]. }
  apply Hgen; [|done]. set_solver.
Qed.
End Collect.

(** ** Nothing but extras *)

Definition budget_ok (b : DeleteBudget) : Prop := 0 <= deleted b <= max_delete b /\ max_delete b <= SIZE_MAX.

(** [b'] is [b] after the removals [g] *)
Definition charged (b : DeleteBudget) (g : list removal) (b' : DeleteBudget) : Prop :=
  max_delete b' = max_delete b /\ deleted b' = deleted b + zlen g /\ budget_ok b'.

Lemma spent_refl b : budget_ok b -> charged b [] b.
Proof. intros Hb. unfold charged, zlen. simpl. split_and!; [done|lia|done]. Qed.

Lemma spent_trans b g b1 g' b2 : charged b g b1 -> charged b1 g' b2 -> charged b (g ++ g') b2.
Proof. unfold charged. rewrite zlen_app. intros (?&?&_) (?&?&?). split_and!; [congruence|lia|done]. Qed.

Lemma charged_skip b g b' : charged b g b' -> charged b g (note_skipped b').
Proof. done. Qed.

Lemma charged_one b r : budget_ok b -> (deleted b >=? max_delete b) = false -> charged b [r] (note_deleted b).
Proof.
  unfold charged, budget_ok. simpl. change (zlen [r]) with 1. rewrite Z.geb_leb. intros [? Hm] ?%Z.leb_gt. unfold SIZE_MAX in *.
  rewrite u64_small by lia. lia.
Qed.

Lemma depth_set n es ces k :
  (depth (Dir es) <= S k)%nat -> (depth (Dir ces) <= k)%nat -> (depth (Dir (set_entry n (Dir ces) es)) <= S k)%nat.
Proof.
  cbn [depth]. intros He Hc. apply le_S_n in He. apply le_n_S. rewrite list_max_le in He |- *. unfold set_entry. rewrite !Forall_fmap in *.
  eapply Forall_impl; [exact He|]. intros [m nd] Hd. simpl in *. case_decide; simpl; lia.
Qed.

Lemma depth_del n es k : (depth (Dir es) <= S k)%nat -> (depth (Dir (del_entry n es)) <= S k)%nat.
Proof.
  cbn [depth]. intros He. apply le_S_n in He. apply le_n_S. rewrite list_max_le in He |- *. rewrite !Forall_fmap in *.
  rewrite Forall_forall in *. intros e [_ He']%list_elem_of_filter. by apply He.
Qed.

Lemma depth_wf n es k ces : (depth (Dir es) <= S k)%nat -> find n es = Some (Dir ces) -> (depth (Dir ces) <= k)%nat.
Proof. intros He Hf. apply depth_find in Hf. lia. Qed.

Section Safe.
Context `{Heap} `{XXHash64} {F : Faults}.
Context (manifest : list (list byte)) (synced : option (list (list byte)))
  (skips : list DeleteSkipEntry) (protect_rules : option FilterRuleList).
Context (keep : PathIndex) (dirs : option PathIndex) (Hix : indexes manifest synced keep dirs).

Local Abbreviation verdict := (verdict manifest synced skips protect_rules).
Local Abbreviation extra_in := (extra_in manifest synced skips protect_rules).
Local Abbreviation synced_dir := (synced_dir synced).
Local Abbreviation del := DELETE_WALK_MODE_DELETE.

(** Where a walk of the directory [here] has got to. *)
Definition progress here deletable es0 b0 k (es : entries) (b : DeleteBudget) : Prop :=
  exists g, effect es0 g es /\ Forall (fun r => extra_in here deletable r.1 r.2) g /\
    wf_node (Dir es) /\ (depth (Dir es) <= k)%nat /\ charged b0 g b.

Lemma progress_step here deletable es0 b0 k es b g es' b' :
  progress here deletable es0 b0 k es b -> effect es g es' -> Forall (fun r => extra_in here deletable r.1 r.2) g ->
  wf_node (Dir es') -> (depth (Dir es') <= k)%nat -> charged b g b' -> progress here deletable es0 b0 k es' b'.
Proof.
  intros (g0&He&Hx&_&_&Hc) He' Hx' Hw Hd Hc'. exists (g0 ++ g). split_and!; [by eapply effect_trans|by apply Forall_app_2|done..|].
  by eapply spent_trans.
Qed.

Lemma progress_budget here deletable es0 b0 k es b : progress here deletable es0 b0 k es b -> budget_ok b.
Proof. by intros (g&_&_&_&_&_&_&?). Qed.

(** What a walk promises its caller. *)
Definition walk_ok k (rec : list byte -> list name -> bool -> DeleteWalkState -> entries -> outcome (bool * bool * DeleteWalkState * entries)) : Prop :=
  forall here pd st es, Forall name_ok here -> wf_node (Dir es) -> (depth (Dir es) <= k)%nat -> budget_ok (budget st) ->
    exists ok all st' es', rec (join here) here pd st es = Ret (ok, all, st', es') /\
      progress here (pd || synced_dir here) es (budget st) k es' (budget st').

Section Dir.
Context (k : nat) rec (Hrec : walk_ok k rec) (here : list name) (Hhere : Forall name_ok here) (deletable : bool).
Local Abbreviation inv es0 b0 := (fun f => progress here deletable es0 b0 (S k) (dir f) (budget (state f))).

Lemma descend_ok es0 b0 n f :
  name_ok n -> verdict here deletable n true <> Shielded -> inv es0 b0 f ->
  exists f' all, descend rec here deletable (join (here ++ [n])) n f = Ret (f', all) /\ inv es0 b0 f'.
Proof.
  intros Hn Hv Hp. unfold descend. destruct (openat_dir here n (dir f)) as [e|ces] eqn:Eo; [by eexists _, _|].
  apply openat_inv in Eo. pose proof Hp as (_&_&_&Hw&Hd&_). destruct (wf_find _ _ _ Hw Eo) as [_ Hwc].
  destruct (Hrec (here ++ [n]) deletable (state f) ces) as (ok&all&st'&ces'&->&g&He&Hx&Hw'&Hd'&Hc);
    [by apply Forall_app_2; [|apply Forall_singleton]|done|by eapply depth_wf|eapply progress_budget; exact Hp|].
  simpl. eexists _, _. split; [done|]. eapply progress_step; [exact Hp|by eapply effect_sub| |by apply wf_set|by apply depth_set|].
  - unfold under. apply Forall_fmap. eapply Forall_impl; [exact Hx|]. intros [q d] Hq. simpl in *.
    apply extra_in_cons; [by eapply extra_in_ne|done].
  - destruct Hc as (?&Hz&?). split_and!; [done| |done]. unfold under. unfold zlen in *. by rewrite length_fmap.
Qed.

(** The classified entries. *)
Definition item_ok (ec : DeleteDirEntry * class) : Prop :=
  name_ok (e_name ec.1) /\
  (path_cat (Some (join here)) (Some (e_name ec.1)) = Fail /\ ec.2 = Plain \/ ec.2 = verdict here deletable (e_name ec.1) (e_is_dir ec.1)).

Lemma pass1_ok es0 b0 ec f :
  item_ok ec -> e_is_dir ec.1 = true -> inv es0 b0 f ->
  exists f', pass1 del rec here (join here) deletable ec f = Ret f' /\ inv es0 b0 f'.
Proof.
  destruct ec as [[n d] c]. intros [Hn Hc] Hd Hp. simpl in *. subst d. unfold pass1. simpl. case_bool_decide as Ec; simpl; [|by exists f].
  pose proof (path_cat_join here n Hhere Hn) as Hj. destruct (path_cat _ _) as [child| |] eqn:Ep; [|by exists (failed f)|done]. subst child c.
  destruct Hc as [[Hc _]|Hc]; [done|].
  destruct (descend_ok es0 b0 n f Hn) as (f1&all&->&Hp1); [congruence|done|]. simpl.
  destruct (all && deletable); [|by exists (survivor f1)]. unfold remove_dir.
  destruct (deleted (budget (state f1)) >=? max_delete (budget (state f1))) eqn:Eb; [by eexists|].
  destruct (unlinkat_dir here n (dir f1)) as [e|es'] eqn:Eu; [by eexists|]. eexists. split; [done|]. simpl.
  apply unlink_dir_effect in Eu as (He&->&_). pose proof Hp1 as (_&_&_&Hw&Hdep&_).
  eapply progress_step; [exact Hp1|exact He| |by apply wf_del|by apply depth_del|].
  - apply Forall_singleton. done.
  - apply charged_one; [eapply progress_budget; eassumption|done].
Qed.

Lemma pass2_ok es0 b0 ec f :
  item_ok ec -> e_is_dir ec.1 = false -> inv es0 b0 f ->
  exists f', pass2 del here (join here) ec f = Ret f' /\ inv es0 b0 f'.
Proof.
  destruct ec as [[n d] c]. intros [Hn Hc] Hd Hp. simpl in *. subst d. unfold pass2. simpl. case_bool_decide as Ec; simpl; [|by exists f].
  destruct (deleted (budget (state f)) >=? max_delete (budget (state f))) eqn:Eb; [by eexists|].
  destruct (unlinkat_file here n (dir f)) as [e|es'] eqn:Eu; [by eexists|].
  apply unlink_file_effect in Eu as (He&->&_). pose proof Hp as (_&_&_&Hw&Hdep&_). subst c.
  assert (Hnew : verdict here deletable n false = Extra -> progress here deletable es0 b0 (S k) (del_entry n (dir f)) (note_deleted (budget (state f)))).
  { intros Hv. eapply progress_step; [exact Hp|exact He| |by apply wf_del|by apply depth_del|].
    - by apply Forall_singleton.
    - apply charged_one; [eapply progress_budget; eassumption|done]. }
  pose proof (path_cat_join here n Hhere Hn) as Hj.
  destruct Hc as [[_ Hc]|Hc]; [done|].
  destruct (path_cat _ _) as [child| |]; [| |done]; eexists; (split; [done|]); by apply Hnew.
Qed.

Lemma pass3_ok es0 b0 ec f :
  item_ok ec -> e_is_dir ec.1 = true -> inv es0 b0 f ->
  exists f', pass3 rec here (join here) deletable ec f = Ret f' /\ inv es0 b0 f'.
Proof.
  destruct ec as [[n d] c]. intros [Hn Hc] Hd Hp. simpl in *. subst d. unfold pass3. simpl. case_bool_decide as Ec; simpl; [|by exists f].
  pose proof (path_cat_join here n Hhere Hn) as Hj. destruct (path_cat _ _) as [child| |] eqn:Ep; [|by exists (failed f)|done]. subst child c.
  destruct Hc as [[Hc _]|Hc]; [done|]. destruct (descend_ok es0 b0 n f Hn) as (f1&all&->&Hp1); [congruence|done|]. by eexists.
Qed.

Lemma classify_ok l f :
  Forall (fun e => name_ok (e_name e)) l ->
  exists cl f', classify keep dirs skips protect_rules (join here) deletable l f = Ret (cl, f') /\ cl.*1 = l /\ Forall item_ok cl /\
    dir f' = dir f /\ state f' = state f.
Proof.
  intros Hl. revert f. induction Hl as [|[n d] l Hn Hl IH]; intros f; cbn [classify]; [by eexists [], f|]. simpl e_name in *.
  pose proof (path_cat_join here n Hhere Hn) as Hj. destruct (path_cat _ _) as [child| |] eqn:Ep; [| |done].
  - subst child. rewrite (classify_child_spec manifest synced) by done. simpl mbind.
    edestruct IH as (cl&f'&->&Hcl&Hi&Hd&Hs). simpl. eexists _, _. split; [done|]. split_and!; [by rewrite fmap_cons, Hcl|constructor; [split; [done|by right]|done]|..].
    + rewrite Hd. by case_bool_decide.
    + rewrite Hs. by case_bool_decide.
  - edestruct IH as (cl&f'&->&Hcl&Hi&Hd&Hs). simpl. eexists _, _. split; [done|]. split_and!; [by rewrite fmap_cons, Hcl| |done..].
    constructor; [|done]. split; [done|]. by left.
Qed.
End Dir.

Lemma walk_safe k : walk_ok k (delete_walk_fd del keep dirs skips protect_rules k).
Proof.
  induction k as [|k IH]; intros here pd st es Hh Hw Hd Hb; [simpl in Hd; lia|]. cbn [delete_walk_fd].
  assert (Hp0 : forall dl, progress here dl es (budget st) (S k) es (budget st)).
  { intros dl. exists []. split_and!; [apply effect_refl|constructor|done|done|by apply spent_refl]. }
  pose proof (collect_names here es (fun e => name_ok (e_name e))) as Hcol.
  destruct (delete_dir_entries_collect here es) as [[l cok]| |]; [|by eexists _, _, _, _|].
  2: { exfalso. apply Hcol. intros n d Hin _ _. apply list_elem_of_fmap in Hin as ([m nd]&->&Hin).
    inversion Hw as [|? _ Ha]; subst. by apply (Ha m nd). }
  destruct (malloc_ok _); simpl negb; [|by eexists _, _, _, _].
  assert ((if pd then Ret true else is_synced_dir dirs (join here)) = Ret (pd || synced_dir here)) as ->.
  { destruct pd; [done|]. by apply (is_synced_spec manifest synced keep dirs Hix). }
  cbn [mbind outcome_bind]. set (dl := pd || synced_dir here).
  assert (Hl : Forall (fun e => name_ok (e_name e)) (sort_entries l)).
  { rewrite sort_entries_perm. apply Hcol. intros n d Hin _ _. apply list_elem_of_fmap in Hin as ([m nd]&->&Hin).
    inversion Hw as [|? _ Ha]; subst. by apply (Ha m nd). }
  destruct (classify_ok here Hh dl _ (MkFrame cok false st es) Hl) as (cl&f&->&Hcl&Hi&Hdir&Hst). cbn [mbind outcome_bind].
  destruct (split_dirs_spec cl) as (ds&fs&->&->&Hds&Hfs); [rewrite Hcl; apply sort_entries_sorted|].
  apply Forall_app in Hi as [Hi1 Hi2]. simpl in Hdir, Hst.
  assert (Hpf : progress here dl es (budget st) (S k) (dir f) (budget (state f))) by (rewrite Hdir, Hst; apply Hp0).
  rewrite Forall_forall in Hi1, Hi2, Hds, Hfs.
  destruct (foldM_inv (fun f => progress here dl es (budget st) (S k) (dir f) (budget (state f)))
    (pass1 del (delete_walk_fd del keep dirs skips protect_rules k) here (join here) dl) ds f) as (f1&->&Hp1);
    [intros; apply pass1_ok; auto|done|]. cbn [mbind outcome_bind].
  destruct (foldM_inv (fun f => progress here dl es (budget st) (S k) (dir f) (budget (state f)))
    (pass2 del here (join here)) fs f1) as (f2&->&Hp2); [intros; eapply pass2_ok; eauto|done|]. cbn [mbind outcome_bind].
  destruct (foldM_inv (fun f => progress here dl es (budget st) (S k) (dir f) (budget (state f)))
    (pass3 (delete_walk_fd del keep dirs skips protect_rules k) here (join here) dl) (rev ds) f2) as (f3&->&Hp3);
    [intros ec s Hin; apply pass3_ok; auto; [apply Hi1|apply Hds]; by rewrite <- elem_of_reverse, <- rev_alt || (apply list_elem_of_In; apply list_elem_of_In in Hin; by apply in_rev)|done|].
  cbn [mbind outcome_bind]. by eexists _, _, _, _.
Qed.
End Safe.

Lemma build_indexes_ok `{Heap} `{XXHash64} manifest synced :
  heap_serves (2 ^ 63) -> zlen manifest < 2 ^ 58 -> match synced with Some l => zlen l < 2 ^ 58 | None => True end ->
  exists keep dirs, build_indexes manifest synced = Ret (keep, dirs) /\ indexes manifest synced keep dirs.
Proof.
  intros Hs Hm Hd. unfold build_indexes.
  assert (exists keep, build_keep_index manifest = Ret keep /\ IndexOf keep manifest) as (keep&->&Hk).
  { unfold build_keep_index. destruct (Z.leb_spec (zlen manifest) 0); [|by apply path_index_build_spec].
    destruct manifest as [|x m]; [|unfold zlen in *; simpl in *; lia]. by apply (path_index_build_spec []). }
  cbn [mbind outcome_bind]. destruct synced as [l|].
  - destruct (path_index_build_spec l Hd Hs) as (ix&->&Hi). by exists keep, (Some ix).
  - by exists keep, None.
Qed.

Section SafeClaim.
Context `{Heap} `{XXHash64} {F : Faults}.
Context (manifest : list (list byte)) (synced : option (list (list byte)))
  (skips : list DeleteSkipEntry) (protect_rules : option FilterRuleList).
Context (keep : PathIndex) (dirs : option PathIndex).
Local Abbreviation extra_in := (extra_in manifest synced skips protect_rules).
Local Abbreviation synced_dir := (synced_dir synced).

(** C7: the deletion walk removes only what it may, whatever goes wrong.  For
    every destination tree, every pattern of failing system calls and
    allocations and every budget, the walk of the receive root ends, and what it
    has removed is a set of paths, charged once each to the budget and within
    it.  Untouched are: every path of the manifest, every directory above one,
    everything at or below a protected prefix (the staging directory at the top
    level only) or an entry protected by a receiver rule, and everything outside
    the synchronized directories. *)
Theorem deletion_walk_safe st es
    (Hindexes : indexes manifest synced keep dirs) (Htree : wf_node (Dir es)) (Hbudget : budget_ok (budget st)) :
  exists ok all st' es' g,
    delete_walk_fd DELETE_WALK_MODE_DELETE keep dirs skips protect_rules (depth (Dir es)) [] [] false st es = Ret (ok, all, st', es') /\
    effect es g es' /\ deleted (budget st') = deleted (budget st) + zlen g /\ deleted (budget st') <= max_delete (budget st) /\
    (forall p, join p ∈ manifest -> kind_at es' p = kind_at es p) /\
    (forall p e, kind_at es p = Some KDir -> e ∈ manifest -> (join p ++ [slash]) `prefix_of` e -> kind_at es' p = Some KDir) /\
    (forall q n r, path_under_skip_prefix (join (q ++ [n])) (bool_decide (q = [])) skips = true ->
      kind_at es' (q ++ n :: r) = kind_at es (q ++ n :: r)) /\
    (forall q n r, rule_protected protect_rules (q ++ [n]) n (bool_decide (kind_at es (q ++ [n]) = Some KDir)) = true ->
      kind_at es' (q ++ n :: r) = kind_at es (q ++ n :: r)) /\
    (forall p, (forall q r, p = q ++ r -> r <> [] -> synced_dir q = false) -> kind_at es' p = kind_at es p).
Proof.
  destruct (walk_safe manifest synced skips protect_rules keep dirs Hindexes (depth (Dir es)) [] false st es)
    as (ok&all&st'&es'&E&g&He&Hx&_&_&Hmax&Hdel&Hb'); [constructor|done|done|done|].
  exists ok, all, st', es', g. rewrite Forall_forall in Hx. pose proof He as [Hk Ht _].
  assert (Hkeep : forall p, (forall d, (p, d) ∈ g -> False) -> kind_at es' p = kind_at es p).
  { intros p Hn. rewrite Hk, decide_False; [done|]. intros (d&Hd)%gone_elem. by apply (Hn d). }
  assert (Hex : forall p d, (p, d) ∈ g -> extra_in [] (synced_dir []) p d) by (intros p d Hd; by apply (Hx (p, d))).
  split; [exact E|]. split; [done|]. split; [done|]. split; [destruct Hb'; lia|]. split_and!.
  - intros p Hm. apply Hkeep. intros d Hd%Hex. by apply extra_in_unkept in Hd.
  - intros p e Hp Hm Hpre. rewrite Hkeep; [done|]. intros d Hd. destruct (Ht p d Hd) as (kd&Hkd&Hdd).
    assert (d = true) as -> by (apply Hdd; congruence). apply Hex in Hd as (q&n&dl&->&Hv)%extra_in_last. revert Hv. simpl.
    unfold DeleteSafe.verdict, kept_dir. rewrite (proj2 (existsb_exists _ _)), orb_true_r.
    + destruct (shielded _ _ _ _ _), dl; simpl; try done; by destruct (synced_child _ _).
    + exists e. split; [by apply list_elem_of_In|by apply bool_decide_eq_true_2].
  - intros q n r Hs. apply Hkeep. intros d Hd%Hex%extra_in_clear. unfold shielded in Hd. simpl in Hd. by rewrite Hs in Hd.
  - intros q n r Hs. apply Hkeep. intros d Hd. pose proof (Ht _ _ Hd) as (kd&Hkd&Hdd). apply Hex, extra_in_clear in Hd.
    unfold shielded in Hd. simpl in Hd. apply orb_false_iff in Hd as [_ Hd]. revert Hs. case_bool_decide as Hr.
    + subst r. rewrite Hkd. destruct d.
      * rewrite bool_decide_eq_true_2 by (f_equal; by apply Hdd). by rewrite Hd.
      * rewrite bool_decide_eq_false_2; [by rewrite Hd|]. intros [= ->]. by pose proof (proj2 Hdd eq_refl).
    + assert (Hdir : kind_at es (q ++ [n]) = Some KDir).
      { clear -Hkd Hr. revert es Hkd. induction q as [|m q IH]; intros es; simpl.
        - destruct (find n es) as [[]|]; [by destruct r|done|done].
        - destruct (find m es) as [[]|]; [by destruct (q ++ n :: r) eqn:E; [destruct q|]|apply IH|done]. }
      rewrite Hdir, bool_decide_eq_true_2 by done. by rewrite Hd.
  - intros p Hp. apply Hkeep. intros d Hd%Hex. pose proof (extra_in_ne _ _ _ _ _ _ _ _ Hd) as Hne.
    apply extra_in_synced in Hd as [Hs|(q&r&->&Hq&Hr&Hs)].
    + by rewrite (Hp [] p) in Hs.
    + simpl in Hs. by rewrite (Hp q r) in Hs.
Qed.
End SafeClaim.

(** The unlink of [b] fails and only two removals are allowed. *)
Definition demo_faults : Faults := fun c p => if bool_decide (c = SysUnlink /\ p = [cs "b"]) then Some EIO else None.
Definition demo_skips : list DeleteSkipEntry := [MkSkip (cs "k/snap") false].

Lemma deletion_walk_safe_witness :
  exists keep ok all st' es' g,
    @delete_walk_fd heap0 hash_const demo_faults DELETE_WALK_MODE_DELETE keep None demo_skips None (depth (Dir demo_tree)) [] [] false
      (MkState (MkBudget 2 0 0 false) (MkArrayList [] 0 0 false) 0 []) demo_tree = Ret (ok, all, st', es') /\
    effect demo_tree g es' /\ deleted (budget st') = zlen g /\ zlen g <= 2 /\
    kind_at es' [cs "k"; cs "f"] = Some (KLeaf false 1) /\ kind_at es' [cs "k"; cs "snap"; cs "z"] = Some (KLeaf false 9).
Proof.
  destruct (@path_index_build_spec heap0 hash_const [cs "k/f"]) as (keep&_&Hk); [vm_compute; reflexivity|apply heap0_serves|].
  destruct (@deletion_walk_safe heap0 hash_const demo_faults [cs "k/f"] None demo_skips None keep None
    (MkState (MkBudget 2 0 0 false) (MkArrayList [] 0 0 false) 0 []) demo_tree (conj Hk I) demo_tree_wf) as (ok&all&st'&es'&g&E&He&Hd&Hm&Hman&_&Hsk&_).
  { by vm_compute. }
  exists keep, ok, all, st', es', g. simpl deleted in Hd, Hm. simpl max_delete in Hm. split; [exact E|]. split; [done|]. split; [lia|]. split; [lia|]. split.
  - rewrite Hman by (by left). reflexivity.
  - exact (Hsk [cs "k"] (cs "snap") [cs "z"] ltac:(vm_compute; reflexivity)).
Defined.
