(* ===== verification/DeleteExact.v ===== *)
(** What the deletion walk does when nothing fails: the removals in order, as a
    function of the tree and the policy, and the proof that both modes of
    [delete_walk_fd] follow it. *)

From S2P Require Import Prelude Alloc CStr Paths ArrayList PathIndex FilterParse FilterRules DeleteTree DeleteWalk DeleteSafe.

(** ** The order of removals *)

Section Plan.
Context `{Heap}.
Context (manifest : list (list byte)) (synced : option (list (list byte)))
  (skips : list DeleteSkipEntry) (protect_rules : option FilterRuleList).
Local Abbreviation verdict := (verdict manifest synced skips protect_rules).
Local Abbreviation synced_dir := (synced_dir synced).
Implicit Types (here : list name) (es : entries).

(** The entries of a directory: subdirectories before files, each by
    descending name. *)
Definition listed es : list DeleteDirEntry := (fun e => MkEntry e.1 (is_dir e.2)) <$> es.
Definition ordered es : list DeleteDirEntry := sort_entries (listed es).
Definition of_class here (dl : bool) (c : class) (d : bool) es : list name :=
  e_name <$> filter (fun e => e_is_dir e = d /\ verdict here dl (e_name e) d = c) (ordered es).

(** What goes below each child directory, and whether the whole child goes. *)
Abbreviation subplans := (list (name * (list removal * bool))).
Fixpoint sub_of (n : name) (subs : subplans) : list removal * bool :=
  match subs with
  | [] => ([], true)
  | (m, s) :: subs => if decide (m = n) then s else sub_of n subs
  end.
Definition seg1 (subs : subplans) (n : name) : list removal :=
  under n (sub_of n subs).1 ++ (if (sub_of n subs).2 then [([n], true)] else []).
Definition seg2 (n : name) : list removal := [([n], false)].
Definition seg3 (subs : subplans) (n : name) : list removal := under n (sub_of n subs).1.
Definition plan_dir here (dl : bool) es (subs : subplans) : list removal * bool :=
  (concat (seg1 subs <$> of_class here dl Extra true es) ++
   concat (seg2 <$> of_class here dl Extra false es) ++
   concat (seg3 subs <$> rev (of_class here dl Plain true es)),
   forallb (fun e => bool_decide (verdict here dl (e_name e) (e_is_dir e) = Extra)) (ordered es) &&
   forallb (fun n => (sub_of n subs).2) (of_class here dl Extra true es)).

(** The removals below a node, in order, and whether everything below goes. *)
Fixpoint plan here (pd : bool) (nd : node) : list removal * bool :=
  match nd with
  | Leaf _ _ => ([], true)
  | Dir es =>
      let dl := pd || synced_dir here in
      plan_dir here dl es
        ((fix go (es : entries) : subplans := match es with [] => [] | (n, c) :: es => (n, plan (here ++ [n]) dl c) :: go es end) es)
  end.

Definition subs_of here (dl : bool) es : subplans := (fun e => (e.1, plan (here ++ [e.1]) dl e.2)) <$> es.

Lemma plan_unfold here pd es :
  plan here pd (Dir es) = plan_dir here (pd || synced_dir here) es (subs_of here (pd || synced_dir here) es).
Proof.
  cbn [plan]. f_equal. unfold subs_of. generalize (pd || synced_dir here). intros dl. induction es as [|[n c] es IH]; [done|].
  simpl. by rewrite IH.
Qed.

Lemma sub_of_find here dl es n nd : find n es = Some nd -> sub_of n (subs_of here dl es) = plan (here ++ [n]) dl nd.
Proof.
  unfold subs_of. induction es as [|[m c] es IH]; simpl; [done|]. destruct (decide (m = n)) as [->|]; [by intros [= ->]|done].
Qed.

Lemma ordered_names es e : NoDup es.*1 -> e ∈ ordered es <-> exists nd, find (e_name e) es = Some nd /\ e_is_dir e = is_dir nd.
Proof.
  intros Hnd. unfold ordered. rewrite sort_entries_perm. unfold listed. rewrite list_elem_of_fmap. split.
  - intros ([n nd]&->&Hin). exists nd. split; [by apply elem_find|done].
  - intros (nd&Hf&Hd). exists (e_name e, nd). split; [destruct e; simpl in *; congruence|by apply find_elem].
Qed.

Lemma of_class_elem here dl c d es n :
  NoDup es.*1 -> n ∈ of_class here dl c d es <-> verdict here dl n d = c /\ exists nd, find n es = Some nd /\ is_dir nd = d.
Proof.
  intros Hnd. unfold of_class. rewrite list_elem_of_fmap. split.
  - intros (e&->&[[Hd Hv] He]%list_elem_of_filter). apply ordered_names in He as (nd&Hf&Hi); [|done]. naive_solver.
  - intros (Hv&nd&Hf&Hd). exists (MkEntry n d). split; [done|]. apply list_elem_of_filter. split; [done|].
    apply ordered_names; [done|]. by exists nd.
Qed.

Lemma ordered_nodup es : NoDup es.*1 -> NoDup (e_name <$> ordered es).
Proof.
  intros Hnd. unfold ordered. rewrite sort_entries_perm. unfold listed. rewrite <- list_fmap_compose. exact Hnd.
Qed.

Lemma of_class_nodup here dl c d es : NoDup es.*1 -> NoDup (of_class here dl c d es).
Proof.
  intros Hnd. pose proof (ordered_nodup es Hnd) as Ho. unfold of_class. revert Ho. generalize (ordered es). intros l.
  induction l as [|e l IH]; [by constructor|]. rewrite fmap_cons. intros [Hn Hl]%NoDup_cons. rewrite filter_cons.
  case_decide; [|by apply IH]. rewrite fmap_cons. apply NoDup_cons. split; [|by apply IH].
  intros (x&E&[_ Hin]%list_elem_of_filter)%list_elem_of_fmap. apply Hn. apply list_elem_of_fmap. by exists x.
Qed.

(** The entries the three passes act on, each once. *)
Definition acted here dl es : list name :=
  of_class here dl Extra true es ++ of_class here dl Extra false es ++ rev (of_class here dl Plain true es).
Lemma acted_nodup here dl es : NoDup es.*1 -> NoDup (acted here dl es).
Proof.
  intros Hnd. unfold acted. rewrite <- Permutation_rev, !NoDup_app. split_and!; [by apply of_class_nodup| |by apply of_class_nodup| |by apply of_class_nodup].
  - intros n Hn. apply of_class_elem in Hn as (Hv&nd&Hf&Hd); [|done]. rewrite elem_of_app. intros [Hn|Hn];
      apply of_class_elem in Hn as (Hv'&nd'&Hf'&Hd'); congruence.
  - intros n Hn Hn'. apply of_class_elem in Hn as (_&nd&Hf&Hd), Hn' as (_&nd'&Hf'&Hd'); [|done..]. congruence.
Qed.

(** When everything goes, every entry is among the removals. *)
Lemma plan_all here pd es n nd :
  NoDup es.*1 -> (plan here pd (Dir es)).2 = true -> find n es = Some nd -> [n] ∈ gone_paths (plan here pd (Dir es)).1.
Proof.
  intros Hnd Hall Hf. rewrite plan_unfold in *. set (dl := pd || synced_dir here) in *. unfold plan_dir in *. simpl in *.
  apply andb_true_iff in Hall as [Ha Hb]. rewrite forallb_forall in Ha, Hb.
  assert (Hv : verdict here dl n (is_dir nd) = Extra).
  { specialize (Ha (MkEntry n (is_dir nd))). apply bool_decide_eq_true in Ha; [done|]. apply list_elem_of_In, ordered_names; [done|]. by exists nd. }
  apply gone_elem. exists (is_dir nd). destruct (is_dir nd) eqn:Ed.
  - apply elem_of_app. left. assert (Hin : n ∈ of_class here dl Extra true es) by (apply of_class_elem; naive_solver).
    apply list_elem_of_In, in_concat. exists (seg1 (subs_of here dl es) n). split; [by apply in_map, list_elem_of_In|].
    apply list_elem_of_In. unfold seg1. rewrite (Hb n) by (by apply list_elem_of_In). set_solver.
  - apply elem_of_app. right. apply elem_of_app. left. assert (Hin : n ∈ of_class here dl Extra false es) by (apply of_class_elem; naive_solver).
    apply list_elem_of_In, in_concat. exists (seg2 n). split; [by apply in_map, list_elem_of_In|by left].
Qed.

(** *** What the plan holds: everything that is extraneous together with all
    that lies below it. *)

Local Abbreviation extra_in := (extra_in manifest synced skips protect_rules).
Definition wholly_extra here (dl : bool) es (p : list name) : Prop :=
  forall q k, p ++ q <> [] -> kind_at es (p ++ q) = Some k -> extra_in here dl (p ++ q) (bool_decide (k = KDir)).
Definition removable here (dl : bool) es (r : removal) : Prop :=
  r.1 <> [] /\ (exists k, kind_at es r.1 = Some k /\ r.2 = bool_decide (k = KDir)) /\ wholly_extra here dl es r.1.

Lemma seg_elem {A} (seg : A -> list removal) l r : r ∈ concat (seg <$> l) <-> exists n, n ∈ l /\ r ∈ seg n.
Proof.
  rewrite list_elem_of_In, in_concat. split.
  - intros (s&(n&<-&Hn)%in_map_iff&Hr). exists n. by rewrite !list_elem_of_In.
  - intros (n&Hn&Hr). exists (seg n). rewrite <- !list_elem_of_In. split; [apply list_elem_of_fmap; by exists n|done].
Qed.

Lemma under_elem n g m q d : (m :: q, d) ∈ under n g <-> m = n /\ (q, d) ∈ g.
Proof.
  unfold under. rewrite list_elem_of_fmap. split; [intros ([q' d']&[= -> -> ->]&?); done|]. intros [-> ?]. by exists (q, d).
Qed.

Lemma not_shielded here dl n d : verdict here dl n d <> Shielded <-> verdict here dl n d = Extra \/ verdict here dl n d = Plain.
Proof. destruct (verdict here dl n d); naive_solver. Qed.

Lemma kind_is_dir nd es n : find n es = Some nd -> kind_at es [n] = Some (match nd with Leaf l i => KLeaf l i | Dir _ => KDir end).
Proof. intros Hf. simpl. rewrite Hf. by destruct nd. Qed.

(** One child directory. *)
Lemma wholly_sub here dl es n ces :
  find n es = Some (Dir ces) -> verdict here dl n true = Extra ->
  wholly_extra here dl es [n] <-> wholly_extra (here ++ [n]) (dl || synced_dir (here ++ [n])) ces [].
Proof.
  intros Hf Hv. split; intros Hw q k Hq Hk.
  - specialize (Hw q k). cbn [app kind_at] in Hw. rewrite Hf in Hw. apply extra_in_cons in Hw as [_ Hw]; done.
  - cbn [app kind_at] in Hk. rewrite Hf in Hk. cbn [app]. destruct q as [|m q].
    + injection Hk as <-. simpl. by rewrite Hv.
    + apply extra_in_cons; [done|]. split; [by rewrite Hv|]. by apply (Hw (m :: q) k).
Qed.

(** The removals of one directory in terms of those of its children. *)
Lemma plan_dir_elem here dl es subs n q d :
  NoDup es.*1 ->
  (n :: q, d) ∈ (plan_dir here dl es subs).1 <->
  exists nd, find n es = Some nd /\
    ((q = [] /\ d = is_dir nd /\ verdict here dl n d = Extra /\ (d = true -> (sub_of n subs).2 = true)) \/
     (is_dir nd = true /\ verdict here dl n true <> Shielded /\ (q, d) ∈ (sub_of n subs).1)).
Proof.
  intros Hnd. unfold plan_dir. simpl fst. rewrite !elem_of_app, !seg_elem. split.
  - intros [(m&Hm&Hs)|[(m&Hm&Hs)|(m&Hm&Hs)]]; [| |rewrite <- Permutation_rev in Hm]; apply of_class_elem in Hm as (Hv&nd&Hf&Hd); try done.
    + unfold seg1 in Hs. apply elem_of_app in Hs as [[-> Hs]%under_elem|Hs].
      * exists nd. split; [done|]. right. by rewrite Hv.
      * destruct (sub_of m subs).2 eqn:E2; [|by apply not_elem_of_nil in Hs]. apply list_elem_of_singleton in Hs. injection Hs as -> -> ->.
        exists nd. split; [done|]. by left.
    + unfold seg2 in Hs. apply list_elem_of_singleton in Hs. injection Hs as -> -> ->. exists nd. split; [done|]. by left.
    + apply under_elem in Hs as [-> Hs]. exists nd. split; [done|]. right. by rewrite Hv.
  - intros (nd&Hf&[(->&->&Hv&Hs)|(Hd&Hv&Hs)]).
    + destruct (is_dir nd) eqn:Ed; [left|right; left]; exists n; (split; [by apply of_class_elem; [|split; [|exists nd]]|]).
      * unfold seg1. rewrite Hs by done. set_solver.
      * by apply list_elem_of_singleton.
    + apply not_shielded in Hv as [Hv|Hv]; [left|right; right]; exists n.
      * split; [by apply of_class_elem; [|split; [|exists nd]]|]. unfold seg1. apply elem_of_app. left. by apply under_elem.
      * split; [rewrite <- Permutation_rev; by apply of_class_elem; [|split; [|exists nd]]|]. by apply under_elem.
Qed.

Lemma plan_dir_nonempty here dl es subs d : ([], d) ∉ (plan_dir here dl es subs).1.
Proof.
  unfold plan_dir. simpl fst. rewrite !elem_of_app, !seg_elem. intros [(m&_&Hm)|[(m&_&Hm)|(m&_&Hm)]].
  - unfold seg1 in Hm. apply elem_of_app in Hm as [(?&?&_)%list_elem_of_fmap|Hm]; [done|]. destruct (sub_of _ _).2; set_solver.
  - unfold seg2 in Hm. set_solver.
  - apply list_elem_of_fmap in Hm as (?&?&_). done.
Qed.

Lemma plan_dir_all here dl es subs :
  NoDup es.*1 -> (plan_dir here dl es subs).2 = true <->
  forall n nd, find n es = Some nd -> verdict here dl n (is_dir nd) = Extra /\ (is_dir nd = true -> (sub_of n subs).2 = true).
Proof.
  intros Hnd. unfold plan_dir. simpl snd. rewrite andb_true_iff, !forallb_forall. split.
  - intros [Hall Hs] n nd Hf. assert (Hv : verdict here dl n (is_dir nd) = Extra).
    { specialize (Hall (MkEntry n (is_dir nd))). apply bool_decide_eq_true in Hall; [done|]. apply list_elem_of_In, ordered_names; [done|]. by exists nd. }
    split; [done|]. intros Hd. apply Hs, list_elem_of_In, of_class_elem; [done|]. rewrite Hd in Hv. split; [done|]. by exists nd.
  - intros Hall. split.
    + intros e (nd&Hf&Hd)%list_elem_of_In%ordered_names; [|done]. apply bool_decide_eq_true. rewrite Hd. by apply Hall.
    + intros n (_&nd&Hf&Hd)%list_elem_of_In%of_class_elem; [|done]. by apply (Hall n nd).
Qed.

(** The same recursion for the extraneous paths. *)
Lemma removable_leaf here dl es n l i q d :
  find n es = Some (Leaf l i) -> removable here dl es (n :: q, d) <-> q = [] /\ d = false /\ verdict here dl n false = Extra.
Proof.
  intros Ef. unfold removable, wholly_extra. simpl fst. simpl snd. cbn [app kind_at]. rewrite Ef. split.
  - intros (_&(k&Hk&Hd)&Hw). destruct q; [|done]. injection Hk as <-. split_and!; [done|by rewrite Hd|]. by apply (Hw [] (KLeaf l i)).
  - intros (->&->&Hv). split; [done|]. split; [by exists (KLeaf l i)|]. intros q k _ Hk. destruct q; [|done]. by injection Hk as <-.
Qed.

Lemma removable_dir here dl es n ces q d :
  find n es = Some (Dir ces) -> q <> [] ->
  removable here dl es (n :: q, d) <-> verdict here dl n true <> Shielded /\ removable (here ++ [n]) (dl || synced_dir (here ++ [n])) ces (q, d).
Proof.
  intros Ef Hq. unfold removable, wholly_extra. simpl fst. simpl snd. cbn [app kind_at]. rewrite Ef. split.
  - intros (_&(k&Hk&Hd)&Hw). assert (Hv : verdict here dl n true <> Shielded).
    { specialize (Hw [] k). rewrite app_nil_r in Hw. apply extra_in_cons in Hw as [? _]; done. }
    split; [done|]. split; [done|]. split; [by exists k|]. intros q' k2 Hne Hk2. specialize (Hw q' k2 ltac:(done) Hk2).
    apply extra_in_cons in Hw as [_ Hw]; [done|]. by destruct q.
  - intros (Hv&_&Hex&Hw). split; [done|]. split; [done|]. intros q' k2 _ Hk2. apply extra_in_cons; [by destruct q|]. split; [done|].
    apply Hw; [by destruct q|done].
Qed.

Lemma removable_whole here dl es n ces d :
  find n es = Some (Dir ces) ->
  removable here dl es ([n], d) <-> d = true /\ verdict here dl n true = Extra /\ wholly_extra (here ++ [n]) (dl || synced_dir (here ++ [n])) ces [].
Proof.
  intros Ef. unfold removable. simpl fst. simpl snd. split.
  - intros (_&(k&Hk&Hd)&Hw). simpl in Hk. rewrite Ef in Hk. injection Hk as <-.
    assert (Hv : verdict here dl n true = Extra) by (specialize (Hw [] KDir); simpl in Hw; rewrite Ef in Hw; by apply Hw).
    split_and!; [done|done|]. by apply (wholly_sub here dl es n ces Ef Hv).
  - intros (->&Hv&Hw). split; [done|]. split; [exists KDir; simpl; by rewrite Ef|]. by apply (wholly_sub here dl es n ces Ef Hv).
Qed.

Lemma wholly_children here dl es :
  wholly_extra here dl es [] <->
  forall n nd, find n es = Some nd -> verdict here dl n (is_dir nd) = Extra /\
    match nd with Leaf _ _ => True | Dir ces => wholly_extra (here ++ [n]) (dl || synced_dir (here ++ [n])) ces [] end.
Proof.
  split.
  - intros Hw n nd Hf. assert (Hv : verdict here dl n (is_dir nd) = Extra).
    { specialize (Hw [n] _ ltac:(done) (kind_is_dir nd es n Hf)). simpl in Hw. by destruct nd. }
    split; [done|]. destruct nd as [|ces]; [done|]. apply (wholly_sub here dl es n ces Hf Hv). intros q k _ Hk. by apply (Hw ([n] ++ q) k).
  - intros Hall q k Hne Hk. cbn [app] in *. destruct q as [|n q]; [done|].
    destruct (find n es) as [nd|] eqn:Ef; [|simpl in Hk; by rewrite Ef in Hk]. destruct (Hall n nd Ef) as [Hv Hs].
    destruct nd as [l i|ces]; [|by apply (wholly_sub here dl es n ces Ef Hv)]. simpl in Hk. rewrite Ef in Hk. destruct q; [|done]. by injection Hk as <-.
Qed.

Lemma plan_elem k here pd es :
  wf_node (Dir es) -> (depth (Dir es) <= k)%nat -> let dl := pd || synced_dir here in
  (forall r, r ∈ (plan here pd (Dir es)).1 <-> removable here dl es r) /\
  ((plan here pd (Dir es)).2 = true <-> wholly_extra here dl es []).
Proof.
  revert here pd es. induction k as [|k IH]; intros here pd es Hwf Hk; [simpl in Hk; lia|]. intros dl.
  pose proof Hwf as Hwf'. inversion Hwf' as [|? Hnd Ha]; subst. rewrite plan_unfold. fold dl.
  assert (Hsub : forall n ces, find n es = Some (Dir ces) -> let dl' := dl || synced_dir (here ++ [n]) in
    (forall r, r ∈ (sub_of n (subs_of here dl es)).1 <-> removable (here ++ [n]) dl' ces r) /\
    ((sub_of n (subs_of here dl es)).2 = true <-> wholly_extra (here ++ [n]) dl' ces [])).
  { intros n ces Hf. rewrite (sub_of_find _ _ _ _ _ Hf). apply IH; [by eapply wf_find|by eapply depth_wf]. }
  split.
  - intros [[|n q] d].
    { split; [by intros ?%plan_dir_nonempty|by intros (?&_)]. }
    rewrite plan_dir_elem by done. split.
    + intros (nd&Ef&Hc). destruct nd as [l i|ces].
      * apply (removable_leaf here dl es n l i); [done|]. destruct Hc as [(->&->&Hv&_)|(?&_)]; done.
      * destruct (Hsub n ces Ef) as [Hin Hall]. destruct Hc as [(->&->&Hv&Hs)|(_&Hv&Hs)].
        -- apply (removable_whole here dl es n ces); [done|]. split_and!; [done|done|]. apply Hall. by apply Hs.
        -- apply Hin in Hs. apply (removable_dir here dl es n ces); [done|by destruct Hs|done].
    + intros Hr. destruct (find n es) as [[l i|ces]|] eqn:Ef; [eexists; split; [done|]..|].
      * destruct (proj1 (removable_leaf here dl es n l i q d Ef) Hr) as (->&->&Hv). by left.
      * destruct (Hsub n ces Ef) as [Hin Hall]. destruct (decide (q = [])) as [->|Hq].
        -- destruct (proj1 (removable_whole here dl es n ces d Ef) Hr) as (Hd&Hv&Hs). left. rewrite Hd. split_and!; [done|done|done|]. intros _. by apply Hall.
        -- destruct (proj1 (removable_dir here dl es n ces q d Ef Hq) Hr) as (Hv&Hs). right. split_and!; [done|done|]. by apply Hin.
      * destruct Hr as (_&(k'&Hk'&_)&_). simpl in Hk'. by rewrite Ef in Hk'.
  - rewrite plan_dir_all, wholly_children by done. split; intros Hall n nd Hf; destruct (Hall n nd Hf) as [Hv Hs]; (split; [done|]);
      destruct nd as [|ces]; try done; [apply (proj2 (Hsub n ces Hf)); by apply Hs|intros _; by apply (proj2 (Hsub n ces Hf))].
Qed.

(** The line the observer and the dry run print for a removal. *)
Definition report here (r : removal) : list byte := join (here ++ r.1) ++ (if r.2 then [slash] else []).
Lemma report_under here n g : report here <$> under n g = report (here ++ [n]) <$> g.
Proof. unfold under. rewrite <- list_fmap_compose. apply list_fmap_ext. intros _ [q d] _. unfold report. simpl. by rewrite <- app_assoc. Qed.
End Plan.

(** ** The passes as one traversal *)

Lemma foldM_segments {A S} (I : list removal -> bool -> list A -> S -> Prop) (f : A -> S -> outcome S) (seg : A -> list removal) (bad : A -> bool)
    (bound : nat) l tail pl sv s :
  (forall x pl sv rest s, x ∈ l -> x ∉ rest -> (length (pl ++ seg x) <= bound)%nat -> I pl sv (x :: rest) s -> exists s', f x s = Ret s' /\ I (pl ++ seg x) (sv || bad x) rest s') ->
  NoDup (l ++ tail) -> (length (pl ++ concat (seg <$> l)) <= bound)%nat -> I pl sv (l ++ tail) s ->
  exists s', foldM f l s = Ret s' /\ I (pl ++ concat (seg <$> l)) (sv || existsb bad l) tail s'.
Proof.
  revert pl sv s. induction l as [|x l IH]; intros pl sv s Hf Hnd Hb Hi; simpl.
  - exists s. by rewrite app_nil_r, orb_false_r.
  - rewrite fmap_cons in Hb. simpl in Hb. rewrite app_assoc in Hb.
    apply NoDup_cons in Hnd as [Hx Hnd]. destruct (Hf x pl sv (l ++ tail) s) as (s1&->&Hi1); [by left|done|rewrite length_app in Hb; lia|done|]. simpl.
    destruct (IH (pl ++ seg x) (sv || bad x) s1) as (s'&->&Hi'); [intros; apply Hf; [by right|done..]|done|done|done|].
    exists s'. by rewrite <- app_assoc, <- orb_assoc in Hi'.
Qed.

Lemma foldM_class {S} (g : DeleteDirEntry * class -> S -> outcome S) (v : name -> bool -> class) (c : class) (d : bool) l s :
  (forall ec s, ec.2 <> c -> g ec s = Ret s) -> Forall (fun e => e_is_dir e = d) l ->
  foldM g ((fun e => (e, v (e_name e) (e_is_dir e))) <$> l) s =
  foldM (fun n => g (MkEntry n d, c)) (e_name <$> filter (fun e => e_is_dir e = d /\ v (e_name e) d = c) l) s.
Proof.
  intros Hg Hl. revert s. induction Hl as [|[n e] l He Hl IH]; intros s; [done|]. simpl in He. subst e.
  rewrite filter_cons. simpl. case_decide as Hd.
  - destruct Hd as [_ ->]. simpl. destruct (g _ s); simpl; [apply IH|done|done].
  - rewrite Hg; [simpl; apply IH|]. simpl. intros Hc. by apply Hd.
Qed.

Lemma filter_none {A} (P : A -> Prop) `{forall x, Decision (P x)} l : Forall (fun x => ~ P x) l -> filter P l = [].
Proof. induction 1 as [|x l Hx _ IH]; [done|]. rewrite filter_cons. by rewrite decide_False. Qed.

Lemma filter_rev {A} (P : A -> Prop) `{forall x, Decision (P x)} l : filter P (rev l) = rev (filter P l).
Proof.
  induction l as [|x l IH]; [done|]. simpl rev. rewrite filter_app, IH, !filter_cons, filter_nil. case_decide; simpl; [done|apply app_nil_r].
Qed.

Section Traverse.
Context `{Heap} `{XXHash64} {F : Faults}.
Context (manifest : list (list byte)) (synced : option (list (list byte)))
  (skips : list DeleteSkipEntry) (protect_rules : option FilterRuleList).
Local Abbreviation verdict := (verdict manifest synced skips protect_rules).
Local Abbreviation of_class := (of_class manifest synced skips protect_rules).
Local Abbreviation subs_of := (subs_of manifest synced skips protect_rules).
Local Abbreviation plan_dir := (plan_dir manifest synced skips protect_rules).
Local Abbreviation acted := (acted manifest synced skips protect_rules).

Context (mode : DeleteWalkMode) (rec : list byte -> list name -> bool -> DeleteWalkState -> entries -> outcome (bool * bool * DeleteWalkState * entries)).
Context (here : list name) (dl : bool) (es : entries) (Hnd : NoDup es.*1).
Local Abbreviation subs := (subs_of here dl es).
Context (I : list removal -> bool -> list name -> frame -> Prop).
(** No more removals than the plan has. *)
Local Abbreviation bound := (length (plan_dir here dl es subs).1).
Context (H1 : forall n pl sv rest f, n ∈ of_class here dl Extra true es -> n ∉ rest -> (length (pl ++ seg1 subs n) <= bound)%nat -> I pl sv (n :: rest) f ->
  exists f', pass1 mode rec here (join here) dl (MkEntry n true, Extra) f = Ret f' /\ I (pl ++ seg1 subs n) (sv || negb (sub_of n subs).2) rest f').
Context (H2 : forall n pl sv rest f, n ∈ of_class here dl Extra false es -> n ∉ rest -> (length (pl ++ seg2 n) <= bound)%nat -> I pl sv (n :: rest) f ->
  exists f', pass2 mode here (join here) (MkEntry n false, Extra) f = Ret f' /\ I (pl ++ seg2 n) sv rest f').
Context (H3 : forall n pl sv rest f, n ∈ of_class here dl Plain true es -> n ∉ rest -> (length (pl ++ seg3 subs n) <= bound)%nat -> I pl sv (n :: rest) f ->
  exists f', pass3 rec here (join here) dl (MkEntry n true, Plain) f = Ret f' /\ I (pl ++ seg3 subs n) (sv || true) rest f').

(** Does some entry stay before any descent. *)
Definition stays : bool := existsb (fun e => negb (bool_decide (verdict here dl (e_name e) (e_is_dir e) = Extra))) (ordered es).

Definition classified : list (DeleteDirEntry * class) := (fun e => (e, verdict here dl (e_name e) (e_is_dir e))) <$> ordered es.

Lemma traverse f :
  I [] stays (acted here dl es) f ->
  exists ds fs f', split_dirs classified = (ds, fs) /\
    (f ← foldM (pass1 mode rec here (join here) dl) ds f;
     f ← foldM (pass2 mode here (join here)) fs f;
     foldM (pass3 rec here (join here) dl) (rev ds) f) = Ret f' /\
    I (plan_dir here dl es subs).1 (negb (plan_dir here dl es subs).2) [] f'.
Proof.
  intros Hi. destruct (split_dirs_spec classified) as (ds&fs&E&Eapp&Hds&Hfs).
  { unfold classified. rewrite <- list_fmap_compose. change (fst ∘ _) with (fun e : DeleteDirEntry => e). rewrite list_fmap_id. apply sort_entries_sorted. }
  unfold classified in Eapp. apply fmap_app_inv in Eapp as (dl1&fl1&Eds&Efs&Eord). symmetry in Eds, Efs.
  assert (Hd1 : Forall (fun e => e_is_dir e = true) dl1) by (rewrite <- Eds in Hds; by apply Forall_fmap in Hds).
  assert (Hf1 : Forall (fun e => e_is_dir e = false) fl1) by (rewrite <- Efs in Hfs; by apply Forall_fmap in Hfs).
  assert (Ctrue : forall c, of_class here dl c true es = e_name <$> filter (fun e => e_is_dir e = true /\ verdict here dl (e_name e) true = c) dl1).
  { intros c. unfold DeleteExact.of_class. rewrite Eord, filter_app, (filter_none _ fl1), app_nil_r; [done|].
    eapply Forall_impl; [exact Hf1|]. simpl. intros e -> [? _]. done. }
  assert (Cfalse : of_class here dl Extra false es = e_name <$> filter (fun e => e_is_dir e = false /\ verdict here dl (e_name e) false = Extra) fl1).
  { unfold DeleteExact.of_class. rewrite Eord, filter_app, (filter_none _ dl1); [done|].
    eapply Forall_impl; [exact Hd1|]. simpl. intros e -> [? _]. done. }
  exists ds, fs. rewrite <- Eds, <- Efs, <- (map_rev (fun e => (e, verdict here dl (e_name e) (e_is_dir e)))).
  assert (Hrev : Forall (fun e => e_is_dir e = true) (rev dl1)) by (by apply Forall_rev).
  rewrite (foldM_class _ (verdict here dl) Extra true dl1) by (done || (intros [? c] s Hc; unfold pass1; simpl in *; by rewrite bool_decide_eq_false_2)).
  rewrite <- Ctrue. pose proof (acted_nodup manifest synced skips protect_rules here dl es Hnd) as Hact. unfold DeleteExact.acted in Hi, Hact.
  assert (Hbd : bound = length (concat (seg1 subs <$> of_class here dl Extra true es) ++ concat (seg2 <$> of_class here dl Extra false es) ++
    concat (seg3 subs <$> rev (of_class here dl Plain true es)))) by done. rewrite !length_app in Hbd.
  assert (Hb1 : (length ([] ++ concat (seg1 subs <$> of_class here dl Extra true es)) <= bound)%nat) by (cbn [app]; lia).
  assert (Hb2 : (length (([] ++ concat (seg1 subs <$> of_class here dl Extra true es)) ++ concat (seg2 <$> of_class here dl Extra false es)) <= bound)%nat)
    by (rewrite !length_app; cbn [length]; lia).
  assert (Hb3 : (length ((([] ++ concat (seg1 subs <$> of_class here dl Extra true es)) ++ concat (seg2 <$> of_class here dl Extra false es)) ++
    concat (seg3 subs <$> rev (of_class here dl Plain true es))) <= bound)%nat) by (rewrite !length_app; cbn [length]; lia).
  destruct (foldM_segments I (fun n => pass1 mode rec here (join here) dl (MkEntry n true, Extra)) (seg1 subs) (fun n => negb (sub_of n subs).2) bound _ _ _ _ _ H1 Hact Hb1 Hi) as (f1&->&Hi1). cbn [mbind outcome_bind].
  rewrite (foldM_class _ (verdict here dl) Extra false fl1) by (done || (intros [? c] s Hc; unfold pass2; simpl in *; by rewrite bool_decide_eq_false_2)).
  rewrite <- Cfalse. apply NoDup_app in Hact as (_&_&Hact).
  destruct (foldM_segments I (fun n => pass2 mode here (join here) (MkEntry n false, Extra)) seg2 (fun _ => false) bound _ _ _ _ _
    ltac:(intros; rewrite orb_false_r; by apply H2) Hact Hb2 Hi1) as (f2&->&Hi2). cbn [mbind outcome_bind].
  rewrite (foldM_class _ (verdict here dl) Plain true (rev dl1)) by (done || (intros [? c] s Hc; unfold pass3; simpl in *; by rewrite bool_decide_eq_false_2)).
  rewrite filter_rev. rewrite (map_rev e_name). change (map e_name) with (fmap (M := list) e_name). rewrite <- Ctrue.
  apply NoDup_app in Hact as (_&_&Hact). rewrite <- (app_nil_r (rev _)) in Hact, Hi2.
  destruct (foldM_segments I (fun n => pass3 rec here (join here) dl (MkEntry n true, Plain)) (seg3 subs) (fun _ => true) bound (rev (of_class here dl Plain true es)) [] _ _ _
    ltac:(intros n pl sv rest s Hn; apply H3; by apply list_elem_of_In, in_rev, list_elem_of_In in Hn) Hact Hb3 Hi2) as (f3&->&Hi3).
  exists f3. split_and!; [by rewrite E, <- Eds, <- Efs|done|]. unfold DeleteExact.plan_dir. simpl. rewrite <- !app_assoc in Hi3.
  assert (Hsv : forall a b, I a b [] f3 -> forall a' b', a = a' -> b = b' -> I a' b' [] f3) by (by intros; subst).
  eapply Hsv; [exact Hi3|done|]. rewrite negb_andb. fold stays.
  assert (Hneg : forall {X} (p : X -> bool) l, negb (forallb p l) = existsb (fun x => negb (p x)) l).
  { intros X p l. induction l as [|x l IH]; simpl; [done|]. by rewrite negb_andb, IH. }
  rewrite !Hneg. fold stays. 
  assert (Hpl : existsb (fun _ => true) (rev (of_class here dl Plain true es)) = true -> stays = true).
  { rewrite existsb_exists. intros (n&Hn&_). apply in_rev, list_elem_of_In in Hn. apply of_class_elem in Hn as (Hv&nd&Hf&Hd); [|done].
    apply existsb_exists. exists (MkEntry n true). split; [apply list_elem_of_In, ordered_names; [done|by exists nd]|]. simpl. by rewrite Hv. }
  destruct stays eqn:Est; [done|]. destruct (existsb (fun _ => true) _); [by rewrite Hpl|]. rewrite !orb_false_l, orb_false_r.
  assert (existsb (fun _ : name => false) (of_class here dl Extra false es) = false) as ->.
  { clear. induction (of_class here dl Extra false es); done. }
  by rewrite orb_false_r.
Qed.
End Traverse.

(** ** What the limit holds back

    When the budget runs out, [rest] are the planned removals that stay.  The
    walk counts a path as skipped when it tries to remove it and may not: that
    is every path of [rest] with nothing of [rest] below it (a directory that
    keeps some of its contents is not tried). *)
Definition beneath (r r' : removal) : Prop := r.1 `prefix_of` r'.1 /\ r.1 <> r'.1.
#[global] Instance beneath_dec r r' : Decision (beneath r r').
Proof. unfold beneath. apply _. Defined.
Definition held_in (rest l : list removal) : list removal := filter (fun r => Forall (fun r' => ~ beneath r r') rest) l.
Definition held_back (rest : list removal) : list removal := held_in rest rest.

Lemma elem_drop {A} (x : A) n l : x ∈ drop n l -> x ∈ l.
Proof. intros Hx. rewrite <- (take_drop n l). apply elem_of_app. by right. Qed.
Lemma held_in_app rest l1 l2 : held_in rest (l1 ++ l2) = held_in rest l1 ++ held_in rest l2.
Proof. apply filter_app. Qed.
Lemma held_in_more rest more l : (forall r r', r ∈ l -> r' ∈ more -> ~ beneath r r') -> held_in (rest ++ more) l = held_in rest l.
Proof.
  intros Hno. induction l as [|r l IH]; [done|]. unfold held_in in *. rewrite !filter_cons, IH by (intros; apply Hno; [by right|done]).
  assert (He : Forall (fun r' => ~ beneath r r') (rest ++ more) <-> Forall (fun r' => ~ beneath r r') rest).
  { rewrite Forall_app. split; [tauto|]. intros Hf. split; [done|]. apply Forall_forall. intros r' Hr'. apply Hno; [by left|done]. }
  repeat case_decide; tauto.
Qed.
Lemma held_in_comm rest more l : held_in (rest ++ more) l = held_in (more ++ rest) l.
Proof. apply list_filter_iff. intros r. rewrite !Forall_app. tauto. Qed.
Lemma held_apart l1 l2 :
  (forall r r', r ∈ l1 -> r' ∈ l2 -> ~ beneath r r' /\ ~ beneath r' r) -> held_back (l1 ++ l2) = held_back l1 ++ held_back l2.
Proof.
  intros Hap. unfold held_back. rewrite held_in_app. f_equal; [apply held_in_more; intros r r' Hr Hr'; by destruct (Hap r r' Hr Hr')|].
  rewrite held_in_comm. apply held_in_more. intros r r' Hr Hr'. by destruct (Hap r' r Hr' Hr).
Qed.
Lemma beneath_under n r r' : beneath (n :: r.1, r.2) (n :: r'.1, r'.2) <-> beneath r r'.
Proof.
  unfold beneath. simpl. split; intros [Hp Hne]; (split; [|congruence]).
  - by apply prefix_cons_inv_2 in Hp.
  - by apply prefix_cons.
Qed.
Lemma held_under n l : length (held_back (under n l)) = length (held_back l).
Proof.
  unfold held_back. assert (Hg : forall rest l, held_in (under n rest) (under n l) = under n (held_in rest l)).
  { intros rest. clear l. induction l as [|r l IH]; [done|]. unfold held_in, under in *. rewrite fmap_cons, !filter_cons, IH.
    assert (He : Forall (fun r' => ~ beneath (n :: r.1, r.2) r') ((fun r => (n :: r.1, r.2)) <$> rest) <-> Forall (fun r' => ~ beneath r r') rest)
      by (rewrite Forall_fmap; unfold compose; split; intros Hf; (eapply Forall_impl; [exact Hf|]); intros x; cbn beta; by rewrite beneath_under).
    destruct (decide (Forall (fun r' => ~ beneath r r') rest)) as [Hd|Hd].
    - rewrite decide_True by (by apply He). done.
    - rewrite decide_False by (by rewrite He). done. }
  rewrite Hg. unfold under. by rewrite length_fmap.
Qed.
(** One more path: it counts unless something below it stays. *)
Lemma held_snoc l r : (forall r', r' ∈ l -> ~ beneath r' r) ->
  length (held_back (l ++ [r])) = (length (held_back l) + if decide (Exists (beneath r) l) then 0 else 1)%nat.
Proof.
  intros Hno. unfold held_back. rewrite held_in_app, length_app. f_equal.
  - rewrite held_in_more; [done|]. intros r1 r2 H1 ->%list_elem_of_singleton. by apply Hno.
  - unfold held_in. rewrite filter_cons, filter_nil. assert (Hr : ~ beneath r r) by (by intros [_ ?]).
    destruct (decide (Exists (beneath r) l)) as [He|He].
    + rewrite decide_False; [done|]. rewrite Forall_app. intros [Hf _]. apply Exists_exists in He as (x&Hx&Hb). rewrite Forall_forall in Hf. by apply (Hf x).
    + rewrite decide_True; [done|]. apply Forall_app. split; [|by apply Forall_singleton]. apply Forall_forall. intros x Hx Hb. apply He, Exists_exists. by exists x.
Qed.

(** ** A run without failures *)

Section Exact.
Context `{Heap} `{XXHash64}.
Local Existing Instance no_faults.
Context (manifest : list (list byte)) (synced : option (list (list byte)))
  (skips : list DeleteSkipEntry) (protect_rules : option FilterRuleList).
Context (keep : PathIndex) (dirs : option PathIndex) (Hix : indexes manifest synced keep dirs).
Context (Hmalloc : forall size, malloc_ok size = true).
Local Abbreviation verdict := (verdict manifest synced skips protect_rules).
Local Abbreviation of_class := (of_class manifest synced skips protect_rules).
Local Abbreviation subs_of := (subs_of manifest synced skips protect_rules).
Local Abbreviation plan := (plan manifest synced skips protect_rules).
Local Abbreviation acted := (acted manifest synced skips protect_rules).
Local Abbreviation synced_dir := (synced_dir synced).

(** Every path is short enough to be built. *)
Definition short (here : list name) (es : entries) : Prop := forall p k, kind_at es p = Some k -> zlen (join (here ++ p)) < 2 ^ 62.

Lemma short_sub here es n ces : short here es -> find n es = Some (Dir ces) -> short (here ++ [n]) ces.
Proof. intros Hs Hf p k Hk. rewrite <- app_assoc. apply (Hs (n :: p) k). simpl. by rewrite Hf. Qed.

Lemma path_cat_exact here n :
  Forall name_ok here -> name_ok n -> zlen (join (here ++ [n])) < 2 ^ 62 ->
  path_cat (Some (join here)) (Some n) = Ret (join (here ++ [n])).
Proof.
  intros Hh Hn Hz. pose proof (path_cat_join here n Hh Hn) as Hj. destruct (path_cat _ _) eqn:E; [by subst| |done]. exfalso.
  destruct (decide (here = [])) as [->|Hne].
  { unfold path_cat in E. simpl in E. unfold str_dup in E. simpl in E. by rewrite Hmalloc in E. }
  rewrite join_snoc, !zlen_app in Hz by done. change (zlen [slash]) with 1 in Hz. pose proof (zlen_nonneg n). pose proof (zlen_nonneg (join here)).
  pose proof (join_nonempty here Hh Hne). destruct (name_ok_cons n Hn) as (c&t&->&Hc).
  unfold path_cat in E. cbn [default from_option id] in E. rewrite bool_decide_eq_false_2, bool_decide_eq_false_2 in E by done.
  assert (Ec : char_is (c :: t) 0 slash = false) by (apply bool_decide_eq_false_2; simpl; congruence). rewrite Ec in E.
  assert (El : char_is (join here) (length (join here) - 1) slash = false).
  { apply bool_decide_eq_false_2. pose proof (join_last here Hh) as Hl. rewrite last_lookup in Hl. by rewrite <- Nat.sub_1_r in Hl. }
  rewrite El in E. rewrite u64_small in E by (unfold SIZE_MAX; lia).
  destruct (Z.gtb_spec (zlen (join here)) (SIZE_MAX - (zlen (c :: t) - 0) - 2)); [unfold SIZE_MAX in *; lia|]. simpl negb in E.
  cbn [check mbind outcome_bind] in E. rewrite Hmalloc in E. cbn [check mbind outcome_bind] in E.
  rewrite rd_ret in E by lia. cbn [mbind outcome_bind] in E. by rewrite rd_ret in E by lia.
Qed.

Lemma collect_exact here es : wf_node (Dir es) -> delete_dir_entries_collect here es = Ret (listed es, true).
Proof.
  intros Hw. inversion Hw as [|? Hnd Ha]; subst. unfold delete_dir_entries_collect. rewrite fault_none.
  assert (Hgen : forall l acc cap, (forall n nd, (n, nd) ∈ l -> find n es = Some nd /\ name_ok n) ->
    collect_loop here es l.*1 acc cap true = Ret (acc ++ listed l, true)).
  { induction l as [|[n nd] l IH]; intros acc cap Hl; [by rewrite app_nil_r|]. rewrite fmap_cons. cbn [collect_loop fst].
    destruct (Hl n nd) as [Hf (_&_&_&Hn1&Hn2)]; [by left|].
    destruct (Z.eqb_spec (strcmp n (cs ".")) 0) as [?%strcmp_eq|_]; [done|].
    destruct (Z.eqb_spec (strcmp n (cs "..")) 0) as [?%strcmp_eq|_]; [done|]. cbn [orb].
    unfold fstatat_is_dir. rewrite fault_none, Hf, Hmalloc, orb_true_r. cbn [check mbind outcome_bind].
    unfold str_dup. cbn [of_option mbind outcome_bind]. rewrite Hmalloc. cbn [check mbind outcome_bind].
    rewrite IH by (intros; apply Hl; by right). by rewrite <- app_assoc. }
  change ([cs "."; cs ".."] ++ es.*1) with (cs "." :: cs ".." :: es.*1).
  cbn [collect_loop]. rewrite (Hgen es); [done|]. intros n nd Hin. split; [by apply elem_find|by apply (Ha n nd)].
Qed.

Lemma entries_short here es : wf_node (Dir es) -> short here es ->
  Forall (fun e => name_ok (e_name e) /\ zlen (join (here ++ [e_name e])) < 2 ^ 62) (sort_entries (listed es)).
Proof.
  intros Hw Hs. pose proof Hw as Hw'. inversion Hw' as [|? Hnd Ha]; subst.
  apply Forall_forall. intros e (nd&Hf&_)%ordered_names; [|done]. destruct (wf_find _ _ _ Hw Hf) as [Hok _]. split; [done|].
  apply (Hs [e_name e] (match nd with Leaf l i => KLeaf l i | Dir _ => KDir end)). simpl. rewrite Hf. by destruct nd.
Qed.

Lemma classify_exact here dl l f :
  Forall name_ok here -> Forall (fun e => name_ok (e_name e) /\ zlen (join (here ++ [e_name e])) < 2 ^ 62) l ->
  classify keep dirs skips protect_rules (join here) dl l f =
  Ret ((fun e => (e, verdict here dl (e_name e) (e_is_dir e))) <$> l,
       MkFrame (operation_ok f) (local_survives f || existsb (fun e => negb (bool_decide (verdict here dl (e_name e) (e_is_dir e) = Extra))) l) (state f) (dir f)).
Proof.
  intros Hh Hl. revert f. induction Hl as [|[n d] l [Hn Hz] Hl IH]; intros f; cbn [classify fmap list_fmap existsb].
  { rewrite orb_false_r. by destruct f. }
  simpl e_name in *. simpl e_is_dir. rewrite path_cat_exact by done. rewrite (classify_child_spec manifest synced) by done. cbn [mbind outcome_bind].
  rewrite IH. cbn [mbind outcome_bind]. case_bool_decide; simpl; [done|]. by rewrite orb_true_r.
Qed.

(** *** Deleting *)

Section Delete.
Context (here : list name) (Hhere : Forall name_ok here) (dl : bool) (es : entries) (Hwf : wf_node (Dir es)) (Hshort : short here es).
Context (st0 : DeleteWalkState) (Hb0 : budget_ok (budget st0)) (Hsk0 : u64 (skipped (budget st0)) = skipped (budget st0)).
Local Abbreviation subs := (subs_of here dl es).
Definition left_over (st : DeleteWalkState) : nat := Z.to_nat (max_delete (budget st) - deleted (budget st)).
Local Abbreviation b := (left_over st0).

(** The state when the removals [pl] are behind, as far as the budget went. *)
Record at_point (pl : list removal) (rest : list name) (f : frame) : Prop := {
  ap_ok : operation_ok f = true;
  ap_eff : effect es (take b pl) (dir f);
  ap_rest m : m ∈ rest -> find m (dir f) = find m es;
  ap_max : max_delete (budget (state f)) = max_delete (budget st0);
  ap_del : deleted (budget (state f)) = deleted (budget st0) + zlen (take b pl);
  ap_lim : limit_hit (budget (state f)) = limit_hit (budget st0) || (b <? length pl)%nat;
  ap_obs : observed (state f) = observed st0 ++ (report here <$> take b pl);
  ap_skip : skipped (budget (state f)) = u64 (skipped (budget st0) + Z.of_nat (length (held_back (drop b pl))));
  ap_heads r : r ∈ pl -> exists m q, r.1 = m :: q /\ m ∉ rest;
}.
Definition deleting (pl : list removal) (sv : bool) (rest : list name) (f : frame) : Prop :=
  at_point pl rest f /\ local_survives f = sv || (b <? length pl)%nat.

Lemma zlen_take {A} (l : list A) n : zlen (take n l) = Z.of_nat (n `min` length l).
Proof. unfold zlen. by rewrite length_take. Qed.

Lemma ap_left pl rest f : at_point pl rest f -> left_over (state f) = (b - length pl)%nat /\ budget_ok (budget (state f)).
Proof.
  intros [_ _ _ Hm Hd _ _ _ _]. unfold left_over in *. rewrite Hm, Hd, zlen_take. unfold budget_ok in *. rewrite Hm, Hd, zlen_take. lia.
Qed.

Lemma ap_full pl rest f : at_point pl rest f -> (deleted (budget (state f)) >=? max_delete (budget (state f))) = (b <=? length pl)%nat.
Proof.
  intros [_ _ _ Hm Hd _ _ _ _]. rewrite Hm, Hd, zlen_take. unfold left_over, budget_ok in *.
  destruct (Z.geb_spec (deleted (budget st0) + Z.of_nat (Z.to_nat (max_delete (budget st0) - deleted (budget st0)) `min` length pl)) (max_delete (budget st0)));
    destruct (Nat.leb_spec (Z.to_nat (max_delete (budget st0) - deleted (budget st0))) (length pl)); lia.
Qed.

Lemma ap_survivor pl rest f : at_point pl rest f -> at_point pl rest (survivor f).
Proof. by intros []. Qed.
Lemma ap_tail pl n rest f : at_point pl (n :: rest) f -> at_point pl rest f.
Proof.
  intros [H1 H2 H3 H4 H5 H6 H7 H8 H9]. split; try done; [intros m Hm; apply H3; by right|].
  intros r Hr. destruct (H9 r Hr) as (m&q&E&Hm). exists m, q. split; [done|]. intros ?. apply Hm. by right.
Qed.
(** Nothing behind lies below or above a name still to come. *)
Lemma heads_apart pl n rest f : at_point pl (n :: rest) f -> forall r q d, r ∈ drop b pl -> ~ beneath r (n :: q, d) /\ ~ beneath (n :: q, d) r.
Proof.
  intros Hap r q d Hr. destruct (ap_heads _ _ _ Hap r) as (m&q'&E&Hm); [by eapply elem_drop|].
  unfold beneath. rewrite E. split; intros [Hp _]; apply prefix_cons_inv_1 in Hp; apply Hm; subst; by left.
Qed.
Lemma heads_snoc (pl : list removal) (n : name) (rest : list name) (r : removal) (q : list name) (d : bool) : n ∉ rest -> (forall r, r ∈ pl -> exists m q, r.1 = m :: q /\ m ∉ rest) ->
  r ∈ pl ++ [(n :: q, d)] -> exists m q, r.1 = m :: q /\ m ∉ rest.
Proof. intros Hn Hh [Hr| ->%list_elem_of_singleton]%elem_of_app; [by apply Hh|]. by exists n, q. Qed.
Lemma u64_add_l x y : u64 (u64 x + y) = u64 (x + y).
Proof. unfold u64. by rewrite Zplus_mod_idemp_l. Qed.

(** The budget is spent: one more entry stays. *)
Lemma ap_stop pl n rest f d :
  at_point pl rest f -> n ∉ rest -> (b <= length pl)%nat ->
  (forall r, r ∈ drop b pl -> ~ beneath r ([n], d) /\ ~ beneath ([n], d) r) ->
  at_point (pl ++ [([n], d)]) rest (survivor (set_state f (set_budget (state f) (note_skipped (budget (state f)))))).
Proof.
  intros [H1 H2 H3 H4 H5 H6 H7 H8 H9] Hn Hb Hap. set (r := ([n], d)) in *.
  assert (Ht : take b (pl ++ [r]) = take b pl) by (by rewrite take_app_le).
  assert (Hl : (b <? length (pl ++ [r]))%nat = true) by (apply Nat.ltb_lt; rewrite length_app; simpl; lia).
  split; simpl; rewrite ?Ht, ?Hl, ?orb_true_r; try done.
  - rewrite drop_app_le, held_snoc by (done || (intros r' Hr'; by apply Hap)). rewrite decide_False.
    + rewrite H8, u64_add_l. f_equal. lia.
    + intros (x&Hx&Hbx)%Exists_exists. by apply (Hap x Hx).
  - intros r'. by apply heads_snoc.
Qed.
Lemma ap_over pl n rest f d : at_point pl rest f -> n ∉ rest -> (b < length pl)%nat ->
  (forall r, r ∈ drop b pl -> ~ beneath r ([n], d)) -> Exists (beneath ([n], d)) (drop b pl) -> at_point (pl ++ [([n], d)]) rest f.
Proof.
  intros [H1 H2 H3 H4 H5 H6 H7 H8 H9] Hn Hb Hap Hex. set (r := ([n], d)) in *.
  assert (Ht : take b (pl ++ [r]) = take b pl) by (rewrite take_app_le; [done|lia]).
  assert (Hl : (b <? length (pl ++ [r]))%nat = (b <? length pl)%nat).
  { transitivity true; [|symmetry]; apply Nat.ltb_lt; [rewrite length_app; simpl|]; lia. }
  split; rewrite ?Ht, ?Hl; try done.
  - rewrite drop_app_le, held_snoc, decide_True by (done || lia). by rewrite Nat.add_0_r.
  - intros r'. by apply heads_snoc.
Qed.

(** One entry goes. *)
Lemma ap_remove pl rest f n d r :
  at_point pl rest f -> n ∉ rest -> (length pl < b)%nat ->
  effect (dir f) [([n], d)] (del_entry n (dir f)) -> r = report here ([n], d) ->
  at_point (pl ++ [([n], d)]) rest
    (set_dir (set_state f (observe (set_budget (state f) (note_deleted (budget (state f)))) r)) (del_entry n (dir f))).
Proof.
  intros Hap Hn Hb He ->. pose proof (ap_left _ _ _ Hap) as [_ Hbo]. destruct Hap as [H1 H2 H3 H4 H5 H6 H7 H8 H9].
  assert (Hdr : drop b (pl ++ [([n], d)]) = drop b pl) by (rewrite !drop_ge; rewrite ?length_app; simpl; done || lia).
  assert (Ht : take b (pl ++ [([n], d)]) = pl ++ [([n], d)]) by (apply take_ge; rewrite length_app; simpl; lia).
  assert (Ht0 : take b pl = pl) by (apply take_ge; lia).
  assert (Hl : (b <? length (pl ++ [([n], d)]))%nat = (b <? length pl)%nat).
  { transitivity false; [|symmetry]; apply Nat.ltb_ge; [rewrite length_app; simpl|]; lia. }
  rewrite Ht0 in *. assert (Hz : 0 <= deleted (budget st0) + zlen pl < SIZE_MAX).
  { unfold left_over, budget_ok, SIZE_MAX, zlen in *. lia. }
  clear Hbo Hb0. split; simpl; rewrite ?Ht, ?Hl, ?Hdr; try done.
  - by eapply effect_trans.
  - intros m Hm. rewrite find_del, decide_False; [by apply H3|]. intros ->. done.
  - rewrite H5, zlen_app. change (zlen [([n], d)]) with 1. rewrite u64_small; unfold SIZE_MAX in *; lia.
  - by rewrite H7, fmap_app, <- app_assoc.
  - intros r'. by apply heads_snoc.
Qed.

(** The walk below a child. *)
Definition del_exact (k : nat) (rec : list byte -> list name -> bool -> DeleteWalkState -> entries -> outcome (bool * bool * DeleteWalkState * entries)) : Prop :=
  forall here pd st es, Forall name_ok here -> wf_node (Dir es) -> (depth (Dir es) <= k)%nat -> short here es -> budget_ok (budget st) ->
    u64 (skipped (budget st)) = skipped (budget st) ->
    let pl := plan here pd (Dir es) in let b := left_over st in
    exists st' es', rec (join here) here pd st es = Ret (true, pl.2 && (length pl.1 <=? b)%nat, st', es') /\
      effect es (take b pl.1) es' /\ max_delete (budget st') = max_delete (budget st) /\
      deleted (budget st') = deleted (budget st) + zlen (take b pl.1) /\
      limit_hit (budget st') = limit_hit (budget st) || (b <? length pl.1)%nat /\
      observed st' = observed st ++ (report here <$> take b pl.1) /\
      skipped (budget st') = u64 (skipped (budget st) + Z.of_nat (length (held_back (drop b pl.1)))).

Context (k : nat) rec (Hrec : del_exact k rec) (Hdepth : (depth (Dir es) <= S k)%nat).

Lemma descend_exact pl n rest f ces :
  n ∉ rest -> name_ok n -> find n es = Some (Dir ces) -> at_point pl (n :: rest) f ->
  exists f' ces', descend rec here dl (join (here ++ [n])) n f =
      Ret (f', (sub_of n subs).2 && (length (sub_of n subs).1 <=? b - length pl)%nat) /\
    at_point (pl ++ seg3 subs n) rest f' /\ local_survives f' = local_survives f /\
    find n (dir f') = Some (Dir ces') /\ effect ces (take (b - length pl) (sub_of n subs).1) ces'.
Proof.
  intros Hn Hok Hf Hap. destruct (ap_left _ _ _ Hap) as [Hlo Hbo]. pose proof (sub_of_find manifest synced skips protect_rules here dl es n _ Hf) as Es.
  assert (Hfd : find n (dir f) = Some (Dir ces)) by (rewrite (ap_rest _ _ _ Hap) by (by left); done).
  unfold descend, openat_dir. rewrite fault_none, Hfd.
  destruct (Hrec (here ++ [n]) dl (state f) ces) as (st'&ces'&->&He&Hm&Hd&Hl&Ho&Hsk);
    [by apply Forall_app_2; [|apply Forall_singleton]|by eapply wf_find|by eapply depth_wf|by eapply short_sub|done|rewrite (ap_skip _ _ _ Hap); unfold u64; by rewrite Z.mod_mod|].
  rewrite <- Es, Hlo in *. cbn [mbind outcome_bind]. eexists _, ces'. split; [done|].
  assert (Hlen : length (seg3 subs n) = length (sub_of n subs).1) by (unfold seg3, under; by rewrite length_fmap).
  assert (Ht : take b (pl ++ seg3 subs n) = take b pl ++ under n (take (b - length pl) (sub_of n subs).1)).
  { rewrite take_app. f_equal. unfold seg3, under. by rewrite <- fmap_take. }
  split; [|split; [done|]; split; [simpl; by rewrite find_set, decide_True, Hfd by done|done]].
  pose proof (heads_apart _ _ _ _ Hap) as Hapart. destruct Hap as [H1 H2 H3 H4 H5 H6 H7 H8 H9]. split; cbn [operation_ok state dir set_dir set_state and_ok]; rewrite ?Ht.
  - by rewrite H1.
  - eapply effect_trans; [done|]. by eapply effect_sub.
  - intros m Hm'. rewrite find_set, decide_False; [apply H3; by right|]. intros ->. done.
  - congruence.
  - rewrite Hd, H5, zlen_app. unfold under, zlen. rewrite length_fmap. lia.
  - rewrite Hl, H6, <- orb_assoc. f_equal. rewrite length_app, Hlen.
    destruct (Nat.ltb_spec b (length pl)), (Nat.ltb_spec (b - length pl) (length (sub_of n subs).1)), (Nat.ltb_spec b (length pl + length (sub_of n subs).1)); done || lia.
  - rewrite Ho, H7, fmap_app, <- app_assoc. f_equal. f_equal. symmetry. apply report_under.
  - rewrite Hsk, H8, u64_add_l, drop_app, held_apart, length_app.
    + unfold seg3 at 1. assert (drop (b - length pl) (under n (sub_of n subs).1) = under n (drop (b - length pl) (sub_of n subs).1)) as -> by (unfold under; by rewrite fmap_drop).
      rewrite held_under. f_equal. lia.
    + intros r r' Hr Hr'%elem_drop. unfold seg3, under in Hr'. apply list_elem_of_fmap in Hr' as (x&->&_). by apply Hapart.
  - intros r [Hr|Hr]%elem_of_app.
    + destruct (H9 r Hr) as (m&q&E&Hm'). exists m, q. split; [done|]. intros ?. apply Hm'. by right.
    + unfold seg3, under in Hr. apply list_elem_of_fmap in Hr as (x&->&_). by exists n, x.1.
Qed.

Lemma emptied pd h ces ces' n :
  NoDup ces.*1 -> (plan h pd (Dir ces)).2 = true -> (length (plan h pd (Dir ces)).1 <= n)%nat ->
  effect ces (take n (plan h pd (Dir ces)).1) ces' -> ces' = [].
Proof.
  intros Hnd Hall Hn [Hk _ _]. rewrite take_ge in Hk by lia. destruct ces' as [|[m x] ces']; [done|]. exfalso.
  specialize (Hk [m]). simpl in Hk. rewrite decide_True in Hk by done. case_decide as Hd; [by destruct x|].
  destruct (find m ces) as [nd|] eqn:Ef; [|by destruct x]. apply Hd. by eapply plan_all.
Qed.

Lemma find_of_class c d n : n ∈ of_class here dl c d es ->
  name_ok n /\ zlen (join (here ++ [n])) < 2 ^ 62 /\ verdict here dl n d = c /\ exists nd, find n es = Some nd /\ is_dir nd = d /\ wf_node nd.
Proof.
  inversion Hwf as [|? Hnd Ha]; subst. intros Hn. apply of_class_elem in Hn as (Hv&nd&Hf&Hd); [|done].
  destruct (wf_find _ _ _ Hwf Hf) as [Hok Hw]. split_and!; [done| |done|by exists nd].
  apply (Hshort [n] (match nd with Leaf l i => KLeaf l i | Dir _ => KDir end)). simpl. rewrite Hf. by destruct nd.
Qed.

(** A child directory and what is left of its own plan. *)
Lemma dir_apart pl n rest f r :
  at_point pl (n :: rest) f -> r ∈ drop b (pl ++ seg3 subs n) -> ~ beneath r ([n], true).
Proof.
  intros Hap. rewrite drop_app. intros [Hr|Hr%elem_drop]%elem_of_app; [by apply (heads_apart _ _ _ _ Hap)|].
  unfold seg3, under in Hr. apply list_elem_of_fmap in Hr as (x&->&_). unfold beneath. simpl. intros [Hp Hne]. apply prefix_cons_inv_2 in Hp.
  apply prefix_nil_inv in Hp. by rewrite Hp in Hne.
Qed.
Lemma dir_emptied pl n rest f r :
  at_point pl (n :: rest) f -> (length (sub_of n subs).1 <= b - length pl)%nat -> r ∈ drop b (pl ++ seg3 subs n) -> ~ beneath ([n], true) r.
Proof.
  intros Hap Hle. rewrite drop_app, (drop_ge (seg3 subs n)), app_nil_r; [|unfold seg3, under; by rewrite length_fmap]. intros Hr. by apply (heads_apart _ _ _ _ Hap).
Qed.
Lemma dir_left pl n ces :
  find n es = Some (Dir ces) -> (b - length pl < length (sub_of n subs).1)%nat -> Exists (beneath ([n], true)) (drop b (pl ++ seg3 subs n)).
Proof.
  intros Hf Hlt. pose proof (sub_of_find manifest synced skips protect_rules here dl es n _ Hf) as Es. rewrite plan_unfold in Es.
  rewrite drop_app. apply Exists_app. right. unfold seg3, under. rewrite <- fmap_drop.
  destruct (drop (b - length pl) (sub_of n subs).1) as [|[q d] l] eqn:Ed; [apply (f_equal length) in Ed; rewrite length_drop in Ed; simpl in Ed; lia|].
  left. assert (Hq : q <> []).
  { intros ->. apply (plan_dir_nonempty manifest synced skips protect_rules (here ++ [n]) (dl || synced_dir (here ++ [n])) ces
      (subs_of (here ++ [n]) (dl || synced_dir (here ++ [n])) ces) d). rewrite <- Es. apply (elem_drop _ (b - length pl)). rewrite Ed. by left. }
  unfold beneath. simpl. split; [by apply prefix_cons, prefix_nil|congruence].
Qed.

Lemma del_pass1 n pl sv rest f :
  n ∈ of_class here dl Extra true es -> n ∉ rest -> deleting pl sv (n :: rest) f ->
  exists f', pass1 DELETE_WALK_MODE_DELETE rec here (join here) dl (MkEntry n true, Extra) f = Ret f' /\
    deleting (pl ++ seg1 subs n) (sv || negb (sub_of n subs).2) rest f'.
Proof.
  intros (Hok&Hz&Hv&nd&Hf&Hd&Hwn)%find_of_class Hn [Hap Hsv]. destruct nd as [|ces]; [done|].
  unfold pass1. cbn [fst snd e_name]. rewrite bool_decide_eq_true_2 by done. cbn [negb]. rewrite path_cat_exact by done.
  destruct (descend_exact pl n rest f ces Hn Hok Hf Hap) as (f1&ces'&->&Hap1&Hs1&Hf1&He1). cbn [mbind outcome_bind].
  assert (Hdl : dl = true).
  { revert Hv. unfold DeleteSafe.verdict. destruct (shielded _ _ _ _ _), dl; simpl; done. }
  assert (Handb : forall x, x && dl = x) by (intros; rewrite Hdl; apply andb_true_r). rewrite Handb. fold (seg3 subs n) in *.
  assert (Hseg : seg1 subs n = seg3 subs n ++ (if (sub_of n subs).2 then [([n], true)] else [])) by done.
  assert (Hlen : length (seg3 subs n) = length (sub_of n subs).1) by (unfold seg3, under; by rewrite length_fmap).
  rewrite Hseg, app_assoc. destruct (sub_of n subs).2 eqn:E2; cbn [negb andb].
  - rewrite orb_false_r. destruct (Nat.leb_spec (length (sub_of n subs).1) (b - length pl)) as [Hle|Hgt].
    + assert (ces' = []) as ->.
      { pose proof (sub_of_find manifest synced skips protect_rules here dl es n _ Hf) as Es. rewrite Es in *.
        eapply (emptied dl (here ++ [n]) ces); [by inversion Hwn|done|exact Hle|done]. }
      unfold remove_dir. rewrite (ap_full _ _ _ Hap1). destruct (Nat.leb_spec b (length (pl ++ seg3 subs n))) as [Hb|Hb].
      * eexists. split; [done|]. split; [apply ap_stop; [done..|]; intros r Hr; split; [by eapply dir_apart|by eapply dir_emptied]|]. simpl. rewrite length_app. simpl.
        destruct (Nat.ltb_spec b (length (pl ++ seg3 subs n) + 1)); [by rewrite orb_true_r|lia].
      * unfold unlinkat_dir. rewrite fault_none, Hf1, Hmalloc. eexists. split; [done|]. split.
        { apply ap_remove; [done..| |done]. apply (effect_one n (dir f1) _ Hf1). intros [|m q] Hq; [done|]. cbn [kind_at]. by rewrite Hf1. }
        simpl. rewrite Hs1, Hsv. f_equal. rewrite !length_app in *. simpl.
        transitivity false; [|symmetry]; apply Nat.ltb_ge; lia.
    + eexists. split; [done|]. assert (b < length (pl ++ seg3 subs n))%nat by (rewrite length_app, Hlen; lia).
      split; [apply ap_survivor, ap_over; [done..|intros r Hr; by eapply dir_apart|by eapply dir_left]|]. simpl. rewrite length_app.
      assert ((b <? length (pl ++ seg3 subs n) + length [([n], true)])%nat = true) as -> by (apply Nat.ltb_lt; lia). by rewrite orb_true_r.
  - rewrite app_nil_r. eexists. split; [done|]. split; [by apply ap_survivor|]. simpl. by rewrite orb_true_r.
Qed.

Lemma del_pass2 n pl sv rest f :
  n ∈ of_class here dl Extra false es -> n ∉ rest -> deleting pl sv (n :: rest) f ->
  exists f', pass2 DELETE_WALK_MODE_DELETE here (join here) (MkEntry n false, Extra) f = Ret f' /\ deleting (pl ++ seg2 n) sv rest f'.
Proof.
  intros (Hok&Hz&Hv&nd&Hf&Hd&Hwn)%find_of_class Hn [Hap Hsv]. destruct nd as [l i|]; [|done].
  unfold pass2. cbn [fst snd e_name]. rewrite bool_decide_eq_true_2 by done. cbn [negb].
  assert (Hfd : find n (dir f) = Some (Leaf l i)) by (rewrite (ap_rest _ _ _ Hap) by (by left); done).
  rewrite (ap_full _ _ _ Hap). destruct (Nat.leb_spec b (length pl)) as [Hb|Hb].
  - eexists. split; [done|]. split; [apply ap_stop; [by eapply ap_tail|done|done|intros r Hr; by apply (heads_apart _ _ _ _ Hap)]|]. simpl. rewrite length_app. simpl.
    destruct (Nat.ltb_spec b (length pl + 1)); [by rewrite orb_true_r|lia].
  - unfold unlinkat_file. rewrite fault_none, Hfd. rewrite path_cat_exact by done. eexists. split; [done|]. split.
    + apply ap_remove; [by eapply ap_tail|done..| |unfold report; by rewrite app_nil_r].
      apply (effect_one n (dir f) _ Hfd). intros [|m q] Hq; [done|]. cbn [kind_at]. by rewrite Hfd.
    + simpl. rewrite Hsv. f_equal. rewrite length_app. simpl. transitivity false; [|symmetry]; apply Nat.ltb_ge; lia.
Qed.

Lemma del_pass3 n pl sv rest f :
  n ∈ of_class here dl Plain true es -> n ∉ rest -> deleting pl sv (n :: rest) f ->
  exists f', pass3 rec here (join here) dl (MkEntry n true, Plain) f = Ret f' /\ deleting (pl ++ seg3 subs n) (sv || true) rest f'.
Proof.
  intros (Hok&Hz&Hv&nd&Hf&Hd&Hwn)%find_of_class Hn [Hap Hsv]. destruct nd as [|ces]; [done|].
  unfold pass3. cbn [fst snd e_name]. rewrite bool_decide_eq_true_2 by done. cbn [negb]. rewrite path_cat_exact by done.
  destruct (descend_exact pl n rest f ces Hn Hok Hf Hap) as (f1&ces'&->&Hap1&_). cbn [mbind outcome_bind]. eexists. split; [done|].
  split; [by apply ap_survivor|]. by rewrite orb_true_r.
Qed.
End Delete.

Lemma walk_del_exact k : del_exact k (delete_walk_fd DELETE_WALK_MODE_DELETE keep dirs skips protect_rules k).
Proof.
  induction k as [|k IH]; intros here pd st es Hh Hw Hd Hs Hb Hsk0; [simpl in Hd; lia|]. intros pl b. cbn [delete_walk_fd].
  rewrite collect_exact, Hmalloc by done. cbn [negb].
  assert ((if pd then Ret true else is_synced_dir dirs (join here)) = Ret (pd || synced_dir here)) as ->.
  { destruct pd; [done|]. by apply (is_synced_spec manifest synced keep dirs Hix). }
  cbn [mbind outcome_bind]. pose proof Hw as Hw'. inversion Hw' as [|? Hnd Ha]; subst.
  rewrite classify_exact; [|done|by apply entries_short].
  cbn [mbind outcome_bind operation_ok local_survives state dir orb]. subst pl. rewrite plan_unfold. set (dl := pd || synced_dir here).
  edestruct (traverse manifest synced skips protect_rules DELETE_WALK_MODE_DELETE (delete_walk_fd DELETE_WALK_MODE_DELETE keep dirs skips protect_rules k)
    here dl es Hnd (deleting here es st)) as (ds&fs&f'&Esp&Erun&Hap&Hsv).
  - intros. by eapply del_pass1.
  - intros. by eapply del_pass2.
  - intros. by eapply del_pass3.
  - instantiate (1 := MkFrame true (stays manifest synced skips protect_rules here dl es) st es). split; [|by rewrite orb_false_r].
    split; simpl; rewrite ?take_nil, ?drop_nil; try done; [apply effect_refl|unfold zlen; simpl; lia|by rewrite orb_false_r|by rewrite app_nil_r|by rewrite Z.add_0_r|].
    intros r Hr. by apply not_elem_of_nil in Hr.
  - change (_ <$> sort_entries (listed es)) with (classified manifest synced skips protect_rules here dl es). rewrite Esp.
    apply bind_ret_inv in Erun as (f1&E1&Erun). apply bind_ret_inv in Erun as (f2&E2&E3).
    unfold stays in E1. unfold ordered in E1. rewrite E1. cbn [mbind outcome_bind]. rewrite E2. cbn [mbind outcome_bind]. rewrite E3. cbn [mbind outcome_bind].
    destruct Hap as [Hok He _ Hm Hde Hl Ho Hsk _]. rewrite Hok, Hsv. exists (state f'), (dir f'). split; [|done].
    do 2 f_equal. f_equal. f_equal. rewrite negb_orb, negb_involutive. f_equal. subst b. by rewrite Nat.leb_antisym, negb_involutive || (rewrite Nat.ltb_antisym, negb_involutive).
Qed.

(** *** Listing *)

Lemma set_entry_same n nd es : NoDup es.*1 -> find n es = Some nd -> set_entry n nd es = es.
Proof.
  intros Hnd Hf. unfold set_entry. rewrite <- (list_fmap_id es) at 2. apply list_fmap_ext. intros i [m x] Hi. simpl.
  case_decide; [|done]. subst m. apply list_elem_of_lookup_2 in Hi. apply (elem_find _ _ _ Hnd) in Hi. congruence.
Qed.

Section List.
Context (Hheap : heap_serves (2 ^ 34)).
Definition out_limit : Z := 2 ^ 29.

(** The list so far holds [l], and the walk has only written to it. *)
Record wrote (l : list (list byte)) (n : Z) (st st' : DeleteWalkState) : Prop := {
  wr_out : al_repr (out st') l;
  wr_cap : al_capacity (out st') <= 2 ^ 30;
  wr_count : recorded st' = u64 (recorded st + n);
  wr_budget : budget st' = budget st;
  wr_observed : observed st' = observed st;
}.

Lemma wrote_add l n st st' x :
  wrote l n st st' -> zlen l < out_limit ->
  exists o, array_list_add (Some (out st')) x = Ret o /\ wrote (l ++ [x]) (n + 1) st (add_out st' o).
Proof.
  intros [H1 H2 H3 H4 H5] Hl. unfold out_limit in Hl. destruct (array_list_add_repr _ _ x H1) as (o&E&Ho&Hc); [lia|done|done|].
  exists o. split; [done|]. split; simpl; try done; [destruct Hc as [->| ->]; lia|].
  rewrite H3. unfold u64. rewrite Zplus_mod_idemp_l. f_equal. lia.
Qed.

Definition list_exact (k : nat) (rec : list byte -> list name -> bool -> DeleteWalkState -> entries -> outcome (bool * bool * DeleteWalkState * entries)) : Prop :=
  forall here pd st0 st es l n, Forall name_ok here -> wf_node (Dir es) -> (depth (Dir es) <= k)%nat -> short here es ->
    let pl := plan here pd (Dir es) in
    wrote l n st0 st -> zlen l + zlen pl.1 <= out_limit ->
    exists st', rec (join here) here pd st es = Ret (true, pl.2, st', es) /\ wrote (l ++ (report here <$> pl.1)) (n + zlen pl.1) st0 st'.

Section Dir.
Context (here : list name) (Hhere : Forall name_ok here) (dl : bool) (es : entries) (Hwf : wf_node (Dir es)) (Hshort : short here es).
Context (st0 : DeleteWalkState) (l0 : list (list byte)) (n0 : Z).
Local Abbreviation subs := (subs_of here dl es).
Definition listing (pl : list removal) (sv : bool) (rest : list name) (f : frame) : Prop :=
  operation_ok f = true /\ local_survives f = sv /\ dir f = es /\
  wrote (l0 ++ (report here <$> pl)) (n0 + zlen pl) st0 (state f).
Context (k : nat) rec (Hrec : list_exact k rec) (Hdepth : (depth (Dir es) <= S k)%nat) (bound : nat) (Hbound : zlen l0 + Z.of_nat bound <= out_limit).

Lemma zlen_fmap {A B} (f : A -> B) l : zlen (f <$> l) = zlen l.
Proof. unfold zlen. by rewrite length_fmap. Qed.

Lemma list_descend pl n rest sv f ces :
  (length (pl ++ seg3 subs n) <= bound)%nat ->
  name_ok n -> find n es = Some (Dir ces) -> listing pl sv rest f ->
  exists f', descend rec here dl (join (here ++ [n])) n f = Ret (f', (sub_of n subs).2) /\ listing (pl ++ seg3 subs n) sv rest f'.
Proof.
  intros Hb Hok Hf (Ho&Hs&Hd&Hw). pose proof (sub_of_find manifest synced skips protect_rules here dl es n _ Hf) as Es.
  unfold descend, openat_dir. rewrite fault_none, Hd, Hf.
  assert (Hlen : length (seg3 subs n) = length (sub_of n subs).1) by (unfold seg3, under; by rewrite length_fmap).
  destruct (Hrec (here ++ [n]) dl st0 (state f) ces (l0 ++ (report here <$> pl)) (n0 + zlen pl)) as (st'&->&Hw');
    [by apply Forall_app_2; [|apply Forall_singleton]|by eapply wf_find|by eapply depth_wf|by eapply short_sub|done| |].
  { rewrite <- Es, zlen_app, zlen_fmap. unfold zlen in *. rewrite length_app in Hb. lia. }
  rewrite <- Es in *. cbn [mbind outcome_bind]. eexists. split; [done|]. unfold listing. simpl. rewrite Ho. split_and!; try done.
  - apply set_entry_same; [by inversion Hwf|done].
  - rewrite fmap_app. unfold seg3. rewrite report_under, app_assoc, zlen_app. unfold under at 1. rewrite zlen_fmap.
    by replace (n0 + (zlen pl + zlen (sub_of n subs).1)) with (n0 + zlen pl + zlen (sub_of n subs).1) by lia.
Qed.

Lemma list_pass1 n pl sv rest f :
  n ∈ of_class here dl Extra true es -> (length (pl ++ seg1 subs n) <= bound)%nat -> listing pl sv (n :: rest) f ->
  exists f', pass1 DELETE_WALK_MODE_LIST rec here (join here) dl (MkEntry n true, Extra) f = Ret f' /\
    listing (pl ++ seg1 subs n) (sv || negb (sub_of n subs).2) rest f'.
Proof.
  intros Hin Hb Hl. destruct (find_of_class here dl es Hwf Hshort _ _ _ Hin) as (Hok&Hz&Hv&nd&Hf&Hd&Hwn). destruct nd as [|ces]; [done|].
  assert (Hseg : seg1 subs n = seg3 subs n ++ (if (sub_of n subs).2 then [([n], true)] else [])) by done.
  rewrite Hseg, app_assoc in *. unfold pass1. cbn [fst snd e_name]. rewrite bool_decide_eq_true_2 by done. cbn [negb]. rewrite path_cat_exact by done.
  destruct (list_descend pl n rest sv f ces) as (f1&->&Hl1); [rewrite length_app in Hb; lia|done|done|exact Hl|]. cbn [mbind outcome_bind].
  assert (Hdl : dl = true).
  { revert Hv. unfold DeleteSafe.verdict. destruct (shielded _ _ _ _ _), dl; simpl; done. }
  assert (Handb : forall x, x && dl = x) by (intros; rewrite Hdl; apply andb_true_r). rewrite Handb. destruct Hl1 as (Ho&Hs&Hd1&Hw). destruct (sub_of n subs).2.
  - unfold remove_dir. rewrite Hmalloc. cbn [negb].
    destruct (wrote_add _ _ _ _ (join (here ++ [n]) ++ [slash]) Hw) as (o&->&Hw').
    { rewrite zlen_app, zlen_fmap. unfold zlen in *. rewrite length_app in Hb. simpl in Hb. lia. }
    eexists. split; [done|]. unfold listing. simpl. rewrite orb_false_r, fmap_app, zlen_app. split_and!; try done.
    rewrite app_assoc. change (report here <$> [([n], true)]) with [join (here ++ [n]) ++ [slash]].
    by replace (n0 + (zlen (pl ++ seg3 subs n) + zlen [([n], true)])) with (n0 + zlen (pl ++ seg3 subs n) + 1) by (unfold zlen; simpl; lia).
  - rewrite app_nil_r. eexists. split; [done|]. unfold listing. simpl. by rewrite orb_true_r.
Qed.

Lemma list_pass2 n pl sv rest f :
  n ∈ of_class here dl Extra false es -> (length (pl ++ seg2 n) <= bound)%nat -> listing pl sv (n :: rest) f ->
  exists f', pass2 DELETE_WALK_MODE_LIST here (join here) (MkEntry n false, Extra) f = Ret f' /\ listing (pl ++ seg2 n) sv rest f'.
Proof.
  intros Hin Hb (Ho&Hs&Hd1&Hw). destruct (find_of_class here dl es Hwf Hshort _ _ _ Hin) as (Hok&Hz&_).
  unfold pass2. cbn [fst snd e_name]. rewrite bool_decide_eq_true_2 by done. cbn [negb]. rewrite path_cat_exact by done.
  unfold str_dup. cbn [of_option mbind outcome_bind]. rewrite Hmalloc. cbn [check mbind outcome_bind].
  destruct (wrote_add _ _ _ _ (join (here ++ [n])) Hw) as (o&->&Hw').
  { rewrite zlen_app, zlen_fmap. unfold zlen in *. rewrite length_app in Hb. simpl in Hb. lia. }
  eexists. split; [done|]. unfold listing. simpl. rewrite fmap_app, zlen_app. split_and!; try done. rewrite app_assoc.
  change (report here <$> seg2 n) with [join (here ++ [n]) ++ []]. rewrite app_nil_r.
  by replace (n0 + (zlen pl + zlen (seg2 n))) with (n0 + zlen pl + 1) by (unfold zlen; simpl; lia).
Qed.

Lemma list_pass3 n pl sv rest f :
  n ∈ of_class here dl Plain true es -> (length (pl ++ seg3 subs n) <= bound)%nat -> listing pl sv (n :: rest) f ->
  exists f', pass3 rec here (join here) dl (MkEntry n true, Plain) f = Ret f' /\ listing (pl ++ seg3 subs n) (sv || true) rest f'.
Proof.
  intros Hin Hb Hl. destruct (find_of_class here dl es Hwf Hshort _ _ _ Hin) as (Hok&Hz&Hv&nd&Hf&Hd&Hwn). destruct nd as [|ces]; [done|].
  unfold pass3. cbn [fst snd e_name]. rewrite bool_decide_eq_true_2 by done. cbn [negb]. rewrite path_cat_exact by done.
  destruct (list_descend pl n rest sv f ces) as (f1&->&Ho&Hs&Hd1&Hw); [done|done|done|exact Hl|]. cbn [mbind outcome_bind].
  eexists. split; [done|]. unfold listing. simpl. by rewrite orb_true_r.
Qed.
End Dir.

Lemma walk_list_exact k : list_exact k (delete_walk_fd DELETE_WALK_MODE_LIST keep dirs skips protect_rules k).
Proof.
  induction k as [|k IH]; intros here pd st0 st es l n Hh Hw Hd Hs; [simpl in Hd; lia|]. intros pl Hwr Hb. cbn [delete_walk_fd].
  rewrite collect_exact, Hmalloc by done. cbn [negb].
  assert ((if pd then Ret true else is_synced_dir dirs (join here)) = Ret (pd || synced_dir here)) as ->.
  { destruct pd; [done|]. by apply (is_synced_spec manifest synced keep dirs Hix). }
  cbn [mbind outcome_bind]. pose proof Hw as Hw'. inversion Hw' as [|? Hnd Ha]; subst.
  rewrite classify_exact; [|done|by apply entries_short].
  cbn [mbind outcome_bind operation_ok local_survives state dir orb]. subst pl. rewrite plan_unfold in *. set (dl := pd || synced_dir here) in *.
  edestruct (traverse manifest synced skips protect_rules DELETE_WALK_MODE_LIST (delete_walk_fd DELETE_WALK_MODE_LIST keep dirs skips protect_rules k)
    here dl es Hnd (listing here es st0 l n)) as (ds&fs&f'&Esp&Erun&Hok&Hsv&Hdir&Hwr').
  - intros. eapply list_pass1; eauto; unfold zlen in *; lia.
  - intros. eapply list_pass2; eauto; unfold zlen in *; lia.
  - intros. eapply list_pass3; eauto; unfold zlen in *; lia.
  - instantiate (1 := MkFrame true (stays manifest synced skips protect_rules here dl es) st es). split_and!; try done. simpl.
    rewrite app_nil_r. unfold zlen. simpl. by rewrite Z.add_0_r.
  - change (_ <$> sort_entries (listed es)) with (classified manifest synced skips protect_rules here dl es). rewrite Esp.
    apply bind_ret_inv in Erun as (f1&E1&Erun). apply bind_ret_inv in Erun as (f2&E2&E3).
    unfold stays in E1. unfold ordered in E1. rewrite E1. cbn [mbind outcome_bind]. rewrite E2. cbn [mbind outcome_bind]. rewrite E3. cbn [mbind outcome_bind].
    rewrite Hok, Hsv, Hdir, negb_involutive. by exists (state f').
Qed.
End List.
End Exact.

(** ** The two entry points *)

Section Claims.
Context `{Heap} `{XXHash64}.
Local Existing Instance no_faults.
Context (manifest : list (list byte)) (synced : option (list (list byte)))
  (skips : list DeleteSkipEntry) (protect_rules : option FilterRuleList).
Local Abbreviation plan := (plan manifest synced skips protect_rules).

(** The allocator never refuses, and the lists fit their index. *)
Definition roomy : Prop :=
  (forall size, malloc_ok size = true /\ protocol_alloc size = true) /\ zlen manifest < 2 ^ 58 /\ match synced with Some l => zlen l < 2 ^ 58 | None => True end.

Lemma roomy_serves n : roomy -> heap_serves n.
Proof. intros [Hh _] size _. by destruct (Hh size). Qed.

Lemma build_indexes_spec : roomy -> exists keep dirs, build_indexes manifest synced = Ret (keep, dirs) /\ indexes manifest synced keep dirs.
Proof. intros Hr. pose proof (roomy_serves (2 ^ 63) Hr) as Hs. destruct Hr as (_&Hm&Hd). by apply build_indexes_ok. Qed.

Lemma limited_run es max :
  roomy -> wf_node (Dir es) -> short [] es -> 0 <= max <= SIZE_MAX ->
  let pl := (plan [] false (Dir es)).1 in
  exists es',
    delete_extras_limited_observed (Some es) manifest synced max skips protect_rules =
    Ret (MkReport (if max <? zlen pl then DELETE_WALK_LIMIT_REACHED else DELETE_WALK_OK) (Z.min max (zlen pl))
           (u64 (zlen (held_back (drop (Z.to_nat max) pl))))
           (report [] <$> take (Z.to_nat max) pl), Some es') /\
    effect es (take (Z.to_nat max) pl) es'.
Proof.
  intros Hr Hw Hs Hm pl. destruct (build_indexes_spec Hr) as (keep&dirs&E&Hix). unfold delete_extras_limited_observed. rewrite E.
  destruct (walk_del_exact manifest synced skips protect_rules keep dirs Hix (fun size => proj1 (proj1 Hr size)) (depth (Dir es)) [] false
    (MkState (MkBudget max 0 0 false) (MkArrayList [] 0 0 false) 0 []) es) as (st'&es'&Ew&He&Hmx&Hdel&Hlim&Hobs&Hsk);
    [constructor|done|done|done|unfold budget_ok; simpl; lia|done|].
  change (join []) with (@nil byte) in Ew. rewrite Ew. cbn [mbind outcome_bind negb].
  unfold left_over in *. simpl max_delete in *. simpl deleted in *. simpl observed in *. simpl limit_hit in *. simpl budget in *. rewrite Z.sub_0_r in *. fold pl in He, Hdel, Hlim, Hobs, Hsk.
  exists es'. split; [|done]. rewrite Hlim, Hobs, Hdel, Hsk, zlen_take.
  assert ((Z.to_nat max <? length pl)%nat = (max <? zlen pl)) as ->.
  { unfold zlen. destruct (Nat.ltb_spec (Z.to_nat max) (length pl)), (Z.ltb_spec max (Z.of_nat (length pl))); done || lia. }
  simpl orb. do 3 f_equal. unfold zlen. lia.
Qed.

(** C8: when nothing fails, exactly the extraneous entries go, in a fixed order
    and up to the limit.  A path is removable when it and everything below it is
    extraneous; [delete_extras_limited_observed] removes the first [max] of the
    removable paths in rsync's order (contents before their directory,
    subdirectories before files, names descending, kept subdirectories last),
    tells the observer exactly those, leaves every other path as it was, and
    reports the limit when some were left.  It counts as skipped (in 64 bits)
    exactly the removable paths left over with no left-over path below them:
    a directory that keeps some of its contents is not tried. *)
Theorem deletion_exact es max
    (Hroom : roomy) (Htree : wf_node (Dir es)) (Hpaths : short [] es) (Hmax : 0 <= max <= SIZE_MAX) :
  let pl := (plan [] false (Dir es)).1 in
  (forall r, r ∈ pl <-> removable manifest synced skips protect_rules [] (synced_dir synced []) es r) /\
  exists es',
    delete_extras_limited_observed (Some es) manifest synced max skips protect_rules =
    Ret (MkReport (if max <? zlen pl then DELETE_WALK_LIMIT_REACHED else DELETE_WALK_OK) (Z.min max (zlen pl))
           (u64 (zlen (held_back (drop (Z.to_nat max) pl))))
           (report [] <$> take (Z.to_nat max) pl), Some es') /\
    effect es (take (Z.to_nat max) pl) es'.
Proof.
  intros pl. split; [|by apply limited_run]. exact (proj1 (plan_elem manifest synced skips protect_rules (depth (Dir es)) [] false es Htree (le_n _))).
Qed.

(** C9: the dry run lists exactly what a real run removes.  On the same
    destination and policy, [delete_extras_list] appends to its list the very
    lines, in the same order, that the unlimited deletion reports, and counts
    them; the real run completes. *)
Theorem dry_run_agrees es o l
    (Hroom : roomy) (Htree : wf_node (Dir es)) (Hpaths : short [] es)
    (Hlist : al_repr o l /\ al_capacity o <= 2 ^ 30) (Hfits : zlen l + zlen (plan [] false (Dir es)).1 <= out_limit) :
  exists r es' o',
    delete_extras_limited_observed (Some es) manifest synced SIZE_MAX skips protect_rules = Ret (r, Some es') /\ result r = DELETE_WALK_OK /\
    delete_extras_list (Some es) manifest synced skips protect_rules o = Ret (true, o', zlen (seen r)) /\
    al_repr o' (l ++ seen r) /\ deleted_out r = zlen (seen r).
Proof.
  assert (Hmx : 0 <= SIZE_MAX <= SIZE_MAX) by done.
  destruct (limited_run es SIZE_MAX Hroom Htree Hpaths Hmx) as (es'&E&_).
  set (pl := (plan [] false (Dir es)).1) in *. pose proof (zlen_nonneg l). pose proof (zlen_nonneg pl). unfold out_limit in Hfits.
  destruct (Z.ltb_spec SIZE_MAX (zlen pl)); [unfold SIZE_MAX in *; lia|].
  rewrite Z.min_r in E by lia. rewrite take_ge in E by (unfold zlen in *; lia).
  destruct (build_indexes_spec Hroom) as (keep&dirs&Eb&Hix).
  destruct (walk_list_exact manifest synced skips protect_rules keep dirs Hix (fun size => proj1 (proj1 Hroom size)) (roomy_serves _ Hroom)
    (depth (Dir es)) [] false (MkState (MkBudget 0 0 0 false) o 0 []) (MkState (MkBudget 0 0 0 false) o 0 []) es l 0)
    as (st'&Ew&[Ho Hc Hn _ _]); [constructor|done|done|done|by destruct Hlist; split|done|].
  exists (MkReport DELETE_WALK_OK (zlen pl) (u64 (zlen (held_back (drop (Z.to_nat SIZE_MAX) pl)))) (report [] <$> pl)), es', (out st'). split; [done|]. split; [done|].
  unfold delete_extras_list. rewrite Eb. change (join []) with (@nil byte) in Ew. rewrite Ew. cbn [mbind outcome_bind].
  rewrite Hn. simpl seen. rewrite zlen_fmap. simpl recorded. fold pl. rewrite u64_small by (unfold zlen in *; lia). done.
Qed.
End Claims.

Lemma short_bytes es : name_bytes (Dir es) < 2 ^ 62 -> short [] es.
Proof. intros Hb p k Hk. apply join_bytes in Hk. simpl. lia. Qed.

Lemma heap0_roomy manifest : zlen manifest < 2 ^ 58 -> @roomy heap0 manifest None.
Proof. by split. Qed.

Lemma deletion_exact_witness :
  exists es',
    @delete_extras_limited_observed heap0 hash_const no_faults (Some demo_tree) [cs "k/f"] None 4 demo_skips None =
      Ret (MkReport DELETE_WALK_LIMIT_REACHED 4 1 [cs "a/y/"; cs "a/x"; cs "a/"; cs "b"], Some es') /\
    kind_at es' [cs "a"] = None /\ kind_at es' [cs "k"; cs "g"] = Some (KLeaf false 2).
Proof.
  destruct (@deletion_exact heap0 hash_const [cs "k/f"] None demo_skips None demo_tree 4) as (_&es'&E&He);
    [by apply heap0_roomy|apply demo_tree_wf|by apply short_bytes; vm_compute|by vm_compute|].
  exists es'. split; [exact E|]. destruct He as [Hk _ _]. split; rewrite Hk; by vm_compute.
Defined.

Lemma dry_run_agrees_witness :
  exists r es' o',
    @delete_extras_limited_observed heap0 hash_const no_faults (Some demo_tree) [cs "k/f"] None SIZE_MAX demo_skips None = Ret (r, Some es') /\
    result r = DELETE_WALK_OK /\
    @delete_extras_list heap0 hash_const no_faults (Some demo_tree) [cs "k/f"] None demo_skips None
      (MkArrayList (replicate 100 None) 0 100 true) = Ret (true, o', zlen (seen r)) /\
    al_repr o' (seen r) /\ zlen (seen r) = 5.
Proof.
  destruct (@dry_run_agrees heap0 hash_const [cs "k/f"] None demo_skips None demo_tree (MkArrayList (replicate 100 None) 0 100 true) [])
    as (r&es'&o'&E1&E2&E3&E4&E5); [by apply heap0_roomy|apply demo_tree_wf|by apply short_bytes; vm_compute|by split; [split|]|by vm_compute|].
  exists r, es', o'. do 4 (split; [done|]). assert (Hr : deleted_out r = 5) by (vm_compute in E1; injection E1 as <- _; reflexivity). lia.
Defined.
