(* ===== verification/SecureFs.v ===== *)
(** The secure file system primitives of src/shared/file.c: the walk to the
    parent of a path, component by component and without following symbolic
    links, below the authorized root, and the operations built on it.  The state
    is the whole file system; a descriptor of a directory is its place in it.
    Permission bits are not part of the tree, so the modes given to [mkdirat] do
    not appear. *)

From stdpp Require Import list.
From S2P Require Import Prelude Alloc CStr Paths DeleteTree.

(** ** The file system and the calls relative to a directory *)

Fixpoint dir_at (fs : entries) (p : list name) : option entries :=
  match p with
  | [] => Some fs
  | n :: q => match find n fs with Some (Dir es) => dir_at es q | _ => None end
  end.
Fixpoint put_at (fs : entries) (p : list name) (es : entries) : entries :=
  match p with
  | [] => es
  | n :: q => match find n fs with Some (Dir ces) => set_entry n (Dir (put_at ces q es)) fs | _ => fs end
  end.

(** What the process has besides the file system: the authorized root as a
    descriptor and as a path, the policies of --keep-dirlinks and --copy-as, the
    working directory, and the calls of the C library that follow links. *)
Class SecureEnv := {
  root_fd : option (list name); root_path : option (list byte); cwd : list name;
  keep_dirlinks : bool; copy_as_active : bool;
  chown_link : list name -> option errno;
  realpath : list byte -> errno + list byte;
  stat_is_dir : list byte -> errno + bool;
  open_directory : list byte -> errno + list name;
}.

Section Calls.
Context {F : Faults}.
Implicit Types (fs : entries) (fd : list name) (n : name).

Definition dots n : bool := bool_decide (n = cs ".") || bool_decide (n = cs "..").
Definition dot_target fd n : list name := if bool_decide (n = cs "..") then removelast fd else fd.

Definition dup fd : errno + list name := match fault SysDup fd with Some e => inl e | None => inr fd end.

(** [openat(fd, n, O_RDONLY | O_DIRECTORY | O_NOFOLLOW)]; the kernel resolves
    the dot names itself. *)
Definition openat fs fd n : errno + list name :=
  match dir_at fs fd with
  | None => inl ENOENT
  | Some es =>
      if bool_decide (n = []) then inl ENOENT
      else if dots n then match fault SysOpen (fd ++ [n]) with Some e => inl e | None => inr (dot_target fd n) end
      else match openat_dir fd n es with inl e => inl e | inr _ => inr (fd ++ [n]) end
  end.

(** [fstatat(fd, n, &st, AT_SYMLINK_NOFOLLOW)] *)
Definition fstatat fs fd n : errno + node :=
  match dir_at fs fd with
  | None => inl ENOENT
  | Some es =>
      if bool_decide (n = []) then inl ENOENT
      else match fault SysStat (fd ++ [n]) with
      | Some e => inl e
      | None => if dots n then (match dir_at fs (dot_target fd n) with Some ces => inr (Dir ces) | None => inl ENOENT end)
                else match find n es with None => inl ENOENT | Some nd => inr nd end
      end
  end.

(** The calls that change a directory; [call] acts on its entries. *)
Definition change_at fs fd n (dot : errno) (call : entries -> errno + entries) : errno + entries :=
  match dir_at fs fd with
  | None => inl ENOENT
  | Some es => if bool_decide (n = []) then inl ENOENT else if dots n then inl dot
               else match call es with inl e => inl e | inr es => inr (put_at fs fd es) end
  end.
Definition add_entry (c : syscall) (nd : node) fd n (es : entries) : errno + entries :=
  match fault c (fd ++ [n]) with
  | Some e => inl e
  | None => match find n es with Some _ => inl EEXIST | None => inr (es ++ [(n, nd)]) end
  end.
Definition mkdirat fs fd n : errno + entries := change_at fs fd n EEXIST (add_entry SysMkdir (Dir []) fd n).
Definition symlinkat (inode : Z) fs fd n : errno + entries := change_at fs fd n EEXIST (add_entry SysSymlink (Leaf true inode) fd n).
Definition unlinkat fs fd n : errno + entries := change_at fs fd n EISDIR (unlinkat_file fd n).
Definition rmdirat fs fd n : errno + entries := change_at fs fd n (if bool_decide (n = cs ".") then EINVAL else ENOTEMPTY) (unlinkat_dir fd n).
End Calls.

(** ** Paths as [dirname] and [strrchr] cut them *)

Fixpoint strrchr_split (s : list byte) : option (list byte * list byte) :=
  match s with
  | [] => None
  | c :: s => match strrchr_split s with
              | Some (a, b) => Some (c :: a, b)
              | None => if bool_decide (c = slash) then Some ([], s) else None
              end
  end.
Definition no_trailing (s : list byte) : list byte := take (trim_len s (length s)) s.
Definition dirname (s : list byte) : list byte :=
  let t := no_trailing s in
  match strrchr_split t with
  | None => if bool_decide (t = []) && bool_decide (s <> []) then [slash] else cs "."
  | Some (a, _) => let a := no_trailing a in if bool_decide (a = []) then [slash] else a
  end.
Definition leaf_of (path : list byte) : list byte := match strrchr_split path with Some (_, b) => b | None => path end.

Definition PATH_MAX : Z := 4096.

(** ** The walk *)

(** An error is the value of [errno]; [None]: the code returned -1 without a
    failing call of its own, and [errno] is whatever it was. *)
Abbreviation opened := (option errno + list name)%type.
Definition of_errno {A} (r : errno + A) : option errno + A := match r with inl e => inl (Some e) | inr a => inr a end.

Section Secure.
Context `{Heap} {F : Faults} {E : SecureEnv}.
Implicit Types (fs : entries) (fd : list name) (path : list byte).

Definition xdup (s : list byte) : option errno + list byte :=
  match str_dup (Some s) with Ret t => inr t | _ => inl (Some ENOMEM) end.

(** file.c [open_dir_beneath_root] *)
Fixpoint beneath_loop fs fd (comps : list name) : opened :=
  match comps with
  | [] => inr fd
  | c :: comps =>
      if strcmp c (cs ".") =? 0 then beneath_loop fs fd comps
      else if strcmp c (cs "..") =? 0 then inl None
      else match openat fs fd c with inl e => inl (Some e) | inr next => beneath_loop fs next comps end
  end.
Definition open_dir_beneath_root fs (resolved root : list byte) : opened :=
  let rel := skip_slashes (drop (length root) resolved) in
  if bool_decide (rel = []) then inl None
  else match root_fd with
  | None => inl None
  | Some r =>
      match dup r with
      | inl e => inl (Some e)
      | inr fd => match xdup rel with inl e => inl e | inr copy => beneath_loop fs fd (tokens copy) end
      end
  end.

(** file.c [created_dir_counts] *)
Definition created_dir_counts (count_floor : option (list byte)) (rel_buf component : list byte) : bool :=
  match count_floor with
  | None => true
  | Some floor =>
      let candidate := rel_buf ++ [slash] ++ component in
      if zlen candidate >=? PATH_MAX then false
      else let cand := skip_slashes candidate in
           (strncmp cand floor (length floor) =? 0) && (at_end cand (length floor) || char_is cand (length floor) slash)
  end.

(** file.c [file_open_secure_parent_counted], the creation of a missing
    component: the result of the second [openat], or the error that ends the
    walk ([inl]). *)
Definition create_component (count_floor : option (list byte)) fs fd (rel_buf component : list byte) (made : Z)
  : entries * Z * (errno + (errno + list name)) :=
  match mkdirat fs fd component with
  | inl e => (fs, made, inr (if bool_decide (e = EEXIST) then openat fs fd component else inl e))
  | inr fs =>
      let made := if created_dir_counts count_floor rel_buf component then u32 (made + 1) else made in
      match (if copy_as_active then chown_link (fd ++ [component]) else None) with
      | Some e => (fs, made, inl e)
      | None => (fs, made, inr (openat fs fd component))
      end
  end.

(** --keep-dirlinks: a component that is a link to a directory below the root *)
Definition follow_dirlink fs fd (rel_buf component root : list byte) (e : errno) : opened :=
  match fstatat fs fd component with
  | inr (Leaf true _) =>
      match realpath root with
      | inl e => inl (Some e)
      | inr root =>
          let candidate := root ++ rel_buf ++ [slash] ++ component in
          if zlen candidate >=? PATH_MAX then inl None
          else match realpath candidate with
          | inl e => inl (Some e)
          | inr resolved =>
              if negb (strcmp resolved root =? 0) && (strncmp root resolved (length root) =? 0) &&
                 (char_is resolved (length root) slash || at_end resolved (length root))
              then match stat_is_dir resolved with
                   | inl e => inl (Some e)
                   | inr false => inl None
                   | inr true => open_dir_beneath_root fs resolved root
                   end
              else inl None
          end
      end
  | inr _ => inl (Some e)
  | inl e => inl (Some e)
  end.

(** One component of the walk *)
Definition open_component (create_dirs : bool) (count_floor : option (list byte)) fs fd (rel_buf component : list byte) (made : Z)
  : entries * Z * opened :=
  let first := openat fs fd component in
  let '(fs, made, next) :=
    if create_dirs && bool_decide (first = inl ENOENT) then create_component count_floor fs fd rel_buf component made
    else (fs, made, inr first) in
  match next with
  | inl e => (fs, made, inl (Some e))
  | inr (inr next) => (fs, made, inr next)
  | inr (inl e) =>
      match (if keep_dirlinks && bool_decide (e = ELOOP \/ e = ENOTDIR \/ e = EACCES) then root_path else None) with
      | Some root => (fs, made, follow_dirlink fs fd rel_buf component root e)
      | None => (fs, made, inl (Some e))
      end
  end.

Fixpoint walk (create_dirs : bool) (count_floor : option (list byte)) (comps : list name) fs fd (rel_buf : list byte) (made : Z)
  : entries * Z * opened :=
  match comps with
  | [] => (fs, made, inr fd)
  | c :: comps =>
      if strcmp c (cs "..") =? 0 then (fs, made, inl None)
      else if strcmp c (cs ".") =? 0 then walk create_dirs count_floor comps fs fd rel_buf made
      else match open_component create_dirs count_floor fs fd rel_buf c made with
      | (fs, made, inl e) => (fs, made, inl e)
      | (fs, made, inr next) =>
          if zlen rel_buf + zlen c + 2 <=? PATH_MAX then walk create_dirs count_floor comps fs next (rel_buf ++ [slash] ++ c) made
          else if keep_dirlinks then (fs, made, inl None)
          else walk create_dirs count_floor comps fs next rel_buf made
      end
  end.

(** Where the walk starts, and the path it is given *)
Definition walk_start path : option errno + (list name * list byte) :=
  match root_fd with
  | Some r =>
      match root_path with
      | None => inl None
      | Some root =>
          if negb (char_is path 0 slash) || negb (path_is_within_root root path) then inl None
          else match dup r with
          | inl e => inl (Some e)
          | inr fd => match xdup (drop (length root) path) with inl e => inl e | inr relative => inr (fd, dirname relative) end
          end
      end
  | None =>
      let parent := dirname path in
      let place := if char_is parent 0 slash then [] else cwd in
      match fault SysOpen place with Some e => inl (Some e) | None => inr (place, parent) end
  end.

(** file.c [file_open_secure_parent_counted]: the file system, the count of
    created directories, and the descriptor of the parent with the leaf. *)
Definition file_open_secure_parent_counted path (create_dirs : bool) (count_floor : option (list byte)) fs (made : Z)
  : entries * Z * (option errno + (list name * name)) :=
  match xdup path, xdup (leaf_of path) with
  | inr _, inr leaf =>
      match walk_start path with
      | inl e => (fs, made, inl e)
      | inr (fd, parent) =>
          match walk create_dirs count_floor (tokens parent) fs fd [] made with
          | (fs, made, inl e) => (fs, made, inl e)
          | (fs, made, inr fd) => (fs, made, inr (fd, leaf))
          end
      end
  | _, _ => (fs, made, inl (Some ENOMEM))
  end.
Definition file_open_secure_parent path (create_dirs : bool) fs : entries * (option errno + (list name * name)) :=
  let '(fs, _, r) := file_open_secure_parent_counted path create_dirs None fs 0 in (fs, r).

(** file.c [file_path_exists_secure] *)
Definition file_path_exists_secure path fs : bool :=
  match file_open_secure_parent path false fs with
  | (fs, inr (fd, leaf)) => match fstatat fs fd leaf with inr _ => true | inl _ => false end
  | (_, inl _) => false
  end.

(** file.c [normalize_directory_path] *)
Definition normalize_directory_path path : outcome (list byte) :=
  let len := match path with [] => 0%nat | _ => Nat.max 1 (trim_len path (length path)) end in
  check (malloc_ok (Z.of_nat len + 1));; Ret (take len path).

Definition is_open_root (norm : list byte) : bool :=
  match root_fd, root_path with
  | Some _, Some root => strcmp norm root =? 0
  | _, _ => false
  end || (strcmp norm [slash] =? 0).

(** file.c [file_ensure_directory_secure], the last component: whether the
    directory is open and whether this call created it. *)
Definition ensure_leaf fs fd (leaf : name) : entries * bool * bool :=
  let is_open fs := match openat fs fd leaf with inr _ => true | inl _ => false end in
  match openat fs fd leaf with
  | inr _ => (fs, true, false)
  | inl ENOENT =>
      match mkdirat fs fd leaf with
      | inr fs => (fs, is_open fs, true)
      | inl e => (fs, bool_decide (e = EEXIST) && is_open fs, false)
      end
  | inl ENOTDIR =>
      match fstatat fs fd leaf with
      | inr (Leaf false _) =>
          match unlinkat fs fd leaf with
          | inl _ => (fs, false, false)
          | inr fs => match mkdirat fs fd leaf with
                      | inr fs => (fs, is_open fs, true)
                      | inl _ => (fs, is_open fs, false)
                      end
          end
      | _ => (fs, false, false)
      end
  | inl _ => (fs, false, false)
  end.
Definition file_ensure_directory_secure path fs : entries * bool :=
  match normalize_directory_path path with
  | Ret norm =>
      if is_open_root norm then (fs, true)
      else match file_open_secure_parent norm true fs with
      | (fs, inl _) => (fs, false)
      | (fs, inr (fd, leaf)) =>
          let '(fs, ok, created) := ensure_leaf fs fd leaf in
          (fs, ok && negb (created && copy_as_active && bool_decide (chown_link (fd ++ [leaf]) <> None)))
      end
  | _ => (fs, false)
  end.

(** file.c [file_directory_exists_secure] *)
Definition file_directory_exists_secure path fs : bool :=
  match normalize_directory_path path with
  | Ret norm =>
      if is_open_root norm then true
      else match file_open_secure_parent norm false fs with
      | (fs, inr (fd, leaf)) => match openat fs fd leaf with inr _ => true | inl _ => false end
      | (_, inl _) => false
      end
  | _ => false
  end.

(** file.c [wipe_dir_fd], on the entries of the directory at [here]; [fuel]
    bounds the depth of the recursion. *)
Fixpoint wipe_dir_fd (fuel : nat) (here : list name) (es : entries) : bool * entries :=
  match fuel with
  | O => (false, es)
  | S fuel =>
      match fault SysScan here with
      | Some _ => (false, es)
      | None =>
          fold_left (fun '(operation_ok, es) n =>
            match fstatat_is_dir here n es with
            | inl e => (operation_ok && bool_decide (e = ENOENT), es)
            | inr true =>
                let '(operation_ok, child_removed, es) :=
                  match openat_dir here n es with
                  | inl e => (operation_ok && bool_decide (e = ENOENT), false, es)
                  | inr ces => let '(ok, ces) := wipe_dir_fd fuel (here ++ [n]) ces in (operation_ok, ok, set_entry n (Dir ces) es)
                  end in
                if child_removed then
                  match unlinkat_dir here n es with
                  | inl e => (operation_ok && bool_decide (e = ENOENT), es)
                  | inr es => (operation_ok, es)
                  end
                else (operation_ok, es)
            | inr false =>
                match unlinkat_file here n es with
                | inl e => (operation_ok && bool_decide (e = ENOENT), es)
                | inr es => (operation_ok, es)
                end
            end) (es.*1) (true, es)
      end
  end.

(** file.c [file_remove_tree_secure] *)
Definition file_remove_tree_secure path fs : entries * bool :=
  match file_open_secure_parent path false fs with
  | (fs, inl _) => (fs, false)
  | (fs, inr (fd, leaf)) =>
      match openat fs fd leaf with
      | inl e => (fs, bool_decide (e = ENOENT \/ e = ENOTDIR \/ e = ELOOP))
      | inr d =>
          match dir_at fs d with
          | None => (fs, false)
          | Some es =>
              let '(ok, es) := wipe_dir_fd (depth (Dir es)) d es in
              let fs := put_at fs d es in
              if ok then match rmdirat fs fd leaf with
                         | inr fs => (fs, true)
                         | inl e => (fs, bool_decide (e = ENOENT))
                         end
              else (fs, false)
          end
      end
  end.

(** file.c [file_open_private_dir] *)
Definition file_open_private_dir path fs : entries * option (list name) :=
  match file_open_secure_parent path true fs with
  | (fs, inl _) => (fs, None)
  | (fs, inr (fd, leaf)) =>
      let is_open fs := match openat fs fd leaf with inr d => Some d | inl _ => None end in
      match openat fs fd leaf with
      | inr d => (fs, Some d)
      | inl e =>
          if bool_decide (e = ENOENT) then
            match mkdirat fs fd leaf with
            | inr fs => (fs, is_open fs)
            | inl e => (fs, if bool_decide (e = EEXIST) then is_open fs else None)
            end
          else (fs, None)
      end
  end.

(** file.c [file_symlink_at_secure]; the target does not matter to the tree,
    the new link is the inode [inode]. *)
Definition file_symlink_at_secure path (inode : Z) fs : entries * bool :=
  if has_path_traversal (Some path) then (fs, false)
  else match file_open_secure_parent path true fs with
  | (fs, inl _) => (fs, false)
  | (fs, inr (fd, leaf)) =>
      let place fs := match symlinkat inode fs fd leaf with inr fs => (fs, true) | inl _ => (fs, false) end in
      match fstatat fs fd leaf with
      | inr (Dir _) => (fs, false)
      | inr (Leaf _ _) =>
          match unlinkat fs fd leaf with
          | inr fs => place fs
          | inl e => if bool_decide (e = ENOENT) then place fs else (fs, false)
          end
      | inl _ => place fs
      end
  end.

(** utils.c [utils_open_authorized_destination], with what [errno] tells *)
Definition authorized_destination (dest_root : option (list byte)) fs : opened :=
  match root_fd, root_path, dest_root with
  | Some r, Some root, Some dest =>
      if negb (path_is_within_root root dest) then inl None
      else match dup r with
      | inl e => inl (Some e)
      | inr fd =>
          let relative_path := skip_slashes (drop (length root) dest) in
          match xdup (if bool_decide (relative_path = []) then cs "." else relative_path) with
          | inl e => inl e
          | inr relative => beneath_loop fs fd (tokens relative)
          end
      end
  | _, _, _ => inl None
  end.
Definition utils_open_authorized_destination (dest_root : option (list byte)) fs : option (list name) :=
  match authorized_destination dest_root fs with inl _ => None | inr fd => Some fd end.
End Secure.
