(* ===== verification/SecureSafe.v ===== *)
(** What the secure primitives promise: the walk stays at or below the
    authorized root whatever the tree, the links and the failures, and so do the
    operations that change the tree. *)

From stdpp Require Import list.
From S2P Require Import Prelude Alloc CStr Paths DeleteTree SecureFs.

(** ** Directories at a place *)

Lemma dir_at_app fs p q es : dir_at fs p = Some es -> dir_at fs (p ++ q) = dir_at es q.
Proof.
  revert fs. induction p as [|n p IH]; intros fs; simpl; [by intros [= ->]|]. destruct (find n fs) as [[]|]; [done| |done]. apply IH.
Qed.

Lemma kind_at_app fs p q es : dir_at fs p = Some es -> kind_at fs (p ++ q) = kind_at es q.
Proof.
  revert fs. induction p as [|n p IH]; intros fs; simpl; [by intros [= ->]|]. destruct (find n fs) as [[]|]; [done| |done]. apply IH.
Qed.

Lemma dir_at_kind fs p : kind_at fs p = Some KDir <-> exists es, dir_at fs p = Some es.
Proof.
  revert fs. induction p as [|n p IH]; intros fs; simpl; [naive_solver|]. destruct (find n fs) as [[l i|ces]|]; [|apply IH|naive_solver].
  destruct p; naive_solver.
Qed.

Lemma dir_put fs p es es' : dir_at fs p = Some es -> dir_at (put_at fs p es') p = Some es'.
Proof.
  revert fs. induction p as [|n p IH]; intros fs; simpl; [done|]. destruct (find n fs) as [[]|] eqn:Ef; [done| |done]. intros Hd.
  rewrite find_set, decide_True, Ef by done. simpl. by apply IH.
Qed.

Lemma kind_put_below fs p q es es' : dir_at fs p = Some es -> kind_at (put_at fs p es') (p ++ q) = kind_at es' q.
Proof. intros Hd. eapply kind_at_app. by eapply dir_put. Qed.

Lemma kind_put_other fs p q es es' :
  dir_at fs p = Some es -> ~ p `prefix_of` q -> kind_at (put_at fs p es') q = kind_at fs q.
Proof.
  revert fs q. induction p as [|n p IH]; intros fs q; simpl.
  - intros _ []. apply prefix_nil.
  - destruct (find n fs) as [[]|] eqn:Ef; [done| |done]. intros Hd Hq. destruct q as [|m q]; [done|]. simpl. rewrite find_set.
    case_decide as Hm; [subst m|done]. rewrite Ef. simpl. apply IH; [done|]. intros Hp. apply Hq. by apply prefix_cons.
Qed.

Lemma kind_put fs p es es' (Hd : dir_at fs p = Some es) (Q : list name -> Prop) :
  (forall q, Q q \/ kind_at es' q = kind_at es q) -> forall q, (exists r, q = p ++ r /\ Q r) \/ kind_at (put_at fs p es') q = kind_at fs q.
Proof.
  intros HQ q. destruct (decide (p `prefix_of` q)) as [[r ->]|Hn]; [|right; by eapply kind_put_other].
  destruct (HQ r) as [?|Hk]; [left; by exists r|right]. by rewrite (kind_put_below _ _ _ _ _ Hd), (kind_at_app _ _ _ _ Hd).
Qed.

Lemma effect_put fs p es g es' :
  dir_at fs p = Some es -> effect es g es' -> effect fs ((fun r => (p ++ r.1, r.2)) <$> g) (put_at fs p es').
Proof.
  revert fs. induction p as [|n p IH]; intros fs; simpl.
  - intros [= ->] He. rewrite (list_fmap_ext _ id), list_fmap_id; [done|]. by intros i [].
  - destruct (find n fs) as [[]|] eqn:Ef; [done| |done]. intros Hd He. specialize (IH _ Hd He).
    apply (effect_sub n _ _ _ _ Ef) in IH. unfold under in IH. rewrite <- list_fmap_compose in IH. exact IH.
Qed.

Lemma find_snoc n es m nd : find m (es ++ [(n, nd)]) = match find m es with Some x => Some x | None => if decide (n = m) then Some nd else None end.
Proof. induction es as [|[k x] es IH]; simpl; [done|]. destruct (decide (k = m)); [done|apply IH]. Qed.

(** ** Growing trees *)

(** The only difference is new directories strictly below [R]. *)
Definition grown (R : list name) (fs fs' : entries) : Prop :=
  forall p, kind_at fs' p = kind_at fs p \/
    exists q, q <> [] /\ p = R ++ q /\ kind_at fs p = None /\ kind_at fs' p = Some KDir.

(** Nothing but entries strictly below [R] differs. *)
Definition confined (R : list name) (fs fs' : entries) : Prop :=
  forall p, (exists q, q <> [] /\ p = R ++ q) \/ kind_at fs' p = kind_at fs p.

Lemma grown_refl R fs : grown R fs fs.
Proof. by left. Qed.
Lemma grown_chain R fs1 fs2 fs3 : grown R fs1 fs2 -> grown R fs2 fs3 -> grown R fs1 fs3.
Proof.
  intros H1 H2 p. destruct (H2 p) as [E2|(q&?&?&N2&K2)], (H1 p) as [E1|(q'&?&?&N1&K1)].
  - left. congruence.
  - right. exists q'. split_and!; [done..|congruence].
  - right. exists q. split_and!; [done..|congruence|done].
  - congruence.
Qed.
Lemma grown_kept R fs fs' p k : grown R fs fs' -> kind_at fs p = Some k -> kind_at fs' p = Some k.
Proof. intros Hg Hk. destruct (Hg p) as [->|(q&?&?&?&?)]; congruence. Qed.
Lemma grown_confined R fs fs' : grown R fs fs' -> confined R fs fs'.
Proof. intros Hg p. destruct (Hg p) as [?|(q&?&?&?&?)]; [by right|left; by exists q]. Qed.
Lemma confined_refl R fs : confined R fs fs.
Proof. by right. Qed.
Lemma confined_trans R fs1 fs2 fs3 : confined R fs1 fs2 -> confined R fs2 fs3 -> confined R fs1 fs3.
Proof. intros H1 H2 p. destruct (H1 p), (H2 p); [by left|by left|by left|right; congruence]. Qed.

Section Calls.
Context {F : Faults}.

Lemma openat_spec fs fd n d : openat fs fd n = inr d -> dots n = false -> d = fd ++ [n] /\ kind_at fs d = Some KDir.
Proof.
  unfold openat. destruct (dir_at fs fd) as [es|] eqn:Ed; [|done]. case_bool_decide; [done|]. intros Eo Hn. rewrite Hn in Eo.
  destruct (openat_dir fd n es) as [|ces] eqn:Eod; [done|]. injection Eo as <-. split; [done|]. apply openat_inv in Eod.
  rewrite (kind_at_app _ _ _ _ Ed). simpl. by rewrite Eod.
Qed.

Lemma change_at_inv fs fd n dot call fs' :
  change_at fs fd n dot call = inr fs' ->
  exists es es', dir_at fs fd = Some es /\ call es = inr es' /\ fs' = put_at fs fd es' /\ n <> [] /\ dots n = false.
Proof.
  unfold change_at. destruct (dir_at fs fd) as [es|]; [|done]. case_bool_decide; [done|]. destruct (dots n) eqn:Hn; [done|].
  destruct (call es) as [|es'] eqn:Ec; [done|]. intros [= <-]. by exists es, es'.
Qed.

Lemma add_entry_inv c nd fd n es es' : add_entry c nd fd n es = inr es' -> find n es = None /\ es' = es ++ [(n, nd)].
Proof. unfold add_entry. destruct (fault _ _); [done|]. destruct (find n es); [done|]. by intros [= <-]. Qed.

Lemma add_entry_kind c nd fd n es es' p :
  add_entry c nd fd n es = inr es' -> (exists q, p = n :: q) \/ kind_at es' p = kind_at es p.
Proof.
  intros [Ef ->]%add_entry_inv. destruct p as [|m q]; [by right|]. cbn [kind_at]. rewrite find_snoc.
  destruct (decide (n = m)) as [->|Hm]; [left; by exists q|right]. by destruct (find m es).
Qed.

(** A call on the entry [n] of a directory at or below the root is confined. *)
Lemma change_confined R fd fs n dot call fs' :
  R `prefix_of` fd -> change_at fs fd n dot call = inr fs' ->
  (forall es es' p, call es = inr es' -> (exists q, p = n :: q) \/ kind_at es' p = kind_at es p) -> confined R fs fs'.
Proof.
  intros [r ->] (es&es'&Hd&Hc&->&_)%change_at_inv Hp p.
  destruct (kind_put fs (R ++ r) es es' Hd (fun p => exists q, p = n :: q) (fun p => Hp es es' p Hc) p) as [(?&->&q&->)|?]; [|by right].
  left. exists (r ++ n :: q). split; [by destruct r|]. by rewrite app_assoc.
Qed.

Lemma mkdirat_grown R fd fs n fs' : R `prefix_of` fd -> mkdirat fs fd n = inr fs' -> grown R fs fs'.
Proof.
  intros [r ->] (es&es'&Hd&Hc&->&_)%change_at_inv p.
  destruct (decide ((R ++ r) `prefix_of` p)) as [[q ->]|Hn]; [|left; by eapply kind_put_other].
  rewrite (kind_put_below _ _ _ _ _ Hd), (kind_at_app _ _ _ _ Hd). apply add_entry_inv in Hc as [Ef ->].
  destruct q as [|m q]; [by left|]. cbn [kind_at]. rewrite find_snoc. destruct (decide (n = m)) as [->|Hm].
  - rewrite Ef. destruct q as [|k q]; [|by left]. right. exists (r ++ [m]). split_and!; [by destruct r|by rewrite app_assoc|done..].
  - left. by destruct (find m es).
Qed.

Lemma mkdirat_confined R fd fs n fs' : R `prefix_of` fd -> mkdirat fs fd n = inr fs' -> confined R fs fs'.
Proof. intros. by eapply grown_confined, mkdirat_grown. Qed.
Lemma symlinkat_confined R fd fs n i fs' : R `prefix_of` fd -> symlinkat i fs fd n = inr fs' -> confined R fs fs'.
Proof. intros Hr Hc. eapply change_confined; [done..|]. intros es es' p. apply add_entry_kind. Qed.
Lemma unlinkat_confined R fd fs n fs' : R `prefix_of` fd -> unlinkat fs fd n = inr fs' -> confined R fs fs'.
Proof.
  intros Hr Hc. eapply change_confined; [done..|]. intros es es' p ([Hk _ _]&_)%unlink_file_effect. rewrite Hk.
  case_decide as Hp; [|by right]. left. apply list_elem_of_singleton in Hp as ->. by eexists.
Qed.
Lemma rmdirat_confined R fd fs n fs' : R `prefix_of` fd -> rmdirat fs fd n = inr fs' -> confined R fs fs'.
Proof.
  intros Hr Hc. eapply change_confined; [done..|]. intros es es' p ([Hk _ _]&_)%unlink_dir_effect. rewrite Hk.
  case_decide as Hp; [|by right]. left. apply list_elem_of_singleton in Hp as ->. by eexists.
Qed.
End Calls.

(** ** The walk *)

(** [fd] is at or below [R], and a directory when [R] is one. *)
Definition lands (R : list name) (fs : entries) (fd : list name) : Prop :=
  R `prefix_of` fd /\ (kind_at fs R = Some KDir -> kind_at fs fd = Some KDir).

Lemma lands_root R fs : lands R fs R.
Proof. by split. Qed.
Lemma grown_root R fs fs' : grown R fs fs' -> kind_at fs' R = kind_at fs R.
Proof. intros Hg. destruct (Hg R) as [?|(q&Hq&Er&_)]; [done|]. destruct Hq. by rewrite <- (app_nil_r R) in Er at 1; apply app_inv_head in Er. Qed.
Lemma lands_grown R fs fs' fd : grown R fs fs' -> lands R fs fd -> lands R fs' fd.
Proof. intros Hg [Hp Hk]. split; [done|]. rewrite (grown_root _ _ _ Hg). intros ?%Hk. by eapply grown_kept. Qed.

Lemma strcmp_dots c : (strcmp c (cs "..") =? 0) = false -> (strcmp c (cs ".") =? 0) = false -> dots c = false.
Proof. rewrite !Z.eqb_neq, !strcmp_eq. intros. unfold dots. by rewrite !bool_decide_eq_false_2. Qed.

Definition no_dot (l : list name) : list name := filter (fun c => c <> cs ".") l.

Section Walk.
Context `{Heap} {F : Faults} {E : SecureEnv}.

Lemma openat_lands R fs fd c d : openat fs fd c = inr d -> dots c = false -> lands R fs fd -> lands R fs d.
Proof. intros Ho Hd [Hp _]. apply openat_spec in Ho as [-> Hk]; [|done]. split; [by apply prefix_app_r|done]. Qed.

Lemma beneath_loop_spec R fs comps fd d :
  lands R fs fd -> beneath_loop fs fd comps = inr d -> lands R fs d /\ d = fd ++ no_dot comps /\ cs ".." ∉ comps.
Proof.
  revert fd. induction comps as [|c comps IH]; intros fd Hl; cbn [beneath_loop].
  - intros [= <-]. split_and!; [done|by rewrite app_nil_r|apply not_elem_of_nil].
  - destruct (strcmp c (cs ".") =? 0) eqn:E1.
    { intros (?&->&?)%IH; [|done]. apply Z.eqb_eq, strcmp_eq in E1 as ->. split_and!; [done..|]. by apply not_elem_of_cons. }
    destruct (strcmp c (cs "..") =? 0) eqn:E2; [done|]. destruct (openat fs fd c) as [|next] eqn:Eo; [done|].
    pose proof (strcmp_dots _ E2 E1) as Hd. pose proof (openat_spec _ _ _ _ Eo Hd) as [-> _].
    intros (?&->&?)%IH; [|by eapply openat_lands]. apply Z.eqb_neq in E1, E2. rewrite strcmp_eq in E1, E2. split_and!; [done| |].
    + unfold no_dot. rewrite filter_cons_True by done. by rewrite <- app_assoc.
    + apply not_elem_of_cons. done.
Qed.

Context (R : list name) (Hroot : root_fd = Some R).

Lemma dup_inv fd d : dup fd = inr d -> d = fd.
Proof. unfold dup. destruct (fault _ _); naive_solver. Qed.
Lemma xdup_inv s t : xdup s = inr t -> t = s.
Proof. unfold xdup, str_dup. simpl. destruct (malloc_ok _); simpl; naive_solver. Qed.

Lemma follow_dirlink_lands fs fd rel_buf c root e d : follow_dirlink fs fd rel_buf c root e = inr d -> lands R fs d.
Proof.
  unfold follow_dirlink, open_dir_beneath_root. rewrite Hroot.
  destruct (fstatat fs fd c) as [|[[]|]]; [done| |done..]. destruct (realpath root) as [|rt]; [done|]. destruct (_ >=? _); [done|].
  destruct (realpath _) as [|resolved]; [done|]. destruct (_ && _); [|done]. destruct (stat_is_dir resolved) as [|[]]; [done| |done].
  case_bool_decide; [done|]. destruct (dup R) as [|r] eqn:Er; [done|]. apply dup_inv in Er as ->.
  destruct (xdup _); [done|]. intros Hb. by apply (beneath_loop_spec R) in Hb as (?&_); [|apply lands_root].
Qed.

Lemma create_component_spec floor fs fd rel_buf c made fs' made' next :
  R `prefix_of` fd -> create_component floor fs fd rel_buf c made = (fs', made', next) ->
  grown R fs fs' /\ (forall r, next = inr r -> r = openat fs' fd c \/ exists e, r = inl e).
Proof.
  intros Hp. unfold create_component. destruct (mkdirat fs fd c) as [e|fs1] eqn:Em.
  - intros [= <- <- <-]. split; [apply grown_refl|]. intros r [= <-]. case_bool_decide; [by left|right; by eexists].
  - destruct (if copy_as_active then _ else _); intros [= <- <- <-]; (split; [by eapply mkdirat_grown|]); [done|]. intros r [= <-]. by left.
Qed.

Lemma open_component_spec create floor fs fd rel_buf c made fs' made' r :
  lands R fs fd -> dots c = false -> open_component create floor fs fd rel_buf c made = (fs', made', r) ->
  grown R fs fs' /\ (create = false -> fs' = fs) /\
  (forall d, r = inr d -> lands R fs' d /\ (keep_dirlinks = false -> d = fd ++ [c])).
Proof.
  intros Hl Hc. unfold open_component.
  set (step := if _ && _ then _ else _). assert (Hs : exists fs1 made1 next, step = (fs1, made1, next) /\ grown R fs fs1 /\
    (create = false -> fs1 = fs) /\ (forall r, next = inr r -> r = openat fs1 fd c \/ exists e, r = inl e)).
  { subst step. destruct (create && _) eqn:Ec.
    - destruct (create_component _ _ _ _ _ _) as [[fs1 m1] nx] eqn:Ecc. destruct (create_component_spec _ _ _ _ _ _ _ _ _ (proj1 Hl) Ecc).
      exists fs1, m1, nx. split_and!; [done..| |done]. by intros ->.
    - eexists _, _, _. split_and!; [done|apply grown_refl|done|]. intros ? [= <-]. by left. }
  destruct Hs as (fs1&m1&next&->&Hg&Hf&Hn). destruct next as [e|[e|d1]].
  - intros [= <- <- <-]. done.
  - destruct (if _ && _ then _ else _) as [root|] eqn:Ek; intros [= <- <- <-]; [|done].
    split_and!; [done..|]. intros d Hd. split; [by eapply follow_dirlink_lands|]. intros Hk. by rewrite Hk in Ek.
  - destruct (Hn _ eq_refl) as [Ho|[? ?]]; [|done]. intros [= <- <- <-]. split_and!; [done..|]. intros d [= <-]. split.
    + eapply openat_lands; [done..|]. by eapply lands_grown.
    + intros _. exact (proj1 (openat_spec fs1 fd c d1 (eq_sym Ho) Hc)).
Qed.

Lemma walk_spec create floor comps : forall fs fd rel_buf made fs' made' r,
  lands R fs fd -> walk create floor comps fs fd rel_buf made = (fs', made', r) ->
  grown R fs fs' /\ (create = false -> fs' = fs) /\
  (forall d, r = inr d -> lands R fs' d /\ cs ".." ∉ comps /\ (keep_dirlinks = false -> d = fd ++ no_dot comps)).
Proof.
  induction comps as [|c comps IH]; intros fs fd rel_buf made fs' made' r Hl; cbn [walk].
  - intros [= <- <- <-]. split_and!; [apply grown_refl|done|]. intros d [= <-]. split_and!; [done|apply not_elem_of_nil|].
    intros _. by rewrite app_nil_r.
  - destruct (strcmp c (cs "..") =? 0) eqn:E2; [intros [= <- <- <-]; split_and!; [apply grown_refl|done..]|].
    pose proof E2 as E2'. apply Z.eqb_neq in E2'. rewrite strcmp_eq in E2'.
    destruct (strcmp c (cs ".") =? 0) eqn:E1.
    { apply Z.eqb_eq, strcmp_eq in E1 as ->. intros Hw. destruct (IH _ _ _ _ _ _ _ Hl Hw) as (?&?&Hr). split_and!; [done..|].
      intros d (?&?&?)%Hr. split_and!; [done|by apply not_elem_of_cons|done]. }
    destruct (open_component _ _ _ _ _ _ _) as [[fs1 m1] r1] eqn:Eo.
    destruct (open_component_spec _ _ _ _ _ _ _ _ _ _ Hl (strcmp_dots _ E2 E1) Eo) as (Hg1&Hf1&Hr1).
    destruct r1 as [e|next]; [intros [= <- <- <-]; done|]. destruct (Hr1 _ eq_refl) as [Hl1 Hk1].
    assert (Hrest : forall rb, walk create floor comps fs1 next rb m1 = (fs', made', r) -> grown R fs fs' /\ (create = false -> fs' = fs) /\
      (forall d, r = inr d -> lands R fs' d /\ cs ".." ∉ c :: comps /\ (keep_dirlinks = false -> d = fd ++ no_dot (c :: comps)))).
    { intros rb Hw. destruct (IH _ _ _ _ _ _ _ Hl1 Hw) as (Hg&Hf&Hr). split_and!; [by eapply grown_chain| |].
      - intros Hc. rewrite Hf, Hf1; done.
      - intros d (?&?&Hd)%Hr. split_and!; [done|by apply not_elem_of_cons|]. intros Hk. rewrite (Hd Hk), (Hk1 Hk).
        apply Z.eqb_neq in E1. rewrite strcmp_eq in E1. unfold no_dot. rewrite filter_cons_True by done. by rewrite <- app_assoc. }
    destruct (_ <=? _); [apply Hrest|]. destruct keep_dirlinks; [intros [= <- <- <-]; done|apply Hrest].
Qed.
End Walk.

(** ** Paths *)

Lemma strrchr_none s : strrchr_split s = None <-> slash ∉ s.
Proof.
  induction s as [|c s IH]; simpl; [split; [intros _; apply not_elem_of_nil|done]|]. rewrite not_elem_of_cons, <- IH.
  destruct (strrchr_split s) as [[]|]; [naive_solver|]. case_bool_decide; naive_solver.
Qed.
Lemma strrchr_some s a b : strrchr_split s = Some (a, b) -> s = a ++ slash :: b /\ slash ∉ b.
Proof.
  revert a. induction s as [|c s IH]; intros a; simpl; [done|]. destruct (strrchr_split s) as [[x y]|] eqn:Es.
  - intros [= <- <-]. destruct (IH _ eq_refl) as [-> ?]. done.
  - case_bool_decide as Hc; [|done]. intros [= <- <-]. subst c. split; [done|]. by apply strrchr_none.
Qed.

Lemma leaf_of_app a s : slash ∈ s -> leaf_of (a ++ s) = leaf_of s.
Proof.
  intros Hs. unfold leaf_of. assert (Hb : exists x y, strrchr_split s = Some (x, y)).
  { destruct (strrchr_split s) as [[x y]|] eqn:Es; [by eauto|]. by apply strrchr_none in Es. }
  destruct Hb as (x&y&Es). rewrite Es. assert (strrchr_split (a ++ s) = Some (a ++ x, y)) as ->; [|done].
  induction a as [|c a IH]; [done|]. simpl. by rewrite IH.
Qed.
Lemma leaf_no_slash s : slash ∉ leaf_of s.
Proof. unfold leaf_of. destruct (strrchr_split s) as [[]|] eqn:Es; [by apply strrchr_some in Es as []|by apply strrchr_none]. Qed.

Lemma trim_tokens s n : (n <= length s)%nat -> tokens (take (trim_len s n) s) = tokens (take n s).
Proof.
  induction n as [|n IH]; [done|]. intros Hn. cbn [trim_len]. unfold char_is. case_bool_decide as Hc; [|done].
  rewrite (take_S_r _ _ _ Hc), tokens_trailing. apply IH. lia.
Qed.
Lemma no_trailing_tokens s : tokens (no_trailing s) = tokens s.
Proof. unfold no_trailing. rewrite trim_tokens by done. by rewrite firstn_all. Qed.
Lemma no_trailing_id s c : c <> slash -> no_trailing (s ++ [c]) = s ++ [c].
Proof.
  intros Hc. unfold no_trailing. rewrite length_app, Nat.add_comm. cbn [length Nat.add trim_len]. unfold char_is.
  rewrite bool_decide_eq_false_2, firstn_all2; [done|rewrite length_app; simpl; lia|].
  rewrite lookup_app_r, Nat.sub_diag by done. by intros [= ?].
Qed.

(** [dirname] and the part after the last slash cut a path at its last component. *)
Lemma dirname_leaf s : slash ∈ s -> leaf_of s <> [] -> tokens s = tokens (dirname s) ++ [leaf_of s].
Proof.
  intros Hs Hl. unfold leaf_of, dirname in *. destruct (strrchr_split s) as [[a b]|] eqn:Es; [|by apply strrchr_none in Es].
  pose proof (strrchr_some _ _ _ Es) as [-> Hb]. destruct (exists_last Hl) as (b'&c&->).
  assert (c <> slash) as Hc by (intros ->; apply Hb; set_solver).
  rewrite app_comm_cons, app_assoc, no_trailing_id, <- app_assoc, <- app_comm_cons by done. rewrite Es, tokens_app, (tokens_single (b' ++ [c])) by done.
  f_equal. case_bool_decide as Ha; [|by rewrite no_trailing_tokens]. by rewrite <- no_trailing_tokens, Ha.
Qed.

(** ** The claims about one path *)

Section Path.
Context `{Heap} {F : Faults} {E : SecureEnv}.
Context (R : list name) (Hroot : root_fd = Some R).

Lemma walk_start_inv path fd parent :
  walk_start path = inr (fd, parent) ->
  exists root, root_path = Some root /\ fd = R /\ parent = dirname (drop (length root) path) /\ path_is_within_root root path = true.
Proof.
  unfold walk_start. rewrite Hroot. destruct root_path as [root|]; [|done]. destruct (_ || _) eqn:Eo; [done|].
  destruct (dup R) as [|r] eqn:Er; [done|]. destruct (xdup _) as [|t] eqn:Ex; [done|]. intros [= <- <-].
  apply dup_inv in Er. apply xdup_inv in Ex. exists root. split_and!; [done..|by subst|]. apply orb_false_iff in Eo as [_ Eo]. by destruct (path_is_within_root root path).
Qed.

Lemma parent_spec path create floor fs made fs' made' r :
  file_open_secure_parent_counted path create floor fs made = (fs', made', r) ->
  grown R fs fs' /\ (create = false -> fs' = fs) /\
  (forall fd leaf, r = inr (fd, leaf) -> lands R fs' fd /\ leaf = leaf_of path /\
    exists root, root_path = Some root /\ path_is_within_root root path = true /\
      cs ".." ∉ tokens (dirname (drop (length root) path)) /\
      (keep_dirlinks = false -> fd = R ++ no_dot (tokens (dirname (drop (length root) path))))).
Proof.
  unfold file_open_secure_parent_counted. destruct (xdup path); [intros [= <- <- <-]; split_and!; [apply grown_refl|done..]|].
  destruct (xdup (leaf_of path)) as [|lf] eqn:El; [intros [= <- <- <-]; split_and!; [apply grown_refl|done..]|]. apply xdup_inv in El as ->.
  destruct (walk_start path) as [|[fd0 parent]] eqn:Ew; [intros [= <- <- <-]; split_and!; [apply grown_refl|done..]|].
  apply walk_start_inv in Ew as (root&Er&->&->&Hin). destruct (walk _ _ _ _ _ _ _) as [[fs1 m1] r1] eqn:Eww.
  destruct (walk_spec R Hroot _ _ _ _ _ _ _ _ _ _ (lands_root R fs) Eww) as (Hg&Hf&Hr).
  destruct r1 as [e|d]; intros [= <- <- <-]; (split_and!; [done..|]); [done|]. intros fd leaf [= <- <-].
  destruct (Hr _ eq_refl) as (?&?&?). split_and!; [done..|]. exists root. done.
Qed.

Lemma secure_parent_spec path create fs fs' r :
  file_open_secure_parent path create fs = (fs', r) ->
  grown R fs fs' /\ (create = false -> fs' = fs) /\
  (forall fd leaf, r = inr (fd, leaf) -> lands R fs' fd /\ leaf = leaf_of path).
Proof.
  unfold file_open_secure_parent. destruct (file_open_secure_parent_counted _ _ _ _ _) as [[fs1 m1] r1] eqn:Ep. intros [= <- <-].
  apply parent_spec in Ep as (?&?&Hr). split_and!; [done..|]. intros fd leaf (?&?&_)%Hr. done.
Qed.

(** C14: the walk to the parent of a path never leaves the authorized root.
    Whatever the file system holds, whatever [realpath] answers for the links of
    --keep-dirlinks, and whichever calls and allocations fail: the descriptor
    obtained is the root or a directory below it, the leaf is a single
    component, and the only change to the file system are new directories
    strictly below the root (none when [create_dirs] is off).  Without
    --keep-dirlinks the place named by descriptor and leaf is the place the
    path names, its dot components dropped. *)
Theorem secure_parent_confined path create floor fs made fs' made' r
    (Hrun : file_open_secure_parent_counted path create floor fs made = (fs', made', r)) :
  grown R fs fs' /\ (create = false -> fs' = fs) /\
  forall fd leaf, r = inr (fd, leaf) ->
    R `prefix_of` fd /\ (kind_at fs R = Some KDir -> kind_at fs' fd = Some KDir) /\ slash ∉ leaf /\
    (keep_dirlinks = false -> leaf <> [] -> leaf <> cs "." -> exists root, root_path = Some root /\
      (path <> root -> fd ++ [leaf] = R ++ no_dot (tokens (drop (length root) path)))).
Proof.
  destruct (parent_spec _ _ _ _ _ _ _ _ Hrun) as (Hg&Hf&Hr). split_and!; [done..|]. intros fd leaf Hres.
  destruct (Hr _ _ Hres) as ([Hp Hk]&->&root&Er&Hin&_&Hfd). split_and!; [done| |apply leaf_no_slash|].
  - intros Hd. apply Hk. by rewrite (grown_root _ _ _ Hg).
  - intros Hkd Hl Hdot. exists root. split; [done|]. intros Hne. rewrite (Hfd Hkd).
    apply within_root_iff in Hin as [->|[s Hs]]; [done|].
    assert (Ed : drop (length root) path = slash :: s) by (rewrite Hs, <- app_assoc; apply drop_app_length).
    assert (El : leaf_of path = leaf_of (slash :: s)) by (rewrite Hs, <- app_assoc; apply leaf_of_app; by left).
    rewrite El in *. rewrite Ed, (dirname_leaf (slash :: s)) by (done || by left).
    unfold no_dot. rewrite filter_app, (filter_cons_True _ (leaf_of _)), filter_nil, app_assoc by done. done.
Qed.
End Path.

(** ** The operations *)

Lemma fold_left_inv {A B} (P : A -> Prop) (f : A -> B -> A) l a : P a -> (forall a b, P a -> P (f a b)) -> P (fold_left f l a).
Proof. intros Ha Hf. revert a Ha. induction l; simpl; auto. Qed.

Section Wipe.
Context {F : Faults}.

Definition wiped (es es' : entries) : Prop := exists g, effect es g es' /\ Forall (fun r => r.1 <> []) g.

Lemma wiped_trans es es1 es2 : wiped es es1 -> wiped es1 es2 -> wiped es es2.
Proof. intros (g&He&Hg) (g'&He'&Hg'). exists (g ++ g'). split; [by eapply effect_trans|by apply Forall_app_2]. Qed.
Lemma wiped_refl es : wiped es es.
Proof. exists []. split; [apply effect_refl|constructor]. Qed.
Lemma wiped_sub n es ces ces' : find n es = Some (Dir ces) -> wiped ces ces' -> wiped es (set_entry n (Dir ces') es).
Proof. intros Hf (g&He&Hg). exists (under n g). split; [by eapply effect_sub|]. unfold under. apply Forall_fmap, Forall_true. done. Qed.
Lemma wiped_one n d es es' : effect es [([n], d)] es' -> wiped es es'.
Proof. intros He. exists [([n], d)]. split; [done|]. by apply Forall_singleton. Qed.

Lemma wipe_wiped fuel : forall here es, wiped es (wipe_dir_fd fuel here es).2.
Proof.
  induction fuel as [|fuel IH]; intros here es; [apply wiped_refl|]. cbn [wipe_dir_fd]. destruct (fault SysScan here); [apply wiped_refl|].
  apply (fold_left_inv (fun a : bool * entries => wiped es a.2)); [apply wiped_refl|]. intros [ok es1] n Hw. cbn [snd] in *.
  destruct (fstatat_is_dir here n es1) as [e|[]]; [done| |].
  - destruct (openat_dir here n es1) as [e|ces] eqn:Eo; [done|]. apply openat_inv in Eo. specialize (IH (here ++ [n]) ces).
    destruct (wipe_dir_fd fuel (here ++ [n]) ces) as [cok ces']. cbn [snd] in IH.
    assert (wiped es (set_entry n (Dir ces') es1)) as Hw1 by (by eapply wiped_trans; [|eapply wiped_sub]).
    destruct cok; [|done]. destruct (unlinkat_dir _ _ _) as [|es2] eqn:Eu; [done|]. cbn [snd].
    apply unlink_dir_effect in Eu as (He&_). by eapply wiped_trans; [|eapply wiped_one].
  - destruct (unlinkat_file _ _ _) as [|es2] eqn:Eu; [done|]. cbn [snd].
    apply unlink_file_effect in Eu as (He&_). by eapply wiped_trans; [|eapply wiped_one].
Qed.

Lemma wiped_confined R fs d es es' : R `prefix_of` d -> dir_at fs d = Some es -> wiped es es' -> confined R fs (put_at fs d es').
Proof.
  intros [r ->] Hd (g&[Hk _ _]&Hg) p. destruct (kind_put fs (R ++ r) es es' Hd (fun q => q <> [])) with (q := p) as [(q&->&Hq)|?]; [| |by right].
  - intros q. rewrite Hk. case_decide as Hq; [left|by right]. apply gone_elem in Hq as (x&Hx). rewrite Forall_forall in Hg. by apply (Hg _ Hx).
  - left. exists (r ++ q). split; [by destruct r|by rewrite app_assoc].
Qed.
End Wipe.

Section Operations.
Context `{Heap} {F : Faults} {E : SecureEnv}.
Context (R : list name) (Hroot : root_fd = Some R).

Lemma ensure_leaf_confined fs fd leaf : R `prefix_of` fd -> confined R fs (ensure_leaf fs fd leaf).1.1.
Proof.
  intros Hp. unfold ensure_leaf. pose proof (confined_refl R fs) as Hr.
  destruct (openat fs fd leaf) as [[]|]; try done.
  - destruct (mkdirat fs fd leaf) eqn:Em; [done|]. by eapply mkdirat_confined.
  - destruct (fstatat fs fd leaf) as [|[[]|]]; try done. destruct (unlinkat fs fd leaf) as [|fs1] eqn:Eu; [done|].
    assert (confined R fs fs1) by (by eapply unlinkat_confined). destruct (mkdirat fs1 fd leaf) eqn:Em; [done|].
    eapply confined_trans; [done|]. by eapply mkdirat_confined.
Qed.

Lemma ensure_directory_confined path fs : confined R fs (file_ensure_directory_secure path fs).1.
Proof.
  unfold file_ensure_directory_secure. destruct (normalize_directory_path path) as [norm| |]; try apply confined_refl.
  destruct (is_open_root norm); [apply confined_refl|]. destruct (file_open_secure_parent norm true fs) as [fs1 r] eqn:Ep.
  destruct (secure_parent_spec R Hroot _ _ _ _ _ Ep) as (Hg%grown_confined&_&Hr). destruct r as [|[fd leaf]]; [done|].
  destruct (Hr _ _ eq_refl) as [[Hp _] _]. pose proof (ensure_leaf_confined fs1 fd leaf Hp) as Hc.
  destruct (ensure_leaf fs1 fd leaf) as [[fs2 ok] cr]. simpl in *. by eapply confined_trans.
Qed.

Lemma private_dir_confined path fs : confined R fs (file_open_private_dir path fs).1.
Proof.
  unfold file_open_private_dir. destruct (file_open_secure_parent path true fs) as [fs1 r] eqn:Ep.
  destruct (secure_parent_spec R Hroot _ _ _ _ _ Ep) as (Hg%grown_confined&_&Hr). destruct r as [|[fd leaf]]; [done|].
  destruct (Hr _ _ eq_refl) as [[Hp _] _]. destruct (openat fs1 fd leaf) as [e|]; [|done]. case_bool_decide; [|done].
  destruct (mkdirat fs1 fd leaf) eqn:Em; [done|]. eapply confined_trans; [done|]. by eapply mkdirat_confined.
Qed.

Lemma symlink_at_confined path inode fs : confined R fs (file_symlink_at_secure path inode fs).1.
Proof.
  unfold file_symlink_at_secure. destruct (has_path_traversal _); [apply confined_refl|].
  destruct (file_open_secure_parent path true fs) as [fs1 r] eqn:Ep.
  destruct (secure_parent_spec R Hroot _ _ _ _ _ Ep) as (Hg%grown_confined&_&Hr). destruct r as [|[fd leaf]]; [done|].
  destruct (Hr _ _ eq_refl) as [[Hp _] _].
  assert (Hplace : forall fs2, confined R fs1 fs2 ->
    confined R fs (match symlinkat inode fs2 fd leaf with inr fs => (fs, true) | inl _ => (fs2, false) end).1).
  { intros fs2 Hc. destruct (symlinkat inode fs2 fd leaf) eqn:Es; simpl; [by eapply confined_trans|].
    eapply confined_trans; [done|]. eapply confined_trans; [done|]. by eapply symlinkat_confined. }
  destruct (fstatat fs1 fd leaf) as [|[]]; [apply Hplace, confined_refl| |done].
  destruct (unlinkat fs1 fd leaf) as [e|fs2] eqn:Eu; [|apply Hplace; by eapply unlinkat_confined].
  case_bool_decide; [apply Hplace, confined_refl|done].
Qed.

Lemma remove_tree_confined path fs : has_path_traversal (Some path) = false -> confined R fs (file_remove_tree_secure path fs).1.
Proof.
  intros Ht. unfold file_remove_tree_secure. destruct (file_open_secure_parent path false fs) as [fs1 r] eqn:Ep.
  destruct (secure_parent_spec R Hroot _ _ _ _ _ Ep) as (Hg%grown_confined&_&Hr). destruct r as [|[fd leaf]]; [done|].
  destruct (Hr _ _ eq_refl) as [[Hp _] ->]. destruct (openat fs1 fd (leaf_of path)) as [e|d] eqn:Eo; [done|].
  assert (R `prefix_of` d) as Hpd.
  { revert Eo. unfold openat. destruct (dir_at fs1 fd) as [es|]; [|done]. case_bool_decide as Hl; [done|]. unfold dots, dot_target.
    assert (leaf_of path <> cs "..") as Hdd.
    { intros El. apply (traversal_free path Ht). unfold leaf_of in El. destruct (strrchr_split path) as [[a b]|] eqn:Es.
      - subst b. apply strrchr_some in Es as [-> _]. rewrite tokens_app. apply elem_of_app. right. by left.
      - subst path. by left. }
    rewrite (bool_decide_eq_false_2 _ Hdd), orb_false_r. case_bool_decide.
    - destruct (fault _ _); [done|]. by intros [= <-].
    - destruct (openat_dir _ _ _); [done|]. intros [= <-]. by apply prefix_app_r. }
  destruct (dir_at fs1 d) as [es|] eqn:Ed; [|done]. pose proof (wipe_wiped (depth (Dir es)) d es) as Hw.
  destruct (wipe_dir_fd _ d es) as [ok es']. cbn [snd] in Hw.
  assert (confined R fs (put_at fs1 d es')) as Hc by (eapply confined_trans; [done|by eapply wiped_confined]).
  destruct ok; [|done]. destruct (rmdirat _ _ _) as [|fs3] eqn:Er; [done|]. cbn [fst]. eapply confined_trans; [exact Hc|]. exact (rmdirat_confined R fd _ _ _ Hp Er).
Qed.
End Operations.

(** C15: the operations that change the destination are confined.  For every
    file system, link resolution and pattern of failures, creating a directory,
    opening a private directory, placing a symbolic link and removing a tree
    change nothing but entries strictly below the authorized root; the removal
    is only called with paths that passed [has_path_traversal]. *)
Theorem secure_operations_confined `{Heap} {F : Faults} {E : SecureEnv} (R : list name) path inode fs
    (Hroot : root_fd = Some R) (Hpath : has_path_traversal (Some path) = false) :
  confined R fs (file_ensure_directory_secure path fs).1 /\
  confined R fs (file_open_private_dir path fs).1 /\
  confined R fs (file_symlink_at_secure path inode fs).1 /\
  confined R fs (file_remove_tree_secure path fs).1.
Proof.
  split_and!; [by apply ensure_directory_confined|by apply private_dir_confined|by apply symlink_at_confined|by apply remove_tree_confined].
Qed.

(** A server whose root is /srv/d, which holds a link "l" out of the root; the
    C library resolves it to /etc. *)
Definition demo_fs : entries :=
  [(cs "etc", Dir [(cs "passwd", Leaf false 7)]);
   (cs "srv", Dir [(cs "d", Dir [(cs "l", Leaf true 5); (cs "t", Dir [(cs "f", Leaf false 6); (cs "u", Dir [(cs "v", Leaf false 8)])])])])].
Definition demo_env (follow : bool) : SecureEnv := {|
  root_fd := Some [cs "srv"; cs "d"]; root_path := Some (cs "/srv/d"); cwd := [];
  keep_dirlinks := follow; copy_as_active := false; chown_link _ := None;
  realpath p := if bool_decide (p = cs "/srv/d/l") then inr (cs "/etc") else inr p;
  stat_is_dir _ := inr true; open_directory _ := inl ENOENT |}.

Lemma secure_parent_confined_witness :
  exists fs' made' r,
    @file_open_secure_parent_counted heap0 no_faults (demo_env false) (cs "/srv/d/t/./n/x") true None demo_fs 0 = (fs', made', r) /\
    made' = 1 /\ r = inr ([cs "srv"; cs "d"; cs "t"; cs "n"], cs "x") /\ kind_at demo_fs [cs "srv"; cs "d"; cs "t"; cs "n"] = None /\
    kind_at fs' [cs "srv"; cs "d"; cs "t"; cs "n"] = Some KDir /\ kind_at fs' [cs "etc"; cs "passwd"] = Some (KLeaf false 7).
Proof.
  destruct (@file_open_secure_parent_counted heap0 no_faults (demo_env false) (cs "/srv/d/t/./n/x") true None demo_fs 0) as [[fs' m'] r] eqn:E0.
  exists fs', m', r. split; [done|].
  destruct (@secure_parent_confined heap0 no_faults (demo_env false) [cs "srv"; cs "d"] eq_refl _ _ _ _ _ _ _ _ E0) as (Hg&_&Hr).
  assert (m' = 1 /\ r = inr ([cs "srv"; cs "d"; cs "t"; cs "n"], cs "x")) as [-> ->] by (vm_compute in E0; by injection E0 as <- <- <-).
  destruct (Hr _ _ eq_refl) as (_&Hd&_). split_and!; [done..|by vm_compute|by apply Hd|]. by apply (grown_kept _ _ _ _ _ Hg).
Defined.

Lemma secure_operations_confined_witness :
  let '(fs', ok) := @file_remove_tree_secure heap0 no_faults (demo_env true) (cs "/srv/d/t") demo_fs in
  ok = true /\ kind_at fs' [cs "srv"; cs "d"; cs "t"] = None /\ confined [cs "srv"; cs "d"] demo_fs fs'.
Proof.
  pose proof (@secure_operations_confined heap0 no_faults (demo_env true) [cs "srv"; cs "d"] (cs "/srv/d/t") 9 demo_fs eq_refl ltac:(by vm_compute)) as (_&_&_&Hc).
  revert Hc. destruct (@file_remove_tree_secure heap0 no_faults (demo_env true) (cs "/srv/d/t") demo_fs) as [fs' ok] eqn:E0. intros Hc.
  assert (ok = true /\ kind_at fs' [cs "srv"; cs "d"; cs "t"] = None) as [? ?] by (vm_compute in E0; injection E0 as <- <-; by vm_compute).
  split_and!; done.
Defined.

(** The link out of the root is not followed, even with --keep-dirlinks. *)
Example outside_link_refused :
  (@file_open_secure_parent heap0 no_faults (demo_env true) (cs "/srv/d/l/x") true demo_fs).2 = inl None.
Proof. vm_compute. reflexivity. Qed.

(** The last component is not checked for "..": the private directory "/srv/d/.."
    is the directory above the root. *)
Example private_dir_above_root :
  (@file_open_private_dir heap0 no_faults (demo_env false) (cs "/srv/d/..") demo_fs).2 = Some [cs "srv"].
Proof. vm_compute. reflexivity. Qed.

(** An entry that cannot be removed two levels down is not reported by
    [wipe_dir_fd]; only the directory that stays tells. *)
Example wipe_reports_nothing :
  @wipe_dir_fd (fun c p => if bool_decide (c = SysUnlink) then Some EIO else None) 4 []
    [(cs "u", Dir [(cs "v", Leaf false 8)])] = (true, [(cs "u", Dir [(cs "v", Leaf false 8)])]).
Proof. vm_compute. reflexivity. Qed.
