(* ===== verification/Symlink.v ===== *)
(** The lexical tests and rewritings of symbolic link targets in
    src/shared/file.c: --safe-links, --munge-links and the strict containment
    test. *)

From stdpp Require Import list.
From S2P Require Import Prelude Alloc CStr Names Libc Paths.

Definition dot : byte := "."%byte.

(** [strstr(s, pat) != NULL] *)
Fixpoint strstr (s pat : list byte) : bool :=
  bool_decide (pat `prefix_of` s) || match s with [] => false | _ :: s => strstr s pat end.

(** [while (strncmp(rest, "../", 3) == 0) { rest += 3; while ( *rest == '/') rest++; }];
    each round takes at least three characters. *)
Fixpoint skip_dotdots (fuel : nat) (rest : list byte) : list byte :=
  match fuel with
  | O => rest
  | S fuel => if strncmp rest (cs "../") 3 =? 0 then skip_dotdots fuel (skip_slashes (drop 3 rest)) else rest
  end.

(** [*name == '.' && (name[1] == '/' || (name[1] == '.' && name[2] == '/'))] *)
Definition dot_component (name : list byte) : bool :=
  char_is name 0 dot && (char_is name 1 slash || (char_is name 1 dot && char_is name 2 slash)).
Definition final_dotdot (name : list byte) : bool := char_is name 0 dot && char_is name 1 dot && at_end name 2.

(** The loop over the link's own path: how deep its directory is. *)
Fixpoint link_depth (fuel : nat) (name : list byte) (depth : Z) : Z :=
  match fuel with
  | O => depth
  | S fuel =>
      match split_first slash name with
      | Some (_, after) =>
          link_depth fuel (skip_slashes after)
            (if dot_component name then (if char_is name 1 dot then 0 else depth) else depth + 1)
      | None => if final_dotdot name then 0 else depth
      end
  end.

(** The loop over the target: does it climb above the transfer root? *)
Fixpoint climbs (fuel : nat) (name : list byte) (depth : Z) : bool :=
  match fuel with
  | O => depth <? 0
  | S fuel =>
      match split_first slash name with
      | Some (_, after) =>
          if dot_component name then
            if char_is name 1 dot then (if depth - 1 <? 0 then true else climbs fuel (skip_slashes after) (depth - 1))
            else climbs fuel (skip_slashes after) depth
          else climbs fuel (skip_slashes after) (depth + 1)
      | None => (if final_dotdot name then depth - 1 else depth) <? 0
      end
  end.

(** file.c [file_symlink_unsafe] *)
Definition file_symlink_unsafe (target link_path : option (list byte)) : bool :=
  match target with
  | None => true
  | Some target =>
      if at_end target 0 || char_is target 0 slash then true
      else
        let rest := skip_dotdots (S (length target)) target in
        if strstr rest (cs "/../") then true
        else if (zlen target >? 3) && (strcmp (drop (length target - 3) target) (cs "/..") =? 0) then true
        else
          let src := default [] link_path in
          climbs (S (length target)) target (link_depth (S (length src)) src 0)
  end.

(** file.c [file_symlink_target_contained] *)
Fixpoint contained_loop (fuel : nat) (p : list byte) : bool :=
  match fuel with
  | O => true
  | S fuel =>
      if at_end p 0 then true
      else let '(comp_len, next) := match split_first slash p with Some (a, b) => (length a, Some b) | None => (length p, None) end in
      if (comp_len =? 2)%nat && char_is p 0 dot && char_is p 1 dot then false
      else match next with None => true | Some p => contained_loop fuel p end
  end.
Definition file_symlink_target_contained (target : option (list byte)) : bool :=
  match target with
  | None => false
  | Some target => if at_end target 0 || char_is target 0 slash then false else contained_loop (S (length target)) target
  end.

(** file.c [file_symlink_unmunge], [file_symlink_munge] *)
Definition SYMLINK_MUNGE_PREFIX : list byte := cs "/rsyncd-munged/".
Definition file_symlink_unmunge (target : option (list byte)) : bool * option (list byte) :=
  match target with
  | None => (false, None)
  | Some t => if strncmp t SYMLINK_MUNGE_PREFIX (length SYMLINK_MUNGE_PREFIX) =? 0
              then (true, Some (drop (length SYMLINK_MUNGE_PREFIX) t)) else (false, Some t)
  end.
Definition file_symlink_munge `{Heap} (target : option (list byte)) : outcome (list byte) :=
  match target with
  | None => Fail
  | Some t => check (malloc_ok (zlen SYMLINK_MUNGE_PREFIX + zlen t + 1));; Ret (SYMLINK_MUNGE_PREFIX ++ t)
  end.

(** ** Components and the loops *)

(** Resolving the components [ts] from the directory [cur] below the transfer
    root, without following links; [None]: above the root. *)
Fixpoint resolve (cur ts : list (list byte)) : option (list (list byte)) :=
  match ts with
  | [] => Some cur
  | t :: ts =>
      if bool_decide (t = cs ".") then resolve cur ts
      else if bool_decide (t = cs "..") then match cur with [] => None | _ => resolve (removelast cur) ts end
      else resolve (cur ++ [t]) ts
  end.

Lemma split_first_some s a b : split_first slash s = Some (a, b) -> s = a ++ slash :: b /\ slash ∉ a.
Proof.
  revert a. induction s as [|c s IH]; intros a; simpl; [done|]. case_bool_decide as Hc.
  - intros [= <- <-]. subst. split; [done|apply not_elem_of_nil].
  - destruct (split_first slash s) as [[x y]|]; [|done]. simpl. intros [= <- <-]. destruct (IH _ eq_refl) as [-> ?]. split; [done|].
    apply not_elem_of_cons. done.
Qed.
Lemma split_first_none s : split_first slash s = None -> slash ∉ s.
Proof.
  induction s as [|c s IH]; simpl; [intros _; apply not_elem_of_nil|]. case_bool_decide as Hc; [done|].
  destruct (split_first slash s) as [[]|]; [done|]. intros _. apply not_elem_of_cons. split; [naive_solver|by apply IH].
Qed.

Lemma dot_component_app a b : slash ∉ a -> dot_component (a ++ slash :: b) = bool_decide (a = cs ".") || bool_decide (a = cs "..").
Proof.
  intros Hs. apply eq_true_iff_eq. unfold dot_component, char_is. rewrite !andb_true_iff, !orb_true_iff, !andb_true_iff, !bool_decide_eq_true.
  destruct a as [|x [|y [|z a]]]; simpl.
  - split; [intros ([= ?]&_)|intros [|]; discriminate]; by vm_compute.
  - split; [intros ([= ->]&_); by left|intros [[= ->]|[= ?]]; split; [done|by left]].
  - split.
    + intros ([= ->]&[[= ->]|([= ->]&_)]); [destruct Hs; set_solver|by right].
    + intros [[= ?]|[= -> ->]]. split; [done|by right].
  - split.
    + intros (_&[[= ->]|(_&[= ->])]); destruct Hs; set_solver.
    + intros [[= ?]|[= ?]].
Qed.

Lemma final_dotdot_eq name : final_dotdot name = bool_decide (name = cs "..").
Proof.
  apply eq_true_iff_eq. unfold final_dotdot, char_is, at_end. rewrite !andb_true_iff, !bool_decide_eq_true.
  change (cs "..") with [dot; dot]. split; [|by intros ->].
  intros [[H0 H1] H2]. destruct name as [|x [|y [|z a]]]; simpl in *; congruence.
Qed.

Lemma skip_slashes_split s : exists k, s = replicate k slash ++ skip_slashes s.
Proof.
  induction s as [|c s [k IH]]; simpl; [by exists 0%nat|]. case_bool_decide as Hc; [|by exists 0%nat]. exists (S k). simpl. by rewrite <- IH, Hc.
Qed.
Lemma skip_slashes_head s : char_is (skip_slashes s) 0 slash = false.
Proof. induction s as [|c s IH]; [done|]. simpl. case_bool_decide as Hc; [done|]. unfold char_is. apply bool_decide_eq_false_2. simpl. naive_solver. Qed.
Lemma skip_slashes_tokens s : tokens (skip_slashes s) = tokens s.
Proof. induction s as [|c s IH]; [done|]. simpl. case_bool_decide as Hc; [|done]. subst c. by rewrite IH, tokens_leading. Qed.
Lemma skip_slashes_length s : (length (skip_slashes s) <= length s)%nat.
Proof. induction s as [|c s IH]; [done|]. simpl. case_bool_decide; simpl; lia. Qed.

(** A name that does not start with a slash has its first component before the
    first slash; the loops continue with the rest. *)
Lemma first_component name a after :
  char_is name 0 slash = false -> split_first slash name = Some (a, after) ->
  name = a ++ slash :: after /\ slash ∉ a /\ a <> [] /\ tokens name = a :: tokens (skip_slashes after) /\
  dot_component name = bool_decide (a = cs ".") || bool_decide (a = cs "..") /\
  (dot_component name = true -> char_is name 1 dot = bool_decide (a = cs "..")) /\ (length (skip_slashes after) < length name)%nat.
Proof.
  intros Hh [-> Hs]%split_first_some. assert (a <> []) as Ha by (intros ->; by apply bool_decide_eq_false in Hh).
  pose proof (dot_component_app a after Hs) as Hd. split_and!; [done..| |done| |].
  - rewrite tokens_app, tokens_single, skip_slashes_tokens by done. done.
  - rewrite Hd, orb_true_iff, !bool_decide_eq_true. intros [->| ->]; reflexivity.
  - pose proof (skip_slashes_length after). rewrite length_app. simpl. lia.
Qed.

Definition plain_names (l : list (list byte)) : list (list byte) := filter (fun c => c <> cs ".") l.

Lemma link_depth_spec fuel : forall name depth,
  (length name < fuel)%nat -> name <> [] -> char_is name 0 slash = false -> last name <> Some slash -> cs ".." ∉ tokens name ->
  link_depth fuel name depth = depth + zlen (plain_names (removelast (tokens name))).
Proof.
  induction fuel as [|fuel IH]; intros name depth Hf Hne Hh Hl Ht; [lia|]. cbn [link_depth].
  destruct (split_first slash name) as [[a after]|] eqn:Es.
  - destruct (first_component _ _ _ Hh Es) as (Hn&Hs&Ha&Htok&Hd&Hd1&Hlen). rewrite Htok in Ht |- *.
    apply not_elem_of_cons in Ht as [Hdd Ht]. rewrite Hd in Hd1 |- *. rewrite (bool_decide_eq_false_2 (a = cs "..")), orb_false_r in * by congruence.
    assert (skip_slashes after <> []) as Hne'.
    { intros E. destruct (skip_slashes_split after) as [k Ek]. rewrite E, app_nil_r in Ek. apply Hl. rewrite Hn, Ek, last_app.
      change (slash :: replicate k slash) with (replicate (S k) slash). by rewrite replicate_S_end, last_snoc. }
    assert (tokens (skip_slashes after) <> []) as Htn.
    { destruct (split_first slash (skip_slashes after)) as [[a' r']|] eqn:Es'.
      - destruct (first_component _ _ _ (skip_slashes_head after) Es') as (_&_&_&->&_). done.
      - apply split_first_none in Es'. by rewrite tokens_single. }
    rewrite IH; [|lia|done|apply skip_slashes_head| |done].
    + destruct (tokens (skip_slashes after)) as [|t ts]; [done|]. change (removelast (a :: t :: ts)) with (a :: removelast (t :: ts)).
      unfold plain_names. rewrite filter_cons. case_bool_decide as E1; rewrite ?E1 in *.
      * rewrite Hd1 by done. rewrite decide_False by (by intros []). done.
      * rewrite decide_True by done. rewrite zlen_cons. lia.
    + intros E. apply Hl. rewrite Hn, last_app, last_cons. destruct (skip_slashes_split after) as [k Ek]. rewrite Ek, last_app, E. done.
  - apply split_first_none in Es. rewrite tokens_single in * by done. rewrite final_dotdot_eq, bool_decide_eq_false_2 by set_solver.
    simpl. change (zlen (plain_names [])) with 0. lia.
Qed.

Lemma climbs_sound fuel : forall name cur,
  (length name < fuel)%nat -> char_is name 0 slash = false -> climbs fuel name (zlen cur) = false -> is_Some (resolve cur (tokens name)).
Proof.
  induction fuel as [|fuel IH]; intros name cur Hf Hh; [lia|]. cbn [climbs].
  destruct (split_first slash name) as [[a after]|] eqn:Es.
  - destruct (first_component _ _ _ Hh Es) as (Hn&Hs&Ha&Htok&Hd&Hd1&Hlen). rewrite Htok. cbn [resolve].
    assert (Hrest : forall cur, climbs fuel (skip_slashes after) (zlen cur) = false -> is_Some (resolve cur (tokens (skip_slashes after)))).
    { intros c. apply IH; [lia|apply skip_slashes_head]. }
    rewrite Hd in Hd1 |- *. destruct (bool_decide_reflect (a = cs ".")) as [E1|E1].
    + simpl in *. rewrite Hd1 by done. subst a. rewrite bool_decide_eq_false_2 by done. apply Hrest.
    + destruct (bool_decide_reflect (a = cs "..")) as [E2|E2]; simpl in *.
      * rewrite Hd1 by done. destruct (Z.ltb_spec (zlen cur - 1) 0); [done|]. destruct cur as [|x cur] using rev_ind; [done|].
        rewrite zlen_app in *. change (zlen [x]) with 1. rewrite Z.add_simpl_r. intros Hc%Hrest. rewrite removelast_last. by destruct cur.
      * intros Hc. apply Hrest. rewrite zlen_app. exact Hc.
  - intros Hc. apply split_first_none in Es. destruct (decide (name = [])) as [->|Hne]; [by eexists|]. rewrite tokens_single by done.
    rewrite final_dotdot_eq in Hc. cbn [resolve]. destruct (bool_decide (name = cs ".")); [by eexists|].
    destruct (bool_decide (name = cs "..")); [|by eexists]. destruct cur; [done|by eexists].
Qed.

Lemma climbs_free fuel : forall name depth,
  (length name < fuel)%nat -> 0 <= depth -> char_is name 0 slash = false -> cs ".." ∉ tokens name -> climbs fuel name depth = false.
Proof.
  induction fuel as [|fuel IH]; intros name depth Hf Hz Hh Ht; [lia|]. cbn [climbs].
  destruct (split_first slash name) as [[a after]|] eqn:Es.
  - destruct (first_component _ _ _ Hh Es) as (Hn&Hs&Ha&Htok&Hd&Hd1&Hlen). rewrite Htok in Ht. apply not_elem_of_cons in Ht as [Hdd Ht].
    rewrite Hd in Hd1 |- *. rewrite (bool_decide_eq_false_2 (a = cs "..")), orb_false_r in * by congruence.
    case_bool_decide as E1; [rewrite Hd1 by done|]; (apply IH; [lia|lia|apply skip_slashes_head|done]).
  - apply split_first_none in Es. rewrite final_dotdot_eq, bool_decide_eq_false_2; [by apply Z.ltb_ge|].
    intros ->. by apply Ht; left.
Qed.

(** ** The claim *)

Lemma strstr_app s pat : strstr s pat = true -> exists a b, s = a ++ pat ++ b.
Proof.
  induction s as [|c s IH]; cbn [strstr].
  - rewrite orb_false_r, bool_decide_eq_true. intros [b ->]. by exists [], b.
  - rewrite orb_true_iff, bool_decide_eq_true. intros [[b Hb]|(a&b&->)%IH]; [by exists [], b|]. by exists (c :: a), b.
Qed.

(** A component ".." between slashes, or at an end. *)
Lemma dotdot_token a b : cs ".." ∈ tokens (a ++ cs "/.." ++ slash :: b).
Proof. change (cs "/..") with (slash :: cs ".."). rewrite <- app_comm_cons, tokens_app, tokens_app. apply elem_of_app. right. apply elem_of_app. left. by left. Qed.

Lemma contained_tokens fuel : forall p, (length p < fuel)%nat -> contained_loop fuel p = bool_decide (cs ".." ∉ tokens p).
Proof.
  induction fuel as [|fuel IH]; intros p Hf; [lia|]. cbn [contained_loop]. unfold at_end. case_bool_decide as He.
  { destruct p; [|done]. symmetry. by apply bool_decide_eq_true_2, not_elem_of_nil. }
  assert (Hdd : forall a b, slash ∉ a -> (length a =? 2)%nat && char_is (a ++ b) 0 dot && char_is (a ++ b) 1 dot = bool_decide (a = cs "..")).
  { intros a b _. apply eq_true_iff_eq. unfold char_is. rewrite !andb_true_iff, !bool_decide_eq_true, Nat.eqb_eq. change (cs "..") with [dot; dot].
    split; [|by intros ->]. intros [[Hl H0] H1]. destruct a as [|x [|y [|]]]; simpl in *; congruence. }
  destruct (split_first slash p) as [[a b]|] eqn:Es.
  - apply split_first_some in Es as [-> Hs]. rewrite (Hdd a (slash :: b) Hs), tokens_app, length_app in *. simpl in Hf. rewrite IH by lia.
    assert (cs ".." ∈ tokens a <-> a = cs "..") as Ha.
    { destruct (decide (a = [])) as [->|Hne]; [by split; [intros ?%not_elem_of_nil|]|]. rewrite tokens_single, list_elem_of_singleton by done. done. }
    case_bool_decide as Hx; [symmetry; apply bool_decide_eq_false_2|apply bool_decide_ext]; set_solver.
  - apply split_first_none in Es. specialize (Hdd p [] Es). rewrite app_nil_r in Hdd. rewrite Hdd.
    assert (p <> []) as Hne by (by intros ->). rewrite tokens_single by done. case_bool_decide as Hx; [symmetry; apply bool_decide_eq_false_2|symmetry; apply bool_decide_eq_true_2]; set_solver.
Qed.

(** --safe-links keeps a link inside the transfer.  When the test accepts a
    target for the link at [link] (a path below the transfer root, without ".."
    components), the target is relative and its components, resolved one by one
    from the link's directory, never climb above the transfer root; and a target
    that is relative without any ".." component is always accepted. *)
Lemma safe_link_stays_inside target link
    (Hlink : link <> [] /\ char_is link 0 slash = false /\ last link <> Some slash /\ cs ".." ∉ tokens link) :
  (file_symlink_unsafe (Some target) (Some link) = false ->
   target <> [] /\ char_is target 0 slash = false /\
   is_Some (resolve (plain_names (removelast (tokens link))) (tokens target))) /\
  (file_symlink_target_contained (Some target) = true -> file_symlink_unsafe (Some target) (Some link) = false).
Proof.
  destruct Hlink as (Hne&Hh&Hl&Ht). unfold file_symlink_unsafe, file_symlink_target_contained.
  destruct (at_end target 0 || char_is target 0 slash) eqn:E0; [done|]. apply orb_false_iff in E0 as [He Hs]. simpl default.
  rewrite link_depth_spec by (done || lia). rewrite Z.add_0_l. split.
  - destruct (strstr _ _); [done|]. destruct (_ && _); [done|]. intros Hc. split_and!; [intros ->; by apply bool_decide_eq_false in He|done|].
    by apply (climbs_sound (S (length target)) target _ (Nat.lt_succ_diag_r _) Hs).
  - rewrite contained_tokens, bool_decide_eq_true by lia. intros Hdd.
    assert (skip_dotdots (S (length target)) target = target) as ->.
    { cbn [skip_dotdots]. destruct (Z.eqb_spec (strncmp target (cs "../") 3) 0) as [Ez|]; [|done]. apply strncmp_prefix in Ez as [b ->].
      destruct Hdd. change (cs "../" ++ b) with (cs ".." ++ slash :: b). rewrite tokens_app. apply elem_of_app. left. by left. }
    destruct (strstr target (cs "/../")) eqn:Est.
    { apply strstr_app in Est as (a&b&->). destruct Hdd. apply dotdot_token. }
    destruct (_ && _) eqn:Etl.
    { apply andb_true_iff in Etl as [Hz Hd]. apply Z.eqb_eq, strcmp_eq in Hd. destruct Hdd. rewrite <- (take_drop (length target - 3) target), Hd.
      change (cs "/..") with (slash :: cs ".."). rewrite tokens_app. apply elem_of_app. right. by left. }
    apply climbs_free; [lia|pose proof (zlen_nonneg (plain_names (removelast (tokens link)))); lia|done..].
Qed.

(** Munged targets are restored. *)
Lemma munge_roundtrip `{Heap} t m : file_symlink_munge (Some t) = Ret m -> file_symlink_unmunge (Some m) = (true, Some t).
Proof.
  unfold file_symlink_munge. destruct (malloc_ok _); [|done]. intros Hm.
  assert (m = SYMLINK_MUNGE_PREFIX ++ t) as -> by (by injection Hm). unfold file_symlink_unmunge.
  rewrite (proj2 (strncmp_prefix (SYMLINK_MUNGE_PREFIX ++ t) SYMLINK_MUNGE_PREFIX)) by (by exists t). by rewrite drop_app_length.
Qed.

(** What the test says of some targets of the link "a/b". *)
Example unsafe_examples :
  (fun t => file_symlink_unsafe (Some t) (Some (cs "a/b"))) <$> [cs "/x"; cs "../../x"; cs "x/../y"; cs "../.."; cs ".."; cs "./x"; []] =
  [true; true; true; true; false; false; true].
Proof. vm_compute. reflexivity. Qed.
