(* ===== verification/DeleteManifest.v ===== *)
(** The delete manifest: the frame src/client/client_manifest.c sends and
    src/shared/delete_commit.c receives. *)

From stdpp Require Import list.
From S2P Require Import Prelude Alloc DataBuf CStr Paths ArrayList Transport Session Wp Charset Names Chunk ConfigWire ConfigTrip.

Definition MAX_MANIFEST_ENTRIES : Z := 1024 * 1024.
Definition MAX_MANIFEST_BYTES : Z := 16 * 1024 * 1024.
Definition MANIFEST_ENTRY_OVERHEAD : Z := 8 + 16.
Definition STATUS_MANIFEST : Z := 5.

(** delete_commit.h [DeleteManifest] *)
Record DeleteManifest := MkManifest {
  keeps : ArrayList (list byte); protected : ArrayList (list byte);
  missing : ArrayList (list byte); dirs : ArrayList (list byte) }.

(** The strings of a list. *)
Definition cells (a : ArrayList (list byte)) : list (list byte) := omap id (take (Z.to_nat (al_size a)) (al_items a)).
Definition cells_or (a : option (ArrayList (list byte))) : list (list byte) := match a with Some a => cells a | None => [] end.

Section Manifest.
Context `{HH : Heap} {W : WireCharset}.

(** client_manifest.c [add_chunk_to_manifest] *)
Fixpoint add_files (manifest : ArrayList (list byte)) (files : list File) : outcome (ArrayList (list byte)) :=
  match files with
  | [] => Ret manifest
  | f :: files =>
      path ← deref (file_wire_path f);
      entry ← str_dup (Some (if char_is path 0 slash then drop 1 path else path));
      manifest ← array_list_add (Some manifest) entry;
      add_files manifest files
  end.
Definition add_chunk_to_manifest (manifest : option (ArrayList (list byte))) (files : list File) : outcome (option (ArrayList (list byte))) :=
  match manifest with
  | None => Ret None
  | Some m => m ← add_files m files; Ret (Some m)
  end.

(** client_manifest.c [send_delete_manifest] *)
Definition send_names (l : list (list byte)) : io unit := send_each (fun s => send_wire_str (Some s)) l.
Definition send_delete_manifest (manifest protected_prefixes size_skipped missing_args synced_dirs : option (ArrayList (list byte))) : io unit :=
  protocol_send_status STATUS_MANIFEST >~
  protocol_send_int (zlen (cells_or manifest)) >~ send_names (cells_or manifest) >~
  protocol_send_int (zlen (cells_or protected_prefixes) + zlen (cells_or size_skipped)) >~
  send_names (cells_or protected_prefixes) >~ send_names (cells_or size_skipped) >~
  protocol_send_int (zlen (cells_or missing_args)) >~ send_names (cells_or missing_args) >~
  protocol_send_int (zlen (cells_or synced_dirs)) >~ send_names (cells_or synced_dirs).

(** delete_commit.c [receive_manifest_section]: one entry, the loop, the section *)
Definition manifest_entry (s : list byte) (bytes : Z) (l : ArrayList (list byte)) : outcome (ArrayList (list byte) * Z) :=
  let entry_size := zlen s + MANIFEST_ENTRY_OVERHEAD in
  check (negb (at_end s 0 || char_is s 0 slash || has_path_traversal (Some s) ||
               (entry_size >? MAX_MANIFEST_BYTES - bytes) || (u64 (bytes + entry_size) >? MAX_MANIFEST_BYTES)));;
  l ← array_list_add (Some l) s;
  Ret (l, u64 (bytes + entry_size)).
Fixpoint section_loop (count : nat) (l : ArrayList (list byte)) (bytes : Z) : io (ArrayList (list byte) * Z) :=
  match count with
  | O => io_ret (l, bytes)
  | S count =>
      s <~ receive_wire_str;
      r <~ io_of (manifest_entry s bytes l);
      section_loop count (fst r) (snd r)
  end.
Definition answer_error : io unit := protocol_send_status STATUS_ERROR.
Definition receive_manifest_section (l : ArrayList (list byte)) (bytes entries : Z) : io (ArrayList (list byte) * Z * Z) :=
  on_fail answer_error (
    count <~ protocol_receive_int;
    io_check (negb ((count <? 0) || (count >? MAX_MANIFEST_ENTRIES) || (count >? MAX_MANIFEST_ENTRIES - entries))) >~
    r <~ section_loop (Z.to_nat count) l bytes;
    io_ret (r, u64 (entries + count))).

(** delete_commit.c [receive_manifest_entries] *)
Definition sizeof_DeleteManifest : Z := 4 * 8.
Definition receive_manifest_entries : io DeleteManifest :=
  on_fail answer_error (io_check (malloc_ok sizeof_DeleteManifest)) >~
  l1 <~ on_fail answer_error (io_of (array_list_create true));
  l2 <~ on_fail answer_error (io_of (array_list_create true));
  l3 <~ on_fail answer_error (io_of (array_list_create true));
  l4 <~ on_fail answer_error (io_of (array_list_create true));
  r1 <~ receive_manifest_section l1 0 0;
  r2 <~ receive_manifest_section l2 (snd (fst r1)) (snd r1);
  r3 <~ receive_manifest_section l3 (snd (fst r2)) (snd r2);
  r4 <~ receive_manifest_section l4 (snd (fst r3)) (snd r3);
  io_ret (MkManifest (fst (fst r1)) (fst (fst r2)) (fst (fst r3)) (fst (fst r4))).
End Manifest.

Lemma cells_repr a l : al_repr a l -> cells a = l.
Proof.
  intros [_ _ [Hs _] Hc]. unfold cells. rewrite Hs. unfold zlen. rewrite Nat2Z.id, Hc. clear. induction l as [|x l IH]; [done|]. simpl. by f_equal.
Qed.

(** What an entry costs, and what the receiver accepts. *)
Definition entry_charge (s : list byte) : Z := zlen s + MANIFEST_ENTRY_OVERHEAD.
Definition entry_ok (s : list byte) : Prop := s <> [] /\ char_is s 0 slash = false /\ cs ".." ∉ tokens s.
Definition total_charge (l : list (list byte)) : Z := zsum (entry_charge <$> l).

Lemma total_charge_app l k : total_charge (l ++ k) = total_charge l + total_charge k.
Proof. unfold total_charge. by rewrite fmap_app, zsum_app. Qed.
Lemma total_charge_one s : total_charge [s] = entry_charge s.
Proof. unfold total_charge. simpl. lia. Qed.
Lemma total_charge_nonneg l : 0 <= total_charge l.
Proof.
  induction l as [|s l IH]; [done|]. change (s :: l) with ([s] ++ l). rewrite total_charge_app, total_charge_one. unfold entry_charge, MANIFEST_ENTRY_OVERHEAD.
  pose proof (zlen_nonneg s). lia.
Qed.

Section Facts.
Context `{HH : Heap}.

Lemma gives_on_fail {A} (c : io unit) (m : io A) P : gives c (fun _ => True) -> gives m P -> gives (on_fail c m) P.
Proof.
  intros Hc Hm w. unfold on_fail. specialize (Hm w). destruct (m w) as [w' [a| |]]; simpl in *; [done| |done].
  unfold io_bind, io_fail. specialize (Hc w'). destruct (c w') as [w2 [| |]]; done.
Qed.

Lemma gives_wire_str {W : WireCharset} : gives receive_wire_str (fun _ => True).
Proof.
  eapply gives_bind; [apply gives_receive_str|]. intros d [Hd _]. destruct (negb wire_active); [by apply gives_ret|].
  apply gives_of. pose proof (wire_apply_safe d) as Hs. unfold MAX_STRING_SIZE in Hd. destruct (wire_apply (Some d)); [done..|]. apply Hs; [lia|done].
Qed.

Lemma manifest_entry_spec s bytes l k :
  al_repr l k -> zlen k < 2 ^ 30 -> 0 <= bytes <= MAX_MANIFEST_BYTES ->
  owp (manifest_entry s bytes l) (fun r => al_repr (fst r) (k ++ [s]) /\ entry_ok s /\ snd r = bytes + entry_charge s /\ snd r <= MAX_MANIFEST_BYTES).
Proof.
  intros Hl Hk Hb. unfold manifest_entry, entry_charge. wp_check Ec. rewrite negb_true_iff, !orb_false_iff in Ec. destruct Ec as [[[[He Hs] Ht] Hz] _].
  wp_bind. pose proof (array_list_add_any l k s Hl Hk) as Ha. destruct (array_list_add (Some l) s) as [l'| |]; [|done..]. simpl.
  pose proof (zlen_nonneg s). unfold MANIFEST_ENTRY_OVERHEAD, MAX_MANIFEST_BYTES in *. destruct (Z.gtb_spec (zlen s + (8 + 16)) (16 * 1024 * 1024 - bytes)); [done|].
  rewrite u64_small by lia. split_and!; [by destruct Ha| |lia|lia]. split_and!; [intros ->; by apply bool_decide_eq_false in He|done|by apply traversal_free].
Qed.

Definition section_post (k : list (list byte)) (bytes : Z) (n : nat) (r : ArrayList (list byte) * Z) : Prop :=
  exists l, length l = n /\ al_repr (fst r) (k ++ l) /\ Forall entry_ok l /\ snd r = bytes + total_charge l /\ snd r <= MAX_MANIFEST_BYTES.

Lemma section_loop_spec {W : WireCharset} n : forall l k bytes,
  al_repr l k -> zlen k + Z.of_nat n <= 2 ^ 30 -> 0 <= bytes <= MAX_MANIFEST_BYTES ->
  gives (section_loop n l bytes) (section_post k bytes n).
Proof.
  induction n as [|n IH]; intros l k bytes Hl Hk Hb; cbn [section_loop].
  - apply gives_ret. exists []. rewrite app_nil_r. split_and!; [done..|constructor| |]; unfold total_charge; simpl; lia.
  - eapply gives_bind; [apply gives_wire_str|]. intros s _. eapply gives_bind; [apply gives_of, (manifest_entry_spec s bytes l k); [done|lia|done]|].
    cbn beta. intros [l' b'] (Hl'&Hs&Hb1&Hb2). simpl in *. pose proof (zlen_nonneg s).
    eapply gives_mono; [apply (IH l' (k ++ [s])); [done|rewrite zlen_app; change (zlen [s]) with 1; lia|]|].
    + unfold entry_charge, MANIFEST_ENTRY_OVERHEAD in Hb1. lia.
    + intros r (m&Hm&Hr&Hok&Hz&Hz'). exists (s :: m). split_and!; [simpl; lia|by rewrite <- app_assoc in Hr|by constructor| |done].
      change (s :: m) with ([s] ++ m). rewrite total_charge_app, total_charge_one. lia.
Qed.

Lemma section_spec {W : WireCharset} l bytes entries :
  al_repr l [] -> 0 <= bytes <= MAX_MANIFEST_BYTES -> 0 <= entries <= MAX_MANIFEST_ENTRIES ->
  gives (receive_manifest_section l bytes entries) (fun r => exists m, al_repr (fst (fst r)) m /\ Forall entry_ok m /\
    snd (fst r) = bytes + total_charge m /\ snd (fst r) <= MAX_MANIFEST_BYTES /\ snd r = entries + zlen m /\ snd r <= MAX_MANIFEST_ENTRIES).
Proof.
  intros Hl Hb He. apply gives_on_fail; [apply gives_send_bytes|]. unfold MAX_MANIFEST_ENTRIES in *.
  g_step gives_receive_int as count _. g_step gives_check as _ Hc. rewrite negb_true_iff, !orb_false_iff in Hc. destruct Hc as [[H1 H2] H3].
  eapply gives_bind; [apply (section_loop_spec (Z.to_nat count) l [] bytes); [done|change (zlen []) with 0; lia|done]|].
  intros r (m&Hm&Hr&Hok&Hz&Hz'). apply gives_ret. exists m. simpl. assert (zlen m = count) by (unfold zlen; lia).
  rewrite u64_small by lia. split_and!; [done..|lia|lia].
Qed.

Lemma gives_create : gives (on_fail answer_error (io_of (array_list_create true))) (fun a : ArrayList (list byte) => al_repr a []).
Proof.
  apply gives_on_fail; [apply gives_send_bytes|]. apply gives_of. unfold array_list_create. wp_check E1. wp_check E2. apply owp_ret. by split.
Qed.

(** C39: the received delete manifest is bounded and confined.  Whatever the peer
    sends, receiving a manifest ends without misbehaving, and an accepted one
    has at most 2^20 entries in its four sections together, retains at most
    16 MiB with the overhead of each entry, and every entry is a non-empty
    relative path without a ".." component. *)
Theorem manifest_bounded {W : WireCharset} :
  gives receive_manifest_entries (fun m => exists k p mi d,
    al_repr (keeps m) k /\ al_repr (protected m) p /\ al_repr (missing m) mi /\ al_repr (dirs m) d /\
    Forall entry_ok (k ++ p ++ mi ++ d) /\ zlen (k ++ p ++ mi ++ d) <= MAX_MANIFEST_ENTRIES /\
    total_charge (k ++ p ++ mi ++ d) <= MAX_MANIFEST_BYTES).
Proof.
  unfold receive_manifest_entries. eapply gives_bind; [apply gives_on_fail; [apply gives_send_bytes|apply gives_check]|]. intros _ _.
  g_step gives_create as l1 H1. g_step gives_create as l2 H2. g_step gives_create as l3 H3. g_step gives_create as l4 H4.
  assert (Hpos : forall l : list (list byte), 0 <= zlen l) by (intros; apply zlen_nonneg).
  eapply gives_bind; [apply (section_spec l1 0 0); [done|done|done]|]. cbn beta. intros r1 (k&R1&O1&B1&C1&E1&F1).
  pose proof (total_charge_nonneg k). pose proof (Hpos k).
  eapply gives_bind; [apply (section_spec l2); [done|lia|lia]|]. cbn beta. intros r2 (p&R2&O2&B2&C2&E2&F2).
  pose proof (total_charge_nonneg p). pose proof (Hpos p).
  eapply gives_bind; [apply (section_spec l3); [done|lia|lia]|]. cbn beta. intros r3 (mi&R3&O3&B3&C3&E3&F3).
  pose proof (total_charge_nonneg mi). pose proof (Hpos mi).
  eapply gives_bind; [apply (section_spec l4); [done|lia|lia]|]. cbn beta. intros r4 (d&R4&O4&B4&C4&E4&F4).
  apply gives_ret. exists k, p, mi, d. rewrite !total_charge_app, !zlen_app, !Forall_app. split_and!; [done..|lia|lia].
Qed.
End Facts.

(** ** The frame arrives *)

Lemma reads_on_fail {A} (c : io unit) (m : io A) bs a : reads m bs a -> reads (on_fail c m) bs a.
Proof. intros Hm w rest k Hw. destruct (Hm w rest k Hw) as (w'&E&Hr). exists w'. unfold on_fail. rewrite E. done. Qed.

Section Trip.
Context `{HH : Heap} (WS WR : WireCharset) (Hheap : heap_serves (2 ^ 34)).

(** The sender and the receiver agree on the name. *)
Definition name_travels (s : list byte) : Prop :=
  exists wire, wire_bytes WS s = Ret wire /\ wire_bytes WR wire = Ret s /\
    zlen wire <= MAX_STRING_SIZE /\ Byte.x00 ∉ wire /\ protocol_alloc_for_session (zlen wire + 1) = true.
Definition wire_of (s : list byte) : list byte := match wire_bytes WS s with Ret wire => str_wire wire | _ => [] end.

Lemma send_name s : name_travels s -> produces (send_wire_str (W := WS) (Some s)) (wire_of s).
Proof.
  intros (wire&Hs&_). unfold wire_of. rewrite Hs. unfold send_wire_str, wire_bytes in *.
  destruct wire_active; simpl negb; cbv iota; [rewrite Hs|injection Hs as ->]; apply produces_str.
Qed.
Lemma read_name s : name_travels s -> reads (receive_wire_str (W := WR)) (wire_of s) s.
Proof.
  intros (wire&Hs&Hr&Hl&Hn&Ha). unfold wire_of. rewrite Hs. unfold receive_wire_str. eapply reads_last; [by apply consumes_str|].
  unfold wire_bytes in Hr. destruct wire_active; simpl negb; cbv iota; [by apply reads_of|injection Hr as ->; apply consumes_ret].
Qed.

Definition section_wire (l : list (list byte)) : list byte := concat (wire_of <$> l).

Lemma send_section l : Forall name_travels l -> produces (send_names (W := WS) l) (section_wire l).
Proof. rewrite Forall_forall. intros Hl. apply produces_each. intros s Hs. by apply send_name, Hl. Qed.

Lemma read_entry s bytes l k :
  al_repr l k -> al_capacity l <= 2 ^ 30 -> zlen k < 2 ^ 29 -> entry_ok s -> 0 <= bytes -> bytes + entry_charge s <= MAX_MANIFEST_BYTES ->
  exists l', manifest_entry s bytes l = Ret (l', bytes + entry_charge s) /\ al_repr l' (k ++ [s]) /\ al_capacity l' <= 2 ^ 30.
Proof.
  intros Hl Hc Hk (Hne&Hh&Ht) Hb Hz. unfold entry_charge, MANIFEST_ENTRY_OVERHEAD, MAX_MANIFEST_BYTES in *. pose proof (zlen_nonneg s).
  destruct (array_list_add_repr l k s Hl) as (l'&Ea&Hl'&Hcap); [lia|done|done|]. exists l'. unfold manifest_entry, MANIFEST_ENTRY_OVERHEAD, MAX_MANIFEST_BYTES.
  rewrite Ea, Hh. rewrite traversal_spec by (apply (heap_serves_malloc _ _ Hheap); lia). rewrite (bool_decide_eq_false_2 (cs ".." ∈ tokens s)) by done.
  rewrite u64_small by lia. unfold at_end. rewrite bool_decide_eq_false_2 by (by destruct s).
  destruct (Z.gtb_spec (zlen s + (8 + 16)) (16 * 1024 * 1024 - bytes)); [lia|]. destruct (Z.gtb_spec (bytes + (zlen s + (8 + 16))) (16 * 1024 * 1024)); [lia|].
  simpl. split_and!; [done..|]. lia.
Qed.

Lemma read_entries names : forall l k bytes,
  al_repr l k -> al_capacity l <= 2 ^ 30 -> zlen k + zlen names <= 2 ^ 29 -> Forall name_travels names -> Forall entry_ok names ->
  0 <= bytes -> bytes + total_charge names <= MAX_MANIFEST_BYTES ->
  exists l', al_repr l' (k ++ names) /\ reads (section_loop (W := WR) (length names) l bytes) (section_wire names) (l', bytes + total_charge names).
Proof.
  induction names as [|s names IH]; intros l k bytes Hl Hc Hk Ht Ho Hb Hz.
  - exists l. rewrite app_nil_r. split; [done|]. unfold total_charge. simpl. rewrite Z.add_0_r. apply consumes_ret.
  - apply Forall_cons in Ht as [Hs Ht], Ho as [Hso Ho]. change (s :: names) with ([s] ++ names) in Hz |- *.
    rewrite total_charge_app, total_charge_one in *. pose proof (total_charge_nonneg names). rewrite zlen_cons in Hk. pose proof (zlen_nonneg names).
    destruct (read_entry s bytes l k) as (l1&E1&Hl1&Hc1); [done|done|lia|done|done|lia|].
    destruct (IH l1 (k ++ [s]) (bytes + entry_charge s)) as (l2&Hl2&Hr2); [done|done|rewrite zlen_app; change (zlen [s]) with 1; lia|done|done| |lia|].
    { unfold entry_charge, MANIFEST_ENTRY_OVERHEAD. pose proof (zlen_nonneg s). lia. }
    exists l2. split; [by rewrite <- app_assoc in Hl2|]. simpl length. cbn [section_loop]. eapply reads_bind; [by apply read_name|].
    eapply reads_then; [by apply reads_of|]. simpl. by rewrite <- Z.add_assoc in Hr2.
Qed.

Definition counted (l : list (list byte)) : list byte := int_wire (zlen l) ++ section_wire l.

Lemma read_manifest_section names l bytes entries :
  al_repr l [] -> al_capacity l <= 2 ^ 30 -> Forall name_travels names -> Forall entry_ok names ->
  0 <= bytes -> bytes + total_charge names <= MAX_MANIFEST_BYTES -> 0 <= entries -> entries + zlen names <= MAX_MANIFEST_ENTRIES ->
  exists l', al_repr l' names /\
    reads (receive_manifest_section (W := WR) l bytes entries) (counted names) (l', bytes + total_charge names, entries + zlen names).
Proof.
  intros Hl Hc Ht Ho Hb Hz He Hn. unfold MAX_MANIFEST_ENTRIES in *. pose proof (zlen_nonneg names).
  destruct (read_entries names l [] bytes) as (l'&Hl'&Hr); [done|done|change (zlen []) with 0; lia|done..|]. exists l'. split; [done|].
  apply reads_on_fail. eapply reads_bind; [apply reads_i32; unfold int_range; lia|]. eapply reads_then.
  { apply consumes_check. unfold MAX_MANIFEST_ENTRIES. destruct (Z.ltb_spec (zlen names) 0); [lia|].
    destruct (Z.gtb_spec (zlen names) (1024 * 1024)); [lia|]. destruct (Z.gtb_spec (zlen names) (1024 * 1024 - entries)); [lia|]. done. }
  rewrite (u64_small (entries + zlen names)) by lia. eapply reads_last; [|apply consumes_ret]. unfold zlen at 1. by rewrite Nat2Z.id.
Qed.

Lemma read_create : exists a : ArrayList (list byte), al_repr a [] /\ al_capacity a <= 2 ^ 30 /\
  reads (on_fail answer_error (io_of (array_list_create true))) [] a.
Proof.
  eexists. split_and!; cycle 2.
  - apply reads_on_fail, reads_of. unfold array_list_create.
    rewrite !(heap_serves_alloc _ _ Hheap); [reflexivity|split; by vm_compute..].
  - by split.
  - done.
Qed.

Lemma send_count n : produces (protocol_send_int n) (int_wire n).
Proof. apply produces_send. Qed.

(** The frame, and all its names. *)
Definition manifest_frame (mk mx ms mm md : list (list byte)) : list byte :=
  put_le 4 STATUS_MANIFEST ++ counted mk ++ counted (mx ++ ms) ++ counted mm ++ counted md.
Definition manifest_names (mk mx ms mm md : option (ArrayList (list byte))) : list (list byte) :=
  cells_or mk ++ cells_or mx ++ cells_or ms ++ cells_or mm ++ cells_or md.

(** The delete manifest arrives as it was sent.  On a connection that stays
    up, a manifest within the receiver's limits whose names travel is received
    with the same keep-set, the excluded prefixes followed by the size-pruned
    ones as its protected section, and the same missing and synchronized
    paths. *)
Lemma manifest_roundtrip (mk mx ms mm md : option (ArrayList (list byte)))
    (Htravel : Forall name_travels (manifest_names mk mx ms mm md)) (Hok : Forall entry_ok (manifest_names mk mx ms mm md))
    (Hcount : zlen (manifest_names mk mx ms mm md) <= MAX_MANIFEST_ENTRIES)
    (Hbytes : total_charge (manifest_names mk mx ms mm md) <= MAX_MANIFEST_BYTES) :
  exists m, transfers (send_delete_manifest (W := WS) mk mx ms mm md)
      (status <~ protocol_receive_status; io_check (status =? STATUS_MANIFEST) >~ receive_manifest_entries (W := WR))
      (zlen (manifest_frame (cells_or mk) (cells_or mx) (cells_or ms) (cells_or mm) (cells_or md))) m (fun _ => True) /\
    cells (keeps m) = cells_or mk /\ cells (protected m) = cells_or mx ++ cells_or ms /\
    cells (missing m) = cells_or mm /\ cells (dirs m) = cells_or md.
Proof.
  unfold manifest_names in *. set (a := cells_or mk) in *. set (b := cells_or mx) in *. set (c := cells_or ms) in *. set (d := cells_or mm) in *. set (e := cells_or md) in *.
  rewrite !Forall_app in Htravel, Hok. destruct Htravel as (Ta&Tb&Tc&Td&Te), Hok as (Oa&Ob&Oc&Od&Oe).
  rewrite !zlen_app, !total_charge_app in *.
  assert (Hp : forall l : list (list byte), 0 <= zlen l /\ 0 <= total_charge l) by (intros; split; [apply zlen_nonneg|apply total_charge_nonneg]).
  pose proof (Hp a). pose proof (Hp b). pose proof (Hp c). pose proof (Hp d). pose proof (Hp e).
  destruct read_create as (l0&Hl0&Hc0&Hcr).
  assert (Tbc : Forall name_travels (b ++ c)) by (by apply Forall_app_2). assert (Obc : Forall entry_ok (b ++ c)) by (by apply Forall_app_2).
  pose proof (zlen_app b c) as Zbc. pose proof (total_charge_app b c) as Cbc.
  destruct (read_manifest_section a l0 0 0) as (la&Ra&Sa); [done|done|done|done|lia|lia|lia|lia|].
  destruct (read_manifest_section (b ++ c) l0 (0 + total_charge a) (0 + zlen a)) as (lb&Rb&Sb); [done|done|done|done|lia|lia|lia|lia|].
  destruct (read_manifest_section d l0 (0 + total_charge a + total_charge (b ++ c)) (0 + zlen a + zlen (b ++ c))) as (ld&Rd&Sd); [done|done|done|done|lia|lia|lia|lia|].
  destruct (read_manifest_section e l0 (0 + total_charge a + total_charge (b ++ c) + total_charge d) (0 + zlen a + zlen (b ++ c) + zlen d)) as (le&Re&Se);
    [done|done|done|done|lia|lia|lia|lia|].
  exists (MkManifest la lb ld le). split; [|split_and!; by apply cells_repr].
  unfold manifest_frame. apply (transfers_intro _ _ _ _ (insert 0%nat Byte.x00)); [| |done].
  - unfold send_delete_manifest. fold a b c d e. apply produces_bind; [apply produces_send|]. unfold counted.
    rewrite <- !app_assoc. repeat (apply produces_bind; [first [apply send_count|by apply send_section]|]).
    rewrite zlen_app. unfold section_wire at 1. rewrite fmap_app, concat_app. fold (section_wire b) (section_wire c). rewrite <- !app_assoc.
    repeat (apply produces_bind; [first [apply send_count|by apply send_section]|]). by apply send_section.
  - eapply (consumes_bind _ _ (put_le 4 STATUS_MANIFEST) _ STATUS_MANIFEST _ (insert 0%nat Byte.x00) id).
    + rewrite <- (app_nil_r (put_le 4 STATUS_MANIFEST)). apply consumes_status_word; [done|]. unfold protocol_capture_error_detail. simpl.
      apply (consumes_bind _ _ [] [] tt STATUS_MANIFEST (insert 0%nat Byte.x00) id); [apply consumes_clear|apply consumes_ret].
    + eapply reads_then; [by apply consumes_check|]. unfold receive_manifest_entries.
      eapply reads_then; [apply reads_on_fail, consumes_check, (heap_serves_malloc _ _ Hheap); done|].
      do 4 (eapply reads_then; [exact Hcr|]). eapply reads_bind; [exact Sa|]. eapply reads_bind; [exact Sb|]. eapply reads_bind; [exact Sd|].
      eapply reads_last; [exact Se|]. apply consumes_ret.
Qed.
End Trip.

Definition al_of (l : list (list byte)) : ArrayList (list byte) := MkArrayList (Some <$> l) (zlen l) (zlen l) true.

