(* ===== verification/DeleteCommit.v ===== *)
(** The deletion commit of src/shared/delete_commit.c: the skip set of
    src/shared/delete.c, the removal of --delete-missing-args mirrors and the
    extras walk, drawing from one budget, on the file system of the secure
    primitives. *)

From stdpp Require Import gmap strings.
From S2P Require Import Prelude Alloc CStr Paths ArrayList PathIndex FilterParse FilterRules Names ConfigWire DeleteTree DeleteWalk DeleteManifest SecureFs.

#[local] Open Scope string_scope.
#[local] Open Scope list_scope.
#[local] Open Scope Z_scope.

Definition get_rules (c : Config) (n : string) : option FilterRuleList := match c !! n with Some (VRules r) => r | _ => None end.

(** The calls of a walk that starts at the place [d]. *)
Definition shift (F : Faults) (d : list name) : Faults := fun c p => F c (d ++ p).

(** What a commit changes: the file system, the budget (delete_commit.c
    [DeleteBudgetState] has the members of [DeleteBudget]) and the paths the
    observer was told. *)
Record commit := MkCommit { c_fs : entries; c_budget : DeleteBudget; c_seen : list (list byte) }.

Definition MAX_SERVER_DELETE_COUNT : Z := 100000.
Inductive DeleteCommitResult := DELETE_COMMIT_OK | DELETE_COMMIT_LIMIT_REACHED | DELETE_COMMIT_ERROR.

Section Commit.
Context `{Heap} `{XXHash64} {F : Faults} {E : SecureEnv}.
Context (stale : errno).   (** what [errno] was before the call *)

(** delete.c [delete_basis_relative]: [Fail] is NULL *)
Fixpoint root_trim (root : list byte) (n : nat) : nat :=
  match n with
  | S (S _ as m) => if char_is root m slash then root_trim root m else n
  | _ => n
  end.
Definition delete_basis_relative (config : Config) (path : option (list byte)) : outcome (list byte) :=
  path ← of_option path;
  if negb (char_is path 0 slash) then str_dup (Some path)
  else
    root ← of_option (get_str config "receive_root_directory");
    check (char_is root 0 slash);;
    let root_len := root_trim root (length root) in
    check (strncmp path root root_len =? 0);;
    if (root_len =? 1)%nat then
      check (negb (at_end path 1));; str_dup (Some (drop 1 path))
    else
      check (char_is path root_len slash);; str_dup (Some (drop (root_len + 1) path)).

(** delete.c [delete_skips_build] *)
Fixpoint basis_skips (config : Config) (basis_root_relative : bool) (l : list (Z * list byte)) : list DeleteSkipEntry :=
  match l with
  | [] => []
  | (_, path) :: l =>
      if basis_root_relative then
        match delete_basis_relative config (Some path) with
        | Ret relative => MkSkip relative false :: basis_skips config basis_root_relative l
        | _ => basis_skips config basis_root_relative l
        end
      else MkSkip path false :: basis_skips config basis_root_relative l
  end.
Definition delete_skips_build (config : Config) (protected_paths size_skipped : list (list byte)) (basis_root_relative : bool)
  : outcome (list DeleteSkipEntry) :=
  let basis_count := get_int config "basis_count" in
  let delay := get_bool config "delay_updates" in
  let count := (if delay then 1 else 0) + basis_count + zlen protected_paths + zlen size_skipped in
  if count =? 0 then Ret []
  else
    check (malloc_ok (count * 16));;
    check (negb (basis_root_relative && (basis_count >? 0)) || malloc_ok (basis_count * 8));;
    basis ← first_cells basis_count (get_basis config "basis_dirs");
    Ret ((if delay then [MkSkip DELAY_UPDATES_STAGING_DIR true] else []) ++ basis_skips config basis_root_relative basis ++
         ((fun p => MkSkip p false) <$> protected_paths) ++ ((fun p => MkSkip p false) <$> size_skipped)).

(** delete.c [open_destination_root] *)
Definition open_destination_root (dest_root : option (list byte)) (fs : entries) : option (list name) :=
  match root_fd with
  | Some r =>
      match root_path with
      | Some _ => utils_open_authorized_destination dest_root fs
      | None => match dest_root with
                | None => match dup r with inr d => Some d | inl _ => None end
                | Some _ => None
                end
      end
  | None =>
      match dest_root with
      | None => None
      | Some dest => match open_directory dest with inr d => Some d | inl _ => None end
      end
  end.

(** [delete_extras_limited_observed] and [delete_extras_list] at a path *)
Definition dir_of (place : option (list name)) (fs : entries) : option entries := d ← place; dir_at fs d.
Definition place_of (place : option (list name)) : list name := default [] place.
Definition extras_at (dest_root : option (list byte)) (fs : entries) (manifest : list (list byte)) (synced_dirs : option (list (list byte)))
    (max : Z) (skips : list DeleteSkipEntry) (protect_rules : option FilterRuleList) : outcome (walk_report * entries) :=
  let place := open_destination_root dest_root fs in
  '(r, root) ← delete_extras_limited_observed (F := shift F (place_of place)) (dir_of place fs) manifest synced_dirs max skips protect_rules;
  Ret (r, match place, root with Some d, Some es => put_at fs d es | _, _ => fs end).

(** delete_commit.c [delete_extras_budgeted_observed] *)
Definition add_counts (b : DeleteBudget) (r : walk_report) (hit : bool) : DeleteBudget :=
  MkBudget (max_delete b) (u64 (deleted b + deleted_out r)) (u64 (skipped b + skipped_out r)) (limit_hit b || hit).
Definition delete_extras_budgeted_observed (config : Config) (manifest : DeleteManifest) (c : commit) : outcome (bool * commit) :=
  match delete_skips_build config (cells (protected manifest)) [] true with
  | Stuck => Stuck
  | Fail => Ret (false, c)
  | Ret skips =>
      let b := c_budget c in
      let remaining := if max_delete b =? SIZE_MAX then SIZE_MAX
                       else if deleted b >=? max_delete b then 0 else max_delete b - deleted b in
      '(r, fs) ← extras_at (get_str config "receive_root_directory") (c_fs c) (cells (keeps manifest)) (Some (cells (dirs manifest)))
                   remaining skips (get_rules config "protect_rules");
      let hit := match result r with DELETE_WALK_LIMIT_REACHED => true | _ => false end in
      Ret (match result r with DELETE_WALK_ERROR => false | _ => true end,
           MkCommit fs (add_counts b r hit) (c_seen c ++ seen r))
  end.

(** delete_commit.c [prefixed_delete_observer] *)
Fixpoint prefixed_seen (prefix : list byte) (l : list (list byte)) : list (list byte) :=
  match l with
  | [] => []
  | rel :: l => match path_cat (Some prefix) (Some rel) with
                | Ret joined => joined :: prefixed_seen prefix l
                | _ => prefixed_seen prefix l
                end
  end.

(** delete_commit.c [delete_missing_args_budgeted_observed]: a non-empty
    directory; the flags are [ok] and [removed]. *)
Definition remove_mirror_tree (config : Config) (rel full : list byte) (c : commit) : outcome (bool * bool * commit) :=
  if get_bool config "use_delete" || get_bool config "force_delete" then
    let b := c_budget c in
    let remaining := if deleted b >=? max_delete b then 0 else max_delete b - deleted b in
    '(r, fs) ← match array_list_create (A := list byte) true with
               | Ret _ => extras_at (Some full) (c_fs c) [] None remaining [] None
               | Fail => Ret (MkReport DELETE_WALK_ERROR 0 0 [], c_fs c)
               | Stuck => Stuck
               end;
    let c := MkCommit fs (add_counts b r false) (c_seen c ++ prefixed_seen rel (seen r)) in
    let b := c_budget c in
    match result r with
    | DELETE_WALK_LIMIT_REACHED => Ret (true, false, MkCommit fs (MkBudget (max_delete b) (deleted b) (skipped b) true) (c_seen c))
    | DELETE_WALK_ERROR => Ret (false, false, c)
    | DELETE_WALK_OK =>
        if deleted b >=? max_delete b then Ret (true, false, MkCommit fs (note_skipped b) (c_seen c))
        else let '(fs, gone) := file_remove_tree_secure full fs in
             Ret (gone, gone, MkCommit fs b (c_seen c))
    end
  else Ret (true, false, c).

(** The removal of one mirror that exists, under the budget. *)
Definition remove_mirror (config : Config) (rel full : list byte) (fd : list name) (leaf : name) (nd : node) (c : commit) : outcome (bool * bool * commit) :=
  if is_dir nd then
    match rmdirat (c_fs c) fd leaf with
    | inr fs => Ret (true, true, MkCommit fs (c_budget c) (c_seen c))
    | inl e => if bool_decide (e = ENOTEMPTY \/ e = EEXIST) then remove_mirror_tree config rel full c
               else Ret (bool_decide (e = ENOENT), false, c)
    end
  else match unlinkat (c_fs c) fd leaf with
       | inr fs => Ret (true, true, MkCommit fs (c_budget c) (c_seen c))
       | inl e => Ret (bool_decide (e = ENOENT), false, c)
       end.

(** One request: [ok] afterwards, whether the loop ends, and the commit. *)
Definition missing_one (config : Config) (skips : list DeleteSkipEntry) (rel : list byte) (ok : bool) (c : commit) : outcome (bool * bool * commit) :=
  if at_end rel 0 || char_is rel 0 slash || has_path_traversal (Some rel) then Ret (false, false, c)
  else if path_under_skip_prefix rel (negb (bool_decide (slash ∈ rel))) skips then Ret (ok, false, c)
  else match path_cat (get_str config "receive_root_directory") (Some rel) with
  | Stuck => Stuck
  | Fail => Ret (false, false, c)
  | Ret full =>
      match file_open_secure_parent full false (c_fs c) with
      | (fs, inl e) => let e := default stale e in Ret (ok && bool_decide (e = ENOENT \/ e = ENOTDIR), false, MkCommit fs (c_budget c) (c_seen c))
      | (fs, inr (fd, leaf)) =>
          let c := MkCommit fs (c_budget c) (c_seen c) in
          match fstatat fs fd leaf with
          | inl e => Ret (ok && bool_decide (e = ENOENT), false, c)
          | inr nd =>
              if deleted (c_budget c) >=? max_delete (c_budget c) then Ret (ok, false, MkCommit fs (note_skipped (c_budget c)) (c_seen c))
              else
                '(good, removed, c) ← remove_mirror config rel full fd leaf nd c;
                let c := if removed : bool then MkCommit (c_fs c) (note_deleted (c_budget c)) (c_seen c ++ [rel]) else c in
                Ret (ok && good, negb (ok && good), c)
          end
      end
  end.
Fixpoint missing_loop (config : Config) (skips : list DeleteSkipEntry) (l : list (list byte)) (ok : bool) (c : commit) : outcome (bool * commit) :=
  match l with
  | [] => Ret (ok, c)
  | rel :: l =>
      '(ok, stop, c) ← missing_one config skips rel ok c;
      if stop : bool then Ret (ok, c) else missing_loop config skips l ok c
  end.
Definition delete_missing_args_budgeted_observed (config : Config) (manifest : DeleteManifest) (c : commit) : outcome (bool * commit) :=
  if bool_decide (cells (missing manifest) = []) then Ret (true, c)
  else match delete_skips_build config [] [] true with
  | Stuck => Stuck
  | Fail => Ret (false, c)
  | Ret skips => missing_loop config skips (cells (missing manifest)) true c
  end.

(** delete_commit.c [manifest_would_delete_list] *)
Definition manifest_would_delete_list (config : Config) (manifest : DeleteManifest) (fs : entries) (o : ArrayList (list byte))
  : outcome (bool * ArrayList (list byte) * Z) :=
  match delete_skips_build config (cells (protected manifest)) [] true with
  | Stuck => Stuck
  | Fail => Ret (false, o, 0)
  | Ret skips =>
      let place := open_destination_root (get_str config "receive_root_directory") fs in
      delete_extras_list (F := shift F (place_of place)) (dir_of place fs) (cells (keeps manifest)) (Some (cells (dirs manifest))) skips
        (get_rules config "protect_rules") o
  end.

(** delete_commit.c [manifest_delete_missing_args_limited_observed] *)
Definition manifest_delete_missing_args_limited_observed (config : Config) (manifest : DeleteManifest) (max : Z) (fs : entries) : outcome (bool * commit) :=
  delete_missing_args_budgeted_observed config manifest (MkCommit fs (MkBudget max 0 0 false) []).
Definition manifest_delete_missing_args (config : Config) (manifest : DeleteManifest) (fs : entries) : outcome (bool * commit) :=
  delete_missing_args_budgeted_observed config manifest (MkCommit fs (MkBudget SIZE_MAX 0 0 false) []).
Definition manifest_delete_extras (config : Config) (manifest : DeleteManifest) (fs : entries) : outcome (bool * commit) :=
  delete_extras_budgeted_observed config manifest (MkCommit fs (MkBudget SIZE_MAX 0 0 false) []).

(** delete_commit.c [manifest_delete_all_observed]: the result, [*deleted] and
    the commit. *)
Definition commit_limit (config : Config) : Z :=
  let m := get_int config "max_delete" in
  if (m >=? 0) && (m <? MAX_SERVER_DELETE_COUNT) then m else MAX_SERVER_DELETE_COUNT.
Definition manifest_delete_all_observed (config : Config) (manifest : DeleteManifest) (fs : entries) : outcome (DeleteCommitResult * Z * commit) :=
  let c := MkCommit fs (MkBudget (commit_limit config) 0 0 false) [] in
  if get_bool config "dry_run" then Ret (DELETE_COMMIT_OK, 0, c)
  else
    '(ok, c) ← (if get_bool config "delete_missing_args" then delete_missing_args_budgeted_observed config manifest c else Ret (true, c));
    if negb ok then Ret (DELETE_COMMIT_ERROR, 0, c)
    else
      '(ok, c) ← (if get_bool config "use_delete" then delete_extras_budgeted_observed config manifest c else Ret (true, c));
      if negb ok then Ret (DELETE_COMMIT_ERROR, 0, c)
      else Ret (if limit_hit (c_budget c) then DELETE_COMMIT_LIMIT_REACHED else DELETE_COMMIT_OK, deleted (c_budget c), c).
End Commit.
