(* ===== verification/DeleteCommitSafe.v ===== *)
(** The deletion commit removes only what the manifest asks for, within its
    budget. *)

From stdpp Require Import gmap strings.
From S2P Require Import Prelude Alloc CStr Paths ArrayList PathIndex FilterParse FilterRules Names ConfigWire ConfigTrip DeleteTree DeleteWalk DeleteSafe DeleteManifest SecureFs SecureSafe DeleteCommit.

#[local] Open Scope string_scope.
#[local] Open Scope list_scope.
#[local] Open Scope Z_scope.

(** ** Removing *)

(** [fs'] is [fs] less some places that satisfy [P]. *)
Definition removes (P : list name -> Prop) (fs fs' : entries) : Prop :=
  wf_node (Dir fs') /\ forall q, kind_at fs' q = kind_at fs q \/ (kind_at fs' q = None /\ P q).

Lemma removes_refl P fs : wf_node (Dir fs) -> removes P fs fs.
Proof. intros Hw. split; [done|]. by left. Qed.
Lemma removes_trans P fs1 fs2 fs3 : removes P fs1 fs2 -> removes P fs2 fs3 -> removes P fs1 fs3.
Proof.
  intros [_ H1] [Hw H2]. split; [done|]. intros q. destruct (H2 q) as [E2|[? ?]]; [|by right]. destruct (H1 q) as [?|[? ?]]; [left|right]; split || idtac; congruence.
Qed.
Lemma removes_mono (P Q : list name -> Prop) fs fs' : removes P fs fs' -> (forall q, P q -> Q q) -> removes Q fs fs'.
Proof. intros [Hw Hk] HPQ. split; [done|]. intros q. destruct (Hk q) as [?|[? ?]]; [by left|right; auto]. Qed.

Lemma wf_dir_at fs p es : wf_node (Dir fs) -> dir_at fs p = Some es -> wf_node (Dir es).
Proof.
  revert fs. induction p as [|n p IH]; intros fs Hw; simpl; [by intros [= ->]|]. destruct (find n fs) as [[]|] eqn:Ef; [done| |done].
  apply IH. by destruct (wf_find _ _ _ Hw Ef).
Qed.
Lemma wf_put_at fs p es es' : wf_node (Dir fs) -> dir_at fs p = Some es -> wf_node (Dir es') -> wf_node (Dir (put_at fs p es')).
Proof.
  revert fs. induction p as [|n p IH]; intros fs Hw; simpl; [done|]. destruct (find n fs) as [[|ces]|] eqn:Ef; [done| |done]. intros Hd He.
  apply wf_set; [done|]. apply IH; [by destruct (wf_find _ _ _ Hw Ef)|done..].
Qed.

Lemma removes_effect P fs d es g es' :
  wf_node (Dir fs) -> dir_at fs d = Some es -> effect es g es' -> wf_node (Dir es') -> Forall (fun r => P (d ++ r.1)) g -> removes P fs (put_at fs d es').
Proof.
  intros Hw Hd [Hk _ _] Hw' Hg. split; [by eapply wf_put_at|]. intros q. destruct (decide (d `prefix_of` q)) as [[r ->]|Hn].
  - rewrite (kind_put_below _ _ _ _ _ Hd), (kind_at_app _ _ _ _ Hd), Hk. case_decide as Hr; [right|by left]. split; [done|].
    apply gone_elem in Hr as (x&Hx). rewrite Forall_forall in Hg. by apply (Hg _ Hx).
  - left. by eapply kind_put_other.
Qed.

(** The whole subtree of a place. *)
Definition below (p q : list name) : Prop := p `prefix_of` q.

Section Calls.
Context {F : Faults}.

Lemma unlinkat_removes fs fd n fs' : wf_node (Dir fs) -> unlinkat fs fd n = inr fs' -> removes (below (fd ++ [n])) fs fs' /\ n <> [] /\ dots n = false.
Proof.
  intros Hw (es&es'&Hd&(He&->&_)%unlink_file_effect&->&?&?)%change_at_inv. split_and!; [|done..].
  eapply removes_effect; [done..| |]; [by apply wf_del; eapply wf_dir_at|]. by apply Forall_singleton.
Qed.
Lemma rmdirat_removes fs fd n fs' : wf_node (Dir fs) -> rmdirat fs fd n = inr fs' -> removes (below (fd ++ [n])) fs fs' /\ n <> [] /\ dots n = false.
Proof.
  intros Hw (es&es'&Hd&(He&->&_)%unlink_dir_effect&->&?&?)%change_at_inv. split_and!; [|done..].
  eapply removes_effect; [done..| |]; [by apply wf_del; eapply wf_dir_at|]. by apply Forall_singleton.
Qed.

Lemma wipe_wf fuel : forall here es, wf_node (Dir es) -> wf_node (Dir (wipe_dir_fd fuel here es).2).
Proof.
  induction fuel as [|fuel IH]; intros here es Hw; [done|]. cbn [wipe_dir_fd]. destruct (fault SysScan here); [done|].
  apply (fold_left_inv (fun a : bool * entries => wf_node (Dir a.2))); [done|]. intros [ok es1] n Hw1. cbn [snd] in *.
  destruct (fstatat_is_dir here n es1) as [e|[]]; [done| |].
  - destruct (openat_dir here n es1) as [e|ces] eqn:Eo; [done|]. apply openat_inv in Eo. specialize (IH (here ++ [n]) ces (proj2 (wf_find _ _ _ Hw1 Eo))).
    destruct (wipe_dir_fd fuel (here ++ [n]) ces) as [cok ces']. cbn [snd] in IH.
    assert (wf_node (Dir (set_entry n (Dir ces') es1))) as Hw2 by (by apply wf_set).
    destruct cok; [|done]. destruct (unlinkat_dir _ _ _) as [|es2] eqn:Eu; [done|]. cbn [snd]. apply unlink_dir_effect in Eu as (_&->&_). by apply wf_del.
  - destruct (unlinkat_file _ _ _) as [|es2] eqn:Eu; [done|]. cbn [snd]. apply unlink_file_effect in Eu as (_&->&_). by apply wf_del.
Qed.
End Calls.

(** ** The walk at a path *)

Section Extras.
Context `{Heap} `{XXHash64} {F : Faults} {E : SecureEnv} (Hheap : heap_serves (2 ^ 63)).

(** The extraneous paths below [d]. *)
Definition extra_below (d : list name) manifest synced skips rules (q : list name) : Prop :=
  exists p k, q = d ++ p /\ extra_in manifest synced skips rules [] (synced_dir synced []) p k.

Lemma extras_at_safe dest fs manifest synced max skips rules :
  wf_node (Dir fs) -> zlen manifest < 2 ^ 58 -> match synced with Some l => zlen l < 2 ^ 58 | None => True end -> 0 <= max <= SIZE_MAX ->
  exists r fs', extras_at dest fs manifest synced max skips rules = Ret (r, fs') /\ 0 <= deleted_out r <= max /\
    removes (fun q => exists d, open_destination_root dest fs = Some d /\ extra_below d manifest synced skips rules q) fs fs'.
Proof.
  intros Hw Hm Hs Hmax. unfold extras_at, delete_extras_limited_observed.
  destruct (build_indexes_ok manifest synced Hheap Hm Hs) as (keep&ix&->&Hix). unfold dir_of.
  destruct (open_destination_root dest fs) as [d|] eqn:Eo; cbn [mbind option_bind outcome_bind place_of default]; [|].
  2:{ eexists _, _. split_and!; [done|simpl; lia|simpl; lia|by apply removes_refl]. }
  destruct (dir_at fs d) as [es|] eqn:Ed; cbn [mbind outcome_bind].
  2:{ eexists _, _. split_and!; [done|simpl; lia|simpl; lia|by apply removes_refl]. }
  edestruct (@walk_safe _ _ (shift F d) manifest synced skips rules keep ix Hix (depth (Dir es)) [] false) with (es := es)
    as (ok&all&st'&es'&->&g&He&Hx&Hw'&_&Hch&Hdel&Hbo); [constructor|by eapply wf_dir_at|done| |].
  { unfold budget_ok. simpl. lia. }
  cbn [mbind outcome_bind]. eexists _, _. split_and!; [done| | |].
  - simpl in *. unfold budget_ok in Hbo. lia.
  - simpl in *. unfold budget_ok in Hbo. simpl in *. lia.
  - eapply removes_effect; [done..|]. eapply Forall_impl; [exact Hx|]. intros [p k] Hp. simpl in Hp. exists d. split; [done|]. by exists p, k.
Qed.

(** Where the destination root and a mirror are. *)
Context (R : list name) (root rr : list byte)
  (Hfd : root_fd = Some R) (Hroot : root_path = Some root) (Hlinks : keep_dirlinks = false) (Hin : path_is_within_root root rr = true).

Definition base : list name := R ++ no_dot (tokens (drop (length root) rr)).

Lemma within_tokens path : path_is_within_root root path = true ->
  tokens path = tokens root ++ tokens (drop (length root) path) /\ (path = root \/ exists s, drop (length root) path = slash :: s /\ path = root ++ slash :: s).
Proof.
  intros [->|[s ->]]%within_root_iff.
  - rewrite drop_all. split; [by rewrite app_nil_r|by left].
  - rewrite <- app_assoc, drop_app_length. simpl. split; [by rewrite tokens_app, tokens_leading|]. right. by exists s.
Qed.

Lemma authorized_place path fs d : authorized_destination (Some path) fs = inr d -> path_is_within_root root path = true /\ d = R ++ no_dot (tokens (drop (length root) path)).
Proof.
  unfold authorized_destination. rewrite Hfd, Hroot. destruct (path_is_within_root root path); [|done]. simpl.
  destruct (dup R) as [|r] eqn:Er; [done|]. apply dup_inv in Er as ->. destruct (xdup _) as [|t] eqn:Ex; [done|]. apply xdup_inv in Ex as ->.
  intros Eb. split; [done|].
  apply (beneath_loop_spec R) in Eb as (_&->&_); [|apply lands_root]. f_equal.
  case_bool_decide as Hs.
  - replace (tokens (drop (length root) path)) with (tokens []); [done|]. rewrite <- Hs. clear. induction (drop _ _) as [|c s IH]; [done|]. simpl.
    case_bool_decide as Hc; [|done]. by rewrite Hc, tokens_leading.
  - f_equal. clear. induction (drop _ _) as [|c s IH]; [done|]. simpl. case_bool_decide as Hc; [|done]. by rewrite Hc, tokens_leading.
Qed.
Lemma destination_place path fs d : open_destination_root (Some path) fs = Some d -> path_is_within_root root path = true /\ d = R ++ no_dot (tokens (drop (length root) path)).
Proof.
  unfold open_destination_root, utils_open_authorized_destination. rewrite Hfd, Hroot. destruct (authorized_destination (Some path) fs) as [|d'] eqn:E0; [done|].
  intros [= <-]. by eapply authorized_place.
Qed.

Definition mirror (rel : list byte) : list name := base ++ no_dot (tokens rel).

Lemma joined_tokens rel full : path_cat (Some rr) (Some rel) = Ret full -> path_is_within_root root full = true -> tokens rel <> [] ->
  tokens (drop (length root) full) = tokens (drop (length root) rr) ++ tokens rel /\ exists s, drop (length root) full = slash :: s /\ full = root ++ slash :: s.
Proof.
  intros Hf%path_cat_tokens Hw Hne. destruct (within_tokens rr Hin) as [Hrr _]. destruct (within_tokens full Hw) as [Hfull Hc].
  rewrite Hfull, Hrr, <- app_assoc in Hf. apply app_inv_head in Hf. split; [done|]. destruct Hc as [->|?]; [|done].
  rewrite drop_all in Hf. by destruct (tokens (drop _ rr)), (tokens rel).
Qed.

Lemma mirror_parent rel full fs fs' fd leaf :
  path_cat (Some rr) (Some rel) = Ret full -> tokens rel <> [] -> file_open_secure_parent full false fs = (fs', inr (fd, leaf)) ->
  fs' = fs /\ slash ∉ leaf /\ (leaf <> [] -> leaf <> cs "." -> mirror rel = fd ++ [leaf]) /\ (leaf = cs "." -> mirror rel = fd).
Proof.
  intros Hf Hne. unfold file_open_secure_parent. destruct (file_open_secure_parent_counted _ _ _ _ _) as [[fs1 m1] r1] eqn:Ep. intros [= <- ->].
  destruct (parent_spec R Hfd _ _ _ _ _ _ _ _ Ep) as (_&Hfs&Hr). destruct (Hr _ _ eq_refl) as (_&->&root'&Er&Hw&_&Hplace).
  rewrite Hroot in Er. injection Er as <-. destruct (joined_tokens _ _ Hf Hw Hne) as (Ht&s&Hs&Efull).
  assert (El : leaf_of full = leaf_of (slash :: s)) by (rewrite Efull; apply leaf_of_app; by left).
  assert (Hm : leaf_of full <> [] -> mirror rel = fd ++ no_dot [leaf_of full]).
  { intros Hl. unfold mirror, base. rewrite El in *. rewrite (Hplace Hlinks), Hs, <- !app_assoc. f_equal. unfold no_dot. rewrite <- !filter_app, <- Ht, Hs.
    f_equal. apply dirname_leaf; [by left|done]. }
  split_and!; [by apply Hfs|apply leaf_no_slash| |].
  - intros Hl Hd. rewrite Hm by done. unfold no_dot. by rewrite filter_cons_True.
  - intros Hd. rewrite Hm by (by rewrite Hd). rewrite Hd. unfold no_dot. rewrite filter_cons_False, filter_nil by (by intros []). by rewrite app_nil_r.
Qed.

(** The directory opened at the leaf of a mirror is the mirror. *)
Lemma mirror_opened rel full fs fs' fd leaf d :
  path_cat (Some rr) (Some rel) = Ret full -> tokens rel <> [] -> cs ".." ∉ tokens rel -> file_open_secure_parent full false fs = (fs', inr (fd, leaf)) ->
  openat fs' fd leaf = inr d -> d = mirror rel.
Proof.
  intros Hf Hne Hdd Ep Eo. destruct (mirror_parent _ _ _ _ _ _ Hf Hne Ep) as (->&Hsl&Hm&Hdot).
  assert (leaf <> cs "..") as Hnd.
  { intros ->. apply Hdd. unfold file_open_secure_parent in Ep. destruct (file_open_secure_parent_counted _ _ _ _ _) as [[fs1 m1] r1] eqn:Ec. injection Ep as _ ->.
    destruct (parent_spec R Hfd _ _ _ _ _ _ _ _ Ec) as (_&_&Hr). destruct (Hr _ _ eq_refl) as (_&El&_). apply path_cat_ret in Hf as [[_ ->]|[[-> _]|(a&b&->&_&Hb)]].
    - unfold leaf_of in El. destruct (strrchr_split rel) as [[x y]|] eqn:Es.
      + subst y. apply strrchr_some in Es as [-> _]. rewrite tokens_app. apply elem_of_app. right. by left.
      + rewrite <- El. by left.
    - done.
    - rewrite leaf_of_app in El by (by left). assert (tokens b = tokens rel) as <- by (destruct Hb as [->| ->]; [done|by rewrite tokens_leading]).
      unfold leaf_of in El. destruct (strrchr_split ([slash] ++ b)) as [[x y]|] eqn:Es; [|apply strrchr_none in Es; destruct Es; by left].
      subst y. apply strrchr_some in Es as [Es _]. rewrite <- tokens_leading. simpl in Es. rewrite Es, tokens_app. apply elem_of_app. right. by left. }
  revert Eo. unfold openat. destruct (dir_at fs fd) as [es|]; [|done]. case_bool_decide as Hl; [done|]. unfold dots, dot_target.
  rewrite (bool_decide_eq_false_2 _ Hnd), orb_false_r. case_bool_decide as Hd.
  - destruct (fault _ _); [done|]. intros [= <-]. by rewrite Hdot.
  - destruct (openat_dir _ _ _); [done|]. intros [= <-]. by rewrite Hm.
Qed.

Lemma remove_tree_removes rel full fs :
  wf_node (Dir fs) -> path_cat (Some rr) (Some rel) = Ret full -> tokens rel <> [] -> cs ".." ∉ tokens rel ->
  removes (below (mirror rel)) fs (file_remove_tree_secure full fs).1.
Proof.
  intros Hw Hf Hne Hdd. unfold file_remove_tree_secure. destruct (file_open_secure_parent full false fs) as [fs1 r] eqn:Ep.
  destruct r as [e|[fd leaf]].
  { destruct (secure_parent_spec R Hfd _ _ _ _ _ Ep) as (_&Hfs&_). rewrite (Hfs eq_refl). by apply removes_refl. }
  destruct (mirror_parent _ _ _ _ _ _ Hf Hne Ep) as (->&_&Hm&_). destruct (openat fs fd leaf) as [e|d] eqn:Eo; [by apply removes_refl|].
  rewrite (mirror_opened _ _ _ _ _ _ _ Hf Hne Hdd Ep Eo) in *. clear Eo.
  destruct (dir_at fs (mirror rel)) as [es|] eqn:Ed; [|by apply removes_refl]. pose proof (wipe_wiped (depth (Dir es)) (mirror rel) es) as (g&He&_).
  pose proof (wipe_wf (depth (Dir es)) (mirror rel) es (wf_dir_at _ _ _ Hw Ed)) as Hwf.
  destruct (wipe_dir_fd _ _ es) as [ok es']. cbn [snd] in *.
  assert (removes (below (mirror rel)) fs (put_at fs (mirror rel) es')) as Hr1.
  { eapply removes_effect; [done..|]. apply Forall_true. intros [x y]. by eexists. }
  destruct ok; [|done]. destruct (rmdirat _ _ _) as [e|fs3] eqn:Er; [done|]. cbn [fst]. eapply removes_trans; [exact Hr1|].
  destruct (rmdirat_removes _ _ _ _ (proj1 Hr1) Er) as (Hr2&Hl&Hd). eapply removes_mono; [exact Hr2|]. intros q. rewrite Hm; [done|done|]. by intros ->.
Qed.
End Extras.

(** ** The commit *)

Lemma skips_build_total `{Heap} config protected_paths size_skipped relative :
  get_int config "basis_count" = zlen (get_basis config "basis_dirs") -> delete_skips_build config protected_paths size_skipped relative <> Stuck.
Proof.
  intros Hb. unfold delete_skips_build. destruct (_ =? 0); [done|]. destruct (malloc_ok (_ * 16)); simpl; [|done].
  destruct (_ || _); simpl; [|done]. rewrite Hb, first_cells_all. done.
Qed.

Section CommitSafe.
Context `{Heap} `{XXHash64} {F : Faults} {E : SecureEnv} (stale : errno) (Hheap : heap_serves (2 ^ 63)).
Context (R : list name) (root rr : list byte)
  (Hfd : root_fd = Some R) (Hroot : root_path = Some root) (Hlinks : keep_dirlinks = false) (Hin : path_is_within_root root rr = true).
Context (config : Config) (Hrr : get_str config "receive_root_directory" = Some rr).
Local Abbreviation mirror := (mirror R root rr).

(** The state of a commit that has removed places of [P] from [fs0]. *)
Definition good (P : list name -> Prop) (fs0 : entries) (lim : Z) (c : commit) : Prop :=
  removes P fs0 (c_fs c) /\ max_delete (c_budget c) = lim /\ 0 <= deleted (c_budget c) <= lim /\ lim <= SIZE_MAX.

Lemma good_fs P fs0 lim c fs' : good P fs0 lim c -> removes P (c_fs c) fs' -> good P fs0 lim (MkCommit fs' (c_budget c) (c_seen c)).
Proof. intros (Hr&?&[? ?]&?) Hr'. split_and!; [by eapply removes_trans|done..]. Qed.
Lemma good_skip P fs0 lim c fs' s : good P fs0 lim c -> c_fs c = fs' -> good P fs0 lim (MkCommit fs' (note_skipped (c_budget c)) s).
Proof. by intros (?&?&?&?) <-. Qed.
Lemma good_deleted P fs0 lim c s : good P fs0 lim c -> deleted (c_budget c) < lim -> good P fs0 lim (MkCommit (c_fs c) (note_deleted (c_budget c)) s).
Proof. intros (?&?&[? ?]&?) ?. unfold SIZE_MAX in *. split_and!; simpl; [done..|rewrite u64_small; lia|rewrite u64_small; lia|done]. Qed.
Lemma good_walk P fs0 lim c fs' r hit s :
  good P fs0 lim c -> removes P (c_fs c) fs' -> 0 <= deleted_out r <= lim - deleted (c_budget c) ->
  good P fs0 lim (MkCommit fs' (add_counts (c_budget c) r hit) s).
Proof.
  intros (Hr&?&[? ?]&?) Hr' [? ?]. unfold SIZE_MAX in *. split_and!; simpl; [by eapply removes_trans|done|rewrite u64_small; lia|rewrite u64_small; lia|done].
Qed.

Lemma entry_tokens rel : at_end rel 0 || char_is rel 0 slash = false -> tokens rel <> [].
Proof.
  intros [He Hs]%orb_false_iff. destruct rel as [|c rel]; [done|]. apply bool_decide_eq_false in Hs. simpl in Hs.
  destruct (decide (slash ∈ c :: rel)) as [(a&b&E1&Ha)%list_elem_of_split_l|Hn]; [|by rewrite tokens_single].
  destruct a as [|x a]; [simpl in E1; congruence|]. by rewrite E1, tokens_app, tokens_single.
Qed.

Section Mirror.
Context (P : list name -> Prop) (fs0 : entries) (lim : Z) (rel full : list byte).
Context (Hfull : path_cat (Some rr) (Some rel) = Ret full) (Hne : tokens rel <> []) (Hdd : cs ".." ∉ tokens rel)
  (HP : forall q, below (mirror rel) q -> P q).

Lemma remove_mirror_tree_safe c : good P fs0 lim c -> deleted (c_budget c) < lim ->
  exists ok removed c', remove_mirror_tree config rel full c = Ret (ok, removed, c') /\ good P fs0 lim c' /\ (removed = true -> deleted (c_budget c') < lim).
Proof.
  intros Hg Hlt. unfold remove_mirror_tree. destruct (_ || _); [|by eexists _, _, _]. pose proof Hg as ([Hw Hk]&Hmax&Hd&Hl).
  set (remaining := if deleted (c_budget c) >=? max_delete (c_budget c) then 0 else max_delete (c_budget c) - deleted (c_budget c)).
  assert (Hrem : remaining = lim - deleted (c_budget c)) by (subst remaining; rewrite Hmax; destruct (Z.geb_spec (deleted (c_budget c)) lim); lia).
  assert (exists r fs', match array_list_create (A := list byte) true with
               | Ret _ => extras_at (Some full) (c_fs c) [] None remaining [] None
               | Fail => Ret (MkReport DELETE_WALK_ERROR 0 0 [], c_fs c) | Stuck => Stuck end = Ret (r, fs') /\
      0 <= deleted_out r <= lim - deleted (c_budget c) /\ removes P (c_fs c) fs') as (r&fs'&->&Hr&Hrem').
  { destruct (array_list_create true) as [a| |] eqn:Ea.
    - destruct (extras_at_safe Hheap (Some full) (c_fs c) [] None remaining [] None) as (r&fs'&->&Hr&Hrm); [done|done|done|unfold SIZE_MAX in *; lia|].
      exists r, fs'. split_and!; [done|lia|lia|]. eapply removes_mono; [exact Hrm|]. intros q (d&Ho&p&k&->&_). apply HP.
      apply (destination_place R root Hfd Hroot) in Ho as [Hw' ->]. destruct (joined_tokens root rr Hin _ _ Hfull Hw' Hne) as (Ht&_).
      rewrite Ht. exists p. unfold DeleteCommitSafe.mirror, base, no_dot. by rewrite filter_app, <- !app_assoc.
    - eexists _, _. split_and!; [done|simpl; lia|simpl; lia|by apply removes_refl].
    - exfalso. revert Ea. unfold array_list_create. by do 2 (destruct (protocol_alloc _); simpl). }
  cbn [mbind outcome_bind]. assert (good P fs0 lim (MkCommit fs' (add_counts (c_budget c) r false) (c_seen c ++ prefixed_seen rel (seen r)))) as Hg' by (by apply good_walk).
  destruct (result r).
  - destruct (Z.geb_spec (deleted (add_counts (c_budget c) r false)) (max_delete (add_counts (c_budget c) r false))) as [Hge|Hlt'].
    + cbn [c_budget]. rewrite (proj2 (Z.geb_le _ _)) by lia. eexists _, _, _. split; [done|]. split; [|done]. by apply (good_skip _ _ _ _ _ _ Hg').
    + cbn [c_budget]. rewrite Z.geb_leb, (proj2 (Z.leb_gt _ _)) by lia.
      pose proof (remove_tree_removes R root rr Hfd Hroot Hlinks Hin rel full fs' (proj1 Hrem') Hfull Hne Hdd) as Hrt.
      destruct (file_remove_tree_secure full fs') as [fs2 gone]. eexists _, _, _. split; [done|]. split.
      * apply (good_fs _ _ _ _ _ Hg'). eapply removes_mono; [exact Hrt|exact HP].
      * intros _. destruct Hg' as (_&Hm'&_). cbn [c_budget] in *. lia.
  - eexists _, _, _. split; [done|]. split; [|done]. exact Hg'.
  - eexists _, _, _. split; [done|]. split; [|done]. exact Hg'.
Qed.

Lemma remove_mirror_safe fd leaf nd c : good P fs0 lim c -> deleted (c_budget c) < lim ->
  (leaf <> [] -> leaf <> cs "." -> mirror rel = fd ++ [leaf]) ->
  exists ok removed c', remove_mirror config rel full fd leaf nd c = Ret (ok, removed, c') /\ good P fs0 lim c' /\ (removed = true -> deleted (c_budget c') < lim).
Proof.
  intros Hg Hlt Hm. unfold remove_mirror.
  assert (Hone : forall fs', removes (below (fd ++ [leaf])) (c_fs c) fs' /\ leaf <> [] /\ dots leaf = false ->
    good P fs0 lim (MkCommit fs' (c_budget c) (c_seen c))).
  { intros fs' (Hr&Hl&Hd). apply good_fs; [done|]. eapply removes_mono; [exact Hr|]. intros q Hq. apply HP. rewrite Hm; [done|done|]. by intros ->. }
  pose proof (proj1 (proj1 Hg)) as Hw. destruct (is_dir nd).
  - destruct (rmdirat (c_fs c) fd leaf) as [e|fs'] eqn:Er.
    + case_bool_decide; [by apply remove_mirror_tree_safe|by eexists _, _, _].
    + apply rmdirat_removes in Er; [|done]. eexists _, _, _. split; [done|]. split; [by apply Hone|done].
  - destruct (unlinkat (c_fs c) fd leaf) as [e|fs'] eqn:Er; [by eexists _, _, _|].
    apply unlinkat_removes in Er; [|done]. eexists _, _, _. split; [done|]. split; [by apply Hone|done].
Qed.
End Mirror.

(** A request that is carried out. *)
Definition requested (skips : list DeleteSkipEntry) (rel : list byte) : Prop :=
  path_under_skip_prefix rel (negb (bool_decide (slash ∈ rel))) skips = false.

Lemma missing_one_safe P fs0 lim skips rel ok c :
  good P fs0 lim c -> (requested skips rel -> forall q, below (mirror rel) q -> P q) ->
  exists ok' stop c', missing_one stale config skips rel ok c = Ret (ok', stop, c') /\ good P fs0 lim c'.
Proof.
  intros Hg HP. unfold missing_one. destruct (at_end rel 0 || char_is rel 0 slash) eqn:Eh; [by eexists _, _, _|]. cbn [orb].
  destruct (has_path_traversal (Some rel)) eqn:Et; [by eexists _, _, _|].
  destruct (path_under_skip_prefix _ _ _) eqn:Es; [by eexists _, _, _|]. specialize (HP Es). rewrite Hrr.
  destruct (path_cat (Some rr) (Some rel)) as [full| |] eqn:Ef; [|by eexists _, _, _|by apply path_cat_not_stuck in Ef].
  pose proof (entry_tokens rel Eh) as Hne. pose proof (traversal_free rel Et) as Hdd.
  destruct (file_open_secure_parent full false (c_fs c)) as [fs1 [e|[fd leaf]]] eqn:Ep.
  { destruct (secure_parent_spec R Hfd _ _ _ _ _ Ep) as (_&Hfs&_). rewrite (Hfs eq_refl). eexists _, _, _. split; [done|]. by destruct c. }
  destruct (mirror_parent R root rr Hfd Hroot Hlinks Hin _ _ _ _ _ _ Ef Hne Ep) as (->&_&Hm&_).
  assert (Hg' : good P fs0 lim (MkCommit (c_fs c) (c_budget c) (c_seen c))) by (by destruct c).
  destruct (fstatat (c_fs c) fd leaf) as [e|nd]; [by eexists _, _, _|]. cbn [c_budget].
  destruct (Z.geb_spec (deleted (c_budget c)) (max_delete (c_budget c))) as [Hge|Hlt].
  { eexists _, _, _. split; [done|]. by apply (good_skip _ _ _ c). }
  assert (Hlt' : deleted (c_budget c) < lim) by (destruct Hg as (_&Hmx&_); lia).
  destruct (remove_mirror_safe P fs0 lim rel full Ef Hne Hdd HP fd leaf nd _ Hg' Hlt' Hm) as (good_&removed&c'&->&Hgc&Hrm).
  cbn [mbind outcome_bind]. eexists _, _, _. split; [done|]. destruct removed; [|done]. apply good_deleted; [done|by apply Hrm].
Qed.

Lemma missing_loop_safe P fs0 lim skips l : forall ok c,
  good P fs0 lim c -> (forall rel, rel ∈ l -> requested skips rel -> forall q, below (mirror rel) q -> P q) ->
  exists ok' c', missing_loop stale config skips l ok c = Ret (ok', c') /\ good P fs0 lim c'.
Proof.
  induction l as [|rel l IH]; intros ok c Hg HP; [by eexists _, _|]. cbn [missing_loop].
  destruct (missing_one_safe P fs0 lim skips rel ok c Hg) as (ok'&stop&c'&->&Hg'); [apply HP; by left|]. cbn [mbind outcome_bind].
  destruct stop; [by eexists _, _|]. apply IH; [done|]. intros r Hr. apply HP. by right.
Qed.

Lemma missing_budgeted_safe P fs0 lim manifest c :
  get_int config "basis_count" = zlen (get_basis config "basis_dirs") -> good P fs0 lim c ->
  (forall skips rel, delete_skips_build config [] [] true = Ret skips -> rel ∈ cells (missing manifest) -> requested skips rel -> forall q, below (mirror rel) q -> P q) ->
  exists ok c', delete_missing_args_budgeted_observed stale config manifest c = Ret (ok, c') /\ good P fs0 lim c'.
Proof.
  intros Hb Hg HP. unfold delete_missing_args_budgeted_observed. case_bool_decide; [by eexists _, _|].
  pose proof (skips_build_total config [] [] true Hb) as Hs. destruct (delete_skips_build config [] [] true) as [skips| |] eqn:Es; [|by eexists _, _|done].
  apply missing_loop_safe; [done|]. intros rel Hrel Hreq. by apply (HP skips).
Qed.
End CommitSafe.

Section CommitClaim.
Context `{Heap} `{XXHash64} {F : Faults} {E : SecureEnv} (stale : errno).
Context (R : list name) (root rr : list byte) (config : Config) (manifest : DeleteManifest).
Local Abbreviation base := (base R root rr).

(** What a commit may remove: the mirrors the manifest names (when asked to,
    unless the staging directory or a basis protects them) with what is below
    them, and the extraneous paths of the walk. *)
Definition mirror_requested (p : list name) : Prop :=
  get_bool config "delete_missing_args" = true /\ exists skips rel,
    delete_skips_build config [] [] true = Ret skips /\ rel ∈ cells (missing manifest) /\ requested skips rel /\ no_dot (tokens rel) `prefix_of` p.
Definition extraneous (p : list name) : Prop :=
  get_bool config "use_delete" = true /\ exists skips k,
    delete_skips_build config (cells (protected manifest)) [] true = Ret skips /\
    extra_in (cells (keeps manifest)) (Some (cells (dirs manifest))) skips (get_rules config "protect_rules") []
      (synced_dir (Some (cells (dirs manifest))) []) p k.
Definition commit_policy (q : list name) : Prop := exists p, q = base ++ p /\ (mirror_requested p \/ extraneous p).

Lemma commit_limit_range : 0 <= commit_limit config <= MAX_SERVER_DELETE_COUNT.
Proof.
  unfold commit_limit, MAX_SERVER_DELETE_COUNT. destruct (Z.geb_spec (get_int config "max_delete") 0); [|simpl; lia].
  destruct (Z.ltb_spec (get_int config "max_delete") 100000); simpl; lia.
Qed.

Context (Hheap : heap_serves (2 ^ 63)) (Hfd : root_fd = Some R) (Hroot : root_path = Some root) (Hlinks : keep_dirlinks = false)
  (Hin : path_is_within_root root rr = true) (Hrr : get_str config "receive_root_directory" = Some rr)
  (Hbasis : get_int config "basis_count" = zlen (get_basis config "basis_dirs"))
  (Hsizes : zlen (cells (keeps manifest)) < 2 ^ 58 /\ zlen (cells (dirs manifest)) < 2 ^ 58).

Lemma missing_args_safe fs0 lim c : get_bool config "delete_missing_args" = true -> good commit_policy fs0 lim c ->
  exists ok c', delete_missing_args_budgeted_observed stale config manifest c = Ret (ok, c') /\ good commit_policy fs0 lim c'.
Proof.
  intros Hon Hg. apply (missing_budgeted_safe stale Hheap R root rr Hfd Hroot Hlinks Hin config Hrr); [done..|]. intros skips rel Es Hrel Hreq q [p ->].
  eexists. split; [unfold mirror; by rewrite <- app_assoc|]. left. split; [done|]. exists skips, rel. split_and!; [done..|]. by eexists.
Qed.

Lemma extras_safe fs0 lim c : lim < SIZE_MAX -> get_bool config "use_delete" = true -> good commit_policy fs0 lim c ->
  exists ok c', delete_extras_budgeted_observed config manifest c = Ret (ok, c') /\ good commit_policy fs0 lim c'.
Proof.
  intros Hlim Hon Hg. unfold delete_extras_budgeted_observed. pose proof (skips_build_total config (cells (protected manifest)) [] true Hbasis) as Hs.
  destruct (delete_skips_build config (cells (protected manifest)) [] true) as [skips| |] eqn:Es; [|by eexists _, _|done].
  pose proof Hg as ([Hw _]&Hmax&Hd&Hl). set (remaining := if _ =? SIZE_MAX then _ else _).
  assert (Hrem : 0 <= remaining <= SIZE_MAX /\ (lim < SIZE_MAX -> remaining = lim - deleted (c_budget c))).
  { subst remaining. rewrite Hmax. unfold SIZE_MAX in *. destruct (Z.eqb_spec lim (2 ^ 64 - 1)); [lia|]. destruct (Z.geb_spec (deleted (c_budget c)) lim); lia. }
  destruct Hsizes as [Hk Hdz].
  destruct (extras_at_safe Hheap (get_str config "receive_root_directory") (c_fs c) (cells (keeps manifest)) (Some (cells (dirs manifest))) remaining skips
    (get_rules config "protect_rules") Hw Hk Hdz) as (r&fs'&->&Hr&Hrm); [apply Hrem|].
  cbn [mbind outcome_bind]. eexists _, _. split; [done|]. apply good_walk; [done| |destruct Hrem as [_ Hrem]; specialize (Hrem Hlim); lia].
  eapply removes_mono; [exact Hrm|]. intros q (d&Ho&p&k&->&Hx). rewrite Hrr in Ho. apply (destination_place R root Hfd Hroot) in Ho as [_ ->].
  exists p. split; [done|]. right. split; [done|]. by exists skips, k.
Qed.

Lemma good_outcome fs n c : good commit_policy fs (commit_limit config) c -> n = 0 \/ n = deleted (c_budget c) ->
  0 <= n <= commit_limit config /\ commit_limit config <= MAX_SERVER_DELETE_COUNT /\
  (forall q, kind_at (c_fs c) q = kind_at fs q \/ (kind_at (c_fs c) q = None /\ commit_policy q)) /\
  (forall p, join p ∈ cells (keeps manifest) -> (forall rel, rel ∈ cells (missing manifest) -> ~ no_dot (tokens rel) `prefix_of` p) ->
    kind_at (c_fs c) (base ++ p) = kind_at fs (base ++ p)).
Proof.
  pose proof commit_limit_range as Hlim. intros ([_ Hk]&_&Hd&_) Hn. split_and!; [lia|lia|lia|done|].
  intros p Hp Hno. destruct (Hk (base ++ p)) as [?|[_ (p'&Ep&Hx)]]; [done|].
  apply app_inv_head in Ep as <-. destruct Hx as [(_&skips&rel&_&Hr&_&Hpre)|(_&skips&k&_&Hx)]; [by destruct (Hno rel Hr)|].
  by apply extra_in_unkept in Hx.
Qed.

(** C10: a deletion commit removes only what it was asked to, within its limit.
    With the receive root inside the authorized root, memory available and
    --keep-dirlinks off, whatever system calls fail: the commit ends; the
    entries it counts are at most the limit (the client's --max-delete when that
    is below the server's 100000); nothing is created or altered, and what is
    gone was below the receive root and either an extraneous path of the
    manifest (with --delete) or at or below a missing-args path that neither the
    staging directory nor a basis protects (with --delete-missing-args).  So
    every transmitted entry that is not below such a request stays, and a dry
    run removes nothing. *)
Theorem commit_safe fs (Htree : wf_node (Dir fs)) :
  exists res n c, manifest_delete_all_observed stale config manifest fs = Ret (res, n, c) /\
    0 <= n <= commit_limit config /\ commit_limit config <= MAX_SERVER_DELETE_COUNT /\
    (forall q, kind_at (c_fs c) q = kind_at fs q \/ (kind_at (c_fs c) q = None /\ commit_policy q)) /\
    (forall p, join p ∈ cells (keeps manifest) -> (forall rel, rel ∈ cells (missing manifest) -> ~ no_dot (tokens rel) `prefix_of` p) ->
      kind_at (c_fs c) (base ++ p) = kind_at fs (base ++ p)) /\
    (get_bool config "dry_run" = true -> c_fs c = fs).
Proof.
  pose proof commit_limit_range as Hlim. unfold manifest_delete_all_observed. set (c0 := MkCommit _ _ _).
  assert (good commit_policy fs (commit_limit config) c0) as Hg0.
  { split_and!; simpl; [by apply removes_refl|done|lia|lia|]. unfold SIZE_MAX, MAX_SERVER_DELETE_COUNT in *. lia. }
  assert (Hlt : commit_limit config < SIZE_MAX) by (unfold SIZE_MAX, MAX_SERVER_DELETE_COUNT in *; lia).
  destruct (get_bool config "dry_run").
  { eexists _, _, _. split; [done|]. destruct (good_outcome fs 0 c0 Hg0 (or_introl eq_refl)) as (?&?&?&?). done. }
  assert (exists ok c, (if get_bool config "delete_missing_args" then delete_missing_args_budgeted_observed stale config manifest c0 else Ret (true, c0)) = Ret (ok, c) /\
    good commit_policy fs (commit_limit config) c) as (ok&c&->&Hg).
  { destruct (get_bool config "delete_missing_args") eqn:Em; [by apply missing_args_safe|by eexists _, _]. }
  cbn [mbind outcome_bind]. destruct ok; cbn [negb].
  2:{ eexists _, _, _. split; [done|]. destruct (good_outcome fs 0 c Hg (or_introl eq_refl)) as (?&?&?&?). done. }
  assert (exists ok c', (if get_bool config "use_delete" then delete_extras_budgeted_observed config manifest c else Ret (true, c)) = Ret (ok, c') /\
    good commit_policy fs (commit_limit config) c') as (ok'&c'&->&Hg').
  { destruct (get_bool config "use_delete") eqn:Em; [by apply extras_safe|by eexists _, _]. }
  cbn [mbind outcome_bind]. destruct ok'; cbn [negb]; eexists _, _, _; (split; [done|]).
  - destruct (good_outcome fs _ c' Hg' (or_intror eq_refl)) as (?&?&?&?). done.
  - destruct (good_outcome fs 0 c' Hg' (or_introl eq_refl)) as (?&?&?&?). done.
Qed.
End CommitClaim.

(** A receive root /srv/d with a kept file, an extra one, and a directory "a"
    that holds the basis snapshot "a/snap". *)
Definition commit_fs : entries :=
  [(cs "srv", Dir [(cs "d", Dir [(cs "k", Leaf false 1); (cs "x", Leaf false 2);
     (cs "a", Dir [(cs "f", Leaf false 3); (cs "snap", Dir [(cs "z", Leaf false 4)])])])])].
Lemma commit_fs_wf : wf_node (Dir commit_fs).
Proof. apply wf_nodeb_sound. by vm_compute. Qed.
Definition commit_config (basis : list (Z * list byte)) : Config :=
  list_to_map [("receive_root_directory", VStr (Some (cs "/srv/d"))); ("use_delete", VBool true); ("delete_missing_args", VBool true);
               ("max_delete", VInt (-1)); ("basis_count", VInt (zlen basis)); ("basis_dirs", VBasis basis)].
Definition commit_manifest (mi : list (list byte)) : DeleteManifest :=
  MkManifest (al_of [cs "k"]) (al_of []) (al_of mi) (al_of [cs "."]).

Lemma commit_safe_witness :
  exists res n c, @manifest_delete_all_observed heap0 hash_const no_faults (demo_env false) ENOENT (commit_config [(1, cs "a")]) (commit_manifest [cs "a"]) commit_fs = Ret (res, n, c) /\
    n <= 100000 /\ kind_at (c_fs c) [cs "srv"; cs "d"; cs "k"] = Some (KLeaf false 1).
Proof.
  destruct (@commit_safe heap0 hash_const no_faults (demo_env false) ENOENT [cs "srv"; cs "d"] (cs "/srv/d") (cs "/srv/d") (commit_config [(1, cs "a")]) (commit_manifest [cs "a"])
    (heap0_serves _) eq_refl eq_refl eq_refl ltac:(by vm_compute) ltac:(by vm_compute) ltac:(by vm_compute) ltac:(by vm_compute) commit_fs commit_fs_wf) as (res&n&c&Hr&Hn&Hl&_&Hk&_).
  exists res, n, c. split; [exact Hr|]. split; [unfold MAX_SERVER_DELETE_COUNT in Hl; lia|].
  assert (base [cs "srv"; cs "d"] (cs "/srv/d") (cs "/srv/d") = [cs "srv"; cs "d"]) as Hb by (by vm_compute). rewrite Hb in Hk.
  apply (Hk [cs "k"]).
  - by left.
  - intros rel Hrel. change (cells (missing (commit_manifest [cs "a"]))) with [cs "a"] in Hrel. apply list_elem_of_singleton in Hrel as ->. by intros [? ?].
Defined.

(** The removal of a missing-args directory does not pass the skip set on: the
    snapshot "a/snap" is a basis directory the skip set protects, and it is
    removed with "a". *)
Example basis_snapshot_lost :
  delete_skips_build (H := heap0) (commit_config [(1, cs "a/snap")]) [] [] true = Ret [MkSkip (cs "a/snap") false] /\
  match @manifest_delete_all_observed heap0 hash_const no_faults (demo_env false) ENOENT (commit_config [(1, cs "a/snap")]) (commit_manifest [cs "a"]) commit_fs with
  | Ret (res, _, c) => res = DELETE_COMMIT_OK /\ kind_at (c_fs c) [cs "srv"; cs "d"; cs "a"; cs "snap"; cs "z"] = None
  | _ => False
  end.
Proof. split; [by vm_compute|]. vm_compute. done. Qed.
