(* ===== verification/DeletePlan.v ===== *)
(** Per-directory delete plans, the receiver: src/shared/delete_plan.c from
    [DeletePlanSession] on.  A plan names the entries a directory keeps; its
    other entries are removed when the plan arrives or are noted for the commit
    of --delete-delay. *)

From stdpp Require Import gmap strings.
From S2P Require Import Prelude Alloc DataBuf CStr Paths ArrayList PathIndex FilterParse FilterRules Transport Session Charset Chunk Names ConfigWire DeleteTree DeleteWalk DeleteManifest SecureFs DeleteCommit.

#[local] Open Scope string_scope.
#[local] Open Scope list_scope.
#[local] Open Scope Z_scope.

Definition DELETE_PLAN_SERVER_LIMIT : Z := 100000.

(** The part of delete_plan.c [DeletePlanSession] that changes while a directory
    is processed.  The budget holds [max_delete], [planned] (its member
    [deleted]), [skipped] and [limit_hit]; [p_seen] are the paths the observer
    was called with. *)
Record plan_state := MkPlan {
  p_budget : DeleteBudget; p_deleted : Z; p_deferred : ArrayList (list byte); p_seen : list (list byte) }.
Definition plan_skipped (w : plan_state) : plan_state := MkPlan (note_skipped (p_budget w)) (p_deleted w) (p_deferred w) (p_seen w).
Definition plan_deleted (w : plan_state) (reported : list byte) : plan_state :=
  MkPlan (note_deleted (p_budget w)) (u64 (p_deleted w + 1)) (p_deferred w) (p_seen w ++ [reported]).
Definition set_deferred (w : plan_state) l : plan_state := MkPlan (p_budget w) (p_deleted w) l (p_seen w).

(** delete_plan.c [list_contains_str]; [None] is NULL *)
Definition list_contains_str (l : option (list (list byte))) (value : list byte) : bool :=
  match l with None => false | Some l => existsb (fun s => strcmp s value =? 0) l end.

(** delete_plan.c [valid_rel_path], [valid_name] *)
Definition valid_rel_path `{Heap} (value : list byte) : bool :=
  negb (at_end value 0) && negb (char_is value 0 slash) && negb (has_path_traversal (Some value)).
Definition valid_name (value : list byte) : bool :=
  negb (at_end value 0) && negb (strcmp value (cs ".") =? 0) && negb (strcmp value (cs "..") =? 0) && bool_decide (slash ∉ value).

(** ** One directory *)

Section Plan.
Context `{Heap} {F : Faults}.
Context (defer : bool) (defer_cap : Z) (skips : list DeleteSkipEntry) (protect_rules : option FilterRuleList).

(** delete_plan.c [budget_available], [defer_add], [notify_deleted_dir] *)
Definition budget_available (w : plan_state) : bool := deleted (p_budget w) <? max_delete (p_budget w).
Definition defer_add (w : plan_state) (rel : list byte) : outcome plan_state :=
  if al_size (p_deferred w) >=? defer_cap then Ret (plan_skipped w)
  else
    copy ← str_dup (Some rel);
    l ← array_list_add (Some (p_deferred w)) copy;
    Ret (set_deferred w l).
Definition reported_dir (rel : list byte) : list byte := if malloc_ok (zlen rel + 2) then rel ++ [slash] else rel.

(** The path of a child, as [process_children] builds it *)
Definition plan_child (dir_rel : list byte) (n : name) : outcome (list byte) :=
  if strcmp dir_rel (cs ".") =? 0 then str_dup (Some n) else path_cat (Some dir_rel) (Some n).

(** delete_plan.c [process_extra_dir], given the walk below: the return value,
    [*removed], the session and the directory. *)
Definition process_extra_dir (rec : list byte -> list name -> bool -> plan_state -> entries -> outcome (bool * bool * plan_state * entries))
    (here : list name) (n : name) (child_rel : list byte) (force_now : bool) (w : plan_state) (es : entries)
  : outcome (bool * bool * plan_state * entries) :=
  match openat_dir here n es with
  | inl e => Ret (bool_decide (e = ENOENT), bool_decide (e = ENOENT), w, es)
  | inr ces =>
      '(ok, survives, w, ces) ← rec child_rel (here ++ [n]) force_now w ces;
      let es := set_entry n (Dir ces) es in
      if negb ok then Ret (false, false, w, es)
      else if survives : bool then Ret (true, false, w, es)
      else if defer && negb force_now then
        match defer_add w child_rel with
        | Stuck => Stuck
        | Fail => Ret (false, false, w, es)
        | Ret w => Ret (true, true, w, es)
        end
      else if negb (budget_available w) then Ret (true, false, plan_skipped w, es)
      else match unlinkat_dir here n es with
      | inr es => Ret (true, true, plan_deleted w (reported_dir child_rel), es)
      | inl e => if bool_decide (e = ENOENT) then Ret (true, true, w, es) else Ret (bool_decide (e = ENOTEMPTY \/ e = EEXIST), false, w, es)
      end
  end.

(** delete_plan.c [process_extra_file] *)
Definition process_extra_file (here : list name) (n : name) (child_rel : list byte) (force_now : bool) (w : plan_state) (es : entries)
  : outcome (bool * plan_state * entries) :=
  if defer && negb force_now then
    match defer_add w child_rel with
    | Stuck => Stuck
    | Fail => Ret (false, w, es)
    | Ret w => Ret (true, w, es)
    end
  else if negb (budget_available w) then Ret (true, plan_skipped w, es)
  else match unlinkat_file here n es with
  | inr es => Ret (true, plan_deleted w child_rel, es)
  | inl e => Ret (bool_decide (e = ENOENT), w, es)
  end.

(** What becomes of an entry: kept, not decided for want of memory, or an extra,
    with [force]. *)
Inductive fate := Spared | Undecided | Doomed (force : bool).
#[global] Instance fate_eq_dec : EqDecision fate.
Proof. solve_decision. Defined.

(** [operation_ok], [local_survives], the session and the directory *)
Record plan_frame := MkPF { pf_ok : bool; pf_survives : bool; pf_state : plan_state; pf_dir : entries }.
Definition pf_failed (f : plan_frame) : plan_frame := MkPF false (pf_survives f) (pf_state f) (pf_dir f).

(** delete_plan.c [process_children], the classification *)
Definition fate_of (keep_dirs keep_files : option (list (list byte))) (at_root : bool) (child_rel : list byte) (e : DeleteDirEntry) : outcome fate :=
  if path_under_skip_prefix child_rel at_root skips then Ret Spared
  else
    let in_keep_dirs := e_is_dir e && list_contains_str keep_dirs (e_name e) in
    let in_keep_files := negb (e_is_dir e) && list_contains_str keep_files (e_name e) in
    rule_protected ← is_protected protect_rules child_rel (e_name e) (e_is_dir e);
    if in_keep_dirs || in_keep_files || rule_protected then Ret Spared
    else Ret (Doomed (list_contains_str (if e_is_dir e then keep_files else keep_dirs) (e_name e))).
Fixpoint fates (keep_dirs keep_files : option (list (list byte))) (at_root : bool) (dir_rel : list byte) (l : list DeleteDirEntry) (ok survives : bool)
  : outcome (list (DeleteDirEntry * fate) * bool * bool) :=
  match l with
  | [] => Ret ([], ok, survives)
  | e :: l =>
      match plan_child dir_rel (e_name e) with
      | Stuck => Stuck
      | Fail => '(fl, ok, survives) ← fates keep_dirs keep_files at_root dir_rel l false survives; Ret ((e, Undecided) :: fl, ok, survives)
      | Ret child_rel =>
          c ← fate_of keep_dirs keep_files at_root child_rel e;
          '(fl, ok, survives) ← fates keep_dirs keep_files at_root dir_rel l ok (survives || bool_decide (c = Spared));
          Ret ((e, c) :: fl, ok, survives)
      end
  end.

(** Pass 1, subdirectories, and pass 2, files *)
Definition plan_pass1 rec (here : list name) (dir_rel : list byte) (force_now : bool) (ef : DeleteDirEntry * fate) (f : plan_frame) : outcome plan_frame :=
  match ef.2 with
  | Doomed force =>
      match plan_child dir_rel (e_name ef.1) with
      | Stuck => Stuck
      | Fail => Ret (pf_failed f)
      | Ret child_rel =>
          '(ok, removed, w, es) ← process_extra_dir rec here (e_name ef.1) child_rel (force || force_now) (pf_state f) (pf_dir f);
          Ret (MkPF (pf_ok f && ok) (pf_survives f || (ok && negb removed)) w es)
      end
  | _ => Ret f
  end.
Definition plan_pass2 (here : list name) (dir_rel : list byte) (force_now : bool) (ef : DeleteDirEntry * fate) (f : plan_frame) : outcome plan_frame :=
  match ef.2 with
  | Doomed force =>
      match plan_child dir_rel (e_name ef.1) with
      | Stuck => Stuck
      | Fail => Ret (pf_failed f)
      | Ret child_rel =>
          '(ok, w, es) ← process_extra_file here (e_name ef.1) child_rel (force || force_now) (pf_state f) (pf_dir f);
          Ret (MkPF (pf_ok f && ok) (pf_survives f) w es)
      end
  | _ => Ret f
  end.
Fixpoint split_fates (fl : list (DeleteDirEntry * fate)) : list (DeleteDirEntry * fate) * list (DeleteDirEntry * fate) :=
  match fl with
  | ef :: rest => if e_is_dir ef.1 then let '(ds, fs) := split_fates rest in (ef :: ds, fs) else ([], fl)
  | [] => ([], [])
  end.

(** delete_plan.c [process_children]: the return value, [*survives], the session
    and the directory; below an extra directory nothing is kept by name. *)
Fixpoint process_children (fuel : nat) (keep_dirs keep_files : option (list (list byte))) (at_root : bool)
    (dir_rel : list byte) (here : list name) (force_now : bool) (w : plan_state) (es : entries) : outcome (bool * bool * plan_state * entries) :=
  match fuel with
  | O => Stuck
  | S fuel =>
      match delete_dir_entries_collect here es with
      | Stuck => Stuck
      | Fail => Ret (false, false, w, es)
      | Ret (l, collect_ok) =>
          if negb (malloc_ok (if zlen l =? 0 then 1 else zlen l)) then Ret (false, false, w, es)
          else
            '(fl, ok, survives) ← fates keep_dirs keep_files at_root dir_rel (sort_entries l) collect_ok false;
            let '(ds, fs) := split_fates fl in
            f ← foldM (plan_pass1 (process_children fuel None None false) here dir_rel force_now) ds (MkPF ok survives w es);
            f ← foldM (plan_pass2 here dir_rel force_now) fs f;
            Ret (pf_ok f, pf_survives f, pf_state f, pf_dir f)
      end
  end.
End Plan.

(** ** The session *)

(** delete_plan.c [DeletePlanSession] *)
Record DeletePlanSession := MkPS {
  ps_defer : bool; ps_dry_run : bool; ps_defer_cap : Z; ps_state : plan_state;
  ps_limit_logged : bool; ps_config_seen : bool; ps_missing_applied : bool;
  ps_protected : ArrayList (list byte); ps_size_skipped : ArrayList (list byte); ps_missing : ArrayList (list byte) }.
Definition set_plan (s : DeletePlanSession) w : DeletePlanSession :=
  MkPS (ps_defer s) (ps_dry_run s) (ps_defer_cap s) w (ps_limit_logged s) (ps_config_seen s) (ps_missing_applied s) (ps_protected s) (ps_size_skipped s) (ps_missing s).
Definition set_missing_applied (s : DeletePlanSession) : DeletePlanSession :=
  MkPS (ps_defer s) (ps_dry_run s) (ps_defer_cap s) (ps_state s) (ps_limit_logged s) (ps_config_seen s) true (ps_protected s) (ps_size_skipped s) (ps_missing s).
Definition set_limit_logged (s : DeletePlanSession) : DeletePlanSession :=
  MkPS (ps_defer s) (ps_dry_run s) (ps_defer_cap s) (ps_state s) true (ps_config_seen s) (ps_missing_applied s) (ps_protected s) (ps_size_skipped s) (ps_missing s).
Definition set_sections (s : DeletePlanSession) a b c : DeletePlanSession :=
  MkPS (ps_defer s) (ps_dry_run s) (ps_defer_cap s) (ps_state s) (ps_limit_logged s) true (ps_missing_applied s) a b c.

Section PlanSession.
Context `{HH : Heap} `{XXHash64} {F : Faults} {E : SecureEnv} {W : WireCharset}.
Context (stale : errno) (config : Config).

(** delete_plan.c [delete_plan_session_create] *)
Definition plan_limit : Z :=
  let m := get_int config "max_delete" in
  if (m >=? 0) && (m <? DELETE_PLAN_SERVER_LIMIT) then m else DELETE_PLAN_SERVER_LIMIT.
Definition sizeof_DeletePlanSession : Z := 120.
Definition delete_plan_session_create : outcome DeletePlanSession :=
  check (malloc_ok sizeof_DeletePlanSession);;
  a ← array_list_create true;
  b ← array_list_create true;
  c ← array_list_create true;
  d ← array_list_create true;
  Ret (MkPS (get_bool config "delete_delay") (get_bool config "dry_run") DELETE_PLAN_SERVER_LIMIT (MkPlan (MkBudget plan_limit 0 0 false) 0 d [])
         false false false a b c).

(** delete_plan.c [open_plan_dir]: the place, or what [errno] tells *)
Definition open_plan_dir (dir : list byte) (fs : entries) : errno + list name :=
  match (if strcmp dir (cs ".") =? 0 then str_dup (get_str config "receive_root_directory") else path_cat (get_str config "receive_root_directory") (Some dir)) with
  | Ret full =>
      match root_fd with
      | Some r =>
          match root_path with
          | Some _ => match authorized_destination (Some full) fs with inl e => inl (default stale e) | inr d => inr d end
          | None => if strcmp dir (cs ".") =? 0 then dup r else inl stale
          end
      | None => open_directory full
      end
  | _ => inl ENOMEM
  end.

(** delete_plan.c [build_plan_skips] *)
Definition build_plan_skips (s : DeletePlanSession) : outcome (list DeleteSkipEntry) :=
  delete_skips_build config (cells (ps_protected s)) (cells (ps_size_skipped s)) false.

(** [process_children] on the directory at [place] *)
Definition process_at (s : DeletePlanSession) (skips : list DeleteSkipEntry) (keep_dirs keep_files : option (list (list byte))) (at_root : bool)
    (rel : list byte) (place : list name) (force_now : bool) (fs : entries) : outcome (bool * bool * plan_state * entries) :=
  match dir_at fs place with
  | None => Ret (false, false, ps_state s, fs)
  | Some es =>
      '(ok, survives, w, es) ← process_children (F := shift F place) (ps_defer s) (ps_defer_cap s) skips (get_rules config "protect_rules")
                                  (depth (Dir es)) keep_dirs keep_files at_root rel [] force_now (ps_state s) es;
      Ret (ok, survives, w, put_at fs place es)
  end.

(** delete_plan.c [apply_plan_dir] *)
Definition apply_plan_dir (s : DeletePlanSession) (dir : list byte) (dirs files : list (list byte)) (fs : entries) : outcome (bool * DeletePlanSession * entries) :=
  match open_plan_dir dir fs with
  | inl e => Ret (bool_decide (e = ENOENT \/ e = ENOTDIR), s, fs)
  | inr place =>
      match build_plan_skips s with
      | Stuck => Stuck
      | Fail => Ret (false, s, fs)
      | Ret skips =>
          '(ok, _, w, fs) ← process_at s skips (Some dirs) (Some files) (strcmp dir (cs ".") =? 0) dir place false fs;
          Ret (ok, set_plan s w, fs)
      end
  end.

(** delete_plan.c [apply_missing] *)
Definition no_list : ArrayList (list byte) := MkArrayList [] 0 0 false.
Definition apply_missing (s : DeletePlanSession) (fs : entries) : outcome (bool * DeletePlanSession * entries) :=
  if ps_missing_applied s then Ret (true, s, fs)
  else
    let s := set_missing_applied s in
    if negb (get_bool config "delete_missing_args") || (al_size (ps_missing s) =? 0) then Ret (true, s, fs)
    else
      let w := ps_state s in
      let b := p_budget w in
      let remaining := if budget_available w then max_delete b - deleted b else 0 in
      '(ok, c) ← manifest_delete_missing_args_limited_observed stale config (MkManifest no_list no_list (ps_missing s) no_list) remaining fs;
      let r := c_budget c in
      Ret (ok, set_plan s (MkPlan (MkBudget (max_delete b) (u64 (deleted b + deleted r)) (u64 (skipped b + skipped r)) (limit_hit b || limit_hit r))
                             (u64 (p_deleted w + deleted r)) (p_deferred w) (p_seen w ++ c_seen c)), c_fs c).

(** delete_plan.c [read_section] *)
Definition plan_entry (rel_path : bool) (value : list byte) (bytes : Z) (l : ArrayList (list byte)) : outcome (ArrayList (list byte) * Z) :=
  check (if rel_path then valid_rel_path value else valid_name value);;
  let entry_size := zlen value + 8 + 16 in
  check (negb (entry_size >? u64 (MAX_MANIFEST_BYTES - bytes)));;
  l ← array_list_add (Some l) value;
  Ret (l, u64 (bytes + entry_size)).
Fixpoint plan_section_loop (count : nat) (rel_path : bool) (l : ArrayList (list byte)) (bytes : Z) : io (ArrayList (list byte) * Z) :=
  match count with
  | O => io_ret (l, bytes)
  | S count =>
      value <~ receive_wire_str;
      r <~ io_of (plan_entry rel_path value bytes l);
      plan_section_loop count rel_path (fst r) (snd r)
  end.
Definition read_section (l : ArrayList (list byte)) (rel_path : bool) (bytes : Z) : io (ArrayList (list byte) * Z) :=
  count <~ protocol_receive_int;
  io_check (negb ((count <? 0) || (count >? MAX_MANIFEST_ENTRIES))) >~
  plan_section_loop (Z.to_nat count) rel_path l bytes.

(** delete_plan.c [delete_plan_session_receive], reading the frame: the session
    with its sections, [apply], the directory and its two lists.  A failure
    answers STATUS_ERROR. *)
Definition read_flag : io Z := v <~ protocol_receive_int; io_check ((v =? 0) || (v =? 1)) >~ io_ret v.
Definition read_config (s : DeletePlanSession) : io (DeletePlanSession * Z) :=
  has_config <~ read_flag;
  if has_config =? 0 then io_ret (s, 0)
  else
    io_check (negb (ps_config_seen s)) >~
    a <~ read_section (ps_protected s) true 0;
    b <~ read_section (ps_size_skipped s) true (snd a);
    c <~ read_section (ps_missing s) true (snd b);
    io_ret (set_sections s (fst a) (fst b) (fst c), snd c).
Record plan := MkPlanFrame { pl_apply : bool; pl_dir : list byte; pl_dirs : list (list byte); pl_files : list (list byte) }.
Definition read_plan (s : DeletePlanSession) : io (DeletePlanSession * plan) :=
  on_fail answer_error (
    c <~ read_config s;
    apply <~ read_flag;
    dir <~ receive_wire_str;
    dirs <~ io_of (array_list_create true);
    files <~ io_of (array_list_create true);
    io_check ((strcmp dir (cs ".") =? 0) || valid_rel_path dir) >~
    ds <~ read_section dirs false (snd c);
    fl <~ read_section files false (snd ds);
    io_ret (fst c, MkPlanFrame (apply =? 1) dir (cells (fst ds)) (cells (fst fl)))).

(** What is done with a plan *)
Definition apply_plan (s : DeletePlanSession) (p : plan) (fs : entries) : outcome (bool * DeletePlanSession * entries) :=
  if ps_dry_run s || negb (get_bool config "use_delete" || get_bool config "delete_missing_args") then Ret (true, s, fs)
  else
    '(ok, s, fs) ← (if ps_defer s then Ret (true, s, fs) else apply_missing s fs);
    if ok && pl_apply p then apply_plan_dir s (pl_dir p) (pl_dirs p) (pl_files p) fs else Ret (ok, s, fs).
(** The result of the answer is not looked at. *)
Definition quietly (m : io unit) : io unit := fun w =>
  let '(w, r) := m w in (w, match r with Stuck => Stuck | _ => Ret tt end).
Definition delete_plan_session_receive (s : DeletePlanSession) (fs : entries) : io (bool * DeletePlanSession * entries) :=
  r <~ read_plan s;
  a <~ io_of (apply_plan (fst r) (snd r) fs);
  if fst (fst a) : bool then
    let s := snd (fst a) in
    io_ret (true, if limit_hit (p_budget (ps_state s)) && negb (ps_limit_logged s) then set_limit_logged s else s, snd a)
  else quietly answer_error >~ io_ret a.

(** delete_plan.c [apply_deferred_path], the removal of one that exists *)
Definition deferred_dir (s : DeletePlanSession) (rel : list byte) (fd : list name) (leaf : name) (fs : entries) : outcome (bool * DeletePlanSession * entries) :=
  if negb (budget_available (ps_state s)) then Ret (true, set_plan s (plan_skipped (ps_state s)), fs)
  else match openat fs fd leaf with
  | inl e => Ret (bool_decide (e = ENOENT \/ e = ENOTDIR), s, fs)
  | inr place =>
      match build_plan_skips s with
      | Stuck => Stuck
      | Fail => Ret (false, s, fs)
      | Ret skips =>
          '(ok, survives, w, fs) ← process_at s skips None None false rel place true fs;
          let s := set_plan s w in
          if negb ok then Ret (false, s, fs)
          else if survives : bool then Ret (true, s, fs)
          else if negb (budget_available w) then Ret (true, set_plan s (plan_skipped w), fs)
          else match rmdirat fs fd leaf with
          | inr fs => Ret (true, set_plan s (plan_deleted w (reported_dir rel)), fs)
          | inl e => Ret (bool_decide (e = ENOENT \/ e = ENOTEMPTY \/ e = EEXIST), s, fs)
          end
      end
  end.
Definition deferred_file (s : DeletePlanSession) (rel : list byte) (fd : list name) (leaf : name) (fs : entries) : outcome (bool * DeletePlanSession * entries) :=
  if negb (budget_available (ps_state s)) then Ret (true, set_plan s (plan_skipped (ps_state s)), fs)
  else match unlinkat fs fd leaf with
  | inr fs => Ret (true, set_plan s (plan_deleted (ps_state s) rel), fs)
  | inl e => Ret (bool_decide (e = ENOENT), s, fs)
  end.
Definition apply_deferred_path (s : DeletePlanSession) (rel : list byte) (fs : entries) : outcome (bool * DeletePlanSession * entries) :=
  match path_cat (get_str config "receive_root_directory") (Some rel) with
  | Stuck => Stuck
  | Fail => Ret (false, s, fs)
  | Ret full =>
      match file_open_secure_parent full false fs with
      | (fs, inl e) => let e := default stale e in Ret (bool_decide (e = ENOENT \/ e = ENOTDIR), s, fs)
      | (fs, inr (fd, leaf)) =>
          match fstatat fs fd leaf with
          | inl e => Ret (bool_decide (e = ENOENT \/ e = ENOTDIR), s, fs)
          | inr nd => if is_dir nd then deferred_dir s rel fd leaf fs else deferred_file s rel fd leaf fs
          end
      end
  end.

(** delete_plan.c [delete_plan_session_commit] *)
Fixpoint deferred_loop (l : list (list byte)) (s : DeletePlanSession) (fs : entries) : outcome (bool * DeletePlanSession * entries) :=
  match l with
  | [] => Ret (true, s, fs)
  | rel :: l =>
      '(ok, s, fs) ← apply_deferred_path s rel fs;
      if ok : bool then deferred_loop l s fs else Ret (false, s, fs)
  end.
Definition delete_plan_session_commit (s : DeletePlanSession) (fs : entries) : outcome (DeleteCommitResult * DeletePlanSession * entries) :=
  if ps_dry_run s then Ret (DELETE_COMMIT_OK, s, fs)
  else
    '(ok, s, fs) ← (if ps_defer s then deferred_loop (cells (p_deferred (ps_state s))) s fs else Ret (true, s, fs));
    '(ok, s, fs) ← (if ok : bool then apply_missing s fs else Ret (false, s, fs));
    Ret (if negb ok then DELETE_COMMIT_ERROR else if limit_hit (p_budget (ps_state s)) then DELETE_COMMIT_LIMIT_REACHED else DELETE_COMMIT_OK, s, fs).
End PlanSession.
