(* ===== verification/DeletePlanSafe.v ===== *)
(** What the plans of src/shared/delete_plan.c may remove, and when: the policy
    as a predicate on paths, and the proof that nothing else is removed,
    whatever fails on the way. *)

From stdpp Require Import gmap strings.
From S2P Require Import Prelude Alloc CStr Paths ArrayList PathIndex FilterParse FilterRules DeleteTree DeleteWalk DeleteSafe DeleteManifest SecureFs SecureSafe DeleteCommit DeleteCommitSafe DeletePlan.

(** ** Paths of children *)

(** [path_cat] when memory lasts *)
Definition joined (a b : list byte) : list byte :=
  if bool_decide (a = []) then b else if bool_decide (b = []) then a
  else (if char_is a (length a - 1) slash then take (length a - 1) a else a) ++ [slash] ++ (if char_is b 0 slash then drop 1 b else b).
Definition child_path (rel : list byte) (n : name) : list byte := if strcmp rel (cs ".") =? 0 then n else joined rel n.
Definition path_of (rel : list byte) (p : list name) : list byte := fold_left child_path p rel.

Section Child.
Context `{Heap}.

Lemma path_cat_joined a b : match path_cat (Some a) (Some b) with Ret r => r = joined a b | Fail => True | Stuck => False end.
Proof.
  destruct (path_cat (Some a) (Some b)) as [r| |] eqn:E; [|done|by apply path_cat_not_stuck in E]. revert E. unfold path_cat, joined, str_dup. simpl.
  case_bool_decide as Ha; [intros E; do 2 inv_ret E; done|]. case_bool_decide as Hb; [intros E; do 2 inv_ret E; done|].
  intros E. do 5 inv_ret E. subst. apply rd_ret_inv in Hm1 as (_&_&_&->), Hm2 as (_&_&_&->). rewrite drop_0. f_equal; [|f_equal].
  - destruct (char_is a _ slash); [f_equal; unfold zlen; lia|]. rewrite take_ge; [done|]. unfold zlen. lia.
  - destruct (char_is b 0 slash); simpl; (rewrite take_ge; [done|]); rewrite ?length_drop; unfold zlen; lia.
Qed.
Lemma plan_child_spec rel n : match plan_child rel n with Ret r => r = child_path rel n | Fail => True | Stuck => False end.
Proof.
  unfold plan_child, child_path. destruct (strcmp rel (cs ".") =? 0); [|apply path_cat_joined]. unfold str_dup. simpl. by destruct (malloc_ok _).
Qed.
End Child.

(** A directory as the sender names it. *)
Definition rel_of (p : list name) : list byte := match p with [] => cs "." | _ => join p end.

Lemma joined_join p n : Forall name_ok p -> name_ok n -> p <> [] -> joined (join p) n = join (p ++ [n]).
Proof.
  intros Hp Hn Hne. rewrite join_snoc by done. unfold joined. rewrite bool_decide_eq_false_2 by (by apply join_nonempty).
  destruct (name_ok_cons n Hn) as (c&t&->&Hc). rewrite bool_decide_eq_false_2 by done. f_equal; [|f_equal].
  - unfold char_is. rewrite bool_decide_eq_false_2; [done|]. intros Hl. apply (join_last p Hp). by rewrite last_lookup, Nat.sub_1_r in *.
  - unfold char_is. simpl. rewrite bool_decide_eq_false_2; [done|]. by intros [= ->].
Qed.
Lemma child_path_rel p n : Forall name_ok p -> name_ok n -> child_path (rel_of p) n = rel_of (p ++ [n]).
Proof.
  intros Hp Hn. unfold child_path. destruct p as [|m p]; [done|]. assert (rel_of (m :: p) = join (m :: p)) as -> by done.
  assert (rel_of ((m :: p) ++ [n]) = join ((m :: p) ++ [n])) as -> by done. destruct (Z.eqb_spec (strcmp (join (m :: p)) (cs ".")) 0) as [Es|_]; [|by apply joined_join].
  apply strcmp_eq in Es. exfalso. apply Forall_cons in Hp as [(_&_&_&Hd&_) Hp]. destruct p as [|k p]; [done|]. apply (f_equal length) in Es. rewrite join_cons in Es by done.
  rewrite !length_app in Es. simpl in Es. destruct m as [|x m]; simpl in *; [|lia]. apply Forall_cons in Hp as [(Hk&_) _]. destruct p; simpl in Es; [by destruct k|].
  destruct k; [done|]. simpl in Es. lia.
Qed.

(** ** The policy *)

Section Policy.
Context `{Heap} {F : Faults}.
Context (defer : bool) (defer_cap : Z) (skips : list DeleteSkipEntry) (protect_rules : option FilterRuleList).
Implicit Types (kd kf : option (list (list byte))) (rel : list byte) (n : name) (p : list name) (d : bool).

Definition spared kd kf (at_root : bool) rel n d : bool :=
  path_under_skip_prefix (child_path rel n) at_root skips || (d && list_contains_str kd n) || (negb d && list_contains_str kf n) ||
  match is_protected protect_rules (child_path rel n) n d with Ret b => b | _ => false end.
(** The entry stands in the way of one of the other type. *)
Definition conflict kd kf n d : bool := list_contains_str (if d then kf else kd) n.

(** [p] below the directory [rel] is extraneous: nothing on the way to it is
    spared; names are kept only in the directory of the plan itself. *)
Fixpoint doomed kd kf (at_root : bool) rel p d : Prop :=
  match p with
  | [] => False
  | [n] => spared kd kf at_root rel n d = false
  | n :: q => spared kd kf at_root rel n true = false /\ doomed None None false (child_path rel n) q d
  end.
(** It waits for the commit: nothing forces its removal. *)
Definition waits kd kf (force_now : bool) p d : Prop :=
  force_now = false /\ match p with [] => False | n :: q => conflict kd kf n (negb (bool_decide (q = [])) || d) = false end.
(** It may be removed at once. *)
Definition at_once kd kf (force_now : bool) p d : Prop :=
  defer = false \/ force_now = true \/ match p with [] => False | n :: q => conflict kd kf n (negb (bool_decide (q = [])) || d) = true end.

Lemma doomed_cons kd kf at_root rel n q d :
  q <> [] -> doomed kd kf at_root rel (n :: q) d <-> spared kd kf at_root rel n true = false /\ doomed None None false (child_path rel n) q d.
Proof. by destruct q. Qed.
Lemma doomed_ne kd kf at_root rel p d : doomed kd kf at_root rel p d -> p <> [].
Proof. by destruct p. Qed.

(** The classified entries *)
Definition fate_ok kd kf at_root rel (ef : DeleteDirEntry * fate) : Prop :=
  name_ok (e_name ef.1) /\
  match ef.2 with
  | Doomed force => spared kd kf at_root rel (e_name ef.1) (e_is_dir ef.1) = false /\ force = conflict kd kf (e_name ef.1) (e_is_dir ef.1)
  | _ => True
  end.

Lemma fates_ok kd kf at_root rel l : forall ok survives, Forall (fun e => name_ok (e_name e)) l ->
  exists fl ok' survives', fates skips protect_rules kd kf at_root rel l ok survives = Ret (fl, ok', survives') /\ fl.*1 = l /\ Forall (fate_ok kd kf at_root rel) fl.
Proof.
  induction l as [|e l IH]; intros ok survives; cbn [fates]; [intros _; by eexists [], _, _|]. intros [He Hl]%Forall_cons.
  pose proof (plan_child_spec rel (e_name e)) as Hc. destruct (plan_child rel (e_name e)) as [c| |]; [|destruct (IH false survives Hl) as (fl&o&v&->&Hfl&Hok)|done].
  2:{ simpl. eexists _, _, _. split_and!; [done|by rewrite fmap_cons, Hfl|by constructor]. }
  subst c. assert (exists b, is_protected protect_rules (child_path rel (e_name e)) (e_name e) (e_is_dir e) = Ret b) as [b Hb].
  { unfold is_protected. destruct protect_rules as [r|]; [|by eexists]. destruct (filter_rules_total (Some r) (child_path rel (e_name e)) (e_name e) (e_is_dir e) FILTER_SIDE_RECEIVER) as [a ->]. by eexists. }
  assert (Hf : fate_of skips protect_rules kd kf at_root (child_path rel (e_name e)) e =
    Ret (if spared kd kf at_root rel (e_name e) (e_is_dir e) then Spared else Doomed (conflict kd kf (e_name e) (e_is_dir e)))).
  { unfold fate_of, spared. rewrite Hb. destruct (path_under_skip_prefix _ _ _); [done|]. simpl. by destruct (_ || b). }
  rewrite Hf. simpl mbind. edestruct (IH ok) as (fl&o&v&->&Hfl&Hok); [done|]. simpl. eexists _, _, _. split_and!; [done|by rewrite fmap_cons, Hfl|].
  constructor; [|done]. split; [done|]. simpl. by destruct (spared _ _ _ _ _ _) eqn:Es.
Qed.

Lemma split_fates_spec fl :
  Sorted before fl.*1 ->
  exists ds fs, split_fates fl = (ds, fs) /\ fl = ds ++ fs /\
    Forall (fun ef => e_is_dir ef.1 = true) ds /\ Forall (fun ef => e_is_dir ef.1 = false) fs.
Proof.
  induction fl as [|[e c] fl IH]; intros Hs; [by exists [], []|]. cbn [split_fates fst]. destruct (e_is_dir e) eqn:Ed.
  - destruct IH as (ds&fs&->&->&Hd&Hf); [by inversion Hs|]. exists ((e, c) :: ds), fs. split_and!; try done. by constructor.
  - exists [], ((e, c) :: fl). split_and!; try done. pose proof (sorted_files _ Hs e fl.*1 eq_refl Ed) as Hf. apply Forall_fmap in Hf. exact Hf.
Qed.

(** ** Progress *)

(** The session is consistent; [l] are the paths noted for the commit. *)
Definition state_ok (w : plan_state) (l : list (list byte)) : Prop :=
  budget_ok (p_budget w) /\ p_deleted w = deleted (p_budget w) /\ al_repr (p_deferred w) l /\ zlen l <= defer_cap.

Definition progress kd kf at_root rel force_now (es0 : entries) (w0 : plan_state) (l0 : list (list byte)) k (es : entries) (w : plan_state) : Prop :=
  exists g dl, effect es0 g es /\ Forall (fun r => doomed kd kf at_root rel r.1 r.2 /\ at_once kd kf force_now r.1 r.2) g /\
    wf_node (Dir es) /\ (depth (Dir es) <= k)%nat /\ charged (p_budget w0) g (p_budget w) /\ state_ok w (l0 ++ dl) /\
    Forall (fun s => exists p d, s = path_of rel p /\ Forall name_ok p /\ doomed kd kf at_root rel p d /\ waits kd kf force_now p d) dl.

Context (Hcap : defer_cap <= DELETE_PLAN_SERVER_LIMIT).

Lemma progress_state kd kf at_root rel force_now es0 w0 l0 k es w :
  progress kd kf at_root rel force_now es0 w0 l0 k es w -> exists l, state_ok w l.
Proof. intros (g&dl&_&_&_&_&_&?&_). by eexists. Qed.

Lemma progress_skipped kd kf at_root rel force_now es0 w0 l0 k es w :
  progress kd kf at_root rel force_now es0 w0 l0 k es w -> progress kd kf at_root rel force_now es0 w0 l0 k es (plan_skipped w).
Proof. intros (g&dl&?&?&?&?&?&?&?). exists g, dl. done. Qed.

Lemma progress_removed kd kf at_root rel force_now es0 w0 l0 k es w p d es' s :
  progress kd kf at_root rel force_now es0 w0 l0 k es w -> effect es [(p, d)] es' -> wf_node (Dir es') -> (depth (Dir es') <= k)%nat ->
  budget_available w = true -> doomed kd kf at_root rel p d -> at_once kd kf force_now p d ->
  progress kd kf at_root rel force_now es0 w0 l0 k es' (plan_deleted w s).
Proof.
  intros (g&dl&He&Hg&_&_&Hc&(Hb&Hd&Ha&Hz)&Hdl) He' Hw Hk Hav Hdoom Hnow. exists (g ++ [(p, d)]), dl.
  assert (Hc1 : charged (p_budget w) [(p, d)] (note_deleted (p_budget w))).
  { apply charged_one; [done|]. unfold budget_available in Hav. rewrite Z.geb_leb. apply Z.leb_gt. by apply Z.ltb_lt in Hav. }
  split_and!; [by eapply effect_trans|apply Forall_app_2; [done|by apply Forall_singleton]|done|done|by eapply spent_trans| |done].
  destruct Hc1 as (_&Hd1&Hb1). split_and!; [done| |done|done]. simpl in *. unfold budget_ok in Hb1. change (zlen [(p, d)]) with 1 in Hd1. rewrite Hd. done.
Qed.

Lemma progress_deferred kd kf at_root rel force_now es0 w0 l0 k es w p d :
  progress kd kf at_root rel force_now es0 w0 l0 k es w -> doomed kd kf at_root rel p d -> Forall name_ok p -> waits kd kf force_now p d ->
  match defer_add defer_cap w (path_of rel p) with Ret w' => progress kd kf at_root rel force_now es0 w0 l0 k es w' | Fail => True | Stuck => False end.
Proof.
  intros Hp Hdoom Hnames Hwaits. pose proof Hp as (g&dl&He&Hg&Hw&Hk&Hc&(Hb&Hd&Ha&Hz)&Hdl). unfold defer_add. destruct (Z.geb_spec (al_size (p_deferred w)) defer_cap) as [_|Hlt].
  { by apply progress_skipped. }
  pose proof Ha as [_ _ [Hs _] _]. unfold str_dup. simpl. destruct (malloc_ok _); [|done]. simpl. unfold DELETE_PLAN_SERVER_LIMIT in Hcap.
  pose proof (array_list_add_any _ _ (path_of rel p) Ha ltac:(lia)) as Hadd. destruct (array_list_add _ _) as [a'| |]; [|done..]. simpl.
  destruct Hadd as [Hadd _]. exists g, (dl ++ [path_of rel p]). rewrite app_assoc. split_and!; [done..| |].
  - split_and!; [done|done|done|]. rewrite zlen_app. change (zlen [path_of rel p]) with 1. lia.
  - apply Forall_app_2; [done|]. apply Forall_singleton. by exists p, d.
Qed.

(** ** One directory *)

Lemma path_of_cons rel n q : path_of rel (n :: q) = path_of (child_path rel n) q.
Proof. done. Qed.

Lemma progress_sub kd kf at_root rel force_now es0 w0 l0 k es w l n ces ces' w' :
  name_ok n -> find n es = Some (Dir ces) -> spared kd kf at_root rel n true = false ->
  (exists g dl, effect es0 g es /\ Forall (fun r => doomed kd kf at_root rel r.1 r.2 /\ at_once kd kf force_now r.1 r.2) g /\
    wf_node (Dir es) /\ (depth (Dir es) <= S k)%nat /\ charged (p_budget w0) g (p_budget w) /\ l = l0 ++ dl /\
    Forall (fun s => exists p d, s = path_of rel p /\ Forall name_ok p /\ doomed kd kf at_root rel p d /\ waits kd kf force_now p d) dl) ->
  progress None None false (child_path rel n) (conflict kd kf n true || force_now) ces w l k ces' w' ->
  progress kd kf at_root rel force_now es0 w0 l0 (S k) (set_entry n (Dir ces') es) w'.
Proof.
  intros Hn Hf Hsp (g&dl&He&Hg&Hw&Hk&Hc&->&Hdl) (g1&dl1&He1&Hg1&Hw1&Hk1&Hc1&Hs1&Hdl1). exists (g ++ under n g1), (dl ++ dl1). split_and!.
  - eapply effect_trans; [exact He|by eapply effect_sub].
  - apply Forall_app_2; [done|]. unfold under. apply Forall_fmap. eapply Forall_impl; [exact Hg1|]. intros [q d] [Hq Hnow]. simpl in *.
    pose proof (doomed_ne _ _ _ _ _ _ Hq) as Hne. split; [by apply doomed_cons|]. destruct Hnow as [?|[[Hf1|Hf1]%orb_true_iff|Hx]]; [by left| |by right; left|].
    + right. right. by rewrite bool_decide_eq_false_2.
    + destruct q as [|m q]; [done|]. unfold conflict, list_contains_str in Hx. by destruct (_ || d).
  - by apply wf_set.
  - by apply depth_set.
  - eapply spent_trans; [exact Hc|]. destruct Hc1 as (?&Hz&?). split_and!; [done| |done]. unfold under, zlen in *. by rewrite length_fmap.
  - by rewrite app_assoc.
  - apply Forall_app_2; [done|]. eapply Forall_impl; [exact Hdl1|]. intros s (p&d&->&Hnm&Hp&[Hff Hwt]). exists (n :: p), d.
    pose proof (doomed_ne _ _ _ _ _ _ Hp) as Hne. apply orb_false_iff in Hff as [Hc0 ->]. split_and!; [done|by constructor|by apply doomed_cons|split; [done|]].
    by rewrite bool_decide_eq_false_2.
Qed.

(** What a walk promises its caller. *)
Definition children_ok k kd kf at_root (rec : list byte -> list name -> bool -> plan_state -> entries -> outcome (bool * bool * plan_state * entries)) : Prop :=
  forall rel here force_now w es l, wf_node (Dir es) -> (depth (Dir es) <= k)%nat -> state_ok w l ->
    exists ok survives w' es', rec rel here force_now w es = Ret (ok, survives, w', es') /\ progress kd kf at_root rel force_now es w l k es' w'.

Section Dir.
Context (k : nat) rec (Hrec : children_ok k None None false rec) (here : list name).
Context (kd kf : option (list (list byte))) (at_root : bool) (rel : list byte) (force_now : bool) (es0 : entries) (w0 : plan_state) (l0 : list (list byte)).
Local Abbreviation inv := (fun f => progress kd kf at_root rel force_now es0 w0 l0 (S k) (pf_dir f) (pf_state f)).

Lemma extra_dir_ok n w es : name_ok n -> spared kd kf at_root rel n true = false -> progress kd kf at_root rel force_now es0 w0 l0 (S k) es w ->
  exists ok removed w' es', process_extra_dir defer defer_cap rec here n (child_path rel n) (conflict kd kf n true || force_now) w es = Ret (ok, removed, w', es') /\
    progress kd kf at_root rel force_now es0 w0 l0 (S k) es' w'.
Proof.
  intros Hn Hsp Hp. unfold process_extra_dir. destruct (openat_dir here n es) as [e|ces] eqn:Eo; [by eexists _, _, _, _|]. apply openat_inv in Eo.
  pose proof Hp as (g&dl&He&Hg&Hw&Hk&Hc&Hs&Hdl). destruct (wf_find _ _ _ Hw Eo) as [_ Hwc].
  edestruct (Hrec (child_path rel n) (here ++ [n]) (conflict kd kf n true || force_now) w ces (l0 ++ dl)) as (ok&sv&w1&ces'&->&Hp1); [done|by eapply depth_wf|done|].
  simpl. assert (Hp2 : progress kd kf at_root rel force_now es0 w0 l0 (S k) (set_entry n (Dir ces') es) w1).
  { eapply progress_sub; [done..| |exact Hp1]. exists g, dl. done. }
  destruct ok; simpl; [|by eexists _, _, _, _]. destruct sv; [by eexists _, _, _, _|]. destruct (defer && _) eqn:Ed.
  { apply andb_true_iff in Ed as [_ [Ec Ef]%negb_true_iff%orb_false_iff].
    pose proof (progress_deferred _ _ _ _ _ _ _ _ _ _ _ [n] true Hp2 Hsp (proj2 (Forall_singleton _ _) Hn) (conj Ef Ec)) as Ha. change (path_of rel [n]) with (child_path rel n) in Ha.
    destruct (defer_add _ _ _) as [w2| |]; [by eexists _, _, _, _..|done]. }
  destruct (budget_available w1) eqn:Eb; simpl; [|eexists _, _, _, _; split; [done|by apply progress_skipped]].
  destruct (unlinkat_dir here n _) as [e|es2] eqn:Eu; [by case_bool_decide; eexists _, _, _, _|]. eexists _, _, _, _. split; [done|].
  apply unlink_dir_effect in Eu as (He2&->&_). pose proof Hp2 as (_&_&_&_&Hw2&Hk2&_).
  eapply progress_removed; [exact Hp2|exact He2|by apply wf_del|by apply depth_del|done|done|]. unfold at_once. simpl.
  apply andb_false_iff in Ed as [->|Ed]; [by left|]. apply negb_false_iff, orb_true_iff in Ed as [->| ->]; [by right; right|by right; left].
Qed.

Lemma extra_file_ok n w es : name_ok n -> spared kd kf at_root rel n false = false -> progress kd kf at_root rel force_now es0 w0 l0 (S k) es w ->
  exists ok w' es', process_extra_file defer defer_cap here n (child_path rel n) (conflict kd kf n false || force_now) w es = Ret (ok, w', es') /\
    progress kd kf at_root rel force_now es0 w0 l0 (S k) es' w'.
Proof.
  intros Hn Hsp Hp. unfold process_extra_file. destruct (defer && _) eqn:Ed.
  { apply andb_true_iff in Ed as [_ [Ec Ef]%negb_true_iff%orb_false_iff].
    pose proof (progress_deferred _ _ _ _ _ _ _ _ _ _ _ [n] false Hp Hsp (proj2 (Forall_singleton _ _) Hn) (conj Ef Ec)) as Ha. change (path_of rel [n]) with (child_path rel n) in Ha.
    destruct (defer_add _ _ _) as [w2| |]; [by eexists _, _, _..|done]. }
  destruct (budget_available w) eqn:Eb; simpl; [|eexists _, _, _; split; [done|by apply progress_skipped]].
  destruct (unlinkat_file here n _) as [e|es2] eqn:Eu; [by eexists _, _, _|]. eexists _, _, _. split; [done|].
  apply unlink_file_effect in Eu as (He2&->&_). pose proof Hp as (_&_&_&_&Hw2&Hk2&_).
  eapply progress_removed; [exact Hp|exact He2|by apply wf_del|by apply depth_del|done|done|]. unfold at_once. simpl.
  apply andb_false_iff in Ed as [->|Ed]; [by left|]. apply negb_false_iff, orb_true_iff in Ed as [->| ->]; [by right; right|by right; left].
Qed.

Lemma plan_pass1_ok ef f : fate_ok kd kf at_root rel ef -> e_is_dir ef.1 = true -> inv f ->
  exists f', plan_pass1 defer defer_cap rec here rel force_now ef f = Ret f' /\ inv f'.
Proof.
  destruct ef as [[n d] c]. simpl. intros [Hn Hc] -> Hp. unfold plan_pass1. simpl in *. destruct c as [| |force]; [by exists f..|]. destruct Hc as [Hsp ->].
  pose proof (plan_child_spec rel n) as Hc. destruct (plan_child rel n) as [c| |]; [|by exists (pf_failed f)|done]. subst c.
  destruct (extra_dir_ok n _ _ Hn Hsp Hp) as (ok&rm&w'&es'&->&Hp'). simpl. by eexists.
Qed.
Lemma plan_pass2_ok ef f : fate_ok kd kf at_root rel ef -> e_is_dir ef.1 = false -> inv f ->
  exists f', plan_pass2 defer defer_cap here rel force_now ef f = Ret f' /\ inv f'.
Proof.
  destruct ef as [[n d] c]. simpl. intros [Hn Hc] -> Hp. unfold plan_pass2. simpl in *. destruct c as [| |force]; [by exists f..|]. destruct Hc as [Hsp ->].
  pose proof (plan_child_spec rel n) as Hc. destruct (plan_child rel n) as [c| |]; [|by exists (pf_failed f)|done]. subst c.
  destruct (extra_file_ok n _ _ Hn Hsp Hp) as (ok&w'&es'&->&Hp'). simpl. by eexists.
Qed.
End Dir.

Lemma collect_ok here es : wf_node (Dir es) ->
  match delete_dir_entries_collect here es with Ret (l, _) => Forall (fun e => name_ok (e_name e)) l | Fail => True | Stuck => False end.
Proof.
  intros Hw. apply collect_names. intros n d Hin _ _. apply list_elem_of_fmap in Hin as ([m nd]&->&Hin). inversion Hw as [|? _ Ha]; subst. by apply (Ha m nd).
Qed.

Lemma children_safe k : forall kd kf at_root, children_ok k kd kf at_root (process_children defer defer_cap skips protect_rules k kd kf at_root).
Proof.
  induction k as [|k IH]; intros kd kf at_root rel here force_now w es l Hw Hd Hs; [simpl in Hd; lia|]. cbn [process_children].
  assert (Hp0 : progress kd kf at_root rel force_now es w l (S k) es w).
  { exists [], []. rewrite app_nil_r. split_and!; [apply effect_refl|constructor|done|done|apply spent_refl; by destruct Hs|done|constructor]. }
  pose proof (collect_ok here es Hw) as Hcol. destruct (delete_dir_entries_collect here es) as [[el cok]| |]; [|by eexists _, _, _, _|done].
  destruct (malloc_ok _); simpl negb; [|by eexists _, _, _, _].
  destruct (fates_ok kd kf at_root rel (sort_entries el) cok false) as (fl&ok&sv&->&Hfl&Hfo); [by rewrite sort_entries_perm|]. cbn [mbind outcome_bind].
  destruct (split_fates_spec fl) as (ds&fs&->&->&Hds&Hfs); [rewrite Hfl; apply sort_entries_sorted|]. apply Forall_app in Hfo as [Hi1 Hi2].
  rewrite Forall_forall in Hi1, Hi2, Hds, Hfs.
  destruct (foldM_inv (fun f => progress kd kf at_root rel force_now es w l (S k) (pf_dir f) (pf_state f))
    (plan_pass1 defer defer_cap (process_children defer defer_cap skips protect_rules k None None false) here rel force_now) ds (MkPF ok sv w es)) as (f1&->&Hp1);
    [intros; eapply plan_pass1_ok; eauto|done|]. cbn [mbind outcome_bind].
  destruct (foldM_inv (fun f => progress kd kf at_root rel force_now es w l (S k) (pf_dir f) (pf_state f)) (plan_pass2 defer defer_cap here rel force_now) fs f1) as (f2&->&Hp2);
    [intros; eapply plan_pass2_ok; eauto|done|]. cbn [mbind outcome_bind]. by eexists _, _, _, _.
Qed.
End Policy.
