(* ===== verification/DeletePlanRun.v ===== *)
(** A whole deletion session: the frames that arrive, the plans they carry and
    the commit, against the file system of the secure primitives. *)

From stdpp Require Import gmap strings.
From S2P Require Import Prelude Alloc CStr Paths ArrayList PathIndex FilterParse FilterRules Transport Session Wp Charset Chunk Names ConfigWire DeleteTree DeleteWalk DeleteSafe DeleteManifest SecureFs SecureSafe DeleteCommit DeleteCommitSafe DeletePlan DeletePlanSafe.

#[local] Open Scope string_scope.
#[local] Open Scope list_scope.
#[local] Open Scope Z_scope.

(** ** Components of child paths *)

Definition comps (s : list byte) : list name := no_dot (tokens s).

Lemma tokens_joined a b : tokens (joined a b) = tokens a ++ tokens b.
Proof.
  unfold joined. case_bool_decide as Ha; [by subst|]. case_bool_decide as Hb; [subst; by rewrite app_nil_r|]. simpl. rewrite tokens_app. f_equal.
  - destruct (char_is a _ slash) eqn:Ec; [|done]. apply bool_decide_eq_true in Ec. destruct (exists_last Ha) as (x&c&->).
    rewrite length_app in *. simpl in *. replace (length x + 1 - 1)%nat with (length x) in * by lia. rewrite lookup_app_r, Nat.sub_diag in Ec by done. injection Ec as ->.
    by rewrite take_app_length, tokens_trailing.
  - destruct (char_is b 0 slash) eqn:Ec; [|done]. apply bool_decide_eq_true in Ec. destruct b as [|c b]; [done|]. injection Ec as ->. simpl. by rewrite tokens_leading.
Qed.
Lemma comps_name n : name_ok n -> comps n = [n].
Proof. intros (Hn&Hs&_&Hd&_). unfold comps. rewrite tokens_single by done. unfold no_dot. by rewrite filter_cons_True. Qed.
Lemma comps_child rel n : name_ok n -> comps (child_path rel n) = comps rel ++ [n].
Proof.
  intros Hn. unfold child_path. destruct (Z.eqb_spec (strcmp rel (cs ".")) 0) as [->%strcmp_eq|_]; [by rewrite comps_name|].
  unfold comps. rewrite tokens_joined. unfold no_dot. rewrite filter_app. f_equal. by apply comps_name.
Qed.
Lemma comps_path rel p : Forall name_ok p -> comps (path_of rel p) = comps rel ++ p.
Proof.
  revert rel. induction p as [|n p IH]; intros rel Hp; [by rewrite app_nil_r|]. apply Forall_cons in Hp as [Hn Hp].
  rewrite path_of_cons, IH, comps_child by done. by rewrite <- app_assoc.
Qed.
Lemma comps_dotdot s : cs ".." ∈ tokens s <-> cs ".." ∈ comps s.
Proof. unfold comps, no_dot. rewrite list_elem_of_filter. naive_solver. Qed.
Lemma comps_ne s : comps s <> [] -> tokens s <> [].
Proof. unfold comps. by destruct (tokens s). Qed.

(** ** Dropping entries *)

(** [fs'] is [fs] less some entries, of the type and at the place [P] tells. *)
Definition drops (P : list name -> bool -> Prop) (fs fs' : entries) : Prop :=
  wf_node (Dir fs') /\ forall q, kind_at fs' q = kind_at fs q \/ (kind_at fs' q = None /\ exists k, kind_at fs q = Some k /\ P q (bool_decide (k = KDir))).

Lemma drops_refl P fs : wf_node (Dir fs) -> drops P fs fs.
Proof. intros Hw. split; [done|]. by left. Qed.
Lemma drops_trans P fs1 fs2 fs3 : drops P fs1 fs2 -> drops P fs2 fs3 -> drops P fs1 fs3.
Proof.
  intros [_ H1] [Hw H2]. split; [done|]. intros q. destruct (H2 q) as [E2|[E2 (k&Ek&Hk)]]; [destruct (H1 q) as [?|[? ?]]; [left|right; split]; congruence|].
  right. split; [done|]. destruct (H1 q) as [E1|[E1 _]]; [|congruence]. exists k. split; [congruence|done].
Qed.
Lemma drops_mono (P Q : list name -> bool -> Prop) fs fs' : drops P fs fs' -> (forall q d, P q d -> Q q d) -> drops Q fs fs'.
Proof. intros [Hw Hk] HPQ. split; [done|]. intros q. destruct (Hk q) as [?|[? (k&?&?)]]; [by left|right; split; [done|]; eauto]. Qed.
Lemma removes_drops P fs fs' : removes P fs fs' -> drops (fun q _ => P q) fs fs'.
Proof. intros [Hw Hk]. split; [done|]. intros q. destruct (Hk q) as [?|[Hn Hp]]; [by left|]. destruct (kind_at fs q) as [k|]; [right; split; eauto|by left]. Qed.

Lemma drops_effect P fs d es g es' :
  wf_node (Dir fs) -> dir_at fs d = Some es -> effect es g es' -> wf_node (Dir es') -> Forall (fun r => P (d ++ r.1) r.2) g -> drops P fs (put_at fs d es').
Proof.
  intros Hw Hd [Hk Ht _] Hw' Hg. split; [by eapply wf_put_at|]. intros q. destruct (decide (d `prefix_of` q)) as [[r ->]|Hn].
  - rewrite (kind_put_below _ _ _ _ _ Hd), (kind_at_app _ _ _ _ Hd), Hk. case_decide as Hr; [right|by left]. split; [done|].
    apply gone_elem in Hr as (x&Hx). destruct (Ht _ _ Hx) as (k&Ek&Hxk). exists k. split; [done|]. rewrite Forall_forall in Hg. specialize (Hg _ Hx). simpl in Hg.
    replace (bool_decide (k = KDir)) with x; [done|]. destruct x; [by rewrite bool_decide_eq_true_2 by (by apply Hxk)|]. rewrite bool_decide_eq_false_2; [done|]. intros Ek'. by apply Hxk in Ek'.
  - left. by eapply kind_put_other.
Qed.

(** ** The session *)

(** [l] are the paths noted for the commit. *)
Definition session_ok (s : DeletePlanSession) (l : list (list byte)) : Prop :=
  state_ok (ps_defer_cap s) (ps_state s) l /\ ps_defer_cap s <= DELETE_PLAN_SERVER_LIMIT /\ max_delete (p_budget (ps_state s)) <= DELETE_PLAN_SERVER_LIMIT.
(** What a session keeps *)
Definition same_orders (s s' : DeletePlanSession) : Prop :=
  ps_defer s' = ps_defer s /\ ps_dry_run s' = ps_dry_run s /\ ps_protected s' = ps_protected s /\ ps_size_skipped s' = ps_size_skipped s /\ ps_missing s' = ps_missing s /\
  max_delete (p_budget (ps_state s')) = max_delete (p_budget (ps_state s)) /\ ps_config_seen s' = ps_config_seen s.

Lemma same_orders_refl s : same_orders s s.
Proof. done. Qed.
Lemma same_orders_trans s1 s2 s3 : same_orders s1 s2 -> same_orders s2 s3 -> same_orders s1 s3.
Proof. unfold same_orders. intros (?&?&?&?&?&?&?) (?&?&?&?&?&?&?). split_and!; congruence. Qed.
Lemma charged_orders s w g : charged (p_budget (ps_state s)) g (p_budget w) -> same_orders s (set_plan s w).
Proof. by intros (?&_). Qed.
Lemma session_plan s w l g : session_ok s l -> charged (p_budget (ps_state s)) g (p_budget w) -> forall l', state_ok (ps_defer_cap s) w l' -> session_ok (set_plan s w) l'.
Proof. intros (_&?&?) (Hm&_&_) l' Hw. split_and!; [done|done|]. simpl. lia. Qed.
Lemma session_skipped s l : session_ok s l -> session_ok (set_plan s (plan_skipped (ps_state s))) l.
Proof. by intros ((?&?&?&?)&?&?). Qed.

Lemma charged_deleted s l r p : session_ok s l -> budget_available (ps_state s) = true ->
  session_ok (set_plan s (plan_deleted (ps_state s) p)) l /\ charged (p_budget (ps_state s)) [r] (p_budget (plan_deleted (ps_state s) p)).
Proof.
  intros ((Hb&Hd&Ha&Hz)&Hcap&Hmax) Hav. assert (Hc : charged (p_budget (ps_state s)) [r] (note_deleted (p_budget (ps_state s)))).
  { apply charged_one; [done|]. unfold budget_available in Hav. rewrite Z.geb_leb. apply Z.leb_gt. by apply Z.ltb_lt in Hav. }
  split; [|done]. destruct Hc as (_&Hd1&Hb1). split_and!; [|done|done]. split_and!; [done| |done|done]. simpl in *. by rewrite Hd.
Qed.

Section Run.
Context `{HH : Heap} `{XXHash64} {F : Faults} {E : SecureEnv} {W : WireCharset} (stale : errno) (config : Config).
Context (Hheap : heap_serves (2 ^ 63)).
Context (R : list name) (root rr : list byte)
  (Hfd : root_fd = Some R) (Hroot : root_path = Some root) (Hlinks : keep_dirlinks = false) (Hin : path_is_within_root root rr = true)
  (Hrr : get_str config "receive_root_directory" = Some rr)
  (Hbasis : get_int config "basis_count" = zlen (get_basis config "basis_dirs")).
Local Abbreviation base := (base R root rr).
Local Abbreviation rules := (get_rules config "protect_rules").

Definition plan_dir_ok (dir : list byte) : Prop := strcmp dir (cs ".") = 0 \/ valid_rel_path dir = true.

Lemma valid_rel_tokens rel : valid_rel_path rel = true -> tokens rel <> [] /\ cs ".." ∉ tokens rel.
Proof.
  unfold valid_rel_path. intros [[Ha Hs]%andb_true_iff Ht]%andb_true_iff. rewrite negb_true_iff in *. split; [|by apply traversal_free].
  apply entry_tokens. by rewrite Ha, Hs.
Qed.

Lemma plan_place dir fs place : plan_dir_ok dir -> open_plan_dir stale config dir fs = inr place -> place = base ++ comps dir.
Proof.
  intros Hdir. unfold open_plan_dir. rewrite Hrr, Hfd, Hroot. destruct (Z.eqb_spec (strcmp dir (cs ".")) 0) as [Hd|Hd].
  - destruct (str_dup (Some rr)) as [full| |] eqn:Ef; [|done..]. assert (full = rr) as -> by (revert Ef; unfold str_dup; simpl; destruct (malloc_ok _); [|done]; by intros [= <-]).
    destruct (authorized_destination (Some rr) fs) as [|d] eqn:Ea; [done|]. intros [= <-].
    apply (authorized_place R root Hfd Hroot) in Ea as [_ ->]. apply strcmp_eq in Hd as ->. by rewrite app_nil_r.
  - destruct (path_cat (Some rr) (Some dir)) as [full| |] eqn:Ep; [|done..]. destruct (authorized_destination (Some full) fs) as [|d] eqn:Ea; [done|]. intros [= <-].
    apply (authorized_place R root Hfd Hroot) in Ea as [Hw ->]. destruct Hdir as [|[Hne _]%valid_rel_tokens]; [done|].
    destruct (joined_tokens root rr Hin _ _ Ep Hw Hne) as [-> _]. unfold DeleteCommitSafe.base, comps, no_dot. by rewrite filter_app, <- app_assoc.
Qed.

Definition skips_of (s : DeletePlanSession) (skips : list DeleteSkipEntry) : Prop := build_plan_skips config s = Ret skips.
Lemma skips_orders s s' skips : same_orders s s' -> skips_of s skips <-> skips_of s' skips.
Proof. intros (_&_&E1&E2&_). unfold skips_of, build_plan_skips. by rewrite E1, E2. Qed.

(** [process_children] on the file system *)
Lemma process_at_safe s l skips kd kf at_root rel place force_now fs : session_ok s l -> wf_node (Dir fs) ->
  exists ok sv w fs' g dl, process_at config s skips kd kf at_root rel place force_now fs = Ret (ok, sv, w, fs') /\
    drops (fun q d => exists p, q = place ++ p /\ doomed skips rules kd kf at_root rel p d /\ at_once (ps_defer s) kd kf force_now p d) fs fs' /\
    charged (p_budget (ps_state s)) g (p_budget w) /\ session_ok (set_plan s w) (l ++ dl) /\
    Forall (fun t => exists p d, t = path_of rel p /\ Forall name_ok p /\ doomed skips rules kd kf at_root rel p d /\ waits kd kf force_now p d) dl.
Proof.
  intros Hs Hw. unfold process_at. destruct (dir_at fs place) as [es|] eqn:Ed.
  2:{ eexists _, _, _, _, [], []. rewrite app_nil_r. destruct Hs as ((?&?)&?&?). split_and!; [done|by apply drops_refl|by apply spent_refl|by split_and!|constructor]. }
  destruct (@children_safe _ (shift F place) (ps_defer s) (ps_defer_cap s) skips rules (proj1 (proj2 Hs)) (depth (Dir es)) kd kf at_root rel [] force_now (ps_state s) es l)
    as (ok&sv&w&es'&->&g&dl&He&Hg&Hw'&_&Hc&Hso&Hdl); [by eapply wf_dir_at|done|by destruct Hs|].
  cbn [mbind outcome_bind]. eexists _, _, _, _, g, dl. split_and!; [done| |done| |done].
  - eapply drops_effect; [done..|]. eapply Forall_impl; [exact Hg|]. intros [p d] [? ?]. by exists p.
  - by eapply session_plan.
Qed.

(** What a plan removes at once, and what it leaves for the commit. *)
Definition plan_now (s : DeletePlanSession) (pl : plan) (q : list name) (d : bool) : Prop :=
  exists skips p, skips_of s skips /\ q = base ++ comps (pl_dir pl) ++ p /\
    doomed skips rules (Some (pl_dirs pl)) (Some (pl_files pl)) (strcmp (pl_dir pl) (cs ".") =? 0) (pl_dir pl) p d /\
    at_once (ps_defer s) (Some (pl_dirs pl)) (Some (pl_files pl)) false p d.
Definition plan_later (s : DeletePlanSession) (pl : plan) (p : list name) : Prop :=
  exists skips d, skips_of s skips /\
    doomed skips rules (Some (pl_dirs pl)) (Some (pl_files pl)) (strcmp (pl_dir pl) (cs ".") =? 0) (pl_dir pl) p d /\
    waits (Some (pl_dirs pl)) (Some (pl_files pl)) false p d.
(** A path noted for the commit by one of [plans]. *)
Definition noted (s : DeletePlanSession) (plans : list plan) (t : list byte) : Prop :=
  exists pl p, pl ∈ plans /\ pl_apply pl = true /\ plan_dir_ok (pl_dir pl) /\ t = path_of (pl_dir pl) p /\ Forall name_ok p /\ plan_later s pl p.

Lemma apply_plan_dir_safe s l pl fs : pl_apply pl = true -> plan_dir_ok (pl_dir pl) -> session_ok s l -> wf_node (Dir fs) ->
  exists ok s' fs' dl, apply_plan_dir stale config s (pl_dir pl) (pl_dirs pl) (pl_files pl) fs = Ret (ok, s', fs') /\
    drops (plan_now s pl) fs fs' /\ session_ok s' (l ++ dl) /\ same_orders s s' /\ Forall (noted s [pl]) dl.
Proof.
  intros Hap Hdir Hs Hw. unfold apply_plan_dir. destruct (open_plan_dir stale config (pl_dir pl) fs) as [e|place] eqn:Eo.
  { eexists _, _, _, []. rewrite app_nil_r. split_and!; [done|by apply drops_refl|done|done|constructor]. }
  apply plan_place in Eo as ->; [|done]. pose proof (skips_build_total config (cells (ps_protected s)) (cells (ps_size_skipped s)) false Hbasis) as Htot.
  unfold build_plan_skips in *. destruct (delete_skips_build config _ _ false) as [skips| |] eqn:Es; [| |done].
  2:{ eexists _, _, _, []. rewrite app_nil_r. split_and!; [done|by apply drops_refl|done|done|constructor]. }
  destruct (process_at_safe s l skips (Some (pl_dirs pl)) (Some (pl_files pl)) (strcmp (pl_dir pl) (cs ".") =? 0) (pl_dir pl) (base ++ comps (pl_dir pl)) false fs Hs Hw)
    as (ok&sv&w&fs'&g&dl&->&Hdr&Hc&Hs'&Hdl). cbn [mbind outcome_bind]. eexists _, _, _, dl. split_and!; [done| |done|by eapply charged_orders|].
  - eapply drops_mono; [exact Hdr|]. intros q d (p&->&Hd&Hn). exists skips, p. rewrite <- app_assoc. done.
  - eapply Forall_impl; [exact Hdl|]. intros t (p&d&->&Hnm&Hd&Hwt). exists pl, p. split_and!; [by left|done|done|done|done|]. by exists skips, d.
Qed.

(** The requests of --delete-missing-args *)
Definition missing_now (s : DeletePlanSession) (q : list name) : Prop :=
  get_bool config "delete_missing_args" = true /\ exists skips rel,
    delete_skips_build config [] [] true = Ret skips /\ rel ∈ cells (ps_missing s) /\ requested skips rel /\ below (base ++ comps rel) q.

Lemma apply_missing_safe s l fs : session_ok s l -> wf_node (Dir fs) ->
  exists ok s' fs', apply_missing stale config s fs = Ret (ok, s', fs') /\ drops (fun q _ => missing_now s q) fs fs' /\ session_ok s' l /\ same_orders s s'.
Proof.
  intros Hs Hw. unfold apply_missing. destruct (ps_missing_applied s); [eexists _, _, _; split_and!; [done|by apply drops_refl|done|done]|].
  destruct (get_bool config "delete_missing_args") eqn:Eon; cbn [negb orb].
  2:{ eexists _, _, _; split_and!; [done|by apply drops_refl|by destruct s|by destruct s]. }
  change (al_size (ps_missing (set_missing_applied s))) with (al_size (ps_missing s)). destruct (al_size _ =? 0); [eexists _, _, _; split_and!; [done|by apply drops_refl|by destruct s|by destruct s]|].
  set (w := ps_state (set_missing_applied s)). set (b := p_budget w). set (remaining := if budget_available w then _ else _).
  pose proof Hs as (((Hb&Hm)&Hd&Ha&Hz)&Hcap&Hmax). change (ps_state s) with w in *. fold b in Hb, Hm, Hd, Hmax.
  assert (Hrem : 0 <= remaining <= max_delete b - deleted b) by (subst remaining; unfold budget_available; fold b; destruct (Z.ltb_spec (deleted b) (max_delete b)); lia).
  unfold manifest_delete_missing_args_limited_observed. change (ps_missing (set_missing_applied s)) with (ps_missing s).
  destruct (missing_budgeted_safe stale Hheap R root rr Hfd Hroot Hlinks Hin config Hrr (missing_now s) fs remaining
    (MkManifest no_list no_list (ps_missing s) no_list) (MkCommit fs (MkBudget remaining 0 0 false) []) Hbasis) as (ok&c&->&Hrm&Hmx&Hdel&_).
  { split_and!; simpl; [by apply removes_refl|done|lia|lia|unfold SIZE_MAX in *; lia]. }
  { intros skips rel Hsk Hrel Hreq q Hq. split; [done|]. by exists skips, rel. }
  cbn [mbind outcome_bind]. eexists _, _, _. unfold SIZE_MAX, DELETE_PLAN_SERVER_LIMIT in *. split_and!; [done|by apply removes_drops| |done].
  split_and!; [|done|done]. simpl. split_and!; [| |done|done].
  - unfold budget_ok. simpl. unfold SIZE_MAX. rewrite u64_small by lia. lia.
  - simpl. fold b. rewrite Hd. done.
Qed.

(** One plan *)
Lemma apply_plan_safe s l pl fs : plan_dir_ok (pl_dir pl) -> session_ok s l -> wf_node (Dir fs) ->
  exists ok s' fs' dl, apply_plan stale config s pl fs = Ret (ok, s', fs') /\
    drops (fun q d => pl_apply pl = true /\ plan_now s pl q d \/ missing_now s q) fs fs' /\ session_ok s' (l ++ dl) /\ same_orders s s' /\
    Forall (noted s [pl]) dl /\ (ps_dry_run s = true -> fs' = fs).
Proof.
  intros Hdir Hs Hw. unfold apply_plan. destruct (ps_dry_run s || _) eqn:Eoff.
  { eexists _, _, _, []. rewrite app_nil_r. split_and!; [done|by apply drops_refl|done|done|constructor|done]. }
  apply orb_false_iff in Eoff as [Edry _].
  assert (exists ok s1 fs1, (if ps_defer s then Ret (true, s, fs) else apply_missing stale config s fs) = Ret (ok, s1, fs1) /\
    drops (fun q _ => missing_now s q) fs fs1 /\ session_ok s1 l /\ same_orders s s1) as (ok&s1&fs1&->&Hd1&Hs1&Ho1).
  { destruct (ps_defer s); [|by apply apply_missing_safe]. eexists _, _, _. split_and!; [done|by apply drops_refl|done|done]. }
  cbn [mbind outcome_bind]. destruct (ok && pl_apply pl) eqn:Ea.
  - apply andb_true_iff in Ea as [_ Eap]. destruct (apply_plan_dir_safe s1 l pl fs1 Eap Hdir Hs1 (proj1 Hd1)) as (ok2&s2&fs2&dl&->&Hd2&Hs2&Ho2&Hdl).
    eexists _, _, _, dl. split_and!; [done| |done|by eapply same_orders_trans| |by rewrite Edry].
    + eapply drops_trans; [eapply drops_mono; [exact Hd1|]; by right|]. eapply drops_mono; [exact Hd2|]. intros q d (skips&p&Hsk&?&?&Hao). left. split; [done|].
      exists skips, p. split_and!; [by apply (skips_orders _ _ _ Ho1)|done|done|]. by destruct Ho1 as (<-&_).
    + eapply Forall_impl; [exact Hdl|]. intros t (pl'&p&Hin'&?&?&?&?&skips&d&Hsk&?&?). exists pl', p. split_and!; [done..|]. exists skips, d. split_and!; [|done..]. by apply (skips_orders _ _ _ Ho1).
  - eexists _, _, _, []. rewrite app_nil_r. split_and!; [done| |done|done|constructor|by rewrite Edry]. eapply drops_mono; [exact Hd1|]. by right.
Qed.

(** ** The commit *)

Section Deferred.
Context (rel : list byte) (Hne : tokens rel <> []) (Hdd : cs ".." ∉ tokens rel).
Local Abbreviation gone := (fun (q : list name) (_ : bool) => below (base ++ comps rel) q).

Lemma deferred_dir_safe s l full fs fd leaf : path_cat (Some rr) (Some rel) = Ret full -> file_open_secure_parent full false fs = (fs, inr (fd, leaf)) ->
  session_ok s l -> wf_node (Dir fs) ->
  exists ok s' fs', deferred_dir config s rel fd leaf fs = Ret (ok, s', fs') /\ drops gone fs fs' /\ session_ok s' l /\ same_orders s s'.
Proof.
  intros Hf Ep Hs Hw. unfold deferred_dir. destruct (budget_available (ps_state s)); cbn [negb]; [|eexists _, _, _; split_and!; [done|by apply drops_refl|by apply session_skipped|done]].
  destruct (openat fs fd leaf) as [e|place] eqn:Eo; [eexists _, _, _; split_and!; [done|by apply drops_refl|done|done]|].
  destruct (mirror_parent R root rr Hfd Hroot Hlinks Hin _ _ _ _ _ _ Hf Hne Ep) as (_&_&Hm&_).
  rewrite (mirror_opened R root rr Hfd Hroot Hlinks Hin _ _ _ _ _ _ _ Hf Hne Hdd Ep Eo).
  pose proof (skips_build_total config (cells (ps_protected s)) (cells (ps_size_skipped s)) false Hbasis) as Htot. unfold build_plan_skips.
  destruct (delete_skips_build config _ _ false) as [skips| |]; [|eexists _, _, _; split_and!; [done|by apply drops_refl|done|done]|done].
  destruct (process_at_safe s l skips None None false rel (mirror R root rr rel) true fs Hs Hw) as (ok&sv&w&fs1&g&dl&->&Hdr&Hc&Hs1&Hdl).
  assert (dl = []) as -> by (destruct dl as [|t dl]; [done|]; apply Forall_cons in Hdl as [(p&d&_&_&_&Hx&_) _]; done). rewrite app_nil_r in Hs1.
  assert (Hd1 : drops gone fs fs1) by (eapply drops_mono; [exact Hdr|]; intros q d (p&->&_); by exists p).
  cbn [mbind outcome_bind]. pose proof (charged_orders s w g Hc) as Ho. destruct ok; cbn [negb]; [|by eexists _, _, _]. destruct sv; [by eexists _, _, _|].
  destruct (budget_available w) eqn:Eb; cbn [negb]; [|eexists _, _, _; split_and!; [done|done|by apply (session_skipped (set_plan s w))|done]].
  destruct (rmdirat fs1 fd leaf) as [e|fs2] eqn:Er; [by eexists _, _, _|]. apply rmdirat_removes in Er as (Hr&Hln&Hdl'); [|apply Hd1].
  assert (Hd2 : drops gone fs fs2).
  { eapply drops_trans; [exact Hd1|]. apply removes_drops. eapply removes_mono; [exact Hr|]. intros q. rewrite <- Hm; [done|done|]. by intros ->. }
  destruct (charged_deleted (set_plan s w) l ([], true) (reported_dir rel) Hs1 Eb) as [Hs2 Hc2]. eexists _, _, _. split_and!; [done|done|done|].
  eapply same_orders_trans; [exact Ho|]. by eapply (charged_orders (set_plan s w)).
Qed.

Lemma deferred_file_safe s l full fs fd leaf : path_cat (Some rr) (Some rel) = Ret full -> file_open_secure_parent full false fs = (fs, inr (fd, leaf)) ->
  session_ok s l -> wf_node (Dir fs) ->
  exists ok s' fs', deferred_file s rel fd leaf fs = Ret (ok, s', fs') /\ drops gone fs fs' /\ session_ok s' l /\ same_orders s s'.
Proof.
  intros Hf Ep Hs Hw. unfold deferred_file. destruct (budget_available (ps_state s)) eqn:Eb; cbn [negb]; [|eexists _, _, _; split_and!; [done|by apply drops_refl|by apply session_skipped|done]].
  destruct (mirror_parent R root rr Hfd Hroot Hlinks Hin _ _ _ _ _ _ Hf Hne Ep) as (_&_&Hm&_).
  destruct (unlinkat fs fd leaf) as [e|fs2] eqn:Er; [eexists _, _, _; split_and!; [done|by apply drops_refl|done|done]|].
  apply unlinkat_removes in Er as (Hr&Hln&Hdl'); [|done]. destruct (charged_deleted s l ([], false) rel Hs Eb) as [Hs2 Hc2]. eexists _, _, _. split_and!; [done| |done|by eapply charged_orders].
  apply removes_drops. eapply removes_mono; [exact Hr|]. intros q. rewrite <- Hm; [done|done|]. by intros ->.
Qed.

Lemma apply_deferred_safe s l fs : session_ok s l -> wf_node (Dir fs) ->
  exists ok s' fs', apply_deferred_path stale config s rel fs = Ret (ok, s', fs') /\ drops gone fs fs' /\ session_ok s' l /\ same_orders s s'.
Proof.
  intros Hs Hw. unfold apply_deferred_path. rewrite Hrr. assert (Hstay : forall b, exists ok s' fs', @Ret (bool * DeletePlanSession * entries) (b, s, fs) = Ret (ok, s', fs') /\ drops gone fs fs' /\ session_ok s' l /\ same_orders s s').
  { intros b. eexists _, _, _. split_and!; [done|by apply drops_refl|done|done]. }
  destruct (path_cat (Some rr) (Some rel)) as [full| |] eqn:Ef; [|apply Hstay|by apply path_cat_not_stuck in Ef].
  destruct (file_open_secure_parent full false fs) as [fs1 [e|[fd leaf]]] eqn:Ep.
  { destruct (secure_parent_spec R Hfd _ _ _ _ _ Ep) as (_&Hfs&_). rewrite (Hfs eq_refl). apply Hstay. }
  destruct (mirror_parent R root rr Hfd Hroot Hlinks Hin _ _ _ _ _ _ Ef Hne Ep) as (->&_).
  destruct (fstatat fs fd leaf) as [e|nd]; [apply Hstay|]. destruct (is_dir nd); [by eapply deferred_dir_safe|by eapply deferred_file_safe].
Qed.
End Deferred.

(** ** Frames

    The frames applied so far, each with the session as it was when its plan was
    applied: the shared sections come with one frame, which need not be the
    first. *)
Abbreviation frames := (list (DeletePlanSession * plan)).

(** Below a path one of the frames noted for the commit. *)
Definition later (log : frames) (q : list name) : Prop :=
  exists s pl p, (s, pl) ∈ log /\ pl_apply pl = true /\ plan_later s pl p /\ below (base ++ comps (pl_dir pl) ++ p) q.
(** A path one of the frames noted. *)
Definition noted_in (log : frames) (t : list byte) : Prop := exists s pl, (s, pl) ∈ log /\ noted s [pl] t.

Lemma noted_path log t : noted_in log t -> tokens t <> [] /\ cs ".." ∉ tokens t /\ (forall q, below (base ++ comps t) q -> later log q).
Proof.
  intros (s&pl0&Hlog&pl&p&->%list_elem_of_singleton&Hap&Hdir&->&Hnm&Hlater). assert (Hp : p <> []) by (destruct Hlater as (skips&d&_&Hd&_); by eapply doomed_ne). split_and!.
  - apply comps_ne. rewrite comps_path by done. by destruct (comps _).
  - rewrite comps_dotdot, comps_path by done. intros [Hx|Hx]%elem_of_app.
    + apply comps_dotdot in Hx. destruct Hdir as [Hd%strcmp_eq|[_ Hdd]%valid_rel_tokens]; [|done]. rewrite Hd in Hx. change (tokens (cs ".")) with [cs "."] in Hx. by apply list_elem_of_singleton in Hx.
    + rewrite Forall_forall in Hnm. by destruct (Hnm _ Hx) as (_&_&_&_&?).
  - intros q. rewrite comps_path by done. intros Hq. by exists s, pl0, p.
Qed.

Lemma deferred_loop_safe log l0 l : forall s fs, session_ok s l0 -> wf_node (Dir fs) -> Forall (noted_in log) l ->
  exists ok s' fs', deferred_loop stale config l s fs = Ret (ok, s', fs') /\ drops (fun q _ => later log q) fs fs' /\ session_ok s' l0 /\ same_orders s s'.
Proof.
  induction l as [|t l IH]; intros s fs Hs Hw Hl; cbn [deferred_loop]; [eexists _, _, _; split_and!; [done|by apply drops_refl|done|done]|].
  apply Forall_cons in Hl as [Ht Hl]. destruct (noted_path _ _ Ht) as (Hne&Hdd&Hlat).
  destruct (apply_deferred_safe t Hne Hdd s l0 fs Hs Hw) as (ok&s1&fs1&->&Hd1&Hs1&Ho1). cbn [mbind outcome_bind].
  assert (Hd1' : drops (fun q _ => later log q) fs fs1) by (eapply drops_mono; [exact Hd1|]; intros q d Hq; by apply Hlat).
  destruct ok; [|by eexists _, _, _]. destruct (IH s1 fs1 Hs1 (proj1 Hd1) Hl) as (ok&s2&fs2&->&Hd2&Hs2&Ho2).
  eexists _, _, _. split_and!; [done| |done|by eapply same_orders_trans]. by eapply drops_trans.
Qed.

(** What may go: while the frames arrive, and altogether. *)
Definition during (log : frames) (q : list name) (d : bool) : Prop :=
  (exists s pl, (s, pl) ∈ log /\ pl_apply pl = true /\ plan_now s pl q d) \/ (exists s pl, (s, pl) ∈ log /\ missing_now s q).
Definition session_policy (log : frames) (q : list name) (d : bool) : Prop :=
  during log q d \/ get_bool config "delete_delay" = true /\ later log q.

Lemma during_more log log' q d : (forall x, x ∈ log -> x ∈ log') -> during log q d -> during log' q d.
Proof. intros Hsub [(s&pl&?&?&?)|(s&pl&?&?)]; [left|right]; exists s, pl; auto. Qed.
Lemma noted_more log log' t : (forall x, x ∈ log -> x ∈ log') -> noted_in log t -> noted_in log' t.
Proof. intros Hsub (s&pl&?&?). exists s, pl. auto. Qed.
Lemma missing_now_orders s s' q : same_orders s s' -> missing_now s' q -> missing_now s q.
Proof. intros (_&_&_&_&E1&_). unfold missing_now. by rewrite E1. Qed.

(** *** Reading a frame *)

Lemma plan_entry_any rel_path s bytes l k :
  al_repr l k -> zlen k < 2 ^ 30 -> 0 <= bytes <= MAX_MANIFEST_BYTES ->
  owp (plan_entry rel_path s bytes l) (fun r => al_repr (fst r) (k ++ [s]) /\ 0 <= snd r <= MAX_MANIFEST_BYTES).
Proof.
  intros Hl Hk Hb. unfold plan_entry. wp_check Ec. cbv zeta. wp_check Ez. wp_bind.
  pose proof (array_list_add_any l k s Hl Hk) as Ha. destruct (array_list_add (Some l) s) as [l'| |]; [|done..]. simpl.
  pose proof (zlen_nonneg s). unfold MAX_MANIFEST_BYTES in *. rewrite u64_small in Ez by lia.
  destruct (Z.gtb_spec (zlen s + 8 + 16) (16 * 1024 * 1024 - bytes)); [done|]. rewrite u64_small by lia. split; [by destruct Ha|lia].
Qed.
Lemma gives_section l k rel_path bytes : al_repr l k -> zlen k <= 2 ^ 29 -> 0 <= bytes <= MAX_MANIFEST_BYTES ->
  gives (DeletePlan.read_section l rel_path bytes) (fun r => 0 <= snd r <= MAX_MANIFEST_BYTES).
Proof.
  intros Hl Hk Hb. unfold DeletePlan.read_section. eapply gives_bind; [apply gives_receive_int|]. cbn beta. intros count Hc.
  eapply gives_bind; [apply gives_check|]. cbn beta. intros _ Hn. rewrite negb_true_iff, orb_false_iff in Hn. destruct Hn as [H0 H1].
  destruct (Z.ltb_spec count 0), (Z.gtb_spec count MAX_MANIFEST_ENTRIES); try done. unfold MAX_MANIFEST_ENTRIES in *.
  assert (Hkn : zlen k + Z.of_nat (Z.to_nat count) <= 2 ^ 30) by lia. clear Hk Hc H0 H1. revert l k bytes Hl Hb Hkn. induction (Z.to_nat count) as [|n IH]; intros l k bytes Hl Hb Hkn; cbn [plan_section_loop].
  - by apply gives_ret.
  - eapply gives_bind; [apply gives_wire_str|]. intros v _. eapply gives_bind; [apply gives_of, (plan_entry_any rel_path v bytes l k); [done|lia|done]|].
    cbn beta. intros [l' b'] [Hl' Hb']. apply (IH l' (k ++ [v])); [done|done|]. rewrite zlen_app. change (zlen [v]) with 1. lia.
Qed.

(** The sections are empty until they arrive. *)
Definition sections_ok (s : DeletePlanSession) : Prop :=
  ps_config_seen s = true \/ al_repr (ps_protected s) [] /\ al_repr (ps_size_skipped s) [] /\ al_repr (ps_missing s) [].
(** The session after the sections of a frame, if it has them. *)
Definition frame_session (s s' : DeletePlanSession) : Prop :=
  s' = s \/ ps_config_seen s = false /\ exists a b c, s' = set_sections s a b c.

Lemma gives_flag : gives read_flag (fun _ => True).
Proof. eapply gives_bind; [apply gives_receive_int|]. intros v _. eapply gives_bind; [apply gives_check|]. intros _ _. by apply gives_ret. Qed.
Lemma gives_plan s : sections_ok s -> gives (read_plan s) (fun r => frame_session s (fst r) /\ plan_dir_ok (pl_dir (snd r))).
Proof.
  intros Hs. unfold read_plan. apply gives_on_fail; [apply gives_send_bytes|].
  assert (Hc : gives (read_config s) (fun r => frame_session s (fst r) /\ 0 <= snd r <= MAX_MANIFEST_BYTES)).
  { unfold read_config. eapply gives_bind; [apply gives_flag|]. intros v _. destruct (v =? 0); [apply gives_ret; split; [by left|done]|].
    eapply gives_bind; [apply gives_check|]. cbn beta. intros _ Hseen%negb_true_iff. destruct Hs as [Hs|(H1&H2&H3)]; [congruence|].
    eapply gives_bind; [by apply (gives_section _ [])|]. cbn beta. intros a Ha. eapply gives_bind; [by apply (gives_section _ [])|]. cbn beta. intros b Hb.
    eapply gives_bind; [by apply (gives_section _ [])|]. cbn beta. intros c Hc. apply gives_ret. simpl. split; [|done]. right. split; [done|]. by eexists _, _, _. }
  assert (Hcr : gives (io_of (array_list_create true)) (fun a : ArrayList (list byte) => al_repr a [])).
  { apply gives_of. assert (exists a : ArrayList (list byte), array_list_create true = Ret a /\ al_repr a []) as (a&->&Ha); [|done].
    eexists. split; [unfold array_list_create; rewrite !(heap_serves_alloc _ _ Hheap); [reflexivity|split; by vm_compute..]|by split]. }
  eapply gives_bind; [exact Hc|]. cbn beta. intros c [Hf Hb]. eapply gives_bind; [apply gives_flag|]. intros ap _. eapply gives_bind; [apply gives_wire_str|]. intros dir _.
  eapply gives_bind; [exact Hcr|]. cbn beta. intros ds Hds. eapply gives_bind; [exact Hcr|]. cbn beta. intros fl Hfl. eapply gives_bind; [apply gives_check|]. cbn beta. intros _ Hdir.
  eapply gives_bind; [by apply (gives_section _ [])|]. cbn beta. intros d1 Hd1. eapply gives_bind; [by apply (gives_section _ [])|]. cbn beta. intros d2 Hd2. apply gives_ret. simpl. split; [done|].
  apply orb_true_iff in Hdir as [Hd|Hd]; [left; by apply Z.eqb_eq|by right].
Qed.

(** *** Receiving the frames *)

(** [delete_plan_session_receive], with the frame that was applied. *)
Definition receive_logged (s : DeletePlanSession) (fs : entries) : io (bool * DeletePlanSession * entries * (DeletePlanSession * plan)) :=
  r <~ read_plan s;
  a <~ io_of (apply_plan stale config (fst r) (snd r) fs);
  if fst (fst a) : bool then
    let s := snd (fst a) in
    io_ret (true, if limit_hit (p_budget (ps_state s)) && negb (ps_limit_logged s) then set_limit_logged s else s, snd a, r)
  else quietly answer_error >~ io_ret (a, r).
Lemma receive_erased s fs w : io_bind (receive_logged s fs) (fun x => io_ret (fst x)) w = delete_plan_session_receive stale config s fs w.
Proof.
  unfold receive_logged, delete_plan_session_receive, io_bind, io_of, io_ret. destruct (read_plan s w) as [w1 [r| |]]; [|done..].
  destruct (apply_plan stale config r.1 r.2 fs) as [[[ok s1] fs1]| |]; [|done..]. destruct ok; [done|]. simpl. by destruct (quietly answer_error w1) as [w2 [[]| |]].
Qed.

Definition caught {A} (m : io A) : io (option A) := fun w =>
  let '(w, r) := m w in (w, match r with Ret a => Ret (Some a) | Fail => Ret None | Stuck => Stuck end).
(** Up to [n] frames, until one is refused: the receiver then gives the session
    up and commits nothing. *)
Fixpoint receive_session (n : nat) (s : DeletePlanSession) (fs : entries) : io (bool * DeletePlanSession * entries * frames) :=
  match n with
  | O => io_ret (true, s, fs, [])
  | S n =>
      x <~ caught (receive_logged s fs);
      match x with
      | None => io_ret (false, s, fs, [])
      | Some (ok, s, fs, r) =>
          if ok : bool then q <~ receive_session n s fs; io_ret (fst q, r :: snd q) else io_ret (false, s, fs, [r])
      end
  end.
(** The frames and then the commit; the result tells what was there before the
    commit and after it, and the frames. *)
Definition serve_session (n : nat) (s : DeletePlanSession) (fs : entries) : io (DeleteCommitResult * DeletePlanSession * (entries * entries) * frames) :=
  x <~ receive_session n s fs;
  let '(ok, s, fs1, log) := x in
  if ok : bool then
    c <~ io_of (delete_plan_session_commit stale config s fs1);
    io_ret (fst (fst c), snd (fst c), (fs1, snd c), log)
  else io_ret (DELETE_COMMIT_ERROR, s, (fs1, fs1), log).

(** What stays the same in a session whatever frames arrive. *)
Definition same_setup (s s' : DeletePlanSession) : Prop :=
  ps_defer s' = ps_defer s /\ ps_dry_run s' = ps_dry_run s /\ max_delete (p_budget (ps_state s')) = max_delete (p_budget (ps_state s)) /\
  (ps_config_seen s = true -> ps_config_seen s' = true /\ ps_protected s' = ps_protected s /\ ps_size_skipped s' = ps_size_skipped s /\ ps_missing s' = ps_missing s).
Lemma same_setup_refl s : same_setup s s.
Proof. done. Qed.
Lemma same_setup_trans s1 s2 s3 : same_setup s1 s2 -> same_setup s2 s3 -> same_setup s1 s3.
Proof.
  intros (?&?&?&K1) (?&?&?&K2). split_and!; [congruence..|]. intros Hc. destruct (K1 Hc) as (Hc2&?&?&?). destruct (K2 Hc2) as (?&?&?&?). split_and!; congruence.
Qed.
Lemma orders_setup s s' : same_orders s s' -> same_setup s s'.
Proof. intros (?&?&?&?&?&?&?). split_and!; [done..|]. intros Hc. split_and!; congruence. Qed.
Lemma frame_setup s s' : frame_session s s' -> same_setup s s'.
Proof. intros [->|(Hc&a&b&c&->)]; [done|]. split_and!; [done..|]. intros ?. congruence. Qed.

(** Between two frames: the paths noted [l] and the requests come from the
    frames so far. *)
Record between (log : frames) (s : DeletePlanSession) (l : list (list byte)) (fs : entries) : Prop := {
  bt_session : session_ok s l;
  bt_sections : sections_ok s;
  bt_tree : wf_node (Dir fs);
  bt_noted : Forall (noted_in log) l;
  bt_missing q : missing_now s q -> exists s' pl, (s', pl) ∈ log /\ missing_now s' q;
}.

Lemma sections_setup s s' : sections_ok s -> same_orders s s' -> sections_ok s'.
Proof. intros [Hs|Hs] (_&_&E1&E2&E3&_&E4); [left; congruence|right]. by rewrite E1, E2, E3. Qed.
Lemma sections_frame s s' : sections_ok s -> frame_session s s' -> sections_ok s'.
Proof. intros Hs [->|(_&a&b&c&->)]; [done|]. by left. Qed.

(** One frame *)
Lemma receive_frame_safe log s l fs w : between log s l fs ->
  exists w' r, caught (receive_logged s fs) w = (w', Ret r) /\
    match r with
    | None => True
    | Some (ok, s', fs', x) => let log' := log ++ [x] in
        drops (during log') fs fs' /\ (exists l', between log' s' l' fs') /\ same_setup s x.1 /\ same_setup x.1 s' /\ (ps_dry_run s = true -> fs' = fs)
    end.
Proof.
  intros [Hs Hsec Hw Hl Hm]. unfold caught, receive_logged, io_bind, io_of. pose proof (gives_plan s Hsec w) as Hg. destruct (read_plan s w) as [w1 [[s1 pl]| |]]; simpl in Hg; [|by exists w1, None|done].
  destruct Hg as [Hf Hdir]. simpl fst. simpl snd. assert (Hs1 : session_ok s1 l) by (destruct Hf as [->|(_&a&b&c&->)]; done).
  destruct (apply_plan_safe s1 l pl fs Hdir Hs1 Hw) as (ok&s2&fs2&dl&->&Hd&Hs2&Ho&Hdl&Hdry).
  assert (Hall : forall s3, same_orders s2 s3 -> session_ok s3 (l ++ dl) -> let log' := log ++ [(s1, pl)] in
    drops (during log') fs fs2 /\ (exists l', between log' s3 l' fs2) /\ same_setup s s1 /\ same_setup s1 s3 /\ (ps_dry_run s = true -> fs2 = fs)).
  { intros s3 Ho3 Hs3 log'. assert (Hx : (s1, pl) ∈ log') by (apply elem_of_app; right; by left). pose proof (same_orders_trans _ _ _ Ho Ho3) as Ho'. split_and!.
    - eapply drops_mono; [exact Hd|]. intros q d [[? ?]|?]; [left|right]; by exists s1, pl.
    - exists (l ++ dl). split; [done|by eapply sections_setup; [eapply sections_frame|]|apply Hd| |].
      + apply Forall_app_2; [eapply Forall_impl; [exact Hl|]; intros t; apply noted_more; intros; apply elem_of_app; by left|].
        eapply Forall_impl; [exact Hdl|]. intros t Ht. by exists s1, pl.
      + intros q Hq. exists s1, pl. split; [done|]. by eapply missing_now_orders.
    - by apply frame_setup.
    - by apply orders_setup.
    - intros Ed. apply Hdry. destruct (frame_setup _ _ Hf) as (_&->&_). done. }
  destruct ok; simpl.
  - eexists _, (Some (true, _, _, _)). split; [reflexivity|]. apply Hall; by destruct (_ && _).
  - assert (exists w2, quietly answer_error w1 = (w2, Ret tt)) as [w2 ->].
    { unfold quietly, answer_error, protocol_send_status. pose proof (gives_send_bytes (put_le 4 STATUS_ERROR) w1) as Hq. destruct (send_bytes _ w1) as [w2 [[]| |]]; simpl in Hq; [by eexists..|done]. }
    eexists _, (Some (false, _, _, _)). split; [reflexivity|]. by apply Hall.
Qed.

(** Once the sections have come they stay. *)
Definition settled (log : frames) : Prop :=
  forall i j x y, (i <= j)%nat -> log !! i = Some x -> log !! j = Some y -> ps_config_seen x.1 = true ->
    ps_protected y.1 = ps_protected x.1 /\ ps_size_skipped y.1 = ps_size_skipped x.1 /\ ps_missing y.1 = ps_missing x.1.

Lemma receive_session_safe n : forall log s l fs w, between log s l fs ->
  exists w' ok s' fs' new, receive_session n s fs w = (w', Ret (ok, s', fs', new)) /\
    drops (during (log ++ new)) fs fs' /\ (exists l', between (log ++ new) s' l' fs') /\ same_setup s s' /\ Forall (fun x => same_setup s x.1) new /\ settled new /\ (ps_dry_run s = true -> fs' = fs).
Proof.
  induction n as [|n IH]; intros log s l fs w Hb; cbn [receive_session].
  { eexists _, _, _, _, []. rewrite app_nil_r. split_and!; [reflexivity|apply drops_refl, Hb|by eexists|apply same_setup_refl|apply Forall_nil_2|by intros i j x y _ Hx; rewrite lookup_nil in Hx|done]. }
  assert (Hstop : forall w' b, exists w'' ok s' fs' new, @io_ret (bool * DeletePlanSession * entries * frames) (b, s, fs, []) w' = (w'', Ret (ok, s', fs', new)) /\
    drops (during (log ++ new)) fs fs' /\ (exists l', between (log ++ new) s' l' fs') /\ same_setup s s' /\ Forall (fun x => same_setup s x.1) new /\ settled new /\ (ps_dry_run s = true -> fs' = fs)).
  { intros w' b. eexists _, _, _, _, []. rewrite app_nil_r. split_and!; [reflexivity|apply drops_refl, Hb|by eexists|apply same_setup_refl|apply Forall_nil_2|by intros i j x y _ Hx; rewrite lookup_nil in Hx|done]. }
  destruct (receive_frame_safe log s l fs w Hb) as (w1&r&E1&Hr). unfold io_bind at 1. rewrite E1. destruct r as [[[[ok s1] fs1] x]|]; [|apply Hstop].
  destruct Hr as (Hd1&(l1&Hb1)&Hx&Hs1&Hdry1). pose proof (same_setup_trans _ _ _ Hx Hs1) as Hss. destruct ok.
  - destruct (IH _ _ _ _ w1 Hb1) as (w2&ok&s2&fs2&new&E2&Hd2&Hb2&Hs2&Hn2&Hset&Hdry2). unfold io_bind. rewrite E2. eexists _, _, _, _, (x :: new). split; [reflexivity|].
    rewrite <- app_assoc in Hd2, Hb2. simpl in Hd2, Hb2. split_and!; [| |by eapply same_setup_trans| | |].
    + eapply drops_trans; [|exact Hd2]. eapply drops_mono; [exact Hd1|]. intros q d. apply during_more. intros y [?|Hy%list_elem_of_singleton]%elem_of_app; apply elem_of_app; [by left|right; subst; by left].
    + done.
    + constructor; [done|]. eapply Forall_impl; [exact Hn2|]. intros y Hy. by eapply same_setup_trans.
    + intros [|i] [|j] y z Hij Hy Hz Hc; [by simplify_eq/=| |lia|].
      * injection Hy as <-. simpl in Hz. apply list_elem_of_lookup_2 in Hz. rewrite Forall_forall in Hn2. destruct (same_setup_trans _ _ _ Hs1 (Hn2 _ Hz)) as (_&_&_&Hk). by destruct (Hk Hc) as (_&?&?&?).
      * simpl in Hy, Hz. eapply (Hset i j); [lia|done..].
    + intros Ed. rewrite Hdry2, Hdry1; [done|done|]. by destruct Hss as (_&->&_).
  - eexists _, _, _, _, [x]. split; [reflexivity|]. split_and!; [done|by eexists|done|by constructor| |done].
    intros [|i] [|j] y z Hij Hy Hz Hc; by simplify_eq/=.
Qed.

Lemma commit_session_safe log s l fs : between log s l fs -> ps_defer s = get_bool config "delete_delay" ->
  exists res s' fs', delete_plan_session_commit stale config s fs = Ret (res, s', fs') /\
    drops (session_policy log) fs fs' /\ session_ok s' l /\ same_orders s s' /\ (ps_dry_run s = true -> fs' = fs).
Proof.
  intros [Hs _ Hw Hl Hm] Hdef. unfold delete_plan_session_commit. destruct (ps_dry_run s) eqn:Edry; [eexists _, _, _; split_and!; [done|by apply drops_refl|done|done|done]|].
  assert (exists ok s1 fs1, (if ps_defer s then deferred_loop stale config (cells (p_deferred (ps_state s))) s fs else Ret (true, s, fs)) = Ret (ok, s1, fs1) /\
    drops (session_policy log) fs fs1 /\ session_ok s1 l /\ same_orders s s1) as (ok&s1&fs1&->&Hd1&Hs1&Ho1).
  { destruct (ps_defer s); [|eexists _, _, _; split_and!; [done|by apply drops_refl|done|done]].
    pose proof Hs as ((_&_&Ha&_)&_). rewrite (cells_repr _ _ Ha). destruct (deferred_loop_safe log l l s fs Hs Hw Hl) as (ok&s1&fs1&?&Hd&?&?).
    eexists _, _, _. split_and!; [done| |done|done]. eapply drops_mono; [exact Hd|]. intros q d Hq. by right. }
  cbn [mbind outcome_bind]. destruct ok; [|by eexists _, _, _].
  destruct (apply_missing_safe s1 l fs1 Hs1 (proj1 Hd1)) as (ok&s2&fs2&->&Hd2&Hs2&Ho2). cbn [mbind outcome_bind].
  eexists _, _, _. split_and!; [done| |done|by eapply same_orders_trans|done]. eapply drops_trans; [exact Hd1|]. eapply drops_mono; [exact Hd2|].
  intros q d Hq. left. right. apply Hm. by eapply missing_now_orders.
Qed.

(** A new session is fresh, also after the sections of the first frame. *)
Lemma created_ok s : delete_plan_session_create config = Ret s -> session_ok s [] /\ max_delete (p_budget (ps_state s)) = plan_limit config /\ ps_defer s = get_bool config "delete_delay".
Proof.
  unfold delete_plan_session_create. rewrite !(heap_serves_malloc _ _ Hheap) by (unfold sizeof_DeletePlanSession; lia). cbn [check mbind outcome_bind].
  assert (exists a : ArrayList (list byte), array_list_create true = Ret a /\ al_repr a []) as (a&->&Ha).
  { eexists. split; [unfold array_list_create; rewrite !(heap_serves_alloc _ _ Hheap); [reflexivity|split; by vm_compute..]|by split]. }
  cbn [mbind outcome_bind]. intros [= <-]. split; [|done]. assert (0 <= plan_limit config <= DELETE_PLAN_SERVER_LIMIT).
  { unfold plan_limit. destruct (Z.geb_spec (get_int config "max_delete") 0), (Z.ltb_spec (get_int config "max_delete") DELETE_PLAN_SERVER_LIMIT); simpl; unfold DELETE_PLAN_SERVER_LIMIT in *; lia. }
  split_and!; simpl; [|done|lia]. split_and!; [|done|done|by vm_compute]. unfold budget_ok, SIZE_MAX, DELETE_PLAN_SERVER_LIMIT in *. simpl. lia.
Qed.

Lemma created_between s fs : delete_plan_session_create config = Ret s -> wf_node (Dir fs) -> between [] s [] fs /\ ps_dry_run s = get_bool config "dry_run".
Proof.
  intros Hc Hw. destruct (created_ok s Hc) as (Hs&_). revert Hc. unfold delete_plan_session_create. rewrite !(heap_serves_malloc _ _ Hheap) by (unfold sizeof_DeletePlanSession; lia). cbn [check mbind outcome_bind].
  assert (exists a : ArrayList (list byte), array_list_create true = Ret a /\ al_repr a []) as (a&->&Ha).
  { eexists. split; [unfold array_list_create; rewrite !(heap_serves_alloc _ _ Hheap); [reflexivity|split; by vm_compute..]|by split]. }
  cbn [mbind outcome_bind]. intros [= <-]. split; [|done]. split; [done|by right|done|constructor|]. intros q (_&skips&rel&_&Hrel&_). simpl in Hrel. rewrite (cells_repr _ _ Ha) in Hrel. by apply not_elem_of_nil in Hrel.
Qed.

Lemma session_ends n s fs w : delete_plan_session_create config = Ret s -> wf_node (Dir fs) ->
  exists w' res s' fs1 fs' log, serve_session n s fs w = (w', Ret (res, s', (fs1, fs'), log)) /\
    settled log /\ drops (during log) fs fs1 /\ drops (session_policy log) fs fs' /\
    0 <= p_deleted (ps_state s') <= plan_limit config /\ (get_bool config "dry_run" = true -> fs' = fs).
Proof.
  intros Hc Hw. destruct (created_ok s Hc) as (_&Hmax&Hdef). destruct (created_between s fs Hc Hw) as [Hb Hdr].
  destruct (receive_session_safe n [] s [] fs w Hb) as (w1&ok&s1&fs1&log&E1&Hd1&(l1&Hb1)&Hs1&_&Hset&Hdry1). simpl in Hd1, Hb1.
  assert (Hfin : forall s2 l, session_ok s2 l -> same_setup s s2 -> 0 <= p_deleted (ps_state s2) <= plan_limit config).
  { intros s2 l ((([? ?]&_)&->&_)&_) (_&_&Hx&_). rewrite <- Hmax, <- Hx. lia. }
  assert (Hd1' : drops (session_policy log) fs fs1) by (eapply drops_mono; [exact Hd1|]; intros; by left).
  unfold serve_session, io_bind. rewrite E1. destruct ok.
  - destruct (commit_session_safe log s1 l1 fs1 Hb1) as (res&s2&fs2&E2&Hd2&Hs2&Ho2&Hdry2); [destruct Hs1 as (->&_); done|].
    unfold io_of. rewrite E2. eexists _, _, _, _, _, log. split; [reflexivity|]. split_and!; [done|done|by eapply drops_trans|eapply Hfin; [done|]; by eapply same_setup_trans, orders_setup..|].
    intros Ed. rewrite <- Hdr in Ed. simpl. rewrite Hdry2, Hdry1; [done|done|]. by destruct Hs1 as (_&->&_).
  - eexists _, _, _, _, _, log. split; [reflexivity|]. split_and!; [done|done|done|by eapply Hfin; [apply Hb1|]..|]. intros Ed. apply Hdry1. congruence.
Qed.

(** C11: a session of delete plans removes only what its frames allow, within its
    limit.  Take a receiver whose session is new, whose receive root lies within
    its root, with the memory it asks for, and without --keep-dirlinks (with it a
    request may lead through a directory link, to a place its path does not
    spell).  It receives up to [n] frames and then commits, unless a frame is
    refused, which ends the session.  Whatever bytes the peer sends as the
    frames, with the sections of protected, skipped and missing paths on any one
    of them, and whatever system calls fail: receiving and committing ends; once the sections have come no later frame changes
    them; entries are removed and nothing else is changed.  While the frames
    arrive, an entry goes only if the plan of a frame neither keeps it by name
    nor a prefix (of the sections known when the plan was applied) or a receiver
    rule protects it or a directory above it, and with --delete-delay only if it
    stands in the way of an entry of the other type; the commit removes what lies
    at or below a path such a plan noted.  The only other removals are the
    requests of --delete-missing-args.  At most the limit is counted, and a dry
    run removes nothing. *)
Theorem plan_session_safe n s fs w
    (Hcreate : delete_plan_session_create config = Ret s) (Htree : wf_node (Dir fs)) :
  exists w' res s' fs1 fs' log, serve_session n s fs w = (w', Ret (res, s', (fs1, fs'), log)) /\
    settled log /\ drops (during log) fs fs1 /\ drops (session_policy log) fs fs' /\
    0 <= p_deleted (ps_state s') <= plan_limit config /\ (get_bool config "dry_run" = true -> fs' = fs).
Proof. by apply session_ends. Qed.
End Run.

(** A new session, and the bytes of frames as a peer sends them. *)
Definition demo_config (delay : bool) : Config := <["delete_delay" := VBool delay]> (commit_config []).
Definition demo_session (delay : bool) : DeletePlanSession :=
  match @delete_plan_session_create heap0 (demo_config delay) with Ret s => s | _ => MkPS false false 0 (MkPlan (MkBudget 0 0 0 false) 0 no_list []) false false false no_list no_list no_list end.
Definition demo_str (s : list byte) : list byte := put_le 8 (zlen s) ++ s.
Definition demo_names (l : list (list byte)) : list byte := put_le 4 (zlen l) ++ concat (demo_str <$> l).
Definition demo_frame (sections : option (list (list byte) * list (list byte) * list (list byte))) (pl : plan) : list byte :=
  (match sections with
   | Some (a, b, c) => put_le 4 1 ++ demo_names a ++ demo_names b ++ demo_names c
   | None => put_le 4 0
   end) ++ put_le 4 (Z.b2z (pl_apply pl)) ++ demo_str (pl_dir pl) ++ demo_names (pl_dirs pl) ++ demo_names (pl_files pl).
Definition demo_peer (input : list byte) : world :=
  MkWorld (MkNet false 0 input (repeat (ev1 PollReady) 100) [] (repeat (ev1 PollReady) 8) 0 0) 1 None [0; 0] (replicate 4097 Byte.x00) [] [].

(** The plan of the root of [commit_fs] keeps the file "k" only, and the sender
    has a directory where the receiver has the file "x".  The sections come with
    the second frame. *)
Definition demo_plan : plan := MkPlanFrame true (cs ".") [cs "x"] [cs "k"].
Definition demo_frames : list byte := demo_frame None demo_plan ++ demo_frame (Some ([cs "q"], [], [])) (MkPlanFrame false (cs ".") [] []).

Lemma plan_session_safe_witness :
  exists w' res s' fs1 fs' log, @serve_session heap0 hash_const no_faults (demo_env false) plain_wire ENOENT (demo_config true) 2 (demo_session true) commit_fs (demo_peer demo_frames)
      = (w', Ret (res, s', (fs1, fs'), log)) /\
    length log = 2%nat /\ kind_at fs1 [cs "srv"; cs "d"; cs "x"] = None /\ kind_at fs1 [cs "srv"; cs "d"; cs "a"; cs "f"] = Some (KLeaf false 3) /\
    kind_at fs' [cs "srv"; cs "d"; cs "a"; cs "f"] = None /\ kind_at fs' [cs "srv"; cs "d"; cs "k"] = Some (KLeaf false 1) /\ 0 <= p_deleted (ps_state s') <= 100000.
Proof.
  destruct (@plan_session_safe heap0 hash_const no_faults (demo_env false) plain_wire ENOENT (demo_config true) (heap0_serves _) [cs "srv"; cs "d"] (cs "/srv/d") (cs "/srv/d")
    eq_refl eq_refl eq_refl ltac:(by vm_compute) ltac:(by vm_compute) ltac:(by vm_compute) 2 (demo_session true) commit_fs (demo_peer demo_frames)) as (w'&res&s'&fs1&fs'&log&E1&_&_&_&Hn&_).
  - by vm_compute.
  - apply commit_fs_wf.
  - exists w', res, s', fs1, fs', log. split; [exact E1|]. assert (plan_limit (demo_config true) = 100000) as Hm by (by vm_compute). rewrite Hm in Hn.
    vm_compute in E1. injection E1 as _ _ <- <- <- <-. split_and!; [by vm_compute..|lia|lia].
Defined.
