(* ===== verification/DeletePlanSend.v ===== *)
(** Per-directory delete plans, the sender: src/shared/delete_plan.c up to
    [delete_plan_send_all].  A hash table of directories, each with the names of
    the files and directories it keeps, and the frames that carry them. *)

From stdpp Require Import list strings.
From S2P Require Import Prelude Alloc DataBuf CStr Paths ArrayList Transport Session Charset Chunk ConfigWire DeleteTree SecureFs DeleteManifest DeletePlan.

Definition STATUS_DELETE_PLAN : Z := 29.

(** delete_plan.c [PlanNode], [DeletePlanSender]; a bucket is the chain of its
    nodes. *)
Record PlanNode := MkNode { n_dir : list byte; n_files : ArrayList (list byte); n_dirs : ArrayList (list byte); n_sent : bool }.
Record DeletePlanSender := MkSender {
  t_buckets : list (list PlanNode); t_capacity : Z; t_count : Z;
  t_config_sent : bool; t_all_synced : bool; t_synced_dirs : option (ArrayList (list byte)); t_walk_root : option (list byte);
  t_protected : option (ArrayList (list byte)); t_size_skipped : option (ArrayList (list byte)); t_missing : option (ArrayList (list byte));
  t_entries : Z; t_file_entries : Z }.
Definition set_table (t : DeletePlanSender) b cap n : DeletePlanSender :=
  MkSender b cap n (t_config_sent t) (t_all_synced t) (t_synced_dirs t) (t_walk_root t) (t_protected t) (t_size_skipped t) (t_missing t) (t_entries t) (t_file_entries t).
Definition set_counts (t : DeletePlanSender) e f : DeletePlanSender :=
  MkSender (t_buckets t) (t_capacity t) (t_count t) (t_config_sent t) (t_all_synced t) (t_synced_dirs t) (t_walk_root t) (t_protected t) (t_size_skipped t) (t_missing t) e f.
Definition set_config_sent (t : DeletePlanSender) : DeletePlanSender :=
  MkSender (t_buckets t) (t_capacity t) (t_count t) true (t_all_synced t) (t_synced_dirs t) (t_walk_root t) (t_protected t) (t_size_skipped t) (t_missing t) (t_entries t) (t_file_entries t).

(** delete_plan.c [plan_hash] *)
Definition plan_hash (key : list byte) : Z := fold_left (fun h c => u64 (u64 (u64 (Z.shiftl h 5) + h) + bZ c)) key 5381.

Section Sender.
Context `{HH : Heap} {W : WireCharset}.

(** delete_plan.c [list_add_str_unique]; [list_contains_str] is in [DeletePlan] *)
Definition list_add_str_unique (l : ArrayList (list byte)) (value : list byte) : outcome (ArrayList (list byte)) :=
  if list_contains_str (Some (cells l)) value then Ret l
  else copy ← str_dup (Some value); array_list_add (Some l) copy.

(** delete_plan.c [delete_plan_sender_create] *)
Definition sizeof_DeletePlanSender : Z := 96.
Definition delete_plan_sender_create : outcome DeletePlanSender :=
  check (malloc_ok sizeof_DeletePlanSender);;
  check (malloc_ok (64 * 8));;
  Ret (MkSender (replicate 64 []) 64 0 false true None None None None None 0 0).

(** delete_plan.c [plan_find]: the chain, then the table *)
Fixpoint chain_find (chain : list PlanNode) (dir : list byte) : option PlanNode :=
  match chain with
  | [] => None
  | node :: chain => if strcmp (n_dir node) dir =? 0 then Some node else chain_find chain dir
  end.
Definition bucket_of (capacity : Z) (dir : list byte) : nat := Z.to_nat (Z.land (plan_hash dir) (capacity - 1)).
Definition plan_find (t : DeletePlanSender) (dir : list byte) : option PlanNode :=
  chain ← t_buckets t !! bucket_of (t_capacity t) dir; chain_find chain dir.

(** delete_plan.c [plan_grow] *)
Definition push_node (capacity : Z) (b : list (list PlanNode)) (node : PlanNode) : list (list PlanNode) :=
  alter (cons node) (bucket_of capacity (n_dir node)) b.
Definition plan_grow (t : DeletePlanSender) : outcome DeletePlanSender :=
  let new_capacity := u64 (t_capacity t * 2) in
  check (malloc_ok (new_capacity * 8));;
  Ret (set_table t (fold_left (push_node new_capacity) (concat (t_buckets t)) (replicate (Z.to_nat new_capacity) [])) new_capacity (t_count t)).

(** delete_plan.c [plan_ensure]: the table that has the node *)
Definition sizeof_PlanNode : Z := 40.
Definition plan_ensure (t : DeletePlanSender) (dir : list byte) : outcome DeletePlanSender :=
  match plan_find t dir with
  | Some _ => Ret t
  | None =>
      t ← (if t_count t + 1 >? u64 (t_capacity t * 3) / 4 then plan_grow t else Ret t);
      check (malloc_ok sizeof_PlanNode);;
      dir ← str_dup (Some dir);
      files ← array_list_create true;
      dirs ← array_list_create true;
      Ret (set_table t (push_node (t_capacity t) (t_buckets t) (MkNode dir files dirs false)) (t_capacity t) (u64 (t_count t + 1)))
  end.
(** A change of the node of [dir] *)
Definition set_node (t : DeletePlanSender) (dir : list byte) (f : PlanNode -> PlanNode) : DeletePlanSender :=
  set_table t (alter (fmap (fun node => if strcmp (n_dir node) dir =? 0 then f node else node)) (bucket_of (t_capacity t) dir) (t_buckets t)) (t_capacity t) (t_count t).
Definition add_name (is_dir : bool) (t : DeletePlanSender) (dir : list byte) (value : list byte) : outcome DeletePlanSender :=
  match plan_find t dir with
  | None => Fail
  | Some node =>
      l ← list_add_str_unique (if is_dir then n_dirs node else n_files node) value;
      Ret (set_node t dir (fun node => if is_dir then MkNode (n_dir node) (n_files node) l (n_sent node) else MkNode (n_dir node) l (n_dirs node) (n_sent node)))
  end.

(** delete_plan.c [path_parent_dir], [path_base_name], [plan_clean_path] *)
Definition path_parent_dir (path : list byte) : outcome (list byte) :=
  match strrchr_split path with
  | None | Some ([], _) => str_dup (Some (cs "."))
  | Some (a, _) => check (malloc_ok (zlen a + 1));; Ret a
  end.
Definition path_base_name (path : list byte) : outcome (list byte) := str_dup (Some (leaf_of path)).
Definition plan_clean_path (path : list byte) : outcome (list byte) :=
  let path := skip_slashes path in
  let clean := take (trim_len path (length path)) path in
  check (malloc_ok (zlen clean + 1));; Ret clean.

(** delete_plan.c [plan_ensure_ancestors]: the directories shrink *)
Fixpoint ancestors_loop (fuel : nat) (t : DeletePlanSender) (current : list byte) : outcome DeletePlanSender :=
  match fuel with
  | O => Stuck
  | S fuel =>
      if strcmp current (cs ".") =? 0 then Ret t
      else
        parent ← path_parent_dir current;
        base ← path_base_name current;
        t ← plan_ensure t parent;
        t ← add_name true t parent base;
        ancestors_loop fuel t parent
  end.
Definition plan_ensure_ancestors (t : DeletePlanSender) (dir : list byte) : outcome DeletePlanSender :=
  current ← str_dup (Some dir); ancestors_loop (S (length current)) t current.

(** delete_plan.c [delete_plan_sender_add] *)
Definition delete_plan_sender_add (t : DeletePlanSender) (path : list byte) (is_dir : bool) : outcome DeletePlanSender :=
  clean ← plan_clean_path path;
  if bool_decide (clean = []) then Ret t
  else
    parent ← path_parent_dir clean;
    base ← path_base_name clean;
    t ← plan_ensure t parent;
    t ← add_name is_dir t parent base;
    t ← (if is_dir then plan_ensure t clean else Ret t);
    t ← plan_ensure_ancestors t parent;
    Ret (set_counts t (u64 (t_entries t + 1)) (if is_dir then t_file_entries t else u64 (t_file_entries t + 1))).

(** delete_plan.c [delete_plan_sender_finalize], [delete_plan_sender_empty],
    [delete_plan_sender_set_config] *)
Definition delete_plan_sender_finalize (t : DeletePlanSender) (synced_dirs : option (ArrayList (list byte))) (walk_root : option (list byte)) : DeletePlanSender :=
  MkSender (t_buckets t) (t_capacity t) (t_count t) (t_config_sent t) (bool_decide (synced_dirs = None) && bool_decide (walk_root = None))
    synced_dirs walk_root (t_protected t) (t_size_skipped t) (t_missing t) (t_entries t) (t_file_entries t).
Definition delete_plan_sender_empty (t : option DeletePlanSender) : bool := match t with None => true | Some t => t_file_entries t =? 0 end.
Definition delete_plan_sender_set_config (t : DeletePlanSender) a b c : DeletePlanSender :=
  MkSender (t_buckets t) (t_capacity t) (t_count t) (t_config_sent t) (t_all_synced t) (t_synced_dirs t) (t_walk_root t) a b c (t_entries t) (t_file_entries t).

(** delete_plan.c [path_at_or_under], [plan_is_allowed] *)
Definition path_at_or_under (dir root : list byte) : bool :=
  (strncmp dir root (length root) =? 0) && (at_end dir (length root) || char_is dir (length root) slash).
Definition plan_is_allowed (t : DeletePlanSender) (dir : list byte) : bool :=
  if t_all_synced t then true
  else match t_walk_root t with
  | Some root => path_at_or_under dir root
  | None => list_contains_str (cells <$> t_synced_dirs t) dir
  end.

(** ** The frames *)

(** delete_plan.c [send_str_section], [send_plan_node], [send_config_only],
    [send_prefix_plan] *)
Definition send_str_section (l : option (ArrayList (list byte))) : io unit :=
  protocol_send_int (zlen (cells_or l)) >~ send_names (cells_or l).
Definition send_config_block (t : DeletePlanSender) : io unit :=
  send_str_section (t_protected t) >~ send_str_section (t_size_skipped t) >~ send_str_section (t_missing t).
Definition mark_sent (t : DeletePlanSender) (dir : list byte) : DeletePlanSender :=
  set_node t dir (fun node => MkNode (n_dir node) (n_files node) (n_dirs node) true).
Definition send_plan_node (t : DeletePlanSender) (node : PlanNode) : io DeletePlanSender :=
  protocol_send_status STATUS_DELETE_PLAN >~
  protocol_send_int (if t_config_sent t then 0 else 1) >~
  t <~ (if t_config_sent t then io_ret t else send_config_block t >~ io_ret (set_config_sent t));
  protocol_send_int 1 >~
  send_wire_str (Some (n_dir node)) >~
  send_str_section (Some (n_dirs node)) >~ send_str_section (Some (n_files node)) >~
  io_ret (mark_sent t (n_dir node)).
Definition send_config_only (t : DeletePlanSender) : io DeletePlanSender :=
  if t_config_sent t then io_ret t
  else
    protocol_send_status STATUS_DELETE_PLAN >~ protocol_send_int 1 >~
    send_config_block t >~
    protocol_send_int 0 >~
    send_wire_str (Some (cs ".")) >~ protocol_send_int 0 >~ protocol_send_int 0 >~
    io_ret (set_config_sent t).
Definition send_prefix_plan (t : DeletePlanSender) (dir : list byte) : io DeletePlanSender :=
  match plan_find t dir with
  | None => io_ret t
  | Some node => if n_sent node || negb (plan_is_allowed t dir) then io_ret t else send_plan_node t node
  end.

(** delete_plan.c [delete_plan_send_root], [delete_plan_send_for_path],
    [delete_plan_send_remaining], [delete_plan_send_all] *)
Definition delete_plan_send_root (t : DeletePlanSender) : io DeletePlanSender :=
  let root := default (cs ".") (t_walk_root t) in
  t <~ io_of (plan_ensure t root);
  t <~ send_config_only t;
  send_prefix_plan t root.
Fixpoint prefixes_loop (n : nat) (i end_ : nat) (t : DeletePlanSender) (clean : list byte) : io DeletePlanSender :=
  match n with
  | O => io_ret t
  | S n =>
      if (end_ <? i)%nat then io_ret t
      else if (i =? end_)%nat || char_is clean i slash then
        io_check (malloc_ok (Z.of_nat i + 1)) >~
        t <~ send_prefix_plan t (take i clean);
        prefixes_loop n (S i) end_ t clean
      else prefixes_loop n (S i) end_ t clean
  end.
Definition delete_plan_send_for_path (t : DeletePlanSender) (path : list byte) (is_dir : bool) : io DeletePlanSender :=
  clean <~ io_of (plan_clean_path path);
  t <~ (match t_walk_root t with Some _ => io_ret t | None => send_prefix_plan t (cs ".") end);
  if bool_decide (clean = []) then io_ret t
  else
    let end_ := if is_dir then length clean else match strrchr_split clean with Some (a, _) => length a | None => O end in
    prefixes_loop end_ 1 end_ t clean.
Fixpoint send_dirs (dirs : list (list byte)) (t : DeletePlanSender) : io DeletePlanSender :=
  match dirs with
  | [] => io_ret t
  | dir :: dirs => t <~ delete_plan_send_for_path t dir true; send_dirs dirs t
  end.
Definition delete_plan_send_remaining (t : DeletePlanSender) (dirs : option (ArrayList (list byte))) : io DeletePlanSender := send_dirs (cells_or dirs) t.
Definition delete_plan_send_all (t : DeletePlanSender) (dirs : option (ArrayList (list byte))) : io DeletePlanSender :=
  t <~ delete_plan_send_root t; delete_plan_send_remaining t dirs.

(** client_scan.c [scan_paths_only], the part that feeds the plans: the entries
    of the chunks in the order of the scan, then the directories traversed. *)
Fixpoint plan_entries (t : DeletePlanSender) (l : list (list byte * bool)) : outcome DeletePlanSender :=
  match l with
  | [] => Ret t
  | (path, is_dir) :: l => t ← delete_plan_sender_add t path is_dir; plan_entries t l
  end.
Definition plan_scan (t : DeletePlanSender) (scanned : list (list byte * bool)) (plan_dirs : option (ArrayList (list byte))) : outcome DeletePlanSender :=
  t ← plan_entries t scanned;
  plan_entries t ((fun dir => (dir, true)) <$> cells_or plan_dirs).
End Sender.
