(* ===== verification/DeletePlanTable.v ===== *)
(** The sender's table of plans holds exactly the entries it was given. *)

From stdpp Require Import list strings.
From S2P Require Import Prelude Alloc CStr Paths ArrayList Charset DeleteTree DeleteSafe SecureFs SecureSafe DeleteManifest DeletePlan DeletePlanSafe DeletePlanRun DeletePlanSend.

(** ** Names of directories *)

Lemma comps_join p : Forall name_ok p -> comps (join p) = p.
Proof.
  induction p as [|n p IH] using rev_ind; [done|]. intros [Hp Hn]%Forall_app. rewrite Forall_singleton in Hn. destruct p as [|x p]; [by apply comps_name|].
  rewrite join_snoc by done. unfold comps. simpl app at 1. rewrite tokens_app. unfold no_dot. rewrite filter_app. f_equal; [by apply IH|by apply comps_name].
Qed.
Lemma comps_rel p : Forall name_ok p -> comps (rel_of p) = p.
Proof. destruct p; [done|]. apply comps_join. Qed.
Lemma rel_inj p q : Forall name_ok p -> Forall name_ok q -> rel_of p = rel_of q -> p = q.
Proof. intros Hp Hq Heq. by rewrite <- (comps_rel p), <- (comps_rel q), Heq. Qed.

(** A directory as the sender names it: "." or a clean relative path. *)
Definition proper_dir (dir : list byte) : Prop := dir = rel_of (comps dir) /\ Forall name_ok (comps dir) /\ zlen dir < 2 ^ 32.
Lemma rel_proper q : Forall name_ok q -> zlen (rel_of q) < 2 ^ 32 -> proper_dir (rel_of q).
Proof. intros Hq Hz. unfold proper_dir. by rewrite comps_rel. Qed.

(** ** The hash table *)

Definition nodes (t : DeletePlanSender) : list PlanNode := concat (t_buckets t).
Definition list_ok (m : Z) (a : ArrayList (list byte)) : Prop := exists l, al_repr a l /\ al_capacity a <= 2 ^ 30 /\ zlen l <= m.

(** [m] bounds what has been put in. *)
Record table_ok (m : Z) (t : DeletePlanSender) : Prop := {
  tb_pow : exists k, t_capacity t = 2 ^ Z.of_nat k;
  tb_room : 64 <= t_capacity t /\ (t_capacity t <= 64 \/ t_capacity t <= 4 * t_count t);
  tb_len : zlen (t_buckets t) = t_capacity t;
  tb_home i chain node : t_buckets t !! i = Some chain -> node ∈ chain -> i = bucket_of (t_capacity t) (n_dir node);
  tb_nodup : NoDup (n_dir <$> nodes t);
  tb_count : t_count t = zlen (nodes t) /\ t_count t <= m;
  tb_lists : Forall (fun nd => list_ok m (n_files nd) /\ list_ok m (n_dirs nd)) (nodes t);
}.

Lemma bucket_range k dir : (bucket_of (2 ^ Z.of_nat k) dir < Z.to_nat (2 ^ Z.of_nat k))%nat.
Proof.
  unfold bucket_of. rewrite Z.sub_1_r, <- Z.ones_equiv. rewrite Z.land_ones by lia.
  pose proof (Z.mod_pos_bound (plan_hash dir) (2 ^ Z.of_nat k) ltac:(lia)). lia.
Qed.

Lemma bucket_lookup m t dir : table_ok m t -> exists chain, t_buckets t !! bucket_of (t_capacity t) dir = Some chain.
Proof.
  intros Ht. destruct (tb_pow _ _ Ht) as [k Hk]. apply lookup_lt_is_Some. pose proof (bucket_range k dir). pose proof (tb_len _ _ Ht). rewrite Hk in *. unfold zlen in *. lia.
Qed.

Lemma nodes_elem t node : node ∈ nodes t <-> exists i chain, t_buckets t !! i = Some chain /\ node ∈ chain.
Proof.
  unfold nodes. rewrite list_elem_of_In, in_concat. setoid_rewrite <- list_elem_of_In. split.
  - intros (chain&[i Hi]%list_elem_of_lookup&Hn). by exists i, chain.
  - intros (i&chain&Hi&Hn). exists chain. split; [|done]. by eapply list_elem_of_lookup_2.
Qed.

Lemma chain_find_some chain dir node : chain_find chain dir = Some node -> node ∈ chain /\ n_dir node = dir.
Proof.
  induction chain as [|x chain IH]; simpl; [done|]. destruct (Z.eqb_spec (strcmp (n_dir x) dir) 0) as [Hx|_].
  - intros [= <-]. split; [by left|by apply strcmp_eq].
  - intros [? ?]%IH. split; [by right|done].
Qed.
Lemma chain_find_none chain dir : chain_find chain dir = None -> forall node, node ∈ chain -> n_dir node <> dir.
Proof.
  induction chain as [|x chain IH]; simpl; [by intros _ ? ?%not_elem_of_nil|]. destruct (Z.eqb_spec (strcmp (n_dir x) dir) 0) as [|Hx]; [done|].
  intros Hc node [->|Hin]%elem_of_cons; [by rewrite strcmp_eq in Hx|by apply IH].
Qed.

Lemma node_unique m t a b : table_ok m t -> a ∈ nodes t -> b ∈ nodes t -> n_dir a = n_dir b -> a = b.
Proof.
  intros Ht Ha Hb Hab. pose proof (tb_nodup _ _ Ht) as Hnd. revert Ha Hb Hnd. generalize (nodes t). clear -Hab.
  induction l as [|x l IH]; [by intros ?%not_elem_of_nil|]. rewrite fmap_cons, NoDup_cons. intros Ha Hb [Hx Hl].
  apply elem_of_cons in Ha as [->|Ha], Hb as [->|Hb]; [done| | |by apply IH]; exfalso; apply Hx; apply list_elem_of_fmap; eauto.
Qed.

Lemma plan_find_iff m t dir node : table_ok m t -> plan_find t dir = Some node <-> node ∈ nodes t /\ n_dir node = dir.
Proof.
  intros Ht. unfold plan_find. destruct (bucket_lookup m t dir Ht) as [chain Hc]. rewrite Hc. simpl. split.
  - intros [Hin Hd]%chain_find_some. split; [|done]. apply nodes_elem. eauto.
  - intros [Hin <-]. pose proof Hin as (i&chain'&Hi&Hin')%nodes_elem. pose proof (tb_home _ _ Ht _ _ _ Hi Hin') as ->. rewrite Hc in Hi. injection Hi as <-.
    destruct (chain_find chain (n_dir node)) as [x|] eqn:Ex; [|by apply (chain_find_none _ _ Ex) in Hin']. apply chain_find_some in Ex as [Hx Hd]. f_equal.
    eapply node_unique; [done| |done|done]. apply nodes_elem. eauto.
Qed.
Lemma plan_find_ext m m' t t' dir : table_ok m t -> table_ok m' t' -> (forall node, n_dir node = dir -> node ∈ nodes t' <-> node ∈ nodes t) -> plan_find t' dir = plan_find t dir.
Proof.
  intros Ht Ht' He. apply option_eq. intros node. rewrite (plan_find_iff _ _ _ _ Ht), (plan_find_iff _ _ _ _ Ht'). split; intros [? ?]; (split; [|done]); by apply He.
Qed.

(** *** Growing *)

Lemma push_nodes cap b node : (bucket_of cap (n_dir node) < length b)%nat -> concat (push_node cap b node) ≡ₚ node :: concat b.
Proof.
  unfold push_node. generalize (bucket_of cap (n_dir node)). intros i. revert b. induction i as [|i IH]; intros [|x b] Hi; cbn [length] in *; [lia|done|lia|].
  change (alter (cons node) (S i) (x :: b)) with (x :: alter (cons node) i b). cbn [concat]. rewrite IH by lia. symmetry. apply Permutation_middle.
Qed.
Lemma push_length cap b node : length (push_node cap b node) = length b.
Proof. apply length_alter. Qed.
Lemma push_home cap b node i chain x : push_node cap b node !! i = Some chain -> x ∈ chain ->
  (x = node /\ i = bucket_of cap (n_dir node)) \/ exists chain', b !! i = Some chain' /\ x ∈ chain'.
Proof.
  unfold push_node. intros Hi Hx. destruct (decide (i = bucket_of cap (n_dir node))) as [->|Hne].
  - rewrite list_lookup_alter_eq in Hi. destruct (b !! _) as [c|] eqn:Ec; [|done]. injection Hi as <-. apply elem_of_cons in Hx as [->|Hx]; [by left|right; eauto].
  - rewrite list_lookup_alter_ne in Hi by done. right. eauto.
Qed.

Definition homed (cap : Z) (b : list (list PlanNode)) : Prop := forall i chain node, b !! i = Some chain -> node ∈ chain -> i = bucket_of cap (n_dir node).
Lemma rehash_spec k l : forall b, homed (2 ^ Z.of_nat k) b -> length b = Z.to_nat (2 ^ Z.of_nat k) ->
  let b' := fold_left (push_node (2 ^ Z.of_nat k)) l b in homed (2 ^ Z.of_nat k) b' /\ length b' = length b /\ concat b' ≡ₚ l ++ concat b.
Proof.
  induction l as [|x l IH]; intros b Hb Hl; [done|]. cbn [fold_left]. destruct (IH (push_node (2 ^ Z.of_nat k) b x)) as (H1&H2&H3).
  - intros i chain node Hi Hn. destruct (push_home _ _ _ _ _ _ Hi Hn) as [[-> ->]|(c&Hc&Hx)]; [done|by eapply Hb].
  - by rewrite push_length.
  - split_and!; [done|by rewrite H2, push_length|]. cbv zeta in H3. rewrite H3, push_nodes by (rewrite Hl; apply bucket_range). symmetry. apply Permutation_middle.
Qed.

Definition same_flags (t t' : DeletePlanSender) : Prop :=
  t_config_sent t' = t_config_sent t /\ t_all_synced t' = t_all_synced t /\ t_synced_dirs t' = t_synced_dirs t /\ t_walk_root t' = t_walk_root t /\
  t_protected t' = t_protected t /\ t_size_skipped t' = t_size_skipped t /\ t_missing t' = t_missing t.

Section Table.
Context `{HH : Heap} (Hheap : heap_serves (2 ^ 63)).

Lemma plan_grow_spec m t : table_ok m t -> m < 2 ^ 40 -> t_capacity t * 3 / 4 < t_count t + 1 ->
  exists t', plan_grow t = Ret t' /\ nodes t' ≡ₚ nodes t /\ t_count t' = t_count t /\ same_flags t t' /\
    (exists k, t_capacity t' = 2 ^ Z.of_nat k) /\ 64 <= t_capacity t' <= 4 * (t_count t + 1) /\ zlen (t_buckets t') = t_capacity t' /\ homed (t_capacity t') (t_buckets t').
Proof.
  intros Ht Hm Hfull. destruct (tb_pow _ _ Ht) as [k Hk]. pose proof (tb_room _ _ Ht) as [Hr1 Hr2]. pose proof (tb_count _ _ Ht) as [_ Hc].
  assert (Hcap : t_capacity t < 2 ^ 43) by (destruct Hr2; lia).
  assert (Hdouble : u64 (t_capacity t * 2) = 2 ^ Z.of_nat (S k)) by (rewrite u64_small by lia; rewrite Hk, Nat2Z.inj_succ, Z.pow_succ_r by lia; lia).
  unfold plan_grow. rewrite (heap_serves_malloc _ _ Hheap) by (rewrite u64_small by lia; lia). simpl. eexists. split; [done|]. rewrite Hdouble.
  set (b0 := replicate (Z.to_nat (2 ^ Z.of_nat (S k))) (@nil PlanNode)).
  assert (H0 : homed (2 ^ Z.of_nat (S k)) b0).
  { intros i chain node Hi Hn. apply lookup_replicate in Hi as [-> _]. by apply not_elem_of_nil in Hn. }
  destruct (rehash_spec (S k) (concat (t_buckets t)) b0 H0) as (H1&H2&H3); [by subst b0; rewrite length_replicate|]. unfold nodes. cbn [t_buckets set_table t_capacity t_count].
  assert (Hb0 : concat b0 = []) by (subst b0; generalize (Z.to_nat (2 ^ Z.of_nat (S k))); induction n; [done|]; simpl; done). rewrite Hb0, app_nil_r in H3.
  split_and!; [done|done|done|by exists (S k)| | | |done].
  - rewrite <- Hdouble, u64_small by lia. lia.
  - rewrite <- Hdouble, u64_small by lia. pose proof (Z.div_lt_upper_bound (t_capacity t * 3) 4 (t_count t + 1)). pose proof (Z.mul_div_le (t_capacity t * 3) 4 ltac:(lia)).
    pose proof (Z.mod_pos_bound (t_capacity t * 3) 4 ltac:(lia)). pose proof (Z.div_mod (t_capacity t * 3) 4 ltac:(lia)). lia.
  - unfold zlen. rewrite H2. subst b0. rewrite length_replicate. lia.
Qed.

Lemma list_ok_mono m m' a : list_ok m a -> m <= m' -> list_ok m' a.
Proof. intros (l&?&?&?) ?. exists l. split_and!; [done|done|lia]. Qed.
Lemma table_mono m m' t : table_ok m t -> m <= m' -> table_ok m' t.
Proof.
  intros [] ?. split; try done; [split; [apply tb_count0|lia]|]. eapply Forall_impl; [done|]. intros nd [? ?]. split; by eapply list_ok_mono.
Qed.

(** The names a directory keeps *)
Definition kept_names (d : bool) (t : DeletePlanSender) (dir : list byte) : list (list byte) :=
  match plan_find t dir with None => [] | Some nd => cells (if d then n_dirs nd else n_files nd) end.
(** The plan of a directory has been sent. *)
Definition is_sent (t : DeletePlanSender) (dir : list byte) : bool := match plan_find t dir with Some nd => n_sent nd | None => false end.
(** [t'] differs from [t] at most in having more directories. *)
Definition extends (t t' : DeletePlanSender) : Prop :=
  same_flags t t' /\ (forall dir, (is_Some (plan_find t dir) -> is_Some (plan_find t' dir)) /\ is_sent t' dir = is_sent t dir /\ (is_Some (plan_find t' dir) -> is_Some (plan_find t dir) \/ proper_dir dir)) /\ forall d dir, kept_names d t' dir = kept_names d t dir.

Lemma table_extends_refl t : extends t t.
Proof. split; [done|]. split; [|done]. intros dir. split_and!; [done|done|by left]. Qed.
Lemma same_flags_trans t1 t2 t3 : same_flags t1 t2 -> same_flags t2 t3 -> same_flags t1 t3.
Proof. unfold same_flags. intros (?&?&?&?&?&?&?) (?&?&?&?&?&?&?). split_and!; congruence. Qed.

Lemma create_list : exists a : ArrayList (list byte), array_list_create true = Ret a /\ al_repr a [] /\ al_capacity a <= 2 ^ 30.
Proof. eexists. split_and!; [unfold array_list_create; rewrite !(heap_serves_alloc _ _ Hheap); [reflexivity|split; by vm_compute..]|by split|done]. Qed.

Lemma insert_spec m t t1 b cap dir a :
  same_flags t t1 -> proper_dir dir -> table_ok m t -> plan_find t dir = None -> al_repr a [] -> al_capacity a <= 2 ^ 30 -> m < 2 ^ 40 ->
  concat b ≡ₚ nodes t -> homed cap b -> zlen b = cap -> (exists k, cap = 2 ^ Z.of_nat k) -> 64 <= cap /\ (cap <= 64 \/ cap <= 4 * (t_count t + 1)) ->
  let t' := set_table t1 (push_node cap b (MkNode dir a a false)) cap (u64 (t_count t + 1)) in table_ok (m + 1) t' /\ extends t t' /\ is_Some (plan_find t' dir).
Proof.
  intros Hflags Hpr Ht Hnone Ha Hac Hm Hperm Hhome Hlen [k Hk] Hroom t'. pose proof (tb_count _ _ Ht) as [Hc Hcm]. set (nd := MkNode dir a a false) in *.
  assert (Hin : (bucket_of cap dir < length b)%nat) by (rewrite Hk; unfold zlen in Hlen; pose proof (bucket_range k dir); lia).
  assert (Hnodes : nodes t' ≡ₚ nd :: nodes t) by (unfold nodes, t'; cbn [t_buckets set_table]; rewrite push_nodes by done; by rewrite Hperm).
  pose proof (zlen_nonneg (nodes t)). assert (Hok : table_ok (m + 1) t').
  { split; cbn [t_capacity t_count t_buckets set_table t'].
    - by exists k.
    - rewrite u64_small by lia. lia.
    - unfold zlen. rewrite push_length. exact Hlen.
    - intros i chain node Hi Hn. destruct (push_home _ _ _ _ _ _ Hi Hn) as [[-> ->]|(c&Hcc&Hx)]; [done|by eapply Hhome].
    - rewrite Hnodes. rewrite fmap_cons. apply NoDup_cons. split; [|apply Ht]. intros (x&Hx&Hin')%list_elem_of_fmap. simpl in Hx.
      assert (plan_find t dir = Some x) by (by apply (plan_find_iff _ _ _ _ Ht)). congruence.
    - rewrite u64_small by lia. split; [|lia]. unfold zlen. rewrite Hnodes. simpl. unfold zlen in Hc. lia.
    - rewrite Hnodes. constructor.
      + assert (list_ok (m + 1) a) by (exists []; split_and!; [done|done|change (zlen []) with 0; lia]). done.
      + eapply Forall_impl; [apply Ht|]. intros x [? ?]. split; (eapply list_ok_mono; [done|lia]). }
  assert (Hfind : forall d, d <> dir -> plan_find t' d = plan_find t d).
  { intros d Hd. eapply plan_find_ext; [done|done|]. intros node Hn. rewrite Hnodes, elem_of_cons. split; [intros [->|?]; [done|done]|by right]. }
  assert (Hnew : plan_find t' dir = Some nd) by (apply (plan_find_iff _ _ _ _ Hok); rewrite Hnodes; split; [by left|done]).
  split; [done|]. split; [split; [by destruct Hflags as (?&?&?&?&?&?&?); split_and!|split]|].
  - intros d. unfold is_sent. destruct (decide (d = dir)) as [->|Hne]; [rewrite Hnew, Hnone; split_and!; [done|done|by right]|rewrite Hfind by done; split_and!; [done|done|by left]].
  - intros d d'. unfold kept_names. destruct (decide (d' = dir)) as [->|Hne]; [|by rewrite Hfind]. rewrite Hnew, Hnone. simpl. destruct d; by rewrite (cells_repr _ _ Ha).
  - by rewrite Hnew.
Qed.

Lemma ensure_spec m t dir : table_ok m t -> m < 2 ^ 40 -> proper_dir dir ->
  exists t', plan_ensure t dir = Ret t' /\ table_ok (m + 1) t' /\ extends t t' /\ is_Some (plan_find t' dir).
Proof.
  intros Ht Hm Hpd. pose proof Hpd as (_&_&Hd). unfold plan_ensure. destruct (plan_find t dir) as [nd|] eqn:Ef.
  { exists t. split; [done|]. split; [eapply table_mono; [done|lia]|]. split; [apply table_extends_refl|by rewrite Ef]. }
  destruct create_list as (a&Ea&Ha&Hac). pose proof (tb_count _ _ Ht) as [Hc Hcm]. pose proof (zlen_nonneg (nodes t)). pose proof (zlen_nonneg dir).
  pose proof (tb_room _ _ Ht) as [Hr1 Hr2]. assert (Hcap : t_capacity t < 2 ^ 43) by (destruct Hr2; lia).
  rewrite (u64_small (t_capacity t * 3)) by lia. destruct (Z.gtb_spec (t_count t + 1) (t_capacity t * 3 / 4)) as [Hfull|Hroom].
  - destruct (plan_grow_spec m t Ht Hm Hfull) as (t1&->&Hn1&Hc1&Hf1&Hk1&Hr&Hl1&Hh1). cbn [mbind outcome_bind].
    rewrite (heap_serves_malloc _ _ Hheap) by (unfold sizeof_PlanNode; lia). simpl. unfold str_dup. cbn [of_option mbind outcome_bind].
    rewrite (heap_serves_malloc _ _ Hheap) by lia. cbn [mbind outcome_bind]. rewrite Ea. cbn [mbind outcome_bind].
    eexists. split; [done|]. rewrite Hc1. apply insert_spec; try done. lia.
  - cbn [mbind outcome_bind]. rewrite (heap_serves_malloc _ _ Hheap) by (unfold sizeof_PlanNode; lia). simpl. unfold str_dup. cbn [of_option mbind outcome_bind].
    rewrite (heap_serves_malloc _ _ Hheap) by lia. cbn [mbind outcome_bind]. rewrite Ea. cbn [mbind outcome_bind].
    eexists. split; [done|]. apply insert_spec; try done; [intros ???; apply (tb_home _ _ Ht)|apply Ht|apply Ht|lia].
Qed.

(** *** Changing a node *)

Lemma alter_concat (g : PlanNode -> PlanNode) i b :
  (forall j chain x, b !! j = Some chain -> x ∈ chain -> j <> i -> g x = x) -> concat (alter (fmap g) i b) = g <$> concat b.
Proof.
  revert i. induction b as [|c b IH]; intros i Hid; [by destruct i|].
  assert (Hrest : forall j, (forall k chain x, b !! k = Some chain -> x ∈ chain -> S k <> j -> g x = x) -> j = O -> g <$> concat b = concat b).
  { intros j Hj ->. assert (Hall : forall x, x ∈ concat b -> g x = x).
    { intros x Hx. apply list_elem_of_In, in_concat in Hx as (chain&[k Hk]%list_elem_of_In%list_elem_of_lookup&Hx%list_elem_of_In). by eapply (Hj k). }
    clear -Hall. induction (concat b) as [|y l IHl]; [done|]. rewrite fmap_cons. f_equal; [apply Hall; by left|]. apply IHl. intros; apply Hall; by right. }
  destruct i as [|i].
  - change (alter (fmap g) 0%nat (c :: b)) with ((g <$> c) :: b). cbn [concat]. rewrite fmap_app. f_equal. symmetry. apply (Hrest O); [|done].
    intros k chain x Hk Hx Hne. by apply (Hid (S k) chain).
  - change (alter (fmap g) (S i) (c :: b)) with (c :: alter (fmap g) i b). cbn [concat]. rewrite fmap_app, IH.
    + f_equal. clear -Hid. assert (Hc : forall x, x ∈ c -> g x = x) by (intros x Hx; by apply (Hid O c)). induction c as [|y c IHc]; [done|]. rewrite fmap_cons.
      f_equal; [symmetry; apply Hc; by left|]. apply IHc; [|intros; apply Hc; by right]. intros j chain x Hj Hx Hne. destruct j; [injection Hj as <-; apply Hc; by right|by apply (Hid (S j) chain)].
    + intros j chain x Hj Hx Hne. apply (Hid (S j) chain); [done|done|lia].
Qed.

Section SetNode.
Context (m : Z) (t : DeletePlanSender) (dir : list byte) (f : PlanNode -> PlanNode).
Context (Ht : table_ok m t) (Hdir : forall nd, n_dir (f nd) = n_dir nd)
  (Hlists : forall nd, nd ∈ nodes t -> n_dir nd = dir -> list_ok (m + 1) (n_files (f nd)) /\ list_ok (m + 1) (n_dirs (f nd))).
Let g (node : PlanNode) : PlanNode := if strcmp (n_dir node) dir =? 0 then f node else node.

Lemma set_node_nodes : nodes (set_node t dir f) = g <$> nodes t.
Proof.
  unfold nodes, set_node. cbn [t_buckets set_table]. apply alter_concat. intros j chain x Hj Hx Hne. unfold g.
  destruct (Z.eqb_spec (strcmp (n_dir x) dir) 0) as [E%strcmp_eq|]; [|done]. exfalso. apply Hne. rewrite <- E. by eapply (tb_home _ _ Ht).
Qed.
Lemma g_dir nd : n_dir (g nd) = n_dir nd.
Proof. unfold g. destruct (_ =? 0); [apply Hdir|done]. Qed.

Lemma set_node_ok : table_ok (m + 1) (set_node t dir f).
Proof.
  destruct Ht as [Hp Hr Hl Hh Hn [Hc Hcm] Hls]. split; unfold set_node; cbn [t_capacity t_count t_buckets set_table]; try done.
  - unfold zlen. rewrite length_alter. exact Hl.
  - intros i chain node Hi Hx. destruct (decide (i = bucket_of (t_capacity t) dir)) as [->|Hne].
    + rewrite list_lookup_alter_eq in Hi. destruct (t_buckets t !! _) as [c|] eqn:Ec; [|done]. injection Hi as <-.
      apply list_elem_of_fmap in Hx as (y&->&Hy). change (if strcmp (n_dir y) dir =? 0 then f y else y) with (g y). rewrite g_dir. by eapply Hh.
    + rewrite list_lookup_alter_ne in Hi by done. by eapply Hh.
  - change (NoDup (n_dir <$> nodes (set_node t dir f))). rewrite set_node_nodes, <- list_fmap_compose. rewrite (list_fmap_ext _ n_dir); [done|]. intros _ x _. apply g_dir.
  - change (t_count t = zlen (nodes (set_node t dir f)) /\ t_count t <= m + 1). rewrite set_node_nodes. unfold zlen. rewrite length_fmap. unfold zlen in Hc. lia.
  - change (Forall (fun nd => list_ok (m + 1) (n_files nd) /\ list_ok (m + 1) (n_dirs nd)) (nodes (set_node t dir f))). rewrite set_node_nodes. apply Forall_fmap.
    rewrite Forall_forall in Hls |- *. intros x Hx. simpl. unfold g. destruct (Z.eqb_spec (strcmp (n_dir x) dir) 0) as [E%strcmp_eq|]; [by apply Hlists|].
    destruct (Hls x Hx). split; (eapply list_ok_mono; [done|lia]).
Qed.

Lemma set_node_find d : plan_find (set_node t dir f) d = if decide (d = dir) then f <$> plan_find t dir else plan_find t d.
Proof.
  apply option_eq. intros nd. rewrite (plan_find_iff _ _ _ _ set_node_ok), set_node_nodes, list_elem_of_fmap. split.
  - intros [(x&->&Hx) Hd]. rewrite g_dir in Hd. assert (Hfx : plan_find t d = Some x) by (by apply (plan_find_iff _ _ _ _ Ht)). unfold g.
    destruct (Z.eqb_spec (strcmp (n_dir x) dir) 0) as [E%strcmp_eq|E].
    + rewrite decide_True by congruence. assert (d = dir) as <- by congruence. by rewrite Hfx.
    + rewrite decide_False; [done|]. intros ->. apply E. by apply strcmp_eq.
  - case_decide as Hd.
    + subst d. destruct (plan_find t dir) as [x|] eqn:Ef; [|done]. intros [= <-]. apply (plan_find_iff _ _ _ _ Ht) in Ef as [Hx Hxd].
      assert (g x = f x) as <- by (unfold g; by rewrite (proj2 (Z.eqb_eq _ _) (proj2 (strcmp_eq _ _) Hxd))). split; [by exists x|]. by rewrite g_dir.
    + intros [Hx Hxd]%(plan_find_iff _ _ _ _ Ht). split; [|done]. exists nd. split; [|done]. unfold g.
      destruct (Z.eqb_spec (strcmp (n_dir nd) dir) 0) as [E%strcmp_eq|]; [congruence|done].
Qed.
End SetNode.

Lemma contains_iff l v : list_contains_str (Some l) v = true <-> v ∈ l.
Proof.
  simpl. rewrite existsb_exists. split.
  - intros (x&Hx%list_elem_of_In&E%Z.eqb_eq%strcmp_eq). by subst.
  - intros Hv. exists v. split; [by apply list_elem_of_In|]. by apply Z.eqb_eq, strcmp_eq.
Qed.

Lemma add_unique_spec m a v : list_ok m a -> m < 2 ^ 28 -> zlen v < 2 ^ 40 ->
  exists a', list_add_str_unique a v = Ret a' /\ list_ok (m + 1) a' /\ (forall x, x ∈ cells a' <-> x ∈ cells a \/ x = v).
Proof.
  intros (l&Hl&Hc&Hz) Hm Hv. unfold list_add_str_unique. rewrite (cells_repr _ _ Hl). pose proof (zlen_nonneg l). pose proof (zlen_nonneg v).
  destruct (list_contains_str (Some l) v) eqn:Ec.
  - apply contains_iff in Ec. exists a. rewrite (cells_repr _ _ Hl). split_and!; [done|exists l; split_and!; [done|done|lia]|]. set_solver.
  - unfold str_dup. simpl. rewrite (heap_serves_malloc _ _ Hheap) by lia. simpl.
    assert (Hs : heap_serves (2 ^ 34)) by (intros n Hn; apply Hheap; lia). destruct (array_list_add_repr a l v Hl) as (a'&->&Ha'&Hcap); [lia|done|done|].
    exists a'. split_and!; [done|exists (l ++ [v]); split_and!; [done|lia|rewrite zlen_app; change (zlen [v]) with 1; lia]|].
    intros x. rewrite (cells_repr _ _ Ha'), elem_of_app. set_solver.
Qed.

(** *** Names and ancestors *)

(** [t'] is [t] with more directories and the names [P]. *)
Definition adds (P : bool -> list byte -> list byte -> Prop) (t t' : DeletePlanSender) : Prop :=
  same_flags t t' /\ (forall dir, (is_Some (plan_find t dir) -> is_Some (plan_find t' dir)) /\ is_sent t' dir = is_sent t dir /\ (is_Some (plan_find t' dir) -> is_Some (plan_find t dir) \/ proper_dir dir)) /\
  forall d dir x, x ∈ kept_names d t' dir <-> x ∈ kept_names d t dir \/ P d dir x.

Lemma extends_adds t t' : extends t t' -> adds (fun _ _ _ => False) t t'.
Proof. intros (?&?&Hk). split_and!; [done..|]. intros d dir x. rewrite Hk. tauto. Qed.
Lemma adds_trans P Q t1 t2 t3 : adds P t1 t2 -> adds Q t2 t3 -> adds (fun d dir x => P d dir x \/ Q d dir x) t1 t3.
Proof.
  intros (F1&G1&K1) (F2&G2&K2). split_and!; [by eapply same_flags_trans| |intros d dir x; rewrite K2, K1; tauto].
  intros dir. destruct (G1 dir) as (?&<-&?), (G2 dir) as (?&?&?). split_and!; [auto|done|]. intuition.
Qed.
Lemma adds_ext P Q t t' : adds P t t' -> (forall d dir x, P d dir x <-> Q d dir x) -> adds Q t t'.
Proof. intros (?&?&K) HPQ. split_and!; [done..|]. intros d dir x. by rewrite K, HPQ. Qed.

Lemma add_name_spec m t dir v isd : table_ok m t -> m < 2 ^ 28 -> zlen v < 2 ^ 40 -> is_Some (plan_find t dir) ->
  exists t', add_name isd t dir v = Ret t' /\ table_ok (m + 1) t' /\ adds (fun d dir' x => d = isd /\ dir' = dir /\ x = v) t t'.
Proof.
  intros Ht Hm Hv [nd Hnd]. unfold add_name. rewrite Hnd. pose proof Hnd as [Hin Hdir]%(plan_find_iff _ _ _ _ Ht).
  pose proof (tb_lists _ _ Ht) as Hls. rewrite Forall_forall in Hls. destruct (Hls nd Hin) as [Hlf Hld].
  destruct (add_unique_spec m (if isd then n_dirs nd else n_files nd) v) as (a&->&Ha&Hcells); [by destruct isd|done|done|]. cbn [mbind outcome_bind].
  set (f := fun node : PlanNode => _). assert (Hf : forall x, n_dir (f x) = n_dir x) by (intros x; subst f; by destruct isd).
  assert (Hlists : forall x, x ∈ nodes t -> n_dir x = dir -> list_ok (m + 1) (n_files (f x)) /\ list_ok (m + 1) (n_dirs (f x))).
  { intros x Hx Hxd. assert (x = nd) as -> by (eapply node_unique; [exact Ht|done|done|congruence]). subst f. destruct isd; simpl; split; try done; (eapply list_ok_mono; [done|lia]). }
  eexists. split; [done|]. split; [by apply set_node_ok|]. pose proof (set_node_find m t dir f Ht Hf Hlists) as Hfind. split_and!; [done| |].
  - intros d. unfold is_sent. rewrite Hfind. case_decide as Hdd; [subst d; rewrite Hnd; split_and!; [by eexists|subst f; by destruct isd|by left]|split_and!; [done|done|by left]].
  - intros d dir' x. unfold kept_names. rewrite Hfind. case_decide as Hd; [subst dir'|naive_solver]. rewrite Hnd. simpl. subst f. simpl.
    destruct isd, d; simpl in *; rewrite ?Hcells; naive_solver.
Qed.

Lemma strrchr_last a b : slash ∉ b -> strrchr_split (a ++ slash :: b) = Some (a, b).
Proof.
  intros Hb. induction a as [|c a IH]; simpl; [|by rewrite IH]. by rewrite (proj2 (strrchr_none b) Hb).
Qed.
Lemma join_split q n : Forall name_ok q -> name_ok n -> strrchr_split (join (q ++ [n])) = match q with [] => None | _ => Some (join q, n) end.
Proof.
  intros Hq Hn. destruct q as [|x q]; [apply strrchr_none; by destruct Hn as (_&?&_)|]. rewrite join_snoc by done. apply strrchr_last. by destruct Hn as (_&?&_).
Qed.
Lemma join_length p n : n ∈ p -> (length n <= length (join p))%nat.
Proof.
  induction p as [|x p IH]; [by intros ?%not_elem_of_nil|]. destruct (decide (p = [])) as [->|Hp]; [by intros ->%list_elem_of_singleton|].
  rewrite join_cons by done. rewrite !length_app. intros [->|Hin]%elem_of_cons; [lia|]. specialize (IH Hin). lia.
Qed.
Lemma rel_length q : Forall name_ok q -> (length q <= length (rel_of q))%nat.
Proof.
  intros Hq. destruct q as [|n q]; [simpl; lia|]. change (rel_of (n :: q)) with (join (n :: q)). induction Hq as [|x l Hx Hl IH]; [done|].
  destruct (decide (l = [])) as [->|Hne]; [simpl; destruct Hx as [Hx _]; destruct x; [done|simpl; lia]|]. rewrite join_cons by done. rewrite !length_app. simpl. lia.
Qed.
Lemma parent_len q n : (length (rel_of q) <= S (length (join (q ++ [n]))))%nat.
Proof. destruct q as [|x q]; [simpl; lia|]. rewrite join_snoc by done. rewrite length_app. change (rel_of (x :: q)) with (join (x :: q)). lia. Qed.
Lemma parent_dir_spec q n : Forall name_ok q -> name_ok n -> zlen (join (q ++ [n])) < 2 ^ 32 -> path_parent_dir (join (q ++ [n])) = Ret (rel_of q).
Proof.
  intros Hq Hn Hz. unfold path_parent_dir. rewrite join_split by done. destruct q as [|x q]; [unfold str_dup; simpl; by rewrite (heap_serves_malloc _ _ Hheap)|].
  pose proof (parent_len (x :: q) n) as Hl. change (rel_of (x :: q)) with (join (x :: q)) in *. pose proof (join_nonempty (x :: q) Hq ltac:(done)) as Hne.
  destruct (join (x :: q)) as [|c s] eqn:Ej; [done|]. rewrite (heap_serves_malloc _ _ Hheap); [done|]. unfold zlen in *. lia.
Qed.
Lemma base_name_spec q n : Forall name_ok q -> name_ok n -> zlen (join (q ++ [n])) < 2 ^ 32 -> path_base_name (join (q ++ [n])) = Ret n.
Proof.
  intros Hq Hn Hz. unfold path_base_name, leaf_of. rewrite join_split by done. pose proof (join_length (q ++ [n]) n ltac:(set_solver)) as Hl.
  assert (Hd : str_dup (Some n) = Ret n) by (unfold str_dup; simpl; rewrite (heap_serves_malloc _ _ Hheap); [done|unfold zlen in *; lia]).
  by destruct q.
Qed.
Lemma rel_not_dot q n : Forall name_ok q -> name_ok n -> (strcmp (join (q ++ [n])) (cs ".") =? 0) = false.
Proof.
  intros Hq Hn. apply Z.eqb_neq. rewrite strcmp_eq. intros E. assert (comps (join (q ++ [n])) = []) as Hc by (by rewrite E).
  assert (Hsplit : exists a, join (q ++ [n]) = a ++ n /\ (a = [] \/ exists b, a = b ++ [slash])).
  { destruct q as [|x q]; [exists []; split; [done|by left]|]. rewrite join_snoc by done. exists (join (x :: q) ++ [slash]). split; [by rewrite <- app_assoc|]. right. by eexists. }
  destruct Hsplit as (a&Ha&Hcase). rewrite E in Ha. destruct Hn as (Hn1&_&_&Hn2&_). destruct Hcase as [->|[b ->]]; [done|].
  apply (f_equal length) in Ha. rewrite !length_app in Ha. simpl in Ha. destruct n; [done|simpl in Ha; lia].
Qed.

Lemma parent_zlen q n : zlen (join (q ++ [n])) < 2 ^ 32 -> zlen (rel_of q) < 2 ^ 32.
Proof.
  destruct q as [|x q]; [intros _; by vm_compute|]. change (rel_of (x :: q)) with (join (x :: q)). rewrite join_snoc, !zlen_app by done.
  pose proof (zlen_nonneg n). change (zlen [slash]) with 1. lia.
Qed.

Lemma ancestors_spec q : forall m t fuel, Forall name_ok q -> table_ok m t -> m + 2 * zlen q < 2 ^ 28 -> zlen (rel_of q) < 2 ^ 32 -> (length q < fuel)%nat ->
  exists t', ancestors_loop fuel t (rel_of q) = Ret t' /\ table_ok (m + 2 * zlen q) t' /\
    adds (fun d dir x => d = true /\ exists q1 r, q = q1 ++ x :: r /\ dir = rel_of q1) t t'.
Proof.
  induction q as [|n q IH] using rev_ind; intros m t fuel Hq Ht Hm Hz Hfuel; (destruct fuel as [|fuel]; [lia|]); cbn [ancestors_loop].
  { exists t. change (zlen []) with 0. rewrite Z.add_0_r. split_and!; [done|done|]. apply (adds_ext (fun _ _ _ => False)); [by apply extends_adds, table_extends_refl|].
    intros d dir x. split; [done|]. by intros (_&[]&r&?&_). }
  apply Forall_app in Hq as [Hq Hn]. rewrite Forall_singleton in Hn. assert (Erel : rel_of (q ++ [n]) = join (q ++ [n])) by (by destruct q). rewrite Erel in *.
  rewrite rel_not_dot by done. rewrite parent_dir_spec by done. cbn [mbind outcome_bind]. rewrite base_name_spec by done. cbn [mbind outcome_bind].
  rewrite zlen_app in *. change (zlen [n]) with 1 in *. pose proof (zlen_nonneg q). pose proof (parent_len q n). pose proof (join_length (q ++ [n]) n ltac:(set_solver)).
  destruct (ensure_spec m t (rel_of q)) as (t1&->&Ht1&Hx1&Hf1); [done|lia|by apply rel_proper, (parent_zlen q n)|]. cbn [mbind outcome_bind].
  destruct (add_name_spec (m + 1) t1 (rel_of q) n true) as (t2&->&Ht2&Ha2); [done|lia|unfold zlen in *; lia|done|]. cbn [mbind outcome_bind].
  assert (Hzq : zlen (rel_of q) < 2 ^ 32) by (by apply (parent_zlen q n)).
  destruct (IH (m + 2) t2 fuel) as (t3&->&Ht3&Ha3); [done|by replace (m + 2) with (m + 1 + 1) by lia|lia|done|rewrite length_app in Hfuel; simpl in Hfuel; lia|].
  exists t3. split; [done|]. split; [by replace (m + 2 * (zlen q + 1)) with (m + 2 + 2 * zlen q) by lia|].
  eapply adds_ext; [eapply adds_trans; [apply (extends_adds _ _ Hx1)|eapply adds_trans; [exact Ha2|exact Ha3]]|]. cbn beta. intros d dir x. split.
  - intros [[]|[(->&->&->)|(->&q1&r&->&->)]]; (split; [done|]); [by exists q, []|]. exists q1, (r ++ [n]). by rewrite <- app_assoc.
  - intros (->&q1&r&Hqe&->). destruct r as [|y r _] using rev_ind.
    + apply app_inj_tail in Hqe as [-> ->]. right. by left.
    + rewrite app_comm_cons, app_assoc in Hqe. apply app_inj_tail in Hqe as [-> ->]. right. right. split; [done|]. by exists q1, r.
Qed.

(** *** Entries *)

(** [path] names [p], perhaps with slashes around it. *)
Definition spells (path : list byte) (p : list name) : Prop := exists i j, path = replicate i slash ++ join p ++ replicate j slash.

Lemma skip_spelled i s t : head s <> Some slash -> s <> [] -> skip_slashes (replicate i slash ++ s ++ t) = s ++ t.
Proof.
  intros Hh Hs. induction i as [|i IH]; [|exact IH]. destruct s as [|c s]; [done|]. simpl in *. rewrite bool_decide_eq_false_2; [done|]. by intros ->.
Qed.
Lemma trim_app s t k : (k <= length s)%nat -> trim_len (s ++ t) k = trim_len s k.
Proof. induction k as [|k IH]; [done|]. intros Hk. cbn [trim_len]. unfold char_is. rewrite lookup_app_l by lia. case_bool_decide; [apply IH; lia|done]. Qed.
Lemma trim_spelled s j : last s <> Some slash -> trim_len (s ++ replicate j slash) (length s + j) = length s.
Proof.
  intros Hl. induction j as [|j IH].
  - rewrite app_nil_r, Nat.add_0_r. destruct (length s) as [|k] eqn:Ek; [done|]. simpl. unfold char_is. rewrite bool_decide_eq_false_2; [done|].
    by rewrite last_lookup, Ek in Hl.
  - rewrite replicate_S_end, app_assoc, Nat.add_succ_r. cbn [trim_len]. unfold char_is. rewrite bool_decide_eq_true_2.
    + rewrite trim_app; [exact IH|]. by rewrite length_app, length_replicate.
    + rewrite lookup_app_r by (by rewrite length_app, length_replicate). by rewrite length_app, length_replicate, Nat.sub_diag.
Qed.
Lemma join_head p : Forall name_ok p -> head (join p) <> Some slash.
Proof.
  intros Hp. destruct p as [|n p]; [done|]. apply Forall_cons in Hp as [Hn _]. destruct (name_ok_cons n Hn) as (c&u&->&Hc). destruct p as [|k p]; simpl; by intros [= ->].
Qed.
Lemma clean_spec path p : Forall name_ok p -> p <> [] -> spells path p -> zlen path < 2 ^ 32 -> plan_clean_path path = Ret (join p) /\ zlen (join p) < 2 ^ 32.
Proof.
  intros Hp Hne (i&j&->) Hz. unfold plan_clean_path. rewrite skip_spelled by (first [by apply join_head|by apply join_nonempty]).
  rewrite !zlen_app in Hz. pose proof (zlen_nonneg (replicate i slash)). pose proof (zlen_nonneg (replicate j slash)). pose proof (zlen_nonneg (join p)).
  rewrite length_app, length_replicate, trim_spelled by (by apply join_last). rewrite take_app_length.
  rewrite (heap_serves_malloc _ _ Hheap) by lia. split; [done|lia].
Qed.

(** The names an entry puts in the table: its own in its directory, and those of
    its directories above in theirs. *)
Definition lists (p : list name) (isd d : bool) (dir x : list byte) : Prop :=
  exists q1 r, p = q1 ++ x :: r /\ dir = rel_of q1 /\ d = negb (bool_decide (r = [])) || isd.

Lemma lists_snoc q n isd d dir x :
  lists (q ++ [n]) isd d dir x <-> (d = isd /\ dir = rel_of q /\ x = n) \/ (d = true /\ exists q1 r, q = q1 ++ x :: r /\ dir = rel_of q1).
Proof.
  split.
  - intros (q1&r&Hq&->&->). destruct r as [|y r _] using rev_ind.
    + apply app_inj_tail in Hq as [-> ->]. by left.
    + rewrite app_comm_cons, app_assoc in Hq. apply app_inj_tail in Hq as [-> ->]. right. split; [|by exists q1, r]. rewrite bool_decide_eq_false_2; [done|]. by destruct r.
  - intros [(->&->&->)|(->&q1&r&->&->)]; [by exists q, []|]. exists q1, (r ++ [n]). split_and!; [by rewrite <- app_assoc|done|].
    rewrite bool_decide_eq_false_2; [done|]. by destruct r.
Qed.

Lemma counts_ok m t e f : table_ok m t -> table_ok m (set_counts t e f).
Proof. by intros []. Qed.

Lemma add_spec m t path p isd : table_ok m t -> Forall name_ok p -> p <> [] -> spells path p -> zlen path < 2 ^ 32 -> m + 2 * zlen p + 1 < 2 ^ 28 ->
  exists t', delete_plan_sender_add t path isd = Ret t' /\ table_ok (m + 2 * zlen p + 1) t' /\ adds (lists p isd) t t' /\ (isd = true -> is_Some (plan_find t' (rel_of p))).
Proof.
  intros Ht Hp Hne Hpath Hz Hm. destruct (clean_spec path p Hp Hne Hpath Hz) as [Hcl Hzj]. unfold delete_plan_sender_add. rewrite Hcl. cbn [mbind outcome_bind].
  rewrite bool_decide_eq_false_2 by (by apply join_nonempty). destruct (exists_last Hne) as (q&n&->). apply Forall_app in Hp as [Hq Hn]. rewrite Forall_singleton in Hn.
  rewrite parent_dir_spec, base_name_spec by done. cbn [mbind outcome_bind]. rewrite zlen_app in *. change (zlen [n]) with 1 in *.
  pose proof (zlen_nonneg q). pose proof (parent_len q n). pose proof (join_length (q ++ [n]) n ltac:(set_solver)).
  destruct (ensure_spec m t (rel_of q)) as (t1&->&Ht1&Hx1&Hf1); [done|lia|by apply rel_proper, (parent_zlen q n)|]. cbn [mbind outcome_bind].
  destruct (add_name_spec (m + 1) t1 (rel_of q) n isd) as (t2&->&Ht2&Ha2); [done|lia|unfold zlen in *; lia|done|]. cbn [mbind outcome_bind].
  assert (exists t3, (if isd then plan_ensure t2 (join (q ++ [n])) else Ret t2) = Ret t3 /\ table_ok (m + 3) t3 /\ extends t2 t3 /\
    (isd = true -> is_Some (plan_find t3 (rel_of (q ++ [n]))))) as (t3&->&Ht3&Hx3&Hown).
  { destruct isd; [|exists t2; split; [done|]; split; [eapply table_mono; [done|lia]|]; split; [apply table_extends_refl|done]].
    assert (join (q ++ [n]) = rel_of (q ++ [n])) as Ej by (by destruct q). rewrite Ej in *.
    destruct (ensure_spec (m + 1 + 1) t2 (rel_of (q ++ [n]))) as (t3&?&?&Hx3&?); [done|lia|apply rel_proper; [apply Forall_app_2; [done|by constructor]|done]|].
    exists t3. split; [done|]. split; [by replace (m + 3) with (m + 1 + 1 + 1) by lia|done]. }
  cbn [mbind outcome_bind]. unfold plan_ensure_ancestors, str_dup. cbn [of_option mbind outcome_bind]. rewrite (heap_serves_malloc _ _ Hheap) by (unfold zlen in *; lia).
  cbn [check mbind outcome_bind]. assert (Hzq : zlen (rel_of q) < 2 ^ 32) by (by apply (parent_zlen q n)).
  destruct (ancestors_spec q (m + 3) t3 (S (length (rel_of q)))) as (t4&->&Ht4&Ha4); [done|done|lia|done|pose proof (rel_length q Hq); lia|]. cbn [mbind outcome_bind].
  eexists. split; [done|]. split; [apply counts_ok; by replace (m + 2 * (zlen q + 1) + 1) with (m + 3 + 2 * zlen q) by lia|].
  assert (Hall : adds (lists (q ++ [n]) isd) t t4); [|split; [exact Hall|intros Hd; apply Ha4, Hown, Hd]].
  eapply adds_ext; [eapply adds_trans; [apply (extends_adds _ _ Hx1)|eapply adds_trans; [exact Ha2|eapply adds_trans; [apply (extends_adds _ _ Hx3)|exact Ha4]]]|].
  intros d dir x. rewrite lists_snoc. cbn beta. tauto.
Qed.
End Table.
