(* ===== verification/DeletePlanKeep.v ===== *)
(** The two ends of the delete plans together: the sender's table lists exactly
    what was scanned, and a session run with those plans keeps all of it. *)

From stdpp Require Import gmap strings.
From S2P Require Import Prelude Alloc CStr Paths ArrayList PathIndex FilterParse FilterRules Transport Session Charset Chunk Names ConfigWire DeleteTree DeleteWalk DeleteSafe DeleteManifest SecureFs SecureSafe DeleteCommit DeleteCommitSafe DeletePlan DeletePlanSafe DeletePlanRun DeletePlanSend DeletePlanTable.

#[local] Open Scope string_scope.
#[local] Open Scope list_scope.
#[local] Open Scope Z_scope.

(** ** The table of a scan *)

(** A path as the scanner reports it: proper names, perhaps with slashes around. *)
Definition scanned_path (path : list byte) : Prop :=
  spells path (comps path) /\ Forall name_ok (comps path) /\ comps path <> [] /\ zlen path < 2 ^ 32.
Definition table_load (l : list (list byte * bool)) : Z := fold_right (fun e m => m + 2 * zlen (comps e.1) + 1) 0 l.

Lemma load_nonneg l : 0 <= table_load l.
Proof. induction l as [|e l IH]; simpl; [done|]. pose proof (zlen_nonneg (comps e.1)). lia. Qed.

Section Keep.
Context `{HH : Heap} (Hheap : heap_serves (2 ^ 63)).

Lemma create_ok : exists t, delete_plan_sender_create = Ret t /\ table_ok 0 t /\ t_config_sent t = false /\ (forall dir, is_sent t dir = false) /\ (forall dir, ~ is_Some (plan_find t dir)) /\ forall d dir, kept_names d t dir = [].
Proof.
  unfold delete_plan_sender_create. rewrite !(heap_serves_malloc _ _ Hheap) by (unfold sizeof_DeletePlanSender; lia). cbn [check mbind outcome_bind]. eexists. split; [done|].
  assert (Hn : concat (replicate 64 (@nil PlanNode)) = []) by done.
  split.
  - split; [by exists 6%nat|by split; [|left]|done| |constructor|done|constructor]. intros i chain nd Hi Hnd. cbn [t_buckets] in Hi. apply lookup_replicate in Hi as [-> _]. by apply not_elem_of_nil in Hnd.
  - split; [done|]. assert (Hnone : forall dir, plan_find (MkSender (replicate 64 []) 64 0 false true None None None None None 0 0) dir = None).
    { intros dir. unfold plan_find. cbn [t_buckets]. destruct (_ !! bucket_of _ dir) as [c|] eqn:Ec; [|done]. apply lookup_replicate in Ec as [-> _]. done. }
    split; [intros dir; unfold is_sent; by rewrite Hnone|]. split; [intros dir; rewrite Hnone; by intros []|]. intros d dir. unfold kept_names. by rewrite Hnone.
Qed.

Lemma entries_spec l : forall m t, table_ok m t -> Forall (fun e => scanned_path e.1) l -> m + table_load l < 2 ^ 28 ->
  exists t', plan_entries t l = Ret t' /\ table_ok (m + table_load l) t' /\
    adds (fun d dir x => exists e, e ∈ l /\ lists (comps e.1) e.2 d dir x) t t' /\ (forall path, (path, true) ∈ l -> is_Some (plan_find t' (rel_of (comps path)))).
Proof.
  induction l as [|[path isd] l IH]; intros m t Ht Hl Hm; cbn [plan_entries].
  { exists t. simpl. rewrite Z.add_0_r. split; [done|]. split; [done|]. split; [|by intros ? ?%not_elem_of_nil].
    apply (adds_ext (fun _ _ _ => False)); [by apply extends_adds, table_extends_refl|]. split; [done|]. by intros (?&?%not_elem_of_nil&_). }
  apply Forall_cons in Hl as [(Hs&Hn&Hne&Hz) Hl]. simpl in *. pose proof (load_nonneg l). destruct (add_spec Hheap m t path (comps path) isd) as (t1&->&Ht1&Ha1&Hd1); [done..|lia|].
  cbn [mbind outcome_bind]. destruct (IH _ _ Ht1 Hl) as (t2&->&Ht2&Ha2&Hd2); [lia|]. exists t2. split; [done|]. split; [eapply table_mono; [done|lia]|].
  split; [|intros path' [[= -> <-]|?]%elem_of_cons; [by apply Ha2, Hd1|by apply Hd2]].
  eapply adds_ext; [eapply adds_trans; [exact Ha1|exact Ha2]|]. intros d dir x. cbn beta. split.
  - intros [Hx|(e&He&Hx)]; [exists (path, isd); split; [by left|done]|exists e; split; [by right|done]].
  - intros (e&[->|He]%elem_of_cons&Hx); [by left|]. right. by exists e.
Qed.
Lemma entries_app t l1 l2 : plan_entries t (l1 ++ l2) = t ← plan_entries t l1; plan_entries t l2.
Proof. revert t. induction l1 as [|[path isd] l1 IH]; intros t; [done|]. simpl. destruct (delete_plan_sender_add t path isd); [apply IH|done|done]. Qed.

(** All that a scan puts in *)
Definition whole_scan (scanned : list (list byte * bool)) (plan_dirs : option (ArrayList (list byte))) : list (list byte * bool) :=
  scanned ++ ((fun dir => (dir, true)) <$> cells_or plan_dirs).

Lemma scan_spec scanned plan_dirs : Forall (fun e => scanned_path e.1) (whole_scan scanned plan_dirs) -> table_load (whole_scan scanned plan_dirs) < 2 ^ 28 ->
  exists t0 t, delete_plan_sender_create = Ret t0 /\ plan_scan t0 scanned plan_dirs = Ret t /\ table_ok (table_load (whole_scan scanned plan_dirs)) t /\
    t_config_sent t = false /\ (forall dir, is_sent t dir = false) /\ (forall dir, is_Some (plan_find t dir) -> proper_dir dir) /\
    (forall path, (path, true) ∈ whole_scan scanned plan_dirs -> is_Some (plan_find t (rel_of (comps path)))) /\
    forall D x d, Forall name_ok D -> x ∈ kept_names d t (rel_of D) <->
      exists path isd r, (path, isd) ∈ whole_scan scanned plan_dirs /\ comps path = D ++ x :: r /\ d = negb (bool_decide (r = [])) || isd.
Proof.
  intros Hl Hm. destruct create_ok as (t0&E0&Ht0&Hc0&Hs0&Hn0&Hk0). destruct (entries_spec (whole_scan scanned plan_dirs) 0 t0 Ht0 Hl Hm) as (t&Et&Ht&Ha&Hd).
  exists t0, t. split; [done|]. split; [by rewrite <- Et; unfold whole_scan; rewrite entries_app|]. split; [done|].
  destruct Ha as ((Hcf&_)&Hs&Hk). split; [by rewrite Hcf|]. split; [intros dir; destruct (Hs dir) as (_&->&_); apply Hs0|]. split; [intros dir Hdd; destruct (Hs dir) as (_&_&Hp); destruct (Hp Hdd) as [Hd0|]; [by apply Hn0 in Hd0|done]|]. split; [done|]. intros D x d HD. rewrite Hk, Hk0. split.
  - intros [?%not_elem_of_nil|([path isd]&He&q1&r&Hc&Hr&->)]; [done|]. simpl in *. assert (D = q1) as ->; [|by exists path, isd, r].
    apply rel_inj; [done| |done]. rewrite Forall_forall in Hl. destruct (Hl _ He) as (_&Hn&_). simpl in Hn. rewrite Hc in Hn. by apply Forall_app in Hn as [? _].
  - intros (path&isd&r&He&Hc&->). right. exists (path, isd). split; [done|]. by exists D, r.
Qed.
End Keep.

(** ** The session keeps what was scanned *)

(** A frame that carries the directory [D] of the table. *)
Definition frame_of (t : DeletePlanSender) (pl : plan) : Prop :=
  exists D, Forall name_ok D /\ zlen (rel_of D) < 2 ^ 32 /\ pl_dir pl = rel_of D /\ (pl_apply pl = true -> pl_dirs pl = kept_names true t (rel_of D) /\ pl_files pl = kept_names false t (rel_of D)).

Section Spared.
Context `{HH : Heap} (skips : list DeleteSkipEntry) (rules : option FilterRuleList) (t : DeletePlanSender).
Local Abbreviation kd D := (Some (kept_names true t (rel_of D))).
Local Abbreviation kf D := (Some (kept_names false t (rel_of D))).

Lemma doomed_first kd kf at_root rel n q d : doomed skips rules kd kf at_root rel (n :: q) d -> spared skips rules kd kf at_root rel n (negb (bool_decide (q = [])) || d) = false.
Proof. destruct q as [|m q]; [done|]. intros Hd. rewrite bool_decide_eq_false_2 by done. apply doomed_cons in Hd as [? _]; done. Qed.
Lemma listed_spared at_root rel D n d : n ∈ kept_names d t (rel_of D) -> spared skips rules (kd D) (kf D) at_root rel n d = true.
Proof.
  intros Hn. unfold spared. destruct d; cbn [andb negb]; rewrite (proj2 (contains_iff _ _) Hn).
  - by rewrite orb_true_r.
  - by rewrite orb_true_r.
Qed.
Lemma listed_waits D n d d' : n ∈ kept_names d t (rel_of D) -> conflict (kd D) (kf D) n d' = false -> d' = d.
Proof.
  intros Hn Hc. destruct (decide (d' = d)) as [|Hd]; [done|]. unfold conflict in Hc. assert (list_contains_str (if d' then kf D else kd D) n = true) as Hx; [|congruence].
  destruct d, d'; try done; by apply contains_iff.
Qed.
End Spared.

Section Session.
Context `{HH : Heap} `{XXHash64} {F : Faults} {E : SecureEnv} {W : WireCharset} (stale : errno) (config : Config).
Context (Hheap : heap_serves (2 ^ 63)).
Context (R : list name) (root rr : list byte)
  (Hfd : root_fd = Some R) (Hroot : root_path = Some root) (Hlinks : keep_dirlinks = false) (Hin : path_is_within_root root rr = true)
  (Hrr : get_str config "receive_root_directory" = Some rr)
  (Hbasis : get_int config "basis_count" = zlen (get_basis config "basis_dirs")).
Local Abbreviation base := (base R root rr).

(** A listed entry of its type is outside the policy. *)
Lemma kept_outside t log D x r isd : (forall y, y ∈ log -> frame_of t y.2) ->
  (forall p q n, D ++ x :: r = p ++ n :: q -> n ∈ kept_names (negb (bool_decide (q = [])) || isd) t (rel_of p)) ->
  session_policy config R root rr log (base ++ D ++ x :: r) isd -> exists s pl, (s, pl) ∈ log /\ missing_now config R root rr s (base ++ D ++ x :: r).
Proof.
  intros Hpl Hl [[(s&pl&Hin'&Hap&skips&p&_&Heq&Hd&_)|Hm]|[_ (s&pl&p&Hin'&Hap&(skips&d&_&Hd&Hw)&[u Hu])]]; [|done|].
  - exfalso. destruct (Hpl _ Hin') as (D'&HD'&_&Hdir&Hkeep). simpl in Hdir, Hkeep. destruct (Hkeep Hap) as [E1 E2]. rewrite Hdir, E1, E2, comps_rel in * by done.
    apply app_inv_head in Heq. destruct p as [|n p]; [done|]. pose proof (Hl _ _ _ Heq) as Hn. apply doomed_first in Hd. by rewrite listed_spared in Hd.
  - exfalso. destruct (Hpl _ Hin') as (D'&HD'&_&Hdir&Hkeep). simpl in Hdir, Hkeep. destruct (Hkeep Hap) as [E1 E2]. rewrite Hdir, E1, E2, comps_rel in * by done.
    rewrite <- app_assoc in Hu. apply app_inv_head in Hu. destruct p as [|n p]; [done|]. rewrite <- app_assoc in Hu. simpl in Hu. pose proof (Hl _ _ _ Hu) as Hn.
    destruct Hw as [_ Hw]. apply (listed_waits _ _ _ _ _ Hn) in Hw. apply doomed_first in Hd. rewrite Hw in Hd. by rewrite listed_spared in Hd.
Qed.

(** C12: a deletion session never removes what the sender has.  The sender scans
    its tree into the table of plans.  A receiver whose session is new, whose
    receive root lies within its root, with the memory it asks for, and without
    --keep-dirlinks (with it a
    request may lead through a directory link to an entry its path does not
    spell) receives up to [n] frames and commits, at once or delayed, whatever
    system calls fail.  When the frames it accepts carry plans of that table, in
    any number and order and with the sections on any of them, a receiver entry
    at the path of a scanned one, or of a directory above it, of the same type,
    is still there at the end, unless a request of --delete-missing-args names
    it or a directory above. *)
Theorem scanned_entries_survive t0 t scanned plan_dirs n s fs w
    (Hcreate : delete_plan_sender_create = Ret t0) (Hscan : plan_scan t0 scanned plan_dirs = Ret t)
    (Hpaths : Forall (fun e => scanned_path e.1) (whole_scan scanned plan_dirs)) (Hload : table_load (whole_scan scanned plan_dirs) < 2 ^ 28)
    (Hsession : delete_plan_session_create config = Ret s) (Htree : wf_node (Dir fs)) :
  exists w' res s' fs1 fs' log, serve_session stale config n s fs w = (w', Ret (res, s', (fs1, fs'), log)) /\
    ((forall x, x ∈ log -> frame_of t x.2) ->
     forall path isd p r k, (path, isd) ∈ whole_scan scanned plan_dirs -> comps path = p ++ r -> p <> [] ->
       kind_at fs (base ++ p) = Some k -> bool_decide (k = KDir) = negb (bool_decide (r = [])) || isd ->
       kind_at fs' (base ++ p) = Some k \/ exists s pl, (s, pl) ∈ log /\ missing_now config R root rr s (base ++ p)).
Proof.
  destruct (scan_spec Hheap scanned plan_dirs Hpaths Hload) as (t0'&t'&E0&Et&_&_&_&_&_&Hk). rewrite Hcreate in E0. injection E0 as <-. rewrite Hscan in Et. injection Et as <-.
  destruct (session_ends stale config Hheap R root rr Hfd Hroot Hlinks Hin Hrr Hbasis n s fs w Hsession Htree) as (w'&res&s'&fs1&fs'&log&Hrun&_&_&Hd&_).
  exists w', res, s', fs1, fs', log. split; [done|]. intros Hframes path isd p r k Hin' Hp Hne Hkind Hty. destruct (proj2 Hd (base ++ p)) as [->|[_ (k'&Hk'&Hpol)]]; [by left|]. right.
  assert (k' = k) as -> by congruence. rewrite Hty in Hpol. destruct (exists_last Hne) as (D&x&->). eapply kept_outside; [exact Hframes| |exact Hpol].
  intros a q m Heq. apply Hk.
  - rewrite Forall_forall in Hpaths. destruct (Hpaths _ Hin') as (_&Hn&_). simpl in Hn. rewrite Hp, Heq in Hn. apply Forall_app in Hn as [Hn _]. by apply Forall_app in Hn as [? _].
  - exists path, isd, (q ++ r). split_and!; [done|by rewrite Hp, Heq, <- app_assoc|]. destruct q, r; simpl; by rewrite ?orb_false_r.
Qed.
End Session.

(** The sender has the file "k" and the directory "a" with the file "f". *)
Definition demo_scan : list (list byte * bool) := [(cs "k", false); (cs "a/f", false); (cs "/a/", true)].
Definition demo_created : DeletePlanSender :=
  match @delete_plan_sender_create heap0 with Ret t => t | _ => MkSender [] 0 0 false false None None None None None 0 0 end.
Definition demo_table : DeletePlanSender := match @plan_scan heap0 demo_created demo_scan None with Ret t => t | _ => demo_created end.

Lemma demo_paths : Forall (fun e => scanned_path e.1) (whole_scan demo_scan None).
Proof.
  assert (Hname : forall n : name, n ∈ [cs "k"; cs "a"; cs "f"] -> name_ok n).
  { intros n Hn. unfold name_ok. revert n Hn. apply Forall_forall. apply (bool_decide_eq_true_1 _). by vm_compute. }
  assert (Hp : forall i j p, Forall (fun n => n ∈ [cs "k"; cs "a"; cs "f"]) p -> p <> [] -> comps (replicate i slash ++ join p ++ replicate j slash) = p ->
    zlen (replicate i slash ++ join p ++ replicate j slash) < 2 ^ 32 -> scanned_path (replicate i slash ++ join p ++ replicate j slash)).
  { intros i j p Hp Hne Hc Hz. unfold scanned_path. rewrite Hc. split_and!; [by exists i, j|by eapply Forall_impl|done|done]. }
  repeat apply Forall_cons_2; [apply (Hp 0%nat 0%nat [cs "k"])|apply (Hp 0%nat 0%nat [cs "a"; cs "f"])|apply (Hp 1%nat 1%nat [cs "a"])|apply Forall_nil_2];
    first [by vm_compute|apply (bool_decide_eq_true_1 _); by vm_compute].
Qed.
(** Its two plans, the sections with the second. *)
Definition demo_root_plan : plan := MkPlanFrame true (cs ".") [cs "a"] [cs "k"].
Definition demo_a_plan : plan := MkPlanFrame true (cs "a") [] [cs "f"].
Definition demo_sent : list byte := demo_frame None demo_root_plan ++ demo_frame (Some ([], [], [])) demo_a_plan.
Lemma demo_table_plans pl : pl = demo_root_plan \/ pl = demo_a_plan -> frame_of demo_table pl.
Proof.
  intros [->| ->].
  - exists []. split_and!; [constructor|by vm_compute|done|]. intros _. split; by vm_compute.
  - exists [cs "a"]. split_and!; [|by vm_compute|done|]; [|intros _; split; by vm_compute]. apply Forall_singleton. unfold name_ok. apply (bool_decide_eq_true_1 _). by vm_compute.
Qed.

Lemma scanned_entries_survive_witness :
  exists w' res s' fs1 fs' log, @serve_session heap0 hash_const no_faults (demo_env false) plain_wire ENOENT (demo_config true) 2 (demo_session true) commit_fs (demo_peer demo_sent)
      = (w', Ret (res, s', (fs1, fs'), log)) /\ length log = 2%nat /\
    kind_at fs' [cs "srv"; cs "d"; cs "a"; cs "f"] = Some (KLeaf false 3) /\ kind_at fs' [cs "srv"; cs "d"; cs "a"; cs "snap"; cs "z"] = None.
Proof.
  destruct (@scanned_entries_survive heap0 hash_const no_faults (demo_env false) plain_wire ENOENT (demo_config true) (heap0_serves _) [cs "srv"; cs "d"] (cs "/srv/d") (cs "/srv/d")
    eq_refl eq_refl eq_refl ltac:(by vm_compute) ltac:(by vm_compute) ltac:(by vm_compute) demo_created demo_table demo_scan None
    2 (demo_session true) commit_fs (demo_peer demo_sent)) as (w'&res&s'&fs1&fs'&log&Er&Hk).
  - by vm_compute.
  - by vm_compute.
  - apply demo_paths.
  - by vm_compute.
  - by vm_compute.
  - apply commit_fs_wf.
  - exists w', res, s', fs1, fs', log. split; [exact Er|].
    assert (base [cs "srv"; cs "d"] (cs "/srv/d") (cs "/srv/d") = [cs "srv"; cs "d"]) as Hb by (by vm_compute). rewrite Hb in Hk.
    assert (Hlog : length log = 2%nat /\ log.*2 = [demo_root_plan; demo_a_plan] /\ Forall (fun x => cells (ps_missing x.1) = []) log /\ kind_at fs' [cs "srv"; cs "d"; cs "a"; cs "snap"; cs "z"] = None).
    { clear Hk. vm_compute in Er. injection Er as _ _ _ _ <- <-. split_and!; [done|done|repeat constructor|by vm_compute]. }
    destruct Hlog as (Hlen&Hpl&Hmi&Hz). split; [done|]. split; [|exact Hz].
    destruct (Hk ltac:(intros x Hx; apply demo_table_plans; assert (x.2 ∈ log.*2) as Hx2 by (by apply list_elem_of_fmap_2); rewrite Hpl in Hx2;
        apply elem_of_cons in Hx2 as [->|Hx2%list_elem_of_singleton]; [by left|by right])
      (cs "a/f") false [cs "a"; cs "f"] [] (KLeaf false 3)) as [Hx|(s0&pl0&Hin0&_&skips&rel&_&Hrel&_)]; [by right; left|by vm_compute|done|by vm_compute|by vm_compute|exact Hx|].
    exfalso. rewrite Forall_forall in Hmi. specialize (Hmi _ Hin0). simpl in Hmi. rewrite Hmi in Hrel. by apply not_elem_of_nil in Hrel.
Defined.
