(* ===== verification/DeletePlanWire.v ===== *)
(** Delete plans on the wire: what [delete_plan_send_all] transmits, frame by
    frame, and what the receiver makes of it. *)

From stdpp Require Import gmap strings.
From S2P Require Import Prelude Alloc DataBuf CStr Paths ArrayList Transport Session Charset Chunk ConfigWire ConfigTrip DeleteTree DeleteSafe SecureFs SecureSafe DeleteManifest DeletePlan DeletePlanSafe DeletePlanRun DeletePlanSend DeletePlanTable DeletePlanKeep.

#[local] Open Scope Z_scope.

(** ** Senders with a result *)

(** [f] hands exactly [m] to the transport and returns [a]. *)
Definition yields {A} (f : io A) (m : list byte) (a : A) : Prop :=
  forall w k, 0 <= k -> steady_tx (w_net w) (zlen m + k) ->
    exists w', f w = (w', Ret a) /\ n_out (w_net w') = n_out (w_net w) ++ m /\ steady_tx (w_net w') k.

Lemma yields_produces f m : produces f m <-> yields f m tt.
Proof. done. Qed.
Lemma yields_ret {A} (a : A) : yields (io_ret a) [] a.
Proof. intros w k _ Hst. exists w. split_and!; [done|by rewrite app_nil_r|done]. Qed.
Lemma yields_bind {A B} (f : io A) (g : A -> io B) m1 m2 a b : yields f m1 a -> yields (g a) m2 b -> yields (io_bind f g) (m1 ++ m2) b.
Proof.
  intros Hf Hg w k Hk Hst. rewrite zlen_app in Hst. pose proof (zlen_nonneg m2).
  destruct (Hf w (zlen m2 + k)) as (w1&E1&Ho1&Hst1); [lia|by rewrite Z.add_assoc|].
  destruct (Hg w1 k) as (w2&E2&Ho2&Hst2); [done..|]. exists w2. unfold io_bind. rewrite E1, E2.
  split_and!; [done| |done]. by rewrite Ho2, Ho1, app_assoc.
Qed.
Lemma yields_then {A B} (f : io A) (g : A -> io B) m a b : yields f [] a -> yields (g a) m b -> yields (io_bind f g) m b.
Proof. apply (yields_bind f g [] m). Qed.
Lemma yields_of {A} (m : outcome A) a : m = Ret a -> yields (io_of m) [] a.
Proof. intros ->. apply yields_ret. Qed.

(** ** Frames *)

Record frame := MkFrame { fr_config : bool; fr_plan : plan }.
Definition fr_dir (fr : frame) : list byte := pl_dir (fr_plan fr).

Section Wire.
Context `{HH : Heap} (WS WR : WireCharset) (Hheap : heap_serves (2 ^ 63)).

Definition sections_wire (t : DeletePlanSender) : list byte :=
  counted WS (cells_or (t_protected t)) ++ counted WS (cells_or (t_size_skipped t)) ++ counted WS (cells_or (t_missing t)).
Definition plan_wire (pl : plan) : list byte :=
  int_wire (Z.b2z (pl_apply pl)) ++ wire_of WS (pl_dir pl) ++ counted WS (pl_dirs pl) ++ counted WS (pl_files pl).
Definition frame_wire (t : DeletePlanSender) (fr : frame) : list byte :=
  put_le 4 STATUS_DELETE_PLAN ++ (if fr_config fr then int_wire 1 ++ sections_wire t else int_wire 0) ++ plan_wire (fr_plan fr).
Definition frames_wire (t : DeletePlanSender) (frs : list frame) : list byte := concat (frame_wire t <$> frs).

(** All the names travel. *)
Definition sections_travel (t : DeletePlanSender) : Prop :=
  Forall (name_travels WS WR) (cells_or (t_protected t) ++ cells_or (t_size_skipped t) ++ cells_or (t_missing t)).
Definition names_travel (t : DeletePlanSender) : Prop :=
  sections_travel t /\ name_travels WS WR (cs ".") /\
  forall dir nd, plan_find t dir = Some nd -> Forall (name_travels WS WR) (dir :: cells (n_dirs nd) ++ cells (n_files nd)).
Definition wf_table (t : DeletePlanSender) : Prop := exists m, table_ok m t.

(** What the sender has done: the plans are those of the table, each once. *)
Definition contents (nd : PlanNode) : list byte * list (list byte) * list (list byte) := (n_dir nd, cells (n_dirs nd), cells (n_files nd)).
Definition plan_of (nd : PlanNode) : plan := MkPlanFrame true (n_dir nd) (cells (n_dirs nd)) (cells (n_files nd)).
Definition root_frame : plan := MkPlanFrame false (cs ".") [] [].
Definition own_plan (t : DeletePlanSender) (fr : frame) : Prop :=
  (pl_apply (fr_plan fr) = false -> fr_plan fr = root_frame) /\
  (pl_apply (fr_plan fr) = true -> plan_is_allowed t (fr_dir fr) = true /\ is_sent t (fr_dir fr) = false /\
    exists nd, plan_find t (fr_dir fr) = Some nd /\ fr_plan fr = plan_of nd).
Definition applied_dirs (frs : list frame) : list (list byte) := fr_dir <$> filter (fun fr => pl_apply (fr_plan fr) = true) frs.
(** The sections go with the first frame. *)
Fixpoint flagged (c : bool) (frs : list frame) (c' : bool) : Prop :=
  match frs with [] => c' = c | fr :: frs => fr_config fr = negb c /\ flagged true frs c' end.

Record sent (t : DeletePlanSender) (frs : list frame) (t' : DeletePlanSender) : Prop := {
  se_wf : wf_table t -> wf_table t';
  se_orders : t_all_synced t' = t_all_synced t /\ t_synced_dirs t' = t_synced_dirs t /\ t_walk_root t' = t_walk_root t /\
    t_protected t' = t_protected t /\ t_size_skipped t' = t_size_skipped t /\ t_missing t' = t_missing t;
  se_same dir : contents <$> plan_find t' dir = contents <$> plan_find t dir;
  se_marks dir : is_sent t' dir = true <-> is_sent t dir = true \/ dir ∈ applied_dirs frs;
  se_own : Forall (own_plan t) frs;
  se_once : NoDup (applied_dirs frs);
  se_flags : flagged (t_config_sent t) frs (t_config_sent t');
}.

Lemma applied_app a b : applied_dirs (a ++ b) = applied_dirs a ++ applied_dirs b.
Proof. unfold applied_dirs. by rewrite filter_app, fmap_app. Qed.
Lemma applied_elem frs dir : dir ∈ applied_dirs frs <-> exists fr, fr ∈ frs /\ pl_apply (fr_plan fr) = true /\ fr_dir fr = dir.
Proof. unfold applied_dirs. rewrite list_elem_of_fmap. setoid_rewrite list_elem_of_filter. naive_solver. Qed.
Lemma flagged_app a b c1 c2 c3 : flagged c1 a c2 -> flagged c2 b c3 -> flagged c1 (a ++ b) c3.
Proof. revert c1. induction a as [|fr a IH]; simpl; intros c1; [by intros ->|]. intros [? ?] ?. split; [done|]. by apply IH. Qed.
Lemma flagged_true frs c : flagged true frs c -> c = true.
Proof. induction frs as [|fr frs IH]; [done|]. intros [_ Hfl]. by apply IH. Qed.
Lemma allowed_same t t' dir : sent t [] t' \/ t_all_synced t' = t_all_synced t /\ t_synced_dirs t' = t_synced_dirs t /\ t_walk_root t' = t_walk_root t ->
  plan_is_allowed t' dir = plan_is_allowed t dir.
Proof. unfold plan_is_allowed. by intros [[_ (->&->&->&_)]|(->&->&->)]. Qed.
Lemma sent_wire t frs t' fs : sent t frs t' -> frames_wire t' fs = frames_wire t fs.
Proof. intros [_ (_&_&_&E1&E2&E3) _ _ _ _ _]. unfold frames_wire. f_equal. apply list_fmap_ext. intros _ fr _. unfold frame_wire, sections_wire. by rewrite E1, E2, E3. Qed.

Lemma sent_refl t : sent t [] t.
Proof. split; try done; [intros dir; unfold applied_dirs; simpl; rewrite elem_of_nil; tauto|constructor]. Qed.
Lemma own_later t frs t' fr : sent t frs t' -> own_plan t' fr -> own_plan t fr.
Proof.
  intros [_ (E1&E2&E3&_) Hsame Hmarks _ _ _] [Hno Hown]. split; [done|]. intros Hap. destruct (Hown Hap) as (Hal&Hs&nd&Hnd&Hpl). rewrite (allowed_same t) in Hal by (by right). split; [done|]. split.
  - destruct (is_sent t (fr_dir fr)) eqn:Es; [|done]. rewrite (proj2 (Hmarks _) (or_introl Es)) in Hs. done.
  - specialize (Hsame (fr_dir fr)). rewrite Hnd in Hsame. destruct (plan_find t (fr_dir fr)) as [nd0|]; [|done]. exists nd0. split; [done|].
    injection Hsame as H1 H2 H3. unfold plan_of in *. by rewrite <- H1, <- H2, <- H3.
Qed.
Lemma sent_trans t1 a t2 b t3 : sent t1 a t2 -> sent t2 b t3 -> sent t1 (a ++ b) t3.
Proof.
  intros H1 H2. pose proof H1 as [W1 (A1&B1&C1&D1&E1&F1) S1 M1 O1 N1 L1]. pose proof H2 as [W2 (A2&B2&C2&D2&E2&F2) S2 M2 O2 N2 L2]. split.
  - auto.
  - split_and!; congruence.
  - intros dir. by rewrite S2, S1.
  - intros dir. rewrite M2, M1, applied_app, elem_of_app. tauto.
  - apply Forall_app_2; [done|]. eapply Forall_impl; [exact O2|]. intros fr. by apply (own_later _ _ _ _ H1).
  - rewrite applied_app. apply NoDup_app. split_and!; [done| |done]. intros dir Ha (fr&Hfr&Hap&<-)%applied_elem.
    rewrite Forall_forall in O2. destruct (proj2 (O2 _ Hfr) Hap) as (_&Hs&_). rewrite (proj2 (M1 _) (or_intror Ha)) in Hs. done.
  - by eapply flagged_app.
Qed.
Lemma sent_travel t frs t' : sent t frs t' -> names_travel t -> names_travel t'.
Proof.
  intros [_ (_&_&_&E1&E2&E3) Hsame _ _ _ _] (Hs&Hd&Hn). split; [unfold sections_travel; by rewrite E1, E2, E3|]. split; [done|]. intros dir nd Hnd.
  specialize (Hsame dir). rewrite Hnd in Hsame. destruct (plan_find t dir) as [nd0|] eqn:E0; [|done]. injection Hsame as H1 H2 H3. rewrite H2, H3. by apply (Hn dir nd0).
Qed.

(** [f] sends frames of the table. *)
Definition sends (t : DeletePlanSender) (f : io DeletePlanSender) (Q : DeletePlanSender -> Prop) : Prop :=
  exists frs t', yields f (frames_wire t frs) t' /\ sent t frs t' /\ Q t'.
Lemma frames_app t a b : frames_wire t (a ++ b) = frames_wire t a ++ frames_wire t b.
Proof. unfold frames_wire. by rewrite fmap_app, concat_app. Qed.
Lemma sends_ret t (Q : DeletePlanSender -> Prop) : Q t -> sends t (io_ret t) Q.
Proof. intros Hq. exists [], t. split; [apply yields_ret|]. split; [apply sent_refl|done]. Qed.
Lemma sends_bind t f g (P Q : DeletePlanSender -> Prop) : sends t f P ->
  (forall frs t', sent t frs t' -> P t' -> sends t' (g t') Q) -> sends t (io_bind f g) Q.
Proof.
  intros (a&t1&Hy&Hs&Hp) Hg. destruct (Hg a t1 Hs Hp) as (b&t2&Hy2&Hs2&Hq). exists (a ++ b), t2. split; [|split; [by eapply sent_trans|done]].
  rewrite frames_app. eapply yields_bind; [exact Hy|]. by rewrite (sent_wire _ _ _ b Hs) in Hy2.
Qed.

(** *** One frame *)

Lemma yields_section l : Forall (name_travels WS WR) (cells_or l) -> yields (send_str_section (W := WS) l) (counted WS (cells_or l)) tt.
Proof. intros Hl. apply yields_bind with (a := tt); apply yields_produces; [apply send_count|by apply (send_section WS WR)]. Qed.
Lemma yields_config t : sections_travel t -> yields (send_config_block (W := WS) t) (sections_wire t) tt.
Proof.
  intros Hs. unfold sections_travel in Hs. rewrite !Forall_app in Hs. destruct Hs as (H1&H2&H3). unfold send_config_block, sections_wire.
  eapply yields_bind; [by apply yields_section|]. eapply yields_bind; by apply yields_section.
Qed.

Lemma mark_find m t dir : table_ok m t ->
  forall d, plan_find (mark_sent t dir) d = if decide (d = dir) then (fun nd => MkNode (n_dir nd) (n_files nd) (n_dirs nd) true) <$> plan_find t dir else plan_find t d.
Proof.
  intros Ht d. apply (set_node_find m t dir _ Ht); [done|]. intros nd Hnd _. pose proof (tb_lists _ _ Ht) as Hl. rewrite Forall_forall in Hl. destruct (Hl nd Hnd).
  split; (eapply list_ok_mono; [done|lia]).
Qed.
Lemma mark_wf t dir : wf_table t -> wf_table (mark_sent t dir).
Proof.
  intros [m Ht]. exists (m + 1). apply set_node_ok; [done|done|]. intros nd Hnd _. pose proof (tb_lists _ _ Ht) as Hl. rewrite Forall_forall in Hl. destruct (Hl nd Hnd).
  split; (eapply list_ok_mono; [done|lia]).
Qed.
Definition configured (t : DeletePlanSender) : DeletePlanSender := if t_config_sent t then t else set_config_sent t.
Lemma configured_find t dir : plan_find (configured t) dir = plan_find t dir.
Proof. unfold configured. by destruct (t_config_sent t). Qed.
Lemma configured_wf t : wf_table t -> wf_table (configured t).
Proof. intros [m Ht]. exists m. unfold configured. destruct (t_config_sent t); [done|]. by destruct Ht. Qed.

Lemma node_sends t dir nd : wf_table t -> names_travel t -> plan_find t dir = Some nd -> n_sent nd = false -> plan_is_allowed t dir = true ->
  sends t (send_plan_node (W := WS) t nd) (fun t' => is_sent t' dir = true).
Proof.
  intros Hwf (Hsec&_&Hn) Hf Hns Hal. pose proof Hwf as [m Ht]. assert (n_dir nd = dir) as Hd by (by destruct (proj1 (plan_find_iff _ _ _ _ Ht) Hf)).
  specialize (Hn _ _ Hf). apply Forall_cons in Hn as [Hnd [Hnd1 Hnd2]%Forall_app]. pose proof (configured_wf t Hwf) as [m' Hm'].
  assert (Hfind : forall d, plan_find (mark_sent (configured t) dir) d = if decide (d = dir) then Some (MkNode (n_dir nd) (n_files nd) (n_dirs nd) true) else plan_find t d).
  { intros d. rewrite (mark_find m' _ _ Hm'), !configured_find. by rewrite Hf. }
  exists [MkFrame (negb (t_config_sent t)) (plan_of nd)], (mark_sent (configured t) dir). split_and!.
  - unfold frames_wire. cbn [fmap list_fmap concat]. rewrite app_nil_r. unfold frame_wire, send_plan_node, plan_wire. cbn [fr_config fr_plan plan_of pl_apply pl_dir pl_dirs pl_files]. rewrite Hd.
    eapply yields_bind; [apply yields_produces, produces_send|]. unfold configured. destruct (t_config_sent t); cbn [negb].
    + eapply yields_bind; [apply yields_produces, send_count|]. eapply yields_then; [apply yields_ret|].
      eapply yields_bind; [apply yields_produces, send_count|]. eapply yields_bind; [by eapply yields_produces, send_name|].
      eapply yields_bind; [by apply yields_section|]. rewrite <- (app_nil_r (counted WS (cells (n_files nd)))). eapply yields_bind; [by apply yields_section|apply yields_ret].
    + rewrite <- app_assoc. eapply yields_bind; [apply yields_produces, send_count|]. eapply yields_bind.
      { rewrite <- (app_nil_r (sections_wire t)). eapply yields_bind; [by apply yields_config|apply yields_ret]. }
      eapply yields_bind; [apply yields_produces, send_count|]. eapply yields_bind; [by eapply yields_produces, send_name|].
      eapply yields_bind; [by apply yields_section|]. rewrite <- (app_nil_r (counted WS (cells (n_files nd)))). eapply yields_bind; [by apply yields_section|apply yields_ret].
  - split.
    + intros _. by apply mark_wf, configured_wf.
    + unfold configured. destruct (t_config_sent t); by split_and!.
    + intros d. rewrite Hfind. case_decide as Hdd; [subst d; by rewrite Hf|done].
    + intros d. unfold is_sent. rewrite Hfind. unfold applied_dirs. rewrite filter_cons_True by done. rewrite filter_nil. cbn [fmap list_fmap]. rewrite list_elem_of_singleton.
      unfold fr_dir. cbn [fr_plan plan_of pl_dir]. rewrite Hd. case_decide as Hdd; [subst d; rewrite Hf; simpl; tauto|]. split; [by left|]. by intros [?|?].
    + constructor; [|constructor]. split; [done|]. intros _. unfold fr_dir, is_sent. cbn [fr_plan plan_of pl_dir]. rewrite Hd, Hf. split_and!; [done|done|]. by exists nd.
    + unfold applied_dirs. rewrite filter_cons_True by done. rewrite filter_nil. apply NoDup_singleton.
    + simpl. split; [done|]. unfold configured. by destruct (t_config_sent t) eqn:Ec.
  - unfold is_sent. by rewrite Hfind, decide_True.
Qed.

Lemma config_sends t : wf_table t -> names_travel t -> sends t (send_config_only (W := WS) t) (fun t' => t_config_sent t' = true).
Proof.
  intros Hwf (Hsec&Hdot&_). unfold send_config_only. destruct (t_config_sent t) eqn:Ec; [by apply sends_ret|].
  exists [MkFrame true root_frame], (set_config_sent t). split_and!; [| |done].
  - unfold frames_wire. cbn [fmap list_fmap concat]. rewrite app_nil_r. unfold frame_wire, plan_wire. cbn [fr_config fr_plan root_frame pl_apply pl_dir pl_dirs pl_files]. rewrite <- app_assoc.
    eapply yields_bind; [apply yields_produces, produces_send|]. eapply yields_bind; [apply yields_produces, send_count|]. eapply yields_bind; [by apply yields_config|].
    eapply yields_bind; [apply yields_produces, send_count|]. eapply yields_bind; [by eapply yields_produces, send_name|]. unfold counted, section_wire. simpl concat. rewrite !app_nil_r.
    eapply yields_bind; [apply yields_produces, send_count|]. rewrite <- (app_nil_r (int_wire (zlen []))). eapply yields_bind; [apply yields_produces, send_count|apply yields_ret].
  - assert (Hap : applied_dirs [MkFrame true root_frame] = []) by (unfold applied_dirs; rewrite filter_cons_False by done; by rewrite filter_nil).
    split; rewrite ?Hap; try done.
    + intros [m Ht]. exists m. by destruct Ht.
    + intros dir. rewrite elem_of_nil. unfold is_sent, plan_find. simpl. tauto.
    + constructor; [|constructor]. by split.
    + constructor.
    + simpl. by rewrite Ec.
Qed.

(** The plan of [dir] has gone out, unless there is none to send. *)
Definition done_with (t : DeletePlanSender) (dir : list byte) : Prop :=
  match plan_find t dir with Some nd => n_sent nd || negb (plan_is_allowed t dir) = true | None => True end.
Lemma done_later t frs t' dir : sent t frs t' -> done_with t dir -> done_with t' dir.
Proof.
  intros Hs. pose proof Hs as [_ (E1&E2&E3&_) Hsame Hmarks _ _ _]. unfold done_with. specialize (Hsame dir). specialize (Hmarks dir). unfold is_sent in Hmarks. rewrite (allowed_same t t') by (by right).
  destruct (plan_find t dir) as [nd|], (plan_find t' dir) as [nd'|]; try done. rewrite !orb_true_iff. intros [Hx|Hx]; [|by right]. left. apply Hmarks. by left.
Qed.
Lemma prefix_sends t dir : wf_table t -> names_travel t -> sends t (send_prefix_plan (W := WS) t dir) (fun t' => done_with t' dir).
Proof.
  intros Hwf Hn. unfold send_prefix_plan. destruct (plan_find t dir) as [nd|] eqn:Ef; [|apply sends_ret; unfold done_with; by rewrite Ef].
  destruct (n_sent nd || negb (plan_is_allowed t dir)) eqn:Es; [apply sends_ret; unfold done_with; by rewrite Ef|]. apply orb_false_iff in Es as [Hs Ha%negb_false_iff].
  destruct (node_sends t dir nd) as (frs&t'&?&?&Hq); [done..|]. exists frs, t'. split_and!; [done..|]. unfold done_with, is_sent in *. destruct (plan_find t' dir); [|done]. by rewrite Hq.
Qed.

(** *** All the plans *)

Lemma sends_mono t f (P Q : DeletePlanSender -> Prop) : sends t f P -> (forall frs t', sent t frs t' -> P t' -> Q t') -> sends t f Q.
Proof. intros (frs&t'&?&?&?) HQ. exists frs, t'. split_and!; [done..|]. by eapply HQ. Qed.

Lemma loop_sends clean end_ : zlen clean < 2 ^ 32 -> (end_ <= length clean)%nat -> forall n i t, wf_table t -> names_travel t ->
  sends t (prefixes_loop (W := WS) n i end_ t clean) (fun t' => forall j, (i <= j < i + n)%nat -> (j <= end_)%nat -> j = end_ \/ char_is clean j slash = true -> done_with t' (take j clean)).
Proof.
  intros Hz He. induction n as [|n IH]; intros i t Hwf Hn; cbn [prefixes_loop]; [apply sends_ret; intros j Hj; lia|].
  destruct (Nat.ltb_spec end_ i); [apply sends_ret; intros j Hj; lia|]. destruct ((i =? end_)%nat || char_is clean i slash) eqn:Ec.
  - unfold io_check. rewrite (heap_serves_malloc _ _ Hheap) by (unfold zlen in *; lia).
    assert (Hs : sends t (t' <~ send_prefix_plan (W := WS) t (take i clean); prefixes_loop (W := WS) n (S i) end_ t' clean)
      (fun t' => forall j, (i <= j < i + S n)%nat -> (j <= end_)%nat -> j = end_ \/ char_is clean j slash = true -> done_with t' (take j clean))); [|destruct Hs as (frs&t'&Hy&?&?); exists frs, t'; split; [|done]; eapply yields_then; [apply (yields_ret tt)|done]].
    eapply sends_bind; [by apply prefix_sends|]. cbn beta. intros frs t1 Hs1 Hd1. eapply sends_mono; [apply IH; [by apply (se_wf _ _ _ Hs1)|by eapply sent_travel]|]. cbn beta.
    intros frs2 t2 Hs2 Hd2 j Hj Hje Hc. destruct (decide (j = i)) as [->|Hne]; [by eapply done_later|]. apply Hd2; [lia|done|done].
  - eapply sends_mono; [by apply IH|]. cbn beta. intros frs2 t2 Hs2 Hd2 j Hj Hje Hc. apply orb_false_iff in Ec as [E1%Nat.eqb_neq E2].
    destruct (decide (j = i)) as [->|Hne]; [destruct Hc; congruence|]. apply Hd2; [lia|done|done].
Qed.

Lemma join_prefix q r : q <> [] -> r <> [] -> join (q ++ r) = join q ++ slash :: join r.
Proof.
  intros Hq Hr. induction q as [|n q IH]; [done|]. destruct (decide (q = [])) as [->|Hq']; [simpl app; by rewrite join_cons|].
  change ((n :: q) ++ r) with (n :: (q ++ r)). rewrite !join_cons by (by destruct q). rewrite IH by done. by rewrite <- !app_assoc.
Qed.

Lemma path_sends t path : wf_table t -> names_travel t -> scanned_path path ->
  sends t (delete_plan_send_for_path (W := WS) t path true) (fun t' => forall q, q `prefix_of` comps path -> (q = [] -> t_walk_root t = None) -> done_with t' (rel_of q)).
Proof.
  intros Hwf Hn (Hsp&Hnm&Hne&Hz). destruct (clean_spec Hheap path (comps path) Hnm Hne Hsp Hz) as [Hcl Hzj]. unfold delete_plan_send_for_path. rewrite Hcl.
  set (p := comps path) in *. assert (Hjn : join p <> []) by (by apply join_nonempty).
  assert (Hs : sends t (t' <~ match t_walk_root t with Some _ => io_ret t | None => send_prefix_plan (W := WS) t (cs ".") end;
     if bool_decide (join p = []) then io_ret t' else prefixes_loop (W := WS) (length (join p)) 1 (length (join p)) t' (join p))
     (fun t' => forall q, q `prefix_of` p -> (q = [] -> t_walk_root t = None) -> done_with t' (rel_of q)));
    [|destruct Hs as (frs&t'&Hy&?&?); exists frs, t'; split; [|done]; eapply yields_then; [apply (yields_ret (join p))|done]].
  eapply sends_bind; [instantiate (1 := fun t' => t_walk_root t = None -> done_with t' (cs "."))|].
  { destruct (t_walk_root t); [by apply sends_ret|]. eapply sends_mono; [by apply prefix_sends|]. by intros. }
  cbn beta. intros frs t1 Hs1 Hd1. rewrite bool_decide_eq_false_2 by done.
  eapply sends_mono; [apply loop_sends; [lia|done|by apply (se_wf _ _ _ Hs1)|by eapply sent_travel]|]. cbn beta. intros frs2 t2 Hs2 Hd2 q [r Hr] Hroot.
  destruct q as [|n q]; [eapply done_later; [exact Hs2|]; by apply Hd1, Hroot|]. assert (Hq : Forall name_ok (n :: q)) by (rewrite Hr in Hnm; by apply Forall_app in Hnm as [? _]).
  pose proof (join_nonempty _ Hq ltac:(done)) as Hq0. assert (1 <= length (join (n :: q)))%nat by (destruct (join (n :: q)); [done|simpl; lia]). change (rel_of (n :: q)) with (join (n :: q)). destruct r as [|x r].
  - rewrite app_nil_r in Hr. specialize (Hd2 (length (join p))). rewrite firstn_all in Hd2. rewrite <- Hr. rewrite <- Hr in *. apply Hd2; [lia|lia|by left].
  - assert (Ej : join p = join (n :: q) ++ slash :: join (x :: r)) by (rewrite Hr; by apply join_prefix). specialize (Hd2 (length (join (n :: q)))).
    rewrite Ej, take_app_length, length_app in Hd2. apply Hd2; [cbn [length]; lia|lia|]. right. unfold char_is. rewrite lookup_app_r, Nat.sub_diag by done. by apply bool_decide_eq_true_2.
Qed.

Lemma dirs_sends dirs : Forall scanned_path dirs -> forall t, wf_table t -> names_travel t ->
  sends t (send_dirs (W := WS) dirs t) (fun t' => forall dir q, dir ∈ dirs -> q `prefix_of` comps dir -> (q = [] -> t_walk_root t = None) -> done_with t' (rel_of q)).
Proof.
  induction 1 as [|dir dirs Hdir Hdirs IH]; intros t Hwf Hn; cbn [send_dirs]; [apply sends_ret; by intros ? ? ?%not_elem_of_nil|].
  eapply sends_bind; [by apply path_sends|]. cbn beta. intros frs t1 Hs1 Hd1. eapply sends_mono; [apply IH; [by apply (se_wf _ _ _ Hs1)|by eapply sent_travel]|]. cbn beta.
  pose proof Hs1 as [_ (_&_&->&_) _ _ _ _ _]. intros frs2 t2 Hs2 Hd2 d q [->|Hin]%elem_of_cons Hq Hw; [by eapply done_later, Hd1|by eapply Hd2].
Qed.

(** ** The receiver *)

Definition accepts (rel_path : bool) (s : list byte) : Prop := (if rel_path then valid_rel_path s else valid_name s) = true.
Lemma plan_entry_ret rel_path s bytes l k :
  al_repr l k -> al_capacity l <= 2 ^ 30 -> zlen k < 2 ^ 29 -> accepts rel_path s -> 0 <= bytes -> bytes + entry_charge s <= MAX_MANIFEST_BYTES ->
  exists l', plan_entry rel_path s bytes l = Ret (l', bytes + entry_charge s) /\ al_repr l' (k ++ [s]) /\ al_capacity l' <= 2 ^ 30.
Proof.
  intros Hl Hc Hk Hok Hb Hz. unfold entry_charge, MANIFEST_ENTRY_OVERHEAD, MAX_MANIFEST_BYTES in *. pose proof (zlen_nonneg s).
  assert (Hs : heap_serves (2 ^ 34)) by (intros n Hn; apply Hheap; lia). destruct (array_list_add_repr l k s Hl) as (l'&Ea&Hl'&Hcap); [lia|done|done|]. exists l'.
  unfold plan_entry, MAX_MANIFEST_BYTES. unfold accepts in Hok. rewrite Hok, Ea. rewrite !u64_small by lia. destruct (Z.gtb_spec (zlen s + 8 + 16) (16 * 1024 * 1024 - bytes)); [lia|].
  simpl. split_and!; [by rewrite <- !Z.add_assoc|done|lia].
Qed.
Lemma plan_entries_read rel_path names : forall l k bytes,
  al_repr l k -> al_capacity l <= 2 ^ 30 -> zlen k + zlen names <= 2 ^ 29 -> Forall (name_travels WS WR) names -> Forall (accepts rel_path) names ->
  0 <= bytes -> bytes + total_charge names <= MAX_MANIFEST_BYTES ->
  exists l', al_repr l' (k ++ names) /\ reads (plan_section_loop (W := WR) (length names) rel_path l bytes) (section_wire WS names) (l', bytes + total_charge names).
Proof.
  induction names as [|s names IH]; intros l k bytes Hl Hc Hk Ht Ho Hb Hz.
  - exists l. rewrite app_nil_r. split; [done|]. unfold total_charge. simpl. rewrite Z.add_0_r. apply consumes_ret.
  - apply Forall_cons in Ht as [Hs Ht], Ho as [Hso Ho]. change (s :: names) with ([s] ++ names) in Hz |- *.
    rewrite total_charge_app, total_charge_one in *. pose proof (total_charge_nonneg names). rewrite zlen_cons in Hk. pose proof (zlen_nonneg names).
    destruct (plan_entry_ret rel_path s bytes l k) as (l1&E1&Hl1&Hc1); [done|done|lia|done|done|lia|].
    destruct (IH l1 (k ++ [s]) (bytes + entry_charge s)) as (l2&Hl2&Hr2); [done|done|rewrite zlen_app; change (zlen [s]) with 1; lia|done|done| |lia|].
    { unfold entry_charge, MANIFEST_ENTRY_OVERHEAD. pose proof (zlen_nonneg s). lia. }
    exists l2. split; [by rewrite <- app_assoc in Hl2|]. simpl length. cbn [plan_section_loop]. eapply reads_bind; [by apply read_name|].
    eapply reads_then; [by apply reads_of|]. simpl. by rewrite <- Z.add_assoc in Hr2.
Qed.

Definition section_fits (rel_path : bool) (names : list (list byte)) : Prop :=
  Forall (name_travels WS WR) names /\ Forall (accepts rel_path) names /\ zlen names <= MAX_MANIFEST_ENTRIES.
Definition empty_list (l : ArrayList (list byte)) : Prop := al_repr l [] /\ al_capacity l <= 2 ^ 30.
Lemma plan_section_read rel_path names l bytes : empty_list l -> section_fits rel_path names -> 0 <= bytes -> bytes + total_charge names <= MAX_MANIFEST_BYTES ->
  exists l', cells l' = names /\ reads (DeletePlan.read_section (W := WR) l rel_path bytes) (counted WS names) (l', bytes + total_charge names).
Proof.
  intros [Hl Hc] (Ht&Ho&Hn) Hb Hz. unfold MAX_MANIFEST_ENTRIES in *. pose proof (zlen_nonneg names).
  destruct (plan_entries_read rel_path names l [] bytes) as (l'&Hl'&Hr); [done|done|change (zlen []) with 0; lia|done..|]. exists l'. split; [by apply cells_repr|].
  eapply reads_bind; [apply reads_i32; unfold int_range; lia|]. eapply reads_then.
  { apply consumes_check. unfold MAX_MANIFEST_ENTRIES. destruct (Z.ltb_spec (zlen names) 0); [lia|]. destruct (Z.gtb_spec (zlen names) (1024 * 1024)); [lia|]. done. }
  unfold zlen. by rewrite Nat2Z.id.
Qed.

Definition sections_fit (t : DeletePlanSender) : Prop :=
  section_fits true (cells_or (t_protected t)) /\ section_fits true (cells_or (t_size_skipped t)) /\ section_fits true (cells_or (t_missing t)).
Definition sections_charge (t : DeletePlanSender) : Z :=
  total_charge (cells_or (t_protected t)) + total_charge (cells_or (t_size_skipped t)) + total_charge (cells_or (t_missing t)).
Definition plan_fits (t : DeletePlanSender) (pl : plan) : Prop :=
  plan_dir_ok (pl_dir pl) /\ name_travels WS WR (pl_dir pl) /\ section_fits false (pl_dirs pl) /\ section_fits false (pl_files pl) /\
  sections_charge t + total_charge (pl_dirs pl) + total_charge (pl_files pl) <= MAX_MANIFEST_BYTES.
(** The session holds the sections the sender has. *)
Definition has_sections (t : DeletePlanSender) (s : DeletePlanSession) : Prop :=
  cells (ps_protected s) = cells_or (t_protected t) /\ cells (ps_size_skipped s) = cells_or (t_size_skipped t) /\ cells (ps_missing s) = cells_or (t_missing t).
Definition no_sections (s : DeletePlanSession) : Prop := ps_config_seen s = false /\ empty_list (ps_protected s) /\ empty_list (ps_size_skipped s) /\ empty_list (ps_missing s).

Lemma reads_flag b : reads read_flag (int_wire (Z.b2z b)) (Z.b2z b).
Proof. eapply reads_last; [apply reads_i32; by destruct b|]. eapply reads_then; [apply consumes_check; by destruct b|apply consumes_ret]. Qed.

Lemma config_read t fr s : sections_fit t -> sections_charge t <= MAX_MANIFEST_BYTES -> (if fr_config fr then no_sections s else has_sections t s) ->
  exists s' n, reads (read_config (W := WR) s) (if fr_config fr then int_wire 1 ++ sections_wire t else int_wire 0) (s', n) /\ has_sections t s' /\ 0 <= n <= sections_charge t /\
    ps_state s' = ps_state s /\ ps_defer s' = ps_defer s /\ ps_defer_cap s' = ps_defer_cap s.
Proof.
  intros (F1&F2&F3) Hch Hs. unfold sections_charge in *. pose proof (total_charge_nonneg (cells_or (t_protected t))). pose proof (total_charge_nonneg (cells_or (t_size_skipped t))).
  pose proof (total_charge_nonneg (cells_or (t_missing t))). destruct (fr_config fr).
  - destruct Hs as (Hseen&E1&E2&E3).
    destruct (plan_section_read true _ _ 0 E1 F1) as (l1&C1&R1); [lia|lia|]. destruct (plan_section_read true _ _ (0 + total_charge (cells_or (t_protected t))) E2 F2) as (l2&C2&R2); [lia|lia|].
    destruct (plan_section_read true _ _ (0 + total_charge (cells_or (t_protected t)) + total_charge (cells_or (t_size_skipped t))) E3 F3) as (l3&C3&R3); [lia|lia|].
    exists (set_sections s l1 l2 l3). eexists. split; [|split; [by split_and!|split; [|done]]].
    + eapply reads_bind; [apply (reads_flag true)|]. eapply reads_then; [by apply consumes_check, negb_true_iff|].
      eapply reads_bind; [exact R1|]. eapply reads_bind; [exact R2|]. eapply reads_last; [exact R3|]. apply consumes_ret.
    + simpl. lia.
  - exists s, 0. split; [|split; [done|split; [lia|done]]]. eapply reads_last; [apply (reads_flag false)|]. apply consumes_ret.
Qed.

Lemma frame_read t fr s : sections_fit t -> plan_fits t (fr_plan fr) -> (if fr_config fr then no_sections s else has_sections t s) ->
  exists s', reads (read_plan (W := WR) s) ((if fr_config fr then int_wire 1 ++ sections_wire t else int_wire 0) ++ plan_wire (fr_plan fr)) (s', fr_plan fr) /\ has_sections t s' /\
    ps_state s' = ps_state s /\ ps_defer s' = ps_defer s /\ ps_defer_cap s' = ps_defer_cap s.
Proof.
  intros Hf (Hdir&Htr&Fd&Ff&Hch) Hs. pose proof (total_charge_nonneg (pl_dirs (fr_plan fr))). pose proof (total_charge_nonneg (pl_files (fr_plan fr))).
  destruct (config_read t fr s Hf) as (s'&n&Rc&Hh&Hn&Hkeep); [lia|done|]. destruct (create_list Hheap) as (a&Ea&Ha&Hac).
  destruct (plan_section_read false (pl_dirs (fr_plan fr)) a n) as (l1&C1&R1); [by split|done|lia|lia|].
  destruct (plan_section_read false (pl_files (fr_plan fr)) a (n + total_charge (pl_dirs (fr_plan fr)))) as (l2&C2&R2); [by split|done|lia|lia|].
  exists s'. split; [|done]. apply reads_on_fail. eapply reads_bind; [exact Rc|]. unfold plan_wire. eapply reads_bind; [apply reads_flag|]. eapply reads_bind; [by apply read_name|].
  do 2 (eapply reads_then; [by apply reads_of|]). eapply reads_then.
  { apply consumes_check. destruct Hdir as [Hd|Hd]; [by rewrite Hd|]. by rewrite Hd, orb_true_r. }
  eapply reads_bind; [exact R1|]. eapply reads_last; [exact R2|]. simpl. rewrite C1, C2. replace (_ =? 1) with (pl_apply (fr_plan fr)) by (by destruct (pl_apply (fr_plan fr))).
  destruct (fr_plan fr). apply consumes_ret.
Qed.

(** The frames of a connection, one after the other, without their effect. *)
Fixpoint receive_plans (n : nat) (s : DeletePlanSession) : io (DeletePlanSession * list plan) :=
  match n with
  | O => io_ret (s, [])
  | S n =>
      status <~ protocol_receive_status;
      io_check (status =? STATUS_DELETE_PLAN) >~
      r <~ read_plan (W := WR) s;
      q <~ receive_plans n (fst r);
      io_ret (fst q, snd r :: snd q)
  end.
Lemma frames_read t frs : sections_fit t -> forall c c' s, flagged c frs c' -> Forall (fun fr => plan_fits t (fr_plan fr)) frs ->
  (if c : bool then has_sections t s else no_sections s) ->
  exists s' d, consumes (receive_plans (length frs) s) (frames_wire t frs) (s', fr_plan <$> frs) d /\ (if c' : bool then has_sections t s' else no_sections s') /\
    ps_state s' = ps_state s /\ ps_defer s' = ps_defer s /\ ps_defer_cap s' = ps_defer_cap s.
Proof.
  intros Hf. induction frs as [|fr frs IH]; intros c c' s Hfl Hfit Hs; cbn [flagged receive_plans length] in *.
  { subst c'. exists s, id. split; [apply consumes_ret|done]. }
  destruct Hfl as [Hc Hfl]. apply Forall_cons in Hfit as [Hfr Hfit]. destruct (frame_read t fr s Hf Hfr) as (s1&R1&H1&K1); [rewrite Hc; by destruct c|].
  destruct (IH true c' s1 Hfl Hfit H1) as (s2&d&R2&H2&K2). exists s2. eexists. split; [|split; [done|by destruct K1 as (<-&<-&<-)]].
  unfold frames_wire. cbn [fmap list_fmap concat]. fold (frames_wire t frs). unfold frame_wire. rewrite <- app_assoc.
  eapply (consumes_bind _ _ (put_le 4 STATUS_DELETE_PLAN) _ STATUS_DELETE_PLAN _ (insert 0%nat Byte.x00)).
  { rewrite <- (app_nil_r (put_le 4 STATUS_DELETE_PLAN)). apply consumes_status_word; [done|]. unfold protocol_capture_error_detail. simpl.
    apply (consumes_bind _ _ [] [] tt STATUS_DELETE_PLAN (insert 0%nat Byte.x00) id); [apply consumes_clear|apply consumes_ret]. }
  apply (consumes_bind _ _ [] _ tt _ id); [by apply consumes_check|]. eapply consumes_bind; [exact R1|].
  rewrite <- (app_nil_r (frames_wire t frs)). eapply consumes_bind; [exact R2|]. apply consumes_ret.
Qed.

(** ** The whole exchange *)

(** The table as it is when it is sent. *)
Definition ready (t : DeletePlanSender) (synced walk_root : _) (a b c : option (ArrayList (list byte))) : DeletePlanSender :=
  delete_plan_sender_set_config (delete_plan_sender_finalize t synced walk_root) a b c.
Lemma ready_find t synced walk_root a b c dir : plan_find (ready t synced walk_root a b c) dir = plan_find t dir.
Proof. done. Qed.

Lemma all_sends m tt t1 dirs : table_ok m tt -> m < 2 ^ 40 -> proper_dir (default (cs ".") (t_walk_root tt)) ->
  plan_ensure tt (default (cs ".") (t_walk_root tt)) = Ret t1 -> names_travel t1 -> Forall scanned_path (cells_or dirs) ->
  exists frs t', yields (delete_plan_send_all (W := WS) tt dirs) (frames_wire t1 frs) t' /\ sent t1 frs t' /\ t_config_sent t' = true /\
    forall dir q, dir ∈ cells_or dirs -> q `prefix_of` comps dir -> (q = [] -> t_walk_root tt = None) -> done_with t' (rel_of q).
Proof.
  intros Ht Hm Hroot Ee Hn Hdirs. destruct (ensure_spec Hheap m tt _ Ht Hm Hroot) as (t1'&Ee'&Ht1&Hx&_). rewrite Ee in Ee'. injection Ee' as <-.
  assert (Hwr : t_walk_root t1 = t_walk_root tt) by (destruct Hx as ((?&?&?&?&_)&_); done).
  assert (Hs : sends t1 (t' <~ (t' <~ send_config_only (W := WS) t1; send_prefix_plan (W := WS) t' (default (cs ".") (t_walk_root tt))); send_dirs (W := WS) (cells_or dirs) t')
    (fun t' => t_config_sent t' = true /\ forall dir q, dir ∈ cells_or dirs -> q `prefix_of` comps dir -> (q = [] -> t_walk_root tt = None) -> done_with t' (rel_of q))).
  { eapply sends_bind; [eapply sends_bind; [apply config_sends; [by eexists|done]|]|].
    - cbn beta. intros frs2 t2 Hs2 Hc2. eapply sends_mono; [apply prefix_sends; [apply (se_wf _ _ _ Hs2); by eexists|by eapply sent_travel]|].
      instantiate (1 := fun t' => t_config_sent t' = true). cbn beta. intros frs3 t3 Hs3 _. pose proof (se_flags _ _ _ Hs3) as Hfl. rewrite Hc2 in Hfl. by apply flagged_true in Hfl.
    - cbn beta. intros frs2 t2 Hs2 Hc2. eapply sends_mono; [apply dirs_sends; [done|apply (se_wf _ _ _ Hs2); by eexists|by eapply sent_travel]|].
      cbn beta. intros frs3 t3 Hs3 Hd. split.
      + pose proof (se_flags _ _ _ Hs3) as Hfl. rewrite Hc2 in Hfl. by apply flagged_true in Hfl.
      + intros dir q ? ? Hq. eapply Hd; [done|done|]. intros ?. pose proof (se_orders _ _ _ Hs2) as (_&_&->&_). rewrite Hwr. by apply Hq. }
  destruct Hs as (frs&t'&Hy&Hs&Hc&Hd). exists frs, t'. split; [|done]. intros w k Hk Hst. destruct (Hy w k Hk Hst) as (w'&E&?). exists w'. split; [|done].
  rewrite <- E. unfold delete_plan_send_all, delete_plan_send_root. rewrite Ee. reflexivity.
Qed.

(** The receiver's limits: the sections and every directory of the table. *)
Definition all_fits (t : DeletePlanSender) : Prop :=
  sections_fit t /\ sections_charge t <= MAX_MANIFEST_BYTES /\ forall dir nd, plan_find t dir = Some nd -> plan_fits t (plan_of nd).

Lemma own_fits t fr : all_fits t -> names_travel t -> own_plan t fr -> plan_fits t (fr_plan fr).
Proof.
  intros (_&Hch&Hfit) (_&Hdot&_) [Hroot Hown]. destruct (pl_apply (fr_plan fr)) eqn:Ea.
  - destruct (Hown eq_refl) as (_&_&nd&Hnd&->). by eapply Hfit.
  - rewrite Hroot by done. split_and!; [by left|done|done..|]. unfold total_charge. simpl. lia.
Qed.

Lemma own_frame t t1 fr : (forall dir, is_Some (plan_find t1 dir) -> proper_dir dir) -> (forall d dir, kept_names d t1 dir = kept_names d t dir) ->
  own_plan t1 fr -> frame_of t (fr_plan fr).
Proof.
  intros Hpr Hkept [Hno Hown]. destruct (pl_apply (fr_plan fr)) eqn:Ea.
  - destruct (Hown eq_refl) as (_&_&nd&Hnd&Hpl). destruct (Hpr (fr_dir fr)) as (Hd&Hn&Hz); [by eexists|]. exists (comps (fr_dir fr)). rewrite <- Hd. split_and!; [done|done|done|].
    intros _. rewrite <- !Hkept. unfold kept_names. rewrite Hnd, Hpl. done.
  - rewrite Hno by done. exists []. by split_and!.
Qed.
Lemma dir_has_node t scanned plan_dirs dir q :
  (forall path, (path, true) ∈ whole_scan scanned plan_dirs -> is_Some (plan_find t (rel_of (comps path)))) ->
  (forall D x d, Forall name_ok D -> x ∈ kept_names d t (rel_of D) <->
      exists path isd r, (path, isd) ∈ whole_scan scanned plan_dirs /\ comps path = D ++ x :: r /\ d = negb (bool_decide (r = [])) || isd) ->
  Forall scanned_path (cells_or plan_dirs) -> dir ∈ cells_or plan_dirs -> q `prefix_of` comps dir -> is_Some (plan_find t (rel_of q)).
Proof.
  intros Hnode Hk Hdirs Hdir [r Hr]. assert (Hin : (dir, true) ∈ whole_scan scanned plan_dirs) by (unfold whole_scan; rewrite elem_of_app, list_elem_of_fmap; right; by exists dir).
  destruct r as [|x r]; [rewrite app_nil_r in Hr; rewrite <- Hr; by apply Hnode|]. rewrite Forall_forall in Hdirs. destruct (Hdirs _ Hdir) as (_&Hn&_). rewrite Hr in Hn. apply Forall_app in Hn as [Hq _].
  assert (Hx : x ∈ kept_names true t (rel_of q)) by (apply Hk; [done|]; exists dir, true, r; split_and!; [done|done|by rewrite orb_true_r]).
  unfold kept_names in Hx. destruct (plan_find t (rel_of q)); [by eexists|by apply not_elem_of_nil in Hx].
Qed.

(** C13: the delete plans arrive, each once and all of them.  After a scan the
    sender's [delete_plan_send_all] transmits frames that the receiver reads back
    as they were meant: the shared sections, which go with the first frame only,
    and plans whose lists are what the scan found in that directory.  No directory
    is sent twice, and every directory that was traversed, and every one above
    it, has its plan among them when it is in the synchronized scope. *)
Theorem plans_arrive t0 t t1 scanned plan_dirs synced walk_root a b c s
    (Hcreate : delete_plan_sender_create = Ret t0) (Hscan : plan_scan t0 scanned plan_dirs = Ret t)
    (Hpaths : Forall (fun e => scanned_path e.1) (whole_scan scanned plan_dirs)) (Hload : table_load (whole_scan scanned plan_dirs) < 2 ^ 28)
    (Hroot : proper_dir (default (cs ".") walk_root)) (Hensure : plan_ensure (ready t synced walk_root a b c) (default (cs ".") walk_root) = Ret t1)
    (Htravel : names_travel t1) (Hfits : all_fits t1) (Hfresh : no_sections s) :
  exists frs s', transfers (delete_plan_send_all (W := WS) (ready t synced walk_root a b c) plan_dirs >~ io_ret tt)
      (receive_plans (length frs) s) (zlen (frames_wire t1 frs)) (s', fr_plan <$> frs) (fun _ => True) /\
    cells (ps_protected s') = cells_or a /\ cells (ps_size_skipped s') = cells_or b /\ cells (ps_missing s') = cells_or c /\
    Forall (frame_of t) (fr_plan <$> frs) /\ NoDup (applied_dirs frs) /\
    forall dir q, dir ∈ cells_or plan_dirs -> q `prefix_of` comps dir -> (q = [] -> walk_root = None) ->
      plan_is_allowed t1 (rel_of q) = true -> rel_of q ∈ applied_dirs frs.
Proof.
  destruct (scan_spec Hheap scanned plan_dirs Hpaths Hload) as (t0'&t'&E0&Et&Ht&Hcs&Hun&Hpr&Hnode&Hk). rewrite Hcreate in E0. injection E0 as <-. rewrite Hscan in Et. injection Et as <-.
  set (rt := ready t synced walk_root a b c) in *. assert (Hrt : table_ok (table_load (whole_scan scanned plan_dirs)) rt) by (by destruct Ht).
  assert (Hdirs : Forall scanned_path (cells_or plan_dirs)) by (unfold whole_scan in Hpaths; rewrite Forall_app, Forall_fmap in Hpaths; by destruct Hpaths).
  destruct (ensure_spec Hheap _ rt _ Hrt ltac:(lia) Hroot) as (t1'&Ee&_&Hx&_). rewrite Hensure in Ee. injection Ee as <-. destruct Hx as ((Hc1&_&_&_&P1&P2&P3)&Hx&Hkept).
  destruct (all_sends _ rt t1 plan_dirs Hrt ltac:(lia) Hroot Hensure Htravel Hdirs) as (frs&t2&Hy&Hs&Hc2&Hdone).
  destruct (frames_read t1 frs (proj1 Hfits) (t_config_sent t1) (t_config_sent t2) s (se_flags _ _ _ Hs)) as (s'&d&Hr&Hsec&_).
  { eapply Forall_impl; [exact (se_own _ _ _ Hs)|]. intros fr. by apply own_fits. }
  { rewrite Hc1. change (t_config_sent rt) with (t_config_sent t). by rewrite Hcs. }
  rewrite Hc2 in Hsec. destruct Hsec as (S1&S2&S3). exists frs, s'. split_and!; [|by rewrite S1, P1|by rewrite S2, P2|by rewrite S3, P3| |exact (se_once _ _ _ Hs)|].
  - eapply transfers_intro; [|exact Hr|done]. apply yields_produces. rewrite <- (app_nil_r (frames_wire t1 frs)). eapply yields_bind; [exact Hy|apply yields_ret].
  - apply Forall_fmap. eapply Forall_impl; [exact (se_own _ _ _ Hs)|]. intros fr. apply own_frame; [|done]. intros dir Hd. destruct (Hx dir) as (_&_&Hp). destruct (Hp Hd) as [Hd'|]; [by apply Hpr|done].
  - intros dir q Hdir Hq Hqr Hal. assert (is_Some (plan_find t (rel_of q))) as Hsome by (by eapply dir_has_node).
    destruct (Hx (rel_of q)) as (Hs1&Hu1&_). apply Hs1 in Hsome. specialize (Hdone dir q Hdir Hq Hqr). unfold done_with in Hdone.
    assert (is_sent t2 (rel_of q) = true) as Hsent.
    { pose proof (se_same _ _ _ Hs (rel_of q)) as Hsame. unfold is_sent. destruct (plan_find t2 (rel_of q)) as [nd|]; [|destruct Hsome as [x Hx']; by rewrite Hx' in Hsame].
      rewrite (allowed_same t1 t2), Hal, orb_false_r in Hdone; [done|]. right. pose proof (se_orders _ _ _ Hs) as (?&?&?&_). done. }
    apply (se_marks _ _ _ Hs) in Hsent as [Hsent|?]; [|done]. rewrite Hu1 in Hsent. change (is_sent rt (rel_of q)) with (is_sent t (rel_of q)) in Hsent. by rewrite Hun in Hsent.
Qed.
End Wire.

(** The table of [demo_scan], with "/a/" as the traversed directory and "x" as an
    excluded prefix. *)
Definition demo_dirs : option (ArrayList (list byte)) := Some (al_of [cs "/a/"]).
Definition demo_ready : DeletePlanSender := ready demo_table None None (Some (al_of [cs "x"])) None None.
Definition demo_ensured : DeletePlanSender := match @plan_ensure heap0 demo_ready (cs ".") with Ret t => t | _ => demo_ready end.

Lemma demo_nodes dir nd : plan_find demo_ensured dir = Some nd -> n_dir nd = dir /\ contents nd ∈ [(cs "a", [], [cs "f"]); (cs ".", [cs "a"], [cs "k"])].
Proof.
  unfold plan_find. destruct (t_buckets demo_ensured !! _) as [chain|] eqn:Eb; [|done]. intros [Hin Hd]%chain_find_some. split; [done|].
  assert (Hn : nd ∈ nodes demo_ensured) by (apply nodes_elem; eauto). apply (list_elem_of_fmap_2 contents) in Hn. revert Hn. generalize (contents nd). clear. intros x Hn. vm_compute in Hn. exact Hn.
Qed.
Lemma short_travels (s : list byte) : zlen s <= 100 -> Byte.x00 ∉ s -> @name_travels heap0 plain_wire plain_wire s.
Proof.
  intros Hz Hn. pose proof (zlen_nonneg s). exists s. unfold MAX_STRING_SIZE. split_and!; [done|done|lia|done|]. reflexivity.
Qed.

Lemma plans_arrive_witness :
  exists frs s', transfers (@delete_plan_send_all heap0 plain_wire demo_ready demo_dirs >~ io_ret tt)
      (@receive_plans heap0 plain_wire (length frs) (demo_session true)) (zlen (frames_wire plain_wire demo_ensured frs)) (s', fr_plan <$> frs) (fun _ => True) /\
    cells (ps_protected s') = [cs "x"] /\ NoDup (applied_dirs frs) /\ cs "." ∈ applied_dirs frs /\ cs "a" ∈ applied_dirs frs.
Proof.
  assert (Hsmall : forall l, forallb (fun s : list byte => (zlen s <=? 100) && bool_decide (Byte.x00 ∉ s)) l = true -> Forall (@name_travels heap0 plain_wire plain_wire) l).
  { intros l Hl. apply Forall_forall. intros x Hx%list_elem_of_In. apply (proj1 (forallb_forall _ _) Hl) in Hx. apply andb_true_iff in Hx as [Hz%Z.leb_le Hn%bool_decide_eq_true]. by apply short_travels. }
  destruct (@plans_arrive heap0 plain_wire plain_wire (heap0_serves _) demo_created demo_table demo_ensured [(cs "k", false); (cs "a/f", false)] demo_dirs None None
    (Some (al_of [cs "x"])) None None (demo_session true)) as (frs&s'&Ht&H1&_&_&_&Hd&Hall).
  - by vm_compute.
  - by vm_compute.
  - apply demo_paths.
  - by vm_compute.
  - apply (rel_proper []); [constructor|by vm_compute].
  - by vm_compute.
  - split; [by apply Hsmall|]. split; [by apply short_travels; [|apply (bool_decide_eq_true_1 _); by vm_compute]|].
    intros dir nd [<- Hc]%demo_nodes. apply elem_of_cons in Hc as [Hc|Hc%list_elem_of_singleton]; injection Hc as -> -> ->; by apply Hsmall.
  - split; [split_and!; [split_and!; [by apply Hsmall|by repeat constructor|done]|split_and!; [constructor|constructor|done]..]|]. split; [by vm_compute|].
    intros dir nd [<- Hc]%demo_nodes. apply elem_of_cons in Hc as [Hc|Hc%list_elem_of_singleton]; injection Hc as H1 H2 H3; unfold plan_fits, plan_of; cbn [pl_dir pl_dirs pl_files]; rewrite H1, H2, H3;
      (split_and!; [by (left + right)|by apply short_travels; [|apply (bool_decide_eq_true_1 _); by vm_compute]|split_and!; [by apply Hsmall|by repeat constructor|done]..|by vm_compute]).
  - by split_and!.
  - exists frs, s'. split_and!; [exact Ht|exact H1|exact Hd|apply (Hall (cs "/a/") [])|apply (Hall (cs "/a/") [cs "a"])]; first [by left|by apply prefix_nil|done|by exists []|by vm_compute].
Defined.
