(* ===== verification/Disk.v ===== *)
(** A file system with contents, for the code that writes files: the tree of
    names, the bytes of each inode, and the system calls on an open file.  What
    the kernel answers is a schedule, one answer per call: a call may fail, and a
    [write] may be short.  Past the end of the schedule every call succeeds in
    full.  Every state the disk passes through is recorded, so that what an
    interruption would leave behind can be stated. *)

From stdpp Require Import gmap.
From S2P Require Import Prelude CStr Paths DeleteTree SecureFs.

Record disk := MkDisk { d_fs : entries; d_files : gmap Z (list byte) }.
Inductive answer := AOk (n : Z) | AErr (e : errno).
Record sys := MkSys { s_disk : disk; s_answers : list answer; s_trace : list disk; s_seq : Z }.

(** Functions that make system calls. *)
Definition sysM (A : Type) : Type := sys -> sys * A.
#[global] Instance sysM_ret : MRet sysM := fun A a s => (s, a).
#[global] Instance sysM_bind : MBind sysM := fun A B k m s => let '(s, a) := m s in k a s.

(** The next answer; a count is at most [n]. *)
Definition ask (n : Z) : sysM (errno + Z) := fun s =>
  match s_answers s with
  | [] => (s, inr n)
  | a :: l => (MkSys (s_disk s) l (s_trace s) (s_seq s), match a with AOk k => inr (Z.min k n) | AErr e => inl e end)
  end.
Definition get_disk : sysM disk := fun s => (s, s_disk s).
Definition set_disk (d : disk) : sysM unit := fun s => (MkSys d (s_answers s) (s_trace s ++ [d]) (s_seq s), tt).
Definition set_fs (fs : entries) : sysM unit := d ← get_disk; set_disk (MkDisk fs (d_files d)).
Definition set_file (i : Z) (c : list byte) : sysM unit := d ← get_disk; set_disk (MkDisk (d_fs d) (<[i := c]> (d_files d))).

(** An inode number that is not in use. *)
Fixpoint max_ino (nd : node) : Z :=
  match nd with
  | Leaf _ i => i
  | Dir es => foldr Z.max 0 ((fun e => max_ino e.2) <$> es)
  end.
Definition fresh_ino (d : disk) : Z := 1 + max_ino (Dir (d_fs d)).

(** The directory in which a name is looked up: the empty name has none.  The
    names [.] and [..] are directories. *)
Definition dir_for (d : disk) (dir : list name) (n : name) : option entries :=
  if bool_decide (n = []) then None else dir_at (d_fs d) dir.
Definition entry_at (d : disk) (dir : list name) (n : name) : option node :=
  es ← dir_for d dir n; if dots n then Some (Dir []) else find n es.
Definition with_entry (fs : entries) (dir : list name) (n : name) (nd : node) : entries :=
  match dir_at fs dir with
  | None => fs
  | Some es => put_at fs dir (match find n es with Some _ => set_entry n nd es | None => es ++ [(n, nd)] end)
  end.
Definition without_entry (fs : entries) (dir : list name) (n : name) : entries :=
  match dir_at fs dir with None => fs | Some es => put_at fs dir (del_entry n es) end.

(** ** Calls on names *)

(** [fstatat] without following links, [openat] with O_CREAT and O_EXCL, and
    [openat] with O_CREAT: the new or existing inode. *)
Definition sys_stat (dir : list name) (n : name) : sysM (errno + node) :=
  r ← ask 0; d ← get_disk;
  mret (match r with inl e => inl e | inr _ => match entry_at d dir n with Some nd => inr nd | None => inl ENOENT end end).
Definition sys_create (dir : list name) (n : name) : sysM (errno + Z) :=
  r ← ask 0; d ← get_disk;
  match r with
  | inl e => mret (inl e)
  | inr _ =>
      match dir_for d dir n, entry_at d dir n with
      | None, _ => mret (inl ENOENT)
      | _, Some _ => mret (inl EEXIST)
      | _, None => let i := fresh_ino d in
                   _ ← set_disk (MkDisk (with_entry (d_fs d) dir n (Leaf false i)) (<[i := []]> (d_files d))); mret (inr i)
      end
  end.
Definition sys_open_write (dir : list name) (n : name) : sysM (errno + Z) :=
  d ← get_disk;
  match entry_at d dir n with
  | Some (Leaf false i) => r ← ask 0; mret (match r with inl e => inl e | inr _ => inr i end)
  | Some (Leaf true _) => mret (inl ELOOP)
  | Some (Dir _) => mret (inl EISDIR)
  | None => sys_create dir n
  end.
Definition sys_unlink (dir : list name) (n : name) : sysM (option errno) :=
  r ← ask 0; d ← get_disk;
  match r, entry_at d dir n with
  | inl e, _ => mret (Some e)
  | _, None => mret (Some ENOENT)
  | _, Some (Dir _) => mret (Some EISDIR)
  | _, Some (Leaf _ _) => _ ← set_fs (without_entry (d_fs d) dir n); mret None
  end.

(** [linkat] and [renameat] of a file.  A rename onto another link of the same
    inode does nothing. *)
Definition sys_link (dir : list name) (n : name) (to : list name) (m : name) : sysM (option errno) :=
  r ← ask 0; d ← get_disk;
  match r, entry_at d dir n, dir_for d to m, entry_at d to m with
  | inl e, _, _, _ => mret (Some e)
  | _, Some (Leaf l i), Some _, None => _ ← set_fs (with_entry (d_fs d) to m (Leaf l i)); mret None
  | _, Some (Leaf _ _), Some _, Some _ => mret (Some EEXIST)
  | _, Some (Dir _), _, _ => mret (Some EISDIR)
  | _, _, _, _ => mret (Some ENOENT)
  end.
Definition same_inode (a b : node) : bool := match a, b with Leaf _ i, Leaf _ j => i =? j | _, _ => false end.
Definition sys_rename (dir : list name) (n : name) (to : list name) (m : name) : sysM (option errno) :=
  r ← ask 0; d ← get_disk;
  match r, entry_at d dir n, dir_for d to m, entry_at d to m with
  | inl e, _, _, _ => mret (Some e)
  | _, Some (Leaf l i), Some _, Some (Dir _) => mret (Some EISDIR)
  | _, Some (Leaf l i), Some _, Some (Leaf _ j) =>
      if i =? j then mret None
      else _ ← set_fs (without_entry (with_entry (d_fs d) to m (Leaf l i)) dir n); mret None
  | _, Some (Leaf l i), Some _, None => _ ← set_fs (without_entry (with_entry (d_fs d) to m (Leaf l i)) dir n); mret None
  | _, Some (Dir _), _, _ => mret (Some EISDIR)
  | _, _, _, _ => mret (Some ENOENT)
  end.

(** ** Calls on an open file *)

Definition zeros (n : nat) : list byte := replicate n Byte.x00.
(** Writing [data] at [off], and setting the length. *)
Definition write_at (c : list byte) (off : nat) (data : list byte) : list byte :=
  take off (c ++ zeros (off - length c)) ++ data ++ drop (off + length data) c.
Definition resize (c : list byte) (n : nat) : list byte := take n (c ++ zeros (n - length c)).
Definition contents (d : disk) (i : Z) : list byte := default [] (d_files d !! i).

Definition sys_write (i : Z) (off : nat) (data : list byte) : sysM (errno + Z) :=
  r ← ask (zlen data); d ← get_disk;
  match r with
  | inl e => mret (inl e)
  | inr n => if n <=? 0 then mret (inr n)
             else _ ← set_file i (write_at (contents d i) off (take (Z.to_nat n) data)); mret (inr n)
  end.
Definition sys_truncate (i : Z) (size : nat) : sysM (option errno) :=
  r ← ask 0; d ← get_disk;
  match r with inl e => mret (Some e) | inr _ => _ ← set_file i (resize (contents d i) size); mret None end.
Definition sys_allocate (i : Z) (size : nat) : sysM (option errno) :=
  r ← ask 0; d ← get_disk;
  match r with inl e => mret (Some e) | inr _ => _ ← set_file i (resize (contents d i) (Nat.max size (length (contents d i)))); mret None end.
(** [fsync], [close], [lseek], and the calls that set attributes: not visible in
    this state, but they can fail. *)
Definition sys_other : sysM (option errno) := r ← ask 0; mret (match r with inl e => Some e | inr _ => None end).
