(* ===== verification/Save.v ===== *)
(** Storing a file: src/shared/file_store.c and the write paths of
    src/shared/file.c.  A file is written under a temporary name and renamed to
    its place, or in place; bytes may be written sparsely. *)

From stdpp Require Import gmap.
From S2P Require Import Prelude Alloc CStr Paths DeleteTree SecureFs Disk.

(** file.c [write_all], file_store.c [write_all]: an interrupted call is
    repeated, so the schedule bounds the loop. *)
Fixpoint write_loop (fuel : nat) (i : Z) (off : nat) (data : list byte) : sysM bool :=
  match fuel with
  | O => mret false
  | S fuel =>
      match data with
      | [] => mret true
      | _ =>
          r ← sys_write i off data;
          match r with
          | inl e => if bool_decide (e = EINTR) then write_loop fuel i off data else mret false
          | inr n => if n <=? 0 then mret false else write_loop fuel i (off + Z.to_nat n) (drop (Z.to_nat n) data)
          end
      end
  end.
Definition write_all (i : Z) (off : nat) (data : list byte) : sysM bool := fun s => write_loop (S (S (length (s_answers s)))) i off data s.

(** file_store.c [file_store_write_sparse] *)
Definition SPARSE_HOLE_MIN : nat := 4096.
Fixpoint run_length (zero : bool) (data : list byte) : nat :=
  match data with
  | [] => O
  | c :: data => if Bool.eqb (bool_decide (c = Byte.x00)) zero then S (run_length zero data) else O
  end.
Fixpoint sparse_loop (fuel : nat) (i : Z) (off : nat) (data : list byte) : sysM bool :=
  match fuel with
  | O => mret false
  | S fuel =>
      match data with
      | [] => mret true
      | c :: _ =>
          let zero := bool_decide (c = Byte.x00) in
          let run := run_length zero data in
          ok ← (if zero && (SPARSE_HOLE_MIN <=? run)%nat then r ← sys_other; mret (bool_decide (r = None)) else write_all i off (take run data));
          if ok : bool then sparse_loop fuel i (off + run) (drop run data) else mret false
      end
  end.
Definition file_store_write_sparse (i : Z) (data : list byte) : sysM bool :=
  ok ← sparse_loop (S (length data)) i 0 data;
  if ok : bool then r ← sys_truncate i (length data); mret (bool_decide (r = None)) else mret false.

(** file.c [preallocate_fd]: [None] is 0 *)
Definition preallocate_fd (i : Z) (size : nat) : sysM (option errno) :=
  if (size =? 0)%nat then mret None
  else
    r ← sys_allocate i size;
    match r with
    | None => mret None
    | Some e =>
        if negb (bool_decide (e = EOPNOTSUPP)) && negb (bool_decide (e = ENOSYS)) && negb (bool_decide (e = EINVAL)) then mret (Some e)
        else
          rc ← sys_allocate i size;
          if bool_decide (rc = Some EOPNOTSUPP) || bool_decide (rc = Some ENOSYS) then sys_truncate i size else mret rc
    end.

(** The arguments of [file_to_disk_secure_impl] that steer it; [o_metadata]
    tells whether there is metadata. *)
Record save_opts := MkOpts {
  o_inplace : bool; o_sparse : bool; o_preallocate : bool; o_metadata : bool; o_perms : bool;
  o_update : bool; o_no_replace : bool; o_fsync : bool; o_keep_partial : bool }.

(** The process id, the opening of the scratch directory (links followed) and
    its real path, and whether an existing entry is newer than the metadata. *)
Class SaveEnv := {
  pid : Z; open_follow : list byte -> errno + list name; fd_path : list name -> errno + list byte; newer : node -> bool }.

(** [snprintf(tmp, size, ".%s.tmp.%ld.%u", leaf, pid, n)] *)
Definition digit (z : Z) : byte := byte.of_Z (48 + z).
Fixpoint dec_loop (fuel : nat) (z : Z) (acc : list byte) : list byte :=
  match fuel with
  | O => acc
  | S fuel => if z <? 10 then digit z :: acc else dec_loop fuel (z / 10) (digit (z mod 10) :: acc)
  end.
Definition dec (z : Z) : list byte := dec_loop 20 z [].

Section Save.
Context `{Heap} {F : Faults} {E : SecureEnv} {V : SaveEnv}.
Context (o : save_opts).

Definition tmp_name (leaf : name) (n : Z) : name := cs "." ++ leaf ++ cs ".tmp." ++ dec pid ++ cs "." ++ dec n.
(** file.c [next_temp_sequence] *)
Definition next_temp_sequence : sysM Z := fun s => (MkSys (s_disk s) (s_answers s) (s_trace s) (u64 (s_seq s + 1)), s_seq s).

(** file.c [file_open_temp_dir] *)
Definition file_open_temp_dir (dir_path : list byte) : option (list name) :=
  match open_follow dir_path with
  | inl _ => None
  | inr d =>
      match root_path with
      | None => Some d
      | Some root => match fd_path d with
                     | inl _ => None
                     | inr resolved => if path_is_within_root root resolved then Some d else None
                     end
      end
  end.

Definition is_regular (d : disk) (nd : node) : bool :=
  match nd with Leaf false i => bool_decide (is_Some (d_files d !! i)) | _ => false end.

Definition succeeds (m : sysM (option errno)) : sysM bool := r ← m; mret (bool_decide (r = None)).

(** The bytes: whether a write was attempted, and [ok]. *)
Definition write_data (i : Z) (data : list byte) : sysM (bool * bool) :=
  let holes := o_sparse o && negb (bool_decide (data = [])) in
  ok ← (if holes then succeeds (sys_truncate i (length data)) else mret false);
  if ok || negb holes then
    ok ← (if holes then file_store_write_sparse i data else write_all i 0 data);
    mret (true, ok)
  else mret (false, ok).
(** [fchmod], [file_restore_metadata_fd] and [restore_extra_fd] *)
Definition set_attributes : sysM bool :=
  if o_metadata o then
    ok ← (if negb (o_perms o) then succeeds sys_other else mret true);
    if ok : bool then succeeds sys_other else mret false
  else succeeds sys_other.
Definition finish (ok : bool) : sysM bool :=
  ok ← (if ok then set_attributes else mret false);
  if ok && o_fsync o then succeeds sys_other else mret ok.
Definition preallocated (i : Z) (data : list byte) : sysM bool :=
  if o_preallocate o && negb (bool_decide (data = [])) then succeeds (preallocate_fd i (length data)) else mret true.

(** file.c [file_to_disk_secure_impl], the branch of --inplace *)
Definition save_inplace (dir : list name) (leaf : name) (data : list byte) : sysM bool :=
  st ← sys_stat dir leaf; d ← get_disk;
  if (match st with inr nd => negb (is_regular d nd) | inl _ => false end) then mret false
  else
    r ← sys_open_write dir leaf;
    match r with
    | inl _ => mret false
    | inr i =>
        d ← get_disk;
        fstat ← succeeds sys_other;
        if negb fstat || negb (is_regular d (Leaf false i)) then mret false
        else if o_update o && o_metadata o && newer (Leaf false i) then mret true
        else
          ready ← preallocated i data;
          if negb ready then mret false
          else
            '(_, ok) ← write_data i data;
            ok ← (if ok : bool then succeeds (sys_truncate i (length data)) else mret false);
            finish ok
    end.

(** The write under a temporary name: what happens once it is created.  The
    flags are [ok] and [cross_device_fallback]. *)
Definition install (scratch : bool) (tdir : list name) (tmp : name) (dir : list name) (leaf : name) : sysM (bool * bool) :=
  if o_no_replace o then
    r ← sys_link tdir tmp dir leaf;
    if bool_decide (r = None) || bool_decide (r = Some EEXIST) then
      u ← sys_unlink tdir tmp;
      mret (bool_decide (u = None) || bool_decide (u = Some ENOENT), false)
    else mret (false, scratch && bool_decide (r = Some EXDEV))
  else
    r ← sys_rename tdir tmp dir leaf;
    mret (bool_decide (r = None), scratch && bool_decide (r = Some EXDEV)).
Definition discard (tdir : list name) (tmp : name) (dir : list name) (leaf : name) (write_attempted : bool) : sysM unit :=
  if negb (o_keep_partial o) || negb write_attempted || o_no_replace o then _ ← sys_unlink tdir tmp; mret tt
  else
    r ← sys_rename tdir tmp dir leaf;
    if bool_decide (r = None) then mret tt else _ ← sys_unlink tdir tmp; mret tt.
Definition write_temp (scratch : bool) (tdir : list name) (tmp : name) (dir : list name) (leaf : name) (i : Z) (data : list byte) : sysM (bool * bool) :=
  ready ← preallocated i data;
  '(attempted, ok) ← (if ready : bool then '(a, ok) ← write_data i data; ok ← finish ok; mret (a, ok) else mret (false, false));
  closed ← succeeds sys_other;
  '(ok, xdev) ← (if ok && closed then install scratch tdir tmp dir leaf else mret (false, false));
  _ ← (if ok : bool then mret tt else discard tdir tmp dir leaf attempted);
  mret (ok, xdev).

(** [for (i = 0; i < 100; ++i)]: only a failed creation tries the next name. *)
Fixpoint try_names (n : nat) (scratch : option (list name)) (dir : list name) (leaf : name) (data : list byte) (k : Z) : sysM (bool * bool) :=
  match n with
  | O => mret (false, false)
  | S n =>
      num ← (match scratch with Some _ => next_temp_sequence | None => mret k end);
      let tdir := default dir scratch in
      let tmp := tmp_name leaf num in
      r ← sys_create tdir tmp;
      match r with
      | inl _ => try_names n scratch dir leaf data (k + 1)
      | inr i => write_temp (bool_decide (is_Some scratch)) tdir tmp dir leaf i data
      end
  end.

(** file.c [file_to_disk_secure_impl] without its retry *)
Definition save_once (path : list byte) (data : list byte) (temp_dir : option (list byte)) : sysM (bool * bool) :=
  d ← get_disk;
  match file_open_secure_parent path true (d_fs d) with
  | (fs, inl _) => _ ← set_fs fs; mret (false, false)
  | (fs, inr (dir, leaf)) =>
      _ ← set_fs fs;
      if o_inplace o then ok ← save_inplace dir leaf data; mret (ok, false)
      else
        st ← sys_stat dir leaf; d ← get_disk;
        let skip := match st with inr nd => o_update o && o_metadata o && is_regular d nd && newer nd | inl _ => false end in
        if skip then mret (true, false)
        else match (match temp_dir with None => Some None | Some p => match file_open_temp_dir p with Some t => Some (Some t) | None => None end end) with
        | None => mret (false, false)
        | Some scratch =>
            if negb (malloc_ok (zlen (tmp_name leaf (match scratch with Some _ => 2 ^ 64 - 1 | None => 999 end)) + 1)) then mret (false, false)
            else try_names 100 scratch dir leaf data 0
        end
  end.
Definition file_to_disk_secure_impl (path : list byte) (data : list byte) (temp_dir : option (list byte)) : sysM bool :=
  '(ok, cross_device_fallback) ← save_once path data temp_dir;
  if cross_device_fallback : bool then '(ok, _) ← save_once path data None; mret ok else mret ok.
End Save.

(** file.c [file_to_disk_secure], [file_to_disk_secure_update],
    [file_to_disk_secure_with_fsync], [file_to_disk_secure_no_replace],
    [file_write_to_disk] *)
Section Wrappers.
Context `{Heap} {F : Faults} {E : SecureEnv} {V : SaveEnv}.
Definition file_to_disk_secure path data inplace sparse preallocate metadata perms temp_dir : sysM bool :=
  file_to_disk_secure_impl (MkOpts inplace sparse preallocate metadata perms false false false false) path data temp_dir.
Definition file_to_disk_secure_update path data inplace sparse preallocate metadata perms temp_dir : sysM bool :=
  file_to_disk_secure_impl (MkOpts inplace sparse preallocate metadata perms true false false false) path data temp_dir.
Definition file_to_disk_secure_with_fsync path data inplace sparse preallocate metadata perms use_fsync temp_dir : sysM bool :=
  file_to_disk_secure_impl (MkOpts inplace sparse preallocate metadata perms false false use_fsync false) path data temp_dir.
Definition file_to_disk_secure_no_replace path data sparse preallocate metadata perms temp_dir : sysM bool :=
  file_to_disk_secure_impl (MkOpts false sparse preallocate metadata perms false true false false) path data temp_dir.
Definition file_write_to_disk (path : list byte) (data : list byte) (inplace sparse : bool) : sysM bool :=
  if has_path_traversal (Some path) then mret false
  else file_to_disk_secure path data inplace sparse false false false None.
End Wrappers.
