(* ===== verification/SaveSafe.v ===== *)
(** Storing a file is atomic: at every moment the destination is what it was
    or the complete new file, or, when a store fails under --partial, a partial
    copy of the new file. *)

From stdpp Require Import gmap.
From S2P Require Import Prelude Alloc CStr Paths DeleteTree SecureFs SecureSafe Disk Save.

(** ** Assertions about runs *)

(** From a disk that satisfies [P], [m] ends on one that satisfies [Q], and
    every disk it writes on the way satisfies [I]. *)
Definition triple {A} (I : disk -> Prop) (P : disk -> Prop) (m : sysM A) (Q : A -> disk -> Prop) : Prop :=
  forall s, P (s_disk s) -> exists t, s_trace (m s).1 = s_trace s ++ t /\ Forall I t /\ Q (m s).2 (s_disk (m s).1).

Section Triples.
Context (I : disk -> Prop).

Lemma triple_ret {A} (a : A) P (Q : A -> disk -> Prop) : (forall d, P d -> Q a d) -> triple I P (mret a) Q.
Proof. intros HQ s Hs. exists []. rewrite app_nil_r. split_and!; [done|constructor|by apply HQ]. Qed.
Lemma triple_bind {A B} (m : sysM A) (k : A -> sysM B) P Q R :
  triple I P m Q -> (forall a, triple I (Q a) (k a) R) -> triple I P (m ≫= k) R.
Proof.
  intros Hm Hk s Hs. destruct (Hm s Hs) as (t1&E1&F1&Q1). unfold mbind, sysM_bind. destruct (m s) as [s1 a]. simpl in *.
  destruct (Hk a s1 Q1) as (t2&E2&F2&Q2). exists (t1 ++ t2). rewrite E2, E1, app_assoc. split_and!; [done|by apply Forall_app_2|done].
Qed.
Lemma triple_mono {A} (m : sysM A) (P P' : disk -> Prop) (Q Q' : A -> disk -> Prop) :
  triple I P m Q -> (forall d, P' d -> P d) -> (forall a d, Q a d -> Q' a d) -> triple I P' m Q'.
Proof. intros Hm HP HQ s Hs. destruct (Hm s (HP _ Hs)) as (t&?&?&?). exists t. split_and!; auto. Qed.
Lemma triple_post {A} (m : sysM A) P (Q Q' : A -> disk -> Prop) :
  triple I P m Q -> (forall a d, Q a d -> Q' a d) -> triple I P m Q'.
Proof. intros Hm HQ. by eapply triple_mono. Qed.
(** A pure part of the precondition *)
Lemma triple_ex {A B} (m : sysM A) (P : B -> disk -> Prop) Q : (forall b, triple I (P b) m Q) -> triple I (fun d => exists b, P b d) m Q.
Proof. intros Hm s [b Hb]. by apply (Hm b). Qed.
Lemma triple_pure {A} (m : sysM A) (X : Prop) P Q : (X -> triple I P m Q) -> triple I (fun d => P d /\ X) m Q.
Proof. intros Hm s [Hp HX]. by apply Hm. Qed.
Lemma triple_at {A} (m : sysM A) (P : disk -> Prop) Q : (forall d0, P d0 -> triple I (fun d => d = d0) m Q) -> triple I P m Q.
Proof. intros Hm s Hs. by apply (Hm (s_disk s)). Qed.

Lemma triple_ask n P : triple I P (ask n) (fun _ d => P d).
Proof. intros s Hs. exists []. rewrite app_nil_r. unfold ask. destruct (s_answers s); split_and!; done || constructor. Qed.
Lemma triple_get P : triple I P get_disk (fun a d => a = d /\ P d).
Proof. intros s Hs. exists []. rewrite app_nil_r. split_and!; [done|constructor|done|done]. Qed.
Lemma triple_set d (Q : unit -> disk -> Prop) P : (forall d0, P d0 -> I d /\ Q tt d) -> triple I P (set_disk d) Q.
Proof. intros HP s Hs. destruct (HP _ Hs). exists [d]. split_and!; [done|by constructor|done]. Qed.
Lemma triple_other P : triple I P sys_other (fun _ d => P d).
Proof. eapply triple_bind; [apply triple_ask|]. intros r. by apply triple_ret. Qed.
Lemma triple_succeeds P m : triple I P m (fun _ d => P d) -> triple I P (succeeds m) (fun _ d => P d).
Proof. intros Hm. eapply triple_bind; [exact Hm|]. intros r. by apply triple_ret. Qed.
Lemma triple_set_fs fs (P Q : disk -> Prop) : (forall d, P d -> I (MkDisk fs (d_files d)) /\ Q (MkDisk fs (d_files d))) -> triple I P (set_fs fs) (fun _ => Q).
Proof. intros HP. apply triple_at. intros d0 Hd0. eapply triple_bind; [apply triple_get|]. intros d. apply triple_set. intros d1 [-> ->]. by apply HP. Qed.
Lemma triple_set_file i c (P Q : disk -> Prop) :
  (forall d, P d -> I (MkDisk (d_fs d) (<[i := c]> (d_files d))) /\ Q (MkDisk (d_fs d) (<[i := c]> (d_files d)))) -> triple I P (set_file i c) (fun _ => Q).
Proof. intros HP. apply triple_at. intros d0 Hd0. eapply triple_bind; [apply triple_get|]. intros d. apply triple_set. intros d1 [-> ->]. by apply HP. Qed.
End Triples.

(** ** Names and inodes *)

Definition kind_of (nd : node) : kind := match nd with Leaf l i => KLeaf l i | Dir _ => KDir end.

Lemma entry_plain d dir n nd : entry_at d dir n = Some nd -> dots n = false -> exists es, dir_at (d_fs d) dir = Some es /\ find n es = Some nd.
Proof. unfold entry_at, dir_for. intros He Hn. case_bool_decide; [done|]. destruct (dir_at (d_fs d) dir) as [es|]; [|done]. simpl in He. rewrite Hn in He. by exists es. Qed.
Lemma entry_dots d dir n nd : entry_at d dir n = Some nd -> dots n = true -> nd = Dir [].
Proof. unfold entry_at, dir_for. intros He Hn. case_bool_decide; [done|]. destruct (dir_at (d_fs d) dir) as [es|]; [|done]. simpl in He. rewrite Hn in He. by injection He. Qed.
Lemma entry_none d dir n es : entry_at d dir n = None -> dir_for d dir n = Some es -> dir_at (d_fs d) dir = Some es /\ find n es = None.
Proof. unfold entry_at. intros He Hd. rewrite Hd in He. simpl in He. destruct (dots n); [done|]. split; [|done]. revert Hd. unfold dir_for. by case_bool_decide. Qed.
Lemma kind_find fs dir n es : dir_at fs dir = Some es -> kind_at fs (dir ++ [n]) = kind_of <$> find n es.
Proof. intros Hd. rewrite (kind_at_app _ _ _ _ Hd). simpl. by destruct (find n es) as [[]|]. Qed.
Lemma kind_dir dir n : forall fs k, kind_at fs (dir ++ [n]) = Some k -> exists es, dir_at fs dir = Some es.
Proof.
  induction dir as [|m dir IH]; intros fs k; simpl; [by eexists|]. destruct (find m fs) as [[l j|es]|]; [|apply IH|done].
  by destruct (dir ++ [n]) eqn:E; [destruct dir|].
Qed.

Lemma kind_with fs dir n l i es q :
  dir_at fs dir = Some es -> match find n es with Some (Dir _) => False | _ => True end ->
  kind_at (with_entry fs dir n (Leaf l i)) q = if decide (q = dir ++ [n]) then Some (KLeaf l i) else kind_at fs q.
Proof.
  intros Hd Hn. unfold with_entry. rewrite Hd. destruct (decide (dir `prefix_of` q)) as [[r ->]|Hp].
  2:{ rewrite decide_False by (intros ->; apply Hp; by eexists). by eapply kind_put_other. }
  rewrite (kind_put_below _ _ _ _ _ Hd), (kind_at_app _ _ _ _ Hd). destruct r as [|m r]; [rewrite decide_False; [done|]|].
  { intros E%app_inv_head. done. }
  cbn [kind_at]. assert (Hf : find m (match find n es with Some _ => set_entry n (Leaf l i) es | None => es ++ [(n, Leaf l i)] end) =
    if decide (m = n) then Some (Leaf l i) else find m es).
  { destruct (find n es) as [nd|] eqn:Ef.
    - rewrite find_set. case_decide; [subst; by rewrite Ef|done].
    - rewrite find_snoc. destruct (decide (m = n)) as [->|Hm]; [by rewrite Ef, decide_True|]. rewrite (decide_False (P := n = m)) by done. by destruct (find m es). }
  rewrite Hf. destruct (decide (m = n)) as [->|Hm].
  - destruct r as [|k r]; [by rewrite decide_True|]. rewrite decide_False; [by destruct (find n es) as [[]|]|]. intros E%app_inv_head. done.
  - rewrite decide_False; [done|]. intros E%app_inv_head. by injection E as ->.
Qed.
Lemma kind_without fs dir n l i es q :
  dir_at fs dir = Some es -> find n es = Some (Leaf l i) ->
  kind_at (without_entry fs dir n) q = if decide (q = dir ++ [n]) then None else kind_at fs q.
Proof.
  intros Hd Hn. unfold without_entry. rewrite Hd. destruct (decide (dir `prefix_of` q)) as [[r ->]|Hp].
  2:{ rewrite decide_False by (intros ->; apply Hp; by eexists). by eapply kind_put_other. }
  rewrite (kind_put_below _ _ _ _ _ Hd), (kind_at_app _ _ _ _ Hd). destruct r as [|m r]; [rewrite decide_False; [done|]|].
  { intros E%app_inv_head. done. }
  cbn [kind_at]. rewrite find_del. destruct (decide (m = n)) as [->|Hm].
  - destruct r as [|k r]; [by rewrite decide_True|]. rewrite Hn, decide_False; [done|]. intros E%app_inv_head. done.
  - rewrite decide_False; [done|]. intros E%app_inv_head. by injection E as ->.
Qed.
Lemma dir_with fs dir n l i es dir' es' :
  dir_at fs dir = Some es -> match find n es with Some (Dir _) => False | _ => True end -> dir_at fs dir' = Some es' ->
  exists es'', dir_at (with_entry fs dir n (Leaf l i)) dir' = Some es''.
Proof.
  intros Hd Hn Hd'. apply dir_at_kind. rewrite (kind_with _ _ _ _ _ _ _ Hd Hn). case_decide as Hq.
  - subst dir'. exfalso. rewrite (dir_at_app _ _ _ _ Hd) in Hd'. simpl in Hd'. by destruct (find n es) as [[]|].
  - apply dir_at_kind. by eexists.
Qed.

Lemma max_ino_kind p : forall es l i, kind_at es p = Some (KLeaf l i) -> i <= max_ino (Dir es).
Proof.
  induction p as [|n p IH]; intros es l i; [done|]. cbn [kind_at]. intros Hk.
  assert (Hb : forall nd, find n es = Some nd -> max_ino nd <= max_ino (Dir es)).
  { clear. intros nd Hf%find_elem. cbn [max_ino]. induction es as [|e es IH]; [by apply not_elem_of_nil in Hf|]. rewrite fmap_cons. cbn [foldr].
    apply elem_of_cons in Hf as [<-|Hf]; [simpl; lia|]. specialize (IH Hf). lia. }
  destruct (find n es) as [[l' j|ces]|]; [| |done].
  - destruct p; [|done]. injection Hk as <- <-. apply (Hb _ eq_refl).
  - specialize (Hb _ eq_refl). apply IH in Hk. lia.
Qed.

(** ** The destination and the temporary file *)

(** What the place [p] holds: its kind, and its bytes when it is a file. *)
Definition view (p : list name) (d : disk) : option (kind * list byte) :=
  match kind_at (d_fs d) p with
  | None => None
  | Some (KLeaf l j) => Some (KLeaf l j, contents d j)
  | Some KDir => Some (KDir, [])
  end.

Lemma view_fs p fs d : (kind_at fs p = kind_at (d_fs d) p) -> view p (MkDisk fs (d_files d)) = view p d.
Proof. intros E. unfold view. simpl. by rewrite E. Qed.

(** Bytes written in pieces. *)
Lemma write_at_nil c off : (off <= length c)%nat -> write_at c off [] = c.
Proof. intros Hl. unfold write_at. rewrite take_app_le by lia. simpl. rewrite Nat.add_0_r. apply take_drop. Qed.
Lemma write_at_length c off d : length (write_at c off d) = Nat.max (length c) (off + length d).
Proof.
  unfold write_at, zeros. rewrite !length_app, length_take, length_app, length_replicate, length_drop. lia.
Qed.
Lemma write_at_le c off d : (off <= length c)%nat -> write_at c off d = take off c ++ d ++ drop (off + length d) c.
Proof. intros Hl. unfold write_at. by rewrite take_app_le. Qed.
Lemma write_at_split c off d1 d2 : (off <= length c)%nat -> write_at (write_at c off d1) (off + length d1) d2 = write_at c off (d1 ++ d2).
Proof.
  intros Hl. rewrite (write_at_le (write_at c off d1)) by (rewrite write_at_length; lia). rewrite !write_at_le by done.
  set (a := take off c ++ d1). assert (Hlen : length a = (off + length d1)%nat) by (subst a; rewrite length_app, length_take; lia).
  assert (take off c ++ d1 ++ drop (off + length d1) c = a ++ drop (off + length d1) c) as -> by (subst a; by rewrite <- app_assoc).
  rewrite take_app_length' by done. rewrite drop_app_ge by lia. rewrite Hlen, drop_drop, length_app. subst a. rewrite <- !app_assoc. do 4 f_equal. lia.
Qed.

(** A partial copy: no longer than the data, and every byte of it is the data's
    at that place or a zero (the file is presized when holes or preallocation
    are wanted). *)
Definition piece (data c : list byte) : Prop :=
  (length c <= length data)%nat /\ forall k b, c !! k = Some b -> data !! k = Some b \/ b = Byte.x00.

Lemma piece_nil data : piece data [].
Proof. split; [simpl; lia|]. intros k b Hk. by rewrite lookup_nil in Hk. Qed.
Lemma piece_self data : piece data data.
Proof. split; [done|]. intros k b Hk. by left. Qed.
Lemma piece_zeros data n : (n <= length data)%nat -> piece data (zeros n).
Proof.
  intros Hn. unfold zeros. split; [by rewrite length_replicate|]. intros k b Hk. right. by apply lookup_replicate in Hk as [-> _].
Qed.
Lemma piece_app data a b : piece data a -> piece (drop (length a) data) b -> piece data (a ++ b).
Proof.
  intros [La Ha] [Lb Hb]. rewrite length_drop in Lb. split; [rewrite length_app; lia|]. intros k x [Hk|[Hk Hx]]%lookup_app_Some; [by apply Ha|].
  apply Hb in Hx as [Hx|Hx]; [left|by right]. rewrite lookup_drop in Hx. rewrite <- Hx. f_equal. lia.
Qed.
Lemma piece_take data c n : piece data c -> piece data (take n c).
Proof. intros [Lc Hc]. split; [rewrite length_take; lia|]. intros k b [Hk _]%lookup_take_Some. by apply Hc. Qed.
Lemma piece_drop data c n : piece data c -> piece (drop n data) (drop n c).
Proof. intros [Lc Hc]. split; [rewrite !length_drop; lia|]. intros k b. rewrite !lookup_drop. apply Hc. Qed.
Lemma piece_prefix data c : c `prefix_of` data -> piece data c.
Proof. intros [r ->]. split; [rewrite length_app; lia|]. intros k b Hk. left. by apply lookup_app_l_Some. Qed.
Lemma piece_write data c off bs : (off <= length c)%nat -> bs `prefix_of` drop off data -> piece data c -> piece data (write_at c off bs).
Proof.
  intros Ho Hb Hc. pose proof Hc as [Lc _]. rewrite write_at_le by done. assert (length (take off c) = off) as Hl by (rewrite length_take; lia).
  apply piece_app; [by apply piece_take|]. rewrite Hl. apply piece_app; [by apply piece_prefix|]. rewrite drop_drop. by apply piece_drop.
Qed.
Lemma piece_resize data c n : (n <= length data)%nat -> piece data c -> piece data (resize c n).
Proof.
  intros Hn Hc. pose proof Hc as [Lc _]. unfold resize. destruct (decide (n <= length c)%nat).
  - rewrite take_app_le by done. by apply piece_take.
  - rewrite take_ge by (unfold zeros; rewrite length_app, length_replicate; lia). apply piece_app; [done|].
    apply piece_zeros. rewrite length_drop. lia.
Qed.
Lemma prefix_drop_take {A} (bs r : list A) n : bs `prefix_of` r -> drop n bs `prefix_of` drop n r.
Proof.
  intros [x ->]. destruct (decide (n <= length bs)%nat); [rewrite drop_app_le by done; by eexists|].
  rewrite (drop_ge bs) by lia. apply prefix_nil.
Qed.

Section Temp.
Context (D T : list name) (HTD : T <> D) (v0 : option (kind * list byte)) (data : list byte) (K : Prop).
Local Abbreviation view := (view D).

(** The destination is as it was, or the new file, or, when [K] allows it, a
    partial copy of the new file. *)
Definition either (d : disk) : Prop :=
  view d = v0 \/ (exists i, view d = Some (KLeaf false i, data)) \/ K /\ exists i c, view d = Some (KLeaf false i, c) /\ piece data c.

(** The temporary file is the inode [i], which is not the destination's, and
    holds [c]. *)
Definition temp (i : Z) (c : list byte) (d : disk) : Prop :=
  view d = v0 /\ kind_at (d_fs d) T = Some (KLeaf false i) /\ contents d i = c /\ (forall l j x, v0 = Some (KLeaf l j, x) -> j <> i).

Lemma temp_either i c d : temp i c d -> either d.
Proof. intros (?&_). by left. Qed.

Lemma temp_write i c c' d : temp i c d -> temp i c' (MkDisk (d_fs d) (<[i := c']> (d_files d))).
Proof.
  intros (Hv&Hk&Hc&Hj). split_and!; [|done|unfold contents; simpl; by rewrite lookup_insert_eq|done]. rewrite <- Hv. rewrite <- Hv in Hj. unfold SaveSafe.view in *. simpl.
  destruct (kind_at (d_fs d) D) as [[|l j]|]; [done| |done]. unfold contents. simpl. rewrite lookup_insert_ne; [done|]. intros ->. by apply (Hj l j _ eq_refl).
Qed.

Lemma triple_set_temp i c c' : triple either (temp i c) (set_file i c') (fun _ => temp i c').
Proof. apply triple_set_file. intros d Hd. pose proof (temp_write i c c' d Hd) as Ht. split; [by eapply temp_either|done]. Qed.

Lemma triple_write i c off bs : (off <= length c)%nat ->
  triple either (temp i c) (sys_write i off bs) (fun r d => exists c', temp i c' d /\
    match r with inr n => n <= 0 /\ c' = c \/ 0 < n <= zlen bs /\ c' = write_at c off (take (Z.to_nat n) bs) | inl _ => c' = c end).
Proof.
  intros Hl s Hs. unfold sys_write, mbind, sysM_bind, ask.
  assert (Hgo : forall s (n : Z), temp i c (s_disk s) -> n <= zlen bs ->
    let m : sysM (errno + Z) := (if n <=? 0 then mret (inr n) else _ ← set_file i (write_at (contents (s_disk s) i) off (take (Z.to_nat n) bs)); mret (inr n)) in
    exists t, s_trace (m s).1 = s_trace s ++ t /\ Forall either t /\ (exists c', temp i c' (s_disk (m s).1) /\
      match (m s).2 with inr n => n <= 0 /\ c' = c \/ 0 < n <= zlen bs /\ c' = write_at c off (take (Z.to_nat n) bs) | inl _ => c' = c end)).
  { clear s Hs. intros s n Hs Hn. destruct (Z.leb_spec n 0); cbv zeta.
    - exists []. rewrite app_nil_r. split_and!; [done|constructor|]. exists c. split; [done|]. by left.
    - pose proof Hs as (_&_&Hc&_). rewrite Hc. destruct (triple_set_temp i c (write_at c off (take (Z.to_nat n) bs)) s Hs) as (t&Et&Ft&Qt).
      unfold mbind, sysM_bind. destruct (set_file i _ s) as [s1 []]. exists t. split_and!; [done..|]. eexists. split; [exact Qt|]. right. split; [lia|done]. }
  destruct (s_answers s) as [|[k|e] l]; simpl.
  - apply (Hgo s (zlen bs)); [done|lia].
  - apply (Hgo (MkSys (s_disk s) l (s_trace s) (s_seq s)) (Z.min k (zlen bs))); [done|lia].
  - exists []. rewrite app_nil_r. split_and!; [done|constructor|]. by exists c.
Qed.

Lemma triple_write_loop i fuel : forall c off bs, (off <= length c)%nat ->
  triple either (temp i c) (write_loop fuel i off bs) (fun ok d => exists c', temp i c' d /\
    ((ok = true -> c' = write_at c off bs) /\ (bs `prefix_of` drop off data -> piece data c -> piece data c'))).
Proof.
  induction fuel as [|fuel IH]; intros c off bs Hl; cbn [write_loop]; [apply triple_ret; by exists c|].
  destruct bs as [|b bs]; [apply triple_ret; intros d Hd; exists c; split; [done|split; [intros _; by rewrite write_at_nil|done]]|].
  eapply triple_bind; [by apply triple_write|]. intros [e|n]; cbn beta; apply triple_ex; intros c'.
  - apply triple_pure. intros ->. case_bool_decide; [by apply IH|]. apply triple_ret. by exists c.
  - apply triple_pure. intros [[Hn ->]|[Hn ->]].
    + rewrite (proj2 (Z.leb_le _ _) Hn). apply triple_ret. by exists c.
    + rewrite (proj2 (Z.leb_gt n 0)) by lia. eapply triple_post; [apply (IH (write_at c off (take (Z.to_nat n) (b :: bs))))|].
      * rewrite write_at_length, length_take. unfold zlen in Hn. lia.
      * cbn beta. intros ok d (c'&Ht&Hok&Hpc). exists c'. split; [done|]. assert (Hln : length (take (Z.to_nat n) (b :: bs)) = Z.to_nat n) by (rewrite length_take; unfold zlen in Hn; lia).
        split; [intros ->; rewrite (Hok eq_refl)|].
        -- rewrite <- Hln at 2. rewrite write_at_split by done. by rewrite take_drop.
        -- intros Hb Hc. apply Hpc; [rewrite <- drop_drop; by apply prefix_drop_take|]. apply piece_write; [done| |done].
           etrans; [|exact Hb]. exists (drop (Z.to_nat n) (b :: bs)). by rewrite take_drop.
Qed.
Lemma triple_write_all i c off bs : (off <= length c)%nat ->
  triple either (temp i c) (write_all i off bs) (fun ok d => exists c', temp i c' d /\
    ((ok = true -> c' = write_at c off bs) /\ (bs `prefix_of` drop off data -> piece data c -> piece data c'))).
Proof. intros Hl s Hs. by apply (triple_write_loop i (S (S (length (s_answers s)))) c off bs Hl). Qed.

Lemma triple_truncate i c n :
  triple either (temp i c) (sys_truncate i n) (fun r d => exists c', temp i c' d /\ (r = None -> c' = resize c n) /\ (r <> None -> c' = c)).
Proof.
  eapply triple_bind; [apply triple_ask|]. intros r. eapply triple_bind; [apply triple_get|]. intros d.
  destruct r as [e|k].
  - apply triple_ret. intros d' [-> Ht]. by exists c.
  - apply triple_at. intros d0 [-> Ht]. pose proof Ht as (_&_&->&_). eapply (triple_bind _ _ _ _ (fun _ => temp i (resize c n))).
    + eapply triple_mono; [apply (triple_set_temp i c (resize c n))|by intros ? ->|done].
    + intros []. apply triple_ret. intros d' Ht'. by exists (resize c n).
Qed.
Lemma triple_allocate i c n :
  triple either (temp i c) (sys_allocate i n) (fun r d => exists c', temp i c' d /\ (r = None -> c' = resize c (Nat.max n (length c))) /\ (r <> None -> c' = c)).
Proof.
  eapply triple_bind; [apply triple_ask|]. intros r. eapply triple_bind; [apply triple_get|]. intros d.
  destruct r as [e|k].
  - apply triple_ret. intros d' [-> Ht]. by exists c.
  - apply triple_at. intros d0 [-> Ht]. pose proof Ht as (_&_&->&_). eapply (triple_bind _ _ _ _ (fun _ => temp i (resize c (Nat.max n (length c))))).
    + eapply triple_mono; [apply (triple_set_temp i c (resize c (Nat.max n (length c))))|by intros ? ->|done].
    + intros []. apply triple_ret. intros d' Ht'. by eexists.
Qed.

(** *** Sparse writing *)

Lemma run_length_le z bs : (run_length z bs <= length bs)%nat.
Proof. induction bs as [|c bs IH]; simpl; [done|]. destruct (Bool.eqb _ _); lia. Qed.
Lemma run_length_zeros bs : take (run_length true bs) bs = zeros (run_length true bs).
Proof.
  induction bs as [|c bs IH]; [done|]. cbn [run_length]. destruct (bool_decide_reflect (c = Byte.x00)) as [->|]; [|done].
  cbn [Bool.eqb take]. rewrite IH. done.
Qed.
Lemma run_length_pos c bs : (0 < run_length (bool_decide (c = Byte.x00)) (c :: bs))%nat.
Proof. cbn [run_length]. rewrite eqb_reflx. lia. Qed.

Lemma drop_zeros k n : drop k (zeros n) = zeros (n - k).
Proof. unfold zeros. apply drop_replicate. Qed.

Lemma triple_sparse i fuel : forall c off bs, (length bs < fuel)%nat -> (off <= length c)%nat -> drop off c = zeros (length bs) ->
  bs `prefix_of` drop off data -> piece data c ->
  triple either (temp i c) (sparse_loop fuel i off bs) (fun ok d => exists c', temp i c' d /\ ((ok = true -> c' = take off c ++ bs) /\ piece data c')).
Proof.
  induction fuel as [|fuel IH]; intros c off bs Hf Hl Hz Hbd Hpc; [lia|]. cbn [sparse_loop].
  destruct bs as [|b bs]; [apply triple_ret; intros d Hd; exists c; split; [done|split; [intros _|done]]; rewrite <- (take_drop off c) at 1; by rewrite Hz|].
  set (z := bool_decide (b = Byte.x00)). set (run := run_length z (b :: bs)).
  assert (Hrun : (0 < run <= length (b :: bs))%nat) by (split; [apply run_length_pos|apply run_length_le]).
  assert (Hlc : length c = (off + length (b :: bs))%nat) by (rewrite <- (take_drop off c), length_app, Hz, length_take; unfold zeros; rewrite length_replicate; lia).
  assert (Htk : take run (b :: bs) `prefix_of` drop off data) by (etrans; [|exact Hbd]; exists (drop run (b :: bs)); by rewrite take_drop).
  eapply (triple_bind _ _ _ _ (fun ok d => exists c', temp i c' d /\ ((ok = true -> c' = write_at c off (take run (b :: bs))) /\ piece data c'))).
  { destruct (z && _) eqn:Eh; [|eapply triple_post; [by apply triple_write_all|]; cbn beta; intros ok d (c'&Ht&Hok&Hp); exists c'; auto].
    eapply triple_bind; [apply triple_other|]. intros r. apply triple_ret. intros d Hd. exists c. split; [done|]. split; [intros _|done].
    apply andb_true_iff in Eh as [Ez _]. subst run. rewrite Ez. rewrite run_length_zeros, write_at_le by done. unfold zeros at 2. rewrite length_replicate.
    rewrite <- (take_drop off c) at 1. f_equal. rewrite Hz. rewrite <- (drop_drop c _ off), Hz, drop_zeros. unfold zeros. rewrite <- replicate_add. f_equal. rewrite Ez in Hrun. lia. }
  intros ok. apply triple_ex. intros c'. apply triple_pure. intros [Hc Hpc']. destruct ok; [|apply triple_ret; by exists c']. rewrite (Hc eq_refl).
  set (c2 := write_at c off (take run (b :: bs))).
  assert (Hlt : length (take run (b :: bs)) = run) by (rewrite length_take; lia).
  assert (E2 : c2 = (take off c ++ take run (b :: bs)) ++ drop (off + run) c) by (subst c2; rewrite write_at_le, Hlt, app_assoc by done; done).
  assert (Hl2 : length (take off c ++ take run (b :: bs)) = (off + run)%nat) by (rewrite length_app, Hlt, length_take; lia).
  eapply triple_post; [apply (IH c2 (off + run)%nat)|].
  - rewrite length_drop. lia.
  - rewrite E2, length_app, Hl2. lia.
  - rewrite E2, drop_app_length' by done. rewrite <- (drop_drop c run off), Hz, drop_zeros, length_drop. done.
  - rewrite <- drop_drop. by apply prefix_drop_take.
  - subst c2. by apply piece_write.
  - cbn beta. intros ok d (c3&Ht&Hok&Hp3). exists c3. split; [done|]. split; [|done]. intros Ho. rewrite (Hok Ho), E2, take_app_length', <- app_assoc by done. by rewrite take_drop.
Qed.

Lemma resize_self c : resize c (length c) = c.
Proof. unfold resize. rewrite Nat.sub_diag. simpl. by rewrite app_nil_r, firstn_all. Qed.
Lemma resize_nil n : resize [] n = zeros n.
Proof. unfold resize. simpl. rewrite Nat.sub_0_r. unfold zeros. by rewrite take_replicate, Nat.min_id. Qed.
Lemma resize_zeros n : resize (zeros n) n = zeros n.
Proof. pose proof (resize_self (zeros n)) as Hr. unfold zeros in *. by rewrite length_replicate in Hr. Qed.

Lemma triple_write_sparse i : triple either (temp i (zeros (length data))) (file_store_write_sparse i data) (fun ok d => exists c', temp i c' d /\ ((ok = true -> c' = data) /\ piece data c')).
Proof.
  eapply triple_bind; [apply triple_sparse; [lia|lia|done|done|by apply piece_zeros]|]. intros ok. cbn beta. apply triple_ex. intros c'. apply triple_pure. intros [Hc Hp]. cbn [take app] in Hc.
  destruct ok; [|apply triple_ret; by exists c']. rewrite (Hc eq_refl). eapply triple_bind; [apply triple_truncate|]. intros r. cbn beta.
  apply triple_ex. intros c2. apply triple_pure. intros [Hr Hr']. apply triple_ret. intros d Hd. exists c2. split; [done|]. split.
  - rewrite bool_decide_eq_true. intros ->. by rewrite (Hr eq_refl), resize_self.
  - destruct r; [rewrite Hr' by done|rewrite (Hr eq_refl), resize_self]; apply piece_self.
Qed.

(** *** The steps of a store under a temporary name *)

Context (o : save_opts).

Definition blank (c : list byte) : Prop := c = [] \/ c = zeros (length data).

Lemma blank_piece c : blank c -> piece data c.
Proof. intros [->| ->]; [apply piece_nil|by apply piece_zeros]. Qed.
Lemma blank_resize c : blank c -> resize c (length data) = zeros (length data).
Proof. intros [->| ->]; [apply resize_nil|apply resize_zeros]. Qed.
Lemma blank_allocate c : blank c -> resize c (Nat.max (length data) (length c)) = zeros (length data).
Proof.
  intros [->| ->]; [simpl; rewrite Nat.max_0_r; apply resize_nil|]. unfold zeros at 2. rewrite length_replicate, Nat.max_id. apply resize_zeros.
Qed.

Lemma triple_preallocate i : triple either (temp i []) (preallocated o i data) (fun _ d => exists c, temp i c d /\ blank c).
Proof.
  assert (Halloc : forall c, blank c -> triple either (temp i c) (sys_allocate i (length data)) (fun _ d => exists c, temp i c d /\ blank c)).
  { intros c Hb. eapply triple_post; [apply triple_allocate|]. cbn beta. intros r d (c'&Ht&H1&H2). exists c'. split; [done|].
    destruct (decide (r = None)) as [E|E]; [right; rewrite (H1 E); by apply blank_allocate|by rewrite (H2 E)]. }
  assert (Htrunc : forall c, blank c -> triple either (temp i c) (sys_truncate i (length data)) (fun _ d => exists c, temp i c d /\ blank c)).
  { intros c Hb. eapply triple_post; [apply triple_truncate|]. cbn beta. intros r d (c'&Ht&H1&H2). exists c'. split; [done|].
    destruct (decide (r = None)) as [E|E]; [right; rewrite (H1 E); by apply blank_resize|by rewrite (H2 E)]. }
  assert (Hret : forall c, blank c -> forall d, temp i c d -> exists c, temp i c d /\ blank c) by (intros c Hb d Hd; by exists c).
  unfold preallocated. destruct (_ && _); [|apply triple_ret; intros d Hd; exists []; split; [done|by left]].
  eapply (triple_bind _ _ _ _ (fun _ d => exists c, temp i c d /\ blank c)); [|intros r; by apply triple_ret].
  unfold preallocate_fd. destruct (_ =? 0)%nat; [apply triple_ret; intros d Hd; exists []; split; [done|by left]|].
  eapply triple_bind; [apply Halloc; by left|]. intros r. cbn beta. apply triple_ex. intros c. apply triple_pure. intros Hb.
  destruct r as [e|]; [|apply triple_ret; by apply Hret]. destruct (_ && _); [apply triple_ret; by apply Hret|].
  eapply triple_bind; [by apply Halloc|]. intros rc. cbn beta. apply triple_ex. intros c2. apply triple_pure. intros Hb2.
  destruct (_ || _); [by apply Htrunc|apply triple_ret; by apply Hret].
Qed.

Lemma triple_write_data i c : blank c ->
  triple either (temp i c) (write_data o i data) (fun r d => exists c', temp i c' d /\ ((r.2 = true -> c' = data) /\ piece data c')).
Proof.
  intros Hb. pose proof (blank_piece _ Hb) as Hp. unfold write_data. set (holes := o_sparse o && _).
  destruct holes; cbn [negb orb].
  - eapply (triple_bind _ _ _ _ (fun ok d => exists c', temp i c' d /\ ((ok = true -> c' = zeros (length data)) /\ piece data c'))).
    + eapply triple_bind; [apply triple_truncate|]. intros r. cbn beta. apply triple_ex. intros c'. apply triple_pure. intros [H1 H2]. apply triple_ret.
      intros d Hd. exists c'. split; [done|]. split; [rewrite bool_decide_eq_true; intros ->; rewrite (H1 eq_refl); by apply blank_resize|].
      destruct r; [by rewrite H2|rewrite (H1 eq_refl); by apply piece_resize].
    + intros ok. cbn beta. apply triple_ex. intros c'. apply triple_pure. intros [Hc Hp']. destruct ok; cbn [orb]; [|apply triple_ret; by exists c'].
      rewrite (Hc eq_refl). eapply triple_bind; [apply triple_write_sparse|]. intros ok. by apply triple_ret.
  - eapply (triple_bind _ _ _ _ (fun ok d => temp i c d)); [by apply triple_ret|]. intros ok. rewrite orb_true_r.
    eapply triple_bind; [apply triple_write_all; lia|]. intros ok'. cbn beta. apply triple_ret. intros d (c'&Ht&Hok&Hp'). exists c'. split; [done|]. simpl.
    split; [intros E|by apply Hp']. 
    rewrite (Hok E), write_at_le by lia. cbn [take app Nat.add]. destruct Hb as [->| ->]; [by rewrite drop_nil, app_nil_r|].
    rewrite drop_zeros, Nat.sub_diag. apply app_nil_r.
Qed.

Lemma triple_finish (P : disk -> Prop) ok : triple either P (finish o ok) (fun ok' d => P d /\ (ok' = true -> ok = true)).
Proof.
  unfold finish. eapply (triple_bind _ _ _ _ (fun ok' d => P d /\ (ok' = true -> ok = true))).
  - destruct ok; [|by apply triple_ret]. eapply (triple_post _ _ _ (fun _ => P)); [|done]. unfold set_attributes. destruct (o_metadata o); [|apply triple_succeeds, triple_other].
    eapply (triple_bind _ _ _ _ (fun _ => P)); [destruct (o_perms o); [by apply triple_ret|apply triple_succeeds, triple_other]|].
    intros []; [apply triple_succeeds, triple_other|by apply triple_ret].
  - intros ok'. apply triple_pure. intros Hok. destruct (ok' && o_fsync o) eqn:E; [|by apply triple_ret]. apply andb_true_iff in E as [E _].
    eapply triple_post; [apply triple_succeeds, triple_other|]. cbn beta. intros b d Hd. split; [done|]. intros _. by apply Hok.
Qed.
End Temp.

(** *** Creating, installing and discarding it *)

(** --partial keeps what was written, except where only new files are wanted. *)
Definition keeps_partial (o : save_opts) : Prop := o_keep_partial o = true /\ o_no_replace o = false.

Section Steps.
Context (tdir : list name) (tmp : name) (dir : list name) (leaf : name) (v0 : option (kind * list byte)) (data : list byte) (o : save_opts).
Local Abbreviation T := (tdir ++ [tmp]).
Local Abbreviation D := (dir ++ [leaf]).
Context (HTD : T <> D) (Hdots : dots tmp = false).
Local Abbreviation either := (either D v0 data (keeps_partial o)).
Local Abbreviation temp := (temp D T v0).

Lemma triple_unlink v : (v = v0 \/ exists i, v = Some (KLeaf false i, data)) ->
  triple either (fun d => view D d = v) (sys_unlink tdir tmp) (fun _ d => view D d = v).
Proof.
  intros Hv. eapply triple_bind; [apply triple_ask|]. intros r. eapply triple_bind; [apply triple_get|]. intros d. cbn beta.
  destruct r as [e|k]; [by apply triple_ret; intros ? [_ ?]|].
  destruct (entry_at d tdir tmp) as [[l i|es]|] eqn:Ee; [|by apply triple_ret; intros ? [_ ?]..].
  destruct (entry_plain _ _ _ _ Ee Hdots) as (es&Hd&Hf).
  eapply triple_bind; [|intros u; apply triple_ret; intros d' Hd'; exact Hd']. apply triple_set_fs. intros d' [-> Hd'].
  assert (view D (MkDisk (without_entry (d_fs d') tdir tmp) (d_files d')) = v) as Hw; [|split; [unfold SaveSafe.either; rewrite Hw; tauto|done]].
  rewrite <- Hd'. apply view_fs. rewrite (kind_without _ _ _ _ _ _ _ Hd Hf). by rewrite decide_False.
Qed.

Lemma triple_create : triple either (fun d => view D d = v0) (sys_create tdir tmp)
  (fun r d => match r with inl _ => view D d = v0 | inr i => temp i [] d end).
Proof.
  eapply triple_bind; [apply triple_ask|]. intros r. eapply triple_bind; [apply triple_get|]. intros d. cbn beta.
  destruct r as [e|k]; [by apply triple_ret; intros ? [_ ?]|].
  destruct (dir_for d tdir tmp) as [es|] eqn:Hd; [|by apply triple_ret; intros ? [_ ?]].
  destruct (entry_at d tdir tmp) as [nd|] eqn:Ee; [by apply triple_ret; intros ? [_ ?]|].
  destruct (entry_none _ _ _ _ Ee Hd) as [Hd' Hf].
  cbv zeta. set (i := fresh_ino d). set (d' := MkDisk _ _). eapply (triple_bind _ _ _ _ (fun _ => temp i [])); [|intros []; by apply triple_ret].
  assert (Hk : forall q, kind_at (d_fs d') q = if decide (q = T) then Some (KLeaf false i) else kind_at (d_fs d) q)
    by (intros q; apply (kind_with _ _ _ _ _ _ _ Hd'); by rewrite Hf).
  apply triple_set. intros d0 [-> Hv]. assert (temp i [] d') as Ht; [|split; [by eapply temp_either|done]].
  assert (Hj : forall l j x, v0 = Some (KLeaf l j, x) -> j <> i).
  { intros l j x E. rewrite <- Hv in E. unfold view in E. destruct (kind_at (d_fs d0) D) as [[|l' j']|] eqn:Ek; [done| |done]. injection E as -> -> _.
    apply max_ino_kind in Ek. unfold i, fresh_ino. lia. }
  split_and!; [|by rewrite Hk, decide_True|unfold contents; simpl; by rewrite lookup_insert_eq|done].
  rewrite <- Hv. rewrite <- Hv in Hj. unfold view in *. rewrite Hk, decide_False by done. destruct (kind_at (d_fs d0) D) as [[|l j]|]; [done| |done].
  unfold contents. simpl. rewrite lookup_insert_ne; [done|]. intros E. by apply (Hj l j _ eq_refl).
Qed.

(** The entry of the temporary file, from [temp]. *)
Lemma temp_entry i c d : temp i c d -> tmp <> [] -> exists es, dir_at (d_fs d) tdir = Some es /\ find tmp es = Some (Leaf false i) /\ entry_at d tdir tmp = Some (Leaf false i).
Proof.
  intros (_&Hk&_) Hne. destruct (kind_dir _ _ _ _ Hk) as [es Hd]. rewrite (kind_find _ _ _ _ Hd) in Hk. exists es.
  unfold entry_at, dir_for. rewrite bool_decide_eq_false_2, Hd by done. simpl. rewrite Hdots.
  destruct (find tmp es) as [[l j|ces]|]; simpl in Hk; [|done..]. by injection Hk as -> ->.
Qed.

Lemma view_installed i d es fs c :
  dir_at (d_fs d) dir = Some es -> match find leaf es with Some (Dir _) => False | _ => True end -> contents d i = c ->
  kind_at fs D = kind_at (with_entry (d_fs d) dir leaf (Leaf false i)) D -> view D (MkDisk fs (d_files d)) = Some (KLeaf false i, c).
Proof.
  intros Hd Hf Hc Hk. unfold view. simpl. rewrite Hk, (kind_with _ _ _ _ _ _ _ Hd Hf), decide_True by done. do 2 f_equal. exact Hc.
Qed.

Definition installed (d : disk) : Prop := exists i, view D d = Some (KLeaf false i, data).

Lemma triple_link i : tmp <> [] -> triple either (temp i data) (sys_link tdir tmp dir leaf)
  (fun r d => if decide (r = None) then installed d else view D d = v0).
Proof.
  intros Hne. eapply triple_bind; [apply triple_ask|]. intros r. eapply triple_bind; [apply triple_get|]. intros d. cbn beta.
  apply triple_at. intros d0 [-> Ht]. pose proof Ht as (Hv&_&Hc&_). destruct (temp_entry _ _ _ Ht Hne) as (tes&Htd&Htf&->).
  destruct r as [e|k]; [by apply triple_ret; intros ? ->|].
  destruct (dir_for d0 dir leaf) as [es|] eqn:Hd; [|by apply triple_ret; intros ? ->].
  destruct (entry_at d0 dir leaf) as [nd|] eqn:Ee; [by apply triple_ret; intros ? ->|].
  destruct (entry_none _ _ _ _ Ee Hd) as [Hd' Hf]. eapply (triple_bind _ _ _ _ (fun _ => installed)); [|intros []; by apply triple_ret].
  apply triple_set_fs. intros d ->. assert (installed (MkDisk (with_entry (d_fs d0) dir leaf (Leaf false i)) (d_files d0))) as Hi.
  { exists i. eapply view_installed; [done|by rewrite Hf|done..]. }
  split; [by right; left|done].
Qed.

Lemma triple_rename i c : tmp <> [] -> c = data \/ keeps_partial o /\ piece data c ->
  triple either (temp i c) (sys_rename tdir tmp dir leaf)
    (fun r d => if decide (r = None) then view D d = Some (KLeaf false i, c) else temp i c d).
Proof.
  intros Hne Hpc. eapply triple_bind; [apply triple_ask|]. intros r. eapply triple_bind; [apply triple_get|]. intros d. cbn beta.
  apply triple_at. intros d0 [-> Ht]. pose proof Ht as (Hv&_&Hc&Hj). destruct (temp_entry _ _ _ Ht Hne) as (tes&Htd&Htf&->).
  destruct r as [e|k]; [by apply triple_ret; intros ? ->|].
  destruct (dir_for d0 dir leaf) as [es|] eqn:Hd; [|by apply triple_ret; intros ? ->].
  assert (Hd' : dir_at (d_fs d0) dir = Some es) by (revert Hd; unfold dir_for; by case_bool_decide).
  assert (Hgo : match find leaf es with Some (Dir _) => False | _ => True end ->
    triple either (fun d => d = d0) (_ ← set_fs (without_entry (with_entry (d_fs d0) dir leaf (Leaf false i)) tdir tmp); mret (@None errno))
      (fun r d => if decide (r = None) then view D d = Some (KLeaf false i, c) else temp i c d)).
  { intros Hf. eapply (triple_bind _ _ _ _ (fun _ d => view D d = Some (KLeaf false i, c))); [|intros []; by apply triple_ret]. apply triple_set_fs. intros d ->.
    assert (view D (MkDisk (without_entry (with_entry (d_fs d0) dir leaf (Leaf false i)) tdir tmp) (d_files d0)) = Some (KLeaf false i, c)) as Hi;
      [|split; [unfold SaveSafe.either; rewrite Hi; right; destruct Hpc as [->|[? ?]]; eauto 6|done]].
    eapply view_installed; [done..|]. destruct (dir_with _ _ _ false i _ _ _ Hd' Hf Htd) as [tes' Htd'].
    assert (Htf' : find tmp tes' = Some (Leaf false i)).
    { pose proof (kind_find _ _ tmp _ Htd') as Ek. rewrite (kind_with _ _ _ _ _ _ _ Hd' Hf), decide_False, (kind_find _ _ _ _ Htd), Htf in Ek by done.
      destruct (find tmp tes') as [[]|]; simpl in Ek; [|done..]. by injection Ek as <- <-. }
    rewrite (kind_without _ _ _ _ _ _ _ Htd' Htf'), decide_False by done. done. }
  destruct (entry_at d0 dir leaf) as [[l j|ces]|] eqn:Ee; [|by apply triple_ret; intros ? ->|].
  - destruct (dots leaf) eqn:Edl; [by apply (entry_dots _ _ _ _ Ee) in Edl|]. destruct (entry_plain _ _ _ _ Ee Edl) as (es2&Hd2&Hf2).
    rewrite Hd' in Hd2. injection Hd2 as <-. destruct (Z.eqb_spec i j) as [->|Hij]; [|apply Hgo; by rewrite Hf2].
    exfalso. apply (Hj l j (contents d0 j)); [|done]. rewrite <- Hv. unfold view. by rewrite (kind_find _ _ _ _ Hd'), Hf2.
  - destruct (entry_none _ _ _ _ Ee Hd) as [_ Hf2]. apply Hgo. by rewrite Hf2.
Qed.

(** What a run reports: the fallback is only asked for when the destination is
    as it was or complete, and success means the new file is there, or that the
    destination was kept on purpose. *)
Definition reported (keeps : Prop) (r : bool * bool) (d : disk) : Prop :=
  either d /\ (r.2 = true -> r.1 = false /\ (view D d = v0 \/ installed d)) /\ (r.1 = true -> installed d \/ keeps /\ view D d = v0).

(** The temporary file after a failure, where it may be kept. *)
Definition leftover (i : Z) (xdev : bool) (d : disk) : Prop :=
  o_no_replace o = false -> exists c, temp i c d /\ piece data c /\ (xdev = true -> c = data).

Lemma triple_install scratch i : tmp <> [] -> triple either (temp i data) (install o scratch tdir tmp dir leaf)
  (fun r d => reported (o_no_replace o = true) r d /\ (view D d = v0 \/ installed d) /\ (r.1 = false -> leftover i r.2 d)).
Proof.
  intros Hne. unfold install, leftover. destruct (o_no_replace o) eqn:En.
  - eapply triple_bind; [by apply triple_link|]. intros r. cbn beta. destruct (_ || _).
    + apply triple_at. intros d0 Hd0. assert (Hv : view D d0 = v0 \/ installed d0) by (case_decide; auto).
      eapply triple_bind; [eapply triple_mono; [apply (triple_unlink (view D d0)); exact Hv|by intros ? ->|intros a d Hd; exact Hd]|].
      intros u. apply triple_ret. intros d Hd. unfold reported, SaveSafe.either, installed in *. rewrite Hd. naive_solver.
    + apply triple_ret. intros d Hd. assert (Hv : view D d = v0 \/ installed d) by (case_decide; auto).
      unfold reported, SaveSafe.either, installed in *. simpl. naive_solver.
  - eapply triple_bind; [apply triple_rename; [done|by left]|]. intros r. cbn beta. apply triple_ret. intros d Hd. case_decide as Er; simpl.
    + subst r. rewrite andb_false_r. assert (installed d) by (by exists i). unfold reported, SaveSafe.either. naive_solver.
    + rewrite (bool_decide_eq_false_2 (r = None)) by done. pose proof Hd as (Hv&_). split; [|split; [by left|]].
      { unfold reported, SaveSafe.either. simpl. auto. }
      intros _ _. exists data. split_and!; [done|apply piece_self|done].
Qed.

Lemma triple_discard attempted i xdev : tmp <> [] ->
  triple either (fun d => (view D d = v0 \/ installed d) /\ leftover i xdev d) (discard o tdir tmp dir leaf attempted)
    (fun _ d => either d /\ (xdev = true -> view D d = v0 \/ installed d)).
Proof.
  intros Hne. unfold discard. apply triple_at. intros d0 [Hv Hleft].
  assert (Hun : forall v P, v = v0 \/ (exists i, v = Some (KLeaf false i, data)) -> (forall d, P d -> view D d = v) ->
    triple either P (_ ← sys_unlink tdir tmp; mret tt) (fun _ d => either d /\ (xdev = true -> view D d = v0 \/ installed d))).
  { intros v P Hvv HP. eapply triple_bind; [eapply triple_mono; [by apply (triple_unlink v)|done|intros a d Hd; exact Hd]|].
    intros u. apply triple_ret. intros d Hd. unfold SaveSafe.either, installed. rewrite Hd. naive_solver. }
  destruct (o_keep_partial o) eqn:Ek, (o_no_replace o) eqn:En; cbn [negb orb]; rewrite ?orb_true_r;
    try (eapply Hun; [exact Hv|by intros ? ->]).
  destruct attempted; cbn [negb orb]; [|eapply Hun; [exact Hv|by intros ? ->]].
  destruct (Hleft En) as (c&Ht&Hp&Hx).
  eapply triple_bind; [eapply triple_mono; [apply (triple_rename i c Hne); right; split; [by split|done]|by intros ? ->|intros r d Hd; exact Hd]|].
  intros r. cbn beta. case_decide as Er.
  - subst r. rewrite bool_decide_eq_true_2 by done. apply triple_ret. intros d Hd. unfold SaveSafe.either, installed, keeps_partial. rewrite Hd. split.
    + right. right. split; [done|]. by exists i, c.
    + intros Ex. right. exists i. by rewrite (Hx Ex).
  - rewrite bool_decide_eq_false_2 by done. eapply Hun; [by left|]. by intros d (?&_).
Qed.

Lemma triple_write_temp scratch i : tmp <> [] ->
  triple either (temp i []) (write_temp o scratch tdir tmp dir leaf i data) (reported (o_no_replace o = true)).
Proof.
  intros Hne. unfold write_temp. eapply triple_bind; [by apply triple_preallocate|]. intros ready. cbn beta. apply triple_ex. intros c. apply triple_pure. intros Hb.
  eapply (triple_bind _ _ _ _ (fun r d => exists c', temp i c' d /\ ((r.2 = true -> c' = data) /\ piece data c'))).
  { destruct ready; [|apply triple_ret; intros d Hd; exists c; split; [done|]; split; [done|by apply blank_piece]].
    eapply triple_bind; [by apply triple_write_data|]. intros [a ok]. cbn beta. simpl. apply triple_ex. intros c'.
    eapply triple_bind; [apply triple_finish|]. intros ok'. apply triple_ret. intros d [[Ht [Hc Hp]] Hok]. exists c'. split; [done|]. split; [|done]. simpl. intros E. by apply Hc, Hok. }
  intros [attempted ok]. cbn beta. simpl. apply triple_ex. intros c'. apply triple_pure. intros [Hc Hp].
  eapply triple_bind; [apply triple_succeeds, triple_other|]. intros closed. cbn beta.
  eapply (triple_bind _ _ _ _ (fun r d => reported (o_no_replace o = true) r d /\ (view D d = v0 \/ installed d) /\ (r.1 = false -> leftover i r.2 d))).
  { destruct (ok && closed) eqn:E.
    - apply andb_true_iff in E as [-> _]. rewrite (Hc eq_refl). by apply triple_install.
    - apply triple_ret. intros d Ht. pose proof Ht as (Hv&_). split; [|split; [by left|intros _ _; exists c'; by split_and!]]. unfold reported, SaveSafe.either. simpl. split_and!; [by left|done|done]. }
  intros [ok' xdev]. cbn beta. simpl. destruct ok'.
  - eapply (triple_bind _ _ _ _ (fun _ d => reported (o_no_replace o = true) (true, xdev) d)); [by apply triple_ret; intros d (?&_)|]. intros []. by apply triple_ret.
  - eapply triple_bind; [eapply triple_mono; [by apply (triple_discard attempted i xdev)|cbn beta; intros d (_&Hv&Hl); split; [done|by apply Hl]|intros a d Hd; exact Hd]|].
    intros []. apply triple_ret. intros d [He Hx]. unfold reported. simpl. split_and!; [done|by auto|done].
Qed.
End Steps.

(** ** The walk to the parent leaves the destination alone *)

Section Parent.
Context `{Heap} {F : Faults} {E : SecureEnv}.

Lemma mkdirat_kept fs fd n fs' q : mkdirat fs fd n = inr fs' -> q <> fd ++ [n] -> kind_at fs' q = kind_at fs q.
Proof.
  intros (es&es'&Hd&[Ef ->]%add_entry_inv&->&_)%change_at_inv Hq. destruct (decide (fd `prefix_of` q)) as [[r ->]|Hn]; [|by eapply kind_put_other].
  rewrite (kind_put_below _ _ _ _ _ Hd), (kind_at_app _ _ _ _ Hd). destruct r as [|m r]; [done|]. cbn [kind_at]. rewrite find_snoc.
  destruct (decide (n = m)) as [->|]; [|by destruct (find m es)]. rewrite Ef. by destruct r.
Qed.
Lemma component_kept create floor fs fd rb c made fs' made' r q :
  open_component create floor fs fd rb c made = (fs', made', r) -> q <> fd ++ [c] -> kind_at fs' q = kind_at fs q.
Proof.
  intros Eo Hq. assert (Hs : fs' = (if create && bool_decide (openat fs fd c = inl ENOENT) then create_component floor fs fd rb c made else (fs, made, inr (openat fs fd c))).1.1).
  { revert Eo. unfold open_component. destruct (if create && _ then _ else _) as [[fs1 m1] [e|[e|d]]]; [by intros [= <- _ _]| |by intros [= <- _ _]].
    destruct (if keep_dirlinks && _ then _ else _); by intros [= <- _ _]. }
  rewrite Hs. destruct (create && _); [|done]. unfold create_component. destruct (mkdirat fs fd c) as [e|fs1] eqn:Em; [done|].
  destruct (if copy_as_active then _ else _); simpl; by eapply mkdirat_kept.
Qed.

Context (R : list name) (Hroot : root_fd = Some R) (Hkd : keep_dirlinks = false).

Lemma walk_kept create floor q comps : forall fs fd rb made fs' made' r,
  R `prefix_of` fd -> lands R fs fd -> walk create floor comps fs fd rb made = (fs', made', r) ->
  ~ q `prefix_of` (fd ++ no_dot comps) -> kind_at fs' q = kind_at fs q.
Proof.
  induction comps as [|c comps IH]; intros fs fd rb made fs' made' r Hp Hl; cbn [walk]; [by intros [= <- _ _]|].
  destruct (strcmp c (cs "..") =? 0) eqn:E2; [by intros [= <- _ _]|]. destruct (strcmp c (cs ".") =? 0) eqn:E1.
  { apply Z.eqb_eq, strcmp_eq in E1 as ->. apply IH; done. }
  destruct (open_component _ _ _ _ _ _ _) as [[fs1 m1] r1] eqn:Eo. pose proof (component_kept _ _ _ _ _ _ _ _ _ _ q Eo) as Hk.
  destruct (open_component_spec R Hroot _ _ _ _ _ _ _ _ _ _ Hl (strcmp_dots _ E2 E1) Eo) as (_&_&Hr1).
  apply Z.eqb_neq in E1. rewrite strcmp_eq in E1.
  assert (En : no_dot (c :: comps) = c :: no_dot comps) by (unfold no_dot; by rewrite filter_cons_True). rewrite En.
  intros Hw Hq. assert (Hk1 : kind_at fs1 q = kind_at fs q).
  { apply Hk. intros ->. apply Hq. exists (no_dot comps). by rewrite <- app_assoc. }
  destruct r1 as [e|next]; [by injection Hw as <- _ _|]. destruct (Hr1 _ eq_refl) as [Hl1 ->%(fun f => f Hkd)]. rewrite <- Hk1.
  rewrite Hkd in Hw. assert (Hq' : ~ q `prefix_of` ((fd ++ [c]) ++ no_dot comps)) by (by rewrite <- app_assoc).
  destruct (_ <=? _); (eapply IH; [|exact Hl1|exact Hw|exact Hq']); by apply prefix_app_r.
Qed.

Definition parent_of (root path : list byte) : list name := R ++ no_dot (tokens (dirname (drop (length root) path))).

Lemma parent_kept root path fs fs' r : root_path = Some root -> file_open_secure_parent path true fs = (fs', r) ->
  kind_at fs' (parent_of root path ++ [leaf_of path]) = kind_at fs (parent_of root path ++ [leaf_of path]) /\
  (forall fd leaf, r = inr (fd, leaf) -> fd = parent_of root path /\ leaf = leaf_of path).
Proof.
  intros Hrp. unfold file_open_secure_parent. destruct (file_open_secure_parent_counted _ _ _ _ _) as [[fs1 m1] r1] eqn:Ep. intros [= <- <-]. split.
  - revert Ep. unfold file_open_secure_parent_counted. destruct (xdup path); [by intros [= <- _ _]|]. destruct (xdup (leaf_of path)); [by intros [= <- _ _]|].
    destruct (walk_start path) as [|[fd0 parent]] eqn:Ew; [by intros [= <- _ _]|].
    apply (walk_start_inv R Hroot) in Ew as (root'&Er&->&->&_). rewrite Hrp in Er. injection Er as <-.
    destruct (walk _ _ _ _ _ _ _) as [[fs2 m2] r2] eqn:Eww. intros Er.
    assert (fs1 = fs2) as -> by (destruct r2; by injection Er). eapply walk_kept; [done|apply lands_root|exact Eww|].
    fold (parent_of root path). intros [k Hk%(f_equal length)]. rewrite !length_app in Hk. simpl in Hk. lia.
  - intros fd leaf ->. destruct (parent_spec R Hroot _ _ _ _ _ _ _ _ Ep) as (_&_&Hr). destruct (Hr _ _ eq_refl) as (_&->&root'&Er&_&_&Hfd).
    rewrite Hrp in Er. injection Er as <-. split; [|done]. by apply Hfd.
Qed.
End Parent.

(** ** A whole store *)

Section Whole.
Context `{Heap} {F : Faults} {E : SecureEnv} {V : SaveEnv} (o : save_opts).

Lemma tmp_name_longer leaf n : (length leaf < length (tmp_name leaf n))%nat.
Proof. unfold tmp_name. rewrite !length_app. change (length (cs ".")) with 1%nat. lia. Qed.
Lemma tmp_name_plain leaf n : tmp_name leaf n <> [] /\ dots (tmp_name leaf n) = false.
Proof.
  assert (Hl : (5 <= length (tmp_name leaf n))%nat) by (unfold tmp_name; rewrite !length_app; change (length (cs ".tmp.")) with 5%nat; lia).
  split; [by intros E0; rewrite E0 in Hl; simpl in Hl; lia|]. unfold dots. apply orb_false_iff.
  split; apply bool_decide_eq_false; intros E0; rewrite E0 in Hl; simpl in Hl; lia.
Qed.
Lemma tmp_name_place tdir dir leaf n : tdir ++ [tmp_name leaf n] <> dir ++ [leaf].
Proof. intros [_ [= E0]]%app_inj_2; [|done]. pose proof (tmp_name_longer leaf n). rewrite E0 in *. lia. Qed.

Context (dir : list name) (leaf : name) (v0 : option (kind * list byte)) (data : list byte).
Local Abbreviation D := (dir ++ [leaf]).
Local Abbreviation either := (either D v0 data (keeps_partial o)).

Lemma triple_seq P : triple either P next_temp_sequence (fun _ => P).
Proof. intros s Hs. exists []. rewrite app_nil_r. split_and!; [done|constructor|done]. Qed.

Lemma triple_try_names scratch n : forall k,
  triple either (fun d => view D d = v0) (try_names o n scratch dir leaf data k) (reported dir leaf v0 data o (o_no_replace o = true)).
Proof.
  induction n as [|n IH]; intros k; cbn [try_names]; [apply triple_ret; intros d Hd; split_and!; [by left|done|done]|].
  eapply (triple_bind _ _ _ _ (fun _ d => view D d = v0)); [destruct scratch; [apply triple_seq|by apply triple_ret]|]. intros num.
  destruct (tmp_name_plain leaf num) as [Hne Hdots]. pose proof (tmp_name_place (default dir scratch) dir leaf num) as HTD.
  eapply triple_bind; [by apply triple_create|]. intros [e|i]; cbn beta; [apply IH|]. by apply triple_write_temp.
Qed.
End Whole.

Section Atomic.
Context `{Heap} {F : Faults} {E : SecureEnv} {V : SaveEnv} (o : save_opts).
Context (R : list name) (Hroot : root_fd = Some R) (Hkd : keep_dirlinks = false) (root : list byte) (Hrp : root_path = Some root).
Context (path data : list byte) (v0 : option (kind * list byte)).
Context (Hin : o_inplace o = false).
Local Abbreviation dir := (parent_of R root path).
Local Abbreviation leaf := (leaf_of path).
Local Abbreviation D := (dir ++ [leaf]).
Local Abbreviation either := (either D v0 data (keeps_partial o)).
Local Abbreviation reported := (reported dir leaf v0 data o).

(** The destination was left alone on purpose: it exists and only new files are
    wanted, or it is a file newer than the one to store. *)
Definition kept : Prop :=
  o_no_replace o = true \/ o_update o = true /\ exists i c, v0 = Some (KLeaf false i, c) /\ newer (Leaf false i) = true.

Lemma triple_stat P : triple either P (sys_stat dir leaf) (fun r d => P d /\ (forall nd, r = inr nd -> entry_at d dir leaf = Some nd)).
Proof.
  eapply triple_bind; [apply triple_ask|]. intros r. eapply triple_bind; [apply triple_get|]. intros d. cbn beta. apply triple_ret. intros d' [-> Hd]. split; [done|].
  intros nd Hr. destruct r; [done|]. destruct (entry_at d' dir leaf); [by injection Hr as ->|done].
Qed.

Lemma triple_save_once temp_dir :
  triple either (fun d => view D d = v0) (save_once o path data temp_dir) (reported kept).
Proof.
  eapply triple_bind; [apply triple_get|]. intros d0. cbn beta. apply triple_at. intros d1 [-> Hv].
  assert (Hfail : forall d, view D d = v0 -> reported kept (false, false) d) by (intros d Hd; split_and!; [by left|done..]).
  destruct (file_open_secure_parent path true (d_fs d1)) as [fs r] eqn:Ep. destruct (parent_kept R Hroot Hkd root path _ _ _ Hrp Ep) as [Hk Hr].
  assert (Hset : triple either (fun d => d = d1) (set_fs fs) (fun _ d => view D d = v0)).
  { apply triple_set_fs. intros d ->. assert (view D (MkDisk fs (d_files d1)) = v0) by (rewrite <- Hv; by apply view_fs). split; [by left|done]. }
  destruct r as [e|[fd lf]]; [eapply triple_bind; [exact Hset|]; intros []; by apply triple_ret|]. destruct (Hr _ _ eq_refl) as [-> ->].
  eapply triple_bind; [exact Hset|]. intros []. rewrite Hin. eapply triple_bind; [apply triple_stat|]. intros st.
  eapply triple_bind; [apply triple_get|]. intros d2. cbn beta. apply triple_at. intros d3 (->&Hv3&Hst).
  cbv zeta. match goal with |- triple _ _ (if ?b then _ else _) _ => destruct b eqn:Eskip end.
  - apply triple_ret. intros d ->. destruct st as [|nd]; [done|]. specialize (Hst _ eq_refl).
    apply andb_true_iff in Eskip as [[[Eu Em]%andb_true_iff Ereg]%andb_true_iff Enew]. split_and!; [by left|done|]. intros _. right. split; [right; split; [done|]|done].
    destruct nd as [[] i|]; [done| |done]. exists i, (contents d3 i). split; [|done]. destruct (dots leaf) eqn:Ed; [by apply (entry_dots _ _ _ _ Hst) in Ed|].
    destruct (entry_plain _ _ _ _ Hst Ed) as (es&Hd&Hf). rewrite <- Hv3. unfold view. by rewrite (kind_find _ _ _ _ Hd), Hf.
  - assert (Hret : triple either (fun d => d = d3) (mret (false, false)) (reported kept)) by (apply triple_ret; intros d ->; by apply Hfail).
    assert (Hgo : forall scratch, triple either (fun d => d = d3) (try_names o 100 scratch dir leaf data 0) (reported kept)).
    { intros scratch. eapply triple_mono; [by apply triple_try_names|by intros ? ->|]. cbn beta. intros a d (H1&H2&H3). split_and!; [done..|].
      intros Ha. destruct (H3 Ha) as [?|[? ?]]; [by left|right; split; [by left|done]]. }
    destruct temp_dir as [p|]; [destruct (file_open_temp_dir p) as [t|]; [|exact Hret]|]; (destruct (negb _); [exact Hret|apply Hgo]).
Qed.

End Atomic.

Section Store.
Context `{Heap} {F : Faults} {E : SecureEnv} {V : SaveEnv} (o : save_opts).
Context (R : list name) (Hroot : root_fd = Some R) (Hkd : keep_dirlinks = false) (root : list byte) (Hrp : root_path = Some root).
Context (path data : list byte) (v0 : option (kind * list byte)).
Context (Hin : o_inplace o = false).
Local Abbreviation dir := (parent_of R root path).
Local Abbreviation leaf := (leaf_of path).
Local Abbreviation D := (dir ++ [leaf]).
Local Abbreviation either := (either D v0 data (keeps_partial o)).

Lemma triple_save temp_dir :
  triple either (fun d => view D d = v0) (file_to_disk_secure_impl o path data temp_dir)
    (fun ok d => either d /\ (ok = true -> installed dir leaf data d \/ kept o v0 /\ view D d = v0)).
Proof.
  eapply triple_bind; [by apply (triple_save_once o R Hroot Hkd root Hrp path data v0 Hin)|]. intros [ok xdev]. cbn beta. destruct xdev.
  2:{ apply triple_ret. intros d (?&_&?). done. }
  apply triple_at. intros d0 (_&Hx&_). destruct (Hx eq_refl) as [_ Hv].
  assert (Hin1 : forall d, SaveSafe.either D (view D d0) data (keeps_partial o) d -> either d).
  { intros d [Hd|Hd]; [|by right]. unfold SaveSafe.either. rewrite Hd. destruct Hv as [?|?]; auto. }
  assert (Ht : triple either (fun d => view D d = view D d0) (save_once o path data None) (reported dir leaf (view D d0) data o (kept o (view D d0)))).
  { intros s Hs. destruct (triple_save_once o R Hroot Hkd root Hrp path data (view D d0) Hin None s Hs) as (t&Et&Ft&Qt). exists t. split_and!; [done| |done].
    by eapply Forall_impl. }
  eapply triple_bind; [eapply triple_mono; [exact Ht|by intros ? ->|intros r d Hd; exact Hd]|]. intros [ok2 x2]. cbn beta. apply triple_ret.
  intros d (He&_&Hok). split; [by apply Hin1|]. intros E2. destruct (Hok E2) as [?|[Hk Hd]]; [by left|]. destruct Hv as [Hv|[i Hi]].
  - right. by rewrite <- Hv.
  - left. exists i. by rewrite Hd.
Qed.

(** C6: a store under a temporary name is atomic.  Take a store that is not
    --inplace, by a receiver with a root and without --keep-dirlinks (with it
    the parent may lie behind a directory link, so the destination is not the
    place its path spells).  Whatever the file system holds and however the
    kernel answers (calls may fail, writes may be short, the scratch directory
    may be on another device and the store retried): after every single system
    call the destination holds what it held before, or is a regular file with
    exactly the new bytes, or, only under --partial and when existing files may
    be replaced, is a regular file with a partial copy: no longer than the data,
    each byte the data's at that place or a zero.  When the store reports
    success the new file is there in full, or the destination holds what it held
    because only new files are wanted or because it is newer. *)
Theorem atomic_save temp_dir s (Hv0 : view D (s_disk s) = v0) :
  let '(s', ok) := file_to_disk_secure_impl o path data temp_dir s in
  exists t, s_trace s' = s_trace s ++ t /\
    Forall (fun d => view D d = v0 \/ (exists i, view D d = Some (KLeaf false i, data)) \/
              (o_keep_partial o = true /\ o_no_replace o = false) /\
              exists i c, view D d = Some (KLeaf false i, c) /\ (length c <= length data)%nat /\
                          forall k b, c !! k = Some b -> data !! k = Some b \/ b = Byte.x00)
      (t ++ [s_disk s']) /\
    (ok = true -> (exists i, view D (s_disk s') = Some (KLeaf false i, data)) \/
       view D (s_disk s') = v0 /\
       (o_no_replace o = true \/ o_update o = true /\ exists i c, v0 = Some (KLeaf false i, c) /\ newer (Leaf false i) = true)).
Proof.
  destruct (triple_save temp_dir s Hv0) as (t&Et&Ft&Qd&Qok). destruct (file_to_disk_secure_impl o path data temp_dir s) as [s' ok]. simpl in *.
  exists t. split_and!; [done| |].
  - apply Forall_app. split; [exact Ft|]. by constructor.
  - intros Eok. destruct (Qok Eok) as [?|[? ?]]; [by left|by right].
Qed.
End Store.

(** The file /srv/d/t/f is replaced; the kernel cuts the first write short and
    interrupts the second. *)
Definition demo_disk : disk := MkDisk demo_fs {[ 6 := cs "old" ]}.
Definition demo_save : SaveEnv := {| pid := 42; open_follow _ := inl ENOENT; fd_path _ := inl ENOENT; newer _ := false |}.
Definition plain_opts : save_opts := MkOpts false false false false false false false false false.

(** The same store under --partial, whose second write the kernel refuses. *)
Definition partial_opts : save_opts := MkOpts false false false false false false false false true.

Lemma atomic_save_witness :
  let s := MkSys demo_disk [AOk 0; AOk 0; AOk 2; AErr EINTR] [] 0 in
  let D := [cs "srv"; cs "d"; cs "t"; cs "f"] in
  let '(s', ok) := @file_to_disk_secure_impl heap0 no_faults (demo_env false) demo_save plain_opts (cs "/srv/d/t/f") (cs "newer") None s in
  ok = true /\ length (s_trace s') = 5%nat /\
  Forall (fun d => view D d = Some (KLeaf false 6, cs "old") \/ exists i, view D d = Some (KLeaf false i, cs "newer")) (s_trace s') /\
  exists i, view D (s_disk s') = Some (KLeaf false i, cs "newer").
Proof.
  cbv zeta. pose proof (@atomic_save heap0 no_faults (demo_env false) demo_save plain_opts [cs "srv"; cs "d"] eq_refl eq_refl (cs "/srv/d") eq_refl
    (cs "/srv/d/t/f") (cs "newer") _ eq_refl None (MkSys demo_disk [AOk 0; AOk 0; AOk 2; AErr EINTR] [] 0) eq_refl) as Ha. revert Ha.
  destruct (@file_to_disk_secure_impl heap0 no_faults (demo_env false) demo_save plain_opts _ _ _ _) as [s' ok] eqn:E0. intros (t&Et&Ft&Hok).
  assert (ok = true /\ length (s_trace s') = 5%nat) as [-> Hlen] by (vm_compute in E0; by injection E0 as <- <-).
  simpl in Et. subst t. apply Forall_app in Ft as [Ft _]. split_and!; [done|done| |].
  - eapply Forall_impl; [exact Ft|]. cbn beta. intros d [?|[?|[[? _] _]]]; [by left|by right|done].
  - destruct (Hok eq_refl) as [Hi|[_ [Hk|[Hk _]]]]; [exact Hi|done|done].
Defined.

(** Under --partial a refused write leaves the bytes written so far. *)
Example partial_keeps_prefix :
  let '(s', ok) := @file_to_disk_secure_impl heap0 no_faults (demo_env false) demo_save partial_opts (cs "/srv/d/t/f") (cs "newer") None
    (MkSys demo_disk [AOk 0; AOk 0; AOk 2; AErr EINVAL] [] 0) in
  ok = false /\ (view [cs "srv"; cs "d"; cs "t"; cs "f"] (s_disk s') ≫= fun v => Some v.2) = Some (cs "ne").
Proof. vm_compute. split; reflexivity. Qed.
