(* ===== verification/SaveDone.v ===== *)
(** Storing a file succeeds when the kernel refuses nothing: the completeness
    that goes with the safety of [SaveSafe]. *)

From stdpp Require Import gmap.
From S2P Require Import Prelude Alloc CStr Paths DeleteTree SecureFs SecureSafe Disk Save SaveSafe.

(** From a disk that satisfies [P], with nothing refused, [m] returns a value
    that satisfies [X]. *)
Definition alive {A} (P : disk -> Prop) (m : sysM A) (X : A -> Prop) : Prop :=
  forall s, s_answers s = [] -> P (s_disk s) -> s_answers (m s).1 = [] /\ X (m s).2.

Section Alive.
Context (I : disk -> Prop).

Lemma alive_ret {A} (a : A) P (X : A -> Prop) : X a -> alive P (mret a) X.
Proof. intros HX s Hs _. done. Qed.
Lemma alive_bind {A B} (m : sysM A) (k : A -> sysM B) P Q (X : A -> Prop) Y :
  triple I P m Q -> alive P m X -> (forall a, X a -> alive (Q a) (k a) Y) -> alive P (m ≫= k) Y.
Proof.
  intros Ht Hm Hk s Hs Hp. destruct (Ht s Hp) as (_&_&_&Hq). destruct (Hm s Hs Hp) as [Hs' Hx].
  unfold mbind, sysM_bind. destruct (m s) as [s1 a]. by apply Hk.
Qed.
Lemma alive_post {A} (m : sysM A) P (X Y : A -> Prop) : alive P m X -> (forall a, X a -> Y a) -> alive P m Y.
Proof. intros Hm HX s Hs Hp. destruct (Hm s Hs Hp). auto. Qed.
Lemma alive_pre {A} (m : sysM A) (P P' : disk -> Prop) X : alive P m X -> (forall d, P' d -> P d) -> alive P' m X.
Proof. intros Hm HP s Hs Hp. auto. Qed.
Lemma alive_ex {A B} (m : sysM A) (P : B -> disk -> Prop) X : (forall b, alive (P b) m X) -> alive (fun d => exists b, P b d) m X.
Proof. intros Hm s Hs [b Hb]. by apply (Hm b). Qed.
Lemma alive_pure {A} (m : sysM A) (Y : Prop) P X : (Y -> alive P m X) -> alive (fun d => P d /\ Y) m X.
Proof. intros Hm s Hs [Hp HY]. by apply Hm. Qed.
Lemma alive_at {A} (m : sysM A) (P : disk -> Prop) X : (forall d0, P d0 -> alive (fun d => d = d0) m X) -> alive P m X.
Proof. intros Hm s Hs Hp. by apply (Hm (s_disk s)). Qed.

Lemma alive_ask n P : alive P (ask n) (fun r => r = inr n).
Proof. intros s Hs _. unfold ask. by rewrite Hs. Qed.
Lemma alive_get P : alive P get_disk (fun _ => True).
Proof. intros s Hs _. done. Qed.
Lemma alive_set_fs fs P : alive P (set_fs fs) (fun _ => True).
Proof. intros s Hs _. done. Qed.
Lemma alive_set_file i c P : alive P (set_file i c) (fun _ => True).
Proof. intros s Hs _. done. Qed.
(** Steps whose result does not depend on the disk *)
Lemma alive_seq {A B} (m : sysM A) (k : A -> sysM B) P (X : A -> Prop) Y :
  alive P m X -> (forall a, X a -> alive (fun _ => True) (k a) Y) -> alive P (m ≫= k) Y.
Proof.
  intros Hm Hk s Hs Hp. destruct (Hm s Hs Hp) as [Hs' Hx]. unfold mbind, sysM_bind. destruct (m s) as [s1 a]. by apply Hk.
Qed.
Lemma alive_other P : alive P sys_other (fun r => r = None).
Proof. eapply alive_seq; [apply alive_ask|]. intros r ->. by apply alive_ret. Qed.
Lemma alive_succeeds P m : alive P m (fun r => r = None) -> alive P (succeeds m) (fun ok => ok = true).
Proof. intros Hm. eapply alive_seq; [exact Hm|]. intros r ->. by apply alive_ret. Qed.

Lemma alive_write P i off bs : alive P (sys_write i off bs) (fun r => r = inr (zlen bs)).
Proof.
  intros s Hs _. unfold sys_write, mbind, sysM_bind, ask. rewrite Hs. simpl. destruct (_ <=? 0); split; done.
Qed.
Lemma alive_write_all P i off bs : alive P (write_all i off bs) (fun ok => ok = true).
Proof.
  intros s Hs Hp. unfold write_all. rewrite Hs. cbn [length write_loop]. destruct bs as [|b bs]; [done|].
  destruct (alive_write P i off (b :: bs) s Hs Hp) as [Hs1 Hr]. unfold mbind, sysM_bind. destruct (sys_write i off (b :: bs) s) as [s1 r]. simpl in Hr, Hs1. subst r.
  rewrite (proj2 (Z.leb_gt (zlen (b :: bs)) 0)) by (unfold zlen; simpl; lia). unfold zlen. rewrite Nat2Z.id, drop_ge by done. done.
Qed.
Lemma alive_truncate P i n : alive P (sys_truncate i n) (fun r => r = None).
Proof. intros s Hs _. unfold sys_truncate, mbind, sysM_bind, ask. by rewrite Hs. Qed.
Lemma alive_allocate P i n : alive P (sys_allocate i n) (fun r => r = None).
Proof. intros s Hs _. unfold sys_allocate, mbind, sysM_bind, ask. by rewrite Hs. Qed.
End Alive.


(** No condition on the disks in between *)
Definition anywhere (d : disk) : Prop := True.

(** The same with a condition on the disk it ends on. *)
Definition settles {A} (P : disk -> Prop) (m : sysM A) (Q : A -> disk -> Prop) : Prop :=
  forall s, s_answers s = [] -> P (s_disk s) -> s_answers (m s).1 = [] /\ Q (m s).2 (s_disk (m s).1).

Lemma settles_both {A} I (m : sysM A) P Q X : triple I P m Q -> alive P m X -> settles P m (fun a d => Q a d /\ X a).
Proof. intros Ht Hm s Hs Hp. destruct (Ht s Hp) as (_&_&_&Hq). destruct (Hm s Hs Hp). done. Qed.
Lemma settles_bind {A B} (m : sysM A) (k : A -> sysM B) P Q Y :
  settles P m Q -> (forall a, settles (Q a) (k a) Y) -> settles P (m ≫= k) Y.
Proof.
  intros Hm Hk s Hs Hp. destruct (Hm s Hs Hp) as [Hs' Hq]. unfold mbind, sysM_bind. destruct (m s) as [s1 a]. by apply Hk.
Qed.
(** A step with its triple and its liveness, then the rest. *)
Lemma settles_step {A B} I (m : sysM A) (k : A -> sysM B) P Q (X : A -> Prop) Y :
  triple I P m Q -> alive P m X -> (forall a, X a -> settles (Q a) (k a) Y) -> settles P (m ≫= k) Y.
Proof. intros Ht Hm Hk. eapply settles_bind; [by eapply settles_both|]. intros a s Hs [Hq Hx]. by apply Hk. Qed.
Lemma settles_ret {A} (a : A) P (Q : A -> disk -> Prop) : (forall d, P d -> Q a d) -> settles P (mret a) Q.
Proof. intros HQ s Hs Hp. split; [done|by apply HQ]. Qed.
Lemma settles_ex {A B} (m : sysM A) (P : B -> disk -> Prop) X : (forall b, settles (P b) m X) -> settles (fun d => exists b, P b d) m X.
Proof. intros Hm s Hs [b Hb]. by apply (Hm b). Qed.
Lemma settles_pure {A} (m : sysM A) (Y : Prop) P X : (Y -> settles P m X) -> settles (fun d => P d /\ Y) m X.
Proof. intros Hm s Hs [Hp HY]. by apply Hm. Qed.
Lemma settles_at {A} (m : sysM A) (P : disk -> Prop) X : (forall d0, P d0 -> settles (fun d => d = d0) m X) -> settles P m X.
Proof. intros Hm s Hs Hp. by apply (Hm (s_disk s)). Qed.

(** ** The pieces of a store *)

Lemma alive_sparse_loop P i fuel : forall off bs, (length bs < fuel)%nat -> alive P (sparse_loop fuel i off bs) (fun ok => ok = true).
Proof.
  revert P. induction fuel as [|fuel IH]; intros P off bs Hf; [lia|]. cbn [sparse_loop]. destruct bs as [|b bs]; [by apply alive_ret|].
  cbv zeta. pose proof (run_length_pos b bs). set (run := run_length _ _) in *. eapply alive_seq; [|].
  - instantiate (1 := fun ok => ok = true). destruct (_ && _); [|apply alive_write_all]. eapply alive_seq; [apply alive_other|]. intros r ->. by apply alive_ret.
  - intros ok ->. apply IH. rewrite length_drop. clearbody run. simpl in *. lia.
Qed.
Lemma alive_sparse P i data : alive P (file_store_write_sparse i data) (fun ok => ok = true).
Proof.
  eapply alive_seq; [apply alive_sparse_loop; lia|]. intros ok ->. eapply alive_seq; [apply alive_truncate|]. intros r ->. by apply alive_ret.
Qed.
Lemma alive_write_data P o i data : alive P (write_data o i data) (fun r => r = (true, true)).
Proof.
  unfold write_data. destruct (o_sparse o && _); cbn [negb].
  - eapply alive_seq; [apply alive_succeeds, alive_truncate|]. intros ok ->. cbn [orb]. eapply alive_seq; [apply alive_sparse|]. intros ok ->. by apply alive_ret.
  - eapply alive_seq; [by apply (alive_ret _ _ (fun _ => True))|]. intros ok _. rewrite orb_true_r. eapply alive_seq; [apply alive_write_all|]. intros ok' ->. by apply alive_ret.
Qed.
Lemma alive_finish P o : alive P (finish o true) (fun ok => ok = true).
Proof.
  unfold finish, set_attributes. eapply (alive_seq _ _ _ (fun ok => ok = true)).
  - destruct (o_metadata o); [|apply alive_succeeds, alive_other]. eapply (alive_seq _ _ _ (fun ok => ok = true)); [destruct (o_perms o); [by apply alive_ret|apply alive_succeeds, alive_other]|].
    intros ok ->. apply alive_succeeds, alive_other.
  - intros ok ->. destruct (o_fsync o); [apply alive_succeeds, alive_other|by apply alive_ret].
Qed.
Lemma alive_preallocated P o i data : alive P (preallocated o i data) (fun ok => ok = true).
Proof.
  unfold preallocated. destruct (_ && _); [|by apply alive_ret]. apply alive_succeeds. unfold preallocate_fd. destruct (_ =? 0)%nat; [by apply alive_ret|].
  eapply alive_seq; [apply alive_allocate|]. intros r ->. by apply alive_ret.
Qed.

Section Steps.
Context (dir : list name) (tmp leaf : name) (v0 : option (kind * list byte)) (data : list byte) (o : save_opts).
Local Abbreviation T := (dir ++ [tmp]).
Local Abbreviation D := (dir ++ [leaf]).
Context (HTD : T <> D) (Hdots : dots tmp = false) (Hne : tmp <> []) (Hdl : dots leaf = false) (Hl : leaf <> []).
Context (Hv0 : o_no_replace o = false -> forall c, v0 <> Some (KDir, c)).
Local Abbreviation either := (either D v0 data (keeps_partial o)).

Lemma alive_create P : (forall d, P d -> (exists es, dir_at (d_fs d) dir = Some es) /\ entry_at d dir tmp = None) ->
  alive P (sys_create dir tmp) (fun r => exists i, r = inr i).
Proof.
  intros HP s Hs Hp. destruct (HP _ Hp) as [[es Hd] He]. unfold sys_create, mbind, sysM_bind, ask. rewrite Hs. simpl.
  rewrite He. unfold dir_for. rewrite bool_decide_eq_false_2, Hd by done. simpl. split; [done|by eexists].
Qed.

Lemma alive_rename i : o_no_replace o = false -> alive (temp D T v0 i data) (sys_rename dir tmp dir leaf) (fun r => r = None).
Proof.
  intros Hnr s Hs Ht. pose proof Ht as (Hv&_). destruct (temp_entry dir tmp dir leaf v0 Hdots i data _ Ht Hne) as (es&Hd&_&He).
  unfold sys_rename, mbind, sysM_bind, ask. rewrite Hs. simpl. rewrite He. unfold dir_for. rewrite bool_decide_eq_false_2, Hd by done.
  destruct (entry_at (s_disk s) dir leaf) as [[l j|ces]|] eqn:El; simpl; [by destruct (i =? j)| |done].
  exfalso. destruct (entry_plain _ _ _ _ El Hdl) as (es'&Hd'&Hf). apply (Hv0 Hnr []). rewrite <- Hv. unfold view. by rewrite (kind_find _ _ _ _ Hd'), Hf.
Qed.

Lemma alive_link i : alive (temp D T v0 i data) (sys_link dir tmp dir leaf) (fun r => r = None \/ r = Some EEXIST /\ v0 <> None).
Proof.
  intros s Hs Ht. pose proof Ht as (Hv&_). destruct (temp_entry dir tmp dir leaf v0 Hdots i data _ Ht Hne) as (es&Hd&_&He).
  unfold sys_link, mbind, sysM_bind, ask. rewrite Hs. simpl. rewrite He. unfold dir_for. rewrite bool_decide_eq_false_2, Hd by done.
  destruct (entry_at (s_disk s) dir leaf) as [nd|] eqn:El; simpl; [|by auto]. split; [done|]. right. split; [done|].
  destruct (entry_plain _ _ _ _ El Hdl) as (es'&Hd'&Hf). rewrite <- Hv. unfold view. rewrite (kind_find _ _ _ _ Hd'), Hf. by destruct nd.
Qed.
(** Removing the temporary name leaves the destination. *)
Lemma settles_unlink v : (v = v0 \/ exists i, v = Some (KLeaf false i, data)) ->
  settles (fun d => view D d = v /\ exists i, kind_at (d_fs d) T = Some (KLeaf false i)) (sys_unlink dir tmp) (fun r d => r = None /\ view D d = v).
Proof.
  intros Hv s Hs [Hd [i Hk]]. destruct (triple_unlink dir tmp dir leaf v0 data o HTD Hdots v Hv s Hd) as (_&_&_&Hq). revert Hq.
  destruct (kind_dir _ _ _ _ Hk) as [es Hdir]. rewrite (kind_find _ _ _ _ Hdir) in Hk.
  assert (He : entry_at (s_disk s) dir tmp = find tmp es) by (unfold entry_at, dir_for; rewrite bool_decide_eq_false_2, Hdir by done; simpl; by rewrite Hdots).
  unfold sys_unlink, mbind, sysM_bind, ask. rewrite Hs. simpl. rewrite He. destruct (find tmp es) as [[l j|]|]; [|done|done]. simpl. intros Hq. by split_and!.
Qed.

(** What a store that nothing hinders leaves. *)
Definition settled (d : disk) : Prop :=
  installed dir leaf data d \/ o_no_replace o = true /\ v0 <> None /\ view D d = v0.

Lemma triple_link_temp i : triple either (temp D T v0 i data) (sys_link dir tmp dir leaf)
  (fun r d => kind_at (d_fs d) T = Some (KLeaf false i)).
Proof.
  eapply triple_bind; [apply triple_ask|]. intros r. eapply triple_bind; [apply triple_get|]. intros d. cbn beta.
  apply triple_at. intros d0 [-> Ht]. pose proof Ht as (Hv&Hk&Hc&Hj). destruct (temp_entry _ _ _ _ _ Hdots _ _ _ Ht Hne) as (tes&Htd&Htf&->).
  destruct r as [e|k]; [by apply triple_ret; intros ? ->|].
  destruct (dir_for d0 dir leaf) as [es|] eqn:Hd; [|by apply triple_ret; intros ? ->].
  destruct (entry_at d0 dir leaf) as [nd|] eqn:Ee; [by apply triple_ret; intros ? ->|].
  destruct (entry_none _ _ _ _ Ee Hd) as [Hd' Hf].
  assert (Hf' : match find leaf es with Some (Dir _) => False | _ => True end) by (by rewrite Hf).
  eapply (triple_bind _ _ _ _ (fun _ d => kind_at (d_fs d) T = Some (KLeaf false i))); [|intros []; by apply triple_ret].
  apply triple_set_fs. intros d ->. simpl. rewrite (kind_with _ _ _ _ _ _ _ Hd' Hf'), decide_False by done. split; [|done].
  right. left. exists i. eapply view_installed; [exact Hd'|exact Hf'|exact Hc|done].
Qed.

Lemma settles_install i : settles (temp D T v0 i data) (install o false dir tmp dir leaf) (fun r d => r = (true, false) /\ settled d).
Proof.
  unfold install. case_eq (o_no_replace o); intros En.
  - eapply (settles_bind _ _ _ (fun r d => ((if decide (r = None) then installed dir leaf data d else view D d = v0) /\ kind_at (d_fs d) T = Some (KLeaf false i)) /\
      (r = None \/ r = Some EEXIST /\ v0 <> None))).
    { intros s Hs Ht. destruct (triple_link dir tmp dir leaf v0 data o Hdots i Hne s Ht) as (_&_&_&Hq). destruct (alive_link i s Hs Ht) as [Ha Hx].
      destruct (triple_link_temp i s Ht) as (_&_&_&Hk). split; [exact Ha|]. exact (conj (conj Hq Hk) Hx). }
    intros r. cbn beta. apply settles_at. intros d0 [[Hq Hk] Hx].
    assert (Hv : view D d0 = v0 \/ exists i, view D d0 = Some (KLeaf false i, data)) by (case_decide; auto).
    assert ((bool_decide (r = None) || bool_decide (r = Some EEXIST)) = true) as -> by (destruct Hx as [->|[-> _]]; done).
    eapply (settles_bind _ _ _ (fun u d => u = None /\ view D d = view D d0)); [intros s Hs Hd; apply (settles_unlink _ Hv s Hs); rewrite Hd; split; [done|by exists i]|]. intros u. cbn beta.
    apply settles_ret. intros d [-> Hd]. split; [done|]. unfold settled, installed. rewrite Hd. destruct Hx as [->|[-> Hne0]]; [by left|].
    rewrite decide_False in Hq by done. right. by split_and!.
  - eapply settles_step; [apply (triple_rename dir tmp dir leaf v0 data o HTD Hdots i data Hne); by left|by apply alive_rename|]. intros ? ->.
    apply settles_ret. intros d Hd. cbn beta in Hd. rewrite decide_True in Hd by done. split; [done|]. left. by exists i.
Qed.

Lemma settles_write_temp i : settles (temp D T v0 i []) (write_temp o false dir tmp dir leaf i data) (fun r d => r = (true, false) /\ settled d).
Proof.
  unfold write_temp. eapply settles_step; [by apply (triple_preallocate _ _ _ _ (keeps_partial o))|apply alive_preallocated|]. intros ready ->. cbn beta. apply settles_ex. intros c. apply settles_pure. intros Hb.
  eapply (settles_step either _ _ _ (fun r d => exists c', temp D T v0 i c' d /\ (r.2 = true -> c' = data)) (fun r => r = (true, true))).
  { eapply triple_bind; [by apply triple_write_data|]. intros [a ok]. cbn beta. simpl. apply triple_ex. intros c'.
    eapply triple_bind; [apply triple_finish|]. intros ok'. apply triple_ret. intros d [[Ht [Hc _]] Hok]. exists c'. split; [done|]. simpl. intros E. by apply Hc, Hok. }
  { eapply alive_seq; [apply alive_write_data|]. intros ? ->. eapply alive_seq; [apply alive_finish|]. intros ? ->. by apply alive_ret. }
  intros ? ->. cbn beta. simpl. apply settles_ex. intros c'. apply settles_pure. intros Hc. rewrite (Hc eq_refl).
  eapply settles_step; [apply (triple_succeeds either), triple_other|apply alive_succeeds, alive_other|]. intros ? ->. cbn [andb].
  eapply settles_bind; [apply settles_install|]. intros r. cbn beta. apply settles_at. intros d [-> Hd].
  eapply (settles_bind _ _ _ (fun _ d' => d' = d)); [by apply settles_ret|]. intros _. apply settles_ret. by intros ? ->.
Qed.
End Steps.

Section Whole.
Context `{Heap} {F : Faults} {E : SecureEnv} {V : SaveEnv} (o : save_opts).
Context (R : list name) (Hroot : root_fd = Some R) (Hkd : keep_dirlinks = false) (root : list byte) (Hrp : root_path = Some root).
Context (path data : list byte) (Hin : o_inplace o = false).
Local Abbreviation dir := (parent_of R root path).
Local Abbreviation leaf := (leaf_of path).
Local Abbreviation D := (dir ++ [leaf]).
Context (Hdl : dots leaf = false) (Hl : leaf <> []) (Hm : malloc_ok (zlen (tmp_name leaf 999) + 1) = true).

(** The root is there, the first temporary name is free, and the destination is
    no directory when it is to be replaced. *)
Definition ready (d : disk) : Prop :=
  kind_at (d_fs d) R = Some KDir /\ entry_at d dir (tmp_name leaf 0) = None /\
  (o_no_replace o = false -> forall c, view D d <> Some (KDir, c)).

(** The destination is a file newer than the one to store, and --update keeps
    it. *)
Definition newer_kept (v : option (kind * list byte)) : Prop :=
  o_update o = true /\ exists i c, v = Some (KLeaf false i, c) /\ newer (Leaf false i) = true.

Lemma settles_save_once d0 fs r :
  file_open_secure_parent path true (d_fs d0) = (fs, inr r) -> ready (MkDisk fs (d_files d0)) ->
  settles (fun d => d = d0) (save_once o path data None)
    (fun r d => r = (true, false) /\ (settled dir leaf (view D d0) data o d \/ newer_kept (view D d0) /\ view D d = view D d0)).
Proof.
  intros Ep (HR&He&Hv0). unfold save_once. destruct (parent_kept R Hroot Hkd root path _ _ _ Hrp Ep) as [Hk Hr]. destruct r as [fd lf]. destruct (Hr _ _ eq_refl) as [-> ->].
  set (d1 := MkDisk fs (d_files d0)) in *. assert (Hdir : exists es, dir_at (d_fs d1) dir = Some es).
  { apply dir_at_kind. pose proof (secure_parent_spec R Hroot _ _ _ _ _ Ep) as (_&_&Hs). destruct (Hs _ _ eq_refl) as [[_ Hlk] _]. by apply Hlk. }
  assert (Hv1 : view D d1 = view D d0) by (by apply view_fs). rewrite <- Hv1.
  eapply (settles_step anywhere); [apply triple_get|apply alive_get|]. intros a _. cbn beta. apply settles_at. intros d [-> ->]. rewrite Ep.
  eapply (settles_step anywhere _ _ _ (fun _ d => d = d1)); [apply triple_set_fs; by intros d ->|apply alive_set_fs|]. intros _ _. rewrite Hin.
  eapply (settles_step _ _ _ _ _ (fun _ => True)); [apply (triple_stat o R root path data (view D d1))|intros s Hs _; unfold sys_stat, mbind, sysM_bind, ask; by rewrite Hs|]. intros st _.
  eapply (settles_step anywhere); [apply triple_get|apply alive_get|]. intros a _. cbv beta zeta. apply settles_at. intros d (->&->&Hst).
  match goal with |- settles _ (if ?b then _ else _) _ => destruct b eqn:Eskip end.
  { apply settles_ret. intros d ->. split; [done|]. right. split; [|done]. destruct st as [|nd]; [done|]. specialize (Hst _ eq_refl).
    apply andb_true_iff in Eskip as [[[Eu Em]%andb_true_iff Ereg]%andb_true_iff Enew]. split; [done|].
    destruct nd as [[] i|]; [done| |done]. exists i, (contents d1 i). split; [|done].
    destruct (entry_plain _ _ _ _ Hst Hdl) as (es&Hd&Hf). unfold view. by rewrite (kind_find _ _ _ _ Hd), Hf. }
  rewrite Hm. cbn [negb]. change 100%nat with (S 99). cbn [try_names].
  eapply (settles_bind _ _ _ (fun a d => a = 0 /\ d = d1)); [by apply settles_ret|]. intros num. apply settles_at. intros d [-> ->]. cbn [default].
  destruct (tmp_name_plain leaf 0) as [Hne Hdots]. pose proof (tmp_name_place dir dir leaf 0) as HTD.
  eapply settles_step; [eapply triple_mono; [apply (triple_create dir (tmp_name leaf 0) dir leaf (view D d1) data o HTD)|by intros ? ->|intros r d Hd; exact Hd]|apply alive_create; [done|]; by intros ? ->|].
  intros r [i ->]. rewrite bool_decide_eq_false_2 by (by intros [? ?]).
  intros s Hs Ht. destruct (settles_write_temp dir (tmp_name leaf 0) leaf (view D d1) data o HTD Hdots Hne Hdl Hl Hv0 i s Hs Ht) as [? [? ?]]. auto.
Qed.

(** C40: a store that nothing hinders succeeds.  Take a store under a temporary
    name beside its destination (not --inplace, no --temp-dir), by a receiver
    with a root and without --keep-dirlinks, with memory for the temporary name
    and a plain last component.  When the walk reaches the parent directory, the
    root is there, the first temporary name is free, the destination is no
    directory (where existing files may be replaced) and the kernel refuses no
    call, the store reports success.  Then the destination is a regular file
    with exactly the new bytes, except that it is as it was where it existed and
    only new files are wanted, or where --update keeps a newer file. *)
Theorem save_completes s fs r
    (Hs : s_answers s = []) (Hwalk : file_open_secure_parent path true (d_fs (s_disk s)) = (fs, inr r))
    (Hready : ready (MkDisk fs (d_files (s_disk s)))) :
  let '(s', ok) := file_to_disk_secure_impl o path data None s in
  ok = true /\
  ((exists i, view D (s_disk s') = Some (KLeaf false i, data)) \/
   view D (s_disk s') = view D (s_disk s) /\
   (o_no_replace o = true /\ view D (s_disk s) <> None \/
    o_update o = true /\ exists i c, view D (s_disk s) = Some (KLeaf false i, c) /\ newer (Leaf false i) = true)).
Proof.
  destruct (settles_save_once _ _ _ Hwalk Hready s Hs eq_refl) as [_ [Hr Hd]]. revert Hr Hd. unfold file_to_disk_secure_impl, mbind, sysM_bind.
  destruct (save_once o path data None s) as [s1 r1]. simpl. intros ->. simpl. intros [[?|(?&?&?)]|[? ?]]; split; auto.
Qed.
End Whole.

Lemma save_completes_witness :
  let '(s', ok) := @file_to_disk_secure_impl heap0 no_faults (demo_env false) demo_save plain_opts (cs "/srv/d/t/n/f") (cs "data") None (MkSys demo_disk [] [] 0) in
  ok = true /\ installed [cs "srv"; cs "d"; cs "t"; cs "n"] (cs "f") (cs "data") (s_disk s').
Proof.
  pose proof (@save_completes heap0 no_faults (demo_env false) demo_save plain_opts [cs "srv"; cs "d"] eq_refl eq_refl (cs "/srv/d") eq_refl
    (cs "/srv/d/t/n/f") (cs "data") eq_refl ltac:(by vm_compute) ltac:(by vm_compute) ltac:(by vm_compute) (MkSys demo_disk [] [] 0)) as Hc.
  destruct (@file_open_secure_parent heap0 no_faults (demo_env false) (cs "/srv/d/t/n/f") true (d_fs demo_disk)) as [fs [e|r]] eqn:Ew; [by vm_compute in Ew|].
  specialize (Hc fs r eq_refl Ew). assert (fs = (@file_open_secure_parent heap0 no_faults (demo_env false) (cs "/srv/d/t/n/f") true demo_fs).1) as Ef by (simpl in Ew; by rewrite Ew).
  revert Hc. destruct (@file_to_disk_secure_impl _ _ _ _ _ _ _ _ _) as [s' ok]. intros Hc. destruct Hc as [-> [Hi|[_ [[Hu _]|[Hu _]]]]]; [| |done|done].
  - rewrite Ef. split_and!; [by vm_compute|by vm_compute|]. intros _ c Hv. by vm_compute in Hv.
  - split; [done|exact Hi].
Defined.

(** ** Writing in place *)

(** The file at [T] is the inode [i] and holds [c]; no other place matters. *)
Definition nowhere : option (kind * list byte) := Some (KDir, []).
Definition holds (T : list name) (i : Z) (c : list byte) : disk -> Prop := temp [] T nowhere i c.
Lemma holds_intro T i d : kind_at (d_fs d) T = Some (KLeaf false i) -> holds T i (contents d i) d.
Proof. intros Hk. unfold holds, temp. by split_and!. Qed.
Lemma holds_view T i c d : holds T i c d -> view T d = Some (KLeaf false i, c).
Proof. intros (_&Hk&Hc&_). unfold view. by rewrite Hk, Hc. Qed.
Lemma view_kind T i c d : view T d = Some (KLeaf false i, c) -> kind_at (d_fs d) T = Some (KLeaf false i).
Proof. unfold view. destruct (kind_at (d_fs d) T) as [[|]|]; [done| |done]. by intros [= -> ->]. Qed.

Section InPlace.
Context `{Heap} {F : Faults} {E : SecureEnv} {V : SaveEnv} (o : save_opts) (data : list byte).
Local Abbreviation any := (either [] nowhere data True).
Context (Hsp : o_sparse o = false).

Lemma any_disk d : any d.
Proof. by left. Qed.

Section Place.
Context (dir : list name) (leaf : name) (Hl : leaf <> []) (Hdl : dots leaf = false).
Local Abbreviation T := (dir ++ [leaf]).

Lemma triple_create_here P : triple any P (sys_create dir leaf) (fun r d => match r with inl _ => True | inr i => exists c, holds T i c d end).
Proof.
  eapply triple_bind; [apply triple_ask|]. intros r. eapply triple_bind; [apply triple_get|]. intros d. cbn beta.
  destruct r as [e|k]; [by apply triple_ret|]. destruct (dir_for d dir leaf) as [es|] eqn:Hd; [|by apply triple_ret].
  destruct (entry_at d dir leaf) as [nd|] eqn:Ee; [by apply triple_ret|]. destruct (entry_none _ _ _ _ Ee Hd) as [Hd' Hf].
  cbv zeta. eapply (triple_bind _ _ _ _ (fun _ d' => kind_at (d_fs d') T = Some (KLeaf false (fresh_ino d)))).
  - apply triple_set. intros d0 _. split; [apply any_disk|]. simpl. rewrite (kind_with _ _ _ _ _ _ _ Hd'); [by rewrite decide_True|by rewrite Hf].
  - intros []. apply triple_ret. intros d' Hk. eexists. by apply holds_intro.
Qed.

(** The inode that is opened is the one that was there. *)
Lemma triple_open_write v : triple any (fun d => view T d = v) (sys_open_write dir leaf)
  (fun r d => match r with inl _ => True | inr i => exists c, holds T i c d /\ (forall i0 c0, v = Some (KLeaf false i0, c0) -> i = i0) end).
Proof.
  eapply triple_bind; [apply triple_get|]. intros d. cbn beta. apply triple_at. intros d0 [-> Hv].
  destruct (entry_at d0 dir leaf) as [[[] i|es]|] eqn:Ee; [by apply triple_ret| |by apply triple_ret|].
  - destruct (entry_plain _ _ _ _ Ee Hdl) as (es&Hd&Hf).
    eapply triple_bind; [apply triple_ask|]. intros r. apply triple_ret. intros d ->. destruct r; [done|].
    assert (Hk : kind_at (d_fs d0) T = Some (KLeaf false i)) by (rewrite (kind_find _ _ _ _ Hd), Hf; done). exists (contents d0 i). split; [by apply holds_intro|].
    intros i0 c0 ->. apply view_kind in Hv. rewrite Hk in Hv. by injection Hv.
  - eapply triple_mono; [apply (triple_create_here (fun d => d = d0))|done|]. intros r d Hr. destruct r as [|i]; [done|]. destruct Hr as [c Hc]. exists c. split; [done|].
    intros i0 c0 ->. exfalso. apply view_kind in Hv. destruct (kind_dir _ _ _ _ Hv) as [es Hd]. rewrite (kind_find _ _ _ _ Hd) in Hv.
    assert (Hf : dir_for d0 dir leaf = Some es) by (unfold dir_for; by rewrite bool_decide_eq_false_2). destruct (entry_none _ _ _ _ Ee Hf) as [_ Hn]. by rewrite Hn in Hv.
Qed.

Lemma triple_keeps i c m :
  (forall c, triple any (holds T i c) m (fun _ d => exists c', holds T i c' d)) -> triple any (holds T i c) (succeeds m) (fun _ d => exists c', holds T i c' d).
Proof. intros Hm. eapply triple_bind; [apply Hm|]. intros r. by apply triple_ret. Qed.

Lemma triple_prealloc_here i c : triple any (holds T i c) (preallocated o i data) (fun _ d => exists c', holds T i c' d).
Proof.
  assert (Ha : forall c n, triple any (holds T i c) (sys_allocate i n) (fun _ d => exists c', holds T i c' d))
    by (intros c1 n; eapply triple_post; [apply triple_allocate|]; intros r d (c'&Hh&_); by exists c').
  assert (Ht : forall c n, triple any (holds T i c) (sys_truncate i n) (fun _ d => exists c', holds T i c' d))
    by (intros c1 n; eapply triple_post; [apply triple_truncate|]; intros r d (c'&Hh&_); by exists c').
  assert (Hr : forall A (a : A) c, triple any (holds T i c) (mret a) (fun _ d => exists c', holds T i c' d)) by (intros A a c1; apply triple_ret; by exists c1).
  unfold preallocated. destruct (_ && _); [|apply Hr]. apply triple_keeps. intros c1. unfold preallocate_fd. destruct (_ =? 0)%nat; [apply Hr|].
  eapply triple_bind; [apply Ha|]. intros r. cbn beta. apply triple_ex. intros c2. destruct r as [e|]; [|apply Hr]. destruct (_ && _); [apply Hr|].
  eapply triple_bind; [apply Ha|]. intros rc. cbn beta. apply triple_ex. intros c3. destruct (_ || _); [apply Ht|apply Hr].
Qed.

Lemma resize_written c : resize (write_at c 0 data) (length data) = data.
Proof. unfold resize. rewrite write_at_le by lia. simpl. rewrite <- app_assoc. apply take_app_length. Qed.

(** What success of the in-place branch means *)
Definition stored (v : option (kind * list byte)) (d : disk) : Prop :=
  exists i, view T d = Some (KLeaf false i, data) /\ (forall i0 c0, v = Some (KLeaf false i0, c0) -> i = i0).

Lemma triple_inplace v : triple any (fun d => view T d = v) (save_inplace o dir leaf data)
  (fun ok d => ok = true -> stored v d \/ o_update o = true /\ exists i, newer (Leaf false i) = true).
Proof.
  unfold save_inplace. eapply (triple_bind _ _ _ _ (fun _ d => view T d = v)).
  { eapply triple_bind; [apply triple_ask|]. intros r. eapply triple_bind; [apply triple_get|]. intros d. by apply triple_ret; intros ? [_ ?]. }
  intros st. eapply triple_bind; [apply triple_get|]. intros d. cbn beta. apply triple_at. intros d0 [-> Hv].
  match goal with |- triple _ _ (if ?b then _ else _) _ => destruct b; [by apply triple_ret|] end.
  eapply triple_bind; [eapply triple_mono; [apply (triple_open_write v)|by intros ? ->|intros r d Hr; exact Hr]|]. intros [e|i]; [by apply triple_ret|]. cbn beta.
  apply triple_ex. intros c. apply triple_pure. intros Hino. eapply (triple_bind _ _ _ _ (fun _ => holds T i c)); [eapply triple_post; [apply triple_get|by intros ?? [_ ?]]|].
  intros d. eapply triple_bind; [apply triple_succeeds, triple_other|]. intros fstat. cbn beta. destruct (_ || _); [by apply triple_ret|].
  destruct (o_update o && _ && newer _) eqn:Enew.
  { apply triple_ret. intros d' _ _. right. apply andb_true_iff in Enew as [[Eu _]%andb_true_iff En]. split; [done|by exists i]. }
  eapply triple_bind; [apply triple_prealloc_here|]. intros rdy. cbn beta. apply triple_ex. intros c1. destruct rdy; cbn [negb]; [|by apply triple_ret].
  eapply (triple_bind _ _ _ _ (fun r d => exists c', holds T i c' d /\ (r.2 = true -> c' = write_at c1 0 data))).
  { unfold write_data. rewrite Hsp. cbn [andb negb]. eapply (triple_bind _ _ _ _ (fun _ => holds T i c1)); [by apply triple_ret|]. intros ok. rewrite orb_true_r.
    eapply triple_bind; [apply triple_write_all; lia|]. intros ok'. cbn beta. apply triple_ret. intros d' (c'&Hh&Hw&_). by exists c'. }
  intros [a ok]. cbn beta. simpl. apply triple_ex. intros c2. apply triple_pure. intros Hc.
  eapply (triple_bind _ _ _ _ (fun ok d => exists c', holds T i c' d /\ (ok = true -> c' = data))).
  { destruct ok; [|apply triple_ret; by exists c2]. rewrite (Hc eq_refl). eapply triple_bind; [apply triple_truncate|]. intros r. cbn beta. apply triple_ret.
    intros d' (c'&Hh&Hr&_). exists c'. split; [done|]. rewrite bool_decide_eq_true. intros ->. by rewrite (Hr eq_refl), resize_written. }
  intros ok2. cbn beta. apply triple_ex. intros c3. eapply triple_post; [apply triple_finish|]. cbn beta. intros ok3 d' [[Hh Hok] H3] E3. left. exists i.
  rewrite (holds_view _ _ _ _ Hh), (Hok (H3 E3)). done.
Qed.
End Place.
End InPlace.

Section InPlaceWhole.
Context `{Heap} {F : Faults} {E : SecureEnv} {V : SaveEnv} (o : save_opts).
Context (R : list name) (Hroot : root_fd = Some R) (Hkd : keep_dirlinks = false) (root : list byte) (Hrp : root_path = Some root).
Context (path data : list byte) (Hin : o_inplace o = true) (Hsp : o_sparse o = false).
Local Abbreviation dir := (parent_of R root path).
Local Abbreviation leaf := (leaf_of path).
Local Abbreviation D := (dir ++ [leaf]).
Context (Hl : leaf <> []) (Hdl : dots leaf = false).

Lemma triple_inplace_once temp_dir v :
  triple (either [] nowhere data True) (fun d => view D d = v) (save_once o path data temp_dir)
    (fun r d => r.2 = false /\ (r.1 = true -> stored data dir leaf v d \/ o_update o = true /\ exists i, newer (Leaf false i) = true)).
Proof.
  eapply triple_bind; [apply triple_get|]. intros d0. cbn beta. apply triple_at. intros d1 [-> Hv].
  destruct (file_open_secure_parent path true (d_fs d1)) as [fs r] eqn:Ep. destruct (parent_kept R Hroot Hkd root path _ _ _ Hrp Ep) as [Hk Hr].
  assert (Hset : triple (either [] nowhere data True) (fun d => d = d1) (set_fs fs) (fun _ d => view D d = v)).
  { apply triple_set_fs. intros d ->. split; [apply any_disk|]. rewrite <- Hv. by apply view_fs. }
  destruct r as [e|[fd lf]]; [eapply triple_bind; [exact Hset|]; intros []; by apply triple_ret|]. destruct (Hr _ _ eq_refl) as [-> ->].
  eapply triple_bind; [exact Hset|]. intros []. rewrite Hin. eapply triple_bind; [by apply triple_inplace|]. intros ok. cbn beta. apply triple_ret. intros d Hd. done.
Qed.

(** A store in place is exact.  However the kernel answers, when
    --inplace without --sparse reports success the destination is a regular file
    with exactly the new bytes (nothing of a longer old file is left), and an
    existing destination keeps its inode, so its hard links see the new bytes;
    or --update kept a newer file.  The branch never asks for the retry. *)
Lemma inplace_exact temp_dir s :
  let '(s', ok) := file_to_disk_secure_impl o path data temp_dir s in
  ok = true ->
  (exists i, view D (s_disk s') = Some (KLeaf false i, data) /\
     (forall i0 c0, view D (s_disk s) = Some (KLeaf false i0, c0) -> i = i0)) \/
  o_update o = true /\ exists i, newer (Leaf false i) = true.
Proof.
  destruct (triple_inplace_once temp_dir (view D (s_disk s)) s eq_refl) as (_&_&_&Hx&Hok). unfold file_to_disk_secure_impl, mbind, sysM_bind.
  destruct (save_once o path data temp_dir s) as [s1 [ok x]]. simpl in *. subst x. exact Hok.
Qed.
End InPlaceWhole.

Definition inplace_opts (sparse : bool) : save_opts := MkOpts true sparse false false false false false false false.

(** With --sparse the branch is not exact: the presizing keeps the old bytes and
    a long run of zeros is skipped over, so 4096 bytes "o" stay where 4096 zero
    bytes were to be stored, and success is reported. *)
Example inplace_sparse_keeps_old_bytes :
  let old := replicate 4096 (byte.of_Z 111) in
  let '(s', ok) := @file_to_disk_secure_impl heap0 no_faults (demo_env false) demo_save (inplace_opts true) (cs "/srv/d/t/f") (zeros 4096) None
    (MkSys (MkDisk demo_fs {[ 6 := old ]}) [] [] 0) in
  ok = true /\ contents (s_disk s') 6 = old.
Proof. vm_compute. split; reflexivity. Qed.
