(* ===== verification/Xattr.v ===== *)
(** Extended attributes and the fake-super record: src/shared/xattr.c.  The
    whitelist of names, the capture of a file's attributes, the block that
    carries them, their application, and the record of --fake-super. *)

From S2P Require Import Prelude Alloc CStr Names Libc Transport Session Wp Metadata.

(** ** Lists *)

(** xattr.h, the bounds and [FileXattr]; a [FileXattrList] is the list of its
    items, its count their number. *)
Definition XATTR_NAME_MAX : Z := 255.
Definition XATTR_VALUE_MAX : Z := 1024 * 1024.
Definition XATTR_TOTAL_MAX : Z := 4 * 1024 * 1024.
Definition XATTR_MAX_COUNT : Z := 256.
Definition FAKESUPER_XATTR : list byte := cs "user.rsync.%stat".
Record FileXattr := MkXattr { xa_name : list byte; xa_value : list byte }.
Definition sizeof_FileXattr : Z := 24.
Definition sizeof_FileXattrList : Z := 16.

(** xattr.c [xattr_name_appliable], [xattr_name_is_posix_acl] *)
Definition acl_access : list byte := cs "system.posix_acl_access".
Definition acl_default : list byte := cs "system.posix_acl_default".
Definition xattr_name_appliable (name : list byte) (preserve_acls : bool) : bool :=
  if at_end name 0 then false
  else if zlen name >? XATTR_NAME_MAX then false
  else if strcmp name FAKESUPER_XATTR =? 0 then false
  else if strncmp name (cs "user.") 5 =? 0 then negb (at_end name 5)
  else if strcmp name acl_access =? 0 then preserve_acls
  else if strcmp name acl_default =? 0 then preserve_acls
  else false.
Definition xattr_name_is_posix_acl (name : list byte) : bool := (strcmp name acl_access =? 0) || (strcmp name acl_default =? 0).

Section Lists.
Context `{HH : Heap}.

(** xattr.c [xattr_list_new], [xattr_list_append], [xattr_list_clone] *)
Definition xattr_list_new : outcome (list FileXattr) := check (protocol_alloc sizeof_FileXattrList);; Ret [].
Definition xattr_list_append (l : list FileXattr) (name value : list byte) : outcome (list FileXattr) :=
  check (negb (zlen l >=? XATTR_MAX_COUNT));;
  check (malloc_ok ((zlen l + 1) * sizeof_FileXattr));;
  check (malloc_ok (zlen name + 1));;
  check ((zlen value =? 0) || malloc_ok (zlen value));;
  Ret (l ++ [MkXattr name value]).
Fixpoint clone_loop (items clone : list FileXattr) : outcome (list FileXattr) :=
  match items with
  | [] => Ret clone
  | x :: items => clone ← xattr_list_append clone (xa_name x) (xa_value x); clone_loop items clone
  end.
Definition xattr_list_clone (l : option (list FileXattr)) : outcome (option (list FileXattr)) :=
  match l with
  | None => Ret None
  | Some l => clone ← xattr_list_new; clone ← clone_loop l clone; Ret (Some clone)
  end.

(** ** Capture *)

(** The attributes of a file as the system calls report them, each call for
    itself: [xs_size] and [xs_list] are [listxattr] without and with a buffer,
    [xs_value_size] and [xs_value] are [getxattr]; a negative size and [None] are
    errors. *)
Class XattrSource := {
  xs_size : Z;
  xs_list : Z -> option (list byte);
  xs_value_size : list byte -> Z;
  xs_value : list byte -> Z -> option (list byte);
}.

(** The string at [offset]; past the last NUL of the block there is none. *)
Definition string_at (block : list byte) (offset : nat) : outcome (list byte) :=
  let rest := drop offset block in
  if bool_decide (Byte.x00 ∈ rest) then Ret (c_str rest) else Stuck.

(** xattr.c [xattr_capture_common]: one name, and the loop over [got] bytes *)
Definition capture_one `{XattrSource} (preserve_acls : bool) (name : list byte) (l : list FileXattr) (budget : Z) : outcome (list FileXattr * Z) :=
  let keep := Ret (l, budget) in
  if negb (xattr_name_appliable name preserve_acls) then keep
  else
    let value_size := xs_value_size name in
    if value_size <? 0 then keep
    else if value_size >? XATTR_VALUE_MAX then keep
    else if zlen name + value_size >? u64 (XATTR_TOTAL_MAX - budget) then keep
    else
      check (malloc_ok (if value_size >? 0 then value_size else 1));;
      match xs_value name value_size with
      | Some value =>
          if zlen value =? value_size then
            l ← xattr_list_append l name value; Ret (l, u64 (budget + (zlen name + value_size)))
          else keep
      | None => keep
      end.
Fixpoint capture_loop `{XattrSource} (fuel : nat) (preserve_acls : bool) (block : list byte) (got offset : nat) (l : list FileXattr) (budget : Z) : outcome (list FileXattr) :=
  match fuel with
  | O => Stuck
  | S fuel =>
      if (offset <? got)%nat then
        name ← string_at block offset;
        if bool_decide (name = []) then Ret l
        else
          '(l, budget) ← capture_one preserve_acls name l budget;
          capture_loop fuel preserve_acls block got (offset + length name + 1) l budget
      else Ret l
  end.
Definition xattr_capture_common `{XattrSource} (preserve_acls : bool) : outcome (list FileXattr) :=
  check (0 <? xs_size);;
  check (malloc_ok xs_size);;
  names ← of_option (xs_list xs_size);
  l ← xattr_list_new;
  l ← capture_loop (S (length names)) preserve_acls (names ++ junk_bytes (xs_size - zlen names)) (length names) 0 l 0;
  check (negb (zlen l =? 0));;
  Ret l.

(** ** The block on the wire *)

(** xattr.c [xattr_send]; [None] is NULL *)
Definition send_attr (x : FileXattr) : io unit :=
  io_check (zlen (xa_name x) <=? 2 ^ 31 - 1) >~
  io_check (zlen (xa_value x) <=? 2 ^ 31 - 1) >~
  send_bytes (put_le 4 (zlen (xa_name x))) >~ send_bytes (xa_name x) >~
  send_bytes (put_le 4 (zlen (xa_value x))) >~
  (if zlen (xa_value x) >? 0 then send_bytes (xa_value x) else io_ret tt).
Fixpoint send_attrs (l : list FileXattr) : io unit :=
  match l with [] => io_ret tt | x :: l => send_attr x >~ send_attrs l end.
Definition xattr_send (l : option (list FileXattr)) : io unit :=
  protocol_send_int (zlen (default [] l)) >~ send_attrs (default [] l).

(** xattr.c [xattr_receive]: one attribute, the loop, the block *)
Definition receive_attr (preserve_acls : bool) (l : list FileXattr) (budget : Z) : io (list FileXattr * Z) :=
  name_len <~ protocol_receive_int;
  io_check (negb ((name_len <=? 0) || (name_len >? XATTR_NAME_MAX))) >~
  io_check (protocol_alloc (name_len + 1)) >~
  name <~ recv_bytes name_len;
  io_check (negb (bool_decide (Byte.x00 ∈ name))) >~
  let ok := xattr_name_appliable name preserve_acls in
  io_check (ok || (negb preserve_acls && xattr_name_is_posix_acl name)) >~
  value_len <~ protocol_receive_int;
  io_check (negb ((value_len <? 0) || (value_len >? XATTR_VALUE_MAX))) >~
  io_check (negb (name_len + value_len >? u64 (XATTR_TOTAL_MAX - budget))) >~
  value <~ (if value_len >? 0 then io_check (protocol_alloc value_len) >~ recv_bytes value_len else io_ret []);
  l <~ (if ok then io_of (xattr_list_append l name value) else io_ret l);
  io_ret (l, u64 (budget + (name_len + value_len))).
Fixpoint receive_attrs (n : nat) (preserve_acls : bool) (l : list FileXattr) (budget : Z) : io (list FileXattr) :=
  match n with
  | O => io_ret l
  | S n => r <~ receive_attr preserve_acls l budget; receive_attrs n preserve_acls (fst r) (snd r)
  end.
Definition xattr_receive (preserve_acls : bool) : io (list FileXattr) :=
  count <~ protocol_receive_int;
  io_check (negb ((count <? 0) || (count >? XATTR_MAX_COUNT))) >~
  l <~ io_of xattr_list_new;
  receive_attrs (Z.to_nat count) preserve_acls l 0.
End Lists.

(** ** Application *)

(** The attributes of a file. *)
Definition attrs : Type := list byte -> option (list byte).

(** What the receiving system does: [setxattr] may be refused, [fstat] and
    [fchmod] may fail. *)
Class XattrTarget := {
  xt_sets : list byte -> list byte -> bool;
  xt_fstat : bool;
  xt_fchmod : bool;
}.

Section Apply.
Context {T : XattrTarget}.

Definition setxattr (a : attrs) (name value : list byte) : attrs := if xt_sets name value then (fun k => if decide (k = name) then Some value else a k) else a.

(** xattr.c [xattr_apply_fd], [xattr_apply_path_nofollow]: the return value and
    the attributes *)
Fixpoint apply_loop (allowed : list byte -> bool) (l : list FileXattr) (a : attrs) : attrs :=
  match l with
  | [] => a
  | x :: l => apply_loop allowed l (if allowed (xa_name x) then setxattr a (xa_name x) (xa_value x) else a)
  end.
Definition xattr_apply_fd (fd : Z) (l : option (list FileXattr)) (a : attrs) : bool * attrs :=
  match l with
  | Some l => if fd <? 0 then (false, a) else (true, apply_loop (fun name => negb (strcmp name FAKESUPER_XATTR =? 0)) l a)
  | None => (false, a)
  end.
Definition xattr_apply_path_nofollow `{Heap} (parent_fd : Z) (prefix_len : Z) (leaf : list byte) (l : option (list FileXattr)) (preserve_acls : bool) (a : attrs) : bool * attrs :=
  match l with
  | Some l =>
      if (parent_fd <? 0) || at_end leaf 0 || bool_decide ("/"%byte ∈ leaf) then (false, a)
      else if zlen l =? 0 then (true, a)
      else if negb (malloc_ok (prefix_len + zlen leaf + 1)) then (false, a)
      else (true, apply_loop (fun name => xattr_name_appliable name preserve_acls) l a)
  | None => (false, a)
  end.

(** ** The fake-super record *)

(** xattr.c [fake_super_store_fd]: the record, and the file's attributes *)
Record stat_record := MkStat { st_mode : Z; st_major : Z; st_minor : Z; st_uid : Z; st_gid : Z }.
Definition fake_super_record (r : stat_record) : list byte :=
  print_u32 8 (st_mode r) ++ cs " " ++ print_u32 10 (st_major r) ++ cs "," ++ print_u32 10 (st_minor r) ++ cs " " ++
  print_u32 10 (st_uid r) ++ cs ":" ++ print_u32 10 (st_gid r).
Definition fake_super_store_fd (fd : Z) (r : stat_record) (a : attrs) : attrs :=
  let record := fake_super_record r in
  if (fd <? 0) || (zlen record <=? 0) || (zlen record >=? 96) then a else setxattr a FAKESUPER_XATTR record.

(** xattr.c [fake_super_parse_stat]: one field with its bound and the character
    that ends it, and the record *)
Definition stat_field (b : Z) (limit : Z) (stop : byte) (p : list byte) : option (Z * list byte) :=
  let '(v, err, rest) := strtoul b p in
  if err || (length rest =? length p)%nat || (v >? limit) || negb (char_is rest 0 stop) then None else Some (v, drop 1 rest).
Definition UINT_MAX : Z := 2 ^ 32 - 1.
Definition trailing (c : byte) : bool := bool_decide (c = " "%byte) || bool_decide (c = Byte.x09) || bool_decide (c = Byte.x0a) || bool_decide (c = Byte.x0d).
Definition fake_super_parse_stat (record : list byte) : option stat_record :=
  '(mode, p) ← stat_field 8 UINT_MAX " " record;
  '(major, p) ← stat_field 10 0xffff "," p;
  '(minor, p) ← stat_field 10 0x00ffffff " " p;
  '(uid, p) ← stat_field 10 UINT_MAX ":" p;
  let '(gid, err, rest) := strtoul 10 p in
  if err || (length rest =? length p)%nat || (gid >? UINT_MAX) then None
  else if at_end (snd (span trailing rest)) 0 then Some (MkStat mode major minor uid gid) else None.

(** xattr.c [fake_super_restore_fd]: the return value and the file's mode;
    [fgetxattr] fails when the record is absent or longer than its buffer *)
Definition fake_super_restore_fd (fd : Z) (policy : FileAttrPolicy) (a : attrs) (mode : Z) : bool * Z :=
  if fd <? 0 then (false, mode)
  else match a FAKESUPER_XATTR with
  | None => (false, mode)
  | Some record =>
      if zlen record >? 127 then (false, mode)
      else match fake_super_parse_stat (c_str record) with
      | None => (false, mode)
      | Some r =>
          if (perms policy || executability policy) && xt_fstat then
            match metadata_mode_for_policy (Z.land (st_mode r) perm_bits) mode policy with
            | Some want => (true, if xt_fchmod then Z.lor (Z.ldiff mode (Z.lor special_bits perm_bits)) want else mode)
            | None => (true, mode)
            end
          else (true, mode)
      end
  end.
End Apply.
