(* ===== verification/XattrSafe.v ===== *)
(** Extended attributes: what is captured, what arrives, what may be set, and the
    replay of the fake-super record. *)

From S2P Require Import Prelude Alloc CStr Names Libc Transport Session Wp Metadata ConfigTrip Xattr.

(** ** What a list of attributes holds *)

Definition attr_bytes (x : FileXattr) : Z := zlen (xa_name x) + zlen (xa_value x).
Definition total_bytes (l : list FileXattr) : Z := zsum (attr_bytes <$> l).
Definition attr_ok (acls : bool) (x : FileXattr) : Prop :=
  xattr_name_appliable (xa_name x) acls = true /\ Byte.x00 ∉ xa_name x /\ zlen (xa_value x) <= XATTR_VALUE_MAX.
Definition list_fits (acls : bool) (l : list FileXattr) : Prop := Forall (attr_ok acls) l /\ zlen l <= XATTR_MAX_COUNT /\ total_bytes l <= XATTR_TOTAL_MAX.

Lemma total_bytes_app l k : total_bytes (l ++ k) = total_bytes l + total_bytes k.
Proof. unfold total_bytes. by rewrite fmap_app, zsum_app. Qed.
Lemma total_bytes_one x : total_bytes [x] = attr_bytes x.
Proof. unfold total_bytes. simpl. lia. Qed.
Lemma attr_bytes_nonneg x : 0 <= attr_bytes x.
Proof. unfold attr_bytes. pose proof (zlen_nonneg (xa_name x)). pose proof (zlen_nonneg (xa_value x)). lia. Qed.
Lemma total_bytes_nonneg l : 0 <= total_bytes l.
Proof. induction l as [|x l IH]; [done|]. change (x :: l) with ([x] ++ l). rewrite total_bytes_app, total_bytes_one. pose proof (attr_bytes_nonneg x). lia. Qed.

(** The whitelist: a name of the user namespace, or an access control list that
    was asked for; never the reserved key. *)
Lemma appliable_spec name acls :
  xattr_name_appliable name acls = true <->
  zlen name <= XATTR_NAME_MAX /\ name <> FAKESUPER_XATTR /\
  ((exists rest, rest <> [] /\ name = cs "user." ++ rest) \/ (acls = true /\ (name = acl_access \/ name = acl_default))).
Proof.
  unfold xattr_name_appliable. split.
  - destruct (at_end name 0) eqn:E0; [done|]. destruct (Z.gtb_spec (zlen name) XATTR_NAME_MAX) as [|Hl]; [done|].
    destruct (Z.eqb_spec (strcmp name FAKESUPER_XATTR) 0) as [|Hf]; [done|]. rewrite strcmp_eq in Hf.
    destruct (Z.eqb_spec (strncmp name (cs "user.") 5) 0) as [Hu|Hu].
    + apply (strncmp_prefix name (cs "user.")) in Hu as [rest ->]. intros Hr. split_and!; [done|done|]. left. exists rest. split; [|done]. by intros ->.
    + destruct (Z.eqb_spec (strcmp name acl_access) 0) as [Ha%strcmp_eq|_]; [intros ->; split_and!; [done|done|]; right; auto|].
      destruct (Z.eqb_spec (strcmp name acl_default) 0) as [Ha%strcmp_eq|_]; [intros ->; split_and!; [done|done|]; right; auto|done].
  - intros (Hl&Hf&Hn). assert (Hne : at_end name 0 = false).
    { apply bool_decide_eq_false_2. destruct Hn as [(rest&_&->)|[_ [->| ->]]]; done. }
    rewrite Hne. destruct (Z.gtb_spec (zlen name) XATTR_NAME_MAX); [lia|]. destruct (Z.eqb_spec (strcmp name FAKESUPER_XATTR) 0) as [Hx%strcmp_eq|_]; [done|].
    destruct Hn as [(rest&Hr&->)|[-> [->| ->]]]; [|done|done]. assert (strncmp (cs "user." ++ rest) (cs "user.") 5 = 0) as -> by (apply (strncmp_prefix _ (cs "user.")); by eexists).
    rewrite Z.eqb_refl. by destruct rest.
Qed.

Section Facts.
Context `{HH : Heap}.

Lemma append_owp acls l x budget : list_fits acls l -> attr_ok acls x -> 0 <= budget -> total_bytes l <= budget -> budget + attr_bytes x <= XATTR_TOTAL_MAX ->
  owp (xattr_list_append l (xa_name x) (xa_value x)) (fun l' => l' = l ++ [x] /\ list_fits acls l').
Proof.
  intros (Hf&Hn&Ht) Hx Hb Hl Hz. unfold xattr_list_append. wp_check Ec. wp_check E1. wp_check E2. wp_check E3. apply owp_ret. destruct x as [n v]. split; [done|].
  rewrite negb_true_iff in Ec. split_and!; [by apply Forall_app_2; [|constructor]| |].
  - rewrite zlen_app. change (zlen [_]) with 1. destruct (Z.geb_spec (zlen l) XATTR_MAX_COUNT); [done|lia].
  - rewrite total_bytes_app, total_bytes_one. simpl in *. lia.
Qed.

(** ** Receiving *)

Lemma receive_attr_gives acls l budget : list_fits acls l -> total_bytes l <= budget <= XATTR_TOTAL_MAX ->
  gives (receive_attr acls l budget) (fun r => list_fits acls (fst r) /\ total_bytes (fst r) <= snd r <= XATTR_TOTAL_MAX).
Proof.
  intros Hl Hb. pose proof (total_bytes_nonneg l). unfold receive_attr, XATTR_TOTAL_MAX in *. g_step gives_receive_int as nl _. g_step gives_check as _ Hn. g_step gives_check as _ _.
  rewrite negb_true_iff, orb_false_iff in Hn. destruct Hn as [Hn1%Z.leb_gt Hn2]. g_step gives_recv_bytes as name Hname. g_step gives_check as _ Hnul. g_step gives_check as _ Hok.
  g_step gives_receive_int as vl _. g_step gives_check as _ Hv. g_step gives_check as _ Hbud.
  rewrite negb_true_iff, orb_false_iff in Hv. destruct Hv as [Hv1%Z.ltb_ge Hv2]. rewrite negb_true_iff in Hbud, Hnul. apply bool_decide_eq_false in Hnul.
  rewrite u64_small in Hbud by lia. destruct (Z.gtb_spec (nl + vl) (4 * 1024 * 1024 - budget)) as [|Hfit]; [done|]. destruct (Z.gtb_spec vl XATTR_VALUE_MAX) as [|Hvm]; [done|].
  eapply gives_bind with (P := fun value => zlen value = vl).
  { destruct (Z.gtb_spec vl 0) as [Hpos|Hz]; [|apply gives_ret; change (zlen []) with 0; lia]. g_step gives_check as _ _. apply gives_recv_bytes. lia. }
  cbn beta. intros value Hvl. destruct (xattr_name_appliable name acls) eqn:Eap.
  - eapply gives_bind; [apply gives_of, (append_owp acls l (MkXattr name value) budget); [done|by split_and!; simpl; [| |lia]|lia|lia|unfold attr_bytes, XATTR_TOTAL_MAX; simpl; lia]|].
    cbn beta. intros l' [-> Hl']. apply gives_ret. simpl. split; [done|]. rewrite total_bytes_app, total_bytes_one. unfold attr_bytes. simpl. rewrite u64_small by lia. lia.
  - eapply gives_bind; [by apply gives_ret with (P := fun l' => l' = l)|]. intros l' ->. apply gives_ret. simpl. split; [done|]. rewrite u64_small by lia. lia.
Qed.
Lemma receive_attrs_gives acls n : forall l budget, list_fits acls l -> total_bytes l <= budget <= XATTR_TOTAL_MAX -> gives (receive_attrs n acls l budget) (list_fits acls).
Proof.
  induction n as [|n IH]; intros l budget Hl Hb; cbn [receive_attrs]; [by apply gives_ret|]. eapply gives_bind; [by apply receive_attr_gives|].
  intros r [? ?]. by apply IH.
Qed.
Lemma empty_fits acls : list_fits acls [].
Proof. split_and!; [constructor|done|done]. Qed.
Lemma xattr_receive_gives acls : gives (xattr_receive acls) (list_fits acls).
Proof.
  unfold xattr_receive. g_step gives_receive_int as count _. g_step gives_check as _ _. eapply gives_bind with (P := fun l => l = []).
  { apply gives_of. unfold xattr_list_new. wp_check E. by apply owp_ret. }
  intros l ->. apply receive_attrs_gives; [apply empty_fits|]. unfold XATTR_TOTAL_MAX. change (total_bytes []) with 0. lia.
Qed.

(** ** Application *)

Lemma xattr_apply_spec {T : XattrTarget} allowed l : forall a k,
  apply_loop allowed l a k = a k \/ exists x, x ∈ l /\ xa_name x = k /\ allowed k = true /\ apply_loop allowed l a k = Some (xa_value x).
Proof.
  induction l as [|x l IH]; intros a k; [by left|]. cbn [apply_loop]. destruct (IH (if allowed (xa_name x) then setxattr a (xa_name x) (xa_value x) else a) k) as [->|(y&Hy&?)].
  - destruct (allowed (xa_name x)) eqn:Ea; [|by left]. unfold setxattr. destruct (xt_sets _ _); [|by left]. case_decide as Hk; [|by left]. subst k.
    right. exists x. split; [by left|]. done.
  - right. exists y. split; [by right|done].
Qed.

(** C30: a peer can only set attributes that are allowed.  Whatever arrives,
    receiving a block of extended attributes ends without misbehaving; a block
    that is accepted has at most 256 attributes of at most 1 MiB each and 4 MiB
    together, every name in the user namespace or, only with --acls, one of the
    two access control lists, and never the reserved fake-super key.  Applying it
    to a file or to a link, whatever sets are refused, changes no attribute but
    those names, to the values that arrived. *)
Theorem xattrs_confined {T : XattrTarget} (acls : bool) :
  gives (xattr_receive acls) (fun l => list_fits acls l /\
    (forall x, x ∈ l -> xa_name x <> FAKESUPER_XATTR /\
       ((exists rest, rest <> [] /\ xa_name x = cs "user." ++ rest) \/ (acls = true /\ (xa_name x = acl_access \/ xa_name x = acl_default)))) /\
    (forall fd a k, snd (xattr_apply_fd fd (Some l) a) k = a k \/ exists x, x ∈ l /\ xa_name x = k /\ snd (xattr_apply_fd fd (Some l) a) k = Some (xa_value x)) /\
    (forall fd n leaf a k, snd (xattr_apply_path_nofollow fd n leaf (Some l) acls a) k = a k \/
       exists x, x ∈ l /\ xa_name x = k /\ snd (xattr_apply_path_nofollow fd n leaf (Some l) acls a) k = Some (xa_value x))).
Proof.
  eapply gives_mono; [apply xattr_receive_gives|]. intros l Hl. split; [done|]. split; [|split].
  - intros x Hx. destruct Hl as (Hf&_). rewrite Forall_forall in Hf. destruct (Hf x Hx) as (Ha&_). by apply appliable_spec in Ha as (_&?&?).
  - intros fd a k. unfold xattr_apply_fd. destruct (fd <? 0); [by left|]. simpl. edestruct (xattr_apply_spec (fun name => negb (strcmp name FAKESUPER_XATTR =? 0)) l a k) as [?|(x&?&?&_&?)]; [by left|right; by exists x].
  - intros fd n leaf a k. unfold xattr_apply_path_nofollow. destruct (_ || _); [by left|]. destruct (zlen l =? 0); [by left|]. destruct (negb _); [by left|]. simpl.
    edestruct (xattr_apply_spec (fun name => xattr_name_appliable name acls) l a k) as [?|(x&?&?&_&?)]; [by left|right; by exists x].
Qed.

(** ** The block arrives *)

Context (Hheap : heap_serves (2 ^ 34)).

Definition attr_wire (x : FileXattr) : list byte := put_le 4 (zlen (xa_name x)) ++ xa_name x ++ put_le 4 (zlen (xa_value x)) ++ xa_value x.
Definition attrs_wire (l : list FileXattr) : list byte := concat (attr_wire <$> l).
(** What a receiver with or without --acls keeps. *)
Definition kept_attrs (acls : bool) (l : list FileXattr) : list FileXattr := filter (fun x => xattr_name_appliable (xa_name x) acls = true) l.

Lemma name_bounds name acls : xattr_name_appliable name acls = true -> 0 < zlen name <= XATTR_NAME_MAX.
Proof. intros (Hl&_&Hn)%appliable_spec. split; [|done]. destruct Hn as [(rest&_&->)|[_ [->| ->]]]; [rewrite zlen_app; pose proof (zlen_nonneg rest); change (zlen (cs "user.")) with 5; lia|by vm_compute..]. Qed.
Lemma other_receiver name s r : xattr_name_appliable name s = true -> xattr_name_appliable name r || (negb r && xattr_name_is_posix_acl name) = true.
Proof.
  intros Hs. destruct (xattr_name_appliable name r) eqn:Er; [done|]. apply appliable_spec in Hs as (Hl&Hf&Hn). destruct Hn as [Hn|[-> Hn]].
  - assert (xattr_name_appliable name r = true) by (apply appliable_spec; auto). congruence.
  - destruct r; [assert (xattr_name_appliable name true = true) by (apply appliable_spec; auto); congruence|]. unfold xattr_name_is_posix_acl. simpl.
    by destruct Hn as [->| ->].
Qed.

Lemma produces_attr acls x : attr_ok acls x -> produces (send_attr x) (attr_wire x).
Proof.
  intros (Ha&_&Hv). apply name_bounds in Ha. unfold XATTR_NAME_MAX, XATTR_VALUE_MAX in *. unfold send_attr, attr_wire.
  apply produces_check; [apply Z.leb_le; lia|]. apply produces_check; [apply Z.leb_le; lia|]. do 3 (apply produces_bind; [apply produces_send|]).
  destruct (Z.gtb_spec (zlen (xa_value x)) 0) as [|Hz]; [apply produces_send|]. pose proof (zlen_nonneg (xa_value x)).
  destruct (xa_value x) as [|c v]; [apply produces_ret|]. rewrite zlen_cons in *. pose proof (zlen_nonneg v). lia.
Qed.
Lemma produces_attrs acls l : Forall (attr_ok acls) l -> produces (send_attrs l) (attrs_wire l).
Proof. induction 1 as [|x l Hx Hl IH]; [apply produces_ret|]. apply produces_bind; [by eapply produces_attr|done]. Qed.

Lemma append_ret l x : zlen l < XATTR_MAX_COUNT -> zlen (xa_name x) <= XATTR_NAME_MAX -> zlen (xa_value x) <= XATTR_VALUE_MAX -> xattr_list_append l (xa_name x) (xa_value x) = Ret (l ++ [x]).
Proof.
  intros Hl Hn Hv. unfold XATTR_NAME_MAX, XATTR_VALUE_MAX, XATTR_MAX_COUNT in *. pose proof (zlen_nonneg l). pose proof (zlen_nonneg (xa_name x)). pose proof (zlen_nonneg (xa_value x)).
  unfold xattr_list_append, XATTR_MAX_COUNT, sizeof_FileXattr. destruct (Z.geb_spec (zlen l) 256); [lia|]. rewrite !(heap_serves_malloc _ _ Hheap) by lia. rewrite orb_true_r. simpl. by destruct x.
Qed.

Lemma reads_attr s r x l budget : attr_ok s x -> zlen l < XATTR_MAX_COUNT -> 0 <= budget -> budget + attr_bytes x <= XATTR_TOTAL_MAX ->
  reads (receive_attr r l budget) (attr_wire x) (l ++ kept_attrs r [x], budget + attr_bytes x).
Proof.
  intros (Ha&Hnul&Hv) Hl Hb Hz. pose proof (name_bounds _ _ Ha) as Hn. unfold attr_bytes, XATTR_TOTAL_MAX in *. pose proof (zlen_nonneg (xa_value x)). unfold receive_attr, attr_wire.
  unfold XATTR_NAME_MAX, XATTR_VALUE_MAX in *.
  eapply reads_bind; [apply reads_i32; unfold int_range; lia|]. eapply reads_then; [apply consumes_check|].
  { destruct (Z.leb_spec (zlen (xa_name x)) 0); [lia|]. unfold XATTR_NAME_MAX. destruct (Z.gtb_spec (zlen (xa_name x)) 255); [lia|done]. }
  eapply reads_then; [apply consumes_check, (heap_serves_alloc _ _ Hheap); lia|]. eapply reads_bind; [apply consumes_recv|].
  eapply reads_then; [apply consumes_check; by rewrite bool_decide_eq_false_2|]. cbv zeta. eapply reads_then; [apply consumes_check; by eapply other_receiver|].
  eapply reads_bind; [apply reads_i32; unfold int_range; lia|]. eapply reads_then; [apply consumes_check|].
  { destruct (Z.ltb_spec (zlen (xa_value x)) 0); [lia|]. unfold XATTR_VALUE_MAX. destruct (Z.gtb_spec (zlen (xa_value x)) (1024 * 1024)); [lia|done]. }
  eapply reads_then; [apply consumes_check|]. { unfold XATTR_TOTAL_MAX. rewrite u64_small by lia. destruct (Z.gtb_spec (zlen (xa_name x) + zlen (xa_value x)) (4 * 1024 * 1024 - budget)); [lia|done]. }
  rewrite u64_small by lia. eapply reads_last.
  { instantiate (1 := xa_value x). destruct (Z.gtb_spec (zlen (xa_value x)) 0); [eapply reads_then; [apply consumes_check, (heap_serves_alloc _ _ Hheap); lia|apply consumes_recv]|].
    destruct (xa_value x) as [|c v]; [apply consumes_ret|]. rewrite zlen_cons in *. pose proof (zlen_nonneg v). lia. }
  eapply reads_then; [instantiate (1 := l ++ kept_attrs r [x])|apply consumes_ret]. unfold kept_attrs. rewrite filter_cons, filter_nil. destruct (xattr_name_appliable (xa_name x) r) eqn:Er.
  - rewrite decide_True by done. apply reads_of, append_ret; [done|unfold XATTR_NAME_MAX; lia|unfold XATTR_VALUE_MAX; lia].
  - rewrite decide_False by done. rewrite app_nil_r. apply consumes_ret.
Qed.
Lemma reads_attrs s r k : forall l budget, Forall (attr_ok s) k -> zlen l + zlen k <= XATTR_MAX_COUNT -> 0 <= budget -> budget + total_bytes k <= XATTR_TOTAL_MAX ->
  reads (receive_attrs (length k) r l budget) (attrs_wire k) (l ++ kept_attrs r k).
Proof.
  induction k as [|x k IH]; intros l budget Hk Hn Hb Hz; [rewrite app_nil_r; apply consumes_ret|]. apply Forall_cons in Hk as [Hx Hk]. rewrite zlen_cons in Hn.
  change (x :: k) with ([x] ++ k) in Hz |- *. rewrite total_bytes_app, total_bytes_one in Hz. pose proof (attr_bytes_nonneg x). pose proof (total_bytes_nonneg k). pose proof (zlen_nonneg k).
  unfold attrs_wire. cbn [app fmap list_fmap concat length receive_attrs]. eapply reads_bind; [apply (reads_attr s r x l budget); [done|lia|done|lia]|]. cbn [fst snd].
  change (x :: k) with ([x] ++ k). unfold kept_attrs. rewrite filter_app, app_assoc. apply IH; [done| |lia|lia].
  rewrite zlen_app. assert (zlen (filter (fun y => xattr_name_appliable (xa_name y) r = true) [x]) <= 1); [|lia].
  rewrite filter_cons, filter_nil. by case_decide.
Qed.

(** ** Capture *)

(** A listing fills at most the buffer and is a sequence of NUL-terminated names. *)
Definition source_ok `{XattrSource} : Prop := forall n bs, xs_list n = Some bs -> zlen bs <= n /\ (bs = [] \/ last bs = Some Byte.x00).
(** The value is the one the file has. *)
Definition genuine `{XattrSource} (x : FileXattr) : Prop := xs_value (xa_name x) (zlen (xa_value x)) = Some (xa_value x).

Lemma capture_one_owp `{XattrSource} acls name l budget : Byte.x00 ∉ name -> list_fits acls l -> Forall genuine l -> total_bytes l = budget ->
  owp (capture_one acls name l budget) (fun r => list_fits acls (fst r) /\ Forall genuine (fst r) /\ total_bytes (fst r) = snd r).
Proof.
  intros Hnul Hl Hg Hb. pose proof (total_bytes_nonneg l). pose proof Hl as (_&_&Ht). pose proof (zlen_nonneg name). unfold capture_one, XATTR_TOTAL_MAX in *.
  assert (Hkeep : owp (Ret (l, budget)) (fun r => list_fits acls (fst r) /\ Forall genuine (fst r) /\ total_bytes (fst r) = snd r)) by (apply owp_ret; done).
  destruct (xattr_name_appliable name acls) eqn:Ea; [|done]. cbn [negb]. destruct (Z.ltb_spec (xs_value_size name) 0); [done|].
  destruct (Z.gtb_spec (xs_value_size name) XATTR_VALUE_MAX) as [|Hv]; [done|]. rewrite u64_small by lia.
  destruct (Z.gtb_spec (zlen name + xs_value_size name) (4 * 1024 * 1024 - budget)); [done|]. wp_check Em.
  destruct (xs_value name (xs_value_size name)) as [value|] eqn:Ev; [|done]. destruct (Z.eqb_spec (zlen value) (xs_value_size name)) as [Ez|]; [|done].
  wp_bind. eapply owp_mono; [apply (append_owp acls l (MkXattr name value) budget); [done|by split_and!; simpl; [| |lia]|lia|lia|unfold attr_bytes, XATTR_TOTAL_MAX; simpl; lia]|].
  cbn beta. intros l' [-> Hl']. apply owp_ret. simpl. split_and!; [done|apply Forall_app_2; [done|]; constructor; [|constructor]; unfold genuine; simpl; by rewrite Ez|].
  rewrite total_bytes_app, total_bytes_one. unfold attr_bytes. simpl. rewrite u64_small by lia. lia.
Qed.

Lemma string_at_ret names tail offset : last names = Some Byte.x00 -> (offset < length names)%nat ->
  exists name, string_at (names ++ tail) offset = Ret name /\ Byte.x00 ∉ name.
Proof.
  intros Hl Ho. unfold string_at. rewrite bool_decide_eq_true_2.
  - eexists. split; [done|]. generalize (drop offset (names ++ tail)). clear. intros s. induction s as [|c s IH]; simpl; [set_solver|]. case_bool_decide; set_solver.
  - rewrite drop_app_le by lia. apply elem_of_app. left. rewrite last_lookup in Hl. apply list_elem_of_lookup. exists (pred (length names) - offset)%nat. rewrite lookup_drop. rewrite <- Hl. f_equal. lia.
Qed.

Lemma capture_loop_owp `{XattrSource} acls names tail : names = [] \/ last names = Some Byte.x00 -> forall fuel offset l budget,
  (length names - offset < fuel)%nat -> list_fits acls l -> Forall genuine l -> total_bytes l = budget ->
  owp (capture_loop fuel acls (names ++ tail) (length names) offset l budget) (fun l' => list_fits acls l' /\ Forall genuine l').
Proof.
  intros Hn. induction fuel as [|fuel IH]; intros offset l budget Hf Hl Hg Hb; cbn [capture_loop]; [lia|].
  destruct (Nat.ltb_spec offset (length names)) as [Ho|Ho]; [|by apply owp_ret].
  destruct Hn as [->|Hn]; [simpl in Ho; lia|]. destruct (string_at_ret names tail offset Hn Ho) as (name&->&Hnul). wp_bind. apply owp_ret.
  case_bool_decide as He; [by apply owp_ret|]. wp_bind. eapply owp_mono; [by apply capture_one_owp|]. cbn beta. intros [l' b'] (Hl'&Hg'&Hb'). simpl in *. apply IH; [lia|done|done|done].
Qed.

Lemma capture_owp `{XattrSource} acls : source_ok -> owp (xattr_capture_common acls) (fun l => list_fits acls l /\ Forall genuine l).
Proof.
  intros Hs. unfold xattr_capture_common. wp_check E1. wp_check E2. wp_bind. destruct (xs_list xs_size) as [names|] eqn:En; [|done]. destruct (Hs _ _ En) as [_ Hn]. apply owp_ret.
  wp_bind. unfold xattr_list_new. wp_check E3. apply owp_ret. wp_bind. eapply owp_mono; [apply (capture_loop_owp acls names); [done|lia|apply empty_fits|constructor|done]|].
  cbn beta. intros l Hl. wp_check E4. by apply owp_ret.
Qed.

Lemma block_transfer s r l : list_fits s l ->
  transfers (xattr_send (Some l)) (xattr_receive r) (zlen (int_wire (zlen l) ++ attrs_wire l)) (kept_attrs r l) (fun _ => True).
Proof.
  intros (Hf&Hn&Ht). pose proof (zlen_nonneg l). unfold XATTR_MAX_COUNT in *. eapply (transfers_intro _ _ _ _ id); [| |done].
  - apply produces_bind; [apply produces_send|by eapply produces_attrs].
  - eapply reads_bind; [apply reads_i32; unfold int_range; lia|]. eapply reads_then; [apply consumes_check|].
    { unfold XATTR_MAX_COUNT. destruct (Z.ltb_spec (zlen l) 0); [lia|]. destruct (Z.gtb_spec (zlen l) 256); [lia|done]. }
    eapply reads_then; [apply reads_of; unfold xattr_list_new; by rewrite (heap_serves_alloc _ _ Hheap)|]. unfold zlen. rewrite Nat2Z.id.
    apply (reads_attrs s r l [] 0); [done|unfold XATTR_MAX_COUNT; change (zlen []) with 0; lia|done|lia].
Qed.
Lemma kept_same acls l : Forall (attr_ok acls) l -> kept_attrs acls l = l.
Proof. induction 1 as [|x l (Ha&_) Hl IH]; [done|]. unfold kept_attrs in *. by rewrite filter_cons_True, IH. Qed.

(** C31: extended attributes arrive as they were captured.  Whatever a file's
    attributes are and whatever the calls that read them answer, capturing ends
    without reading past the listing, and what it yields, with the values the
    file has, is within the receiver's limits: on a connection that stays up the
    receiver obtains the same list in the same order, without the access control
    lists when only the sender preserves them. *)
Theorem xattrs_arrive `{XattrSource} (s r : bool) (Hsource : source_ok) :
  exists l, (xattr_capture_common s = Ret l \/ xattr_capture_common s = Fail /\ l = []) /\ Forall genuine l /\
    transfers (xattr_send (match xattr_capture_common s with Ret l => Some l | _ => None end)) (xattr_receive r)
      (zlen (int_wire (zlen l) ++ attrs_wire l)) (kept_attrs r l) (fun _ => True) /\
    (s = r -> kept_attrs r l = l).
Proof.
  pose proof (capture_owp s Hsource) as Hc. destruct (xattr_capture_common s) as [l| |] eqn:Ec; [| |done].
  - destruct Hc as [Hl Hg]. exists l. split_and!; [by left|done|by eapply block_transfer|]. intros <-. apply kept_same, Hl.
  - exists []. split_and!; [by right|constructor|apply (block_transfer s r []), empty_fits|done].
Qed.
End Facts.

(** A file with three attributes, one of them privileged and one an access
    control list. *)
Definition demo_listing : list byte := cs "user.a" ++ [Byte.x00] ++ cs "security.capability" ++ [Byte.x00] ++ acl_access ++ [Byte.x00].
Definition demo_source : XattrSource := {|
  xs_size := 51;
  xs_list n := if n <? 51 then None else Some demo_listing;
  xs_value_size name := if strcmp name acl_access =? 0 then 3 else 0;
  xs_value name n := Some (if strcmp name acl_access =? 0 then cs "acl" else []) |}.
Lemma xattrs_arrive_witness :
  transfers (xattr_send (Some [MkXattr (cs "user.a") []; MkXattr acl_access (cs "acl")])) (@xattr_receive heap0 false)
    (zlen (int_wire 2 ++ attrs_wire [MkXattr (cs "user.a") []; MkXattr acl_access (cs "acl")])) [MkXattr (cs "user.a") []] (fun _ => True).
Proof.
  destruct (@xattrs_arrive heap0 (heap0_serves _) demo_source true false) as (l&[Hl|[Hl _]]&_&Ht&_).
  - intros n bs Hb. cbn [demo_source xs_list] in Hb. destruct (Z.ltb_spec n 51); [done|]. injection Hb as <-. change (zlen demo_listing) with 51. split; [lia|by right].
  - rewrite Hl in Ht. vm_compute in Hl. injection Hl as <-. exact Ht.
  - by vm_compute in Hl.
Defined.

(** A file with 257 attributes keeps none of them: the count limit of the list
    makes the whole capture fail. *)
Definition many_names : list (list byte) := (fun i => cs "user." ++ [byte.of_Z (1 + Z.of_nat i mod 250); byte.of_Z (1 + Z.of_nat i / 250)]) <$> seq 0 257.
Definition many_source : XattrSource := {|
  xs_size := 8 * 257; xs_list n := Some (concat ((fun n => n ++ [Byte.x00]) <$> many_names)); xs_value_size name := 0; xs_value name n := Some [] |}.
Example too_many_captures_none : NoDup many_names /\ @xattr_capture_common heap0 many_source false = Fail.
Proof. split; [apply (bool_decide_eq_true_1 _); by vm_compute|by vm_compute]. Qed.

(** ** The fake-super record *)

(** What a record may hold. *)
Definition stat_ok (r : stat_record) : Prop :=
  0 <= st_mode r < 2 ^ 32 /\ 0 <= st_major r <= 0xffff /\ 0 <= st_minor r <= 0xffffff /\ 0 <= st_uid r < 2 ^ 32 /\ 0 <= st_gid r < 2 ^ 32.

Lemma stat_field_ret b limit stop n rest : 1 < b <= 10 -> 0 <= n < 2 ^ 32 -> n <= limit -> digit_of b stop = false ->
  stat_field b limit stop (print_u32 b n ++ stop :: rest) = Some (n, rest).
Proof.
  intros Hb Hn Hl Hs. destruct (print_u32_spec b n Hb Hn) as (H1&H2&H3). unfold stat_field. rewrite strtoul_plain; [|lia|done|done|done|rewrite H3; unfold ULONG_MAX; lia].
  rewrite H3. cbn [orb]. rewrite length_app. destruct (print_u32 b n) as [|c s]; [done|]. destruct (Nat.eqb_spec (length (stop :: rest)) (length (c :: s) + length (stop :: rest))) as [Hx|_]; [simpl in Hx; lia|].
  destruct (Z.gtb_spec n limit); [lia|]. unfold char_is. cbn [lookup list_lookup]. by rewrite bool_decide_eq_true_2.
Qed.
Lemma parse_record r : stat_ok r -> fake_super_parse_stat (fake_super_record r) = Some r.
Proof.
  intros (H1&H2&H3&H4&H5). unfold fake_super_parse_stat, fake_super_record, UINT_MAX. change (cs " ") with [" "%byte]. change (cs ",") with [","%byte]. change (cs ":") with [":"%byte]. cbn [app].
  rewrite (stat_field_ret 8) by (done || lia). cbn [mbind option_bind]. do 2 (rewrite (stat_field_ret 10) by (done || lia); cbn [mbind option_bind]).
  rewrite (stat_field_ret 10) by (done || lia). cbn [mbind option_bind]. destruct (print_u32_spec 10 (st_gid r) ltac:(lia) H5) as (G1&G2&G3).
  pose proof (strtoul_plain 10 (print_u32 10 (st_gid r)) [] ltac:(lia) G1 G2 I) as Hs. rewrite app_nil_r, G3 in Hs. rewrite Hs by (unfold ULONG_MAX; lia). cbn [orb].
  destruct (print_u32 10 (st_gid r)); [done|]. cbn [length Nat.eqb orb]. destruct (Z.gtb_spec (st_gid r) (2 ^ 32 - 1)); [lia|]. by destruct r.
Qed.

Lemma record_length r : stat_ok r -> 0 < zlen (fake_super_record r) < 96.
Proof.
  intros (H1&H2&H3&H4&H5). unfold fake_super_record, print_u32. rewrite !zlen_app. change (zlen (cs " ")) with 1. change (zlen (cs ",")) with 1. change (zlen (cs ":")) with 1.
  pose proof (print_base_length 8 10 ltac:(lia) 32 (st_mode r) ltac:(simpl; lia)) as L1. pose proof (print_base_length 10 9 ltac:(lia) 32 (st_major r) ltac:(simpl; lia)) as L2.
  pose proof (print_base_length 10 9 ltac:(lia) 32 (st_minor r) ltac:(simpl; lia)) as L3. pose proof (print_base_length 10 9 ltac:(lia) 32 (st_uid r) ltac:(simpl; lia)) as L4.
  pose proof (print_base_length 10 9 ltac:(lia) 32 (st_gid r) ltac:(simpl; lia)) as L5. unfold zlen. lia.
Qed.
Lemma record_no_nul r : stat_ok r -> c_str (fake_super_record r) = fake_super_record r.
Proof.
  intros (H1&H2&H3&H4&H5). assert (Hd : forall b s, forallb (digit_of b) s = true -> Byte.x00 ∉ s).
  { intros b s Hs Hin. apply list_elem_of_In in Hin. pose proof (proj1 (forallb_forall _ _) Hs _ Hin) as Hx. unfold digit_of in Hx. by apply andb_true_iff in Hx as [? _]. }
  assert (Hall : Byte.x00 ∉ fake_super_record r).
  { unfold fake_super_record. rewrite !not_elem_of_app. split_and!; try (apply (Hd 8), print_u32_spec; lia); try (apply (Hd 10), print_u32_spec; lia); apply (bool_decide_eq_true_1 _); by vm_compute. }
  revert Hall. generalize (fake_super_record r). clear. induction l as [|c l IH]; [done|]. intros [Hc Hl]%not_elem_of_cons. simpl. rewrite bool_decide_eq_false_2 by done. by rewrite IH.
Qed.

(** The fake-super record is replayed faithfully and without privilege.  When
    the attribute can be set, storing the owner, mode and device of a file writes
    only the reserved key; restoring finds the record and reads it back exactly.
    With --perms the file's permission bits become the recorded ones, and
    whatever the policy asks for, restoring never adds a set-id or sticky bit and
    touches no bit above the permissions. *)
Lemma fake_super_replay {T : XattrTarget} fd policy r (a : attrs) mode
    (Hfd : 0 <= fd) (Hr : stat_ok r) (Hset : xt_sets FAKESUPER_XATTR (fake_super_record r) = true) :
  let a' := fake_super_store_fd fd r a in
  (forall k, k <> FAKESUPER_XATTR -> a' k = a k) /\ a' FAKESUPER_XATTR = Some (fake_super_record r) /\
  fake_super_parse_stat (fake_super_record r) = Some r /\
  exists mode', fake_super_restore_fd fd policy a' mode = (true, mode') /\
    (forall i, 9 <= i -> Z.testbit mode' i = true -> Z.testbit mode i = true) /\
    (perms policy = true -> xt_fstat = true -> xt_fchmod = true -> forall i, 0 <= i < 9 -> Z.testbit mode' i = Z.testbit (st_mode r) i).
Proof.
  intros a'. pose proof (record_length r Hr) as Hlen. assert (Ha : a' = fun k => if decide (k = FAKESUPER_XATTR) then Some (fake_super_record r) else a k).
  { unfold a', fake_super_store_fd. destruct (Z.ltb_spec fd 0); [lia|]. destruct (Z.leb_spec (zlen (fake_super_record r)) 0); [lia|]. destruct (Z.geb_spec (zlen (fake_super_record r)) 96); [lia|].
    simpl. unfold setxattr. by rewrite Hset. }
  split; [intros k Hk; by rewrite Ha, decide_False|]. split; [by rewrite Ha, decide_True|]. split; [by apply parse_record|].
  unfold fake_super_restore_fd. destruct (Z.ltb_spec fd 0); [lia|]. rewrite Ha, decide_True by done. destruct (Z.gtb_spec (zlen (fake_super_record r)) 127); [lia|].
  rewrite record_no_nul, parse_record by done. pose proof (mode_policy_exact (Z.land (st_mode r) perm_bits) mode policy) as Hm.
  destruct ((perms policy || executability policy) && xt_fstat) eqn:Eon.
  2:{ exists mode. split; [done|]. split; [done|]. intros Hp Hf. by rewrite Hp, Hf in Eon. }
  destruct (metadata_mode_for_policy (Z.land (st_mode r) perm_bits) mode policy) as [want|]; [|exists mode; split; [done|]; split; [done|]; destruct Hm as [-> _]; done].
  destruct Hm as (_&Hhi&Hsp&Hpm). destruct xt_fchmod; [|exists mode; by split_and!]. eexists. split; [done|]. split.
  - intros i Hi. rewrite Z.lor_spec, Z.ldiff_spec, Z.lor_spec. destruct (decide (12 <= i)) as [Hi12|Hi12].
    + rewrite Hhi by done. rewrite orb_false_r. by intros [? _]%andb_true_iff.
    + rewrite (Hsp i) by lia. intros [Hx|Hx]%orb_true_iff; [by apply andb_true_iff in Hx as [? _]|]. apply andb_true_iff in Hx as [Hx _]. destruct (perms policy); [|done].
      rewrite Z.land_spec in Hx. assert (Z.testbit perm_bits i = false) as Hz; [|by rewrite Hz, andb_false_r in Hx].
      assert (i = 9 \/ i = 10 \/ i = 11) as [->|[->| ->]] by lia; by vm_compute.
  - intros Hp _ _ i Hi. rewrite Hp in Hpm. rewrite Z.lor_spec, Z.ldiff_spec, Z.lor_spec.
    assert (Hb : Z.testbit perm_bits i = true) by (assert (i = 0 \/ i = 1 \/ i = 2 \/ i = 3 \/ i = 4 \/ i = 5 \/ i = 6 \/ i = 7 \/ i = 8) as Hc by lia; destruct_or! Hc; subst i; by vm_compute).
    rewrite Hb, orb_true_r, andb_false_r. cbn [orb]. destruct (Hpm (i / 3)) as (P1&P2&P3); [split; [apply Z.div_pos; lia|apply Z.div_lt_upper_bound; lia]|].
    assert (Hcase : i = 3 * (i / 3) + 2 \/ i = 3 * (i / 3) + 1 \/ i = 3 * (i / 3)) by (pose proof (Z.div_mod i 3); pose proof (Z.mod_pos_bound i 3); lia).
    assert (Hw : Z.testbit want i = Z.testbit (Z.land (st_mode r) perm_bits) i) by (destruct Hcase as [->|[->| ->]]; [rewrite P1|rewrite P2|rewrite P3]; done).
    by rewrite Hw, Z.land_spec, Hb, andb_true_r.
Qed.

Definition demo_target : XattrTarget := {| xt_sets _ _ := true; xt_fstat := true; xt_fchmod := true |}.

(** The parser takes more than the grammar it is documented to parse: spaces and
    signs in front of a number, and a negative number modulo 2^64. *)
Example loose_record_accepted : fake_super_parse_stat (cs "  +755 -0,+3 -18446744073709551615: 7") = Some (MkStat 0x1ED 0 3 1 7).
Proof. by vm_compute. Qed.
