(* ===== verification/Credentials.v ===== *)
(** Daemon credentials: src/shared/credentials.c.  Base64, the keys and proofs of
    the challenge-response, the strict credential store, and the lookup of a
    verifier.  OpenSSL and the file system are parameters, and so is the dummy key,
    whose sidecar is in DummyKey; waiting for a pipe and wiping memory are not
    modelled. *)

From stdpp Require Import list.
From S2P Require Import Prelude Alloc CStr Paths Names Libc.

(** credentials.h *)
Definition CREDENTIAL_MAX_LINE : Z := 4096.
Definition CREDENTIAL_MAX_PASSWORD_LEN : Z := 1024.
Definition CREDENTIAL_SALT_LEN : Z := 16.
Definition CREDENTIAL_NONCE_LEN : Z := 32.
Definition CREDENTIAL_KEY_LEN : Z := 32.
Definition CREDENTIAL_DEFAULT_ITERS : Z := 600000.
Definition CREDENTIAL_MIN_ITERS : Z := 100000.
Definition CREDENTIAL_MAX_ITERS : Z := 10000000.
Definition CREDENTIAL_AUTH_MESSAGE_MAX : Z := 16 + 4 + CREDENTIAL_MAX_USER_LEN + 4 + CREDENTIAL_NONCE_LEN + 4 + CREDENTIAL_NONCE_LEN.
Definition CREDENTIAL_STORE_PREFIX : list byte := cs "$fastsync$1$pbkdf2-sha256$".
Definition CREDENTIAL_AUTH_PREFIX : list byte := cs "FastSync-Auth-v1".

(** What the code calls in OpenSSL: [PKCS5_PBKDF2_HMAC] (password, salt,
    iterations), HMAC and SHA-256, [EVP_EncodeBlock] and [EVP_DecodeBlock]; [None]
    is a failure. *)
Class Crypto := {
  evp_pbkdf2 : list byte -> list byte -> Z -> option (list byte);
  evp_hmac : list byte -> list byte -> option (list byte);
  evp_sha256 : list byte -> option (list byte);
  evp_encode : list byte -> list byte;
  evp_decode : list byte -> option (list byte);
}.

Section Keys.
Context {C : Crypto}.

(** credentials.c [credentials_b64_encode], [credentials_b64_decode]: the output
    written to a buffer of [out_sz] bytes *)
Definition credentials_b64_encode (input : list byte) (out_sz : Z) : option (list byte) :=
  let encoded_len := 4 * ((zlen input + 2) / 3) in
  if (zlen input >? INT_MAX) || (out_sz <? encoded_len + 1) then None
  else let out := evp_encode input in if zlen out =? encoded_len then Some out else None.
Definition credentials_b64_decode (input : list byte) (out_sz : Z) : option (list byte) :=
  let len := zlen input in
  if (len =? 0) || negb (len mod 4 =? 0) || (len >? 256) then None
  else
    let padded_len := len / 4 * 3 in
    let decoded_len := padded_len - (if char_is input (length input - 1) "=" then 1 else 0) - (if (len >=? 2) && char_is input (length input - 2) "=" then 1 else 0) in
    if decoded_len >? out_sz then None
    else
      scratch ← evp_decode input;
      if zlen scratch =? padded_len then Some (take (Z.to_nat decoded_len) scratch) else None.

(** credentials.c [hmac_sha256], [sha256] *)
Definition hmac_sha256 (key data : list byte) : option (list byte) := out ← evp_hmac key data; if zlen out =? CREDENTIAL_KEY_LEN then Some out else None.
Definition sha256 (data : list byte) : option (list byte) := out ← evp_sha256 data; if zlen out =? CREDENTIAL_KEY_LEN then Some out else None.

(** credentials.c [credentials_compute_keys]: client key, stored key, server key *)
Definition credentials_compute_keys (password salt : list byte) (iters : Z) : option (list byte * list byte * list byte) :=
  if (iters <? CREDENTIAL_MIN_ITERS) || (iters >? CREDENTIAL_MAX_ITERS) then None
  else if (zlen password >? CREDENTIAL_MAX_PASSWORD_LEN) || (zlen password >? INT_MAX) then None
  else
    k ← evp_pbkdf2 password salt iters;
    client_key ← hmac_sha256 k (cs "Client Key");
    server_key ← hmac_sha256 k (cs "Server Key");
    stored_key ← sha256 client_key;
    Some (client_key, stored_key, server_key).

(** credentials.c [write_be32], [credentials_build_auth_message] *)
Definition write_be32 (value : Z) : list byte := (fun k => byte.of_Z (Z.shiftr value k)) <$> [24; 16; 8; 0].
Definition credentials_build_auth_message (user snonce cnonce : list byte) (out_sz : Z) : option (list byte) :=
  if zlen user >? CREDENTIAL_MAX_USER_LEN then None
  else if out_sz <? 16 + 4 + zlen user + 4 + CREDENTIAL_NONCE_LEN + 4 + CREDENTIAL_NONCE_LEN then None
  else Some (CREDENTIAL_AUTH_PREFIX ++ write_be32 (zlen user) ++ user ++ write_be32 CREDENTIAL_NONCE_LEN ++ snonce ++ write_be32 CREDENTIAL_NONCE_LEN ++ cnonce).

(** credentials.c [credentials_secure_equal], [username_secure_equal] *)
Definition credentials_secure_equal (a b : list byte) (len : nat) : bool :=
  fold_left (fun diff i => Z.lor diff (Z.lxor (bZ (nth i a Byte.x00)) (bZ (nth i b Byte.x00)))) (seq 0 len) 0 =? 0.
Definition username_secure_equal (a b : list byte) : bool :=
  if (zlen a >? CREDENTIAL_MAX_USER_LEN) || (zlen b >? CREDENTIAL_MAX_USER_LEN) then false
  else fold_left (fun diff i => Z.lor diff (Z.lxor (bZ (nth i a Byte.x00)) (bZ (nth i b Byte.x00)))) (seq 0 (Z.to_nat CREDENTIAL_MAX_USER_LEN)) (Z.lxor (zlen a) (zlen b)) =? 0.

(** credentials.c [credentials_client_proof], [credentials_verify_response] *)
Definition xor_bytes (a b : list byte) : list byte := zip_with (fun x y => byte.of_Z (Z.lxor (bZ x) (bZ y))) a b.
Definition credentials_client_proof (client_key stored_key server_key auth_msg : list byte) : option (list byte * list byte) :=
  client_sig ← hmac_sha256 stored_key auth_msg;
  server_sig ← hmac_sha256 server_key auth_msg;
  Some (xor_bytes client_key client_sig, server_sig).
Record CredentialVerifier := MkVerifier { v_salt : list byte; v_iters : Z; v_stored : list byte; v_server : list byte; v_found : bool }.
(** The decision, and the signature when it was computed *)
Definition credentials_verify_response (v : CredentialVerifier) (user snonce cnonce proof : list byte) : bool * option (list byte) :=
  match credentials_build_auth_message user snonce cnonce CREDENTIAL_AUTH_MESSAGE_MAX with
  | None => (false, None)
  | Some auth_msg =>
      match (client_sig ← hmac_sha256 (v_stored v) auth_msg;
             recovered ← sha256 (xor_bytes proof client_sig);
             server_sig ← hmac_sha256 (v_server v) auth_msg;
             Some (recovered, server_sig)) with
      | Some (recovered, server_sig) => (v_found v && credentials_secure_equal recovered (v_stored v) (Z.to_nat CREDENTIAL_KEY_LEN), Some server_sig)
      | None => (false, None)
      end
  end.

(** ** The store *)

(** credentials.c [CredentialEntry], [CredentialStore] *)
Record CredentialEntry := MkEntry { ce_user : list byte; ce_salt : list byte; ce_iters : Z; ce_stored : list byte; ce_server : list byte }.
Record CredentialStore := MkStore { st_entries : list CredentialEntry; st_capacity : Z; st_iters : Z; st_dummy_key : list byte }.
Definition set_entries (s : CredentialStore) e cap : CredentialStore := MkStore e cap (st_iters s) (st_dummy_key s).
Definition set_iters (s : CredentialStore) i : CredentialStore := MkStore (st_entries s) (st_capacity s) i (st_dummy_key s).
Definition set_dummy (s : CredentialStore) d : CredentialStore := MkStore (st_entries s) (st_capacity s) (st_iters s) d.

(** credentials.c [is_comment_char], [trim_space], [hex_value],
    [secret_is_legacy_hex], [is_fd_backed_path] *)
Definition is_comment_char (c : byte) : bool := bool_decide (c = "#"%byte) || bool_decide (c = ";"%byte).
Definition is_space_tab (c : byte) : bool := bool_decide (c = " "%byte) || bool_decide (c = Byte.x09).
Definition trim_space (s : list byte) : list byte := reverse (snd (span is_space_tab (reverse (snd (span is_space_tab s))))).
Definition hex_value (c : byte) : Z := if in_range 48 57 c then bZ c - 48 else if in_range 97 102 c then bZ c - 97 + 10 else -1.
Definition secret_is_legacy_hex (s : list byte) : bool := (zlen s =? 64) && forallb (fun c => negb (hex_value c <? 0)) s.
Definition fd_digits (prefix path : list byte) : bool :=
  let digits := drop (length prefix) path in negb (bool_decide (fst (span is_digit digits) = [])) && bool_decide (snd (span is_digit digits) = []).
Definition is_fd_backed_path (path : list byte) : bool :=
  if strncmp path (cs "/dev/fd/") 8 =? 0 then fd_digits (cs "/dev/fd/") path
  else if strncmp path (cs "/proc/self/fd/") 14 =? 0 then fd_digits (cs "/proc/self/fd/") path
  else false.

(** credentials.c [entries_equal], [append_entry], [find_user] *)
Definition entries_equal (a b : CredentialEntry) : bool :=
  (ce_iters a =? ce_iters b) && credentials_secure_equal (ce_salt a) (ce_salt b) (Z.to_nat CREDENTIAL_SALT_LEN) &&
  credentials_secure_equal (ce_stored a) (ce_stored b) (Z.to_nat CREDENTIAL_KEY_LEN) && credentials_secure_equal (ce_server a) (ce_server b) (Z.to_nat CREDENTIAL_KEY_LEN).
Definition sizeof_CredentialEntry : Z := 96.
Definition append_entry `{Heap} (s : CredentialStore) (e : CredentialEntry) : outcome CredentialStore :=
  let full := zlen (st_entries s) =? st_capacity s in
  let new_capacity := if st_capacity s =? 0 then 8 else st_capacity s * 2 in
  check (negb full || malloc_ok (new_capacity * sizeof_CredentialEntry));;
  user ← str_dup (Some (ce_user e));
  Ret (set_entries s (st_entries s ++ [MkEntry user (ce_salt e) (ce_iters e) (ce_stored e) (ce_server e)]) (if full then new_capacity else st_capacity s)).
Definition find_user (s : CredentialStore) (user : list byte) : option CredentialEntry := find (fun e => strcmp (ce_user e) user =? 0) (st_entries s).

(** credentials.c [parse_verifier_secret] *)
Definition decode_exact (s : list byte) (len : Z) : option (list byte) := out ← credentials_b64_decode s len; if zlen out =? len then Some out else None.
Definition parse_verifier_secret (secret user : list byte) : option CredentialEntry :=
  if secret_is_legacy_hex secret then None
  else if negb (strncmp secret CREDENTIAL_STORE_PREFIX (length CREDENTIAL_STORE_PREFIX) =? 0) then None
  else
    '(iters_str, rest) ← split_first "$" (drop (length CREDENTIAL_STORE_PREFIX) secret);
    '(salt_str, rest) ← split_first "$" rest;
    '(stored_str, server_str) ← split_first "$" rest;
    if at_end iters_str 0 || at_end salt_str 0 || at_end stored_str 0 || at_end server_str 0 then None
    else
      let '(parsed, _, end_) := strtoul 10 iters_str in
      if negb (at_end end_ 0) || (parsed <? CREDENTIAL_MIN_ITERS) || (parsed >? CREDENTIAL_MAX_ITERS) then None
      else
        salt ← decode_exact salt_str CREDENTIAL_SALT_LEN;
        stored_key ← decode_exact stored_str CREDENTIAL_KEY_LEN;
        server_key ← decode_exact server_str CREDENTIAL_KEY_LEN;
        Some (MkEntry user salt parsed stored_key server_key).
End Keys.

(** ** Secret files *)

(** What [open] and [fstat] tell of a path ([nofollow] or not), whether [fdopen]
    succeeds, and the bytes behind it, which are there without waiting. *)
Inductive file_kind := REG | FIFO | OTHER.
#[global] Instance file_kind_eq_dec : EqDecision file_kind.
Proof. solve_decision. Defined.
Record secret_file := MkSecret { sf_kind : file_kind; sf_uid : Z; sf_mode : Z; sf_fdopen : bool; sf_data : list byte }.
Class SecretFs := { sf_open : list byte -> bool -> option secret_file; sf_euid : Z }.

(** credentials.c [secret_file_open] *)
Definition group_other : Z := 0x3F.
Definition secret_file_open `{SecretFs} (path : list byte) : option (list byte) :=
  f ← sf_open path (negb (is_fd_backed_path path));
  if bool_decide (sf_kind f = OTHER) || negb (sf_uid f =? sf_euid) || negb (Z.land (sf_mode f) group_other =? 0) then None
  else if sf_fdopen f then Some (sf_data f) else None.

(** credentials.c [secret_read_line]: the line, or the end of the file, and what
    is left; a pass that stops without newline continues behind what it has *)
Fixpoint read_line_loop (fuel : nat) (cap : nat) (used fp : list byte) : outcome (option (list byte) * list byte * bool) :=
  match fuel with
  | O => Stuck
  | S fuel =>
      let '(got, rest, eof) := fgets (cap - length used - 1) fp in
      if bool_decide (got = []) then Ret (if bool_decide (used = []) then None else Some used, rest, eof)
      else
        let used := used ++ c_str got in
        if bool_decide (last used = Some Byte.x0a) || eof || (cap - 1 <=? length used)%nat then Ret (Some used, rest, eof)
        else read_line_loop fuel cap used rest
  end.
Definition LINE_CAP : nat := 4098.
Definition secret_read_line (fp : list byte) : outcome (option (list byte) * list byte * bool) := read_line_loop (S (length fp)) LINE_CAP [] fp.

(** The line without its end *)
Definition strip_end (c : byte) (s : list byte) : list byte := if bool_decide (last s = Some c) then take (length s - 1) s else s.
Definition chomp (s : list byte) : list byte := strip_end Byte.x0d (strip_end Byte.x0a s).
Definition over_long (line : list byte) (eof : bool) : bool := (zlen line =? CREDENTIAL_MAX_LINE + 1) && negb (bool_decide (last line = Some Byte.x0a)) && negb eof.
(** The text of a line, and its parts around the colon; [None] is a blank line or
    a comment *)
Definition meaningful (line : list byte) : option (list byte) :=
  let cursor := snd (span is_space_tab line) in
  match cursor with c :: _ => if is_comment_char c then None else Some cursor | [] => None end.

Section Load.
Context `{HH : Heap} {C : Crypto} `{SecretFs}.

(** credentials.c [load_store_file]: one line, the loop, the file *)
Definition load_store_line (s : CredentialStore) (line : list byte) : outcome CredentialStore :=
  match meaningful (chomp line) with
  | None => Ret s
  | Some cursor =>
      '(lhs, rhs) ← of_option (split_first ":" cursor);
      let user := trim_space lhs in
      check (username_wellformed (Some user));;
      parsed ← of_option (parse_verifier_secret (trim_space rhs) user);
      check (bool_decide (st_entries s = []) || (st_iters s =? ce_iters parsed));;
      let s := if bool_decide (st_entries s = []) then set_iters s (ce_iters parsed) else s in
      check (bool_decide (find_user s user = None));;
      append_entry s parsed
  end.
Fixpoint load_loop (fuel : nat) (s : CredentialStore) (fp : list byte) : outcome CredentialStore :=
  match fuel with
  | O => Stuck
  | S fuel =>
      '(l, fp, eof) ← secret_read_line fp;
      match l with
      | None => Ret s
      | Some line => check (negb (over_long line eof));; s ← load_store_line s line; load_loop fuel s fp
      end
  end.
Definition sizeof_CredentialStore : Z := 56.
Definition empty_store : CredentialStore := MkStore [] 0 0 (replicate 32 Byte.x00).
Definition load_store_file (path : option (list byte)) : outcome CredentialStore :=
  check (malloc_ok sizeof_CredentialStore);;
  match path with
  | None => Ret empty_store
  | Some path => fp ← of_option (secret_file_open path); load_loop (S (length fp)) empty_store fp
  end.

(** credentials.c [credentials_load]; [dummy_key] stands for
    [load_or_create_dummy_key] *)
Fixpoint merge_loop (s : CredentialStore) (early : list CredentialEntry) : outcome CredentialStore :=
  match early with
  | [] => Ret s
  | e :: early =>
      match find_user s (ce_user e) with
      | Some x => check (entries_equal x e);; merge_loop s early
      | None => s ← append_entry s e; merge_loop s early
      end
  end.
Definition credentials_load (dummy_key : option (list byte) -> option (list byte)) (password_file early_input_file : option (list byte)) : outcome CredentialStore :=
  s ← load_store_file password_file;
  d ← of_option (dummy_key (match password_file with Some p => Some p | None => early_input_file end));
  let s := set_dummy s d in
  match early_input_file with
  | None => Ret s
  | Some early_path =>
      early ← load_store_file (Some early_path);
      check (bool_decide (st_entries s = []) || bool_decide (st_entries early = []) || (st_iters s =? st_iters early));;
      let s := if bool_decide (st_entries s = []) && negb (bool_decide (st_entries early = [])) then set_iters s (st_iters early) else s in
      merge_loop s (st_entries early)
  end.

(** credentials.c [credentials_store_has], [credentials_get_verifier] *)
Definition credentials_store_has (s : option CredentialStore) (user : list byte) : bool :=
  match s with Some s => bool_decide (is_Some (find_user s user)) | None => false end.
Definition dummy_stored_key : list byte := replicate 32 Byte.x00.
Definition credentials_get_verifier (s : option CredentialStore) (user : option (list byte)) (module_users : list (option (list byte))) : option CredentialVerifier :=
  let uname := default [] user in
  let iters := match s with Some s => if bool_decide (st_entries s = []) then CREDENTIAL_DEFAULT_ITERS else st_iters s | None => CREDENTIAL_DEFAULT_ITERS end in
  mac ← hmac_sha256 (match s with Some s => st_dummy_key s | None => dummy_stored_key end) uname;
  let on_list := fold_left (fun acc listed => acc || match listed, user with Some l, Some u => username_secure_equal l u | _, _ => false end) module_users false in
  let found := fold_left (fun acc e => match user with Some u => if username_secure_equal (ce_user e) u then Some e else acc | None => acc end)
                 (match s with Some s => st_entries s | None => [] end) None in
  Some (match on_list, found with
        | true, Some e => MkVerifier (ce_salt e) (ce_iters e) (ce_stored e) (ce_server e) true
        | _, _ => MkVerifier (take (Z.to_nat CREDENTIAL_SALT_LEN) mac) iters dummy_stored_key dummy_stored_key false
        end).

(** credentials.c [credentials_hash_store_line] with the random salt; the line
    is written to [out_sz] bytes *)
Definition credentials_hash_store_line (user password : list byte) (iters : Z) (random : option (list byte)) (out_sz : Z) : option (list byte) :=
  if negb (username_wellformed (Some user)) || (out_sz =? 0) || (zlen password >? CREDENTIAL_MAX_PASSWORD_LEN) then None
  else if (iters <? CREDENTIAL_MIN_ITERS) || (iters >? CREDENTIAL_MAX_ITERS) then None
  else
    salt ← random;
    '(_, stored_key, server_key) ← credentials_compute_keys password salt iters;
    salt_b64 ← credentials_b64_encode salt 25;
    stored_b64 ← credentials_b64_encode stored_key 45;
    server_b64 ← credentials_b64_encode server_key 45;
    let out := user ++ cs ":" ++ CREDENTIAL_STORE_PREFIX ++ print_u32 10 iters ++ cs "$" ++ salt_b64 ++ cs "$" ++ stored_b64 ++ cs "$" ++ server_b64 in
    if zlen out >=? out_sz then None else Some out.

(** credentials.c [credentials_hash_file]: the output, one line per entry;
    [random i] is the salt of the [i]-th *)
Fixpoint strip_ends (fuel : nat) (s : list byte) : list byte :=
  match fuel with
  | O => s
  | S fuel => if bool_decide (last s = Some Byte.x0a) || bool_decide (last s = Some Byte.x0d) then strip_ends fuel (take (length s - 1) s) else s
  end.
Definition hash_line (iters : Z) (random : option (list byte)) (line : list byte) : option (list byte) :=
  match meaningful (strip_ends (length line) line) with
  | None => Some []
  | Some cursor =>
      '(lhs, password) ← split_first ":" cursor;
      let user := trim_space lhs in
      if negb (username_wellformed (Some user)) || at_end password 0 then None
      else out ← credentials_hash_store_line user password iters random CREDENTIAL_MAX_LINE; Some (out ++ [Byte.x0a])
  end.
Fixpoint hash_loop (fuel : nat) (iters : Z) (random : nat -> option (list byte)) (i : nat) (fp out : list byte) : outcome (bool * list byte) :=
  match fuel with
  | O => Stuck
  | S fuel =>
      '(l, fp, eof) ← secret_read_line fp;
      match l with
      | None => Ret (true, out)
      | Some line =>
          if over_long line eof then Ret (false, out)
          else match hash_line iters (random i) line with None => Ret (false, out) | Some o => hash_loop fuel iters random (S i) fp (out ++ o) end
      end
  end.
Definition credentials_hash_file (path : list byte) (iters : Z) (random : nat -> option (list byte)) : outcome (bool * list byte) :=
  if (iters <? CREDENTIAL_MIN_ITERS) || (iters >? CREDENTIAL_MAX_ITERS) then Ret (false, [])
  else match secret_file_open path with None => Ret (false, []) | Some fp => hash_loop (S (length fp)) iters random 0 fp [] end.

(** credentials.c [credentials_read_secret_file]: the user and the password *)
Definition client_line (cursor : list byte) : outcome (list byte * list byte) :=
  '(lhs, password) ← of_option (split_first ":" cursor);
  let user := trim_space lhs in
  check (username_wellformed (Some user));;
  check (negb (at_end password 0));;
  check (negb (zlen password >? CREDENTIAL_MAX_PASSWORD_LEN));;
  user ← str_dup (Some user);
  password ← str_dup (Some password);
  Ret (user, password).
Fixpoint client_loop (fuel : nat) (fp : list byte) : outcome (list byte * list byte) :=
  match fuel with
  | O => Stuck
  | S fuel =>
      '(l, fp, eof) ← secret_read_line fp;
      match l with
      | None => Fail
      | Some line =>
          check (negb (over_long line eof));;
          match meaningful (chomp line) with None => client_loop fuel fp | Some cursor => client_line cursor end
      end
  end.
Definition credentials_read_secret_file (path : option (list byte)) : outcome (list byte * list byte) :=
  path ← of_option path;
  fp ← of_option (secret_file_open path);
  client_loop (S (length fp)) fp.
End Load.
