(* ===== verification/CredentialsSafe.v ===== *)
(** The credential store: comparison in constant time is equality, the loader
    keeps the invariant of the store whatever the files hold, and the challenge
    of a user that is not there has the shape of one that is. *)

From stdpp Require Import list.
From S2P Require Import Prelude Alloc CStr Paths Names Libc DataBuf Transport Session Wp Credentials.

(** ** Comparison *)

Lemma fold_diff_zero f l : forall d, fold_left (fun diff (i : nat) => Z.lor diff (f i)) l d = 0 <-> d = 0 /\ Forall (fun i => f i = 0) l.
Proof.
  induction l as [|i l IH]; intros d; [by cbn; rewrite Forall_nil; naive_solver|]. cbn [fold_left]. rewrite IH, Z.lor_eq_0_iff, Forall_cons. naive_solver.
Qed.
Lemma same_bytes (a b : list byte) n : length a = length b -> (length a <= n)%nat ->
  Forall (fun i => Z.lxor (bZ (nth i a Byte.x00)) (bZ (nth i b Byte.x00)) = 0) (seq 0 n) -> a = b.
Proof.
  intros Hl Hn Hf. apply (nth_ext a b Byte.x00 Byte.x00 Hl). intros i Hi. rewrite Forall_forall in Hf.
  apply bZ_inj, Z.lxor_eq_0_iff, Hf. apply elem_of_seq. lia.
Qed.
Lemma secure_equal_spec a b n : length a = n -> length b = n -> credentials_secure_equal a b n = true <-> a = b.
Proof.
  intros Ha Hb. unfold credentials_secure_equal. rewrite Z.eqb_eq, (fold_diff_zero (fun i => Z.lxor (bZ (nth i a Byte.x00)) (bZ (nth i b Byte.x00)))). split.
  - intros [_ Hf]. apply (same_bytes a b n); [congruence|lia|done].
  - intros ->. split; [done|]. apply Forall_forall. intros i _. apply Z.lxor_nilpotent.
Qed.
Lemma username_equal_spec a b : zlen b <= CREDENTIAL_MAX_USER_LEN -> username_secure_equal a b = true <-> a = b.
Proof.
  intros Hb. unfold username_secure_equal. destruct (Z.gtb_spec (zlen b) CREDENTIAL_MAX_USER_LEN); [lia|]. rewrite orb_false_r. split.
  - destruct (Z.gtb_spec (zlen a) CREDENTIAL_MAX_USER_LEN); [done|]. rewrite Z.eqb_eq, (fold_diff_zero (fun i => Z.lxor (bZ (nth i a Byte.x00)) (bZ (nth i b Byte.x00)))).
    intros [Hz Hf]. apply Z.lxor_eq in Hz. apply (same_bytes a b (Z.to_nat CREDENTIAL_MAX_USER_LEN)); [by apply Nat2Z.inj, Hz|unfold zlen, CREDENTIAL_MAX_USER_LEN in *; clear Hf; lia|done].
  - intros ->. destruct (Z.gtb_spec (zlen b) CREDENTIAL_MAX_USER_LEN); [lia|]. rewrite Z.eqb_eq, (fold_diff_zero (fun i => Z.lxor (bZ (nth i b Byte.x00)) (bZ (nth i b Byte.x00)))).
    split; [apply Z.lxor_nilpotent|]. apply Forall_forall. intros i _. apply Z.lxor_nilpotent.
Qed.
Lemma username_equal_eq a b : username_secure_equal a b = true -> a = b.
Proof.
  intros He. apply username_equal_spec; [|done]. unfold username_secure_equal in He. destruct (Z.gtb_spec (zlen b) CREDENTIAL_MAX_USER_LEN); [|done]. by rewrite orb_true_r in He.
Qed.
Lemma wellformed_length u : username_wellformed (Some u) = true -> u <> [] /\ zlen u <= CREDENTIAL_MAX_USER_LEN /\ Forall (fun c => 0x20 < bZ c /\ bZ c <> 0x7f) u.
Proof.
  unfold username_wellformed. destruct u as [|c u]; [done|]. intros [Hl%Z.leb_le Hf]%andb_true_iff. split_and!; [done|done|].
  rewrite forallb_forall in Hf. apply Forall_forall. intros x Hx. apply list_elem_of_In, Hf in Hx. rewrite negb_true_iff, orb_false_iff in Hx.
  destruct Hx as [?%Z.leb_gt ?%Z.eqb_neq]. done.
Qed.

(** ** The invariant of the store *)

Definition entry_ok (e : CredentialEntry) : Prop :=
  username_wellformed (Some (ce_user e)) = true /\ zlen (ce_salt e) = CREDENTIAL_SALT_LEN /\ zlen (ce_stored e) = CREDENTIAL_KEY_LEN /\
  zlen (ce_server e) = CREDENTIAL_KEY_LEN /\ CREDENTIAL_MIN_ITERS <= ce_iters e <= CREDENTIAL_MAX_ITERS.
Definition store_ok (s : CredentialStore) : Prop :=
  NoDup (ce_user <$> st_entries s) /\ Forall entry_ok (st_entries s) /\ Forall (fun e => ce_iters e = st_iters s) (st_entries s).

Lemma find_user_none s u : find_user s u = None <-> u ∉ ce_user <$> st_entries s.
Proof.
  unfold find_user. induction (st_entries s) as [|e l IH]; simpl; [split; [intros _; apply not_elem_of_nil|done]|].
  destruct (Z.eqb_spec (strcmp (ce_user e) u) 0) as [He%strcmp_eq|He]; [|rewrite IH, not_elem_of_cons, strcmp_eq in *; naive_solver].
  split; [done|]. intros Hn. subst u. destruct Hn. apply list_elem_of_here.
Qed.
Lemma find_user_some s u e : find_user s u = Some e -> e ∈ st_entries s /\ ce_user e = u.
Proof. intros Hf. apply find_some in Hf as [Hin He%Z.eqb_eq%strcmp_eq]. by rewrite list_elem_of_In. Qed.

Section Store.
Context `{HH : Heap} {C : Crypto} `{SecretFs}.

Lemma decode_exact_length s n out : decode_exact s n = Some out -> zlen out = n.
Proof. unfold decode_exact. destruct (credentials_b64_decode s n) as [o|]; simpl; [|done]. destruct (Z.eqb_spec (zlen o) n); [|done]. by intros [= <-]. Qed.
Lemma parse_verifier_ok secret user e : username_wellformed (Some user) = true -> parse_verifier_secret secret user = Some e -> entry_ok e /\ ce_user e = user.
Proof.
  intros Hu. unfold parse_verifier_secret. destruct (secret_is_legacy_hex secret); [done|]. destruct (negb _); [done|].
  destruct (split_first "$" _) as [[iters_str r1]|]; simpl; [|done]. destruct (split_first "$" r1) as [[salt_str r2]|]; simpl; [|done].
  destruct (split_first "$" r2) as [[stored_str server_str]|]; simpl; [|done]. destruct (_ || _ || _ || _); [done|]. destruct (strtoul 10 iters_str) as [[parsed er] end_].
  destruct (negb (at_end end_ 0) || _ || _) eqn:Eb; [done|]. rewrite !orb_false_iff in Eb. destruct Eb as [[_ Hlo%Z.ltb_ge] Hhi].
  destruct (decode_exact salt_str _) as [salt|] eqn:E1; simpl; [|done]. destruct (decode_exact stored_str _) as [stored|] eqn:E2; simpl; [|done].
  destruct (decode_exact server_str _) as [server|] eqn:E3; simpl; [|done]. intros [= <-]. apply decode_exact_length in E1, E2, E3.
  destruct (Z.gtb_spec parsed CREDENTIAL_MAX_ITERS); [done|]. by split_and!.
Qed.

Lemma append_entry_owp s e : store_ok s -> entry_ok e -> ce_iters e = st_iters s -> ce_user e ∉ ce_user <$> st_entries s ->
  owp (append_entry s e) (fun s' => st_entries s' = st_entries s ++ [e] /\ st_iters s' = st_iters s /\ st_dummy_key s' = st_dummy_key s /\ store_ok s').
Proof.
  intros (Hn&Hf&Hi) He Hit Hu. unfold append_entry. wp_check Ec. unfold str_dup. cbn [of_option mbind outcome_bind]. apply owp_bind. wp_check Em. apply owp_ret. apply owp_ret.
  destruct e as [u sl it st sv]. simpl in *. split_and!; [done|done|done|]. split_and!; simpl.
  - rewrite fmap_app, NoDup_app. split_and!; [done| |simpl; apply NoDup_singleton]. intros x Hx. simpl. rewrite list_elem_of_singleton. by intros ->.
  - by apply Forall_app_2; [|constructor].
  - by apply Forall_app_2; [|constructor].
Qed.
Lemma store_ok_iters s i : st_entries s = [] \/ i = st_iters s -> store_ok s -> store_ok (set_iters s i).
Proof. intros Hc (Hn&Hf&Hi). split_and!; simpl; [done|done|]. destruct Hc as [->| ->]; [constructor|done]. Qed.

Lemma store_line_owp s line : store_ok s -> owp (load_store_line s line) store_ok.
Proof.
  intros Hs. unfold load_store_line. destruct (meaningful _) as [cursor|]; [|done]. apply owp_bind. destruct (split_first ":" cursor) as [[lhs rhs]|]; simpl; [|done].
  wp_check Eu. apply owp_bind. destruct (parse_verifier_secret _ _) as [e|] eqn:Ep; simpl; [|done]. apply parse_verifier_ok in Ep as [He Hue]; [|done]. wp_check Ei. wp_check Ef.
  apply bool_decide_eq_true in Ef. rewrite find_user_none in Ef.
  assert (Hs' : store_ok (if bool_decide (st_entries s = []) then set_iters s (ce_iters e) else s) /\ st_iters (if bool_decide (st_entries s = []) then set_iters s (ce_iters e) else s) = ce_iters e).
  { case_bool_decide; simpl in *; [split; [apply store_ok_iters; auto|done]|]. split; [done|]. by apply Z.eqb_eq. }
  destruct Hs' as [Hs' Hit]. eapply owp_mono; [apply append_entry_owp; [done|done|done|by rewrite Hue]|]. by intros s' (_&_&_&?).
Qed.

(** Reading a line takes bytes, or meets the end of the file. *)
Lemma read_line_loop_owp fuel cap : (1 < cap)%nat -> forall used fp, (length fp < fuel)%nat -> (length used < cap - 1)%nat ->
  owp (read_line_loop fuel cap used fp) (fun '(l, rest, eof) => (length rest <= length fp)%nat /\ (l <> None -> used <> [] \/ (length rest < length fp)%nat)).
Proof.
  intros Hcap. induction fuel as [|fuel IH]; intros used fp Hf Hu; [lia|]. cbn [read_line_loop]. destruct (fgets (cap - length used - 1) fp) as [[got rest] eof] eqn:Eg.
  apply fgets_spec in Eg as (->&Hgl&Hne). rewrite length_app in *. case_bool_decide as Hg.
  { subst got. simpl. split; [done|]. intros Hl. left. by case_bool_decide. }
  assert (length got <> 0)%nat by (by destruct got). destruct (_ || _ || _) eqn:Eb; [unfold owp; rewrite length_app; split; [lia|intros _; right; lia]|].
  rewrite !orb_false_iff in Eb. destruct Eb as [_ Eb%Nat.leb_gt]. eapply owp_mono; [apply IH; [lia|rewrite length_app; done]|]. intros [[l r] e] [H1 H2]. rewrite length_app. split; [lia|]. intros Hl. right. lia.
Qed.
Lemma read_line_owp fp : owp (secret_read_line fp) (fun '(l, rest, eof) => (length rest <= length fp)%nat /\ (l <> None -> (length rest < length fp)%nat)).
Proof.
  unfold secret_read_line. eapply owp_mono; [apply read_line_loop_owp; [apply (Nat.ltb_lt 1 LINE_CAP); by vm_compute|lia|apply (Nat.ltb_lt 0 (LINE_CAP - 1)); by vm_compute]|]. intros [[l r] e] [H1 H2]. split; [done|]. intros Hl. by destruct (H2 Hl).
Qed.
Lemma load_loop_owp fuel : forall s fp, (length fp < fuel)%nat -> store_ok s -> owp (load_loop fuel s fp) store_ok.
Proof.
  induction fuel as [|fuel IH]; intros s fp Hf Hs; [lia|]. cbn [load_loop]. apply owp_bind. eapply owp_mono; [apply read_line_owp|]. intros [[l rest] eof] [H1 H2].
  destruct l as [line|]; [|done]. specialize (H2 ltac:(done)). wp_check Eo. apply owp_bind. eapply owp_mono; [by apply store_line_owp|]. intros s' Hs'. apply IH; [lia|done].
Qed.
Lemma empty_store_ok : store_ok empty_store.
Proof. split_and!; constructor. Qed.
Lemma load_store_owp path : owp (load_store_file path) store_ok.
Proof.
  unfold load_store_file. wp_check Em. destruct path as [path|]; [|apply empty_store_ok]. apply owp_bind. destruct (secret_file_open path) as [fp|]; [|done].
  apply (load_loop_owp (S (length fp))); [lia|apply empty_store_ok].
Qed.
Lemma merge_owp l : forall s, store_ok s -> Forall entry_ok l -> Forall (fun e => ce_iters e = st_iters s) l -> owp (merge_loop s l) store_ok.
Proof.
  induction l as [|e l IH]; intros s Hs Hl Hi; cbn [merge_loop]; [done|]. apply Forall_cons in Hl as [He Hl]. apply Forall_cons in Hi as [Hie Hi].
  destruct (find_user s (ce_user e)) as [x|] eqn:Ef; [wp_check Ee; by apply IH|]. apply find_user_none in Ef. apply owp_bind. eapply owp_mono; [by apply append_entry_owp|].
  intros s' (_&Hit&_&Hs'). apply IH; [done|done|by rewrite Hit].
Qed.
Lemma load_owp dummy_key p e : owp (credentials_load dummy_key p e) store_ok.
Proof.
  unfold credentials_load. apply owp_bind. eapply owp_mono; [apply load_store_owp|]. intros s Hs. apply owp_bind. destruct (dummy_key _) as [d|]; simpl; [|done].
  destruct e as [early_path|]; [|done]. apply owp_bind. eapply owp_mono; [apply load_store_owp|]. intros early (_&Hef&Hei). wp_check Ec.
  destruct (st_entries early) as [|x k] eqn:Ee; [cbn [merge_loop]; rewrite andb_false_r; done|]. cbn [bool_decide negb orb andb] in *. rewrite andb_true_r.
  case_bool_decide as Hsn; cbn [orb] in Ec; apply merge_owp; simpl; try done.
  - by apply (store_ok_iters (set_dummy s d)); [left|].
  - apply Z.eqb_eq in Ec. by rewrite Ec.
Qed.

(** ** The verifier of a user *)

Lemma on_list_spec (users : list (option (list byte))) u : zlen u <= CREDENTIAL_MAX_USER_LEN ->
  fold_left (fun acc listed => acc || match listed, Some u with Some l, Some u => username_secure_equal l u | _, _ => false end) users false = true <-> Some u ∈ users.
Proof.
  intros Hu. enough (Hg : forall b, fold_left (fun acc listed => acc || match listed with Some l => username_secure_equal l u | None => false end) users b = true <-> b = true \/ Some u ∈ users).
  { rewrite Hg. naive_solver. }
  induction users as [|x users IH]; intros b; cbn [fold_left]; [rewrite elem_of_nil; naive_solver|]. rewrite IH, elem_of_cons, orb_true_iff. destruct x as [l|]; [|naive_solver].
  rewrite username_equal_spec by done. naive_solver.
Qed.
Definition scan_entries (u : list byte) (l : list CredentialEntry) (acc : option CredentialEntry) : option CredentialEntry :=
  fold_left (fun acc e => if username_secure_equal (ce_user e) u then Some e else acc) l acc.
Lemma scan_entries_spec u l : forall acc, match scan_entries u l acc with
  | Some e => acc = Some e \/ (e ∈ l /\ ce_user e = u)
  | None => acc = None /\ (zlen u <= CREDENTIAL_MAX_USER_LEN -> u ∉ ce_user <$> l)
  end.
Proof.
  induction l as [|e l IH]; intros acc; cbn [scan_entries fold_left]; [destruct acc; [by left|]; split; [done|]; intros _; apply not_elem_of_nil|].
  fold (scan_entries u l (if username_secure_equal (ce_user e) u then Some e else acc)).
  specialize (IH (if username_secure_equal (ce_user e) u then Some e else acc)). destruct (scan_entries u l _) as [x|].
  - destruct IH as [IH|[Hx Hu]]; [|right; split; [by right|done]]. destruct (username_secure_equal (ce_user e) u) eqn:Ee; [|by left].
    injection IH as <-. right. split; [left|by apply username_equal_eq].
  - destruct IH as [IH Hn]. destruct (username_secure_equal (ce_user e) u) eqn:Ee; [done|]. split; [done|]. intros Hu. cbn [fmap list_fmap]. rewrite not_elem_of_cons. split; [|by apply Hn].
    intros ->. rewrite (proj2 (username_equal_spec (ce_user e) (ce_user e) Hu) eq_refl) in Ee. done.
Qed.
Definition challenge_iters (s : CredentialStore) : Z := if bool_decide (st_entries s = []) then CREDENTIAL_DEFAULT_ITERS else st_iters s.
(** The verifier is that of [u]. *)
Definition verifier_of (v : CredentialVerifier) (e : CredentialEntry) : Prop :=
  v_salt v = ce_salt e /\ v_iters v = ce_iters e /\ v_stored v = ce_stored e /\ v_server v = ce_server e.
Lemma get_verifier_spec s user users v : store_ok s -> credentials_get_verifier (Some s) user users = Some v ->
  v_iters v = challenge_iters s /\ zlen (v_salt v) = CREDENTIAL_SALT_LEN /\ zlen (v_stored v) = CREDENTIAL_KEY_LEN /\ zlen (v_server v) = CREDENTIAL_KEY_LEN /\
  (if v_found v then exists u e, user = Some u /\ Some u ∈ users /\ e ∈ st_entries s /\ ce_user e = u /\ verifier_of v e
   else forall u, user = Some u -> zlen u <= CREDENTIAL_MAX_USER_LEN -> Some u ∉ users \/ u ∉ ce_user <$> st_entries s).
Proof.
  intros (Hnd&Hf&Hi). unfold credentials_get_verifier. destruct (hmac_sha256 _ _) as [mac|] eqn:Em; cbn [mbind option_bind]; [|done].
  assert (Hmac : zlen (take (Z.to_nat CREDENTIAL_SALT_LEN) mac) = CREDENTIAL_SALT_LEN).
  { unfold hmac_sha256 in Em. destruct (evp_hmac _ _) as [o|]; simpl in Em; [|done]. destruct (Z.eqb_spec (zlen o) CREDENTIAL_KEY_LEN) as [Hl|]; [|done].
    injection Em as <-. unfold zlen, CREDENTIAL_KEY_LEN, CREDENTIAL_SALT_LEN in *. rewrite length_take. lia. }
  assert (Hmiss : forall k, zlen k = CREDENTIAL_SALT_LEN -> let w := MkVerifier k (challenge_iters s) dummy_stored_key dummy_stored_key false in
    v_iters w = challenge_iters s /\ zlen (v_salt w) = CREDENTIAL_SALT_LEN /\ zlen (v_stored w) = CREDENTIAL_KEY_LEN /\ zlen (v_server w) = CREDENTIAL_KEY_LEN) by (by intros k Hk).
  specialize (Hmiss _ Hmac). cbv zeta in Hmiss. fold (challenge_iters s). destruct user as [u|].
  - fold (scan_entries u (st_entries s) None). pose proof (scan_entries_spec u (st_entries s) None) as Hscan.
    destruct (fold_left _ users false) eqn:Eon; [destruct (scan_entries u (st_entries s) None) as [e|] eqn:Esc|]; intros [= <-].
    + destruct Hscan as [|[He Hu]]; [done|]. pose proof (proj1 (Forall_forall _ _) Hf e He) as (Hwf&H1&H2&H3&_). apply wellformed_length in Hwf as (_&Hlen&_). rewrite Hu in Hlen.
      rewrite on_list_spec in Eon by done. cbn. split_and!; [|done|done|done|by exists u, e].
      unfold challenge_iters. rewrite bool_decide_eq_false_2 by (intros Hn; rewrite Hn in He; by apply elem_of_nil in He). exact (proj1 (Forall_forall _ _) Hi e He).
    + destruct Hscan as [_ Hscan]. split_and!; [apply Hmiss..|]. cbn. intros ? [= <-] Hl. right. by apply Hscan.
    + split_and!; [apply Hmiss..|]. cbn. intros ? [= <-] Hl. left. rewrite <- on_list_spec by done. by rewrite Eon.
  - assert (forall l : list CredentialEntry, fold_left (fun acc e => acc) l (@None CredentialEntry) = None) as -> by (induction l; done).
    intros [= <-]. destruct (fold_left _ users false); (split_and!; [apply Hmiss..|done]).
Qed.

(** C19: the credential store is unambiguous and does not betray its users.  For
    any password file and early input, whatever bytes they hold, loading ends
    without misbehaving, and a store it accepts has distinct, well-formed user
    names, verifiers of the exact sizes and one iteration count within the
    policy.  A challenge from it carries the same iteration count and a 16-byte
    salt whoever asks; it is marked as a hit exactly for a user who is both on
    the module's list and in the store, and then holds that user's verifier and no
    other. *)
Theorem store_sound dummy_key password_file early_input_file :
  owp (credentials_load dummy_key password_file early_input_file) (fun s => store_ok s /\
    forall user users v, credentials_get_verifier (Some s) user users = Some v ->
      v_iters v = challenge_iters s /\ zlen (v_salt v) = CREDENTIAL_SALT_LEN /\
      (if v_found v then exists u e, user = Some u /\ Some u ∈ users /\ e ∈ st_entries s /\ ce_user e = u /\ verifier_of v e
       else forall u, user = Some u -> zlen u <= CREDENTIAL_MAX_USER_LEN -> Some u ∉ users \/ u ∉ ce_user <$> st_entries s)).
Proof.
  eapply owp_mono; [apply load_owp|]. intros s Hs. split; [done|]. intros user users v Hv. apply get_verifier_spec in Hv as (?&?&_&_&?); done.
Qed.
End Store.
