(* ===== verification/Base64.v ===== *)
(** What the credential code relies on in OpenSSL: the documented behaviour of
    base64 encoding and of the digests, as classes; and one implementation of
    the encoding that has it. *)

From stdpp Require Import list.
From S2P Require Import Prelude CStr Names Credentials.

(** A character of an encoded block *)
Definition b64_symbol (c : byte) : bool := in_range 48 57 c || in_range 65 90 c || in_range 97 122 c || bool_decide (c = "+"%byte) || bool_decide (c = "/"%byte) || bool_decide (c = "="%byte).
(** [EVP_EncodeBlock] writes four characters for three bytes, padded by equals
    signs; [EVP_DecodeBlock] of them gives the bytes, filled up by its padding. *)
Class Base64 (C : Crypto) := {
  encode_length : forall x, zlen (evp_encode x) = 4 * ((zlen x + 2) / 3);
  encode_chars : forall x, Forall (fun c => b64_symbol c = true) (evp_encode x);
  encode_pad1 : forall x, x <> [] -> char_is (evp_encode x) (length (evp_encode x) - 1) "=" = negb (zlen x mod 3 =? 0);
  encode_pad2 : forall x, x <> [] -> char_is (evp_encode x) (length (evp_encode x) - 2) "=" = (zlen x mod 3 =? 1);
  decode_encode : forall x, exists pad, evp_decode (evp_encode x) = Some (x ++ pad) /\ zlen (x ++ pad) = 3 * ((zlen x + 2) / 3);
}.
(** The digests do not fail and have their size. *)
Class Digests (C : Crypto) := {
  pbkdf2_gives : forall p s i, exists k, evp_pbkdf2 p s i = Some k;
  hmac_gives : forall k d, exists o, evp_hmac k d = Some o /\ zlen o = CREDENTIAL_KEY_LEN;
  sha256_gives : forall d, exists o, evp_sha256 d = Some o /\ zlen o = CREDENTIAL_KEY_LEN;
}.

Section Laws.
Context {C : Crypto} {B : Base64 C}.

(** Base64 round trips, for what fits the decoder's scratch buffer. *)
Lemma b64_encoded x out_sz : zlen x <= 192 -> 4 * ((zlen x + 2) / 3) < out_sz -> credentials_b64_encode x out_sz = Some (evp_encode x).
Proof.
  intros Hx Ho. unfold credentials_b64_encode, INT_MAX. rewrite encode_length, Z.eqb_refl. destruct (Z.gtb_spec (zlen x) (2 ^ 31 - 1)); [lia|]. destruct (Z.ltb_spec out_sz (4 * ((zlen x + 2) / 3) + 1)); [lia|done].
Qed.
Lemma b64_decoded x out_sz : x <> [] -> zlen x <= 192 -> zlen x <= out_sz -> credentials_b64_decode (evp_encode x) out_sz = Some x.
Proof.
  intros Hne Hx Ho. assert (Hpos : 0 < zlen x) by (destruct x; [done|unfold zlen; simpl; lia]). unfold credentials_b64_decode. rewrite encode_length, encode_pad1, encode_pad2 by done.
  set (q := (zlen x + 2) / 3). assert (Hq : zlen x <= 3 * q <= zlen x + 2) by (subst q; pose proof (Z.div_mod (zlen x + 2) 3); pose proof (Z.mod_pos_bound (zlen x + 2) 3); lia).
  assert (Hm : zlen x mod 3 = (if zlen x =? 3 * q then 0 else if zlen x =? 3 * q - 1 then 2 else 1)).
  { destruct (Z.eqb_spec (zlen x) (3 * q)); [|destruct (Z.eqb_spec (zlen x) (3 * q - 1))]; symmetry; [apply Z.mod_unique with q|apply Z.mod_unique with (q - 1)|apply Z.mod_unique with (q - 1)]; lia. }
  replace (4 * q mod 4) with 0 by (rewrite Z.mul_comm, Z.mod_mul; lia). replace (4 * q / 4) with q by (rewrite Z.mul_comm, Z.div_mul; lia).
  destruct (Z.eqb_spec (4 * q) 0); [lia|]. destruct (Z.gtb_spec (4 * q) 256); [lia|]. destruct (Z.geb_spec (4 * q) 2); [|lia]. cbn [negb orb andb Z.eqb]. rewrite Hm.
  assert (Hd : q * 3 - (if negb ((if zlen x =? 3 * q then 0 else if zlen x =? 3 * q - 1 then 2 else 1) =? 0) then 1 else 0)
    - (if (if zlen x =? 3 * q then 0 else if zlen x =? 3 * q - 1 then 2 else 1) =? 1 then 1 else 0) = zlen x).
  { destruct (Z.eqb_spec (zlen x) (3 * q)); [cbn; lia|]. destruct (Z.eqb_spec (zlen x) (3 * q - 1)); cbn; lia. }
  rewrite Hd. destruct (Z.gtb_spec (zlen x) out_sz); [lia|]. destruct (decode_encode x) as (pad&->&Hl). cbn [mbind option_bind]. fold q in Hl.
  rewrite Hl. destruct (Z.eqb_spec (3 * q) (q * 3)); [|lia]. f_equal. unfold zlen. rewrite Nat2Z.id. by rewrite take_app_length.
Qed.
Lemma decode_exact_encoded x n : zlen x = n -> 0 < n <= 192 -> decode_exact (evp_encode x) n = Some x.
Proof. intros Hn Hr. unfold decode_exact. rewrite b64_decoded; [|by intros ->; unfold zlen in Hn; simpl in Hn; lia|lia|lia]. cbn [mbind option_bind]. by rewrite Hn, Z.eqb_refl. Qed.
Lemma encoded_avoids x c : b64_symbol c = false -> c ∉ evp_encode x.
Proof. intros Hc Hin. pose proof (proj1 (Forall_forall _ _) (encode_chars x) c Hin). congruence. Qed.
End Laws.

Section Digest.
Context {C : Crypto} {D : Digests C}.
Lemma hmac_runs k d : exists o, hmac_sha256 k d = Some o /\ zlen o = CREDENTIAL_KEY_LEN.
Proof. unfold hmac_sha256. destruct (hmac_gives k d) as (o&->&Ho). exists o. cbn [mbind option_bind]. by rewrite Ho, Z.eqb_refl. Qed.
Lemma sha256_runs d : exists o, sha256 d = Some o /\ zlen o = CREDENTIAL_KEY_LEN.
Proof. unfold sha256. destruct (sha256_gives d) as (o&->&Ho). exists o. cbn [mbind option_bind]. by rewrite Ho, Z.eqb_refl. Qed.
Lemma compute_keys_runs p salt iters : zlen p <= CREDENTIAL_MAX_PASSWORD_LEN -> CREDENTIAL_MIN_ITERS <= iters <= CREDENTIAL_MAX_ITERS ->
  exists ck sk vk, credentials_compute_keys p salt iters = Some (ck, sk, vk) /\ zlen ck = CREDENTIAL_KEY_LEN /\ zlen sk = CREDENTIAL_KEY_LEN /\ zlen vk = CREDENTIAL_KEY_LEN /\ sha256 ck = Some sk.
Proof.
  intros Hp Hi. unfold credentials_compute_keys. destruct (Z.ltb_spec iters CREDENTIAL_MIN_ITERS); [lia|]. destruct (Z.gtb_spec iters CREDENTIAL_MAX_ITERS); [lia|].
  unfold INT_MAX. unfold CREDENTIAL_MAX_PASSWORD_LEN in *. destruct (Z.gtb_spec (zlen p) 1024); [lia|]. destruct (Z.gtb_spec (zlen p) (2 ^ 31 - 1)); [lia|]. cbn [orb].
  destruct (pbkdf2_gives p salt iters) as [k ->]. cbn [mbind option_bind]. destruct (hmac_runs k (cs "Client Key")) as (ck&->&Hck). destruct (hmac_runs k (cs "Server Key")) as (vk&->&Hvk).
  cbn [mbind option_bind]. destruct (sha256_runs ck) as (sk&Es&Hsk). exists ck, sk, vk. rewrite Es. by split_and!.
Qed.
End Digest.

(** ** An implementation *)

Definition b64_char (d : Z) : byte := byte.of_Z (if d <? 26 then 65 + d else if d <? 52 then 71 + d else if d <? 62 then d - 4 else if d =? 62 then 43 else 47).
Definition b64_value (c : byte) : option Z :=
  if in_range 65 90 c then Some (bZ c - 65) else if in_range 97 122 c then Some (bZ c - 71) else if in_range 48 57 c then Some (bZ c + 4)
  else if bool_decide (c = "+"%byte) then Some 62 else if bool_decide (c = "/"%byte) then Some 63 else if bool_decide (c = "="%byte) then Some 0 else None.
Fixpoint encode64 (x : list byte) : list byte :=
  match x with
  | a :: b :: c :: x => let n := bZ a * 65536 + bZ b * 256 + bZ c in
      b64_char (n / 262144) :: b64_char (n / 4096 mod 64) :: b64_char (n / 64 mod 64) :: b64_char (n mod 64) :: encode64 x
  | [a; b] => let n := bZ a * 65536 + bZ b * 256 in [b64_char (n / 262144); b64_char (n / 4096 mod 64); b64_char (n / 64 mod 64); "="%byte]
  | [a] => let n := bZ a * 65536 in [b64_char (n / 262144); b64_char (n / 4096 mod 64); "="%byte; "="%byte]
  | [] => []
  end.
Fixpoint decode64 (s : list byte) : option (list byte) :=
  match s with
  | [] => Some []
  | w :: x :: y :: z :: s =>
      w ← b64_value w; x ← b64_value x; y ← b64_value y; z ← b64_value z;
      let n := ((w * 64 + x) * 64 + y) * 64 + z in
      rest ← decode64 s;
      Some (byte.of_Z (n / 65536) :: byte.of_Z (n / 256 mod 256) :: byte.of_Z (n mod 256) :: rest)
  | _ => None
  end.

Lemma b64_char_spec d : 0 <= d < 64 -> b64_value (b64_char d) = Some d /\ b64_symbol (b64_char d) = true /\ b64_char d <> "="%byte.
Proof.
  intros Hd. enough (Hall : Forall (fun d => b64_value (b64_char d) = Some d /\ b64_symbol (b64_char d) = true /\ b64_char d <> "="%byte) (Z.of_nat <$> seq 0 64)).
  { apply (proj1 (Forall_forall _ _) Hall). apply list_elem_of_fmap. exists (Z.to_nat d). split; [lia|]. apply elem_of_seq. lia. }
  repeat constructor; done.
Qed.
Lemma of_bZ z (b : byte) : z = bZ b -> byte.of_Z z = b.
Proof. intros ->. apply byte.of_Z_unsigned. Qed.

(** Three bytes and four symbols *)
Lemma quad_digits n : 0 <= n < 2 ^ 24 -> 0 <= n / 262144 < 64 /\ 0 <= n / 4096 mod 64 < 64 /\ 0 <= n / 64 mod 64 < 64 /\ 0 <= n mod 64 < 64 /\
  ((n / 262144 * 64 + n / 4096 mod 64) * 64 + n / 64 mod 64) * 64 + n mod 64 = n.
Proof. intros Hn. Z.div_mod_to_equations. lia. Qed.
Lemma triple_bytes a b c : let n := bZ a * 65536 + bZ b * 256 + bZ c in
  0 <= n < 2 ^ 24 /\ byte.of_Z (n / 65536) = a /\ byte.of_Z (n / 256 mod 256) = b /\ byte.of_Z (n mod 256) = c.
Proof.
  pose proof (byte.unsigned_range a). pose proof (byte.unsigned_range b). pose proof (byte.unsigned_range c). intros n. subst n.
  split_and!; [lia|lia|apply of_bZ; Z.div_mod_to_equations; lia..].
Qed.
Lemma list_ind3 (P : list byte -> Prop) : P [] -> (forall a, P [a]) -> (forall a b, P [a; b]) -> (forall a b c x, P x -> P (a :: b :: c :: x)) -> forall x, P x.
Proof.
  intros H0 H1 H2 H3. enough (Hn : forall n x, (length x <= n)%nat -> P x) by (intros x; by apply (Hn (length x))).
  induction n as [|n IH]; intros x Hx; [by destruct x; simpl in Hx; [|lia]|]. destruct x as [|a [|b [|c x]]]; [done|done|done|]. apply H3, IH. simpl in Hx. lia.
Qed.
Lemma decode_quad n s : 0 <= n < 2 ^ 24 ->
  decode64 (b64_char (n / 262144) :: b64_char (n / 4096 mod 64) :: b64_char (n / 64 mod 64) :: b64_char (n mod 64) :: s) =
  (rest ← decode64 s; Some (byte.of_Z (n / 65536) :: byte.of_Z (n / 256 mod 256) :: byte.of_Z (n mod 256) :: rest)).
Proof.
  intros Hn. destruct (quad_digits n Hn) as (H1&H2&H3&H4&Hs). cbn [decode64]. rewrite (proj1 (b64_char_spec _ H1)), (proj1 (b64_char_spec _ H2)), (proj1 (b64_char_spec _ H3)), (proj1 (b64_char_spec _ H4)).
  cbn [mbind option_bind]. rewrite Hs. done.
Qed.
Lemma decode_tail2 a b : decode64 (encode64 [a; b]) = Some [a; b; Byte.x00].
Proof.
  destruct (triple_bytes a b Byte.x00) as (Hn&E1&E2&E3). change (bZ Byte.x00) with 0 in *. rewrite Z.add_0_r in *. destruct (quad_digits _ Hn) as (H1&H2&H3&H4&Hs).
  assert (H0 : (bZ a * 65536 + bZ b * 256) mod 64 = 0) by (Z.div_mod_to_equations; lia). rewrite H0 in Hs.
  cbn [encode64 decode64]. rewrite (proj1 (b64_char_spec _ H1)), (proj1 (b64_char_spec _ H2)), (proj1 (b64_char_spec _ H3)). change (b64_value "=") with (Some 0). cbn [mbind option_bind].
  by rewrite Hs, E1, E2, E3.
Qed.
Lemma decode_tail1 a : decode64 (encode64 [a]) = Some [a; Byte.x00; Byte.x00].
Proof.
  destruct (triple_bytes a Byte.x00 Byte.x00) as (Hn&E1&E2&E3). change (bZ Byte.x00) with 0 in *. rewrite Z.mul_0_l, !Z.add_0_r in *. destruct (quad_digits _ Hn) as (H1&H2&H3&H4&Hs).
  assert (H0 : (bZ a * 65536) mod 64 = 0) by (Z.div_mod_to_equations; lia). assert (H00 : bZ a * 65536 / 64 mod 64 = 0) by (Z.div_mod_to_equations; lia). rewrite H0, H00 in Hs.
  cbn [encode64 decode64]. rewrite (proj1 (b64_char_spec _ H1)), (proj1 (b64_char_spec _ H2)). change (b64_value "=") with (Some 0). cbn [mbind option_bind].
  by rewrite Hs, E1, E2, E3.
Qed.
Lemma encode_quad_lengths x : (length (encode64 x) = 4 * Z.to_nat ((zlen x + 2) / 3))%nat.
Proof.
  induction x as [|a|a b|a b c x IH] using list_ind3; [done|done|done|]. cbn [encode64 length]. rewrite IH. unfold zlen. cbn [length]. 
  replace ((Z.of_nat (S (S (S (length x)))) + 2) / 3) with ((Z.of_nat (length x) + 2) / 3 + 1) by (Z.div_mod_to_equations; lia).
  assert (0 <= (Z.of_nat (length x) + 2) / 3) by (Z.div_mod_to_equations; lia). lia.
Qed.
Lemma encode_nonempty a x : (4 <= length (encode64 (a :: x)))%nat.
Proof. destruct x as [|b [|c x]]; simpl; lia. Qed.
Lemma char_is_tail q s k : (0 < k <= length s)%nat -> char_is (q ++ s) (length (q ++ s) - k) "=" = char_is s (length s - k) "=".
Proof. intros Hk. unfold char_is. rewrite length_app, lookup_app_r by lia. replace (length q + length s - k - length q)%nat with (length s - k)%nat by lia. done. Qed.
Lemma quad_eq a b c x : exists q, length q = 4%nat /\ Forall (fun c => b64_symbol c = true /\ c <> "="%byte) q /\ encode64 (a :: b :: c :: x) = q ++ encode64 x.
Proof.
  destruct (triple_bytes a b c) as [Hn _]. destruct (quad_digits _ Hn) as (H1&H2&H3&H4&_). cbn [encode64]. eexists [_; _; _; _]. split_and!; [done| |done].
  repeat (apply Forall_cons; split; [by apply b64_char_spec|]). constructor.
Qed.
Lemma zlen_three a b c (x : list byte) : zlen (a :: b :: c :: x) mod 3 = zlen x mod 3.
Proof. unfold zlen. cbn [length]. replace (Z.of_nat (S (S (S (length x))))) with (Z.of_nat (length x) + 1 * 3) by lia. by rewrite Z_mod_plus_full. Qed.
Lemma no_pad q k : Forall (fun c => b64_symbol c = true /\ c <> "="%byte) q -> char_is q k "=" = false.
Proof. intros Hq. apply bool_decide_eq_false_2. intros Hk. by destruct (Forall_lookup_1 _ _ _ _ Hq Hk). Qed.
Lemma encode64_pad x : x <> [] -> char_is (encode64 x) (length (encode64 x) - 1) "=" = negb (zlen x mod 3 =? 0) /\ char_is (encode64 x) (length (encode64 x) - 2) "=" = (zlen x mod 3 =? 1).
Proof.
  assert (H1 : forall a, 0 <= bZ a * 65536 < 2 ^ 24) by (intros a; pose proof (byte.unsigned_range a); lia).
  assert (H2 : forall a b, 0 <= bZ a * 65536 + bZ b * 256 < 2 ^ 24) by (intros a b; pose proof (byte.unsigned_range a); pose proof (byte.unsigned_range b); lia).
  induction x as [|a|a b|a b c x IH] using list_ind3; intros Hx; [done|done| |].
  - split; [done|]. unfold char_is. cbn [encode64 length Nat.sub lookup list_lookup]. apply bool_decide_eq_false_2. intros [= He]. destruct (quad_digits _ (H2 a b)) as (_&_&H3&_). by apply b64_char_spec in H3 as (_&_&?).
  - rewrite zlen_three. destruct (quad_eq a b c x) as (q&Hq&Hf&->). destruct x as [|d x]; [cbn [encode64]; rewrite app_nil_r, !(no_pad q) by done; done|].
    pose proof (encode_nonempty d x). rewrite !char_is_tail by lia. by apply IH.
Qed.

(** Stand-ins for the digests *)
Definition pad32 (l : list byte) : list byte := take 32 (l ++ replicate 32 Byte.x00).
Lemma zlen_pad32 l : zlen (pad32 l) = CREDENTIAL_KEY_LEN.
Proof. unfold pad32, zlen. rewrite length_take, length_app, length_replicate. unfold CREDENTIAL_KEY_LEN. lia. Qed.
Definition demo_crypto : Crypto := {|
  evp_pbkdf2 := fun p s i => Some (pad32 (p ++ s));
  evp_hmac := fun k d => Some (pad32 (xor_bytes (pad32 k) (pad32 (drop 24 d ++ d))));
  evp_sha256 := fun d => Some (pad32 (reverse d));
  evp_encode := encode64;
  evp_decode := decode64;
|}.
#[global] Instance demo_base64 : Base64 demo_crypto.
Proof.
  split; cbn.
  - intros x. unfold zlen at 1. rewrite encode_quad_lengths. assert (0 <= (zlen x + 2) / 3) by (pose proof (zlen_nonneg x); Z.div_mod_to_equations; lia). lia.
  - assert (Hd : forall n, 0 <= n < 2 ^ 24 -> Forall (fun c => b64_symbol c = true) [b64_char (n / 262144); b64_char (n / 4096 mod 64); b64_char (n / 64 mod 64); b64_char (n mod 64)]).
    { intros n Hn. destruct (quad_digits n Hn) as (?&?&?&?&_). repeat (apply Forall_cons; split; [by apply b64_char_spec|]). constructor. }
    induction x as [|a|a b|a b c x IH] using list_ind3; [constructor| | |].
    + pose proof (byte.unsigned_range a). specialize (Hd (bZ a * 65536) ltac:(lia)). rewrite !Forall_cons in Hd. cbn [encode64]. rewrite !Forall_cons. naive_solver.
    + pose proof (byte.unsigned_range a). pose proof (byte.unsigned_range b). specialize (Hd (bZ a * 65536 + bZ b * 256) ltac:(lia)). rewrite !Forall_cons in Hd. cbn [encode64]. rewrite !Forall_cons. naive_solver.
    + destruct (quad_eq a b c x) as (q&_&Hf&->). apply Forall_app_2; [|done]. eapply Forall_impl; [exact Hf|]. by intros ? [? _].
  - intros x Hx. by apply encode64_pad.
  - intros x Hx. by apply encode64_pad.
  - induction x as [|a|a b|a b c x (pad&E&Hl)] using list_ind3.
    + by exists [].
    + rewrite decode_tail1. by exists [Byte.x00; Byte.x00].
    + rewrite decode_tail2. by exists [Byte.x00].
    + destruct (triple_bytes a b c) as (Hn&E1&E2&E3). exists pad. cbn [encode64]. rewrite decode_quad, E, E1, E2, E3 by done. split; [done|].
      cbn [app]. unfold zlen in *. cbn [length]. replace ((Z.of_nat (S (S (S (length x)))) + 2) / 3) with ((Z.of_nat (length x) + 2) / 3 + 1) by (Z.div_mod_to_equations; lia). lia.
Qed.
#[global] Instance demo_digests : Digests demo_crypto.
Proof. split; cbn; [by eexists|..]; intros; eexists; (split; [done|apply zlen_pad32]). Qed.
