(* ===== verification/CredentialsTrip.v ===== *)
(** A store written by --hash-credentials loads back: every line gives its user
    the verifier of the password. *)

From stdpp Require Import list.
From S2P Require Import Prelude Alloc CStr Paths Names Libc DataBuf Transport Session Wp Credentials CredentialsSafe Base64.

(** ** Splitting and trimming *)

Lemma split_first_at sep a b : sep ∉ a -> split_first sep (a ++ sep :: b) = Some (a, b).
Proof.
  induction a as [|c a IH]; intros Ha; cbn [app split_first]; [by rewrite bool_decide_eq_true_2|]. rewrite not_elem_of_cons in Ha. destruct Ha as [Hc Ha].
  rewrite bool_decide_eq_false_2 by done. by rewrite IH.
Qed.
Lemma span_none p c s : p c = false -> span p (c :: s) = ([], c :: s).
Proof. intros Hc. cbn [span]. by rewrite Hc. Qed.
(** A string whose ends are not blank *)
Definition solid (s : list byte) : Prop := exists c d, head s = Some c /\ last s = Some d /\ is_space_tab c = false /\ is_space_tab d = false.
Lemma trim_solid s : solid s -> trim_space s = s.
Proof.
  intros (c&d&Hc&Hd&Bc&Bd). unfold trim_space. destruct s as [|x s]; [done|]. injection Hc as ->. rewrite (span_none is_space_tab c s Bc). cbn [snd].
  rewrite <- head_reverse in Hd. destruct (reverse (c :: s)) as [|y r] eqn:Er; [done|]. injection Hd as ->. rewrite (span_none is_space_tab d r Bd). cbn [snd]. rewrite <- Er. apply reverse_involutive.
Qed.
Lemma last_some_forall {A} (P : A -> Prop) l : Forall P l -> l <> [] -> exists x, last l = Some x /\ P x.
Proof. intros Hf Hn. induction l as [|y l _] using rev_ind; [done|]. exists y. rewrite last_snoc. apply Forall_app in Hf as [_ Hf]. split; [done|]. by apply Forall_singleton. Qed.
Lemma solid_forall s : s <> [] -> Forall (fun c => is_space_tab c = false) s -> solid s.
Proof. intros Hn Hf. destruct (last_some_forall _ s Hf Hn) as (d&Hd&Bd). destruct s as [|c s]; [done|]. apply Forall_cons in Hf as [Bc _]. by exists c, d. Qed.
Lemma digit_chars s : forallb (digit_of 10) s = true -> Forall (fun c => 48 <= bZ c < 58) s.
Proof. intros Hd. rewrite forallb_forall in Hd. apply Forall_forall. intros c Hc%list_elem_of_In%Hd. unfold digit_of in Hc. apply andb_true_iff in Hc as [?%Z.leb_le ?%Z.ltb_lt]. lia. Qed.
Lemma avoid_forall {A} (P : A -> Prop) l c : Forall P l -> ~ P c -> c ∉ l.
Proof. intros Hf Hc Hin. by apply Hc, (proj1 (Forall_forall _ _) Hf). Qed.

(** ** A line of the store *)

(** A name that survives the store: no colon, and the line is not a comment. *)
Definition storable (u : list byte) : Prop := username_wellformed (Some u) = true /\ ":"%byte ∉ u /\ match u with c :: _ => is_comment_char c = false | [] => True end.

Section Line.
Context `{HH : Heap} {C : Crypto} {B : Base64 C}.

Definition secret_of (iters : Z) (salt stored server : list byte) : list byte :=
  CREDENTIAL_STORE_PREFIX ++ print_u32 10 iters ++ "$"%byte :: evp_encode salt ++ "$"%byte :: evp_encode stored ++ "$"%byte :: evp_encode server.

Lemma encode_ne x : zlen x > 0 -> at_end (evp_encode x) 0 = false.
Proof.
  intros Hx. pose proof (encode_length x) as He. apply bool_decide_eq_false_2. destruct (evp_encode x); [|done]. change (zlen []) with 0 in He. Z.div_mod_to_equations. lia.
Qed.
Lemma prefix_strip s : strncmp (CREDENTIAL_STORE_PREFIX ++ s) CREDENTIAL_STORE_PREFIX (length CREDENTIAL_STORE_PREFIX) = 0 /\ drop (length CREDENTIAL_STORE_PREFIX) (CREDENTIAL_STORE_PREFIX ++ s) = s.
Proof. split; [apply strncmp_prefix; by eexists|apply drop_app_length]. Qed.
Lemma parse_secret_of user iters salt stored server :
  CREDENTIAL_MIN_ITERS <= iters <= CREDENTIAL_MAX_ITERS -> zlen salt = CREDENTIAL_SALT_LEN -> zlen stored = CREDENTIAL_KEY_LEN -> zlen server = CREDENTIAL_KEY_LEN ->
  parse_verifier_secret (secret_of iters salt stored server) user = Some (MkEntry user salt iters stored server).
Proof.
  intros Hi Hs Hk Hv. unfold CREDENTIAL_SALT_LEN, CREDENTIAL_KEY_LEN in *. destruct (print_u32_spec 10 iters) as (Hne&Hd&Hn); [lia|unfold CREDENTIAL_MIN_ITERS, CREDENTIAL_MAX_ITERS in *; lia|].
  unfold parse_verifier_secret. assert (secret_is_legacy_hex (secret_of iters salt stored server) = false) as -> by (by unfold secret_is_legacy_hex, secret_of; cbn; rewrite andb_false_r).
  unfold secret_of. destruct (prefix_strip (print_u32 10 iters ++ "$"%byte :: evp_encode salt ++ "$"%byte :: evp_encode stored ++ "$"%byte :: evp_encode server)) as [-> ->]. rewrite Z.eqb_refl. cbn [negb].
  rewrite split_first_at by (apply (avoid_forall _ _ _ (digit_chars _ Hd)); by intros [Hc _]; apply Hc). cbn [mbind option_bind].
  rewrite !split_first_at by (by apply encoded_avoids). cbn [mbind option_bind]. rewrite split_first_at by (by apply encoded_avoids). cbn [mbind option_bind].
  rewrite !encode_ne by lia. assert (at_end (print_u32 10 iters) 0 = false) as -> by (apply bool_decide_eq_false_2; by destruct (print_u32 10 iters)). cbn [orb].
  rewrite <- (app_nil_r (print_u32 10 iters)), (strtoul_plain 10 (print_u32 10 iters) []), Hn by (try done; unfold CREDENTIAL_MAX_ITERS, ULONG_MAX in *; lia). cbn [at_end].
  change (at_end [] 0) with true. destruct (Z.ltb_spec iters CREDENTIAL_MIN_ITERS); [lia|]. destruct (Z.gtb_spec iters CREDENTIAL_MAX_ITERS); [lia|]. cbn [negb orb].
  unfold CREDENTIAL_SALT_LEN, CREDENTIAL_KEY_LEN. rewrite !decode_exact_encoded by lia. done.
Qed.

(** What the line of a user is *)
Lemma hash_line_inv user p iters salt sz line : zlen salt = CREDENTIAL_SALT_LEN -> credentials_hash_store_line user p iters (Some salt) sz = Some line ->
  username_wellformed (Some user) = true /\ CREDENTIAL_MIN_ITERS <= iters <= CREDENTIAL_MAX_ITERS /\ zlen p <= CREDENTIAL_MAX_PASSWORD_LEN /\ zlen line < sz /\
  exists ck sk vk, credentials_compute_keys p salt iters = Some (ck, sk, vk) /\ line = user ++ ":"%byte :: secret_of iters salt sk vk /\ zlen sk = CREDENTIAL_KEY_LEN /\ zlen vk = CREDENTIAL_KEY_LEN.
Proof.
  intros Hs. unfold credentials_hash_store_line. destruct (username_wellformed (Some user)); cbn [negb orb]; [|done]. destruct (sz =? 0); cbn [orb]; [done|].
  destruct (Z.gtb_spec (zlen p) CREDENTIAL_MAX_PASSWORD_LEN); [done|]. destruct (Z.ltb_spec iters CREDENTIAL_MIN_ITERS); cbn [orb]; [done|]. destruct (Z.gtb_spec iters CREDENTIAL_MAX_ITERS); [done|]. cbn [mbind option_bind].
  destruct (credentials_compute_keys p salt iters) as [[[ck sk] vk]|] eqn:Ek; cbn [mbind option_bind]; [|done].
  assert (Hkeys : zlen sk = CREDENTIAL_KEY_LEN /\ zlen vk = CREDENTIAL_KEY_LEN).
  { unfold credentials_compute_keys in Ek. destruct (_ || _); [done|]. destruct (_ || _); [done|]. destruct (evp_pbkdf2 _ _ _) as [k|]; cbn [mbind option_bind] in Ek; [|done].
    destruct (hmac_sha256 k (cs "Client Key")) as [c|]; cbn [mbind option_bind] in Ek; [|done]. destruct (hmac_sha256 k (cs "Server Key")) as [v|] eqn:Ev; cbn [mbind option_bind] in Ek; [|done].
    destruct (sha256 c) as [s|] eqn:Es; cbn [mbind option_bind] in Ek; [|done]. injection Ek as -> -> ->. unfold sha256 in Es. unfold hmac_sha256 in Ev.
    destruct (evp_sha256 ck) as [o|]; cbn [mbind option_bind] in Es; [|done]. destruct (Z.eqb_spec (zlen o) CREDENTIAL_KEY_LEN); [|done]. destruct (evp_hmac _ _) as [o'|]; cbn [mbind option_bind] in Ev; [|done].
    destruct (Z.eqb_spec (zlen o') CREDENTIAL_KEY_LEN); [|done]. by simplify_eq. }
  destruct Hkeys as [Hk1 Hk2]. unfold CREDENTIAL_SALT_LEN, CREDENTIAL_KEY_LEN in *. rewrite !b64_encoded by (rewrite ?Hs, ?Hk1, ?Hk2; done). cbn [mbind option_bind].
  match goal with |- context [zlen ?l >=? sz] => destruct (Z.geb_spec (zlen l) sz) as [|Hz]; [done|] end. intros Hline. apply (inj Some) in Hline. subst line.
  split_and!; [done|done|done|done|exact Hz|]. exists ck, sk, vk. split_and!; [done| |done|done]. done.
Qed.

(** ** The file *)

Lemma fgets_line n l rest : Byte.x0a ∉ l -> (length l < n)%nat -> fgets n (l ++ Byte.x0a :: rest) = (l ++ [Byte.x0a], rest, false).
Proof.
  revert n. induction l as [|c l IH]; intros [|n] Hl Hn; cbn [length] in Hn; try lia; cbn [app fgets]; [by rewrite bool_decide_eq_true_2|].
  rewrite not_elem_of_cons in Hl. rewrite bool_decide_eq_false_2 by naive_solver. by rewrite IH by (naive_solver lia).
Qed.
Lemma c_str_plain l : Byte.x00 ∉ l -> c_str l = l.
Proof. induction l as [|c l IH]; intros Hl; [done|]. rewrite not_elem_of_cons in Hl. cbn [c_str]. rewrite bool_decide_eq_false_2 by naive_solver. by rewrite IH by naive_solver. Qed.
Definition visible (c : byte) : Prop := 0x20 < bZ c.
Lemma visible_avoids c l : Forall visible l -> (bZ c <=? 0x20) = true -> c ∉ l.
Proof. intros Hv Hc%Z.leb_le. apply (avoid_forall _ _ _ Hv). unfold visible. lia. Qed.
Lemma read_visible l rest : Forall visible l -> zlen l < CREDENTIAL_MAX_LINE -> secret_read_line (l ++ Byte.x0a :: rest) = Ret (Some (l ++ [Byte.x0a]), rest, false).
Proof.
  intros Hv Hl. unfold secret_read_line. cbn [read_line_loop]. rewrite fgets_line; [|by apply visible_avoids|unfold LINE_CAP, CREDENTIAL_MAX_LINE, zlen in *; cbn [length]; lia].
  rewrite bool_decide_eq_false_2 by (by destruct l). rewrite c_str_plain by (rewrite elem_of_app, list_elem_of_singleton; intros [Hn|?]; [by apply (visible_avoids Byte.x00 l) in Hn|done]).
  rewrite app_nil_l, last_snoc, bool_decide_eq_true_2 by done. done.
Qed.
Lemma chomp_visible l : Forall visible l -> chomp (l ++ [Byte.x0a]) = l.
Proof.
  intros Hv. unfold chomp. assert (strip_end Byte.x0a (l ++ [Byte.x0a]) = l) as ->.
  { unfold strip_end. rewrite last_snoc, bool_decide_eq_true_2, length_app by done. cbn [length]. replace (length l + 1 - 1)%nat with (length l) by lia. apply take_app_length. }
  unfold strip_end. rewrite bool_decide_eq_false_2; [done|]. intros Hl. apply last_Some_elem_of in Hl. by apply (visible_avoids Byte.x0d l) in Hl.
Qed.
Lemma visible_solid l : l <> [] -> Forall visible l -> solid l.
Proof.
  intros Hn Hv. apply solid_forall; [done|]. eapply Forall_impl; [exact Hv|]. intros c Hc. unfold is_space_tab. apply orb_false_iff. split; apply bool_decide_eq_false_2; intros ->; by vm_compute in Hc.
Qed.
Lemma wellformed_visible u : username_wellformed (Some u) = true -> u <> [] /\ Forall visible u.
Proof. intros (Hn&_&Hf)%wellformed_length. split; [done|]. eapply Forall_impl; [exact Hf|]. by intros c [? _]. Qed.
Lemma encoded_visible x : Forall visible (evp_encode x).
Proof.
  eapply Forall_impl; [apply encode_chars|]. intros c Hc. unfold visible. destruct c; vm_compute in Hc; try discriminate Hc; by vm_compute.
Qed.
Lemma secret_visible iters salt sk vk : CREDENTIAL_MIN_ITERS <= iters <= CREDENTIAL_MAX_ITERS -> Forall visible (secret_of iters salt sk vk).
Proof.
  intros Hi. destruct (print_u32_spec 10 iters) as (_&Hd&_); [lia|unfold CREDENTIAL_MIN_ITERS, CREDENTIAL_MAX_ITERS in *; lia|]. unfold secret_of. apply Forall_app_2; [repeat constructor; by vm_compute|].
  apply Forall_app_2; [eapply Forall_impl; [apply (digit_chars _ Hd)|unfold visible; lia]|].
  repeat (apply Forall_cons; split; [by vm_compute|]; first [apply Forall_app_2; [apply encoded_visible|]|apply encoded_visible]).
Qed.

(** A user, the password and the salt *)
Definition account : Type := list byte * list byte * list byte.
Definition a_user (a : account) : list byte := fst (fst a).
Definition entry_of (iters : Z) (a : account) : option CredentialEntry :=
  let '(u, p, salt) := a in '(_, sk, vk) ← credentials_compute_keys p salt iters; Some (MkEntry u salt iters sk vk).
(** The lines [credentials_hash_file] writes for the accounts *)
Fixpoint store_text (iters : Z) (l : list account) : option (list byte) :=
  match l with
  | [] => Some []
  | (u, p, salt) :: l => line ← credentials_hash_store_line u p iters (Some salt) CREDENTIAL_MAX_LINE; rest ← store_text iters l; Some (line ++ Byte.x0a :: rest)
  end.
Lemma store_text_line iters l u p salt text : store_text iters l = Some text -> (u, p, salt) ∈ l -> exists line, credentials_hash_store_line u p iters (Some salt) CREDENTIAL_MAX_LINE = Some line.
Proof.
  revert text. induction l as [|[[u' p'] salt'] l IH]; intros text Ht; [by intros ?%elem_of_nil|]. cbn [store_text] in Ht. destruct (credentials_hash_store_line u' p' iters (Some salt') CREDENTIAL_MAX_LINE) as [line|] eqn:El; cbn [mbind option_bind] in Ht; [|done].
  destruct (store_text iters l) as [rest|] eqn:Er; cbn [mbind option_bind] in Ht; [|done]. intros [Heq|Hin]%elem_of_cons; [|by eapply IH]. simplify_eq. by exists line.
Qed.
Definition account_ok (a : account) : Prop := storable (a_user a) /\ zlen (snd a) = CREDENTIAL_SALT_LEN.

Context (Hheap : forall n, malloc_ok n = true).

Lemma append_runs s e : exists s', append_entry s e = Ret s' /\ st_entries s' = st_entries s ++ [e] /\ st_iters s' = st_iters s.
Proof. unfold append_entry, str_dup. cbn [of_option mbind outcome_bind]. rewrite !Hheap, orb_true_r. cbn. eexists. split; [done|]. by destruct e. Qed.
Lemma load_account s iters u p salt line : account_ok (u, p, salt) -> credentials_hash_store_line u p iters (Some salt) CREDENTIAL_MAX_LINE = Some line ->
  (st_entries s = [] \/ st_iters s = iters) -> u ∉ ce_user <$> st_entries s ->
  Forall visible line /\ zlen line < CREDENTIAL_MAX_LINE /\
  exists s' e, entry_of iters (u, p, salt) = Some e /\ ce_user e = u /\ load_store_line s (line ++ [Byte.x0a]) = Ret s' /\ st_entries s' = st_entries s ++ [e] /\ st_iters s' = iters.
Proof.
  intros [(Hwf&Hcol&Hcom) Hsalt] Hl Hit Hu. cbn [a_user fst snd] in *. apply hash_line_inv in Hl as (_&Hi&_&Hlen&ck&sk&vk&Ek&->&Hsk&Hvk); [|done].
  destruct (wellformed_visible u Hwf) as [Hune Huv]. pose proof (secret_visible iters salt sk vk Hi) as Hsv.
  assert (Hv : Forall visible (u ++ ":"%byte :: secret_of iters salt sk vk)) by (apply Forall_app_2; [done|]; apply Forall_cons; split; [by vm_compute|done]).
  split_and!; [done|done|]. unfold load_store_line. rewrite chomp_visible by done.
  assert (Hm : meaningful (u ++ ":"%byte :: secret_of iters salt sk vk) = Some (u ++ ":"%byte :: secret_of iters salt sk vk)).
  { destruct (visible_solid u Hune Huv) as (c&d&Hc&_&Bc&_). destruct u as [|x u]; [done|]. injection Hc as ->. unfold meaningful. cbn [app]. rewrite span_none by done. cbn [snd]. by rewrite Hcom. }
  rewrite Hm, split_first_at by done. cbn [of_option mbind outcome_bind]. rewrite (trim_solid u), (trim_solid (secret_of _ _ _ _)) by (by apply visible_solid). rewrite Hwf. cbn [check mbind outcome_bind].
  rewrite parse_secret_of by done. cbn [of_option mbind outcome_bind ce_iters ce_user].
  assert (Hc : bool_decide (st_entries s = []) || (st_iters s =? iters) = true) by (destruct Hit as [->| ->]; [done|by rewrite Z.eqb_refl, orb_true_r]). rewrite Hc. cbn [check mbind outcome_bind].
  set (s1 := if bool_decide (st_entries s = []) then set_iters s iters else s).
  assert (Hs1 : st_entries s1 = st_entries s /\ st_iters s1 = iters) by (subst s1; case_bool_decide; [done|]; split; [done|]; naive_solver). destruct Hs1 as [He1 Hi1].
  rewrite bool_decide_eq_true_2 by (apply find_user_none; by rewrite He1). cbn [check mbind outcome_bind].
  destruct (append_runs s1 (MkEntry u salt iters sk vk)) as (s'&->&He&Hi'). exists s', (MkEntry u salt iters sk vk). unfold entry_of. rewrite Ek. cbn [mbind option_bind]. split_and!; [done|done|done|congruence|congruence].
Qed.
Lemma load_accounts iters l : forall text s fuel, store_text iters l = Some text -> Forall account_ok l -> NoDup (a_user <$> l) ->
  (st_entries s = [] \/ st_iters s = iters) -> (forall u, u ∈ a_user <$> l -> u ∉ ce_user <$> st_entries s) -> (length text < fuel)%nat ->
  exists s', load_loop fuel s text = Ret s' /\ st_entries s' = st_entries s ++ omap (entry_of iters) l /\ (forall a, a ∈ l -> exists e, entry_of iters a = Some e /\ ce_user e = a_user a).
Proof.
  induction l as [|[[u p] salt] l IH]; intros text s fuel Ht Hok Hnd Hit Hnew Hfuel.
  - injection Ht as <-. destruct fuel as [|fuel]; [lia|]. exists s. cbn. rewrite app_nil_r. split_and!; [done|done|]. intros a Ha. by apply elem_of_nil in Ha.
  - cbn [store_text] in Ht. destruct (credentials_hash_store_line u p iters (Some salt) CREDENTIAL_MAX_LINE) as [line|] eqn:El; cbn [mbind option_bind] in Ht; [|done].
    destruct (store_text iters l) as [rest|] eqn:Er; cbn [mbind option_bind] in Ht; [|done]. apply (inj Some) in Ht. subst text. apply Forall_cons in Hok as [Ha Hok]. cbn [fmap list_fmap] in Hnd, Hnew. apply NoDup_cons in Hnd as [Hnin Hnd].
    destruct fuel as [|fuel]; [lia|]. destruct (load_account s iters u p salt line) as (Hv&Hlen&s'&e&Ee&Hue&Hload&He&Hi); [done|done|done|apply Hnew; left|].
    cbn [load_loop]. rewrite read_visible by done. cbn [mbind outcome_bind]. unfold over_long. rewrite last_snoc, (bool_decide_eq_true_2 (Some _ = Some _)), andb_false_r by done. cbn [negb andb check mbind outcome_bind].
    rewrite Hload. cbn [mbind outcome_bind]. destruct (IH rest s' fuel) as (s2&->&He2&Hall).
    + done. + done. + done. + by right.
    + intros x Hx. rewrite He, fmap_app, not_elem_of_app. split; [apply Hnew; by right|]. cbn [fmap list_fmap]. rewrite list_elem_of_singleton, Hue. intros ->. done.
    + rewrite length_app in Hfuel. cbn [length] in Hfuel. lia.
    + exists s2. split_and!; [done| |].
      * rewrite He2, He, <- app_assoc. do 2 f_equal. change (omap (entry_of iters) ((u, p, salt) :: l)) with (match entry_of iters (u, p, salt) with Some y => y :: omap (entry_of iters) l | None => omap (entry_of iters) l end). by rewrite Ee.
      * intros a [->|Hin]%elem_of_cons; [by exists e|by apply Hall].
Qed.
End Line.
