(* ===== verification/Auth.v ===== *)
(** The challenge and response that opens a module: the daemon's half,
    [server_auth_handshake] of src/server/server.c, and the client's half,
    [client_auth_exchange] of src/shared/config.c.  The random bytes are
    arguments; logging and wiping are not modelled. *)

From stdpp Require Import list.
From S2P Require Import Prelude Alloc CStr Names Transport Session Credentials.

(** protocol.h *)
Definition STATUS_AUTH_CHALLENGE : Z := 21.
Definition STATUS_AUTH_RESPONSE : Z := 22.
Definition STATUS_AUTH_OK : Z := 23.
Definition STATUS_AUTH_FAILED : Z := 24.

(** A step whose failure the code looks at *)
Definition io_try {A} (m : io A) : io (option A) := fun w =>
  match m w with (w, Ret a) => (w, Ret (Some a)) | (w, Fail) => (w, Ret None) | (w, Stuck) => (w, Stuck) end.

Section Auth.
Context `{Heap} {C : Crypto}.

(** server.c [server_auth_handshake]: the challenge, the response and its
    verification, up to the signature that proves the daemon knows the user *)
Definition server_challenge (store : option CredentialStore) (auth_user : option (list byte)) (auth_users : list (option (list byte))) (random : option (list byte))
    : option (list byte * CredentialVerifier * list byte * list byte * list byte) :=
  user ← auth_user;
  verifier ← credentials_get_verifier store (Some user) auth_users;
  snonce ← random;
  salt_b64 ← credentials_b64_encode (v_salt verifier) 25;
  snonce_b64 ← credentials_b64_encode snonce 45;
  Some (user, verifier, snonce, salt_b64, snonce_b64).
Definition server_verify (user : list byte) (verifier : CredentialVerifier) (snonce : list byte) (cnonce_b64 proof_b64 : option (list byte)) : option (list byte) :=
  cnonce_b64 ← cnonce_b64;
  proof_b64 ← proof_b64;
  cnonce ← decode_exact cnonce_b64 CREDENTIAL_NONCE_LEN;
  proof ← decode_exact proof_b64 CREDENTIAL_KEY_LEN;
  match credentials_verify_response verifier user snonce cnonce proof with (true, server_sig) => server_sig | (false, _) => None end.
Definition server_exchange (store : option CredentialStore) (auth_user : option (list byte)) (auth_users : list (option (list byte))) (random : option (list byte)) : io (list byte) :=
  c <~ io_of (of_option (server_challenge store auth_user auth_users random));
  let '(user, verifier, snonce, salt_b64, snonce_b64) := c in
  protocol_send_status STATUS_AUTH_CHALLENGE >~
  protocol_send_int (v_iters verifier) >~
  protocol_send_str (Some salt_b64) >~
  protocol_send_str (Some snonce_b64) >~
  status <~ protocol_receive_status;
  io_check (status =? STATUS_AUTH_RESPONSE) >~
  cnonce_b64 <~ io_try protocol_receive_str;
  proof_b64 <~ io_try protocol_receive_str;
  io_of (of_option (server_verify user verifier snonce cnonce_b64 proof_b64)).
Definition server_auth_handshake (store : option CredentialStore) (auth_user : option (list byte)) (auth_users : list (option (list byte))) (random : option (list byte)) : io bool :=
  r <~ io_try (server_exchange store auth_user auth_users random);
  match r with
  | None => io_try (protocol_send_status STATUS_AUTH_FAILED) >~ io_ret false
  | Some server_sig =>
      sent <~ io_try (sig_b64 <~ io_of (of_option (credentials_b64_encode server_sig 45));
                      protocol_send_status STATUS_AUTH_OK >~ protocol_send_str (Some sig_b64));
      io_ret (bool_decide (is_Some sent))
  end.

(** config.c [client_auth_exchange]: the answer to the challenge, and what the
    daemon's signature must be *)
Definition client_challenge (salt_b64 snonce_b64 random : option (list byte)) : option (list byte * list byte * list byte) :=
  salt_b64 ← salt_b64;
  snonce_b64 ← snonce_b64;
  salt ← decode_exact salt_b64 CREDENTIAL_SALT_LEN;
  snonce ← decode_exact snonce_b64 CREDENTIAL_NONCE_LEN;
  cnonce ← random;
  Some (salt, snonce, cnonce).
Definition client_response (user password : list byte) (iters : Z) (salt snonce cnonce : list byte) : option (list byte * list byte * list byte) :=
  '(client_key, stored_key, server_key) ← credentials_compute_keys password salt iters;
  auth_msg ← credentials_build_auth_message user snonce cnonce CREDENTIAL_AUTH_MESSAGE_MAX;
  '(proof, expected_sig) ← credentials_client_proof client_key stored_key server_key auth_msg;
  cnonce_b64 ← credentials_b64_encode cnonce 45;
  proof_b64 ← credentials_b64_encode proof 45;
  Some (cnonce_b64, proof_b64, expected_sig).
Definition client_auth_exchange (auth_user auth_password random : option (list byte)) : io unit :=
  user <~ io_of (of_option auth_user);
  password <~ io_of (of_option auth_password);
  iters <~ protocol_receive_int;
  io_check (negb ((iters <? CREDENTIAL_MIN_ITERS) || (iters >? CREDENTIAL_MAX_ITERS))) >~
  salt_b64 <~ io_try protocol_receive_str;
  snonce_b64 <~ io_try protocol_receive_str;
  c <~ io_of (of_option (client_challenge salt_b64 snonce_b64 random));
  let '(salt, snonce, cnonce) := c in
  r <~ io_of (of_option (client_response user password iters salt snonce cnonce));
  let '(cnonce_b64, proof_b64, expected_sig) := r in
  protocol_send_status STATUS_AUTH_RESPONSE >~
  protocol_send_str (Some cnonce_b64) >~
  protocol_send_str (Some proof_b64) >~
  status <~ protocol_receive_status;
  io_check (status =? STATUS_AUTH_OK) >~
  sig_b64 <~ protocol_receive_str;
  sig <~ io_of (of_option (decode_exact sig_b64 CREDENTIAL_KEY_LEN));
  io_check (credentials_secure_equal sig expected_sig (Z.to_nat CREDENTIAL_KEY_LEN)).
End Auth.
