(* ===== verification/AuthSafe.v ===== *)
(** The daemon's half of the login, against any peer: what it accepts and what it
    writes. *)

From stdpp Require Import list.
From S2P Require Import Prelude Alloc CStr Paths Names Libc DataBuf Transport Session Wp Credentials CredentialsSafe Base64 Auth.

(** ** What a function writes

    [m] is never [Stuck] and keeps the detail array; what it writes and returns,
    or writes and fails, satisfies [Q]. *)
Definition emits {A} (m : io A) (Q : list byte -> option A -> Prop) : Prop :=
  forall w, zlen (w_detail w) = 4097 ->
    zlen (w_detail (fst (m w))) = 4097 /\
    match snd (m w) with
    | Ret a => exists o, n_out (w_net (fst (m w))) = n_out (w_net w) ++ o /\ Q o (Some a)
    | Fail => exists o, n_out (w_net (fst (m w))) = n_out (w_net w) ++ o /\ Q o None
    | Stuck => False
    end.

Lemma emits_bind {A B} (m : io A) (k : A -> io B) (P : list byte -> option A -> Prop) (Q : list byte -> option B -> Prop) :
  emits m P -> (forall o, P o None -> Q o None) -> (forall a o, P o (Some a) -> emits (k a) (fun o' r => Q (o ++ o') r)) -> emits (io_bind m k) Q.
Proof.
  intros Hm Hn Hk w Hw. unfold io_bind. destruct (Hm w Hw) as [Hd Hr]. destruct (m w) as [w1 [a| |]]; simpl in *; [|split; [done|naive_solver]|done].
  destruct Hr as (o&Ho&HP). destruct (Hk a o HP w1 Hd) as [Hd' Hr']. split; [done|]. destruct (snd (k a w1)) as [b| |]; [| |done]; destruct Hr' as (o'&Ho'&HQ); exists (o ++ o'); by rewrite Ho', Ho, app_assoc.
Qed.
Lemma emits_mono {A} (m : io A) (P Q : list byte -> option A -> Prop) : emits m P -> (forall o r, P o r -> Q o r) -> emits m Q.
Proof. intros Hm HQ w Hw. destruct (Hm w Hw) as [Hd Hr]. split; [done|]. destruct (snd (m w)); naive_solver. Qed.
Lemma emits_ret {A} (a : A) (Q : list byte -> option A -> Prop) : Q [] (Some a) -> emits (io_ret a) Q.
Proof. intros HQ w Hw. split; [done|]. exists []. by rewrite app_nil_r. Qed.
Lemma emits_of {A} (m : option A) : emits (io_of (of_option m)) (fun o r => o = [] /\ r = m).
Proof. intros w Hw. split; [done|]. destruct m; exists []; by rewrite app_nil_r. Qed.
Lemma emits_check b : emits (io_check b) (fun o r => o = [] /\ (is_Some r -> b = true)).
Proof. intros w Hw. destruct b; (split; [done|]); exists []; rewrite app_nil_r; [done|]. split_and!; [done|done|]. by intros [? ?]. Qed.
Lemma emits_try {A} (m : io A) (Q : list byte -> option A -> Prop) : emits m Q -> emits (io_try m) (fun o r => exists r', r = Some r' /\ Q o r').
Proof. intros Hm w Hw. unfold io_try. destruct (Hm w Hw) as [Hd Hr]. destruct (m w) as [w1 [a| |]]; simpl in *; (split; [done|]); naive_solver. Qed.
(** Receiving writes nothing. *)
Lemma emits_quiet {A} (m : io A) : keeps_detail m -> keeps_out m -> emits m (fun o _ => o = []).
Proof. intros Hd Ho w Hw. destruct (Hd w Hw) as (H1&H2&_). split; [done|]. destruct (snd (m w)); [| |done]; exists []; by rewrite Ho, app_nil_r. Qed.
(** A send writes a prefix of its bytes, and all of them when it returns. *)
Definition sends (d o : list byte) (r : option unit) : Prop := o `prefix_of` d /\ (is_Some r <-> o = d).
Lemma emits_send d : emits (send_bytes d) (sends d).
Proof.
  intros w Hw. unfold send_bytes, protocol_send_n_data. pose proof (send_loop_spec (n_tls (w_net w)) (n_bwlimit (w_net w)) (n_tx (w_net w)) d) as Hs.
  destruct (send_loop _ _ _ d) as [[tx out] ok]. destruct Hs as [Hp Hok]. cbn. split; [done|]. destruct ok; cbn; exists out; (split; [done|split; [done|]]).
  - split; [intros _; by apply Hok|by eexists].
  - split; [by intros [? ?]|]. intros Ho. by apply Hok in Ho.
Qed.
Lemma emits_sends f g d e : emits f (sends d) -> emits g (sends e) -> emits (f >~ g) (sends (d ++ e)).
Proof.
  intros Hf Hg. eapply emits_bind; [exact Hf| |].
  - intros o [[t ->] Hn]. split; [exists (t ++ e); by rewrite app_assoc|]. split; [by intros [? ?]|]. intros He. rewrite <- app_assoc in He. apply (f_equal length) in He. rewrite !length_app in He.
    assert (t = []) as -> by (apply nil_length_inv; lia). rewrite app_nil_r in Hn. by destruct (proj2 Hn eq_refl).
  - intros [] o [_ Ho]. assert (o = d) as -> by (by apply Ho). eapply emits_mono; [exact Hg|]. intros o' r [Hp Hr]. split; [by apply prefix_app|]. rewrite Hr. split; [by intros ->|]. by intros ?%app_inv_head.
Qed.

(** ** Receiving *)

Lemma keeps_detail_recv_int wd : keeps_detail (recv_int wd).
Proof. apply keeps_detail_total; [apply total_recv_int|apply recv_int_detail]. Qed.
Lemma keeps_detail_check b : keeps_detail (io_check b).
Proof. apply keeps_detail_total; [apply total_check|by destruct b]. Qed.
Lemma keeps_out_recv_int wd : keeps_out (recv_int wd).
Proof. apply keeps_out_bind; [apply keeps_out_recv|done]. Qed.
Lemma keeps_detail_str `{Heap} : keeps_detail protocol_receive_str.
Proof.
  unfold protocol_receive_str. apply (keeps_detail_bind _ _ (fun z => 0 <= z)); [apply keeps_detail_recv_int| |].
  { intros w z Hz. pose proof (gives_recv_int 8 w) as Hg. rewrite Hz in Hg. lia. }
  intros size Hs. do 2 (apply (keeps_detail_bind _ _ (fun _ => True)); [apply keeps_detail_check|done|]; intros _ _).
  apply (keeps_detail_bind _ _ (fun _ => True)); [apply keeps_detail_total; [by apply total_recv_bytes|apply recv_bytes_detail]|done|]. intros d _.
  apply (keeps_detail_bind _ _ (fun _ => True)); [apply keeps_detail_check|done|]. intros _ _. by apply keeps_detail_total.
Qed.
Lemma keeps_out_str `{Heap} : keeps_out protocol_receive_str.
Proof.
  unfold protocol_receive_str. apply keeps_out_bind; [apply keeps_out_recv_int|]. intros size. do 2 (apply keeps_out_bind; [apply keeps_out_check|]; intros _).
  apply keeps_out_bind; [apply keeps_out_recv|]. intros d. apply keeps_out_bind; [apply keeps_out_check|done].
Qed.
Lemma keeps_detail_status : keeps_detail protocol_receive_status.
Proof.
  unfold protocol_receive_status. apply (keeps_detail_bind _ _ (fun _ => True)); [apply keeps_detail_recv_int|done|]. intros z _.
  apply (keeps_detail_bind _ _ (fun _ => True)); [apply keeps_detail_check|done|]. intros _ _. apply keeps_capture.
Qed.
Lemma keeps_out_status : keeps_out protocol_receive_status.
Proof. unfold protocol_receive_status. apply keeps_out_bind; [apply keeps_out_recv_int|]. intros z. apply keeps_out_bind; [apply keeps_out_check|]. intros _. apply keeps_out_capture. Qed.
Lemma emits_try_str `{Heap} : emits (io_try protocol_receive_str) (fun o r => o = [] /\ is_Some r).
Proof. eapply emits_mono; [apply emits_try, emits_quiet; [apply keeps_detail_str|apply keeps_out_str]|]. naive_solver. Qed.

(** ** The verification *)

Section Verify.
Context `{HH : Heap} {C : Crypto}.

Definition str_frame (s : list byte) : list byte := put_le 8 (zlen s) ++ s.
Lemma emits_str s : emits (protocol_send_str (Some s)) (sends (str_frame s)).
Proof. apply emits_sends; apply emits_send. Qed.
Definition challenge_frame (iters : Z) (salt_b64 snonce_b64 : list byte) : list byte :=
  put_le 4 STATUS_AUTH_CHALLENGE ++ put_le 4 iters ++ str_frame salt_b64 ++ str_frame snonce_b64.
Definition ok_frame (sig_b64 : list byte) : list byte := put_le 4 STATUS_AUTH_OK ++ str_frame sig_b64.

(** The peer has shown that it knows a preimage of the key that is stored for
    [e], under this connection's nonce; [server_sig] answers it. *)
Definition proven (e : CredentialEntry) (snonce server_sig : list byte) : Prop :=
  exists cnonce proof msg client_sig,
    credentials_build_auth_message (ce_user e) snonce cnonce CREDENTIAL_AUTH_MESSAGE_MAX = Some msg /\
    hmac_sha256 (ce_stored e) msg = Some client_sig /\ sha256 (xor_bytes proof client_sig) = Some (ce_stored e) /\
    hmac_sha256 (ce_server e) msg = Some server_sig.

Lemma hash_length (f : option (list byte)) o : (x ← f; if zlen x =? CREDENTIAL_KEY_LEN then Some x else None) = Some o -> zlen o = CREDENTIAL_KEY_LEN.
Proof. destruct f as [x|]; cbn [mbind option_bind]; [|done]. destruct (Z.eqb_spec (zlen x) CREDENTIAL_KEY_LEN); [|done]. by intros [= <-]. Qed.
Lemma verify_response_true v user snonce cnonce proof sig : zlen (v_stored v) = CREDENTIAL_KEY_LEN -> credentials_verify_response v user snonce cnonce proof = (true, sig) ->
  v_found v = true /\ exists msg client_sig server_sig, sig = Some server_sig /\ credentials_build_auth_message user snonce cnonce CREDENTIAL_AUTH_MESSAGE_MAX = Some msg /\
    hmac_sha256 (v_stored v) msg = Some client_sig /\ sha256 (xor_bytes proof client_sig) = Some (v_stored v) /\ hmac_sha256 (v_server v) msg = Some server_sig.
Proof.
  intros Hv. unfold credentials_verify_response. destruct (credentials_build_auth_message _ _ _ _) as [msg|]; [|done]. destruct (hmac_sha256 (v_stored v) msg) as [cs|] eqn:E1; cbn [mbind option_bind]; [|done].
  destruct (sha256 (xor_bytes proof cs)) as [rec|] eqn:E2; cbn [mbind option_bind]; [|done]. destruct (hmac_sha256 (v_server v) msg) as [ss|] eqn:E3; cbn [mbind option_bind]; [|done].
  intros [= [Hf Heq]%andb_true_iff <-]. pose proof (hash_length _ _ E2) as Hrec. unfold zlen in Hrec, Hv. apply secure_equal_spec in Heq; [|lia|lia]. subst rec. split; [done|]. by exists msg, cs, ss.
Qed.
Lemma server_verify_spec s user users v u snonce cn pf sig : store_ok s -> user = Some u -> credentials_get_verifier (Some s) user users = Some v -> server_verify u v snonce cn pf = Some sig ->
  exists e, Some u ∈ users /\ e ∈ st_entries s /\ ce_user e = u /\ proven e snonce sig.
Proof.
  intros Hs -> Hv. apply get_verifier_spec in Hv as (_&_&Hst&_&Hf); [|done]. unfold server_verify. destruct cn as [cn|]; cbn [mbind option_bind]; [|done]. destruct pf as [pf|]; cbn [mbind option_bind]; [|done].
  destruct (decode_exact cn _) as [cnonce|]; cbn [mbind option_bind]; [|done]. destruct (decode_exact pf _) as [proof|]; cbn [mbind option_bind]; [|done].
  destruct (credentials_verify_response v u snonce cnonce proof) as [[] sg] eqn:Ev; [|done]. intros ->. apply verify_response_true in Ev as (Hfound&msg&csig&ssig&[= ->]&Hm&H1&H2&H3); [|done].
  rewrite Hfound in Hf. destruct Hf as (?&e&[= <-]&Hin&He&Hu&(_&_&Hvs&Hvv)). exists e. split_and!; [done..|]. rewrite Hvs in *. rewrite Hvv in *. exists cnonce, proof, msg, csig. by rewrite Hu.
Qed.

(** The challenge a connection is owed *)
Definition challenge_of (s : CredentialStore) (user : option (list byte)) (users : list (option (list byte))) (random : option (list byte)) : list byte :=
  match server_challenge (Some s) user users random with
  | Some (_, v, _, salt_b64, snonce_b64) => challenge_frame (v_iters v) salt_b64 snonce_b64
  | None => []
  end.
(** This login is right. *)
Definition logged_in (s : CredentialStore) (user : option (list byte)) (users : list (option (list byte))) (random : option (list byte)) (sig : list byte) : Prop :=
  exists u e snonce, user = Some u /\ random = Some snonce /\ Some u ∈ users /\ e ∈ st_entries s /\ ce_user e = u /\ proven e snonce sig.
Lemma server_exchange_emits s user users random : store_ok s ->
  emits (server_exchange (Some s) user users random) (fun o r => o `prefix_of` challenge_of s user users random /\
    match r with Some sig => o = challenge_of s user users random /\ logged_in s user users random sig | None => True end).
Proof.
  intros Hs. unfold server_exchange. eapply emits_bind; [apply emits_of|intros o [-> _]; split; [apply prefix_nil|done]|]. intros [[[[u v] snonce] salt_b64] snonce_b64] o [-> Hc].
  unfold challenge_of. rewrite <- Hc. symmetry in Hc.
  assert (Hch : user = Some u /\ random = Some snonce /\ credentials_get_verifier (Some s) user users = Some v).
  { unfold server_challenge in Hc. destruct user as [u'|]; cbn [mbind option_bind] in Hc; [|done]. destruct (credentials_get_verifier _ _ _) as [v'|]; cbn [mbind option_bind] in Hc; [|done].
    destruct random as [n|]; cbn [mbind option_bind] in Hc; [|done]. destruct (credentials_b64_encode _ 25); cbn [mbind option_bind] in Hc; [|done]. destruct (credentials_b64_encode _ 45); cbn [mbind option_bind] in Hc; [|done]. by simplify_eq. }
  destruct Hch as (Hu&Hr&Hv). set (ch := challenge_frame (v_iters v) salt_b64 snonce_b64).
  (* the four sends are one *)
  assert (Hsend : forall (k : io (list byte)) w, (protocol_send_status STATUS_AUTH_CHALLENGE >~ protocol_send_int (v_iters v) >~ protocol_send_str (Some salt_b64) >~ protocol_send_str (Some snonce_b64) >~ k) w =
    ((protocol_send_status STATUS_AUTH_CHALLENGE >~ protocol_send_int (v_iters v) >~ protocol_send_str (Some salt_b64) >~ protocol_send_str (Some snonce_b64)) >~ k) w).
  { intros k w. unfold io_bind. destruct (protocol_send_status _ w) as [w1 [[]| |]]; try done. destruct (protocol_send_int _ w1) as [w2 [[]| |]]; try done.
    destruct (protocol_send_str (Some salt_b64) w2) as [w3 [[]| |]]; done. }
  cbn [app]. intros w Hw. rewrite Hsend. revert w Hw.
  match goal with |- forall w, _ -> zlen (w_detail (fst (?m w))) = _ /\ _ => change (emits m (fun o r => o `prefix_of` ch /\ match r with Some sig => o = ch /\ logged_in s user users random sig | None => True end)) end.
  eapply emits_bind with (P := sends ch).
  { do 3 (apply emits_sends; [first [apply emits_send|apply emits_str]|]). apply emits_str. }
  { intros o [Hp _]. by split. }
  intros [] o [_ Ho]. assert (o = ch) as -> by (by apply Ho). clear Ho Hsend.
  assert (Hdone : ch ++ [] `prefix_of` ch) by (by rewrite app_nil_r).
  eapply emits_bind; [apply emits_quiet; [apply keeps_detail_status|apply keeps_out_status]|by intros o ->|]. intros st o ->.
  eapply emits_bind; [apply emits_check|by intros o [-> _]|]. intros _ o [-> _]. eapply emits_bind; [apply emits_try_str|by intros o [-> _]|]. intros cn o [-> _].
  eapply emits_bind; [apply emits_try_str|by intros o [-> _]|]. intros pf o [-> _]. eapply emits_mono; [apply emits_of|]. intros o r [-> ->]. cbn [app]. split; [done|].
  destruct (server_verify u v snonce cn pf) as [sig|] eqn:Esv; [|done]. split; [apply app_nil_r|].
  destruct (server_verify_spec s user users v u snonce cn pf sig) as (e&?&?&?&?); [done..|]. exists u, e, snonce. by split_and!.
Qed.

Lemma handshake_emits s user users random : store_ok s ->
  emits (server_auth_handshake (Some s) user users random) (fun o r => exists b p t, r = Some b /\ o = p ++ t /\ p `prefix_of` challenge_of s user users random /\
    ((b = false /\ t `prefix_of` put_le 4 STATUS_AUTH_FAILED) \/
     (p = challenge_of s user users random /\ exists sig sig_b64, logged_in s user users random sig /\ credentials_b64_encode sig 45 = Some sig_b64 /\
        t `prefix_of` ok_frame sig_b64 /\ (b = true <-> t = ok_frame sig_b64)))).
Proof.
  intros Hs. unfold server_auth_handshake. eapply emits_bind; [apply emits_try, server_exchange_emits, Hs|by intros o (?&?&_)|]. intros r p (r'&[= <-]&Hp&Hr). destruct r as [sig|].
  - destruct Hr as [-> Hl]. eapply emits_bind.
    { apply emits_try. eapply emits_bind with (Q := fun o r => match credentials_b64_encode sig 45 with Some b64 => sends (ok_frame b64) o r | None => o = [] /\ r = None end); [apply emits_of| |].
      - intros o [-> He]. by rewrite <- He.
      - intros b64 o [-> He]. rewrite <- He. cbn [app]. apply (emits_sends _ _ (put_le 4 STATUS_AUTH_OK) (str_frame b64)); [apply emits_send|apply emits_str]. }
    { by intros o (?&?&_). }
    intros sent o (r'&[= <-]&Ho). apply emits_ret. rewrite app_nil_r. exists (bool_decide (is_Some sent)), (challenge_of s user users random), o. split_and!; [done|done|done|].
    destruct (credentials_b64_encode sig 45) as [b64|] eqn:Eb.
    + destruct Ho as [Hpre Hiff]. right. split; [done|]. exists sig, b64. split_and!; [done|done|done|]. by rewrite bool_decide_eq_true.
    + destruct Ho as [-> ->]. left. split; [done|apply prefix_nil].
  - eapply emits_bind; [apply emits_try, emits_send|by intros o (?&?&_)|]. intros x o (r'&[= <-]&[Ho _]). apply emits_ret. rewrite app_nil_r. exists false, p, o. split_and!; [done|done|done|]. by left.
Qed.

(** ** The message *)

Lemma write_be32_inj a b : 0 <= a < 2 ^ 16 -> 0 <= b < 2 ^ 16 -> write_be32 a = write_be32 b -> a = b.
Proof.
  intros Ha Hb Heq. unfold write_be32 in Heq. cbn [fmap list_fmap] in Heq. injection Heq as _ _ H8 H0. apply (f_equal bZ) in H8, H0. rewrite !byte.unsigned_of_Z in H8, H0. unfold byte.wrap in *.
  rewrite !Z.shiftr_div_pow2, !Z.pow_0_r, !Z.div_1_r in H0 by lia. rewrite !Z.shiftr_div_pow2 in H8 by lia. change (2 ^ 8) with 256 in *. change (2 ^ 16) with 65536 in *.
  rewrite !(Z.mod_small (_ / 256)) in H8 by (split; [apply Z.div_pos; lia|apply Z.div_lt_upper_bound; lia]). pose proof (Z.div_mod a 256). pose proof (Z.div_mod b 256). lia.
Qed.
Lemma message_injective u s c u' s' c' n m : zlen s = zlen s' -> credentials_build_auth_message u s c n = Some m -> credentials_build_auth_message u' s' c' n = Some m -> u = u' /\ s = s' /\ c = c'.
Proof.
  intros Hs. unfold credentials_build_auth_message, CREDENTIAL_MAX_USER_LEN. destruct (Z.gtb_spec (zlen u) 256) as [|Hu]; [done|]. destruct (_ <? _); [done|]. intros Hm. apply (inj Some) in Hm.
  destruct (Z.gtb_spec (zlen u') 256) as [|Hu']; [done|]. destruct (_ <? _); [done|]. intros Heq. apply (inj Some) in Heq. rewrite <- Hm in Heq. symmetry in Heq. apply app_inv_head in Heq. pose proof (zlen_nonneg u). pose proof (zlen_nonneg u').
  apply app_inj_1 in Heq as [Hl Heq]; [|done]. apply write_be32_inj in Hl; [|lia|lia]. apply app_inj_1 in Heq as [-> Heq]; [|unfold zlen in Hl; lia]. apply app_inv_head in Heq.
  apply app_inj_1 in Heq as [-> Heq]; [|unfold zlen in Hs; lia]. by apply app_inv_head in Heq.
Qed.

(** C17: only the right password opens a module, and nothing else is told.  Let the
    daemon load any credential files, and let any peer that can write any bytes
    and drop the connection at any moment log in under any name: the handshake
    ends without misbehaving; what it writes is at most the challenge of this
    connection followed by at most one terminal frame, and the first byte of
    AUTH_OK is written only when the user is on the module's list and in the
    store, and the peer has proven, for a message that holds this connection's
    nonce and this user, to know a preimage of the key stored for that very user.
    It reports success exactly when the whole AUTH_OK was written.  The message
    determines the user and both nonces, so a proof is good for one connection. *)
Theorem login_sound `{SecretFs} dummy_key password_file early_input_file :
  owp (credentials_load dummy_key password_file early_input_file) (fun s => forall user users random,
    emits (server_auth_handshake (Some s) user users random) (fun o r => exists b p t, r = Some b /\ o = p ++ t /\ p `prefix_of` challenge_of s user users random /\
      ((b = false /\ t `prefix_of` put_le 4 STATUS_AUTH_FAILED) \/
       (p = challenge_of s user users random /\ exists sig sig_b64, logged_in s user users random sig /\ credentials_b64_encode sig 45 = Some sig_b64 /\
          t `prefix_of` ok_frame sig_b64 /\ (b = true <-> t = ok_frame sig_b64))))) /\
  (forall u s c u' s' c' m, zlen s = zlen s' -> credentials_build_auth_message u s c CREDENTIAL_AUTH_MESSAGE_MAX = Some m ->
     credentials_build_auth_message u' s' c' CREDENTIAL_AUTH_MESSAGE_MAX = Some m -> u = u' /\ s = s' /\ c = c').
Proof.
  split; [|intros *; apply message_injective]. eapply owp_mono; [apply load_owp|]. intros s Hs user users random. by apply handshake_emits.
Qed.
End Verify.
