(* ===== verification/AuthTrip.v ===== *)
(** The login of a user who knows the password: both halves of the handshake
    against each other, over a store written by --hash-credentials. *)

From stdpp Require Import list.
From S2P Require Import Prelude Alloc CStr Paths Names Libc DataBuf Transport Session Wp ConfigTrip Credentials CredentialsSafe Base64 CredentialsTrip Auth AuthSafe.

(** ** Both directions of a connection

    On a connection that brings [i] and stays up in both directions, [f] reads
    exactly [i], writes exactly [o] and gives [a]. *)
Definition talks {A} (f : io A) (i o : list byte) (a : A) : Prop :=
  forall w rest k j, delivers w i rest k -> 0 <= j -> steady_tx (w_net w) (zlen o + j) ->
    exists w', f w = (w', Ret a) /\ delivers w' [] rest k /\ n_out (w_net w') = n_out (w_net w) ++ o /\ steady_tx (w_net w') j.

Lemma talks_bind {A B} (f : io A) (g : A -> io B) i1 i2 o1 o2 a b : talks f i1 o1 a -> talks (g a) i2 o2 b -> talks (io_bind f g) (i1 ++ i2) (o1 ++ o2) b.
Proof.
  intros Hf Hg w rest k j (Hin&Hst&Hk&Hd) Hj Htx. rewrite zlen_app in Hst, Htx. pose proof (zlen_nonneg i2). pose proof (zlen_nonneg o2).
  destruct (Hf w (i2 ++ rest) (zlen i2 + k) (zlen o2 + j)) as (w1&E1&(Hin1&Hst1&_&Hd1)&Ho1&Htx1); [split_and!; [by rewrite Hin, app_assoc|by rewrite Z.add_assoc|lia|done]|lia|by rewrite Z.add_assoc|].
  change (zlen []) with 0 in Hst1. rewrite Z.add_0_l in Hst1. destruct (Hg w1 rest k j) as (w2&E2&Hd2&Ho2&Htx2); [done|done|done|].
  exists w2. unfold io_bind. rewrite E1, E2. split_and!; [done..| |done]. by rewrite Ho2, Ho1, app_assoc.
Qed.
Lemma talks_then {A B} (f : io A) (g : A -> io B) i o a b : talks f [] [] a -> talks (g a) i o b -> talks (io_bind f g) i o b.
Proof. apply (talks_bind f g [] i [] o). Qed.
Lemma talks_reads {A} (f : io A) m a d : consumes f m a d -> talks f m [] a.
Proof.
  intros Hf w rest k j Hw Hj Htx. destruct (Hf w rest k Hw) as (w'&E&Hin&Hst&(_&_&_&_&_&Ho&Ht&Htls&_)&_&Hl). exists w'. destruct Hw as (_&_&Hk&_). split_and!; [done| |by rewrite Ho, app_nil_r|].
  - split_and!; [done|by rewrite Z.add_0_l|done|done].
  - unfold steady_tx in *. change (zlen []) with 0 in Htx. rewrite Z.add_0_l in Htx. by rewrite Htls, Ht.
Qed.
Lemma talks_send d : talks (send_bytes d) [] d tt.
Proof.
  intros w rest k j (Hin&Hst&Hk&Hl) Hj Htx. destruct (send_live (w_net w) d j) as (n&E&(Ho&Hi&Hr&Ht&_)&Hst'); [done..|]. unfold send_bytes. rewrite E. eexists. split; [reflexivity|].
  split_and!; [|done|done]. unfold delivers, steady_rx in *. cbn. by rewrite Hi, Hr, Ht.
Qed.
Lemma talks_of {A} (m : outcome A) a : m = Ret a -> talks (io_of m) [] [] a.
Proof. intros ->. apply (talks_reads _ _ _ id), consumes_ret. Qed.
Lemma talks_check b : b = true -> talks (io_check b) [] [] tt.
Proof. intros Hb. by apply (talks_reads _ _ _ id), consumes_check. Qed.
Lemma talks_ret {A} (a : A) : talks (io_ret a) [] [] a.
Proof. apply (talks_reads _ _ _ id), consumes_ret. Qed.
Lemma talks_try {A} (f : io A) i o a : talks f i o a -> talks (io_try f) i o (Some a).
Proof. intros Hf w rest k j Hw Hj Htx. destruct (Hf w rest k j Hw Hj Htx) as (w'&E&?). exists w'. unfold io_try. by rewrite E. Qed.
Lemma talks_more {A B} (f : io A) (g : A -> io B) i o1 o2 a b : talks f [] o1 a -> talks (g a) i o2 b -> talks (io_bind f g) i (o1 ++ o2) b.
Proof. apply (talks_bind f g [] i o1 o2). Qed.
Lemma talks_next {A B} (f : io A) (g : A -> io B) i1 i2 o a b : talks f i1 [] a -> talks (g a) i2 o b -> talks (io_bind f g) (i1 ++ i2) o b.
Proof. apply (talks_bind f g i1 i2 [] o). Qed.

Lemma talks_status st : 0 <= st <= STATUS_STATS -> st <> STATUS_ERROR_DETAIL -> talks protocol_receive_status (put_le 4 st) [] st.
Proof.
  intros Hst Hd. rewrite <- (app_nil_r (put_le 4 st)). eapply (talks_reads _ _ _ _). apply consumes_status_word; [done|]. unfold protocol_capture_error_detail.
  instantiate (1 := if st =? STATUS_KEEPALIVE then id else insert 0%nat Byte.x00). destruct (st =? STATUS_KEEPALIVE); [apply consumes_ret|].
  apply (consumes_bind _ _ [] [] tt st (insert 0%nat Byte.x00) id); [apply consumes_clear|]. destruct (Z.eqb_spec st STATUS_ERROR_DETAIL); [done|]. apply consumes_ret.
Qed.
Section Strings.
Context `{HH : Heap}.
Lemma talks_send_str s : talks (protocol_send_str (Some s)) [] (str_frame s) tt.
Proof. apply (talks_more _ _ [] (put_le 8 (zlen s)) s tt); apply talks_send. Qed.
Lemma talks_str s : zlen s <= MAX_STRING_SIZE -> Byte.x00 ∉ s -> protocol_alloc_for_session (zlen s + 1) = true -> talks protocol_receive_str (str_frame s) [] s.
Proof. intros H1 H2 H3. by apply (talks_reads _ _ _ id), consumes_str. Qed.
End Strings.

(** ** The exchange *)

Lemma lxor_range a b : 0 <= a < 256 -> 0 <= b < 256 -> 0 <= Z.lxor a b < 256.
Proof.
  intros Ha Hb. assert (0 <= Z.lxor a b) by (apply Z.lxor_nonneg; lia). split; [done|]. destruct (Z.eq_dec (Z.lxor a b) 0); [lia|]. change 256 with (2 ^ 8). apply Z.log2_lt_pow2; [lia|].
  pose proof (Z.log2_lxor a b ltac:(lia) ltac:(lia)). pose proof (Z.log2_le_mono a 255 ltac:(lia)). pose proof (Z.log2_le_mono b 255 ltac:(lia)). change (Z.log2 255) with 7 in *. lia.
Qed.
Lemma xor_involutive a b : length a = length b -> xor_bytes (xor_bytes a b) b = a.
Proof.
  revert b. induction a as [|x a IH]; intros [|y b] Hl; try done. unfold xor_bytes in *. cbn [zip_with]. injection Hl as Hl. rewrite IH by done. f_equal.
  pose proof (lxor_range _ _ (byte.unsigned_range x) (byte.unsigned_range y)). rewrite byte.unsigned_of_Z. unfold byte.wrap. rewrite Z.mod_small by (change (2 ^ 8) with 256; lia).
  rewrite Z.lxor_assoc, Z.lxor_nilpotent, Z.lxor_0_r. apply byte.of_Z_unsigned.
Qed.
Lemma zlen_xor a b : zlen a = zlen b -> zlen (xor_bytes a b) = zlen a.
Proof. unfold zlen, xor_bytes. rewrite length_zip_with. lia. Qed.
Lemma same_user (l : list CredentialEntry) e e' : NoDup (ce_user <$> l) -> e ∈ l -> e' ∈ l -> ce_user e = ce_user e' -> e = e'.
Proof.
  intros Hn [i Hi]%list_elem_of_lookup [j Hj]%list_elem_of_lookup Hu. assert (i = j) as ->; [|congruence]. apply (NoDup_lookup (ce_user <$> l) i j (ce_user e) Hn); rewrite list_lookup_fmap; [by rewrite Hi|by rewrite Hj, Hu].
Qed.

Section Login.
Context {C : Crypto} {B : Base64 C} {D : Digests C}.

Lemma message_runs u snonce cnonce : zlen u <= CREDENTIAL_MAX_USER_LEN -> exists msg, credentials_build_auth_message u snonce cnonce CREDENTIAL_AUTH_MESSAGE_MAX = Some msg.
Proof.
  intros Hu. unfold credentials_build_auth_message, CREDENTIAL_AUTH_MESSAGE_MAX. destruct (Z.gtb_spec (zlen u) CREDENTIAL_MAX_USER_LEN); [lia|].
  destruct (Z.ltb_spec (16 + 4 + CREDENTIAL_MAX_USER_LEN + 4 + CREDENTIAL_NONCE_LEN + 4 + CREDENTIAL_NONCE_LEN) (16 + 4 + zlen u + 4 + CREDENTIAL_NONCE_LEN + 4 + CREDENTIAL_NONCE_LEN)); [lia|]. by eexists.
Qed.
(** The answer of a client with the password convinces a daemon that holds its
    keys, and the other way round. *)
Lemma response_accepted u p iters salt ck sk vk snonce cnonce :
  zlen u <= CREDENTIAL_MAX_USER_LEN -> zlen cnonce = CREDENTIAL_NONCE_LEN -> credentials_compute_keys p salt iters = Some (ck, sk, vk) -> zlen ck = CREDENTIAL_KEY_LEN -> zlen sk = CREDENTIAL_KEY_LEN -> sha256 ck = Some sk ->
  exists proof sig, client_response u p iters salt snonce cnonce = Some (evp_encode cnonce, evp_encode proof, sig) /\ zlen proof = CREDENTIAL_KEY_LEN /\ zlen sig = CREDENTIAL_KEY_LEN /\
    forall v, v_found v = true -> v_stored v = sk -> v_server v = vk -> server_verify u v snonce (Some (evp_encode cnonce)) (Some (evp_encode proof)) = Some sig.
Proof.
  intros Hu Hcn Hk Hck Hsk Hsha. destruct (message_runs u snonce cnonce Hu) as [msg Hmsg]. destruct (hmac_runs sk msg) as (csig&Hcs&Hcsl). destruct (hmac_runs vk msg) as (ssig&Hss&Hssl).
  assert (Hlen : length ck = length csig) by (unfold zlen in *; lia). exists (xor_bytes ck csig), ssig. unfold client_response, credentials_client_proof. rewrite Hk. cbn [mbind option_bind]. rewrite Hmsg. cbn [mbind option_bind].
  rewrite Hcs. cbn [mbind option_bind]. rewrite Hss. cbn [mbind option_bind]. assert (Hpl : zlen (xor_bytes ck csig) = CREDENTIAL_KEY_LEN) by (rewrite zlen_xor; [done|congruence]).
  unfold CREDENTIAL_NONCE_LEN, CREDENTIAL_KEY_LEN in *. rewrite !b64_encoded by (rewrite ?Hcn, ?Hpl; done). cbn [mbind option_bind]. split_and!; [done|done|done|]. intros v Hf Hvs Hvv.
  unfold server_verify. cbn [mbind option_bind]. unfold CREDENTIAL_NONCE_LEN, CREDENTIAL_KEY_LEN. rewrite (decode_exact_encoded cnonce 32), (decode_exact_encoded (xor_bytes ck csig) 32) by (try done; lia). cbn [mbind option_bind].
  unfold credentials_verify_response. rewrite Hmsg, Hvs, Hvv, Hcs. cbn [mbind option_bind]. rewrite xor_involutive, Hsha by done. cbn [mbind option_bind]. rewrite Hss. cbn [mbind option_bind]. rewrite Hf. cbn [andb].
  assert (Hl : length sk = Z.to_nat CREDENTIAL_KEY_LEN) by (unfold zlen, CREDENTIAL_KEY_LEN in *; lia). by rewrite (proj2 (secure_equal_spec sk sk _ Hl Hl) eq_refl).
Qed.

(** A session whose limit admits the strings of the handshake *)
Definition admits (h : Heap) : Prop := forall n, 0 <= n <= 64 -> @protocol_alloc_for_session h n = true.
Lemma encoded_travels {h : Heap} x : admits h -> zlen x <= 32 -> talks (@protocol_receive_str h) (str_frame (evp_encode x)) [] (evp_encode x).
Proof.
  intros Hh Hx. pose proof (encode_length x) as He. pose proof (zlen_nonneg x). pose proof (zlen_nonneg (evp_encode x)). assert ((zlen x + 2) / 3 < 12) by (apply Z.div_lt_upper_bound; lia).
  apply talks_str; [unfold MAX_STRING_SIZE; lia|by apply encoded_avoids|apply Hh; lia].
Qed.
Lemma server_talks {h : Heap} store u users v snonce cnonce_b64 proof_b64 sig : 
  credentials_get_verifier store (Some u) users = Some v -> zlen (v_salt v) = CREDENTIAL_SALT_LEN -> zlen snonce = CREDENTIAL_NONCE_LEN -> zlen sig = CREDENTIAL_KEY_LEN ->
  talks (@protocol_receive_str h) (str_frame cnonce_b64) [] cnonce_b64 -> talks (@protocol_receive_str h) (str_frame proof_b64) [] proof_b64 ->
  server_verify u v snonce (Some cnonce_b64) (Some proof_b64) = Some sig ->
  talks (@server_auth_handshake h C store (Some u) users (Some snonce)) (put_le 4 STATUS_AUTH_RESPONSE ++ str_frame cnonce_b64 ++ str_frame proof_b64)
    (challenge_frame (v_iters v) (evp_encode (v_salt v)) (evp_encode snonce) ++ ok_frame (evp_encode sig)) true.
Proof.
  intros Hv Hsl Hnl Hsg Hcn Hpf Hok. unfold server_auth_handshake. rewrite <- (app_nil_r (put_le 4 STATUS_AUTH_RESPONSE ++ _)). eapply talks_bind.
  - apply talks_try. unfold server_exchange.
    assert (server_challenge store (Some u) users (Some snonce) = Some (u, v, snonce, evp_encode (v_salt v), evp_encode snonce)) as ->.
    { unfold server_challenge. cbn [mbind option_bind]. rewrite Hv. cbn [mbind option_bind]. unfold CREDENTIAL_SALT_LEN, CREDENTIAL_NONCE_LEN in *. rewrite !b64_encoded by (rewrite ?Hsl, ?Hnl; done). done. }
    eapply talks_then; [by apply talks_of|]. cbn beta iota zeta. unfold challenge_frame. eapply talks_more; [apply talks_send|]. eapply talks_more; [apply talks_send|]. eapply talks_more; [apply talks_send_str|].
    rewrite <- (app_nil_r (str_frame (evp_encode snonce))). eapply talks_more; [apply talks_send_str|].
    eapply talks_next; [by apply talks_status|]. eapply talks_then; [by apply talks_check|]. eapply talks_next; [apply talks_try, Hcn|].
    rewrite <- (app_nil_r (str_frame proof_b64)). eapply talks_next; [apply talks_try, Hpf|]. apply talks_of. by rewrite Hok.
  - cbn iota beta. rewrite <- (app_nil_r (ok_frame _)). eapply talks_more.
    + apply talks_try. unfold CREDENTIAL_KEY_LEN in *. rewrite b64_encoded by (rewrite ?Hsg; done). eapply talks_then; [by apply talks_of|]. cbn beta. unfold ok_frame. eapply talks_more; [apply talks_send|]. apply talks_send_str.
    + cbn beta. rewrite bool_decide_eq_true_2 by done. apply talks_ret.
Qed.
Lemma client_talks {h : Heap} u p iters salt snonce cnonce cnonce_b64 proof_b64 sig :
  admits h -> CREDENTIAL_MIN_ITERS <= iters <= CREDENTIAL_MAX_ITERS -> zlen salt = CREDENTIAL_SALT_LEN -> zlen snonce = CREDENTIAL_NONCE_LEN -> zlen sig = CREDENTIAL_KEY_LEN ->
  client_response u p iters salt snonce cnonce = Some (cnonce_b64, proof_b64, sig) ->
  talks (@client_auth_exchange h C (Some u) (Some p) (Some cnonce)) ((put_le 4 iters ++ str_frame (evp_encode salt) ++ str_frame (evp_encode snonce)) ++ ok_frame (evp_encode sig))
    (put_le 4 STATUS_AUTH_RESPONSE ++ str_frame cnonce_b64 ++ str_frame proof_b64) tt.
Proof.
  intros Hh Hi Hsl Hnl Hsg Hr. unfold CREDENTIAL_SALT_LEN, CREDENTIAL_NONCE_LEN, CREDENTIAL_KEY_LEN in *. unfold client_auth_exchange. do 2 (eapply talks_then; [by apply talks_of|]; cbn beta). rewrite <- !app_assoc.
  eapply talks_next; [apply (talks_reads _ _ _ id), reads_i32; unfold int_range, CREDENTIAL_MIN_ITERS, CREDENTIAL_MAX_ITERS in *; lia|].
  eapply talks_then; [apply talks_check; destruct (Z.ltb_spec iters CREDENTIAL_MIN_ITERS), (Z.gtb_spec iters CREDENTIAL_MAX_ITERS); done || lia|].
  eapply talks_next; [apply talks_try, encoded_travels; [done|lia]|]. eapply talks_next; [apply talks_try, encoded_travels; [done|lia]|].
  eapply talks_then. { apply talks_of. unfold client_challenge. cbn [mbind option_bind]. unfold CREDENTIAL_SALT_LEN, CREDENTIAL_NONCE_LEN. rewrite (decode_exact_encoded salt 16), (decode_exact_encoded snonce 32) by (try done; lia). done. }
  cbn beta iota zeta. eapply talks_then; [apply talks_of; by rewrite Hr|]. cbn beta iota zeta.
  eapply talks_more; [apply talks_send|]. eapply talks_more; [apply talks_send_str|]. rewrite <- (app_nil_r (str_frame proof_b64)). eapply talks_more; [apply talks_send_str|].
  unfold ok_frame. eapply talks_next; [by apply talks_status|]. eapply talks_then; [by apply talks_check|]. rewrite <- (app_nil_r (str_frame (evp_encode sig))). eapply talks_next; [apply encoded_travels; [done|lia]|].
  eapply talks_then; [apply talks_of; unfold CREDENTIAL_KEY_LEN; rewrite (decode_exact_encoded sig 32) by (try done; lia); done|]. cbn beta. apply talks_check.
  apply (secure_equal_spec sig sig); [unfold zlen in Hsg; unfold CREDENTIAL_KEY_LEN; lia..|done].
Qed.

(** The store that is loaded back *)
Lemma load_text {h : Heap} `{SecretFs} dummy_key d path iters l text :
  (forall n, malloc_ok n = true) -> secret_file_open path = Some text -> dummy_key (Some path) = Some d -> store_text iters l = Some text -> Forall account_ok l -> NoDup (a_user <$> l) ->
  exists s, credentials_load dummy_key (Some path) None = Ret s /\ store_ok s /\ st_entries s = omap (entry_of iters) l.
Proof.
  intros Hh Ho Hd Ht Hok Hnd. destruct (load_accounts Hh iters l text empty_store (S (length text))) as (s&Hl&He&_); [done|done|done|by left|intros u _; apply not_elem_of_nil|lia|].
  assert (Hload : credentials_load dummy_key (Some path) None = Ret (set_dummy s d)).
  { unfold credentials_load, load_store_file. rewrite Hh. cbn [check mbind outcome_bind]. rewrite Ho. cbn [of_option mbind outcome_bind]. rewrite Hl. cbn [mbind outcome_bind]. by rewrite Hd. }
  exists (set_dummy s d). split_and!; [done| |done]. pose proof (load_owp dummy_key (Some path) None) as Hs. by rewrite Hload in Hs.
Qed.
Lemma account_verifier s iters l u p salt users : store_ok s -> st_entries s = omap (entry_of iters) l -> (u, p, salt) ∈ l -> Some u ∈ users -> zlen u <= CREDENTIAL_MAX_USER_LEN ->
  zlen p <= CREDENTIAL_MAX_PASSWORD_LEN -> CREDENTIAL_MIN_ITERS <= iters <= CREDENTIAL_MAX_ITERS ->
  exists v ck sk vk, credentials_get_verifier (Some s) (Some u) users = Some v /\ v_found v = true /\ v_salt v = salt /\ v_iters v = iters /\ v_stored v = sk /\ v_server v = vk /\
    credentials_compute_keys p salt iters = Some (ck, sk, vk) /\ zlen ck = CREDENTIAL_KEY_LEN /\ zlen sk = CREDENTIAL_KEY_LEN /\ sha256 ck = Some sk.
Proof.
  intros Hs He Hin Hu Hul Hp Hi. destruct (compute_keys_runs p salt iters Hp Hi) as (ck&sk&vk&Ek&Hck&Hsk&_&Hsha).
  assert (Hmem : MkEntry u salt iters sk vk ∈ st_entries s). { rewrite He. apply list_elem_of_omap. exists (u, p, salt). split; [done|]. unfold entry_of. by rewrite Ek. }
  assert (Hv : exists v, credentials_get_verifier (Some s) (Some u) users = Some v) by (unfold credentials_get_verifier; destruct (hmac_runs (st_dummy_key s) (default [] (Some u))) as (m&->&_); by eexists).
  destruct Hv as [v Hv]. exists v, ck, sk, vk. pose proof (get_verifier_spec s (Some u) users v Hs Hv) as (_&_&_&_&Hf). destruct (v_found v).
  - destruct Hf as (?&e&[= <-]&_&Hein&Heu&(Hv1&Hv2&Hv3&Hv4)). assert (e = MkEntry u salt iters sk vk) as -> by (destruct Hs as (Hnd&_&_); by eapply same_user). by split_and!.
  - destruct (Hf u eq_refl Hul) as [Hn|Hn]; [done|]. destruct Hn. apply list_elem_of_fmap. by exists (MkEntry u salt iters sk vk).
Qed.

(** C18: the right password logs in.  Write a store for any list of distinct users
    with --hash-credentials and let the daemon load it; then for every one of
    them, on a module that lists the user, the daemon's half and the client's half
    of the handshake, run against each other with any nonces over a connection
    that stays up, both succeed: each reads exactly what the other writes.
    Base64 round trips and the digests succeed as OpenSSL documents. *)
Theorem login_complete (hs hc : Heap) (fs : SecretFs) dummy_key d path iters l text u p salt users snonce cnonce
    (Halloc : forall n, @malloc_ok hs n = true) (Hsrv : admits hs) (Hcli : admits hc)
    (Hopen : @secret_file_open fs path = Some text) (Hdummy : dummy_key (Some path) = Some d)
    (Htext : store_text iters l = Some text) (Haccounts : Forall account_ok l) (Hdistinct : NoDup (a_user <$> l))
    (Hin : (u, p, salt) ∈ l) (Hlisted : Some u ∈ users)
    (Hsn : zlen snonce = CREDENTIAL_NONCE_LEN) (Hcn : zlen cnonce = CREDENTIAL_NONCE_LEN) :
  exists s challenge response confirm, @credentials_load hs C fs dummy_key (Some path) None = Ret s /\
    talks (@server_auth_handshake hs C (Some s) (Some u) users (Some snonce)) response (put_le 4 STATUS_AUTH_CHALLENGE ++ challenge ++ confirm) true /\
    talks (@client_auth_exchange hc C (Some u) (Some p) (Some cnonce)) (challenge ++ confirm) response tt.
Proof.
  destruct (load_text (h := hs) dummy_key d path iters l text) as (s&Hl&Hs&He); [done..|]. destruct (proj1 (Forall_forall _ _) Haccounts _ Hin) as [(Hwf&_&_) Hsalt]. cbn [a_user fst snd] in *.
  apply wellformed_length in Hwf as (_&Hul&_). assert (Hline : exists line, credentials_hash_store_line u p iters (Some salt) CREDENTIAL_MAX_LINE = Some line) by (by eapply store_text_line).
  destruct Hline as [line Hline]. apply hash_line_inv in Hline as (_&Hi&Hp&_); [|done]. destruct (account_verifier s iters l u p salt users) as (v&ck&sk&vk&Hv&Hf&Hvs&Hvi&Hst&Hsv&Hk&Hck&Hsk&Hsha); [done..|].
  destruct (response_accepted u p iters salt ck sk vk snonce cnonce) as (proof&sig&Hr&Hpl&Hsl&Hacc); [done..|]. unfold CREDENTIAL_NONCE_LEN, CREDENTIAL_KEY_LEN in *.
  exists s, (put_le 4 iters ++ str_frame (evp_encode salt) ++ str_frame (evp_encode snonce)), (put_le 4 STATUS_AUTH_RESPONSE ++ str_frame (evp_encode cnonce) ++ str_frame (evp_encode proof)), (ok_frame (evp_encode sig)).
  split_and!; [done| |by apply client_talks]. pose proof (server_talks (h := hs) (Some s) u users v snonce (evp_encode cnonce) (evp_encode proof) sig Hv ltac:(by rewrite Hvs) Hsn Hsl) as Hsrvt.
  unfold challenge_frame in Hsrvt. rewrite Hvs, Hvi, <- !app_assoc in Hsrvt. rewrite <- !app_assoc. apply Hsrvt; [apply encoded_travels; [done|lia]..|]. by apply Hacc.
Qed.
End Login.

(** ** A login *)

Definition demo_accounts : list account := [(cs "ada", cs "pass word", replicate 16 "a"%byte); (cs "bob", cs "hunter2", replicate 16 "b"%byte)].
Definition demo_text : list byte := default [] (@store_text demo_crypto CREDENTIAL_MIN_ITERS demo_accounts).
Definition demo_secret_fs : SecretFs := {| sf_open := fun _ _ => Some (MkSecret REG 1000 0x8180 true demo_text); sf_euid := 1000 |}.
Lemma login_complete_witness : exists s challenge response confirm,
  @credentials_load heap0 demo_crypto demo_secret_fs (fun _ => Some (replicate 32 "k"%byte)) (Some (cs "/etc/creds")) None = Ret s /\
  talks (@server_auth_handshake heap0 demo_crypto (Some s) (Some (cs "bob")) [Some (cs "ada"); Some (cs "bob")] (Some (replicate 32 "s"%byte))) response (put_le 4 STATUS_AUTH_CHALLENGE ++ challenge ++ confirm) true /\
  talks (@client_auth_exchange heap0 demo_crypto (Some (cs "bob")) (Some (cs "hunter2")) (Some (replicate 32 "c"%byte))) (challenge ++ confirm) response tt.
Proof.
  eapply (login_complete heap0 heap0 demo_secret_fs _ _ _ CREDENTIAL_MIN_ITERS demo_accounts demo_text (cs "bob") (cs "hunter2") (replicate 16 "b"%byte)).
  - intros n. reflexivity.
  - intros n Hn. reflexivity.
  - intros n Hn. reflexivity.
  - vm_compute. reflexivity.
  - reflexivity.
  - vm_compute. reflexivity.
  - repeat constructor; try reflexivity; by apply (bool_decide_unpack _); vm_compute.
  - apply (bool_decide_unpack _). vm_compute. exact I.
  - apply list_elem_of_further, list_elem_of_here.
  - apply list_elem_of_further, list_elem_of_here.
  - reflexivity.
  - reflexivity.
Defined.

(** The wrong password, and a user off the module's list: the daemon refuses. *)
Definition demo_store : CredentialStore := match @credentials_load heap0 demo_crypto demo_secret_fs (fun _ => Some (replicate 32 "k"%byte)) (Some (cs "/etc/creds")) None with Ret s => s | _ => empty_store end.
Definition demo_answer (user password : list byte) : option (list byte) :=
  '(cn, pf, _) ← @client_response demo_crypto user password CREDENTIAL_MIN_ITERS (replicate 16 "b"%byte) (replicate 32 "s"%byte) (replicate 32 "c"%byte);
  v ← @credentials_get_verifier demo_crypto (Some demo_store) (Some user) [Some (cs "bob")];
  @server_verify demo_crypto user v (replicate 32 "s"%byte) (Some cn) (Some pf).
Example wrong_password_refused : demo_answer (cs "bob") (cs "hunter3") = None /\ demo_answer (cs "ada") (cs "pass word") = None /\ bool_decide (demo_answer (cs "bob") (cs "hunter2") = None) = false.
Proof. split_and!; vm_compute; reflexivity. Qed.
(** A NUL in a comment makes the next line part of it: its user is gone, and the
    load succeeds. *)
Example nul_swallows_line : match @load_loop heap0 demo_crypto 999 empty_store (cs "# x" ++ [Byte.x00; Byte.x0a] ++ demo_text) with Ret s => Some (ce_user <$> st_entries s) | _ => None end = Some [cs "bob"].
Proof. vm_compute. reflexivity. Qed.
