(* ===== verification/Gate.v ===== *)
(** The gate of src/server/server.c that decides on a configuration before it is
    acknowledged: the operator's vetoes, the daemon module, host access, limits,
    ownership and authentication, and the root it installs.

    The shared registry is changed by other connections at any time, so its
    answers are a class of their own; what this connection records in it is a
    list of marks.  Log messages and the delay after a failure are left out. *)

From stdpp Require Import list gmap strings.
From S2P Require Import Prelude Alloc CStr Paths Names Libc Transport Session Basis FilterParse FilterRules ConfigWire ConfigCheck Charset Identity DaemonConf DaemonLimits Credentials Auth.

#[local] Open Scope string_scope.
#[local] Open Scope list_scope.
#[local] Open Scope Z_scope.

(** The answers of [daemon_limits_register] (slot, module index, peer and cap)
    and of [daemon_limits_auth_locked] (the seconds left) *)
Class Limits := {
  limits_register : Z -> Z -> list byte -> Z -> limit_result;
  limits_locked : list byte -> option Z;
}.
(** The answers one registry gives *)
Definition registry_limits `{Inet} (r : registry) (now : Z) : Limits := {|
  limits_register := fun slot i peer cap => match daemon_limits_register r slot i peer cap now with Ret (_, x) => x | _ => DAEMON_LIMIT_UNAVAILABLE end;
  limits_locked := fun peer => match daemon_limits_auth_locked r peer now with Ret (_, x) => x | _ => None end;
|}.

(** The options and global state of the server *)
Record server := MkServer {
  server_no_super : bool; server_allow_super : bool; allow_unauthenticated : bool;
  server_iconv_spec : option (list byte); required_client_cn : option (list byte);
  g_daemon_conf : option DaemonConf; g_credentials : option CredentialStore; g_daemon_limits : option Limits;
  current_slot : Z;                                 (** [transport_tcp_current_slot] *)
  open_root : list byte -> option (list byte);      (** [open] and [realpath] of a root *)
}.
(** The peer: its verified certificate, the descriptor, its address and whether
    it is provably local *)
Record tls_peer := MkTls { tls_verified : bool; tls_common_name : option (list byte) }.
Record peer := MkPeer { peer_ssl : option tls_peer; peer_fd : Z; peer_ip : option (list byte); is_local : bool }.
(** What the gate leaves behind: [super_mode_override], the authorized root, and
    its marks in the registry *)
Inductive mark := Failed (ip : list byte) | Succeeded (ip : list byte).
Record gate_state := MkGate { super_mode_override : Z; root : option (list byte); marks : list mark }.
Definition set_override (st : gate_state) m : gate_state := MkGate m (root st) (marks st).
Definition set_root (st : gate_state) r : gate_state := MkGate (super_mode_override st) r (marks st).
Definition add_mark (st : gate_state) m : gate_state := MkGate (super_mode_override st) (root st) (marks st ++ [m]).

Section Gate.
Context `{HH : Heap} {C : Crypto} {I : Inet} {AC : Accounts} {IC : Iconv}.
Context (S : server) (P : peer).

(** server.c [tls_client_identity_allowed] *)
Definition tls_client_identity_allowed (ssl : option tls_peer) : bool :=
  match ssl, required_client_cn S with
  | Some t, Some required =>
      match tls_common_name t with
      | Some cn => (zlen cn =? zlen required) && credentials_secure_equal cn required (length required)
      | None => false
      end
  | _, _ => false
  end.

(** server.c [configure_authorization] *)
Definition configure_authorization (path : option (list byte)) (st : gate_state) : outcome (bool * gate_state) :=
  match path with
  | None => Ret (false, set_root st None)
  | Some p =>
      match open_root S p with
      | None => Ret (false, set_root st None)
      | Some resolved => if malloc_ok (zlen resolved + 1) then Ret (true, set_root st (Some resolved)) else Ret (false, set_root st None)
      end
  end.

(** server.c [module_gate_lookup_module], [daemon_module_index] *)
Definition module_gate_lookup_module (conf : DaemonConf) (c : Config) : DaemonModule + list byte :=
  match daemon_conf_find_module conf (default [] (get_str c "module")) with
  | None => inr (cs "requested daemon module does not exist")
  | Some m => if read_only m && negb (get_bool c "dry_run") then inr (cs "requested daemon module is read only") else inl m
  end.
Definition daemon_module_index (conf : DaemonConf) (c : Config) : Z :=
  match list_find (fun m => strcmp (name m) (default [] (get_str c "module")) = 0) (modules conf) with Some (i, _) => Z.of_nat i | None => -1 end.

(** server.c [module_gate_check_hosts], [module_gate_check_limits],
    [module_gate_check_ownership]: the refusal, if any *)
Definition module_gate_check_hosts (conf : DaemonConf) (m : DaemonModule) : outcome (option (list byte)) :=
  let g := global conf in
  let global_restricted := daemon_hosts_restricted (g_hosts_allow g) (g_hosts_deny g) in
  let module_restricted := daemon_hosts_restricted (hosts_allow m) (hosts_deny m) in
  if negb global_restricted && negb module_restricted then Ret None
  else match peer_ip P with
       | None => Ret (Some (cs "cannot verify the client host against host access controls"))
       | Some ip =>
           global_ok ← (if global_restricted then daemon_hosts_allowed (Some ip) (g_hosts_allow g) (g_hosts_deny g) else Ret true);
           if negb global_ok then Ret (Some (cs "client host is not permitted by this daemon"))
           else
             module_ok ← (if module_restricted then daemon_hosts_allowed (Some ip) (hosts_allow m) (hosts_deny m) else Ret true);
             if negb module_ok then Ret (Some (cs "client host is not permitted by this daemon module")) else Ret None
       end.
Definition module_gate_check_limits (conf : DaemonConf) (c : Config) (m : DaemonModule) : option (list byte) :=
  match g_daemon_limits S with
  | None => None
  | Some L =>
      if current_slot S <? 0 then None
      else
        let module_index := daemon_module_index conf c in
        if module_index <? 0 then None
        else
          let ip := if is_local P then [] else default [] (peer_ip P) in
          match limits_register (current_slot S) module_index ip (max_connections m) with
          | DAEMON_LIMIT_OK => None
          | DAEMON_LIMIT_MODULE_FULL => Some (cs "requested daemon module is at its connection limit")
          | DAEMON_LIMIT_HOST_FULL => Some (cs "too many concurrent connections from this host")
          | DAEMON_LIMIT_UNAVAILABLE => None
          end
  end.
Definition module_gate_check_ownership (c : Config) (m : DaemonModule) (st : gate_state) : option (list byte) * gate_state :=
  if client_owner m then (None, st)
  else if identity_explicit_ownership_requested c then (Some (cs "client-chosen ownership is not permitted by this daemon module"), st)
  else (None, set_override st SUPER_MODE_OFF).

(** server.c [module_gate_authenticate]; [random] is the nonce *)
Inductive ModuleAuthResult := MODULE_AUTH_ACCEPTED | MODULE_AUTH_REFUSED (error : list byte) | MODULE_AUTH_TERMINATED.
(** The registry and the address a remote peer is counted under *)
Definition counted_peer : option (Limits * list byte) :=
  match g_daemon_limits S, peer_ip P with Some L, Some ip => if is_local P then None else Some (L, ip) | _, _ => None end.
Definition transport_ok : bool :=
  let tls_ok := match peer_ssl P with Some t => tls_verified t && tls_client_identity_allowed (peer_ssl P) | None => false end in
  let local_ok := allow_unauthenticated S && bool_decide (peer_ssl P = None) && (peer_fd P >=? 0) && is_local P in
  tls_ok || local_ok.
Definition module_gate_authenticate (c : Config) (m : DaemonModule) (random : option (list byte)) (st : gate_state) : io (ModuleAuthResult * gate_state) :=
  if zlen (auth_users m) =? 0 then io_ret (MODULE_AUTH_ACCEPTED, st)
  else if match counted_peer with Some (L, ip) => bool_decide (is_Some (limits_locked ip)) | None => false end
  then io_ret (MODULE_AUTH_REFUSED (cs "too many failed authentication attempts from this host; try again later"), st)
  else if bool_decide (g_credentials S = None)
  then io_ret (MODULE_AUTH_REFUSED (cs "requested daemon module requires authentication and no credential store is configured"), st)
  else if negb transport_ok
  then io_ret (MODULE_AUTH_REFUSED (cs "daemon module requires authentication over an encrypted, verified TLS connection"), st)
  else if peer_fd P <? 0
  then io_ret (MODULE_AUTH_REFUSED (cs "authentication failed for the requested daemon module"), st)
  else
    ok <~ server_auth_handshake (g_credentials S) (get_str c "auth_user") (Some <$> auth_users m) random;
    if negb ok then io_ret (MODULE_AUTH_TERMINATED, match counted_peer with Some (_, ip) => add_mark st (Failed ip) | None => st end)
    else io_ret (MODULE_AUTH_ACCEPTED, match counted_peer with Some (_, ip) => add_mark st (Succeeded ip) | None => st end).

(** server.c [module_gate_install_root] *)
Definition module_gate_install_root (m : DaemonModule) (st : gate_state) : outcome (verdict * gate_state) :=
  '(ok, st) ← configure_authorization (path m) st;
  Ret (if ok : bool then Accept else Reject (cs "requested daemon module root is not usable"), st).

(** server.c [server_module_gate]: the vetoes, then the daemon's module *)
Definition module_gate_daemon (conf : DaemonConf) (c : Config) (random : option (list byte)) (st : gate_state) : io (verdict * gate_state) :=
  match module_gate_lookup_module conf c with
  | inr error => io_ret (Reject error, st)
  | inl m =>
      hosts <~ io_of (module_gate_check_hosts conf m);
      match hosts with
      | Some error => io_ret (Reject error, st)
      | None =>
          match module_gate_check_limits conf c m with
          | Some error => io_ret (Reject error, st)
          | None =>
              let '(ownership, st) := module_gate_check_ownership c m st in
              match ownership with
              | Some error => io_ret (Reject error, st)
              | None =>
                  r <~ module_gate_authenticate c m random st;
                  let '(auth, st) := r in
                  match auth with
                  | MODULE_AUTH_REFUSED error => io_ret (Reject error, st)
                  | MODULE_AUTH_TERMINATED => io_ret (AlreadyTerminated, st)
                  | MODULE_AUTH_ACCEPTED => io_of (module_gate_install_root m st)
                  end
              end
          end
      end
  end.
Definition root_standalone : bool := bool_decide (g_daemon_conf S = None) && (effective_id false =? 0) && negb (server_allow_super S).
Definition server_module_gate (c : Config) (random : option (list byte)) (st : gate_state) : io (verdict * gate_state) :=
  let veto := server_no_super S || root_standalone in
  let effective := if veto then <["super_mode" := VInt SUPER_MODE_OFF]> c else c in
  let st := if veto then set_override st SUPER_MODE_OFF else st in
  if identity_copy_as_refused effective then io_ret (Reject (cs "cannot perform --copy-as on this receiver"), st)
  else if match get_str c "iconv_spec" with Some spec => negb (charset_wire_receiver_spec_valid (Some spec) (server_iconv_spec S)) | None => false end
  then io_ret (Reject (cs "client --iconv conversion cannot be honored by this server"), st)
  else
    let has_module := match get_str c "module" with Some (_ :: _) => true | _ => false end in
    match g_daemon_conf S with
    | None => io_ret (if has_module then Reject (cs "client requested a daemon module but this server is not running with --daemon") else Accept, st)
    | Some conf =>
        if negb has_module then io_ret (Reject (cs "daemon connection did not select a module (expected a host::module/path destination)"), st)
        else module_gate_daemon conf c random st
    end.

(** server.c [server_apply_security_gates]: what the session may work on; [c] is
    the accepted configuration *)
Definition server_apply_security_gates (allow_delete : bool) (authorized_root : option (list byte)) (c : Config) : outcome Config :=
  root ← of_option authorized_root;
  check (allow_unauthenticated S || negb (bool_decide (peer_ssl P = None)));;
  check (bool_decide (peer_ssl P = None) || bool_decide (required_client_cn S = None) || tls_client_identity_allowed (peer_ssl P));;
  let destination := get_str c "receive_root_directory" in
  let absolute := match destination with Some d => char_is d 0 slash | None => false end in
  check (negb (negb (bool_decide (g_daemon_conf S = None)) && absolute));;
  joined ← match destination with
           | Some d => if absolute then Ret None else match path_cat (Some root) (Some d) with Ret p => Ret (Some p) | Fail => Ret None | Stuck => Stuck end
           | None => Ret None
           end;
  let destination := match joined with Some p => Some p | None => destination end in
  destination ← of_option destination;
  check (negb (has_path_traversal (Some destination) || negb (path_is_within_root root destination)));;
  let c := match joined with Some p => <["receive_root_directory" := VStr (Some p)]> c | None => c end in
  let c := <["use_delete" := VBool (get_bool c "use_delete" && allow_delete)]> c in
  Ret (<["force_delete" := VBool (get_bool c "force_delete" && allow_delete)]> c).
End Gate.
