(* ===== verification/GateSafe.v ===== *)
(** The gate lets in only what the configuration of the server allows. *)

From stdpp Require Import list gmap strings.
From S2P Require Import Prelude Alloc CStr Paths Names Libc DataBuf Transport Session Wp Basis FilterParse FilterRules ConfigWire ConfigCheck Charset Identity DaemonConf DaemonLimits Credentials CredentialsSafe Base64 Auth AuthSafe Gate.

#[local] Open Scope string_scope.
#[local] Open Scope list_scope.
#[local] Open Scope Z_scope.

Section Admission.
Context `{HH : Heap} {C : Crypto} {I : Inet} {AC : Accounts} {IC : Iconv} {IL : InetLaws I}.
Context (S : server) (P : peer).
Context (Hconf : forall conf, g_daemon_conf S = Some conf -> servable conf) (Hstore : forall s, g_credentials S = Some s -> store_ok s) (Hip : peer_ip P <> Some []).

(** The address is in no denied network and, if any are listed, in an allowed
    one. *)
Definition host_permitted (ip : list byte) (allow deny : list (list byte)) : Prop :=
  (forall p n, p ∈ deny -> net_of p = Some n -> ~ in_net n ip) /\ (allow = [] \/ exists p n, p ∈ allow /\ net_of p = Some n /\ in_net n ip).
Definition hosts_ok (conf : DaemonConf) (m : DaemonModule) : Prop :=
  (g_hosts_allow (global conf) = [] /\ g_hosts_deny (global conf) = [] /\ hosts_allow m = [] /\ hosts_deny m = []) \/
  exists ip, peer_ip P = Some ip /\ host_permitted ip (g_hosts_allow (global conf)) (g_hosts_deny (global conf)) /\ host_permitted ip (hosts_allow m) (hosts_deny m).
(** What holds before a peer is challenged *)
Definition screened (conf : DaemonConf) (c : Config) (m : DaemonModule) : Prop :=
  m ∈ modules conf /\ get_str c "module" = Some (name m) /\ (read_only m = true -> get_bool c "dry_run" = true) /\ hosts_ok conf m /\
  (client_owner m = false -> identity_explicit_ownership_requested c = false).
Definition challenged (m : DaemonModule) : Prop :=
  transport_ok S P = true /\ is_Some (g_credentials S) /\ forall L ip, counted_peer S P = Some (L, ip) -> @limits_locked L ip = None.
Definition authenticated (c : Config) (m : DaemonModule) (random : option (list byte)) : Prop :=
  auth_users m = [] \/ (challenged m /\ exists s sig, g_credentials S = Some s /\ logged_in s (get_str c "auth_user") (Some <$> auth_users m) random sig).

Lemma unrestricted allow deny : daemon_hosts_restricted allow deny = false -> allow = [] /\ deny = [].
Proof.
  unfold daemon_hosts_restricted. intros Hr. apply orb_false_iff in Hr as [Ha Hd]. destruct (Z.gtb_spec (zlen allow) 0), (Z.gtb_spec (zlen deny) 0); try done.
  split; [destruct allow; [done|]|destruct deny; [done|]]; rewrite zlen_cons in *; match goal with H : _ + zlen ?l <= 0 |- _ => pose proof (zlen_nonneg l); lia | H : 1 + zlen ?l <= 0 |- _ => pose proof (zlen_nonneg l); lia end.
Qed.
Lemma permitted_free ip : host_permitted ip [] [].
Proof. split; [intros p n Hp; by apply elem_of_nil in Hp|by left]. Qed.
Lemma hosts_step ip allow deny : ip <> [] -> all_valid host_pattern_valid allow -> all_valid host_pattern_valid deny ->
  exists b, (if daemon_hosts_restricted allow deny then daemon_hosts_allowed (Some ip) allow deny else Ret true) = Ret b /\ (b = true -> host_permitted ip allow deny).
Proof.
  intros Hne Ha Hd. destruct (daemon_hosts_restricted allow deny) eqn:Er.
  - destruct (hosts_decision_exact ip allow deny Ha Hd Hne) as (b&E&Hb). exists b. split; [done|]. by intros Hb'%Hb.
  - apply unrestricted in Er as [-> ->]. exists true. split; [done|]. intros _. apply permitted_free.
Qed.

Lemma check_hosts_spec conf m : g_daemon_conf S = Some conf -> m ∈ modules conf -> exists r, module_gate_check_hosts P conf m = Ret r /\ (r = None -> hosts_ok conf m).
Proof.
  intros Hc Hm. destruct (Hconf conf Hc) as [[b [Hg Hms _ _]] _]. pose proof (proj1 (Forall_forall _ _) Hms m Hm) as Hmo. destruct Hg as [_ _ _ _ _ _ [Hga _] [Hgd _]]. destruct Hmo as [_ _ _ _ _ [Hma _] [Hmd _]].
  unfold module_gate_check_hosts. cbv zeta. destruct (negb _ && negb _) eqn:En.
  - exists None. split; [done|]. intros _. left. apply andb_true_iff in En as [E1%negb_true_iff E2%negb_true_iff]. apply unrestricted in E1 as [-> ->]. apply unrestricted in E2 as [-> ->]. done.
  - destruct (peer_ip P) as [ip|] eqn:Ep; [|by eexists]. destruct (hosts_step ip _ _ ltac:(naive_solver) Hga Hgd) as (g&->&Hg). cbn [mbind outcome_bind]. destruct g; cbn [negb]; [|by eexists].
    destruct (hosts_step ip _ _ ltac:(naive_solver) Hma Hmd) as (k&->&Hk). cbn [mbind outcome_bind]. destruct k; cbn [negb]; [|by eexists].
    exists None. split; [done|]. intros _. right. exists ip. auto.
Qed.
Lemma lookup_module_spec conf c n m : get_str c "module" = Some n -> module_gate_lookup_module conf c = inl m ->
  m ∈ modules conf /\ get_str c "module" = Some (name m) /\ (read_only m = true -> get_bool c "dry_run" = true).
Proof.
  intros Hn. unfold module_gate_lookup_module, daemon_conf_find_module. rewrite Hn. cbn [default]. destruct (find _ _) as [m'|] eqn:Ef; [|done]. apply find_some in Ef as [Hin He%Z.eqb_eq%strcmp_eq].
  destruct (read_only m' && negb (get_bool c "dry_run")) eqn:Er; [done|]. intros [= ->]. rewrite list_elem_of_In, He. split_and!; [done|done|]. intros Hro. rewrite Hro in Er. by destruct (get_bool c "dry_run").
Qed.

Definition counted_mark (k : list byte -> mark) (st st' : gate_state) : Prop :=
  st' = match counted_peer S P with Some (_, ip) => add_mark st (k ip) | None => st end.
Lemma authenticate_emits c m random st :
  emits (module_gate_authenticate S P c m random st) (fun o r => exists a st', r = Some (a, st') /\ (o <> [] -> challenged m) /\
    match a with
    | MODULE_AUTH_ACCEPTED => authenticated c m random /\ (st' = st \/ counted_mark Succeeded st st')
    | MODULE_AUTH_REFUSED _ => o = [] /\ st' = st
    | MODULE_AUTH_TERMINATED => counted_mark Failed st st'
    end).
Proof.
  unfold module_gate_authenticate. assert (Hrefuse : forall e, emits (io_ret (MODULE_AUTH_REFUSED e, st)) (fun o r => exists a st', r = Some (a, st') /\ (o <> [] -> challenged m) /\
    match a with MODULE_AUTH_ACCEPTED => authenticated c m random /\ (st' = st \/ counted_mark Succeeded st st') | MODULE_AUTH_REFUSED _ => o = [] /\ st' = st | MODULE_AUTH_TERMINATED => counted_mark Failed st st' end))
    by (intros e; apply emits_ret; by exists (MODULE_AUTH_REFUSED e), st).
  destruct (Z.eqb_spec (zlen (auth_users m)) 0) as [Hz|Hz].
  { apply emits_ret. exists MODULE_AUTH_ACCEPTED, st. split_and!; [done|done| |by left]. left. destruct (auth_users m) as [|x l]; [done|]. rewrite zlen_cons in Hz. pose proof (zlen_nonneg l). lia. }
  destruct (match counted_peer S P with Some _ => _ | None => _ end) eqn:El; [apply Hrefuse|]. case_bool_decide as Hg; [apply Hrefuse|].
  destruct (transport_ok S P) eqn:Et; cbn [negb]; [|apply Hrefuse]. destruct (peer_fd P <? 0); [apply Hrefuse|]. destruct (g_credentials S) as [s|] eqn:Es; [|done].
  assert (Hch : challenged m).
  { split_and!; [done|by rewrite Es|]. intros L ip Hc. rewrite Hc in El. apply bool_decide_eq_false in El. by rewrite <- eq_None_not_Some in El. }
  eapply emits_bind; [apply handshake_emits, (Hstore s eq_refl)|by intros o (b&?&?&?&_)|]. intros ok o (b&p&t&[= <-]&_&_&Hcase). destruct ok; cbn [negb]; apply emits_ret.
  - destruct Hcase as [[? _]|(_&sig&sb&Hl&_)]; [done|]. eexists MODULE_AUTH_ACCEPTED, _. split_and!; [done|done| |by right]. right. split; [done|]. by exists s, sig.
  - eexists MODULE_AUTH_TERMINATED, _. by split_and!.
Qed.

(** ** The whole gate *)

(** What an accepted connection satisfies *)
Definition admitted (c : Config) (random : option (list byte)) (st st' : gate_state) : Prop :=
  (get_bool c "copy_as_set" = true -> effective_id false = 0 /\ server_no_super S = false /\ root_standalone S = false) /\
  (server_no_super S = true \/ root_standalone S = true -> super_mode_override st' = SUPER_MODE_OFF) /\
  match g_daemon_conf S with
  | None => (get_str c "module" = None \/ get_str c "module" = Some []) /\ root st' = root st
  | Some conf => exists m p, screened conf c m /\ authenticated c m random /\
      (client_owner m = false -> super_mode_override st' = SUPER_MODE_OFF) /\ path m = Some p /\ open_root S p = root st' /\ is_Some (root st')
  end.
Definition gate_outcome (c : Config) (random : option (list byte)) (st : gate_state) (o : list byte) (r : option (verdict * gate_state)) : Prop :=
  exists v st', r = Some (v, st') /\
    (o <> [] -> exists conf m, g_daemon_conf S = Some conf /\ screened conf c m /\ challenged m) /\
    match v with
    | Accept => admitted c random st st'
    | Reject _ => root st' = root st \/ root st' = None
    | AlreadyTerminated => root st' = root st /\ forall L ip, counted_peer S P = Some (L, ip) -> marks st' = marks st ++ [Failed ip]
    end.

Lemma veto_copy_as (veto : bool) c : identity_copy_as_refused (if veto then <["super_mode" := VInt SUPER_MODE_OFF]> c else c) = false -> get_bool c "copy_as_set" = true -> effective_id false = 0 /\ veto = false.
Proof.
  unfold identity_copy_as_refused. assert (Hb : get_bool (if veto then <["super_mode" := VInt SUPER_MODE_OFF]> c else c) "copy_as_set" = get_bool c "copy_as_set") by (destruct veto; [|done]; unfold get_bool; by rewrite lookup_insert_ne).
  rewrite Hb. intros Hr Hs. rewrite Hs in Hr. cbn [andb] in Hr. apply orb_false_iff in Hr as [He Hm]. split; [by apply Z.eqb_eq, negb_false_iff|]. destruct veto; [|done]. unfold get_int in Hm. by rewrite lookup_insert_eq in Hm.
Qed.
Lemma ownership_spec c m st e st' : module_gate_check_ownership c m st = (e, st') -> root st' = root st /\ marks st' = marks st /\
  (super_mode_override st = SUPER_MODE_OFF -> super_mode_override st' = SUPER_MODE_OFF) /\
  (e = None -> client_owner m = false -> identity_explicit_ownership_requested c = false /\ super_mode_override st' = SUPER_MODE_OFF).
Proof. unfold module_gate_check_ownership. destruct (client_owner m); [intros [= <- <-]; naive_solver|]. destruct (identity_explicit_ownership_requested c); intros [= <- <-]; naive_solver. Qed.
Lemma counted_mark_keeps k st st' : counted_mark k st st' -> root st' = root st /\ super_mode_override st' = super_mode_override st.
Proof. unfold counted_mark. intros ->. by destruct (counted_peer S P) as [[? ?]|]. Qed.
Lemma install_root_spec m st p : path m = Some p -> exists v st', module_gate_install_root S m st = Ret (v, st') /\ super_mode_override st' = super_mode_override st /\
  match v with Accept => open_root S p = root st' /\ is_Some (root st') | Reject _ => root st' = None | AlreadyTerminated => False end.
Proof.
  intros Hp. unfold module_gate_install_root, configure_authorization. rewrite Hp. destruct (open_root S p) as [res|] eqn:Eo; [destruct (malloc_ok _)|]; cbn [mbind outcome_bind]; eexists _, _; (split; [done|]); (split; [done|]); cbn; naive_solver.
Qed.
Lemma daemon_gate_emits conf c n random st : g_daemon_conf S = Some conf -> get_str c "module" = Some n ->
  emits (module_gate_daemon S P conf c random st) (fun o r => exists v st', r = Some (v, st') /\
    (o <> [] -> exists m, screened conf c m /\ challenged m) /\ (super_mode_override st = SUPER_MODE_OFF -> v = Accept -> super_mode_override st' = SUPER_MODE_OFF) /\
    match v with
    | Accept => exists m p, screened conf c m /\ authenticated c m random /\ (client_owner m = false -> super_mode_override st' = SUPER_MODE_OFF) /\ path m = Some p /\ open_root S p = root st' /\ is_Some (root st')
    | Reject _ => root st' = root st \/ root st' = None
    | AlreadyTerminated => root st' = root st /\ forall L ip, counted_peer S P = Some (L, ip) -> marks st' = marks st ++ [Failed ip]
    end).
Proof.
  intros Hc Hn. unfold module_gate_daemon.
  assert (Hreject : forall e st1, root st1 = root st -> emits (io_ret (Reject e, st1)) (fun o r => exists v st', r = Some (v, st') /\ (o <> [] -> exists m, screened conf c m /\ challenged m) /\
    (super_mode_override st = SUPER_MODE_OFF -> v = Accept -> super_mode_override st' = SUPER_MODE_OFF) /\
    match v with
    | Accept => exists m p, screened conf c m /\ authenticated c m random /\ (client_owner m = false -> super_mode_override st' = SUPER_MODE_OFF) /\ path m = Some p /\ open_root S p = root st' /\ is_Some (root st')
    | Reject _ => root st' = root st \/ root st' = None
    | AlreadyTerminated => root st' = root st /\ forall L ip, counted_peer S P = Some (L, ip) -> marks st' = marks st ++ [Failed ip]
    end)) by (intros e st1 H1; apply emits_ret; exists (Reject e), st1; split_and!; [done|done|done|by left]).
  destruct (module_gate_lookup_module conf c) as [m|e] eqn:Em; [|by apply Hreject]. apply (lookup_module_spec conf c n) in Em as (Hm&Hname&Hro); [|done].
  destruct (check_hosts_spec conf m Hc Hm) as (r&Er&Hh). eapply emits_bind with (P := fun o x => o = [] /\ x = Some r).
  { rewrite Er. by apply emits_ret. }
  { by intros o [_ ?]. }
  intros r' o [-> [= ->]]. cbn [app]. destruct r as [e|]; [by apply Hreject|]. specialize (Hh eq_refl). destruct (module_gate_check_limits S P conf c m) as [e|]; [by apply Hreject|].
  destruct (module_gate_check_ownership c m st) as [own st1] eqn:Eo. apply ownership_spec in Eo as (Hr1&Hm1&Hk1&Ho1). destruct own as [e|]; [by apply Hreject|]. specialize (Ho1 eq_refl).
  assert (Hs : screened conf c m) by (split_and!; [done|done|done|done|]; intros Hcl; by apply Ho1).
  eapply emits_bind; [apply authenticate_emits|by intros o (?&?&?&_)|]. intros [a st2] o (a'&st'&[= <- <-]&Hch&Ha). destruct a.
  - destruct Ha as [Hauth Hst]. assert (Hkeep : root st2 = root st1 /\ super_mode_override st2 = super_mode_override st1) by (destruct Hst as [->|Hst]; [done|by apply counted_mark_keeps in Hst]). destruct Hkeep as [Hroot Hover].
    destruct (Hconf conf Hc) as [_ Hpaths]. destruct (proj1 (Forall_forall _ _) Hpaths m Hm) as (p&Hp&_). destruct (install_root_spec m st2 p Hp) as (v&st3&->&Hov&Hv). apply emits_ret.
    exists v, st3. rewrite app_nil_r. split_and!; [done|intros Hne; exists m; split; [done|by apply Hch]|intros Hoff _; rewrite Hov, Hover; by apply Hk1|].
    destruct v; [|by right|done]. exists m, p. split_and!; [done|done| |done|apply Hv|apply Hv]. intros Hcl. rewrite Hov, Hover. by apply Ho1.
  - destruct Ha as [-> ->]. cbn [app]. by apply Hreject.
  - apply emits_ret. exists AlreadyTerminated, st2. rewrite app_nil_r. pose proof (counted_mark_keeps _ _ _ Ha) as [Hroot _].
    split_and!; [done|intros Hne; exists m; split; [done|by apply Hch]|done|congruence|]. intros L ip Hcp. unfold counted_mark in Ha. rewrite Hcp in Ha. rewrite Ha. cbn. by rewrite Hm1.
Qed.
Lemma gate_emits c random st : emits (server_module_gate S P c random st) (gate_outcome c random st).
Proof.
  unfold server_module_gate. set (veto := server_no_super S || root_standalone S). set (st0 := if veto then set_override st SUPER_MODE_OFF else st).
  assert (Hst0 : root st0 = root st /\ marks st0 = marks st /\ (veto = true -> super_mode_override st0 = SUPER_MODE_OFF)) by (subst st0; by destruct veto). destruct Hst0 as (Hr0&Hm0&Hv0).
  assert (Hreject : forall e, emits (io_ret (Reject e, st0)) (gate_outcome c random st)) by (intros e; apply emits_ret; exists (Reject e), st0; split_and!; [done|done|by left]).
  destruct (identity_copy_as_refused _) eqn:Ec; [apply Hreject|]. destruct (match get_str c "iconv_spec" with Some _ => _ | None => _ end); [apply Hreject|].
  assert (Hcopy : get_bool c "copy_as_set" = true -> effective_id false = 0 /\ server_no_super S = false /\ root_standalone S = false).
  { intros Hs. destruct (veto_copy_as veto c Ec Hs) as [He Hv]. subst veto. by apply orb_false_iff in Hv as [? ?]. }
  assert (Hveto : server_no_super S = true \/ root_standalone S = true -> veto = true) by (intros Hor; subst veto; by apply orb_true_iff).
  pose proof (fun conf n => daemon_gate_emits conf c n random st0) as Hdaemon. clear Ec. unfold gate_outcome, admitted in *.
  destruct (g_daemon_conf S) as [conf|].
  - destruct (get_str c "module") as [[|x n]|] eqn:En; cbn [negb]; [apply Hreject| |apply Hreject]. eapply emits_mono; [by apply (Hdaemon conf (x :: n))|].
    intros o r (v&st'&->&Hch&Hov&Hv). exists v, st'. rewrite Hr0, Hm0 in Hv. split_and!; [done| |].
    + intros Hne. destruct (Hch Hne) as (m&?&?). by exists conf, m.
    + destruct v; [|done|done]. split_and!; [done|intros Hor; by apply Hov; [apply Hv0, Hveto|]|done].
  - destruct (get_str c "module") as [[|x n]|] eqn:En; [|apply Hreject|]; apply emits_ret; exists Accept, st0; (split_and!; [done|done|done|by intros Hor; apply Hv0, Hveto|auto|done]).
Qed.
End Admission.

(** C16: the gate.  Let the daemon run with any configuration it can load, any
    loaded credential store and any answers of the shared registry, and let any
    peer send any configuration and any bytes: the gate ends without misbehaving.
    It accepts a connection only if the module exists, may be written or the run
    is dry, the peer's address is permitted by the networks of both host lists,
    client-chosen ownership was refused unless the module opted in, and a module
    with users saw a right login over a verified TLS or an opted-in local
    connection from a source that is not locked out; the authorized root is then
    the module's own path, and super-user activities are off whenever the operator
    or the module says so.  No byte, and so no nonce, goes to a peer that was
    not screened; a refused peer gets no root, and a failed login is counted. *)
Theorem gate_sound `{HH : Heap} {C : Crypto} {I : Inet} {AC : Accounts} {IC : Iconv} {IL : InetLaws I} (S : server) (P : peer) (c : Config) (random : option (list byte)) (st : gate_state)
    (Hconf : forall conf, g_daemon_conf S = Some conf -> servable conf)
    (Hstore : forall s, g_credentials S = Some s -> store_ok s)
    (Hip : peer_ip P <> Some []) :
  emits (server_module_gate S P c random st) (gate_outcome S P c random st).
Proof. by apply gate_emits. Qed.

(** ** The destination *)

(** What the security gates let through. *)
Definition gated (S : server) (P : peer) (allow_delete : bool) (authorized_root : option (list byte)) (c c' : Config) : Prop :=
  exists root d, authorized_root = Some root /\ get_str c' "receive_root_directory" = Some d /\
    (d = root \/ (root ++ [slash]) `prefix_of` d) /\ cs ".." ∉ tokens d /\
    (g_daemon_conf S <> None -> char_is root 0 slash = true -> exists rel, get_str c "receive_root_directory" = Some rel /\ char_is rel 0 slash = false /\ tokens d = tokens root ++ tokens rel) /\
    (peer_ssl P = None -> allow_unauthenticated S = true) /\
    (peer_ssl P <> None -> required_client_cn S <> None -> tls_client_identity_allowed S (peer_ssl P) = true) /\
    (allow_delete = false -> get_bool c' "use_delete" = false /\ get_bool c' "force_delete" = false).
Lemma gates_confined `{HH : Heap} (S : server) (P : peer) allow_delete authorized_root c :
  owp (server_apply_security_gates S P allow_delete authorized_root c) (gated S P allow_delete authorized_root c).
Proof.
  unfold server_apply_security_gates. apply owp_bind. destruct authorized_root as [root|]; cbn [of_option owp]; [|done]. wp_check Eplain. wp_check Ecn. wp_check Eabs. apply owp_bind.
  set (dest := get_str c "receive_root_directory") in *. set (absolute := match dest with Some d => char_is d 0 slash | None => false end) in *.
  assert (Hjoin : owp (match dest with Some d => if absolute then Ret None else match path_cat (Some root) (Some d) with Ret p => Ret (Some p) | Fail => Ret None | Stuck => Stuck end | None => Ret None end)
    (fun joined => forall p, joined = Some p -> exists d, dest = Some d /\ absolute = false /\ path_cat (Some root) (Some d) = Ret p)).
  { destruct dest as [d|]; [|done]. destruct absolute eqn:Ea; [done|]. destruct (path_cat (Some root) (Some d)) as [p| |] eqn:Ep; [|done|by apply path_cat_not_stuck in Ep]. simpl. intros ? [= <-]. by exists d. }
  eapply owp_mono; [exact Hjoin|]. intros joined Hj. cbv zeta. apply owp_bind. destruct (match joined with Some p => Some p | None => dest end) as [d|] eqn:Ed; cbn [of_option owp]; [|done].
  wp_check Et. apply owp_ret. apply negb_true_iff, orb_false_iff in Et as [Htrav%traversal_free Hin%negb_false_iff%within_root_iff].
  exists root, d. split_and!; [done| |done|done| | | |].
  - unfold get_str. rewrite !lookup_insert_ne by done. destruct joined as [p|]; [injection Ed as ->; by rewrite lookup_insert_eq|]. exact Ed.
  - intros Hd Hroot. rewrite (bool_decide_eq_false_2 (g_daemon_conf S = None)) in Eabs by done. cbn [negb andb] in Eabs. apply negb_true_iff in Eabs. destruct joined as [p|].
    + injection Ed as ->. destruct (Hj d eq_refl) as (rel&Hrel&_&Hcat). exists rel. split_and!; [done| |by eapply path_cat_tokens]. unfold absolute in Eabs. by rewrite Hrel in Eabs.
    + assert (Hds : char_is d 0 slash = true) by (destruct root as [|x root]; [done|]; destruct Hin as [->|[t ->]]; done). unfold absolute in Eabs. rewrite Ed in Eabs. congruence.
  - intros Hs. rewrite (bool_decide_eq_true_2 (peer_ssl P = None)), orb_false_r in Eplain by done. done.
  - intros Hs Hc. rewrite (bool_decide_eq_false_2 (peer_ssl P = None)), (bool_decide_eq_false_2 (required_client_cn S = None)) in Ecn by done. done.
  - intros ->. unfold get_bool. rewrite lookup_insert_ne, !lookup_insert_eq by done. by rewrite !andb_false_r.
Qed.

(** ** A module open to one network *)

Definition demo_module : DaemonModule := MkModule (cs "data") (Some (cs "/srv/data")) false true false [] 0 [cs "10.0.0.0/8"] [].
Definition demo_conf : DaemonConf := MkConf (MkGlobals 873 None None true 100 500 0 10 300 [] []) [demo_module].
Definition demo_server : server := MkServer false false false None None (Some demo_conf) (Some empty_store) None (-1) (fun p => Some p).
Definition demo_peer : peer := MkPeer None 5 (Some (cs "10.200.3.4")) false.
Definition demo_request : Config := <["module" := VStr (Some (cs "data"))]> (<["super_mode" := VInt 0]> ∅).
Definition no_accounts : Accounts := {| entries := fun _ => []; id_of_name := fun _ _ => None; name_of_id := fun _ _ => None; primary_gid := fun _ => None; fnmatch := fun _ _ => false; effective_id := fun _ => 0 |}.
Lemma demo_conf_servable : @servable demo_inet demo_conf.
Proof.
  split; [exists 1|repeat constructor; by eexists]. split; simpl; [split; simpl; try done; by split; [constructor|]| |apply NoDup_singleton|done].
  constructor; [|constructor]. split; simpl; try done; (split; [repeat constructor|done]).
Qed.
Lemma gate_sound_witness :
  emits (@server_module_gate heap0 demo_crypto demo_inet no_accounts latin1 demo_server demo_peer demo_request None (MkGate (-1) None []))
    (@gate_outcome demo_crypto demo_inet no_accounts demo_server demo_peer demo_request None (MkGate (-1) None [])) /\
  snd (@server_module_gate heap0 demo_crypto demo_inet no_accounts latin1 demo_server demo_peer demo_request None (MkGate (-1) None []) demo_world) = Ret (Accept, MkGate SUPER_MODE_OFF (Some (cs "/srv/data")) []).
Proof.
  split; [|vm_compute; reflexivity]. apply (@gate_sound heap0 demo_crypto demo_inet no_accounts latin1 demo_inet_laws demo_server demo_peer demo_request None (MkGate (-1) None [])).
  - intros conf [= <-]. apply demo_conf_servable.
  - intros s [= <-]. apply empty_store_ok.
  - intros He. discriminate He.
Defined.
