(* ===== verification/Prepare.v ===== *)
(** Opening a session on the server: src/server/server.c [server_prepare_session]
    after the security gates, and the delete authority of the session that comes
    out.  Log messages are left out. *)

From stdpp Require Import list gmap strings.
From S2P Require Import Prelude Alloc CStr Paths Names Libc Transport Session Wp Basis FilterParse FilterRules ConfigWire ConfigCheck Charset Identity DaemonConf DaemonLimits Credentials Auth Gate GateSafe DeleteTree SecureFs SecureSafe.

#[local] Open Scope string_scope.
#[local] Open Scope list_scope.
#[local] Open Scope Z_scope.

(** The contents of a file that opens and reads without an error, and the
    staging area of --delay-updates: [delay_updates_context_create] and
    [delay_updates_prepare] on a receive root *)
Class PrepareEnv := {
  file_bytes : list byte -> option (list byte);
  stage_updates : list byte -> DeleteTree.entries -> DeleteTree.entries * bool;
}.

(** motd.c [motd_read_file], [motd_send] *)
Definition MOTD_MAX_BYTES : Z := 4096.
Fixpoint until_nul (s : list byte) : list byte :=
  match s with [] => [] | c :: s => if bool_decide (c = Byte.x00) then [] else c :: until_nul s end.
Definition motd_read_file `{Heap} {PE : PrepareEnv} (path : option (list byte)) : option (list byte) :=
  match path with
  | None | Some [] => None
  | Some path =>
      match file_bytes path with
      | None => None
      | Some bytes => if malloc_ok (MOTD_MAX_BYTES + 1) then Some (until_nul (take (Z.to_nat MOTD_MAX_BYTES) bytes)) else None
      end
  end.
Definition motd_send (motd : option (list byte)) : io unit := protocol_send_str (Some (default [] motd)).

Section Prepare.
Context `{HH : Heap} {IC : Iconv} {F : Faults} {E : SecureEnv} {PE : PrepareEnv} (S : server).

(** server.c [receive_root_exists], [ensure_receive_root] *)
Definition receive_root_exists (c : Config) (fs : DeleteTree.entries) : bool :=
  match get_str c "receive_root_directory" with Some d => file_directory_exists_secure d fs | None => false end.
Definition ensure_receive_root (c : Config) (fs : DeleteTree.entries) : DeleteTree.entries * bool :=
  match get_str c "receive_root_directory" with
  | None => (fs, false)
  | Some d => if get_bool c "mkpath" then file_ensure_directory_secure d fs else (fs, receive_root_exists c fs)
  end.

(** A session ready for the transfer: its configuration, the conversion of names,
    the identity policy, and the policies of --keep-dirlinks and --trust-sender
    that are set for the process *)
Record session := MkSession {
  ss_config : Config; ss_charset : option cd; ss_identity : IdentityActive; ss_keep_dirlinks : bool; ss_trust_sender : bool }.

(** server.c [server_prepare_session]: the file system afterwards, and the
    session when it is prepared *)
Definition server_prepare_session (allow_delete trust_sender : bool) (c : Config) (fs : DeleteTree.entries) : io (DeleteTree.entries * option session) :=
  match charset_wire_init_receiver (get_str c "iconv_spec") (server_iconv_spec S) with
  | Stuck => io_of Stuck
  | Fail => io_ret (fs, None)
  | Ret conv =>
      let c := <["delete_missing_args" := VBool (get_bool c "delete_missing_args" && allow_delete)]> c in
      let '(fs, root_ok) := if get_bool c "dry_run" then (fs, receive_root_exists c fs) else ensure_receive_root c fs in
      if negb root_ok then io_ret (fs, None)
      else
        let '(fs, staged) :=
          if get_bool c "delay_updates" && negb (get_bool c "dry_run") then stage_updates (default [] (get_str c "receive_root_directory")) fs else (fs, true) in
        if negb staged then io_ret (fs, None)
        else
          match identity_set_active (Some c) with
          | Stuck => io_of Stuck
          | Fail | Ret (_, false) => io_ret (fs, None)
          | Ret (active, true) => fun w =>
              let ready := Some (MkSession c conv active (get_bool c "keep_dirlinks") trust_sender) in
              match g_daemon_conf S with
              | None => (w, Ret (fs, ready))
              | Some conf =>
                  let '(w, r) := motd_send (motd_read_file (motd_file (global conf))) w in
                  (w, match r with Ret _ => Ret (fs, ready) | Fail => Ret (fs, None) | Stuck => Stuck end)
              end
          end
  end.

(** server.c [handler], between the accepted configuration and the transfer *)
Definition server_open_session (P : peer) (allow_delete trust_sender : bool) (authorized_root : option (list byte)) (c : Config) (fs : DeleteTree.entries)
  : io (DeleteTree.entries * option session) :=
  match server_apply_security_gates S P allow_delete authorized_root c with
  | Stuck => io_of Stuck
  | Fail => io_ret (fs, None)
  | Ret c => server_prepare_session allow_delete trust_sender c fs
  end.

(** Preparing changes one member of the configuration. *)
Lemma prepare_config allow_delete trust_sender c fs w w' fs' s :
  server_prepare_session allow_delete trust_sender c fs w = (w', Ret (fs', Some s)) ->
  ss_config s = <["delete_missing_args" := VBool (get_bool c "delete_missing_args" && allow_delete)]> c /\ (get_bool c "dry_run" = true -> fs' = fs).
Proof.
  unfold server_prepare_session. destruct (charset_wire_init_receiver _ _) as [conv| |]; [|done..]. cbv zeta.
  set (c' := <["delete_missing_args" := _]> c). assert (Hdry : get_bool c' "dry_run" = get_bool c "dry_run") by (unfold c', get_bool; by rewrite lookup_insert_ne). rewrite Hdry.
  destruct (if get_bool c "dry_run" then _ else _) as [fs1 root_ok] eqn:Er. destruct root_ok; cbn [negb]; [|done].
  destruct (if get_bool c' "delay_updates" && _ then _ else _) as [fs2 staged] eqn:Es. destruct staged; cbn [negb]; [|done].
  assert (Hfs : get_bool c "dry_run" = true -> fs2 = fs).
  { intros Ed. rewrite Ed in Er, Es. rewrite andb_false_r in Es. injection Es as <-. by injection Er. }
  destruct (identity_set_active (Some c')) as [[active []]| |]; [|done..]. destruct (g_daemon_conf S) as [conf|].
  - destruct (motd_send _ w) as [w1 [[]| |]]; [|done..]. intros Hs. injection Hs as _ <- <-. done.
  - intros Hs. injection Hs as _ <- <-. done.
Qed.
End Prepare.

(** C21: a session stays under its root and deletes only with the operator's
    leave.  Whatever configuration was accepted, the security gates end without
    misbehaving, and a session they let through has a destination that is the
    authorized root or below it, with no dot-dot component; in a daemon the
    client's path was relative to the (absolute) root of the module.  It is
    encrypted unless the operator allows otherwise, and its certificate is the
    required one.  The session that reaches the transfer, after the preparation
    (the conversion of names, the receive root, the staging area, the identity
    policy and the message of the day, whatever these do), has that destination
    and, without --allow-delete, none of the three delete authorities: --delete,
    --force and --delete-missing-args are all off; a dry run is prepared without
    changing the file system. *)
Theorem destination_confined `{HH : Heap} {IC : Iconv} {F : Faults} {E : SecureEnv} {PE : PrepareEnv} (S : server) (P : peer) allow_delete trust_sender authorized_root c fs w :
  owp (server_apply_security_gates S P allow_delete authorized_root c) (gated S P allow_delete authorized_root c) /\
  let '(_, r) := server_open_session S P allow_delete trust_sender authorized_root c fs w in
  forall fs' s, r = Ret (fs', Some s) ->
    gated S P allow_delete authorized_root c (ss_config s) /\
    (allow_delete = false -> get_bool (ss_config s) "use_delete" = false /\ get_bool (ss_config s) "force_delete" = false /\ get_bool (ss_config s) "delete_missing_args" = false) /\
    (get_bool (ss_config s) "dry_run" = true -> fs' = fs).
Proof.
  pose proof (gates_confined S P allow_delete authorized_root c) as Hg. split; [exact Hg|]. destruct (server_open_session _ _ _ _ _ _ _ _) as [w' r] eqn:Eo. intros fs' s ->. revert Eo.
  unfold server_open_session. destruct (server_apply_security_gates S P allow_delete authorized_root c) as [c1| |]; [|done..]. simpl in Hg. intros Ep.
  apply prepare_config in Ep as [-> Hdry].
  assert (Hsame : forall k, k <> "delete_missing_args" -> forall v, (<["delete_missing_args" := v]> c1 : Config) !! k = c1 !! k) by (intros k Hk v; by rewrite lookup_insert_ne).
  assert (Hall : gated S P allow_delete authorized_root c (<["delete_missing_args" := VBool (get_bool c1 "delete_missing_args" && allow_delete)]> c1)).
  { unfold gated, get_str, get_bool in *. rewrite !Hsame by done. done. }
  split; [exact Hall|]. split.
  - intros Ha. destruct Hall as (root&d&_&_&_&_&_&_&_&Hdel). destruct (Hdel Ha) as [H1 H2]. split_and!; [done|done|].
    unfold get_bool at 1. rewrite lookup_insert_eq, Ha. apply andb_false_r.
  - unfold get_bool at 1. rewrite Hsame by done. exact Hdry.
Qed.

(** A plain server without --allow-delete, and a client that asks for the
    directory "t" with all three authorities. *)
Definition open_server : server := MkServer false false true None None None None None (-1) (fun p => Some p).
Definition open_request : Config :=
  <["receive_root_directory" := VStr (Some (cs "t"))]> (<["use_delete" := VBool true]> (<["force_delete" := VBool true]>
  (<["delete_missing_args" := VBool true]> (<["usermap_count" := VInt 0]> (<["groupmap_count" := VInt 0]> ∅))))).
Definition no_staging : PrepareEnv := {| file_bytes := fun _ => None; stage_updates := fun _ fs => (fs, true) |}.

Definition opened_session : outcome (DeleteTree.entries * option session) :=
  snd (@server_open_session heap0 latin1 no_faults (demo_env false) no_staging open_server demo_peer false false (Some (cs "/srv/d")) open_request demo_fs demo_world).

Lemma destination_confined_witness :
  exists s, opened_session = Ret (demo_fs, Some s) /\ get_str (ss_config s) "receive_root_directory" = Some (cs "/srv/d/t") /\
    get_bool (ss_config s) "use_delete" = false /\ get_bool (ss_config s) "force_delete" = false /\ get_bool (ss_config s) "delete_missing_args" = false.
Proof.
  pose proof (@destination_confined heap0 latin1 no_faults (demo_env false) no_staging open_server demo_peer false false (Some (cs "/srv/d")) open_request demo_fs demo_world) as [_ Hc].
  assert (Hf : match opened_session with Ret (fs, Some s) => (Some fs, get_str (ss_config s) "receive_root_directory") | _ => (None, None) end = (Some demo_fs, Some (cs "/srv/d/t"))) by (vm_compute; reflexivity).
  revert Hc Hf. unfold opened_session. destruct (@server_open_session _ _ _ _ _ _ _ _ _ _ _ _ _) as [w r]. simpl. intros Hc Hf.
  destruct r as [[fs' [s|]]| |]; [|discriminate Hf..]. injection Hf as -> Hroot. exists s. destruct (Hc demo_fs s eq_refl) as (_&Hd&_). split; [done|]. split; [exact Hroot|]. by apply Hd.
Defined.
