(* ===== verification/DummyKey.v ===== *)
(** The sidecar file that keeps the dummy key of a credential store,
    [read_dummy_key_fd] and [load_or_create_dummy_key] of src/shared/credentials.c,
    run by any number of starting daemons at once.

    One daemon is a sequence of phases between the operations on the shared name:
    opening the sidecar, linking it, opening it again.  What the kernel answers
    otherwise is a record of the daemon.  A published file is never written
    again, so opening and reading it is one step.  Making the directory durable
    and the warnings are left out. *)

From stdpp Require Import list.
From S2P Require Import Prelude Alloc CStr Names Libc Credentials.

(** ** Reading and writing the key *)

(** What [fstat] tells of an open file, and its bytes *)
Record key_file := MkKeyFile { kf_regular : bool; kf_uid : Z; kf_mode : Z; kf_data : list byte }.
(** One answer of [read] or [write]: interrupted, an error, or a count *)
Inductive rw_answer := RwIntr | RwErr | RwCount (n : nat).

(** credentials.c [read_dummy_key_fd]; past the answers, reads are complete *)
Fixpoint read_key_loop (answers : list rw_answer) (rest got : list byte) : option (list byte) :=
  if (CREDENTIAL_KEY_LEN <=? zlen got) then Some got
  else
    let want := Z.to_nat (CREDENTIAL_KEY_LEN - zlen got) in
    match answers with
    | [] => Some (got ++ take want rest)
    | RwIntr :: answers => read_key_loop answers rest got
    | RwErr :: _ => None
    | RwCount n :: answers =>
        let n := Nat.min (Nat.max 1 n) (Nat.min want (length rest)) in
        if bool_decide (n = 0%nat) then Some got else read_key_loop answers (drop n rest) (got ++ take n rest)
    end.
Definition read_dummy_key_fd (euid : Z) (f : key_file) (answers : list rw_answer) : option (list byte) :=
  if negb (kf_regular f) || negb (kf_uid f =? euid) || negb (Z.land (kf_mode f) 0xFFF =? 0x180) || negb (zlen (kf_data f) =? CREDENTIAL_KEY_LEN) then None
  else
    got ← read_key_loop answers (kf_data f) [];
    if zlen got =? CREDENTIAL_KEY_LEN then Some got else None.

(** The loop that writes the temporary file: what is in it, and whether all of
    the key was written *)
Fixpoint write_key_loop (answers : list rw_answer) (rest written : list byte) : bool * list byte :=
  if bool_decide (rest = []) then (true, written)
  else match answers with
       | [] => (true, written ++ rest)
       | RwIntr :: answers => write_key_loop answers rest written
       | RwErr :: _ | RwCount O :: _ => (false, written)
       | RwCount n :: answers => write_key_loop answers (drop n rest) (written ++ take n rest)
       end.

(** ** The phases *)

(** The answers a daemon gets: random bytes, creation of the temporary file (is
    there an [EEXIST]), [fchmod], the writes, [fsync], the reads *)
Inductive create_answer := CreateOk | CreateExists | CreateErr.
Record starter := MkStarter {
  ds_path : option (list byte); ds_euid : Z; ds_pid : Z;
  ds_key : option (list byte); ds_name : option (list byte);
  ds_create : create_answer * create_answer; ds_fchmod : bool; ds_write : list rw_answer; ds_fsync : bool; ds_read : list rw_answer;
}.
(** Where a daemon is: about to open the sidecar, about to link its temporary
    file, about to open the one that was there first; finished with a key that is
    the sidecar's or a transient one; failed *)
Inductive phase := Starting | Opening | Creating | Linking (temp : key_file) | Reopening | Finished (key : list byte) (shared : bool) | Failed.
(** Answers for the shared name *)
Inductive open_answer := Opened (f : key_file) | OpenMissing | OpenErr.
Inductive link_answer := LinkOk | LinkExists | LinkErr.

Definition CREDENTIAL_DUMMY_KEY_SUFFIX : list byte := cs ".dummykey".
Definition hex_digit (z : Z) : byte := byte.of_Z (if z <? 10 then 48 + z else 87 + z).
Definition hex_name (l : list byte) : list byte := concat ((fun b => [hex_digit (Z.shiftr (bZ b) 4); hex_digit (Z.land (bZ b) 0xF)]) <$> l).

Section Phases.
Context `{HH : Heap} (D : starter).

(** credentials.c [load_or_create_dummy_key], up to the first [open] *)
Definition dummy_start : phase :=
  match ds_path D with
  | None => match ds_key D with Some k => Finished k false | None => Failed end
  | Some p =>
      if (zlen p >? SIZE_MAX - 10) || negb (malloc_ok (zlen p + 10)) then Failed else Opening
  end.
(** From the answer of the first [open] to the creation of a key *)
Definition dummy_opened (a : open_answer) : phase :=
  match a with
  | Opened f => match read_dummy_key_fd (ds_euid D) f (ds_read D) with Some k => Finished k true | None => Failed end
  | OpenMissing => Creating
  | OpenErr => Failed
  end.
(** The temporary file: at most one stale name is removed; a file that cannot be
    created or written means a transient key *)
Definition created : bool :=
  match ds_create D with
  | (CreateOk, _) => true
  | (CreateExists, CreateOk) => true
  | _ => false
  end.
Definition temp_suffix (name : list byte) : list byte := cs ".tmp." ++ print_u32 10 (ds_pid D) ++ cs "." ++ hex_name name.
Definition dummy_create : phase :=
  match ds_key D, ds_name D with
  | Some fresh, Some name =>
      let sidecar_len := zlen (default [] (ds_path D)) + 9 in
      if zlen (temp_suffix name) >=? 64 then Failed
      else if negb (malloc_ok (sidecar_len + zlen (temp_suffix name) + 1)) then Failed
      else if negb (created && ds_fchmod D) then Finished fresh false
      else
        let '(write_ok, data) := write_key_loop (ds_write D) fresh [] in
        if write_ok && ds_fsync D then Linking (MkKeyFile true (ds_euid D) 0x8180 data) else Finished fresh false
  | _, _ => Failed
  end.
(** From the answer of [link] *)
Definition dummy_linked (temp : key_file) (a : link_answer) : phase :=
  match a, ds_key D with
  | LinkOk, Some fresh => Finished fresh true
  | LinkExists, _ => Reopening
  | LinkErr, Some fresh => Finished fresh false
  | _, None => Failed
  end.
Definition dummy_reopened (a : open_answer) : phase :=
  match a with
  | Opened f => match read_dummy_key_fd (ds_euid D) f (ds_read D) with Some k => Finished k true | None => Failed end
  | _ => Failed
  end.
End Phases.

(** ** Daemons that start together *)

(** The sidecar, and the daemons *)
Record startup := MkStartup { sidecar : option key_file; daemons : list (starter * phase) }.
Definition sees (side : option key_file) (a : open_answer) : Prop :=
  match a with Opened f => side = Some f | OpenMissing => side = None | OpenErr => True end.

Inductive start_step `{Heap} : startup -> startup -> Prop :=
| StepStart s i D : daemons s !! i = Some (D, Starting) -> start_step s (MkStartup (sidecar s) (<[i := (D, dummy_start D)]> (daemons s)))
| StepOpen s i D a : daemons s !! i = Some (D, Opening) -> sees (sidecar s) a -> start_step s (MkStartup (sidecar s) (<[i := (D, dummy_opened D a)]> (daemons s)))
| StepCreate s i D : daemons s !! i = Some (D, Creating) -> start_step s (MkStartup (sidecar s) (<[i := (D, dummy_create D)]> (daemons s)))
| StepLink s i D t : daemons s !! i = Some (D, Linking t) -> sidecar s = None ->
    start_step s (MkStartup (Some t) (<[i := (D, dummy_linked D t LinkOk)]> (daemons s)))
| StepLinkFails s i D t a : daemons s !! i = Some (D, Linking t) -> a = LinkErr \/ (a = LinkExists /\ sidecar s <> None) ->
    start_step s (MkStartup (sidecar s) (<[i := (D, dummy_linked D t a)]> (daemons s)))
| StepReopen s i D a : daemons s !! i = Some (D, Reopening) -> sees (sidecar s) a -> start_step s (MkStartup (sidecar s) (<[i := (D, dummy_reopened D a)]> (daemons s))).

(** ** Facts *)

Definition proper (euid : Z) (f : key_file) : Prop := kf_regular f = true /\ kf_uid f = euid /\ Z.land (kf_mode f) 0xFFF = 0x180 /\ zlen (kf_data f) = CREDENTIAL_KEY_LEN.

Lemma read_key_loop_spec answers : forall rest got, zlen (got ++ rest) = CREDENTIAL_KEY_LEN ->
  match read_key_loop answers rest got with Some x => x = got ++ rest | None => RwErr ∈ answers end.
Proof.
  induction answers as [|a answers IH]; intros rest got Hl; cbn [read_key_loop]; rewrite zlen_app in Hl; pose proof (zlen_nonneg rest) as Hr.
  all: assert (Hfull : zlen got = CREDENTIAL_KEY_LEN -> got = got ++ rest) by (intros Hg; assert (length rest = 0)%nat by (unfold zlen in *; lia); destruct rest; [by rewrite app_nil_r|done]).
  all: destruct (Z.leb_spec CREDENTIAL_KEY_LEN (zlen got)); [apply Hfull; lia|].
  - f_equal. apply take_ge. unfold zlen in *. lia.
  - destruct a as [| |n].
    + specialize (IH rest got). rewrite zlen_app in IH. specialize (IH Hl). destruct (read_key_loop answers rest got); [done|by right].
    + by left.
    + set (k := Nat.min _ _). case_bool_decide as Hk.
      * assert (rest = []) as -> by (apply nil_length_inv; subst k; unfold zlen in *; lia). by rewrite app_nil_r.
      * specialize (IH (drop k rest) (got ++ take k rest)). rewrite <- app_assoc, take_drop, zlen_app in IH. specialize (IH Hl). destruct (read_key_loop answers _ _); [done|by right].
Qed.
Lemma write_key_loop_spec answers : forall rest written out, write_key_loop answers rest written = (true, out) -> out = written ++ rest.
Proof.
  induction answers as [|a answers IH]; intros rest written out; cbn [write_key_loop]; case_bool_decide as He; try (intros [= <-]; subst; by rewrite ?app_nil_r).
  destruct a as [| |[|n]]; [apply IH|done|done|]. intros Hw. apply IH in Hw as ->. by rewrite <- app_assoc, take_drop.
Qed.
Lemma read_proper euid f answers : proper euid f ->
  (RwErr ∉ answers -> read_dummy_key_fd euid f answers = Some (kf_data f)) /\ forall k, read_dummy_key_fd euid f answers = Some k -> k = kf_data f.
Proof.
  intros (Hr&Hu&Hm&Hl). pose proof (read_key_loop_spec answers (kf_data f) [] Hl) as Hs. unfold read_dummy_key_fd. rewrite Hr, Hu, Hm, Hl, !Z.eqb_refl. cbn [negb orb].
  destruct (read_key_loop answers (kf_data f) []) as [x|]; cbn [mbind option_bind].
  - cbn [app] in Hs. subst x. rewrite Hl, Z.eqb_refl. split; [done|]. by intros k [= <-].
  - by split.
Qed.

Section Agreement.
Context `{HH : Heap} (euid : Z).

(** What each daemon knows of the sidecar *)
Definition knows (side : option key_file) (D : starter) (p : phase) : Prop :=
  match p with
  | Linking t => proper euid t /\ ds_key D = Some (kf_data t)
  | Reopening => side <> None
  | Finished k true => exists f, side = Some f /\ kf_data f = k
  | Finished k false => ds_key D = Some k
  | _ => True
  end.
Definition starter_ok (D : starter) : Prop := ds_euid D = euid /\ forall k, ds_key D = Some k -> zlen k = CREDENTIAL_KEY_LEN.
Definition startup_ok (s : startup) : Prop :=
  (forall f, sidecar s = Some f -> proper euid f) /\ Forall (fun x => starter_ok (fst x) /\ knows (sidecar s) (fst x) (snd x)) (daemons s).

Lemma opened_knows side D a : starter_ok D -> (forall f, side = Some f -> proper euid f) -> sees side a ->
  knows side D (dummy_opened D a) /\ knows side D (dummy_reopened D a).
Proof.
  intros [Hu _] Hp Ha. destruct a as [f| |]; cbn; [|done|done]. cbn in Ha. subst side. rewrite Hu. destruct (read_proper euid f (ds_read D) (Hp f eq_refl)) as [_ Hk].
  destruct (read_dummy_key_fd euid f (ds_read D)) as [k|]; [|done]. rewrite (Hk k eq_refl). split; by exists f.
Qed.
Lemma create_knows side D : starter_ok D -> knows side D (dummy_create D).
Proof.
  intros [Hu Hk]. unfold dummy_create. destruct (ds_key D) as [fresh|] eqn:Ek; [|done]. destruct (ds_name D) as [nm|]; [|done]. destruct (_ >=? 64); [done|]. destruct (negb (malloc_ok _)); [done|].
  destruct (negb _); [cbn; by rewrite Ek|]. destruct (write_key_loop (ds_write D) fresh []) as [ok data] eqn:Ew. destruct ok; cbn [andb]; [|cbn; by rewrite Ek]. apply write_key_loop_spec in Ew. cbn [app] in Ew. subst data.
  destruct (ds_fsync D); cbn; rewrite Ek; [|done]. split; [|done]. split_and!; [done|done|done|by apply Hk].
Qed.
Lemma start_knows side D : knows side D (dummy_start D).
Proof. unfold dummy_start. destruct (ds_path D); [destruct (_ || _); done|]. destruct (ds_key D) eqn:E; cbn; [by rewrite E|done]. Qed.
(** Publishing changes nothing for those who know the sidecar. *)
Lemma knows_published D p t : knows None D p -> knows (Some t) D p.
Proof. destruct p as [| | |t'| |k [] |]; cbn; try done. by intros (f&?&_). Qed.

Lemma startup_keeps s s' : start_step s s' -> startup_ok s -> startup_ok s' /\ (forall f, sidecar s = Some f -> sidecar s' = Some f).
Proof.
  intros Hst [Hside Hall].
  assert (Hset : forall i D p q, daemons s !! i = Some (D, p) -> knows (sidecar s) D q -> startup_ok (MkStartup (sidecar s) (<[i := (D, q)]> (daemons s)))).
  { intros i D p q Hi Hq. split; [done|]. apply Forall_insert; [done|]. pose proof (Forall_lookup_1 _ _ _ _ Hall Hi) as [? _]. done. }
  assert (Hget : forall i D p, daemons s !! i = Some (D, p) -> starter_ok D /\ knows (sidecar s) D p) by (intros i D p Hi; by pose proof (Forall_lookup_1 _ _ _ _ Hall Hi)).
  destruct Hst as [s i D Hi|s i D a Hi Ha|s i D Hi|s i D t Hi Hn|s i D t a Hi Ha|s i D a Hi Ha]; destruct (Hget i _ _ Hi) as [HD Hk].
  - split; [|done]. eapply Hset; [exact Hi|apply start_knows].
  - split; [|done]. eapply Hset; [exact Hi|by apply opened_knows].
  - split; [|done]. eapply Hset; [exact Hi|by apply create_knows].
  - cbn in Hk. destruct Hk as [Ht Hkey]. split; [|by rewrite Hn]. split; cbn; [by intros f [= <-]|]. apply Forall_insert.
    + eapply Forall_impl; [exact Hall|]. intros [D' p'] [HD' Hp']. split; [done|]. cbn in *. rewrite Hn in Hp'. by apply knows_published.
    + cbn. split; [done|]. unfold dummy_linked. rewrite Hkey. by exists t.
  - split; [|done]. eapply Hset; [exact Hi|]. cbn in Hk. destruct Hk as [Ht Hkey]. unfold dummy_linked. rewrite Hkey. destruct Ha as [->|[-> Hs]]; cbn; done.
  - split; [|done]. eapply Hset; [exact Hi|by apply opened_knows].
Qed.

(** C20: daemons agree on the dummy key.  Let any number of daemons of one user
    start at once over a store whose sidecar is absent or proper, in any
    interleaving and with any failures of the kernel: the sidecar is at every
    moment absent or a complete owned file of mode 0600 with 32 bytes, and once it
    is there it never changes; every daemon that did not fall back to a
    transient key of its own has the key of the sidecar, so any two of them have
    the same, and so has every daemon that starts later and can read it. *)
Theorem dummy_key_agreed side starters s s'
    (Hside : forall f, side = Some f -> proper euid f) (Hstarters : Forall starter_ok starters)
    (Hrun : rtc start_step (MkStartup side ((fun D => (D, Starting)) <$> starters)) s) (Hmore : rtc start_step s s') :
  (forall f, sidecar s' = Some f -> proper euid f) /\
  (forall f, sidecar s = Some f -> sidecar s' = Some f) /\
  (forall D k, (D, Finished k true) ∈ daemons s' -> exists f, sidecar s' = Some f /\ kf_data f = k) /\
  (forall D f, sidecar s' = Some f -> ds_euid D = euid -> RwErr ∉ ds_read D -> dummy_opened D (Opened f) = Finished (kf_data f) true).
Proof.
  assert (Hinv : forall a b, rtc start_step a b -> startup_ok a -> startup_ok b /\ (forall f, sidecar a = Some f -> sidecar b = Some f)).
  { intros a b Hab. induction Hab as [a|a b c Hs Hr IH]; [done|]. intros Ha. destruct (startup_keeps a b Hs Ha) as [Hb Hf]. destruct (IH Hb) as [Hc Hg]. split; [done|]. auto. }
  assert (Hinit : startup_ok (MkStartup side ((fun D => (D, Starting)) <$> starters))).
  { split; [done|]. cbn. apply Forall_fmap. eapply Forall_impl; [exact Hstarters|]. by intros D HD. }
  destruct (Hinv _ _ Hrun Hinit) as [Hok _]. destruct (Hinv _ _ Hmore Hok) as [[Hp Hall] Hkeep]. split_and!; [done|done| |].
  - intros D k Hin. by destruct (proj1 (Forall_forall _ _) Hall _ Hin) as [_ Hk].
  - intros D f Hf Hu Hr. cbn. rewrite Hu. destruct (read_proper euid f (ds_read D) (Hp f Hf)) as [He _]. by rewrite He.
Qed.
End Agreement.

(** Two daemons: the second loses the race and adopts the first one's key. *)
Definition demo_starter (k : byte) : starter :=
  MkStarter (Some (cs "/etc/creds")) 0 77 (Some (replicate 32 k)) (Some (replicate 8 k)) (CreateExists, CreateOk) true [RwIntr; RwCount 5] true [RwCount 7; RwIntr].
Definition demo_done : startup := MkStartup (Some (MkKeyFile true 0 0x8180 (replicate 32 "a"%byte))) [(demo_starter "a", Finished (replicate 32 "a"%byte) true); (demo_starter "b", Finished (replicate 32 "a"%byte) true)].
Lemma demo_race : rtc (@start_step heap0) (MkStartup None ((fun D => (D, Starting)) <$> [demo_starter "a"; demo_starter "b"])) demo_done.
Proof.
  eapply rtc_l; [apply (StepStart _ 0%nat (demo_starter "a")); reflexivity|]. eapply rtc_l; [apply (StepStart _ 1%nat (demo_starter "b")); reflexivity|].
  eapply rtc_l; [apply (StepOpen _ 0%nat (demo_starter "a") OpenMissing); reflexivity|]. eapply rtc_l; [apply (StepOpen _ 1%nat (demo_starter "b") OpenMissing); reflexivity|].
  eapply rtc_l; [apply (StepCreate _ 0%nat (demo_starter "a")); reflexivity|]. eapply rtc_l; [apply (StepCreate _ 1%nat (demo_starter "b")); reflexivity|].
  eapply rtc_l; [eapply (StepLink _ 0%nat (demo_starter "a")); reflexivity|]. eapply rtc_l; [eapply (StepLinkFails _ 1%nat (demo_starter "b") _ LinkExists); [reflexivity|right; by split]|].
  eapply rtc_l; [eapply (StepReopen _ 1%nat (demo_starter "b") (Opened _)); reflexivity|]. vm_compute. apply rtc_refl.
Qed.
Lemma dummy_key_agreed_witness : exists f, sidecar demo_done = Some f /\ kf_data f = replicate 32 "a"%byte.
Proof.
  apply (proj1 (proj2 (proj2 (@dummy_key_agreed heap0 0 None [demo_starter "a"; demo_starter "b"] demo_done demo_done ltac:(done) ltac:(repeat constructor; by intros k [= <-]) demo_race (rtc_refl _ _)))) (demo_starter "b")).
  apply list_elem_of_further, list_elem_of_here.
Defined.
