(* ===== verification/StopCondition.v ===== *)
(** When a transfer stops by itself: src/shared/stop_condition.c, the options
    --stop-after and --stop-at.  The local calendar, [localtime_r] and [mktime],
    is a parameter, as are the clocks. *)

From stdpp Require Import list.
From S2P Require Import Prelude CStr Transport Session Wp Names Libc.

(** ** Numbers *)

(** The 64-bit limits; an addition of [time_t] that overflows is undefined
    behaviour, as is an [int] one *)
Definition LLONG_MAX : Z := 2 ^ 63 - 1.
Definition LLONG_MIN : Z := - 2 ^ 63.
Definition time_ok (z : Z) : outcome Z := if (LLONG_MIN <=? z) && (z <=? LLONG_MAX) then Ret z else Stuck.

(** stop_condition.c [parse_positive_minutes], [stop_parse_after_minutes]; a
    division in C truncates, and so does [Z.quot] *)
Fixpoint minutes_loop (p : list byte) (v : Z) : option Z :=
  match p with
  | [] => Some v
  | c :: p =>
      if negb (is_digit c) then None
      else
        let digit := bZ c - 48 in
        if v >? (LONG_MAX - digit) `quot` 10 then None else minutes_loop p (v * 10 + digit)
  end.
Definition parse_positive_minutes (value : option (list byte)) : option Z :=
  match value with
  | None | Some [] => None
  | Some (c :: p) =>
      if negb (is_digit c) then None
      else v ← minutes_loop (c :: p) 0; if (v <=? 0) || (v >? INT_MAX) then None else Some v
  end.
Definition stop_parse_after_minutes (value : option (list byte)) : option Z := parse_positive_minutes value.

(** ** Points in time *)

Record tm := MkTm { tm_year : Z; tm_mon : Z; tm_mday : Z; tm_hour : Z; tm_min : Z; tm_sec : Z; tm_isdst : Z }.
(** [mktime] also brings the fields of its argument into their ranges; [None] is
    the answer -1 *)
Class Calendar := { localtime_r : Z -> option tm; mktime : tm -> option Z * tm }.

(** stop_condition.c [parse_two_digits], [parse_clock_time] *)
Definition parse_two_digits (s : list byte) : option Z :=
  match s with a :: b :: _ => if is_digit a && is_digit b then Some ((bZ a - 48) * 10 + (bZ b - 48)) else None | _ => None end.
Definition parse_clock_time `{Calendar} (value : list byte) (now : Z) : option Z :=
  let len := zlen value in
  if negb ((len =? 5) || (len =? 8)) then None
  else if negb (char_is value 2 ":") || ((len =? 8) && negb (char_is value 5 ":")) then None
  else
    hh ← parse_two_digits value;
    mm ← parse_two_digits (drop 3 value);
    ss ← (if len =? 8 then parse_two_digits (drop 6 value) else Some 0);
    if (hh >? 23) || (mm >? 59) || (ss >? 59) then None
    else
      today ← localtime_r now;
      (mktime (MkTm (tm_year today) (tm_mon today) (tm_mday today) hh mm ss (-1))).1.

(** stop_condition.c [parse_time_rsync], the fields that were given, -1 for the
    others *)
Record date_fields := MkFields { df_year : Z; df_mon : Z; df_mday : Z; df_hour : Z; df_min : Z }.
Fixpoint digits_int (ds : list byte) (n : Z) : outcome Z :=
  match ds with
  | [] => Ret n
  | c :: ds => m ← int_ok (n * 10); m ← int_ok (m + bZ c); n ← int_ok (m - 48); digits_int ds n
  end.
Definition is_T (c : byte) : bool := bool_decide (c = "T"%byte) || bool_decide (c = "t"%byte).
Fixpoint scan_date (fuel : nat) (in_date : Z) (t : date_fields) (cp : list byte) : outcome date_fields :=
  match fuel with
  | O => Stuck
  | S fuel =>
      let '(ds, rest) := span is_digit cp in
      check (negb (bool_decide (ds = [])));;
      n ← digits_int ds 0;
      let in_date := if char_is rest 0 ":" then 0 else in_date in
      if in_date >? 0 then
        check (df_year t =? -1);;
        let t := MkFields (df_mon t) (df_mday t) n (df_hour t) (df_min t) in
        match rest with
        | [] => Ret t
        | c :: rest =>
            if is_T c then if bool_decide (rest = []) then Ret t else scan_date fuel (-1) t rest
            else check (bool_decide (c = "-"%byte) || bool_decide (c = "/"%byte));; scan_date fuel in_date t rest
        end
      else
        check (df_hour t =? -1);;
        let t := MkFields (df_year t) (df_mon t) (df_mday t) (df_min t) n in
        match rest with
        | [] => check (negb (in_date <? 0));; Ret t
        | c :: rest => check (bool_decide (c = ":"%byte));; scan_date fuel 0 t rest
        end
  end.
Definition parse_date_fields (value : list byte) : outcome date_fields :=
  let t := MkFields (-1) (-1) (-1) (-1) (-1) in
  let '(in_date, cp) := match value with
                        | c :: cp => if bool_decide (c = ":"%byte) then (0, cp) else if is_T c then (-1, cp) else (1, value)
                        | [] => (1, value)
                        end in
  scan_date (S (length value)) in_date t cp.

(** stop_condition.c [parse_time_rsync], the fields that were left out: first
    from the current day, then forward to the next match.  [which] is the
    [in_date] of the code, the outermost field that was given; [step] the hour to
    add if only the minute was.  The code's [while] over years of a century and
    the one over hours end within the distance they cover, which is their fuel. *)
Fixpoint century_loop (fuel : nat) (year today : Z) : outcome Z :=
  if year <? today then match fuel with O => Stuck | S fuel => y ← int_ok (year + 100); century_loop fuel y today end else Ret year.
Definition fill_year (t : date_fields) (today : tm) : outcome (Z * Z) :=
  if df_year t <? 0 then Ret (tm_year today, 1)
  else if df_year t <? 100 then y ← century_loop (Z.to_nat (tm_year today - df_year t)) (df_year t) (tm_year today); Ret (y, 0)
  else Ret (df_year t - 1900, 0).
Definition fill_date (t : date_fields) (today : tm) : outcome (tm * Z * Z) :=
  '(year, which) ← fill_year t today;
  let '(mon, which) := if df_mon t <? 0 then (tm_mon today, 2) else (df_mon t - 1, which) in
  let '(mday, which) := if df_mday t <? 0 then (tm_mday today, 3) else (df_mday t, which) in
  '(hour, minute, which, step) ←
    (if df_min t <? 0 then Ret (0, 0, which, 0)
     else if df_hour t <? 0 then check (which =? 3);; Ret (tm_hour today, df_min t, 0, 3600)
     else Ret (df_hour t, df_min t, which, 0));
  check (negb ((hour >? 23) || (minute >? 59) || (mon <? 0) || (mon >=? 12) || (mday <? 1) || (mday >? 31)));;
  Ret (MkTm year mon mday hour minute 0 (-1), which, step).

(** One round of the search: the fields to try next, and the day that is wanted *)
Definition set_day (t : tm) (d : Z) : tm := MkTm (tm_year t) (tm_mon t) d (tm_hour t) (tm_min t) (tm_sec t) (tm_isdst t).
Definition next_fields (which old_mday : Z) (t : tm) : outcome (tm * Z) :=
  if which =? 3 then d ← int_ok (tm_mday t + 1); Ret (set_day t d, d)
  else if which =? 2 then
    if tm_mday t <? old_mday then Ret (set_day t old_mday, old_mday)
    else
      m ← int_ok (tm_mon t + 1);
      if m =? 12 then y ← int_ok (tm_year t + 1); Ret (MkTm y 0 (tm_mday t) (tm_hour t) (tm_min t) (tm_sec t) (tm_isdst t), old_mday)
      else Ret (MkTm (tm_year t) m (tm_mday t) (tm_hour t) (tm_min t) (tm_sec t) (tm_isdst t), old_mday)
  else
    check (negb ((tm_mday t <? old_mday) && (negb (tm_mon t =? 2) || negb (old_mday =? 29))));;
    y ← int_ok (tm_year t + 1);
    Ret (if tm_mday t <? old_mday then MkTm y 1 29 (tm_hour t) (tm_min t) (tm_sec t) (tm_isdst t)
         else MkTm y (tm_mon t) (tm_mday t) (tm_hour t) (tm_min t) (tm_sec t) (tm_isdst t), old_mday).
(** [val] is -1 in the round after a day that the month does not have *)
Fixpoint next_match `{Calendar} (fuel : nat) (now which old_mday val : Z) (t : tm) : outcome Z :=
  if negb (which =? 0) && ((val <=? now) || (tm_mday t <? old_mday)) then
    match fuel with
    | O => Stuck
    | S fuel =>
        '(t, old_mday) ← next_fields which old_mday t;
        match mktime t with
        | (Some val, t) => next_match fuel now which old_mday val t
        | (None, t) => check (negb (negb (which =? 3) || (tm_mday t <=? 28)));; next_match fuel now 2 1 (-1) (set_day t 1)
        end
    end
  else Ret val.
Fixpoint hours_loop (fuel : nat) (now step val : Z) : outcome Z :=
  if val <=? now then match fuel with O => Stuck | S fuel => v ← time_ok (val + step); hours_loop fuel now step v end else Ret val.
Definition parse_time_rsync `{Calendar} (fuel : nat) (value : list byte) (now : Z) : outcome Z :=
  today ← of_option (localtime_r now);
  f ← parse_date_fields value;
  '(t, which, step) ← fill_date f today;
  let '(r, t') := mktime t in
  val ← of_option r;
  val ← next_match fuel now which (tm_mday t) val t';
  val ← (if step =? 0 then Ret val else hours_loop (Z.to_nat (now - val + 1)) now step val);
  check (negb (val =? -1));; Ret val.

(** stop_condition.c [stop_parse_at_time], the -1 of [parse_time_rsync] an error *)
Definition unit_seconds (c : byte) : option Z :=
  if bool_decide (c = "s"%byte) then Some 1 else if bool_decide (c = "m"%byte) then Some 60
  else if bool_decide (c = "h"%byte) then Some 3600 else if bool_decide (c = "d"%byte) then Some 86400 else None.
Definition now_plus (p : list byte) (now : Z) : option Z :=
  match p with
  | c :: _ =>
      if negb (is_digit c) then None
      else
        let '(amount, erange, end_) := strtol p in
        if erange || (amount <? 0) then None
        else match end_ with
             | [u] =>
                 s ← unit_seconds u;
                 if amount >? LONG_MAX `quot` s then None
                 else
                   let delta := amount * s in
                   if (now >? 0) && (delta >? LLONG_MAX - now) then None
                   else if (now <? 0) && (delta <? LLONG_MIN - now) then None
                   else Some (now + delta)
             | _ => None
             end
  | [] => None
  end.
Definition stop_parse_at_time `{Calendar} (fuel : nat) (value : list byte) (now : Z) : outcome Z :=
  if strncmp value (cs "now+") 4 =? 0 then of_option (now_plus (drop 4 value) now)
  else match parse_clock_time value now with
       | Some d => Ret d
       | None => parse_time_rsync fuel value now
       end.

(** stop_condition.c [stop_condition_make], [stop_condition_reached]; the clocks
    are arguments, [None] if the monotonic one fails *)
Record StopCondition := MkStop { has_monotonic : bool; mono_sec : Z; mono_nsec : Z; has_wall : bool; wall_deadline : Z }.
Definition stop_condition_make (has_after : bool) (after_minutes : Z) (has_at : bool) (at_time now_sec now_nsec : Z) : StopCondition :=
  let after := has_after && (after_minutes >? 0) in
  MkStop after (if after then now_sec + after_minutes * 60 else 0) (if after then now_nsec else 0) has_at (if has_at then at_time else 0).
Definition stop_condition_reached (c : option StopCondition) (wall : Z) (mono : option (Z * Z)) : bool :=
  match c with
  | None => false
  | Some c =>
      if has_wall c && (wall >=? wall_deadline c) then true
      else if has_monotonic c then
        match mono with
        | None => false
        | Some (sec, nsec) => (sec >? mono_sec c) || ((sec =? mono_sec c) && (nsec >=? mono_nsec c))
        end
      else false
  end.

(** ** Facts *)

Lemma fold_decimal_step p v : fold_left (fun a c => a * 10 + (bZ c - 48)) p v = v * 10 ^ zlen p + decimal p.
Proof.
  revert v. induction p as [|c p IH]; intros v; [unfold decimal, zlen; simpl; lia|]. unfold decimal. cbn [fold_left]. rewrite !IH, zlen_cons, Z.pow_add_r, Z.pow_1_r by (try lia; apply zlen_nonneg). ring.
Qed.
Lemma minutes_loop_spec p : forall v, 0 <= v <= LONG_MAX ->
  minutes_loop p v = if forallb is_digit p && (fold_left (fun a c => a * 10 + (bZ c - 48)) p v <=? LONG_MAX) then Some (fold_left (fun a c => a * 10 + (bZ c - 48)) p v) else None.
Proof.
  induction p as [|c p IH]; intros v Hv; cbn [minutes_loop forallb fold_left]; [by destruct (Z.leb_spec v LONG_MAX); [|lia]|].
  destruct (is_digit c) eqn:Hc; cbn [negb andb]; [|done]. assert (Hd : 0 <= bZ c - 48 <= 9) by (unfold is_digit, in_range in Hc; apply andb_true_iff in Hc as [?%Z.leb_le ?%Z.leb_le]; lia).
  rewrite Z.quot_div_nonneg by (unfold LONG_MAX; lia). destruct (Z.gtb_spec v ((LONG_MAX - (bZ c - 48)) / 10)) as [Hg|Hg].
  - assert (Hbig : LONG_MAX < v * 10 + (bZ c - 48)) by (pose proof (Z.div_mod (LONG_MAX - (bZ c - 48)) 10); pose proof (Z.mod_pos_bound (LONG_MAX - (bZ c - 48)) 10); lia).
    destruct (forallb is_digit p) eqn:Ep; cbn [andb]; [|done]. rewrite fold_decimal_step. pose proof (decimal_nonneg p Ep). assert (1 <= 10 ^ zlen p) by (pose proof (Z.pow_pos_nonneg 10 (zlen p)); pose proof (zlen_nonneg p); lia).
    destruct (Z.leb_spec ((v * 10 + (bZ c - 48)) * 10 ^ zlen p + decimal p) LONG_MAX); [|done]. nia.
  - apply IH. pose proof (Z.div_mod (LONG_MAX - (bZ c - 48)) 10). pose proof (Z.mod_pos_bound (LONG_MAX - (bZ c - 48)) 10). lia.
Qed.

(** --stop-after takes exactly the decimal numbers from 1 to [INT_MAX]. *)
Lemma stop_after_exact value m : stop_parse_after_minutes (Some value) = Some m <-> value <> [] /\ forallb is_digit value = true /\ decimal value = m /\ 1 <= m <= INT_MAX.
Proof.
  unfold stop_parse_after_minutes, parse_positive_minutes. destruct value as [|c p]; [naive_solver|]. destruct (is_digit c) eqn:Hc; cbn [negb]; [|split; [done|]; intros (_&Hd&_); cbn in Hd; by rewrite Hc in Hd].
  rewrite minutes_loop_spec by (unfold LONG_MAX; lia). fold (decimal (c :: p)). destruct (forallb is_digit (c :: p)) eqn:Ed; cbn [andb]; [|split; [done|naive_solver]].
  unfold INT_MAX, LONG_MAX. destruct (Z.leb_spec (decimal (c :: p)) (2 ^ 63 - 1)); cbn [mbind option_bind].
  - destruct (Z.leb_spec (decimal (c :: p)) 0); cbn [orb]; [split; [done|lia]|]. destruct (Z.gtb_spec (decimal (c :: p)) (2 ^ 31 - 1)); [split; [done|lia]|]. split; [intros [= <-]; split_and!; done || lia|]. by intros (_&_&->&_).
  - split; [done|]. lia.
Qed.

(** The condition is reached exactly from its deadlines on; with nanoseconds below
    a second the monotonic one is so many minutes after the start. *)
Lemma stop_reached_exact has_after minutes has_at at_time s0 n0 wall s n :
  0 <= n0 < 1000000000 -> 0 <= n < 1000000000 ->
  stop_condition_reached (Some (stop_condition_make has_after minutes has_at at_time s0 n0)) wall (Some (s, n)) = true <->
  (has_at = true /\ at_time <= wall) \/ (has_after = true /\ 0 < minutes /\ s0 * 1000000000 + n0 + minutes * 60000000000 <= s * 1000000000 + n).
Proof.
  intros H0 H1. unfold stop_condition_reached, stop_condition_make. cbn. destruct has_at; cbn [andb].
  - destruct (Z.geb_spec wall at_time); [split; [by left; split|done]|]. destruct has_after; cbn [andb]; [|naive_solver lia]. destruct (Z.gtb_spec minutes 0); cbn [andb]; [|naive_solver lia].
    rewrite orb_true_iff, andb_true_iff, Z.eqb_eq, Z.gtb_lt, Z.geb_le. naive_solver lia.
  - destruct has_after; cbn [andb]; [|naive_solver lia]. destruct (Z.gtb_spec minutes 0); cbn [andb]; [|naive_solver lia]. rewrite orb_true_iff, andb_true_iff, Z.eqb_eq, Z.gtb_lt, Z.geb_le. naive_solver lia.
Qed.


(** A date with a field left out is in the future, however [mktime] behaves. *)
Lemma next_match_future `{Calendar} fuel now which old_mday val t d : which <> 0 -> next_match fuel now which old_mday val t = Ret d -> now < d.
Proof.
  revert which old_mday val t. induction fuel as [|fuel IH]; intros which old_mday val t Hw; cbn [next_match].
  - destruct (Z.eqb_spec which 0); [done|]; cbn [negb andb]. destruct (Z.leb_spec val now); cbn [orb]; [done|]. destruct (_ <? _); [done|]. by intros [= <-].
  - destruct (Z.eqb_spec which 0); [done|]; cbn [negb andb]. destruct (Z.leb_spec val now) as [Hv|Hv]; cbn [orb]; [|destruct (_ <? _); [|by intros [= <-]]].
    all: destruct (next_fields _ _ _) as [[t' o]| |]; cbn [mbind outcome_bind]; try done.
    all: destruct (mktime t') as [[v|] t'']; [by apply IH|]. all: destruct (negb (_ || _)); cbn [check mbind outcome_bind]; [by apply IH|done].
Qed.
Lemma hours_loop_future fuel now step val d : hours_loop fuel now step val = Ret d -> now < d.
Proof.
  revert val. induction fuel as [|fuel IH]; intros val; cbn [hours_loop]; destruct (Z.leb_spec val now); try done; try by intros [= <-].
  destruct (time_ok _); cbn [mbind outcome_bind]; try done. apply IH.
Qed.

(** ** Coordinated universal time *)

(** A calendar to run the parser on: days of the proleptic Gregorian calendar,
    counted from the first of March of a leap cycle *)
Definition utc_days (y m d : Z) : Z :=
  let y := if m <=? 2 then y - 1 else y in
  let yoe := y `mod` 400 in
  let doy := (153 * ((m + 9) `mod` 12) + 2) / 5 + d - 1 in
  y / 400 * 146097 + yoe * 365 + yoe / 4 - yoe / 100 + doy - 719468.
Definition utc_of (v : Z) : tm :=
  let z := v / 86400 + 719468 in
  let doe := z `mod` 146097 in
  let yoe := (doe - doe / 1460 + doe / 36524 - doe / 146096) / 365 in
  let doy := doe - (365 * yoe + yoe / 4 - yoe / 100) in
  let mp := (5 * doy + 2) / 153 in
  let m := if mp <? 10 then mp + 3 else mp - 9 in
  let y := yoe + z / 146097 * 400 + (if m <=? 2 then 1 else 0) in
  let s := v `mod` 86400 in
  MkTm (y - 1900) (m - 1) (doy - (153 * mp + 2) / 5 + 1) (s / 3600) ((s / 60) `mod` 60) (s `mod` 60) 0.
Definition utc : Calendar := {|
  localtime_r v := Some (utc_of v);
  mktime t :=
    let v := utc_days (tm_year t + 1900 + tm_mon t / 12) (tm_mon t `mod` 12 + 1) (tm_mday t) * 86400 + tm_hour t * 3600 + tm_min t * 60 + tm_sec t in
    (Some v, utc_of v) |}.

(** On 2021-03-01 at noon: the next 31st, the next 29th of February, tomorrow
    morning, the next half hour, a year of two digits. *)
Example dates_completed :
  let now := 1614600000 in
  let at_ value := stop_parse_at_time (H := utc) 20 value now in
  now = utc_days 2021 3 1 * 86400 + 43200 /\
  at_ (cs "31") = Ret (utc_days 2021 3 31 * 86400) /\
  at_ (cs "2-29") = Ret (utc_days 2024 2 29 * 86400) /\
  at_ (cs "T7:5") = Ret (utc_days 2021 3 2 * 86400 + 25500) /\
  at_ (cs ":30") = Ret (now + 1800) /\
  at_ (cs "25-12-31T23:59") = Ret (utc_days 2025 12 31 * 86400 + 86340) /\
  at_ (cs "now+2h") = Ret (now + 7200).
Proof. split_and!; vm_compute; reflexivity. Qed.
(** A date of many digits overflows an [int] in [parse_time_rsync]. *)
Example date_overflows : stop_parse_at_time (H := utc) 20 (cs "99999999999") 0 = Stuck.
Proof. vm_compute. reflexivity. Qed.
