(* ===== verification/Compression.v ===== *)
(** Compressed frames: src/shared/compression.c.  A frame begins with the id of
    its codec, so that it is decompressed without knowing the choice of the
    sender; lz4 and zlib frames carry the size of the content next.  The libraries
    zstd, lz4 and zlib are the classes [Zstd], [Lz4] and [Zlib] of parameters.

    The thread's cached zstd contexts are the state of the functions; a context
    that could not be cached is freed by its caller, which is a run that starts
    without one. *)

From stdpp Require Import list.
From S2P Require Import Prelude Alloc CStr DataBuf Transport Session Wp Names Libc.

Definition COMPRESSION_MAX_THREADS : Z := 64.
Definition INITIAL_DECOMPRESS_BUF_SIZE : Z := 1024 * 1024.
Definition MAX_RECEIVE_WHOLE_FILE_SIZE : Z := 256 * 1024 * 1024.
Definition MAX_DECOMPRESSED_SIZE : Z := MAX_RECEIVE_WHOLE_FILE_SIZE.
Definition LZ4_SIZE_PREFIX_LEN : Z := 4.
Definition sizeof_CompressionThreadCtx : Z := 48.

(** ** Which files are compressed *)

(** compression.c [DEFAULT_SKIP_COMPRESS_SUFFIXES], [suffix_in_list] *)
Definition DEFAULT_SKIP_COMPRESS_SUFFIXES : list byte :=
  cs "3g2 3gp 7z aac ace apk avi bz2 deb dmg ear f4v flac flv gpg gz iso jar jpeg jpg lrz lz lz4 lzma "
  ++ cs "lzo m1a m1v m2a m2ts m2v m4a m4b m4p m4r m4v mka mkv mov mp1 mp2 mp3 mp4 mpa mpeg mpg mpv mts "
  ++ cs "odb odf odg odi odm odp ods odt oga ogg ogm ogv ogx opus otg oth otp ots ott oxt png qt rar rpm "
  ++ cs "rz rzip spx squashfs sxc sxd sxg sxm sxw sz tbz tbz2 tgz tlz ts txz tzo vob war webm webp xz z zip zst".
Definition suffix_in_list (name lst : list byte) : bool := existsb (strcaseeq name) (strtok (is_char " ") lst).

(** What follows the last dot, as [strrchr] finds it *)
Fixpoint last_dot (s : list byte) : option (list byte) :=
  match s with
  | [] => None
  | c :: s => match last_dot s with Some t => Some t | None => if bool_decide (c = "."%byte) then Some s else None end
  end.
(** compression.c [compression_should_skip_with_suffixes]; [None] is a negative
    count, the default list *)
Definition bare_suffix (s : list byte) : list byte := match s with c :: s' => if bool_decide (c = "."%byte) then s' else s | [] => [] end.
Definition compression_should_skip_with_suffixes (path : option (list byte)) (suffixes : option (list (list byte))) : bool :=
  match path with
  | None => false
  | Some path =>
      match last_dot path with
      | None | Some [] => false
      | Some name =>
          match suffixes with
          | None => suffix_in_list name DEFAULT_SKIP_COMPRESS_SUFFIXES
          | Some l => existsb (fun s => strcaseeq name (bare_suffix s)) l
          end
      end
  end.

(** ** Levels *)

(** compression.c [compression_algo_enabled], [compression_default_level],
    [compression_clamp_level] *)
Definition ZSTD_CLEVEL_DEFAULT : Z := 3.
Definition compression_algo_enabled (algo : Z) : bool := negb (algo =? COMPRESSION_ALGO_NONE).
Definition is_zlib (algo : Z) : bool := (algo =? COMPRESSION_ALGO_ZLIB) || (algo =? COMPRESSION_ALGO_ZLIBX).
Definition compression_default_level (algo : Z) : Z :=
  if algo =? COMPRESSION_ALGO_ZSTD then ZSTD_CLEVEL_DEFAULT
  else if is_zlib algo then 6
  else if algo =? COMPRESSION_ALGO_LZ4 then 1
  else 0.
Definition clamp (lo hi level : Z) : Z := if level <? lo then lo else if level >? hi then hi else level.
Definition compression_clamp_level (algo level : Z) : Z :=
  if algo =? COMPRESSION_ALGO_ZSTD then clamp 1 22 level
  else if is_zlib algo then clamp 1 9 level
  else if algo =? COMPRESSION_ALGO_LZ4 then 1
  else if algo =? COMPRESSION_ALGO_NONE then 0
  else level.

(** ** The libraries *)

(** lz4: [None] for a result that is not positive, or negative *)
Class Lz4 := {
  LZ4_compressBound : Z -> Z;
  LZ4_compress_default : list byte -> Z -> option (list byte);
  LZ4_decompress_safe : list byte -> Z -> option (list byte);
}.
(** zlib: [None] for anything but [Z_OK] *)
Class Zlib := {
  compressBound : Z -> Z;
  compress2 : list byte -> Z -> Z -> option (list byte);
  uncompress : list byte -> Z -> option (list byte);
}.
(** zstd: contexts, which are reset, configured and run.  A step is given the
    input that is left and the room in the output; its answer is an error, or
    whether it is not finished, how much input it took and what it wrote. *)
Inductive content_size := SizeError | SizeUnknown | SizeOf (n : Z).
Class Zstd := {
  cctx : Type; dctx : Type;
  ZSTD_createCCtx : option cctx; ZSTD_createDCtx : option dctx;
  ZSTD_CCtx_reset : cctx -> cctx; ZSTD_DCtx_reset : dctx -> dctx;
  set_level : cctx -> Z -> option cctx; set_workers : cctx -> Z -> option cctx; set_pledged : cctx -> Z -> option cctx;
  ZSTD_compressBound : Z -> Z;
  ZSTD_compressStream2 : cctx -> list byte -> Z -> cctx * option (bool * nat * list byte);
  ZSTD_getFrameContentSize : list byte -> content_size;
  ZSTD_decompressStream : dctx -> list byte -> Z -> dctx * option (bool * nat * list byte);
  online_cpus : Z;
}.

Section Codec.
Context `{HH : Heap} `{LZ : Lz4} `{ZL : Zlib} `{ZS : Zstd}.

(** compression.c [CompressionThreadCtx] *)
Record thread_ctx := MkCtx {
  t_cctx : option cctx; t_dctx : option dctx; t_out_cap : Z; t_level : Z; t_workers : Z; t_params_set : bool;
}.
Definition thread_io (A : Type) : Type := option thread_ctx -> option thread_ctx * outcome A.

(** compression.c [compression_get_thread_ctx] *)
Definition compression_get_thread_ctx (slot : option thread_ctx) : option thread_ctx :=
  match slot with
  | Some ctx => Some ctx
  | None => if malloc_ok sizeof_CompressionThreadCtx then Some (MkCtx None None 0 0 0 false) else None
  end.

(** The bytes of a [Data] *)
Definition bytes_of (d : Data) : list byte := take (Z.to_nat (size d)) (data_buf d).

(** compression.c [frame_with_codec] *)
Definition frame_with_codec (src : list byte) (codec : Z) : outcome Data :=
  check (negb (zlen src >? SIZE_MAX - 1));;
  check (protocol_alloc (zlen src + 1));;
  data_create (Some (put_le 1 codec ++ src)) (zlen src + 1).

(** compression.c [zstd_compress], in its steps: the context and its parameters *)
Definition want_threads (compression_threads : Z) : Z :=
  if compression_threads >? 0 then if (online_cpus >? 0) && (online_cpus <? compression_threads) then online_cpus else compression_threads else 0.
Definition with_level (level : Z) (ctx : thread_ctx) (c : cctx) : option (thread_ctx * cctx) :=
  if negb (t_params_set ctx) || negb (t_level ctx =? level) then
    c ← set_level c level;
    Some (MkCtx (Some c) (t_dctx ctx) (t_out_cap ctx) level (t_workers ctx) (t_params_set ctx), c)
  else Some (ctx, c).
Definition with_workers (workers : Z) (ctx : thread_ctx) (c : cctx) : option (thread_ctx * cctx) :=
  if negb (t_params_set ctx) || negb (t_workers ctx =? workers) then
    c ← set_workers c workers;
    Some (MkCtx (Some c) (t_dctx ctx) (t_out_cap ctx) (t_level ctx) workers true, c)
  else Some (MkCtx (Some c) (t_dctx ctx) (t_out_cap ctx) (t_level ctx) (t_workers ctx) true, c).
Definition keep_cctx (ctx : thread_ctx) (c : cctx) : thread_ctx :=
  MkCtx (Some c) (t_dctx ctx) (t_out_cap ctx) (t_level ctx) (t_workers ctx) (t_params_set ctx).

(** The loop that ends the frame; its output is as large as zstd's bound *)
Fixpoint zstd_end_loop (fuel : nat) (c : cctx) (input : list byte) (room : Z) (out : list byte) : cctx * outcome (list byte) :=
  match fuel with
  | O => (c, Stuck)
  | S fuel =>
      let '(c, r) := ZSTD_compressStream2 c input (room - zlen out) in
      match r with
      | None => (c, Fail)
      | Some (more, n, p) =>
          if zlen out + zlen p >? room then (c, Stuck)
          else if more then zstd_end_loop fuel c (drop n input) room (out ++ p) else (c, Ret (out ++ p))
      end
  end.
Definition zstd_run (ctx : thread_ctx) (c : cctx) (input : list byte) (dst_size : Z) : thread_ctx * outcome Data :=
  let '(grown, ok) := if t_out_cap ctx <? dst_size then (dst_size, protocol_realloc dst_size) else (t_out_cap ctx, true) in
  if negb ok then (keep_cctx ctx c, Fail)
  else
    let '(c, r) := zstd_end_loop (S (length input)) c input (dst_size - 1) [] in
    let ctx := MkCtx (Some c) (t_dctx ctx) grown (t_level ctx) (t_workers ctx) (t_params_set ctx) in
    (ctx, out ← r; check (protocol_alloc (zlen out + 1));; data_create (Some (put_le 1 COMPRESSION_ALGO_ZSTD ++ out)) (zlen out + 1)).
Definition zstd_compress (d : Data) (level threads : Z) : thread_io Data := fun slot =>
  let input := bytes_of d in
  if ZSTD_compressBound (zlen input) >? SIZE_MAX - 1 then (slot, Fail)
  else
    let dst_size := ZSTD_compressBound (zlen input) + 1 in
    match compression_get_thread_ctx slot with
    | None => (slot, Fail)
    | Some ctx =>
        match (match t_cctx ctx with Some c => Some (ctx, c) | None => c ← ZSTD_createCCtx; Some (MkCtx (Some c) (t_dctx ctx) (t_out_cap ctx) (t_level ctx) (t_workers ctx) false, c) end) with
        | None => (Some ctx, Fail)
        | Some (ctx, c) =>
            let c := ZSTD_CCtx_reset c in
            match with_level level ctx c with
            | None => (Some (keep_cctx ctx c), Fail)
            | Some (ctx, c) =>
                let workers := want_threads threads in
                match with_workers workers ctx c with
                | None => (Some (keep_cctx ctx c), Fail)
                | Some (ctx, c) =>
                    match (if workers >? 0 then set_pledged c (zlen input) else Some c) with
                    | None => (Some (keep_cctx ctx c), Fail)
                    | Some c => let '(ctx, r) := zstd_run ctx c input dst_size in (Some ctx, r)
                    end
                end
            end
        end
    end.

(** A frame with the size of its content, written into a buffer of [bound] bytes
    more than the prefix *)
Definition sized_frame (codec raw_size bound : Z) (comp : list byte) : outcome Data :=
  w ← emit (put_le 1 codec ++ put_le 4 raw_size ++ comp) (WBuf (bound + 1 + LZ4_SIZE_PREFIX_LEN) []);
  data_create (Some (w_finish w)) (zlen comp + 1 + LZ4_SIZE_PREFIX_LEN).

(** compression.c [lz4_compress], [zlib_compress] *)
Definition lz4_compress (d : Data) : outcome Data :=
  let input := bytes_of d in
  let bound := LZ4_compressBound (i32 (zlen input)) in
  check (negb ((bound <? 0) || (zlen input >? INT_MAX)));;
  check (protocol_alloc (bound + 1 + LZ4_SIZE_PREFIX_LEN));;
  comp ← (if zlen input >? 0 then of_option (LZ4_compress_default input bound) else Ret []);
  sized_frame COMPRESSION_ALGO_LZ4 (zlen input) bound comp.
Definition Z_DEFAULT_COMPRESSION : Z := -1.
Definition zlib_level (level : Z) : Z := let level := if level <? 1 then Z_DEFAULT_COMPRESSION else level in if level >? 9 then 9 else level.
Definition zlib_compress (d : Data) (algo level : Z) : outcome Data :=
  let input := bytes_of d in
  let bound := compressBound (zlen input) in
  check (negb (zlen input >? ULONG_MAX));;
  check (protocol_alloc (bound + 1 + LZ4_SIZE_PREFIX_LEN));;
  comp ← of_option (compress2 input (zlib_level level) bound);
  sized_frame algo (u32 (zlen input)) bound comp.

(** compression.c [data_compress_codec], [data_compress_with_threads],
    [data_compress]; [g_compression_algo] is the codec of the process *)
Definition bad_data (d : Data) : bool := match data d with None => negb (size d =? 0) | Some _ => false end.
Definition data_compress_codec (d : option Data) (algo level threads : Z) : thread_io Data := fun slot =>
  match d with
  | None => (slot, Fail)
  | Some d =>
      if bad_data d || (threads <? 0) || (threads >? COMPRESSION_MAX_THREADS) || negb (compression_algo_valid algo) then (slot, Fail)
      else if algo =? COMPRESSION_ALGO_NONE then (slot, frame_with_codec (bytes_of d) COMPRESSION_ALGO_NONE)
      else if algo =? COMPRESSION_ALGO_ZSTD then zstd_compress d level threads slot
      else if algo =? COMPRESSION_ALGO_LZ4 then (slot, lz4_compress d)
      else (slot, zlib_compress d algo level)
  end.
Definition data_compress_with_threads (g_compression_algo : Z) (d : option Data) (level threads : Z) : thread_io Data :=
  data_compress_codec d g_compression_algo level threads.
Definition data_compress (g_compression_algo : Z) (d : option Data) (level : Z) : thread_io Data :=
  data_compress_codec d g_compression_algo level 0.

(** ** Decompression *)

(** compression.c [decompress_none], [read_raw_size] *)
Definition decompress_none (d : Data) (maximum_size : Z) : outcome Data :=
  let sz := size d - 1 in
  check (negb (sz >? maximum_size));;
  out ← data_create_empty sz;
  bytes ← (if sz >? 0 then rd (data_buf d) 1 sz else Ret []);
  Ret (MkData (Some (bytes ++ drop (length bytes) (data_buf out))) sz (protocol_charge out) (owner out)).
Definition read_raw_size (d : Data) : outcome Z :=
  check (negb (size d <? 1 + LZ4_SIZE_PREFIX_LEN));; get_le 4 (data_buf d) 1.

(** compression.c [lz4_decompress], [zlib_decompress]: [decode] is the call of the
    library, with the compressed bytes and the room *)
Definition sized_decompress (decode : list byte -> Z -> option (list byte)) (d : Data) (maximum_size hard_limit : Z) : outcome Data :=
  raw_size ← read_raw_size d;
  check (negb ((raw_size >? hard_limit) || (raw_size >? maximum_size)));;
  let comp_size := size d - 1 - LZ4_SIZE_PREFIX_LEN in
  out ← data_create_empty raw_size;
  if raw_size =? 0 then Ret (MkData (data out) 0 (protocol_charge out) (owner out))
  else
    comp ← rd (data_buf d) (1 + LZ4_SIZE_PREFIX_LEN) comp_size;
    bytes ← of_option (decode comp raw_size);
    if zlen bytes >? raw_size then Stuck
    else
      check (zlen bytes =? raw_size);;
      Ret (MkData (Some bytes) raw_size (protocol_charge out) (owner out)).
Definition lz4_decompress : Data -> Z -> Z -> outcome Data := sized_decompress LZ4_decompress_safe.
Definition zlib_decompress : Data -> Z -> Z -> outcome Data := sized_decompress uncompress.

(** compression.c [zstd_decompress]: the loop that grows its buffer up to the
    limit.  A round either ends, or fills the buffer and doubles it, or takes some
    input, which is the fuel. *)
Fixpoint zstd_decode_loop (fuel : nat) (c : dctx) (input : list byte) (hard_limit buf_size : Z) (out : list byte) : dctx * outcome (list byte * Z) :=
  match fuel with
  | O => (c, Stuck)
  | S fuel =>
      let '(c, r) := ZSTD_decompressStream c input (buf_size - zlen out) in
      match r with
      | None => (c, Fail)
      | Some (more, n, p) =>
          if zlen out + zlen p >? buf_size then (c, Stuck)
          else
            let out := out ++ p in
            let input := drop n input in
            if negb more then (c, Ret (out, buf_size))
            else if zlen out =? buf_size then
              if (buf_size >=? hard_limit) || (buf_size >? SIZE_MAX `quot` 2) then (c, Fail)
              else
                let grown := if buf_size * 2 >? hard_limit then hard_limit else buf_size * 2 in
                if negb (protocol_realloc grown) then (c, Fail) else zstd_decode_loop fuel c input hard_limit grown out
            else if bool_decide (input = []) then (c, Fail)
            else zstd_decode_loop fuel c input hard_limit buf_size out
      end
  end.
Definition declared_size (frame : list byte) : option Z :=
  match ZSTD_getFrameContentSize frame with
  | SizeError => None
  | SizeUnknown =>
      if zlen frame >? (2 ^ 64 - 1) `quot` 3 then None
      else Some (if zlen frame * 3 <? INITIAL_DECOMPRESS_BUF_SIZE then INITIAL_DECOMPRESS_BUF_SIZE else zlen frame * 3)
  | SizeOf n => Some n
  end.
Definition zstd_decompress (d : Data) (maximum_size : Z) : thread_io Data := fun slot =>
  match rd (data_buf d) 1 (size d - 1) with
  | Ret frame =>
      match declared_size frame with
      | None => (slot, Fail)
      | Some dst_size =>
          let hard_limit := if maximum_size <? MAX_DECOMPRESSED_SIZE then maximum_size else MAX_DECOMPRESSED_SIZE in
          if dst_size >? hard_limit then (slot, Fail)
          else
            match compression_get_thread_ctx slot with
            | None => (slot, Fail)
            | Some ctx =>
                match (match t_dctx ctx with Some c => Some c | None => ZSTD_createDCtx end) with
                | None => (Some ctx, Fail)
                | Some c =>
                    let c := ZSTD_DCtx_reset c in
                    let keep c := Some (MkCtx (t_cctx ctx) (Some c) (t_out_cap ctx) (t_level ctx) (t_workers ctx) (t_params_set ctx)) in
                    let buf_size := if dst_size >? 0 then dst_size else INITIAL_DECOMPRESS_BUF_SIZE in
                    let buf_size := if buf_size >? maximum_size then maximum_size else buf_size in
                    match data_create_empty buf_size with
                    | Ret _ =>
                        let '(c, r) := zstd_decode_loop (length frame + 64) c frame hard_limit buf_size [] in
                        (keep c, '(out, cap) ← r; Ret (MkData (Some (out ++ junk_bytes (cap - zlen out))) (zlen out) 0 None))
                    | Fail => (keep c, Fail)
                    | Stuck => (keep c, Stuck)
                    end
                end
            end
      end
  | Fail => (slot, Fail)
  | Stuck => (slot, Stuck)
  end.

(** compression.c [data_decompress_limited], [data_decompress] *)
Definition data_decompress_limited (d : option Data) (maximum_size : Z) : thread_io Data := fun slot =>
  match d with
  | None => (slot, Fail)
  | Some d =>
      if bad_data d || (maximum_size =? 0) || (size d <? 1) then (slot, Fail)
      else
        let hard_limit := if maximum_size <? MAX_DECOMPRESSED_SIZE then maximum_size else MAX_DECOMPRESSED_SIZE in
        match get_le 1 (data_buf d) 0 with
        | Ret codec =>
            if negb (compression_algo_valid codec) then (slot, Fail)
            else if codec =? COMPRESSION_ALGO_NONE then (slot, decompress_none d hard_limit)
            else if codec =? COMPRESSION_ALGO_ZSTD then zstd_decompress d hard_limit slot
            else if codec =? COMPRESSION_ALGO_LZ4 then (slot, lz4_decompress d maximum_size hard_limit)
            else (slot, zlib_decompress d maximum_size hard_limit)
        | Fail => (slot, Fail)
        | Stuck => (slot, Stuck)
        end
  end.
Definition data_decompress (d : option Data) : thread_io Data := data_decompress_limited d MAX_DECOMPRESSED_SIZE.
End Codec.
