(* ===== verification/CompressionSafe.v ===== *)
(** What compressed frames guarantee: a frame of any bytes is decompressed within
    its limit, and what was compressed comes back, with every codec.  The
    documented behaviour of zstd, lz4 and zlib is stated as classes of laws. *)

From stdpp Require Import list.
From S2P Require Import Prelude Alloc CStr DataBuf Transport Session Wp Names Libc Compression.

(** ** What the libraries promise for any input *)

Class DecodersSafe `{LZ : Lz4} `{ZL : Zlib} `{ZS : Zstd} : Prop := {
  lz4_room s room b : LZ4_decompress_safe s room = Some b -> zlen b <= room;
  zlib_room s room b : uncompress s room = Some b -> zlen b <= room;
  zstd_content frame n : ZSTD_getFrameContentSize frame = SizeOf n -> 0 <= n;
  (** no more than the room is written; without a full buffer or an end some of
      the input is taken *)
  zstd_progress c input room c' more n p : 0 <= room -> ZSTD_decompressStream c input room = (c', Some (more, n, p)) ->
    zlen p <= room /\ (n <= length input)%nat /\ (more = true -> zlen p < room -> input <> [] -> (0 < n)%nat);
}.

(** ** What they promise for their own frames *)

Section Laws.
Context `{LZ : Lz4} `{ZL : Zlib} `{ZS : Zstd}.

(** A context after a reset, configured for the input [x] *)
Inductive ready (x : list byte) : cctx -> Prop :=
| ReadyReset c : ready x (ZSTD_CCtx_reset c)
| ReadyLevel c l c' : ready x c -> set_level c l = Some c' -> ready x c'
| ReadyWorkers c n c' : ready x c -> set_workers c n = Some c' -> ready x c'
| ReadyPledged c c' : ready x c -> set_pledged c (zlen x) = Some c' -> ready x c'.
End Laws.

(** [frames f x]: [f] is a zstd frame of [x]; [decodes c input x]: a context that
    has [x] still to write when it is fed [input] *)
Class CodecLaws `{LZ : Lz4} `{ZL : Zlib} `{ZS : Zstd} := {
  lz4_trip x : 0 < zlen x <= 2 ^ 28 -> exists y, LZ4_compress_default x (LZ4_compressBound (zlen x)) = Some y /\ zlen y <= LZ4_compressBound (zlen x) /\ LZ4_decompress_safe y (zlen x) = Some x;
  lz4_bound n : 0 <= n <= 2 ^ 28 -> 0 <= LZ4_compressBound n <= 2 * n + 1024;
  zlib_trip x level : zlen x <= 2 ^ 28 -> level = -1 \/ 1 <= level <= 9 -> exists y, compress2 x level (compressBound (zlen x)) = Some y /\ zlen y <= compressBound (zlen x) /\ uncompress y (zlen x) = Some x;
  zlib_bound n : 0 <= n <= 2 ^ 28 -> 0 <= compressBound n <= 2 * n + 1024;
  frames : list byte -> list byte -> Prop;
  decodes : dctx -> list byte -> list byte -> Prop;
  zstd_contexts : ZSTD_createCCtx <> None /\ ZSTD_createDCtx <> None;
  zstd_bound n : 0 <= n <= 2 ^ 28 -> 0 <= ZSTD_compressBound n <= 2 * n + 1024;
  zstd_level c l : 1 <= l <= 22 -> is_Some (set_level c l);
  zstd_workers c n : 0 <= n <= COMPRESSION_MAX_THREADS -> is_Some (set_workers c n);
  zstd_pledge c n : is_Some (set_pledged c n);
  (** with room for the bound, a frame is ended in one call *)
  zstd_ends x c : zlen x <= 2 ^ 28 -> ready x c -> exists c' f, ZSTD_compressStream2 c x (ZSTD_compressBound (zlen x)) = (c', Some (false, length x, f)) /\ zlen f <= ZSTD_compressBound (zlen x) /\ frames f x;
  zstd_declared f x : frames f x -> ZSTD_getFrameContentSize f = SizeOf (zlen x);
  zstd_starts f x c : frames f x -> decodes (ZSTD_DCtx_reset c) f x;
  zstd_feeds c input out room : decodes c input out -> 0 <= room -> exists c' more n p rest,
    ZSTD_decompressStream c input room = (c', Some (more, n, p)) /\ out = p ++ rest /\ zlen p <= room /\ (n <= length input)%nat /\
    if more then decodes c' (drop n input) rest /\ (zlen p = room \/ (0 < n < length input)%nat) else rest = [];
}.

(** ** Any bytes *)

Section Safe.
Context `{HH : Heap} `{LZ : Lz4} `{ZL : Zlib} `{ZS : Zstd} `{!DecodersSafe}.

Lemma decode_loop_safe hard fuel : forall c input buf_size out (g : nat),
  1 <= buf_size <= hard -> hard <= buf_size * 2 ^ Z.of_nat g -> hard <= 2 ^ 28 -> zlen out <= buf_size -> (length input + g < fuel)%nat ->
  owp (zstd_decode_loop fuel c input hard buf_size out).2 (fun r => zlen r.1 <= r.2 <= hard).
Proof.
  induction fuel as [|fuel IH]; intros c input buf_size out g Hb Hg Hh Ho Hf; [lia|]. cbn [zstd_decode_loop].
  destruct (ZSTD_decompressStream c input (buf_size - zlen out)) as [c' [[[more n] p]|]] eqn:E; [|done].
  apply zstd_progress in E as (Hp&Hn&Hprog); [|lia]. destruct (Z.gtb_spec (zlen out + zlen p) buf_size); [lia|].
  destruct more; cbn [negb]; [|cbn; rewrite zlen_app; lia]. rewrite zlen_app. destruct (Z.eqb_spec (zlen out + zlen p) buf_size) as [Hfull|Hroom].
  - destruct (Z.geb_spec buf_size hard); cbn [orb]; [done|]. destruct (_ >? _); [done|]. destruct (negb (protocol_realloc _)); [done|].
    destruct g as [|g]; [change (2 ^ Z.of_nat 0) with 1 in Hg; lia|]. replace (2 ^ Z.of_nat (S g)) with (2 * 2 ^ Z.of_nat g) in Hg by (rewrite <- Z.pow_succ_r by lia; f_equal; lia).
    assert (1 <= 2 ^ Z.of_nat g) by (pose proof (Z.pow_pos_nonneg 2 (Z.of_nat g)); lia).
    apply (IH _ _ _ _ g); rewrite ?length_drop, ?zlen_app; try lia; destruct (Z.gtb_spec (buf_size * 2) hard); nia.
  - case_bool_decide as Hi; [done|]. apply (IH _ _ _ _ g); rewrite ?zlen_app; try lia.
    assert (input <> []) by (intros ->; by rewrite drop_nil in Hi). rewrite length_drop. specialize (Hprog eq_refl ltac:(lia) ltac:(done)). lia.
Qed.

Definition within_limit (limit : Z) (x : Data) : Prop := data_wf x /\ size x <= limit /\ protocol_charge x = 0 /\ owner x = None.

Lemma empty_within n x : 0 <= n < 2 ^ 64 -> data_create_empty n = Ret x -> within_limit n x /\ exists b, data x = Some b /\ n <= zlen b.
Proof.
  intros Hn E. pose proof (data_create_empty_wf n x Hn E) as [Hw Hs]. unfold data_create_empty, data_create in E. do 3 inv_ret E. subst. split; [|eexists; split; [done|]; rewrite zlen_junk_bytes; destruct (Z.gtb_spec n 0); lia].
  split_and!; [done|cbn; lia|done..].
Qed.
Lemma within_mono n m x : n <= m -> within_limit n x -> within_limit m x.
Proof. intros ? (?&?&?&?). split_and!; done || lia. Qed.

Lemma none_within d limit : data_wf d -> 1 <= size d -> 0 <= limit -> owp (decompress_none d limit) (within_limit limit).
Proof.
  intros Hd H1 Hl. apply data_wf_buf in Hd as [Hb Hw]. unfold decompress_none. wp_check Hm. apply negb_true_iff in Hm. destruct (Z.gtb_spec (size d - 1) limit); [done|].
  destruct (data_create_empty (size d - 1)) as [x| |] eqn:E; [|done|by unfold data_create_empty, data_create in E; repeat destruct (protocol_alloc _)].
  apply empty_within in E as [(Hx&Hs&Hc&Ho) (b&Hbx&Hbl)]; [|lia].
  destruct (Z.gtb_spec (size d - 1) 0); cbn [mbind outcome_bind].
  - wp_bind. apply owp_rd; [lia..|]. intros bs Hz. split_and!; [|done..]. unfold data_wf. cbn. rewrite zlen_app. pose proof (zlen_nonneg (drop (length bs) (data_buf x))). lia.
  - split_and!; [|cbn; lia|done..]. unfold data_wf. cbn. unfold data_buf at 1. rewrite Hbx. cbn. rewrite drop_0. lia.
Qed.
Lemma sized_within decode d maximum limit : (forall s room b, decode s room = Some b -> zlen b <= room) ->
  data_wf d -> owp (sized_decompress decode d maximum limit) (within_limit (Z.min maximum limit)).
Proof.
  intros Hdec Hd. apply data_wf_buf in Hd as [Hb Hw]. unfold sized_decompress. wp_bind. unfold read_raw_size. wp_check H5. apply negb_true_iff, Z.ltb_ge in H5. unfold LZ4_SIZE_PREFIX_LEN in *.
  apply owp_get_le; [lia..|]. intros raw Hraw. wp_check Hm. apply negb_true_iff, orb_false_iff in Hm as [Hm1 Hm2]. rewrite Z.gtb_ltb, Z.ltb_ge in Hm1, Hm2.
  destruct (data_create_empty raw) as [x| |] eqn:E; [|done|by unfold data_create_empty, data_create in E; repeat destruct (protocol_alloc _)].
  apply empty_within in E as [(Hx&Hs&Hc&Ho) (b&Hbx&Hbl)]; [|lia]. cbn [mbind outcome_bind]. destruct (Z.eqb_spec raw 0) as [->|Hr].
  - cbn. split_and!; [|cbn; lia|done..]. unfold data_wf. cbn. rewrite Hbx. lia.
  - wp_bind. apply owp_rd; [lia..|]. intros comp _. destruct (decode comp raw) as [bs|] eqn:Ed; [|done]. cbn [of_option mbind outcome_bind]. apply Hdec in Ed. destruct (Z.gtb_spec (zlen bs) raw); [lia|].
    wp_check Hz. apply Z.eqb_eq in Hz. split_and!; [|cbn; lia|done..]. unfold data_wf. cbn. lia.
Qed.

Lemma zstd_within d maximum slot : data_wf d -> 1 <= size d -> 1 <= maximum <= MAX_DECOMPRESSED_SIZE -> owp (zstd_decompress d maximum slot).2 (within_limit maximum).
Proof.
  intros Hd H1 Hmax. apply data_wf_buf in Hd as [Hb Hw]. unfold zstd_decompress. destruct (rd _ 1 _) as [frame| |] eqn:Erd; [|done|by apply rd_not_stuck in Erd; try lia].
  destruct (declared_size frame) as [n|] eqn:Ed; [|done]. assert (Hn : 0 <= n).
  { unfold declared_size in Ed. destruct (ZSTD_getFrameContentSize frame) eqn:Ec; [done| |]; [|simplify_eq; by eapply zstd_content]. pose proof (zlen_nonneg frame). destruct (_ >? _); [done|]. destruct (_ <? _); simplify_eq; [done|lia]. }
  assert (Hh : (if maximum <? MAX_DECOMPRESSED_SIZE then maximum else MAX_DECOMPRESSED_SIZE) = maximum) by (destruct (Z.ltb_spec maximum MAX_DECOMPRESSED_SIZE); lia). rewrite Hh.
  destruct (Z.gtb_spec n maximum); [done|]. destruct (compression_get_thread_ctx slot) as [ctx|]; [|done]. destruct (match t_dctx ctx with Some c => Some c | None => _ end) as [c|]; [|done].
  set (buf := if (if n >? 0 then n else _) >? maximum then _ else _). assert (Hbuf : 1 <= buf <= maximum) by (unfold buf, INITIAL_DECOMPRESS_BUF_SIZE; destruct (Z.gtb_spec n 0); (match goal with |- context [if ?a >? maximum then _ else _] => destruct (Z.gtb_spec a maximum) end); lia).
  destruct (data_create_empty buf) eqn:E; [|done|by unfold data_create_empty, data_create in E; repeat destruct (protocol_alloc _)].
  pose proof (decode_loop_safe maximum (length frame + 64) (ZSTD_DCtx_reset c) frame buf [] 30) as Hloop. destruct (zstd_decode_loop _ _ _ _ _ _) as [c' r]. cbn [snd] in *. wp_bind.
  eapply owp_mono; [apply Hloop; unfold MAX_DECOMPRESSED_SIZE, MAX_RECEIVE_WHOLE_FILE_SIZE in *; change (zlen []) with 0; change (2 ^ Z.of_nat 30) with 1073741824; lia|]. intros [out cap] Ho. cbn in *. pose proof (zlen_nonneg out).
  split_and!; [|cbn; lia|done..]. unfold data_wf, MAX_DECOMPRESSED_SIZE, MAX_RECEIVE_WHOLE_FILE_SIZE in *. cbn. rewrite zlen_app, zlen_junk_bytes; lia.
Qed.

(** Whatever a peer sends, decompressing it neither reads past the frame nor spins,
    and what comes out is within the limit the caller gave and within 256 MiB, and
    charged to nobody. *)
Lemma decompress_within d maximum slot : data_wf d -> 0 <= maximum < 2 ^ 64 ->
  owp (data_decompress_limited (Some d) maximum slot).2 (within_limit (Z.min maximum MAX_DECOMPRESSED_SIZE)).
Proof.
  intros Hd Hm. unfold data_decompress_limited. destruct (bad_data d || (maximum =? 0) || (size d <? 1)) eqn:Eb; [done|]. apply orb_false_iff in Eb as [Eb H1]. apply orb_false_iff in Eb as [_ H0].
  apply Z.eqb_neq in H0. apply Z.ltb_ge in H1. set (hard := if maximum <? MAX_DECOMPRESSED_SIZE then _ else _).
  assert (Hh : hard = Z.min maximum MAX_DECOMPRESSED_SIZE) by (unfold hard; destruct (Z.ltb_spec maximum MAX_DECOMPRESSED_SIZE); lia). assert (Hrange : 1 <= hard <= MAX_DECOMPRESSED_SIZE) by (unfold MAX_DECOMPRESSED_SIZE, MAX_RECEIVE_WHOLE_FILE_SIZE in *; lia).
  pose proof (data_wf_buf d Hd) as [Hb Hw]. destruct (get_le_total 1 (data_buf d) 0) as [codec ->]; [lia..|]. destruct (negb _); [done|]. rewrite <- Hh.
  destruct (_ =? _); [apply none_within; done || lia|]. destruct (_ =? _); [by apply zstd_within|]. cbn [snd].
  destruct (_ =? _); (eapply owp_mono; [apply sized_within; [|done]|]); [apply lz4_room| |apply zlib_room|]; intros x Hx; (eapply within_mono; [|exact Hx]); lia.
Qed.
End Safe.

(** ** There and back *)

(** A buffer that holds a frame, whatever lies behind it *)
Definition framed (codec : Z) (body : list byte) (c : Data) : Prop := data_wf c /\ bytes_of c = put_le 1 codec ++ body.

Lemma framed_buf codec body c : framed codec body c -> exists junk, data_buf c = put_le 1 codec ++ body ++ junk /\ size c = 1 + zlen body /\ data c <> None.
Proof.
  intros [Hw Hb]. pose proof (data_wf_buf c Hw) as [Hs _]. exists (drop (Z.to_nat (size c)) (data_buf c)). assert (Hz : zlen (bytes_of c) = size c) by (unfold bytes_of, zlen in *; rewrite length_take; lia).
  split_and!; [by rewrite app_assoc, <- Hb; unfold bytes_of; rewrite take_drop|rewrite <- Hz, Hb, zlen_app, zlen_put_le; lia|].
  intros E. unfold data_wf in Hw. rewrite E in Hw. rewrite Hb, zlen_app, zlen_put_le in Hz. pose proof (zlen_nonneg body). lia.
Qed.
Lemma framed_create `{HH : Heap} codec body junk n c : n = 1 + zlen body -> n < 2 ^ 64 -> data_create (Some ((put_le 1 codec ++ body) ++ junk)) n = Ret c -> framed codec body c.
Proof.
  intros -> Hn E. unfold data_create in E. inv_ret E. inv_ret E. subst. pose proof (zlen_nonneg body). pose proof (zlen_nonneg junk). split.
  - unfold data_wf. cbn. rewrite !zlen_app, zlen_put_le. lia.
  - unfold bytes_of. change (data_buf _) with ((put_le 1 codec ++ body) ++ junk). rewrite take_app_length'; [done|]. cbn [size]. rewrite <- Z2Nat_zlen, zlen_app, zlen_put_le. lia.
Qed.

Section Back.
Context `{HH : Heap} `{LZ : Lz4} `{ZL : Zlib} `{ZS : Zstd} {CL : CodecLaws}.
Context (Hheap : heap_serves (2 ^ 30)).

(** What a frame of [x] is, per codec *)
Definition carries (x : list byte) (codec : Z) (body : list byte) : Prop :=
  codec = COMPRESSION_ALGO_NONE /\ body = x \/ codec = COMPRESSION_ALGO_ZSTD /\ frames body x \/
  codec <> COMPRESSION_ALGO_NONE /\ codec <> COMPRESSION_ALGO_ZSTD /\ exists y, body = put_le 4 (zlen x) ++ y /\ (0 < zlen x -> (if codec =? COMPRESSION_ALGO_LZ4 then LZ4_decompress_safe else uncompress) y (zlen x) = Some x).

Lemma empty_serves n : 0 <= n <= 2 ^ 30 -> exists b, data_create_empty n = Ret (MkData (Some b) n 0 None) /\ n <= zlen b.
Proof.
  intros Hn. unfold data_create_empty, data_create. unfold sizeof_Data. rewrite !(heap_serves_alloc (2 ^ 30)) by (done || destruct (Z.gtb_spec n 0); lia). 
  eexists. split; [done|]. rewrite zlen_junk_bytes; destruct (Z.gtb_spec n 0); lia.
Qed.

Lemma decode_loop_exact hard fuel : forall c input buf_size out rest (g : nat),
  1 <= buf_size <= hard -> hard <= buf_size * 2 ^ Z.of_nat g -> hard <= 2 ^ 28 -> zlen out <= buf_size -> (length input + g < fuel)%nat ->
  decodes c input rest -> zlen out + zlen rest < hard ->
  exists c' cap, zstd_decode_loop fuel c input hard buf_size out = (c', Ret (out ++ rest, cap)) /\ zlen out + zlen rest <= cap <= hard.
Proof.
  induction fuel as [|fuel IH]; intros c input buf_size out rest g Hb Hg Hh Ho Hf Hd Hr; [lia|]. cbn [zstd_decode_loop].
  destruct (zstd_feeds c input rest (buf_size - zlen out) Hd) as (c'&more&n&p&rest'&->&->&Hp&Hn&Hmore); [lia|]. destruct (Z.gtb_spec (zlen out + zlen p) buf_size); [lia|]. rewrite zlen_app in Hr.
  destruct more; cbn [negb]; [|subst; exists c', buf_size; rewrite app_nil_r; split; [done|]; change (zlen []) with 0 in *; lia]. destruct Hmore as [Hd' Hprog].
  rewrite zlen_app. pose proof (zlen_nonneg rest'). destruct (Z.eqb_spec (zlen out + zlen p) buf_size) as [Hfull|Hroom].
  - destruct (Z.geb_spec buf_size hard); cbn [orb]; [lia|]. destruct (Z.gtb_spec buf_size (SIZE_MAX `quot` 2)) as [Hq|_]; [change (SIZE_MAX `quot` 2) with 9223372036854775807 in Hq; lia|].
    set (grown := if buf_size * 2 >? hard then hard else buf_size * 2). destruct g as [|g]; [change (2 ^ Z.of_nat 0) with 1 in Hg; lia|].
    replace (2 ^ Z.of_nat (S g)) with (2 * 2 ^ Z.of_nat g) in Hg by (rewrite <- Z.pow_succ_r by lia; f_equal; lia). assert (1 <= 2 ^ Z.of_nat g) by (pose proof (Z.pow_pos_nonneg 2 (Z.of_nat g)); lia).
    assert (Hgrown : buf_size <= grown <= hard /\ hard <= grown * 2 ^ Z.of_nat g) by (unfold grown; destruct (Z.gtb_spec (buf_size * 2) hard); nia).
    rewrite protocol_realloc_alloc, (heap_serves_alloc (2 ^ 30)); [|done|lia]. cbn [negb]. destruct (IH c' (drop n input) grown (out ++ p) rest' g) as (c''&cap&->&Hc); rewrite ?zlen_app, ?length_drop; try lia; [done|].
    exists c'', cap. rewrite <- app_assoc. split; [done|]. rewrite zlen_app in Hc. lia.
  - destruct Hprog as [|Hprog]; [lia|]. case_bool_decide as Hi; [apply (f_equal length) in Hi; rewrite length_drop in Hi; cbn in Hi; lia|].
    destruct (IH c' (drop n input) buf_size (out ++ p) rest' g) as (c''&cap&->&Hc); rewrite ?zlen_app, ?length_drop; try lia; [done|]. exists c'', cap. rewrite <- app_assoc. split; [done|]. rewrite zlen_app in Hc. lia.
Qed.

Lemma bytes_front b x n ch o : zlen x = n -> bytes_of (MkData (Some (x ++ b)) n ch o) = x.
Proof. intros <-. unfold bytes_of. cbn. by rewrite take_app_length' by (unfold zlen; lia). Qed.

Lemma none_back x c hard : framed COMPRESSION_ALGO_NONE x c -> zlen x <= hard <= 2 ^ 28 -> exists y, decompress_none c hard = Ret y /\ bytes_of y = x.
Proof.
  intros Hf Hx. destruct (framed_buf _ _ _ Hf) as (junk&Eb&Es&_). pose proof (zlen_nonneg x). unfold decompress_none. rewrite Es. replace (1 + zlen x - 1) with (zlen x) by lia. destruct (Z.gtb_spec (zlen x) hard); [lia|]. cbn [negb check mbind outcome_bind].
  destruct (empty_serves (zlen x)) as (b&->&Hb); [lia|]. cbn [mbind outcome_bind]. rewrite Eb. destruct (Z.gtb_spec (zlen x) 0).
  - rewrite rd_segment by (rewrite ?zlen_put_le; done). eexists. split; [done|]. by apply bytes_front.
  - destruct x; [|rewrite zlen_cons in *; pose proof (zlen_nonneg x); lia]. eexists. split; [done|]. by apply bytes_front.
Qed.

Lemma sized_back decode codec x y c maximum hard : framed codec (put_le 4 (zlen x) ++ y) c -> (0 < zlen x -> decode y (zlen x) = Some x) -> zlen x <= 2 ^ 28 -> zlen x <= maximum -> zlen x <= hard ->
  exists z, sized_decompress decode c maximum hard = Ret z /\ bytes_of z = x.
Proof.
  intros Hf Hdec Hx Hm Hh. destruct (framed_buf _ _ _ Hf) as (junk&Eb&Es&_). pose proof (zlen_nonneg x). pose proof (zlen_nonneg y). rewrite zlen_app, zlen_put_le in Es. unfold sized_decompress, read_raw_size, LZ4_SIZE_PREFIX_LEN. rewrite Es.
  destruct (Z.ltb_spec (1 + (Z.of_nat 4 + zlen y)) (1 + 4)); [lia|]. cbn [negb check mbind outcome_bind]. rewrite Eb, <- app_assoc, get_put_4 by (rewrite ?zlen_put_le; lia).
  cbn [mbind outcome_bind]. destruct (Z.gtb_spec (zlen x) hard); [lia|]. destruct (Z.gtb_spec (zlen x) maximum); [lia|]. cbn [orb negb check mbind outcome_bind]. destruct (empty_serves (zlen x)) as (b&->&Hb); [lia|]. cbn [mbind outcome_bind].
  destruct (Z.eqb_spec (zlen x) 0) as [E0|E0]; [destruct x; [|rewrite zlen_cons in E0; pose proof (zlen_nonneg x); lia]; by eexists|].
  replace (rd _ (1 + 4) _) with (Ret y) by (rewrite app_assoc, rd_segment; [done|rewrite zlen_app, !zlen_put_le; lia|lia]).
  cbn [mbind outcome_bind]. rewrite Hdec by lia. cbn [of_option mbind outcome_bind]. destruct (Z.gtb_spec (zlen x) (zlen x)); [lia|]. rewrite Z.eqb_refl. cbn [check mbind outcome_bind].
  eexists. split; [done|]. unfold bytes_of. cbn. unfold zlen. by rewrite Nat2Z.id, firstn_all.
Qed.
Lemma zstd_back x f c maximum slot : framed COMPRESSION_ALGO_ZSTD f c -> frames f x -> zlen x < maximum <= 2 ^ 28 ->
  exists slot' y, zstd_decompress c maximum slot = (slot', Ret y) /\ bytes_of y = x.
Proof.
  intros Hf Hx Hm. destruct (framed_buf _ _ _ Hf) as (junk&Eb&Es&_). pose proof (zlen_nonneg x). unfold zstd_decompress. rewrite Es, Eb. replace (1 + zlen f - 1) with (zlen f) by lia. rewrite rd_segment by (rewrite ?zlen_put_le; done).
  unfold declared_size. rewrite (zstd_declared f x Hx). assert (Hh : (if maximum <? MAX_DECOMPRESSED_SIZE then maximum else MAX_DECOMPRESSED_SIZE) = maximum) by (unfold MAX_DECOMPRESSED_SIZE, MAX_RECEIVE_WHOLE_FILE_SIZE; destruct (Z.ltb_spec maximum (256 * 1024 * 1024)); lia).
  rewrite Hh. destruct (Z.gtb_spec (zlen x) maximum); [lia|]. assert (Hc : exists ctx, compression_get_thread_ctx slot = Some ctx) by (destruct slot; [by eexists|]; cbn; rewrite (heap_serves_malloc (2 ^ 30)); [by eexists|done|unfold sizeof_CompressionThreadCtx; lia]).
  destruct Hc as [ctx ->]. assert (Hd : exists d, match t_dctx ctx with Some d => Some d | None => ZSTD_createDCtx end = Some d) by (destruct (t_dctx ctx); [by eexists|]; destruct zstd_contexts as [_ Hd]; destruct ZSTD_createDCtx; [by eexists|done]).
  destruct Hd as [d ->]. set (buf := if (if zlen x >? 0 then _ else _) >? maximum then _ else _).
  assert (Hbuf : 1 <= buf <= maximum) by (unfold buf, INITIAL_DECOMPRESS_BUF_SIZE; destruct (Z.gtb_spec (zlen x) 0); (match goal with |- context [if ?a >? maximum then _ else _] => destruct (Z.gtb_spec a maximum) end); lia).
  destruct (empty_serves buf) as (b&->&_); [lia|]. destruct (decode_loop_exact maximum (length f + 64) (ZSTD_DCtx_reset d) f buf [] x 30) as (d'&cap&->&Hcap); try (change (zlen []) with 0; change (2 ^ Z.of_nat 30) with 1073741824; lia); [by apply zstd_starts|].
  cbn [mbind outcome_bind app]. eexists _, _. split; [done|]. by apply bytes_front.
Qed.

(** What the receiver of a frame gets out of it *)
Definition opens (x : list byte) (maximum : Z) (c : Data) : Prop :=
  forall slot, exists slot' y, data_decompress_limited (Some c) maximum slot = (slot', Ret y) /\ bytes_of y = x.

Lemma opens_frame x maximum codec body c : zlen x < maximum <= 2 ^ 28 -> compression_algo_valid codec = true -> framed codec body c ->
  carries x codec body -> opens x maximum c.
Proof.
  intros Hx Hv Hf Hcase slot. destruct (framed_buf _ _ _ Hf) as (junk&Eb&Es&Hn). pose proof (zlen_nonneg x). pose proof (zlen_nonneg body). unfold data_decompress_limited, bad_data. destruct (data c) eqn:Ed; [|done]. destruct (Z.eqb_spec maximum 0); [lia|]. destruct (Z.ltb_spec (size c) 1); [lia|]. cbn [orb].
  assert (Hh : (if maximum <? MAX_DECOMPRESSED_SIZE then maximum else MAX_DECOMPRESSED_SIZE) = maximum) by (unfold MAX_DECOMPRESSED_SIZE, MAX_RECEIVE_WHOLE_FILE_SIZE; destruct (Z.ltb_spec maximum (256 * 1024 * 1024)); lia). rewrite Hh.
  assert (Hcodec : 0 <= codec < 2 ^ 8) by (unfold compression_algo_valid in Hv; repeat (apply orb_true_iff in Hv as [Hv|Hv]); apply Z.eqb_eq in Hv; subst; vm_compute; split; congruence).
  rewrite Eb. pose proof (get_put_le_exact 1 codec [] (body ++ junk) 0 eq_refl Hcodec) as Hg. cbn [app] in Hg. rewrite Hg, Hv. cbn [negb].
  destruct Hcase as [[-> ->]|[[-> Hfr]|(Hc1&Hc2&y&->&Hy)]].
  - cbn [Z.eqb]. destruct (none_back x c maximum Hf) as (z&->&Hz); [lia|]. by eexists _, _.
  - destruct (zstd_back x body c maximum slot Hf Hfr) as (slot'&z&Hz); [lia|]. by exists slot', z.
  - destruct (Z.eqb_spec codec COMPRESSION_ALGO_NONE); [done|]. destruct (Z.eqb_spec codec COMPRESSION_ALGO_ZSTD); [done|]. destruct (codec =? COMPRESSION_ALGO_LZ4);
    unfold lz4_decompress, zlib_decompress; edestruct (sized_back _ codec x y c maximum maximum Hf Hy) as (z&->&Hz); try lia; by eexists _, _.
Qed.
End Back.

Section Forth.
Context `{HH : Heap} `{LZ : Lz4} `{ZL : Zlib} `{ZS : Zstd} {CL : CodecLaws}.
Context (Hheap : heap_serves (2 ^ 30)).

Lemma create_framed codec body junk : 1 + zlen body < 2 ^ 64 -> exists c, data_create (Some ((put_le 1 codec ++ body) ++ junk)) (1 + zlen body) = Ret c /\ framed codec body c.
Proof.
  intros Hb. eexists. split; [apply data_create_ret; intros n Hn; apply Hheap; lia|]. eapply framed_create; [done|done|]. apply data_create_ret. intros n Hn. apply Hheap. lia.
Qed.
Lemma sized_framed (codec : Z) (x : list byte) (bound : Z) (y : list byte) : zlen y <= bound <= 2 ^ 30 -> zlen x <= 2 ^ 28 ->
  exists c, sized_frame codec (zlen x) bound y = Ret c /\ framed codec (put_le 4 (zlen x) ++ y) c.
Proof.
  intros Hy Hx. unfold sized_frame, LZ4_SIZE_PREFIX_LEN. pose proof (zlen_nonneg y). rewrite emit_ret by (cbn [w_out w_cap]; change (zlen []) with 0; rewrite !zlen_app, !zlen_put_le; lia). cbn [mbind outcome_bind w_out w_cap app]. unfold w_finish. cbn [w_out w_cap].
  destruct (create_framed codec (put_le 4 (zlen x) ++ y) (junk_bytes (bound + 1 + 4 - zlen (put_le 1 codec ++ put_le 4 (zlen x) ++ y)))) as (c&Ec&Hc); [rewrite zlen_app, zlen_put_le; lia|].
  exists c. split; [|done]. rewrite <- Ec. f_equal. rewrite zlen_app, zlen_put_le. lia.
Qed.

Lemma with_level_ready x level ctx c : 1 <= level <= 22 -> ready x c -> exists ctx' c', with_level level ctx c = Some (ctx', c') /\ ready x c'.
Proof.
  intros Hl Hr. unfold with_level. destruct (_ || _); [|by eexists _, _]. destruct (zstd_level c level Hl) as [c' E]. rewrite E. eexists _, _. split; [done|]. by eapply ReadyLevel.
Qed.
Lemma with_workers_ready x workers ctx c : 0 <= workers <= COMPRESSION_MAX_THREADS -> ready x c -> exists ctx' c', with_workers workers ctx c = Some (ctx', c') /\ ready x c'.
Proof.
  intros Hl Hr. unfold with_workers. destruct (_ || _); [|by eexists _, _]. destruct (zstd_workers c workers Hl) as [c' E]. rewrite E. eexists _, _. split; [done|]. by eapply ReadyWorkers.
Qed.
Lemma zstd_run_framed x ctx c : zlen x <= 2 ^ 28 -> ready x c -> exists ctx' d f, zstd_run ctx c x (ZSTD_compressBound (zlen x) + 1) = (ctx', Ret d) /\ framed COMPRESSION_ALGO_ZSTD f d /\ frames f x.
Proof.
  intros Hx Hr. pose proof (zlen_nonneg x). pose proof (zstd_bound (zlen x) ltac:(lia)) as Hb. unfold zstd_run. set (grow := if t_out_cap ctx <? _ then _ else _).
  assert (Hg : exists cap, grow = (cap, true)) by (unfold grow; destruct (_ <? _); [|by eexists]; rewrite protocol_realloc_alloc, (heap_serves_alloc (2 ^ 30)) by (done || lia); by eexists). destruct Hg as [cap ->]. cbn [negb].
  replace (ZSTD_compressBound (zlen x) + 1 - 1) with (ZSTD_compressBound (zlen x)) by lia. cbn [zstd_end_loop]. change (zlen []) with 0. rewrite Z.sub_0_r. destruct (zstd_ends x c Hx Hr) as (c'&f&->&Hf&Hframe). destruct (Z.gtb_spec (0 + zlen f) (ZSTD_compressBound (zlen x))); [lia|].
  cbn [mbind outcome_bind app]. pose proof (zlen_nonneg f). rewrite (heap_serves_alloc (2 ^ 30)) by (done || lia). cbn [check mbind outcome_bind]. destruct (create_framed COMPRESSION_ALGO_ZSTD f []) as (d&Ed&Hd); [lia|]. rewrite app_nil_r, Z.add_comm in Ed. eexists _, d, f. by rewrite Ed.
Qed.
Lemma zstd_framed d level threads slot : let x := bytes_of d in zlen x <= 2 ^ 28 -> 1 <= level <= 22 -> 0 <= threads <= COMPRESSION_MAX_THREADS ->
  exists slot' c f, zstd_compress d level threads slot = (slot', Ret c) /\ framed COMPRESSION_ALGO_ZSTD f c /\ frames f x.
Proof.
  intros x Hx Hl Ht. pose proof (zlen_nonneg x). pose proof (zstd_bound (zlen x) ltac:(lia)) as Hb. unfold zstd_compress. fold x. destruct (Z.gtb_spec (ZSTD_compressBound (zlen x)) (SIZE_MAX - 1)); [unfold SIZE_MAX in *; lia|].
  assert (Hc : exists ctx, compression_get_thread_ctx slot = Some ctx) by (destruct slot; [by eexists|]; cbn; rewrite (heap_serves_malloc (2 ^ 30)); [by eexists|done|unfold sizeof_CompressionThreadCtx; lia]). destruct Hc as [ctx ->].
  set (opened := match t_cctx ctx with Some c => _ | None => _ end). assert (Ho : exists ctx' c, opened = Some (ctx', c)) by (unfold opened; destruct (t_cctx ctx); [by eexists _, _|]; destruct zstd_contexts as [Hd _]; destruct ZSTD_createCCtx; [by eexists _, _|done]). destruct Ho as (ctx1&c&->).
  destruct (with_level_ready x level ctx1 (ZSTD_CCtx_reset c) Hl (ReadyReset x c)) as (ctx2&c2&->&Hr2). assert (Hw : 0 <= want_threads threads <= COMPRESSION_MAX_THREADS) by (unfold want_threads; destruct (Z.gtb_spec threads 0); [|unfold COMPRESSION_MAX_THREADS; lia]; destruct (Z.gtb_spec online_cpus 0), (Z.ltb_spec online_cpus threads); cbn [andb]; lia).
  destruct (with_workers_ready x (want_threads threads) ctx2 c2 Hw Hr2) as (ctx3&c3&->&Hr3). set (pledged := if want_threads threads >? 0 then _ else _).
  assert (Hp : exists c4, pledged = Some c4 /\ ready x c4) by (unfold pledged; destruct (_ >? _); [|by eexists]; destruct (zstd_pledge c3 (zlen x)) as [c4 E]; exists c4; split; [done|]; by eapply ReadyPledged). destruct Hp as (c4&->&Hr4).
  destruct (zstd_run_framed x ctx3 c4 Hx Hr4) as (ctx'&r&f&->&Hf). by eexists _, r, f.
Qed.

Lemma bytes_of_zlen d : data_wf d -> zlen (bytes_of d) = size d.
Proof. intros Hd%data_wf_buf. unfold bytes_of, zlen in *. rewrite length_take. lia. Qed.

Lemma compress_framed d algo level threads slot : data_wf d -> size d <= 2 ^ 28 -> compression_algo_valid algo = true -> 1 <= level <= 22 -> 0 <= threads <= COMPRESSION_MAX_THREADS ->
  exists slot' c body, data_compress_codec (Some d) algo level threads slot = (slot', Ret c) /\ framed algo body c /\ carries (bytes_of d) algo body.
Proof.
  intros Hd Hs Hv Hl Ht. pose proof (bytes_of_zlen d Hd) as Hz. set (x := bytes_of d) in *. pose proof (zlen_nonneg x). unfold data_compress_codec. assert (Hbad : bad_data d = false) by (unfold bad_data; destruct Hd as [_ Hd]; destruct (data d); [done|by rewrite Hd]).
  rewrite Hbad, Hv. destruct (Z.ltb_spec threads 0); [lia|]. destruct (Z.gtb_spec threads COMPRESSION_MAX_THREADS); [lia|]. cbn [orb negb]. fold x.
  destruct (Z.eqb_spec algo COMPRESSION_ALGO_NONE) as [->|Ha1]; [|destruct (Z.eqb_spec algo COMPRESSION_ALGO_ZSTD) as [->|Ha2]; [|destruct (Z.eqb_spec algo COMPRESSION_ALGO_LZ4) as [->|Ha3]]].
  - unfold frame_with_codec. destruct (Z.gtb_spec (zlen x) (SIZE_MAX - 1)); [unfold SIZE_MAX in *; lia|]. cbn [negb check mbind outcome_bind]. rewrite (heap_serves_alloc (2 ^ 30)) by (done || lia). cbn [check mbind outcome_bind].
    destruct (create_framed COMPRESSION_ALGO_NONE x []) as (c&Ec&Hc); [lia|]. rewrite app_nil_r, Z.add_comm in Ec. eexists _, c, x. rewrite Ec. split_and!; [done|done|by left].
  - destruct (zstd_framed d level threads slot) as (slot'&c&f&->&Hc&Hf); [fold x; lia|lia|lia|]. eexists _, c, f. split_and!; [done|done|]. right. by left.
  - unfold lz4_compress. fold x. assert (Hi : i32 (zlen x) = zlen x) by (unfold i32; rewrite Z.mod_small; lia). rewrite Hi. pose proof (lz4_bound (zlen x) ltac:(lia)) as Hb. destruct (Z.ltb_spec (LZ4_compressBound (zlen x)) 0); [lia|]. destruct (Z.gtb_spec (zlen x) INT_MAX); [unfold INT_MAX in *; lia|].
    cbn [orb negb check mbind outcome_bind]. unfold LZ4_SIZE_PREFIX_LEN at 1. rewrite (heap_serves_alloc (2 ^ 30)) by (done || lia). cbn [check mbind outcome_bind].
    assert (Hy : exists y, (if zlen x >? 0 then of_option (LZ4_compress_default x (LZ4_compressBound (zlen x))) else Ret []) = Ret y /\ zlen y <= LZ4_compressBound (zlen x) /\ (0 < zlen x -> LZ4_decompress_safe y (zlen x) = Some x)).
    { destruct (Z.gtb_spec (zlen x) 0); [|exists []; split_and!; [done|change (zlen []) with 0; lia|lia]]. destruct (lz4_trip x) as (y&->&Hy&Ht'); [lia|]. by exists y. }
    destruct Hy as (y&->&Hy&Hback). cbn [mbind outcome_bind]. destruct (sized_framed COMPRESSION_ALGO_LZ4 x (LZ4_compressBound (zlen x)) y) as (c&->&Hc); [lia|lia|]. eexists _, c, _. split_and!; [done|done|]. right. right. split_and!; [done|done|]. by exists y.
  - unfold zlib_compress. fold x. pose proof (zlib_bound (zlen x) ltac:(lia)) as Hb. destruct (Z.gtb_spec (zlen x) ULONG_MAX); [unfold ULONG_MAX in *; lia|]. cbn [negb check mbind outcome_bind]. unfold LZ4_SIZE_PREFIX_LEN at 1. rewrite (heap_serves_alloc (2 ^ 30)) by (done || lia). cbn [check mbind outcome_bind].
    destruct (zlib_trip x (zlib_level level)) as (y&->&Hy&Hback); [lia|unfold zlib_level, Z_DEFAULT_COMPRESSION; destruct (Z.ltb_spec level 1); [lia|]; destruct (Z.gtb_spec level 9); lia|]. cbn [of_option mbind outcome_bind]. rewrite u32_small by lia.
    destruct (sized_framed algo x (compressBound (zlen x)) y) as (c&->&Hc); [lia|lia|]. eexists _, c, _. split_and!; [done|done|]. right. right. split_and!; [done|done|]. exists y. split; [done|]. destruct (Z.eqb_spec algo COMPRESSION_ALGO_LZ4); done.
Qed.
End Forth.

(** C27: compression loses nothing and cannot be abused.  Data of less than the
    limit, compressed by any codec at any level and with any number of threads, in
    whatever state the thread's contexts are, is framed, and any buffer with the
    bytes of that frame is decompressed by the receiver to exactly the data; and
    whatever bytes a peer sends instead, decompressing them ends, reads nothing
    past the frame, and yields at most the limit. *)
Theorem compression_sound (hs hr : Heap) `{LZ : Lz4} `{ZL : Zlib} `{ZS : Zstd} (CL : CodecLaws) (DS : DecodersSafe) d algo level threads slot maximum
    (Hs : @heap_serves hs (2 ^ 30)) (Hr : @heap_serves hr (2 ^ 30)) (Hd : data_wf d) (Hsize : size d < maximum <= 2 ^ 28)
    (Halgo : compression_algo_valid algo = true) (Hlevel : 1 <= level <= 22) (Hthreads : 0 <= threads <= COMPRESSION_MAX_THREADS) :
  (exists slot' c, @data_compress_codec hs LZ ZL ZS (Some d) algo level threads slot = (slot', Ret c) /\ data_wf c /\
     forall c' slotr, data_wf c' -> bytes_of c' = bytes_of c ->
       exists slotr' y, @data_decompress_limited hr LZ ZL ZS (Some c') maximum slotr = (slotr', Ret y) /\ bytes_of y = bytes_of d) /\
  (forall c' slotr, data_wf c' -> match (@data_decompress_limited hr LZ ZL ZS (Some c') maximum slotr).2 with
     | Ret y => data_wf y /\ size y <= maximum | Fail => True | Stuck => False end).
Proof.
  pose proof (bytes_of_zlen d Hd) as Hz. split.
  - destruct (compress_framed (HH := hs) Hs d algo level threads slot) as (slot'&c&body&E&Hf&Hc); [done|lia|done..|]. exists slot', c. split_and!; [done|apply Hf|].
    intros c' slotr Hw Hb. apply (opens_frame (HH := hr) Hr (bytes_of d) maximum algo body c'); [lia|done| |done]. split; [done|]. rewrite Hb. apply Hf.
  - intros c' slotr Hw. pose proof (decompress_within (HH := hr) c' maximum slotr Hw ltac:(destruct Hd; lia)) as H. destruct (_.2); [|done|done]. destruct H as (H1&H2&_). split; [done|lia].
Qed.

(** ** Codecs that store *)

(** A codec that copies its input satisfies the laws; its zstd contexts write a
    few bytes at a time. *)
Definition store_lz4 : Lz4 := {| LZ4_compressBound n := n; LZ4_compress_default s room := if zlen s <=? room then Some s else None; LZ4_decompress_safe s room := if zlen s <=? room then Some s else None |}.
Definition store_zlib : Zlib := {| compressBound n := n; compress2 s _ room := if zlen s <=? room then Some s else None; uncompress s room := if zlen s <=? room then Some s else None |}.
Definition store_step (input : list byte) (room : Z) : bool * nat * list byte :=
  let n := Nat.min 3 (Z.to_nat room) in (bool_decide (n < length input)%nat, Nat.min n (length input), take n input).
Definition store_zstd : Zstd := {|
  cctx := unit; dctx := unit; ZSTD_createCCtx := Some tt; ZSTD_createDCtx := Some tt; ZSTD_CCtx_reset _ := tt; ZSTD_DCtx_reset _ := tt;
  set_level _ _ := Some tt; set_workers _ _ := Some tt; set_pledged _ _ := Some tt; ZSTD_compressBound n := n;
  ZSTD_compressStream2 _ s room := (tt, if zlen s <=? room then Some (false, length s, s) else None);
  ZSTD_getFrameContentSize s := SizeOf (zlen s);
  ZSTD_decompressStream _ s room := (tt, Some (store_step s room)); online_cpus := 4;
|}.
#[local] Arguments Nat.min : simpl never.
Lemma store_room (s : list byte) room b : (if zlen s <=? room then Some s else None) = Some b -> zlen b <= room.
Proof. destruct (Z.leb_spec (zlen s) room); [|done]. by intros [= <-]. Qed.
Lemma store_step_spec (s : list byte) room : 0 <= room -> zlen (take (Nat.min 3 (Z.to_nat room)) s) <= room.
Proof. intros. unfold zlen. rewrite length_take. lia. Qed.
Lemma store_safe : @DecodersSafe store_lz4 store_zlib store_zstd.
Proof.
  split; cbn; [apply store_room..| |].
  - intros s n [= <-]. apply zlen_nonneg.
  - intros c s room c' more n p Hr E. injection E as _ <- <- <-. split; [by apply store_step_spec|]. split; [lia|]. intros Hm%bool_decide_eq_true Hp _. unfold zlen in Hp. rewrite length_take in Hp. lia.
Qed.
Definition store_laws : @CodecLaws store_lz4 store_zlib store_zstd.
Proof.
  refine (@Build_CodecLaws store_lz4 store_zlib store_zstd _ _ _ _ (fun f x => f = x) (fun _ input x => input = x) _ _ _ _ _ _ _ _ _); cbn.
  - intros x _. exists x. by rewrite Z.leb_refl.
  - lia.
  - intros x level _ _. exists x. by rewrite Z.leb_refl.
  - lia.
  - done.
  - lia.
  - by eexists.
  - by eexists.
  - by eexists.
  - intros x _ _ _. exists tt, x. by rewrite Z.leb_refl.
  - by intros f x ->.
  - done.
  - intros _ input out room -> Hr. exists tt. eexists _, _, _, (drop (Nat.min 3 (Z.to_nat room)) out). split_and!; [done|by rewrite take_drop|by apply store_step_spec|lia|].
    case_bool_decide as Hm; [|apply drop_ge; lia]. split; [by rewrite Nat.min_l by lia|]. unfold zlen. rewrite length_take. lia.
Defined.

Definition demo_bytes : Data := MkData (Some (cs "a small file with some text")) 27 0 None.
Lemma compression_sound_witness : exists slot' c, @data_compress_codec heap0 store_lz4 store_zlib store_zstd (Some demo_bytes) COMPRESSION_ALGO_ZSTD 3 2 None = (slot', Ret c) /\ size c = 28.
Proof.
  destruct (compression_sound heap0 heap0 store_laws store_safe demo_bytes COMPRESSION_ALGO_ZSTD 3 2 None 4096 (heap0_serves _) (heap0_serves _)) as [(slot'&c&E&_) _]; [split; [split; [done|reflexivity]|done]|split; [reflexivity|done]|reflexivity|split; done|split; done|].
  exists slot', c. split; [exact E|]. vm_compute in E. injection E as _ <-. reflexivity.
Defined.
(** Every codec, there and back. *)
Example codecs_run : Forall (fun algo =>
  match @data_compress_codec heap0 store_lz4 store_zlib store_zstd (Some demo_bytes) algo 3 2 None with
  | (slot, Ret c) => match @data_decompress_limited heap0 store_lz4 store_zlib store_zstd (Some c) 4096 slot with (_, Ret y) => bytes_of y = bytes_of demo_bytes | _ => False end
  | _ => False
  end) [0; 1; 2; 3; 4].
Proof. repeat (apply Forall_cons; split; [vm_compute; reflexivity|]). apply Forall_nil_2. Qed.
