(* ===== verification/Checksum.v ===== *)
(** Whole-file digests: src/shared/checksum.c.  MD4 is the program's own code and
    is modelled in full; xxHash and OpenSSL are the classes [XXHashes] and [Evp]
    of parameters, with what streaming promises as their laws.

    Reads of a descriptor are the chunks the kernel gives, an empty chunk being
    the end of the file, and whether the last call failed. *)

From stdpp Require Import list.
From S2P Require Import Prelude Alloc CStr Names Libc.

(** ** MD4 *)

(** 32-bit words: rotation and the functions of the three rounds *)
Definition md4_rotl (x n : Z) : Z := Z.lor (u32 (Z.shiftl x n)) (Z.shiftr x (32 - n)).
Definition not32 (x : Z) : Z := 2 ^ 32 - 1 - x.
Definition F (x y z : Z) : Z := Z.lor (Z.land x y) (Z.land (not32 x) z).
Definition G (x y z : Z) : Z := Z.lor (Z.lor (Z.land x y) (Z.land x z)) (Z.land y z).
Definition H (x y z : Z) : Z := Z.lxor (Z.lxor x y) z.

Record words := MkWords { wa : Z; wb : Z; wc : Z; wd : Z }.

Section Block.
Context (x : list Z).
Definition word (k : nat) : Z := default 0 (x !! k).
Definition ROUND1 (a b c d : Z) (k : nat) (s : Z) : Z := md4_rotl (u32 (a + F b c d + word k)) s.
Definition ROUND2 (a b c d : Z) (k : nat) (s : Z) : Z := md4_rotl (u32 (a + G b c d + word k + 0x5a827999)) s.
Definition ROUND3 (a b c d : Z) (k : nat) (s : Z) : Z := md4_rotl (u32 (a + H b c d + word k + 0x6ed9eba1)) s.
(** Four steps, on [a], [d], [c] and [b] in turn, with the words [k0] to [k3] *)
Definition steps (R : Z -> Z -> Z -> Z -> nat -> Z -> Z) (s0 s1 s2 s3 : Z) (w : words) (ks : nat * nat * nat * nat) : words :=
  let '(k0, k1, k2, k3) := ks in
  let a := R (wa w) (wb w) (wc w) (wd w) k0 s0 in
  let d := R (wd w) a (wb w) (wc w) k1 s1 in
  let c := R (wc w) d a (wb w) k2 s2 in
  let b := R (wb w) c d a k3 s3 in
  MkWords a b c d.
Definition md4_rounds (w : words) : words :=
  let w := fold_left (steps ROUND1 3 7 11 19) [(0, 1, 2, 3); (4, 5, 6, 7); (8, 9, 10, 11); (12, 13, 14, 15)]%nat w in
  let w := fold_left (steps ROUND2 3 5 9 13) [(0, 4, 8, 12); (1, 5, 9, 13); (2, 6, 10, 14); (3, 7, 11, 15)]%nat w in
  fold_left (steps ROUND3 3 9 11 15) [(0, 8, 4, 12); (2, 10, 6, 14); (1, 9, 5, 13); (3, 11, 7, 15)]%nat w.
End Block.

(** checksum.c [md4_transform] *)
Definition block_words (block : list byte) : list Z := (fun i => le_combine (take 4 (drop (4 * i) block))) <$> seq 0 16.
Definition md4_transform (w : words) (block : list byte) : words :=
  let v := md4_rounds (block_words block) w in
  MkWords (u32 (wa w + wa v)) (u32 (wb w + wb v)) (u32 (wc w + wc v)) (u32 (wd w + wd v)).

(** checksum.c [Md4Ctx]; of the buffer the bytes that are filled *)
Record Md4Ctx := MkMd4 { m_state : words; bit_count : Z; m_buffer : list byte }.
Definition md4_iv : words := MkWords 0x67452301 0xefcdab89 0x98badcfe 0x10325476.
Definition md4_init : Md4Ctx := MkMd4 md4_iv 0 [].
(** checksum.c [md4_update]: a round takes at least one byte *)
Fixpoint md4_loop (fuel : nat) (w : words) (buffer data : list byte) : outcome (words * list byte) :=
  match data with
  | [] => Ret (w, buffer)
  | _ :: _ =>
      match fuel with
      | O => Stuck
      | S fuel =>
          let space := (64 - length buffer)%nat in
          let n := Nat.min (length data) space in
          let buffer := buffer ++ take n data in
          if bool_decide (length buffer = 64%nat) then md4_loop fuel (md4_transform w buffer) [] (drop n data)
          else md4_loop fuel w buffer (drop n data)
      end
  end.
Definition md4_update (ctx : Md4Ctx) (data : list byte) : outcome Md4Ctx :=
  '(w, buffer) ← md4_loop (length data) (m_state ctx) (m_buffer ctx) data;
  Ret (MkMd4 w (u64 (bit_count ctx + zlen data * 8)) buffer).
(** checksum.c [md4_final] *)
Fixpoint pad_zeros (fuel : nat) (ctx : Md4Ctx) : outcome Md4Ctx :=
  if bool_decide (length (m_buffer ctx) = 56%nat) then Ret ctx
  else match fuel with O => Stuck | S fuel => ctx ← md4_update ctx [Byte.x00]; pad_zeros fuel ctx end.
Definition word_bytes (w : words) : list byte := put_le 4 (wa w) ++ put_le 4 (wb w) ++ put_le 4 (wc w) ++ put_le 4 (wd w).
Definition md4_final (ctx : Md4Ctx) : outcome (list byte) :=
  let bits := bit_count ctx in
  ctx ← md4_update ctx [Byte.x80];
  ctx ← pad_zeros 64 ctx;
  ctx ← md4_update ctx (put_le 8 bits);
  Ret (word_bytes (m_state ctx)).

(** ** The libraries *)

Class XXHashes := {
  XXH64_seeded : list byte -> Z -> list byte;
  XXH3_64bits_withSeed : list byte -> Z -> list byte;
  XXH3_128bits_withSeed : list byte -> Z -> list byte;
  xxh64_state : Type; XXH64_reset : Z -> xxh64_state; XXH64_update : xxh64_state -> list byte -> xxh64_state; XXH64_digest : xxh64_state -> list byte;
  xxh3_state : Type; XXH3_createState : bool; XXH3_64bits_reset : Z -> xxh3_state; XXH3_128bits_reset : Z -> xxh3_state;
  XXH3_update : xxh3_state -> list byte -> option xxh3_state; XXH3_64bits_digest : xxh3_state -> list byte; XXH3_128bits_digest : xxh3_state -> list byte;
}.
(** OpenSSL; the algorithm is [true] for md5, [false] for sha1 *)
Class Evp := {
  EVP_Digest : bool -> list byte -> option (list byte);
  evp_ctx : Type; EVP_MD_CTX_new : bool; EVP_DigestInit_ex : bool -> option evp_ctx;
  EVP_DigestUpdate : evp_ctx -> list byte -> option evp_ctx; EVP_DigestFinal_ex : evp_ctx -> option (list byte);
}.

Definition CHECKSUM_ALGO_XXH64 : Z := 0.
Definition CHECKSUM_ALGO_MD5 : Z := 1.
Definition CHECKSUM_ALGO_XXH3 : Z := 2.
Definition CHECKSUM_ALGO_MD4 : Z := 4.
Definition CHECKSUM_ALGO_SHA1 : Z := 5.
Definition CHECKSUM_MAX_DIGEST_LEN : Z := 20.

(** checksum.c [checksum_digest_len] *)
Definition checksum_digest_len (algo : Z) : Z :=
  if (algo =? CHECKSUM_ALGO_XXH64) || (algo =? CHECKSUM_ALGO_XXH3) then 8
  else if (algo =? CHECKSUM_ALGO_XXH128) || (algo =? CHECKSUM_ALGO_MD5) || (algo =? CHECKSUM_ALGO_MD4) then 16
  else if algo =? CHECKSUM_ALGO_SHA1 then 20 else 0.
(** checksum.c [checksum_algo_from_name], [checksum_algo_name] *)
Definition checksum_algo_from_name (name : option (list byte)) : Z :=
  match name with
  | None => -1
  | Some name =>
      if strcaseeq name (cs "xxh64") || strcaseeq name (cs "xxhash") then CHECKSUM_ALGO_XXH64
      else if strcaseeq name (cs "xxh3") then CHECKSUM_ALGO_XXH3
      else if strcaseeq name (cs "xxh128") then CHECKSUM_ALGO_XXH128
      else if strcaseeq name (cs "md5") then CHECKSUM_ALGO_MD5
      else if strcaseeq name (cs "md4") then CHECKSUM_ALGO_MD4
      else if strcaseeq name (cs "sha1") then CHECKSUM_ALGO_SHA1
      else if strcaseeq name (cs "none") then CHECKSUM_ALGO_NONE
      else -1
  end.
Definition checksum_algo_name (algo : Z) : list byte :=
  if algo =? CHECKSUM_ALGO_XXH64 then cs "xxh64" else if algo =? CHECKSUM_ALGO_XXH3 then cs "xxh3"
  else if algo =? CHECKSUM_ALGO_XXH128 then cs "xxh128" else if algo =? CHECKSUM_ALGO_MD5 then cs "md5"
  else if algo =? CHECKSUM_ALGO_MD4 then cs "md4" else if algo =? CHECKSUM_ALGO_SHA1 then cs "sha1"
  else if algo =? CHECKSUM_ALGO_NONE then cs "none" else cs "<unknown>".
(** checksum.c [compiled_checksum_preference_first], [checksum_choice_resolve] *)
Definition compiled_checksum_preference_first : Z :=
  match filter (fun a => checksum_algo_valid a = true) [CHECKSUM_ALGO_XXH128; CHECKSUM_ALGO_XXH3; CHECKSUM_ALGO_XXH64; CHECKSUM_ALGO_MD5; CHECKSUM_ALGO_MD4; CHECKSUM_ALGO_SHA1; CHECKSUM_ALGO_NONE] with
  | a :: _ => a
  | [] => CHECKSUM_ALGO_XXH64
  end.
Definition checksum_choice_resolve (env : option (list byte)) : Z :=
  let '(choice, specified) := env_choice_first env checksum_algo_from_name in if (specified : bool) then choice else compiled_checksum_preference_first.

Section Digest.
Context `{XX : XXHashes} `{EV : Evp}.

(** checksum.c [evp_digest], [checksum_digest] with a buffer of the largest size *)
Definition evp_digest (md5 : bool) (data : list byte) : option (list byte) :=
  d ← EVP_Digest md5 data; if zlen d >? CHECKSUM_MAX_DIGEST_LEN then None else Some d.
Definition checksum_digest (algo seed : Z) (data : list byte) : outcome (list byte) :=
  if algo =? CHECKSUM_ALGO_XXH64 then Ret (XXH64_seeded data seed)
  else if algo =? CHECKSUM_ALGO_XXH3 then Ret (XXH3_64bits_withSeed data seed)
  else if algo =? CHECKSUM_ALGO_XXH128 then Ret (XXH3_128bits_withSeed data seed)
  else if algo =? CHECKSUM_ALGO_MD5 then of_option (evp_digest true data)
  else if algo =? CHECKSUM_ALGO_MD4 then ctx ← md4_update md4_init data; md4_final ctx
  else if algo =? CHECKSUM_ALGO_SHA1 then of_option (evp_digest false data)
  else if algo =? CHECKSUM_ALGO_NONE then Ret []
  else Fail.

(** The loops of checksum.c [checksum_digest_fd] *)
Record reads := MkReads { r_chunks : list (list byte); r_failed : bool }.
Fixpoint read_loop {S} (update : S -> list byte -> outcome S) (s : S) (chunks : list (list byte)) (failed : bool) : outcome S :=
  match chunks with
  | [] => if failed then Fail else Ret s
  | c :: chunks => if bool_decide (c = []) then Ret s else s ← update s c; read_loop update s chunks failed
  end.
Definition read_fold {S} (update : S -> list byte -> outcome S) (s : S) (r : reads) : outcome S := read_loop update s (r_chunks r) (r_failed r).
Definition checksum_digest_fd (algo seed : Z) (r : reads) : outcome (list byte) :=
  if algo =? CHECKSUM_ALGO_NONE then Ret []
  else if (algo =? CHECKSUM_ALGO_MD5) || (algo =? CHECKSUM_ALGO_SHA1) then
    check EVP_MD_CTX_new;;
    ctx ← of_option (EVP_DigestInit_ex (algo =? CHECKSUM_ALGO_MD5));
    ctx ← read_fold (fun c d => of_option (EVP_DigestUpdate c d)) ctx r;
    d ← of_option (EVP_DigestFinal_ex ctx);
    check (zlen d <=? CHECKSUM_MAX_DIGEST_LEN);; Ret d
  else if algo =? CHECKSUM_ALGO_MD4 then ctx ← read_fold md4_update md4_init r; md4_final ctx
  else if algo =? CHECKSUM_ALGO_XXH64 then
    s ← read_fold (fun s d => Ret (XXH64_update s d)) (XXH64_reset seed) r; Ret (XXH64_digest s)
  else if (algo =? CHECKSUM_ALGO_XXH3) || (algo =? CHECKSUM_ALGO_XXH128) then
    check XXH3_createState;;
    s ← read_fold (fun s d => of_option (XXH3_update s d)) (if algo =? CHECKSUM_ALGO_XXH3 then XXH3_64bits_reset seed else XXH3_128bits_reset seed) r;
    Ret (if algo =? CHECKSUM_ALGO_XXH3 then XXH3_64bits_digest s else XXH3_128bits_digest s)
  else Fail.
End Digest.

(** The test vectors of RFC 1320 *)
Definition md4 (m : list byte) : outcome (list byte) := ctx ← md4_update md4_init m; md4_final ctx.
Definition hex (l : list Z) : list byte := byte.of_Z <$> l.
Example md4_vectors :
  md4 [] = Ret (hex [0x31; 0xd6; 0xcf; 0xe0; 0xd1; 0x6a; 0xe9; 0x31; 0xb7; 0x3c; 0x59; 0xd7; 0xe0; 0xc0; 0x89; 0xc0]) /\
  md4 (cs "abc") = Ret (hex [0xa4; 0x48; 0x01; 0x7a; 0xaf; 0x21; 0xd8; 0x52; 0x5f; 0xc1; 0x0a; 0xe8; 0x7a; 0xa6; 0x72; 0x9d]) /\
  md4 (cs "12345678901234567890123456789012345678901234567890123456789012345678901234567890") = Ret (hex [0xe3; 0x3b; 0x4d; 0xdc; 0x9c; 0x38; 0xf2; 0x19; 0x9c; 0x3e; 0x7b; 0x16; 0x4f; 0xcc; 0x05; 0x36]).
Proof. vm_compute. split_and!; reflexivity. Qed.
