(* ===== verification/ChecksumExact.v ===== *)
(** What digests are: MD4 of a message fed in any pieces is MD4 as RFC 1320
    defines it on the padded message, and the digest of a descriptor is the digest
    of what is read from it. *)

From stdpp Require Import list.
From S2P Require Import Prelude Alloc CStr Names Libc Checksum.

(** ** MD4 of a whole message *)

(** The complete blocks of a message and what is left over *)
Definition blocks (l : list byte) : list (list byte) := (fun i => take 64 (drop (64 * i) l)) <$> seq 0 (length l / 64).
Definition rest (l : list byte) : list byte := drop (64 * (length l / 64)) l.

(** MD4 as RFC 1320 describes it, on bytes *)
Module RFC1320.
(** Section 2: a word is four bytes, the low-order byte first. *)
Definition word_in (b0 b1 b2 b3 : byte) : Z := bZ b0 + 2 ^ 8 * bZ b1 + 2 ^ 16 * bZ b2 + 2 ^ 24 * bZ b3.
Definition word_out (x : Z) : list byte := byte.of_Z <$> [x mod 256; x / 2 ^ 8 mod 256; x / 2 ^ 16 mod 256; x / 2 ^ 24 mod 256].
Definition add (x y : Z) : Z := (x + y) mod 2 ^ 32.
(** x <<< s: the high [s] bits come in at the low end. *)
Definition rotate (x s : Z) : Z := (x * 2 ^ s) mod 2 ^ 32 + x / 2 ^ (32 - s).
(** A function of words, bit by bit *)
Definition bits (f : bool -> bool -> bool -> bool) (x y z : Z) : Z :=
  foldr (fun i acc => Z.b2z (f (Z.testbit x i) (Z.testbit y i) (Z.testbit z i)) * 2 ^ i + acc) 0 (seqZ 0 32).
(** Section 3.4: F chooses, G is the majority, H the parity. *)
Definition F : Z -> Z -> Z -> Z := bits (fun x y z => if x then y else z).
Definition G : Z -> Z -> Z -> Z := bits (fun x y z => (x && y) || (x && z) || (y && z)).
Definition H : Z -> Z -> Z -> Z := bits (fun x y z => xorb (xorb x y) z).
(** The three rounds: the function, the constant (0, and the square roots of 2
    and 3 in units of 2^-30), the order of the words and the rotations *)
Definition rounds : list ((Z -> Z -> Z -> Z) * Z * list nat * list Z) :=
  [(F, 0, [0; 1; 2; 3; 4; 5; 6; 7; 8; 9; 10; 11; 12; 13; 14; 15]%nat, [3; 7; 11; 19]);
   (G, Z.sqrt (2 * 2 ^ 60), [0; 4; 8; 12; 1; 5; 9; 13; 2; 6; 10; 14; 3; 7; 11; 15]%nat, [3; 5; 9; 13]);
   (H, Z.sqrt (3 * 2 ^ 60), [0; 8; 4; 12; 2; 10; 6; 14; 1; 9; 5; 13; 3; 11; 7; 15]%nat, [3; 9; 11; 15])].
(** One operation [abcd k s]; the next one is on [dabc]. *)
Definition operation (f : Z -> Z -> Z -> Z) (const : Z) (x : list Z) (v : Z * Z * Z * Z) (ks : nat * Z) : Z * Z * Z * Z :=
  let '(a, b, c, d) := v in
  let t := rotate (add (add (add a (f b c d)) (default 0 (x !! ks.1))) const) ks.2 in (d, t, b, c).
Definition round (x : list Z) (v : Z * Z * Z * Z) (r : (Z -> Z -> Z -> Z) * Z * list nat * list Z) : Z * Z * Z * Z :=
  let '(f, const, order, shifts) := r in
  fold_left (operation f const x) (zip order (shifts ++ shifts ++ shifts ++ shifts)) v.
(** The 16 words of a block *)
Fixpoint words_in (l : list byte) : list Z :=
  match l with b0 :: b1 :: b2 :: b3 :: l => word_in b0 b1 b2 b3 :: words_in l | _ => [] end.
Definition block (v : Z * Z * Z * Z) (l : list byte) : Z * Z * Z * Z :=
  let '(a, b, c, d) := v in let '(a', b', c', d') := fold_left (round (words_in l)) rounds v in (add a a', add b b', add c c', add d d').
(** Section 3.3: words A to D, as the bytes 01 23 45 67, 89 ab cd ef, ... *)
Definition init : Z * Z * Z * Z :=
  (word_in Byte.x01 Byte.x23 Byte.x45 Byte.x67, word_in Byte.x89 Byte.xab Byte.xcd Byte.xef,
   word_in Byte.xfe Byte.xdc Byte.xba Byte.x98, word_in Byte.x76 Byte.x54 Byte.x32 Byte.x10).
(** Sections 3.1 and 3.2: a one bit, zeros until 64 bits are missing, and the
    length in bits, its low-order word first *)
Definition pad (m : list byte) : list byte :=
  m ++ [Byte.x80] ++ replicate (Z.to_nat ((55 - zlen m) mod 64)) Byte.x00
    ++ word_out (zlen m * 8) ++ word_out (zlen m * 8 / 2 ^ 32).
Definition md4 (m : list byte) : list byte :=
  let '(a, b, c, d) := fold_left block (blocks (pad m)) init in word_out a ++ word_out b ++ word_out c ++ word_out d.
End RFC1320.

Definition padded (m : list byte) : list byte :=
  m ++ [Byte.x80] ++ replicate (Z.to_nat ((55 - zlen m) mod 64)) Byte.x00 ++ put_le 8 (u64 (zlen m * 8)).
(** The same on the code's own block function *)
Definition md4_code (m : list byte) : list byte := word_bytes (fold_left md4_transform (blocks (padded m)) md4_iv).

(** Appendix A.5: MD4 ("abc") = a448017aaf21d8525fc10ae87aa6729d *)
Example rfc_abc : RFC1320.md4 (cs "abc") = byte.of_Z <$> [0xa4; 0x48; 0x01; 0x7a; 0xaf; 0x21; 0xd8; 0x52; 0x5f; 0xc1; 0x0a; 0xe8; 0x7a; 0xa6; 0x72; 0x9d].
Proof. vm_compute. reflexivity. Qed.

(** ** The code's block function is that of the RFC *)

Definition w32 (x : Z) : Prop := 0 <= x < 2 ^ 32.
Lemma w32_mod x : w32 (x mod 2 ^ 32).
Proof. apply Z.mod_pos_bound. done. Qed.
Lemma w32_bits x i : w32 x -> 32 <= i -> Z.testbit x i = false.
Proof. intros [H0 H1] Hi. exact (proj1 (Z.bounded_iff_bits_nonneg 32 x ltac:(lia) H0) H1 i Hi). Qed.

Lemma sum_bits g n : forall j i, 0 <= j ->
  Z.testbit (foldr (fun i acc => Z.b2z (g i) * 2 ^ i + acc) 0 (seqZ j (Z.of_nat n))) i = (j <=? i) && (i <? j + Z.of_nat n) && g i.
Proof.
  induction n as [|n IH]; intros j i Hj.
  - rewrite seqZ_nil by lia. cbn [foldr]. rewrite Z.bits_0, Z.add_0_r. destruct (Z.leb_spec j i), (Z.ltb_spec i j); (done || lia).
  - rewrite seqZ_cons by lia. cbn [foldr]. replace (Z.pred (Z.of_nat (S n))) with (Z.of_nat n) by lia.
    assert (Hb : forall i, Z.testbit (Z.b2z (g j) * 2 ^ j) i = (i =? j) && g j).
    { intros k. destruct (g j); cbn [Z.b2z]; [rewrite Z.mul_1_l, Z.pow2_bits_eqb, andb_true_r, Z.eqb_sym by done; done|by rewrite Z.bits_0, andb_false_r]. }
    rewrite Z.add_nocarry_lxor; [|apply Z.bits_inj'; intros k Hk; rewrite Z.land_spec, Hb, IH, Z.bits_0 by lia; destruct (Z.eqb_spec k j), (Z.leb_spec (Z.succ j) k); try (done || lia); cbn; by destruct (g j)].
    rewrite Z.lxor_spec, Hb, IH by lia. destruct (Z.eqb_spec i j) as [->|Hij].
    + destruct (Z.leb_spec (Z.succ j) j), (Z.leb_spec j j), (Z.ltb_spec j (j + Z.of_nat (S n))); try lia; cbn; by destruct (g j).
    + destruct (Z.leb_spec (Z.succ j) i), (Z.leb_spec j i), (Z.ltb_spec i (Z.succ j + Z.of_nat n)), (Z.ltb_spec i (j + Z.of_nat (S n))); try (done || lia); cbn; by destruct (g i).
Qed.
Lemma bits_spec f x y z i : Z.testbit (RFC1320.bits f x y z) i = (0 <=? i) && (i <? 32) && f (Z.testbit x i) (Z.testbit y i) (Z.testbit z i).
Proof. exact (sum_bits (fun i => f (Z.testbit x i) (Z.testbit y i) (Z.testbit z i)) 32 0 i ltac:(lia)). Qed.
Lemma not32_bits x i : w32 x -> 0 <= i < 32 -> Z.testbit (not32 x) i = negb (Z.testbit x i).
Proof.
  intros Hx Hi. unfold not32. replace (2 ^ 32 - 1 - x) with (Z.lnot x mod 2 ^ 32).
  - rewrite Z.mod_pow2_bits_low by lia. apply Z.lnot_spec. lia.
  - unfold Z.lnot. rewrite <- (Z.mod_unique (Z.pred (- x)) (2 ^ 32) (-1) (2 ^ 32 - 1 - x)); unfold w32 in Hx; lia.
Qed.
(** Functions that agree bit by bit on words *)
Lemma bits_agree f x y z r : w32 x -> w32 y -> w32 z ->
  f false false false = false -> (forall i, 32 <= i -> Z.testbit r i = false) ->
  (forall i, 0 <= i < 32 -> Z.testbit r i = f (Z.testbit x i) (Z.testbit y i) (Z.testbit z i)) -> r = RFC1320.bits f x y z.
Proof.
  intros Hx Hy Hz Hf Hhigh Hlow. apply Z.bits_inj'. intros i Hi. rewrite bits_spec. destruct (Z.leb_spec 0 i); [|lia]. destruct (Z.ltb_spec i 32); cbn [andb]; [apply Hlow; lia|apply Hhigh; lia].
Qed.
Ltac word_bits := rewrite ?Z.lor_spec, ?Z.land_spec, ?Z.lxor_spec.
Lemma F_rfc x y z : w32 x -> w32 y -> w32 z -> F x y z = RFC1320.F x y z.
Proof.
  intros Hx Hy Hz. apply bits_agree; try done; intros i Hi; unfold F; word_bits.
  - rewrite (w32_bits y), (w32_bits z), !andb_false_r by done. done.
  - rewrite not32_bits by done. by destruct (Z.testbit x i), (Z.testbit y i), (Z.testbit z i).
Qed.
Lemma G_rfc x y z : w32 x -> w32 y -> w32 z -> G x y z = RFC1320.G x y z.
Proof. intros Hx Hy Hz. apply bits_agree; try done; intros i Hi; unfold G; word_bits; [|done]. by rewrite (w32_bits x), (w32_bits y) by done. Qed.
Lemma H_rfc x y z : w32 x -> w32 y -> w32 z -> H x y z = RFC1320.H x y z.
Proof. intros Hx Hy Hz. apply bits_agree; try done; intros i Hi; unfold H; word_bits; [|done]. by rewrite (w32_bits x), (w32_bits y), (w32_bits z) by done. Qed.

Lemma rotl_rfc x s : w32 x -> 0 < s < 32 -> md4_rotl x s = RFC1320.rotate x s /\ w32 (md4_rotl x s).
Proof.
  intros Hx Hs. assert (Hh : forall i, 0 <= i -> Z.testbit (Z.shiftr x (32 - s)) i = (i <? s) && Z.testbit x (i + (32 - s))).
  { intros i Hi. rewrite Z.shiftr_spec by lia. destruct (Z.ltb_spec i s); [done|]. rewrite (w32_bits x) by (done || lia). done. }
  assert (Hl : forall i, 0 <= i -> Z.testbit (u32 (Z.shiftl x s)) i = (s <=? i) && (i <? 32) && Z.testbit x (i - s)).
  { intros i Hi. unfold u32. destruct (Z.ltb_spec i 32); [rewrite Z.mod_pow2_bits_low, Z.shiftl_spec by lia|rewrite Z.mod_pow2_bits_high by lia; by rewrite andb_false_r]. destruct (Z.leb_spec s i); [done|]. rewrite Z.testbit_neg_r by lia. done. }
  assert (Hd : Z.land (u32 (Z.shiftl x s)) (Z.shiftr x (32 - s)) = 0).
  { apply Z.bits_inj'. intros i Hi. rewrite Z.land_spec, Hh, Hl, Z.bits_0 by done. destruct (Z.leb_spec s i), (Z.ltb_spec i s); try lia; by rewrite ?andb_false_r. }
  split.
  - unfold md4_rotl, RFC1320.rotate. rewrite <- Z.shiftl_mul_pow2, <- Z.shiftr_div_pow2 by lia. fold (u32 (Z.shiftl x s)). by rewrite (Z.add_nocarry_lxor _ _ Hd), (Z.lxor_lor _ _ Hd).
  - split; [unfold md4_rotl; apply Z.lor_nonneg; split; [apply w32_mod|apply Z.shiftr_nonneg, Hx]|]. apply Z.bounded_iff_bits_nonneg; [lia|unfold md4_rotl; apply Z.lor_nonneg; split; [apply w32_mod|apply Z.shiftr_nonneg, Hx]|]. intros i Hi. unfold md4_rotl. rewrite Z.lor_spec, Hl, Hh by lia. destruct (Z.ltb_spec i 32), (Z.ltb_spec i s); try lia; by rewrite andb_false_r.
Qed.

(** Words and bytes *)
Lemma word_in_rfc b0 b1 b2 b3 : le_combine [b0; b1; b2; b3] = RFC1320.word_in b0 b1 b2 b3.
Proof.
  change (Z.lor (bZ b0) (Z.shiftl (Z.lor (bZ b1) (Z.shiftl (Z.lor (bZ b2) (Z.shiftl (Z.lor (bZ b3) 0) 8)) 8)) 8) = RFC1320.word_in b0 b1 b2 b3). rewrite Z.lor_0_r.
  assert (Hlor : forall (b : byte) x, 0 <= x -> Z.lor (bZ b) (Z.shiftl x 8) = bZ b + 2 ^ 8 * x).
  { intros b x Hx. pose proof (bZ_range b). assert (Hd : Z.land (bZ b) (Z.shiftl x 8) = 0).
    - apply Z.bits_inj'. intros i Hi. rewrite Z.land_spec, Z.shiftl_spec, Z.bits_0 by done. destruct (Z.lt_ge_cases i 8); [rewrite (Z.testbit_neg_r x) by lia; by rewrite andb_false_r|].
      assert (Hz : Z.testbit (bZ b) i = false); [|by rewrite Hz]. assert (Hb : bZ b < 2 ^ 8) by lia. apply (proj1 (Z.bounded_iff_bits_nonneg 8 (bZ b) ltac:(lia) ltac:(lia)) Hb). lia.
    - rewrite <- (Z.lxor_lor _ _ Hd), <- (Z.add_nocarry_lxor _ _ Hd), Z.shiftl_mul_pow2 by lia. lia. }
  pose proof (bZ_range b1). pose proof (bZ_range b2). pose proof (bZ_range b3). 
  rewrite (Hlor b2), (Hlor b1), (Hlor b0) by lia. unfold RFC1320.word_in. lia.
Qed.
Lemma words_rfc n : forall l, length l = (4 * n)%nat -> (fun i => le_combine (take 4 (drop (4 * i) l))) <$> seq 0 n = RFC1320.words_in l.
Proof.
  induction n as [|n IH]; intros l Hl; [by destruct l|]. destruct l as [|b0 [|b1 [|b2 [|b3 l]]]]; cbn [length] in Hl; try lia. cbn [seq fmap list_fmap RFC1320.words_in]. rewrite Nat.mul_0_r. f_equal; [apply word_in_rfc|].
  rewrite <- (IH l) by lia. rewrite <- fmap_S_seq, <- list_fmap_compose. apply list_fmap_ext. intros _ i _. cbn -[take le_combine Nat.mul]. by replace (4 * S i)%nat with (S (S (S (S (4 * i))))) by lia.
Qed.
Lemma put_le_split w x : put_le w x = le_split w x.
Proof. reflexivity. Qed.
Lemma le_split_S n x : le_split (S n) x = byte.of_Z x :: le_split n (Z.shiftr x 8).
Proof. reflexivity. Qed.
Lemma le_split_O x : le_split 0 x = [].
Proof. reflexivity. Qed.
Lemma word_out_rfc x : put_le 4 x = RFC1320.word_out x.
Proof.
  assert (Hm : forall z, byte.of_Z z = byte.of_Z (z mod 256)) by (intros z; apply byte.unsigned_inj; rewrite !byte.unsigned_of_Z; unfold byte.wrap; change (2 ^ 8) with 256; by rewrite (Z.mod_mod z 256)).
  rewrite put_le_split, !le_split_S, le_split_O, !Z.shiftr_shiftr, !Z.shiftr_div_pow2 by lia. unfold RFC1320.word_out. cbn [fmap list_fmap]. rewrite (Hm x), (Hm (x / 2 ^ 8)), (Hm (x / 2 ^ (8 + 8))), (Hm (x / 2 ^ (8 + 8 + 8))). done.
Qed.
Lemma length_out_rfc n : put_le 8 (u64 n) = RFC1320.word_out n ++ RFC1320.word_out (n / 2 ^ 32).
Proof.
  rewrite <- !word_out_rfc, !put_le_split. unfold u64. change (2 ^ 64) with (2 ^ (Z.of_nat 8 * 8)). rewrite <- le_split_mod, !le_split_S, !le_split_O. cbn [app].
  rewrite <- (Z.shiftr_div_pow2 n 32) by lia. by rewrite !Z.shiftr_shiftr by lia.
Qed.

(** Operations, rounds and blocks *)
Definition words_tuple (w : words) : Z * Z * Z * Z := (wa w, wb w, wc w, wd w).
Definition words32 (w : words) : Prop := w32 (wa w) /\ w32 (wb w) /\ w32 (wc w) /\ w32 (wd w).
(** A step of the code is the operation of the RFC with the function [f] and the constant. *)
Definition round_is (x : list Z) (R : Z -> Z -> Z -> Z -> nat -> Z -> Z) (f : Z -> Z -> Z -> Z) (const : Z) : Prop :=
  forall a b c d k s, w32 b -> w32 c -> w32 d -> 0 < s < 32 ->
    RFC1320.rotate (RFC1320.add (RFC1320.add (RFC1320.add a (f b c d)) (default 0 (x !! k))) const) s = R a b c d k s /\ w32 (R a b c d k s).
Lemma add_u32 a b : RFC1320.add (u32 a) b = u32 (a + b).
Proof. unfold RFC1320.add, u32. by rewrite Zplus_mod_idemp_l. Qed.
Lemma round_rfc x R f g const :
  (forall a b c d k s, R a b c d k s = md4_rotl (u32 (a + g b c d + word x k + const)) s) ->
  (forall b c d, w32 b -> w32 c -> w32 d -> g b c d = f b c d) -> round_is x R f const.
Proof.
  intros HR Hfg a b c d k s Hb Hc Hd Hs. rewrite HR, (Hfg b c d) by done. destruct (rotl_rfc (u32 (a + f b c d + word x k + const)) s (w32_mod _) Hs) as [E Hw]. split; [|done].
  rewrite E. f_equal. change (RFC1320.add a (f b c d)) with (u32 (a + f b c d)). by rewrite !add_u32.
Qed.
Lemma round1_rfc x : round_is x (ROUND1 x) RFC1320.F 0.
Proof. apply (round_rfc x _ _ F 0); [intros; unfold ROUND1; by rewrite Z.add_0_r|intros; by apply F_rfc]. Qed.
Lemma round2_rfc x : round_is x (ROUND2 x) RFC1320.G (Z.sqrt (2 * 2 ^ 60)).
Proof. apply (round_rfc x _ _ G); [done|intros; by apply G_rfc]. Qed.
Lemma round3_rfc x : round_is x (ROUND3 x) RFC1320.H (Z.sqrt (3 * 2 ^ 60)).
Proof. apply (round_rfc x _ _ H); [done|intros; by apply H_rfc]. Qed.

(** Four steps are four operations. *)
Lemma steps_rfc x R f const s0 s1 s2 s3 w k0 k1 k2 k3 :
  round_is x R f const -> 0 < s0 < 32 -> 0 < s1 < 32 -> 0 < s2 < 32 -> 0 < s3 < 32 -> words32 w ->
  words32 (steps R s0 s1 s2 s3 w (k0, k1, k2, k3)) /\
  forall l, fold_left (RFC1320.operation f const x) ((k0, s0) :: (k1, s1) :: (k2, s2) :: (k3, s3) :: l) (words_tuple w)
            = fold_left (RFC1320.operation f const x) l (words_tuple (steps R s0 s1 s2 s3 w (k0, k1, k2, k3))).
Proof.
  intros HR H0 H1 H2 H3 (Ha&Hb&Hc&Hd). destruct w as [a b c d]. unfold words_tuple, steps. cbn [wa wb wc wd] in *.
  destruct (HR a b c d k0 s0 Hb Hc Hd H0) as [E0 W0]. set (a1 := R a b c d k0 s0) in *.
  destruct (HR d a1 b c k1 s1 W0 Hb Hc H1) as [E1 W1]. set (d1 := R d a1 b c k1 s1) in *.
  destruct (HR c d1 a1 b k2 s2 W1 W0 Hb H2) as [E2 W2]. set (c1 := R c d1 a1 b k2 s2) in *.
  destruct (HR b c1 d1 a1 k3 s3 W2 W1 W0 H3) as [E3 W3]. set (b1 := R b c1 d1 a1 k3 s3) in *.
  split; [done|]. intros l. cbn [fold_left]. unfold RFC1320.operation at 2 3 4 5. cbn [fst snd]. by rewrite E0, E1, E2, E3.
Qed.
Lemma quads_rfc x R f const s0 s1 s2 s3 qs :
  round_is x R f const -> 0 < s0 < 32 -> 0 < s1 < 32 -> 0 < s2 < 32 -> 0 < s3 < 32 ->
  forall w, words32 w ->
  words32 (fold_left (steps R s0 s1 s2 s3) qs w) /\
  fold_left (RFC1320.operation f const x) (concat ((fun '(k0, k1, k2, k3) => [(k0, s0); (k1, s1); (k2, s2); (k3, s3)]) <$> qs)) (words_tuple w)
  = words_tuple (fold_left (steps R s0 s1 s2 s3) qs w).
Proof.
  intros HR H0 H1 H2 H3. induction qs as [|[[[k0 k1] k2] k3] qs IH]; intros w Hw; [done|].
  destruct (steps_rfc x R f const s0 s1 s2 s3 w k0 k1 k2 k3 HR H0 H1 H2 H3 Hw) as [Hw1 E1].
  cbn [fmap list_fmap concat app]. rewrite E1. by apply IH.
Qed.
Lemma round_fold x v f const order shifts l : zip order (shifts ++ shifts ++ shifts ++ shifts) = l ->
  RFC1320.round x v (f, const, order, shifts) = fold_left (RFC1320.operation f const x) l v.
Proof. by intros <-. Qed.
Lemma rounds_rfc x w : words32 w -> words32 (md4_rounds x w) /\ fold_left (RFC1320.round x) RFC1320.rounds (words_tuple w) = words_tuple (md4_rounds x w).
Proof.
  intros Hw. unfold md4_rounds, RFC1320.rounds. cbv zeta.
  destruct (quads_rfc x _ _ _ 3 7 11 19 [(0, 1, 2, 3); (4, 5, 6, 7); (8, 9, 10, 11); (12, 13, 14, 15)]%nat (round1_rfc x) ltac:(lia) ltac:(lia) ltac:(lia) ltac:(lia) w Hw) as [W1 E1].
  revert W1 E1. generalize (fold_left (steps (ROUND1 x) 3 7 11 19) [(0, 1, 2, 3); (4, 5, 6, 7); (8, 9, 10, 11); (12, 13, 14, 15)]%nat w). intros w1 W1 E1.
  destruct (quads_rfc x _ _ _ 3 5 9 13 [(0, 4, 8, 12); (1, 5, 9, 13); (2, 6, 10, 14); (3, 7, 11, 15)]%nat (round2_rfc x) ltac:(lia) ltac:(lia) ltac:(lia) ltac:(lia) _ W1) as [W2 E2].
  revert W2 E2. generalize (fold_left (steps (ROUND2 x) 3 5 9 13) [(0, 4, 8, 12); (1, 5, 9, 13); (2, 6, 10, 14); (3, 7, 11, 15)]%nat w1). intros w2 W2 E2.
  destruct (quads_rfc x _ _ _ 3 9 11 15 [(0, 8, 4, 12); (2, 10, 6, 14); (1, 9, 5, 13); (3, 11, 7, 15)]%nat (round3_rfc x) ltac:(lia) ltac:(lia) ltac:(lia) ltac:(lia) _ W2) as [W3 E3].
  revert W3 E3. generalize (fold_left (steps (ROUND3 x) 3 9 11 15) [(0, 8, 4, 12); (2, 10, 6, 14); (1, 9, 5, 13); (3, 11, 7, 15)]%nat w2). intros w3 W3 E3.
  split; [exact W3|]. cbn [fold_left]. rewrite <- E3, <- E2, <- E1. rewrite !(round_fold x _ _ _ _ _ _ eq_refl). done.
Qed.
Lemma block_add a b c d l a' b' c' d' : fold_left (RFC1320.round (RFC1320.words_in l)) RFC1320.rounds (a, b, c, d) = (a', b', c', d') ->
  RFC1320.block (a, b, c, d) l = (RFC1320.add a a', RFC1320.add b b', RFC1320.add c c', RFC1320.add d d').
Proof. intros E. unfold RFC1320.block. by rewrite E. Qed.
Lemma transform_rfc w l : words32 w -> length l = 64%nat -> words32 (md4_transform w l) /\ RFC1320.block (words_tuple w) l = words_tuple (md4_transform w l).
Proof.
  intros Hw Hl. destruct (rounds_rfc (block_words l) w Hw) as [_ E]. unfold md4_transform. revert E. generalize (md4_rounds (block_words l) w). intros v E. split; [split_and!; apply w32_mod|].
  unfold block_words in E. rewrite (words_rfc 16 l Hl) in E. exact (block_add _ _ _ _ _ _ _ _ _ E).
Qed.
Lemma blocks_64 l : Forall (fun b => length b = 64%nat) (blocks l).
Proof.
  apply Forall_fmap, Forall_forall. intros i [_ Hi]%elem_of_seq. cbn. rewrite length_take, length_drop. pose proof (Nat.div_mod_eq (length l) 64). nia.
Qed.
Lemma fold_left_sim {A A' B} (P : A -> Prop) (Q : B -> Prop) (h : A -> A') f g :
  (forall a b, P a -> Q b -> P (f a b) /\ g (h a) b = h (f a b)) ->
  forall bs, Forall Q bs -> forall a, P a -> fold_left g bs (h a) = h (fold_left f bs a).
Proof. intros Hfg. induction 1 as [|b bs Hb _ IH]; intros a Ha; [done|]. cbn [fold_left]. destruct (Hfg a b Ha Hb) as [Ha1 ->]. by apply IH. Qed.
Lemma blocks_rfc bs : Forall (fun b => length b = 64%nat) bs -> forall w, words32 w -> fold_left RFC1320.block bs (words_tuple w) = words_tuple (fold_left md4_transform bs w).
Proof. apply (fold_left_sim words32 (fun b => length b = 64%nat)). exact transform_rfc. Qed.
(** The digest of the code is that of the RFC. *)
Lemma md4_code_rfc m : md4_code m = RFC1320.md4 m.
Proof.
  unfold md4_code, RFC1320.md4. assert (Hp : padded m = RFC1320.pad m) by (unfold padded, RFC1320.pad; by rewrite length_out_rfc). rewrite Hp. replace RFC1320.init with (words_tuple md4_iv) by reflexivity.
  rewrite (blocks_rfc _ (blocks_64 _)) by (split_and!; done). unfold words_tuple, word_bytes. by rewrite !word_out_rfc.
Qed.

Lemma blocks_short l : (length l < 64)%nat -> blocks l = [] /\ rest l = l.
Proof. intros Hl. unfold blocks, rest. rewrite Nat.div_small by done. by rewrite drop_0. Qed.
Lemma blocks_cons l : (64 <= length l)%nat -> blocks l = take 64 l :: blocks (drop 64 l) /\ rest l = rest (drop 64 l).
Proof.
  intros Hl. unfold blocks, rest. rewrite length_drop. assert (Hd : (length l / 64 = S ((length l - 64) / 64))%nat) by (replace (length l) with (1 * 64 + (length l - 64))%nat at 1 by lia; by rewrite Nat.div_add_l by lia).
  rewrite Hd. cbn [seq fmap list_fmap]. split; [|rewrite drop_drop; f_equal; lia]. rewrite Nat.mul_0_r, drop_0. f_equal. rewrite <- fmap_S_seq, <- list_fmap_compose. apply list_fmap_ext. intros i j _. cbn. rewrite drop_drop. do 2 f_equal. lia.
Qed.
Lemma rest_length l : length (rest l) = (length l mod 64)%nat.
Proof. unfold rest. rewrite length_drop. pose proof (Nat.div_mod_eq (length l) 64). lia. Qed.
Lemma blocks_app m : forall d, blocks (m ++ d) = blocks m ++ blocks (rest m ++ d) /\ rest (m ++ d) = rest (rest m ++ d).
Proof.
  induction m as [m IH] using (induction_ltof1 _ (@length byte)). unfold ltof in IH. intros d. destruct (Nat.lt_ge_cases (length m) 64) as [Hs|Hl].
  - by destruct (blocks_short m Hs) as [-> ->].
  - destruct (blocks_cons m Hl) as [-> ->]. destruct (blocks_cons (m ++ d)) as [-> ->]; [rewrite length_app; lia|]. rewrite take_app_le, drop_app_le by done. destruct (IH (drop 64 m) ltac:(rewrite length_drop; lia) d) as [-> ->]. done.
Qed.

Lemma md4_loop_exact fuel : forall w buffer d, (length buffer < 64)%nat -> (length d <= fuel)%nat ->
  md4_loop fuel w buffer d = Ret (fold_left md4_transform (blocks (buffer ++ d)) w, rest (buffer ++ d)).
Proof.
  induction fuel as [|fuel IH]; intros w buffer d Hb Hd.
  { destruct d; [|cbn in Hd; lia]. rewrite app_nil_r. by destruct (blocks_short buffer Hb) as [-> ->]. }
  destruct d as [|b d']; [rewrite app_nil_r; by destruct (blocks_short buffer Hb) as [-> ->]|]. cbn [md4_loop]. set (d := b :: d') in *. assert (Hpos : (0 < length d)%nat) by (cbn; lia).
  set (n := Nat.min (length d) (64 - length buffer)). rewrite length_app, length_take. case_bool_decide as Hfull.
  - assert (Hn : n = (64 - length buffer)%nat) by lia. rewrite IH; [|cbn; lia|rewrite length_drop; lia]. cbn [app]. destruct (blocks_cons (buffer ++ d)) as [-> ->]; [rewrite length_app; lia|].
    rewrite take_app_ge, drop_app_ge by lia. by rewrite <- Hn.
  - assert (Hn : n = length d) by lia. rewrite Hn, firstn_all, drop_all. assert (Hs : (length (buffer ++ d) < 64)%nat) by (rewrite length_app; lia). rewrite IH by (cbn; lia). rewrite app_nil_r. done.
Qed.

(** A context that has been fed the message [m] *)
Definition fed (m : list byte) (ctx : Md4Ctx) : Prop :=
  m_state ctx = fold_left md4_transform (blocks m) md4_iv /\ m_buffer ctx = rest m /\ bit_count ctx = u64 (zlen m * 8).
Lemma fed_init : fed [] md4_init.
Proof. done. Qed.
Lemma fed_update m ctx d : fed m ctx -> exists ctx', md4_update ctx d = Ret ctx' /\ fed (m ++ d) ctx'.
Proof.
  intros (Hs&Hb&Hc). unfold md4_update. assert (Hl : (length (m_buffer ctx) < 64)%nat) by (rewrite Hb, rest_length; apply Nat.mod_upper_bound; lia). rewrite md4_loop_exact by done. cbn [mbind outcome_bind]. eexists. split; [done|]. destruct (blocks_app m d) as [E1 E2]. split_and!; cbn [m_state m_buffer bit_count].
  - by rewrite E1, fold_left_app, Hb, Hs.
  - by rewrite E2, Hb.
  - rewrite Hc. unfold u64. rewrite Zplus_mod_idemp_l. f_equal. rewrite zlen_app. lia.
Qed.
Lemma fed_zeros fuel : forall m ctx k, fed m ctx -> (k <= fuel)%nat -> ((length m + k) mod 64 = 56)%nat -> (k < 64)%nat -> exists ctx', pad_zeros fuel ctx = Ret ctx' /\ fed (m ++ replicate k Byte.x00) ctx'.
Proof.
  induction fuel as [|fuel IH]; intros m ctx k Hf Hk Hm Hk64; pose proof Hf as (_&Hb&_); cbn [pad_zeros]; rewrite Hb, rest_length.
  - assert (k = 0)%nat as -> by lia. rewrite Nat.add_0_r in Hm. rewrite bool_decide_eq_true_2 by done. exists ctx. by rewrite app_nil_r.
  - case_bool_decide as E.
    + assert (k = 0)%nat as ->. { pose proof (Nat.div_mod_eq (length m) 64). pose proof (Nat.div_mod_eq (length m + k) 64). lia. } exists ctx. by rewrite app_nil_r.
    + destruct k as [|k]; [rewrite Nat.add_0_r in Hm; done|]. destruct (fed_update m ctx [Byte.x00] Hf) as (c1&->&H1). cbn [mbind outcome_bind]. destruct (IH (m ++ [Byte.x00]) c1 k H1) as (c2&->&H2); [lia|rewrite length_app; cbn [length]; rewrite <- Hm; f_equal; lia|lia|].
      exists c2. split; [done|]. by rewrite <- app_assoc in H2.
Qed.
(** The zeros lead to the end of a block less the length. *)
Lemma padding_fits m : let k := Z.to_nat ((55 - zlen m) mod 64) in (k < 64)%nat /\ ((length (m ++ [Byte.x80]) + k) mod 64 = 56)%nat.
Proof.
  intros k. unfold k. pose proof (Z.mod_pos_bound (55 - zlen m) 64). split; [lia|]. rewrite length_app. cbn [length]. apply Nat2Z.inj. rewrite Nat2Z.inj_mod, !Nat2Z.inj_add, Z2Nat.id by lia. change (Z.of_nat (length m)) with (zlen m). change (Z.of_nat 64) with 64. change (Z.of_nat 1) with 1. change (Z.of_nat 56) with 56. rewrite Zplus_mod_idemp_r. replace (zlen m + 1 + (55 - zlen m)) with 56 by lia. done. 
Qed.
Lemma three_steps {A B C D} (m : outcome A) (f : A -> outcome B) (g : B -> outcome C) (h : C -> D) a b c :
  m = Ret a -> f a = Ret b -> g b = Ret c -> (x ← m; y ← f x; z ← g y; Ret (h z)) = Ret (h c).
Proof. intros -> E1 E2. cbn. rewrite E1. cbn. by rewrite E2. Qed.
Lemma fed_final m ctx : fed m ctx -> md4_final ctx = Ret (md4_code m).
Proof.
  intros Hf. pose proof Hf as (_&_&Hc). destruct (fed_update m ctx [Byte.x80] Hf) as (c1&E1&H1). destruct (padding_fits m) as [Hk Hm]. cbv zeta in Hk, Hm. destruct (fed_zeros 64 _ c1 _ H1 (Nat.lt_le_incl _ _ Hk) Hm Hk) as (c2&E2&H2).
  destruct (fed_update _ c2 (put_le 8 (bit_count ctx)) H2) as (c3&E3&H3). destruct H3 as (H3&_&_).
  assert (Hp : blocks (padded m) = blocks (((m ++ [Byte.x80]) ++ replicate (Z.to_nat ((55 - zlen m) mod 64)) Byte.x00) ++ put_le 8 (bit_count ctx))) by (unfold padded; by rewrite Hc, <- !app_assoc).
  unfold md4_code. rewrite Hp, <- H3. exact (three_steps _ _ (fun c => md4_update c (put_le 8 (bit_count ctx))) (fun c => word_bytes (m_state c)) c1 c2 c3 E1 E2 E3).
Qed.

(** ** Descriptors *)

(** What the reads delivered, up to the end of the file *)
Fixpoint content (chunks : list (list byte)) : list byte :=
  match chunks with [] => [] | c :: chunks => if bool_decide (c = []) then [] else c ++ content chunks end.
(** They reached the end without an error *)
Definition read_ok (r : reads) : bool := negb (r_failed r) || bool_decide ([] ∈ r_chunks r).

(** Feed chunks, one after the other *)
Fixpoint feed {S} (update : S -> list byte -> outcome S) (s : S) (chunks : list (list byte)) : outcome S :=
  match chunks with [] => Ret s | c :: chunks => s ← update s c; feed update s chunks end.

(** Streaming gives the digest of the whole. *)
Class StreamLaws `{XX : XXHashes} `{EV : Evp} : Prop := {
  xxh64_stream chunks seed : XXH64_digest (fold_left XXH64_update chunks (XXH64_reset seed)) = XXH64_seeded (concat chunks) seed;
  xxh3_created : XXH3_createState = true;
  xxh3_stream chunks seed : exists s, feed (fun s c => of_option (XXH3_update s c)) (XXH3_64bits_reset seed) chunks = Ret s /\ XXH3_64bits_digest s = XXH3_64bits_withSeed (concat chunks) seed;
  xxh128_stream chunks seed : exists s, feed (fun s c => of_option (XXH3_update s c)) (XXH3_128bits_reset seed) chunks = Ret s /\ XXH3_128bits_digest s = XXH3_128bits_withSeed (concat chunks) seed;
  evp_created : EVP_MD_CTX_new = true;
  evp_stream md5 chunks : exists c0 c, EVP_DigestInit_ex md5 = Some c0 /\ feed (fun c d => of_option (EVP_DigestUpdate c d)) c0 chunks = Ret c /\ EVP_DigestFinal_ex c = EVP_Digest md5 (concat chunks);
}.

(** The chunks that are processed *)
Fixpoint taken (chunks : list (list byte)) : list (list byte) :=
  match chunks with [] => [] | c :: chunks => if bool_decide (c = []) then [] else c :: taken chunks end.
Lemma concat_taken chunks : concat (taken chunks) = content chunks.
Proof. induction chunks as [|c chunks IH]; cbn; [done|]. case_bool_decide; cbn; [done|]. by rewrite IH. Qed.

Lemma read_fold_feed {S} (update : S -> list byte -> outcome S) r s :
  read_fold update s r = (s ← feed update s (taken (r_chunks r)); if read_ok r then Ret s else Fail).
Proof.
  unfold read_fold, read_ok. destruct r as [chunks failed]; cbn [r_chunks r_failed]. revert s. induction chunks as [|c chunks IH]; intros s; [by destruct failed|]. cbn [read_loop taken]. destruct (bool_decide (c = [])) eqn:Hc; cbn [feed mbind outcome_bind].
  - apply bool_decide_eq_true in Hc. subst c. rewrite (bool_decide_eq_true_2 ([] ∈ [] :: chunks)) by (by left). by rewrite orb_true_r.
  - destruct (update s c) as [s'| |]; cbn [mbind outcome_bind]; [|done..]. rewrite IH. replace (bool_decide ([] ∈ c :: chunks)) with (bool_decide ([] ∈ chunks)); [done|]. apply bool_decide_eq_false in Hc. apply bool_decide_ext. rewrite elem_of_cons. naive_solver.
Qed.
Lemma feed_md4 chunks : forall m ctx, fed m ctx -> exists ctx', feed md4_update ctx chunks = Ret ctx' /\ fed (m ++ concat chunks) ctx'.
Proof.
  induction chunks as [|c chunks IH]; intros m ctx Hf; [exists ctx; by rewrite app_nil_r|]. cbn [feed concat]. destruct (fed_update m ctx c Hf) as (c1&->&H1). cbn [mbind outcome_bind]. destruct (IH _ _ H1) as (c2&->&H2). exists c2. split; [done|]. by rewrite <- app_assoc in H2.
Qed.
Lemma feed_total {S} (f : S -> list byte -> S) chunks : forall s, feed (fun s d => Ret (f s d)) s chunks = Ret (fold_left f chunks s).
Proof. induction chunks; intros s; cbn; auto. Qed.
Lemma digest_md4 seed `{XXHashes} `{Evp} m : checksum_digest CHECKSUM_ALGO_MD4 seed m = Ret (md4_code m).
Proof. cbn -[md4_update md4_init md4_final]. destruct (fed_update [] md4_init m fed_init) as (c&->&Hc). cbn [mbind outcome_bind]. by apply fed_final. Qed.

(** C28: digests are what they are named for.  MD4 of a message, given in any
    pieces, is MD4 as RFC 1320 defines it ([RFC1320.md4], written out from the RFC
    and sharing nothing with the code's rounds, words or padding), 16 bytes; and
    with every algorithm the digest of an open file, however its reads are split,
    is the digest of the bytes that were read, or a failure if a read failed.  The
    streaming of xxHash and OpenSSL agrees with their one-shot functions, as they
    document. *)
Theorem digests_exact `{XX : XXHashes} `{EV : Evp} (L : StreamLaws) algo seed r (Halgo : checksum_algo_valid algo = true) :
  checksum_digest_fd algo seed r = (if (algo =? CHECKSUM_ALGO_NONE) || read_ok r then checksum_digest algo seed (content (r_chunks r)) else Fail) /\
  (forall pieces, (ctx ← feed md4_update md4_init pieces; md4_final ctx) = Ret (RFC1320.md4 (concat pieces))) /\
  (forall m, checksum_digest CHECKSUM_ALGO_MD4 seed m = Ret (RFC1320.md4 m)) /\ (forall m, zlen (RFC1320.md4 m) = checksum_digest_len CHECKSUM_ALGO_MD4).
Proof.
  assert (Hmd4 : forall pieces, (ctx ← feed md4_update md4_init pieces; md4_final ctx) = Ret (RFC1320.md4 (concat pieces))) by (intros pieces; rewrite <- md4_code_rfc; destruct (feed_md4 pieces [] md4_init fed_init) as (c&->&Hc); cbn [mbind outcome_bind]; by apply fed_final).
  split_and!; [|done|intros m; rewrite <- md4_code_rfc; apply digest_md4|intros m; rewrite <- md4_code_rfc; unfold md4_code, word_bytes; rewrite !zlen_app, !zlen_put_le; done].
  unfold checksum_algo_valid in Halgo. repeat (apply orb_true_iff in Halgo as [Halgo|Halgo]); apply Z.eqb_eq in Halgo; subst algo; unfold checksum_digest_fd; rewrite <- ?concat_taken;
    cbn -[md4_init md4_update md4_final read_fold checksum_digest concat taken].
  - rewrite ?read_fold_feed, feed_total. cbn [mbind outcome_bind]. destruct (read_ok r); [|done]. cbn [mbind outcome_bind]. by rewrite xxh64_stream.
  - rewrite evp_created. destruct (evp_stream true (taken (r_chunks r))) as (c0&c&->&Hc&Hd). cbn [check of_option mbind outcome_bind]. rewrite ?read_fold_feed, Hc. cbn [mbind outcome_bind]. destruct (read_ok r); [|done]. cbn [mbind outcome_bind]. rewrite Hd.
    unfold checksum_digest, evp_digest. cbn [Z.eqb]. destruct (EVP_Digest true _) as [d|]; [|done]. cbn. rewrite Z.gtb_ltb, Z.leb_antisym. by destruct (_ <? _).
  - rewrite xxh3_created. cbn [check mbind outcome_bind]. destruct (xxh3_stream (taken (r_chunks r)) seed) as (s&Hs&Hd). rewrite ?read_fold_feed, Hs. cbn [mbind outcome_bind]. destruct (read_ok r); [|done]. cbn [mbind outcome_bind]. by rewrite Hd.
  - rewrite xxh3_created. cbn [check mbind outcome_bind]. destruct (xxh128_stream (taken (r_chunks r)) seed) as (s&Hs&Hd). rewrite ?read_fold_feed, Hs. cbn [mbind outcome_bind]. destruct (read_ok r); [|done]. cbn [mbind outcome_bind]. by rewrite Hd.
  - rewrite ?read_fold_feed. destruct (feed_md4 (taken (r_chunks r)) [] md4_init fed_init) as (c&->&Hc). cbn [mbind outcome_bind]. destruct (read_ok r); [|done]. cbn [mbind outcome_bind]. rewrite digest_md4. by apply fed_final.
  - rewrite evp_created. destruct (evp_stream false (taken (r_chunks r))) as (c0&c&->&Hc&Hd). cbn [check of_option mbind outcome_bind]. rewrite ?read_fold_feed, Hc. cbn [mbind outcome_bind]. destruct (read_ok r); [|done]. cbn [mbind outcome_bind]. rewrite Hd.
    unfold checksum_digest, evp_digest. cbn [Z.eqb]. destruct (EVP_Digest false _) as [d|]; [|done]. cbn. rewrite Z.gtb_ltb, Z.leb_antisym. by destruct (_ <? _).
  - done.
Qed.

(** ** Digests that collect *)

Definition demo_xx : XXHashes := {|
  XXH64_seeded m _ := take 8 m; XXH3_64bits_withSeed m _ := take 8 m; XXH3_128bits_withSeed m _ := take 16 m;
  xxh64_state := list byte; XXH64_reset _ := []; XXH64_update s m := s ++ m; XXH64_digest s := take 8 s;
  xxh3_state := list byte; XXH3_createState := true; XXH3_64bits_reset _ := []; XXH3_128bits_reset _ := [];
  XXH3_update s m := Some (s ++ m); XXH3_64bits_digest s := take 8 s; XXH3_128bits_digest s := take 16 s |}.
Definition demo_evp : Evp := {|
  EVP_Digest _ m := Some (take 16 m); evp_ctx := list byte; EVP_MD_CTX_new := true; EVP_DigestInit_ex _ := Some [];
  EVP_DigestUpdate c m := Some (c ++ m); EVP_DigestFinal_ex c := Some (take 16 c) |}.
Lemma collect chunks : forall s, fold_left (fun s m : list byte => s ++ m) chunks s = s ++ concat chunks.
Proof. induction chunks as [|c chunks IH]; intros s; cbn; [by rewrite app_nil_r|]. by rewrite IH, app_assoc. Qed.
Lemma demo_streams : @StreamLaws demo_xx demo_evp.
Proof.
  split; cbn; [| |intros chunks seed..| |intros md5 chunks]; try done.
  - intros chunks _. by rewrite collect.
  - eexists. split; [apply (feed_total (fun s m : list byte => s ++ m))|]. by rewrite collect.
  - eexists. split; [apply (feed_total (fun s m : list byte => s ++ m))|]. by rewrite collect.
  - eexists _, _. split; [done|]. split; [apply (feed_total (fun s m : list byte => s ++ m))|]. by rewrite collect.
Qed.
Lemma digests_exact_witness : @checksum_digest_fd demo_xx demo_evp CHECKSUM_ALGO_MD4 7 (MkReads [cs "a"; cs "bc"; []] true) = Ret (RFC1320.md4 (cs "abc")).
Proof.
  destruct (@digests_exact demo_xx demo_evp demo_streams CHECKSUM_ALGO_MD4 7 (MkReads [cs "a"; cs "bc"; []] true)) as (E&_&Hm&_); [reflexivity|]. rewrite E. exact (Hm (cs "abc")).
Defined.
