(* ===== verification/Fuzzy.v ===== *)
(** The similar file --fuzzy reuses as a delta basis: [fuzzy_distance],
    [fuzzy_find_suffix], [fuzzy_candidate_better] and the scan of
    [fuzzy_basis_find_and_load] of src/shared/incremental_check.c.

    The distance is rsync's weighted edit distance in 16.16 fixed point, computed
    row by row on one array of 32-bit words. *)

From stdpp Require Import list sorting.
From S2P Require Import Prelude Alloc CStr Names Libc Metadata.

Definition FUZZY_MAX_DIRECTORY_SCAN : nat := 4096.
Definition FUZZY_NAME_LIMIT : Z := 192.
Definition FUZZY_DIST_UNIT : Z := 65536.
Definition FUZZY_DIST_REJECT : Z := 0xFFFF * FUZZY_DIST_UNIT + 1.
Definition FUZZY_DIST_LIMIT : Z := 25 * FUZZY_DIST_UNIT.

(** ** The distance of two names *)

(** One cell: [prev] is the cell of the previous row ([left] in the code), [above] the previous cell
    of this row, [diag] the one before both *)
Definition dist_cell (c1 c2 : byte) (prev above diag : Z) : Z :=
  let cost := bZ c1 - bZ c2 in
  let cost := if cost =? 0 then 0 else if cost <? 0 then FUZZY_DIST_UNIT - (- cost) else FUZZY_DIST_UNIT + cost in
  let diag_inc := u32 (diag + cost) in
  let prev_inc := u32 (prev + FUZZY_DIST_UNIT + bZ c1) in
  let above_inc := u32 (above + FUZZY_DIST_UNIT + bZ c2) in
  if prev <? above then if prev_inc <? diag_inc then prev_inc else diag_inc
  else if above_inc <? diag_inc then above_inc else diag_inc.
(** The inner loop, over the row [a] *)
Fixpoint dist_row (c1 : byte) (s2 : list byte) (a : list Z) (diag above : Z) : list Z :=
  match s2, a with
  | c2 :: s2, prev :: a => let v := dist_cell c1 c2 prev above diag in v :: dist_row c1 s2 a prev v
  | _, _ => []
  end.
Fixpoint dist_rows (s1 s2 : list byte) (i1 : Z) (a : list Z) : list Z :=
  match s1 with
  | [] => a
  | c1 :: s1 => dist_rows s1 s2 (i1 + 1) (dist_row c1 s2 a (u32 (i1 * FUZZY_DIST_UNIT)) (u32 ((i1 + 1) * FUZZY_DIST_UNIT)))
  end.
Definition byte_sum (s : list byte) : Z := fold_left (fun cost c => u32 (cost + bZ c)) s 0.
(** incremental_check.c [fuzzy_distance]; the scratch row has one word more than
    the longest name *)
Definition fuzzy_distance (s1 s2 : list byte) (upperlimit : Z) : outcome Z :=
  let len1 := zlen s1 in
  let len2 := zlen s2 in
  if u32 ((if len1 >? len2 then len1 - len2 else len2 - len1) * FUZZY_DIST_UNIT) >? upperlimit then Ret FUZZY_DIST_REJECT
  else if (len1 =? 0) || (len2 =? 0) then
    let s := if len1 =? 0 then s2 else s1 in Ret (u32 (u32 (zlen s * FUZZY_DIST_UNIT) + byte_sum s))
  else if len2 >? FUZZY_NAME_LIMIT + 1 then Stuck
  else
    let a := (fun i => u32 ((Z.of_nat i + 1) * FUZZY_DIST_UNIT)) <$> seq 0 (length s2) in
    ld (dist_rows s1 s2 0 a) (len2 - 1).

(** ** The suffix of a name *)

(** The position of the last dot before [s], past the first character *)
Fixpoint dot_before (fn : list byte) (s : nat) : option nat :=
  match s with
  | O => None
  | S s => match s with O => None | S _ => if char_is fn s "." then Some s else dot_before fn s end
  end.
(** The loop of incremental_check.c [fuzzy_find_suffix], with the suffix found so
    far; a round shortens [fn_len] *)
Definition backup_suffix (fn : list byte) (s s_len : nat) (had_tilde : bool) : bool :=
  let rest := drop (S s) fn in
  if bool_decide (s_len = 4%nat) then (strcmp rest (cs "bak") =? 0) || (strcmp rest (cs "old") =? 0)
  else if bool_decide (s_len = 5%nat) then strcmp rest (cs "orig") =? 0
  else bool_decide (2 < s_len)%nat && had_tilde && char_is fn (S s) "~" && match fn !! S (S s) with Some c => is_digit c | None => false end.
Fixpoint suffix_loop (fuel : nat) (fn : list byte) (fn_len : nat) (had_tilde : bool) (suf : list byte) : list byte :=
  match fuel with
  | O => suf
  | S fuel =>
      if bool_decide (fn_len <= 1)%nat then suf
      else match dot_before fn fn_len with
           | None => suf
           | Some s =>
               let s_len := (fn_len - s)%nat in
               if backup_suffix fn s s_len had_tilde then suffix_loop fuel fn s had_tilde suf
               else
                 let suf := take s_len (drop s fn) in
                 if bool_decide (s_len = 1%nat) then suf
                 else if forallb is_digit (drop 1 suf) then suffix_loop fuel fn s had_tilde suf
                 else suf
           end
  end.
Fixpoint skip_dots (fn : list byte) : list byte := match fn with c :: fn' => if bool_decide (c = "."%byte) then skip_dots fn' else fn | [] => [] end.
Definition fuzzy_find_suffix (name : list byte) : list byte :=
  let fn := skip_dots name in
  let had_tilde := bool_decide (1 < length fn)%nat && char_is fn (length fn - 1) "~" in
  let fn_len := if had_tilde then (length fn - 1)%nat else length fn in
  suffix_loop (S fn_len) fn fn_len had_tilde [].

(** ** The candidates *)

(** What [fstatat] tells of an entry *)
Record entry_stat := MkStat { es_regular : bool; es_size : Z; es_mtime : Z; es_nsec : Z }.
Definition dir_entry : Type := list byte * option entry_stat.
(** incremental_check.c [FuzzyCandidate]; an empty name is no candidate *)
Record FuzzyCandidate := MkCand { fc_name : list byte; fc_size : Z; fc_distance : Z; fc_gap : Z }.
(** incremental_check.c [fuzzy_candidate_better] *)
Definition fuzzy_candidate_better (cand : FuzzyCandidate) (best : option FuzzyCandidate) : bool :=
  match best with
  | None => true
  | Some best =>
      if negb (fc_distance cand =? fc_distance best) then fc_distance cand <? fc_distance best
      else if negb (fc_gap cand =? fc_gap best) then fc_gap cand <? fc_gap best
      else strcmp (fc_name cand) (fc_name best) <? 0
  end.

(** The file that is wanted *)
Record target := MkTarget { tg_leaf : list byte; tg_size : Z; tg_mtime : Z; tg_nsec : Z; tg_window : Z }.
Record scan_state := MkScan { sc_exact : option FuzzyCandidate; sc_best : option FuzzyCandidate; sc_lowest : Z }.

Section Scan.
Context (maximum : Z) (t : target).

(** The sum of incremental_check.c's scan for one name: the distance of the names
    and ten times that of the suffixes *)
Definition name_distance (name : list byte) (lowest : Z) : outcome Z :=
  d ← fuzzy_distance name (tg_leaf t) lowest;
  if d <? 0xFFFF0000 then e ← fuzzy_distance (fuzzy_find_suffix name) (fuzzy_find_suffix (tg_leaf t)) 0xFFFF0000; Ret (u32 (d + u32 (e * 10))) else Ret d.
(** Entries that are never candidates *)
Definition named (name : list byte) : bool :=
  negb (char_is name 0 "." || (zlen name =? 0) || (zlen name >? FUZZY_NAME_LIMIT) || (strcmp name (tg_leaf t) =? 0)).
Definition sized (st : option entry_stat) : option entry_stat :=
  st ← st; if negb (es_regular st) || (es_size st =? 0) || (es_size st >? maximum) then None else Some st.
(** One entry of the scan *)
Definition scan_entry (e : dir_entry) (s : scan_state) : outcome scan_state :=
  if negb (named e.1) then Ret s
  else match sized e.2 with
       | None => Ret s
       | Some st =>
           exact ← (match sc_exact s with
                    | None => if es_size st =? tg_size t then metadata_mtime_matches (es_mtime st) (es_nsec st) (tg_mtime t) (tg_nsec t) (tg_window t) else Ret false
                    | Some _ => Ret false
                    end);
           if (exact : bool) then Ret (MkScan (Some (MkCand e.1 (es_size st) 0 0)) (sc_best s) (sc_lowest s))
           else
             d ← name_distance e.1 (sc_lowest s);
             if d >? sc_lowest s then Ret s
             else
               let gap := if es_size st >? tg_size t then es_size st - tg_size t else tg_size t - es_size st in
               let cand := MkCand e.1 (es_size st) d gap in
               Ret (MkScan (sc_exact s) (if fuzzy_candidate_better cand (sc_best s) then Some cand else sc_best s) d)
       end.
Fixpoint scan_entries (l : list dir_entry) (s : scan_state) : outcome scan_state :=
  match l with [] => Ret s | e :: l => s ← scan_entry e s; scan_entries l s end.
(** The scan of incremental_check.c [fuzzy_basis_find_and_load] over the entries
    [readdir] gives, and its choice *)
Definition fuzzy_choice (listing : list dir_entry) : outcome (option FuzzyCandidate) :=
  if zlen (tg_leaf t) >? FUZZY_NAME_LIMIT then Ret None
  else
    s ← scan_entries (take FUZZY_MAX_DIRECTORY_SCAN listing) (MkScan None None FUZZY_DIST_LIMIT);
    Ret (match sc_exact s with Some c => Some c | None => sc_best s end).
End Scan.

Example suffixes : fuzzy_find_suffix <$> [cs "a.tar.gz"; cs "..conf"; cs "x.c.bak"; cs "x.bak.old"; cs "lib.so.12"; cs "v.1~"; cs "dot."; cs "x.c.~1~"] =
  [cs ".gz"; []; cs ".c"; cs ".bak"; cs ".so"; cs ".1"; cs "."; cs ".c"].
Proof. reflexivity. Qed.
