(* ===== verification/FuzzyExact.v ===== *)
(** What the --fuzzy search finds: the row-by-row distance is the recursive one,
    its early rejection never hides a winner, and the choice is the least
    candidate among the entries looked at, whatever their order. *)

From stdpp Require Import list sorting.
From S2P Require Import Prelude Alloc CStr Names Libc Metadata Fuzzy.

(** ** The distance by recursion *)

(** On reversed names: their last characters are compared last. *)
Definition cell (c1 c2 : byte) (prev above diag : Z) : Z :=
  let subst := if bool_decide (c1 = c2) then 0 else FUZZY_DIST_UNIT + (bZ c1 - bZ c2) in
  Z.min (diag + subst) (if prev <? above then prev + FUZZY_DIST_UNIT + bZ c1 else above + FUZZY_DIST_UNIT + bZ c2).
Fixpoint edit (r1 : list byte) : list byte -> Z :=
  match r1 with
  | [] => fun r2 => zlen r2 * FUZZY_DIST_UNIT
  | c1 :: r1' =>
      fix go r2 :=
        match r2 with
        | [] => zlen r1 * FUZZY_DIST_UNIT
        | c2 :: r2' => cell c1 c2 (edit r1' r2) (go r2') (edit r1' r2')
        end
  end.
Definition byte_total (s : list byte) : Z := foldr (fun c n => bZ c + n) 0 s.
Definition distance (s1 s2 : list byte) : Z :=
  match s1, s2 with
  | [], s | s, [] => zlen s * FUZZY_DIST_UNIT + byte_total s
  | _, _ => edit (rev s1) (rev s2)
  end.

Lemma edit_nil_r r1 : edit r1 [] = zlen r1 * FUZZY_DIST_UNIT.
Proof. by destruct r1. Qed.
Lemma edit_cons c1 r1 c2 r2 : edit (c1 :: r1) (c2 :: r2) = cell c1 c2 (edit r1 (c2 :: r2)) (edit (c1 :: r1) r2) (edit r1 r2).
Proof. done. Qed.

(** Never below the difference in length, never above every byte being charged *)
Lemma edit_range r1 : forall r2, Z.abs (zlen r1 - zlen r2) * FUZZY_DIST_UNIT <= edit r1 r2 <= (zlen r1 + zlen r2) * (FUZZY_DIST_UNIT + 255).
Proof.
  unfold FUZZY_DIST_UNIT. induction r1 as [|c1 r1 IH1]; intros r2; [cbn [edit]; change (zlen []) with 0; pose proof (zlen_nonneg r2); unfold FUZZY_DIST_UNIT; lia|].
  induction r2 as [|c2 r2 IH2]; [rewrite edit_nil_r; change (zlen []) with 0; pose proof (zlen_nonneg (c1 :: r1)); unfold FUZZY_DIST_UNIT; lia|].
  rewrite edit_cons. pose proof (IH1 (c2 :: r2)) as Hp. pose proof (IH1 r2) as Hd. revert IH2 Hp Hd. generalize (edit r1 (c2 :: r2)) (edit (c1 :: r1) r2) (edit r1 r2). intros p a d. rewrite !zlen_cons. pose proof (bZ_range c1). pose proof (bZ_range c2). pose proof (zlen_nonneg r1). pose proof (zlen_nonneg r2).
  unfold cell, FUZZY_DIST_UNIT. intros. destruct (Z.ltb_spec p a); case_bool_decide; lia.
Qed.

(** ** The loops compute it *)

(** A row: the distances of [r1] to every prefix of [s2] beyond [acc] *)
Fixpoint row (r1 acc s2 : list byte) : list Z :=
  match s2 with [] => [] | c :: s2 => edit r1 (c :: acc) :: row r1 (c :: acc) s2 end.

Lemma dist_cell_exact c1 c2 p a d : 0 <= p < 2 ^ 30 -> 0 <= a < 2 ^ 30 -> 0 <= d < 2 ^ 30 -> dist_cell c1 c2 p a d = cell c1 c2 p a d.
Proof.
  intros Hp Ha Hd. pose proof (bZ_range c1). pose proof (bZ_range c2). unfold dist_cell, cell, FUZZY_DIST_UNIT. assert (He : c1 = c2 <-> bZ c1 - bZ c2 = 0) by (split; [intros ->; lia|intros E; apply byte.unsigned_inj; lia]).
  destruct (Z.eqb_spec (bZ c1 - bZ c2) 0) as [E|E]; [rewrite bool_decide_eq_true_2 by (by apply He)|rewrite bool_decide_eq_false_2 by (intros Hc; apply E, He, Hc)];
    [|destruct (Z.ltb_spec (bZ c1 - bZ c2) 0)]; rewrite !u32_small by lia; destruct (Z.ltb_spec p a); match goal with |- (if ?x <? ?y then _ else _) = _ => destruct (Z.ltb_spec x y) end; lia.
Qed.
Lemma edit_small r1 r2 : zlen r1 <= 192 -> zlen r2 <= 192 -> 0 <= edit r1 r2 < 2 ^ 30.
Proof. intros. pose proof (edit_range r1 r2) as Her. unfold FUZZY_DIST_UNIT in Her. lia. Qed.

Lemma dist_row_exact c1 r1 s2 : forall acc, zlen r1 <= 191 -> zlen acc + zlen s2 <= 192 ->
  dist_row c1 s2 (row r1 acc s2) (edit r1 acc) (edit (c1 :: r1) acc) = row (c1 :: r1) acc s2.
Proof.
  induction s2 as [|c2 s2 IH]; intros acc H1 H2; [done|]. cbn [dist_row row]. rewrite zlen_cons in H2. pose proof (zlen_nonneg s2).
  rewrite dist_cell_exact by (apply edit_small; rewrite ?zlen_cons; lia). rewrite <- edit_cons. f_equal. apply IH; rewrite ?zlen_cons; lia.
Qed.
Lemma dist_rows_exact s1 s2 : forall r1, zlen s1 + zlen r1 <= 192 -> zlen s2 <= 192 ->
  dist_rows s1 s2 (zlen r1) (row r1 [] s2) = row (rev s1 ++ r1) [] s2.
Proof.
  induction s1 as [|c1 s1 IH]; intros r1 H1 H2; [done|]. cbn [dist_rows rev]. rewrite zlen_cons in H1. pose proof (zlen_nonneg s1). pose proof (zlen_nonneg r1). rewrite !u32_small by (unfold FUZZY_DIST_UNIT; lia).
  rewrite <- (edit_nil_r r1). replace ((zlen r1 + 1) * FUZZY_DIST_UNIT) with (edit (c1 :: r1) []) by (rewrite edit_nil_r, zlen_cons; f_equal; lia).
  rewrite dist_row_exact by (change (zlen []) with 0; lia). rewrite <- app_assoc. cbn [app]. replace (zlen r1 + 1) with (zlen (c1 :: r1)) by (rewrite zlen_cons; lia). apply IH; rewrite ?zlen_cons; lia.
Qed.
Lemma row_length r1 s2 : forall acc, length (row r1 acc s2) = length s2.
Proof. induction s2; intros acc; cbn; auto. Qed.
Lemma row_last r1 s2 : forall acc c, last (row r1 acc (s2 ++ [c])) = Some (edit r1 (rev (s2 ++ [c]) ++ acc)).
Proof.
  induction s2 as [|c2 s2 IH]; intros acc c; [done|]. cbn [app row rev]. rewrite last_cons, IH. by rewrite <- app_assoc.
Qed.
Lemma first_row s2 : forall acc, zlen acc + zlen s2 <= 192 -> (fun i => u32 ((Z.of_nat i + 1) * FUZZY_DIST_UNIT)) <$> seq (length acc) (length s2) = row [] acc s2.
Proof.
  induction s2 as [|c s2 IH]; intros acc H; [done|]. rewrite zlen_cons in H. pose proof (zlen_nonneg s2). pose proof (zlen_nonneg acc). cbn [length seq fmap list_fmap row]. f_equal.
  - rewrite u32_small by (unfold zlen, FUZZY_DIST_UNIT in *; lia). cbn [edit]. rewrite zlen_cons. unfold zlen. f_equal. lia.
  - rewrite <- (IH (c :: acc)) by (rewrite zlen_cons; lia). done.
Qed.
Lemma byte_sum_exact s : zlen s <= 192 -> byte_sum s = byte_total s /\ 0 <= byte_total s <= 255 * zlen s.
Proof.
  intros Hs. assert (Hgen : forall l acc, 0 <= acc -> acc + 255 * zlen l < 2 ^ 32 -> fold_left (fun cost c => u32 (cost + bZ c)) l acc = acc + byte_total l /\ 0 <= byte_total l <= 255 * zlen l).
  { induction l as [|c l IH]; intros acc H0 H; cbn [fold_left byte_total foldr]; [change (zlen []) with 0; lia|]. rewrite zlen_cons in *. pose proof (bZ_range c). pose proof (zlen_nonneg l). rewrite u32_small by lia. destruct (IH (acc + bZ c)) as [-> Hb]; [lia..|]. fold (byte_total l). lia. }
  unfold byte_sum. destruct (Hgen s 0) as [-> Hb]; lia.
Qed.

Lemma distance_range s1 s2 : zlen s1 <= 192 -> zlen s2 <= 192 -> Z.abs (zlen s1 - zlen s2) * FUZZY_DIST_UNIT <= distance s1 s2 < 2 ^ 25.
Proof.
  intros H1 H2. unfold distance. pose proof (zlen_nonneg s1). pose proof (zlen_nonneg s2). destruct (byte_sum_exact s1 H1) as [_ Hb1]. destruct (byte_sum_exact s2 H2) as [_ Hb2]. unfold FUZZY_DIST_UNIT.
  destruct s1 as [|c1 s1]; [change (zlen []) with 0 in *; destruct s2; change (zlen []) with 0 in *; lia|]. destruct s2 as [|c2 s2]; [change (zlen []) with 0 in *; lia|].
  pose proof (edit_range (rev (c1 :: s1)) (rev (c2 :: s2))) as Hr. unfold FUZZY_DIST_UNIT, zlen in *. rewrite !length_rev in Hr. lia.
Qed.

(** The distance function is the recursive distance, or rejects names whose
    lengths alone are too far apart. *)
Lemma fuzzy_distance_exact s1 s2 limit : zlen s1 <= 192 -> zlen s2 <= 192 ->
  fuzzy_distance s1 s2 limit = Ret (if Z.abs (zlen s1 - zlen s2) * FUZZY_DIST_UNIT >? limit then FUZZY_DIST_REJECT else distance s1 s2).
Proof.
  intros H1 H2. pose proof (zlen_nonneg s1). pose proof (zlen_nonneg s2). unfold fuzzy_distance. replace (if zlen s1 >? zlen s2 then _ else _) with (Z.abs (zlen s1 - zlen s2)) by (destruct (Z.gtb_spec (zlen s1) (zlen s2)); lia).
  rewrite u32_small by (unfold FUZZY_DIST_UNIT; lia). destruct (_ >? limit); [done|]. destruct (byte_sum_exact s1 H1) as [E1 Hb1]. destruct (byte_sum_exact s2 H2) as [E2 Hb2].
  destruct s1 as [|c1 s1].
  - change (zlen [] =? 0) with true. cbn [orb]. rewrite E2, !u32_small by (unfold FUZZY_DIST_UNIT; rewrite ?u32_small; lia). by destruct s2.
  - destruct (Z.eqb_spec (zlen (c1 :: s1)) 0); [rewrite zlen_cons in *; pose proof (zlen_nonneg s1); lia|]. destruct s2 as [|c2 s2 _] using rev_ind.
    + change (zlen [] =? 0) with true. cbn [orb]. by rewrite E1, !u32_small by (unfold FUZZY_DIST_UNIT; rewrite ?u32_small; lia).
    + destruct (Z.eqb_spec (zlen (s2 ++ [c2])) 0) as [E|_]; [rewrite zlen_app, zlen_cons in E; pose proof (zlen_nonneg s2); change (zlen []) with 0 in E; lia|]. cbn [orb]. destruct (Z.gtb_spec (zlen (s2 ++ [c2])) (FUZZY_NAME_LIMIT + 1)); [unfold FUZZY_NAME_LIMIT in *; lia|].
      pose proof (first_row (s2 ++ [c2]) [] ltac:(change (zlen []) with 0; lia)) as Hfirst. cbn [length] in Hfirst. cbv zeta. rewrite Hfirst. replace (dist_rows (c1 :: s1) (s2 ++ [c2]) 0) with (dist_rows (c1 :: s1) (s2 ++ [c2]) (zlen (@nil byte))) by done. rewrite dist_rows_exact by (change (zlen []) with 0; lia). rewrite app_nil_r.
      assert (Hlast : row (rev (c1 :: s1)) [] (s2 ++ [c2]) !! length s2 = Some (edit (rev (c1 :: s1)) (rev (s2 ++ [c2])))).
      { pose proof (row_last (rev (c1 :: s1)) s2 [] c2) as Hl. rewrite last_lookup, row_length, length_app, app_nil_r in Hl. by rewrite Nat.add_comm in Hl. }
      unfold ld. replace (zlen (s2 ++ [c2]) - 1) with (zlen s2) by (rewrite zlen_app, zlen_cons; change (zlen []) with 0; lia). destruct (Z.leb_spec 0 (zlen s2)); [|pose proof (zlen_nonneg s2); lia]. rewrite Z2Nat_zlen, Hlast.
      unfold distance. by destruct (s2 ++ [c2]) eqn:E; [destruct s2|].
Qed.

(** ** Names and their suffixes *)

Lemma suffix_loop_length fuel : forall fn fn_len ht suf, (length suf <= length fn)%nat -> (length (suffix_loop fuel fn fn_len ht suf) <= length fn)%nat.
Proof.
  induction fuel as [|fuel IH]; intros fn fn_len ht suf Hs; [done|]. cbn [suffix_loop]. case_bool_decide; [done|]. destruct (dot_before fn fn_len) as [s|]; [|done]. destruct (backup_suffix _ _ _ _); [by apply IH|].
  assert (Ht : (length (take (fn_len - s) (drop s fn)) <= length fn)%nat) by (rewrite length_take, length_drop; lia). case_bool_decide; [done|]. destruct (forallb _ _); [by apply IH|done].
Qed.
Lemma skip_dots_length s : (length (skip_dots s) <= length s)%nat.
Proof. induction s as [|c s IH]; cbn; [done|]. case_bool_decide; cbn; lia. Qed.
Lemma suffix_length name : zlen (fuzzy_find_suffix name) <= zlen name.
Proof.
  unfold fuzzy_find_suffix, zlen. pose proof (skip_dots_length name). set (ht := _ && _). set (n := if ht then _ else _).
  pose proof (suffix_loop_length (S n) (skip_dots name) n ht [] ltac:(cbn; lia)). lia.
Qed.

Definition total (leaf name : list byte) : Z := distance name leaf + 10 * distance (fuzzy_find_suffix name) (fuzzy_find_suffix leaf).

(** Up to the running limit the sum is exact; a name beyond it is recognized. *)
Lemma name_distance_exact t name lowest : zlen name <= 192 -> zlen (tg_leaf t) <= 192 -> 0 <= lowest <= FUZZY_DIST_LIMIT ->
  exists d, name_distance t name lowest = Ret d /\ (if total (tg_leaf t) name <=? lowest then d = total (tg_leaf t) name else lowest < d).
Proof.
  intros Hn Hl Hlow. unfold name_distance. pose proof (distance_range name (tg_leaf t) Hn Hl) as Hd. pose proof (suffix_length name). pose proof (suffix_length (tg_leaf t)).
  pose proof (distance_range (fuzzy_find_suffix name) (fuzzy_find_suffix (tg_leaf t)) ltac:(lia) ltac:(lia)) as Hs. unfold total, FUZZY_DIST_LIMIT, FUZZY_DIST_UNIT in *. rewrite (fuzzy_distance_exact name (tg_leaf t) lowest) by done. cbn [mbind outcome_bind]. unfold FUZZY_DIST_UNIT.
  destruct (Z.gtb_spec (Z.abs (zlen name - zlen (tg_leaf t)) * 65536) lowest).
  - exists FUZZY_DIST_REJECT. split; [done|]. destruct (Z.leb_spec (distance name (tg_leaf t) + 10 * distance (fuzzy_find_suffix name) (fuzzy_find_suffix (tg_leaf t))) lowest); [lia|]. unfold FUZZY_DIST_REJECT, FUZZY_DIST_UNIT. lia.
  - destruct (Z.ltb_spec (distance name (tg_leaf t)) 0xFFFF0000); [|lia]. rewrite fuzzy_distance_exact by lia. unfold FUZZY_DIST_UNIT. pose proof (zlen_nonneg (fuzzy_find_suffix name)). pose proof (zlen_nonneg (fuzzy_find_suffix (tg_leaf t))).
    destruct (Z.gtb_spec (Z.abs (zlen (fuzzy_find_suffix name) - zlen (fuzzy_find_suffix (tg_leaf t))) * 65536) 0xFFFF0000); [lia|]. cbn [mbind outcome_bind]. rewrite !u32_small by (rewrite ?u32_small; lia).
    eexists. split; [done|]. match goal with |- context [?a <=? lowest] => destruct (Z.leb_spec a lowest) end; lia.
Qed.

(** ** The order of candidates *)

Definition cand_le (c b : FuzzyCandidate) : Prop :=
  fc_distance c < fc_distance b \/ fc_distance c = fc_distance b /\ (fc_gap c < fc_gap b \/ fc_gap c = fc_gap b /\ str_le (fc_name c) (fc_name b)).
Lemma better_le c b : fuzzy_candidate_better b (Some c) = false <-> cand_le c b.
Proof.
  unfold fuzzy_candidate_better, cand_le, str_le. pose proof (strcmp_opp (fc_name c) (fc_name b)). destruct (Z.eqb_spec (fc_distance b) (fc_distance c)); cbn [negb]; [|rewrite Z.ltb_ge; lia].
  destruct (Z.eqb_spec (fc_gap b) (fc_gap c)); cbn [negb]; rewrite Z.ltb_ge; lia.
Qed.
#[local] Instance cand_le_trans : Transitive cand_le.
Proof.
  intros a b c. unfold cand_le. intros H1 H2. assert (Hn : str_le (fc_name a) (fc_name b) -> str_le (fc_name b) (fc_name c) -> str_le (fc_name a) (fc_name c)) by apply str_le_trans. intuition lia.
Qed.
Lemma cand_le_total a b : cand_le a b \/ cand_le b a.
Proof. unfold cand_le, str_le. pose proof (strcmp_opp (fc_name a) (fc_name b)). lia. Qed.
Lemma cand_le_name a b : cand_le a b -> cand_le b a -> fc_name a = fc_name b.
Proof. unfold cand_le, str_le. intros. apply strcmp_eq. pose proof (strcmp_opp (fc_name a) (fc_name b)). lia. Qed.

Section Choice.
Context (maximum : Z) (t : target) (Hleaf : zlen (tg_leaf t) <= FUZZY_NAME_LIMIT).
Context (Ht : - 2 ^ 61 <= tg_mtime t < 2 ^ 61 /\ 0 <= tg_nsec t < billion /\ 0 <= tg_window t < 2 ^ 31).

Definition stat_ok (e : dir_entry) : Prop := forall st, e.2 = Some st -> - 2 ^ 61 <= es_mtime st < 2 ^ 61 /\ 0 <= es_nsec st < billion.
(** The time stamps agree within the window *)
Definition same_time (st : entry_stat) : bool :=
  if tg_window t =? 0 then es_mtime st =? tg_mtime t else bool_decide (Z.abs (stamp (es_mtime st) (es_nsec st) - stamp (tg_mtime t) (tg_nsec t)) <= tg_window t * billion).
Definition eligible (e : dir_entry) : bool := named t e.1 && bool_decide (is_Some (sized maximum e.2)).
Definition hits (e : dir_entry) : bool := named t e.1 && match sized maximum e.2 with Some st => (es_size st =? tg_size t) && same_time st | None => false end.
Definition candidate (e : dir_entry) : FuzzyCandidate :=
  let sz := match sized maximum e.2 with Some st => es_size st | None => 0 end in
  MkCand e.1 sz (total (tg_leaf t) e.1) (Z.abs (sz - tg_size t)).

Definition best_of (seen : list dir_entry) (b : option FuzzyCandidate) : Prop :=
  match b with
  | None => forall e, e ∈ seen -> eligible e = true -> FUZZY_DIST_LIMIT < fc_distance (candidate e)
  | Some c => (exists e, e ∈ seen /\ eligible e = true /\ c = candidate e /\ fc_distance c <= FUZZY_DIST_LIMIT) /\ forall e, e ∈ seen -> eligible e = true -> cand_le c (candidate e)
  end.
Definition scan_inv (seen : list dir_entry) (s : scan_state) : Prop :=
  0 <= sc_lowest s <= FUZZY_DIST_LIMIT /\
  match sc_exact s with
  | Some c => exists e, head (filter (fun e => hits e = true) seen) = Some e /\ fc_name c = e.1
  | None => filter (fun e => hits e = true) seen = [] /\ best_of seen (sc_best s) /\ sc_lowest s = match sc_best s with Some c => fc_distance c | None => FUZZY_DIST_LIMIT end
  end.

Lemma named_length n : named t n = true -> zlen n <= 192.
Proof. unfold named, FUZZY_NAME_LIMIT. intros H%negb_true_iff. rewrite !orb_false_iff in H. destruct H as [[[_ _] H] _]. by apply Z.gtb_ltb, Z.ltb_ge in H || (rewrite Z.gtb_ltb, Z.ltb_ge in H). Qed.
Lemma total_nonneg n : zlen n <= 192 -> 0 <= total (tg_leaf t) n.
Proof.
  intros Hn. unfold total, FUZZY_NAME_LIMIT in *. pose proof (suffix_length n). pose proof (suffix_length (tg_leaf t)). pose proof (distance_range n (tg_leaf t) Hn Hleaf). pose proof (distance_range (fuzzy_find_suffix n) (fuzzy_find_suffix (tg_leaf t)) ltac:(lia) ltac:(lia)).
  unfold FUZZY_DIST_UNIT in *. lia.
Qed.

(** An entry that is not a candidate, or lies beyond the best, changes nothing. *)
Lemma inv_skip seen e s : hits e = false \/ is_Some (sc_exact s) -> eligible e = false \/ sc_lowest s < fc_distance (candidate e) -> scan_inv seen s -> scan_inv (seen ++ [e]) s.
Proof.
  intros Hh He [Hl Hinv]. split; [done|]. rewrite filter_app. destruct (sc_exact s) as [c|].
  - destruct Hinv as (x&Hx&Hn). exists x. split; [|done]. by destruct (filter _ seen).
  - destruct Hh as [Hh|[? ?]]; [|done]. destruct Hinv as (->&Hb&Hlow). rewrite filter_cons_False, filter_nil by (by rewrite Hh). split_and!; [done| |done]. unfold best_of in *. destruct (sc_best s) as [c|].
    + destruct Hb as [(x&Hx&Hrest) Hall]. split; [exists x; split; [by apply elem_of_app; left|done]|]. intros y [Hy|Hy%list_elem_of_singleton]%elem_of_app Hey; [by apply Hall|]. subst y. destruct He as [He|He]; [congruence|]. left. lia.
    + intros y [Hy|Hy%list_elem_of_singleton]%elem_of_app Hey; [by apply Hb|]. subst y. destruct He as [He|He]; [congruence|]. lia.
Qed.
(** A candidate within the limit is compared with the best. *)
Lemma inv_take seen e s : hits e = false \/ is_Some (sc_exact s) -> eligible e = true -> fc_distance (candidate e) <= sc_lowest s -> 0 <= fc_distance (candidate e) -> scan_inv seen s ->
  scan_inv (seen ++ [e]) (MkScan (sc_exact s) (if fuzzy_candidate_better (candidate e) (sc_best s) then Some (candidate e) else sc_best s) (fc_distance (candidate e))).
Proof.
  intros Hh He Hd H0 [Hl Hinv]. split; [cbn [sc_lowest]; lia|]. cbn [sc_exact sc_best sc_lowest]. rewrite filter_app. destruct (sc_exact s) as [c|].
  - destruct Hinv as (x&Hx&Hn). exists x. split; [|done]. by destruct (filter _ seen).
  - destruct Hh as [Hh|[? ?]]; [|done]. destruct Hinv as (->&Hb&Hlow). rewrite filter_cons_False, filter_nil by (by rewrite Hh). split; [done|].
    assert (Hsnoc : forall c, (exists x, x ∈ seen ++ [e] /\ eligible x = true /\ c = candidate x /\ fc_distance c <= FUZZY_DIST_LIMIT) -> (forall x, x ∈ seen -> eligible x = true -> cand_le c (candidate x)) -> cand_le c (candidate e) -> best_of (seen ++ [e]) (Some c)).
    { intros c Hc Hall Hce. split; [done|]. intros y [Hy|Hy%list_elem_of_singleton]%elem_of_app Hey; [by apply Hall|by subst]. }
    destruct (sc_best s) as [b|]; cbn [best_of] in Hb.
    + destruct Hb as [(x&Hx&Hrest) Hall]. destruct (fuzzy_candidate_better (candidate e) (Some b)) eqn:Eb.
      * split; [|done]. apply Hsnoc; [exists e; split_and!; [apply elem_of_app; right; by left|done|done|lia]| |destruct (cand_le_total (candidate e) (candidate e)); done].
        intros y Hy Hey. destruct (cand_le_total (candidate e) b) as [Hle|Hle%better_le]; [|congruence]. etrans; [exact Hle|by apply Hall].
      * apply better_le in Eb. split; [apply Hsnoc; [exists x; split; [by apply elem_of_app; left|done]|done|done]|]. unfold cand_le in Eb. lia.
    + split; [|done]. apply Hsnoc; [exists e; split_and!; [apply elem_of_app; right; by left|done|done|lia]| |destruct (cand_le_total (candidate e) (candidate e)); done].
      intros y Hy Hey. specialize (Hb y Hy Hey). left. lia.
Qed.

Lemma sized_inv o st : sized maximum o = Some st -> o = Some st.
Proof. unfold sized. destruct o as [st'|]; cbn; [|done]. destruct (_ || _); [done|]. by intros [= ->]. Qed.
Lemma exact_test e s st : stat_ok e -> named t e.1 = true -> sized maximum e.2 = Some st ->
  (match sc_exact s with None => if es_size st =? tg_size t then metadata_mtime_matches (es_mtime st) (es_nsec st) (tg_mtime t) (tg_nsec t) (tg_window t) else Ret false | Some _ => Ret false end) = Ret (match sc_exact s with None => hits e | Some _ => false end).
Proof.
  intros Hok Hn Hst. destruct (sc_exact s); [done|]. unfold hits. rewrite Hn, Hst. cbn [andb]. destruct (_ =? _); [|done]. destruct (Hok st) as [H1 H2]; [by apply sized_inv|]. destruct Ht as (?&?&?). by rewrite mtime_window_exact.
Qed.
Lemma scan_entry_inv seen e s : stat_ok e -> scan_inv seen s -> exists s', scan_entry maximum t e s = Ret s' /\ scan_inv (seen ++ [e]) s'.
Proof.
  intros Hok Hinv. unfold scan_entry. destruct (named t e.1) eqn:Hn; cbn [negb].
  2: { exists s. split; [done|]. apply inv_skip; [left; unfold hits; by rewrite Hn|left; unfold eligible; by rewrite Hn|done]. }
  destruct (sized maximum e.2) as [st|] eqn:Hst.
  2: { exists s. split; [done|]. apply inv_skip; [left; unfold hits; rewrite Hst; by destruct (named t e.1)|left; unfold eligible; rewrite Hst; by destruct (named t e.1)|done]. }
  rewrite (exact_test e s st Hok Hn Hst). cbn [mbind outcome_bind]. assert (He : eligible e = true) by (unfold eligible; rewrite Hn, Hst; done).
  assert (Hcase : (match sc_exact s with None => hits e | Some _ => false end) = true /\ sc_exact s = None /\ hits e = true \/ (match sc_exact s with None => hits e | Some _ => false end) = false /\ (hits e = false \/ is_Some (sc_exact s))).
  { destruct (sc_exact s); [right; split; [done|by right]|]. destruct (hits e); [by left|right; split; [done|by left]]. }
  destruct Hcase as [(->&Hno&Hh)|(->&Hh)].
  - eexists. split; [done|]. destruct Hinv as [Hl Hinv]. rewrite Hno in Hinv. destruct Hinv as [Hf _]. split; [done|]. cbn [sc_exact]. exists e. split; [|done]. rewrite filter_app, Hf. cbn [app]. by rewrite filter_cons_True by done.
  - pose proof (named_length _ Hn) as Hlen. pose proof (total_nonneg e.1 Hlen) as Hpos. destruct Hinv as [Hl Hrest]. destruct (name_distance_exact t e.1 (sc_lowest s) Hlen Hleaf Hl) as (d&->&Hd). cbn [mbind outcome_bind].
    assert (Hc : candidate e = MkCand e.1 (es_size st) (total (tg_leaf t) e.1) (if es_size st >? tg_size t then es_size st - tg_size t else tg_size t - es_size st)) by (unfold candidate; rewrite Hst; f_equal; destruct (Z.gtb_spec (es_size st) (tg_size t)); lia).
    destruct (Z.leb_spec (total (tg_leaf t) e.1) (sc_lowest s)) as [Hle|Hgt].
    + subst d. destruct (Z.gtb_spec (total (tg_leaf t) e.1) (sc_lowest s)); [lia|]. eexists. split; [done|]. rewrite <- Hc. apply inv_take; [done|done|done|done|by split].
    + destruct (Z.gtb_spec d (sc_lowest s)); [|lia]. exists s. split; [done|]. apply inv_skip; [done|right; done|by split].
Qed.
Lemma scan_entries_inv l : forall seen s, Forall stat_ok l -> scan_inv seen s -> exists s', scan_entries maximum t l s = Ret s' /\ scan_inv (seen ++ l) s'.
Proof.
  induction l as [|e l IH]; intros seen s Hok Hinv; [exists s; by rewrite app_nil_r|]. apply Forall_cons in Hok as [He Hl]. cbn [scan_entries]. destruct (scan_entry_inv seen e s He Hinv) as (s1&->&H1). cbn [mbind outcome_bind].
  destruct (IH (seen ++ [e]) s1 Hl H1) as (s2&->&H2). exists s2. split; [done|]. by rewrite <- app_assoc in H2.
Qed.

(** What the choice is, for a listing within the limit of the scan *)
Definition chosen (seen : list dir_entry) (r : option FuzzyCandidate) : Prop :=
  match head (filter (fun e => hits e = true) seen) with
  | Some e => fc_name <$> r = Some e.1
  | None => best_of seen r
  end.
Lemma fuzzy_choice_chosen listing : Forall stat_ok listing -> exists r, fuzzy_choice maximum t listing = Ret r /\ chosen (take FUZZY_MAX_DIRECTORY_SCAN listing) r.
Proof.
  intros Hok. unfold fuzzy_choice. destruct (Z.gtb_spec (zlen (tg_leaf t)) FUZZY_NAME_LIMIT); [lia|]. destruct (scan_entries_inv (take FUZZY_MAX_DIRECTORY_SCAN listing) [] (MkScan None None FUZZY_DIST_LIMIT)) as (s&->&Hs); [by apply Forall_take| |].
  { split; [cbn [sc_lowest]; unfold FUZZY_DIST_LIMIT, FUZZY_DIST_UNIT; lia|]. cbn [sc_exact sc_best sc_lowest]. split_and!; [done| |done]. intros e He. by apply elem_of_nil in He. }
  cbn [mbind outcome_bind app] in *. eexists. split; [done|]. destruct Hs as [_ Hs]. unfold chosen. destruct (sc_exact s) as [c|].
  - destruct Hs as (e&->&Hn). cbn. by rewrite Hn.
  - destruct Hs as (->&Hb&_). done.
Qed.
Lemma best_unique l l' r r' : l ≡ₚ l' -> NoDup l.*1 -> best_of l r -> best_of l' r' -> r = r'.
Proof.
  intros Hp Hnd Hr Hr'. assert (Hmem : forall e, e ∈ l <-> e ∈ l') by (intros e; by rewrite Hp). destruct r as [c|], r' as [c'|]; cbn [best_of] in *; [| | |done].
  - destruct Hr as [(e&He&Hee&->&_) Hmin]. destruct Hr' as [(e'&He'&Hee'&->&_) Hmin']. f_equal. assert (Hn : e.1 = e'.1) by (apply (cand_le_name (candidate e) (candidate e')); [apply Hmin; [by apply Hmem|done]|apply Hmin'; [by apply Hmem|done]]).
    assert (e = e') as ->; [|done]. assert (He2 : e' ∈ l) by (by apply Hmem). apply list_elem_of_lookup in He as [i Hi]. apply list_elem_of_lookup in He2 as [j Hj]. assert (i = j) as ->; [|congruence].
    apply (NoDup_lookup l.*1 i j e.1 Hnd); (etransitivity; [apply list_lookup_fmap|]); [exact (f_equal (fmap fst) Hi)|rewrite Hn; exact (f_equal (fmap fst) Hj)].
  - destruct Hr as [(e&He&Hee&->&Hle) _]. apply Hmem in He. specialize (Hr' e He Hee). lia.
  - destruct Hr' as [(e&He&Hee&->&Hle) _]. apply Hmem in He. specialize (Hr e He Hee). lia.
Qed.
End Choice.

(** The entries the search looks at *)
Definition scanned (listing : list dir_entry) : list dir_entry := take FUZZY_MAX_DIRECTORY_SCAN listing.

(** C29: the --fuzzy basis is the right one among the entries the search looks
    at, the first 4096 the directory yields.  For a wanted name of at most
    [FUZZY_NAME_LIMIT] bytes and time stamps a file system can have, the search
    returns: the first of these entries with the size and time of the wanted file,
    if there is one; otherwise the least eligible of them by distance of name and
    suffix (the recursive weighted edit distance), size gap and name, among those
    within the limit, or none if none is.  An entry past the first 4096 is never
    considered.  Without an exact sibling the choice depends on which entries are
    the first 4096 but not on their order: so for a directory of at most 4096
    entries not on the order in which it is read. *)
Theorem fuzzy_choice_exact maximum t listing (Hleaf : zlen (tg_leaf t) <= FUZZY_NAME_LIMIT)
    (Ht : - 2 ^ 61 <= tg_mtime t < 2 ^ 61 /\ 0 <= tg_nsec t < billion /\ 0 <= tg_window t < 2 ^ 31)
    (Hok : Forall stat_ok listing) (Hnames : NoDup listing.*1) :
  exists r, fuzzy_choice maximum t listing = Ret r /\
    match head (filter (fun e => hits maximum t e = true) (scanned listing)) with
    | Some e => fc_name <$> r = Some e.1
    | None =>
        match r with
        | None => forall e, e ∈ (scanned listing) -> eligible maximum t e = true -> FUZZY_DIST_LIMIT < total (tg_leaf t) e.1
        | Some c => (exists e, e ∈ (scanned listing) /\ eligible maximum t e = true /\ c = candidate maximum t e /\ fc_distance c <= FUZZY_DIST_LIMIT) /\
                    forall e, e ∈ (scanned listing) -> eligible maximum t e = true -> cand_le c (candidate maximum t e)
        end /\
        (forall listing', Forall stat_ok listing' -> scanned listing' ≡ₚ scanned listing -> fuzzy_choice maximum t listing' = Ret r) /\
        (forall listing', (length listing <= 4096)%nat -> listing' ≡ₚ listing -> fuzzy_choice maximum t listing' = Ret r)
    end.
Proof.
  destruct (fuzzy_choice_chosen maximum t Hleaf Ht listing Hok) as (r&Er&Hr). exists r. split; [done|]. unfold chosen in Hr. fold (scanned listing) in Hr. set (seen := scanned listing) in *. destruct (head _) as [e|] eqn:Eh; [done|]. split; [by destruct r|].
  assert (Hany : forall listing', Forall stat_ok listing' -> scanned listing' ≡ₚ seen -> fuzzy_choice maximum t listing' = Ret r).
  { intros listing' Hok' Hperm. destruct (fuzzy_choice_chosen maximum t Hleaf Ht listing' Hok') as (r'&Er'&Hr'). unfold chosen in Hr'. fold (scanned listing') in Hr'.
    assert (Hempty : filter (fun e => hits maximum t e = true) (scanned listing') = []) by (apply Permutation_nil; rewrite Hperm; by destruct (filter _ seen)). rewrite Hempty in Hr'. rewrite Er'. f_equal. symmetry.
    eapply best_unique; [symmetry; exact Hperm| |exact Hr|exact Hr']. unfold seen, scanned. rewrite <- (take_drop FUZZY_MAX_DIRECTORY_SCAN listing), fmap_app in Hnames. by apply NoDup_app in Hnames as (?&_). }
  split; [done|]. intros listing' Hl Hp. apply Hany; [by rewrite Hp|]. unfold seen, scanned, FUZZY_MAX_DIRECTORY_SCAN. pose proof (Permutation_length Hp). by rewrite !take_ge by lia.
Qed.

Definition demo_target : target := MkTarget (cs "report-2.txt") 500 1000 0 0.
Definition demo_listing : list dir_entry :=
  [(cs "report-1.txt", Some (MkStat true 480 900 0)); (cs "report-3.txt", Some (MkStat true 700 901 0)); (cs "notes", Some (MkStat true 10 1 0)); (cs "sub", Some (MkStat false 4096 1 0)); (cs ".x", None)].
Lemma fuzzy_choice_exact_witness : exists c, fuzzy_choice (2 ^ 28) demo_target demo_listing = Ret (Some c) /\ fuzzy_choice (2 ^ 28) demo_target (rev demo_listing) = Ret (Some c) /\ fc_name c = cs "report-1.txt".
Proof.
  destruct (fuzzy_choice_exact (2 ^ 28) demo_target demo_listing) as (r&Er&Hr).
  - vm_compute. discriminate.
  - vm_compute. intuition discriminate.
  - repeat (apply Forall_cons; split; [intros st Est; try discriminate Est; injection Est as <-; vm_compute; intuition discriminate|]). apply Forall_nil_2.
  - apply (bool_decide_unpack _). vm_compute. exact I.
  - exists (MkCand (cs "report-1.txt") 480 65535 20). vm_compute in Er. injection Er as <-. change (head _) with (@None dir_entry) in Hr. destruct Hr as (_&_&Hr). split; [vm_compute; reflexivity|]. split; [|reflexivity].
    apply Hr; [cbn; lia|symmetry; apply Permutation_rev].
Defined.
